(* ===== verification/_CoqProject ===== *)
-Q . S2P
Prelude.v
Monad.v
Ordered.v
Utf8.v
Model.v
Algebra.v
Intent.v
States.v
Interference.v
Ledger.v
Gates.v
Backstop.v
Secrets.v
Diagnostics.v
Explain.v
Verdict.v
CheckRules.v
Check.v
Prose.v
Canon.v
Journal.v
Request.v
EngineJournal.v
Region.v
Footprint.v
Resolve.v
Apart.v
StoreFiles.v
Quote.v
Render.v
Executor.v
Instance.v
Json.v
Engine.v
Hosts.v
EngineBackstop.v
Revert.v
Walk.v
Verbs.v
Reap.v
Fakes.v
EngineLogic.v
Upkeep.v
Drill.v
Refine.v
WriteAhead.v
Undoing.v
Recovery.v
HookProto.v
Hook.v
HookAdapters.v
Control.v
Authority.v
Lexer.v
Parser.v
Tree.v
ParserLogic.v
ParserEnds.v
Fmt.v
Ast.v
StaticValue.v
Site.v
Program.v
ExpandOp.v
Expand.v
ExpandLogic.v
ExpandFindings.v
LocalHost.v
Template.v
ArtifactRun.v
Ssh.v
Schedulers.v
DaemonSite.v
HookSdk.v
Conform.v
Sign.v
Shim.v
ControlClient.v
VerdictJson.v
