(* ===== verification/Prelude.v ===== *)
(** * rescind: a verification development

    rescind checks, before anything runs, how far a plan of operations can be undone,
    and then runs it with the undos, backstops and approvals the check relied on. This
    library models its surface language, from the lexer to the plan a text expands to,
    its core crate, from the plan model to the verdict, its engine, from the journal and
    the store to the lifecycle of an instance, the control channel operators reach it by
    and the hooks it reaches the world by, and the quoting and rendering of backstop
    artifacts, and proves what makes them correct. Sources are named relative to [src/].

    ** How the program is put together

    A text is lexed and parsed, with recovery, into a lossless tree, lowered to a surface
    tree, loaded with the files it imports, and expanded: operations, protocols, probes
    and roles become the primitives, guards and references of a plan.

    A plan (items: steps, knells, [par], [when], [repeat] and the items that change
    nothing) comes with a site (hosts, authenticators). [check] numbers the leaves,
    asks the interference query, the gate, backstop, closure and secret analyses about
    them, and returns a verdict: diagnostics, and fields such as how far the plan can be
    reversed. A plan with no diagnostic is accepted. The engine then keeps an instance
    of it in a state machine, holds the host's umbra in the ledger, records every event
    in a hash chain delivered to sinks, resolves bodies to strings for an executor, and
    decides at undo time from markers what may be overwritten. It walks the plan leaf by
    leaf: where a step acts, its gate, its guards and its acknowledgement are looked at,
    the journal gets the line that undoes it, the record with the step in flight goes to
    disk, and only then does the [do] run. A refusal or an operator's recall undoes the
    applied steps last in first out. A reap pass lets time do its part; boot takes up
    what a dead engine left. A backstop is a script rendered ahead of time and scheduled
    on the target, which undoes the steps that may cut the host off. A daemon runs the
    engine behind a lock: each connection has its thread, each verb its own, and a verb
    is an operator's where the peer is one and the plan is theirs. What the daemon has no
    binding for is a hook, a process that answers requests line by line over a link.

    ** The files

    - [Prelude]: results, machine integers with their wrap-around, strings, lines and
      lists; the tactics [str_norm], [result_inv], [membership] and the hint database
      [rescind].
    - [Model] ([core/src/model.rs], [body.rs], [util.rs]): the data of a plan;
      [bind_shape].
    - [Algebra] ([algebra.rs]), [Intent] ([intent.rs]), [States] ([states.rs]): reversal
      and numbering; intent and paths; the state machine, its table, as a step relation.
    - [Interference] ([interference.rs]): the conflict queries and the [par] rules, equal to
      declarative joins, and what their silence means; [Apart]: what it means once the
      shapes a plan declares have become files ([Resolve]).
    - [Ledger] ([ledger.rs]) and [StoreFiles] ([engine/src/store.rs]): the reservations
      across plans and the record the store keeps of them; the store's directory,
      created, opened and migrated with every call of the system going through or failing.
    - [Gates] ([gates.rs]): weighted thresholds over authenticators.
    - [Backstop] ([backstop.rs], [artifact.rs]), [Secrets] ([secrets.rs], [closure.rs]):
      what a backstop covers and when; where secrets stand; what a target can undo alone.
    - [Diagnostics] ([diagnostics.rs]), [Explain] ([explain.rs]), [Verdict]
      ([verdict.rs]), [Prose] ([prose.rs]): codes, listings, the verdict and its sentence;
      [VerdictJson] (its [to_json]).
    - [CheckRules], [Check] ([check.rs]): the verdict's fields, the diagnostics, and [check] itself with the theorems about accepted plans.
    - [Canon] ([canon.rs]), [Journal] ([journal.rs]), [Request] ([request.rs]): the
      canonical encoding and its promise ([CanonLaws]), the hash chain, the digests
      proofs bind to.
    - [EngineJournal] ([engine/src/journal.rs]), [Region] ([region.rs]), [Footprint]
      ([footprint.rs]), [Resolve] ([resolve.rs], [hook-proto/src/body.rs], [host.rs]):
      recording an event, fenced regions, markers and the decision at undo time,
      references to strings.
    - [Quote], [Render] ([render/src/quote.rs], [actions.rs], [lib.rs]): a value as one
      word of a shell; what an artifact is told to do.
    - [Executor] ([executor.rs], [scheduler.rs], [gates.rs], [secrets.rs],
      [notify.rs]): the traits behind which the world stands, as classes over its state;
      [Fakes]: the in-memory bindings beside them, as instances.
    - [Instance], [Engine], [Hosts], [EngineBackstop], [Revert], [Walk], [Verbs], [Reap]
      ([lifecycle.rs], [engine/src/backstop.rs],
      [gates.rs], [secrets.rs]): the record of an instance; the engine as a state monad,
      [ME] for its methods and [M] for those that hold a record; hosts and snapshots; the
      backstop and secrets at run time; undoing; gates and walking; the verbs; reap and boot.
    - [EngineLogic]: what a method keeps ([keeps], [still], [quiet]); [Refine]: the
      abstract machine and the refinement; [WriteAhead]: triples and the write-ahead
      discipline; [Undoing], [Recovery]: the revert and boot, and two runs that go wrong.
    - [Upkeep] ([lifecycle.rs], [engine/src/backstop.rs]): opening an engine, bootstrap,
      doctor and its canary; [Drill] ([lifecycle.rs]): a plan applied to a canary host and
      recanted, and the attestation of what was read before and after.
    - [Json] ([core/src/json/canonical.rs]): the values of [serde_json], canonical JSON
      and its hash; [HookProto] ([hook-proto/src]): the messages, their ops and fields;
      [Hook], [HookAdapters] ([engine/src/hook.rs]): the secret guard, the link as a
      machine of its critical sections ([link_step]), and the adapters that make a hook an
      executor, a sink, a scheduler and the rest, written against the class [HookLink] that
      the link of [Hook] is an instance of ([wire_link]).
    - [Control] ([engine/src/control.rs], [secrets.rs], [bindings/src/secrets.rs]): the
      mailbox and the daemon's own acceptors; frames, who is who, the verbs from their
      arguments to their replies, and the daemon as a machine of connections, verb threads
      and its own passes ([d_step]); [Authority]: in whose name the engine is called, a
      demonstration and what goes wrong; [ControlClient]: the other end of a connection.
    - [LocalHost], [Ssh] ([bindings/src/local.rs], [ssh.rs]): the two executors, over the
      system calls ([Os]) and the ssh client ([Transport]); [Template], [ArtifactRun]
      ([render/src/template]): the text of the three scripts, and what the POSIX one does
      when it runs, beside the engine; [Schedulers] ([cron.rs], [launchd.rs],
      [task_scheduler.rs] and the built-in bindings).
    - [DaemonSite] ([daemon/src/run.rs]): what the daemon makes of a site block, and its
      start to the end of boot; [Sign] ([engine/src/sign.rs]): signatures of entries.
    - [HookSdk] ([sdk/rust/src]), [Shim] ([sdk/shim]): the traits, the dispatch and the
      serve loop of the SDK; a hook that is a command; [Conform] ([engine/src/conform.rs],
      [sdk/rust/src/bin/conform_hook.rs]): the suite that judges a hook, and the reference.

    - [Monad], [Ordered], [Utf8]: the error and state monads with their laws, ordered
      maps and sorting, UTF-8.
    - [Lexer], [Parser] ([surface/src/syntax.rs], [lexer.rs], [parser.rs]): the
      kinds, the tokens, the productions over the events of a tree builder; [Tree]: the
      tree the events build; [ParserLogic]: the parser takes each token once, in order;
      [ParserEnds]: it comes to an end, but for a block left open, where it may not.
    - [Fmt] ([fmt.rs]), [Ast] ([ast.rs]), [StaticValue] ([resolve/value.rs]): the
      formatter, the surface tree, static values.
    - [Site] ([resolve/site.rs]), [Program] ([resolve/mod.rs]): the site block, its refusals and what is derived of it; files and their imports.
    - [ExpandOp], [Expand] ([resolve/expand.rs], [mod.rs]): operations and bodies, then
      items, probes, slots, plans and [resolve]; [ExpandLogic]: where the references of
      an expanded plan come from; [ExpandFindings]: [resolve] on the texts of the
      repository's own tests, and what it does wrong.

    A definition keeps its name in the source, with a suffix or prefix where two
    modules or a library use one name ([journal_append] for [journal::append],
    [JEvent] for the journal's [Event], [region_set] for
    [region::set], [decide_fact] for [footprint::decide]). A struct is a record, an enum
    an inductive type, [Result] is [Prelude.Result], a [BTreeMap] that is only looked up
    is a [gmap], a [Vec] a list. A loop over [&mut self] is a fold or a fixpoint that
    passes the state. Strings are strings of UTF-8 bytes.

    ** What is shown

    - Accepted plans ([Check], [Prose]): no step overwrites what the undo of an earlier one
      needs, whatever fills the holes of their shapes ([Apart]); what may cut its own host off is covered by an armed backstop; a [:target] undo, computed or
      restoring, needs nothing the target lacks; gates cannot be opened by the requester, nor without a human unless
      declared; secrets stay out of run strings; [reversible_through] is exactly how far
      the algebra goes, and the sentence printed about it is true.
    - The queries ([Interference]): equivalence with the declarative joins.
    - The algebra and paths ([Algebra], [Intent]), the machine ([States]): reversal is an
      involution, partial reversal undoes the applied prefix; an undo once begun is not
      abandoned; a final state is always reachable; the table is the function.
    - Gates: the enumeration of subsets decides exactly the threshold, within the widths
      stated; the reported minimum of humans is exact; the requester's proof is inert.
    - Reservations and the store: no two holdings overlap, the saved record gives the
      ledger back, a corrupt one is refused, a migration that fails at any call leaves a
      store the next one finds at the old schema or the new, no file of it but five touched.
    - Journal and requests: verification is exact, two verified chains with one end
      agree unless the hash collides on their own entries, a proof fits one request and
      one scope, sinks that do not refuse hold what the store holds.
    - Running ([Region], [Footprint], [Resolve]): set and strip are inverse; what may be
      overwritten; commands hold no secret; a closed body resolves without the
      controller; instantiating undoes binding.
    - The engine ([Refine], [WriteAhead], [Undoing], [Recovery]), for any sequence of
      calls and any answers of hosts, disk and bindings: stored records move only as the
      machine allows; a [do] runs only once its entry and its record are on disk, an undo
      only for the step the disk names last; undo is last in first out, ends, and leaves
      the instance closed or standing at the step that stopped it; a step held for drift
      ran nothing; boot loses no step in flight but one whose whole
      footprint reads as it was recorded, and what it finds applying it leaves refused, and
      held, undone, or standing at the step that could not be undone. A drill keeps
      off every host that is no canary, and an attestation that says restored stands on two
      readings of every fact; doctor's canary always comes back.
    - Control ([Authority]): for any frames, peers and interleaving of threads, each call of
      the engine is the daemon's or an operator's a connected peer is, for a plan that
      operator is for; so the daemon's store moves as the machine allows too.
    - Hooks ([Json], [Hook], [HookAdapters], [HookProto]): canonical JSON is injective; a
      request carries no secret it may not, but for one inside another, which is named; a reply reaches the caller whose id it has and no
      other; an adapter succeeds only on a reply with all its fields; every message has the
      fields its op's row says. A held secret is given once and within its bound
      ([Control]).
    - The surface: the tree has the text of the source, the formatter changes nothing but
      blanks, the parser ends where every block is closed, a static value is always
      computed; a site block is accepted exactly where it stands; a program loads, its
      imports never in a cycle, however the files refer to each other; an output that a
      body reads is one of the step its alias stands for there, secret where that step says
      so, but after a [when] or a [repeat] that binds the alias again.
    - Artifacts ([Quote], [Render]): a quoted value is one word of its shell; an artifact
      runs each value quoted and touches only the files of its facts; on the conditions its
      theorem names, the shell script restores what the engine would and defers where it
      would hold ([ArtifactRun]).
    - The verdict's JSON ([VerdictJson]): always printed, and the verdict again.
    - Hosts ([LocalHost], [Ssh], [Schedulers]): a file primitive does what it says and keeps
      every other path, on the controller and through a shell; a run line is read back as it
      was meant; what is reported has no secret the mask cannot
      complete; cron's entry comes and goes alone, where no other line reads as its marks.
    - The daemon's start ([DaemonSite]): a site that stands is bound, and what serves has
      what the site asked for.
    - Signatures ([Sign]): a signed chain verifies with the key, and what verifies is the
      engine's where only the engine signed.
    - The SDK ([HookSdk], [Conform], [Shim], [ControlClient]): a hook on it is, to the engine,
      its handlers; each request has one answer; the suite never finds it in breach; the
      shim is silent only where its command was; a client loses no event. Its hello over
      the socket is not the daemon's ([ControlClient.sdk_hello_is_refused]).

    ** Bounds and fuel

    [bind_shape] and [instantiate] take one turn per label and each turn shortens the
    pattern, so their fuel is its length plus one ([Resolve.bind_shape_fuel_enough],
    [Resolve.instantiate_loop_spec]). [canary] waits for its marker in turns of two seconds
    and has one for each second it may wait and one more ([Upkeep.canary_answers]). [revert] gives its loop one turn for each applied
    step and one to see that none is left ([Recovery.revert_fuel_enough]). Everything else
    of the engine is structural; the walk of a plan follows its items. The parser needs
    more turns than the source has bytes ([ParserEnds.parse_answers]), a lowering as many
    as its tree is high, a load more than there are readable files
    ([Program.load_answers]), the search for a site as many as there are modules.
    Expansion follows the calls of the text: a protocol whose default is itself and a
    gate that names itself have no end ([ExpandFindings.protocol_default_never_ends],
    [gate_never_ends]), so its turns are given by the caller. A [u32] or [u64]
    is an [N]; where the source adds, shifts or multiplies without a check the model
    wraps, as a release build does. The theorems that need an absence of wrap-around
    say so: fewer than 64 factors in a threshold and weights that add up in a [u32],
    chains of fewer than 2^64 entries, plans of fewer than 2^32 leaves. A wrapping
    heartbeat interval and an unsynced append are shown to break what they should
    keep.

    ** Parameters

    The token automaton of [logos] is the longest match it documents, the green tree of
    [rowan] the tree of its builder's events. The files under a program ([canonicalize],
    [read_to_string]) and what [toml] makes of an inventory are functions. A float is
    the IEEE double [SpecFloat] has.

    SHA-256 (the [sha2] crate) is a function from bytes to 32 bytes of which nothing is
    assumed: where collisions matter the conclusion names the two inputs that collide.
    The signing key, the sinks other than the memory sink, the outcome of each append
    and the JSON of a migration record ([serde_json]) are parameters too. The engine's
    parameters are the class [Engine.Outside]: the state of the world, the bindings as
    instances of the classes of [Executor], the clock, whether each write and read of
    the disk succeeds, the nonce, the template of an artifact, and what serde makes of a
    value ([Instance.Serde]). Nothing is assumed of them; the witnesses instantiate them
    with [Fakes].

    ** How the engine is read

    [g_acts] and [g_trace] are the model's own: each body an executor was given, with why
    and with the disk as it was then, and each transition. A write of the store either
    happens or fails as a whole; [StoreFiles] looks closer, at temporary files, at writes
    that stop in between and at renames. Where the source drops the error of a call
    ([let _ = ..]) so does the model. An error leaves the record in hand as it was and
    the engine as it had become. The host lock is two events around a call.

    The daemon ([d_step]) and the link ([link_step]) are machines of events that come in any
    order. A verb's thread takes five steps: it attaches the mailbox, checks the scope under
    the engine's lock, acts under it again, detaches, and replies; between them other
    threads, connections and passes go on. A caller of the link has three: the id and the
    channel under the lock, the write, and the waking with a reply or a timeout.

    ** What is not modelled

    Input and output itself: the sockets of [control.rs] and their credentials
    ([peer.rs], [pipe.rs]), the child process of a stdio hook and of the shim ([spawn],
    [shutdown], [wait]). The system calls of [local.rs] are the class [LocalHost.Os], the
    client process of [ssh.rs] the class [Ssh.Transport], the [ssh-key] crate the class
    [Sign.SshKey], and what POSIX leaves to the [awk] at hand the class [Template.Awk]; what they answer is a parameter of what is modelled. The derived serde
    forms ([ir.rs]) are parameters with, where a theorem needs it, the law that a reader
    takes back what was written ([HookSdk.SdkSerdeLaws]). The PowerShell and Python scripts
    are modelled as texts, not as what they do. The simulator tests what the theorems say.
    The command line, the language server, the tenants and the SDKs of other languages are
    uses of the crates modelled; of the surface crate, [dump] prints for debugging. Files
    are whole contents, and I/O errors other than a failing write are not distinguished
    outside [LocalHost] and [Ssh]. *)

From Stdlib Require Import Ascii.
From stdpp Require Import base strings pretty numbers option sets gmap list.

(** ** Scope and notation

    [x == y] is Rust's derived [PartialEq] on a type with decidable equality. *)

Declare Scope rescind_scope.
Delimit Scope rescind_scope with rescind.
Notation "x == y" := (bool_decide (x = y)) (at level 70, no associativity) : rescind_scope.
Notation "x != y" := (negb (bool_decide (x = y))) (at level 70, no associativity) : rescind_scope.
#[global] Open Scope rescind_scope.

(** ** [Result]: the fallible functions of the source *)

Inductive Result (A E : Type) : Type :=
| Ok (a : A)
| Err (e : E).
Arguments Ok {A E} _.
Arguments Err {A E} _.

#[export] Instance Result_eq_dec {A E} `{EqDecision A, EqDecision E} : EqDecision (Result A E).
Proof. solve_decision. Defined.

Definition rbind {A B E} (m : Result A E) (k : A -> Result B E) : Result B E :=
  match m with
  | Ok a => k a
  | Err e => Err e
  end.

Definition rmap {A B E} (f : A -> B) (m : Result A E) : Result B E :=
  match m with
  | Ok a => Ok (f a)
  | Err e => Err e
  end.

Notation "'let?' x := m 'in' k" := (rbind m (fun x => k))
  (at level 10, x pattern, m at level 100, k at level 200) : rescind_scope.

Definition is_ok {A E} (m : Result A E) : bool :=
  match m with
  | Ok _ => true
  | Err _ => false
  end.

(** [iter().map(f).collect::<Result<Vec<_>, _>>()]: the first error wins, left to right. *)
Definition collect_results {A B E} (f : A -> Result B E) : list A -> Result (list B) E :=
  fix go xs :=
    match xs with
    | [] => Ok []
    | x :: xs' => let? y := f x in let? ys := go xs' in Ok (y :: ys)
    end.

(** ** Machine integers

    A [u32] or [u64] is an [N]; the arithmetic the source leaves unchecked is
    written with its wrap-around (what a release build does), so a theorem that
    needs no overflow says so. *)

Definition wrap32 (n : N) : N := (n mod 2 ^ 32)%N.
Definition wrap64 (n : N) : N := (n mod 2 ^ 64)%N.
Definition is_u32 (n : N) : Prop := (n < 2 ^ 32)%N.
Definition is_u64 (n : N) : Prop := (n < 2 ^ 64)%N.
Definition u32_add (a b : N) : N := wrap32 (a + b).
Definition u32_sub (a b : N) : N := wrap32 (a + 2 ^ 32 - b).
Definition u64_add (a b : N) : N := wrap64 (a + b).
Definition u64_mul (a b : N) : N := wrap64 (a * b).
(** [u64::saturating_sub]: [N]'s subtraction truncates at zero as it does. *)
Definition u64_saturating_sub (a b : N) : N := (a - b)%N.

Lemma wrap32_small n : is_u32 n -> wrap32 n = n.
Proof. unfold is_u32, wrap32. intros. by apply N.mod_small. Qed.

Lemma wrap64_small n : is_u64 n -> wrap64 n = n.
Proof. unfold is_u64, wrap64. intros. by apply N.mod_small. Qed.

Lemma wrap32_bound n : is_u32 (wrap32 n).
Proof. unfold is_u32, wrap32. apply N.mod_lt. done. Qed.

Lemma wrap64_bound n : is_u64 (wrap64 n).
Proof. unfold is_u64, wrap64. apply N.mod_lt. done. Qed.

Lemma u32_sub_small a b : is_u32 a -> (b <= a)%N -> u32_sub a b = (a - b)%N.
Proof.
  unfold u32_sub, is_u32, wrap32. intros Ha Hb.
  replace (a + 2 ^ 32 - b)%N with ((a - b) + 1 * 2 ^ 32)%N by lia.
  rewrite N.Div0.mod_add. apply N.mod_small. lia.
Qed.

(** ** [util.rs]: first-occurrence deduplication *)

Section Nub.
Context {A : Type} `{EqDecision A}.

(** The loop of [nub]: [out] is what has been kept so far. *)
Definition nub_step (out : list A) (x : A) : list A :=
  if bool_decide (x ∈ out) then out else out ++ [x].

Definition nub (items : list A) : list A := foldl nub_step [] items.

Lemma nub_step_elem out x y : y ∈ nub_step out x <-> y ∈ out \/ y = x.
Proof. unfold nub_step. case_bool_decide; set_solver. Qed.

Lemma foldl_nub_elem xs out y : y ∈ foldl nub_step out xs <-> y ∈ out \/ y ∈ xs.
Proof.
  revert out. induction xs as [|x xs IH]; intros out; simpl; [set_solver|].
  rewrite IH, nub_step_elem. set_solver.
Qed.

Lemma elem_of_nub xs y : y ∈ nub xs <-> y ∈ xs.
Proof. unfold nub. rewrite foldl_nub_elem. set_solver. Qed.

Lemma NoDup_foldl_nub xs out : NoDup out -> NoDup (foldl nub_step out xs).
Proof.
  revert out. induction xs as [|x xs IH]; intros out Hout; simpl; [done|].
  apply IH. unfold nub_step. case_bool_decide; [done|].
  apply NoDup_app. split_and!; [done| |apply NoDup_singleton]. set_solver.
Qed.

Lemma NoDup_nub xs : NoDup (nub xs).
Proof. apply NoDup_foldl_nub. constructor. Qed.

Lemma foldl_nub_sublist xs out : foldl nub_step out xs = out ++ drop (length out) (foldl nub_step out xs).
Proof.
  revert out. induction xs as [|x xs IH]; intros out; simpl.
  - by rewrite drop_all, app_nil_r.
  - unfold nub_step at 2 4. case_bool_decide; [apply IH|].
    rewrite IH, <- app_assoc. by rewrite drop_app_length.
Qed.

Lemma nub_nil_inv xs : nub xs = [] <-> xs = [].
Proof.
  split; [|by intros ->]. intros Hn. destruct xs as [|x xs]; [done|].
  assert (Hx : x ∈ nub (x :: xs)) by (apply elem_of_nub; set_solver).
  rewrite Hn in Hx. set_solver.
Qed.

Lemma foldl_nub_fixed xs out : NoDup (out ++ xs) -> foldl nub_step out xs = out ++ xs.
Proof.
  revert out. induction xs as [|x xs IH]; intros out Hnd; simpl; [by rewrite app_nil_r|].
  unfold nub_step at 2. rewrite bool_decide_eq_false_2.
  - rewrite IH; rewrite <- app_assoc; done.
  - apply NoDup_app in Hnd as (_ & Hd & _). set_solver.
Qed.

Lemma nub_fixed xs : NoDup xs -> nub xs = xs.
Proof. intros. by apply foldl_nub_fixed. Qed.
End Nub.

(** ** Boolean list functions in terms of membership *)

Section BoolLists.
Context {A B : Type}.
Implicit Types (f : A -> bool) (l : list A).

Lemma elem_of_lfilter f l x : x ∈ List.filter f l <-> x ∈ l /\ f x = true.
Proof. rewrite !list_elem_of_In. apply filter_In. Qed.

Lemma existsb_elem f l : existsb f l = true <-> exists x, x ∈ l /\ f x = true.
Proof. rewrite existsb_exists. by setoid_rewrite list_elem_of_In. Qed.

Lemma existsb_false f l : existsb f l = false <-> forall x, x ∈ l -> f x = false.
Proof.
  rewrite <- not_true_iff_false, existsb_elem. split.
  - intros Hn x Hx. apply not_true_iff_false. intros Hf. apply Hn. by exists x.
  - intros Hall (x & Hx & Hf). by rewrite (Hall x Hx) in Hf.
Qed.

Lemma forallb_elem f l : forallb f l = true <-> forall x, x ∈ l -> f x = true.
Proof. rewrite forallb_forall. by setoid_rewrite list_elem_of_In. Qed.

Lemma elem_of_flat_map (g : A -> list B) l y : y ∈ flat_map g l <-> exists x, x ∈ l /\ y ∈ g x.
Proof. rewrite list_elem_of_In, in_flat_map. by setoid_rewrite list_elem_of_In. Qed.

Lemma elem_of_map (g : A -> B) l y : y ∈ map g l <-> exists x, y = g x /\ x ∈ l.
Proof. apply list_elem_of_fmap. Qed.

Lemma map_nil_iff (g : A -> B) l : map g l = [] <-> l = [].
Proof. by destruct l. Qed.

Lemma app_nil_iff l k : l ++ k = [] <-> l = [] /\ k = [].
Proof. destruct l; [naive_solver|split; [done|by intros []]]. Qed.

Lemma filter_nil_iff f l : List.filter f l = [] <-> forall x, x ∈ l -> f x = false.
Proof.
  induction l as [|x l IH]; simpl; [set_solver|].
  destruct (f x) eqn:E; [split; [done|intros H; by rewrite H in E by set_solver]|]. set_solver.
Qed.

(** [iter().find_map(g)] *)
Fixpoint find_map (g : A -> option B) l : option B :=
  match l with
  | [] => None
  | x :: l' => match g x with Some y => Some y | None => find_map g l' end
  end.

(** [iter().filter_map(g)] *)
Fixpoint filter_map (g : A -> option B) l : list B :=
  match l with
  | [] => []
  | x :: l' => match g x with Some y => y :: filter_map g l' | None => filter_map g l' end
  end.

Lemma elem_of_filter_map (g : A -> option B) l y :
  y ∈ filter_map g l <-> exists x, x ∈ l /\ g x = Some y.
Proof.
  induction l as [|x l IH]; simpl; [set_solver|].
  destruct (g x) eqn:E; rewrite ?elem_of_cons, IH; set_solver.
Qed.

Lemma filter_map_ext (g h : A -> option B) l :
  (forall x, x ∈ l -> g x = h x) -> filter_map g l = filter_map h l.
Proof.
  induction l as [|x l IH]; intros H; simpl; [done|].
  rewrite (H x) by set_solver. rewrite IH by set_solver. done.
Qed.

Lemma filter_map_app (g : A -> option B) l k : filter_map g (l ++ k) = filter_map g l ++ filter_map g k.
Proof. induction l as [|x l IH]; simpl; [done|]. destruct (g x); simpl; by rewrite IH. Qed.

Lemma find_map_Some (g : A -> option B) l y :
  find_map g l = Some y -> exists x, x ∈ l /\ g x = Some y.
Proof.
  induction l as [|x l IH]; simpl; [done|]. destruct (g x) eqn:E; set_solver.
Qed.

Lemma find_map_None (g : A -> option B) l :
  find_map g l = None <-> forall x, x ∈ l -> g x = None.
Proof.
  induction l as [|x l IH]; simpl; [set_solver|]. destruct (g x) eqn:E; set_solver.
Qed.
End BoolLists.

(** ** Strings

    A Rust [String] is the [string] of its UTF-8 bytes. The patterns the source
    searches for are ASCII, so byte and character positions agree. *)

Notation byte := ascii.
Definition chr (n : N) : ascii := ascii_of_N n.
Definition nl : ascii := chr 10.
Definition cr : ascii := chr 13.
Definition space : ascii := chr 32.
Definition lbrace : ascii := chr 123.
Definition rbrace : ascii := chr 125.
Definition dquote : string := String (chr 34) EmptyString.
Definition newline : string := String nl EmptyString.

Definition concats (parts : list string) : string := String.concat EmptyString parts.
Definition join (sep : string) (parts : list string) : string := String.concat sep parts.
(** Integers are formatted in decimal. *)
Definition show (n : N) : string := pretty n.
Definition show_nat (n : nat) : string := pretty n.

(** [s.contains(c)] *)
Fixpoint contains_char (c : ascii) (s : string) : bool :=
  match s with
  | EmptyString => false
  | String d s' => (c == d) || contains_char c s'
  end.

(** [s.starts_with(p)] *)
Definition starts_with (p s : string) : bool := String.prefix p s.

(** [s.strip_prefix(p)] *)
Fixpoint strip_prefix (p s : string) : option string :=
  match p, s with
  | EmptyString, _ => Some s
  | String c p', String d s' => if c == d then strip_prefix p' s' else None
  | String _ _, EmptyString => None
  end.

(** [s.contains(p)] for a string pattern *)
Fixpoint contains_str (p s : string) : bool :=
  starts_with p s ||
  match s with
  | EmptyString => false
  | String _ s' => contains_str p s'
  end.

(** [s.find(c)], as the two slices around the hit: before it and after it. *)
Fixpoint split_at_char (c : ascii) (s : string) : option (string * string) :=
  match s with
  | EmptyString => None
  | String d s' =>
      if c == d then Some (EmptyString, s')
      else match split_at_char c s' with
           | Some (b, a) => Some (String d b, a)
           | None => None
           end
  end.

(** [s.find(p)] for a string pattern, as the slices before the hit and from it. *)
Fixpoint split_at_str (p s : string) : option (string * string) :=
  if starts_with p s then Some (EmptyString, s)
  else match s with
       | EmptyString => None
       | String d s' =>
           match split_at_str p s' with
           | Some (b, a) => Some (String d b, a)
           | None => None
           end
       end.

(** [s.chars().take_while(|c| *c != stop).collect()] *)
Fixpoint take_until (stop : ascii) (s : string) : string :=
  match s with
  | EmptyString => EmptyString
  | String d s' => if stop == d then EmptyString else String d (take_until stop s')
  end.

(** The newline-terminated pieces of a text and what follows the last one. *)
Fixpoint split_lines (s : string) : list string * string :=
  match s with
  | EmptyString => ([], EmptyString)
  | String c s' =>
      if c == nl then let '(ls, r) := split_lines s' in (EmptyString :: ls, r)
      else match split_lines s' with
           | (l :: ls, r) => (String c l :: ls, r)
           | ([], r) => ([], String c r)
           end
  end.

(** A terminated line loses one carriage return before its newline. *)
Fixpoint strip_cr (s : string) : string :=
  match s with
  | EmptyString => EmptyString
  | String c EmptyString => if c == cr then EmptyString else s
  | String c s' => String c (strip_cr s')
  end.

(** [str::lines] *)
Definition lines (s : string) : list string :=
  let '(ls, r) := split_lines s in
  map strip_cr ls ++ (if r == EmptyString then [] else [r]).

(** [s.ends_with('\n')] *)
Fixpoint ends_with_nl (s : string) : bool :=
  match s with
  | EmptyString => false
  | String c EmptyString => c == nl
  | String _ s' => ends_with_nl s'
  end.

(** [char::is_whitespace] on ASCII. *)
Definition is_space (c : ascii) : bool :=
  let k := N_of_ascii c in ((9 <=? k) && (k <=? 13) || (k =? 32))%N.

Fixpoint blank (s : string) : bool :=
  match s with
  | EmptyString => true
  | String c s' => is_space c && blank s'
  end.

(** [s.trim()] *)
Fixpoint trim_start (s : string) : string :=
  match s with
  | EmptyString => EmptyString
  | String c s' => if is_space c then trim_start s' else s
  end.

Fixpoint trim_end (s : string) : string :=
  match s with
  | EmptyString => EmptyString
  | String c s' => if blank s then EmptyString else String c (trim_end s')
  end.

Definition trim (s : string) : string := trim_end (trim_start s).

(** [s.parse::<u32>()]: an optional plus sign, then decimal digits within the width. *)
Fixpoint parse_digits (acc : N) (s : string) : option N :=
  match s with
  | EmptyString => Some acc
  | String c s' =>
      let k := N_of_ascii c in
      if ((48 <=? k) && (k <=? 57))%N then
        let acc' := (acc * 10 + (k - 48))%N in
        if (acc' <? 2 ^ 32)%N then parse_digits acc' s' else None
      else None
  end.

Definition parse_u32 (s : string) : option N :=
  match s with
  | EmptyString => None
  | String c s' =>
      if c == chr 43 then match s' with EmptyString => None | _ => parse_digits 0 s' end
      else parse_digits 0 s
  end.

(** ** Concatenation *)

Lemma append_cons x (a b : string) : String x a +:+ b = String x (a +:+ b).
Proof. done. Qed.

(** [injection] would go on into the bytes. *)
Lemma string_tail x y (a b : string) : String x a = String y b -> a = b.
Proof. congruence. Qed.

Lemma app_assoc_s (a b c : string) : (a +:+ b) +:+ c = a +:+ (b +:+ c).
Proof. induction a as [|x a IH]; [done|]. by rewrite !append_cons, IH. Qed.

Lemma nil_app_s (a : string) : EmptyString +:+ a = a.
Proof. done. Qed.

Lemma app_nil_s (a : string) : a +:+ EmptyString = a.
Proof. induction a as [|x a IH]; [done|]. by rewrite append_cons, IH. Qed.

Lemma length_app_s (a b : string) : String.length (a +:+ b) = String.length a + String.length b.
Proof. induction a as [|x a IH]; [done|]. rewrite append_cons. simpl. by rewrite IH. Qed.

Lemma app_inj_length (a b r s : string) :
  String.length a = String.length b -> a +:+ r = b +:+ s -> a = b /\ r = s.
Proof.
  revert b. induction a as [|x a IH]; intros [|y b]; simpl; intros Hl He; try done.
  rewrite !append_cons in He. injection He as -> He. injection Hl as Hl. by destruct (IH b Hl He) as [-> ->].
Qed.

Lemma app_inj_r (a r s : string) : a +:+ r = a +:+ s -> r = s.
Proof. intros H. by apply (app_inj_length a a). Qed.

Lemma string_app_inj_r (a b s : string) : a +:+ s = b +:+ s -> a = b.
Proof.
  intros H. assert (Hl := f_equal String.length H). rewrite !length_app_s in Hl.
  apply app_inj_length in H as [H _]; [done|lia].
Qed.

(** ** Searching *)

Lemma contains_char_cons c d s : contains_char c (String d s) = (c == d) || contains_char c s.
Proof. done. Qed.

Lemma contains_char_app c (a b : string) : contains_char c (a +:+ b) = contains_char c a || contains_char c b.
Proof. induction a as [|d a IH]; [done|]. rewrite append_cons. cbn [contains_char]. by rewrite IH, orb_assoc. Qed.

Lemma split_at_char_app c a b :
  contains_char c a = false -> split_at_char c (a +:+ String c b) = Some (a, b).
Proof.
  induction a as [|d a IH]; intros H.
  - change (EmptyString +:+ String c b) with (String c b). cbn [split_at_char]. by rewrite bool_decide_eq_true_2.
  - rewrite append_cons. cbn [split_at_char contains_char] in *. apply orb_false_iff in H as [Hc Ha].
    by rewrite Hc, (IH Ha).
Qed.

Lemma split_at_char_Some c s a b :
  split_at_char c s = Some (a, b) -> s = a +:+ String c b /\ contains_char c a = false.
Proof.
  revert a b. induction s as [|d s IH]; intros a b; [done|]. cbn [split_at_char].
  case_bool_decide as Hd; [intros [= <- <-]; by subst|].
  destruct (split_at_char c s) as [[x y]|]; [|done]. intros [= <- <-].
  destruct (IH x y eq_refl) as [-> Hx]. rewrite append_cons, contains_char_cons, Hx.
  split; [done|]. by rewrite bool_decide_eq_false_2.
Qed.

Lemma split_at_char_None c s : split_at_char c s = None -> contains_char c s = false.
Proof.
  induction s as [|d s IH]; [done|]. cbn [split_at_char]. rewrite contains_char_cons.
  case_bool_decide; [done|]. destruct (split_at_char c s) as [[x y]|]; [done|]. auto.
Qed.

Lemma strip_prefix_Some p s r : strip_prefix p s = Some r -> s = p +:+ r.
Proof.
  revert s. induction p as [|c p IH]; intros s; [by intros [= ->]|]. destruct s as [|d s]; [done|].
  cbn [strip_prefix]. case_bool_decide; [|done]. subst. rewrite append_cons. by intros ->%IH.
Qed.

Lemma split_at_str_Some p s a b : split_at_str p s = Some (a, b) -> s = a +:+ b.
Proof.
  revert a b. induction s as [|d s IH]; intros a b; cbn [split_at_str].
  - destruct (starts_with p EmptyString); [|done]. by intros [= <- <-].
  - destruct (starts_with p (String d s)); [by intros [= <- <-]|].
    destruct (split_at_str p s) as [[x y]|]; [|done]. intros [= <- <-].
    by rewrite append_cons, (IH x y).
Qed.

(** ** Text as lines *)

(** Every line with its newline. *)
Definition unlines (ls : list string) : string := concats (map (fun l => l +:+ newline) ls).

(** A line that a reader of lines gives back: no newline in it, no carriage return at
    its end. *)
Definition clean_line (l : string) : bool := negb (contains_char nl l) && (strip_cr l == l).

Lemma concat_empty_cons x (l : list string) : concats (x :: l) = x +:+ concats l.
Proof. unfold concats. destruct l as [|y l]; simpl; [by rewrite app_nil_s|done]. Qed.

Lemma unlines_cons l ls : unlines (l :: ls) = (l +:+ newline) +:+ unlines ls.
Proof. unfold unlines. cbn [map]. by rewrite concat_empty_cons. Qed.

Lemma unlines_app ls ks : unlines (ls ++ ks) = unlines ls +:+ unlines ks.
Proof.
  induction ls as [|l ls IH]; [done|]. cbn [app]. by rewrite !unlines_cons, IH, !app_assoc_s.
Qed.

Definition attach (r : string) (p : list string * string) : list string * string :=
  match p with
  | (l :: ls, q) => ((r +:+ l) :: ls, q)
  | ([], q) => ([], r +:+ q)
  end.

Lemma attach_nil p : attach EmptyString p = p.
Proof. by destruct p as [[|l ls] q]. Qed.

Lemma split_lines_app x y :
  split_lines (x +:+ y) =
  let '(ls, r) := split_lines x in
  let '(ks, q) := attach r (split_lines y) in (ls ++ ks, q).
Proof.
  induction x as [|c x IH].
  - change (EmptyString +:+ y) with y. cbn [split_lines]. rewrite attach_nil. by destruct (split_lines y).
  - rewrite append_cons. cbn [split_lines]. rewrite IH.
    destruct (split_lines x) as [ls r]. case_bool_decide.
    + by destruct (attach r (split_lines y)).
    + destruct ls as [|l ls]; destruct (split_lines y) as [[|k ks] q]; done.
Qed.

Lemma split_lines_plain l : contains_char nl l = false -> split_lines l = ([], l).
Proof.
  induction l as [|c l IH]; [done|]. cbn [contains_char split_lines]. rewrite orb_false_iff.
  intros [Hc Hl]. rewrite (IH Hl). apply bool_decide_eq_false in Hc. rewrite bool_decide_eq_false_2; congruence.
Qed.

Lemma split_lines_ended x : ends_with_nl x = true -> exists l ls, split_lines x = (l :: ls, EmptyString).
Proof.
  induction x as [|c x IH]; [done|]. intros He. destruct x as [|d x].
  - cbn in *. rewrite He. by eexists _, _.
  - destruct (IH He) as (l & ls & E). change (split_lines (String c (String d x))) with
      (if c == nl then let '(ls, r) := split_lines (String d x) in (EmptyString :: ls, r)
       else match split_lines (String d x) with
            | (l :: ls, r) => (String c l :: ls, r)
            | ([], r) => ([], String c r)
            end).
    rewrite E. case_bool_decide; by eexists _, _.
Qed.

(** What [lines] reads of two texts, the first complete. *)
Lemma lines_app x y :
  x = EmptyString \/ ends_with_nl x = true -> lines (x +:+ y) = lines x ++ lines y.
Proof.
  intros Hx. assert (Hr : snd (split_lines x) = EmptyString).
  { destruct Hx as [->|(l & ls & ->)%split_lines_ended]; done. }
  unfold lines. rewrite split_lines_app. destruct (split_lines x) as [ls r]. cbn in Hr. subst r.
  rewrite attach_nil. destruct (split_lines y) as [ks q]. cbn.
  by rewrite map_app, app_nil_r, app_assoc.
Qed.

Lemma lines_line l : contains_char nl l = false -> lines (l +:+ newline) = [strip_cr l].
Proof.
  intros Hl. unfold lines. rewrite split_lines_app, (split_lines_plain l Hl).
  change (split_lines newline) with ([EmptyString], EmptyString). cbn. by rewrite app_nil_s.
Qed.

Lemma ends_with_nl_snoc l : ends_with_nl (l +:+ newline) = true.
Proof.
  induction l as [|c l IH]; [done|]. rewrite append_cons. cbn [ends_with_nl].
  destruct (l +:+ newline) eqn:E; [by destruct l|done].
Qed.

Lemma ends_with_nl_app x y : y <> EmptyString -> ends_with_nl (x +:+ y) = ends_with_nl y.
Proof.
  intros Hy. induction x as [|c x IH]; [done|]. rewrite append_cons. cbn [ends_with_nl].
  destruct (x +:+ y) eqn:E; [destruct x; [by simpl in E|done]|by rewrite <- IH].
Qed.

Lemma unlines_ended ls : unlines ls = EmptyString \/ ends_with_nl (unlines ls) = true.
Proof.
  induction ls as [|l ls [E|E]]; [by left| |]; right; rewrite unlines_cons.
  - rewrite E, app_nil_s. apply ends_with_nl_snoc.
  - rewrite ends_with_nl_app; [done|]. by destruct (unlines ls).
Qed.

Lemma lines_unlines ls : Forall (fun l => clean_line l = true) ls -> lines (unlines ls) = ls.
Proof.
  induction 1 as [|l ls Hl _ IH]; [done|]. unfold clean_line in Hl.
  apply andb_true_iff in Hl as [Hn Hc]. apply negb_true_iff in Hn. apply bool_decide_eq_true in Hc.
  rewrite unlines_cons, lines_app by (right; apply ends_with_nl_snoc). by rewrite IH, lines_line, Hc.
Qed.

(** ** Results *)

Lemma rbind_ok {A B E} (m : Result A E) (k : A -> Result B E) b :
  rbind m k = Ok b <-> exists a, m = Ok a /\ k a = Ok b.
Proof. destruct m; simpl; naive_solver. Qed.

Lemma collect_results_ok {A B E} (f : A -> Result B E) l r :
  collect_results f l = Ok r <-> Forall2 (fun x y => f x = Ok y) l r.
Proof.
  revert r. induction l as [|x l IH]; intros r; simpl.
  - split; [by intros [= <-]|]. by inversion 1.
  - rewrite rbind_ok. setoid_rewrite rbind_ok. split.
    + intros (y & Hy & ys & Hys%IH & [= <-]). by constructor.
    + intros H. inversion H as [|? y ? ys Hy Hys]; subst. apply IH in Hys. eauto 6.
Qed.

Lemma collect_results_ext {A B E} (f g : A -> Result B E) l :
  (forall x, x ∈ l -> f x = g x) -> collect_results f l = collect_results g l.
Proof.
  induction l as [|x l IH]; intros H; [done|]. simpl. rewrite H by set_solver.
  by rewrite IH by set_solver.
Qed.

(** ** Automation *)

(** Strings to the right-nested form. *)
Ltac str_norm :=
  repeat first [rewrite app_nil_s|rewrite app_assoc_s|rewrite append_cons|rewrite nil_app_s].

(** What a successful chain of [let?]s did on its way. *)
Ltac result_inv :=
  repeat match goal with
  | H : rbind _ _ = Ok _ |- _ =>
      let a := fresh "a" in let Ha := fresh "Ha" in apply rbind_ok in H as (a & Ha & H)
  | H : Ok _ = Ok _ |- _ => injection H as H; subst
  | H : Err _ = Ok _ |- _ => discriminate H
  end.

Create HintDb rescind.
#[export] Hint Resolve NoDup_nub wrap32_bound wrap64_bound ends_with_nl_snoc unlines_ended : rescind.
#[export] Hint Rewrite @elem_of_app @existsb_elem @forallb_elem @elem_of_lfilter @elem_of_flat_map @elem_of_map @rbind_ok : rescind.

Ltac membership := autorewrite with rescind.
