(* ===== verification/Monad.v ===== *)
(** * State and errors

    The monad of a method that changes a state and may fail, as the source's methods over
    [&mut self] with [?]; what such a method keeps of its state, whatever it answers; and
    the update of one field of a record. *)

From stdpp Require Import base list relations.
From S2P Require Import Prelude.

(** [r] with its field [f] replaced by [v]: [eta]'s body with [f r] replaced. *)
Ltac field_update eta f v r :=
  let t := eval red in (eta r) in
  let p := eval pattern (f r) in t in
  match p with ?g _ => let u := eval cbv beta in (g v) in exact u end.

(** ** The monad *)

Definition mret {S E A} (x : A) : S -> S * Result A E := fun s => (s, Ok x).
Definition mthrow {S E A} (e : E) : S -> S * Result A E := fun s => (s, Err e).

(** [?] *)
Definition mthen {S E A B} (m : S -> S * Result A E) (k : A -> S -> S * Result B E) : S -> S * Result B E :=
  fun s => match m s with
           | (s', Ok x) => k x s'
           | (s', Err e) => (s', Err e)
           end.

Notation "'let!' x := m 'in' k" := (mthen m (fun x => k))
  (at level 200, x pattern, m at level 100, k at level 200, right associativity).
Notation "'do!' m 'in' k" := (mthen m (fun _ => k))
  (at level 200, m at level 100, k at level 200, right associativity).

(** The result as a value, whatever it is ([match m { Ok(..) => .., Err(..) => .. }]). *)
Definition attempt {S E F A} (m : S -> S * Result A E) : S -> S * Result (Result A E) F :=
  fun s => let '(s', r) := m s in (s', Ok r).

(** A value that is already a result. *)
Definition lift {S E A} (r : Result A E) : S -> S * Result A E := fun s => (s, r).

Definition map_err {S E F A} (f : E -> F) (m : S -> S * Result A E) : S -> S * Result A F :=
  fun s => let '(s', r) := m s in
           (s', match r with Ok x => Ok x | Err e => Err (f e) end).

(** [for x in l { body? }] *)
Fixpoint for_each {S E A} (body : A -> S -> S * Result unit E) (l : list A) : S -> S * Result unit E :=
  match l with
  | [] => mret tt
  | x :: r => do! body x in for_each body r
  end.

(** A loop that an element may end early with a value. *)
Fixpoint first_some {S E A B} (body : A -> S -> S * Result (option B) E) (l : list A) : S -> S * Result (option B) E :=
  match l with
  | [] => mret None
  | x :: r => let! y := body x in match y with Some z => mret (Some z) | None => first_some body r end
  end.

(** A loop that carries a value. *)
Fixpoint fold_each {S E A B} (body : B -> A -> S -> S * Result B E) (acc : B) (l : list A) : S -> S * Result B E :=
  match l with
  | [] => mret acc
  | x :: r => let! acc' := body acc x in fold_each body acc' r
  end.

(** ** What a method keeps

    [keeps R m]: whatever [m] answers, it moves the state along [R]. A preorder is kept by
    every combinator of the monad, so what a method keeps follows from what its calls keep. *)

Definition keeps {S E A} (R : relation S) (m : S -> S * Result A E) : Prop := forall s, R s (fst (m s)).

Create HintDb keeps.

Section Keeps.
Context {S : Type} (R : relation S) `{!PreOrder R}.

Lemma keeps_ret {E A} (x : A) : keeps R (mret (E := E) x).
Proof. intros s. reflexivity. Qed.

Lemma keeps_throw {E A} (e : E) : keeps R (mthrow (A := A) e).
Proof. intros s. reflexivity. Qed.

Lemma keeps_lift {E A} (x : Result A E) : keeps R (lift x).
Proof. intros s. reflexivity. Qed.

Lemma keeps_then {E A B} (m : S -> S * Result A E) (k : A -> S -> S * Result B E) :
  keeps R m -> (forall x, keeps R (k x)) -> keeps R (mthen m k).
Proof.
  intros Hm Hk s. specialize (Hm s). unfold mthen. destruct (m s) as [s' [x|e]]; [|done].
  etrans; [apply Hm|apply Hk].
Qed.

Lemma keeps_attempt {E F A} (m : S -> S * Result A E) : keeps R m -> keeps R (attempt (F := F) m).
Proof. intros Hm s. specialize (Hm s). unfold attempt. by destruct (m s). Qed.

Lemma keeps_map_err {E F A} (f : E -> F) (m : S -> S * Result A E) : keeps R m -> keeps R (map_err f m).
Proof. intros Hm s. specialize (Hm s). unfold map_err. by destruct (m s). Qed.

Lemma keeps_for_each {E A} (body : A -> S -> S * Result unit E) l :
  (forall x, keeps R (body x)) -> keeps R (for_each body l).
Proof. intros Hb. induction l; [apply keeps_ret|by apply keeps_then]. Qed.

Lemma keeps_first_some {E A B} (body : A -> S -> S * Result (option B) E) l :
  (forall x, keeps R (body x)) -> keeps R (first_some body l).
Proof.
  intros Hb. induction l; [apply keeps_ret|apply keeps_then; [done|]]. intros [y|]; [apply keeps_ret|done].
Qed.

Lemma keeps_fold_each {E A B} (body : B -> A -> S -> S * Result B E) l : forall acc,
  (forall acc x, keeps R (body acc x)) -> keeps R (fold_each body acc l).
Proof. induction l; intros acc Hb; [apply keeps_ret|apply keeps_then; [done|]]. intros y. by apply IHl. Qed.
End Keeps.

Lemma keeps_mono {S E A} (R Q : relation S) (m : S -> S * Result A E) :
  (forall s s', R s s' -> Q s s') -> keeps R m -> keeps Q m.
Proof. intros HRQ Hm s. apply HRQ, Hm. Qed.

#[export] Hint Resolve keeps_ret keeps_throw keeps_lift keeps_attempt keeps_map_err : keeps.

(** One step of the structure of a method; what is left are its calls. *)
Ltac keeps_step :=
  lazymatch goal with
  | |- forall _, _ => intros ?
  | |- keeps _ (mthen _ _) => apply keeps_then; [typeclasses eauto| |]
  | |- keeps _ (attempt _) => apply keeps_attempt
  | |- keeps _ (map_err _ _) => apply keeps_map_err
  | |- keeps _ (for_each _ _) => apply keeps_for_each; [typeclasses eauto|]
  | |- keeps _ (first_some _ _) => apply keeps_first_some; [typeclasses eauto|]
  | |- keeps _ (fold_each _ _ _) => apply keeps_fold_each; [typeclasses eauto|]
  | |- keeps _ (let x := _ in _) => cbv zeta
  | |- keeps _ (match ?x with _ => _ end) => destruct x eqn:?
  | |- keeps _ ((match ?x with _ => _ end) _) => destruct x eqn:?
  end.

(** Extended below with the steps of the methods that hold a record. *)
Ltac keeps_call := fail.

Ltac keeps := repeat (keeps_step || keeps_call || solve [eauto with keeps typeclass_instances]).
