(* ===== verification/Ordered.v ===== *)
(** * Ordered containers

    What the source iterates in key order: [Vec::sort] on strings and
    [BTreeMap<String, _>] as its entries in key order. Rust orders strings by their
    bytes, which is [String.compare]. *)

From Stdlib Require Import Ascii Sorted.
From stdpp Require Import base strings pretty numbers option sets gmap list.
From S2P Require Import Prelude.

Definition str_le (a b : string) : bool := String.leb a b.

Fixpoint insert_string (x : string) (l : list string) : list string :=
  match l with
  | [] => [x]
  | y :: r => if str_le x y then x :: l else y :: insert_string x r
  end.

(** [v.sort()] *)
Definition sort_strings (l : list string) : list string := foldr insert_string [] l.

Definition pair_le (x y : string * string) : bool :=
  if fst x == fst y then str_le (snd x) (snd y) else str_le (fst x) (fst y).

Fixpoint insert_pair (x : string * string) (l : list (string * string)) : list (string * string) :=
  match l with
  | [] => [x]
  | y :: r => if pair_le x y then x :: l else y :: insert_pair x r
  end.

(** [v.sort()] on pairs of strings. *)
Definition sort_pairs (l : list (string * string)) : list (string * string) := foldr insert_pair [] l.

(** [v.dedup()]: of equal neighbours the first is kept. *)
Fixpoint dedup `{EqDecision A} (l : list A) : list A :=
  match l with
  | [] => []
  | x :: r => match dedup r with
              | (y :: _) as k => if x == y then k else x :: k
              | [] => [x]
              end
  end.

(** The entries of a [BTreeMap<String, A>]. *)
Notation BMap A := (list (string * A)) (only parsing).

Definition bm_get {A} (k : string) (m : BMap A) : option A :=
  snd <$> List.find (fun e => fst e == k) m.

Definition bm_contains {A} (k : string) (m : BMap A) : bool := existsb (fun e => fst e == k) m.

Fixpoint bm_insert {A} (k : string) (v : A) (m : BMap A) : BMap A :=
  match m with
  | [] => [(k, v)]
  | (k', v') :: r =>
      if k == k' then (k, v) :: r
      else if str_le k k' then (k, v) :: m
      else (k', v') :: bm_insert k v r
  end.

Definition bm_of_list {A} (l : list (string * A)) : BMap A :=
  foldl (fun m e => bm_insert (fst e) (snd e) m) [] l.

(** ** Lemmas *)

Lemma elem_of_insert_string x y l : y ∈ insert_string x l <-> y = x \/ y ∈ l.
Proof.
  induction l as [|z l IH]; cbn [insert_string]; [set_solver|].
  destruct (str_le x z); [set_solver|]. rewrite elem_of_cons, IH. set_solver.
Qed.

Lemma elem_of_sort_strings y l : y ∈ sort_strings l <-> y ∈ l.
Proof.
  induction l as [|x l IH]; [done|]. cbn [sort_strings foldr]. rewrite elem_of_insert_string, elem_of_cons.
  by rewrite <- IH.
Qed.

Lemma elem_of_dedup `{EqDecision A} (y : A) l : y ∈ dedup l <-> y ∈ l.
Proof.
  induction l as [|x l IH]; [done|]. cbn [dedup]. destruct (dedup l) as [|z k].
  - rewrite !elem_of_cons, <- IH. done.
  - rewrite (elem_of_cons l), <- IH. case_bool_decide as Hx; [subst z|]; rewrite !elem_of_cons; tauto.
Qed.

Lemma bm_get_insert {A} k (v : A) m : bm_get k (bm_insert k v m) = Some v.
Proof.
  unfold bm_get. induction m as [|[k' v'] m IH]; cbn [bm_insert].
  - cbn. by rewrite bool_decide_eq_true_2.
  - case_bool_decide as Hk; [|destruct (str_le k k')]; cbn [List.find fst].
    + by rewrite bool_decide_eq_true_2.
    + by rewrite bool_decide_eq_true_2.
    + by rewrite bool_decide_eq_false_2.
Qed.

Lemma bm_get_insert_ne {A} k k' (v : A) m : k <> k' -> bm_get k' (bm_insert k v m) = bm_get k' m.
Proof.
  intros Hn. unfold bm_get. induction m as [|[k0 v0] m IH]; cbn [bm_insert].
  - cbn. by rewrite bool_decide_eq_false_2.
  - case_bool_decide as Hk; [subst k0|destruct (str_le k k0)]; cbn [List.find fst].
    + by rewrite bool_decide_eq_false_2.
    + by rewrite (bool_decide_eq_false_2 (k = k')).
    + case_bool_decide; [done|by apply IH].
Qed.

(** What a list of entries makes of a map: the last of a key counts. *)
Lemma merged_other {A} k (fields m : BMap A) : k ∉ map fst fields ->
  bm_get k (foldl (fun v e => bm_insert (fst e) (snd e) v) m fields) = bm_get k m.
Proof.
  revert m. induction fields as [|[k' x] fields IH]; intros m Hk; [done|]. cbn [foldl fst snd map] in *.
  apply not_elem_of_cons in Hk as [Hne Hk]. rewrite IH by done. by apply bm_get_insert_ne.
Qed.

Lemma merged_in {A} k (x : A) (fields m : BMap A) : NoDup (map fst fields) -> (k, x) ∈ fields ->
  bm_get k (foldl (fun v e => bm_insert (fst e) (snd e) v) m fields) = Some x.
Proof.
  revert m. induction fields as [|[k' y] fields IH]; intros m Hn Hin; [by apply elem_of_nil in Hin|]. cbn [foldl fst snd map] in *.
  apply NoDup_cons in Hn as [Hk Hn]. apply elem_of_cons in Hin as [[= -> ->]|Hin]; [|by apply IH].
  rewrite merged_other by done. apply bm_get_insert.
Qed.

Lemma bm_of_list_in {A} k (x : A) l : NoDup (map fst l) -> (k, x) ∈ l -> bm_get k (bm_of_list l) = Some x.
Proof. apply merged_in. Qed.

Lemma bm_of_list_other {A} k (l : list (string * A)) : k ∉ map fst l -> bm_get k (bm_of_list l) = None.
Proof. apply (merged_other k l []). Qed.

(** ** Key order *)

Lemma str_le_cons c d s t :
  str_le (String c s) (String d t) = true <->
  (N_of_ascii c < N_of_ascii d)%N \/ (c = d /\ str_le s t = true).
Proof.
  unfold str_le, String.leb. cbn [String.compare]. unfold Ascii.compare.
  destruct (N.compare_spec (N_of_ascii c) (N_of_ascii d)) as [He|Hl|Hg].
  - assert (c = d) as -> by (rewrite <- (ascii_N_embedding c), <- (ascii_N_embedding d); congruence).
    split; [by right|intros [Hl|[_ ?]]; [lia|done]].
  - split; [by left|done].
  - split; [done|]. intros [?|[-> _]]; lia.
Qed.

Lemma str_le_trans a b c : str_le a b = true -> str_le b c = true -> str_le a c = true.
Proof.
  revert b c. induction a as [|x a IH]; intros [|y b] [|z c]; try done.
  rewrite !str_le_cons. intros [?|[-> ?]] [?|[-> ?]]; first [left; lia|right; split; [done|by eapply IH]].
Qed.

Definition str_lt (a b : string) : Prop := str_le a b = true /\ a <> b.

#[export] Instance str_lt_trans : Transitive str_lt.
Proof.
  intros a b c [Hab Hn] [Hbc Hm]. split; [by eapply str_le_trans|].
  intros ->. by apply Hn, String.leb_antisym.
Qed.

(** A map's keys are in order, each once. *)
Definition bm_sorted {A} (m : BMap A) : Prop := StronglySorted str_lt (map fst m).

Lemma bm_insert_keys {A} k (v : A) m x : x ∈ map fst (bm_insert k v m) -> x = k \/ x ∈ map fst m.
Proof.
  induction m as [|[k' v'] m IH]; cbn [bm_insert map fst]; [set_solver|].
  case_bool_decide as Hk; [set_solver|]. destruct (str_le k k'); cbn [map fst]; set_solver.
Qed.

Lemma bm_insert_sorted {A} k (v : A) m : bm_sorted m -> bm_sorted (bm_insert k v m).
Proof.
  unfold bm_sorted. induction m as [|[k' v'] m IH]; cbn [bm_insert map fst]; [by repeat constructor|].
  intros Hs. apply StronglySorted_inv in Hs as [Hs Hf].
  case_bool_decide as Hk; [subst k'; by constructor|]. destruct (str_le k k') eqn:Hle; cbn [map fst].
  - constructor; [by constructor|]. constructor; [by split|].
    eapply Forall_impl; [exact Hf|]. intros x Hx. by etrans.
  - constructor; [by apply IH|]. apply Forall_forall. intros x [->|Hx]%bm_insert_keys.
    + destruct (String.leb_total k k') as [?|?]; [unfold str_le in Hle; congruence|by split].
    + rewrite Forall_forall in Hf. by apply Hf.
Qed.

Lemma bm_sorted_nodup {A} (m : BMap A) : bm_sorted m -> NoDup (map fst m).
Proof.
  unfold bm_sorted. induction 1 as [|x l _ IH Hf]; constructor; [|done].
  intros Hx. rewrite Forall_forall in Hf. by destruct (Hf x Hx).
Qed.

Lemma insert_string_perm x l : insert_string x l ≡ₚ x :: l.
Proof.
  induction l as [|y l IH]; cbn [insert_string]; [done|]. destruct (str_le x y); [done|].
  rewrite IH. constructor.
Qed.

Lemma sort_strings_perm l : sort_strings l ≡ₚ l.
Proof. induction l as [|x l IH]; [done|]. cbn [sort_strings foldr]. by rewrite insert_string_perm, IH. Qed.
