(* ===== verification/Utf8.v ===== *)
(** * UTF-8 as Rust's standard library reads it

    Bytes are strings. [String::from_utf8] accepts exactly the well-formed sequences of
    the Unicode standard; [String::from_utf8_lossy] replaces each maximal ill-formed
    prefix by U+FFFD. The engine keeps a snapshot and reads a probe or a region through
    the second. *)

From Stdlib Require Import Ascii.
From stdpp Require Import base strings pretty numbers option sets gmap list.
From S2P Require Import Prelude.

Definition in_range (lo hi : N) (c : ascii) : bool :=
  (lo <=? N_of_ascii c)%N && (N_of_ascii c <=? hi)%N.

Definition continuation (c : ascii) : bool := in_range 128 191 c.

(** What a byte starts: itself, nothing, or a sequence of [more] further bytes of which
    the first must satisfy [second]. *)
Inductive Lead :=
| LeadAscii
| LeadBad
| LeadMulti (second : ascii -> bool) (more : nat).

Definition lead (c : ascii) : Lead :=
  if in_range 0 127 c then LeadAscii
  else if in_range 194 223 c then LeadMulti continuation 1
  else if in_range 224 224 c then LeadMulti (in_range 160 191) 2
  else if in_range 225 236 c then LeadMulti continuation 2
  else if in_range 237 237 c then LeadMulti (in_range 128 159) 2
  else if in_range 238 239 c then LeadMulti continuation 2
  else if in_range 240 240 c then LeadMulti (in_range 144 191) 3
  else if in_range 241 243 c then LeadMulti continuation 3
  else if in_range 244 244 c then LeadMulti (in_range 128 143) 3
  else LeadBad.

(** A sequence being read: its bytes so far, what the next must be, how many are left. *)
Record Pending := mkPending { pn_bytes : string; pn_next : ascii -> bool; pn_more : nat }.

(** U+FFFD *)
Definition REPLACEMENT : string := String (chr 239) (String (chr 191) (String (chr 189) EmptyString)).

Fixpoint lossy_from (pend : option Pending) (s : string) : string :=
  match s with
  | EmptyString => match pend with Some _ => REPLACEMENT | None => EmptyString end
  | String c r =>
      let start :=
        match lead c with
        | LeadAscii => String c (lossy_from None r)
        | LeadBad => REPLACEMENT +:+ lossy_from None r
        | LeadMulti second more => lossy_from (Some (mkPending (String c EmptyString) second more)) r
        end in
      match pend with
      | None => start
      | Some p =>
          if pn_next p c then
            match pn_more p with
            | S (S more) =>
                lossy_from (Some (mkPending (pn_bytes p +:+ String c EmptyString) continuation (S more))) r
            | _ => (pn_bytes p +:+ String c EmptyString) +:+ lossy_from None r
            end
          else REPLACEMENT +:+ start
      end
  end.

(** [String::from_utf8_lossy] *)
Definition from_utf8_lossy (bytes : string) : string := lossy_from None bytes.

Fixpoint valid_from (pend : option Pending) (s : string) : bool :=
  match s with
  | EmptyString => match pend with Some _ => false | None => true end
  | String c r =>
      match pend with
      | None =>
          match lead c with
          | LeadAscii => valid_from None r
          | LeadBad => false
          | LeadMulti second more => valid_from (Some (mkPending (String c EmptyString) second more)) r
          end
      | Some p =>
          if pn_next p c then
            match pn_more p with
            | S (S more) =>
                valid_from (Some (mkPending (pn_bytes p +:+ String c EmptyString) continuation (S more))) r
            | _ => valid_from None r
            end
          else false
      end
  end.

Definition utf8_valid (bytes : string) : bool := valid_from None bytes.

(** [String::from_utf8(bytes).ok()] *)
Definition from_utf8 (bytes : string) : option string := if utf8_valid bytes then Some bytes else None.

(** ** Lemmas *)

Definition pending_bytes (pend : option Pending) : string :=
  match pend with Some p => pn_bytes p | None => EmptyString end.

Lemma lossy_valid_from s pend :
  valid_from pend s = true -> lossy_from pend s = pending_bytes pend +:+ s.
Proof.
  revert pend. induction s as [|c s IH]; intros [p|]; cbn [valid_from lossy_from]; [done|done| |].
  - destruct (pn_next p c); [|done]. destruct (pn_more p) as [|[|more]]; intros H; rewrite (IH _ H); cbn [pending_bytes pn_bytes]; by str_norm.
  - destruct (lead c) as [| |second more]; intros H; [|done|]; rewrite (IH _ H); cbn [pending_bytes pn_bytes]; by str_norm.
Qed.

(** A text that is UTF-8 is read as it is. *)
Lemma lossy_valid s : utf8_valid s = true -> from_utf8_lossy s = s.
Proof. intros H. unfold from_utf8_lossy. by rewrite lossy_valid_from. Qed.

Lemma from_utf8_Some s t : from_utf8 s = Some t -> t = s /\ from_utf8_lossy s = s.
Proof.
  unfold from_utf8. destruct (utf8_valid s) eqn:H; [|done]. intros [= <-]. split; [done|by apply lossy_valid].
Qed.

Fixpoint all_ascii (s : string) : bool :=
  match s with
  | EmptyString => true
  | String c r => in_range 0 127 c && all_ascii r
  end.

Lemma ascii_valid s : all_ascii s = true -> utf8_valid s = true.
Proof.
  unfold utf8_valid. induction s as [|c s IH]; [done|]. cbn [all_ascii valid_from].
  intros [Hc Hs]%andb_true_iff. unfold lead. rewrite Hc. by apply IH.
Qed.

(** A byte that is not UTF-8 is not what is read back. *)
Example lossy_changes_bytes : from_utf8_lossy (String (chr 255) EmptyString) = REPLACEMENT.
Proof. vm_compute. reflexivity. Qed.
