(* ===== verification/Model.v ===== *)
(** * The plan model

    [core/src/model.rs] and [core/src/body.rs]: bodies and references, facts and
    footprints, ops, gates, plans and items, the site. A struct is a [Record], an
    enum an [Inductive] with the source's variants (prefixed where two enums use
    one name); the newtypes [Duration] and [Instant] over [u64] seconds are [N],
    ordered as [N] is. *)

From stdpp Require Import base strings pretty numbers option sets gmap list.
From S2P Require Import Prelude.

Notation Duration := N (only parsing).
Notation Instant := N (only parsing).
Notation Host := string (only parsing).

(** ** Bodies and references ([body.rs]) *)

Record FactRef := mkFactRef { fr_shape : string; fr_anchor : option string }.

Inductive Ref :=
| RFact (name : string)
| RParam (name : string)
| RHost (field : string)
| ROutput (step name : string) (secret : bool)
| RController (name : string)
| RSecret (binding : string).

Inductive Part :=
| PLit (s : string)
| PRef (r : Ref).

Notation Template := (list Part) (only parsing).

Inductive Value :=
| VLit (s : string)
| VRef (r : Ref)
| VTemplate (t : Template).

Record EnvVar := mkEnvVar { ev_name : string; ev_value : Value }.
Record KwArg := mkKwArg { kw_name : string; kw_value : Value }.

Inductive ArgClass := TargetLocal | ControllerArg.

Record ClassedArg := mkClassedArg { ca_name : string; ca_class : ArgClass; ca_value : Value }.

Record Run := mkRun { run_cmd : Template; run_env : list EnvVar; run_stdin : option Value }.
Record Write := mkWrite { write_fact : FactRef; write_content : Value }.
Record Remove := mkRemove { remove_fact : FactRef }.
Record Append := mkAppend { append_fact : FactRef; append_line : Value }.
Record RegionSet := mkRegionSet { rs_fact : FactRef; rs_content : Value }.
Record RegionClear := mkRegionClear { rc_fact : FactRef }.
Record Stage := mkStage { stage_name : string; stage_content : Value; stage_mode : N }.
Record Hook := mkHook { hook_name : string; hook_args : list KwArg }.
Record Install := mkInstall { install_name : string }.
Record Release := mkRelease { release_name : string }.
Record Call := mkCall { call_prim : string; call_run : Template; call_args : list ClassedArg }.

Inductive Prim :=
| PRun (r : Run)
| PWrite (w : Write)
| PRemove (r : Remove)
| PAppend (a : Append)
| PRegionSet (r : RegionSet)
| PRegionClear (r : RegionClear)
| PStage (s : Stage)
| PHook (h : Hook)
| PInstall (i : Install)
| PRelease (r : Release)
| PCall (c : Call).

Notation Body := (list Prim) (only parsing).

#[export] Instance FactRef_eq_dec : EqDecision FactRef. Proof. solve_decision. Defined.
#[export] Instance Ref_eq_dec : EqDecision Ref. Proof. solve_decision. Defined.
#[export] Instance Part_eq_dec : EqDecision Part. Proof. solve_decision. Defined.
#[export] Instance Value_eq_dec : EqDecision Value. Proof. solve_decision. Defined.
#[export] Instance EnvVar_eq_dec : EqDecision EnvVar. Proof. solve_decision. Defined.
#[export] Instance KwArg_eq_dec : EqDecision KwArg. Proof. solve_decision. Defined.
#[export] Instance ArgClass_eq_dec : EqDecision ArgClass. Proof. solve_decision. Defined.
#[export] Instance ClassedArg_eq_dec : EqDecision ClassedArg. Proof. solve_decision. Defined.
#[export] Instance Run_eq_dec : EqDecision Run. Proof. solve_decision. Defined.
#[export] Instance Write_eq_dec : EqDecision Write. Proof. solve_decision. Defined.
#[export] Instance Remove_eq_dec : EqDecision Remove. Proof. solve_decision. Defined.
#[export] Instance Append_eq_dec : EqDecision Append. Proof. solve_decision. Defined.
#[export] Instance RegionSet_eq_dec : EqDecision RegionSet. Proof. solve_decision. Defined.
#[export] Instance RegionClear_eq_dec : EqDecision RegionClear. Proof. solve_decision. Defined.
#[export] Instance Stage_eq_dec : EqDecision Stage. Proof. solve_decision. Defined.
#[export] Instance Hook_eq_dec : EqDecision Hook. Proof. solve_decision. Defined.
#[export] Instance Install_eq_dec : EqDecision Install. Proof. solve_decision. Defined.
#[export] Instance Release_eq_dec : EqDecision Release. Proof. solve_decision. Defined.
#[export] Instance Call_eq_dec : EqDecision Call. Proof. solve_decision. Defined.
#[export] Instance Prim_eq_dec : EqDecision Prim. Proof. solve_decision. Defined.

(** [Ref::is_secret] *)
Definition ref_is_secret (r : Ref) : bool :=
  match r with
  | ROutput _ _ true | RSecret _ => true
  | _ => false
  end.

(** [Ref::target_local] *)
Definition ref_target_local (r : Ref) : bool :=
  match r with
  | RFact _ | RParam _ | RHost _ => true
  | _ => false
  end.

(** [Ref::label] *)
Definition ref_label (r : Ref) : string :=
  match r with
  | RFact n | RParam n | RController n | RSecret n => n
  | RHost f => "host." +:+ f
  | ROutput step name _ => step +:+ "." +:+ name
  end.

Definition template_refs (parts : Template) : list Ref :=
  filter_map (fun p => match p with PRef r => Some r | PLit _ => None end) parts.

(** [Value::refs] *)
Definition value_refs (v : Value) : list Ref :=
  match v with
  | VLit _ => []
  | VRef r => [r]
  | VTemplate parts => template_refs parts
  end.

(** [Value::is_secret] *)
Definition value_is_secret (v : Value) : bool := existsb ref_is_secret (value_refs v).

(** [Prim::refs] *)
Definition prim_refs (p : Prim) : list Ref :=
  match p with
  | PRun r =>
      template_refs (run_cmd r)
      ++ flat_map (fun e => value_refs (ev_value e)) (run_env r)
      ++ match run_stdin r with Some s => value_refs s | None => [] end
  | PWrite w => value_refs (write_content w)
  | PAppend a => value_refs (append_line a)
  | PRegionSet r => value_refs (rs_content r)
  | PStage s => value_refs (stage_content s)
  | PHook h => flat_map (fun a => value_refs (kw_value a)) (hook_args h)
  | PCall c =>
      template_refs (call_run c) ++ flat_map (fun a => value_refs (ca_value a)) (call_args c)
  | PRemove _ | PRegionClear _ | PInstall _ | PRelease _ => []
  end.

(** [Prim::name] *)
Definition prim_name (p : Prim) : string :=
  match p with
  | PRun _ => "run"
  | PWrite _ => "write"
  | PRemove _ => "remove"
  | PAppend _ => "append"
  | PRegionSet _ => "region_set"
  | PRegionClear _ => "region_clear"
  | PStage _ => "stage"
  | PHook _ => "hook"
  | PInstall _ => "install"
  | PRelease _ => "release"
  | PCall _ => "call"
  end.

(** The builders of [body.rs] that terms are written with. *)
Definition run (cmd : list Part) : Prim := PRun (mkRun cmd [] None).
Definition run_lit (cmd : string) : Prim := run [PLit cmd].
Definition fact_ref (shape : string) : FactRef := mkFactRef shape None.
Definition anchored_ref (shape anchor : string) : FactRef := mkFactRef shape (Some anchor).
Definition write (f : FactRef) (content : Value) : Prim := PWrite (mkWrite f content).
Definition remove (f : FactRef) : Prim := PRemove (mkRemove f).
Definition hook (name : string) (args : list (string * Value)) : Prim :=
  PHook (mkHook name (map (fun '(n, v) => mkKwArg n v) args)).

(** ** Facts, footprints and guards ([model.rs]) *)

Inductive Tri := Yes | No | Unknown.

Inductive Kind := Owned | Region | Modified | Derived | AppendOnly | Held.

Inductive Drift := Clobber | Defer.

(** [Kind::default_drift] *)
Definition default_drift (k : Kind) : option Drift :=
  match k with
  | Owned | Region => Some Clobber
  | Modified => Some Defer
  | Derived | AppendOnly | Held => None
  end.

Record FootprintEntry := mkEntry {
  fp_kind : Kind;
  fp_shape : string;
  fp_instance : option string;
  fp_anchor : option string;
}.

Definition entry (k : Kind) (shape : string) : FootprintEntry := mkEntry k shape None None.
Definition anchored (shape anchor : string) : FootprintEntry :=
  mkEntry Region shape None (Some anchor).

Notation Footprint := (list FootprintEntry) (only parsing).

Record Guard := mkGuard { guard_name : string; guard_value : Tri; guard_force_never : bool }.

#[export] Instance Tri_eq_dec : EqDecision Tri. Proof. solve_decision. Defined.
#[export] Instance Kind_eq_dec : EqDecision Kind. Proof. solve_decision. Defined.
#[export] Instance Drift_eq_dec : EqDecision Drift. Proof. solve_decision. Defined.
#[export] Instance FootprintEntry_eq_dec : EqDecision FootprintEntry. Proof. solve_decision. Defined.
#[export] Instance Guard_eq_dec : EqDecision Guard. Proof. solve_decision. Defined.

(** ** Gates *)

Record Authenticator := mkAuth { auth_id : string; auth_human : bool }.

Inductive GateExpr :=
| Thresh (n : N) (factors : list Factor)
| Single (f : Factor)
with Factor : Type :=
| Auth (id : string) (weight : N)
| Humans (weight : N)
| Group (expr : GateExpr) (weight : N)
| Wait (duration : Duration) (weight : N).

Record PlanGate := mkPlanGate {
  pg_expr : GateExpr;
  pg_window : option Duration;
  pg_allow_zero_human : bool;
}.

(** ** Ops *)

Inductive HostRef := Static (h : Host) | Bound (output : string).
Inductive Locus := LController | LTarget | LHost (r : HostRef).
Inductive UndoLocus := ULTarget | ULController | NoLocus.

Inductive Undo :=
| Restore
| Computed (body : Body) (undo_pre : list string)
| Compensate (body : Body) (undo_pre : list string)
| NoUndo.

Inductive Cost := CostProbe (probe : string) | NoCost (reason : string).
Inductive Ack := AckGate (g : GateExpr) | NoAck (reason : string).

Inductive Refusal :=
| Revert
| Hold (via : option string)
| RKnell (guard : option Guard) (cost : Cost) (ack : Ack).

Record Output := mkOutput { out_name : string; out_secret : bool }.

Record Op := mkOp {
  op_id : string;
  op_footprint : Footprint;
  op_pre : list Guard;
  op_do : Body;
  op_undo : Undo;
  op_post : list Guard;
  op_undo_locus : UndoLocus;
  op_refusal : Refusal;
  op_drift : option Drift;
  op_reach : list string;
  op_outputs : list Output;
  op_exclusivity : option string;
  op_locus : Locus;
  op_suspend : option Body;
  op_reestablish : option Body;
  op_handoff_done : option string;
  op_undo_idempotent : bool;
}.

#[export] Instance HostRef_eq_dec : EqDecision HostRef. Proof. solve_decision. Defined.
#[export] Instance Locus_eq_dec : EqDecision Locus. Proof. solve_decision. Defined.
#[export] Instance UndoLocus_eq_dec : EqDecision UndoLocus. Proof. solve_decision. Defined.
#[export] Instance Undo_eq_dec : EqDecision Undo. Proof. solve_decision. Defined.
#[export] Instance Output_eq_dec : EqDecision Output. Proof. solve_decision. Defined.

(** [Op::new]: every optional field at its quiet default. *)
Definition op_new (id : string) (footprint : Footprint) : Op := {|
  op_id := id;
  op_footprint := footprint;
  op_pre := [];
  op_do := [];
  op_undo := Restore;
  op_post := [];
  op_undo_locus := ULController;
  op_refusal := Revert;
  op_drift := None;
  op_reach := [];
  op_outputs := [];
  op_exclusivity := None;
  op_locus := LTarget;
  op_suspend := None;
  op_reestablish := None;
  op_handoff_done := None;
  op_undo_idempotent := true;
|}.

(** [Op::effective_drift]: the declared policy, else the first default any
    footprint kind supplies. *)
Definition effective_drift (o : Op) : option Drift :=
  match op_drift o with
  | Some d => Some d
  | None => find_map (fun e => default_drift (fp_kind e)) (op_footprint o)
  end.

(** ** Plans and items *)

Inductive Direction := Forward | Inverse.
Inductive ForceName := FGuard (name : string) | FDrift | FUnknown.
Inductive OnLapse := LapseRevert | LapseHold.

Record StepI := mkStep {
  step_op : Op;
  step_direction : Direction;
  step_gate : option GateExpr;
  step_window : option Duration;
  step_on_lapse : OnLapse;
  step_force : list ForceName;
  step_alias : option string;
  step_args : list string;
}.

(** [StepI::new] *)
Definition step_new (o : Op) : StepI := {|
  step_op := o;
  step_direction := Forward;
  step_gate := None;
  step_window := None;
  step_on_lapse := LapseRevert;
  step_force := [];
  step_alias := None;
  step_args := [];
|}.

Inductive RepeatForm :=
| Count (n : N)
| Over (list_expr : string) (max : N) (set_valued : bool).

Inductive Item :=
| Step (s : StepI)
| Knell (s : StepI)
| Par (children : list Item)
| Slot (name : string)
| Confirm
| Commit
| Preflight (guards : list Guard)
| Observe (probe alias : string)
| Assert (guard : Guard) (window : option Duration) (on_lapse : OnLapse)
| Repeat (form : RepeatForm) (var : string) (body : list Item)
| When (guard : Guard) (window : option Duration) (on_lapse : OnLapse)
       (then_ else_ : list Item).

Inductive Trigger :=
| After (d : Duration)
| UnlessConfirmed (d : Duration)
| UnlessHeartbeat (deadline : Duration) (interval : option Duration).

Record Backstop := mkBackstop { bs_triggers : list Trigger; bs_arm_before : N }.

Inductive Strictness := Strict | Warn.
Inductive Mode := Manual | Auto.
Inductive JournalRequirement := Chained | Signed.

Record ProbeDecl := mkProbe {
  pd_name : string;
  pd_locus : Locus;
  pd_body : Body;
  pd_produces : list string;
  pd_static : bool;
  pd_equivalence : string;
  pd_reads : option string;
}.

Record Plan := mkPlan {
  plan_id : string;
  plan_owner : Host;
  plan_gate : option PlanGate;
  plan_wane : option Duration;
  plan_renew_within : option Duration;
  plan_backstop : option Backstop;
  plan_fires_by_construction : bool;
  plan_strictness : Strictness;
  plan_mode : Mode;
  plan_exclusivity : option string;
  plan_require_journal : option JournalRequirement;
  plan_body : list Item;
  plan_probes : list ProbeDecl;
}.

(** [Plan::new] *)
Definition plan_new (id owner : string) (body : list Item) : Plan := {|
  plan_id := id;
  plan_owner := owner;
  plan_gate := None;
  plan_wane := None;
  plan_renew_within := None;
  plan_backstop := None;
  plan_fires_by_construction := false;
  plan_strictness := Strict;
  plan_mode := Manual;
  plan_exclusivity := None;
  plan_require_journal := None;
  plan_body := body;
  plan_probes := [];
|}.

#[export] Instance Direction_eq_dec : EqDecision Direction. Proof. solve_decision. Defined.
#[export] Instance OnLapse_eq_dec : EqDecision OnLapse. Proof. solve_decision. Defined.
#[export] Instance Trigger_eq_dec : EqDecision Trigger. Proof. solve_decision. Defined.
#[export] Instance Strictness_eq_dec : EqDecision Strictness. Proof. solve_decision. Defined.
#[export] Instance Mode_eq_dec : EqDecision Mode. Proof. solve_decision. Defined.

(** ** The world the checker is handed *)

Inductive ArtifactLanguage := Sh | Powershell | Python.

(** [ArtifactLanguage::name] *)
Definition language_name (l : ArtifactLanguage) : string :=
  match l with
  | Sh => "sh"
  | Powershell => "powershell"
  | Python => "python"
  end.

Record HostRecord := mkHostRecord {
  hr_name : Host;
  hr_os : string;
  hr_reach : list string;
  hr_filesystem : bool;
  hr_stdin_preamble : bool;
  hr_artifact : option ArtifactLanguage;
}.

Record Site := mkSite {
  site_hosts : list HostRecord;
  site_transports : list string;
  site_authenticators : list Authenticator;
  site_max_wait : option Duration;
  site_scheduler_present : list Host;
  site_secrets_deliver_to : list string;
  site_approval : option string;
}.

#[export] Instance ArtifactLanguage_eq_dec : EqDecision ArtifactLanguage. Proof. solve_decision. Defined.
#[export] Instance Authenticator_eq_dec : EqDecision Authenticator. Proof. solve_decision. Defined.

(** ** Durations and instants *)

(** [Duration::render]: the largest unit that divides evenly, else seconds. *)
Definition duration_render (s : Duration) : string :=
  if negb (s =? 0)%N && (s mod 86400 =? 0)%N then show (s / 86400) +:+ "d"
  else if negb (s =? 0)%N && (s mod 3600 =? 0)%N then show (s / 3600) +:+ "h"
  else if negb (s =? 0)%N && (s mod 60 =? 0)%N then show (s / 60) +:+ "m"
  else show s +:+ "s".

(** [Instant::plus]: an unchecked [u64] addition. *)
Definition instant_plus (i : Instant) (d : Duration) : Instant := u64_add i d.

(** ** [bind_shape]: the names a probe's [reads] pattern binds *)

(** One turn of the loop per [{name}]; [fuel] bounds the turns by the pattern's
    length, which each turn shortens ([Resolve.bind_shape_fuel_enough]). *)
Fixpoint bind_shape_loop (fuel : nat) (pat rest : string) (vars : gmap string string)
    : option (gmap string string) :=
  match fuel with
  | O => None
  | S fuel' =>
      match split_at_char lbrace pat with
      | None => if pat == rest then Some vars else None
      | Some (lit, after) =>
          rest1 ← strip_prefix lit rest;
          '(name, pat') ← split_at_char rbrace after;
          let next_lit := match split_at_char lbrace pat' with
                          | Some (l, _) => l
                          | None => pat'
                          end in
          '(taken, rest') ←
            (if next_lit == EmptyString
             then if pat' == EmptyString then Some (rest1, EmptyString) else None
             else split_at_str next_lit rest1);
          if taken == EmptyString then None
          else bind_shape_loop fuel' pat' rest' (<[name := taken]> vars)
      end
  end.

Definition bind_shape (pattern shape : string) : option (gmap string string) :=
  bind_shape_loop (S (String.length pattern)) pattern shape ∅.

(** ** The induction principle of [Item]

    [Item] nests itself under [list]; the generated principle forgets the
    children, this one keeps a hypothesis for each. *)

Section ItemInd.
Variable P : Item -> Prop.
Hypothesis HStep : forall s, P (Step s).
Hypothesis HKnell : forall s, P (Knell s).
Hypothesis HPar : forall cs, Forall P cs -> P (Par cs).
Hypothesis HSlot : forall sl, P (Slot sl).
Hypothesis HConfirm : P Confirm.
Hypothesis HCommit : P Commit.
Hypothesis HPreflight : forall gs, P (Preflight gs).
Hypothesis HObserve : forall pr al, P (Observe pr al).
Hypothesis HAssert : forall g w ol, P (Assert g w ol).
Hypothesis HRepeat : forall f v b, Forall P b -> P (Repeat f v b).
Hypothesis HWhen : forall g w ol t e, Forall P t -> Forall P e -> P (When g w ol t e).

Fixpoint item_ind (it : Item) : P it :=
  let fix go (l : list Item) : Forall P l :=
    match l with
    | [] => Forall_nil_2 _
    | x :: l' => Forall_cons_2 _ _ _ (item_ind x) (go l')
    end in
  match it with
  | Step s => HStep s
  | Knell s => HKnell s
  | Par cs => HPar cs (go cs)
  | Slot n => HSlot n
  | Confirm => HConfirm
  | Commit => HCommit
  | Preflight gs => HPreflight gs
  | Observe p a => HObserve p a
  | Assert g w l => HAssert g w l
  | Repeat f v b => HRepeat f v b (go b)
  | When g w l t e => HWhen g w l t e (go t) (go e)
  end.
End ItemInd.

Lemma items_ind (P : Item -> Prop) (H : forall it, P it) (l : list Item) : Forall P l.
Proof. apply Forall_forall. auto. Qed.

(** ** Samples the witnesses of several components share *)

Definition sample_op (id : string) (fp : Footprint) (do_ : Body) (undo : Undo) (ul : UndoLocus)
    (reach : list string) : Op :=
  mkOp id fp [] do_ undo [] ul Revert None reach [] None LTarget None None None true.

Definition sample_plan (wane : option Duration) (b : option Backstop) (body : list Item) : Plan :=
  mkPlan "sample" "web1" None wane None b false Strict Manual None None body [].

Example bind_shape_ex1 :
  bind_shape "a:{x}:b:{y}" "a:1:b:2" = Some (<["y" := "2"]> (<["x" := "1"]> ∅)).
Proof. vm_compute. reflexivity. Qed.
Example bind_shape_ex2 : bind_shape "guest:state:{g}" "guest:state:a:b" = Some {["g" := "a:b"]}.
Proof. vm_compute. reflexivity. Qed.
Example bind_shape_ex3 : bind_shape "x:{a}{b}" "x:12" = None.
Proof. vm_compute. reflexivity. Qed.
Example duration_render_ex : duration_render 14400 = "4h".
Proof. vm_compute. reflexivity. Qed.
