(* ===== verification/Algebra.v ===== *)
(** * The reversal algebra ([core/src/algebra.rs])

    Sequencing, parallel composition, reversal and the numbering of leaves, with
    the laws the module documents: reversal flips sequences and distributes over
    [par], refuses exactly the plans with a knell, and is an involution on the
    others; the partial reversal the runtime performs undoes the applied prefix
    whatever world the steps act on, provided each undo inverts its step. *)

From stdpp Require Import base strings pretty numbers option sets gmap list.
From S2P Require Import Prelude Model.

Record Refused := mkRefused { refused_at : Item }.

(** [seq_] and [par_] *)
Definition seq_ (a b : list Item) : list Item := a ++ b.
Definition par_ (children : list Item) : Item := Par children.

Definition flip_direction (d : Direction) : Direction :=
  match d with
  | Forward => Inverse
  | Inverse => Forward
  end.

Definition flip_step (s : StepI) : StepI := {|
  step_op := step_op s;
  step_direction := flip_direction (step_direction s);
  step_gate := step_gate s;
  step_window := step_window s;
  step_on_lapse := step_on_lapse s;
  step_force := step_force s;
  step_alias := step_alias s;
  step_args := step_args s;
|}.

(** [items.iter().rev().map(f).collect()]: last item first, the first refusal
    met in that order wins. *)
Definition collect_rev {A B E} (f : A -> Result B E) : list A -> Result (list B) E :=
  fix go xs :=
    match xs with
    | [] => Ok []
    | x :: xs' => let? ys := go xs' in let? y := f x in Ok (ys ++ [y])
    end.

Fixpoint reverse_item (it : Item) : Result Item Refused :=
  match it with
  | Step s => Ok (Step (flip_step s))
  | Par children => let? cs := collect_results reverse_item children in Ok (Par cs)
  | Knell _ => Err (mkRefused it)
  | Repeat form var body => let? b := collect_rev reverse_item body in Ok (Repeat form var b)
  | When guard window on_lapse then_ else_ =>
      let? t := collect_rev reverse_item then_ in
      let? e := collect_rev reverse_item else_ in
      Ok (When guard window on_lapse t e)
  | Slot _ | Confirm | Commit | Preflight _ | Observe _ _ | Assert _ _ _ => Ok it
  end.

Definition reverse_items (items : list Item) : Result (list Item) Refused :=
  collect_rev reverse_item items.

Fixpoint knell_free_item (it : Item) : bool :=
  match it with
  | Knell _ => false
  | Par children => forallb knell_free_item children
  | Repeat _ _ body => forallb knell_free_item body
  | When _ _ _ then_ else_ => forallb knell_free_item then_ && forallb knell_free_item else_
  | _ => true
  end.

Definition knell_free (items : list Item) : bool := forallb knell_free_item items.

(** The [go] of [leaves]: containers contribute their children. *)
Fixpoint item_leaves (it : Item) : list Item :=
  match it with
  | Par children => flat_map item_leaves children
  | Repeat _ _ body => flat_map item_leaves body
  | When _ _ _ then_ else_ => flat_map item_leaves then_ ++ flat_map item_leaves else_
  | _ => [it]
  end.

Definition leaves (items : list Item) : list Item := flat_map item_leaves items.

Definition reverse_from (k : nat) (items : list Item) : Result (list Item) Refused :=
  reverse_items (take k (leaves items)).

(** The step numbers [1u32..]; a plan has fewer than [2^32] leaves. *)
Fixpoint number_from (n : N) (ls : list Item) : list (N * Item) :=
  match ls with
  | [] => []
  | it :: ls' => (n, it) :: number_from (n + 1) ls'
  end.

Definition numbered (items : list Item) : list (N * Item) := number_from 1 (leaves items).

Definition step_of (it : Item) : option StepI :=
  match it with
  | Step s | Knell s => Some s
  | _ => None
  end.

Definition op_of (it : Item) : option Op := option_map step_op (step_of it).

Definition is_knell_item (it : Item) : bool :=
  match it with
  | Knell _ => true
  | _ => false
  end.

Definition is_leaf (it : Item) : bool :=
  match it with
  | Par _ | Repeat _ _ _ | When _ _ _ _ _ => false
  | _ => true
  end.

(** ** Helper lemmas *)

Lemma flip_step_involutive s : flip_step (flip_step s) = s.
Proof. destruct s as [? [] ? ? ? ? ? ?]; reflexivity. Qed.

Section Collect.
Context {A B E : Type} (f : A -> Result B E).

Lemma collect_results_app xs ys :
  collect_results f (xs ++ ys) =
  let? a := collect_results f xs in let? b := collect_results f ys in Ok (a ++ b).
Proof.
  induction xs as [|x xs IH]; simpl.
  - destruct (collect_results f ys); reflexivity.
  - destruct (f x); simpl; [|done]. rewrite IH.
    destruct (collect_results f xs); simpl; [|done].
    by destruct (collect_results f ys).
Qed.

Lemma collect_rev_rev xs : collect_rev f xs = collect_results f (rev xs).
Proof.
  induction xs as [|x xs IH]; [done|]. simpl. rewrite collect_results_app, IH.
  destruct (collect_results f (rev xs)); [|done]. simpl. by destruct (f x).
Qed.

Lemma collect_results_Ok xs ys :
  collect_results f xs = Ok ys <-> Forall2 (fun x y => f x = Ok y) xs ys.
Proof.
  revert ys. induction xs as [|x xs IH]; intros ys; simpl.
  - split; [intros [= <-]; constructor|by inversion 1].
  - split.
    + destruct (f x) eqn:Ex; simpl; [|done].
      destruct (collect_results f xs) eqn:Exs; simpl; [|done].
      intros [= <-]. constructor; [done|]. by apply IH.
    + inversion 1 as [|? y ? ys' Hx Hxs]; subst. rewrite Hx. simpl.
      apply IH in Hxs. rewrite Hxs. done.
Qed.

Lemma collect_results_Err xs e :
  collect_results f xs = Err e -> exists x, x ∈ xs /\ f x = Err e.
Proof.
  induction xs as [|x xs IH]; simpl; [done|].
  destruct (f x) eqn:Ex; simpl.
  - destruct (collect_results f xs); simpl; [done|]. intros [= ->]. set_solver.
  - intros [= ->]. set_solver.
Qed.

Lemma collect_results_is_ok xs : is_ok (collect_results f xs) = forallb (fun x => is_ok (f x)) xs.
Proof.
  induction xs as [|x xs IH]; simpl; [done|]. rewrite <- IH.
  destruct (f x); simpl; [|done]. by destruct (collect_results f xs).
Qed.
End Collect.

Lemma Forall2_rev_2 {A B} (R : A -> B -> Prop) xs ys :
  Forall2 R xs ys -> Forall2 R (rev xs) (rev ys).
Proof. induction 1; simpl; [constructor|]. apply Forall2_app; [done|]. by repeat constructor. Qed.

Lemma forallb_rev {A} (f : A -> bool) l : forallb f (rev l) = forallb f l.
Proof.
  induction l as [|x l IH]; simpl; [done|]. rewrite forallb_app, IH. simpl.
  rewrite andb_true_r. apply andb_comm.
Qed.

Lemma forallb_ext_Forall {A} (f g : A -> bool) l :
  Forall (fun x => f x = g x) l -> forallb f l = forallb g l.
Proof. induction 1 as [|x l Hx _ IH]; simpl; congruence. Qed.

Lemma reverse_items_results items : reverse_items items = collect_results reverse_item (rev items).
Proof. apply collect_rev_rev. Qed.

Lemma collect_rev_is_ok {A B E} (f : A -> Result B E) xs :
  is_ok (collect_rev f xs) = forallb (fun x => is_ok (f x)) xs.
Proof. rewrite collect_rev_rev, collect_results_is_ok. apply forallb_rev. Qed.

Lemma reverse_item_is_ok it : is_ok (reverse_item it) = knell_free_item it.
Proof.
  induction it using item_ind; simpl; try done.
  - rewrite <- (forallb_ext_Forall _ _ _ H), <- collect_results_is_ok.
    by destruct (collect_results _ _).
  - rewrite <- (forallb_ext_Forall _ _ _ H), <- collect_rev_is_ok.
    by destruct (collect_rev _ _).
  - rewrite <- (forallb_ext_Forall _ _ _ H), <- (forallb_ext_Forall _ _ _ H0).
    rewrite <- !collect_rev_is_ok.
    destruct (collect_rev reverse_item t); [|done]. by destruct (collect_rev reverse_item e).
Qed.

Lemma reverse_items_is_ok items : is_ok (reverse_items items) = knell_free items.
Proof.
  unfold reverse_items. rewrite collect_rev_is_ok. apply forallb_ext_Forall.
  apply items_ind, reverse_item_is_ok.
Qed.

Lemma collect_results_inv_Forall (f : Item -> Result Item Refused) xs ys :
  Forall (fun x => forall y, f x = Ok y -> f y = Ok x) xs ->
  collect_results f xs = Ok ys -> collect_results f ys = Ok xs.
Proof.
  intros Hinv Hc. apply collect_results_Ok in Hc. apply collect_results_Ok.
  induction Hc as [|x y xs ys Hxy _ IH]; [constructor|].
  inversion Hinv; subst. constructor; auto.
Qed.

Lemma collect_rev_inv_Forall (f : Item -> Result Item Refused) xs ys :
  Forall (fun x => forall y, f x = Ok y -> f y = Ok x) xs ->
  collect_rev f xs = Ok ys -> collect_rev f ys = Ok xs.
Proof.
  rewrite !collect_rev_rev. intros Hinv Hc.
  apply collect_results_inv_Forall in Hc; [|by apply Forall_rev].
  apply collect_results_Ok in Hc. apply collect_results_Ok.
  apply Forall2_rev_2 in Hc. by rewrite rev_involutive in Hc.
Qed.

Lemma reverse_item_inv it it' : reverse_item it = Ok it' -> reverse_item it' = Ok it.
Proof.
  revert it'. induction it using item_ind; simpl; intros it';
    try (intros [= <-]; reflexivity); try done.
  - intros [= <-]. simpl. by rewrite flip_step_involutive.
  - destruct (collect_results _ _) eqn:E; [|done]. intros [= <-]. simpl.
    by rewrite (collect_results_inv_Forall _ _ _ H E).
  - destruct (collect_rev _ _) eqn:E; [|done]. intros [= <-]. simpl.
    by rewrite (collect_rev_inv_Forall _ _ _ H E).
  - destruct (collect_rev _ t) eqn:Et; [|done].
    destruct (collect_rev _ e) eqn:Ee; [|done]. intros [= <-]. simpl.
    by rewrite (collect_rev_inv_Forall _ _ _ H Et), (collect_rev_inv_Forall _ _ _ H0 Ee).
Qed.

(** Containers never appear among the leaves. *)
Lemma item_leaves_leaf it l : l ∈ item_leaves it -> is_leaf l = true.
Proof.
  revert l. induction it using item_ind; simpl; intros l Hl;
    try (apply list_elem_of_singleton in Hl; subst; reflexivity);
    rewrite ?Forall_forall in *.
  - apply elem_of_flat_map in Hl as (c & Hc & Hl). eauto.
  - apply elem_of_flat_map in Hl as (c & Hc & Hl). eauto.
  - apply elem_of_app in Hl as [Hl|Hl]; apply elem_of_flat_map in Hl as (c & Hc & Hl); eauto.
Qed.

Lemma leaves_leaf items : Forall (fun l => is_leaf l = true) (leaves items).
Proof.
  apply Forall_forall. intros l Hl. apply elem_of_flat_map in Hl as (c & _ & Hl).
  eauto using item_leaves_leaf.
Qed.

Lemma leaf_leaves l : is_leaf l = true -> item_leaves l = [l].
Proof. by destruct l. Qed.

Lemma knell_free_item_leaves it :
  knell_free_item it = forallb (fun l => negb (is_knell_item l)) (item_leaves it).
Proof.
  assert (Hflat : forall cs, Forall (fun it => knell_free_item it =
      forallb (fun l => negb (is_knell_item l)) (item_leaves it)) cs ->
      forallb knell_free_item cs = forallb (fun l => negb (is_knell_item l)) (flat_map item_leaves cs)).
  { induction 1 as [|c cs Hc _ IH]; simpl; [done|]. by rewrite forallb_app, Hc, IH. }
  induction it using item_ind; simpl; rewrite ?andb_true_r; auto.
  by rewrite forallb_app, (Hflat _ H), (Hflat _ H0).
Qed.

Lemma knell_free_leaves items :
  knell_free items = forallb (fun l => negb (is_knell_item l)) (leaves items).
Proof.
  induction items as [|it items IH]; simpl; [done|]. unfold leaves, knell_free in *.
  simpl. by rewrite forallb_app, knell_free_item_leaves, IH.
Qed.

Lemma leaves_of_leaves ls : Forall (fun l => is_leaf l = true) ls -> leaves ls = ls.
Proof.
  unfold leaves. induction 1 as [|l ls Hl _ IH]; simpl; [done|]. by rewrite (leaf_leaves l Hl), IH.
Qed.

Lemma number_from_lookup ls n i :
  number_from n ls !! i = (fun it => (n + N.of_nat i, it)%N) <$> ls !! i.
Proof.
  revert n i. induction ls as [|it ls IH]; intros n i; [done|].
  destruct i as [|i]; simpl; [by rewrite N.add_0_r|]. rewrite IH.
  destruct (ls !! i); simpl; [|done]. do 2 f_equal. lia.
Qed.

Lemma number_from_snd ls n : (number_from n ls).*2 = ls.
Proof. revert n. induction ls as [|it ls IH]; intros n; simpl; [done|]. by rewrite IH. Qed.

Lemma number_from_length ls n : length (number_from n ls) = length ls.
Proof. revert n. induction ls; intros n; simpl; auto. Qed.

Lemma number_from_elem ls n m it :
  (m, it) ∈ number_from n ls <-> exists i, ls !! i = Some it /\ m = (n + N.of_nat i)%N.
Proof.
  rewrite list_elem_of_lookup. setoid_rewrite number_from_lookup. split.
  - intros (i & Hi). destruct (ls !! i) eqn:E; simplify_eq/=. eauto.
  - intros (i & Hi & ->). exists i. by rewrite Hi.
Qed.

Lemma number_from_fun ls n m it it' :
  (m, it) ∈ number_from n ls -> (m, it') ∈ number_from n ls -> it = it'.
Proof.
  rewrite !number_from_elem. intros (i & Hi & ->) (j & Hj & Hij).
  assert (i = j) by lia. subst. congruence.
Qed.

Lemma number_from_bound ls n m it :
  (m, it) ∈ number_from n ls -> (n <= m < n + N.of_nat (length ls))%N.
Proof.
  rewrite number_from_elem. intros (i & Hi & ->). apply lookup_lt_Some in Hi. lia.
Qed.

Lemma numbered_elem items m it :
  (m, it) ∈ numbered items <-> (1 <= m)%N /\ leaves items !! N.to_nat (m - 1) = Some it.
Proof.
  unfold numbered. rewrite number_from_elem. split.
  - intros (i & Hi & ->). split; [lia|]. by replace (N.to_nat (1 + N.of_nat i - 1)) with i by lia.
  - intros [Hm Hl]. exists (N.to_nat (m - 1)). split; [done|lia].
Qed.

Lemma in_rev_elem {A} (l : list A) x : x ∈ l <-> x ∈ rev l.
Proof. rewrite !list_elem_of_In. apply in_rev. Qed.

Lemma collect_rev_Err {A B E} (f : A -> Result B E) xs e :
  collect_rev f xs = Err e -> exists x, x ∈ xs /\ f x = Err e.
Proof.
  rewrite collect_rev_rev. intros (x & Hx & Hf)%collect_results_Err.
  exists x. by rewrite in_rev_elem.
Qed.

Lemma reverse_item_refused it r :
  reverse_item it = Err r -> exists s, refused_at r = Knell s /\ Knell s ∈ item_leaves it.
Proof.
  assert (Hin : forall cs c s, Knell s ∈ item_leaves c -> c ∈ cs -> Knell s ∈ flat_map item_leaves cs).
  { intros cs c s Hs Hc. apply elem_of_flat_map. eauto. }
  induction it using item_ind; simpl; try done; rewrite ?Forall_forall in *.
  - intros [= <-]. exists s. set_solver.
  - destruct (collect_results _ _) eqn:E; [done|]. intros [= <-].
    apply collect_results_Err in E as (c & Hc & Hr).
    destruct (H c Hc Hr) as (s & ? & ?). eauto.
  - destruct (collect_rev _ _) eqn:E; [done|]. intros [= <-].
    apply collect_rev_Err in E as (c & Hc & Hr).
    destruct (H c Hc Hr) as (s & ? & ?). eauto.
  - destruct (collect_rev _ t) eqn:Et; simpl.
    + destruct (collect_rev _ e) eqn:Ee; [done|]. intros [= <-].
      apply collect_rev_Err in Ee as (c & Hc & Hr).
      destruct (H0 c Hc Hr) as (s & ? & ?). exists s. rewrite elem_of_app. eauto.
    + intros [= <-]. apply collect_rev_Err in Et as (c & Hc & Hr).
      destruct (H c Hc Hr) as (s & ? & ?). exists s. rewrite elem_of_app. eauto.
Qed.

(** Reversing a run of leaves flips each in place and the order of them. *)
Definition flip_leaf (it : Item) : Item :=
  match it with
  | Step s => Step (flip_step s)
  | _ => it
  end.

Lemma reverse_leaf l l' : is_leaf l = true -> reverse_item l = Ok l' -> l' = flip_leaf l.
Proof. destruct l; simpl; try done; intros _ [= <-]; reflexivity. Qed.

Lemma reverse_leaves ls ls' :
  Forall (fun l => is_leaf l = true) ls ->
  reverse_items ls = Ok ls' -> ls' = rev (map flip_leaf ls).
Proof.
  intros Hls. rewrite reverse_items_results. intros Hc%collect_results_Ok.
  rewrite <- map_rev. apply Forall_rev in Hls.
  induction Hc as [|x y xs ys Hxy _ IH]; simpl; [done|].
  inversion Hls; subst. f_equal; eauto using reverse_leaf.
Qed.

(** ** The laws *)

(** [reverse (seq a b) = seq (reverse b) (reverse a)], refusals included: the
    later part is reversed, and may refuse, first. *)
Theorem reverse_seq a b :
  reverse_items (seq_ a b) =
  let? rb := reverse_items b in let? ra := reverse_items a in Ok (seq_ rb ra).
Proof.
  unfold seq_. rewrite !reverse_items_results, rev_app_distr. apply collect_results_app.
Qed.

(** Reversal succeeds exactly on the knell-free plans, and there it is an
    involution: reversing twice gives the plan back. *)
Theorem reverse_involution items :
  is_ok (reverse_items items) = knell_free items /\
  (forall items', reverse_items items = Ok items' -> reverse_items items' = Ok items).
Proof.
  split; [apply reverse_items_is_ok|]. intros items'.
  apply collect_rev_inv_Forall, items_ind, reverse_item_inv.
Qed.

(** A refused reversal names a knell that is one of the plan's leaves. *)
Theorem reverse_refuses_at_a_knell items r :
  reverse_items items = Err r -> exists s, refused_at r = Knell s /\ Knell s ∈ leaves items.
Proof.
  unfold reverse_items. rewrite collect_rev_rev. intros Hc.
  apply collect_results_Err in Hc as (it & Hit & Hr).
  rewrite <- in_rev_elem in Hit.
  destruct (reverse_item_refused it r Hr) as (s & Hat & Hs).
  exists s. split; [done|]. apply elem_of_flat_map. eauto.
Qed.

Lemma reverse_from_is_ok k items :
  is_ok (reverse_from k items) = forallb (fun l => negb (is_knell_item l)) (take k (leaves items)).
Proof.
  unfold reverse_from. rewrite reverse_items_is_ok, knell_free_leaves.
  by rewrite leaves_of_leaves by apply Forall_take, leaves_leaf.
Qed.

(** [reverse_from k] undoes the first [k] leaves last-in-first-out: it refuses
    exactly when one of them is a knell, and otherwise is those leaves flipped, in
    reverse order. *)
Theorem reverse_from_lifo k items :
  match reverse_from k items with
  | Ok rs => rs = rev (map flip_leaf (take k (leaves items)))
             /\ forall l, l ∈ take k (leaves items) -> is_knell_item l = false
  | Err r => exists s, refused_at r = Knell s /\ Knell s ∈ take k (leaves items)
  end.
Proof.
  assert (Hls := Forall_take _ k _ (leaves_leaf items)).
  unfold reverse_from. destruct (reverse_items _) as [rs|r] eqn:Hr.
  - split; [by apply reverse_leaves|].
    assert (Hk := reverse_items_is_ok (take k (leaves items))).
    rewrite Hr, knell_free_leaves, leaves_of_leaves in Hk by done.
    symmetry in Hk. rewrite forallb_elem in Hk. intros l Hl. by apply negb_true_iff, Hk.
  - destruct (collect_rev_Err _ _ _ Hr) as (it & Hit & Hf).
    apply reverse_item_refused in Hf as (s & ? & Hs). exists s. split; [done|].
    rewrite leaf_leaves, list_elem_of_singleton in Hs by (by eapply Forall_forall in Hls).
    by subst.
Qed.

(** ** Partial reversal undoes the applied prefix

    A world, and what running a step in its direction does to it. The hypothesis
    is the one the checker's guarantee rests on: a step's undo, run right after it,
    inverts it. *)
Section Execution.
Context {World : Type} (exec : StepI -> World -> World).
Hypothesis undo_inverts : forall s w, exec (flip_step s) (exec s w) = w.

Definition run_leaf (w : World) (it : Item) : World :=
  match step_of it with
  | Some s => exec s w
  | None => w
  end.

Definition run_leaves (ls : list Item) (w : World) : World := foldl run_leaf w ls.

Lemma run_flip_leaf it w :
  is_knell_item it = false -> run_leaf (run_leaf w it) (flip_leaf it) = w.
Proof. destruct it; simpl; intros Hk; try done. unfold run_leaf. simpl. apply undo_inverts. Qed.

Lemma run_reversed ls w :
  forallb (fun l => negb (is_knell_item l)) ls = true ->
  run_leaves (rev (map flip_leaf ls)) (run_leaves ls w) = w.
Proof.
  revert w. induction ls as [|l ls IH]; intros w; simpl; [done|].
  intros [Hl Hls]%andb_true_iff. unfold run_leaves in *. simpl.
  rewrite foldl_app. simpl. rewrite IH by done. apply run_flip_leaf.
  by apply negb_true_iff.
Qed.
End Execution.

(** Whatever the plan's containers, running its first [k] leaves and then the
    partial reversal [reverse_from k] returns every world to where it was. *)
Theorem reverse_from_undoes_prefix {World : Type} (exec : StepI -> World -> World)
    (undo_inverts : forall s w, exec (flip_step s) (exec s w) = w) k items rs w :
  reverse_from k items = Ok rs ->
  run_leaves exec rs (run_leaves exec (take k (leaves items)) w) = w.
Proof.
  intros Hr. assert (Hls := Forall_take _ k _ (leaves_leaf items)).
  unfold reverse_from in Hr. rewrite (reverse_leaves _ _ Hls Hr).
  apply run_reversed; [done|].
  rewrite <- (leaves_of_leaves _ Hls), <- knell_free_leaves, <- reverse_items_is_ok.
  by rewrite Hr.
Qed.

(** ** Witnesses *)

Definition demo_step (id : string) : Item := Step (step_new (op_new id [])).
Definition demo_knell (id : string) : Item := Knell (step_new (op_new id [])).

Lemma reverse_involution_witness :
  reverse_items [flip_leaf (demo_step "c"); flip_leaf (demo_step "a")] = Ok [demo_step "a"; demo_step "c"].
Proof.
  apply (proj2 (reverse_involution [demo_step "a"; demo_step "c"])). reflexivity.
Defined.

Lemma reverse_refuses_at_a_knell_witness :
  exists s, demo_knell "k" = Knell s /\ Knell s ∈ leaves [demo_step "a"; Par [demo_knell "k"]].
Proof.
  apply (reverse_refuses_at_a_knell [demo_step "a"; Par [demo_knell "k"]] (mkRefused (demo_knell "k"))).
  reflexivity.
Defined.

Definition demo_exec (s : StepI) (w : Z) : Z :=
  match step_direction s with Forward => (w + 2)%Z | Inverse => (w - 2)%Z end.

Lemma reverse_from_undoes_prefix_witness :
  run_leaves demo_exec [flip_leaf (demo_step "b"); flip_leaf (demo_step "a")]
    (run_leaves demo_exec [demo_step "a"; demo_step "b"] 7%Z) = 7%Z.
Proof.
  apply (reverse_from_undoes_prefix demo_exec) with
    (k := 2) (items := [demo_step "a"; Par [demo_step "b"]; demo_knell "k"]); [|reflexivity].
  intros s w. unfold demo_exec, flip_step. destruct (step_direction s); simpl; lia.
Defined.
