(* ===== verification/Intent.v ===== *)
(** * Intent and paths ([core/src/intent.rs])

    A plan's intent (temporary or permanent), the bound a temporary plan expires
    at, and the enumeration of paths through a plan that the commit rules E0502
    and E0505 read. The enumeration is proved equal to a declarative relation: a
    path is one choice of arm at every [when]. *)

From stdpp Require Import base strings pretty numbers option sets gmap list.
From S2P Require Import Prelude Model Algebra.

Inductive Intent := Temporary | Permanent.

#[export] Instance Intent_eq_dec : EqDecision Intent.
Proof. solve_decision. Defined.

Definition is_commit (it : Item) : bool :=
  match it with
  | Commit => true
  | _ => false
  end.

Fixpoint commit_reachable_item (it : Item) : bool :=
  match it with
  | Commit => true
  | Par children => existsb commit_reachable_item children
  | Repeat _ _ body => existsb commit_reachable_item body
  | When _ _ _ then_ else_ =>
      existsb commit_reachable_item then_ || existsb commit_reachable_item else_
  | _ => false
  end.

Definition commit_reachable (items : list Item) : bool := existsb commit_reachable_item items.

Definition infer_intent (p : Plan) : option Intent :=
  let has_wane := match plan_wane p with Some _ => true | None => false end in
  let has_commit := commit_reachable (plan_body p) in
  if plan_fires_by_construction p
  then if has_wane || has_commit then None else Some Temporary
  else if has_wane && negb has_commit then Some Temporary
  else if has_commit && negb has_wane then Some Permanent
  else None.

Definition effective_wane (p : Plan) : option Duration :=
  match plan_wane p with
  | Some w => Some w
  | None =>
      if plan_fires_by_construction p
      then match plan_backstop p with
           | Some b => find_map (fun t => match t with UnlessConfirmed d => Some d | _ => None end)
                                (bs_triggers b)
           | None => None
           end
      else None
  end.

Definition commit_step (items : list Item) : option N :=
  option_map fst (List.find (fun '(_, it) => is_commit it) (numbered items)).

(** One turn of the loop of [paths]: every prefix extended by every way through
    the item. *)
Definition extend_paths (here acc : list (list Item)) : list (list Item) :=
  flat_map (fun prefix => map (fun h => prefix ++ h) here) acc.

Fixpoint item_paths (it : Item) : list (list Item) :=
  match it with
  | Par children => foldl (fun acc c => extend_paths (item_paths c) acc) [[]] children
  | Repeat _ _ body => foldl (fun acc c => extend_paths (item_paths c) acc) [[]] body
  | When _ _ _ then_ else_ =>
      foldl (fun acc c => extend_paths (item_paths c) acc) [[]] then_
      ++ foldl (fun acc c => extend_paths (item_paths c) acc) [[]] else_
  | _ => [[it]]
  end.

Definition paths (items : list Item) : list (list Item) :=
  foldl (fun acc it => extend_paths (item_paths it) acc) [[]] items.

Fixpoint skip_until_commit (path : list Item) : list Item :=
  match path with
  | [] => []
  | it :: path' => if is_commit it then path else skip_until_commit path'
  end.

Definition commit_not_last (items : list Item) : bool :=
  existsb (fun path => 2 <=? length (skip_until_commit path)) (paths items).

Definition paths_without_commit (items : list Item) : nat :=
  length (List.filter (fun path => negb (existsb is_commit path)) (paths items)).

(** ** The declarative reading: one choice of arm at every [when] *)

Inductive item_path : Item -> list Item -> Prop :=
| ip_leaf it : is_leaf it = true -> item_path it [it]
| ip_par cs p : items_path cs p -> item_path (Par cs) p
| ip_repeat f v b p : items_path b p -> item_path (Repeat f v b) p
| ip_then g w ol t e p : items_path t p -> item_path (When g w ol t e) p
| ip_else g w ol t e p : items_path e p -> item_path (When g w ol t e) p
with items_path : list Item -> list Item -> Prop :=
| ip_nil : items_path [] []
| ip_cons it its p q : item_path it p -> items_path its q -> items_path (it :: its) (p ++ q).

(** ** Lemmas *)

Lemma foldl_paths_elem (f : Item -> list (list Item)) its acc p :
  p ∈ foldl (fun acc c => extend_paths (f c) acc) acc its <->
  exists a q, p = a ++ q /\ a ∈ acc /\ q ∈ foldl (fun acc c => extend_paths (f c) acc) [[]] its.
Proof.
  revert acc p. induction its as [|it its IH]; intros acc p; simpl.
  - split.
    + intros Hp. exists p, []. rewrite app_nil_r. set_solver.
    + intros (a & q & -> & Ha & Hq). apply list_elem_of_singleton in Hq as ->. by rewrite app_nil_r.
  - rewrite IH. setoid_rewrite (IH (extend_paths (f it) [[]])).
    unfold extend_paths. setoid_rewrite elem_of_flat_map. setoid_rewrite elem_of_map. split.
    + intros (a & q & -> & (x & Hx & h & -> & Hh) & Hq).
      exists x, (h ++ q). rewrite app_assoc. split; [done|]. split; [done|].
      exists h, q. split; [done|]. split; [|done]. exists []. set_solver.
    + intros (a & q & -> & Ha & (a' & q' & -> & (x & Hx & h & -> & Hh) & Hq)).
      apply list_elem_of_singleton in Hx as ->. simpl.
      exists (a ++ h), q'. rewrite <- app_assoc. split; [done|]. split; [|done]. eauto.
Qed.

Lemma paths_cons it its p :
  p ∈ paths (it :: its) <-> exists a q, p = a ++ q /\ a ∈ item_paths it /\ q ∈ paths its.
Proof.
  unfold paths. simpl. rewrite foldl_paths_elem.
  assert (Hs : forall a, a ∈ extend_paths (item_paths it) [[]] <-> a ∈ item_paths it).
  { intros a. unfold extend_paths. simpl. rewrite app_nil_r, elem_of_map. set_solver. }
  by setoid_rewrite Hs.
Qed.

Lemma paths_items_path its :
  Forall (fun it => forall p, p ∈ item_paths it <-> item_path it p) its ->
  forall p, p ∈ paths its <-> items_path its p.
Proof.
  induction 1 as [|it its Hit _ IH]; intros p.
  - unfold paths. simpl. rewrite list_elem_of_singleton. split; [intros ->; constructor|by inversion 1].
  - rewrite paths_cons. setoid_rewrite Hit. setoid_rewrite IH. split.
    + intros (a & q & -> & Ha & Hq). by constructor.
    + inversion 1; subst; eauto.
Qed.

Lemma item_paths_correct it p : p ∈ item_paths it <-> item_path it p.
Proof.
  revert p. induction it using item_ind; intros p; simpl;
    try (rewrite list_elem_of_singleton; split; [intros ->; by constructor|by inversion 1]).
  - change (p ∈ paths cs <-> item_path (Par cs) p). rewrite (paths_items_path cs H).
    split; [by constructor|]. by inversion 1.
  - change (p ∈ paths b <-> item_path (Repeat f v b) p). rewrite (paths_items_path b H).
    split; [by constructor|]. by inversion 1.
  - change (p ∈ paths t ++ paths e <-> item_path (When g w ol t e) p).
    rewrite elem_of_app, (paths_items_path t H), (paths_items_path e H0).
    split; [intros []; [by apply ip_then|by apply ip_else]|]. inversion 1; subst; auto; done.
Qed.

Lemma skip_until_commit_spec path :
  2 <= length (skip_until_commit path) <-> exists a x b, path = a ++ Commit :: x :: b.
Proof.
  induction path as [|it path IH]; simpl.
  - split; [lia|]. by intros ([] & x & b & ?).
  - destruct (is_commit it) eqn:Ei.
    + destruct it; try done. split.
      * destruct path as [|x b]; simpl; [lia|]. intros _. by exists [], x, b.
      * intros ([|y a] & x & b & E); simplify_eq/=; [|rewrite length_app; simpl]; lia.
    + rewrite IH. split.
      * intros (a & x & b & ->). by exists (it :: a), x, b.
      * intros ([|y a] & x & b & E); simplify_eq/=. eauto.
Qed.

Lemma commit_not_last_false items :
  commit_not_last items = false ->
  forall p a x b, items_path items p -> p <> a ++ Commit :: x :: b.
Proof.
  intros Hc p a x b Hp ->. unfold commit_not_last in Hc. rewrite existsb_false in Hc.
  assert (Hin : a ++ Commit :: x :: b ∈ paths items)
    by (by apply paths_items_path; [apply items_ind, item_paths_correct|]).
  apply Hc in Hin. apply Nat.leb_gt in Hin.
  assert (2 <= length (skip_until_commit (a ++ Commit :: x :: b))) by (apply skip_until_commit_spec; eauto).
  lia.
Qed.

Lemma is_commit_true it : is_commit it = true <-> it = Commit.
Proof. by destruct it. Qed.

Lemma commit_reachable_leaves_item it : commit_reachable_item it = existsb is_commit (item_leaves it).
Proof.
  assert (Hflat : forall cs, Forall (fun it => commit_reachable_item it =
      existsb is_commit (item_leaves it)) cs ->
      existsb commit_reachable_item cs = existsb is_commit (flat_map item_leaves cs)).
  { induction 1 as [|c cs Hc _ IH]; simpl; [done|]. by rewrite existsb_app, Hc, IH. }
  induction it using item_ind; simpl; auto.
  by rewrite existsb_app, (Hflat _ H), (Hflat _ H0).
Qed.

Lemma commit_reachable_leaves items : commit_reachable items = existsb is_commit (leaves items).
Proof.
  unfold commit_reachable, leaves. induction items as [|it items IH]; simpl; [done|].
  by rewrite existsb_app, commit_reachable_leaves_item, IH.
Qed.

(** ** Properties *)

(** The path enumeration is exactly the declarative one: a list of leaves is
    enumerated iff it is what some choice of arm at every [when] runs, repeat
    bodies once and [par] children in order. *)
Theorem paths_correct items p : p ∈ paths items <-> items_path items p.
Proof. apply paths_items_path, items_ind, item_paths_correct. Qed.

(** A plan that passes E0505 (no path without commit) and E0502 (commit is
    last) ends every path with [commit()], and has it nowhere else on the path. *)
Theorem commit_ends_every_path items p :
  paths_without_commit items = 0 -> commit_not_last items = false -> items_path items p ->
  exists a, p = a ++ [Commit] /\ Commit ∉ a.
Proof.
  intros Hw Hl Hp. assert (Hnl := commit_not_last_false items Hl p).
  assert (Hc : existsb is_commit p = true).
  { destruct (existsb is_commit p) eqn:E; [done|]. unfold paths_without_commit in Hw.
    apply nil_length_inv in Hw.
    assert (Hin : p ∈ List.filter (fun path => negb (existsb is_commit path)) (paths items)).
    { apply elem_of_lfilter. rewrite E. split; [|done].
      by apply paths_items_path; [apply items_ind, item_paths_correct|]. }
    rewrite Hw in Hin. set_solver. }
  apply existsb_elem in Hc as (x & Hx & ->%is_commit_true).
  apply list_elem_of_split in Hx as (a & b & ->).
  destruct b as [|y b]; [|by destruct (Hnl a y b)].
  exists a. split; [done|]. intros Ha. apply list_elem_of_split in Ha as (a1 & a2 & ->).
  rewrite <- app_assoc in Hnl, Hp. destruct a2 as [|y a2]; simpl in *.
  - by destruct (Hnl a1 Commit []).
  - by destruct (Hnl a1 y (a2 ++ [Commit])).
Qed.

(** The intent is temporary for a plan with a wane and no reachable commit (or
    one that fires by construction with neither), permanent for a reachable commit
    without a wane, and undetermined in every other case (E0501). *)
Theorem infer_intent_spec p :
  let has_wane := exists w, plan_wane p = Some w in
  let has_commit := Commit ∈ leaves (plan_body p) in
  (infer_intent p = Some Temporary <->
     if plan_fires_by_construction p then ~ has_wane /\ ~ has_commit else has_wane /\ ~ has_commit) /\
  (infer_intent p = Some Permanent <->
     plan_fires_by_construction p = false /\ has_commit /\ ~ has_wane).
Proof.
  assert (Hc : commit_reachable (plan_body p) = true <-> Commit ∈ leaves (plan_body p)).
  { rewrite commit_reachable_leaves, existsb_elem. setoid_rewrite is_commit_true. set_solver. }
  unfold infer_intent. simpl. destruct (commit_reachable _), (plan_wane p) as [w|],
    (plan_fires_by_construction p); simpl; naive_solver.
Qed.

(** ** Witnesses *)

Definition demo_permanent : list Item :=
  [When (mkGuard "g" Unknown false) None LapseRevert
     [Step (step_new (op_new "a" [])); Commit] [Confirm; Commit]].

Lemma commit_ends_every_path_witness :
  exists a, [Confirm; Commit] = a ++ [Commit] /\ Commit ∉ a.
Proof.
  apply (commit_ends_every_path demo_permanent [Confirm; Commit]); [reflexivity|reflexivity|].
  apply (ip_cons _ [] [Confirm; Commit] []); [|apply ip_nil].
  apply ip_else. apply (ip_cons Confirm [Commit] [Confirm] [Commit]); [apply ip_leaf; reflexivity|].
  apply (ip_cons Commit [] [Commit] []); [apply ip_leaf; reflexivity|apply ip_nil].
Defined.

Lemma infer_intent_spec_witness : ~ exists w, plan_wane (sample_plan None None demo_permanent) = Some w.
Proof.
  exact (proj2 (proj2 (proj1 (proj2 (infer_intent_spec (sample_plan None None demo_permanent))) eq_refl))).
Defined.
