(* ===== verification/States.v ===== *)
(** * The runtime state machine ([core/src/states.rs])

    [transition] over a context, a state and an event, as the source writes it;
    the generated table; expiry and renewal. The machine is then read as a step
    relation (the intent and mode of an instance are fixed, the hold flag and the
    lapse policy may differ at every event) and its class rules are proved of it. *)

From stdpp Require Import base strings pretty numbers option sets gmap list relations.
From S2P Require Import Prelude Model Algebra Intent.

Inductive State :=
| SUnchecked | SChecked | SPending | SApprovalExpired | SApplying | SWaiting | SDeferred | SHeld
| SApplied | SSuspended | SExpired | SReverting | SStuck | SDriftHeld | SCommitted | SClosed.

#[export] Instance State_eq_dec : EqDecision State. Proof. solve_decision. Defined.

Definition ALL_STATES : list State :=
  [SUnchecked; SChecked; SPending; SApprovalExpired; SApplying; SWaiting; SDeferred; SHeld;
   SApplied; SSuspended; SExpired; SReverting; SStuck; SDriftHeld; SCommitted; SClosed].

(** [impl Display for State]: the variant's name. *)
Definition state_name (s : State) : string :=
  match s with
  | SUnchecked => "Unchecked" | SChecked => "Checked" | SPending => "Pending"
  | SApprovalExpired => "ApprovalExpired" | SApplying => "Applying" | SWaiting => "Waiting"
  | SDeferred => "Deferred" | SHeld => "Held" | SApplied => "Applied" | SSuspended => "Suspended"
  | SExpired => "Expired" | SReverting => "Reverting" | SStuck => "Stuck"
  | SDriftHeld => "DriftHeld" | SCommitted => "Committed" | SClosed => "Closed"
  end.

Inductive Event :=
| EvCheck | EvRequest | EvApprove | EvApprovalWindowLapses | EvCancel | EvHostContractChanged
| EvAllStepsDone | EvCommitItem | EvRefuse | EvWaitAtStep | EvWaitSatisfied | EvDeferAtStep
| EvHandoffDone | EvRecant | EvSuspend | EvReestablish | EvRenew | EvConfirm | EvCommitVerb
| EvResume | EvBoundLapses | EvWaneElapses | EvUndoClean | EvUndoFailed | EvRetry
| EvDriftOnDefer | EvForceDrift | EvAbandon.

#[export] Instance Event_eq_dec : EqDecision Event. Proof. solve_decision. Defined.

Definition ALL_EVENTS : list Event :=
  [EvCheck; EvRequest; EvApprove; EvApprovalWindowLapses; EvCancel; EvHostContractChanged;
   EvAllStepsDone; EvCommitItem; EvRefuse; EvWaitAtStep; EvWaitSatisfied; EvDeferAtStep;
   EvHandoffDone; EvRecant; EvSuspend; EvReestablish; EvRenew; EvConfirm; EvCommitVerb;
   EvResume; EvBoundLapses; EvWaneElapses; EvUndoClean; EvUndoFailed; EvRetry;
   EvDriftOnDefer; EvForceDrift; EvAbandon].

(** [impl Display for Event] *)
Definition event_name (e : Event) : string :=
  match e with
  | EvCheck => "Check" | EvRequest => "Request" | EvApprove => "Approve"
  | EvApprovalWindowLapses => "ApprovalWindowLapses" | EvCancel => "Cancel"
  | EvHostContractChanged => "HostContractChanged" | EvAllStepsDone => "AllStepsDone"
  | EvCommitItem => "CommitItem" | EvRefuse => "Refuse" | EvWaitAtStep => "WaitAtStep"
  | EvWaitSatisfied => "WaitSatisfied" | EvDeferAtStep => "DeferAtStep"
  | EvHandoffDone => "HandoffDone" | EvRecant => "Recant" | EvSuspend => "Suspend"
  | EvReestablish => "Reestablish" | EvRenew => "Renew" | EvConfirm => "Confirm"
  | EvCommitVerb => "CommitVerb" | EvResume => "Resume" | EvBoundLapses => "BoundLapses"
  | EvWaneElapses => "WaneElapses" | EvUndoClean => "UndoClean" | EvUndoFailed => "UndoFailed"
  | EvRetry => "Retry" | EvDriftOnDefer => "DriftOnDefer" | EvForceDrift => "ForceDrift"
  | EvAbandon => "Abandon"
  end.

Inductive RCode := R0102 | R0103.

Inductive Outcome :=
| To (s : State)
| Stay
| Refuse (code : RCode)
| NotApplicable.

#[export] Instance RCode_eq_dec : EqDecision RCode. Proof. solve_decision. Defined.
#[export] Instance Outcome_eq_dec : EqDecision Outcome. Proof. solve_decision. Defined.

Record Ctx := mkCtx {
  ctx_intent : Intent;
  ctx_mode : Mode;
  ctx_earlier_hold : bool;
  ctx_on_lapse : OnLapse;
}.

Definition terminal (s : State) : bool :=
  match s with
  | SClosed | SCommitted => true
  | _ => false
  end.

Definition transition (ctx : Ctx) (s : State) (ev : Event) : Outcome :=
  let temporary := ctx_intent ctx == Temporary in
  let permanent := ctx_intent ctx == Permanent in
  if terminal s then NotApplicable
  else if permanent && match s with SApplied | SSuspended => true | _ => false end
  then NotApplicable
  else if ev == EvWaneElapses then
    if permanent then NotApplicable
    else match s with
         | SDriftHeld | SStuck => Stay
         | SPending | SUnchecked | SChecked | SApprovalExpired => NotApplicable
         | SExpired => Stay
         | _ => To SExpired
         end
  else if ev == EvAbandon then
    match s with
    | SStuck | SDriftHeld => To SClosed
    | _ => NotApplicable
    end
  else
    let lapse :=
      if ctx_mode ctx == Auto then To SReverting
      else if ctx_on_lapse ctx == LapseHold then To SHeld
      else To SReverting in
    let permanent_only o := if permanent then o else Refuse R0102 in
    let temporary_only o := if temporary then o else Refuse R0102 in
    match s, ev with
    | SUnchecked, EvCheck => To SChecked
    | SChecked, EvRequest => To SPending
    | SPending, EvApprove => To SApplying
    | SPending, EvApprovalWindowLapses => To SApprovalExpired
    | SPending, EvCancel => To SClosed
    | SPending, EvHostContractChanged => To SClosed
    | SApprovalExpired, EvCancel => To SClosed
    | SApplying, EvAllStepsDone => if temporary then To SApplied else NotApplicable
    | SApplying, EvCommitItem => permanent_only (To SCommitted)
    | SApplying, EvRefuse => if ctx_earlier_hold ctx then To SHeld else To SReverting
    | SApplying, EvWaitAtStep => To SWaiting
    | SApplying, EvDeferAtStep => To SDeferred
    | SApplying, EvConfirm => permanent_only Stay
    | SApplying, EvRenew => temporary_only Stay
    | SWaiting, EvWaitSatisfied => To SApplying
    | SWaiting, EvRecant => To SReverting
    | SWaiting, EvBoundLapses => lapse
    | SDeferred, EvHandoffDone => To SApplying
    | SDeferred, EvRecant => To SReverting
    | SDeferred, EvCommitVerb => permanent_only (To SCommitted)
    | SHeld, EvResume => To SApplying
    | SHeld, EvRecant => To SReverting
    | SHeld, EvCommitVerb => permanent_only (To SCommitted)
    | SApplied, EvRecant => To SReverting
    | SApplied, EvSuspend => To SSuspended
    | SApplied, EvRenew => temporary_only Stay
    | SApplied, EvConfirm => permanent_only Stay
    | SSuspended, EvReestablish => To SApplied
    | SSuspended, EvRecant => To SReverting
    | SExpired, EvUndoClean => To SClosed
    | SExpired, EvUndoFailed => To SStuck
    | SExpired, EvDriftOnDefer => To SDriftHeld
    | SReverting, EvUndoClean => To SClosed
    | SReverting, EvUndoFailed => To SStuck
    | SReverting, EvDriftOnDefer => To SDriftHeld
    | SStuck, EvRetry => To SReverting
    | SDriftHeld, EvForceDrift => To SReverting
    | SDriftHeld, EvRecant => Refuse R0103
    | _, _ => NotApplicable
    end.

Definition all_ctxs : list Ctx :=
  intent ← [Temporary; Permanent];
  mode ← [Manual; Auto];
  earlier_hold ← [false; true];
  on_lapse ← [LapseRevert; LapseHold];
  [mkCtx intent mode earlier_hold on_lapse].

Definition transition_table : list (Ctx * State * Event * Outcome) :=
  ctx ← all_ctxs;
  s ← ALL_STATES;
  ev ← ALL_EVENTS;
  let o := transition ctx s ev in
  if o == NotApplicable then [] else [(ctx, s, ev, o)].

Definition tab : string := String (chr 9) EmptyString.

Definition rcode_name (c : RCode) : string :=
  match c with R0102 => "R0102" | R0103 => "R0103" end.

Definition outcome_text (o : Outcome) : string :=
  match o with
  | To t => "-> " +:+ state_name t
  | Stay => "stay"
  | Refuse code => "refuse " +:+ rcode_name code
  | NotApplicable => "n/a"
  end.

Definition table_row (row : Ctx * State * Event * Outcome) : string :=
  let '(c, s, e, o) := row in
  join tab
    [match ctx_intent c with Temporary => "temporary" | Permanent => "permanent" end;
     match ctx_mode c with Manual => "manual" | Auto => "auto" end;
     if ctx_earlier_hold c then "yes" else "no";
     match ctx_on_lapse c with LapseRevert => "revert" | LapseHold => "hold" end;
     state_name s; event_name e; outcome_text o] +:+ newline.

(** [render_table]: the text [rescind states] prints. *)
Definition render_table : string :=
  join tab ["intent"; "mode"; "earlier_hold"; "on_lapse"; "state"; "event"; "outcome"] +:+ newline
  +:+ concats (map table_row transition_table).

(** The boundary is closed: observed at the instant is expired. *)
Definition expired (now deadline : Instant) : bool := (deadline <=? now)%N.

Inductive RenewRefusal :=
| RenewExpired
| OutsideWindow (until : Instant).

Definition renew (now deadline : Instant) (renew_within wane : Duration)
    : Result Instant RenewRefusal :=
  if expired now deadline then Err RenewExpired
  else
    let opens := u64_saturating_sub deadline renew_within in
    if (now <? opens)%N then Err (OutsideWindow opens) else Ok (instant_plus now wane).

(** ** The machine as a step relation *)

Inductive step (i : Intent) (m : Mode) (s s' : State) : Prop :=
| step_intro earlier_hold on_lapse ev :
    transition (mkCtx i m earlier_hold on_lapse) s ev = To s' -> step i m s s'.

Definition reachable (i : Intent) (m : Mode) (s : State) : Prop := rtc (step i m) SUnchecked s.

(** The states of an instance whose undo is under way or done. *)
Definition undoing (s : State) : bool :=
  match s with
  | SExpired | SReverting | SStuck | SDriftHeld | SClosed => true
  | _ => false
  end.

(** The states no instance of the intent ever enters. *)
Definition foreign_state (i : Intent) (s : State) : bool :=
  match i, s with
  | Temporary, SCommitted => true
  | Permanent, (SApplied | SSuspended | SExpired) => true
  | _, _ => false
  end.

(** ** Deciding statements about the finite machine

    A boolean statement about every context, state and event is checked by
    evaluating it on the enumerations. *)

Lemma all_states_complete s : s ∈ ALL_STATES.
Proof. apply (bool_decide_unpack _). destruct s; vm_compute; exact I. Qed.

Lemma all_events_complete e : e ∈ ALL_EVENTS.
Proof. apply (bool_decide_unpack _). destruct e; vm_compute; exact I. Qed.

Lemma all_ctxs_complete c : c ∈ all_ctxs.
Proof. destruct c as [[] [] [] []]; unfold all_ctxs; simpl; set_solver. Qed.

Lemma machine_check (P : Ctx -> State -> Event -> Outcome -> bool) :
  forallb (fun c => forallb (fun s => forallb (fun e => P c s e (transition c s e))
    ALL_EVENTS) ALL_STATES) all_ctxs = true ->
  forall c s e, P c s e (transition c s e) = true.
Proof.
  intros H c s e. rewrite forallb_elem in H. specialize (H c (all_ctxs_complete c)).
  rewrite forallb_elem in H. specialize (H s (all_states_complete s)).
  rewrite forallb_elem in H. exact (H e (all_events_complete e)).
Qed.

(** [check_machine P] proves a goal that follows from the boolean statement [P]
    of the transition at hand. *)
Ltac check_machine P c s e :=
  let H := fresh "Hchk" in
  assert (H : P c s e (transition c s e) = true)
    by (apply (machine_check P); vm_compute; reflexivity);
  cbv beta in H.

Lemma step_not_foreign i m s s' :
  step i m s s' -> foreign_state i s = false -> foreign_state i s' = false.
Proof.
  intros [eh ol ev Ht] Hs.
  check_machine (fun c s (e : Event) o => match o with
      | To s' => foreign_state (ctx_intent c) s || negb (foreign_state (ctx_intent c) s')
      | _ => true end) (mkCtx i m eh ol) s ev.
  rewrite Ht in Hchk. simpl in Hchk. rewrite Hs in Hchk. by apply negb_true_iff.
Qed.

Lemma step_undoing i m s s' : step i m s s' -> undoing s = true -> undoing s' = true.
Proof.
  intros [eh ol ev Ht] Hs.
  check_machine (fun (c : Ctx) s (e : Event) o => match o with
      | To s' => negb (undoing s) || undoing s'
      | _ => true end) (mkCtx i m eh ol) s ev.
  rewrite Ht, Hs in Hchk. done.
Qed.

Lemma reachable_not_foreign i m s : reachable i m s -> foreign_state i s = false.
Proof.
  intros Hr. refine (rtc_ind_r (fun s => foreign_state i s = false) _ _ _ _ Hr);
    [by destruct i|]. intros; eauto using step_not_foreign.
Qed.

Ltac exit_by ev :=
  eapply rtc_l; [apply (step_intro _ _ _ _ false LapseRevert ev); reflexivity|].

Lemma leaves_by_undo i m s :
  foreign_state i s = false -> undoing s = true -> rtc (step i m) s SClosed.
Proof.
  intros Hf Hu. destruct i, s; try done.
  all: first [apply rtc_refl | exit_by EvUndoClean; apply rtc_refl | exit_by EvAbandon; apply rtc_refl].
Qed.

(** ** Properties *)

(** Rule 1, both ways: a terminal state admits no event, and a state that is
    not terminal admits one in every context its intent allows it. *)
Theorem terminal_iff_stopped ctx s :
  foreign_state (ctx_intent ctx) s = false ->
  terminal s = true <-> (forall ev, transition ctx s ev = NotApplicable).
Proof.
  intros Hf. split.
  - intros Ht ev. unfold transition. by rewrite Ht.
  - intros Hn. destruct s; try reflexivity; exfalso; destruct ctx as [[] [] [] []]; try done.
    all: first
      [ by specialize (Hn EvCheck) | by specialize (Hn EvRequest) | by specialize (Hn EvCancel)
      | by specialize (Hn EvWaitAtStep) | by specialize (Hn EvRecant)
      | by specialize (Hn EvUndoClean) | by specialize (Hn EvAbandon) ].
Qed.

(** The states an instance can be in: a temporary plan is never Committed, and
    a permanent plan is never Applied, Suspended or Expired. *)
Theorem reachable_states i m s :
  reachable i m s ->
  (i = Temporary -> s <> SCommitted) /\
  (i = Permanent -> s <> SApplied /\ s <> SSuspended /\ s <> SExpired).
Proof.
  intros Hf%reachable_not_foreign. split; intros ->; destruct s; naive_solver.
Qed.

(** Once an instance's undo is under way (it is Expired, Reverting, Stuck or
    DriftHeld) it never applies, holds or commits again: every state it reaches
    afterwards is one of these or Closed. *)
Theorem undo_is_never_abandoned_midway i m s s' :
  undoing s = true -> rtc (step i m) s s' -> undoing s' = true.
Proof. intros Hs Hr. induction Hr; eauto using step_undoing. Qed.

(** No dead end: from every state an instance can reach, a terminal state is
    reachable. *)
Theorem terminal_reachable i m s :
  reachable i m s -> exists t, rtc (step i m) s t /\ terminal t = true.
Proof.
  intros Hf%reachable_not_foreign.
  destruct (terminal s) eqn:Ht; [by exists s; split; [apply rtc_refl|]|].
  exists SClosed. split; [|done].
  destruct (undoing s) eqn:Hu; [by apply leaves_by_undo|].
  destruct i, s; try done.
  all: try (exit_by EvRecant; apply leaves_by_undo; done).
  all: try (exit_by EvRefuse; apply leaves_by_undo; done).
  all: try exit_by EvCheck; try exit_by EvRequest; exit_by EvCancel; apply rtc_refl.
Qed.

(** Rules 2 and 3, wane: in a temporary plan it takes every state it bounds to
    Expired, leaves the unbounded DriftHeld and Stuck (and Expired itself) where
    they are, and cannot occur before approval; a permanent plan has no wane. *)
Theorem wane_rule ctx s :
  transition ctx s EvWaneElapses =
  match ctx_intent ctx, s with
  | Temporary, (SApplying | SWaiting | SDeferred | SHeld | SApplied | SSuspended | SReverting) =>
      To SExpired
  | Temporary, (SDriftHeld | SStuck | SExpired) => Stay
  | _, _ => NotApplicable
  end.
Proof. destruct ctx as [[] m eh ol], s; reflexivity. Qed.

(** Rule 5: an instance commits only under a permanent intent, from Applying by
    the plan's [commit()] item or from Held or Deferred by the verb; under a
    temporary intent these are refused with R0102. *)
Theorem commit_rule ctx s ev :
  transition ctx s ev = To SCommitted <->
  ctx_intent ctx = Permanent /\
  (s = SApplying /\ ev = EvCommitItem \/ (s = SHeld \/ s = SDeferred) /\ ev = EvCommitVerb).
Proof.
  split.
  - intros Ht.
    check_machine (fun c s e o => (o != To SCommitted) ||
      (ctx_intent c == Permanent) && ((s == SApplying) && (e == EvCommitItem)
        || ((s == SHeld) || (s == SDeferred)) && (e == EvCommitVerb))) ctx s ev.
    rewrite Ht in Hchk. rewrite bool_decide_eq_true_2 in Hchk by done. simpl in Hchk.
    rewrite andb_true_iff, orb_true_iff, !andb_true_iff, orb_true_iff, !bool_decide_eq_true in Hchk.
    done.
  - destruct ctx as [i m eh ol]. simpl. intros [-> [[-> ->]|[[->| ->] ->]]]; reflexivity.
Qed.

(** An instance closes only from Pending or ApprovalExpired before anything was
    applied, by a clean undo of what was, or by an operator abandoning a stuck or
    drift-held undo. *)
Theorem close_rule ctx s ev :
  transition ctx s ev = To SClosed ->
  (s = SPending /\ (ev = EvCancel \/ ev = EvHostContractChanged)) \/
  (s = SApprovalExpired /\ ev = EvCancel) \/
  ((s = SExpired \/ s = SReverting) /\ ev = EvUndoClean) \/
  ((s = SStuck \/ s = SDriftHeld) /\ ev = EvAbandon).
Proof.
  intros Ht.
  check_machine (fun (c : Ctx) s e o => (o != To SClosed) ||
    ((s == SPending) && ((e == EvCancel) || (e == EvHostContractChanged)) ||
     ((s == SApprovalExpired) && (e == EvCancel) ||
      (((s == SExpired) || (s == SReverting)) && (e == EvUndoClean) ||
       ((s == SStuck) || (s == SDriftHeld)) && (e == EvAbandon))))) ctx s ev.
  rewrite Ht in Hchk. rewrite bool_decide_eq_true_2 in Hchk by done. simpl in Hchk.
  rewrite !orb_true_iff, !andb_true_iff, !orb_true_iff, !bool_decide_eq_true in Hchk. done.
Qed.

(** Rule 4: a refusal while applying reverts unless an earlier applied step
    holds; a lapsed wait reverts under [auto] whatever the policy, and holds only
    when a manual plan asks for it. *)
Theorem refusal_and_lapse_rule ctx :
  transition ctx SApplying EvRefuse = To (if ctx_earlier_hold ctx then SHeld else SReverting) /\
  transition ctx SWaiting EvBoundLapses =
    To (match ctx_mode ctx, ctx_on_lapse ctx with Manual, LapseHold => SHeld | _, _ => SReverting end).
Proof. destruct ctx as [[] [] [] []]; split; reflexivity. Qed.

(** The printed table lists a transition exactly when it is applicable, once,
    and has the 664 rows of the golden file. *)
Theorem transition_table_correct c s e o :
  ((c, s, e, o) ∈ transition_table <-> transition c s e = o /\ o <> NotApplicable) /\
  length transition_table = 664.
Proof.
  split; [|vm_compute; reflexivity]. unfold transition_table.
  assert (Hctx := all_ctxs_complete c). revert Hctx. generalize all_ctxs. intros cs Hctx.
  rewrite list_elem_of_bind. setoid_rewrite list_elem_of_bind. setoid_rewrite list_elem_of_bind.
  split.
  - intros (c' & (s' & (e' & Hin & _) & _) & _).
    case_bool_decide; [set_solver|]. apply list_elem_of_singleton in Hin. naive_solver.
  - intros [Ht Ho]. exists c. split; [|done]. exists s.
    split; [|apply all_states_complete]. exists e. split; [|apply all_events_complete].
    rewrite Ht. rewrite bool_decide_eq_false_2 by done. set_solver.
Qed.

(** Renewal: granted exactly inside the window [deadline - renew_within, deadline),
    never to an expired plan, and anchored at the renewal, so that with no [u64]
    overflow the new deadline lies strictly ahead of [now] by the wane. *)
Theorem renew_spec now deadline within wane :
  match renew now deadline within wane with
  | Ok d => (deadline - within <= now < deadline)%N /\
            (is_u64 (now + wane) -> d = (now + wane)%N)
  | Err RenewExpired => (deadline <= now)%N
  | Err (OutsideWindow until) => until = (deadline - within)%N /\ (now < until)%N
  end.
Proof.
  unfold renew, expired, u64_saturating_sub. destruct (N.leb_spec deadline now); [done|].
  destruct (N.ltb_spec now (deadline - within)); [done|].
  split; [lia|]. intros. by apply wrap64_small.
Qed.

(** ** Witnesses *)

(** A temporary instance up to the first refusal. *)
Lemma demo_reverting : reachable Temporary Manual SReverting.
Proof.
  apply rtc_l with SChecked; [by apply (step_intro _ _ _ _ false LapseRevert EvCheck)|].
  apply rtc_l with SPending; [by apply (step_intro _ _ _ _ false LapseRevert EvRequest)|].
  apply rtc_l with SApplying; [by apply (step_intro _ _ _ _ false LapseRevert EvApprove)|].
  apply rtc_once. by apply (step_intro _ _ _ _ false LapseRevert EvRefuse).
Qed.

Lemma terminal_reachable_witness : exists t, rtc (step Temporary Manual) SReverting t /\ terminal t = true.
Proof. exact (terminal_reachable Temporary Manual SReverting demo_reverting). Defined.

Lemma undo_is_never_abandoned_midway_witness : undoing SDriftHeld = true.
Proof.
  apply (undo_is_never_abandoned_midway Temporary Manual SReverting SDriftHeld); [reflexivity|].
  apply rtc_once. apply (step_intro _ _ _ _ false LapseRevert EvDriftOnDefer). reflexivity.
Defined.
