(* ===== verification/Interference.v ===== *)
(** * The interference query ([core/src/interference.rs])

    The joins of the query as list comprehensions in the source's order: the
    umbra and penumbra of an op, what its undo needs, the numbered steps with
    their host and loop variables, definite and possible conflicts, the rules for
    [par], and anchors declared twice. Then what their silence guarantees. *)

From Stdlib Require Import Sorted Ascii.
From Stdlib Require Import Sorted.
From stdpp Require Import base strings pretty numbers option sets gmap list.
From S2P Require Import Prelude Model Algebra.

Record Fact := mkFact { fact_shape : string; fact_anchor : option string }.

#[export] Instance Fact_eq_dec : EqDecision Fact. Proof. solve_decision. Defined.

Record Conflict := mkConflict { c_earlier : N; c_later : N; c_fact : Fact }.

#[export] Instance Conflict_eq_dec : EqDecision Conflict. Proof. solve_decision. Defined.

Record Leaf := mkLeaf { l_n : N; l_op : Op; l_host : string; l_vars : list string }.

(** A shape whose instance is bound only at runtime. *)
Definition runtime_bound (s : string) : bool := contains_char lbrace s.

Definition kind_writes (k : Kind) : bool :=
  match k with
  | Derived => false
  | _ => true
  end.

Definition entry_fact (e : FootprintEntry) : Fact := mkFact (fp_shape e) (fp_anchor e).

Definition writes (o : Op) : list Fact :=
  map entry_fact
    (List.filter (fun e => kind_writes (fp_kind e) && negb (runtime_bound (fp_shape e)))
                 (op_footprint o)).

Definition maywrite (o : Op) : list Fact :=
  map entry_fact
    (List.filter (fun e => kind_writes (fp_kind e) && runtime_bound (fp_shape e))
                 (op_footprint o)).

Definition needs (o : Op) : list Fact :=
  match op_undo o with
  | Restore => writes o ++ maywrite o
  | Computed _ pre | Compensate _ pre => map (fun s => mkFact s None) pre
  | NoUndo => []
  end.

Definition overlap_shape (s1 s2 : string) : bool :=
  if negb (runtime_bound s1) && negb (runtime_bound s2) then s1 == s2
  else starts_with (take_until lbrace s1) s2 || starts_with (take_until lbrace s2) s1.

Definition touches (f g : Fact) : bool :=
  if negb (overlap_shape (fact_shape f) (fact_shape g)) then false
  else match fact_anchor f, fact_anchor g with
       | Some x, Some y => x == y
       | _, _ => true
       end.

Definition braced (s : string) : string := String lbrace (s +:+ String rbrace EmptyString).

Definition leaf_host_text (owner : string) (o : Op) : string :=
  match op_locus o with
  | LController => "controller"
  | LTarget => owner
  | LHost (Static h) => h
  | LHost (Bound b) => braced b
  end.

Definition overlap_host (h1 h2 : string) : bool :=
  (h1 == h2) || runtime_bound h1 || runtime_bound h2.

Definition same_host (x y : Leaf) : bool := overlap_host (l_host x) (l_host y).
Definition bound_host (x : Leaf) : bool := runtime_bound (l_host x).

Fixpoint item_leaf_count (it : Item) : N :=
  match it with
  | Par children => foldr (fun c n => item_leaf_count c + n)%N 0%N children
  | Repeat _ _ body => foldr (fun c n => item_leaf_count c + n)%N 0%N body
  | When _ _ _ then_ else_ =>
      (foldr (fun c n => item_leaf_count c + n) 0 then_
       + foldr (fun c n => item_leaf_count c + n) 0 else_)%N
  | _ => 1%N
  end.

Definition leaf_count (items : list Item) : N :=
  foldr (fun c n => item_leaf_count c + n)%N 0%N items.

(** A walk over the items of a list, each handed the number of its first leaf. *)
Definition walk_with {A} (f : Item -> N -> list A) : list Item -> N -> list A :=
  fix go items n :=
    match items with
    | [] => []
    | it :: rest => f it n ++ go rest (n + item_leaf_count it)%N
    end.

(** The [go] of [step_facts]. *)
Fixpoint item_step_facts (owner : string) (vars : list string) (it : Item) (n : N) : list Leaf :=
  match it with
  | Par children => walk_with (item_step_facts owner vars) children n
  | Repeat (Over _ _ _) var body => walk_with (item_step_facts owner (var :: vars)) body n
  | Repeat (Count _) _ body => walk_with (item_step_facts owner vars) body n
  | When _ _ _ then_ else_ =>
      walk_with (item_step_facts owner vars) then_ n
      ++ walk_with (item_step_facts owner vars) else_ (n + leaf_count then_)%N
  | Step s | Knell s => [mkLeaf n (step_op s) (leaf_host_text owner (step_op s)) vars]
  | _ => []
  end.

Definition step_facts (owner : string) (items : list Item) : list Leaf :=
  walk_with (item_step_facts owner []) items 1.

Definition indexed_by (vars : list string) (f : Fact) : bool :=
  existsb (fun v => contains_str (braced v) (fact_shape f)) vars.

Definition same_loop (va vb : list string) : bool := (va != []) && (va == vb).

Definition before (x y : Leaf) (siblings : list (N * N)) : bool :=
  (l_n x <? l_n y)%N && negb (bool_decide ((l_n x, l_n y) ∈ siblings)).

Fixpoint ordered_pairs (leaves : list Leaf) (siblings : list (N * N)) : list (Leaf * Leaf) :=
  match leaves with
  | [] => []
  | x :: rest =>
      map (pair x) (List.filter (fun y => before x y siblings) rest) ++ ordered_pairs rest siblings
  end.

(** ** [par] *)

Notation ParGroup := (list (list (N * Op))) (only parsing).

(** The (step, op)s of one child: the leaves numbered from [k] up to its end. *)
Definition child_ops (leaves : list Leaf) (c : Item) (k : N) : list (N * Op) :=
  map (fun l => (l_n l, l_op l))
    (List.filter (fun l => (k <=? l_n l)%N && (l_n l <? k + item_leaf_count c)%N) leaves).

(** The group of a [par]: each child with the number of its first leaf. *)
Definition par_group (leaves : list Leaf) (children : list Item) (n : N) : ParGroup :=
  walk_with (fun c k => [child_ops leaves c k]) children n.

(** [collect_pars] of a list of items. An item contributes pars that come before
    those of the items after it and pars that come after them: a [par] gives its
    group before and the pars nested in its children after, as the prototype
    orders them. *)
Definition collect_with (f : Item -> N -> list ParGroup * list ParGroup)
    : list Item -> N -> list ParGroup :=
  fix go items n :=
    match items with
    | [] => []
    | it :: rest =>
        let '(h, t) := f it n in
        h ++ go rest (n + item_leaf_count it)%N ++ t
    end.

Fixpoint item_pars (leaves : list Leaf) (it : Item) (n : N) : list ParGroup * list ParGroup :=
  match it with
  | Par children =>
      ([par_group leaves children n],
       walk_with (fun c k => let '(h, t) := item_pars leaves c k in h ++ t) children n)
  | Repeat _ _ body => (collect_with (item_pars leaves) body n, [])
  | When _ _ _ then_ else_ =>
      (collect_with (item_pars leaves) then_ n
       ++ collect_with (item_pars leaves) else_ (n + leaf_count then_)%N, [])
  | _ => ([], [])
  end.

Definition collect_pars (leaves : list Leaf) (items : list Item) (start : N) : list ParGroup :=
  collect_with (item_pars leaves) items start.

Definition par_children (owner : string) (items : list Item) : list ParGroup :=
  collect_pars (step_facts owner items) items 1.

(** Pairs of (step, op) from two different children of a group, earlier child first. *)
Fixpoint cross_pairs (grp : ParGroup) : list ((N * Op) * (N * Op)) :=
  match grp with
  | [] => []
  | ca :: rest =>
      (cb ← rest; a ← ca; b ← cb; [(a, b)]) ++ cross_pairs rest
  end.

Definition disjoint_umbra (owner : string) (x y : Op) : bool :=
  negb (overlap_host (leaf_host_text owner x) (leaf_host_text owner y))
  || forallb (fun f => forallb (fun g => negb (touches f g)) (writes y)) (writes x).

Definition par_violations (owner : string) (items : list Item) : list (N * N) * list N :=
  let groups := par_children owner items in
  let overlaps :=
    grp ← groups;
    '((a, oa), (b, ob)) ← cross_pairs grp;
    if negb (disjoint_umbra owner oa ob) then [(a, b)] else [] in
  let reachy :=
    grp ← groups; child ← grp; '(n, o) ← child;
    if op_reach o != [] then [n] else [] in
  (nub overlaps, nub reachy).

Definition par_ok (owner : string) (items : list Item) : bool :=
  let '(overlaps, reachy) := par_violations owner items in
  (overlaps == []) && (reachy == []).

Definition par_siblings (owner : string) (items : list Item) : list (N * N) :=
  nub (grp ← par_children owner items;
       '((a, _), (b, _)) ← cross_pairs grp;
       [(N.min a b, N.max a b)]).

(** ** The queries *)

Definition conflict (owner : string) (items : list Item) : list Conflict :=
  let leaves := step_facts owner items in
  let siblings := par_siblings owner items in
  nub ('(x, y) ← ordered_pairs leaves siblings;
       if bound_host x || bound_host y || (l_host x != l_host y) then []
       else
         let needs_a := needs (l_op x) in
         f ← writes (l_op x);
         if negb (bool_decide (f ∈ needs_a)) then []
         else
           g ← writes (l_op y);
           if touches f g && negb (same_loop (l_vars x) (l_vars y) && indexed_by (l_vars x) f)
           then [mkConflict (l_n x) (l_n y) f] else []).

Definition mayconflict (owner : string) (items : list Item) : list Conflict :=
  let leaves := step_facts owner items in
  let siblings := par_siblings owner items in
  nub ('(x, y) ← ordered_pairs leaves siblings;
       if negb (same_host x y) then []
       else
         let pen_a := maywrite (l_op x) in
         let pen_b := maywrite (l_op y) in
         let all_a := pen_a ++ writes (l_op x) in
         let all_b := pen_b ++ writes (l_op y) in
         f ← needs (l_op x);
         g ← all_a;
         if negb (touches f g) then []
         else
           h ← all_b;
           if negb (touches f h) then []
           else if negb (bool_decide (h ∈ pen_b) || bool_decide (g ∈ pen_a)
                         || bound_host x || bound_host y) then []
           else if same_loop (l_vars x) (l_vars y) && indexed_by (l_vars x) f then []
           else [mkConflict (l_n x) (l_n y) f]).

Definition op_regions (o : Op) : list Fact :=
  map entry_fact (List.filter (fun e => fp_kind e == Region) (op_footprint o)).

(** Every pair of leaves, the earlier first. *)
Fixpoint leaf_pairs (leaves : list Leaf) : list (Leaf * Leaf) :=
  match leaves with
  | [] => []
  | x :: rest => map (pair x) rest ++ leaf_pairs rest
  end.

Definition anchor_duplicates (owner : string) (items : list Item) : list Conflict :=
  let leaves := step_facts owner items in
  nub ('(x, y) ← leaf_pairs leaves;
       if negb (same_host x y) then []
       else
         f ← op_regions (l_op x);
         if fact_anchor f == None then []
         else
           g ← op_regions (l_op y);
           if f == g then [mkConflict (l_n x) (l_n y) f] else []).

(** ** Numbering: the walks agree *)

Lemma item_leaf_count_leaves it : item_leaf_count it = N.of_nat (length (item_leaves it)).
Proof.
  assert (Hflat : forall cs, Forall (fun it => item_leaf_count it = N.of_nat (length (item_leaves it))) cs ->
      foldr (fun c n => item_leaf_count c + n)%N 0%N cs = N.of_nat (length (flat_map item_leaves cs))).
  { induction 1 as [|c cs Hc _ IH]; simpl; [done|]. rewrite length_app, Hc, IH. lia. }
  induction it using item_ind; simpl; auto.
  rewrite length_app, (Hflat _ H), (Hflat _ H0). lia.
Qed.

Lemma leaf_count_leaves items : leaf_count items = N.of_nat (length (leaves items)).
Proof.
  unfold leaf_count, leaves. induction items as [|it items IH]; simpl; [done|].
  rewrite length_app, IH, item_leaf_count_leaves. lia.
Qed.

Lemma number_from_app n ls ls' :
  number_from n (ls ++ ls') = number_from n ls ++ number_from (n + N.of_nat (length ls)) ls'.
Proof.
  revert n. induction ls as [|l ls IH]; intros n; simpl; [by rewrite N.add_0_r|].
  rewrite IH. do 3 f_equal. lia.
Qed.

(** A numbered leaf as a numbered op, for the leaves that are steps or knells. *)
Definition numbered_op (nit : N * Item) : option (N * Op) :=
  match op_of (snd nit) with
  | Some o => Some (fst nit, o)
  | None => None
  end.

Definition leaf_key (l : Leaf) : N * Op := (l_n l, l_op l).

Lemma walk_step_facts owner vars its n :
  Forall (fun it => forall vars n, map leaf_key (item_step_facts owner vars it n)
            = filter_map numbered_op (number_from n (item_leaves it))) its ->
  map leaf_key (walk_with (item_step_facts owner vars) its n)
  = filter_map numbered_op (number_from n (flat_map item_leaves its)).
Proof.
  intros Hits. revert n. induction Hits as [|it its Hit _ IH]; intros n; simpl; [done|].
  rewrite map_app, Hit, IH, number_from_app, filter_map_app.
  do 3 f_equal. by rewrite item_leaf_count_leaves.
Qed.

Lemma item_step_facts_numbered owner it vars n :
  map leaf_key (item_step_facts owner vars it n)
  = filter_map numbered_op (number_from n (item_leaves it)).
Proof.
  revert vars n. induction it using item_ind; intros vars n; try reflexivity.
  - by apply walk_step_facts.
  - destruct f; by apply walk_step_facts.
  - simpl. rewrite map_app, number_from_app, filter_map_app. f_equal.
    + by apply walk_step_facts.
    + rewrite walk_step_facts by done. do 2 f_equal. by rewrite leaf_count_leaves.
Qed.

Lemma step_facts_numbered owner items :
  map leaf_key (step_facts owner items) = filter_map numbered_op (numbered items).
Proof. apply walk_step_facts, items_ind. intros. apply item_step_facts_numbered. Qed.

Lemma filter_map_number_sorted ls n :
  StronglySorted N.lt (map fst (filter_map numbered_op (number_from n ls))).
Proof.
  revert n. induction ls as [|l ls IH]; intros n; simpl; [constructor|].
  unfold numbered_op at 1. simpl. destruct (op_of l); [|apply IH].
  simpl. constructor; [apply IH|]. apply Forall_forall. intros m.
  rewrite elem_of_map. intros ([m' o'] & -> & Hin). simpl.
  apply elem_of_filter_map in Hin as ([k it] & Hk & Ho). unfold numbered_op in Ho. simpl in Ho.
  destruct (op_of it); simplify_eq. apply number_from_bound in Hk. lia.
Qed.

Lemma step_facts_sorted owner items : StronglySorted N.lt (map l_n (step_facts owner items)).
Proof.
  replace (map l_n (step_facts owner items)) with (map fst (map leaf_key (step_facts owner items)))
    by (rewrite map_map; done).
  rewrite step_facts_numbered. apply filter_map_number_sorted.
Qed.

Lemma leaf_sorted_unique ls x y :
  StronglySorted N.lt (map l_n ls) -> x ∈ ls -> y ∈ ls -> l_n x = l_n y -> x = y.
Proof.
  induction ls as [|l ls IH]; simpl; intros Hs Hx Hy Hn; [set_solver|].
  inversion Hs as [|? ? Hs' Hall]; subst. rewrite Forall_forall in Hall.
  apply elem_of_cons in Hx as [->|Hx]; apply elem_of_cons in Hy as [->|Hy]; auto.
  - assert (l_n l < l_n y)%N by (apply Hall, elem_of_map; eauto). lia.
  - assert (l_n l < l_n x)%N by (apply Hall, elem_of_map; eauto). lia.
Qed.

Lemma walk_with_inv {A} (P : A -> Prop) (f : Item -> N -> list A) its n x :
  Forall (fun it => forall n x, x ∈ f it n -> P x) its -> x ∈ walk_with f its n -> P x.
Proof.
  intros Hall. revert n. induction Hall as [|it its Hit _ IH]; intros n; simpl; [set_solver|].
  intros [?|?]%elem_of_app; eauto.
Qed.

Lemma item_step_facts_host owner it vars n l :
  l ∈ item_step_facts owner vars it n -> l_host l = leaf_host_text owner (l_op l).
Proof.
  set (P := fun l => l_host l = leaf_host_text owner (l_op l)).
  assert (Hw : forall vars its n x,
    Forall (fun it => forall vars n l, l ∈ item_step_facts owner vars it n -> P l) its ->
    x ∈ walk_with (item_step_facts owner vars) its n -> P x).
  { intros vars' its n' x Hall. apply walk_with_inv. eapply Forall_impl; [exact Hall|]. eauto. }
  revert vars n l. induction it using item_ind; intros vars n x Hx; simpl in Hx;
    try (apply list_elem_of_singleton in Hx; subst; reflexivity); try (by apply not_elem_of_nil in Hx).
  - exact (Hw _ _ _ _ H Hx).
  - destruct f; exact (Hw _ _ _ _ H Hx).
  - apply elem_of_app in Hx as [Hx|Hx]; [exact (Hw _ _ _ _ H Hx)|exact (Hw _ _ _ _ H0 Hx)].
Qed.

Lemma step_facts_host owner items l :
  l ∈ step_facts owner items -> l_host l = leaf_host_text owner (l_op l).
Proof.
  apply (walk_with_inv (fun l => l_host l = leaf_host_text owner (l_op l))), items_ind.
  intros it n x. apply item_step_facts_host.
Qed.

(** ** The pairs the queries range over *)

Lemma ordered_pairs_elem ls sib x y :
  StronglySorted N.lt (map l_n ls) ->
  (x, y) ∈ ordered_pairs ls sib <-> x ∈ ls /\ y ∈ ls /\ before x y sib = true.
Proof.
  induction ls as [|l ls IH]; simpl; intros Hs; [set_solver|].
  inversion Hs as [|? ? Hs' Hall]; subst. rewrite Forall_forall in Hall.
  rewrite elem_of_app, (IH Hs'), elem_of_map. setoid_rewrite elem_of_lfilter. split.
  - intros [(y' & [= -> ->] & Hy & Hb)|(Hx & Hy & Hb)]; set_solver.
  - rewrite !elem_of_cons. intros ([->|Hx] & [->|Hy] & Hb); eauto.
    + exfalso. unfold before in Hb. apply andb_true_iff in Hb as [Hlt%N.ltb_lt _]. lia.
    + exfalso. unfold before in Hb. apply andb_true_iff in Hb as [Hlt%N.ltb_lt _].
      assert (l_n l < l_n x)%N by (apply Hall, elem_of_map; eauto). lia.
Qed.

Lemma leaf_pairs_elem ls x y :
  StronglySorted N.lt (map l_n ls) ->
  (x, y) ∈ leaf_pairs ls <-> x ∈ ls /\ y ∈ ls /\ (l_n x < l_n y)%N.
Proof.
  induction ls as [|l ls IH]; simpl; intros Hs; [set_solver|].
  inversion Hs as [|? ? Hs' Hall]; subst. rewrite Forall_forall in Hall.
  assert (Hlt : forall z, z ∈ ls -> (l_n l < l_n z)%N) by (intros; apply Hall, elem_of_map; eauto).
  rewrite elem_of_app, (IH Hs'), elem_of_map. rewrite !elem_of_cons. split.
  - intros [(y' & [= -> ->] & Hy)|(Hx & Hy & Hb)]; auto 10.
  - intros ([->|Hx] & [->|Hy] & Hb); eauto 10; exfalso; [lia|].
    assert (l_n l < l_n x)%N by auto. lia.
Qed.

Lemma before_spec x y sib :
  before x y sib = true <-> (l_n x < l_n y)%N /\ (l_n x, l_n y) ∉ sib.
Proof.
  unfold before. rewrite andb_true_iff, N.ltb_lt, negb_true_iff, bool_decide_eq_false. done.
Qed.

(** ** Shapes, static and runtime-bound *)

Lemma contains_str_char c p s : contains_char c p = true -> contains_str p s = true -> contains_char c s = true.
Proof.
  intros Hp. assert (Hpre : forall s, starts_with p s = true -> contains_char c s = true).
  { revert Hp. induction p as [|d p IH]; simpl; [done|]. intros Hp [|e s']; simpl; [done|].
    destruct (ascii_dec d e) as [->|]; [|done]. intros Hs.
    apply orb_true_iff in Hp as [Hc|Hp]; apply orb_true_iff; [left; done|right].
    apply IH; done. }
  induction s as [|d s IH]; simpl; rewrite orb_true_iff.
  - intros [Hs|Hs]; [exact (Hpre EmptyString Hs)|done].
  - intros [Hs|Hs]; [exact (Hpre (String d s) Hs)|]. apply orb_true_iff. right. by apply IH.
Qed.

(** Only a runtime-bound shape is indexed by a loop variable. *)
Lemma indexed_by_bound vars f : indexed_by vars f = true -> runtime_bound (fact_shape f) = true.
Proof.
  unfold indexed_by, runtime_bound. intros (v & _ & Hv)%existsb_elem.
  eapply contains_str_char, Hv. reflexivity.
Qed.

Lemma writes_static o f : f ∈ writes o -> runtime_bound (fact_shape f) = false.
Proof.
  unfold writes. rewrite elem_of_map. intros (e & -> & He).
  apply elem_of_lfilter in He as [_ [_ Hb]%andb_true_iff]. by apply negb_true_iff.
Qed.

Lemma touches_static f g :
  runtime_bound (fact_shape f) = false -> runtime_bound (fact_shape g) = false ->
  touches f g = true <->
  fact_shape f = fact_shape g /\
  (fact_anchor f = None \/ fact_anchor g = None \/ fact_anchor f = fact_anchor g).
Proof.
  intros Hf Hg. unfold touches, overlap_shape. rewrite Hf, Hg. simpl.
  case_bool_decide; simpl; [|naive_solver].
  destruct (fact_anchor f), (fact_anchor g); try case_bool_decide; naive_solver.
Qed.

Lemma touches_refl f : touches f f = true.
Proof.
  unfold touches, overlap_shape.
  assert (Hp : forall s, starts_with (take_until lbrace s) s = true).
  { induction s as [|c s IH]; simpl; [done|]. case_bool_decide; simpl; [done|].
    destruct (ascii_dec c c); done. }
  rewrite bool_decide_eq_true_2, Hp by done.
  destruct (runtime_bound _); simpl; destruct (fact_anchor f); try done;
    by rewrite bool_decide_eq_true_2.
Qed.

Lemma overlap_shape_sym s1 s2 : overlap_shape s1 s2 = overlap_shape s2 s1.
Proof.
  unfold overlap_shape. rewrite (andb_comm (negb (runtime_bound s2))), (orb_comm (starts_with _ s1)).
  destruct (_ && _); [|done]. apply bool_decide_ext. naive_solver.
Qed.

Lemma touches_sym f g : touches f g = touches g f.
Proof.
  unfold touches. rewrite (overlap_shape_sym (fact_shape g)).
  destruct (negb _); [done|]. destruct (fact_anchor f), (fact_anchor g); try done.
  apply bool_decide_ext. naive_solver.
Qed.

(** ** The queries in logical form *)

(** [conflict(A, B, F)] as the Datalog of the roadmap states it. *)
Definition conflicting (owner : string) (items : list Item) (c : Conflict) : Prop :=
  exists x y g,
    x ∈ step_facts owner items /\ y ∈ step_facts owner items /\
    c = mkConflict (l_n x) (l_n y) (c_fact c) /\
    (l_n x < l_n y)%N /\ (l_n x, l_n y) ∉ par_siblings owner items /\
    bound_host x = false /\ l_host x = l_host y /\
    c_fact c ∈ writes (l_op x) /\ c_fact c ∈ needs (l_op x) /\
    g ∈ writes (l_op y) /\ touches (c_fact c) g = true.

(** [mayconflict(A, B, F)]: at least one side penumbral, by shape or by host, and
    not two iterations of one loop indexed by its variable. *)
Definition may_conflicting (owner : string) (items : list Item) (c : Conflict) : Prop :=
  exists x y g h,
    x ∈ step_facts owner items /\ y ∈ step_facts owner items /\
    c = mkConflict (l_n x) (l_n y) (c_fact c) /\
    (l_n x < l_n y)%N /\ (l_n x, l_n y) ∉ par_siblings owner items /\
    same_host x y = true /\
    c_fact c ∈ needs (l_op x) /\
    g ∈ maywrite (l_op x) ++ writes (l_op x) /\ touches (c_fact c) g = true /\
    h ∈ maywrite (l_op y) ++ writes (l_op y) /\ touches (c_fact c) h = true /\
    (h ∈ maywrite (l_op y) \/ g ∈ maywrite (l_op x) \/ bound_host x = true \/ bound_host y = true) /\
    ~ (same_loop (l_vars x) (l_vars y) = true /\ indexed_by (l_vars x) (c_fact c) = true).

Lemma elem_of_if_nil {A} (b : bool) (l : list A) x :
  x ∈ (if b then [] else l) <-> b = false /\ x ∈ l.
Proof. destruct b; set_solver. Qed.

Lemma elem_of_if_single {A} (b : bool) (y x : A) :
  x ∈ (if b then [y] else []) <-> b = true /\ x = y.
Proof. destruct b; set_solver. Qed.

Lemma conflict_conflicting owner items c : c ∈ conflict owner items <-> conflicting owner items c.
Proof.
  unfold conflict, conflicting. rewrite elem_of_nub, list_elem_of_bind. split.
  - intros ([x y] & Hin & Hxy). apply ordered_pairs_elem in Hxy as (Hx & Hy & Hb);
      [|apply step_facts_sorted]. apply before_spec in Hb as [Hlt Hsib].
    apply elem_of_if_nil in Hin as [Hh Hin].
    apply orb_false_iff in Hh as [[Hbx Hby]%orb_false_iff Hhost%negb_false_iff%bool_decide_eq_true].
    apply list_elem_of_bind in Hin as (f & Hin & Hf). apply elem_of_if_nil in Hin as [Hn Hin].
    apply negb_false_iff, bool_decide_eq_true in Hn.
    apply list_elem_of_bind in Hin as (g & Hin & Hg). apply elem_of_if_single in Hin as [Ht ->].
    apply andb_true_iff in Ht as [Ht _]. exists x, y, g. simpl. split_and!; auto.
  - intros (x & y & g & Hx & Hy & Hc & Hlt & Hsib & Hbx & Hhost & Hf & Hn & Hg & Ht).
    exists (x, y). split.
    + apply elem_of_if_nil. split.
      { unfold bound_host in *. rewrite <- Hhost, Hbx. simpl. apply negb_false_iff.
        by apply bool_decide_eq_true. }
      apply list_elem_of_bind. exists (c_fact c). split; [|done].
      apply elem_of_if_nil. rewrite bool_decide_eq_true_2 by done. split; [done|].
      apply list_elem_of_bind. exists g. split; [|done]. apply elem_of_if_single. split; [|done].
      rewrite Ht. simpl. apply negb_true_iff, andb_false_iff. right.
      destruct (indexed_by _ _) eqn:E; [|done].
      apply indexed_by_bound in E. by rewrite (writes_static _ _ Hf) in E.
    + apply ordered_pairs_elem; [apply step_facts_sorted|]. by rewrite before_spec.
Qed.

Lemma mayconflict_may_conflicting owner items c :
  c ∈ mayconflict owner items <-> may_conflicting owner items c.
Proof.
  unfold mayconflict, may_conflicting. rewrite elem_of_nub, list_elem_of_bind. split.
  - intros ([x y] & Hin & Hxy). apply ordered_pairs_elem in Hxy as (Hx & Hy & Hb);
      [|apply step_facts_sorted]. apply before_spec in Hb as [Hlt Hsib].
    apply elem_of_if_nil in Hin as [Hh%negb_false_iff Hin].
    apply list_elem_of_bind in Hin as (f & Hin & Hf).
    apply list_elem_of_bind in Hin as (g & Hin & Hg).
    apply elem_of_if_nil in Hin as [Ht%negb_false_iff Hin].
    apply list_elem_of_bind in Hin as (h & Hin & Hh').
    apply elem_of_if_nil in Hin as [Ht'%negb_false_iff Hin].
    apply elem_of_if_nil in Hin as [Hp%negb_false_iff Hin].
    apply elem_of_if_nil in Hin as [Hl ->%list_elem_of_singleton].
    rewrite !orb_true_iff, !bool_decide_eq_true in Hp.
    exists x, y, g, h. simpl. split_and!; auto; [tauto|].
    rewrite <- andb_true_iff. congruence.
  - intros (x & y & g & h & Hx & Hy & Hc & Hlt & Hsib & Hh & Hf & Hg & Ht & Hh' & Ht' & Hp & Hl).
    exists (x, y). split; [|apply ordered_pairs_elem; [apply step_facts_sorted|]; by rewrite before_spec].
    rewrite <- andb_true_iff, not_true_iff_false in Hl.
    apply elem_of_if_nil. rewrite Hh. split; [done|].
    apply list_elem_of_bind. exists (c_fact c). split; [|done].
    apply list_elem_of_bind. exists g. split; [|done].
    apply elem_of_if_nil. rewrite Ht. split; [done|].
    apply list_elem_of_bind. exists h. split; [|done].
    apply elem_of_if_nil. rewrite Ht'. split; [done|]. apply elem_of_if_nil. split.
    + apply negb_false_iff. rewrite !orb_true_iff, !bool_decide_eq_true. tauto.
    + apply elem_of_if_nil. split; [done|]. by apply list_elem_of_singleton.
Qed.

(** ** [par] groups *)

Lemma cross_pairs_elem (grp : ParGroup) a b :
  (a, b) ∈ cross_pairs grp <->
  exists i j ca cb, (i < j)%nat /\ grp !! i = Some ca /\ grp !! j = Some cb /\ a ∈ ca /\ b ∈ cb.
Proof.
  induction grp as [|c grp IH]; simpl.
  - split; [set_solver|]. by intros (i & j & ca & cb & _ & Hi & _).
  - rewrite elem_of_app, IH, list_elem_of_bind. split.
    + intros [(cb & Hin & Hcb)|(i & j & ca & cb & Hij & Hi & Hj & Ha & Hb)].
      * apply list_elem_of_bind in Hin as (a' & Hin & Ha).
        apply list_elem_of_bind in Hin as (b' & Hin & Hb).
        apply list_elem_of_singleton in Hin as [= -> ->].
        apply list_elem_of_lookup in Hcb as [j Hj]. exists 0, (S j), c, cb. simpl. split_and!; auto; lia.
      * exists (S i), (S j), ca, cb. simpl. split_and!; auto; lia.
    + intros ([|i] & [|j] & ca & cb & Hij & Hi & Hj & Ha & Hb); simplify_eq/=; try lia.
      * left. exists cb. split; [|by eapply list_elem_of_lookup_2].
        apply list_elem_of_bind. exists a. split; [|done].
        apply list_elem_of_bind. exists b. split; [|done]. set_solver.
      * right. exists i, j, ca, cb. split_and!; auto; lia.
Qed.

(** Every member of a group is a numbered step. *)
Definition group_of_leaves (ls : list Leaf) (grp : ParGroup) : Prop :=
  forall child no, child ∈ grp -> no ∈ child -> exists l, l ∈ ls /\ no = leaf_key l.

Lemma par_group_leaves ls cs n : group_of_leaves ls (par_group ls cs n).
Proof.
  intros child no Hc. revert Hc no. unfold par_group.
  apply (walk_with_inv (fun child => forall no, no ∈ child -> exists l, l ∈ ls /\ no = leaf_key l)).
  apply items_ind. intros it k child' ->%list_elem_of_singleton no Hno.
  unfold child_ops in Hno. apply elem_of_map in Hno as (l & -> & Hl).
  apply elem_of_lfilter in Hl as [Hl _]. eauto.
Qed.

Lemma collect_with_inv (P : ParGroup -> Prop) f its n x :
  Forall (fun it => forall n x, x ∈ (f it n).1 \/ x ∈ (f it n).2 -> P x) its ->
  x ∈ collect_with f its n -> P x.
Proof.
  intros Hall. revert n. induction Hall as [|it its Hit _ IH]; intros n; simpl; [set_solver|].
  specialize (Hit n). destruct (f it n) as [h t]. rewrite !elem_of_app. naive_solver.
Qed.

Lemma item_pars_leaves ls it n grp :
  grp ∈ (item_pars ls it n).1 \/ grp ∈ (item_pars ls it n).2 -> group_of_leaves ls grp.
Proof.
  revert n grp. induction it using item_ind; intros n grp; simpl; try set_solver.
  - intros [->%list_elem_of_singleton|Hg]; [apply par_group_leaves|].
    revert Hg. apply walk_with_inv. eapply Forall_impl; [exact H|]. simpl. intros c Hc k g Hg.
    specialize (Hc k g). destruct (item_pars ls c k). apply elem_of_app in Hg. auto.
  - intros [Hg|Hg]; [|set_solver]. by apply (collect_with_inv _ _ _ _ _ H) in Hg.
  - intros [Hg|Hg]; [|set_solver]. apply elem_of_app in Hg as [Hg|Hg].
    + by apply (collect_with_inv _ _ _ _ _ H) in Hg.
    + by apply (collect_with_inv _ _ _ _ _ H0) in Hg.
Qed.

Lemma par_children_leaves owner items grp :
  grp ∈ par_children owner items -> group_of_leaves (step_facts owner items) grp.
Proof. apply collect_with_inv, items_ind. intros it n x. apply item_pars_leaves. Qed.

Lemma overlap_host_sym h1 h2 : overlap_host h1 h2 = overlap_host h2 h1.
Proof.
  unfold overlap_host.
  assert (Hd : bool_decide (h1 = h2) = bool_decide (h2 = h1)) by (apply bool_decide_ext; naive_solver).
  rewrite Hd. by destruct (runtime_bound h1), (runtime_bound h2), (bool_decide (h2 = h1)).
Qed.

Lemma disjoint_umbra_spec owner x y :
  disjoint_umbra owner x y = true <->
  overlap_host (leaf_host_text owner x) (leaf_host_text owner y) = false \/
  (forall f g, f ∈ writes x -> g ∈ writes y -> touches f g = false).
Proof.
  unfold disjoint_umbra. rewrite orb_true_iff, negb_true_iff, forallb_elem.
  setoid_rewrite forallb_elem. setoid_rewrite negb_true_iff. naive_solver.
Qed.

Lemma disjoint_umbra_sym owner x y : disjoint_umbra owner x y = true -> disjoint_umbra owner y x = true.
Proof.
  rewrite !disjoint_umbra_spec, (overlap_host_sym (leaf_host_text owner y)).
  intros [?|H]; [auto|right]. intros f g Hf Hg. rewrite touches_sym. auto.
Qed.

(** Steps with no order between them are umbra-disjoint when E0303 is silent. *)
Lemma siblings_disjoint owner items x y :
  (par_violations owner items).1 = [] ->
  x ∈ step_facts owner items -> y ∈ step_facts owner items ->
  (l_n x, l_n y) ∈ par_siblings owner items -> disjoint_umbra owner (l_op x) (l_op y) = true.
Proof.
  intros Hov Hx Hy Hs. unfold par_siblings in Hs. rewrite elem_of_nub in Hs.
  apply list_elem_of_bind in Hs as (grp & Hin & Hgrp).
  apply list_elem_of_bind in Hin as ([[a oa] [b ob]] & Hin & Hcp).
  apply list_elem_of_singleton in Hin as [= Hn1 Hn2].
  assert (Hd : disjoint_umbra owner oa ob = true).
  { destruct (disjoint_umbra owner oa ob) eqn:E; [done|]. exfalso.
    simpl in Hov. apply (proj1 (nub_nil_inv _)) in Hov.
    assert (Hab : (a, b) ∈ ([] : list (N * N))); [|set_solver]. rewrite <- Hov.
    apply list_elem_of_bind. exists grp. split; [|done].
    apply list_elem_of_bind. exists ((a, oa), (b, ob)). rewrite E. set_solver. }
  apply cross_pairs_elem in Hcp as (i & j & ca & cb & _ & Hi & Hj & Ha & Hb).
  apply par_children_leaves in Hgrp.
  destruct (Hgrp ca (a, oa)) as (la & Hla & [= -> ->]); [by eapply list_elem_of_lookup_2|done|].
  destruct (Hgrp cb (b, ob)) as (lb & Hlb & [= -> ->]); [by eapply list_elem_of_lookup_2|done|].
  assert (Huniq := fun u v => leaf_sorted_unique _ u v (step_facts_sorted owner items)).
  destruct (N.min_spec (l_n la) (l_n lb)) as [[Hlt Hmin]|[Hge Hmin]].
  - rewrite N.max_r in Hn2 by lia. rewrite Hmin in Hn1.
    rewrite (Huniq x la), (Huniq y lb) by auto. done.
  - rewrite N.max_l in Hn2 by lia. rewrite Hmin in Hn1.
    rewrite (Huniq x lb), (Huniq y la) by auto. by apply disjoint_umbra_sym.
Qed.

(** The facts a checked plan keeps apart: what one step's undo needs of its own
    writes, no other step on its host writes after it. *)
Lemma no_conflict_apart owner items x y f g :
  conflict owner items = [] -> (par_violations owner items).1 = [] ->
  x ∈ step_facts owner items -> y ∈ step_facts owner items -> (l_n x < l_n y)%N ->
  bound_host x = false -> l_host x = l_host y ->
  f ∈ writes (l_op x) -> f ∈ needs (l_op x) -> g ∈ writes (l_op y) -> touches f g = false.
Proof.
  intros Hc Hov Hx Hy Hlt Hbx Hh Hf Hn Hg.
  destruct (decide ((l_n x, l_n y) ∈ par_siblings owner items)) as [Hs|Hs].
  - apply siblings_disjoint in Hs; [|done..]. apply disjoint_umbra_spec in Hs as [Ho|Hd]; [|auto].
    rewrite <- (step_facts_host _ _ x Hx), <- (step_facts_host _ _ y Hy), Hh in Ho.
    unfold overlap_host in Ho. by rewrite (bool_decide_eq_true_2 _ eq_refl) in Ho.
  - destruct (touches f g) eqn:E; [|done]. exfalso.
    assert (Hin : mkConflict (l_n x) (l_n y) f ∈ conflict owner items); [|rewrite Hc in Hin; set_solver].
    apply conflict_conflicting. exists x, y, g. simpl. split_and!; auto.
Qed.

(** ** Properties *)

(** The definite-conflict query is the roadmap's rule: an earlier and a later
    step on one statically known host, not children of one [par], a fact the
    earlier step writes and its undo needs, and a fact the later step writes that
    touches it. *)
Theorem conflict_is_the_datalog owner items c :
  c ∈ conflict owner items <-> conflicting owner items c.
Proof. apply conflict_conflicting. Qed.

(** The possible-conflict query is the roadmap's rule: the same join where at
    least one side is bound only at runtime, by its shape or by its host, except
    between iterations of one loop on a fact its variable indexes. *)
Theorem mayconflict_is_the_datalog owner items c :
  c ∈ mayconflict owner items <-> may_conflicting owner items c.
Proof. apply mayconflict_may_conflicting. Qed.

(** The query numbers steps exactly as the verdict does: the steps it ranges
    over are the numbered leaves that are steps or knells, with the same numbers,
    in the same order. *)
Theorem step_facts_agree_with_numbered owner items :
  map (fun l => (l_n l, l_op l)) (step_facts owner items) =
  filter_map (fun '(n, it) => match op_of it with Some o => Some (n, o) | None => None end)
             (numbered items).
Proof.
  etransitivity; [apply step_facts_numbered|]. generalize (numbered items).
  induction l as [|[n it] l IH]; simpl; [done|]. unfold numbered_op at 1. simpl.
  destruct (op_of it); by rewrite IH.
Qed.

(** ** What the interference query guarantees

    A place is a fact's smallest part on a host: a shape and, inside a shape, a fenced
    region or the rest of it. A fact without an anchor covers every place of its shape, an
    anchored one its own region. *)

Record Place := mkPlace { place_shape : string; place_anchor : option string }.

#[export] Instance Place_eq_dec : EqDecision Place. Proof. solve_decision. Defined.

Definition covers (f : Fact) (c : Place) : Prop :=
  fact_shape f = place_shape c
  /\ match fact_anchor f with
     | None => True
     | Some a => place_anchor c = Some a
     end.

Lemma written_static o f :
  f ∈ maywrite o ++ writes o -> (if runtime_bound (fact_shape f) then f ∈ maywrite o else f ∈ writes o).
Proof.
  intros [Hf|Hf]%elem_of_app; [|by rewrite (writes_static _ _ Hf)].
  assert (Hb : runtime_bound (fact_shape f) = true); [|by rewrite Hb].
  unfold maywrite in Hf. apply elem_of_map in Hf as (e & -> & He). apply elem_of_lfilter in He as [_ [_ Hb]%andb_true_iff]. done.
Qed.

(** What the silence of the queries and of the rule for [par] comes to: the later step
    writes nothing that touches what the earlier one writes and its undo needs. *)
Lemma silent_apart owner items x y f h :
  conflict owner items = [] -> (par_violations owner items).1 = [] ->
  x ∈ step_facts owner items -> y ∈ step_facts owner items -> (l_n x < l_n y)%N -> same_host x y = true ->
  f ∈ needs (l_op x) -> f ∈ maywrite (l_op x) ++ writes (l_op x) -> h ∈ maywrite (l_op y) ++ writes (l_op y) ->
  ~ (same_loop (l_vars x) (l_vars y) = true /\ indexed_by (l_vars x) f = true) ->
  let static := runtime_bound (fact_shape f) = false /\ runtime_bound (fact_shape h) = false in
  (static /\ bound_host x = false /\ bound_host y = false)
  \/ (mayconflict owner items = [] /\ (static \/ (l_n x, l_n y) ∉ par_siblings owner items)) ->
  touches f h = false.
Proof.
  intros Hc Hov Hx Hy Hlt Hh Hn Hf Hw Hloop static Hcase.
  pose proof (written_static _ _ Hf) as Hf'. pose proof (written_static _ _ Hw) as Hw'.
  destruct (decide ((l_n x, l_n y) ∈ par_siblings owner items)) as [Hs|Hs].
  - assert (Hst : static) by (destruct Hcase as [[? _]|[_ [?|?]]]; done). destruct Hst as [Sf Sh]. rewrite Sf in Hf'. rewrite Sh in Hw'.
    apply siblings_disjoint in Hs; [|done..]. apply disjoint_umbra_spec in Hs as [Ho|Hd]; [|auto].
    unfold same_host in Hh. rewrite <- (step_facts_host _ _ x Hx), <- (step_facts_host _ _ y Hy) in Ho. congruence.
  - destruct (touches f h) eqn:Ht; [|done]. exfalso.
    destruct (runtime_bound (fact_shape f) || runtime_bound (fact_shape h) || bound_host x || bound_host y) eqn:Hb.
    + destruct Hcase as [(St & Bx & By)|[Hm _]].
      { destruct St as [Sf Sh]. by rewrite Sf, Sh, Bx, By in Hb. }
      assert (Hin : mkConflict (l_n x) (l_n y) f ∈ mayconflict owner items); [|rewrite Hm in Hin; set_solver].
      apply mayconflict_may_conflicting. exists x, y, f, h. cbn [c_fact]. split_and!; try done; [apply touches_refl|].
      rewrite !orb_true_iff in Hb. destruct Hb as [[[Hb|Hb]|Hb]|Hb]; rewrite ?Hb in *; auto.
    + rewrite !orb_false_iff in Hb. destruct Hb as [[[Sf Sh] Bx] By]. rewrite Sf in Hf'. rewrite Sh in Hw'.
      assert (Heq : l_host x = l_host y).
      { unfold same_host, overlap_host in Hh. unfold bound_host in Bx, By. rewrite Bx, By, !orb_false_r in Hh.
        by apply bool_decide_eq_true in Hh. }
      rewrite (no_conflict_apart owner items x y f h) in Ht; done.
Qed.
