(* ===== verification/Ledger.v ===== *)
(** * The cross-plan ledger and its record

    [core/src/ledger.rs]: per host, the umbras and the exclusivity classes of the
    instances that hold them. The invariant is that any two holdings are compatible
    (different hosts, or different classes and untouching umbras); every ledger
    reached from the empty one by requests and releases satisfies it, a request is
    admitted exactly when it keeps the invariant, and its refusal says which holding
    is in the way and by which rule. Then the record the store keeps of a ledger
    ([engine/src/store.rs]). *)

From stdpp Require Import base strings pretty numbers option sets gmap list.
From S2P Require Import Prelude Model Algebra Interference.

Record Instance_ := mkInstance {
  inst_id : string;
  inst_host : Host;
  inst_umbra : list Fact;
  inst_exclusivity : option string;
  inst_rehearsal : bool;
}.

#[export] Instance Instance_eq_dec : EqDecision Instance_. Proof. solve_decision. Defined.

Inductive LedgerCode := R0101 | R0203.

Record Ledger := mkLedger { held : list Instance_ }.

Definition ledger_new : Ledger := mkLedger [].

(** Facts touch on equal shapes; two regions must also share an anchor. *)
Definition ledger_touches (f g : Fact) : bool :=
  if fact_shape f != fact_shape g then false
  else match fact_anchor f, fact_anchor g with
       | Some x, Some y => x == y
       | _, _ => true
       end.

Definition same_class (h inst : Instance_) : bool :=
  match inst_exclusivity h, inst_exclusivity inst with
  | Some a, Some b => a == b
  | _, _ => false
  end.

Definition umbras_touch (h inst : Instance_) : bool :=
  existsb (fun f => existsb (fun g => ledger_touches f g) (inst_umbra h)) (inst_umbra inst).

Definition request (l : Ledger) (inst : Instance_) : Result Ledger (LedgerCode * string) :=
  if inst_rehearsal inst then Ok l
  else
    let same_host := List.filter (fun h => inst_host h == inst_host inst) (held l) in
    match List.find (fun h => same_class h inst) same_host with
    | Some h => Err (R0101, "exclusivity class held by " +:+ inst_id h)
    | None =>
        match List.find (fun h => umbras_touch h inst) same_host with
        | Some h => Err (R0203, "umbra overlaps " +:+ inst_id h)
        | None => Ok (mkLedger (inst :: held l))
        end
    end.

Definition release (l : Ledger) (id : string) : Ledger :=
  mkLedger (List.filter (fun h => inst_id h != id) (held l)).

Definition holdings (l : Ledger) : list Instance_ := held l.

(** ** What the ledger promises *)

(** Two instances can be held at once. *)
Definition compatible (x y : Instance_) : bool :=
  (inst_host x != inst_host y) || (negb (same_class x y) && negb (umbras_touch x y)).

Fixpoint pairwise (l : list Instance_) : bool :=
  match l with
  | [] => true
  | x :: l' => forallb (fun y => compatible y x) l' && pairwise l'
  end.

(** The invariant: compatible holdings, none of them a rehearsal. *)
Definition ledger_wf (l : Ledger) : bool :=
  pairwise (held l) && forallb (fun h => negb (inst_rehearsal h)) (held l).

(** The ledger's operations as steps of a machine. *)
Inductive ledger_step : Ledger -> Ledger -> Prop :=
  | step_request l inst l' : request l inst = Ok l' -> ledger_step l l'
  | step_release l id : ledger_step l (release l id).

Definition ledger_reachable (l : Ledger) : Prop := rtc ledger_step ledger_new l.

(** ** Lemmas *)

Lemma ledger_touches_sym f g : ledger_touches f g = ledger_touches g f.
Proof.
  unfold ledger_touches. destruct (decide (fact_shape f = fact_shape g)) as [E|E].
  - rewrite !(bool_decide_eq_true_2 _ E), (bool_decide_eq_true_2 (_ = fact_shape f)) by done.
    destruct (fact_anchor f) as [a|], (fact_anchor g) as [b|]; simpl; try done.
    apply bool_decide_ext. naive_solver.
  - rewrite !(bool_decide_eq_false_2 _ E), (bool_decide_eq_false_2 (_ = fact_shape f)) by auto.
    done.
Qed.

Lemma same_class_sym x y : same_class x y = same_class y x.
Proof.
  unfold same_class. destruct (inst_exclusivity x), (inst_exclusivity y); try done.
  apply bool_decide_ext. naive_solver.
Qed.

Lemma umbras_touch_spec x y :
  umbras_touch x y = true <-> exists f g, f ∈ inst_umbra x /\ g ∈ inst_umbra y /\ ledger_touches f g = true.
Proof.
  unfold umbras_touch. rewrite existsb_elem. setoid_rewrite existsb_elem. split.
  - intros (f & Hf & g & Hg & H). exists g, f. rewrite ledger_touches_sym in H. done.
  - intros (f & g & Hf & Hg & H). exists g. split; [done|]. exists f. by rewrite ledger_touches_sym.
Qed.

Lemma umbras_touch_sym x y : umbras_touch x y = umbras_touch y x.
Proof.
  apply eq_true_iff_eq. rewrite !umbras_touch_spec. setoid_rewrite ledger_touches_sym at 1. naive_solver.
Qed.

Lemma compatible_sym x y : compatible x y = compatible y x.
Proof.
  unfold compatible. rewrite same_class_sym, umbras_touch_sym. do 2 f_equal.
  apply bool_decide_ext. naive_solver.
Qed.

Lemma pairwise_filter p l : pairwise l = true -> pairwise (List.filter p l) = true.
Proof.
  induction l as [|x l IH]; simpl; [done|]. rewrite andb_true_iff. intros [Hx Hl].
  destruct (p x); simpl; [|auto]. rewrite IH, andb_true_r by done.
  rewrite forallb_elem in Hx |- *. intros y [Hy _]%elem_of_lfilter. auto.
Qed.

Lemma pairwise_spec l :
  pairwise l = true <->
  forall i j x y, l !! i = Some x -> l !! j = Some y -> i <> j -> compatible x y = true.
Proof.
  induction l as [|z l IH]; simpl; [split; [intros _ i j x y H; by rewrite lookup_nil in H|done]|].
  rewrite andb_true_iff, IH, forallb_elem. split.
  - intros [Hz Hl] [|i] [|j] x y; simpl; [done| | |]; intros Hi Hj Hne; simplify_eq.
    + rewrite compatible_sym. eapply Hz, list_elem_of_lookup_2; eauto.
    + eapply Hz, list_elem_of_lookup_2; eauto.
    + eapply (Hl i j); eauto.
  - intros H. split.
    + intros y (i & Hi)%list_elem_of_lookup_1. by apply (H (S i) 0 y z).
    + intros i j x y Hi Hj Hne. apply (H (S i) (S j)); simpl; [done..|lia].
Qed.

Lemma find_some_elem {A} (p : A -> bool) l x : List.find p l = Some x -> x ∈ l /\ p x = true.
Proof. intros [H1 H2]%List.find_some. split; [by apply list_elem_of_In|done]. Qed.

Lemma find_none_elem {A} (p : A -> bool) l : List.find p l = None -> forall x, x ∈ l -> p x = false.
Proof. intros H x Hx%list_elem_of_In. by apply (List.find_none p l H x). Qed.

(** A request, case by case, against the declarative compatibility. *)
Lemma request_inv l inst :
  inst_rehearsal inst = false ->
  match request l inst with
  | Ok l' => l' = mkLedger (inst :: held l) /\ forallb (fun h => compatible h inst) (held l) = true
  | Err (code, msg) =>
      exists h, h ∈ held l /\ inst_host h = inst_host inst /\
        match code with
        | R0101 => same_class h inst = true /\ msg = "exclusivity class held by " +:+ inst_id h
        | R0203 => umbras_touch h inst = true /\ msg = "umbra overlaps " +:+ inst_id h /\
                   (forall h', h' ∈ held l -> inst_host h' = inst_host inst -> same_class h' inst = false)
        end
  end.
Proof.
  intros Hr. unfold request. rewrite Hr.
  destruct (List.find (fun h => same_class h inst) _) as [h|] eqn:E1.
  { apply find_some_elem in E1 as [[Hin Hh%bool_decide_eq_true]%elem_of_lfilter Hc]. eauto 6. }
  assert (Hcl := find_none_elem _ _ E1). clear E1.
  setoid_rewrite elem_of_lfilter in Hcl. setoid_rewrite bool_decide_eq_true in Hcl.
  destruct (List.find (fun h => umbras_touch h inst) _) as [h|] eqn:E2.
  { apply find_some_elem in E2 as [[Hin Hh%bool_decide_eq_true]%elem_of_lfilter Hc]. eauto 9. }
  assert (Hum := find_none_elem _ _ E2). clear E2.
  setoid_rewrite elem_of_lfilter in Hum. setoid_rewrite bool_decide_eq_true in Hum.
  split; [done|]. apply forallb_elem. intros h Hh. unfold compatible.
  destruct (decide (inst_host h = inst_host inst)) as [E|E].
  - by rewrite Hcl, Hum, orb_true_r.
  - by rewrite (bool_decide_eq_false_2 _ E).
Qed.

Lemma wf_request l inst l' : ledger_wf l = true -> request l inst = Ok l' -> ledger_wf l' = true.
Proof.
  destruct (inst_rehearsal inst) eqn:Hr; [unfold request; rewrite Hr; congruence|].
  intros Hwf Hq. assert (H := request_inv l inst Hr). rewrite Hq in H. destruct H as [-> Hc].
  unfold ledger_wf in *. simpl. rewrite Hc, Hr. done.
Qed.

Lemma wf_release l id : ledger_wf l = true -> ledger_wf (release l id) = true.
Proof.
  unfold ledger_wf, release. simpl. rewrite !andb_true_iff. intros [Hp Hr].
  split; [by apply pairwise_filter|]. rewrite forallb_elem in Hr |- *.
  intros x [Hx _]%elem_of_lfilter. auto.
Qed.

Lemma wf_step l l' : ledger_step l l' -> ledger_wf l = true -> ledger_wf l' = true.
Proof. destruct 1; eauto using wf_request, wf_release. Qed.

Lemma wf_reachable l : ledger_reachable l -> ledger_wf l = true.
Proof.
  unfold ledger_reachable. intros H. assert (Hnew : ledger_wf ledger_new = true) by done. revert Hnew.
  induction H as [|x y z Hxy _ IH]; eauto using wf_step.
Qed.

(** A holding compatible with every other is admitted. *)
Lemma request_admits l inst :
  inst_rehearsal inst = false -> forallb (fun h => compatible h inst) (held l) = true ->
  request l inst = Ok (mkLedger (inst :: held l)).
Proof.
  intros Hr Hc. assert (H := request_inv l inst Hr). rewrite forallb_elem in Hc.
  destruct (request l inst) as [l'|[code msg]]; [by destruct H as [-> _]|].
  destruct H as (h & Hin & Hh & H). specialize (Hc h Hin). unfold compatible in Hc.
  rewrite (bool_decide_eq_true_2 _ Hh) in Hc. simpl in Hc.
  apply andb_true_iff in Hc as [H1%negb_true_iff H2%negb_true_iff].
  destruct code; destruct H as [H ?]; congruence.
Qed.

(** ** Properties *)

(** C37. On every ledger reached by requests and releases, no two holdings on one
    host share an exclusivity class or have umbras that touch, and no rehearsal is
    held. *)
Theorem ledger_exclusive l :
  ledger_reachable l ->
  (forall i j x y, held l !! i = Some x -> held l !! j = Some y -> i <> j ->
     inst_host x = inst_host y ->
     same_class x y = false /\
     (forall f g, f ∈ inst_umbra x -> g ∈ inst_umbra y -> ledger_touches f g = false)) /\
  (forall h, h ∈ held l -> inst_rehearsal h = false).
Proof.
  intros Hwf%wf_reachable. apply andb_true_iff in Hwf as [Hp Hr]. split.
  - intros i j x y Hi Hj Hne Hhost.
    assert (Hc := proj1 (pairwise_spec _) Hp i j x y Hi Hj Hne). unfold compatible in Hc.
    rewrite (bool_decide_eq_true_2 _ Hhost) in Hc. simpl in Hc.
    apply andb_true_iff in Hc as [H1%negb_true_iff H2%negb_true_iff]. split; [done|].
    intros f g Hf Hg. destruct (ledger_touches f g) eqn:E; [|done].
    rewrite <- H2. symmetry. apply umbras_touch_spec. eauto.
  - intros h Hh. rewrite forallb_elem in Hr. by apply negb_true_iff, Hr.
Qed.

(** A request on any ledger is decided by compatibility alone: a rehearsal is
    admitted and records nothing; otherwise it is admitted, at the front, exactly
    when every holding is compatible with it; R0101 names a holding of the same
    class on the host, and R0203, raised only when there is none, a holding on the
    host whose umbra it touches. *)
Theorem request_spec l inst :
  (inst_rehearsal inst = true -> request l inst = Ok l) /\
  (inst_rehearsal inst = false ->
   (forall l', request l inst = Ok l' <->
      l' = mkLedger (inst :: held l) /\ forallb (fun h => compatible h inst) (held l) = true) /\
   forall code msg, request l inst = Err (code, msg) ->
     exists h, h ∈ held l /\ inst_host h = inst_host inst /\
       match code with
       | R0101 => same_class h inst = true /\ msg = "exclusivity class held by " +:+ inst_id h
       | R0203 => umbras_touch h inst = true /\ msg = "umbra overlaps " +:+ inst_id h /\
                  (forall h', h' ∈ held l -> inst_host h' = inst_host inst -> same_class h' inst = false)
       end).
Proof.
  split; [intros Hr; unfold request; by rewrite Hr|]. intros Hr.
  assert (H := request_inv l inst Hr). split; [split|].
  - intros E. by rewrite E in H.
  - intros [-> E]. by apply request_admits.
  - intros code msg E. by rewrite E in H.
Qed.

(** ** Witnesses *)

Definition ledger_one : Instance_ := mkInstance "a" "h" [mkFact "/etc/x" None] (Some "net") false.
Definition ledger_two : Instance_ := mkInstance "b" "h" [mkFact "/etc/y" None] None false.
Definition ledger_clash : Instance_ := mkInstance "c" "h" [mkFact "/etc/x" (Some "r")] None false.

Lemma ledger_exclusive_witness :
  same_class ledger_one ledger_two = false /\
  request (mkLedger [ledger_two; ledger_one]) ledger_clash = Err (R0203, "umbra overlaps a").
Proof.
  split; [|reflexivity].
  refine (proj1 (proj1 (ledger_exclusive (mkLedger [ledger_two; ledger_one]) _) 1 0
            ledger_one ledger_two _ _ _ _)); [|reflexivity|reflexivity|lia|reflexivity].
  apply rtc_l with (mkLedger [ledger_one]); [apply (step_request _ ledger_one); reflexivity|].
  apply rtc_once. apply (step_request _ ledger_two). reflexivity.
Defined.

Lemma request_spec_witness :
  request ledger_new ledger_one = Ok (mkLedger [ledger_one]).
Proof.
  apply (proj2 (request_spec ledger_new ledger_one)); [reflexivity|]. split; reflexivity.
Defined.

(** ** The ledger as the store keeps it

    [engine/src/store.rs]: [LedgerRecord], the serializable shape of the ledger,
    written after every change and re-admitted request by request when the daemon
    starts. Saving then loading gives the ledger back, holding for holding and in
    order, and a record loads exactly when its holdings are compatible, so a corrupt
    record is refused rather than loaded. *)

Record HeldRecord := mkHeldRecord {
  hd_id : string;
  hd_host : string;
  hd_umbra : list (string * option string);
  hd_exclusivity : option string;
}.

Record LedgerRecord := mkLedgerRecord { lr_held : list HeldRecord }.

Definition fact_new (s : string) (a : option string) : Fact := mkFact s a.

Definition held_record (h : Instance_) : HeldRecord := {|
  hd_id := inst_id h;
  hd_host := inst_host h;
  hd_umbra := map (fun f => (fact_shape f, fact_anchor f)) (inst_umbra h);
  hd_exclusivity := inst_exclusivity h;
|}.

Definition from_ledger (l : Ledger) : LedgerRecord :=
  mkLedgerRecord (map held_record (holdings l)).

Definition held_instance (h : HeldRecord) : Instance_ := {|
  inst_id := hd_id h;
  inst_host := hd_host h;
  inst_umbra := map (fun '(s, a) => fact_new s a) (hd_umbra h);
  inst_exclusivity := hd_exclusivity h;
  inst_rehearsal := false;
|}.

Definition SCHEMA : N := 3.

Inductive SchemaError :=
| SchemaMissing
| SchemaUnreadable (s : string)
| SchemaUnknown (v : N)
| SchemaOlder (v : N).

Inductive StoreError :=
| Locked (path : string)
| Schema (e : SchemaError)
| NotOwned (path : string) (owner me : N)
| Io (what : string)
| Corrupt (what : string).

(** [impl Display for StoreError] *)
Definition display_store_error (e : StoreError) : string :=
  match e with
  | Locked p => concats ["store "; p; " is held by another daemon"]
  | Schema SchemaMissing => "R0502: the store has no schema (schema 0); run `rescindd migrate`"
  | Schema (SchemaUnreadable s) => "R0502: the store's schema file is unreadable: " +:+ s
  | Schema (SchemaUnknown v) =>
      concats ["R0502: store schema "; show v; " is unknown to this build (which knows "; show SCHEMA;
               "); a newer rescindd wrote it"]
  | Schema (SchemaOlder v) =>
      concats ["R0502: store schema "; show v; " is older than this build's "; show SCHEMA;
               "; run `rescindd migrate`"]
  | NotOwned path owner me =>
      concats ["store "; path; " is owned by uid "; show owner; ", not the daemon account (uid "; show me;
               "); refusing to migrate"]
  | Io s => "store i/o: " +:+ s
  | Corrupt s => "store corrupt: " +:+ s
  end.

Definition ledger_code_debug (c : LedgerCode) : string :=
  match c with R0101 => "R0101" | R0203 => "R0203" end.

(** The loop over the holdings, last first. *)
Fixpoint readmit (l : Ledger) (hs : list HeldRecord) : Result Ledger StoreError :=
  match hs with
  | [] => Ok l
  | h :: hs' =>
      match request l (held_instance h) with
      | Ok l' => readmit l' hs'
      | Err (c, m) => Err (Corrupt (concats ["ledger: "; ledger_code_debug c; " "; m]))
      end
  end.

Definition to_ledger (r : LedgerRecord) : Result Ledger StoreError :=
  readmit ledger_new (rev (lr_held r)).

(** ** Lemmas *)

Lemma held_instance_record h : inst_rehearsal h = false -> held_instance (held_record h) = h.
Proof.
  destruct h as [id host umbra ex r]; simpl. intros ->. unfold held_instance, held_record. simpl.
  f_equal. rewrite map_map. induction umbra as [|[s a] u IH]; simpl; [done|]. by rewrite IH.
Qed.

Lemma held_record_instance h : held_record (held_instance h) = h.
Proof.
  destruct h as [id host umbra ex]. unfold held_instance, held_record. simpl. f_equal.
  rewrite map_map. induction umbra as [|[s a] u IH]; simpl; [done|]. by rewrite IH.
Qed.

(** Re-admission onto a ledger succeeds exactly when the result is well formed. *)
Lemma readmit_spec hs l :
  ledger_wf l = true ->
  match readmit l hs with
  | Ok l' => l' = mkLedger (rev (map held_instance hs) ++ held l) /\ ledger_wf l' = true
  | Err _ => ledger_wf (mkLedger (rev (map held_instance hs) ++ held l)) = false
  end.
Proof.
  revert l. induction hs as [|h hs IH]; intros l Hwf; simpl; [by destruct l|].
  assert (Hq := request_inv l (held_instance h) eq_refl).
  rewrite <- app_assoc. simpl. destruct (request l (held_instance h)) as [l'|[c m]] eqn:E.
  - destruct Hq as [-> _]. apply IH. eapply wf_request; eauto.
  - destruct Hq as (x & Hx & Hhost & Hc). apply not_true_iff_false. intros Hwf'.
    apply andb_true_iff in Hwf' as [Hp _].
    apply list_elem_of_lookup_1 in Hx as [i Hi].
    set (n := length (rev (map held_instance hs))).
    assert (Hcomp : compatible x (held_instance h) = true).
    { eapply (proj1 (pairwise_spec _) Hp (n + S i) n); simpl; [| |lia].
      - rewrite lookup_app_r by (subst n; lia). subst n. by replace (_ - _) with (S i) by lia.
      - rewrite lookup_app_r by (subst n; lia). subst n. by rewrite Nat.sub_diag. }
    unfold compatible in Hcomp. rewrite (bool_decide_eq_true_2 _ Hhost) in Hcomp. simpl in Hcomp.
    apply andb_true_iff in Hcomp as [H1%negb_true_iff H2%negb_true_iff].
    destruct c; destruct Hc; congruence.
Qed.

Lemma to_ledger_spec r :
  match to_ledger r with
  | Ok l => l = mkLedger (map held_instance (lr_held r)) /\ ledger_wf l = true
  | Err _ => ledger_wf (mkLedger (map held_instance (lr_held r))) = false
  end.
Proof.
  unfold to_ledger. assert (H := readmit_spec (rev (lr_held r)) ledger_new eq_refl).
  by rewrite map_rev, rev_involutive, app_nil_r in H.
Qed.

(** ** Properties *)

(** The store's ledger round trips: loading what was saved from any ledger the
    engine can reach succeeds and gives that ledger back, in order. *)
Theorem ledger_record_round_trip l :
  ledger_reachable l -> to_ledger (from_ledger l) = Ok l.
Proof.
  intros Hwf%wf_reachable. assert (H := to_ledger_spec (from_ledger l)).
  assert (Hl : mkLedger (map held_instance (lr_held (from_ledger l))) = l).
  { destruct l as [hs]. unfold from_ledger, holdings. simpl. f_equal. rewrite map_map.
    apply andb_true_iff in Hwf as [_ Hr]. simpl in Hr. rewrite forallb_elem in Hr.
    rewrite <- (map_id hs) at 2. apply map_ext_in. intros h Hh%list_elem_of_In.
    apply held_instance_record, negb_true_iff, Hr, Hh. }
  rewrite Hl in H. destruct (to_ledger _); [by destruct H as [-> _]|congruence].
Qed.

(** A stored record loads exactly when its holdings are pairwise compatible;
    what loads satisfies the ledger's invariant and saves back to the same record,
    and every other record is refused as corrupt. *)
Theorem to_ledger_refuses_corruption r :
  (is_ok (to_ledger r) = true <-> pairwise (map held_instance (lr_held r)) = true) /\
  (forall l, to_ledger r = Ok l -> ledger_wf l = true /\ from_ledger l = r).
Proof.
  assert (H := to_ledger_spec r).
  assert (Hreh : forallb (fun h => negb (inst_rehearsal h)) (map held_instance (lr_held r)) = true).
  { apply forallb_elem. intros x (h & -> & _)%elem_of_map. done. }
  split.
  - destruct (to_ledger r) as [l|e]; unfold ledger_wf in H; simpl in *.
    + destruct H as [-> [Hp _]%andb_true_iff]. simpl in Hp. by rewrite Hp.
    + rewrite Hreh, andb_true_r in H. by rewrite H.
  - intros l E. rewrite E in H. destruct H as [-> Hwf]. split; [done|].
    destruct r as [hs]. unfold from_ledger. simpl. f_equal. rewrite map_map.
    rewrite <- (map_id hs) at 2. apply map_ext. apply held_record_instance.
Qed.

(** ** Witnesses *)

Lemma ledger_record_round_trip_witness :
  to_ledger (from_ledger (mkLedger [ledger_two; ledger_one])) = Ok (mkLedger [ledger_two; ledger_one]).
Proof.
  apply (ledger_record_round_trip (mkLedger [ledger_two; ledger_one])).
  apply rtc_l with (mkLedger [ledger_one]); [apply (step_request _ ledger_one); reflexivity|].
  apply rtc_once. apply (step_request _ ledger_two). reflexivity.
Defined.

Lemma to_ledger_refuses_corruption_witness :
  ledger_wf (mkLedger [ledger_one]) = true /\
  from_ledger (mkLedger [ledger_one]) = mkLedgerRecord [held_record ledger_one] /\
  is_ok (to_ledger (mkLedgerRecord [held_record ledger_one; held_record ledger_clash])) = false.
Proof.
  assert (H := proj2 (to_ledger_refuses_corruption (mkLedgerRecord [held_record ledger_one]))
                 (mkLedger [ledger_one]) eq_refl).
  exact (conj (proj1 H) (conj (proj2 H) eq_refl)).
Defined.
