(* ===== verification/Gates.v ===== *)
(** * Gates

    [core/src/gates.rs]: a gate is a weighted threshold over factors, a factor an
    authenticator, any human, a nested gate or a wait. The code enumerates the
    minimal subsets of factors that reach the threshold and, for each, the ways of
    satisfying them ([satisfying_paths]); everything else is read off that list.

    [gate_sat] is the declarative meaning: a threshold is met when the weights of
    its satisfied factors add up to it. The enumeration is sound for it without any
    bound, and complete as long as a threshold has fewer than 64 factors and its
    weights add up within a [u32], which is where the code's shift and sums wrap. *)

From stdpp Require Import base strings pretty numbers option sets gmap list.
From S2P Require Import Prelude Model.

(** ** The induction principle of gates and factors *)

Section GateInd.
Variables (P : GateExpr -> Prop) (Q : Factor -> Prop).
Hypothesis HThresh : forall n fs, Forall Q fs -> P (Thresh n fs).
Hypothesis HSingle : forall f, Q f -> P (Single f).
Hypothesis HAuth : forall id w, Q (Auth id w).
Hypothesis HHumans : forall w, Q (Humans w).
Hypothesis HGroup : forall e w, P e -> Q (Group e w).
Hypothesis HWait : forall d w, Q (Wait d w).

Fixpoint gate_ind' (g : GateExpr) : P g :=
  match g with
  | Thresh n fs =>
      HThresh n fs ((fix go l : Forall Q l :=
        match l with
        | [] => Forall_nil_2 _
        | f :: l' => Forall_cons_2 _ _ _ (factor_ind' f) (go l')
        end) fs)
  | Single f => HSingle f (factor_ind' f)
  end
with factor_ind' (f : Factor) : Q f :=
  match f with
  | Auth id w => HAuth id w
  | Humans w => HHumans w
  | Group e w => HGroup e w (gate_ind' e)
  | Wait d w => HWait d w
  end.

Lemma gate_factor_ind : (forall g, P g) /\ (forall f, Q f).
Proof. split; [exact gate_ind'|exact factor_ind']. Qed.
End GateInd.

(** ** Paths *)

Record Path := mkPath {
  path_auths : list string;
  path_humans : list string;
  path_wait : option Duration;
}.

Record GateReport := mkGateReport {
  satisfiable : bool;
  min_distinct_humans : option nat;
  zero_human_path : bool;
  wait_alone_at : option Duration;
}.

Definition empty_path : Path := mkPath [] [] None.

Definition factor_weight (f : Factor) : N :=
  match f with
  | Auth _ w | Humans w | Group _ w | Wait _ w => w
  end.

Definition max_wait (p q : option Duration) : option Duration :=
  match p, q with
  | None, x | x, None => x
  | Some x, Some y => Some (N.max x y)
  end.

Definition merge (p q : Path) : Path := {|
  path_auths := nub (path_auths p ++ path_auths q);
  path_humans := nub (path_humans p ++ path_humans q);
  path_wait := max_wait (path_wait p) (path_wait q);
|}.

(** [0u64..(1u64 << len)] and [mask & (1 << i)]: shifts are taken modulo the
    width, as the unchecked build takes them. *)
Definition masks (len : nat) : list N :=
  map N.of_nat (seq 0 (N.to_nat (N.shiftl 1 (N.of_nat len mod 64)))).

Fixpoint chosen_from {A} (mask i : N) (l : list A) : list A :=
  match l with
  | [] => []
  | x :: l' =>
      let rest := chosen_from mask (i + 1) l' in
      if negb (N.land mask (N.shiftl 1 (i mod 64)) =? 0)%N then x :: rest else rest
  end.

Definition chosen {A} (mask : N) (l : list A) : list A := chosen_from mask 0 l.

(** The loop over the chosen factors' paths, last first. *)
Definition combine_paths (fps : list (list Path)) : list Path :=
  foldl (fun acc ps => flat_map (fun p => map (merge p) acc) ps) [empty_path] (rev fps).

(** One subset of the factors, each given by its weight and its paths. *)
Definition subset_paths (n : N) (sub : list (N * list Path)) : list Path :=
  let weights := map fst sub in
  let total := foldl u32_add 0%N weights in
  if (total <? n)%N then []
  else
    let minimal := forallb (fun w => (u32_sub total w <? n)%N) weights
                   || (match weights with [] => true | _ => false end) in
    if negb minimal then [] else combine_paths (map snd sub).

Definition thresh_paths (n : N) (fps : list (N * list Path)) : list Path :=
  flat_map (fun mask => subset_paths n (chosen mask fps)) (masks (length fps)).

Fixpoint satisfying_paths (auths : list Authenticator) (g : GateExpr) : list Path :=
  match g with
  | Single f => factor_paths auths f
  | Thresh n factors => thresh_paths n (map (fun f => (factor_weight f, factor_paths auths f)) factors)
  end
with factor_paths (auths : list Authenticator) (f : Factor) : list Path :=
  match f with
  | Auth id _ =>
      match List.find (fun a => auth_id a == id) auths with
      | Some a => [mkPath [id] (if auth_human a then [id] else []) None]
      | None => []
      end
  | Humans _ =>
      map (fun a => mkPath [auth_id a] [auth_id a] None) (List.filter auth_human auths)
  | Group expr _ => satisfying_paths auths expr
  | Wait d _ => [mkPath [] [] (Some d)]
  end.

(** ** What is read off the paths *)

Definition min_list {A} (le : A -> A -> bool) (l : list A) : option A :=
  match l with
  | [] => None
  | x :: l' => Some (foldl (fun m y => if le m y then m else y) x l')
  end.

Definition is_nil {A} (l : list A) : bool := match l with [] => true | _ => false end.

Definition report (auths : list Authenticator) (g : GateExpr) : GateReport :=
  let ps := satisfying_paths auths g in {|
  satisfiable := negb (is_nil ps);
  min_distinct_humans := min_list Nat.leb (map (fun p => length (path_humans p)) ps);
  zero_human_path := existsb (fun p => is_nil (path_humans p)) ps;
  wait_alone_at :=
    min_list N.leb (filter_map path_wait (List.filter (fun p => is_nil (path_humans p)) ps));
|}.

Definition proved (proofs : list string) (p : Path) : bool :=
  forallb (fun id => existsb (fun x => x == id) proofs) (path_auths p).

Definition satisfied (auths : list Authenticator) (g : GateExpr) (proofs : list string)
    (elapsed : Duration) : bool :=
  existsb (fun p => proved proofs p
                    && match path_wait p with None => true | Some w => (w <=? elapsed)%N end)
          (satisfying_paths auths g).

Definition satisfiable_at (auths : list Authenticator) (g : GateExpr) (proofs : list string)
    : option Duration :=
  min_list N.leb (map (fun p => default 0%N (path_wait p))
                      (List.filter (proved proofs) (satisfying_paths auths g))).

Fixpoint named (g : GateExpr) : list string :=
  match g with
  | Single f => factor_named f
  | Thresh _ factors => flat_map factor_named factors
  end
with factor_named (f : Factor) : list string :=
  match f with
  | Auth id _ => [id]
  | Group expr _ => named expr
  | _ => []
  end.

Definition unknown_authenticators (auths : list Authenticator) (g : GateExpr) : list string :=
  nub (List.filter (fun i => negb (existsb (fun a => auth_id a == i) auths)) (named g)).

Definition requester_human (auths : list Authenticator) (requester : string) : bool :=
  existsb (fun a => (auth_id a == requester) && auth_human a) auths.

Fixpoint counts_requester (auths : list Authenticator) (requester : string) (g : GateExpr) : bool :=
  match g with
  | Single f => factor_counts_requester auths requester f
  | Thresh _ factors => existsb (factor_counts_requester auths requester) factors
  end
with factor_counts_requester (auths : list Authenticator) (requester : string) (f : Factor) : bool :=
  match f with
  | Auth id _ => id == requester
  | Humans _ => requester_human auths requester
  | Group expr _ => counts_requester auths requester expr
  | Wait _ _ => false
  end.

(** ** [render_gate] *)

Definition render_weight (w : N) : string :=
  if (w =? 1)%N then EmptyString else ", weight: " +:+ show w.

(** [ws.get(2..).unwrap_or()]: what follows the first two bytes, if there are two. *)
Definition drop2 (s : string) : string :=
  match s with
  | String _ (String _ s') => s'
  | _ => EmptyString
  end.

Fixpoint render_gate (g : GateExpr) : string :=
  match g with
  | Single f => render_factor f
  | Thresh n factors =>
      concats ["thresh("; show n; ", "; join ", " (map render_factor factors); ")"]
  end
with render_factor (f : Factor) : string :=
  match f with
  | Auth id w => concats ["auth(:"; id; render_weight w; ")"]
  | Humans w => concats ["humans("; drop2 (render_weight w); ")"]
  | Group expr w => concats ["group("; render_gate expr; render_weight w; ")"]
  | Wait d w => concats ["wait("; duration_render d; render_weight w; ")"]
  end.

Example render_gate_ex :
  render_gate (Thresh 2 [Auth "ops" 1; Humans 2; Wait 3600 1]) =
  "thresh(2, auth(:ops), humans(weight: 2), wait(1h))".
Proof. vm_compute. reflexivity. Qed.

Example report_ex :
  report [mkAuth "a" true; mkAuth "b" true; mkAuth "bot" false]
         (Thresh 2 [Auth "a" 1; Auth "b" 1; Auth "bot" 1; Wait 60 2]) =
  mkGateReport true (Some 0) true (Some 60%N).
Proof. vm_compute. reflexivity. Qed.

(** ** The declarative meaning *)

Section Meaning.
Context (auths : list Authenticator) (proofs : list string) (elapsed : Duration).

Definition has_proof (id : string) : bool := existsb (fun x => x == id) proofs.

Fixpoint gate_sat (g : GateExpr) : bool :=
  match g with
  | Single f => factor_sat f
  | Thresh n factors =>
      (n <=? foldr N.add 0 (map (fun f => if factor_sat f then factor_weight f else 0) factors))%N
  end
with factor_sat (f : Factor) : bool :=
  match f with
  | Auth id _ => existsb (fun a => auth_id a == id) auths && has_proof id
  | Humans _ => existsb (fun a => auth_human a && has_proof (auth_id a)) auths
  | Group expr _ => gate_sat expr
  | Wait d _ => (d <=? elapsed)%N
  end.

Definition path_sat (p : Path) : bool :=
  proved proofs p && match path_wait p with None => true | Some w => (w <=? elapsed)%N end.

Definition sum (ws : list N) : N := foldr N.add 0%N ws.
End Meaning.

(** The bounds under which no shift and no sum of the enumeration wraps. *)
Fixpoint bounded_gate (g : GateExpr) : bool :=
  match g with
  | Single f => bounded_factor f
  | Thresh _ factors =>
      (length factors <? 64) && (sum (map factor_weight factors) <? 2 ^ 32)%N
      && forallb bounded_factor factors
  end
with bounded_factor (f : Factor) : bool :=
  match f with
  | Group expr _ => bounded_gate expr
  | _ => true
  end.

(** ** Subsets *)

Lemma chosen_sublist {A} mask i (l : list A) : chosen_from mask i l `sublist_of` l.
Proof.
  revert i. induction l as [|x l IH]; intros i; simpl; [constructor|].
  destruct (negb _); constructor; apply IH.
Qed.

Lemma land_shiftl_testbit mask i :
  (N.land mask (N.shiftl 1 i) =? 0)%N = negb (N.testbit mask i).
Proof.
  rewrite N.shiftl_1_l. destruct (N.testbit mask i) eqn:E; simpl.
  - apply N.eqb_neq. intros H. apply (f_equal (fun x => N.testbit x i)) in H.
    rewrite N.land_spec, E, N.pow2_bits_true, N.bits_0 in H. done.
  - apply N.eqb_eq, N.bits_inj. intros j. rewrite N.land_spec, N.bits_0, N.pow2_bits_eqb.
    destruct (N.eqb_spec i j) as [->|]; [by rewrite E|by rewrite andb_false_r].
Qed.

(** Every subset of fewer than 64 elements is some mask's choice. *)
Lemma chosen_from_complete {A} (sub l : list A) i :
  sub `sublist_of` l -> (i + N.of_nat (length l) <= 64)%N ->
  exists m, (m < 2 ^ N.of_nat (length l))%N /\
    forall mask, (forall j, (j < N.of_nat (length l))%N -> N.testbit mask (i + j) = N.testbit m j) ->
      chosen_from mask i l = sub.
Proof.
  intros Hs. revert i. induction Hs as [|x sub l Hs IH|x sub l Hs IH]; intros i Hi.
  - exists 0%N. simpl. split; [lia|]. done.
  - destruct (IH (i + 1)%N) as (m & Hm & Hc); [simpl in *; lia|].
    exists (2 * m + 1)%N. simpl length. rewrite Nat2N.inj_succ, N.pow_succ_r'. split; [lia|].
    intros mask Hmask. simpl. rewrite (N.mod_small i) by (simpl in *; lia).
    rewrite land_shiftl_testbit, negb_involutive.
    rewrite <- (N.add_0_r i) at 1. rewrite Hmask, N.testbit_odd_0 by lia. f_equal. apply Hc.
    intros j Hj. rewrite <- (N.testbit_odd_succ m j) by lia. rewrite <- Hmask by lia. f_equal. lia.
  - destruct (IH (i + 1)%N) as (m & Hm & Hc); [simpl in *; lia|].
    exists (2 * m)%N. simpl length. rewrite Nat2N.inj_succ, N.pow_succ_r'. split; [lia|].
    intros mask Hmask. simpl. rewrite (N.mod_small i) by (simpl in *; lia).
    rewrite land_shiftl_testbit, negb_involutive.
    rewrite <- (N.add_0_r i) at 1. rewrite Hmask, N.testbit_even_0 by lia. apply Hc.
    intros j Hj. rewrite <- (N.testbit_even_succ m j) by lia. rewrite <- Hmask by lia. f_equal. lia.
Qed.

Lemma chosen_complete {A} (sub l : list A) :
  sub `sublist_of` l -> length l < 64 ->
  exists mask, mask ∈ masks (length l) /\ chosen mask l = sub.
Proof.
  intros Hs Hl. destruct (chosen_from_complete sub l 0 Hs) as (m & Hm & Hc); [lia|].
  exists m. split; [|apply Hc; intros j _; f_equal; lia].
  unfold masks. apply elem_of_map. exists (N.to_nat m). split; [lia|].
  apply elem_of_seq. rewrite N.mod_small, N.shiftl_1_l by lia. lia.
Qed.

(** ** Weights *)

Lemma sum_app l1 l2 : sum (l1 ++ l2) = (sum l1 + sum l2)%N.
Proof. induction l1; simpl; [done|]. unfold sum in *. simpl. lia. Qed.

Lemma u32_total_le ws acc : (foldl u32_add acc ws <= acc + sum ws)%N.
Proof.
  revert acc. induction ws as [|w ws IH]; intros acc; simpl; [unfold sum; simpl; lia|].
  specialize (IH (u32_add acc w)). unfold u32_add, wrap32 in *.
  assert ((acc + w) mod 2 ^ 32 <= acc + w)%N by (apply N.Div0.mod_le). unfold sum in *. simpl. lia.
Qed.

Lemma u32_total_eq ws acc :
  (acc + sum ws < 2 ^ 32)%N -> foldl u32_add acc ws = (acc + sum ws)%N.
Proof.
  revert acc. induction ws as [|w ws IH]; intros acc H; unfold sum in *; simpl in *; [lia|].
  unfold u32_add at 2, wrap32. rewrite N.mod_small by lia. rewrite IH by lia. lia.
Qed.

Lemma sum_elem w ws : w ∈ ws -> (w <= sum ws)%N.
Proof. induction 1; unfold sum in *; simpl; lia. Qed.

Lemma sum_sublist {A} (weight : A -> N) sub l :
  sub `sublist_of` l -> (sum (map weight sub) <= sum (map weight l))%N.
Proof. induction 1; unfold sum in *; simpl; lia. Qed.

Section MinimalSubset.
Context {A : Type} (weight : A -> N) (n : N).
Notation total l := (sum (map weight l)).

(** A set that reaches a threshold contains one that needs every element. *)
Lemma minimal_subset (l : list A) :
  (n <= total l)%N ->
  exists sub, sub `sublist_of` l /\ (n <= total sub)%N /\
    forall x, x ∈ sub -> (total sub - weight x < n)%N.
Proof.
  induction l as [l IH] using (induction_ltof1 _ (@length A)). unfold ltof in IH. intros Hn.
  destruct (existsb (fun x => n <=? total l - weight x)%N l) eqn:E.
  - apply existsb_elem in E as (x & Hx & Hle%N.leb_le).
    apply list_elem_of_split in Hx as (l1 & l2 & ->).
    assert (Ht : total (l1 ++ x :: l2) = (total (l1 ++ l2) + weight x)%N).
    { rewrite !map_app, !sum_app. unfold sum. simpl. lia. }
    destruct (IH (l1 ++ l2)) as (sub & Hs & H1 & H2).
    + rewrite !length_app. simpl. lia.
    + lia.
    + exists sub. split; [|done]. etransitivity; [exact Hs|].
      apply sublist_app; [done|]. by constructor.
  - exists l. rewrite existsb_false in E. split; [done|]. split; [done|].
    intros x Hx. specialize (E x Hx). apply N.leb_gt in E. done.
Qed.
End MinimalSubset.

(** ** Combining paths *)

Lemma proved_spec proofs p : proved proofs p = true <-> path_auths p ⊆ proofs.
Proof.
  unfold proved. rewrite forallb_elem. setoid_rewrite existsb_elem.
  setoid_rewrite bool_decide_eq_true. split; [|set_solver].
  intros H x Hx. by destruct (H x Hx) as (y & Hy & ->).
Qed.

Lemma path_sat_merge proofs e p q :
  path_sat proofs e (merge p q) = path_sat proofs e p && path_sat proofs e q.
Proof.
  apply eq_true_iff_eq. unfold path_sat. rewrite !andb_true_iff, !proved_spec.
  assert (path_auths (merge p q) ⊆ proofs <-> path_auths p ⊆ proofs /\ path_auths q ⊆ proofs) as ->.
  { simpl. assert (He := fun x => elem_of_nub (path_auths p ++ path_auths q) x). set_solver. }
  simpl. destruct (path_wait p), (path_wait q); simpl; rewrite ?N.leb_le; intuition lia.
Qed.

(** The paths of a combination: one choice per factor, merged from the right. *)
Lemma combine_paths_snoc ps fps :
  combine_paths (ps :: fps) = flat_map (fun p => map (merge p) (combine_paths fps)) ps.
Proof. unfold combine_paths. simpl. by rewrite foldl_app. Qed.

Lemma combine_paths_elem fps r :
  r ∈ combine_paths fps <-> exists qs, Forall2 (fun q ps => q ∈ ps) qs fps /\ r = foldr merge empty_path qs.
Proof.
  revert r. induction fps as [|ps fps IH]; intros r.
  - unfold combine_paths. simpl. rewrite list_elem_of_singleton. split.
    + intros ->. by exists [].
    + intros (qs & H & ->). by apply Forall2_nil_inv_r in H as ->.
  - rewrite combine_paths_snoc, elem_of_flat_map. setoid_rewrite elem_of_map. split.
    + intros (p & Hp & q & -> & (qs & Hqs & ->)%IH). exists (p :: qs). eauto.
    + intros (qs & H & ->). apply Forall2_cons_inv_r in H as (p & qs' & Hp & Hqs & ->).
      exists p. split; [done|]. eexists. split; [reflexivity|]. apply IH. eauto.
Qed.

Lemma path_sat_foldr proofs e qs :
  path_sat proofs e (foldr merge empty_path qs) = forallb (path_sat proofs e) qs.
Proof. induction qs as [|q qs IH]; simpl; [done|]. by rewrite path_sat_merge, IH. Qed.

Lemma combine_paths_sat proofs e fps :
  existsb (path_sat proofs e) (combine_paths fps) = forallb (existsb (path_sat proofs e)) fps.
Proof.
  induction fps as [|ps fps IH]; [done|]. rewrite combine_paths_snoc. simpl. rewrite <- IH.
  apply eq_true_iff_eq. rewrite andb_true_iff, !existsb_elem. setoid_rewrite elem_of_flat_map.
  setoid_rewrite elem_of_map. split.
  - intros (r & (p & Hp & q & -> & Hq) & Hs). rewrite path_sat_merge, andb_true_iff in Hs.
    destruct Hs. split; eauto.
  - intros [(p & Hp & Hps) (q & Hq & Hqs)]. exists (merge p q).
    rewrite path_sat_merge, Hps, Hqs. eauto 6.
Qed.

(** ** One threshold *)

Section Threshold.
Context (proofs : list string) (elapsed : Duration).
Notation sat := (existsb (path_sat proofs elapsed)).

(** The weight of the factors whose paths some proof satisfies. *)
Definition sat_weight (fps : list (N * list Path)) : N :=
  sum (map (fun fp => if sat (snd fp) then fst fp else 0%N) fps).

Lemma sat_weight_all sub : forallb sat (map snd sub) = true -> sat_weight sub = sum (map fst sub).
Proof.
  unfold sat_weight. induction sub as [|[w ps] sub IH]; simpl; [done|].
  rewrite andb_true_iff. intros [-> H]. unfold sum in *. simpl. by rewrite IH.
Qed.

Lemma sat_weight_sublist sub fps : sub `sublist_of` fps -> (sat_weight sub <= sat_weight fps)%N.
Proof.
  apply sum_sublist.
Qed.

Lemma sat_weight_filter fps :
  sat_weight fps = sum (map fst (List.filter (fun fp => sat (snd fp)) fps)).
Proof.
  unfold sat_weight. induction fps as [|[w ps] fps IH]; simpl; [done|].
  unfold sum in *. simpl. destruct (sat ps); simpl; lia.
Qed.

Lemma lfilter_sublist {A} (p : A -> bool) l : List.filter p l `sublist_of` l.
Proof. induction l as [|x l IH]; simpl; [constructor|]. destruct (p x); by constructor. Qed.

Lemma thresh_sound n fps : sat (thresh_paths n fps) = true -> (n <= sat_weight fps)%N.
Proof.
  unfold thresh_paths. rewrite existsb_elem. setoid_rewrite elem_of_flat_map.
  intros (p & (mask & _ & Hp) & Hsat). unfold subset_paths in Hp.
  set (sub := chosen mask fps) in *.
  destruct (N.ltb_spec (foldl u32_add 0%N (map fst sub)) n) as [|Hn]; [set_solver|].
  destruct (negb _); [set_solver|].
  assert (Hall : forallb sat (map snd sub) = true).
  { rewrite <- combine_paths_sat. apply existsb_elem. eauto. }
  assert (Hle := u32_total_le (map fst sub) 0). rewrite <- (sat_weight_all sub Hall) in Hle.
  assert (Hs := sat_weight_sublist sub fps (chosen_sublist mask 0 fps)). lia.
Qed.

Lemma thresh_complete n fps :
  length fps < 64 -> (sum (map fst fps) < 2 ^ 32)%N ->
  (n <= sat_weight fps)%N -> sat (thresh_paths n fps) = true.
Proof.
  intros Hlen Hsum Hn. rewrite sat_weight_filter in Hn.
  destruct (minimal_subset fst n _ Hn) as (sub & Hsub & Htot & Hmin).
  assert (Hsf : sub `sublist_of` fps) by (etransitivity; [exact Hsub|apply lfilter_sublist]).
  destruct (chosen_complete sub fps Hsf Hlen) as (mask & Hmask & Hch).
  assert (Hb : (sum (map fst sub) < 2 ^ 32)%N).
  { eapply N.le_lt_trans; [|exact Hsum]. by apply sum_sublist. }
  assert (Hcomb : sat (combine_paths (map snd sub)) = true).
  { rewrite combine_paths_sat. apply forallb_elem. intros ps (fp & -> & Hfp)%elem_of_map.
    assert (Hin : fp ∈ List.filter (fun fp => sat (snd fp)) fps) by (by eapply elem_of_sublist).
    by apply elem_of_lfilter in Hin as [_ ?]. }
  apply existsb_elem in Hcomb as (p & Hp & Hps). apply existsb_elem. exists p. split; [|done].
  unfold thresh_paths. apply elem_of_flat_map. exists mask. split; [done|].
  rewrite Hch. unfold subset_paths. rewrite u32_total_eq by lia. rewrite N.add_0_l.
  destruct (N.ltb_spec (sum (map fst sub)) n); [lia|].
  rewrite (proj2 (forallb_elem _ _)); [done|].
  intros w (x & -> & Hx)%elem_of_map. apply N.ltb_lt. specialize (Hmin x Hx).
  assert (fst x <= sum (map fst sub))%N by (apply sum_elem, elem_of_map; eauto).
  unfold u32_sub, wrap32.
  replace (sum (map fst sub) + 2 ^ 32 - fst x)%N with ((sum (map fst sub) - fst x) + 1 * 2 ^ 32)%N by lia.
  rewrite N.Div0.mod_add, N.mod_small; lia.
Qed.
End Threshold.

(** ** The enumeration against the meaning *)

Section Enumeration.
Context (auths : list Authenticator) (proofs : list string) (elapsed : Duration).
Notation sat := (existsb (path_sat proofs elapsed)).

Lemma path_sat_one id hs : path_sat proofs elapsed (mkPath [id] hs None) = has_proof proofs id.
Proof. unfold path_sat, proved. simpl. by rewrite !andb_true_r. Qed.

Lemma auth_paths_sat id w : sat (factor_paths auths (Auth id w)) = factor_sat auths proofs elapsed (Auth id w).
Proof.
  simpl. induction auths as [|a as_ IH]; simpl; [done|].
  destruct (bool_decide (auth_id a = id)); simpl; [|done].
  by rewrite path_sat_one, orb_false_r.
Qed.

Lemma humans_paths_sat w : sat (factor_paths auths (Humans w)) = factor_sat auths proofs elapsed (Humans w).
Proof.
  simpl. induction auths as [|a as_ IH]; simpl; [done|].
  destruct (auth_human a); simpl; [|done]. by rewrite path_sat_one, IH.
Qed.

Lemma sat_weight_mono (R : bool -> bool -> Prop) fs :
  (forall b1 b2 w, R b1 b2 -> ((if b1 then w else 0) <= (if b2 then w else 0))%N) ->
  Forall (fun f => R (sat (factor_paths auths f)) (factor_sat auths proofs elapsed f)) fs ->
  (sat_weight proofs elapsed (map (fun f => (factor_weight f, factor_paths auths f)) fs) <=
   sum (map (fun f => if factor_sat auths proofs elapsed f then factor_weight f else 0%N) fs))%N.
Proof.
  intros HR. unfold sat_weight, sum.
  induction 1 as [|f fs Hf _ IH]; simpl; [lia|]. specialize (HR _ _ (factor_weight f) Hf). lia.
Qed.

Lemma paths_sound :
  (forall g, sat (satisfying_paths auths g) = true -> gate_sat auths proofs elapsed g = true) /\
  (forall f, sat (factor_paths auths f) = true -> factor_sat auths proofs elapsed f = true).
Proof.
  apply gate_factor_ind.
  - intros n fs Hfs Hs. simpl in *. apply thresh_sound in Hs. apply N.leb_le.
    eapply N.le_trans; [exact Hs|]. apply (sat_weight_mono (fun b1 b2 => b1 = true -> b2 = true)); [|done].
    intros [] [] w H; [lia| |lia..]. by discriminate H.
  - done.
  - intros id w. by rewrite auth_paths_sat.
  - intros w. by rewrite humans_paths_sat.
  - done.
  - intros d w. simpl. unfold path_sat, proved. simpl. by rewrite orb_false_r.
Qed.

Lemma paths_complete :
  (forall g, bounded_gate g = true -> gate_sat auths proofs elapsed g = true ->
             sat (satisfying_paths auths g) = true) /\
  (forall f, bounded_factor f = true -> factor_sat auths proofs elapsed f = true ->
             sat (factor_paths auths f) = true).
Proof.
  apply gate_factor_ind.
  - intros n fs Hfs Hb Hs. simpl in *. apply N.leb_le in Hs.
    rewrite !andb_true_iff in Hb. destruct Hb as [[Hlen%Nat.ltb_lt Hsum%N.ltb_lt] Hb].
    apply thresh_complete; [by rewrite length_map|by rewrite map_map|].
    eapply N.le_trans; [exact Hs|]. rewrite forallb_elem in Hb. rewrite Forall_forall in Hfs.
    unfold sat_weight. rewrite map_map. clear Hs Hlen Hsum.
    induction fs as [|f fs IH]; simpl; [done|]. unfold sum in *. simpl.
    assert (H1 : factor_sat auths proofs elapsed f = true -> sat (factor_paths auths f) = true)
      by (apply Hfs; set_solver).
    specialize (IH ltac:(set_solver) ltac:(set_solver)). simpl in IH.
    destruct (factor_sat auths proofs elapsed f); [rewrite H1 by done|]; lia.
  - done.
  - intros id w _. by rewrite auth_paths_sat.
  - intros w _. by rewrite humans_paths_sat.
  - done.
  - intros d w _. simpl. unfold path_sat, proved. simpl. by rewrite orb_false_r.
Qed.
End Enumeration.

(** ** The authenticators and humans of a path *)

Definition published (auths : list Authenticator) (id : string) : bool :=
  existsb (fun a => auth_id a == id) auths.

(** A path's humans are distinct human authenticators of the binding, each among
    the path's authenticators, all of them published and named by the gate or human. *)
Record path_ok (auths : list Authenticator) (ok : string -> Prop) (p : Path) : Prop := mkPathOk {
  ok_nodup : NoDup (path_humans p);
  ok_sub : path_humans p ⊆ path_auths p;
  ok_human : forall h, h ∈ path_humans p -> requester_human auths h = true;
  ok_published : forall a, a ∈ path_auths p -> published auths a = true;
  ok_auths : forall a, a ∈ path_auths p -> ok a;
}.

Lemma path_ok_merge auths ok p q : path_ok auths ok p -> path_ok auths ok q -> path_ok auths ok (merge p q).
Proof.
  intros [] []. split; simpl; [apply NoDup_nub|..];
    (try intros x); rewrite ?elem_of_nub, ?elem_of_app; set_solver.
Qed.

Lemma path_ok_thresh auths ok n fps :
  Forall (fun fp => Forall (path_ok auths ok) (snd fp)) fps -> Forall (path_ok auths ok) (thresh_paths n fps).
Proof.
  intros Hf. apply Forall_forall. intros p Hp. unfold thresh_paths in Hp.
  apply elem_of_flat_map in Hp as (mask & _ & Hp). unfold subset_paths in Hp.
  destruct (_ <? _)%N; [set_solver|]. destruct (negb _); [set_solver|].
  apply combine_paths_elem in Hp as (qs & Hqs & ->).
  assert (Hsub : Forall (fun ps => Forall (path_ok auths ok) ps) (map snd (chosen mask fps))).
  { apply Forall_forall. intros ps (fp & -> & Hfp)%elem_of_map. rewrite Forall_forall in Hf.
    apply Hf. eapply elem_of_sublist; [exact Hfp|apply chosen_sublist]. }
  clear Hf. induction Hqs as [|q ps qs pss Hq Hqs IH]; simpl.
  - split; simpl; [constructor|set_solver..].
  - inversion Hsub as [|? ? H1 H2]; subst. rewrite Forall_forall in H1. by apply path_ok_merge; auto.
Qed.

(** A path uses only authenticators the gate counts as a requester. *)
Lemma paths_ok auths (ok : string -> Prop) :
  (forall g, (forall id, counts_requester auths id g = true -> ok id) ->
             Forall (path_ok auths ok) (satisfying_paths auths g)) /\
  (forall f, (forall id, factor_counts_requester auths id f = true -> ok id) ->
             Forall (path_ok auths ok) (factor_paths auths f)).
Proof.
  apply gate_factor_ind; simpl.
  - intros n fs Hfs Hc. apply path_ok_thresh. rewrite Forall_forall in Hfs.
    apply Forall_forall. intros fp (f & -> & Hf)%elem_of_map. simpl. apply Hfs; [done|].
    intros id Hid. apply Hc, existsb_elem. eauto.
  - auto.
  - intros id w Hc. destruct (List.find _ auths) as [a|] eqn:E; [|constructor].
    apply List.find_some in E as [Ha%list_elem_of_In Hid%bool_decide_eq_true]. subst id.
    constructor; [|constructor].
    assert (Hok : ok (auth_id a)) by (apply Hc; by rewrite bool_decide_eq_true_2).
    assert (Hp : published auths (auth_id a) = true).
    { apply existsb_elem. exists a. by rewrite bool_decide_eq_true_2. }
    assert (Hr : auth_human a = true -> requester_human auths (auth_id a) = true).
    { intros Hh. apply existsb_elem. exists a. by rewrite Hh, bool_decide_eq_true_2. }
    destruct (auth_human a); split; simpl; try apply NoDup_singleton; try apply NoDup_nil_2;
      set_solver.
  - intros w Hc. apply Forall_forall. intros p (a & -> & [Ha Hh]%elem_of_lfilter)%elem_of_map.
    assert (Hr : requester_human auths (auth_id a) = true).
    { apply existsb_elem. exists a. by rewrite Hh, bool_decide_eq_true_2. }
    assert (Hp : published auths (auth_id a) = true).
    { apply existsb_elem. exists a. by rewrite bool_decide_eq_true_2. }
    assert (Hok := Hc _ Hr). split; simpl; [apply NoDup_singleton|set_solver..].
  - auto.
  - intros d w _. constructor; [|constructor]. split; simpl; [apply NoDup_nil_2|set_solver..].
Qed.

Lemma satisfying_paths_ok auths g :
  Forall (path_ok auths (fun id => counts_requester auths id g = true)) (satisfying_paths auths g).
Proof. by apply paths_ok. Qed.

(** ** Minima *)

Section MinList.
Context {A : Type} (f : A -> N) (le : A -> A -> bool).
Hypothesis le_spec : forall x y, le x y = true <-> (f x <= f y)%N.

Lemma min_fold x l :
  foldl (fun m y => if le m y then m else y) x l ∈ x :: l /\
  forall y, y ∈ x :: l -> (f (foldl (fun m y => if le m y then m else y) x l) <= f y)%N.
Proof using le_spec.
  revert x. induction l as [|z l IH]; intros x; simpl.
  - split; [set_solver|]. intros y ->%list_elem_of_singleton. lia.
  - destruct (IH (if le x z then x else z)) as [Hin Hle].
    assert (Hx : (f (if le x z then x else z) <= f x)%N /\ (f (if le x z then x else z) <= f z)%N).
    { destruct (le x z) eqn:E; [apply le_spec in E; lia|].
      apply not_true_iff_false in E. rewrite le_spec in E. lia. }
    split.
    + destruct (le x z); set_solver.
    + intros y Hy. rewrite !elem_of_cons in Hy.
      specialize (Hle (if le x z then x else z) ltac:(set_solver)) as Hm.
      destruct Hy as [->|[->|Hy]]; [lia..|]. apply Hle. set_solver.
Qed.

Lemma min_list_spec l m : min_list le l = Some m -> m ∈ l /\ forall y, y ∈ l -> (f m <= f y)%N.
Proof using le_spec. destruct l as [|x l]; [done|]. intros [= <-]. apply min_fold. Qed.

Lemma min_list_none l : min_list le l = None <-> l = [].
Proof. by destruct l. Qed.
End MinList.

Lemma satisfied_path auths g proofs e :
  satisfied auths g proofs e = existsb (path_sat proofs e) (satisfying_paths auths g).
Proof. done. Qed.

Lemma requester_irrelevant auths requester g :
  counts_requester auths requester g = false ->
  forall proofs elapsed,
    satisfied auths g (requester :: proofs) elapsed = satisfied auths g proofs elapsed.
Proof.
  intros Hc proofs e. assert (Hok := satisfying_paths_ok auths g). rewrite Forall_forall in Hok.
  apply eq_true_iff_eq. rewrite !satisfied_path, !existsb_elem.
  assert (Hp : forall p, p ∈ satisfying_paths auths g ->
    path_sat (requester :: proofs) e p = path_sat proofs e p).
  { intros p Hp. unfold path_sat. f_equal. apply eq_true_iff_eq. rewrite !proved_spec.
    split; [|set_solver]. intros Hsub a Ha.
    destruct (Hok p Hp) as [_ _ _ _ Ha']. specialize (Ha' a Ha).
    apply Hsub, elem_of_cons in Ha as [->|?]; [congruence|done]. }
  split; intros (p & Hin & Hs); exists p; [rewrite <- Hp by done|rewrite Hp by done]; done.
Qed.

Lemma report_exact auths g :
  (forall k proofs elapsed,
     min_distinct_humans (report auths g) = Some k -> satisfied auths g proofs elapsed = true ->
     k <= length (nub (List.filter (requester_human auths) proofs))) /\
  (forall k, min_distinct_humans (report auths g) = Some k ->
     exists p, p ∈ satisfying_paths auths g /\ length (path_humans p) = k) /\
  (satisfiable (report auths g) = true <->
     exists proofs elapsed, satisfied auths g proofs elapsed = true).
Proof.
  assert (Hle : forall x y : nat, Nat.leb x y = true <-> (N.of_nat x <= N.of_nat y)%N).
  { intros x y. rewrite Nat.leb_le. lia. }
  assert (Hok := satisfying_paths_ok auths g). rewrite Forall_forall in Hok.
  unfold report. simpl. repeat split.
  - intros k proofs e Hk. rewrite satisfied_path, existsb_elem. intros (p & Hin & Hs).
    apply (min_list_spec N.of_nat Nat.leb Hle) in Hk as [_ Hk].
    specialize (Hk (length (path_humans p)) ltac:(apply elem_of_map; eauto)).
    destruct (Hok p Hin) as [Hnd Hsub Hhum _ _].
    unfold path_sat in Hs. rewrite andb_true_iff, proved_spec in Hs. destruct Hs as [Hpr _].
    transitivity (length (path_humans p)); [lia|]. apply submseteq_length.
    apply NoDup_submseteq; [done|]. intros h Hh. apply elem_of_nub, elem_of_lfilter.
    split; [set_solver|auto].
  - intros k Hk. apply (min_list_spec N.of_nat Nat.leb Hle) in Hk as [Hk _].
    apply elem_of_map in Hk as (p & -> & Hp). eauto.
  - intros Hs. destruct (satisfying_paths auths g) as [|p ps] eqn:E; [done|].
    exists (path_auths p), (default 0%N (path_wait p)).
    rewrite satisfied_path, E. simpl. apply orb_true_iff. left.
    unfold path_sat. apply andb_true_iff. split; [by apply proved_spec|].
    destruct (path_wait p); [apply N.leb_refl|done].
  - intros (proofs & e & Hs). rewrite satisfied_path in Hs. by destruct (satisfying_paths auths g).
Qed.

(** Without a path of no human, every way of opening a gate has a human's proof. *)
Lemma no_zero_human_path auths g proofs elapsed :
  zero_human_path (report auths g) = false -> satisfied auths g proofs elapsed = true ->
  exists h, h ∈ proofs /\ requester_human auths h = true.
Proof.
  unfold report. simpl. rewrite existsb_false, satisfied_path, existsb_elem.
  intros Hz (p & Hp & Hs). specialize (Hz p Hp).
  assert (Hok := satisfying_paths_ok auths g). rewrite Forall_forall in Hok.
  destruct (Hok p Hp) as [_ Hsub Hhum _ _]. unfold path_sat in Hs.
  rewrite andb_true_iff, proved_spec in Hs. destruct (path_humans p) as [|h hs]; [done|].
  exists h. split; [|apply Hhum; set_solver]. destruct Hs as [Hs _]. set_solver.
Qed.

Lemma satisfied_mono auths g proofs proofs' elapsed elapsed' :
  proofs ⊆ proofs' -> (elapsed <= elapsed')%N ->
  satisfied auths g proofs elapsed = true -> satisfied auths g proofs' elapsed' = true.
Proof.
  intros Hp He. rewrite !satisfied_path, !existsb_elem. intros (p & Hin & Hs). exists p.
  split; [done|]. unfold path_sat in *. rewrite andb_true_iff, proved_spec in *.
  destruct Hs as [Hs Hw]. split; [set_solver|]. destruct (path_wait p); [|done].
  apply N.leb_le. apply N.leb_le in Hw. lia.
Qed.

(** ** Properties *)

(** C36. A gate opens only when the weights of its satisfied factors add up to its
    threshold, at every level and without any bound on the gate; and it opens
    whenever they do, for thresholds of fewer than 64 factors whose weights add up
    within 32 bits. *)
Theorem satisfied_is_the_threshold auths g proofs elapsed :
  (satisfied auths g proofs elapsed = true -> gate_sat auths proofs elapsed g = true) /\
  (bounded_gate g = true -> satisfied auths g proofs elapsed = gate_sat auths proofs elapsed g).
Proof.
  rewrite satisfied_path. split; [apply paths_sound|]. intros Hb.
  apply eq_true_iff_eq. split; [apply paths_sound|by apply paths_complete].
Qed.

(** More proofs and more time never close a gate. *)
Theorem satisfied_monotone auths g proofs proofs' elapsed elapsed' :
  proofs ⊆ proofs' -> (elapsed <= elapsed')%N ->
  satisfied auths g proofs elapsed = true -> satisfied auths g proofs' elapsed' = true.
Proof. apply satisfied_mono. Qed.

(** The four-eyes report is exact. A gate that reports [k] distinct humans
    never opens on the proofs of fewer than [k] human authenticators, however many
    proofs there are and however long it waits; some path opens it with exactly
    [k]; and it is reported unsatisfiable exactly when nothing opens it. *)
Theorem min_distinct_humans_exact auths g :
  (forall k proofs elapsed,
     min_distinct_humans (report auths g) = Some k -> satisfied auths g proofs elapsed = true ->
     k <= length (nub (List.filter (requester_human auths) proofs))) /\
  (forall k, min_distinct_humans (report auths g) = Some k ->
     exists p, p ∈ satisfying_paths auths g /\ length (path_humans p) = k) /\
  (satisfiable (report auths g) = true <->
     exists proofs elapsed, satisfied auths g proofs elapsed = true).
Proof. apply report_exact. Qed.

(** The requester exclusion (E0203): when the check finds that a gate does not
    count the requester, the requester's own proof makes no difference to it, at any
    time and beside any other proofs. *)
Theorem requester_excluded auths requester g :
  counts_requester auths requester g = false ->
  forall proofs elapsed,
    satisfied auths g (requester :: proofs) elapsed = satisfied auths g proofs elapsed.
Proof. apply requester_irrelevant. Qed.

(** The time a gate is announced for is the time it opens: with the proofs it
    has, a gate is satisfied at an elapsed time exactly when [satisfiable_at] gives
    a wait no longer than that. *)
Theorem satisfiable_at_exact auths g proofs elapsed :
  satisfied auths g proofs elapsed = true <->
  exists d, satisfiable_at auths g proofs = Some d /\ (d <= elapsed)%N.
Proof.
  assert (Hle : forall x y : N, N.leb x y = true <-> (x <= y)%N) by (intros; apply N.leb_le).
  assert (Hw : forall p : Path, (match path_wait p with None => true | Some w => (w <=? elapsed)%N end) = true
                         <-> (default 0 (path_wait p) <= elapsed)%N).
  { intros p. destruct (path_wait p); simpl; [apply N.leb_le|split; [lia|done]]. }
  rewrite satisfied_path, existsb_elem. unfold satisfiable_at, path_sat.
  setoid_rewrite andb_true_iff. setoid_rewrite Hw. split.
  - intros (p & Hin & Hpr & Hwait).
    assert (Hmem : default 0%N (path_wait p) ∈ map (fun p => default 0%N (path_wait p))
              (List.filter (proved proofs) (satisfying_paths auths g))).
    { apply elem_of_map. exists p. split; [done|]. by apply elem_of_lfilter. }
    destruct (min_list N.leb _) as [d|] eqn:E.
    + exists d. split; [done|]. apply (min_list_spec id N.leb Hle) in E as [_ E].
      specialize (E _ Hmem). unfold Datatypes.id in E. etransitivity; eassumption.
    + apply min_list_none in E. rewrite E in Hmem. set_solver.
  - intros (d & E & Hd). apply (min_list_spec id N.leb Hle) in E as [E _].
    apply elem_of_map in E as (p & -> & [Hin Hpr]%elem_of_lfilter). eauto.
Qed.

(** ** Witnesses *)

Definition demo_auths : list Authenticator :=
  [mkAuth "alice" true; mkAuth "bob" true; mkAuth "bot" false].
Definition demo_gate : GateExpr :=
  Thresh 2 [Auth "alice" 1; Auth "bob" 1; Group (Thresh 2 [Auth "bot" 1; Wait 60 1]) 1].

Lemma satisfied_is_the_threshold_witness :
  gate_sat demo_auths ["bot"; "bob"] 60 demo_gate = true /\
  satisfied demo_auths demo_gate ["bot"; "bob"] 59 = false.
Proof.
  split.
  - apply (satisfied_is_the_threshold demo_auths demo_gate ["bot"; "bob"] 60). vm_compute. reflexivity.
  - rewrite (proj2 (satisfied_is_the_threshold demo_auths demo_gate ["bot"; "bob"] 59) eq_refl).
    vm_compute. reflexivity.
Defined.

Lemma satisfied_monotone_witness : satisfied demo_auths demo_gate ["bot"; "bob"; "carol"] 61 = true.
Proof.
  apply (satisfied_monotone demo_auths demo_gate ["bot"; "bob"] ["bot"; "bob"; "carol"] 60 61);
    [set_solver|lia|vm_compute; reflexivity].
Defined.

Lemma min_distinct_humans_exact_witness :
  1 <= length (nub (List.filter (requester_human demo_auths) ["bot"; "bob"])).
Proof.
  apply (proj1 (min_distinct_humans_exact demo_auths demo_gate) 1 ["bot"; "bob"] 60%N);
    vm_compute; reflexivity.
Defined.

Lemma requester_excluded_witness :
  satisfied demo_auths (Thresh 1 [Auth "bob" 1; Auth "bot" 1]) ["alice"] 0 = false.
Proof.
  rewrite (requester_excluded demo_auths "alice" (Thresh 1 [Auth "bob" 1; Auth "bot" 1]) eq_refl [] 0).
  vm_compute. reflexivity.
Defined.
