(* ===== verification/Backstop.v ===== *)
(** * Backstops and artifacts

    [core/src/backstop.rs]: which steps a backstop covers, when it is armed, the
    reach rule and the triggers an intent admits; [core/src/artifact.rs]: the
    language a host's artifact is rendered in and which have a template. *)

From Stdlib Require Import Sorted.
From stdpp Require Import base strings pretty numbers option sets gmap list.
From S2P Require Import Prelude Model Algebra Intent.

(** ** Coverage *)

Record Coverage := mkCoverage {
  covered : list N;
  installed_before : option N;
  armed_before_step : N;
  late_arming_window : list N;
}.

Definition target_undo_steps (items : list Item) : list N :=
  filter_map (fun '(n, it) =>
    match op_of it with
    | Some o => if op_undo_locus o == ULTarget then Some n else None
    | None => None
    end) (numbered items).

Definition coverage (p : Plan) : option Coverage :=
  match plan_backstop p with
  | None => None
  | Some b =>
      let cov := target_undo_steps (plan_body p) in
      let a := bs_arm_before b in
      Some {|
        covered := cov;
        installed_before := head cov;
        armed_before_step := a;
        late_arming_window := List.filter (fun n => (n <? a)%N) cov;
      |}
  end.

Definition armed_before (p : Plan) (n : N) : bool :=
  match plan_backstop p with
  | None => false
  | Some b => (bs_arm_before b <=? n)%N
  end.

Definition reach_violations (p : Plan) : list N :=
  filter_map (fun '(n, it) =>
    match op_of it with
    | None => None
    | Some o =>
        if (op_reach o != []) && ((op_undo_locus o != ULTarget) || negb (armed_before p n))
        then Some n else None
    end) (numbered (plan_body p)).

(** ** Triggers *)

Inductive TriggerViolation :=
| AfterNotWane
| TemporaryConfirmed
| PermanentAfter
| NoConfirmOrCommitPath (k : nat).

Definition is_after (t : Trigger) : bool := match t with After _ => true | _ => false end.
Definition is_unless_confirmed (t : Trigger) : bool :=
  match t with UnlessConfirmed _ => true | _ => false end.

Definition disarms (it : Item) : bool :=
  match it with Confirm | Commit => true | _ => false end.

Definition paths_without_disarm (items : list Item) : nat :=
  length (List.filter (fun path => negb (existsb disarms path)) (paths items)).

Definition trigger_violations (intent : Intent) (p : Plan) : list TriggerViolation :=
  match plan_backstop p with
  | None => []
  | Some b =>
      let afters := List.filter is_after (bs_triggers b) in
      match intent with
      | Temporary =>
          if plan_fires_by_construction p then map (fun _ => AfterNotWane) afters
          else
            let wane := effective_wane p in
            map (fun _ => AfterNotWane)
                (List.filter (fun t => match t with After d => Some d != wane | _ => false end)
                             (bs_triggers b))
            ++ map (fun _ => TemporaryConfirmed) (List.filter is_unless_confirmed (bs_triggers b))
            ++ (match afters with [] => [AfterNotWane] | _ => [] end)
      | Permanent =>
          map (fun _ => PermanentAfter) afters
          ++ let k := paths_without_disarm (plan_body p) in
             if (0 <? k) && negb (plan_fires_by_construction p)
             then [NoConfirmOrCommitPath k] else []
      end
  end.

(** [i.seconds * 3] is an unchecked [u64] product. *)
Definition heartbeat_violations (p : Plan) : list Trigger :=
  match plan_backstop p with
  | None => []
  | Some b =>
      List.filter (fun t =>
        match t with
        | UnlessHeartbeat deadline (Some i) => (deadline <? u64_mul i 3)%N
        | _ => false
        end) (bs_triggers b)
  end.

(** ** Artifact languages *)

Inductive Shell := ShellPosix | ShellPowershell.

#[export] Instance Shell_eq_dec : EqDecision Shell. Proof. solve_decision. Defined.

Definition shell_of (os : string) : Shell :=
  if os == "windows" then ShellPowershell else ShellPosix.

Definition default_language (os : string) : ArtifactLanguage :=
  match shell_of os with
  | ShellPosix => Sh
  | ShellPowershell => Powershell
  end.

Definition language_of (h : HostRecord) : ArtifactLanguage :=
  match hr_artifact h with
  | Some l => l
  | None => default_language (hr_os h)
  end.

Definition supported (os : string) (language : ArtifactLanguage) : bool :=
  match language with
  | Sh => shell_of os == ShellPosix
  | Powershell => shell_of os == ShellPowershell
  | Python => true
  end.

(** ** Lemmas *)

Lemma target_undo_steps_elem items n :
  n ∈ target_undo_steps items <->
  exists it o, (n, it) ∈ numbered items /\ op_of it = Some o /\ op_undo_locus o = ULTarget.
Proof.
  unfold target_undo_steps. rewrite elem_of_filter_map. split.
  - intros ([m it] & Hin & H). destruct (op_of it) as [o|] eqn:E; [|done].
    case_bool_decide; simplify_eq. eauto.
  - intros (it & o & Hin & E & Hl). exists (n, it). split; [done|].
    by rewrite E, (bool_decide_eq_true_2 _ Hl).
Qed.

(** Numbers kept from a numbering are strictly increasing. *)
Lemma number_from_kept_sorted (keep : Item -> bool) ls n :
  StronglySorted N.lt
    (filter_map (fun '(m, it) => if keep it then Some m else None) (number_from n ls)).
Proof.
  revert n. induction ls as [|it ls IH]; intros n; simpl; [constructor|].
  destruct (keep it); [|apply IH]. constructor; [apply IH|].
  apply Forall_forall. intros m Hm. apply elem_of_filter_map in Hm as ([k it'] & Hin & Hk).
  apply number_from_bound in Hin. destruct (keep it'); simplify_eq. lia.
Qed.

Lemma target_undo_steps_sorted items : StronglySorted N.lt (target_undo_steps items).
Proof.
  unfold target_undo_steps.
  rewrite (filter_map_ext _ (fun '(m, it) =>
    if match op_of it with Some o => op_undo_locus o == ULTarget | None => false end
    then Some m else None)); [apply number_from_kept_sorted|].
  intros [m it] _. by destruct (op_of it).
Qed.

Lemma paths_without_disarm_zero items :
  paths_without_disarm items = 0 <->
  forall path, path ∈ paths items -> exists it, it ∈ path /\ disarms it = true.
Proof.
  unfold paths_without_disarm. rewrite length_zero_iff_nil, filter_nil_iff.
  setoid_rewrite negb_false_iff. by setoid_rewrite existsb_elem.
Qed.

Lemma reach_violations_elem p n :
  n ∈ reach_violations p <->
  exists it o, (n, it) ∈ numbered (plan_body p) /\ op_of it = Some o /\ op_reach o <> [] /\
               (op_undo_locus o <> ULTarget \/ armed_before p n = false).
Proof.
  unfold reach_violations. rewrite elem_of_filter_map. split.
  - intros ([m it] & Hin & H). destruct (op_of it) as [o|] eqn:E; [|done].
    destruct (_ && _) eqn:Ec in H; simplify_eq. exists it, o.
    rewrite andb_true_iff, orb_true_iff, !negb_true_iff, !bool_decide_eq_false in Ec. naive_solver.
  - intros (it & o & Hin & E & Hr & Hor). exists (n, it). split; [done|]. rewrite E.
    rewrite (bool_decide_eq_false_2 _ Hr). simpl. destruct Hor as [Hl|Ha].
    + by rewrite (bool_decide_eq_false_2 _ Hl).
    + by rewrite Ha, orb_true_r.
Qed.

Lemma reach_violations_nil p :
  reach_violations p = [] <->
  forall n it o, (n, it) ∈ numbered (plan_body p) -> op_of it = Some o -> op_reach o <> [] ->
    exists c, coverage p = Some c /\ n ∈ covered c /\ ~ n ∈ late_arming_window c.
Proof.
  split.
  - intros Hv n it o Hin Ho Hr.
    assert (Hn : ~ n ∈ reach_violations p) by (rewrite Hv; set_solver).
    rewrite reach_violations_elem in Hn.
    destruct (decide (op_undo_locus o = ULTarget)) as [Hl|Hl]; [|naive_solver].
    destruct (armed_before p n) eqn:Ha; [|naive_solver].
    unfold armed_before, coverage in *. destruct (plan_backstop p) as [b|]; [|done].
    eexists. split; [reflexivity|]. simpl. rewrite elem_of_lfilter, target_undo_steps_elem.
    split; [eauto|]. apply N.leb_le in Ha. intros [_ Hlt%N.ltb_lt]. lia.
  - intros H. destruct (reach_violations p) as [|n ns] eqn:E; [done|]. exfalso.
    assert (Hn : n ∈ reach_violations p) by (rewrite E; set_solver).
    apply reach_violations_elem in Hn as (it & o & Hin & Ho & Hr & Hor).
    destruct (H n it o Hin Ho Hr) as (c & Hc & Hcov & Hlate).
    unfold coverage, armed_before in *. destruct (plan_backstop p) as [b|]; [|done].
    simplify_eq/=. rewrite elem_of_lfilter in Hlate. destruct Hor as [Hl|Ha].
    + apply target_undo_steps_elem in Hcov as (it' & o' & Hin' & Ho' & Hl').
      assert (it' = it) by (eapply number_from_fun; eauto). congruence.
    + apply N.leb_gt in Ha. apply Hlate. split; [done|by apply N.ltb_lt].
Qed.

(** ** Properties *)

(** What a backstop covers: exactly the steps with a [:target] undo, in
    increasing order; it is installed before the first of them, so before any of
    them runs, and the late-arming window is the covered steps that come before the
    step it is armed at. *)
Theorem coverage_exact p c :
  coverage p = Some c ->
  (forall n, n ∈ covered c <->
     exists it o, (n, it) ∈ numbered (plan_body p) /\ op_of it = Some o /\ op_undo_locus o = ULTarget) /\
  StronglySorted N.lt (covered c) /\
  (installed_before c = None <-> covered c = []) /\
  (forall i, installed_before c = Some i -> i ∈ covered c /\ forall n, n ∈ covered c -> (i <= n)%N) /\
  (forall n, n ∈ late_arming_window c <-> n ∈ covered c /\ (n < armed_before_step c)%N).
Proof.
  unfold coverage. destruct (plan_backstop p) as [b|]; [|done]. intros [= <-]. simpl.
  assert (Hs := target_undo_steps_sorted (plan_body p)).
  split; [apply target_undo_steps_elem|]. split; [done|].
  split; [by destruct (target_undo_steps _)|]. split.
  - destruct Hs as [|x l Hs Hx]; [done|]. intros i [= <-]. split; [set_solver|].
    intros n [->|Hn]%elem_of_cons; [lia|]. rewrite Forall_forall in Hx. specialize (Hx n Hn). lia.
  - intros n. rewrite elem_of_lfilter, N.ltb_lt. done.
Qed.

(** The reach rule (E0401): when the check reports no violation, every step that
    declares what it may cut off is covered by a backstop that is already armed
    when the step runs, so losing the target at that step still undoes it; and a
    violation is reported for every step of which that does not hold. *)
Theorem reach_rule p :
  reach_violations p = [] <->
  forall n it o, (n, it) ∈ numbered (plan_body p) -> op_of it = Some o -> op_reach o <> [] ->
    exists c, coverage p = Some c /\ n ∈ covered c /\ ~ n ∈ late_arming_window c.
Proof. apply reach_violations_nil. Qed.

(** The trigger rules (E0503, E0504). A temporary plan's backstop is accepted
    exactly when it has a timer, every timer is the plan's wane and it waits for no
    confirmation, or, for a plan that fires by construction, when it has no timer; a
    permanent plan's exactly when it has no timer and either fires by construction
    or every path through the plan reaches a confirm or a commit. *)
Theorem trigger_rules p b :
  plan_backstop p = Some b ->
  (trigger_violations Temporary p = [] <->
   if plan_fires_by_construction p then forall d, ~ After d ∈ bs_triggers b
   else (exists d, After d ∈ bs_triggers b) /\
        (forall d, After d ∈ bs_triggers b -> effective_wane p = Some d) /\
        (forall d, ~ UnlessConfirmed d ∈ bs_triggers b)) /\
  (trigger_violations Permanent p = [] <->
   (forall d, ~ After d ∈ bs_triggers b) /\
   (plan_fires_by_construction p = true \/
    forall path, path ∈ paths (plan_body p) -> exists it, it ∈ path /\ disarms it = true)).
Proof.
  intros Hb. unfold trigger_violations. rewrite Hb.
  assert (Hafter : List.filter is_after (bs_triggers b) = [] <-> forall d, ~ After d ∈ bs_triggers b).
  { rewrite filter_nil_iff. split; [intros H d Hd; by apply H in Hd|].
    intros H [d| |] Ht; [by apply H in Ht|done..]. }
  split.
  - destruct (plan_fires_by_construction p).
    + by rewrite <- Hafter, map_nil_iff.
    + rewrite !app_nil_iff, !map_nil_iff, !filter_nil_iff. split.
      * intros (H1 & H2 & H3). split_and!.
        -- destruct (List.filter is_after (bs_triggers b)) as [|t ts] eqn:E; [done|].
           assert (Ht : t ∈ List.filter is_after (bs_triggers b)) by (rewrite E; set_solver).
           apply elem_of_lfilter in Ht as [Ht Ha]. destruct t; [eauto|done..].
        -- intros d Hd. specialize (H1 _ Hd). by apply negb_false_iff, bool_decide_eq_true in H1.
        -- intros d Hd. by specialize (H2 _ Hd).
      * intros ([d Hd] & H2 & H3). split_and!.
        -- intros [d'| |] Ht; [|done..]. apply negb_false_iff, bool_decide_eq_true. by rewrite (H2 d').
        -- intros [ |d'|] Ht; [done| |done]. by apply H3 in Ht.
        -- destruct (List.filter is_after (bs_triggers b)) eqn:E; [|done].
           exfalso. by apply (proj1 Hafter eq_refl d).
  - rewrite app_nil_iff, map_nil_iff, Hafter, <- paths_without_disarm_zero.
    destruct (paths_without_disarm (plan_body p)), (plan_fires_by_construction p); simpl;
      naive_solver.
Qed.

(** The heartbeat rule (E0405): an interval is reported exactly when three of
    them do not fit the deadline, for intervals whose triple fits 64 bits. *)
Theorem heartbeat_rule p b t :
  plan_backstop p = Some b ->
  (forall d i, UnlessHeartbeat d (Some i) ∈ bs_triggers b -> is_u64 (i * 3)) ->
  t ∈ heartbeat_violations p <->
  exists d i, t = UnlessHeartbeat d (Some i) /\ t ∈ bs_triggers b /\ (d < 3 * i)%N.
Proof.
  intros Hb Hw. unfold heartbeat_violations. rewrite Hb, elem_of_lfilter. split.
  - intros [Ht Hc]. destruct t as [|?|d [i|]]; try done. exists d, i.
    apply N.ltb_lt in Hc. unfold u64_mul, wrap64 in Hc.
    rewrite N.mod_small in Hc by (apply (Hw d); done). repeat split; [done|lia].
  - intros (d & i & -> & Ht & Hlt). split; [done|]. apply N.ltb_lt.
    unfold u64_mul, wrap64. rewrite N.mod_small by (apply (Hw d); done). lia.
Qed.

(** A host that declares no artifact language gets one that has a template for
    its system, and Python has one everywhere; the shell of the other family never
    does. *)
Theorem artifact_language_supported h os :
  (hr_artifact h = None -> supported (hr_os h) (language_of h) = true) /\
  supported os Python = true /\
  supported os Sh = negb (supported os Powershell).
Proof.
  unfold supported, language_of, default_language, shell_of. split_and!; [|done|].
  - intros ->. by destruct (hr_os h == "windows").
  - by destruct (os == "windows").
Qed.

(** The interval of E0405 is compared after an unchecked product: past [2^64 / 3]
    seconds it wraps, and an interval far above the deadline goes unreported. *)
Example heartbeat_wraps :
  heartbeat_violations
    (sample_plan None (Some (mkBackstop [UnlessHeartbeat 60 (Some 6148914691236517206%N)] 1)) []) = [].
Proof. vm_compute. reflexivity. Qed.

(** ** Witnesses *)

Definition demo_backstop : Backstop :=
  mkBackstop [After 3600; UnlessHeartbeat 60 (Some 30%N)] 2.

Definition demo_net_step : Item :=
  Step (step_new (sample_op "net" [entry Modified "/etc/net"] [] Restore ULTarget ["ssh"])).

Definition demo_covered : Plan :=
  sample_plan (Some 3600%N) (Some demo_backstop)
    [Step (step_new (op_new "note" [])); demo_net_step; demo_net_step].

Lemma coverage_exact_witness : StronglySorted N.lt [2%N; 3%N].
Proof.
  exact (proj1 (proj2 (coverage_exact demo_covered (mkCoverage [2; 3] (Some 2) 2 [])%N eq_refl))).
Defined.

Lemma reach_rule_witness :
  exists c, coverage demo_covered = Some c /\ 3%N ∈ covered c /\ ~ 3%N ∈ late_arming_window c.
Proof.
  apply (proj1 (reach_rule demo_covered) eq_refl 3%N demo_net_step
    (sample_op "net" [entry Modified "/etc/net"] [] Restore ULTarget ["ssh"])); [|reflexivity|done].
  apply numbered_elem. split; [lia|reflexivity].
Defined.

Lemma trigger_rules_witness :
  trigger_violations Temporary demo_covered = [] /\ effective_wane demo_covered = Some 3600%N.
Proof.
  split; [reflexivity|].
  apply (proj1 (proj1 (trigger_rules demo_covered demo_backstop eq_refl)) eq_refl). set_solver.
Defined.

Lemma heartbeat_rule_witness :
  UnlessHeartbeat 60 (Some 30%N) ∈ heartbeat_violations demo_covered.
Proof.
  apply (heartbeat_rule demo_covered demo_backstop); [reflexivity| |].
  - intros d i Hi. unfold demo_backstop in Hi. simpl in Hi.
    rewrite !elem_of_cons in Hi. destruct Hi as [Hi|[Hi|Hi]]; [discriminate| |by apply not_elem_of_nil in Hi].
    injection Hi as -> ->. reflexivity.
  - exists 60%N, 30%N. split; [reflexivity|]. split; [set_solver|lia].
Defined.

Lemma artifact_language_supported_witness :
  supported "freebsd" (language_of (mkHostRecord "h" "freebsd" [] true true None)) = true.
Proof.
  exact (proj1 (artifact_language_supported (mkHostRecord "h" "freebsd" [] true true None) "linux") eq_refl).
Defined.
