(* ===== verification/Secrets.v ===== *)
(** * Secret placement and closure

    [core/src/secrets.rs]: where a secret reference stands in a body. The searches
    return the first occurrence; [placed] says what an occurrence is, without
    searching, and each search finds one exactly when there is one in the positions
    it looks at. Then the closure of a [:target] undo ([closure.rs]). *)

From stdpp Require Import base strings pretty numbers option sets gmap list.
From S2P Require Import Prelude Model Interference.

Record Found := mkFound { found_index : nat; found_position : string; found_ref : Ref }.

Definition positions (p : Prim) : list (string * Value) :=
  match p with
  | PRun r =>
      [("cmd", VTemplate (run_cmd r))]
      ++ map (fun e => ("env", ev_value e)) (run_env r)
      ++ match run_stdin r with Some s => [("stdin", s)] | None => [] end
  | PWrite w => [("content", write_content w)]
  | PRemove _ | PRegionClear _ | PInstall _ | PRelease _ => []
  | PAppend a => [("line", append_line a)]
  | PRegionSet r => [("content", rs_content r)]
  | PStage s => [("content", stage_content s)]
  | PHook h => map (fun a => ("arg", kw_value a)) (hook_args h)
  | PCall c =>
      [("cmd", VTemplate (call_run c))] ++ map (fun a => ("arg", ca_value a)) (call_args c)
  end.

Definition first_secret (index : nat) (position : string) (v : Value) : option Found :=
  option_map (fun r => mkFound index position r) (List.find ref_is_secret (value_refs v)).

Fixpoint enumerate_from {A} (i : nat) (l : list A) : list (nat * A) :=
  match l with
  | [] => []
  | x :: l' => (i, x) :: enumerate_from (S i) l'
  end.

(** [body.iter().enumerate()] *)
Definition enumerate {A} (l : list A) : list (nat * A) := enumerate_from 0 l.

(** The search the three functions share, over the positions that [keep] admits. *)
Definition search (keep : string -> bool) (body : Body) : option Found :=
  find_map (fun '(i, p) =>
    find_map (fun '(pos, v) => first_secret i pos v)
             (List.filter (fun '(pos, _) => keep pos) (positions p))) (enumerate body).

Definition anywhere (body : Body) : option Found := search (fun _ => true) body.
Definition in_run_string (body : Body) : option Found := search (fun pos => pos == "cmd") body.
Definition in_channel (body : Body) : option Found :=
  search (fun pos => (pos == "env") || (pos == "stdin")) body.

Fixpoint position_from {A} (f : A -> bool) (i : nat) (l : list A) : option nat :=
  match l with
  | [] => None
  | x :: l' => if f x then Some i else position_from f (S i) l'
  end.

Definition reruns (do_ reestablish : Body) : option nat :=
  position_from (fun p => bool_decide (p ∈ do_)) 0 reestablish.

(** ** What an occurrence is *)

(** A secret reference standing in a position of a body's primitive. *)
Definition placed (body : Body) (f : Found) : Prop :=
  exists p v, body !! found_index f = Some p /\ (found_position f, v) ∈ positions p /\
              found_ref f ∈ value_refs v /\ ref_is_secret (found_ref f) = true.

Lemma enumerate_from_elem {A} (l : list A) i j x :
  (j, x) ∈ enumerate_from i l <-> i <= j /\ l !! (j - i) = Some x.
Proof.
  revert i. induction l as [|y l IH]; intros i; simpl.
  - rewrite lookup_nil. set_solver.
  - rewrite elem_of_cons, IH. split.
    + intros [[= -> ->]|[Hle Hl]]; [by rewrite Nat.sub_diag|].
      split; [lia|]. by replace (j - i) with (S (j - S i)) by lia.
    + intros [Hle Hl]. destruct (decide (j = i)) as [->|Hne].
      * rewrite Nat.sub_diag in Hl. simpl in Hl. left. congruence.
      * right. split; [lia|]. by replace (j - i) with (S (j - S i)) in Hl by lia.
Qed.

Lemma enumerate_elem {A} (l : list A) j x : (j, x) ∈ enumerate l <-> l !! j = Some x.
Proof.
  unfold enumerate. rewrite enumerate_from_elem, Nat.sub_0_r. naive_solver lia.
Qed.

Lemma first_secret_Some i pos v f :
  first_secret i pos v = Some f ->
  found_index f = i /\ found_position f = pos /\ found_ref f ∈ value_refs v /\
  ref_is_secret (found_ref f) = true.
Proof.
  unfold first_secret. destruct (List.find _ _) as [r|] eqn:E; [|done]. intros [= <-]. simpl.
  apply List.find_some in E as [Hr%list_elem_of_In Hs]. auto.
Qed.

Lemma first_secret_None i pos v :
  first_secret i pos v = None <-> forall r, r ∈ value_refs v -> ref_is_secret r = false.
Proof.
  unfold first_secret. split.
  - destruct (List.find _ _) as [r|] eqn:E; [done|]. intros _ r Hr%list_elem_of_In.
    by apply (List.find_none _ _ E).
  - intros H. destruct (List.find _ _) as [r|] eqn:E; [|done].
    apply List.find_some in E as [Hr%list_elem_of_In Hs]. by rewrite H in Hs.
Qed.

Lemma search_Some keep body f :
  search keep body = Some f -> keep (found_position f) = true /\ placed body f.
Proof.
  unfold search. intros ([i p] & Hin & H)%find_map_Some.
  apply find_map_Some in H as ([pos v] & Hpos & H).
  apply first_secret_Some in H as (<- & <- & Hr & Hs).
  apply elem_of_lfilter in Hpos as [Hpos Hk]. split; [done|].
  exists p, v. by apply enumerate_elem in Hin.
Qed.

Lemma search_None keep body :
  search keep body = None <-> forall f, placed body f -> keep (found_position f) = false.
Proof.
  split.
  - unfold search. rewrite find_map_None. intros H f (p & v & Hp & Hpos & Hr & Hs).
    specialize (H (found_index f, p)). simpl in H.
    rewrite find_map_None in H. destruct (keep (found_position f)) eqn:Ek; [|done].
    specialize (H ltac:(by apply enumerate_elem) (found_position f, v)). simpl in H.
    rewrite first_secret_None in H. rewrite H in Hs; [done| |done]. by apply elem_of_lfilter.
  - intros H. destruct (search keep body) as [f|] eqn:E; [|done].
    apply search_Some in E as [Hk Hp]. by rewrite H in Hk.
Qed.

Lemma position_from_spec {A} (f : A -> bool) l i :
  match position_from f i l with
  | Some j => i <= j /\ exists x, l !! (j - i) = Some x /\ f x = true
              /\ forall k y, k < j - i -> l !! k = Some y -> f y = false
  | None => forall x, x ∈ l -> f x = false
  end.
Proof.
  revert i. induction l as [|x l IH]; intros i; simpl; [set_solver|].
  destruct (f x) eqn:E.
  - rewrite Nat.sub_diag. simpl. split; [lia|]. exists x. repeat split; [done|]. lia.
  - specialize (IH (S i)). destruct (position_from f (S i) l) as [j|].
    + destruct IH as (Hle & y & Hy & Hfy & Hbefore). split; [lia|]. exists y.
      replace (j - i) with (S (j - S i)) by lia. split; [done|]. split; [done|].
      intros [|k] z Hk Hz; simpl in Hz; [congruence|]. apply (Hbefore k); [lia|done].
    + set_solver.
Qed.

(** A primitive's references are those of its positions. *)
Lemma prim_refs_positions p r :
  r ∈ prim_refs p <-> exists pos v, (pos, v) ∈ positions p /\ r ∈ value_refs v.
Proof.
  assert (Hnil : r ∈ (@nil Ref) <-> exists pos v, (pos, v) ∈ (@nil (string * Value)) /\ r ∈ value_refs v)
    by set_solver.
  assert (Hone : forall (s : string) v0, r ∈ value_refs v0 <->
            exists pos v, (pos, v) ∈ [(s, v0)] /\ r ∈ value_refs v) by set_solver.
  assert (Happ : forall l k (ps qs : list (string * Value)),
    (r ∈ l <-> exists pos v, (pos, v) ∈ ps /\ r ∈ value_refs v) ->
    (r ∈ k <-> exists pos v, (pos, v) ∈ qs /\ r ∈ value_refs v) ->
    (r ∈ l ++ k <-> exists pos v, (pos, v) ∈ ps ++ qs /\ r ∈ value_refs v)).
  { intros l k ps qs H1 H2. rewrite elem_of_app, H1, H2. setoid_rewrite elem_of_app. naive_solver. }
  assert (Hmap : forall {A} (g : A -> Value) (s : string) l,
    r ∈ flat_map (fun a => value_refs (g a)) l <->
    exists pos v, (pos, v) ∈ map (fun a => (s, g a)) l /\ r ∈ value_refs v).
  { intros A g s l. rewrite elem_of_flat_map. setoid_rewrite elem_of_map. naive_solver. }
  destruct p as [[cmd env [s|]]|[]|[]|[]|[]|[]|[]|[]|[]|[]|[]]; simpl; auto.
  - apply (Happ _ _ [_]); [apply (Hone _ (VTemplate _))|]. apply Happ; [apply Hmap|apply Hone].
  - apply (Happ _ _ [_]); [apply (Hone _ (VTemplate _))|]. apply Happ; [apply Hmap|apply Hnil].
  - apply (Happ _ _ [_]); [apply (Hone _ (VTemplate _))|]. apply Hmap.
Qed.

(** ** Properties *)

(** The secret searches are exact (E0209, E0210, E0211): what a search reports
    is a secret reference standing at that primitive and position, and a search that
    reports nothing means no secret stands in the positions it covers: in any
    position at all, in the string of a [run] or a [call], in [env:] or [stdin:]. *)
Theorem secret_searches_exact body :
  (forall f, anywhere body = Some f -> placed body f) /\
  (anywhere body = None <-> forall p r, p ∈ body -> r ∈ prim_refs p -> ref_is_secret r = false) /\
  (forall f, in_run_string body = Some f -> found_position f = "cmd" /\ placed body f) /\
  (in_run_string body = None <-> forall f, placed body f -> found_position f <> "cmd") /\
  (forall f, in_channel body = Some f ->
     (found_position f = "env" \/ found_position f = "stdin") /\ placed body f) /\
  (in_channel body = None <->
     forall f, placed body f -> found_position f <> "env" /\ found_position f <> "stdin").
Proof.
  unfold anywhere, in_run_string, in_channel. rewrite !search_None. split_and!.
  - intros f H. by apply search_Some in H as [_ H].
  - split.
    + intros H p r Hp Hr. apply prim_refs_positions in Hr as (pos & v & Hpos & Hr).
      apply list_elem_of_lookup_1 in Hp as [i Hi].
      destruct (ref_is_secret r) eqn:Es; [|done].
      assert (true = false); [|done]. apply (H (mkFound i pos r)). by exists p, v.
    + intros H f (p & v & Hp & Hpos & Hr & Hs). rewrite (H p) in Hs; [done| |].
      * by eapply list_elem_of_lookup_2.
      * apply prim_refs_positions. eauto.
  - intros f [Hk Hp]%search_Some. by apply bool_decide_eq_true in Hk.
  - setoid_rewrite bool_decide_eq_false. done.
  - intros f [Hk Hp]%search_Some. by rewrite orb_true_iff, !bool_decide_eq_true in Hk.
  - setoid_rewrite orb_false_iff. setoid_rewrite bool_decide_eq_false. done.
Qed.

(** A [reestablish] that repeats a [do] primitive is found (E0206), at its first
    repeated primitive, and one that is passed repeats none. *)
Theorem reruns_exact do_ reestablish :
  match reruns do_ reestablish with
  | Some i => exists p, reestablish !! i = Some p /\ p ∈ do_ /\
                forall j q, j < i -> reestablish !! j = Some q -> ~ q ∈ do_
  | None => forall p, p ∈ reestablish -> ~ p ∈ do_
  end.
Proof.
  unfold reruns. assert (H := position_from_spec (fun p => bool_decide (p ∈ do_)) reestablish 0).
  destruct (position_from _ 0 reestablish) as [i|].
  - destruct H as (_ & p & Hp & Hin & Hb). rewrite Nat.sub_0_r in Hp, Hb. exists p.
    apply bool_decide_eq_true in Hin. split; [done|]. split; [done|].
    intros j q Hj Hq. by apply (bool_decide_eq_false_1 _ (Hb j q Hj Hq)).
  - intros p Hp. by apply (bool_decide_eq_false_1 _ (H p Hp)).
Qed.

(** ** Witnesses *)

Definition demo_secret_body : Body :=
  [run_lit "true"; PRun (mkRun [PLit "use "; PRef (RSecret "vault.key")] [] None)].

Lemma secret_searches_exact_witness :
  placed demo_secret_body (mkFound 1 "cmd" (RSecret "vault.key")).
Proof.
  apply (proj1 (secret_searches_exact demo_secret_body)). vm_compute. reflexivity.
Defined.

(** ** Closure of a [:target] undo

    [core/src/closure.rs] (E0202): the undo body may reference only what the target
    itself can supply, so that a backstop artifact can carry it out with the engine
    dead. [bake] gives references their values; a body the analysis passes bakes the
    same whatever values the controller-side references have, and holds no
    controller primitive and no fact bound at run time. *)

Inductive Unclosed :=
| ControllerPrim (index : nat) (prim : string)
| ControllerRef (index : nat) (position : string) (r : Ref)
| RuntimeShape (index : nat) (shape : string)
| HeldRestore (shape : string).

Definition describe (u : Unclosed) : string :=
  match u with
  | ControllerPrim index prim =>
      concats [prim; " is a controller primitive (prim "; show_nat (index + 1); ")"]
  | ControllerRef index position r =>
      let what := match r with
                  | ROutput _ _ _ => "an earlier step's output"
                  | RController _ => "a controller value"
                  | RSecret _ => "a secret"
                  | RFact _ | RParam _ | RHost _ => "target-local"
                  end in
      concats [ref_label r; " is "; what; " ("; position; ", prim "; show_nat (index + 1); ")"]
  | RuntimeShape index shape =>
      concats [shape; " is bound at runtime (prim "; show_nat (index + 1); ")"]
  | HeldRestore shape => shape +:+ " is held; its release is controller work"
  end.

Definition check_refs (index : nat) (position : string) (v : Value) : list Unclosed :=
  map (ControllerRef index position)
      (List.filter (fun r => negb (ref_target_local r) && negb (ref_is_secret r)) (value_refs v)).

Definition check_fact (index : nat) (f : FactRef) : list Unclosed :=
  if runtime_bound (fr_shape f) then [RuntimeShape index (fr_shape f)] else [].

(** One turn of the loop over the body. *)
Definition unclosed_prim (index : nat) (p : Prim) : list Unclosed :=
  match p with
  | PRun r =>
      check_refs index "cmd" (VTemplate (run_cmd r))
      ++ flat_map (fun e => check_refs index "env" (ev_value e)) (run_env r)
      ++ match run_stdin r with Some s => check_refs index "stdin" s | None => [] end
  | PWrite w => check_fact index (write_fact w) ++ check_refs index "content" (write_content w)
  | PRemove r => check_fact index (remove_fact r)
  | PAppend a => check_fact index (append_fact a) ++ check_refs index "line" (append_line a)
  | PRegionSet r => check_fact index (rs_fact r) ++ check_refs index "content" (rs_content r)
  | PRegionClear r => check_fact index (rc_fact r)
  | PStage s => check_refs index "content" (stage_content s)
  | PHook _ | PInstall _ | PRelease _ => [ControllerPrim index (prim_name p)]
  | PCall c =>
      (if existsb (fun a => ca_class a == ControllerArg) (call_args c)
       then [ControllerPrim index "call"] else [])
      ++ check_refs index "cmd" (VTemplate (call_run c))
      ++ flat_map (fun a => check_refs index "arg" (ca_value a)) (call_args c)
  end.

Definition unclosed_body (body : Body) : list Unclosed :=
  flat_map (fun '(index, p) => unclosed_prim index p) (enumerate body).

Definition unclosed_entry (index : nat) (e : FootprintEntry) : list Unclosed :=
  (if runtime_bound (fp_shape e) then [RuntimeShape index (fp_shape e)] else [])
  ++ (if fp_kind e == Held then [HeldRestore (fp_shape e)] else []).

Definition unclosed_undo (o : Op) : list Unclosed :=
  match op_undo o with
  | Restore => flat_map (fun '(index, e) => unclosed_entry index e) (enumerate (op_footprint o))
  | Computed body _ | Compensate body _ => unclosed_body body
  | NoUndo => []
  end.

(** ** Baking *)

Section Bake.
Context (env : Ref -> string).

Definition part_text (p : Part) : string := match p with PLit s => s | PRef r => env r end.
Definition template_text (t : Template) : string := concats (map part_text t).

Definition value_text (v : Value) : string :=
  match v with
  | VLit s => s
  | VRef r => env r
  | VTemplate t => template_text t
  end.

(** A primitive with the text of every reference written in. *)
Definition bake (p : Prim) : Prim :=
  match p with
  | PRun r => PRun (mkRun [PLit (template_text (run_cmd r))]
                          (map (fun e => mkEnvVar (ev_name e) (VLit (value_text (ev_value e)))) (run_env r))
                          (option_map (fun s => VLit (value_text s)) (run_stdin r)))
  | PWrite w => PWrite (mkWrite (write_fact w) (VLit (value_text (write_content w))))
  | PRemove r => PRemove r
  | PAppend a => PAppend (mkAppend (append_fact a) (VLit (value_text (append_line a))))
  | PRegionSet r => PRegionSet (mkRegionSet (rs_fact r) (VLit (value_text (rs_content r))))
  | PRegionClear r => PRegionClear r
  | PStage s => PStage (mkStage (stage_name s) (VLit (value_text (stage_content s))) (stage_mode s))
  | PHook h => PHook (mkHook (hook_name h)
                 (map (fun a => mkKwArg (kw_name a) (VLit (value_text (kw_value a)))) (hook_args h)))
  | PInstall i => PInstall i
  | PRelease r => PRelease r
  | PCall c => PCall (mkCall (call_prim c) [PLit (template_text (call_run c))]
                 (map (fun a => mkClassedArg (ca_name a) (ca_class a) (VLit (value_text (ca_value a))))
                      (call_args c)))
  end.
End Bake.

(** What only the controller can do. *)
Definition controller_prim (p : Prim) : bool :=
  match p with
  | PHook _ | PInstall _ | PRelease _ => true
  | PCall c => existsb (fun a => ca_class a == ControllerArg) (call_args c)
  | _ => false
  end.

(** The facts a primitive addresses by shape. *)
Definition prim_facts (p : Prim) : list FactRef :=
  match p with
  | PWrite w => [write_fact w]
  | PRemove r => [remove_fact r]
  | PAppend a => [append_fact a]
  | PRegionSet r => [rs_fact r]
  | PRegionClear r => [rc_fact r]
  | _ => []
  end.

(** ** Lemmas *)

Lemma value_text_agree env env' v :
  (forall r, r ∈ value_refs v -> env r = env' r) -> value_text env v = value_text env' v.
Proof.
  destruct v as [s|r|t]; simpl; [done|set_solver|]. intros H. unfold template_text. f_equal.
  induction t as [|[s|r] t IH]; simpl in *; [done| |]; rewrite IH by set_solver; [done|].
  f_equal. set_solver.
Qed.

Lemma map_agree {A B} (f g : A -> B) l : (forall x, x ∈ l -> f x = g x) -> map f l = map g l.
Proof. intros H. apply map_ext_in. intros x Hx%list_elem_of_In. auto. Qed.

Lemma bake_agree env env' p : (forall r, r ∈ prim_refs p -> env r = env' r) -> bake env p = bake env' p.
Proof.
  assert (Ht : forall t, (forall r, r ∈ template_refs t -> env r = env' r) ->
                         template_text env t = template_text env' t).
  { intros t. apply (value_text_agree env env' (VTemplate t)). }
  assert (Hv := value_text_agree env env').
  destruct p as [r|w|r|a|r|r|s|h|i|r|c]; simpl; intros H; try done; try (by rewrite Hv).
  - rewrite Ht by set_solver. do 2 f_equal.
    + apply map_agree. intros e He. rewrite Hv; [done|]. intros r' Hr'. apply H.
      rewrite !elem_of_app, elem_of_flat_map. eauto.
    + destruct (run_stdin r); simpl; [|done]. rewrite Hv; [done|]. set_solver.
  - do 2 f_equal. apply map_agree. intros a Ha. rewrite Hv; [done|]. intros r Hr.
    apply H, elem_of_flat_map. eauto.
  - rewrite Ht by set_solver. do 2 f_equal. apply map_agree. intros a Ha. rewrite Hv; [done|].
    intros r Hr. apply H. rewrite elem_of_app, elem_of_flat_map. eauto.
Qed.

Lemma check_refs_nil index pos v :
  check_refs index pos v = [] <-> forall r, r ∈ value_refs v -> ref_target_local r = true \/ ref_is_secret r = true.
Proof.
  unfold check_refs. rewrite map_nil_iff, filter_nil_iff.
  setoid_rewrite andb_false_iff. by setoid_rewrite negb_false_iff.
Qed.

Lemma check_fact_nil index f : check_fact index f = [] <-> runtime_bound (fr_shape f) = false.
Proof. unfold check_fact. by destruct (runtime_bound _). Qed.

Lemma flat_map_nil {A B} (f : A -> list B) l : flat_map f l = [] <-> forall x, x ∈ l -> f x = [].
Proof.
  induction l as [|x l IH]; simpl; [set_solver|]. rewrite app_nil_iff, IH. set_solver.
Qed.

(** A primitive is passed exactly when it is closed. *)
Definition closed_prim (p : Prim) : Prop :=
  controller_prim p = false /\
  (forall f, f ∈ prim_facts p -> runtime_bound (fr_shape f) = false) /\
  (forall r, r ∈ prim_refs p -> ref_target_local r = true \/ ref_is_secret r = true).

Lemma flat_map_map {A B C} (f : B -> list C) (g : A -> B) l :
  flat_map f (map g l) = flat_map (fun x => f (g x)) l.
Proof. induction l as [|x l IH]; simpl; [done|]. by rewrite IH. Qed.

Lemma unclosed_prim_parts index p :
  controller_prim p = false ->
  unclosed_prim index p = flat_map (check_fact index) (prim_facts p)
                          ++ flat_map (fun '(pos, v) => check_refs index pos v) (positions p).
Proof.
  destruct p as [r|w|r|a|r|r|s|h|i|r|c]; simpl; intros Hc; rewrite ?app_nil_r; try done.
  - rewrite flat_map_app, flat_map_map. f_equal. destruct (run_stdin r); simpl; by rewrite ?app_nil_r.
  - by rewrite Hc, flat_map_map.
Qed.

Lemma unclosed_prim_controller index p : controller_prim p = true -> unclosed_prim index p <> [].
Proof. destruct p; simpl; intros Hc; try done. by rewrite Hc. Qed.

Lemma unclosed_prim_nil index p : unclosed_prim index p = [] <-> closed_prim p.
Proof.
  unfold closed_prim. destruct (controller_prim p) eqn:Hc.
  { split; [intros H; by apply (unclosed_prim_controller index p) in Hc|naive_solver]. }
  rewrite unclosed_prim_parts, app_nil_iff, !flat_map_nil by done.
  setoid_rewrite check_fact_nil. setoid_rewrite prim_refs_positions. split.
  - intros [H1 H2]. split; [done|]. split; [done|]. intros r (pos & v & Hpos & Hr).
    by apply (proj1 (check_refs_nil index pos v) (H2 (pos, v) Hpos)).
  - intros (_ & H1 & H2). split; [done|]. intros [pos v] Hpos. apply check_refs_nil. eauto.
Qed.

Lemma unclosed_body_nil body : unclosed_body body = [] <-> forall p, p ∈ body -> closed_prim p.
Proof.
  unfold unclosed_body. rewrite flat_map_nil. split.
  - intros H p [i Hi]%list_elem_of_lookup_1. apply (unclosed_prim_nil i).
    apply (H (i, p)). by apply enumerate_elem.
  - intros H [i p] Hip%enumerate_elem. apply unclosed_prim_nil, H. by eapply list_elem_of_lookup_2.
Qed.

Lemma unclosed_undo_body o body pre :
  op_undo o = Computed body pre \/ op_undo o = Compensate body pre ->
  (unclosed_undo o = [] -> anywhere body = None ->
   (forall p f, p ∈ body -> controller_prim p = false /\
                            (f ∈ prim_facts p -> runtime_bound (fr_shape f) = false)) /\
   forall env env', (forall r, ref_target_local r = true -> env r = env' r) ->
     map (bake env) body = map (bake env') body) /\
  (unclosed_undo o = [] <-> forall p, p ∈ body -> closed_prim p).
Proof.
  intros Hu. assert (Hub : unclosed_undo o = unclosed_body body).
  { unfold unclosed_undo. by destruct Hu as [-> | ->]. }
  rewrite Hub, unclosed_body_nil. split; [|done]. intros Hc Hs.
  assert (Hsec : forall p r, p ∈ body -> r ∈ prim_refs p -> ref_is_secret r = false).
  { intros p r Hp Hr. apply prim_refs_positions in Hr as (pos & v & Hpos & Hr).
    apply list_elem_of_lookup_1 in Hp as [i Hi]. destruct (ref_is_secret r) eqn:E; [|done].
    assert (true = false); [|done].
    apply (proj1 (search_None (fun _ => true) body) Hs (mkFound i pos r)). by exists p, v. }
  split.
  - intros p f Hp. destruct (Hc p Hp) as (H1 & H2 & _). auto.
  - intros env env' Henv. apply map_agree. intros p Hp. apply bake_agree. intros r Hr.
    destruct (Hc p Hp) as (_ & _ & H3). destruct (H3 r Hr) as [Hl|Hx]; [auto|].
    by rewrite (Hsec p r Hp Hr) in Hx.
Qed.

(** ** Properties *)

(** The closure analysis is sound and exact (E0202). When a [:target] undo
    passes it and holds no secret, every primitive of its body is carried out
    without the controller: it is not a controller primitive, its facts are known
    before the run, and it bakes to the same primitive whatever values the
    controller-side references have. A body that does not pass has a primitive that
    is a controller primitive, addresses a fact bound at run time, or refers to
    something that is neither local to the target nor a secret. *)
Theorem closed_undo_needs_no_controller o body pre :
  op_undo o = Computed body pre \/ op_undo o = Compensate body pre ->
  (unclosed_undo o = [] -> anywhere body = None ->
   (forall p f, p ∈ body -> controller_prim p = false /\
                            (f ∈ prim_facts p -> runtime_bound (fr_shape f) = false)) /\
   forall env env', (forall r, ref_target_local r = true -> env r = env' r) ->
     map (bake env) body = map (bake env') body) /\
  (unclosed_undo o = [] <-> forall p, p ∈ body -> closed_prim p).
Proof. apply unclosed_undo_body. Qed.

(** A [:restore] undo is closed exactly when every shape of the footprint is
    known before the run and nothing of it is held. *)
Theorem closed_restore o :
  op_undo o = Restore ->
  unclosed_undo o = [] <->
  forall e, e ∈ op_footprint o -> runtime_bound (fp_shape e) = false /\ fp_kind e <> Held.
Proof.
  intros Hu. unfold unclosed_undo. rewrite Hu, flat_map_nil.
  assert (He : forall i e, unclosed_entry i e = [] <-> runtime_bound (fp_shape e) = false /\ fp_kind e <> Held).
  { intros i e. unfold unclosed_entry. rewrite app_nil_iff.
    destruct (runtime_bound _); case_bool_decide; naive_solver. }
  split.
  - intros H e [i Hi]%list_elem_of_lookup_1. apply (He i), (H (i, e)), enumerate_elem, Hi.
  - intros H [i e] Hie%enumerate_elem. apply He, H. by eapply list_elem_of_lookup_2.
Qed.

(** ** Witnesses *)

Definition demo_undo_body : Body :=
  [PRun (mkRun [PLit "ip link set "; PRef (RParam "dev"); PLit " up"] [] None);
   PWrite (mkWrite (fact_ref "/etc/net") (VRef (RHost "name")))].

Definition demo_undo_op : Op :=
  sample_op "net" [entry Modified "/etc/net"] [] (Computed demo_undo_body []) ULTarget [].

Lemma closed_undo_needs_no_controller_witness :
  map (bake (fun r => match r with RController _ => "a" | _ => "x" end)) demo_undo_body =
  map (bake (fun r => match r with RController _ => "b" | _ => "x" end)) demo_undo_body.
Proof.
  refine (proj2 (proj1 (closed_undo_needs_no_controller demo_undo_op demo_undo_body [] _) _ _) _ _ _);
    [left; reflexivity|vm_compute; reflexivity|vm_compute; reflexivity|].
  intros r Hr. destruct r; try reflexivity. discriminate Hr.
Defined.

Lemma closed_restore_witness :
  runtime_bound "/etc/net" = false /\ Modified <> Held.
Proof.
  apply (proj1 (closed_restore (sample_op "n" [entry Modified "/etc/net"] [] Restore ULTarget []) eq_refl)
           eq_refl (entry Modified "/etc/net")). set_solver.
Defined.
