(* ===== verification/Diagnostics.v ===== *)
(** * Diagnostic codes

    [core/src/diagnostics.rs]: the codes of the table in its order, their text and
    meaning, the release each later code came in, the front end's rendered
    diagnostic, and the nearest-name suggestion, whose edit distance is shown to be
    the least cost of an alignment. *)

From Stdlib Require Import Ascii.
From stdpp Require Import base strings pretty numbers option sets gmap list.
From S2P Require Import Prelude Model Secrets.

Inductive Code :=
| E0101 | E0102 | E0103 | E0104 | E0105 | E0106 | E0107 | E0108
| E0109 | E0110 | E0111 | E0112 | E0113 | E0114 | E0201 | E0202
| E0203 | E0204 | E0205 | E0206 | E0207 | E0208 | E0209 | E0210
| E0211 | E0301 | E0302 | E0303 | E0304 | E0305 | E0401 | E0402
| E0403 | E0404 | E0405 | E0406 | E0407 | E0408 | E0409 | E0410
| E0411 | E0501 | E0502 | E0503 | E0504 | E0505 | E0506 | E0507
| E0508 | E0509 | E0601 | E0602 | E0603 | E0604 | E0605 | E0606
| E0607 | E0608 | E0609 | E0610 | E0611.

#[export] Instance Code_eq_dec : EqDecision Code. Proof. solve_decision. Defined.

(** [Code::ALL], in table order. *)
Definition ALL_CODES : list Code :=
  [E0101; E0102; E0103; E0104; E0105; E0106; E0107; E0108; E0109; E0110;
   E0111; E0112; E0113; E0114; E0201; E0202; E0203; E0204; E0205; E0206;
   E0207; E0208; E0209; E0210; E0211; E0301; E0302; E0303; E0304; E0305;
   E0401; E0402; E0403; E0404; E0405; E0406; E0407; E0408; E0409; E0410;
   E0411; E0501; E0502; E0503; E0504; E0505; E0506; E0507; E0508; E0509;
   E0601; E0602; E0603; E0604; E0605; E0606; E0607; E0608; E0609; E0610;
   E0611].

Definition as_str (c : Code) : string :=
  match c with
  | E0101 => "E0101"
  | E0102 => "E0102"
  | E0103 => "E0103"
  | E0104 => "E0104"
  | E0105 => "E0105"
  | E0106 => "E0106"
  | E0107 => "E0107"
  | E0108 => "E0108"
  | E0109 => "E0109"
  | E0110 => "E0110"
  | E0111 => "E0111"
  | E0112 => "E0112"
  | E0113 => "E0113"
  | E0114 => "E0114"
  | E0201 => "E0201"
  | E0202 => "E0202"
  | E0203 => "E0203"
  | E0204 => "E0204"
  | E0205 => "E0205"
  | E0206 => "E0206"
  | E0207 => "E0207"
  | E0208 => "E0208"
  | E0209 => "E0209"
  | E0210 => "E0210"
  | E0211 => "E0211"
  | E0301 => "E0301"
  | E0302 => "E0302"
  | E0303 => "E0303"
  | E0304 => "E0304"
  | E0305 => "E0305"
  | E0401 => "E0401"
  | E0402 => "E0402"
  | E0403 => "E0403"
  | E0404 => "E0404"
  | E0405 => "E0405"
  | E0406 => "E0406"
  | E0407 => "E0407"
  | E0408 => "E0408"
  | E0409 => "E0409"
  | E0410 => "E0410"
  | E0411 => "E0411"
  | E0501 => "E0501"
  | E0502 => "E0502"
  | E0503 => "E0503"
  | E0504 => "E0504"
  | E0505 => "E0505"
  | E0506 => "E0506"
  | E0507 => "E0507"
  | E0508 => "E0508"
  | E0509 => "E0509"
  | E0601 => "E0601"
  | E0602 => "E0602"
  | E0603 => "E0603"
  | E0604 => "E0604"
  | E0605 => "E0605"
  | E0606 => "E0606"
  | E0607 => "E0607"
  | E0608 => "E0608"
  | E0609 => "E0609"
  | E0610 => "E0610"
  | E0611 => "E0611"
  end.

Definition meaning (c : Code) : string :=
  match c with
  | E0101 => "Parse error (expected/found)"
  | E0102 => "Unknown name (with nearest-name suggestion)"
  | E0103 => "Duplicate definition, or indistinguishable clauses"
  | E0104 => "Import cycle"
  | E0105 => "Language version marker missing, or newer than this compiler"
  | E0106 => "Non-total construct (closure, recursion, unbounded repeat)"
  | E0107 => "Kind mismatch"
  | E0108 => "Comparison against :unknown"
  | E0109 => "Interpolated value cannot be safely quoted for the target OS family"
  | E0110 => "Output referenced before its step, or across a par sibling"
  | E0111 => "Clause pattern names a fact not in the host contract"
  | E0112 => "No clause matches this host"
  | E0113 => "repeat over: list is not set-valued"
  | E0114 => "when arms bind an output under different kinds"
  | E0201 => "Op without undo is not knell, or vice versa"
  | E0202 => ":target undo is not closed over target-local commands and facts"
  | E0203 => "undo_locus: :none with an undo body"
  | E0204 => "knell without a cost probe or cost: :none reason"
  | E0205 => "held footprint without suspend/reestablish"
  | E0206 => "Secret-producing op reachable from reestablish"
  | E0207 => "Computed or compensating undo without undo_pre"
  | E0208 => "Undo not provably idempotent"
  | E0209 => "Secret interpolated into a run string"
  | E0210 => "Secret referenced from a :target undo body"
  | E0211 => "Secret env:/stdin: on an executor that cannot honour the stdin preamble"
  | E0301 => "Footprint conflict (umbra)"
  | E0302 => "May-conflict (penumbra), strict mode"
  | E0303 => "par children not umbra-disjoint"
  | E0304 => "reach op inside par"
  | E0305 => "Same anchor declared twice on one fact within a plan"
  | E0401 => "reach op without a preceding armed :target backstop"
  | E0402 => "Renewal would commit before backstop rearm"
  | E0403 => "Backstop locus not viable on host, or no artifact template for its OS"
  | E0404 => "mode: :auto plan contains force:"
  | E0405 => "Heartbeat interval not <= deadline/3"
  | E0406 => "Artifact would be installed after a covered step"
  | E0407 => ":target undo locus on a host with no run-capable executor"
  | E0408 => "Snapshot for a :target undo exceeds the declared cap"
  | E0409 => "Multi-host plan without an inferable owner host"
  | E0410 => "reach op whose undo is drift: :defer"
  | E0411 => "Secret routed to a non-secret sink"
  | E0501 => "Intent undeterminable: both wane and commit(), or neither"
  | E0502 => "commit() is not the last item on its path"
  | E0503 => "Temporary plan's backstop after: differs from its wane"
  | E0504 => "Permanent plan with a backstop has a path reaching neither confirm() nor commit()"
  | E0505 => "Permanent plan has a non-refusing path that never reaches commit()"
  | E0506 => "Unbounded wait: temporary plan without wane can reach Waiting/Held/Deferred, or a permanent plan's wait has neither window: nor a site max_wait"
  | E0507 => "mode: :auto plan has a step gate needing a human, or a knell whose ack: is not :none"
  | E0508 => "Gate unsatisfiable, names an unknown authenticator, or counts the requester"
  | E0509 => "Gate satisfiable with zero human authenticators and no allow_zero_human"
  | E0601 => "Unresolved binding"
  | E0602 => "Binding contract violation"
  | E0603 => "No journal declared; refusing to apply"
  | E0604 => "No operators block; refusing to start outside daemon dry-run mode"
  | E0605 => "A hook() binding is declared but no hooks registrar block names who may register it"
  | E0606 => "Plan has a secret output and the site declares no secrets deliver_to"
  | E0607 => "inventory from: hook() has no record at check time; name one with --inventory"
  | E0608 => "an action the host's executor cannot perform: a hook() action, or a probe with no run body, on a host reached by local() or ssh()"
  | E0609 => "a computed undo on a fact the host's executor cannot read: a fact that is no file, on a host reached by local() or ssh(), with no probe that reads it"
  | E0610 => "the version line says `rue`, the name this language had before v0.4.0; write `rescind`"
  | E0611 => "a gate or a knell's ack needs a proof and the site declares no approval via: binding"
  end.

(** [Code::parse]: the macro's arms, one per code, tried in table order. *)
Definition parse (text : string) : option Code :=
  List.find (fun c => text == as_str c) ALL_CODES.

(** The derived order: a code's place in the table. *)
Definition code_index (c : Code) : nat :=
  default 0 (position_from (fun x => x == c) 0 ALL_CODES).

Definition code_le (a b : Code) : bool := code_index a <=? code_index b.

Definition since (c : Code) : option string :=
  match c with
  | E0607 | E0608 => Some "v0.2.0"
  | E0609 => Some "v0.3.0"
  | E0610 => Some "v0.4.0"
  | E0611 => Some "v0.5.0"
  | _ => None
  end.

Definition migration (c : Code) : option string :=
  match c with
  | E0607 => Some "a hook inventory is checked against a record you name"
  | E0608 => Some ("declare the probe with a `run` line, or bind a hook that performs the action "
                   +:+ "(`execute via: hook(:x, transport: :t)`)")
  | E0609 => Some "declare a probe that `reads` the fact, or undo it with `:restore`"
  | E0610 => Some "write `rescind` where the version line says `rue`"
  | E0611 => Some "declare `approval via: hook(:name)` in the site block"
  | _ => None
  end.

Definition with_migration (c : Code) (message : string) : string :=
  match since c, migration c with
  | Some v, Some m => concats [message; " (new in "; v; ": "; m; ")"]
  | _, _ => message
  end.

(** ** Rendered diagnostics *)

Record Span := mkSpan { span_file : string; span_line : N; span_col : N }.

Record SpanDiagnostic := mkSpanDiagnostic {
  sd_code : Code;
  sd_span : option Span;
  sd_expected : option string;
  sd_found : option string;
  sd_nearest : option string;
  sd_message : string;
}.

Definition diagnostic_render (d : SpanDiagnostic) : string :=
  concats
    [match sd_span d with
     | Some sp => concats [span_file sp; ":"; show (span_line sp); ":"; show (span_col sp); ": "]
     | None => EmptyString
     end;
     as_str (sd_code d); ": "; sd_message d;
     match sd_expected d, sd_found d with
     | Some e, Some f => concats ["; expected "; e; ", found "; f]
     | Some e, None => "; expected " +:+ e
     | None, Some f => "; found " +:+ f
     | None, None => EmptyString
     end;
     match sd_nearest d with
     | Some n => concats ["; did you mean "; n; "?"]
     | None => EmptyString
     end].

(** ** The nearest name *)

(** [str::chars] over a string of UTF-8 bytes: a byte that does not continue a
    character starts one. *)
Definition continuation (a : ascii) : bool :=
  (128 <=? N_of_ascii a)%N && (N_of_ascii a <? 192)%N.

Fixpoint chars (s : string) : list string :=
  match s with
  | EmptyString => []
  | String a s' =>
      match chars s' with
      | c :: cs =>
          match c with
          | String b _ => if continuation b then String a c :: cs else String a EmptyString :: c :: cs
          | EmptyString => String a EmptyString :: c :: cs
          end
      | [] => [String a EmptyString]
      end
  end.

Section Distance.
Context {C : Type} `{EqDecision C}.

(** One row of the table: [cur] grows by a cell per character of [b]. *)
Definition next_row (i : nat) (ca : C) (b : list C) (prev : list nat) : list nat :=
  foldl (fun cur '(j, cb) =>
           let cost := if ca != cb then 1 else 0 in
           cur ++ [(nth j prev 0 + cost) `min` (nth (j + 1) prev 0 + 1) `min` (nth j cur 0 + 1)])
        [i + 1] (enumerate b).

Definition distance_chars (a b : list C) : nat :=
  nth (length b)
      (foldl (fun prev '(i, ca) => next_row i ca b prev) (seq 0 (S (length b))) (enumerate a)) 0.
End Distance.

Definition distance (a b : string) : nat := distance_chars (chars a) (chars b).

Definition nearest_step (name : string) (best : option (nat * string)) (c : string)
    : option (nat * string) :=
  let d := distance name c in
  if (d <=? 2) && match best with None => true | Some (bd, _) => d <? bd end
  then Some (d, c) else best.

Definition nearest (name : string) (candidates : list string) : option string :=
  option_map snd (foldl (nearest_step name) None candidates).

Example nearest_ex : nearest "confrim" ["commit"; "confirm"; "confer"] = Some "confirm".
Proof. vm_compute. reflexivity. Qed.
Example chars_ex : length (chars (String (chr 195) (String (chr 169) "t"))) = 2.
Proof. reflexivity. Qed.

(** ** Alignments *)

Section Alignment.
Context {C : Type} `{EqDecision C}.

(** An alignment of two character lists and its number of edits. *)
Inductive align : nat -> list C -> list C -> Prop :=
| align_nil : align 0 [] []
| align_keep k x a b : align k a b -> align k (x :: a) (x :: b)
| align_change k x y a b : align k a b -> align (S k) (x :: a) (y :: b)
| align_delete k x a b : align k a b -> align (S k) (x :: a) b
| align_insert k y a b : align k a b -> align (S k) a (y :: b).

(** The least cost, by recursion on the first characters. *)
Fixpoint lev (a : list C) : list C -> nat :=
  match a with
  | [] => fun b => length b
  | x :: a' =>
      fix lev_b (b : list C) : nat :=
        match b with
        | [] => S (length a')
        | y :: b' =>
            (lev a' b' + if x != y then 1 else 0) `min` (lev a' b + 1) `min` (lev_b b' + 1)
        end
  end.

Lemma lev_nil_r a : lev a [] = length a.
Proof. by destruct a. Qed.

Lemma lev_cons x a y b :
  lev (x :: a) (y :: b) =
  (lev a b + if x != y then 1 else 0) `min` (lev a (y :: b) + 1) `min` (lev (x :: a) b + 1).
Proof. done. Qed.

Lemma align_deletes a : align (length a) a [].
Proof. induction a; simpl; by constructor. Qed.

Lemma align_inserts b : align (length b) [] b.
Proof. induction b; simpl; by constructor. Qed.

Lemma align_lev a b : align (lev a b) a b.
Proof.
  revert b. induction a as [|x a IHa]; intros b; [apply align_inserts|].
  induction b as [|y b IHb]; [rewrite lev_nil_r; apply align_deletes|]. rewrite lev_cons.
  destruct (Nat.min_spec ((lev a b + if x != y then 1 else 0) `min` (lev a (y :: b) + 1))
                         (lev (x :: a) b + 1)) as [[_ ->]|[_ ->]].
  - destruct (Nat.min_spec (lev a b + if x != y then 1 else 0) (lev a (y :: b) + 1)) as [[_ ->]|[_ ->]].
    + case_bool_decide as E; simpl.
      * subst. rewrite Nat.add_0_r. by constructor.
      * rewrite Nat.add_1_r. by constructor.
    + rewrite Nat.add_1_r. by constructor.
  - rewrite Nat.add_1_r. by constructor.
Qed.

Lemma lev_nil_step a y b : lev a (y :: b) <= lev a b + 1.
Proof. destruct a as [|x a]; simpl; lia. Qed.

Lemma lev_cons_step x a b : lev (x :: a) b <= lev a b + 1.
Proof. destruct b as [|y b]; rewrite ?lev_nil_r, ?lev_cons; simpl; lia. Qed.

Lemma lev_least k a b : align k a b -> lev a b <= k.
Proof.
  induction 1 as [|k x a b _ IH|k x y a b _ IH|k x a b _ IH|k y a b _ IH].
  - done.
  - rewrite lev_cons, bool_decide_eq_true_2 by done. simpl. lia.
  - rewrite lev_cons. destruct (x != y); lia.
  - assert (H := lev_cons_step x a b). lia.
  - assert (H := lev_nil_step a y b). lia.
Qed.

Lemma align_snoc k a b :
  align k a b ->
  (forall x, align k (a ++ [x]) (b ++ [x])) /\ (forall x y, align (S k) (a ++ [x]) (b ++ [y])) /\
  (forall x, align (S k) (a ++ [x]) b) /\ (forall y, align (S k) a (b ++ [y])).
Proof.
  induction 1 as [|k x a b _ IH|k x y a b _ IH|k x a b _ IH|k y a b _ IH]; simpl;
    [|destruct IH as (I1 & I2 & I3 & I4)..]; repeat split; intros; auto using align.
Qed.

Lemma align_rev k a b : align k a b -> align k (rev a) (rev b).
Proof.
  induction 1 as [|k x a b _ IH|k x y a b _ IH|k x a b _ IH|k y a b _ IH]; simpl;
    [constructor|destruct (align_snoc _ _ _ IH) as (I1 & I2 & I3 & I4); auto..].
Qed.

Lemma lev_rev a b : lev (rev a) (rev b) = lev a b.
Proof.
  apply Nat.le_antisymm; apply lev_least.
  - apply align_rev, align_lev.
  - rewrite <- (rev_involutive a), <- (rev_involutive b). rewrite !(rev_involutive (rev _)).
    apply align_rev, align_lev.
Qed.

(** *** The table *)

(** The row for a prefix of [a]: its distance to every prefix of [b]. *)
Definition row (a b : list C) : list nat :=
  map (fun j => lev (rev a) (rev (take j b))) (seq 0 (S (length b))).

Lemma nth_map_seq (f : nat -> nat) n j : j <= n -> nth j (map f (seq 0 (S n))) 0 = f j.
Proof.
  intros Hj. rewrite nth_indep with (d' := f 0) by (rewrite length_map, length_seq; lia).
  rewrite (map_nth f), seq_nth by lia. done.
Qed.

Lemma row_nth a b j : j <= length b -> nth j (row a b) 0 = lev (rev a) (rev (take j b)).
Proof. apply nth_map_seq. Qed.

Lemma rev_take_S (l : list C) j x : l !! j = Some x -> rev (take (S j) l) = x :: rev (take j l).
Proof. intros Hj. erewrite take_S_r by done. by rewrite rev_app_distr. Qed.

Lemma enumerate_from_app {X} (l k : list X) i :
  enumerate_from i (l ++ k) = enumerate_from i l ++ enumerate_from (i + length l) k.
Proof.
  revert i. induction l as [|x l IH]; intros i; simpl; [by rewrite Nat.add_0_r|].
  rewrite IH. do 3 f_equal. lia.
Qed.

Lemma next_row_spec a b ca :
  next_row (length a) ca b (row a b) = row (a ++ [ca]) b.
Proof.
  unfold next_row.
  enough (H : forall n, n <= length b ->
    foldl (fun cur '(j, cb) =>
             let cost := if ca != cb then 1 else 0 in
             cur ++ [(nth j (row a b) 0 + cost) `min` (nth (j + 1) (row a b) 0 + 1)
                     `min` (nth j cur 0 + 1)])
          [length a + 1] (enumerate (take n b)) =
    map (fun j => lev (rev (a ++ [ca])) (rev (take j b))) (seq 0 (S n))).
  { specialize (H (length b) ltac:(lia)). rewrite take_ge in H by lia. done. }
  induction n as [|n IH]; intros Hn.
  - simpl. by rewrite lev_nil_r, length_rev, length_app.
  - destruct (lookup_lt_is_Some_2 b n) as [cb Hcb]; [lia|].
    rewrite (take_S_r b n cb) by done. unfold enumerate in *.
    rewrite enumerate_from_app, foldl_app, IH by lia. cbn [enumerate_from foldl].
    rewrite length_take_le by lia. rewrite (seq_S (S n)), map_app. f_equal.
    rewrite Nat.add_0_l, !row_nth by lia. rewrite nth_map_seq by lia. cbn [map].
    rewrite (Nat.add_1_r n), Nat.add_0_l, (rev_take_S b n cb) by done.
    rewrite rev_app_distr. cbn [rev app]. rewrite lev_cons. done.
Qed.

Lemma distance_chars_lev a b : distance_chars a b = lev a b.
Proof.
  unfold distance_chars.
  assert (H : forall n, n <= length a ->
    foldl (fun prev '(i, ca) => next_row i ca b prev) (seq 0 (S (length b))) (enumerate (take n a))
    = row (take n a) b).
  { induction n as [|n IH]; intros Hn.
    - transitivity (map (fun j => j) (seq 0 (S (length b)))); [by rewrite map_id|].
      apply map_ext_in. intros j Hj%in_seq. change (j = length (rev (take j b))).
      rewrite length_rev, length_take_le by lia. done.
    - destruct (lookup_lt_is_Some_2 a n) as [ca Hca]; [lia|].
      rewrite (take_S_r a n ca) by done. unfold enumerate in *.
      rewrite enumerate_from_app, foldl_app, IH by lia. simpl.
      rewrite <- (next_row_spec (take n a)). by rewrite length_take_le by lia. }
  specialize (H (length a) ltac:(lia)). rewrite take_ge in H by lia. rewrite H.
  rewrite row_nth by lia. rewrite take_ge by lia. apply lev_rev.
Qed.
End Alignment.

(** ** Lemmas *)

Lemma ALL_CODES_complete c : c ∈ ALL_CODES.
Proof. apply (bool_decide_eq_true_1 _). by destruct c. Qed.

Lemma as_str_inj c c' : as_str c = as_str c' -> c = c'.
Proof.
  intros H. assert (Hp : forall x, parse (as_str x) = Some x) by (intros []; reflexivity).
  assert (Some c = Some c') by (by rewrite <- !Hp, H). congruence.
Qed.

(** The loop of [nearest]: the first candidate at the least distance within two. *)
Lemma nearest_fold name cs best :
  (forall d c, best = Some (d, c) -> d <= 2) ->
  match foldl (nearest_step name) best cs with
  | None => best = None /\ forall c, c ∈ cs -> 2 < distance name c
  | Some (d, c) =>
      d <= 2 /\
      ((best = Some (d, c) /\ forall c', c' ∈ cs -> d <= distance name c') \/
       (exists before after, cs = before ++ c :: after /\ d = distance name c /\
         (forall d' c', best = Some (d', c') -> d < d') /\
         (forall c', c' ∈ before -> d < distance name c') /\
         (forall c', c' ∈ after -> d <= distance name c')))
  end.
Proof.
  revert best. induction cs as [|c cs IH]; intros best Hb; simpl.
  { destruct best as [[d c]|]; [|set_solver]. split; [eauto|]. left. set_solver. }
  assert (Hb' : forall d c', nearest_step name best c = Some (d, c') -> d <= 2).
  { unfold nearest_step. intros d c'. destruct (_ && _) eqn:E; [|apply Hb].
    intros [= <- <-]. apply andb_true_iff in E as [E%Nat.leb_le _]. done. }
  specialize (IH _ Hb'). clear Hb'.
  destruct (foldl (nearest_step name) (nearest_step name best c) cs) as [[d x]|].
  - destruct IH as [Hd IH]. split; [done|]. unfold nearest_step in IH.
    destruct (_ && _) eqn:E in IH.
    + apply andb_true_iff in E as [E1%Nat.leb_le E2].
      assert (Hlt : forall d' c', best = Some (d', c') -> distance name c < d').
      { intros d' c' ->. by apply Nat.ltb_lt in E2. }
      right. destruct IH as [[[= <- <-] IH]|(bf & af & -> & -> & H1 & H2 & H3)].
      * exists [], cs. set_solver.
      * exists (c :: bf), af. specialize (H1 _ _ eq_refl). split_and!; try done.
        -- intros d' c' Hd'. specialize (Hlt _ _ Hd'). lia.
        -- intros c' [->|Hc']%elem_of_cons; [done|auto].
    + assert (Hc : forall d' c', best = Some (d', c') -> d' <= distance name c).
      { intros d' c' ->. specialize (Hb _ _ eq_refl). apply andb_false_iff in E as [E|E].
        - apply Nat.leb_gt in E. lia.
        - apply Nat.ltb_ge in E. lia. }
      destruct IH as [[-> IH]|(bf & af & -> & -> & H1 & H2 & H3)].
      * left. split; [done|]. intros c' [->|Hc']%elem_of_cons; [by eapply Hc|auto].
      * right. exists (c :: bf), af. split_and!; try done.
        intros c' [->|Hc']%elem_of_cons; [|auto]. destruct best as [[d' c']|].
        -- specialize (H1 _ _ eq_refl). specialize (Hc _ _ eq_refl). lia.
        -- rewrite andb_true_r in E. apply Nat.leb_gt in E. lia.
  - destruct IH as [IH1 IH2]. unfold nearest_step in IH1. destruct (_ && _) eqn:E in IH1; [done|].
    subst best. split; [done|]. rewrite andb_true_r in E. apply Nat.leb_gt in E. set_solver.
Qed.

(** ** Properties *)

(** A diagnostic code is its text: every code of the table parses back from the
    text it prints, no other text is a code, and the table lists every code once. *)
Theorem codes_round_trip c text :
  parse (as_str c) = Some c /\ (parse text = Some c -> text = as_str c) /\
  c ∈ ALL_CODES /\ NoDup ALL_CODES.
Proof.
  split_and!.
  - by destruct c.
  - unfold parse. intros [_ H]%List.find_some. by apply bool_decide_eq_true in H.
  - apply ALL_CODES_complete.
  - apply (bool_decide_eq_true_1 _). vm_compute. reflexivity.
Qed.

(** The row-by-row table computes the edit distance: the least number of
    insertions, deletions and changes of one character that turn one name into the
    other, by characters and not by bytes. *)
Theorem distance_is_least_edits a b :
  align (distance a b) (chars a) (chars b) /\
  forall k, align k (chars a) (chars b) -> distance a b <= k.
Proof.
  unfold distance. rewrite distance_chars_lev. split; [apply align_lev|]. intros k. apply lev_least.
Qed.

(** The suggestion is the first of the nearest candidates: one within two edits,
    strictly nearer than every candidate before it and no farther than any after;
    and there is none only when every candidate is more than two edits away. *)
Theorem nearest_is_nearest name candidates :
  match nearest name candidates with
  | Some c => distance name c <= 2 /\
      exists before after, candidates = before ++ c :: after /\
        (forall c', c' ∈ before -> distance name c < distance name c') /\
        (forall c', c' ∈ after -> distance name c <= distance name c')
  | None => forall c, c ∈ candidates -> 2 < distance name c
  end.
Proof.
  unfold nearest. assert (H := nearest_fold name candidates None ltac:(done)).
  destruct (foldl _ None candidates) as [[d c]|]; simpl; [|by destruct H].
  destruct H as [Hd [[H _]|(bf & af & -> & -> & _ & H1 & H2)]]; [done|]. eauto 6.
Qed.

(** ** Witnesses *)

Lemma codes_round_trip_witness : "E0301" = as_str E0301.
Proof. apply (codes_round_trip E0301 "E0301"). reflexivity. Defined.

Lemma distance_is_least_edits_witness : distance "wane" "want" <= 1.
Proof.
  apply (proj2 (distance_is_least_edits "wane" "want")). simpl.
  do 3 apply align_keep. apply align_change, align_nil.
Defined.
