(* ===== verification/Explain.v ===== *)
(** * [explain]

    [core/src/explain.rs]: one line per numbered step, the one-line undo of an op,
    and the same listing as a self-contained page, whose every value goes through
    [escape]. *)

From Stdlib Require Import Ascii.
From stdpp Require Import base strings pretty numbers option sets gmap list.
From S2P Require Import Prelude Model Algebra Gates.

(** ** Values *)

Definition ref_text (r : Ref) : string :=
  if ref_is_secret r then concats ["<secret:"; ref_label r; ">"]
  else concats ["#{"; ref_label r; "}"].

Definition explain_template (parts : Template) : string :=
  concats (map (fun p => match p with PLit s => s | PRef r => ref_text r end) parts).

Definition explain_value (v : Value) : string :=
  match v with
  | VLit s => s
  | VRef r => ref_text r
  | VTemplate parts => explain_template parts
  end.

(** ** The one-line undo *)

Definition kwargs (args : list (string * string)) : string :=
  join ", " (map (fun '(n, v) => concats [n; ": "; v]) args).

Definition prim_line (p : Prim) : string :=
  match p with
  | PRun r => explain_template (run_cmd r)
  | PWrite w => "write " +:+ fr_shape (write_fact w)
  | PRemove r => "remove " +:+ fr_shape (remove_fact r)
  | PAppend a => "append to " +:+ fr_shape (append_fact a)
  | PRegionSet r =>
      match fr_anchor (rs_fact r) with
      | Some a => concats ["set anchor "; a; " in "; fr_shape (rs_fact r)]
      | None => "set the region in " +:+ fr_shape (rs_fact r)
      end
  | PRegionClear r =>
      match fr_anchor (rc_fact r) with
      | Some a => concats ["clear anchor "; a; " in "; fr_shape (rc_fact r)]
      | None => "clear the region in " +:+ fr_shape (rc_fact r)
      end
  | PStage s => "stage " +:+ stage_name s
  | PHook h =>
      concats ["hook :"; hook_name h; "(";
               kwargs (map (fun a => (kw_name a, explain_value (kw_value a))) (hook_args h)); ")"]
  | PInstall i => "install :" +:+ install_name i
  | PRelease r => "release :" +:+ release_name r
  | PCall c =>
      concats [call_prim c; "(";
               kwargs (map (fun a => (ca_name a, explain_value (ca_value a))) (call_args c)); ")"]
  end.

Definition body_line (body : Body) : string := join "; " (map prim_line body).

Definition restore_part (e : FootprintEntry) : option string :=
  match fp_kind e with
  | Owned => Some ("remove " +:+ fp_shape e)
  | Region =>
      Some (match fp_anchor e with
            | Some a => concats ["strip anchor "; a; " from "; fp_shape e]
            | None => "strip the region from " +:+ fp_shape e
            end)
  | Modified => Some (concats ["restore "; fp_shape e; " from snapshot"])
  | Held => Some ("release " +:+ fp_shape e)
  | Derived | AppendOnly => None
  end.

Definition undo_line (o : Op) : string :=
  match op_undo o with
  | NoUndo => EmptyString
  | Restore =>
      let parts := filter_map restore_part (op_footprint o) in
      match parts with [] => "nothing to restore" | _ => join "; " parts end
  | Computed body _ => body_line body
  | Compensate body _ =>
      let record := if existsb (fun e => fp_kind e == AppendOnly) (op_footprint o)
                    then " (undone by record, not erasure)" else EmptyString in
      concats ["compensate: "; body_line body; record]
  end.

(** ** The fields of a line *)

Definition locus_text (l : Locus) : string :=
  match l with
  | LController => "controller"
  | LTarget => "target"
  | LHost (Static h) => concats ["host("; h; ")"]
  | LHost (Bound b) => concats ["host("; b; ") bound at runtime"]
  end.

Definition refusal_text (r : Refusal) : string :=
  match r with
  | Revert => "revert"
  | Hold None => "hold"
  | Hold (Some v) => "hold via " +:+ v
  | RKnell _ _ _ => "knell"
  end.

Definition drift_text (o : Op) : string :=
  match effective_drift o with
  | Some Clobber => "clobber"
  | Some Defer => "defer"
  | None => "n/a"
  end.

Definition explain_cost (r : Refusal) : string :=
  match r with
  | RKnell _ (CostProbe p) _ => p
  | RKnell _ (NoCost reason) _ => concats ["none ("; reason; ")"]
  | _ => "none"
  end.

Definition undo_text (o : Op) : string :=
  match op_undo o with
  | NoUndo => "NO UNDO — knell, cost " +:+ explain_cost (op_refusal o)
  | _ => undo_line o
  end.

Definition undo_locus_text (u : UndoLocus) : string :=
  match u with
  | ULTarget => "target"
  | ULController => "controller"
  | NoLocus => "none"
  end.

Definition args_text (args : list string) : string :=
  match args with [] => EmptyString | _ => concats ["("; join ", " args; ")"] end.

Definition damaged_marker_cost : string :=
  "damaged-marker cost: the whole fact is restored from the do-time snapshot and a stranger's edits outside the region are lost, unless another instance holds a region on it".

(** What follows the fixed fields of a step: its gate, its ack, the cost of a
    damaged marker and the handoff, built alike by [step_line] and [row]. *)
Definition step_notes (n : N) (s : StepI) (deferred_steps : list N) : list string :=
  let o := step_op s in
  match step_gate s with Some g => ["gate=" +:+ render_gate g] | None => [] end
  ++ match op_refusal o with
     | RKnell _ _ (AckGate g) => ["ack=" +:+ render_gate g]
     | RKnell _ _ (NoAck reason) => [concats ["ack=none ("; reason; ")"]]
     | _ => []
     end
  ++ (if existsb (fun e => fp_kind e == Region) (op_footprint o) && (effective_drift o == Some Clobber)
      then [damaged_marker_cost] else [])
  ++ (if bool_decide (n ∈ deferred_steps)
      then ["deferred → " +:+ match op_handoff_done o with
                              | Some h => "handoff_done: " +:+ h
                              | None => "(handoff command printed at apply)"
                              end]
      else []).

Definition step_line (n : N) (s : StepI) (deferred_steps : list N) : string :=
  let o := step_op s in
  join "   "
    ([op_id o +:+ args_text (step_args s);
      "locus=" +:+ locus_text (op_locus o);
      "refusal=" +:+ refusal_text (op_refusal o);
      "drift=" +:+ drift_text o;
      "undo=" +:+ undo_text o;
      "undo_locus=" +:+ undo_locus_text (op_undo_locus o)]
     ++ step_notes n s deferred_steps).

Definition explain_body (n : N) (it : Item) (deferred_steps : list N) : string :=
  match it with
  | Step s | Knell s => step_line n s deferred_steps
  | Confirm => "confirm()   disarms the unless_confirmed backstop"
  | Commit => "commit()   ends the plan: undo discarded, umbras released, backstops disarmed"
  | Preflight guards =>
      concats ["preflight   guards: "; join ", " (map guard_name guards);
               "   (measured before any mutation and again at point of use)"]
  | Observe probe alias => concats ["observe "; probe; " as "; alias; "   no footprint, no undo"]
  | Assert guard _ _ => concats ["assert "; guard_name guard; "   :no refuses; :unknown waits"]
  | Slot name => "slot :" +:+ name
  | Par _ => "par"
  | Repeat _ _ _ => "repeat"
  | When guard _ _ _ _ => "when " +:+ guard_name guard
  end.

(** [{n:>2}] *)
Definition pad2 (s : string) : string :=
  if String.length s <? 2 then String space s else s.

Definition explain (p : Plan) (deferred_steps : list N) : string :=
  concats (map (fun '(n, it) => concats [pad2 (show n); ". "; explain_body n it deferred_steps; newline])
               (numbered (plan_body p))).

(** ** The page *)

Definition escape_char (c : ascii) : string :=
  if c == "&"%char then "&amp;"
  else if c == "<"%char then "&lt;"
  else if c == ">"%char then "&gt;"
  else if c == chr 34 then "&quot;"
  else if c == "'"%char then "&#39;"
  else String c EmptyString.

Fixpoint escape (s : string) : string :=
  match s with
  | EmptyString => EmptyString
  | String c s' => escape_char c +:+ escape s'
  end.

Definition attr (name value : string) : string := concats [name; "="; dquote; value; dquote].

Definition STYLE : string :=
"<style>
:root { color-scheme: light dark; }
body { font: 16px/1.5 system-ui, sans-serif; margin: 2rem auto; max-width: 60rem; padding: 0 1rem; }
h1 { font-size: 1.5rem; margin-bottom: 0.25rem; }
h1 .host { font-weight: normal; opacity: 0.7; }
.verdict { border-left: 4px solid currentColor; padding-left: 1rem; opacity: 0.9; }
table { border-collapse: collapse; width: 100%; margin-top: 1.5rem; }
th, td { border-bottom: 1px solid rgba(128,128,128,0.4); padding: 0.4rem 0.5rem; text-align: left; vertical-align: top; }
th { font-size: 0.8rem; text-transform: uppercase; letter-spacing: 0.04em; opacity: 0.7; }
td.n { text-align: right; font-variant-numeric: tabular-nums; opacity: 0.7; }
td.step { font-weight: 600; }
code, td.undo { font-family: ui-monospace, monospace; font-size: 0.9em; }
tr.knell td.undo { font-weight: 600; }
td.notes { font-size: 0.9em; opacity: 0.85; }
.foot { margin-top: 2rem; font-size: 0.85em; opacity: 0.7; }
@media print { body { max-width: none; } }
</style>
".

Definition cell (class text : string) : string :=
  concats ["<td "; attr "class" class; ">"; escape text; "</td>"].

Definition is_knell_refusal (r : Refusal) : bool :=
  match r with RKnell _ _ _ => true | _ => false end.

Definition row_item (n : N) (text : string) : string :=
  concats ["<tr "; attr "class" "item"; "><td "; attr "class" "n"; ">"; show n; "</td><td ";
           attr "class" "step"; " "; attr "colspan" "7"; ">"; escape text; "</td></tr>"; newline].

Definition row_step (n : N) (s : StepI) (deferred_steps : list N) : string :=
  let o := step_op s in
  concats
    ["<tr"; (if is_knell_refusal (op_refusal o) then " " +:+ attr "class" "knell" else EmptyString);
     "><td "; attr "class" "n"; ">"; show n; "</td>";
     cell "step" (op_id o +:+ args_text (step_args s));
     cell "locus" (locus_text (op_locus o));
     cell "refusal" (refusal_text (op_refusal o));
     cell "drift" (drift_text o);
     cell "undo" (undo_text o);
     cell "undolocus" (undo_locus_text (op_undo_locus o));
     cell "notes" (join "; " (step_notes n s deferred_steps));
     "</tr>"; newline].

Definition html_row (n : N) (it : Item) (deferred_steps : list N) : string :=
  match it with
  | Step s | Knell s => row_step n s deferred_steps
  | other => row_item n (explain_body n other deferred_steps)
  end.

Definition prose_section (verdict_prose : option string) : string :=
  match verdict_prose with
  | None => EmptyString
  | Some text =>
      concats
        ["<section "; attr "class" "verdict"; ">"; newline;
         concats (map (fun line => concats ["<p>"; escape line; "</p>"; newline])
                      (List.filter (fun l => negb (blank l)) (lines text)));
         "</section>"; newline]
  end.

Definition explain_html (p : Plan) (deferred_steps : list N) (verdict_prose : option string) : string :=
  concats
    ["<!DOCTYPE html>"; newline; "<html "; attr "lang" "en"; ">"; newline; "<head>"; newline;
     "<meta "; attr "charset" "utf-8"; ">"; newline;
     "<title>rescind explain: "; escape (plan_id p); " on "; escape (plan_owner p); "</title>"; newline;
     STYLE; "</head>"; newline; "<body>"; newline;
     "<h1>"; escape (plan_id p); " <span "; attr "class" "host"; ">on "; escape (plan_owner p);
     "</span></h1>"; newline;
     prose_section verdict_prose;
     "<table>"; newline; "<thead>"; newline;
     "<tr><th>#</th><th>step</th><th>locus</th><th>refusal</th><th>drift</th><th>undo</th><th>undo locus</th><th>notes</th></tr>"; newline;
     "</thead>"; newline; "<tbody>"; newline;
     concats (map (fun '(n, it) => html_row n it deferred_steps) (numbered (plan_body p)));
     "</tbody>"; newline; "</table>"; newline;
     "<p "; attr "class" "foot"; ">Rendered by <code>rescind explain --html</code>. ";
     "Every mutating step shows the undo it will run before it runs; a step ";
     "with <code>NO UNDO</code> is a knell and names its cost.</p>"; newline;
     "</body>"; newline; "</html>"; newline].

(** ** Lemmas *)

(** What a browser reads back. *)
Definition entities : list (string * ascii) :=
  [("&amp;", "&"%char); ("&lt;", "<"%char); ("&gt;", ">"%char); ("&quot;", chr 34); ("&#39;", "'"%char)].

Fixpoint unescape (fuel : nat) (s : string) : string :=
  match fuel, s with
  | O, _ | _, EmptyString => EmptyString
  | S fuel', String c s' =>
      match find_map (fun '(e, x) => option_map (fun r => (x, r)) (strip_prefix e s)) entities with
      | Some (x, r) => String x (unescape fuel' r)
      | None => String c (unescape fuel' s')
      end
  end.

Definition markup (c : ascii) : bool :=
  (c == "<"%char) || (c == ">"%char) || (c == chr 34) || (c == "'"%char).

Fixpoint all_chars (P : ascii -> bool) (s : string) : bool :=
  match s with
  | EmptyString => true
  | String c s' => P c && all_chars P s'
  end.

Lemma all_chars_app P a b : all_chars P (a +:+ b) = all_chars P a && all_chars P b.
Proof. induction a as [|c a IH]; simpl; [done|]. by rewrite IH, andb_assoc. Qed.

(** The five characters, one by one. *)
Lemma escape_char_cases c :
  (exists e, (e, c) ∈ entities /\ escape_char c = e) \/
  (markup c = false /\ c <> "&"%char /\ escape_char c = String c EmptyString).
Proof.
  unfold escape_char, markup, entities. repeat case_bool_decide; subst;
    try (left; eexists; split; [|reflexivity]; set_solver); right; auto.
Qed.

Lemma unescape_entity fuel e c t :
  (e, c) ∈ entities -> unescape (S fuel) (e +:+ t) = String c (unescape fuel t).
Proof.
  unfold entities. rewrite !elem_of_cons.
  intros [[= -> ->]|[[= -> ->]|[[= -> ->]|[[= -> ->]|[[= -> ->]|He]]]]]; [reflexivity..|set_solver].
Qed.

Lemma unescape_plain fuel c t :
  c <> "&"%char -> unescape (S fuel) (String c t) = String c (unescape fuel t).
Proof.
  intros Hc. assert (Hs : forall e x, (e, x) ∈ entities -> strip_prefix e (String c t) = None).
  { unfold entities. intros e x. rewrite !elem_of_cons.
    intros [[= -> ->]|[[= -> ->]|[[= -> ->]|[[= -> ->]|[[= -> ->]|He]]]]]; [|..|set_solver];
      simpl; by rewrite bool_decide_eq_false_2 by auto. }
  cbn [unescape]. rewrite (proj2 (find_map_None _ entities)); [done|].
  intros [e x] He. by rewrite (Hs e x He).
Qed.

Lemma unescape_escape fuel s : String.length s <= fuel -> unescape fuel (escape s) = s.
Proof.
  revert s. induction fuel as [|fuel IH]; intros [|c s] Hl; simpl in Hl; try lia; try done.
  assert (Hs : unescape fuel (escape s) = s) by (apply IH; lia).
  change (escape (String c s)) with (escape_char c +:+ escape s).
  destruct (escape_char_cases c) as [(e & He & ->)|(Hm & Ha & ->)].
  - by rewrite (unescape_entity fuel e c), Hs.
  - change (String c EmptyString +:+ escape s) with (String c (escape s)).
    by rewrite unescape_plain, Hs.
Qed.

(** ** Properties *)

(** A tenant's text never becomes markup on the page: what [escape] prints holds
    none of the characters that open or close a tag or an attribute, and a browser
    reads the original text back from it, so nothing is lost either. *)
Theorem escape_safe_and_faithful s :
  all_chars (fun c => negb (markup c)) (escape s) = true /\
  unescape (String.length s) (escape s) = s.
Proof.
  split; [|by apply unescape_escape]. induction s as [|c s IH]; [done|].
  change (escape (String c s)) with (escape_char c +:+ escape s). rewrite all_chars_app, IH, andb_true_r.
  destruct (escape_char_cases c) as [(e & He & ->)|(Hm & _ & ->)]; [|simpl; by rewrite Hm].
  revert He. unfold entities. rewrite !elem_of_cons.
  intros [[= -> ->]|[[= -> ->]|[[= -> ->]|[[= -> ->]|[[= -> ->]|He]]]]]; [reflexivity..|set_solver].
Qed.

(** A secret's value cannot be printed by [explain]: a reference is printed by
    its label alone, marked as a secret exactly when it is one, so two references
    with one label and one secrecy print alike, whatever they stand for. *)
Theorem secrets_print_as_labels r r' :
  ref_label r = ref_label r' -> ref_is_secret r = ref_is_secret r' ->
  ref_text r = ref_text r' /\
  (ref_is_secret r = true <-> exists l, ref_text r = concats ["<secret:"; l; ">"]).
Proof.
  unfold ref_text. intros <- <-. split; [done|].
  destruct (ref_is_secret r); split; [eauto|done|done|]. intros [l H]. discriminate H.
Qed.

(** ** Witnesses *)

Lemma secrets_print_as_labels_witness :
  ref_text (RSecret "db.password") = ref_text (ROutput "db" "password" true).
Proof. apply (secrets_print_as_labels (RSecret "db.password") (ROutput "db" "password" true)); reflexivity. Defined.
