(* ===== verification/Verdict.v ===== *)
(** * The verdict

    [core/src/verdict.rs]: the structured form of what [check] decides. *)

From stdpp Require Import base strings pretty numbers option sets gmap list.
From S2P Require Import Prelude Model Intent Diagnostics.

Inductive Status := StatusOk | StatusRefused.

Record Diagnostic := mkDiagnostic {
  dg_code : Code;
  dg_step : option N;
  dg_message : string;
}.

Record PointOfNoReturn := mkPonr {
  pn_step : N;
  pn_guard : option string;
  pn_cost : string;
  pn_ack : string;
  pn_gate : option string;
}.

Record GateVerdict := mkGateVerdict {
  gv_satisfiable : bool;
  gv_min_distinct_humans : option nat;
  gv_zero_human_path : bool;
  gv_window : option Duration;
  gv_wait_alone_at : option Duration;
}.

Record BackstopVerdict := mkBackstopVerdict {
  bv_triggers : list string;
  bv_covers : list N;
  bv_installed_before : option N;
  bv_armed_before : option N;
  bv_armed_after : option N;
  bv_late_arming_window : list N;
  bv_scheduler : string;
  bv_granularity : Duration;
  bv_self_enforced : bool;
  bv_drift_policy : list (N * string);
  bv_snapshot_location : string;
  bv_snapshot_cap : N;
  bv_conditional : list (N * string);
}.

Inductive HostTouched :=
| TouchedHost (host directory : string)
| Unresolved (source : string).

Record Dispatch := mkDispatch { ds_source : string; ds_host_contract_hash : string }.

Record MayConflict := mkMayConflict {
  mc_earlier : N;
  mc_later : N;
  mc_fact : string;
  mc_refused : bool;
}.

Record StepGateVerdict := mkStepGateVerdict {
  sg_expr : string;
  sg_window : option Duration;
  sg_wait_alone_at : option Duration;
}.

Record KnellVerdict := mkKnellVerdict {
  kv_guard : option string;
  kv_cost : string;
  kv_ack : string;
}.

Record StepVerdict := mkStepVerdict {
  sv_n : N;
  sv_op : string;
  sv_locus : string;
  sv_undo : option string;
  sv_undo_locus : string;
  sv_refusal : string;
  sv_drift : option string;
  sv_gate : option StepGateVerdict;
  sv_knell : option KnellVerdict;
  sv_conditional : option string;
  sv_footprint : list string;
}.

Record Verdict := mkVerdict {
  v_plan : string;
  v_host : string;
  v_status : Status;
  v_intent : option Intent;
  v_rehearsal : bool;
  v_mode : string;
  v_commit_step : option N;
  v_fires_by_construction : bool;
  v_wane : option Duration;
  v_reversible_through : N;
  v_holds_at : list N;
  v_point_of_no_return : option PointOfNoReturn;
  v_reversible_back_to : option (N * N);
  v_gate : option GateVerdict;
  v_backstop : option BackstopVerdict;
  v_controller_only_undos : list N;
  v_held_indefinitely : list N;
  v_induced_defer : list N;
  v_hosts_touched : list (N * list HostTouched);
  v_deferred : list N;
  v_dispatch : Dispatch;
  v_may_conflicts : list MayConflict;
  v_unresolved_bindings : list string;
  v_diagnostics : list Diagnostic;
  v_steps : list StepVerdict;
}.

#[export] Instance Status_eq_dec : EqDecision Status. Proof. solve_decision. Defined.
#[export] Instance Diagnostic_eq_dec : EqDecision Diagnostic. Proof. solve_decision. Defined.
