(* ===== verification/CheckRules.v ===== *)
(** * What [check] states about a plan, and its rules

    [core/src/check.rs]: the hosts and transports of a plan, the probes it observes, and
    every field of the verdict that is not a diagnostic; then the diagnostics. The assembly
    is in [Check]. *)

From stdpp Require Import base strings pretty numbers option sets gmap list.
From S2P Require Import Prelude Model Algebra Intent Interference Gates Backstop Secrets Diagnostics Explain Verdict.

(** ** Hosts and transports *)

Definition step_host (p : Plan) (o : Op) : Result Host string :=
  match op_locus o with
  | LController | LTarget => Ok (plan_owner p)
  | LHost (Static h) => Ok h
  | LHost (Bound b) => Err b
  end.

Definition host_record (site : Site) (h : string) : option HostRecord :=
  List.find (fun r => hr_name r == h) (site_hosts site).

Definition CONTROLLER_REACH : list string := ["controller"; "local"].

Definition selected_transport (site : Site) (reach : list string) : option string :=
  List.find (fun t => (t == "local") || existsb (fun s => s == t) (site_transports site)) reach.

Definition is_hook_transport (t : string) : bool := (t != "local") && (t != "ssh").

(** ** The probes a plan observes *)

Definition guard_probes (n : N) (gs : list Guard) : list (option N * string) :=
  map (fun g => (Some n, guard_name g)) gs.

Definition op_probes (n : N) (o : Op) : list (option N * string) :=
  guard_probes n (op_pre o ++ op_post o)
  ++ match op_refusal o with
     | RKnell guard cost ack =>
         match guard with Some g => [(Some n, guard_name g)] | None => [] end
         ++ match cost, ack with CostProbe c, AckGate _ => [(Some n, c)] | _, _ => [] end
     | _ => []
     end
  ++ match op_handoff_done o with Some h => [(Some n, h)] | None => [] end.

(** [go]: the number the next leaf takes, and what was observed on the way. *)
Fixpoint item_probes (it : Item) (next : N) : N * list (option N * string) :=
  match it with
  | Par children =>
      foldl (fun '(n, out) c => let '(n', o) := item_probes c n in (n', out ++ o)) (next, []) children
  | Repeat _ _ body =>
      foldl (fun '(n, out) c => let '(n', o) := item_probes c n in (n', out ++ o)) (next, []) body
  | When guard _ _ then_ else_ =>
      let st := foldl (fun '(n, out) c => let '(n', o) := item_probes c n in (n', out ++ o))
                      (next, [(Some next, guard_name guard)]) then_ in
      foldl (fun '(n, out) c => let '(n', o) := item_probes c n in (n', out ++ o)) st else_
  | leaf =>
      ((next + 1)%N,
       match leaf with
       | Preflight guards => guard_probes next guards
       | Assert guard _ _ => [(Some next, guard_name guard)]
       | Observe probe _ => [(Some next, probe)]
       | Step s | Knell s => op_probes next (step_op s)
       | _ => []
       end)
  end.

Definition observed_probes (p : Plan) : list (option N * string) :=
  map (fun d => (None, pd_name d)) (List.filter pd_static (plan_probes p))
  ++ snd (foldl (fun '(n, out) c => let '(n', o) := item_probes c n in (n', out ++ o)) (1%N, [])
                (plan_body p)).

(** ** Bodies and deferral *)

Definition undo_body (o : Op) : option Body :=
  match op_undo o with
  | Computed body _ | Compensate body _ => Some body
  | Restore | NoUndo => None
  end.

Definition named_body (name : string) (b : option Body) : list (string * Body) :=
  match b with Some b => [(name, b)] | None => [] end.

Definition bodies (o : Op) : list (string * Body) :=
  [("do", op_do o)] ++ named_body "undo" (undo_body o) ++ named_body "suspend" (op_suspend o)
  ++ named_body "reestablish" (op_reestablish o).

Definition reachable_host (site : Site) (h : Host) : bool :=
  match host_record site h with
  | None => false
  | Some r => existsb (fun t => bool_decide (t ∈ site_transports site)) (hr_reach r)
  end.

Definition deferred_steps (site : Site) (p : Plan) : list N :=
  filter_map (fun '(n, it) =>
    match op_of it with
    | None => None
    | Some o =>
        let deferred := match step_host p o with
                        | Err _ => true
                        | Ok h => (h != plan_owner p) && negb (reachable_host site h)
                        end in
        if deferred then Some n else None
    end) (numbered (plan_body p)).

(** ** Text *)

Definition trigger_pretty (t : Trigger) : string :=
  match t with
  | After d => "after " +:+ duration_render d
  | UnlessConfirmed d => "unless confirmed within " +:+ duration_render d
  | UnlessHeartbeat deadline None => "unless heartbeat within " +:+ duration_render deadline
  | UnlessHeartbeat deadline (Some i) =>
      concats ["unless heartbeat within "; duration_render deadline; " every "; duration_render i]
  end.

Definition is_hold (r : Refusal) : bool := match r with Hold _ => true | _ => false end.
Definition is_knell (r : Refusal) : bool := match r with RKnell _ _ _ => true | _ => false end.

Definition cost_text (c : Cost) : string :=
  match c with CostProbe p => p | NoCost _ => "none" end.

Definition ack_text (a : Ack) : string :=
  match a with AckGate g => render_gate g | NoAck _ => "none" end.

Definition fact_text (f : Fact) : string :=
  match fact_anchor f with
  | Some a => concats [fact_shape f; " (anchor "; a; ")"]
  | None => fact_shape f
  end.

Definition kind_text (k : Kind) : string :=
  match k with
  | Owned => "owned"
  | Region => "region"
  | Modified => "modified"
  | Derived => "derived"
  | AppendOnly => "append_only"
  | Held => "held"
  end.

Definition drift_name (o : Op) : string :=
  match effective_drift o with
  | Some Clobber => "clobber"
  | Some Defer => "defer"
  | None => "n/a"
  end.

(** ** Reversibility and holding *)

Fixpoint take_while (f : N -> bool) (l : list N) : list N :=
  match l with
  | [] => []
  | x :: l' => if f x then x :: take_while f l' else []
  end.

Fixpoint split_segments (ns knells : list N) : list (list N) :=
  match knells with
  | [] => [ns]
  | k :: rest =>
      take_while (fun n => (n <? k)%N) ns
      :: split_segments (List.filter (fun n => (k <? n)%N) ns) rest
  end.

Fixpoint insert_N (x : N) (l : list N) : list N :=
  match l with
  | [] => [x]
  | y :: l' => if (x <=? y)%N then x :: l else y :: insert_N x l'
  end.

(** [sort_unstable] on numbers, where stability cannot be seen. *)
Definition sort_N (l : list N) : list N := foldr insert_N [] l.

Definition step_ops (p : Plan) : list (N * Op) :=
  filter_map (fun '(n, it) => option_map (fun o => (n, o)) (op_of it)) (numbered (plan_body p)).

Definition first_knell (p : Plan) : option N :=
  option_map fst (List.find (fun '(_, it) => is_knell_item it) (numbered (plan_body p))).

Definition last_step (p : Plan) : N := N.of_nat (length (numbered (plan_body p))).

Definition conflict_list (p : Plan) : list Conflict :=
  let duplicate_anchors := anchor_duplicates (plan_owner p) (plan_body p) in
  List.filter (fun c => negb (bool_decide (c ∈ duplicate_anchors)))
              (conflict (plan_owner p) (plan_body p)).

Definition reversible_through (p : Plan) : N :=
  match conflict_list p with
  | _ :: _ => 0
  | [] =>
      match first_knell p with
      | Some k => k - 1
      | None => foldl N.max 0 (map fst (step_ops p))
      end
  end%N.

Definition knell_steps (p : Plan) : list N :=
  sort_N (map fst (List.filter (fun '(_, it) => is_knell_item it) (numbered (plan_body p)))).

Definition holding_step (p : Plan) (n : N) : bool :=
  existsb (fun '(m, o) => (m == n) && is_hold (op_refusal o)) (step_ops p).

Definition holds_at (p : Plan) : list N :=
  filter_map (fun seg => List.find (holding_step p) seg)
             (split_segments (map fst (numbered (plan_body p))) (knell_steps p)).

Definition point_of_no_return (p : Plan) : option PointOfNoReturn :=
  n ← first_knell p;
  '(_, o) ← List.find (fun '(m, _) => m == n) (step_ops p);
  match op_refusal o with
  | RKnell guard cost ack =>
      Some {| pn_step := n;
              pn_guard := option_map guard_name guard;
              pn_cost := cost_text cost;
              pn_ack := ack_text ack;
              pn_gate :=
                '(_, it) ← List.find (fun '(m, _) => m == n) (numbered (plan_body p));
                s ← step_of it;
                option_map render_gate (step_gate s) |}
  | _ => None
  end.

Definition back_to (p : Plan) : option (N * N) :=
  match last (knell_steps p) with
  | Some n => if (n <? last_step p)%N then Some (last_step p, n) else None
  | None => None
  end.

(** ** What else the verdict states *)

Definition gate_verdict (site : Site) (p : Plan) : option GateVerdict :=
  option_map (fun pg =>
    let r := report (site_authenticators site) (pg_expr pg) in {|
      gv_satisfiable := satisfiable r;
      gv_min_distinct_humans := min_distinct_humans r;
      gv_zero_human_path := zero_human_path r;
      gv_window := pg_window pg;
      gv_wait_alone_at := wait_alone_at r;
    |}) (plan_gate p).

Definition conditional_steps (p : Plan) : list (N * string) :=
  flat_map (fun '(n, o) =>
      map (fun e => (n, "foreign region in " +:+ fp_shape e))
          (List.filter (fun e => fp_kind e == Region) (op_footprint o)))
    (List.filter (fun '(_, o) => effective_drift o == Some Clobber) (step_ops p)).

Definition backstop_verdict (p : Plan) : option BackstopVerdict :=
  match plan_backstop p, coverage p with
  | Some b, Some c =>
      let a := bs_arm_before b in
      let first_covered := installed_before c in
      let armed_before_ :=
        if match first_covered with None => true | Some f => (a <=? f)%N end then Some a else None in
      let armed_after := match armed_before_ with None => Some (a - 1)%N | Some _ => None end in
      Some {|
        bv_triggers := map trigger_pretty (bs_triggers b);
        bv_covers := covered c;
        bv_installed_before := first_covered;
        bv_armed_before := armed_before_;
        bv_armed_after := armed_after;
        bv_late_arming_window := late_arming_window c;
        bv_scheduler := "cron";
        bv_granularity := 60%N;
        bv_self_enforced := true;
        bv_drift_policy :=
          map (fun '(n, o) => (n, drift_name o))
              (List.filter (fun '(n, _) => bool_decide (n ∈ covered c)) (step_ops p));
        bv_snapshot_location := "target";
        bv_snapshot_cap := 1048576%N;
        bv_conditional := conditional_steps p;
      |}
  | _, _ => None
  end.

Definition controller_only (p : Plan) : list N :=
  map fst (List.filter (fun '(_, o) => op_undo_locus o == ULController) (step_ops p)).

Definition held_indefinitely (site : Site) (p : Plan) : list N :=
  if infer_intent p == Some Permanent
  then sort_N (nub (map fst (List.filter (fun '(_, o) => is_hold (op_refusal o)) (step_ops p))
                    ++ deferred_steps site p))
  else [].

Definition induced_defer (p : Plan) : list N :=
  if plan_mode p == Auto
  then map fst (List.filter (fun '(_, o) => effective_drift o == Some Defer) (step_ops p))
  else [].

Definition touched (site : Site) (p : Plan) (o : Op) : HostTouched :=
  match op_locus o with
  | LController => TouchedHost "controller" "controller"
  | _ =>
      match step_host p o with
      | Err b => Unresolved ("bound from " +:+ b)
      | Ok h =>
          let fs := match host_record site h with Some r => hr_filesystem r | None => false end in
          TouchedHost h (if fs then "target" else "controller")
      end
  end.

Definition hosts_touched (site : Site) (p : Plan) : list (N * list HostTouched) :=
  map (fun '(n, o) => (n, [touched site p o])) (step_ops p).

Definition may_conflict_verdicts (p : Plan) : list MayConflict :=
  map (fun c => mkMayConflict (c_earlier c) (c_later c) (fact_text (c_fact c))
                              (plan_strictness p == Strict))
      (mayconflict (plan_owner p) (plan_body p)).

Definition unresolved_bindings (p : Plan) : list string :=
  nub (filter_map (fun '(_, o) => match op_locus o with LHost (Bound b) => Some b | _ => None end)
                  (step_ops p)).

(** ** The rules of [check]

    The diagnostics, one definition per
    paragraph of the source, in the order the source generates them. *)

(** The closure [d] of the source. *)
Definition diag (code : Code) (n : option N) (msg : string) : Diagnostic :=
  mkDiagnostic code n (with_migration code msg).

(** [if cond { diagnostics.push(..) }] *)
Definition raise_if (cond : bool) (dg : Diagnostic) : list Diagnostic := if cond then [dg] else [].

Definition is_some {A} (o : option A) : bool := match o with Some _ => true | None => false end.

(** ** Per step: the undo, its locus and the secrets *)

Definition no_filesystem (site : Site) (p : Plan) (o : Op) : bool :=
  match step_host p o with
  | Ok h => match host_record site h with None => true | Some r => negb (hr_filesystem r) end
  | Err _ => false
  end.

Definition empty_undo_pre (u : Undo) : bool :=
  match u with
  | Computed _ pre | Compensate _ pre => is_nil pre
  | _ => false
  end.

Definition undo_diagnostics (site : Site) (p : Plan) (m : N) (o : Op) : list Diagnostic :=
  let n := Some m in
  raise_if (negb (Bool.eqb (op_undo o == NoUndo) (is_knell (op_refusal o))))
    (diag E0201 n (concats ["op "; op_id o; ": undo and knell disagree"]))
  ++ (if op_undo_locus o == ULTarget
      then match head (unclosed_undo o) with
           | Some first =>
               [diag E0202 n (concats ["op "; op_id o;
                  ": :target undo is not closed over target-local commands and facts: "; describe first])]
           | None => []
           end
      else [])
  ++ raise_if ((op_undo_locus o == NoLocus) && (op_undo o != NoUndo))
       (diag E0203 n (concats ["op "; op_id o; ": undo_locus :none with an undo body"]))
  ++ raise_if (existsb (fun e => fp_kind e == Held) (op_footprint o)
               && (negb (is_some (op_suspend o)) || negb (is_some (op_reestablish o))))
       (diag E0205 n (concats ["op "; op_id o; ": held footprint without suspend/reestablish"]))
  ++ raise_if (empty_undo_pre (op_undo o))
       (diag E0207 n (concats ["op "; op_id o; ": computed or compensating undo without undo_pre"]))
  ++ raise_if (negb (op_undo_idempotent o))
       (diag E0208 n (concats ["op "; op_id o; ": undo not provably idempotent"]))
  ++ raise_if ((op_undo_locus o == ULTarget) && no_filesystem site p o)
       (diag E0407 n (concats ["op "; op_id o; ": :target undo on a host with no run-capable executor"]))
  ++ raise_if ((op_reach o != []) && (effective_drift o == Some Defer))
       (diag E0410 n (concats ["op "; op_id o; ": reach op whose undo is drift: :defer"])).

Definition has_secret_output (o : Op) : bool := existsb out_secret (op_outputs o).

(** The static host whose executor cannot carry the stdin preamble. *)
Definition preamble_host (site : Site) (p : Plan) (o : Op) : option Host :=
  match op_locus o with
  | LController => None
  | _ =>
      match step_host p o with
      | Err _ => None
      | Ok h =>
          match host_record site h with
          | Some r => if negb (hr_stdin_preamble r) then Some (hr_name r) else None
          | None => None
          end
      end
  end.

Definition body_secret_diagnostics (site : Site) (p : Plan) (m : N) (o : Op)
    (nb : string * Body) : list Diagnostic :=
  let n := Some m in
  let '(name, body) := nb in
  match in_run_string body with
  | Some f =>
      [diag E0209 n (concats ["op "; op_id o; ": secret "; ref_label (found_ref f);
         " interpolated into a run string ("; name; ", prim "; show_nat (found_index f + 1); ")"])]
  | None => []
  end
  ++ match preamble_host site p o, in_channel body with
     | Some h, Some f =>
         [diag E0211 n (concats ["op "; op_id o; ": secret "; ref_label (found_ref f); " via ";
            found_position f; ": on "; h; ", whose executor cannot honor the stdin preamble (";
            name; ", prim "; show_nat (found_index f + 1); ")"])]
     | _, _ => []
     end.

Definition secret_diagnostics (site : Site) (p : Plan) (m : N) (o : Op) : list Diagnostic :=
  let n := Some m in
  raise_if (has_secret_output o && is_nil (site_secrets_deliver_to site))
    (diag E0606 n (concats ["op "; op_id o;
       ": a secret output and the site declares no secrets deliver_to"]))
  ++ (if has_secret_output o
      then match op_reestablish o with
           | Some r =>
               match reruns (op_do o) r with
               | Some i =>
                   [diag E0206 n (concats ["op "; op_id o; ": reestablish re-runs its do (prim ";
                      show_nat (i + 1); "); the secret output would be produced again"])]
               | None => []
               end
           | None => []
           end
      else [])
  ++ (if op_undo_locus o == ULTarget
      then match undo_body o with
           | Some body =>
               match anywhere body with
               | Some f =>
                   [diag E0210 n (concats ["op "; op_id o; ": :target undo references secret ";
                      ref_label (found_ref f); " ("; found_position f; ", prim ";
                      show_nat (found_index f + 1); ")"])]
               | None => []
               end
           | None => []
           end
      else [])
  ++ flat_map (body_secret_diagnostics site p m o) (bodies o).

Definition op_diagnostics (site : Site) (p : Plan) : list Diagnostic :=
  flat_map (fun '(n, o) => undo_diagnostics site p n o ++ secret_diagnostics site p n o) (step_ops p).

(** ** E0608 and E0609: what the executor cannot do *)

(** The host an op acts on and its reach; [None] is the source's [continue]. *)
Definition acting_host (site : Site) (p : Plan) (o : Op) : option (string * list string) :=
  match op_locus o with
  | LController => Some ("the controller", CONTROLLER_REACH)
  | _ =>
      match step_host p o with
      | Err _ => None
      | Ok h => option_map (fun r => (hr_name r, hr_reach r)) (host_record site h)
      end
  end.

(** The host and the transport, where the transport is no hook's. *)
Definition plain_executor (site : Site) (p : Plan) (o : Op) : option (string * string) :=
  '(host, reach) ← acting_host site p o;
  t ← selected_transport site reach;
  if is_hook_transport t then None else Some (host, t).

Definition first_hook (body : Body) : option Hook :=
  find_map (fun pr => match pr with PHook h => Some h | _ => None end) body.

Definition hook_diagnostics (site : Site) (p : Plan) : list Diagnostic :=
  flat_map (fun '(n, o) =>
    match plain_executor site p o with
    | None => []
    | Some (host, t) =>
        flat_map (fun '(name, body) =>
          match first_hook body with
          | Some h =>
              [diag E0608 (Some n) (concats ["op "; op_id o; ": hook(:"; hook_name h; ") in its "; name;
                 " body runs on "; host; ", reached by "; t;
                 "(), which performs run and the fact primitives and never a hook's action"])]
          | None => []
          end) (bodies o)
    end) (step_ops p).

Definition is_computed (u : Undo) : bool := match u with Computed _ _ => true | _ => false end.

Definition read_by_probe (p : Plan) (shape : string) : bool :=
  existsb (fun d => match pd_reads d with
                    | Some pat => is_some (bind_shape pat shape)
                    | None => false
                    end) (plan_probes p).

Definition unreadable_entry (p : Plan) (e : FootprintEntry) : bool :=
  match fp_kind e with
  | Owned | Modified => negb (starts_with "file:" (fp_shape e)) && negb (read_by_probe p (fp_shape e))
  | _ => false
  end.

Definition unreadable_diagnostics (site : Site) (p : Plan) : list Diagnostic :=
  flat_map (fun '(n, o) =>
    if is_computed (op_undo o)
    then match plain_executor site p o with
         | None => []
         | Some (host, t) =>
             map (fun e =>
               diag E0609 (Some n) (concats ["op "; op_id o; ": its computed undo acts on "; fp_shape e;
                 " on "; host; ", reached by "; t;
                 "(), which reads files alone, and no probe reads that fact"]))
               (List.filter (unreadable_entry p) (op_footprint o))
         end
    else []) (step_ops p).

Definition owner_reach (site : Site) (p : Plan) : list string :=
  match host_record site (plan_owner p) with Some r => hr_reach r | None => [] end.

Definition probe_decl (p : Plan) (name : string) : option ProbeDecl :=
  List.find (fun d => (pd_name d == name) || existsb (fun f => f == name) (pd_produces d)) (plan_probes p).

Definition is_run (pr : Prim) : bool := match pr with PRun _ => true | _ => false end.

Definition probe_diagnostic (site : Site) (p : Plan) (n : option N) (name : string) : list Diagnostic :=
  let decl := probe_decl p name in
  if match decl with Some d => existsb is_run (pd_body d) | None => false end then []
  else
    let '(host, reach) :=
      match option_map pd_locus decl with
      | Some LController => ("the controller", CONTROLLER_REACH)
      | _ => (plan_owner p, owner_reach site p)
      end in
    match selected_transport site reach with
    | None => []
    | Some t =>
        raise_if (negb (is_hook_transport t))
          (let why := if is_some decl then "is declared with no run body" else "has no declaration" in
           diag E0608 n (concats ["probe "; name; " "; why; ", and is observed on "; host;
             ", reached by "; t; "(), which answers a probe only by running it"]))
    end.

(** The loop over the observed probes, each name once. *)
Fixpoint probe_diagnostics_from (site : Site) (p : Plan) (seen : list string)
    (observed : list (option N * string)) : list Diagnostic :=
  match observed with
  | [] => []
  | (n, name) :: rest =>
      if bool_decide (name ∈ seen) then probe_diagnostics_from site p seen rest
      else probe_diagnostic site p n name ++ probe_diagnostics_from site p (seen ++ [name]) rest
  end.

Definition probe_diagnostics (site : Site) (p : Plan) : list Diagnostic :=
  probe_diagnostics_from site p [] (observed_probes p).

(** ** The backstop's place *)

Definition has_force (p : Plan) : bool :=
  existsb (fun '(_, it) => match step_of it with Some s => negb (is_nil (step_force s)) | None => false end)
          (numbered (plan_body p)).

Definition force_diagnostics (p : Plan) : list Diagnostic :=
  raise_if ((plan_mode p == Auto) && has_force p) (diag E0404 None "mode: :auto plan contains force:").

Definition scheduler_diagnostics (site : Site) (p : Plan) : list Diagnostic :=
  raise_if (is_some (plan_backstop p) && negb (bool_decide (plan_owner p ∈ site_scheduler_present site)))
    (diag E0403 None ("backstop scheduler not present on " +:+ plan_owner p)).

Definition artifact_diagnostics (site : Site) (p : Plan) : list Diagnostic :=
  if match coverage p with Some c => negb (is_nil (covered c)) | None => false end
  then match host_record site (plan_owner p) with
       | Some h =>
           let lang := language_of h in
           raise_if (negb (supported (hr_os h) lang))
             (diag E0403 None (concats ["backstop artifact: no "; language_name lang;
                " template for os "; hr_os h; " on "; plan_owner p]))
       | None => []
       end
  else [].

(** ** Interference *)

Definition conflict_diagnostics (p : Plan) : list Diagnostic :=
  map (fun c => diag E0301 (Some (c_later c))
         (concats ["steps "; show (c_earlier c); " and "; show (c_later c); " both write ";
            fact_text (c_fact c); " and step "; show (c_earlier c); "'s undo needs it"]))
      (conflict_list p).

Definition may_conflict_diagnostics (p : Plan) : list Diagnostic :=
  if plan_strictness p == Strict
  then map (fun c => diag E0302 (Some (c_later c))
              (concats ["may-conflict between steps "; show (c_earlier c); " and "; show (c_later c);
                 " on "; fact_text (c_fact c)]))
           (mayconflict (plan_owner p) (plan_body p))
  else [].

Definition par_diagnostics (p : Plan) : list Diagnostic :=
  let '(overlaps, reachy) := par_violations (plan_owner p) (plan_body p) in
  map (fun '(a, b) => diag E0303 (Some b)
         (concats ["par children at steps "; show a; " and "; show b; " are not umbra-disjoint"])) overlaps
  ++ map (fun n => diag E0304 (Some n) "reach op inside par") reachy.

Definition anchor_diagnostics (p : Plan) : list Diagnostic :=
  map (fun c => diag E0305 (Some (c_later c))
         (concats ["anchor declared twice on "; fact_text (c_fact c); " (steps "; show (c_earlier c);
            ", "; show (c_later c); ")"]))
      (anchor_duplicates (plan_owner p) (plan_body p)).

(** ** Reach and triggers *)

Definition reach_diagnostics (p : Plan) : list Diagnostic :=
  map (fun n => diag E0401 (Some n) "reach op without a preceding armed :target backstop")
      (reach_violations p).

Definition heartbeat_diagnostics (p : Plan) : list Diagnostic :=
  map (fun t => diag E0405 None
         ("heartbeat interval exceeds a third of its deadline: " +:+ trigger_pretty t))
      (heartbeat_violations p).

Definition trigger_diagnostic (tv : TriggerViolation) : Diagnostic :=
  match tv with
  | AfterNotWane => diag E0503 None "temporary plan's backstop after: differs from its wane"
  | TemporaryConfirmed =>
      diag E0503 None "temporary plan's backstop is unless_confirmed without fires_by_construction"
  | PermanentAfter => diag E0504 None "permanent plan's backstop expires on a timer"
  | NoConfirmOrCommitPath k =>
      diag E0504 None (show_nat k +:+ " path(s) reach neither confirm() nor commit()")
  end.

Definition trigger_diagnostics (p : Plan) : list Diagnostic :=
  match infer_intent p with
  | Some i => map trigger_diagnostic (trigger_violations i p)
  | None => []
  end.

(** ** Intent *)

Definition intent_diagnostics (p : Plan) : list Diagnostic :=
  raise_if (negb (is_some (infer_intent p)))
    (diag E0501 None "intent undeterminable: both wane and commit(), or neither")
  ++ raise_if (commit_not_last (plan_body p))
       (diag E0502 None "commit() is not the last item on its path")
  ++ (if infer_intent p == Some Permanent
      then let k := paths_without_commit (plan_body p) in
           raise_if (0 <? k)
             (diag E0505 None (show_nat k +:+ " non-refusing path(s) never reach commit()"))
      else []).

(** ** Waits and bounds *)

Definition knell_waits (r : Refusal) : bool :=
  match r with
  | RKnell _ _ (AckGate _) => true
  | RKnell (Some g) _ _ => guard_value g == Unknown
  | _ => false
  end.

Definition item_waits (it : Item) : bool :=
  match it with
  | Assert _ _ _ | When _ _ _ _ _ => true
  | _ => match step_of it with
         | Some s => is_some (step_gate s) || knell_waits (op_refusal (step_op s))
         | None => false
         end
  end.

Definition waiting_steps (p : Plan) : list N :=
  map fst (List.filter (fun '(_, it) => item_waits it) (numbered (plan_body p))).

Definition lapse_hold (it : Item) : bool :=
  match it with
  | Assert _ _ ol => ol == LapseHold
  | When _ _ ol _ _ => ol == LapseHold
  | _ => match step_of it with Some s => step_on_lapse s == LapseHold | None => false end
  end.

Definition can_hold (p : Plan) : bool :=
  negb (is_nil (holds_at p)) || existsb (fun '(_, it) => lapse_hold it) (numbered (plan_body p)).

Definition unbounded_wait (site : Site) (p : Plan) (n : N) : bool :=
  let no_max := negb (is_some (site_max_wait site)) in
  match List.find (fun '(m, _) => m == n) (numbered (plan_body p)) with
  | Some (_, Assert _ window _) => negb (is_some window) && no_max
  | Some (_, When _ window _ _ _) => negb (is_some window) && no_max
  | Some (_, it) => match step_of it with Some s => negb (is_some (step_window s)) && no_max | None => false end
  | None => false
  end.

Definition pending_unbounded (site : Site) (p : Plan) : list Diagnostic :=
  match plan_gate p with
  | Some pg =>
      raise_if (negb (is_some (pg_window pg)) && negb (is_some (site_max_wait site)))
        (diag E0506 None
           "plan-entry gate has no window: and the site has no max_wait; Pending would be unbounded")
  | None => []
  end.

Definition wait_diagnostics (site : Site) (p : Plan) : list Diagnostic :=
  match infer_intent p with
  | Some Temporary =>
      if negb (is_some (effective_wane p))
         && (negb (is_nil (waiting_steps p)) || can_hold p || negb (is_nil (deferred_steps site p)))
      then [diag E0506 None "temporary plan can reach Waiting, Held or Deferred without wane"]
      else pending_unbounded site p
  | Some Permanent =>
      flat_map (fun n => raise_if (unbounded_wait site p n)
        (diag E0506 (Some n) "permanent plan's wait has neither window: nor a site max_wait"))
        (waiting_steps p)
      ++ pending_unbounded site p
  | None => []
  end.

(** ** Gates *)

Definition gate_checks (site : Site) (requester : string) (p : Plan) (n : option N) (g : GateExpr)
    (allow_zero : bool) : list Diagnostic :=
  let auths := site_authenticators site in
  let r := report auths g in
  let unknown := unknown_authenticators auths g in
  raise_if (negb (is_nil unknown))
    (diag E0508 n ("gate names unknown authenticator(s): " +:+ join ", " unknown))
  ++ raise_if (negb (satisfiable r)) (diag E0508 n "gate is unsatisfiable")
  ++ raise_if (counts_requester auths requester g)
       (diag E0508 n ("gate counts the requester " +:+ requester))
  ++ raise_if (zero_human_path r && (negb allow_zero || (plan_mode p == Auto)))
       (diag E0509 n "gate satisfiable with zero human authenticators and no allow_zero_human")
  ++ raise_if (is_some n && (plan_mode p == Auto) && negb (zero_human_path r))
       (diag E0507 n "mode: :auto plan has a step gate needing a human").

Definition gate_diagnostics (site : Site) (requester : string) (p : Plan) : list Diagnostic :=
  match plan_gate p with
  | Some pg => gate_checks site requester p None (pg_expr pg) (pg_allow_zero_human pg)
  | None => []
  end
  ++ flat_map (fun '(n, it) =>
       match step_of it with
       | Some s => match step_gate s with
                   | Some g => gate_checks site requester p (Some n) g false
                   | None => []
                   end
       | None => []
       end) (numbered (plan_body p)).

Definition step_gated (it : Item) : bool :=
  match step_of it with Some s => is_some (step_gate s) | None => false end.

Definition step_acked (it : Item) : bool :=
  match op_of it with
  | Some o => match op_refusal o with RKnell _ _ (AckGate _) => true | _ => false end
  | None => false
  end.

Definition approval_diagnostics (site : Site) (p : Plan) : list Diagnostic :=
  match site_approval site with
  | Some _ => []
  | None =>
      raise_if (is_some (plan_gate p))
        (diag E0611 None "the plan has a gate and the site declares no approval via: binding")
      ++ flat_map (fun '(n, it) =>
           raise_if (step_gated it || step_acked it)
             (diag E0611 (Some n) (concats ["step "; show n; " ";
                (if step_gated it then "has a gate" else "is a knell whose ack: is not :none");
                " and the site declares no approval via: binding"])))
           (numbered (plan_body p))
  end.

Definition ack_checks (site : Site) (p : Plan) (n : N) (g : GateExpr) : list Diagnostic :=
  let auths := site_authenticators site in
  let unknown := unknown_authenticators auths g in
  raise_if (plan_mode p == Auto)
    (diag E0507 (Some n) "mode: :auto plan has a knell whose ack: is not :none")
  ++ raise_if (negb (is_nil unknown))
       (diag E0508 (Some n) ("ack names unknown authenticator(s): " +:+ join ", " unknown))
  ++ raise_if (negb (satisfiable (report auths g))) (diag E0508 (Some n) "ack is unsatisfiable").

Definition ack_diagnostics (site : Site) (p : Plan) : list Diagnostic :=
  flat_map (fun '(n, o) =>
    match op_refusal o with
    | RKnell _ _ (AckGate g) => ack_checks site p n g
    | _ => []
    end) (step_ops p).
