(* ===== verification/Check.v ===== *)
(** * [check], assembled

    [core/src/check.rs]: the diagnostics in generation order sorted stably by code,
    the verdict of every step, and the verdict. The theorems say what an accepted
    plan is: each composes the rule that raises a diagnostic with what its absence
    means for the run. *)

From Stdlib Require Import Sorted.
From stdpp Require Import base strings pretty numbers option sets gmap list.
From S2P Require Import Prelude Model Algebra Intent Interference Gates Backstop Secrets Diagnostics Explain Verdict CheckRules.

Definition generated (site : Site) (requester : string) (p : Plan) : list Diagnostic :=
  op_diagnostics site p
  ++ hook_diagnostics site p
  ++ unreadable_diagnostics site p
  ++ probe_diagnostics site p
  ++ force_diagnostics p
  ++ scheduler_diagnostics site p
  ++ artifact_diagnostics site p
  ++ conflict_diagnostics p
  ++ may_conflict_diagnostics p
  ++ par_diagnostics p
  ++ anchor_diagnostics p
  ++ reach_diagnostics p
  ++ heartbeat_diagnostics p
  ++ trigger_diagnostics p
  ++ intent_diagnostics p
  ++ wait_diagnostics site p
  ++ gate_diagnostics site requester p
  ++ approval_diagnostics site p
  ++ ack_diagnostics site p.

(** [sort_by_key(|x| x.code)], which is stable. *)
Fixpoint insert_diagnostic (x : Diagnostic) (l : list Diagnostic) : list Diagnostic :=
  match l with
  | [] => [x]
  | y :: l' => if code_le (dg_code x) (dg_code y) then x :: l else y :: insert_diagnostic x l'
  end.

Definition sort_diagnostics (l : list Diagnostic) : list Diagnostic := foldr insert_diagnostic [] l.

Definition diagnostics (site : Site) (requester : string) (p : Plan) : list Diagnostic :=
  sort_diagnostics (generated site requester p).

(** ** The verdict of a step *)

Definition step_locus_text (l : Locus) : string :=
  match l with
  | LController => "controller"
  | LTarget => "target"
  | LHost (Static h) => concats ["host("; h; ")"]
  | LHost (Bound b) => "host bound from " +:+ b
  end.

Definition entry_text (e : FootprintEntry) : string :=
  concats [kind_text (fp_kind e); ": "; fp_shape e;
           match fp_anchor e with Some a => " anchor " +:+ a | None => EmptyString end].

Definition op_step_verdict (site : Site) (p : Plan) (n : N) (it : Item) (o : Op) : StepVerdict := {|
  sv_n := n;
  sv_op := op_id o;
  sv_locus := step_locus_text (op_locus o);
  sv_undo := match op_undo o with NoUndo => None | _ => Some (undo_line o) end;
  sv_undo_locus := undo_locus_text (op_undo_locus o);
  sv_refusal := match op_refusal o with Revert => "revert" | Hold _ => "hold" | RKnell _ _ _ => "knell" end;
  sv_drift := match effective_drift o with
              | Some Clobber => Some "clobber"
              | Some Defer => Some "defer"
              | None => None
              end;
  sv_gate :=
    s ← step_of it;
    option_map (fun g => {|
      sg_expr := render_gate g;
      sg_window := step_window s;
      sg_wait_alone_at := wait_alone_at (report (site_authenticators site) g);
    |}) (step_gate s);
  sv_knell := match op_refusal o with
              | RKnell guard cost ack =>
                  Some (mkKnellVerdict (option_map guard_name guard) (cost_text cost) (ack_text ack))
              | _ => None
              end;
  sv_conditional := option_map snd (List.find (fun '(m, _) => m == n) (conditional_steps p));
  sv_footprint := map entry_text (op_footprint o);
|}.

Definition item_name (it : Item) : string :=
  match it with
  | Confirm => "confirm()"
  | Commit => "commit()"
  | Preflight _ => "preflight"
  | Observe probe _ => "observe " +:+ probe
  | Assert guard _ _ => "assert " +:+ guard_name guard
  | Slot name => "slot :" +:+ name
  | _ => "item"
  end.

Definition item_step_verdict (n : N) (it : Item) : StepVerdict := {|
  sv_n := n;
  sv_op := item_name it;
  sv_locus := "controller";
  sv_undo := None;
  sv_undo_locus := "none";
  sv_refusal := "n/a";
  sv_drift := None;
  sv_gate := None;
  sv_knell := None;
  sv_conditional := None;
  sv_footprint := [];
|}.

Definition step_verdict (site : Site) (p : Plan) (nit : N * Item) : StepVerdict :=
  let '(n, it) := nit in
  match op_of it with
  | Some o => op_step_verdict site p n it o
  | None => item_step_verdict n it
  end.

Definition step_verdicts (site : Site) (p : Plan) : list StepVerdict :=
  map (step_verdict site p) (numbered (plan_body p)).

Definition check (site : Site) (requester : string) (p : Plan) : Verdict :=
  let intent := infer_intent p in
  let ds := diagnostics site requester p in {|
    v_plan := plan_id p;
    v_host := plan_owner p;
    v_status := if is_nil ds then StatusOk else StatusRefused;
    v_intent := intent;
    v_rehearsal := false;
    v_mode := match plan_mode p with Manual => "manual" | Auto => "auto" end;
    v_commit_step := if intent == Some Permanent then commit_step (plan_body p) else None;
    v_fires_by_construction := plan_fires_by_construction p;
    v_wane := effective_wane p;
    v_reversible_through := reversible_through p;
    v_holds_at := holds_at p;
    v_point_of_no_return := point_of_no_return p;
    v_reversible_back_to := back_to p;
    v_gate := gate_verdict site p;
    v_backstop := backstop_verdict p;
    v_controller_only_undos := controller_only p;
    v_held_indefinitely := held_indefinitely site p;
    v_induced_defer := induced_defer p;
    v_hosts_touched := hosts_touched site p;
    v_deferred := deferred_steps site p;
    v_dispatch := mkDispatch "inventory" "-";
    v_may_conflicts := may_conflict_verdicts p;
    v_unresolved_bindings := unresolved_bindings p;
    v_diagnostics := ds;
    v_steps := step_verdicts site p;
  |}.

(** ** Lemmas: the order of diagnostics *)

Lemma code_le_trans a b c : code_le a b = true -> code_le b c = true -> code_le a c = true.
Proof. unfold code_le. rewrite !Nat.leb_le. lia. Qed.

Lemma code_le_false a b : code_le a b = false -> code_le b a = true.
Proof. unfold code_le. rewrite Nat.leb_gt, Nat.leb_le. lia. Qed.

Notation code_sorted := (StronglySorted (fun x y => code_le (dg_code x) (dg_code y) = true)).

Lemma insert_diagnostic_perm x l : insert_diagnostic x l ≡ₚ x :: l.
Proof.
  induction l as [|y l IH]; simpl; [done|]. destruct (code_le _ _); [done|].
  rewrite IH. apply Permutation_swap.
Qed.

Lemma sort_diagnostics_perm l : sort_diagnostics l ≡ₚ l.
Proof. induction l as [|x l IH]; simpl; [done|]. by rewrite insert_diagnostic_perm, IH. Qed.

Lemma insert_diagnostic_sorted x l : code_sorted l -> code_sorted (insert_diagnostic x l).
Proof.
  induction 1 as [|y l Hs IH Hall]; simpl; [repeat constructor|].
  destruct (code_le (dg_code x) (dg_code y)) eqn:E.
  - constructor; [by constructor|]. constructor; [done|].
    eapply Forall_impl; [exact Hall|]. intros z Hz. by eapply code_le_trans.
  - constructor; [done|]. apply Forall_forall. intros z Hz.
    rewrite insert_diagnostic_perm, elem_of_cons in Hz. rewrite Forall_forall in Hall.
    destruct Hz as [->|Hz]; [by apply code_le_false|auto].
Qed.

Lemma insert_diagnostic_filter c x l :
  List.filter (fun d => dg_code d == c) (insert_diagnostic x l) =
  List.filter (fun d => dg_code d == c) (x :: l).
Proof.
  induction l as [|y l IH]; [done|]. simpl insert_diagnostic.
  destruct (code_le (dg_code x) (dg_code y)) eqn:E; [done|].
  simpl. rewrite IH. simpl. case_bool_decide as Hy; case_bool_decide as Hx; try done.
  rewrite Hx, Hy in E. unfold code_le in E. by rewrite Nat.leb_refl in E.
Qed.

Lemma sort_diagnostics_filter c l :
  List.filter (fun d => dg_code d == c) (sort_diagnostics l) =
  List.filter (fun d => dg_code d == c) l.
Proof.
  induction l as [|x l IH]; simpl sort_diagnostics; [done|].
  rewrite insert_diagnostic_filter. simpl. by rewrite IH.
Qed.

(** ** Lemmas: what acceptance rules out *)

Lemma raise_if_nil cond dg : raise_if cond dg = [] <-> cond = false.
Proof. by destruct cond. Qed.

Lemma is_nil_true {A} (l : list A) : is_nil l = true <-> l = [].
Proof. by destruct l. Qed.

Definition accepted (site : Site) (requester : string) (p : Plan) : Prop :=
  v_status (check site requester p) = StatusOk.

Lemma accepted_generated site requester p :
  accepted site requester p <-> generated site requester p = [].
Proof.
  unfold accepted, check, diagnostics. simpl.
  assert (Hp := sort_diagnostics_perm (generated site requester p)).
  destruct (sort_diagnostics _) as [|d ds] eqn:E; simpl; split; try done.
  - intros _. by apply Permutation_nil_l in Hp.
  - intros H. rewrite H in Hp. by apply Permutation_nil_r in Hp.
Qed.

(** The groups of an accepted plan, all empty. *)
Record clean (site : Site) (requester : string) (p : Plan) : Prop := mkClean {
  clean_op : op_diagnostics site p = [];
  clean_hook : hook_diagnostics site p = [];
  clean_unreadable : unreadable_diagnostics site p = [];
  clean_probe : probe_diagnostics site p = [];
  clean_force : force_diagnostics p = [];
  clean_scheduler : scheduler_diagnostics site p = [];
  clean_artifact : artifact_diagnostics site p = [];
  clean_conflict : conflict_diagnostics p = [];
  clean_may : may_conflict_diagnostics p = [];
  clean_par : par_diagnostics p = [];
  clean_anchor : anchor_diagnostics p = [];
  clean_reach : reach_diagnostics p = [];
  clean_heartbeat : heartbeat_diagnostics p = [];
  clean_trigger : trigger_diagnostics p = [];
  clean_intent : intent_diagnostics p = [];
  clean_wait : wait_diagnostics site p = [];
  clean_gate : gate_diagnostics site requester p = [];
  clean_approval : approval_diagnostics site p = [];
  clean_ack : ack_diagnostics site p = [];
}.

Lemma accepted_clean site requester p : accepted site requester p <-> clean site requester p.
Proof.
  rewrite accepted_generated. unfold generated. rewrite !app_nil_iff. split.
  - intros H. destruct_and!. by split.
  - intros []. by repeat split.
Qed.

Lemma step_ops_elem p n o :
  (n, o) ∈ step_ops p <-> exists it, (n, it) ∈ numbered (plan_body p) /\ op_of it = Some o.
Proof.
  unfold step_ops. rewrite elem_of_filter_map. split.
  - intros ([m it] & Hin & H). destruct (op_of it) eqn:E; simplify_eq/=. eauto.
  - intros (it & Hin & E). exists (n, it). by rewrite E.
Qed.

Lemma clean_step site requester p n o :
  clean site requester p -> (n, o) ∈ step_ops p ->
  undo_diagnostics site p n o = [] /\ secret_diagnostics site p n o = [].
Proof.
  intros Hc Hin. assert (H := clean_op _ _ _ Hc). unfold op_diagnostics in H.
  rewrite flat_map_nil in H. specialize (H _ Hin). by apply app_nil_iff in H.
Qed.

Lemma clean_no_conflict site requester p :
  clean site requester p ->
  conflict (plan_owner p) (plan_body p) = [] /\ par_violations (plan_owner p) (plan_body p) = ([], []) /\
  (plan_strictness p = Strict -> mayconflict (plan_owner p) (plan_body p) = []).
Proof.
  intros Hc. assert (Ha := clean_anchor _ _ _ Hc). assert (Hi := clean_conflict _ _ _ Hc).
  assert (Hp := clean_par _ _ _ Hc). assert (Hm := clean_may _ _ _ Hc).
  unfold anchor_diagnostics, conflict_diagnostics, conflict_list, par_diagnostics,
    may_conflict_diagnostics in *.
  apply map_nil_iff in Ha. rewrite Ha in Hi. apply map_nil_iff in Hi. split_and!.
  - destruct (conflict _ _) as [|c cs]; [done|]. discriminate Hi.
  - destruct (par_violations _ _) as [xs ys]. apply app_nil_iff in Hp as [H1 H2].
    apply map_nil_iff in H1 as ->. by apply map_nil_iff in H2 as ->.
  - intros Hs. rewrite (bool_decide_eq_true_2 _ Hs) in Hm. by apply map_nil_iff in Hm.
Qed.

(** ** Lemmas: reversibility *)

Lemma first_knell_spec p :
  match first_knell p with
  | Some k => exists s, (1 <= k)%N /\ leaves (plan_body p) !! N.to_nat (k - 1) = Some (Knell s) /\
      forall j l, j < N.to_nat (k - 1) -> leaves (plan_body p) !! j = Some l -> is_knell_item l = false
  | None => forall l, l ∈ leaves (plan_body p) -> is_knell_item l = false
  end.
Proof.
  unfold first_knell, numbered. generalize (leaves (plan_body p)). intros ls.
  enough (H : forall n, (1 <= n)%N ->
    match List.find (fun '(_, it) => is_knell_item it) (number_from n ls) with
    | Some (k, it) => exists s, it = Knell s /\ (n <= k)%N /\ ls !! N.to_nat (k - n) = Some (Knell s) /\
        forall j l, j < N.to_nat (k - n) -> ls !! j = Some l -> is_knell_item l = false
    | None => forall l, l ∈ ls -> is_knell_item l = false
    end).
  { specialize (H 1%N ltac:(lia)). destruct (List.find _ _) as [[k it]|]; simpl; [|done].
    destruct H as (s & -> & ?). eauto. }
  induction ls as [|l ls IH]; intros n Hn; simpl; [set_solver|].
  destruct (is_knell_item l) eqn:E.
  - destruct l as [| s | | | | | | | | |]; try done. exists s. rewrite N.sub_diag. simpl.
    repeat split; [lia|]. lia.
  - specialize (IH (n + 1)%N ltac:(lia)). destruct (List.find _ _) as [[k it]|]; [|set_solver].
    destruct IH as (s & -> & Hk & Hl & Hb). exists s. split; [done|]. split; [lia|].
    replace (N.to_nat (k - n)) with (S (N.to_nat (k - (n + 1)))) by lia. split; [done|].
    intros [|j] x Hj Hx; simpl in Hx; [congruence|]. apply (Hb j); [lia|done].
Qed.

Lemma foldl_max_spec (l : list N) acc :
  (acc <= foldl N.max acc l)%N /\ forall x, x ∈ l -> (x <= foldl N.max acc l)%N.
Proof.
  revert acc. induction l as [|y l IH]; intros acc; simpl; [split; [lia|set_solver]|].
  destruct (IH (N.max acc y)) as [H1 H2]. split; [lia|]. intros x [->|Hx]%elem_of_cons; [lia|auto].
Qed.

Lemma take_not_knell ls k :
  (forall j l, j < k -> ls !! j = Some l -> is_knell_item l = false) ->
  forallb (fun l => negb (is_knell_item l)) (take k ls) = true.
Proof.
  intros H. apply forallb_elem. intros l [j Hj]%list_elem_of_lookup_1.
  apply lookup_take_Some in Hj as [Hj Hlt]. apply negb_true_iff. by apply (H j).
Qed.

Lemma reversible_through_ok p :
  is_ok (reverse_from (N.to_nat (reversible_through p)) (plan_body p)) = true.
Proof.
  assert (Hk := first_knell_spec p). unfold reversible_through.
  rewrite reverse_from_is_ok. apply take_not_knell. destruct (conflict_list p); [|simpl; lia].
  destruct (first_knell p) as [k|]; [by destruct Hk as (s & _ & _ & Hk)|].
  intros j l _ Hl. by eapply Hk, list_elem_of_lookup_2.
Qed.

Lemma no_knell_reverses p j : first_knell p = None -> is_ok (reverse_from j (plan_body p)) = true.
Proof.
  intros Hn. assert (Hk := first_knell_spec p). rewrite Hn in Hk. rewrite reverse_from_is_ok.
  apply take_not_knell. intros i l _ Hl. by eapply Hk, list_elem_of_lookup_2.
Qed.

(** ** Lemmas: holding *)

Section Segments.
Context (h : N -> bool).
Implicit Types (ns ks : list N).

Lemma take_while_sorted k ns :
  StronglySorted N.lt ns -> take_while (fun n => (n <? k)%N) ns = List.filter (fun n => (n <? k)%N) ns.
Proof.
  induction 1 as [|n ns Hs IH Hall]; simpl; [done|].
  destruct (n <? k)%N eqn:E; [by rewrite IH|]. symmetry. apply filter_nil_iff.
  intros m Hm. rewrite Forall_forall in Hall. specialize (Hall m Hm).
  apply N.ltb_ge. apply N.ltb_ge in E. lia.
Qed.

Lemma filter_strongly_sorted (f : N -> bool) ns :
  StronglySorted N.lt ns -> StronglySorted N.lt (List.filter f ns).
Proof.
  induction 1 as [|n ns Hs IH Hall]; simpl; [constructor|]. destruct (f n); [|done].
  constructor; [done|]. rewrite Forall_forall in *. intros m [Hm _]%elem_of_lfilter. auto.
Qed.

Lemma find_first_sorted ns n :
  StronglySorted N.lt ns ->
  List.find h ns = Some n <->
  n ∈ ns /\ h n = true /\ forall m, m ∈ ns -> h m = true -> (n <= m)%N.
Proof.
  induction 1 as [|x ns Hs IH Hall]; simpl; [set_solver|]. rewrite Forall_forall in Hall.
  destruct (h x) eqn:E.
  - split.
    + intros [= ->]. split; [set_solver|]. split; [done|].
      intros m [->|Hm]%elem_of_cons _; [lia|]. specialize (Hall m Hm). lia.
    + intros (Hn & _ & Hmin). f_equal. apply elem_of_cons in Hn as [->|Hn]; [done|].
      specialize (Hmin x ltac:(set_solver) E). specialize (Hall n Hn). lia.
  - rewrite IH. split; intros (Hn & Hh & Hmin).
    + split; [set_solver|]. split; [done|]. intros m [->|Hm]%elem_of_cons Hm'; [congruence|auto].
    + apply elem_of_cons in Hn as [->|Hn]; [congruence|]. split; [done|]. split; [done|]. set_solver.
Qed.

(** The first hold of each segment: one with no hold before it that a knell does
    not stand between. *)
Lemma segments_first_hold ks ns n :
  StronglySorted N.lt ns -> StronglySorted N.lt ks ->
  n ∈ filter_map (List.find h) (split_segments ns ks) <->
  n ∈ ns /\ h n = true /\ ~ n ∈ ks /\
  forall m, m ∈ ns -> h m = true -> (m < n)%N -> exists k, k ∈ ks /\ (m <= k < n)%N.
Proof.
  intros Hns Hks. revert ns Hns. induction Hks as [|k ks Hks IH Hall]; intros ns Hns; cbn [split_segments].
  - rewrite elem_of_filter_map. setoid_rewrite list_elem_of_singleton. split.
    + intros (seg & -> & Hf). apply find_first_sorted in Hf as (H1 & H2 & H3); [|done].
      split_and!; [done..|set_solver|]. intros m Hm Hh Hlt. specialize (H3 m Hm Hh). lia.
    + intros (H1 & H2 & _ & H3). exists ns. split; [done|]. apply find_first_sorted; [done|].
      split_and!; [done..|]. intros m Hm Hh. destruct (N.lt_ge_cases m n) as [Hlt|]; [|done].
      destruct (H3 m Hm Hh Hlt) as (k & Hk & _). set_solver.
  - rewrite Forall_forall in Hall.
    assert (IH' := IH _ (filter_strongly_sorted (fun n => (k <? n)%N) ns Hns)).
    rewrite take_while_sorted by done.
    assert (Hhd : List.find h (List.filter (fun n => (n <? k)%N) ns) = Some n <->
      (n < k)%N /\ n ∈ ns /\ h n = true /\ forall m, m ∈ ns -> h m = true -> (n <= m)%N).
    { rewrite find_first_sorted by by apply filter_strongly_sorted.
      setoid_rewrite elem_of_lfilter. setoid_rewrite N.ltb_lt. split.
      - intros ([Hn Hlt] & Hh & Hmin). split_and!; try done. intros m Hm Hhm.
        destruct (N.lt_ge_cases m k); [apply Hmin; done|lia].
      - intros (Hlt & Hn & Hh & Hmin). split_and!; try done. intros m [Hm _]. auto. }
    transitivity (List.find h (List.filter (fun n => (n <? k)%N) ns) = Some n \/
                  n ∈ filter_map (List.find h) (split_segments (List.filter (fun n => (k <? n)%N) ns) ks)).
    { simpl. destruct (List.find h _) as [x|]; [rewrite elem_of_cons|]; naive_solver. }
    rewrite Hhd, IH'. setoid_rewrite elem_of_lfilter. setoid_rewrite N.ltb_lt.
    setoid_rewrite elem_of_cons. split.
    + intros [(Hlt & Hn & Hh & Hmin)|([Hn Hlt] & Hh & Hnk & Hmin)].
      * split_and!; [done..| |].
        -- intros [->|Hk]; [lia|]. specialize (Hall n Hk). lia.
        -- intros m Hm Hhm Hmn. specialize (Hmin m Hm Hhm). lia.
      * split_and!; [done..| |].
        -- intros [->|Hk]; [lia|done].
        -- intros m Hm Hhm Hmn. destruct (N.lt_ge_cases k m) as [Hkm|Hkm].
           ++ destruct (Hmin m (conj Hm Hkm) Hhm Hmn) as (k' & Hk' & ?). exists k'. auto.
           ++ exists k. split; [by left|lia].
    + intros (Hn & Hh & Hnk & Hmin). destruct (N.lt_trichotomy n k) as [Hlt|[->|Hlt]]; [left|set_solver|right].
      * split_and!; try done. intros m Hm Hhm.
        destruct (N.lt_ge_cases m n) as [Hmn|]; [|done].
        destruct (Hmin m Hm Hhm Hmn) as (k' & [->|Hk'] & ?); [lia|]. specialize (Hall k' Hk'). lia.
      * split_and!; try done; [set_solver|]. intros m [Hm Hkm] Hhm Hmn.
        destruct (Hmin m Hm Hhm Hmn) as (k' & [->|Hk'] & ?); [lia|]. eauto.
Qed.
End Segments.

Lemma insert_N_lt x l : (forall y, y ∈ l -> (x < y)%N) -> insert_N x l = x :: l.
Proof.
  destruct l as [|y l]; simpl; [done|]. intros H. specialize (H y ltac:(set_solver)).
  by replace (x <=? y)%N with true by (symmetry; apply N.leb_le; lia).
Qed.

Lemma sort_N_sorted l : StronglySorted N.lt l -> sort_N l = l.
Proof.
  induction 1 as [|x l Hs IH Hall]; simpl; [done|]. rewrite IH. apply insert_N_lt.
  by apply Forall_forall.
Qed.

Lemma numbered_sorted items : StronglySorted N.lt (map fst (numbered items)).
Proof.
  unfold numbered. generalize 1%N. induction (leaves items) as [|l ls IH]; intros n; simpl; [constructor|].
  constructor; [apply IH|]. apply Forall_forall. intros m (x & -> & Hx)%elem_of_map.
  destruct x as [k it]. apply number_from_bound in Hx. simpl. lia.
Qed.

Lemma filter_pairs_sorted {A} (f : N * A -> bool) (l : list (N * A)) :
  StronglySorted N.lt (map fst l) -> StronglySorted N.lt (map fst (List.filter f l)).
Proof.
  induction l as [|x l IH]; simpl; [done|]. inversion 1 as [|? ? Hs Hall]; subst.
  destruct (f x); simpl; [|auto]. constructor; [auto|]. rewrite Forall_forall in *.
  intros m (y & -> & [Hy _]%elem_of_lfilter)%elem_of_map. apply Hall, elem_of_map. eauto.
Qed.

Lemma knell_steps_sorted p : StronglySorted N.lt (knell_steps p).
Proof.
  unfold knell_steps. assert (H := filter_pairs_sorted (fun '(_, it) => is_knell_item it) _
    (numbered_sorted (plan_body p))). by rewrite sort_N_sorted.
Qed.

Lemma knell_steps_elem p n :
  n ∈ knell_steps p <-> exists it, (n, it) ∈ numbered (plan_body p) /\ is_knell_item it = true.
Proof.
  unfold knell_steps. rewrite sort_N_sorted by (apply filter_pairs_sorted, numbered_sorted).
  rewrite elem_of_map. split.
  - intros ([m it] & -> & [Hin Hk]%elem_of_lfilter). eauto.
  - intros (it & Hin & Hk). exists (n, it). split; [done|]. by apply elem_of_lfilter.
Qed.

Lemma last_sorted_max l n :
  StronglySorted N.lt l -> last l = Some n -> n ∈ l /\ forall m, m ∈ l -> (m <= n)%N.
Proof.
  intros Hs Hl. apply last_Some in Hl as [l' ->]. split; [set_solver|].
  intros m [Hm| ->%list_elem_of_singleton]%elem_of_app; [|lia].
  induction l' as [|x l' IH]; [set_solver|]. simpl in Hs. inversion Hs as [|? ? Hs' Hall]; subst.
  apply elem_of_cons in Hm as [->|Hm]; [|auto]. rewrite Forall_forall in Hall.
  apply N.lt_le_incl, Hall. set_solver.
Qed.

(** ** Properties *)

(** A plan is accepted exactly when no rule raises a diagnostic, and a refused
    one reports every diagnostic the rules raise, once each, in the order of the code
    table and, under one code, in the order they were raised. *)
Theorem check_reports_every_rule site requester p :
  let v := check site requester p in
  (v_status v = StatusOk <-> generated site requester p = []) /\
  v_diagnostics v ≡ₚ generated site requester p /\
  StronglySorted (fun x y => code_le (dg_code x) (dg_code y) = true) (v_diagnostics v) /\
  (forall c, List.filter (fun d => dg_code d == c) (v_diagnostics v) =
             List.filter (fun d => dg_code d == c) (generated site requester p)).
Proof.
  split_and!; [apply accepted_generated|apply sort_diagnostics_perm| |intros; apply sort_diagnostics_filter].
  simpl. unfold diagnostics. induction (generated site requester p) as [|d l IH]; simpl; [constructor|].
  by apply insert_diagnostic_sorted.
Qed.

(** [reversible_through] is as far as the plan can be taken back: the partial
    reversal of that many leaves is never refused; with a knell it is the leaves
    before the first one, and no reversal that reaches past it succeeds; without one
    it is the last mutating step, and every reversal succeeds; and a plan with a
    conflict promises nothing. Walking back from the end stops at the last knell. *)
Theorem reversible_through_exact p :
  (conflict_list p <> [] -> reversible_through p = 0%N) /\
  is_ok (reverse_from (N.to_nat (reversible_through p)) (plan_body p)) = true /\
  (conflict_list p = [] ->
   match first_knell p with
   | Some k => reversible_through p = (k - 1)%N /\ (1 <= k)%N /\
       forall j, N.to_nat k <= j -> is_ok (reverse_from j (plan_body p)) = false
   | None => (forall j, is_ok (reverse_from j (plan_body p)) = true) /\
       forall n o, (n, o) ∈ step_ops p -> (n <= reversible_through p)%N
   end) /\
  (forall f t, back_to p = Some (f, t) ->
     f = last_step p /\ (t < f)%N /\ t ∈ knell_steps p /\ forall k, k ∈ knell_steps p -> (k <= t)%N).
Proof.
  assert (Hk := first_knell_spec p). split_and!.
  - unfold reversible_through. by destruct (conflict_list p).
  - apply reversible_through_ok.
  - unfold reversible_through. intros ->. destruct (first_knell p) as [k|] eqn:Hf.
    + destruct Hk as (s & Hk1 & Hs & Hb). split; [done|]. split; [done|]. intros j Hj.
      rewrite reverse_from_is_ok. apply not_true_iff_false. intros H.
      rewrite forallb_elem in H. specialize (H (Knell s)). simpl in H.
      assert (false = true); [|done]. apply H. apply (list_elem_of_lookup_2 _ (N.to_nat (k - 1))).
      rewrite lookup_take_lt by lia. done.
    + split.
      * intros j. by apply no_knell_reverses.
      * intros n o Hn. apply foldl_max_spec. apply elem_of_map. by exists (n, o).
  - unfold back_to. intros f t. destruct (last (knell_steps p)) as [n|] eqn:E; [|done].
    destruct (n <? last_step p)%N eqn:El; [|done]. intros [= <- <-].
    apply (last_sorted_max _ _ (knell_steps_sorted p)) in E as [E1 E2].
    apply N.ltb_lt in El. auto.
Qed.

(** The verdict's holds are exact: a step is listed exactly when it holds on
    refusal, is no knell, and every holding step before it is cut off from it by a
    knell, that is, when it is the first hold of its knell segment. *)
Theorem holds_at_exact p n :
  n ∈ holds_at p <->
  n ∈ map fst (numbered (plan_body p)) /\ holding_step p n = true /\ ~ n ∈ knell_steps p /\
  forall m, m ∈ map fst (numbered (plan_body p)) -> holding_step p m = true -> (m < n)%N ->
    exists k, k ∈ knell_steps p /\ (m <= k < n)%N.
Proof.
  apply segments_first_hold; [apply numbered_sorted|apply knell_steps_sorted].
Qed.

(** C2. In an accepted plan no step that may cut its own target off runs
    unprotected: each is covered by a backstop, armed by the time the step runs, on
    an owner that has a scheduler and an artifact template, and its undo does not
    defer to drift. *)
Theorem accepted_reach_is_protected site requester p n o :
  accepted site requester p -> (n, o) ∈ step_ops p -> op_reach o <> [] ->
  (exists c, coverage p = Some c /\ n ∈ covered c /\ ~ n ∈ late_arming_window c) /\
  plan_owner p ∈ site_scheduler_present site /\
  (forall h, host_record site (plan_owner p) = Some h -> supported (hr_os h) (language_of h) = true) /\
  effective_drift o <> Some Defer.
Proof.
  intros Hc%accepted_clean Hn Hr.
  assert (Hreach : reach_violations p = []) by (eapply map_nil_iff, clean_reach, Hc).
  apply step_ops_elem in Hn as Hn'. destruct Hn' as (it & Hit & Ho).
  destruct (proj1 (reach_violations_nil p) Hreach n it o Hit Ho Hr) as (c & Hcov & Hin & Hlate).
  split_and!.
  - eauto.
  - assert (Hs := clean_scheduler _ _ _ Hc). unfold scheduler_diagnostics in Hs.
    apply raise_if_nil in Hs. unfold coverage in Hcov. destruct (plan_backstop p); [|done].
    apply negb_false_iff, bool_decide_eq_true in Hs. done.
  - intros h Hh. assert (Ha := clean_artifact _ _ _ Hc). unfold artifact_diagnostics in Ha.
    rewrite Hcov, Hh in Ha. destruct (covered c) as [|m ms]; [set_solver|]. simpl in Ha.
    apply raise_if_nil in Ha. by apply negb_false_iff.
  - destruct (clean_step _ _ _ _ _ Hc Hn) as [Hu _]. unfold undo_diagnostics in Hu.
    rewrite !app_nil_iff, !raise_if_nil in Hu. destruct_and! Hu. intros Hd.
    match goal with H : (op_reach o != []) && _ = false |- _ => rename H into Hx end.
    by rewrite Hd, (bool_decide_eq_false_2 _ Hr), bool_decide_eq_true_2 in Hx.
Qed.

(** C10. In an accepted plan a [:target] undo needs nothing of the controller. Where its
    host is known before the plan runs, that host has a filesystem to keep the artifact on.
    The body of a computed or compensating undo has no controller primitive, no fact bound
    at run time and no secret, and is the same text whatever values controller-side
    references have; a [:restore] undo writes back only facts known before the plan runs,
    and none that is held; and a step with no undo is a knell. *)
Theorem accepted_target_undo_survives site requester p n o :
  accepted site requester p -> (n, o) ∈ step_ops p -> op_undo_locus o = ULTarget ->
  (forall h, step_host p o = Ok h -> exists r, host_record site h = Some r /\ hr_filesystem r = true) /\
  match op_undo o with
  | Computed body _ | Compensate body _ =>
      (forall pr f, pr ∈ body -> controller_prim pr = false /\
                                 (f ∈ prim_facts pr -> runtime_bound (fr_shape f) = false)) /\
      anywhere body = None /\
      (forall env env', (forall r, ref_target_local r = true -> env r = env' r) ->
         map (bake env) body = map (bake env') body)
  | Restore => forall e, e ∈ op_footprint o -> runtime_bound (fp_shape e) = false /\ fp_kind e <> Held
  | NoUndo => is_knell (op_refusal o) = true
  end.
Proof.
  intros Hc%accepted_clean Hn Hl. destruct (clean_step _ _ _ _ _ Hc Hn) as [H1 H2].
  unfold undo_diagnostics, secret_diagnostics in H1, H2. rewrite !app_nil_iff, !raise_if_nil in H1. rewrite !app_nil_iff in H2.
  rewrite (bool_decide_eq_true_2 _ Hl) in H1, H2.
  destruct H1 as (Hknell & Hclosed & _ & _ & _ & _ & Hfs & _). destruct H2 as (_ & _ & Hsec & _).
  assert (Hun : unclosed_undo o = []) by (destruct (unclosed_undo o); done). split.
  { intros h Hh. simpl in Hfs. unfold no_filesystem in Hfs. rewrite Hh in Hfs.
    destruct (host_record site h) as [r|]; [|done]. apply negb_false_iff in Hfs. eauto. }
  assert (Hbody : forall body pre, op_undo o = Computed body pre \/ op_undo o = Compensate body pre ->
    (forall pr f, pr ∈ body -> controller_prim pr = false /\ (f ∈ prim_facts pr -> runtime_bound (fr_shape f) = false)) /\
    anywhere body = None /\
    (forall env env', (forall r, ref_target_local r = true -> env r = env' r) -> map (bake env) body = map (bake env') body)).
  { intros body pre Hu. assert (Hub : undo_body o = Some body) by (unfold undo_body; by destruct Hu as [-> | ->]).
    assert (Hany : anywhere body = None) by (rewrite Hub in Hsec; destruct (anywhere body); done).
    destruct (unclosed_undo_body o body pre Hu) as [Hb _]. destruct (Hb Hun Hany) as [Hb1 Hb2]. done. }
  destruct (op_undo o) as [|body pre|body pre|] eqn:Hu; [|by eapply Hbody; left|by eapply Hbody; right|].
  - intros e. by apply (proj1 (closed_restore o Hu)).
  - rewrite bool_decide_eq_true_2 in Hknell by done. by apply negb_false_iff, eqb_prop in Hknell.
Qed.

(** C11. In an accepted plan every gate is a control the requester cannot pass alone:
    some set of proofs opens it, the requester's own proof never makes a difference
    to it, and, unless the plan's entry gate was declared to allow it under manual
    mode, no set of proofs opens it without a human other than the requester. *)
Theorem accepted_gates_need_others site requester p g (allow : bool) :
  accepted site requester p ->
  (exists pg, plan_gate p = Some pg /\ pg_expr pg = g /\ pg_allow_zero_human pg = allow) \/
  (exists n it s, (n, it) ∈ numbered (plan_body p) /\ step_of it = Some s /\ step_gate s = Some g
                  /\ allow = false) ->
  let auths := site_authenticators site in
  (exists proofs elapsed, satisfied auths g proofs elapsed = true) /\
  (forall proofs elapsed,
     satisfied auths g (requester :: proofs) elapsed = satisfied auths g proofs elapsed) /\
  (allow = false -> forall proofs elapsed, satisfied auths g proofs elapsed = true ->
     exists h, h ∈ proofs /\ h <> requester /\ requester_human auths h = true).
Proof.
  intros Hc%accepted_clean Hg auths. assert (Hd := clean_gate _ _ _ Hc). unfold gate_diagnostics in Hd.
  apply app_nil_iff in Hd as [Hd1 Hd2].
  assert (Hchk : exists n, gate_checks site requester p n g allow = []).
  { destruct Hg as [(pg & Hpg & <- & <-)|(n & it & s & Hin & Hs & Hg & ->)].
    - rewrite Hpg in Hd1. eauto.
    - rewrite flat_map_nil in Hd2. specialize (Hd2 _ Hin). simpl in Hd2. rewrite Hs, Hg in Hd2. eauto. }
  destruct Hchk as [n Hchk]. unfold gate_checks in Hchk. fold auths in Hchk.
  rewrite !app_nil_iff, !raise_if_nil in Hchk. destruct Hchk as (_ & Hsat & Hreq & Hzero & _).
  assert (Hirr := requester_irrelevant auths requester g Hreq).
  destruct (report_exact auths g) as (_ & _ & Hex). split_and!; [|done|].
  - apply Hex. by apply negb_false_iff.
  - intros -> proofs e Hs. rewrite andb_true_r in Hzero.
    assert (Hz : zero_human_path (report auths g) = false) by (destruct (zero_human_path _); done).
    assert (Hs' : satisfied auths g (List.filter (fun x => x != requester) proofs) e = true).
    { clear Hex. rewrite <- Hirr. eapply satisfied_mono; [|apply N.le_refl|exact Hs].
      intros x Hx. destruct (decide (x = requester)) as [->|Hne]; [set_solver|].
      apply elem_of_cons. right. apply elem_of_lfilter. by rewrite (bool_decide_eq_false_2 _ Hne). }
    apply (no_zero_human_path _ _ _ _ Hz) in Hs' as (h & [Hh Hne]%elem_of_lfilter & Hhum).
    apply negb_true_iff, bool_decide_eq_false in Hne. eauto.
Qed.

(** C12. In an accepted plan no secret is put where it would be recorded or lost: in
    no body of any step does one stand in a run string; none travels by environment
    or standard input to a known host that cannot carry it; and a secret that is
    produced is not produced again by a [reestablish], and has somewhere to go. *)
Theorem accepted_secrets_stay_put site requester p n o :
  accepted site requester p -> (n, o) ∈ step_ops p ->
  (forall name body f, (name, body) ∈ bodies o -> placed body f -> found_position f <> "cmd") /\
  (forall h name body f, preamble_host site p o = Some h -> (name, body) ∈ bodies o ->
     placed body f -> found_position f <> "env" /\ found_position f <> "stdin") /\
  (has_secret_output o = true ->
     site_secrets_deliver_to site <> [] /\
     forall r pr, op_reestablish o = Some r -> pr ∈ r -> ~ pr ∈ op_do o).
Proof.
  intros Hc%accepted_clean Hn. destruct (clean_step _ _ _ _ _ Hc Hn) as [_ Hs].
  unfold secret_diagnostics in Hs. rewrite !app_nil_iff, raise_if_nil, flat_map_nil in Hs.
  destruct Hs as (Hdel & Hre & _ & Hb).
  assert (Hbody : forall name body, (name, body) ∈ bodies o ->
    in_run_string body = None /\ (preamble_host site p o = None \/ in_channel body = None)).
  { intros name body Hin. specialize (Hb _ Hin). simpl in Hb.
    destruct (in_run_string body); [done|]. split; [done|].
    destruct (preamble_host site p o); [|by left]. destruct (in_channel body); [done|by right]. }
  split_and!.
  - intros name body f Hin Hp. destruct (Hbody _ _ Hin) as [Hr _].
    by apply (bool_decide_eq_false_1 _ (proj1 (search_None _ body) Hr f Hp)).
  - intros h name body f Hh Hin Hp. destruct (Hbody _ _ Hin) as [_ [Hx|Hx]]; [congruence|].
    assert (H := proj1 (search_None _ body) Hx f Hp). apply orb_false_iff in H as [H3 H4].
    by apply bool_decide_eq_false in H3, H4.
  - intros Ho. rewrite Ho in Hdel, Hre. simpl in Hdel. split.
    + intros E. by rewrite E in Hdel.
    + intros r pr Hr Hpr. rewrite Hr in Hre. unfold reruns in Hre.
      assert (H := position_from_spec (fun p => bool_decide (p ∈ op_do o)) r 0).
      destruct (position_from _ 0 r); [done|]. by apply (bool_decide_eq_false_1 _ (H pr Hpr)).
Qed.

(** ** What the wait rule does not see *)

Definition with_body (p : Plan) (body : list Item) : Plan := {|
  plan_id := plan_id p; plan_owner := plan_owner p; plan_gate := plan_gate p; plan_wane := plan_wane p;
  plan_renew_within := plan_renew_within p; plan_backstop := plan_backstop p;
  plan_fires_by_construction := plan_fires_by_construction p; plan_strictness := plan_strictness p;
  plan_mode := plan_mode p; plan_exclusivity := plan_exclusivity p;
  plan_require_journal := plan_require_journal p; plan_body := body; plan_probes := plan_probes p;
|}.

Lemma numbered_leaves items : numbered (leaves items) = numbered items.
Proof. unfold numbered. by rewrite leaves_of_leaves by apply leaves_leaf. Qed.

(** ** Samples *)

Definition demo_host : HostRecord := mkHostRecord "web1" "freebsd" ["ssh"] true true None.

Definition demo_site : Site :=
  mkSite [demo_host] ["ssh"] demo_auths None ["web1"] ["requester"] (Some "approver").

Definition demo_item (o : Op) (g : option GateExpr) : Item :=
  Step (mkStep o Forward g (Some 600%N) LapseRevert [] None []).

Definition demo_restore_body : Body :=
  [PRun (mkRun [PLit "netctl restore "; PRef (RParam "dev")] [] None)].

Definition demo_net_op : Op :=
  sample_op "net" [entry Owned "file:/etc/net"] [run_lit "netctl up"]
    (Computed demo_restore_body ["saved"]) ULTarget ["ssh"].

Definition demo_plan : Plan :=
  sample_plan (Some 3600%N) (Some (mkBackstop [After 3600] 1)) [demo_item demo_net_op (Some demo_gate)].

Definition demo_probe : ProbeDecl :=
  mkProbe "ready" LTarget [run_lit "test -f /ready"] [] false EmptyString None.

(** A permanent plan that waits on an unknown guard for as long as it takes: no
    window on the [when], no [max_wait] at the site. *)
Definition demo_when_plan : Plan :=
  mkPlan "sample" "web1" None None None None false Strict Manual None None
    [When (mkGuard "ready" Unknown false) None LapseRevert [demo_step "a"] [demo_step "b"]; Commit]
    [demo_probe].

(** The wait rule (E0506) reads the numbered leaves only, and a [when] is not
    one: a plan is judged as if its [when]s were their arms in sequence. So a
    permanent plan whose [when] waits on an unknown guard with no window, on a site
    with no bound on waits, is accepted, although the state machine takes such a
    [when] to [Waiting] and the language says this wait is refused. *)
Theorem when_waits_go_unreported :
  (forall site p, wait_diagnostics site (with_body p (leaves (plan_body p))) = wait_diagnostics site p) /\
  v_status (check demo_site "carol" demo_when_plan) = StatusOk /\
  site_max_wait demo_site = None /\ v_intent (check demo_site "carol" demo_when_plan) = Some Permanent.
Proof.
  split; [|vm_compute; auto]. intros site p.
  assert (Hi : infer_intent (with_body p (leaves (plan_body p))) = infer_intent p).
  { unfold infer_intent. simpl. rewrite !commit_reachable_leaves.
    by rewrite leaves_of_leaves by apply leaves_leaf. }
  unfold wait_diagnostics. rewrite Hi. unfold waiting_steps, can_hold, holds_at, knell_steps,
    deferred_steps, unbounded_wait, holding_step, step_ops. simpl. by rewrite !numbered_leaves.
Qed.

(** ** Witnesses *)

Lemma demo_accepted : accepted demo_site "carol" demo_plan.
Proof. vm_compute. reflexivity. Qed.

Lemma demo_step_op : (1%N, demo_net_op) ∈ step_ops demo_plan.
Proof. unfold step_ops. simpl. by left. Qed.

Lemma reversible_through_exact_witness :
  back_to (sample_plan None None [demo_knell "k"; demo_step "a"; Commit]) = Some (3, 1)%N /\ (1 < 3)%N.
Proof.
  split; [reflexivity|].
  apply (proj2 (proj2 (proj2 (reversible_through_exact
    (sample_plan None None [demo_knell "k"; demo_step "a"; Commit])))) 3%N 1%N). reflexivity.
Defined.

Lemma accepted_reach_is_protected_witness : plan_owner demo_plan ∈ site_scheduler_present demo_site.
Proof.
  apply (accepted_reach_is_protected demo_site "carol" demo_plan 1%N demo_net_op);
    [exact demo_accepted|exact demo_step_op|discriminate].
Defined.

Lemma accepted_target_undo_survives_witness : anywhere demo_restore_body = None.
Proof.
  destruct (accepted_target_undo_survives demo_site "carol" demo_plan 1%N demo_net_op
              demo_accepted demo_step_op eq_refl) as (_ & _ & Ha & _).
  exact Ha.
Defined.

Lemma accepted_gates_need_others_witness :
  exists h, h ∈ ["bot"; "bob"] /\ h <> "carol" /\ requester_human demo_auths h = true.
Proof.
  refine (proj2 (proj2 (accepted_gates_need_others demo_site "carol" demo_plan demo_gate false
            demo_accepted _)) eq_refl ["bot"; "bob"] 60%N _); [|vm_compute; reflexivity].
  right. exists 1%N, (demo_item demo_net_op (Some demo_gate)).
  eexists. split; [by left|]. repeat split; reflexivity.
Defined.

Lemma accepted_secrets_stay_put_witness :
  in_run_string (op_do demo_net_op) = None /\
  ~ placed (op_do demo_net_op) (mkFound 0 "cmd" (RSecret "k")).
Proof.
  split; [reflexivity|]. intros H.
  refine (proj1 (accepted_secrets_stay_put demo_site "carol" demo_plan 1%N demo_net_op
            demo_accepted demo_step_op) "do" (op_do demo_net_op) _ _ H _); [|reflexivity].
  unfold bodies. by left.
Defined.
