(* ===== verification/Prose.v ===== *)
(** * The verdict's sentence

    [core/src/prose.rs]: one clause per field group of a verdict, in the order of the
    source. The reversibility clause is shown to say of a checked plan what the reversal
    algebra does with it. *)

From stdpp Require Import base strings pretty numbers option sets gmap list.
From S2P Require Import Prelude Model Algebra Intent Interference Gates Diagnostics Verdict CheckRules Check.

Definition steps_text (ns : list N) : string := join ", " (map show ns).

(** The range of a list: its least and its greatest element. *)
Definition range_text (ns : list N) : string :=
  match ns with
  | [] => "no steps"
  | [n] => "step " +:+ show n
  | n :: rest => concats ["steps "; show (foldl N.min n rest); "–"; show (foldl N.max n rest)]
  end.

(** [.map(f).unwrap_or_default()] *)
Definition opt_text {A} (f : A -> string) (v : option A) : string :=
  match v with Some x => f x | None => EmptyString end.

(** [.map(|x| x.to_string()).unwrap_or("?")] *)
Definition or_unknown {A} (f : A -> string) (v : option A) : string :=
  match v with Some x => f x | None => "?" end.

Definition intent_clause (v : Verdict) : string :=
  let induced := match v_induced_defer v with
                 | [] => EmptyString
                 | ns => ", revert can be induced to defer at step " +:+ steps_text ns
                 end in
  match v_intent v with
  | Some Temporary => concats ["temporary; reverts at wane "; or_unknown duration_render (v_wane v); induced]
  | Some Permanent =>
      let held := match v_held_indefinitely v with
                  | [] => EmptyString
                  | ns => concats [", held indefinitely at step "; steps_text ns; " until an operator acts"]
                  end in
      concats ["permanent; commits at step "; or_unknown show (v_commit_step v); held;
               (if v_fires_by_construction v then ", undo fires by construction" else EmptyString); induced]
  | None => "intent undetermined"
  end.

Definition reversibility_clause (v : Verdict) : string :=
  let total := wrap32 (N.of_nat (length (v_steps v))) in
  if (v_reversible_through v =? 0)%N then "not reversible past step 0"
  else if (total <=? v_reversible_through v)%N && negb (is_some (v_point_of_no_return v))
  then concats ["fully reversible ("; show total; " steps)"]
  else "reversible through step " +:+ show (v_reversible_through v).

Definition hold_clause (v : Verdict) (n : N) : string :=
  if v_mode v == "auto" then concats ["step "; show n; " holds on refusal (until resume, recant or commit)"]
  else concats ["step "; show n; " holds on refusal (human required)"].

Definition ponr_clause (v : Verdict) (p : PointOfNoReturn) : string :=
  concats ["step "; show (pn_step p); " is a point of no return"; opt_text (fun g => ", guard " +:+ g) (pn_guard p);
           ", cost "; pn_cost p; ", acknowledged by "; pn_ack p;
           opt_text (fun '(f, t) => concats ["; step "; show f; " reversible back to step "; show t])
             (v_reversible_back_to v)].

Definition gate_clause (g : GateVerdict) : string :=
  if negb (gv_satisfiable g) then "gate unsatisfiable"
  else if gv_zero_human_path g then "gate satisfiable with no human (allowed)"
  else concats ["gate satisfiable; minimum "; or_unknown show_nat (gv_min_distinct_humans g); " distinct humans"].

Definition step_gate_clause (s : StepVerdict) : list string :=
  match sv_gate s with
  | Some g => [concats ["step "; show (sv_n s); " gated by "; sg_expr g;
                        opt_text (fun d => ", satisfiable by wait alone at +" +:+ duration_render d) (sg_wait_alone_at g)]]
  | None => []
  end.

Definition backstop_clause (v : Verdict) (b : BackstopVerdict) : string :=
  concats
    ["expiry backstop ("; join ", " (bv_triggers b); ") covers "; range_text (bv_covers b); " on the target";
     opt_text (fun n => ", installed before step " +:+ show n) (bv_installed_before b);
     opt_text (fun n => ", armed before step " +:+ show n) (bv_armed_before b);
     opt_text (fun n => ", armed after step " +:+ show n) (bv_armed_after b);
     (if is_nil (bv_late_arming_window b) then EmptyString
      else concats [", engine-only for "; range_text (bv_late_arming_window b); " until armed"]);
     ", fires within ~"; duration_render (bv_granularity b); " after the deadline";
     (if bv_self_enforced b then ", self-enforced on " +:+ v_host v else EmptyString);
     (if is_nil (bv_drift_policy b) then EmptyString
      else ", drift: " +:+ join ", " (map (fun '(n, p) => concats [show n; " "; p]) (bv_drift_policy b)));
     ", snapshots on target (cap "; show (bv_snapshot_cap b); ")"].

Definition conditional_clause (c : N * string) : string :=
  concats ["step "; show (fst c); " reverts unaided unless "; snd c; "; then deferred"].

Definition controller_clause (ns : list N) : list string :=
  match ns with
  | [] => []
  | [n] => [concats ["step "; show n; " reverts only while the engine lives"]]
  | ns => [concats ["steps "; steps_text ns; " revert only while the engine lives"]]
  end.

Definition touched_text (h : HostTouched) : string :=
  match h with
  | TouchedHost host directory =>
      if directory == "controller" then host +:+ " (no instance directory; markers on controller)" else host
  | Unresolved _ => "a host bound at runtime"
  end.

Definition touched_clause (v : Verdict) (t : N * list HostTouched) : list string :=
  let '(n, hs) := t in
  let skip := match hs with
              | [TouchedHost host directory] =>
                  ((host == v_host v) && (directory == "target")) || (host == "controller")
              | _ => false
              end in
  if skip then [] else [concats ["step "; show n; " touches "; join ", " (map touched_text hs)]].

Definition may_conflict_clause (m : MayConflict) : string :=
  concats ["may-conflict between steps "; show (mc_earlier m); " and "; show (mc_later m); " on "; mc_fact m;
           (if mc_refused m then " (strict: refused)" else " (warn)")].

Definition clauses (v : Verdict) : list string :=
  [intent_clause v; reversibility_clause v]
  ++ map (hold_clause v) (v_holds_at v)
  ++ match v_point_of_no_return v with Some p => [ponr_clause v p] | None => [] end
  ++ match v_gate v with Some g => [gate_clause g] | None => [] end
  ++ flat_map step_gate_clause (v_steps v)
  ++ match v_backstop v with
     | Some b => backstop_clause v b :: map conditional_clause (bv_conditional b)
     | None => []
     end
  ++ controller_clause (v_controller_only_undos v)
  ++ flat_map (touched_clause v) (v_hosts_touched v)
  ++ (if is_nil (v_deferred v) then [] else [concats ["step "; steps_text (v_deferred v); " deferred (handoff printed)"]])
  ++ ["clause dispatch from " +:+ ds_source (v_dispatch v)]
  ++ map may_conflict_clause (v_may_conflicts v)
  ++ (if is_nil (v_unresolved_bindings v) then []
      else ["unresolved binding(s): " +:+ join ", " (v_unresolved_bindings v)]).

Definition diagnostic_text (d : Diagnostic) : string :=
  concats [as_str (dg_code d); opt_text (fun n => " at step " +:+ show n) (dg_step d); ": "; dg_message d].

Definition prose (v : Verdict) : string :=
  let head := concats [v_plan v; " on "; v_host v; ": "] in
  match v_status v with
  | StatusRefused => concats [head; "refused; "; join "; " (map diagnostic_text (v_diagnostics v)); "."; newline]
  | StatusOk => concats [head; join "; " (clauses v); "."; newline]
  end.

(** ** Lemmas *)

Lemma show_inj a b : show a = show b -> a = b.
Proof. unfold show. apply pretty_N_inj. Qed.

Lemma step_verdicts_length site p : length (step_verdicts site p) = length (leaves (plan_body p)).
Proof.
  unfold step_verdicts, numbered. rewrite length_map. generalize 1%N.
  induction (leaves (plan_body p)) as [|l ls IH]; intros n; [done|]. simpl. by rewrite IH.
Qed.

Lemma step_ops_positive p n o : (n, o) ∈ step_ops p -> (1 <= n)%N.
Proof. intros (it & Hn & _)%step_ops_elem. unfold numbered in Hn. apply number_from_bound in Hn. lia. Qed.

(** The clause by its cases. *)
Lemma reversibility_cases v :
  let total := wrap32 (N.of_nat (length (v_steps v))) in
  (v_reversible_through v = 0%N /\ reversibility_clause v = "not reversible past step 0") \/
  (v_reversible_through v <> 0%N /\ (total <= v_reversible_through v)%N /\ v_point_of_no_return v = None /\
   reversibility_clause v = concats ["fully reversible ("; show total; " steps)"]) \/
  (v_reversible_through v <> 0%N /\
   reversibility_clause v = "reversible through step " +:+ show (v_reversible_through v)).
Proof.
  unfold reversibility_clause. destruct (N.eqb_spec (v_reversible_through v) 0) as [E|E]; [by left|right].
  destruct (N.leb_spec (wrap32 (N.of_nat (length (v_steps v)))) (v_reversible_through v)); cbn [andb].
  - destruct (v_point_of_no_return v) eqn:P; cbn [is_some negb]; [by right|by left].
  - by right.
Qed.

Lemma reversible_through_leaves p :
  conflict_list p = [] ->
  match first_knell p with
  | Some k => (1 <= k)%N /\ reversible_through p = (k - 1)%N /\ (N.to_nat k <= length (leaves (plan_body p)))
  | None => reversible_through p = foldl N.max 0%N (map fst (step_ops p))
  end.
Proof.
  intros Hc. assert (Hk := first_knell_spec p). unfold reversible_through. rewrite Hc.
  destruct (first_knell p) as [k|]; [|done]. destruct Hk as (s & H1 & Hl & _). split; [done|]. split; [done|].
  apply lookup_lt_Some in Hl. lia.
Qed.

(** ** Properties *)

(** The sentence tells the truth about reversal. For a plan of fewer than 2^32 leaves,
    checked: if it says the plan is fully reversible then no conflict stands against it,
    the number it gives is the number of leaves, and every partial reversal succeeds; if
    it says reversible through step n then reversing the first n leaves succeeds, and a
    knell, where there is one, is the next leaf; if it says not reversible past step 0 then
    there is a conflict, the first leaf is a knell, or no leaf changes anything. *)
Theorem the_sentence_tells_the_reversal site requester p :
  is_u32 (N.of_nat (length (leaves (plan_body p)))) ->
  let c := reversibility_clause (check site requester p) in
  (forall n, c = concats ["fully reversible ("; show n; " steps)"] ->
     n = N.of_nat (length (leaves (plan_body p))) /\ conflict_list p = [] /\
     forall j, is_ok (reverse_from j (plan_body p)) = true) /\
  (forall n, c = "reversible through step " +:+ show n ->
     conflict_list p = [] /\ is_ok (reverse_from (N.to_nat n) (plan_body p)) = true /\
     forall k, first_knell p = Some k -> n = (k - 1)%N) /\
  (c = "not reversible past step 0" ->
     conflict_list p <> [] \/ first_knell p = Some 1%N \/ step_ops p = []).
Proof.
  intros Hlen. cbn zeta. assert (Hcase := reversibility_cases (check site requester p)). cbn zeta in Hcase.
  change (v_reversible_through (check site requester p)) with (reversible_through p) in Hcase.
  change (v_steps (check site requester p)) with (step_verdicts site p) in Hcase.
  rewrite step_verdicts_length, (wrap32_small _ Hlen) in Hcase.
  assert (Hz : reversible_through p <> 0%N -> conflict_list p = []).
  { unfold reversible_through. by destruct (conflict_list p). }
  destruct Hcase as [[H0 ->]|[(H0 & Ht & _ & ->)|[H0 ->]]]; (split; [|split]); try (intros n Hn; discriminate Hn);
    try discriminate.
  - intros _. destruct (conflict_list p) eqn:Hc; [right|by left].
    assert (Hl := reversible_through_leaves p Hc). destruct (first_knell p) as [k|].
    + left. f_equal. lia.
    + right. rewrite H0 in Hl. destruct (step_ops p) as [|[n o] l] eqn:Hs; [done|]. exfalso.
      assert (Hn : (1 <= n)%N) by (by apply (step_ops_positive p n o); rewrite Hs; left).
      assert (Hm : (n <= foldl N.max 0 (map fst ((n, o) :: l)))%N) by (apply foldl_max_spec; by left). lia.
  - intros n Hn. specialize (Hz H0). assert (Hl := reversible_through_leaves p Hz).
    rewrite !concat_empty_cons in Hn. apply app_inj_r, string_app_inj_r, show_inj in Hn as <-.
    split; [done|]. split; [done|].
    intros j. apply no_knell_reverses. destruct (first_knell p) as [k|]; [lia|done].
  - intros n Hn%app_inj_r%show_inj. subst n. specialize (Hz H0). split; [done|].
    split; [apply reversible_through_ok|]. intros k Hk. assert (Hl := reversible_through_leaves p Hz).
    rewrite Hk in Hl. by destruct Hl as (_ & -> & _).
Qed.

(** A range is printed by its ends, whatever lies between. *)
Theorem range_hides_gaps : range_text [1; 3]%N = range_text [1; 2; 3]%N.
Proof. vm_compute. reflexivity. Qed.

(** ** Witnesses *)

Definition demo_site_prose : Site := mkSite [] [] [] None [] [] None.

Definition demo_reversible : Plan := sample_plan (Some 600%N) None [demo_step "a"; demo_step "b"].

Lemma the_sentence_tells_the_reversal_witness :
  let c := reversibility_clause (check demo_site_prose "ann" demo_reversible) in
  c = concats ["fully reversible ("; show 2; " steps)"] /\
  (forall n, c = concats ["fully reversible ("; show n; " steps)"] ->
     n = N.of_nat (length (leaves (plan_body demo_reversible))) /\ conflict_list demo_reversible = [] /\
     forall j, is_ok (reverse_from j (plan_body demo_reversible)) = true) /\
  (forall n, c = "reversible through step " +:+ show n ->
     conflict_list demo_reversible = [] /\ is_ok (reverse_from (N.to_nat n) (plan_body demo_reversible)) = true /\
     forall k, first_knell demo_reversible = Some k -> n = (k - 1)%N) /\
  (c = "not reversible past step 0" ->
     conflict_list demo_reversible <> [] \/ first_knell demo_reversible = Some 1%N \/ step_ops demo_reversible = []).
Proof.
  split; [vm_compute; reflexivity|].
  apply (the_sentence_tells_the_reversal demo_site_prose "ann" demo_reversible). vm_compute. reflexivity.
Defined.
