(* ===== verification/Canon.v ===== *)
(** * The canonical encoding

    [core/src/canon.rs]: the length-prefixed, tagged bytes that the journal chain and
    the request digest hash. A type that can be encoded is an instance of [Canon];
    [CanonLaws] is what the encoding promises to its clients: encoding only appends,
    and what it appends can be told from whatever follows, so two values with the
    same bytes are the same value. Lengths and numbers are 64-bit; [canon_wf] says a
    value stays within that. *)

From Stdlib Require Import Ascii.
From stdpp Require Import base strings pretty numbers option sets gmap list.
From S2P Require Import Prelude.

(** The encoder's buffer: bytes, as a string. *)
Record Encoder := mkEncoder { buf : string }.

Definition encoder_new : Encoder := mkEncoder EmptyString.
Definition push (b : N) (e : Encoder) : Encoder := mkEncoder (buf e +:+ String (chr b) EmptyString).
Definition extend (bs : string) (e : Encoder) : Encoder := mkEncoder (buf e +:+ bs).

(** [u64::to_be_bytes] *)
Fixpoint be_bytes (k : nat) (n : N) : string :=
  match k with
  | O => EmptyString
  | S k' => be_bytes k' (n / 256) +:+ String (chr (n mod 256)) EmptyString
  end.

Definition to_be_bytes (n : N) : string := be_bytes 8 n.

(** [bytes.len() as u64] *)
Definition len64 (s : string) : N := N.of_nat (String.length s).

Class Canon (A : Type) := canon : A -> Encoder -> Encoder.

Definition enc_none (e : Encoder) : Encoder := push 0 e.
Definition enc_some {A} `{Canon A} (v : A) (e : Encoder) : Encoder := canon v (push 1 e).

Definition enc_option {A} `{Canon A} (v : option A) (e : Encoder) : Encoder :=
  match v with
  | None => enc_none e
  | Some x => enc_some x e
  end.

Definition enc_bool (b : bool) (e : Encoder) : Encoder := push (if b then 1 else 0) (push 2 e).
Definition enc_u64 (n : N) (e : Encoder) : Encoder := extend (to_be_bytes n) (push 3 e).

Definition enc_octets (bytes : string) (e : Encoder) : Encoder :=
  extend bytes (extend (to_be_bytes (len64 bytes)) (push 5 e)).

Definition enc_str (s : string) (e : Encoder) : Encoder := enc_octets s e.

Definition enc_list {A} `{Canon A} (items : list A) (e : Encoder) : Encoder :=
  foldl (fun e i => canon i e) (extend (to_be_bytes (N.of_nat (length items))) (push 6 e)) items.

Definition enc_record (count : N) (e : Encoder) : Encoder := extend (to_be_bytes count) (push 7 e).

Definition enc_variant (name : string) (fields : N) (e : Encoder) : Encoder :=
  enc_record fields (enc_str name e).

#[export] Instance canon_string : Canon string := enc_str.
#[export] Instance canon_N : Canon N := enc_u64.
#[export] Instance canon_bool : Canon bool := enc_bool.
#[export] Instance canon_list {A} `{Canon A} : Canon (list A) := enc_list.
#[export] Instance canon_option {A} `{Canon A} : Canon (option A) := enc_option.

Definition message {A} `{Canon A} (domain : string) (v : A) : string :=
  buf (canon v (enc_str domain encoder_new)).

(** ** The promise *)

(** The bytes an encoding step appends to an empty buffer. *)
Definition emitted (f : Encoder -> Encoder) : string := buf (f encoder_new).

(** An encoding step that only appends. *)
Definition appends (f : Encoder -> Encoder) : Prop :=
  forall e, f e = mkEncoder (buf e +:+ emitted f).

Class CanonLaws (A : Type) `{Canon A} := mkCanonLaws {
  canon_wf : A -> Prop;
  canon_appends : forall x, appends (canon x);
  canon_inj : forall x y r s, canon_wf x -> canon_wf y ->
    emitted (canon x) +:+ r = emitted (canon y) +:+ s -> x = y /\ r = s;
}.

(** ** Bytes *)

Lemma chr_inj a b : (a < 256)%N -> (b < 256)%N -> chr a = chr b -> a = b.
Proof.
  unfold chr. intros Ha Hb H.
  rewrite <- (N_ascii_embedding a Ha), <- (N_ascii_embedding b Hb). by rewrite H.
Qed.

Lemma be_bytes_length k n : String.length (be_bytes k n) = k.
Proof. revert n. induction k as [|k IH]; intros n; simpl; [done|]. rewrite length_app_s, IH. simpl. lia. Qed.

Lemma be_bytes_inj k a b :
  (a < 256 ^ N.of_nat k)%N -> (b < 256 ^ N.of_nat k)%N -> be_bytes k a = be_bytes k b -> a = b.
Proof.
  revert a b. induction k as [|k IH]; intros a b Ha Hb H.
  - simpl in *. lia.
  - rewrite Nat2N.inj_succ, N.pow_succ_r' in Ha, Hb. cbn [be_bytes] in H.
    apply app_inj_length in H as [H1 H2]; [|by rewrite !be_bytes_length].
    injection H2 as H2. apply chr_inj in H2; [|apply N.mod_lt; lia..].
    apply IH in H1; [|apply N.Div0.div_lt_upper_bound; lia..].
    rewrite (N.div_mod a 256), (N.div_mod b 256) by lia. congruence.
Qed.

Lemma to_be_bytes_inj a b r s :
  is_u64 a -> is_u64 b -> to_be_bytes a +:+ r = to_be_bytes b +:+ s -> a = b /\ r = s.
Proof.
  unfold is_u64, to_be_bytes. intros Ha Hb H.
  apply app_inj_length in H as [H ->]; [|by rewrite !be_bytes_length].
  split; [|done]. apply (be_bytes_inj 8); [| |done]; by change (256 ^ N.of_nat 8)%N with (2 ^ 64)%N.
Qed.

(** ** Encoding steps append *)

Lemma appends_push b : appends (push b).
Proof. done. Qed.

Lemma appends_extend bs : appends (extend bs).
Proof. done. Qed.

Lemma appends_comp f g : appends f -> appends g -> appends (fun e => g (f e)).
Proof.
  intros Hf Hg e. unfold emitted. rewrite (Hg (f e)), (Hf e), (Hg (f encoder_new)), (Hf encoder_new).
  cbn [buf]. rewrite (app_assoc_s (buf e)). done.
Qed.

Lemma emitted_comp f g : appends g -> emitted (fun e => g (f e)) = emitted f +:+ emitted g.
Proof. intros Hg. unfold emitted at 1. by rewrite (Hg (f encoder_new)). Qed.

Lemma appends_octets s : appends (enc_octets s).
Proof.
  apply (appends_comp (fun e => extend (to_be_bytes (len64 s)) (push 5 e)) (extend s)); [|done].
  by apply (appends_comp (push 5) (extend _)).
Qed.

Lemma appends_u64 n : appends (enc_u64 n).
Proof. apply (appends_comp (push 3) (extend _)); done. Qed.

Lemma appends_record n : appends (enc_record n).
Proof. apply (appends_comp (push 7) (extend _)); done. Qed.

Lemma appends_variant name n : appends (enc_variant name n).
Proof. apply (appends_comp (enc_str name) (enc_record n)); [apply appends_octets|apply appends_record]. Qed.

Lemma appends_id : appends (fun e => e).
Proof. intros [b]. unfold emitted. simpl. by rewrite app_nil_s. Qed.

Lemma appends_foldl {A} (f : A -> Encoder -> Encoder) l :
  (forall x, appends (f x)) -> appends (fun e => foldl (fun e i => f i e) e l).
Proof.
  intros Hf. induction l as [|x l IH]; simpl; [apply appends_id|].
  apply (appends_comp (f x) (fun e => foldl (fun e i => f i e) e l)); auto.
Qed.

(** A record is a sequence of steps. *)
Definition run_steps (fs : list (Encoder -> Encoder)) : Encoder -> Encoder :=
  fun e => foldl (fun x f => f x) e fs.

Fixpoint emitted_steps (fs : list (Encoder -> Encoder)) : string :=
  match fs with
  | [] => EmptyString
  | f :: fs' => emitted f +:+ emitted_steps fs'
  end.

Lemma run_steps_appends fs : Forall appends fs -> appends (run_steps fs).
Proof.
  unfold run_steps. induction 1 as [|f fs Hf _ IH]; simpl; [apply appends_id|].
  apply (appends_comp f (fun e => foldl (fun x f => f x) e fs)); done.
Qed.

Lemma run_steps_emitted fs : Forall appends fs -> emitted (run_steps fs) = emitted_steps fs.
Proof.
  induction 1 as [|f fs Hf Hfs IH]; [done|]. cbn [emitted_steps]. rewrite <- IH.
  apply (emitted_comp f (run_steps fs)). by apply run_steps_appends.
Qed.

(** What each step emits. *)
Lemma emitted_u64 n : emitted (enc_u64 n) = String (chr 3) (to_be_bytes n).
Proof. done. Qed.

Lemma emitted_octets s : emitted (enc_octets s) = String (chr 5) (to_be_bytes (len64 s) +:+ s).
Proof. done. Qed.

Lemma emitted_record n : emitted (enc_record n) = String (chr 7) (to_be_bytes n).
Proof. done. Qed.

Lemma octets_inj a b r s :
  is_u64 (len64 a) -> is_u64 (len64 b) ->
  emitted (enc_octets a) +:+ r = emitted (enc_octets b) +:+ s -> a = b /\ r = s.
Proof.
  intros Ha Hb. rewrite !emitted_octets. rewrite !append_cons. intros H%string_tail. rewrite !app_assoc_s in H.
  apply to_be_bytes_inj in H as [Hl H]; [|done..].
  apply app_inj_length in H; [done|]. unfold len64 in Hl. lia.
Qed.

Lemma variant_emitted name n : emitted (enc_variant name n) = emitted (enc_octets name) +:+ emitted (enc_record n).
Proof. apply (emitted_comp (enc_str name) (enc_record n)), appends_record. Qed.

Lemma record_inj a b r s :
  is_u64 a -> is_u64 b -> emitted (enc_record a) +:+ r = emitted (enc_record b) +:+ s -> a = b /\ r = s.
Proof.
  intros Ha Hb. rewrite !emitted_record. rewrite !append_cons. intros H%string_tail. by apply to_be_bytes_inj in H.
Qed.

Lemma variant_inj a b n m r s :
  is_u64 (len64 a) -> is_u64 (len64 b) -> is_u64 n -> is_u64 m ->
  emitted (enc_variant a n) +:+ r = emitted (enc_variant b m) +:+ s -> a = b /\ n = m /\ r = s.
Proof.
  intros Ha Hb Hn Hm. rewrite !variant_emitted, !app_assoc_s. intros He.
  apply octets_inj in He as [-> He]; [|done..]. by apply record_inj in He as [-> ->].
Qed.

Lemma u64_inj a b r s :
  is_u64 a -> is_u64 b -> emitted (enc_u64 a) +:+ r = emitted (enc_u64 b) +:+ s -> a = b /\ r = s.
Proof.
  intros Ha Hb. rewrite !emitted_u64. rewrite !append_cons. intros H%string_tail. by apply to_be_bytes_inj in H.
Qed.

(** ** Instances of the promise *)

#[export, refine] Instance canon_laws_string : CanonLaws string :=
  { canon_wf s := is_u64 (len64 s) }.
Proof.
  - apply appends_octets.
  - apply octets_inj.
Defined.

#[export, refine] Instance canon_laws_N : CanonLaws N := { canon_wf n := is_u64 n }.
Proof.
  - apply appends_u64.
  - apply u64_inj.
Defined.

#[export, refine] Instance canon_laws_bool : CanonLaws bool := { canon_wf _ := True }.
Proof.
  - intros b. apply (appends_comp (push 2) (push _)); done.
  - intros [] [] r s _ _ H; vm_compute in H; by injection H as ->.
Defined.

Section Containers.
Context {A : Type} `{CanonLaws A}.

Lemma option_appends (v : option A) : appends (canon v).
Proof.
  destruct v; [|done]. apply (appends_comp (push 1) (canon a)); [done|apply canon_appends].
Qed.

Lemma emitted_some (x : A) : emitted (canon (Some x)) = String (chr 1) (emitted (canon x)).
Proof. apply (emitted_comp (push 1) (canon x)), canon_appends. Qed.

#[export, refine] Instance canon_laws_option : CanonLaws (option A) :=
  { canon_wf v := match v with Some x => canon_wf x | None => True end }.
Proof.
  - apply option_appends.
  - intros [x|] [y|] r s Hx Hy; rewrite ?emitted_some, ?append_cons; [|done|done|].
    + intros He%string_tail. by apply canon_inj in He as [-> ->].
    + intros He%string_tail. done.
Defined.

Lemma emitted_list (l : list A) :
  emitted (canon l) =
  String (chr 6) (to_be_bytes (N.of_nat (length l)) +:+ emitted (fun e => foldl (fun e i => canon i e) e l)).
Proof.
  unfold canon, canon_list, enc_list.
  rewrite (emitted_comp (fun e => extend (to_be_bytes (N.of_nat (length l))) (push 6 e))
             (fun e => foldl (fun e i => canon i e) e l)); [done|].
  apply appends_foldl, canon_appends.
Qed.

Lemma elements_inj (l k : list A) r s :
  length l = length k -> Forall canon_wf l -> Forall canon_wf k ->
  emitted (fun e => foldl (fun e i => canon i e) e l) +:+ r =
  emitted (fun e => foldl (fun e i => canon i e) e k) +:+ s -> l = k /\ r = s.
Proof.
  assert (Hcons : forall (x : A) l, emitted (fun e => foldl (fun e i => canon i e) e (x :: l)) =
    emitted (canon x) +:+ emitted (fun e => foldl (fun e i => canon i e) e l)).
  { intros x l'. apply (emitted_comp (canon x) (fun e => foldl (fun e i => canon i e) e l')).
    apply appends_foldl, canon_appends. }
  revert k. induction l as [|x l IH]; intros [|y k] Hlen Hl Hk; try done.
  rewrite !Hcons, !app_assoc_s. inversion Hl; inversion Hk; subst. intros He.
  apply canon_inj in He as [-> He]; [|done..]. simpl in Hlen.
  apply IH in He as [-> ->]; [done|lia|done..].
Qed.

#[export, refine] Instance canon_laws_list : CanonLaws (list A) :=
  { canon_wf l := is_u64 (N.of_nat (length l)) /\ Forall canon_wf l }.
Proof.
  - intros l. apply (appends_comp (fun e => extend (to_be_bytes (N.of_nat (length l))) (push 6 e))
                       (fun e => foldl (fun e i => canon i e) e l)).
    + apply (appends_comp (push 6) (extend _)); done.
    + apply appends_foldl, canon_appends.
  - intros l k r s [Hl Hwl] [Hk Hwk]. rewrite !emitted_list, !append_cons. intros He%string_tail.
    rewrite !app_assoc_s in He. apply to_be_bytes_inj in He as [Hlen He]; [|done..].
    apply elements_inj in He; [done|lia|done..].
Defined.
End Containers.

Lemma message_emitted {A} `{CanonLaws A} d (x : A) :
  message d x = emitted (enc_octets d) +:+ emitted (canon x).
Proof. apply (emitted_comp (enc_str d) (canon x)), canon_appends. Qed.

(** ** Properties *)

(** The canonical encoding is injective and domain separated: for every type that
    keeps the encoding's promise, two messages with the same bytes have the same
    domain and the same value, even when other bytes follow; and nothing but the value
    decides the bytes. *)
Theorem message_injective {A} `{CanonLaws A} d d' (x y : A) r s :
  is_u64 (len64 d) -> is_u64 (len64 d') -> canon_wf x -> canon_wf y ->
  message d x +:+ r = message d' y +:+ s -> d = d' /\ x = y /\ r = s.
Proof.
  intros Hd Hd' Hx Hy. rewrite !message_emitted, !app_assoc_s. intros He.
  apply octets_inj in He as [-> He]; [|done..]. by apply canon_inj in He as [-> ->].
Qed.

(** ** Witnesses *)

Lemma message_injective_witness :
  "journal" = "journal" /\ ["a"; "b"] = ["a"; "b"] /\ "rest" = "rest".
Proof.
  apply (message_injective (A := list string) "journal" "journal" ["a"; "b"] ["a"; "b"] "rest" "rest");
    [reflexivity|reflexivity| | |reflexivity]; (split; [reflexivity|repeat constructor]).
Defined.
