(* ===== verification/Journal.v ===== *)
(** * The journal

    [core/src/journal.rs]: the events of the journal, the canonical bytes of an
    entry, the hash chain and its verification. SHA-256 is the [sha2] crate's, a
    parameter here; what is shown of the chain is that verification accepts exactly
    the well-chained entries, that appending keeps a chain verified, and that two
    verified chains that end in one hash are the same chain unless two of their own
    entries collide under the hash. *)

From Stdlib Require Import Ascii.
From stdpp Require Import base strings pretty numbers option sets gmap list.
From S2P Require Import Prelude Model Canon.

(** ** Hashes *)

(** [Hash(pub [u8; 32])] *)
Record Hash := mkHash {
  hash_bytes : string;
  hash_len : bool_decide (String.length hash_bytes = 32) = true;
}.

Lemma Hash_eq h k : hash_bytes h = hash_bytes k -> h = k.
Proof.
  destruct h as [a Ha], k as [b Hb]. simpl. intros ->. f_equal. apply (Eqdep_dec.UIP_dec Bool.bool_dec).
Qed.

Lemma hash_length (h : Hash) : String.length (hash_bytes h) = 32.
Proof. exact (bool_decide_eq_true_1 _ (hash_len h)). Qed.

#[export] Instance Hash_eq_dec : EqDecision Hash.
Proof.
  intros h k. destruct (decide (hash_bytes h = hash_bytes k)) as [E|E].
  - left. by apply Hash_eq.
  - right. by intros ->.
Defined.

Fixpoint zeros (n : nat) : string :=
  match n with O => EmptyString | S n' => String (chr 0) (zeros n') end.

Definition HASH_ZERO : Hash := mkHash (zeros 32) eq_refl.

Definition hash_of_bytes (bytes : string) : option Hash :=
  match Bool.bool_dec (bool_decide (String.length bytes = 32)) true with
  | left H => Some (mkHash bytes H)
  | right _ => None
  end.

(** [format!("{b:02x}")] *)
Definition hex_digit (n : N) : ascii := if (n <? 10)%N then chr (48 + n) else chr (87 + n).

Fixpoint to_hex_bytes (s : string) : string :=
  match s with
  | EmptyString => EmptyString
  | String c s' =>
      let b := N_of_ascii c in
      String (hex_digit (b / 16)) (String (hex_digit (b mod 16)) (to_hex_bytes s'))
  end.

Definition to_hex (h : Hash) : string := to_hex_bytes (hash_bytes h).

(** [char::to_digit(16)] *)
Definition to_digit16 (c : ascii) : option N :=
  let k := N_of_ascii c in
  (if (48 <=? k) && (k <=? 57) then Some (k - 48)
   else if (97 <=? k) && (k <=? 102) then Some (k - 87)
   else if (65 <=? k) && (k <=? 70) then Some (k - 55)
   else None)%N.

Fixpoint from_hex_bytes (s : string) : option string :=
  match s with
  | EmptyString => Some EmptyString
  | String c (String d s') =>
      hi ← to_digit16 c;
      lo ← to_digit16 d;
      rest ← from_hex_bytes s';
      Some (String (chr (hi * 16 + lo)) rest)
  | String _ EmptyString => None
  end.

Definition from_hex (s : string) : option Hash :=
  if negb (String.length s =? 64) then None
  else bytes ← from_hex_bytes s; hash_of_bytes bytes.

#[export] Instance canon_Hash : Canon Hash := fun h => enc_octets (hash_bytes h).

(** ** Scopes and events *)

Record Sig := mkSig { sig_namespace : string; sig_bytes_hex : string }.

Inductive Scope := ScopePlan | ScopeStep (n : N) | ScopeAck (n : N).

#[export] Instance canon_Scope : Canon Scope := fun s e =>
  match s with
  | ScopePlan => enc_variant "plan" 0 e
  | ScopeStep n => enc_u64 n (enc_variant "step" 1 e)
  | ScopeAck n => enc_u64 n (enc_variant "ack" 1 e)
  end.

Inductive JEvent :=
| JChecked
| JRequested
| JProofAccepted (scope : Scope) (authenticator : string) (submitter : string)
| JApproved (rehearsal : bool)
| JApprovalExpired
| JCancelled
| JApplying (step : N) (undo_line : string)
| JStepDone (step : N)
| JStepFailed (step : N) (error : string)
| JUndoSkipped (step : N) (reason : string)
| JApplied
| JRenewed
| JConfirmed
| JCommitted (by_ : string) (reason : string)
| JRecant
| JReverting (steps : list N)
| JReverted
| JStuck (steps : list N)
| JExpired
| JClosed (reason : string)
| JBackstopFired (step : N)
| JBackstopFiredAfterAbandon (host : string) (steps : list N)
| JHeld (step : N)
| JResumed (step : N) (by_ : string)
| JDeferred (step : N) (handoff : string)
| JHandoffDone (step : N) (by_ : string)
| JSuspended
| JReestablished
| JWaiting (step : N) (reason : string)
| JWaitLapsed (step : N) (reason : string)
| JStepGateRequested (step : N) (step_digest : Hash)
| JStepGateSatisfied (step : N)
| JAckRequested (step : N) (cost : string)
| JKnellAcknowledged (step : N) (cost : string) (by_ : string)
| JDenied (gate : string) (reason : string)
| JFootprintViolation (step : N) (facts : list string)
| JDriftClobbered (step : N) (facts : list string)
| JDriftHeld (step : N) (facts : list string)
| JHostContractChanged (expected : Hash) (observed : Hash)
| JRefused (reason : string)
| JSecretRevealed (label : string) (acceptor : string)
| JSecretUndelivered (label : string)
| JSecretDropped (label : string) (reason : string)
| JStagedRemoved (step : N) (reason : string)
| JInstanceDirOrphaned (host : string) (instance : string) (armed : bool)
| JInstanceDirForeign (host : string) (instance : string) (controller : string)
| JReclaimed (host : string) (instance : string) (forced : bool) (reason : string)
| JAbandoned (steps_not_reverted : list N) (artifacts_left_armed : list string) (by_ : string) (reason : string)
| JInventoryListed (hook : string) (hosts : list string)
| JHookRegistered (name : string) (registrar : string) (connection : string)
| JHookDeregistered (name : string) (registrar : string) (reason : string)
| JOperatorConnected (identity : string) (admin : bool)
| JOperatorDisconnected (identity : string)
| JKeyRotated (old_pub : string) (new_pub : string)
| JDrillAttested (plan : string) (host : string) (instance : string) (restored : bool) (facts : list string)
| JMigrated (from : N) (to : N) (by_ : string).

(** A field of an event, by its type in the source. *)
Inductive FieldVal :=
| FvU32 (n : N)
| FvStr (s : string)
| FvBool (b : bool)
| FvScope (s : Scope)
| FvU32s (l : list N)
| FvStrs (l : list string)
| FvHash (h : Hash).

#[export] Instance canon_FieldVal : Canon FieldVal := fun f =>
  match f with
  | FvU32 n => canon n
  | FvStr s => canon s
  | FvBool b => canon b
  | FvScope s => canon s
  | FvU32s l => canon l
  | FvStrs l => canon l
  | FvHash h => canon h
  end.

(** The text of each event, in the order of the declaration. *)
Definition EVENT_TEXTS : list string :=
  ["checked"; "requested"; "proof_accepted"; "approved"; "approval_expired"; "cancelled";
   "applying"; "step_done"; "step_failed"; "undo_skipped"; "applied"; "renewed";
   "confirmed"; "committed"; "recant"; "reverting"; "reverted"; "stuck";
   "expired"; "closed"; "backstop_fired"; "backstop_fired_after_abandon"; "held"; "resumed";
   "deferred"; "handoff_done"; "suspended"; "reestablished"; "waiting"; "wait_lapsed";
   "step_gate_requested"; "step_gate_satisfied"; "ack_requested"; "knell_acknowledged"; "denied"; "footprint_violation";
   "drift_clobbered"; "drift_held"; "host_contract_changed"; "refused"; "secret_revealed"; "secret_undelivered";
   "secret_dropped"; "staged_removed"; "instance_dir_orphaned"; "instance_dir_foreign"; "reclaimed"; "abandoned";
   "inventory_listed"; "hook_registered"; "hook_deregistered"; "operator_connected"; "operator_disconnected"; "key_rotated";
   "drill_attested"; "migrated"].

Definition event_tag (ev : JEvent) : nat :=
  match ev with
  | JChecked => 0
  | JRequested => 1
  | JProofAccepted _ _ _ => 2
  | JApproved _ => 3
  | JApprovalExpired => 4
  | JCancelled => 5
  | JApplying _ _ => 6
  | JStepDone _ => 7
  | JStepFailed _ _ => 8
  | JUndoSkipped _ _ => 9
  | JApplied => 10
  | JRenewed => 11
  | JConfirmed => 12
  | JCommitted _ _ => 13
  | JRecant => 14
  | JReverting _ => 15
  | JReverted => 16
  | JStuck _ => 17
  | JExpired => 18
  | JClosed _ => 19
  | JBackstopFired _ => 20
  | JBackstopFiredAfterAbandon _ _ => 21
  | JHeld _ => 22
  | JResumed _ _ => 23
  | JDeferred _ _ => 24
  | JHandoffDone _ _ => 25
  | JSuspended => 26
  | JReestablished => 27
  | JWaiting _ _ => 28
  | JWaitLapsed _ _ => 29
  | JStepGateRequested _ _ => 30
  | JStepGateSatisfied _ => 31
  | JAckRequested _ _ => 32
  | JKnellAcknowledged _ _ _ => 33
  | JDenied _ _ => 34
  | JFootprintViolation _ _ => 35
  | JDriftClobbered _ _ => 36
  | JDriftHeld _ _ => 37
  | JHostContractChanged _ _ => 38
  | JRefused _ => 39
  | JSecretRevealed _ _ => 40
  | JSecretUndelivered _ => 41
  | JSecretDropped _ _ => 42
  | JStagedRemoved _ _ => 43
  | JInstanceDirOrphaned _ _ _ => 44
  | JInstanceDirForeign _ _ _ => 45
  | JReclaimed _ _ _ _ => 46
  | JAbandoned _ _ _ _ => 47
  | JInventoryListed _ _ => 48
  | JHookRegistered _ _ _ => 49
  | JHookDeregistered _ _ _ => 50
  | JOperatorConnected _ _ => 51
  | JOperatorDisconnected _ => 52
  | JKeyRotated _ _ => 53
  | JDrillAttested _ _ _ _ _ => 54
  | JMigrated _ _ _ => 55
  end.

Definition event_text (ev : JEvent) : string := nth (event_tag ev) EVENT_TEXTS EmptyString.

(** The fields of each event, in declared order. *)
Definition event_fields (ev : JEvent) : list FieldVal :=
  match ev with
  | JChecked => []
  | JRequested => []
  | JProofAccepted scope authenticator submitter => [FvScope scope; FvStr authenticator; FvStr submitter]
  | JApproved rehearsal => [FvBool rehearsal]
  | JApprovalExpired => []
  | JCancelled => []
  | JApplying step undo_line => [FvU32 step; FvStr undo_line]
  | JStepDone step => [FvU32 step]
  | JStepFailed step error => [FvU32 step; FvStr error]
  | JUndoSkipped step reason => [FvU32 step; FvStr reason]
  | JApplied => []
  | JRenewed => []
  | JConfirmed => []
  | JCommitted by_ reason => [FvStr by_; FvStr reason]
  | JRecant => []
  | JReverting steps => [FvU32s steps]
  | JReverted => []
  | JStuck steps => [FvU32s steps]
  | JExpired => []
  | JClosed reason => [FvStr reason]
  | JBackstopFired step => [FvU32 step]
  | JBackstopFiredAfterAbandon host steps => [FvStr host; FvU32s steps]
  | JHeld step => [FvU32 step]
  | JResumed step by_ => [FvU32 step; FvStr by_]
  | JDeferred step handoff => [FvU32 step; FvStr handoff]
  | JHandoffDone step by_ => [FvU32 step; FvStr by_]
  | JSuspended => []
  | JReestablished => []
  | JWaiting step reason => [FvU32 step; FvStr reason]
  | JWaitLapsed step reason => [FvU32 step; FvStr reason]
  | JStepGateRequested step step_digest => [FvU32 step; FvHash step_digest]
  | JStepGateSatisfied step => [FvU32 step]
  | JAckRequested step cost => [FvU32 step; FvStr cost]
  | JKnellAcknowledged step cost by_ => [FvU32 step; FvStr cost; FvStr by_]
  | JDenied gate reason => [FvStr gate; FvStr reason]
  | JFootprintViolation step facts => [FvU32 step; FvStrs facts]
  | JDriftClobbered step facts => [FvU32 step; FvStrs facts]
  | JDriftHeld step facts => [FvU32 step; FvStrs facts]
  | JHostContractChanged expected observed => [FvHash expected; FvHash observed]
  | JRefused reason => [FvStr reason]
  | JSecretRevealed label acceptor => [FvStr label; FvStr acceptor]
  | JSecretUndelivered label => [FvStr label]
  | JSecretDropped label reason => [FvStr label; FvStr reason]
  | JStagedRemoved step reason => [FvU32 step; FvStr reason]
  | JInstanceDirOrphaned host instance armed => [FvStr host; FvStr instance; FvBool armed]
  | JInstanceDirForeign host instance controller => [FvStr host; FvStr instance; FvStr controller]
  | JReclaimed host instance forced reason => [FvStr host; FvStr instance; FvBool forced; FvStr reason]
  | JAbandoned steps_not_reverted artifacts_left_armed by_ reason => [FvU32s steps_not_reverted; FvStrs artifacts_left_armed; FvStr by_; FvStr reason]
  | JInventoryListed hook hosts => [FvStr hook; FvStrs hosts]
  | JHookRegistered name registrar connection => [FvStr name; FvStr registrar; FvStr connection]
  | JHookDeregistered name registrar reason => [FvStr name; FvStr registrar; FvStr reason]
  | JOperatorConnected identity admin => [FvStr identity; FvBool admin]
  | JOperatorDisconnected identity => [FvStr identity]
  | JKeyRotated old_pub new_pub => [FvStr old_pub; FvStr new_pub]
  | JDrillAttested plan host instance restored facts => [FvStr plan; FvStr host; FvStr instance; FvBool restored; FvStrs facts]
  | JMigrated from to by_ => [FvU32 from; FvU32 to; FvStr by_]
  end.

(** [impl Canon for Event]: the text and the number of fields, then each field. *)
#[export] Instance canon_JEvent : Canon JEvent := fun ev e =>
  foldl (fun e f => canon f e)
        (enc_variant (event_text ev) (N.of_nat (length (event_fields ev))) e) (event_fields ev).

(** ** Entries and the chain *)

Record Entry := mkEntryJ {
  en_seq : N;
  en_prev_hash : Hash;
  en_hash : Hash;
  en_at : Instant;
  en_plan : string;
  en_instance : string;
  en_host : string;
  en_event : JEvent;
  en_secret_labels : list string;
  en_sig : option Sig;
}.

Definition JOURNAL_DOMAIN : string := "rue-journal".

(** The part of an entry the hash covers. *)
#[export] Instance canon_Entry : Canon Entry := fun e enc =>
  enc_list (en_secret_labels e)
   (canon (en_event e)
     (enc_str (en_host e)
       (enc_str (en_instance e)
         (enc_str (en_plan e)
           (enc_u64 (en_at e)
             (canon (en_prev_hash e)
               (enc_u64 (en_seq e)
                 (enc_record 8 enc)))))))).

Definition body_bytes (e : Entry) : string := message JOURNAL_DOMAIN e.

(** What [hash_of] hashes. *)
Definition hash_input (prev : Hash) (e : Entry) : string := hash_bytes prev +:+ body_bytes e.

Inductive ChainError :=
| CeGenesis
| CeSeq (at_seq expected : N)
| CePrevHash (seq : N)
| CeHash (seq : N).

(** [impl Display for ChainError] *)
Definition display_chain_error (e : ChainError) : string :=
  match e with
  | CeGenesis => "the chain does not begin at genesis (seq 1, prev_hash zero)"
  | CeSeq at_seq expected =>
      "entry " +:+ show at_seq +:+ " follows " +:+ show expected +:+ "; expected seq " +:+ show expected
  | CePrevHash seq => "entry " +:+ show seq +:+ "'s prev_hash is not its predecessor's hash"
  | CeHash seq => "entry " +:+ show seq +:+ "'s hash does not recompute from its bytes"
  end.

Section Chain.
Variable sha256 : string -> Hash.

Definition hash_of (prev : Hash) (e : Entry) : Hash := sha256 (hash_input prev e).

(** [e.hash = ..] *)
Definition set_hash (h : Hash) (e : Entry) : Entry := {|
  en_seq := en_seq e; en_prev_hash := en_prev_hash e; en_hash := h; en_at := en_at e;
  en_plan := en_plan e; en_instance := en_instance e; en_host := en_host e;
  en_event := en_event e; en_secret_labels := en_secret_labels e; en_sig := en_sig e;
|}.

Definition journal_append (chain : list Entry) (at_ : Instant) (plan instance host : string)
    (event : JEvent) (secret_labels : list string) : Entry :=
  let '(seq, prev_hash) :=
    match last chain with
    | Some l => (u64_add (en_seq l) 1, en_hash l)
    | None => (1%N, HASH_ZERO)
    end in
  let e := mkEntryJ seq prev_hash HASH_ZERO at_ plan instance host event secret_labels None in
  set_hash (hash_of prev_hash e) e.

(** The checks of one turn of the loop against the entry before. *)
Definition link_check (prev : option Entry) (e : Entry) : Result unit ChainError :=
  match prev with
  | None => if (en_seq e != 1%N) || (en_prev_hash e != HASH_ZERO) then Err CeGenesis else Ok tt
  | Some p =>
      if en_seq e != u64_add (en_seq p) 1 then Err (CeSeq (en_seq e) (u64_add (en_seq p) 1))
      else if en_prev_hash e != en_hash p then Err (CePrevHash (en_seq e))
      else Ok tt
  end.

Fixpoint verify_from (prev : option Entry) (chain : list Entry) : Result unit ChainError :=
  match chain with
  | [] => Ok tt
  | e :: rest =>
      let? _ := link_check prev e in
      if hash_of (en_prev_hash e) e != en_hash e then Err (CeHash (en_seq e))
      else verify_from (Some e) rest
  end.

Definition verify (chain : list Entry) : Result unit ChainError := verify_from None chain.
End Chain.

(** ** The encoding of entries is injective *)

#[export, refine] Instance canon_laws_Hash : CanonLaws Hash := { canon_wf _ := True }.
Proof.
  - intros h. apply appends_octets.
  - intros h k r s _ _ He.
    assert (Hl : forall h : Hash, is_u64 (len64 (hash_bytes h))).
    { intros k'. unfold is_u64, len64. by rewrite hash_length. }
    apply octets_inj in He as [He ->]; [|done..]. split; [by apply Hash_eq|done].
Defined.

Definition scope_steps (s : Scope) : list (Encoder -> Encoder) :=
  match s with
  | ScopePlan => [enc_variant "plan" 0]
  | ScopeStep n => [enc_variant "step" 1; enc_u64 n]
  | ScopeAck n => [enc_variant "ack" 1; enc_u64 n]
  end.

Lemma canon_scope_steps s : canon s = run_steps (scope_steps s).
Proof. by destruct s. Qed.

Lemma scope_steps_append s : Forall appends (scope_steps s).
Proof. destruct s; repeat constructor; (apply appends_variant || apply appends_u64). Qed.

#[export, refine] Instance canon_laws_Scope : CanonLaws Scope :=
  { canon_wf s := match s with ScopePlan => True | ScopeStep n | ScopeAck n => is_u64 n end }.
Proof.
  - intros s. rewrite canon_scope_steps. apply run_steps_appends, scope_steps_append.
  - intros x y r s Hx Hy. rewrite !canon_scope_steps, !run_steps_emitted by apply scope_steps_append.
    destruct x as [|n|n], y as [|m|m]; cbn [scope_steps emitted_steps];
      rewrite ?app_nil_s, ?app_assoc_s; intros He;
      apply variant_inj in He as (Ht & _ & He); try done.
    + by apply u64_inj in He as [-> ->].
    + by apply u64_inj in He as [-> ->].
Defined.

(** Fields: the type of one decides how it is read back. *)
Definition field_type (f : FieldVal) : nat :=
  match f with
  | FvU32 _ => 0 | FvStr _ => 1 | FvBool _ => 2 | FvScope _ => 3 | FvU32s _ => 4 | FvStrs _ => 5
  | FvHash _ => 6
  end.

Definition field_wf (f : FieldVal) : Prop :=
  match f with
  | FvU32 n => canon_wf n
  | FvStr s => canon_wf s
  | FvBool b => canon_wf b
  | FvScope s => canon_wf s
  | FvU32s l => canon_wf l
  | FvStrs l => canon_wf l
  | FvHash h => canon_wf h
  end.

Lemma field_appends (f : FieldVal) : appends (canon f).
Proof. destruct f as [x|x|x|x|x|x|x]; exact (canon_appends x). Qed.

Lemma field_inj (f g : FieldVal) r s :
  field_type f = field_type g -> field_wf f -> field_wf g ->
  emitted (canon f) +:+ r = emitted (canon g) +:+ s -> f = g /\ r = s.
Proof.
  destruct f as [x|x|x|x|x|x|x], g as [y|y|y|y|y|y|y]; try done; intros _ Hx Hy He;
    by apply (canon_inj x y r s Hx Hy) in He as [-> ->].
Qed.

Definition fields_steps (fs : list FieldVal) : list (Encoder -> Encoder) := map (fun f => canon f) fs.

Lemma fields_steps_append fs : Forall appends (fields_steps fs).
Proof. induction fs; constructor; [apply field_appends|done]. Qed.

Lemma fields_inj fs gs r s :
  map field_type fs = map field_type gs -> Forall field_wf fs -> Forall field_wf gs ->
  emitted_steps (fields_steps fs) +:+ r = emitted_steps (fields_steps gs) +:+ s -> fs = gs /\ r = s.
Proof.
  revert gs. induction fs as [|f fs IH]; intros [|g gs]; try done.
  cbn [map fields_steps emitted_steps]. intros [= Ht Hts] Hf Hg He. inversion Hf; inversion Hg; subst.
  rewrite !app_assoc_s in He. apply field_inj in He as [-> He]; [|done..].
  by apply IH in He as [-> ->].
Qed.

(** An event is its tag and its fields. *)
Definition event_of (tag : nat) (fs : list FieldVal) : option JEvent :=
  match tag, fs with
  | 0, [] => Some JChecked
  | 1, [] => Some JRequested
  | 2, [FvScope scope; FvStr authenticator; FvStr submitter] => Some (JProofAccepted scope authenticator submitter)
  | 3, [FvBool rehearsal] => Some (JApproved rehearsal)
  | 4, [] => Some JApprovalExpired
  | 5, [] => Some JCancelled
  | 6, [FvU32 step; FvStr undo_line] => Some (JApplying step undo_line)
  | 7, [FvU32 step] => Some (JStepDone step)
  | 8, [FvU32 step; FvStr error] => Some (JStepFailed step error)
  | 9, [FvU32 step; FvStr reason] => Some (JUndoSkipped step reason)
  | 10, [] => Some JApplied
  | 11, [] => Some JRenewed
  | 12, [] => Some JConfirmed
  | 13, [FvStr by_; FvStr reason] => Some (JCommitted by_ reason)
  | 14, [] => Some JRecant
  | 15, [FvU32s steps] => Some (JReverting steps)
  | 16, [] => Some JReverted
  | 17, [FvU32s steps] => Some (JStuck steps)
  | 18, [] => Some JExpired
  | 19, [FvStr reason] => Some (JClosed reason)
  | 20, [FvU32 step] => Some (JBackstopFired step)
  | 21, [FvStr host; FvU32s steps] => Some (JBackstopFiredAfterAbandon host steps)
  | 22, [FvU32 step] => Some (JHeld step)
  | 23, [FvU32 step; FvStr by_] => Some (JResumed step by_)
  | 24, [FvU32 step; FvStr handoff] => Some (JDeferred step handoff)
  | 25, [FvU32 step; FvStr by_] => Some (JHandoffDone step by_)
  | 26, [] => Some JSuspended
  | 27, [] => Some JReestablished
  | 28, [FvU32 step; FvStr reason] => Some (JWaiting step reason)
  | 29, [FvU32 step; FvStr reason] => Some (JWaitLapsed step reason)
  | 30, [FvU32 step; FvHash step_digest] => Some (JStepGateRequested step step_digest)
  | 31, [FvU32 step] => Some (JStepGateSatisfied step)
  | 32, [FvU32 step; FvStr cost] => Some (JAckRequested step cost)
  | 33, [FvU32 step; FvStr cost; FvStr by_] => Some (JKnellAcknowledged step cost by_)
  | 34, [FvStr gate; FvStr reason] => Some (JDenied gate reason)
  | 35, [FvU32 step; FvStrs facts] => Some (JFootprintViolation step facts)
  | 36, [FvU32 step; FvStrs facts] => Some (JDriftClobbered step facts)
  | 37, [FvU32 step; FvStrs facts] => Some (JDriftHeld step facts)
  | 38, [FvHash expected; FvHash observed] => Some (JHostContractChanged expected observed)
  | 39, [FvStr reason] => Some (JRefused reason)
  | 40, [FvStr label; FvStr acceptor] => Some (JSecretRevealed label acceptor)
  | 41, [FvStr label] => Some (JSecretUndelivered label)
  | 42, [FvStr label; FvStr reason] => Some (JSecretDropped label reason)
  | 43, [FvU32 step; FvStr reason] => Some (JStagedRemoved step reason)
  | 44, [FvStr host; FvStr instance; FvBool armed] => Some (JInstanceDirOrphaned host instance armed)
  | 45, [FvStr host; FvStr instance; FvStr controller] => Some (JInstanceDirForeign host instance controller)
  | 46, [FvStr host; FvStr instance; FvBool forced; FvStr reason] => Some (JReclaimed host instance forced reason)
  | 47, [FvU32s steps_not_reverted; FvStrs artifacts_left_armed; FvStr by_; FvStr reason] => Some (JAbandoned steps_not_reverted artifacts_left_armed by_ reason)
  | 48, [FvStr hook; FvStrs hosts] => Some (JInventoryListed hook hosts)
  | 49, [FvStr name; FvStr registrar; FvStr connection] => Some (JHookRegistered name registrar connection)
  | 50, [FvStr name; FvStr registrar; FvStr reason] => Some (JHookDeregistered name registrar reason)
  | 51, [FvStr identity; FvBool admin] => Some (JOperatorConnected identity admin)
  | 52, [FvStr identity] => Some (JOperatorDisconnected identity)
  | 53, [FvStr old_pub; FvStr new_pub] => Some (JKeyRotated old_pub new_pub)
  | 54, [FvStr plan; FvStr host; FvStr instance; FvBool restored; FvStrs facts] => Some (JDrillAttested plan host instance restored facts)
  | 55, [FvU32 from; FvU32 to; FvStr by_] => Some (JMigrated from to by_)
  | _, _ => None
  end.

(** The types of an event's fields, by its tag. *)
Definition EVENT_TYPES : list (list nat) :=
  [[]; []; [3; 1; 1]; [2]; []; []; [0; 1]; [0]; [0; 1]; [0; 1];
   []; []; []; [1; 1]; []; [4]; []; [4]; []; [1];
   [0]; [1; 4]; [0]; [0; 1]; [0; 1]; [0; 1]; []; []; [0; 1]; [0; 1];
   [0; 6]; [0]; [0; 1]; [0; 1; 1]; [1; 1]; [0; 5]; [0; 5]; [0; 5]; [6; 6]; [1];
   [1; 1]; [1]; [1; 1]; [0; 1]; [1; 1; 2]; [1; 1; 1]; [1; 1; 2; 1]; [4; 5; 1; 1]; [1; 5]; [1; 1; 1];
   [1; 1; 1]; [1; 2]; [1]; [1; 1]; [1; 1; 1; 2; 5]; [0; 0; 1]].

Lemma event_of_fields ev : event_of (event_tag ev) (event_fields ev) = Some ev.
Proof. by destruct ev. Qed.

Lemma event_types ev : map field_type (event_fields ev) = nth (event_tag ev) EVENT_TYPES [].
Proof. by destruct ev. Qed.

Lemma event_tag_bound ev : event_tag ev < length EVENT_TEXTS.
Proof. destruct ev; simpl; lia. Qed.

Lemma event_texts_nodup : NoDup EVENT_TEXTS.
Proof. apply (bool_decide_eq_true_1 _). vm_compute. reflexivity. Qed.

Lemma event_texts_len : Forall (fun t => is_u64 (len64 t)) EVENT_TEXTS.
Proof. unfold EVENT_TEXTS. repeat constructor. Qed.

Lemma event_text_len ev : is_u64 (len64 (event_text ev)).
Proof.
  assert (H := event_texts_len). rewrite Forall_forall in H. apply H, list_elem_of_In, nth_In, event_tag_bound.
Qed.

Lemma event_text_tag ev ev' : event_text ev = event_text ev' -> event_tag ev = event_tag ev'.
Proof.
  intros H. apply (proj1 (NoDup_nth EVENT_TEXTS EmptyString)); try apply event_tag_bound; [|done].
  apply NoDup_ListNoDup, event_texts_nodup.
Qed.

Definition event_wf (ev : JEvent) : Prop := Forall field_wf (event_fields ev).

Definition event_steps (ev : JEvent) : list (Encoder -> Encoder) :=
  enc_variant (event_text ev) (N.of_nat (length (event_fields ev))) :: fields_steps (event_fields ev).

Lemma event_steps_append ev : Forall appends (event_steps ev).
Proof. constructor; [apply appends_variant|apply fields_steps_append]. Qed.

Lemma foldl_map_steps {A} (f : A -> Encoder -> Encoder) l e :
  foldl (fun e x => f x e) e l = run_steps (map f l) e.
Proof. revert e. induction l as [|x l IH]; intros e; [done|]. apply IH. Qed.

Lemma canon_event_steps ev e : canon ev e = run_steps (event_steps ev) e.
Proof. unfold canon at 1, canon_JEvent. apply foldl_map_steps. Qed.

Lemma emitted_event ev : emitted (canon ev) = emitted_steps (event_steps ev).
Proof.
  rewrite <- run_steps_emitted by apply event_steps_append. unfold emitted. by rewrite canon_event_steps.
Qed.

#[export, refine] Instance canon_laws_JEvent : CanonLaws JEvent := { canon_wf := event_wf }.
Proof.
  - intros ev e. unfold emitted. rewrite !canon_event_steps.
    apply (run_steps_appends _ (event_steps_append ev)).
  - intros x y r s Hx Hy. rewrite !emitted_event. cbn [event_steps emitted_steps]. rewrite !app_assoc_s.
    intros He. assert (Hn : forall ev, is_u64 (N.of_nat (length (event_fields ev)))).
    { intros ev. assert (length (event_fields ev) <= 5) by (destruct ev; simpl; lia). unfold is_u64. lia. }
    apply variant_inj in He as (Ht & _ & He); try done; [|apply event_text_len..].
    apply event_text_tag in Ht.
    apply fields_inj in He as [Hf ->]; [|by rewrite !event_types, Ht|done..]. split; [|done].
    assert (Hxy := event_of_fields x). rewrite Ht, Hf, event_of_fields in Hxy. congruence.
Defined.

(** *** Entries *)

Definition entry_wf (e : Entry) : Prop :=
  canon_wf (en_seq e) /\ canon_wf (en_at e) /\ canon_wf (en_plan e) /\ canon_wf (en_instance e) /\
  canon_wf (en_host e) /\ canon_wf (en_event e) /\ canon_wf (en_secret_labels e).

(** Two entries that say the same; hash and signature apart. *)
Definition same_entry (e f : Entry) : Prop :=
  en_seq e = en_seq f /\ en_prev_hash e = en_prev_hash f /\ en_at e = en_at f /\
  en_plan e = en_plan f /\ en_instance e = en_instance f /\ en_host e = en_host f /\
  en_event e = en_event f /\ en_secret_labels e = en_secret_labels f.

Definition entry_steps (e : Entry) : list (Encoder -> Encoder) :=
  [enc_str JOURNAL_DOMAIN; enc_record 8; enc_u64 (en_seq e); canon (en_prev_hash e); enc_u64 (en_at e);
   enc_str (en_plan e); enc_str (en_instance e); enc_str (en_host e); canon (en_event e);
   canon (en_secret_labels e)].

Lemma entry_steps_append e : Forall appends (entry_steps e).
Proof.
  repeat constructor; first [apply appends_octets|apply appends_u64|apply appends_record|apply canon_appends].
Qed.

Lemma body_bytes_steps e : body_bytes e = emitted_steps (entry_steps e).
Proof. rewrite <- run_steps_emitted by apply entry_steps_append. done. Qed.

Lemma body_bytes_inj e f :
  entry_wf e -> entry_wf f -> body_bytes e = body_bytes f -> same_entry e f.
Proof.
  intros (H1 & H2 & H3 & H4 & H5 & H6 & H7) (K1 & K2 & K3 & K4 & K5 & K6 & K7).
  rewrite !body_bytes_steps. cbn [entry_steps emitted_steps]. intros He.
  apply octets_inj in He as [_ He]; [|done..]. apply record_inj in He as [_ He]; [|done..].
  apply u64_inj in He as [E1 He]; [|done..]. apply (canon_inj (en_prev_hash e)) in He as [E2 He]; [|done..].
  apply u64_inj in He as [E3 He]; [|done..]. apply octets_inj in He as [E4 He]; [|done..].
  apply octets_inj in He as [E5 He]; [|done..]. apply octets_inj in He as [E6 He]; [|done..].
  apply (canon_inj (en_event e)) in He as [E7 He]; [|done..].
  apply (canon_inj (en_secret_labels e)) in He as [E8 He]; [|done..]. by repeat split.
Qed.

Lemma hash_input_inj p q e f :
  entry_wf e -> entry_wf f -> hash_input p e = hash_input q f -> p = q /\ same_entry e f.
Proof.
  unfold hash_input. intros He Hf H. apply app_inj_length in H as [Hp Hb].
  - split; [by apply Hash_eq|by apply body_bytes_inj].
  - by rewrite !hash_length.
Qed.

(** *** What verification looks at *)

Section Verification.
Context (sha256 : string -> Hash).

(** An entry that follows [prev] and whose hash recomputes. *)
Definition good_entry (prev : option Entry) (e : Entry) : Prop :=
  en_seq e = match prev with None => 1%N | Some p => u64_add (en_seq p) 1 end /\
  en_prev_hash e = match prev with None => HASH_ZERO | Some p => en_hash p end /\
  en_hash e = hash_of sha256 (en_prev_hash e) e.

Fixpoint chained (prev : option Entry) (chain : list Entry) : Prop :=
  match chain with
  | [] => True
  | e :: rest => good_entry prev e /\ chained (Some e) rest
  end.

Lemma link_check_ok prev e :
  link_check prev e = Ok tt <->
  en_seq e = match prev with None => 1%N | Some p => u64_add (en_seq p) 1 end /\
  en_prev_hash e = match prev with None => HASH_ZERO | Some p => en_hash p end.
Proof.
  destruct prev as [p|]; simpl; repeat case_bool_decide; simpl; intuition congruence.
Qed.

Lemma verify_from_cons prev e rest :
  verify_from sha256 prev (e :: rest) = Ok tt <->
  good_entry prev e /\ verify_from sha256 (Some e) rest = Ok tt.
Proof.
  assert (Hl := link_check_ok prev e). unfold good_entry. simpl.
  destruct (link_check prev e) as [[]|err]; simpl; [|intuition congruence].
  case_bool_decide as Hh; simpl; intuition congruence.
Qed.

Lemma verify_from_spec prev chain :
  verify_from sha256 prev chain = Ok tt <-> chained prev chain.
Proof.
  revert prev. induction chain as [|e rest IH]; intros prev; [done|].
  rewrite verify_from_cons, IH. done.
Qed.

Lemma chained_app prev a b :
  chained prev (a ++ b) <->
  chained prev a /\ chained (match last a with Some l => Some l | None => prev end) b.
Proof.
  revert prev. induction a as [|x a IH]; intros prev; [simpl; tauto|]. cbn [app chained].
  rewrite IH. rewrite last_cons. destruct (last a); tauto.
Qed.

(** What [append] builds follows the last entry. *)
Lemma append_good chain at_ plan instance host ev labels :
  good_entry (last chain) (journal_append sha256 chain at_ plan instance host ev labels).
Proof. unfold journal_append, good_entry. by destruct (last chain) as [l|]. Qed.

Lemma chained_snoc chain e : chained None (chain ++ [e]) <-> chained None chain /\ good_entry (last chain) e.
Proof. rewrite chained_app. simpl. destruct (last chain); tauto. Qed.

(** What an error of the loop says of the entry it stopped at. *)
Definition fault (prev : option Entry) (e : Entry) (err : ChainError) : Prop :=
  match err with
  | CeGenesis => prev = None /\ (en_seq e <> 1%N \/ en_prev_hash e <> HASH_ZERO)
  | CeSeq s x => exists p, prev = Some p /\ s = en_seq e /\ x = u64_add (en_seq p) 1 /\ s <> x
  | CePrevHash s => exists p, prev = Some p /\ s = en_seq e /\ s = u64_add (en_seq p) 1 /\
                              en_prev_hash e <> en_hash p
  | CeHash s => s = en_seq e /\ link_check prev e = Ok tt /\ en_hash e <> hash_of sha256 (en_prev_hash e) e
  end.

Lemma fault_not_good prev e err : fault prev e err -> ~ good_entry prev e.
Proof.
  intros Hf (H1 & H2 & H3). destruct err; simpl in Hf.
  - destruct Hf as [-> [?|?]]; congruence.
  - destruct Hf as (p & -> & -> & -> & Hf). congruence.
  - destruct Hf as (p & -> & _ & _ & Hf). congruence.
  - destruct Hf as (_ & _ & Hf). congruence.
Qed.

Lemma link_check_fault prev e err : link_check prev e = Err err -> fault prev e err.
Proof.
  destruct prev as [p|]; simpl; repeat case_bool_decide; simpl; intros [= <-]; simpl; eauto 8.
Qed.

Lemma verify_from_error prev chain err :
  verify_from sha256 prev chain = Err err ->
  exists pre e post, chain = pre ++ e :: post /\ chained prev pre /\
    fault (match last pre with Some l => Some l | None => prev end) e err.
Proof.
  revert prev. induction chain as [|e rest IH]; intros prev; [done|]. simpl.
  destruct (link_check prev e) as [[]|err'] eqn:Hl; simpl.
  - case_bool_decide as Hh; simpl.
    + intros (pre & x & post & -> & Hc & Hf)%IH. exists (e :: pre), x, post. split; [done|].
      apply link_check_ok in Hl as [H1 H2]. split; [by repeat split|].
      rewrite last_cons. by destruct (last pre).
    + intros [= <-]. exists [], e, rest. repeat split; [done|]. congruence.
  - intros [= <-]. exists [], e, rest. repeat split. by apply link_check_fault.
Qed.

(** Sequence numbers count the entries. *)
Lemma chained_seq chain e :
  chained None (chain ++ [e]) -> (N.of_nat (length chain) < 2 ^ 64 - 1)%N ->
  en_seq e = N.of_nat (length chain + 1).
Proof.
  revert e. induction chain as [|l chain IH] using rev_ind; intros e.
  - simpl. intros [(H & _) _] _. done.
  - rewrite chained_app. intros [Hc [(Hs & _) _]]. rewrite last_snoc in Hs. intros Hn.
    rewrite length_app in *. simpl in *. rewrite Hs, (IH l Hc) by lia. unfold u64_add. rewrite wrap64_small; unfold is_u64; lia.
Qed.

Lemma chained_last_hash chain e : chained None (chain ++ [e]) -> en_hash e = hash_of sha256 (en_prev_hash e) e.
Proof. rewrite chained_app. simpl. unfold good_entry. tauto. Qed.

Lemma chained_prev_hash chain l e :
  chained None ((chain ++ [l]) ++ [e]) -> en_prev_hash e = en_hash l.
Proof. rewrite chained_app, last_snoc. simpl. unfold good_entry. tauto. Qed.

(** Two entries the hash cannot tell apart although it is given different bytes. *)
Definition collide (e f : Entry) : Prop :=
  hash_input (en_prev_hash e) e <> hash_input (en_prev_hash f) f /\
  hash_of sha256 (en_prev_hash e) e = hash_of sha256 (en_prev_hash f) f.

Definition same_record (e f : Entry) : Prop := same_entry e f /\ en_hash e = en_hash f.

Lemma same_hash_cases e f :
  entry_wf e -> entry_wf f -> hash_of sha256 (en_prev_hash e) e = hash_of sha256 (en_prev_hash f) f ->
  same_entry e f \/ collide e f.
Proof.
  intros He Hf Hh.
  destruct (decide (hash_input (en_prev_hash e) e = hash_input (en_prev_hash f) f)) as [E|E]; [|by right].
  left. by apply hash_input_inj in E as [_ E].
Qed.

Lemma chains_agree c1 c2 :
  Forall entry_wf c1 -> Forall entry_wf c2 ->
  (N.of_nat (length c1) < 2 ^ 64)%N -> (N.of_nat (length c2) < 2 ^ 64)%N ->
  chained None c1 -> chained None c2 -> en_hash <$> last c1 = en_hash <$> last c2 ->
  Forall2 same_record c1 c2 \/ exists e1 e2, e1 ∈ c1 /\ e2 ∈ c2 /\ collide e1 e2.
Proof.
  revert c2. induction c1 as [|e1 c1 IH] using rev_ind; intros c2.
  { destruct c2 as [|e2 c2 _] using rev_ind; [by left|]. by rewrite last_snoc. }
  destruct c2 as [|e2 c2 _] using rev_ind; [by rewrite last_snoc|].
  rewrite !Forall_app, !last_snoc, !length_app. cbn [length].
  intros [W1 [We1 _]%Forall_cons_1] [W2 [We2 _]%Forall_cons_1] L1 L2 C1 C2 [= Hh].
  assert (Hh' := Hh). rewrite (chained_last_hash _ _ C1), (chained_last_hash _ _ C2) in Hh'.
  destruct (same_hash_cases e1 e2 We1 We2 Hh') as [Hs|Hc].
  2:{ right. exists e1, e2. repeat split; [set_solver..|apply Hc|apply Hc]. }
  assert (Hlen : length c1 = length c2).
  { destruct Hs as [Hseq _]. rewrite (chained_seq _ _ C1), (chained_seq _ _ C2) in Hseq by lia. lia. }
  assert (Hprev : en_hash <$> last c1 = en_hash <$> last c2).
  { destruct Hs as (_ & Hp & _). destruct c1 as [|l1 c1 _] using rev_ind;
      (destruct c2 as [|l2 c2 _] using rev_ind);
      rewrite ?length_app in Hlen; simpl in Hlen; [done|lia|lia|]. rewrite !last_snoc. simpl. f_equal.
    by rewrite <- (chained_prev_hash _ _ _ C1), <- (chained_prev_hash _ _ _ C2). }
  rewrite chained_app in C1, C2.
  destruct (IH c2) as [Hf|(x & y & Hx & Hy & Hc)]; [done|done|lia|lia|tauto|tauto|done| |].
  - left. apply Forall2_app; [done|]. constructor; [done|constructor].
  - right. exists x, y. split; [set_solver|]. split; [set_solver|done].
Qed.
End Verification.

(** *** Hexadecimal *)

Lemma to_digit16_hex n : (n < 16)%N -> to_digit16 (hex_digit n) = Some n.
Proof.
  intros H. assert (Hf : Forall (fun n => to_digit16 (hex_digit n) = Some n) (map N.of_nat (seq 0 16)))
    by repeat constructor.
  rewrite Forall_forall in Hf. apply Hf, list_elem_of_In, in_map_iff.
  exists (N.to_nat n). split; [lia|]. apply in_seq. lia.
Qed.

Lemma to_hex_bytes_length s : String.length (to_hex_bytes s) = 2 * String.length s.
Proof. induction s as [|c s IH]; [done|]. simpl in *. rewrite IH. lia. Qed.

Lemma from_hex_to_hex_bytes s : from_hex_bytes (to_hex_bytes s) = Some s.
Proof.
  induction s as [|c s IH]; [done|]. simpl.
  assert (Hb := N_ascii_bounded c). 
  rewrite !to_digit16_hex, IH by (apply N.mod_lt || apply N.Div0.div_lt_upper_bound; lia). simpl.
  f_equal. f_equal. unfold chr. replace (_ * 16 + _)%N with (N_of_ascii c)
    by (rewrite (N.div_mod (N_of_ascii c) 16) at 1; lia).
  apply ascii_N_embedding.
Qed.

Lemma hash_of_bytes_self h : hash_of_bytes (hash_bytes h) = Some h.
Proof.
  unfold hash_of_bytes. destruct (Bool.bool_dec _ true) as [E|E].
  - f_equal. by apply Hash_eq.
  - destruct E. apply hash_len.
Qed.

(** ** Properties *)

(** Verification accepts exactly the chains it describes: it answers [Ok] iff every
    entry's sequence number and previous hash follow from the entry before (from genesis
    for the first) and every hash recomputes; an error names the first entry that does
    not, after a chained prefix, and says which of the checks it failed. *)
Theorem verify_spec (sha256 : string -> Hash) (chain : list Entry) :
  match verify sha256 chain with
  | Ok _ => chained sha256 None chain
  | Err err => exists pre e post, chain = pre ++ e :: post /\ chained sha256 None pre /\
                 fault sha256 (last pre) e err /\ ~ good_entry sha256 (last pre) e
  end.
Proof.
  destruct (verify sha256 chain) as [[]|err] eqn:Hv; [by apply verify_from_spec|].
  assert (Hn : ~ chained sha256 None chain) by (intros H%verify_from_spec; unfold verify in Hv; congruence).
  apply verify_from_error in Hv as (pre & e & post & -> & Hc & Hf).
  replace (match last pre with Some l => Some l | None => None end) with (last pre) in Hf by (by destruct (last pre)).
  exists pre, e, post. repeat split; [done..|]. intros Hg. by apply (fault_not_good _ _ _ _ Hf).
Qed.

(** Appending keeps a chain verified: the entry [append] builds, put at the end of a
    chain that verifies, gives a chain that verifies. *)
Theorem append_keeps_verified (sha256 : string -> Hash) chain at_ plan instance host ev labels :
  verify sha256 chain = Ok tt ->
  verify sha256 (chain ++ [journal_append sha256 chain at_ plan instance host ev labels]) = Ok tt.
Proof.
  unfold verify. rewrite !verify_from_spec, chained_app. intros Hc. split; [done|]. split; [|done].
  assert (Hg := append_good sha256 chain at_ plan instance host ev labels). by destruct (last chain).
Qed.

(** C26. The journal is tamper evident: two chains that verify and end in the same hash
    record the same entries, position by position (signatures apart), unless the hash
    function maps two different inputs taken from these very chains to one value. The
    chains are shorter than 2^64 and their fields fit the encoding's widths. *)
Theorem tamper_evident (sha256 : string -> Hash) (c1 c2 : list Entry) :
  verify sha256 c1 = Ok tt -> verify sha256 c2 = Ok tt ->
  Forall entry_wf c1 -> Forall entry_wf c2 ->
  (N.of_nat (length c1) < 2 ^ 64)%N -> (N.of_nat (length c2) < 2 ^ 64)%N ->
  en_hash <$> last c1 = en_hash <$> last c2 ->
  Forall2 same_record c1 c2 \/
  exists e1 e2, e1 ∈ c1 /\ e2 ∈ c2 /\
    hash_input (en_prev_hash e1) e1 <> hash_input (en_prev_hash e2) e2 /\
    hash_of sha256 (en_prev_hash e1) e1 = hash_of sha256 (en_prev_hash e2) e2.
Proof. unfold verify. rewrite !verify_from_spec. intros C1 C2 W1 W2 L1 L2 Hl. by apply chains_agree. Qed.

(** A hash printed in hexadecimal parses back to itself, and nothing of another
    length parses. *)
Theorem hash_hex_round_trip (h : Hash) :
  from_hex (to_hex h) = Some h /\
  (forall s, String.length s <> 64 -> from_hex s = None).
Proof.
  split.
  - unfold from_hex, to_hex. rewrite to_hex_bytes_length, hash_length. simpl.
    rewrite from_hex_to_hex_bytes. simpl. apply hash_of_bytes_self.
  - intros s Hs. unfold from_hex. by apply Nat.eqb_neq in Hs as ->.
Qed.

(** The message for a wrong sequence number names the expected number where the
    predecessor's belongs: entry 5 after entry 3. *)
Theorem seq_error_names_no_predecessor :
  display_chain_error (CeSeq 5 (u64_add 3 1)) = "entry 5 follows 4; expected seq 4".
Proof. reflexivity. Qed.

(** ** Witnesses *)

(** A hash for the examples: the length of the input in the first bytes. *)
Definition length_hash (s : string) : Hash :=
  mkHash (String (chr (N.of_nat (String.length s) mod 256)) (zeros 31)) eq_refl.

Definition demo_first : Entry :=
  journal_append length_hash [] 100 "mail" "i1" "web" JChecked [].

Definition demo_chain : list Entry :=
  [demo_first; journal_append length_hash [demo_first] 101 "mail" "i1" "web" (JApplying 1 "undo") ["key"]].

Lemma append_keeps_verified_witness :
  verify length_hash demo_chain = Ok tt /\
  verify length_hash (demo_chain ++ [journal_append length_hash demo_chain 102 "mail" "i1" "web" (JStepDone 1) []]) = Ok tt.
Proof.
  split; [vm_compute; reflexivity|]. apply append_keeps_verified. vm_compute. reflexivity.
Defined.

Lemma demo_chain_wf : Forall entry_wf demo_chain.
Proof. repeat constructor. Qed.

Lemma tamper_evident_witness :
  Forall2 same_record demo_chain demo_chain \/
  exists e1 e2, e1 ∈ demo_chain /\ e2 ∈ demo_chain /\
    hash_input (en_prev_hash e1) e1 <> hash_input (en_prev_hash e2) e2 /\
    hash_of length_hash (en_prev_hash e1) e1 = hash_of length_hash (en_prev_hash e2) e2.
Proof.
  apply (tamper_evident length_hash demo_chain demo_chain);
    [vm_compute; reflexivity|vm_compute; reflexivity|exact demo_chain_wf|exact demo_chain_wf
    |reflexivity|reflexivity|reflexivity].
Defined.
