(* ===== verification/Request.v ===== *)
(** * The request digest

    [core/src/request.rs]: the digest a request is known by and the digests its proofs
    bind to in a scope. What is shown is that a proof for one scope, step or request
    fits no other, as long as the hash does not collide on the very inputs at hand. *)

From stdpp Require Import base strings pretty numbers option sets gmap list.
From S2P Require Import Prelude Model Canon Journal.

Definition REQUEST_DOMAIN : string := "rue-request".

(** [nonce: [u8; 32]] has the shape of a [Hash]. *)
Record Request := mkRequest {
  rq_nonce : Hash;
  rq_plan_id : string;
  rq_instance : string;
  rq_owner_host : string;
  rq_params_hash : Hash;
  rq_host_contract_hash : Hash;
  rq_wane : option N;
  rq_requested_at : N;
  rq_gate_hash : Hash;
  rq_plan_content_hash : Hash;
}.

#[export] Instance canon_Request : Canon Request := fun r e =>
  canon (rq_plan_content_hash r)
   (canon (rq_gate_hash r)
     (enc_u64 (rq_requested_at r)
       (match rq_wane r with
        | None => enc_none
        | Some d => enc_some d
        end
         (canon (rq_host_contract_hash r)
           (canon (rq_params_hash r)
             (enc_str (rq_owner_host r)
               (enc_str (rq_instance r)
                 (enc_str (rq_plan_id r)
                   (enc_octets (hash_bytes (rq_nonce r))
                     (enc_record 10 e)))))))))).

(** [struct Scoped<'a>(&'a Hash, &'a str, u32)] *)
Record Scoped := mkScoped { sc_request : Hash; sc_name : string; sc_step : N }.

#[export] Instance canon_Scoped : Canon Scoped := fun s e =>
  enc_u64 (sc_step s) (canon (sc_request s) (enc_str (sc_name s) (enc_record 3 e))).

Section Digest.
Variable sha256 : string -> Hash.

Definition request_digest (r : Request) : Hash := sha256 (message REQUEST_DOMAIN r).

Definition scoped_digest (request : Hash) (scope : Scope) : Hash :=
  match scope with
  | ScopePlan => request
  | ScopeStep n => sha256 (message REQUEST_DOMAIN (mkScoped request "step" n))
  | ScopeAck n => sha256 (message REQUEST_DOMAIN (mkScoped request "ack" n))
  end.
End Digest.

(** ** The encodings keep the promise *)

Definition request_steps (r : Request) : list (Encoder -> Encoder) :=
  [enc_record 10; enc_octets (hash_bytes (rq_nonce r)); enc_str (rq_plan_id r); enc_str (rq_instance r);
   enc_str (rq_owner_host r); canon (rq_params_hash r); canon (rq_host_contract_hash r);
   canon (rq_wane r); enc_u64 (rq_requested_at r); canon (rq_gate_hash r); canon (rq_plan_content_hash r)].

Lemma canon_request_steps r : canon r = run_steps (request_steps r).
Proof. unfold canon at 1, canon_Request. by destruct (rq_wane r) eqn:E; unfold request_steps; rewrite E. Qed.

Lemma request_steps_append r : Forall appends (request_steps r).
Proof.
  repeat constructor; first [apply appends_octets|apply appends_u64|apply appends_record|apply canon_appends].
Qed.

Lemma emitted_request r : emitted (canon r) = emitted_steps (request_steps r).
Proof. rewrite canon_request_steps. apply run_steps_emitted, request_steps_append. Qed.

Lemma is_u64_hash_bytes (h : Hash) : is_u64 (len64 (hash_bytes h)).
Proof. unfold is_u64, len64. by rewrite hash_length. Qed.

#[export, refine] Instance canon_laws_Request : CanonLaws Request :=
  { canon_wf r := canon_wf (rq_plan_id r) /\ canon_wf (rq_instance r) /\ canon_wf (rq_owner_host r) /\
                  canon_wf (rq_wane r) /\ canon_wf (rq_requested_at r) }.
Proof.
  - intros r. rewrite canon_request_steps. apply run_steps_appends, request_steps_append.
  - intros x y r s (H1 & H2 & H3 & H4 & H5) (K1 & K2 & K3 & K4 & K5). rewrite !emitted_request.
    cbn [request_steps emitted_steps]. rewrite !app_assoc_s. intros He.
    apply record_inj in He as [_ He]; [|done..]. apply octets_inj in He as [E1 He]; [|apply is_u64_hash_bytes..].
    apply octets_inj in He as [E2 He]; [|done..]. apply octets_inj in He as [E3 He]; [|done..].
    apply octets_inj in He as [E4 He]; [|done..].
    apply (canon_inj (rq_params_hash x)) in He as [E5 He]; [|done..].
    apply (canon_inj (rq_host_contract_hash x)) in He as [E6 He]; [|done..].
    apply (canon_inj (rq_wane x)) in He as [E7 He]; [|done..]. apply u64_inj in He as [E8 He]; [|done..].
    apply (canon_inj (rq_gate_hash x)) in He as [E9 He]; [|done..].
    apply (canon_inj (rq_plan_content_hash x)) in He as [E10 He]; [|done..].
    apply Hash_eq in E1. split; [|exact He]. destruct x, y; simpl in *. congruence.
Defined.

Definition scoped_steps (s : Scoped) : list (Encoder -> Encoder) :=
  [enc_record 3; enc_str (sc_name s); canon (sc_request s); enc_u64 (sc_step s)].

Lemma scoped_steps_append s : Forall appends (scoped_steps s).
Proof. repeat constructor; first [apply appends_octets|apply appends_u64|apply appends_record|apply canon_appends]. Qed.

Lemma emitted_scoped s : emitted (canon s) = emitted_steps (scoped_steps s).
Proof. exact (run_steps_emitted _ (scoped_steps_append s)). Qed.

#[export, refine] Instance canon_laws_Scoped : CanonLaws Scoped :=
  { canon_wf s := canon_wf (sc_name s) /\ canon_wf (sc_step s) }.
Proof.
  - intros s. exact (run_steps_appends _ (scoped_steps_append s)).
  - intros x y r s (H1 & H2) (K1 & K2). rewrite !emitted_scoped. cbn [scoped_steps emitted_steps].
    rewrite !app_assoc_s. intros He.
    apply record_inj in He as [_ He]; [|done..]. apply octets_inj in He as [E1 He]; [|done..].
    apply (canon_inj (sc_request x)) in He as [E2 He]; [|done..]. apply u64_inj in He as [E3 He]; [|done..].
    split; [|done]. destruct x, y; simpl in *. congruence.
Defined.

(** A request's message is never a scope's. *)
Lemma request_not_scoped (r : Request) (s : Scoped) : message REQUEST_DOMAIN r <> message REQUEST_DOMAIN s.
Proof.
  rewrite !message_emitted, emitted_request, emitted_scoped. cbn [request_steps scoped_steps emitted_steps].
  intros He. apply octets_inj in He as [_ He]; [|done..].
  by apply record_inj in He as [? _].
Qed.

(** ** What a proof binds to *)

Section Binding.
Context (sha256 : string -> Hash).

(** The digest a proof for [scope] of [r] binds to. *)
Definition proof_digest (r : Request) (scope : Scope) : Hash :=
  scoped_digest sha256 (request_digest sha256 r) scope.

(** What is hashed on the way to it. *)
Definition proof_inputs (r : Request) (scope : Scope) : list string :=
  match scope with
  | ScopePlan => [message REQUEST_DOMAIN r]
  | ScopeStep n => [message REQUEST_DOMAIN r;
                    message REQUEST_DOMAIN (mkScoped (request_digest sha256 r) "step" n)]
  | ScopeAck n => [message REQUEST_DOMAIN r;
                   message REQUEST_DOMAIN (mkScoped (request_digest sha256 r) "ack" n)]
  end.

(** The last of them gives the digest. *)
Definition final_input (r : Request) (scope : Scope) : string :=
  match scope with
  | ScopePlan => message REQUEST_DOMAIN r
  | ScopeStep n => message REQUEST_DOMAIN (mkScoped (request_digest sha256 r) "step" n)
  | ScopeAck n => message REQUEST_DOMAIN (mkScoped (request_digest sha256 r) "ack" n)
  end.

Lemma proof_digest_final r scope : proof_digest r scope = sha256 (final_input r scope).
Proof. by destruct scope. Qed.

Lemma final_input_elem r scope : final_input r scope ∈ proof_inputs r scope.
Proof. destruct scope; simpl; set_solver. Qed.

Lemma request_input_elem r scope : message REQUEST_DOMAIN r ∈ proof_inputs r scope.
Proof. destruct scope; simpl; set_solver. Qed.

Lemma request_message_inj (q1 q2 : Request) :
  canon_wf q1 -> canon_wf q2 -> message REQUEST_DOMAIN q1 = message REQUEST_DOMAIN q2 -> q1 = q2.
Proof.
  intros H1 H2. rewrite !message_emitted. intros He. apply octets_inj in He as [_ He]; [|done..].
  rewrite <- (app_nil_s (emitted (canon q1))), <- (app_nil_s (emitted (canon q2))) in He.
  by apply canon_inj in He as [-> _].
Qed.

Lemma scoped_message_inj (a b : Scoped) :
  canon_wf a -> canon_wf b -> message REQUEST_DOMAIN a = message REQUEST_DOMAIN b -> a = b.
Proof.
  intros H1 H2. rewrite !message_emitted. intros He. apply octets_inj in He as [_ He]; [|done..].
  rewrite <- (app_nil_s (emitted (canon a))), <- (app_nil_s (emitted (canon b))) in He.
  by apply canon_inj in He as [-> _].
Qed.

Lemma final_input_inj q1 q2 s1 s2 :
  canon_wf q1 -> canon_wf q2 -> canon_wf s1 -> canon_wf s2 ->
  final_input q1 s1 = final_input q2 s2 -> s1 = s2 /\ request_digest sha256 q1 = request_digest sha256 q2.
Proof.
  intros Hq1 Hq2 Hs1 Hs2 He. destruct s1 as [|n|n], s2 as [|m|m]; unfold final_input in He.
  - apply request_message_inj in He; [|done..]. by rewrite He.
  - by apply request_not_scoped in He.
  - by apply request_not_scoped in He.
  - symmetry in He. by apply request_not_scoped in He.
  - apply scoped_message_inj in He; [|by split..]. assert (Hn := f_equal sc_step He).
    assert (Hr := f_equal sc_request He). cbn in Hn, Hr. by rewrite Hn.
  - apply scoped_message_inj in He; [|by split..]. by apply (f_equal sc_name) in He.
  - symmetry in He. by apply request_not_scoped in He.
  - apply scoped_message_inj in He; [|by split..]. by apply (f_equal sc_name) in He.
  - apply scoped_message_inj in He; [|by split..]. assert (Hn := f_equal sc_step He).
    assert (Hr := f_equal sc_request He). cbn in Hn, Hr. by rewrite Hn.
Qed.
End Binding.

(** ** Properties *)

(** C38. A proof is for one request in one scope: two proofs that bind to the same digest
    are for the same request and the same scope (plan entry, the same step's gate, the
    same step's acknowledgement), unless the hash function maps two different messages,
    hashed for these very proofs, to one value. *)
Theorem proof_binds_request_and_scope (sha256 : string -> Hash) q1 q2 s1 s2 :
  canon_wf q1 -> canon_wf q2 -> canon_wf s1 -> canon_wf s2 ->
  proof_digest sha256 q1 s1 = proof_digest sha256 q2 s2 ->
  (q1 = q2 /\ s1 = s2) \/
  exists a b, a ∈ proof_inputs sha256 q1 s1 /\ b ∈ proof_inputs sha256 q2 s2 /\ a <> b /\ sha256 a = sha256 b.
Proof.
  intros Hq1 Hq2 Hs1 Hs2. rewrite !proof_digest_final. intros Hd.
  destruct (decide (final_input sha256 q1 s1 = final_input sha256 q2 s2)) as [E|E].
  2:{ right. exists (final_input sha256 q1 s1), (final_input sha256 q2 s2).
      repeat split; [apply final_input_elem..|done|done]. }
  apply final_input_inj in E as [-> Hr]; [|done..].
  destruct (decide (message REQUEST_DOMAIN q1 = message REQUEST_DOMAIN q2)) as [E|E].
  - left. by apply request_message_inj in E as ->.
  - right. exists (message REQUEST_DOMAIN q1), (message REQUEST_DOMAIN q2).
    repeat split; [apply request_input_elem..|done|exact Hr].
Qed.

(** ** Witnesses *)

Definition demo_request : Request :=
  mkRequest HASH_ZERO "mail" "i1" "web" HASH_ZERO HASH_ZERO (Some 600%N) 100 HASH_ZERO HASH_ZERO.

Lemma proof_binds_request_and_scope_witness :
  (demo_request = demo_request /\ ScopeStep 2 = ScopeStep 2) \/
  exists a b, a ∈ proof_inputs length_hash demo_request (ScopeStep 2) /\
    b ∈ proof_inputs length_hash demo_request (ScopeStep 2) /\ a <> b /\ length_hash a = length_hash b.
Proof.
  apply (proof_binds_request_and_scope length_hash demo_request demo_request (ScopeStep 2) (ScopeStep 2));
    [repeat split|repeat split|reflexivity|reflexivity|reflexivity].
Defined.
