(* ===== verification/EngineJournal.v ===== *)
(** * The engine's journal

    [engine/src/journal.rs]: each event is chained to the last entry, signed, written to
    the store and delivered to every sink. The store's journal is the list of its
    entries; an append either writes the entry, fails before writing it, or fails after
    (the write reached the file, its [fsync] did not). The signing key, SHA-256 and the
    sinks are parameters; a sink is a state and a step. *)

From stdpp Require Import base strings pretty numbers option sets gmap list.
From S2P Require Import Prelude Model Canon Journal Ledger.

(** What the file system does with one append ([Store::append_journal]). *)
Inductive AppendOutcome :=
| Written
| NotWritten (why : string)
| WrittenUnsynced (why : string).

Definition append_journal (o : AppendOutcome) (chain : list Entry) (e : Entry) : list Entry * Result unit StoreError :=
  match o with
  | Written => (chain ++ [e], Ok tt)
  | NotWritten why => (chain, Err (Io why))
  | WrittenUnsynced why => (chain ++ [e], Err (Io why))
  end.

Definition journal_tail (chain : list Entry) : option Entry := last chain.

Inductive JournalError :=
| JeStore (e : StoreError)
| JeSinkRefused (entry : Entry) (refusals : list (string * string))
| JeSign (s : string).

Record About := mkAbout { ab_plan : string; ab_instance : string; ab_host : string }.

(** [e.sig = Some(..)] *)
Definition set_sig (s : option Sig) (e : Entry) : Entry :=
  mkEntryJ (en_seq e) (en_prev_hash e) (en_hash e) (en_at e) (en_plan e) (en_instance e) (en_host e)
    (en_event e) (en_secret_labels e) s.

Section EngineJournal.
Context (sha256 : string -> Hash).
(** The sinks: a name that stays, a state, and what a delivery does to it. *)
Context {S : Type} (sink_name : S -> string) (deliver : S -> Entry -> S * option string).
(** The file system, append by append. *)
Context (disk : list Entry -> Entry -> AppendOutcome).

Definition Signer := Entry -> Result Sig string.

Record EJournal := mkEJournal {
  ej_tail : option Entry;
  ej_sinks : list S;
  ej_signer : option Signer;
}.

Definition open_journal (chain : list Entry) (sinks : list S) (signer : option Signer) : EJournal :=
  mkEJournal (journal_tail chain) sinks signer.

Definition next (j : EJournal) (at_ : Instant) (about : About) (event : JEvent) (labels : list string)
    : Result Entry JournalError :=
  let chain := match ej_tail j with Some t => [t] | None => [] end in
  let e := journal_append sha256 chain at_ (ab_plan about) (ab_instance about) (ab_host about) event labels in
  match ej_signer j with
  | Some sign =>
      match sign e with
      | Ok sig => Ok (set_sig (Some sig) e)
      | Err m => Err (JeSign m)
      end
  | None => Ok e
  end.

(** [for s in &mut self.sinks]: every sink is offered the entry, refused or not. *)
Fixpoint deliver_to (sinks : list S) (e : Entry) : list S * list (string * string) :=
  match sinks with
  | [] => ([], [])
  | s :: rest =>
      let '(s', answer) := deliver s e in
      let '(rest', refusals) := deliver_to rest e in
      (s' :: rest', match answer with
                    | Some why => (sink_name s', why) :: refusals
                    | None => refusals
                    end)
  end.

Definition deliver_all (j : EJournal) (e : Entry) : EJournal * list (string * string) :=
  let '(sinks, refusals) := deliver_to (ej_sinks j) e in
  (mkEJournal (ej_tail j) sinks (ej_signer j), refusals).

Definition set_tail (e : Entry) (j : EJournal) : EJournal := mkEJournal (Some e) (ej_sinks j) (ej_signer j).

Definition refusal_reason (refusals : list (string * string)) : string :=
  "R0304: sink did not acknowledge: " +:+ join "; " (map (fun '(n, why) => n +:+ ": " +:+ why) refusals).

Definition record (j : EJournal) (chain : list Entry) (at_ : Instant) (about : About) (event : JEvent)
    (labels : list string) : EJournal * list Entry * Result Entry JournalError :=
  match next j at_ about event labels with
  | Err x => (j, chain, Err x)
  | Ok e =>
      match append_journal (disk chain e) chain e with
      | (chain1, Err x) => (j, chain1, Err (JeStore x))
      | (chain1, Ok _) =>
          let '(j1, refusals) := deliver_all (set_tail e j) e in
          if refusals == [] then (j1, chain1, Ok e)
          else
            match next j1 at_ about (JRefused (refusal_reason refusals)) [] with
            | Err x => (j1, chain1, Err x)
            | Ok refused =>
                match append_journal (disk chain1 refused) chain1 refused with
                | (chain2, Err x) => (j1, chain2, Err (JeStore x))
                | (chain2, Ok _) =>
                    let '(j2, _) := deliver_all (set_tail refused j1) refused in
                    (j2, chain2, Err (JeSinkRefused e refusals))
                end
            end
      end
  end.
End EngineJournal.

(** [MemorySink] *)
Record MemorySink := mkMemorySink { ms_name : string; ms_entries : list Entry; ms_refuse : option string }.

Definition memory_deliver (s : MemorySink) (e : Entry) : MemorySink * option string :=
  match ms_refuse s with
  | Some r => (s, Some r)
  | None => (mkMemorySink (ms_name s) (ms_entries s ++ [e]) None, None)
  end.

(** ** Lemmas *)

Section Lemmas.
Context (sha256 : string -> Hash) {S : Type} (sink_name : S -> string) (deliver : S -> Entry -> S * option string).

(** The journal's tail is the store's, and the store's chain verifies. *)
Definition in_step (j : EJournal (S := S)) (chain : list Entry) : Prop :=
  ej_tail j = last chain /\ chained sha256 None chain.

(** No append that reaches the file is reported as failed. *)
Definition synced (disk : list Entry -> Entry -> AppendOutcome) : Prop :=
  forall chain e why, disk chain e <> WrittenUnsynced why.

Lemma good_entry_set_sig prev s e : good_entry sha256 prev (set_sig s e) <-> good_entry sha256 prev e.
Proof. done. Qed.

Lemma next_spec j chain at_ about ev labels e :
  in_step j chain -> next sha256 j at_ about ev labels = Ok e ->
  en_event e = ev /\ en_secret_labels e = labels /\ en_at e = at_ /\ chained sha256 None (chain ++ [e]).
Proof.
  intros [Ht Hc]. unfold next. set (e0 := journal_append _ _ _ _ _ _ _ _).
  assert (Hg : good_entry sha256 (last chain) e0 /\ en_event e0 = ev /\ en_secret_labels e0 = labels /\ en_at e0 = at_).
  { rewrite <- Ht. unfold e0. destruct (ej_tail j) as [t|].
    - split; [exact (append_good sha256 [t] _ _ _ _ _ _)|done].
    - split; [exact (append_good sha256 [] _ _ _ _ _ _)|done]. }
  destruct Hg as (Hg & Hev & Hl & Ha). destruct (ej_signer j) as [sign|].
  - destruct (sign e0) as [sig|m]; [|done]. intros [= <-]. cbn. repeat split; [done..|].
    by apply chained_snoc.
  - intros [= <-]. repeat split; [done..|]. by apply chained_snoc.
Qed.

Lemma deliver_to_spec sinks e sinks' refusals :
  deliver_to sink_name deliver sinks e = (sinks', refusals) ->
  sinks' = map (fun s => fst (deliver s e)) sinks /\
  refusals = filter_map (fun s => (fun why => (sink_name (fst (deliver s e)), why)) <$> snd (deliver s e)) sinks.
Proof.
  revert sinks' refusals. induction sinks as [|s sinks IH]; intros sinks' refusals; cbn [deliver_to].
  - by intros [= <- <-].
  - destruct (deliver s e) as [s' answer] eqn:Hs. destruct (deliver_to _ _ sinks e) as [r' k].
    destruct (IH r' k eq_refl) as [-> ->]. intros [= <- <-]. cbn [map filter_map]. rewrite Hs.
    by destruct answer.
Qed.

(** The sinks that refuse an entry, with their reasons. *)
Definition refusals_of (sinks : list S) (e : Entry) : list (string * string) :=
  filter_map (fun s => (fun why => (sink_name (fst (deliver s e)), why)) <$> snd (deliver s e)) sinks.

Definition offered (sinks : list S) (e : Entry) : list S := map (fun s => fst (deliver s e)) sinks.

Lemma deliver_all_eq j e :
  deliver_all sink_name deliver j e =
  (mkEJournal (ej_tail j) (offered (ej_sinks j) e) (ej_signer j), refusals_of (ej_sinks j) e).
Proof.
  unfold deliver_all. destruct (deliver_to _ _ _ _) as [s r] eqn:H. by apply deliver_to_spec in H as [-> ->].
Qed.

Definition sink_refusal (x : JournalError) : bool :=
  match x with JeSinkRefused _ _ => true | _ => false end.

Lemma next_error (j : EJournal (S := S)) at_ about ev labels x : next sha256 j at_ about ev labels = Err x -> sink_refusal x = false.
Proof. unfold next. destruct (ej_signer j) as [sign|]; [|done]. destruct (sign _); [done|]. by intros [= <-]. Qed.

(** What one call of [record] comes to, on every branch. *)
Inductive recorded (j : EJournal) (chain : list Entry) (ev : JEvent)
  : EJournal -> list Entry -> Result Entry JournalError -> Prop :=
| rec_nothing x : sink_refusal x = false -> recorded j chain ev j chain (Err x)
| rec_ok e j' :
    in_step j' (chain ++ [e]) -> en_event e = ev -> refusals_of (ej_sinks j) e = [] ->
    ej_sinks j' = offered (ej_sinks j) e -> recorded j chain ev j' (chain ++ [e]) (Ok e)
| rec_refused_unsaid e j' x :
    in_step j' (chain ++ [e]) -> en_event e = ev -> refusals_of (ej_sinks j) e <> [] ->
    ej_sinks j' = offered (ej_sinks j) e -> sink_refusal x = false ->
    recorded j chain ev j' (chain ++ [e]) (Err x)
| rec_refused e r j' :
    in_step j' ((chain ++ [e]) ++ [r]) -> en_event e = ev -> refusals_of (ej_sinks j) e <> [] ->
    en_event r = JRefused (refusal_reason (refusals_of (ej_sinks j) e)) -> en_secret_labels r = [] ->
    ej_sinks j' = offered (offered (ej_sinks j) e) r ->
    recorded j chain ev j' ((chain ++ [e]) ++ [r]) (Err (JeSinkRefused e (refusals_of (ej_sinks j) e))).

Lemma record_cases disk j chain at_ about ev labels :
  in_step j chain -> synced disk ->
  let '(j', chain', res) := record sha256 sink_name deliver disk j chain at_ about ev labels in
  recorded j chain ev j' chain' res.
Proof.
  intros Hj Hd. unfold record. destruct (next sha256 j _ _ _ _) as [e|x] eqn:Hn; [|constructor; by eapply next_error].
  destruct (next_spec _ _ _ _ _ _ _ Hj Hn) as (Hev & _ & _ & Hc).
  specialize (Hd chain e) as Hd1. unfold append_journal at 1.
  destruct (disk chain e) as [|why|why]; [|by constructor|by destruct (Hd1 why)].
  rewrite deliver_all_eq. cbn [ej_tail ej_sinks ej_signer set_tail].
  set (j1 := mkEJournal (Some e) (offered (ej_sinks j) e) (ej_signer j)).
  assert (Hj1 : in_step j1 (chain ++ [e])) by (split; [by rewrite last_snoc|done]).
  case_bool_decide as Hr; [by constructor|].
  destruct (next sha256 j1 _ _ _ _) as [r|x] eqn:Hn2; [|apply next_error in Hn2; by constructor].
  destruct (next_spec _ _ _ _ _ _ _ Hj1 Hn2) as (Hev2 & Hl2 & _ & Hc2).
  specialize (Hd (chain ++ [e]) r) as Hd2. unfold append_journal.
  destruct (disk (chain ++ [e]) r) as [|why|why]; [|by constructor|by destruct (Hd2 why)].
  rewrite deliver_all_eq. cbn [ej_tail ej_sinks ej_signer set_tail j1]. constructor; try done.
  split; [by rewrite last_snoc|done].
Qed.

Lemma recorded_in_step j chain ev j' chain' res :
  in_step j chain -> recorded j chain ev j' chain' res -> in_step j' chain' /\ chain `prefix_of` chain'.
Proof.
  intros Hj H. destruct H; (split; [done|]); [done|by eexists..|rewrite <- app_assoc; by eexists].
Qed.
End Lemmas.

(** ** Runs *)

(** One call of [record], and what the file system does during it. *)
Record Req := mkReq {
  rq_disk : list Entry -> Entry -> AppendOutcome;
  rq_at : Instant;
  rq_about : About;
  rq_event : JEvent;
  rq_labels : list string;
}.

Definition record_one (sha256 : string -> Hash) (st : EJournal * list Entry) (r : Req) : EJournal * list Entry :=
  fst (record sha256 ms_name memory_deliver (rq_disk r) (fst st) (snd st) (rq_at r) (rq_about r) (rq_event r)
         (rq_labels r)).

Definition record_all (sha256 : string -> Hash) (st : EJournal * list Entry) (reqs : list Req)
    : EJournal * list Entry :=
  foldl (record_one sha256) st reqs.

(** A memory sink that does not refuse has what the store has. *)
Definition mirrors (st : EJournal * list Entry) : Prop :=
  forall s, s ∈ ej_sinks (fst st) -> ms_refuse s = None -> ms_entries s = snd st.

Lemma offered_memory sinks e s :
  s ∈ offered memory_deliver sinks e -> ms_refuse s = None ->
  exists s0, s0 ∈ sinks /\ ms_refuse s0 = None /\ ms_entries s = ms_entries s0 ++ [e].
Proof.
  unfold offered. rewrite elem_of_map. intros (s0 & -> & Hin) Hr. exists s0. split; [done|].
  unfold memory_deliver in *. destruct (ms_refuse s0) eqn:E; simpl in *; [congruence|done].
Qed.

Lemma record_one_mirrors sha256 st r :
  in_step sha256 (fst st) (snd st) -> synced (rq_disk r) -> mirrors st ->
  in_step sha256 (fst (record_one sha256 st r)) (snd (record_one sha256 st r)) /\
  snd st `prefix_of` snd (record_one sha256 st r) /\ mirrors (record_one sha256 st r).
Proof.
  intros Hj Hd Hm. unfold record_one.
  assert (H := record_cases sha256 ms_name memory_deliver (rq_disk r) (fst st) (snd st) (rq_at r) (rq_about r)
                 (rq_event r) (rq_labels r) Hj Hd).
  destruct (record _ _ _ _ _ _ _ _ _ _) as [[j' chain'] res]. simpl fst. simpl snd.
  destruct (recorded_in_step _ _ _ _ _ _ _ _ _ Hj H) as [Hj' Hp]. split; [done|]. split; [done|].
  assert (Hone : forall e sinks, sinks = offered memory_deliver (ej_sinks (fst st)) e ->
                   forall s, s ∈ sinks -> ms_refuse s = None -> ms_entries s = snd st ++ [e]).
  { intros e sinks -> s Hs Hr. apply offered_memory in Hs as (s0 & Hin & Hr0 & ->); [|done]. by rewrite (Hm s0). }
  intros s Hs Hr. simpl in Hs. destruct H as [x|e j' _ _ _ Hk|e j' x _ _ _ Hk|e r' j' _ _ _ _ _ Hk]; simpl.
  - by apply Hm.
  - by eapply Hone.
  - by eapply Hone.
  - rewrite Hk in Hs. apply offered_memory in Hs as (s0 & Hin & Hr0 & ->); [|done].
    by rewrite (Hone e _ eq_refl s0).
Qed.

(** ** Properties *)

(** [record], on every branch: while no append that reaches the file is reported as
    failed, the journal stays in step with a store that verifies. It answers [Ok] only
    when the event is the store's last entry and every sink acknowledged it; on a
    refusal the store also holds an entry that names the sinks and their reasons, and
    it too was offered to every sink; every other error leaves the store as it was or
    with the event written. *)
Theorem record_spec {S : Type} (sha256 : string -> Hash) (sink_name : S -> string) deliver disk j chain at_ about ev
    labels :
  ej_tail j = last chain -> verify sha256 chain = Ok tt -> synced disk ->
  let '(j', chain', res) := record sha256 sink_name deliver disk j chain at_ about ev labels in
  ej_tail j' = last chain' /\ verify sha256 chain' = Ok tt /\
  match res with
  | Ok e => chain' = chain ++ [e] /\ en_event e = ev /\
            refusals_of sink_name deliver (ej_sinks j) e = [] /\
            ej_sinks j' = offered deliver (ej_sinks j) e
  | Err (JeSinkRefused e refusals) =>
      refusals = refusals_of sink_name deliver (ej_sinks j) e /\ refusals <> [] /\ en_event e = ev /\
      exists r, chain' = (chain ++ [e]) ++ [r] /\ en_event r = JRefused (refusal_reason refusals) /\
                ej_sinks j' = offered deliver (offered deliver (ej_sinks j) e) r
  | Err _ => chain' = chain \/ exists e, chain' = chain ++ [e] /\ en_event e = ev
  end.
Proof.
  unfold verify. rewrite verify_from_spec. intros Ht Hc Hd.
  assert (H := record_cases sha256 sink_name deliver disk j chain at_ about ev labels (conj Ht Hc) Hd).
  destruct (record _ _ _ _ _ _ _ _ _ _) as [[j' chain'] res].
  destruct (recorded_in_step _ _ _ _ _ _ _ _ _ (conj Ht Hc) H) as [[Ht' Hc'] _].
  rewrite verify_from_spec. split; [done|]. split; [done|].
  destruct H as [x Hx|e j' _ Hev Hr Hk|e j' x _ Hev Hr Hk Hx|e r j' _ Hev Hr Her _ Hk].
  - destruct x; [by left|done|by left].
  - done.
  - destruct x; [right; by exists e|done|right; by exists e].
  - repeat split; [done..|]. by exists r.
Qed.

(** The sinks hold what the store holds: from a journal just opened over a chain that
    verifies, with memory sinks that hold that chain, after any sequence of records (any
    of them refused by some sinks, or failed before its write) the store's chain extends
    the old one and verifies, the tail is its last entry, and every sink that refuses
    nothing holds exactly the store's entries. *)
Theorem sinks_hold_the_store sha256 chain sinks signer reqs :
  verify sha256 chain = Ok tt ->
  (forall s, s ∈ sinks -> ms_refuse s = None -> ms_entries s = chain) ->
  Forall (fun r => synced (rq_disk r)) reqs ->
  let '(j, chain') := record_all sha256 (open_journal chain sinks signer, chain) reqs in
  chain `prefix_of` chain' /\ verify sha256 chain' = Ok tt /\ ej_tail j = last chain' /\
  forall s, s ∈ ej_sinks j -> ms_refuse s = None -> ms_entries s = chain'.
Proof.
  intros Hv Hs Hd. unfold verify in *. apply verify_from_spec in Hv.
  assert (H : forall reqs st, Forall (fun r => synced (rq_disk r)) reqs ->
    in_step sha256 (fst st) (snd st) -> mirrors st ->
    let st' := record_all sha256 st reqs in
    snd st `prefix_of` snd st' /\ in_step sha256 (fst st') (snd st') /\ mirrors st').
  { clear. induction reqs as [|r reqs IH]; intros st Hd Hj Hm; [done|]. inversion Hd; subst.
    destruct (record_one_mirrors sha256 st r Hj) as (Hj' & Hp & Hm'); [done..|].
    destruct (IH (record_one sha256 st r)) as (Hp' & Hj'' & Hm''); [done..|].
    split; [by etrans|]. done. }
  destruct (H reqs (open_journal chain sinks signer, chain) Hd) as (Hp & [Ht Hc] & Hm); [done|done|].
  destruct (record_all _ _ _) as [j chain']. rewrite verify_from_spec. done.
Qed.

(** An append that reaches the file but is reported as failed breaks the chain: the
    journal keeps the old tail, and the next record repeats its sequence number. *)
Theorem unsynced_append_breaks_the_chain sha256 about ev1 ev2 why :
  let '(j1, chain1, res) :=
    record sha256 ms_name memory_deliver (fun _ _ => WrittenUnsynced why) (open_journal [] [] None) [] 1 about ev1 [] in
  let '(_, chain2, res2) :=
    record sha256 ms_name memory_deliver (fun _ _ => Written) j1 chain1 2 about ev2 [] in
  is_ok res = false /\ is_ok res2 = true /\ verify sha256 chain1 = Ok tt /\
  verify sha256 chain2 = Err (CeSeq 1 2).
Proof.
  set (e1 := journal_append sha256 [] 1 (ab_plan about) (ab_instance about) (ab_host about) ev1 []).
  set (e2 := journal_append sha256 [] 2 (ab_plan about) (ab_instance about) (ab_host about) ev2 []).
  change (is_ok (Err (E := JournalError) (A := Entry) (JeStore (Io why))) = false /\ is_ok (Ok (E := JournalError) e2) = true /\
    verify sha256 [e1] = Ok tt /\ verify sha256 [e1; e2] = Err (CeSeq 1 2)).
  assert (Hv : verify sha256 [e1] = Ok tt).
  { apply verify_from_spec. split; [exact (append_good sha256 [] _ _ _ _ _ _)|done]. }
  split; [done|]. split; [done|]. split; [done|]. unfold verify in *. cbn [verify_from] in *.
  destruct (link_check None e1) as [[]|]; [|done]. cbn [rbind] in *.
  destruct (_ != _); [done|]. done.
Qed.

(** ** Witnesses *)

Definition demo_about : About := mkAbout "mail" "i1" "web".

Definition demo_journal : EJournal := open_journal [] [mkMemorySink "syslog" [] (Some "down")] None.

Lemma record_spec_witness :
  let '(j', chain', res) :=
    record length_hash ms_name memory_deliver (fun _ _ => Written) demo_journal [] 1 demo_about JChecked [] in
  ej_tail j' = last chain' /\ verify length_hash chain' = Ok tt /\
  match res with
  | Ok e => chain' = [] ++ [e] /\ en_event e = JChecked /\
            refusals_of ms_name memory_deliver (ej_sinks demo_journal) e = [] /\
            ej_sinks j' = offered memory_deliver (ej_sinks demo_journal) e
  | Err (JeSinkRefused e refusals) =>
      refusals = refusals_of ms_name memory_deliver (ej_sinks demo_journal) e /\ refusals <> [] /\ en_event e = JChecked /\
      exists r, chain' = ([] ++ [e]) ++ [r] /\ en_event r = JRefused (refusal_reason refusals) /\
                ej_sinks j' = offered memory_deliver (offered memory_deliver (ej_sinks demo_journal) e) r
  | Err _ => chain' = [] \/ exists e, chain' = [] ++ [e] /\ en_event e = JChecked
  end.
Proof. apply (record_spec length_hash ms_name memory_deliver (fun _ _ => Written) demo_journal []); done. Defined.

Definition demo_reqs : list Req :=
  [mkReq (fun _ _ => Written) 1 demo_about JChecked []; mkReq (fun _ _ => NotWritten "full") 2 demo_about JRequested [];
   mkReq (fun _ _ => Written) 3 demo_about JRequested ["key"]].

Definition demo_sinks : list MemorySink := [mkMemorySink "syslog" [] (Some "down"); mkMemorySink "file" [] None].

Lemma sinks_hold_the_store_witness :
  let '(j, chain') := record_all length_hash (open_journal [] demo_sinks None, []) demo_reqs in
  [] `prefix_of` chain' /\ verify length_hash chain' = Ok tt /\ ej_tail j = last chain' /\
  forall s, s ∈ ej_sinks j -> ms_refuse s = None -> ms_entries s = chain'.
Proof.
  apply (sinks_hold_the_store length_hash [] demo_sinks None demo_reqs); [done| |].
  - intros s Hs Hr. unfold demo_sinks in Hs. apply elem_of_cons in Hs as [->|Hs]; [done|].
    by apply list_elem_of_singleton in Hs as ->.
  - repeat constructor; done.
Defined.

(** Four entries: each of the two events and the refusal it caused. *)
Example demo_run_entries :
  map en_event (snd (record_all length_hash (open_journal [] demo_sinks None, []) demo_reqs)) =
  [JChecked; JRefused "R0304: sink did not acknowledge: syslog: down";
   JRequested; JRefused "R0304: sink did not acknowledge: syslog: down"].
Proof. vm_compute. reflexivity. Qed.
