(* ===== verification/Region.v ===== *)
(** * Fenced regions

    [engine/src/region.rs]: a region of a text is what stands between a begin and an
    end line that name its anchor. [strip] and [set] are shown against the list of
    lines they mean to edit; where the text's line endings are not plain newlines, or
    the two markers stand in the wrong order, the definitions say what happens. *)

From Stdlib Require Import Ascii.
From stdpp Require Import base strings pretty numbers option sets gmap list.
From S2P Require Import Prelude.

Definition begin_marker (anchor : string) : string := "# rescind-region " +:+ anchor +:+ " begin".
Definition end_marker (anchor : string) : string := "# rescind-region " +:+ anchor +:+ " end".

(** [text.lines().filter(|l| *l == m).count()] *)
Definition count_lines (m text : string) : nat := length (List.filter (fun l => l == m) (lines text)).

Definition intact (text anchor : string) : bool :=
  (count_lines (begin_marker anchor) text =? 1) && (count_lines (end_marker anchor) text =? 1).

(** One turn of the loop of [strip]: the text so far and whether a region is open. *)
Definition strip_line (b e : string) (acc : string * bool) (line : string) : string * bool :=
  let '(out, skipping) := acc in
  if line == b then (out, true)
  else if line == e then (out, false)
  else if negb skipping then (out +:+ line +:+ newline, skipping)
  else (out, skipping).

Definition strip (text anchor : string) : option string :=
  if negb (intact text anchor) then None
  else
    let '(out, _) :=
      foldl (strip_line (begin_marker anchor) (end_marker anchor)) (EmptyString, false) (lines text) in
    Some out.

Definition region_set (text anchor content : string) : string :=
  let out := match strip text anchor with Some s => s | None => text end in
  let out := if negb (out == EmptyString) && negb (ends_with_nl out) then out +:+ newline else out in
  out +:+ begin_marker anchor +:+ newline +:+ content +:+ newline +:+ end_marker anchor +:+ newline.

Definition file_path (shape : string) : option string := strip_prefix "file:" shape.

(** ** Markers *)

Fixpoint last_char (s : string) : option ascii :=
  match s with
  | EmptyString => None
  | String c EmptyString => Some c
  | String _ s' => last_char s'
  end.

Lemma last_char_app a b : b <> EmptyString -> last_char (a +:+ b) = last_char b.
Proof.
  intros Hb. induction a as [|c a IH]; [done|]. rewrite append_cons. cbn [last_char].
  destruct (a +:+ b) eqn:E; [destruct a; [by simpl in E|done]|by rewrite <- IH].
Qed.

Lemma begin_end_differ a b : begin_marker a <> end_marker b.
Proof.
  intros H%(f_equal last_char). unfold begin_marker, end_marker in H.
  by rewrite !last_char_app in H by (by destruct a, b || done).
Qed.

Lemma begin_marker_inj a b : begin_marker a = begin_marker b -> a = b.
Proof. unfold begin_marker. intros H%app_inj_r. by apply string_app_inj_r in H. Qed.

Lemma end_marker_inj a b : end_marker a = end_marker b -> a = b.
Proof. unfold end_marker. intros H%app_inj_r. by apply string_app_inj_r in H. Qed.

Lemma strip_cr_last s : last_char s <> Some cr -> strip_cr s = s.
Proof.
  induction s as [|c s IH]; [done|]. destruct s as [|d s].
  - cbn. intros H. case_bool_decide; [congruence|done].
  - intros H. change (strip_cr (String c (String d s))) with (String c (strip_cr (String d s))).
    f_equal. by apply IH.
Qed.

Lemma marker_lines anchor m : contains_char nl anchor = false ->
  m = begin_marker anchor \/ m = end_marker anchor ->
  contains_char nl m = false /\ strip_cr m = m.
Proof.
  unfold begin_marker, end_marker.
  intros Ha [-> | ->]; (split; [by rewrite !contains_char_app, Ha|apply strip_cr_last]);
    by rewrite !last_char_app by (by destruct anchor || done).
Qed.

(** ** The loop *)

Section Loop.
Context (b e : string) (Hbe : b <> e).

Lemma strip_outside ls out :
  b ∉ ls -> e ∉ ls -> foldl (strip_line b e) (out, false) ls = (out +:+ unlines ls, false).
Proof.
  revert out. induction ls as [|l ls IH]; intros out Hb He.
  - unfold unlines. simpl. by rewrite app_nil_s.
  - rewrite not_elem_of_cons in Hb, He. destruct Hb as [Hb Hbl], He as [He Hel].
    cbn [foldl strip_line]. rewrite !bool_decide_eq_false_2 by congruence. cbn [negb].
    rewrite IH, unlines_cons by done. by rewrite !app_assoc_s.
Qed.

Lemma strip_inside ls out : e ∉ ls -> foldl (strip_line b e) (out, true) ls = (out, true).
Proof.
  revert out. induction ls as [|l ls IH]; intros out He; [done|].
  rewrite not_elem_of_cons in He. destruct He as [He Hel]. cbn [foldl strip_line].
  case_bool_decide; [by apply IH|]. rewrite bool_decide_eq_false_2 by congruence. by apply IH.
Qed.

Lemma strip_ordered pre mid post :
  b ∉ pre -> e ∉ pre -> b ∉ mid -> e ∉ mid -> b ∉ post -> e ∉ post ->
  foldl (strip_line b e) (EmptyString, false) (pre ++ b :: mid ++ e :: post) = (unlines (pre ++ post), false).
Proof.
  intros. rewrite foldl_app, strip_outside by done. cbn [foldl strip_line].
  rewrite bool_decide_eq_true_2 by done. rewrite foldl_app, strip_inside by done. cbn [foldl strip_line].
  rewrite bool_decide_eq_false_2, bool_decide_eq_true_2 by congruence.
  rewrite strip_outside by done. by rewrite unlines_app.
Qed.

Lemma strip_reversed pre mid post :
  b ∉ pre -> e ∉ pre -> b ∉ mid -> e ∉ mid -> b ∉ post -> e ∉ post ->
  foldl (strip_line b e) (EmptyString, false) (pre ++ e :: mid ++ b :: post) = (unlines (pre ++ mid), true).
Proof.
  intros. rewrite foldl_app, strip_outside by done. cbn [foldl strip_line].
  rewrite bool_decide_eq_false_2, bool_decide_eq_true_2 by congruence.
  rewrite foldl_app, strip_outside by done. cbn [foldl strip_line].
  rewrite bool_decide_eq_true_2 by done. rewrite strip_inside by done. by rewrite unlines_app.
Qed.
End Loop.

(** Exactly one occurrence. *)
Lemma count_one (m : string) ls :
  length (List.filter (fun l => l == m) ls) = 1 -> exists p q, ls = p ++ m :: q /\ m ∉ p /\ m ∉ q.
Proof.
  induction ls as [|l ls IH]; [done|]. cbn [List.filter]. case_bool_decide as E.
  - subst. cbn [length]. intros [= Hn%length_zero_iff_nil]. exists [], ls. split; [done|]. split; [set_solver|].
    intros Hin. rewrite filter_nil_iff in Hn. specialize (Hn m Hin). by rewrite bool_decide_eq_true_2 in Hn.
  - intros (p & q & -> & Hp & Hq)%IH. exists (l :: p), q. split; [done|]. split; [|done]. set_solver.
Qed.

Lemma count_app (m : string) p q :
  length (List.filter (fun l => l == m) (p ++ q)) =
  length (List.filter (fun l => l == m) p) + length (List.filter (fun l => l == m) q).
Proof. by rewrite List.filter_app, length_app. Qed.

Lemma count_absent (m : string) ls : m ∉ ls -> List.filter (fun l => l == m) ls = [].
Proof. intros H. apply filter_nil_iff. intros x Hx. apply bool_decide_eq_false. congruence. Qed.

(** Neither marker of the anchor among the lines. *)
Definition unmarked (anchor : string) (ls : list string) : Prop :=
  begin_marker anchor ∉ ls /\ end_marker anchor ∉ ls.

(** A text of lines that end in plain newlines, the last one too. *)
Definition plain_text (text : string) : bool := unlines (lines text) == text.

Lemma count_lines_marked (b e : string) ls :
  b <> e ->
  length (List.filter (fun l => l == b) ls) = 1 -> length (List.filter (fun l => l == e) ls) = 1 ->
  exists pre x mid y post, ls = pre ++ x :: mid ++ y :: post /\
    ((x = b /\ y = e) \/ (x = e /\ y = b)) /\
    (b ∉ pre /\ e ∉ pre) /\ (b ∉ mid /\ e ∉ mid) /\ (b ∉ post /\ e ∉ post).
Proof.
  intros Hbe (p & q & -> & Hp & Hq)%count_one. rewrite count_app. cbn [List.filter].
  rewrite (bool_decide_eq_false_2 (b = e)) by done. intros He.
  destruct (decide (e ∈ p)) as [Hin|Hout].
  - assert (Hone : length (List.filter (fun l => l == e) p) = 1).
    { destruct (List.filter (fun l => l == e) p) eqn:E; [|simpl in *; lia].
      rewrite filter_nil_iff in E. specialize (E e Hin). by rewrite bool_decide_eq_true_2 in E. }
    assert (Hq' : e ∉ q).
    { intros Hin'. assert (Hz : List.filter (fun l => l == e) q = []) by (apply length_zero_iff_nil; lia).
      rewrite filter_nil_iff in Hz. specialize (Hz e Hin'). by rewrite bool_decide_eq_true_2 in Hz. }
    apply count_one in Hone as (pre & mid & -> & Hpre & Hmid).
    exists pre, e, mid, b, q. rewrite <- app_assoc. cbn. split; [done|]. split; [by right|]. set_solver.
  - rewrite (count_absent e p Hout) in He. apply count_one in He as (mid & post & -> & Hmid & Hpost).
    exists p, b, mid, e, post. split; [done|]. split; [by left|]. set_solver.
Qed.

Lemma count_lines_exact (b e : string) pre mid post :
  b <> e -> b ∉ pre -> b ∉ mid -> b ∉ post ->
  length (List.filter (fun l => l == b) (pre ++ b :: mid ++ e :: post)) = 1 /\
  length (List.filter (fun l => l == b) (pre ++ e :: mid ++ b :: post)) = 1.
Proof.
  intros Hbe H1 H2 H3. rewrite !count_app. cbn [List.filter].
  rewrite (bool_decide_eq_true_2 (b = b)), (bool_decide_eq_false_2 (e = b)) by congruence.
  cbn [length]. rewrite !count_app. cbn [List.filter].
  rewrite (bool_decide_eq_true_2 (b = b)), (bool_decide_eq_false_2 (e = b)) by congruence.
  by rewrite !count_absent by done.
Qed.

Lemma set_lines text anchor content :
  contains_char nl anchor = false -> strip text anchor = None -> plain_text text = true ->
  region_set text anchor content =
    text +:+ (begin_marker anchor +:+ newline) +:+ (content +:+ newline) +:+ (end_marker anchor +:+ newline) /\
  lines (region_set text anchor content) =
    lines text ++ begin_marker anchor :: lines (content +:+ newline) ++ [end_marker anchor].
Proof.
  intros Ha Hs Ht. apply bool_decide_eq_true in Ht.
  assert (He : text = EmptyString \/ ends_with_nl text = true) by (rewrite <- Ht; apply unlines_ended).
  assert (Hset : region_set text anchor content =
    text +:+ (begin_marker anchor +:+ newline) +:+ (content +:+ newline) +:+ (end_marker anchor +:+ newline)).
  { unfold region_set. rewrite Hs. rewrite !app_assoc_s.
    destruct He as [->| ->]; [done|]. by rewrite andb_false_r. }
  split; [done|]. rewrite Hset, lines_app by done. f_equal.
  destruct (marker_lines anchor (begin_marker anchor) Ha (or_introl eq_refl)) as [Hb Hb'].
  destruct (marker_lines anchor (end_marker anchor) Ha (or_intror eq_refl)) as [Hf Hf'].
  rewrite lines_app by (right; apply ends_with_nl_snoc). rewrite (lines_line _ Hb), Hb'. cbn [app]. f_equal.
  rewrite lines_app by (right; apply ends_with_nl_snoc). by rewrite (lines_line _ Hf), Hf'.
Qed.

Lemma unmarked_strip text anchor : unmarked anchor (lines text) -> strip text anchor = None.
Proof.
  intros [Hb _]. unfold strip, intact, count_lines. by rewrite count_absent.
Qed.

(** ** Properties *)

(** What [strip] does to a text: it answers exactly when each marker of the anchor is
    the whole of exactly one line. With the begin line first it keeps the lines before
    it and after the end line; with the end line first it keeps what stands before the
    begin line and drops everything after it. *)
Theorem strip_spec text anchor out :
  strip text anchor = Some out <->
  exists pre mid post, unmarked anchor pre /\ unmarked anchor mid /\ unmarked anchor post /\
    ((lines text = pre ++ begin_marker anchor :: mid ++ end_marker anchor :: post /\ out = unlines (pre ++ post)) \/
     (lines text = pre ++ end_marker anchor :: mid ++ begin_marker anchor :: post /\ out = unlines (pre ++ mid))).
Proof.
  assert (Hbe := begin_end_differ anchor anchor). unfold strip, intact, count_lines, unmarked. split.
  - destruct (_ && _) eqn:Hi; [|done]. apply andb_true_iff in Hi as [H1%Nat.eqb_eq H2%Nat.eqb_eq].
    destruct (count_lines_marked _ _ _ Hbe H1 H2) as (pre & x & mid & y & post & -> & Hxy & Hp & Hm & Hq).
    exists pre, mid, post. split; [done|]. split; [done|]. split; [done|].
    destruct Hxy as [[-> ->]|[-> ->]]; simpl negb in *; cbn iota in *.
    + rewrite strip_ordered in H by tauto. left. split; [done|congruence].
    + rewrite strip_reversed in H by tauto. right. split; [done|congruence].
  - intros (pre & mid & post & [P1 P2] & [M1 M2] & [Q1 Q2] & [[-> ->]|[-> ->]]).
    + rewrite (proj1 (count_lines_exact _ _ _ _ _ Hbe P1 M1 Q1)).
      rewrite (proj2 (count_lines_exact (end_marker anchor) (begin_marker anchor) _ _ _ (not_eq_sym Hbe) P2 M2 Q2)).
      cbn [Nat.eqb andb negb]. by rewrite strip_ordered.
    + rewrite (proj2 (count_lines_exact _ _ _ _ _ Hbe P1 M1 Q1)).
      rewrite (proj1 (count_lines_exact (end_marker anchor) (begin_marker anchor) _ _ _ (not_eq_sym Hbe) P2 M2 Q2)).
      cbn [Nat.eqb andb negb]. by rewrite strip_reversed.
Qed.

(** Setting a region and stripping it are inverse on plain texts: for an anchor
    without a newline, a text whose lines end in plain newlines and hold none of its
    markers, and a content that holds none, [set] gives a text whose region is intact,
    [strip] gives the first text back, and setting again replaces the content. *)
Theorem region_round_trip text anchor content :
  contains_char nl anchor = false -> plain_text text = true ->
  unmarked anchor (lines text) -> unmarked anchor (lines (content +:+ newline)) ->
  intact (region_set text anchor content) anchor = true /\
  strip (region_set text anchor content) anchor = Some text /\
  forall content', region_set (region_set text anchor content) anchor content' = region_set text anchor content'.
Proof.
  intros Ha Ht Hu Hc. assert (Hn := unmarked_strip text anchor Hu).
  destruct (set_lines text anchor content Ha Hn Ht) as [_ Hl].
  assert (Hs : strip (region_set text anchor content) anchor = Some text).
  { apply bool_decide_eq_true in Ht. rewrite <- Ht at 2.
    assert (Hbe := begin_end_differ anchor anchor). destruct Hu as [U1 U2], Hc as [C1 C2].
    unfold strip, intact, count_lines. rewrite Hl.
    rewrite (proj1 (count_lines_exact _ _ (lines text) (lines (content +:+ newline)) [] Hbe U1 C1 ltac:(set_solver))).
    rewrite (proj2 (count_lines_exact (end_marker anchor) (begin_marker anchor) (lines text)
               (lines (content +:+ newline)) [] (not_eq_sym Hbe) U2 C2 ltac:(set_solver))).
    cbn [Nat.eqb andb negb]. rewrite strip_ordered by (done || set_solver). by rewrite app_nil_r. }
  split; [|split; [done|]].
  - unfold strip in Hs. by destruct (intact (region_set text anchor content) anchor).
  - intros content'. unfold region_set at 1. rewrite Hs. unfold region_set at 1. by rewrite Hn.
Qed.

(** Setting a region leaves the others alone: on a plain text without markers of the
    anchor, a region of another anchor is intact after [set] exactly when it was before,
    as long as the content holds none of its markers. *)
Theorem set_leaves_other_regions text anchor other content :
  anchor <> other -> contains_char nl anchor = false -> plain_text text = true ->
  unmarked anchor (lines text) -> unmarked other (lines (content +:+ newline)) ->
  intact (region_set text anchor content) other = intact text other.
Proof.
  intros Hne Ha Ht Hu [C1 C2]. destruct (set_lines text anchor content Ha (unmarked_strip _ _ Hu) Ht) as [_ Hl].
  unfold intact, count_lines. rewrite Hl, !count_app. cbn [List.filter].
  rewrite (bool_decide_eq_false_2 (begin_marker anchor = begin_marker other)) by (by intros ?%begin_marker_inj).
  rewrite (bool_decide_eq_false_2 (begin_marker anchor = end_marker other)) by apply begin_end_differ.
  rewrite !count_app. cbn [List.filter].
  rewrite (bool_decide_eq_false_2 (end_marker anchor = begin_marker other)) by (intros ?; by eapply begin_end_differ).
  rewrite (bool_decide_eq_false_2 (end_marker anchor = end_marker other)) by (by intros ?%end_marker_inj).
  rewrite (count_absent _ _ C1), (count_absent _ _ C2). cbn [length]. by rewrite !Nat.add_0_r.
Qed.

(** An end line before its begin line passes for an intact region, and stripping it
    drops the text after the begin line. *)
Definition reversed_text : string :=
  unlines ["keep"; end_marker "a"; "between"; begin_marker "a"; "lost"].

Theorem reversed_markers_lose_the_tail :
  intact reversed_text "a" = true /\ strip reversed_text "a" = Some (unlines ["keep"; "between"]).
Proof. split; vm_compute; reflexivity. Qed.

(** [strip] turns the line endings of what it keeps into newlines. *)
Definition crlf_text : string :=
  "keep" +:+ String cr newline +:+ unlines [begin_marker "a"; "x"; end_marker "a"].

Theorem strip_rewrites_line_endings : strip crlf_text "a" = Some (unlines ["keep"]).
Proof. vm_compute. reflexivity. Qed.

(** ** Witnesses *)

Lemma region_round_trip_witness :
  intact (region_set (unlines ["top"; "keep"]) "blk" "inside") "blk" = true /\
  strip (region_set (unlines ["top"; "keep"]) "blk" "inside") "blk" = Some (unlines ["top"; "keep"]) /\
  forall content', region_set (region_set (unlines ["top"; "keep"]) "blk" "inside") "blk" content' =
                   region_set (unlines ["top"; "keep"]) "blk" content'.
Proof.
  apply (region_round_trip (unlines ["top"; "keep"]) "blk" "inside");
    [reflexivity|vm_compute; reflexivity| |];
    (split; apply (bool_decide_eq_true_1 _); vm_compute; reflexivity).
Defined.

Lemma set_leaves_other_regions_witness :
  intact (region_set (region_set EmptyString "one" "x") "two" "y") "one" =
  intact (region_set EmptyString "one" "x") "one".
Proof.
  apply (set_leaves_other_regions (region_set EmptyString "one" "x") "two" "one" "y");
    [discriminate|reflexivity|vm_compute; reflexivity| |];
    (split; apply (bool_decide_eq_true_1 _); vm_compute; reflexivity).
Defined.
