(* ===== verification/Footprint.v ===== *)
(** * Footprints at run time

    [engine/src/footprint.rs]: the marker and manifest files of an instance directory,
    the facts of a footprint that can be read back, and what is done with one at undo
    time. SHA-256 is a parameter. *)

From Stdlib Require Import Ascii.
From stdpp Require Import base strings pretty numbers option sets gmap list.
From S2P Require Import Prelude Model Region.

Record Marker := mkMarker { mk_kind : Kind; mk_path : string; mk_digest : string }.

Definition MISSING : string := "missing".

Definition kind_word (k : Kind) : string :=
  match k with
  | Owned => "owned"
  | Region => "region"
  | Modified => "modified"
  | Derived => "derived"
  | AppendOnly => "append_only"
  | Held => "held"
  end.

Definition kind_of (w : string) : option Kind :=
  if w == "owned" then Some Owned
  else if w == "region" then Some Region
  else if w == "modified" then Some Modified
  else if w == "derived" then Some Derived
  else if w == "append_only" then Some AppendOnly
  else if w == "held" then Some Held
  else None.

Section Digest.
Variable sha256_hex : string -> string.

Definition digest_of (bytes : option string) : string :=
  match bytes with
  | Some b => sha256_hex b
  | None => MISSING
  end.
End Digest.

(** [l.splitn(3, ' ')] *)
Definition splitn3 (l : string) : list string :=
  match split_at_char space l with
  | None => [l]
  | Some (a, r) =>
      match split_at_char space r with
      | None => [a; r]
      | Some (b, c) => [a; b; c]
      end
  end.

Definition marker_line (m : Marker) : string :=
  concats [kind_word (mk_kind m); " "; mk_path m; " "; mk_digest m; newline].

Definition markers_text (ms : list Marker) : string :=
  foldl (fun s m => s +:+ marker_line m) EmptyString ms.

Definition parse_marker (l : string) : option Marker :=
  match splitn3 l with
  | w :: rest =>
      kind ← kind_of w;
      match rest with
      | [path; digest] => Some (mkMarker kind path digest)
      | _ => None
      end
  | [] => None
  end.

Definition parse_markers (text : string) : list Marker := filter_map parse_marker (lines text).

Definition region_line (r : string * string) : string :=
  concats ["region "; fst r; " "; snd r; newline].

Definition manifest_text (regions : list (string * string)) : string :=
  foldl (fun s r => s +:+ region_line r) EmptyString regions.

Definition parse_region (l : string) : option (string * string) :=
  match splitn3 l with
  | w :: rest =>
      if w != "region" then None
      else match rest with
           | [path; anchor] => Some (path, anchor)
           | _ => None
           end
  | [] => None
  end.

Definition parse_manifest (text : string) : list (string * string) := filter_map parse_region (lines text).

(** ** The facts of a footprint *)

Definition observable_kind (k : Kind) : bool :=
  match k with
  | Owned | Region | Modified => true
  | _ => false
  end.

(** [footprint.iter().enumerate().filter(..)] *)
Definition observable (footprint : list FootprintEntry) : list (nat * FootprintEntry) :=
  List.filter (fun p => observable_kind (fp_kind (snd p))) (imap (fun k e => (k, e)) footprint).

Definition observed_fact (p : nat * FootprintEntry) : option (nat * FootprintEntry * string) :=
  let '(k, e) := p in
  match file_path (fp_shape e) with
  | Some path => Some (k, e, path)
  | None => if fp_kind e == Region then None else Some (k, e, fp_shape e)
  end.

Definition observed_facts (footprint : list FootprintEntry) : list (nat * FootprintEntry * string) :=
  filter_map observed_fact (observable footprint).

Definition file_fact (p : nat * FootprintEntry) : option (nat * FootprintEntry * string) :=
  let '(k, e) := p in
  path ← file_path (fp_shape e); Some (k, e, path).

Definition file_facts (footprint : list FootprintEntry) : list (nat * FootprintEntry * string) :=
  filter_map file_fact (observable footprint).

(** ** The decision at undo time *)

Inductive Decision := DUndo | DClobber | DDefer | DRestoreWhole | DDeferForeign.

#[export] Instance Decision_eq_dec : EqDecision Decision.
Proof. solve_decision. Defined.

Definition decide_fact (kind : Kind) (policy : Drift) (changed : bool) (region_intact : option bool)
    (foreign_region : bool) : Decision :=
  match kind with
  | Region =>
      match region_intact with
      | Some true | None => DUndo
      | Some false =>
          match policy with
          | Clobber => if negb foreign_region then DRestoreWhole else DDeferForeign
          | Defer => DDefer
          end
      end
  | _ =>
      if negb changed then DUndo
      else match policy with
           | Clobber => DClobber
           | Defer => DDefer
           end
  end.

(** A [BTreeMap<String, String>] is its entries in key order. *)
Definition Watched := list (string * string).

Definition watched_get (w : Watched) (p : string) : option string :=
  snd <$> List.find (fun e => fst e == p) w.

Definition changed_facts (before after : Watched) : list string :=
  map fst (List.filter (fun e => negb (watched_get after (fst e) == Some (snd e))) before).

(** ** Lines *)

Lemma splitn3_three a b c :
  contains_char space a = false -> contains_char space b = false ->
  splitn3 (a +:+ String space (b +:+ String space c)) = [a; b; c].
Proof. intros Ha Hb. unfold splitn3. by rewrite !split_at_char_app. Qed.

Lemma kind_of_word k : kind_of (kind_word k) = Some k.
Proof. by destruct k. Qed.

Lemma kind_word_clean k : contains_char space (kind_word k) = false /\ contains_char nl (kind_word k) = false.
Proof. by destruct k. Qed.

(** A text written line by line is read line by line. *)
Lemma written_lines_read {A} (line : A -> string) (parse : string -> option A) xs s :
  Forall (fun x => exists l, line x = l +:+ newline /\ contains_char nl l = false /\ parse (strip_cr l) = Some x) xs ->
  (s = EmptyString \/ ends_with_nl s = true) ->
  filter_map parse (lines (foldl (fun s x => s +:+ line x) s xs)) = filter_map parse (lines s) ++ xs.
Proof.
  intros H. revert s. induction H as [|x xs (l & Hx & Hl & Hp) _ IH]; intros s Hs; [by rewrite app_nil_r|].
  cbn [foldl]. rewrite IH.
  - rewrite lines_app, Hx, lines_line, filter_map_app by done. cbn [filter_map]. rewrite Hp.
    by rewrite <- app_assoc.
  - right. rewrite Hx, ends_with_nl_app by (by destruct l). apply ends_with_nl_snoc.
Qed.

Lemma concats_line (a b c : string) :
  concats [a; " "; b; " "; c; newline] = (a +:+ String space (b +:+ String space c)) +:+ newline.
Proof.
  rewrite !concat_empty_cons. change (concats []) with EmptyString.
  change " " with (String space EmptyString).
  by str_norm.
Qed.

Lemma strip_cr_fixed c : strip_cr c = c -> last_char c <> Some cr.
Proof.
  intros Hc Hl. destruct c as [|x c]; [done|].
  assert (Hlen : String.length (strip_cr (String x c)) < String.length (String x c)).
  { clear Hc. revert x Hl. induction c as [|y c IH]; intros x Hl.
    - cbn [last_char] in Hl. injection Hl as ->. vm_compute. lia.
    - change (strip_cr (String x (String y c))) with (String x (strip_cr (String y c))).
      cbn [String.length]. specialize (IH y Hl). cbn [String.length] in IH. lia. }
  rewrite Hc in Hlen. lia.
Qed.

(** A field at the end of a line comes back with the line. *)
Lemma field_clean a c : strip_cr c = c -> strip_cr (a +:+ String space c) = a +:+ String space c.
Proof.
  intros Hc%strip_cr_fixed. apply strip_cr_last. rewrite last_char_app by done. by destruct c.
Qed.

Lemma last_field_clean a b c :
  strip_cr c = c -> strip_cr (a +:+ String space (b +:+ String space c)) = a +:+ String space (b +:+ String space c).
Proof. intros Hc. by apply field_clean, field_clean. Qed.

Definition word (s : string) : bool := negb (contains_char space s) && negb (contains_char nl s).

Lemma word_spec s : word s = true <-> contains_char space s = false /\ contains_char nl s = false.
Proof. unfold word. by rewrite andb_true_iff, !negb_true_iff. Qed.

Lemma clean_line_spec s : clean_line s = true <-> contains_char nl s = false /\ strip_cr s = s.
Proof. unfold clean_line. by rewrite andb_true_iff, negb_true_iff, bool_decide_eq_true. Qed.

Lemma three_fields_read a b c :
  word a = true -> word b = true -> clean_line c = true ->
  exists l, concats [a; " "; b; " "; c; newline] = l +:+ newline /\ contains_char nl l = false /\
    splitn3 (strip_cr l) = [a; b; c].
Proof.
  intros [Ha Ha']%word_spec [Hb Hb']%word_spec [Hc Hc']%clean_line_spec. eexists. split; [apply concats_line|].
  split.
  - rewrite contains_char_app, contains_char_cons, contains_char_app, contains_char_cons, Ha', Hb', Hc. done.
  - rewrite last_field_clean by done. by apply splitn3_three.
Qed.

(** ** Properties *)

(** The marker file reads back as it was written, for paths without a space or a
    newline and digests that are lines; and what follows a first part of the file is
    read as it stands. *)
Theorem markers_round_trip ms :
  Forall (fun m => word (mk_path m) = true /\ clean_line (mk_digest m) = true) ms ->
  parse_markers (markers_text ms) = ms.
Proof.
  intros H. unfold parse_markers, markers_text.
  rewrite (written_lines_read marker_line parse_marker ms EmptyString); [done| |by left].
  eapply Forall_impl; [exact H|]. intros [k p d] [Hp Hd]. cbn in Hp, Hd.
  destruct (three_fields_read (kind_word k) p d) as (l & Hl & Hn & Hs); [|done..|].
  - apply word_spec, kind_word_clean.
  - exists l. split; [exact Hl|]. split; [done|]. unfold parse_marker. by rewrite Hs, kind_of_word.
Qed.

(** The manifest reads back as it was written, for paths without a space or a
    newline and anchors that are lines. *)
Theorem manifest_round_trip regions :
  Forall (fun r => word (fst r) = true /\ clean_line (snd r) = true) regions ->
  parse_manifest (manifest_text regions) = regions.
Proof.
  intros H. unfold parse_manifest, manifest_text.
  rewrite (written_lines_read region_line parse_region regions EmptyString); [done| |by left].
  eapply Forall_impl; [exact H|]. intros [p a] [Hp Ha]. cbn in Hp, Ha.
  destruct (three_fields_read "region" p a) as (l & Hl & Hn & Hs); [done..|].
  exists l. split; [|split; [done|]].
  - rewrite <- Hl. unfold region_line. cbn [fst snd]. rewrite !concat_empty_cons. done.
  - unfold parse_region. by rewrite Hs.
Qed.

(** A path with a space is misread: the marker comes back with the path cut at its
    first space and the rest in front of the digest. *)
Theorem marker_path_cut_at_space k p q d :
  word p = true -> word q = true -> clean_line d = true ->
  parse_markers (markers_text [mkMarker k (p +:+ String space q) d]) = [mkMarker k p (q +:+ String space d)].
Proof.
  intros Hp Hq Hd.
  assert (Hd' : clean_line (q +:+ String space d) = true).
  { apply word_spec in Hq as [_ Hq]. apply clean_line_spec in Hd as [Hd1 Hd2]. apply clean_line_spec.
    split; [by rewrite contains_char_app, contains_char_cons, Hq, Hd1|].
    by apply field_clean. }
  rewrite <- (markers_round_trip [mkMarker k p (q +:+ String space d)]) by (by repeat constructor).
  f_equal. unfold markers_text. cbn [foldl]. f_equal. unfold marker_line. cbn [mk_kind mk_path mk_digest].
  rewrite !concat_empty_cons. change (concats []) with EmptyString.
  change " " with (String space EmptyString).
  by str_norm.
Qed.

(** What may happen to a fact at undo time, on every input: it is overwritten (undone,
    clobbered or restored whole) only when nobody changed it, when it is a region whose
    markers are intact, or when the policy is [:clobber], and the whole file of a damaged
    region is restored only when no sibling holds a region there; [:defer] never
    overwrites a change. *)
Theorem decide_spec kind policy changed intact foreign :
  let d := decide_fact kind policy changed intact foreign in
  (d = DUndo <-> (kind = Region /\ intact <> Some false) \/ (kind <> Region /\ changed = false)) /\
  (d = DClobber <-> kind <> Region /\ changed = true /\ policy = Clobber) /\
  (d = DDefer <-> policy = Defer /\ ((kind = Region /\ intact = Some false) \/ (kind <> Region /\ changed = true))) /\
  (d = DRestoreWhole <-> kind = Region /\ intact = Some false /\ policy = Clobber /\ foreign = false) /\
  (d = DDeferForeign <-> kind = Region /\ intact = Some false /\ policy = Clobber /\ foreign = true).
Proof.
  destruct kind, policy, changed, intact as [[]|], foreign; cbn; repeat split; intros; intuition congruence.
Qed.

Lemma file_fact_observed p x : file_fact p = Some x -> observed_fact p = Some x.
Proof. destruct p as [k e]. unfold file_fact, observed_fact. by destruct (file_path (fp_shape e)). Qed.

(** The artifact sees what the engine sees, minus what is not a file: the file facts are the
    observed facts whose shape names a file, in the same order, with the same index and
    address; and a fact the engine compares by its shape is never a region. *)
Theorem file_facts_are_observed footprint :
  file_facts footprint =
    List.filter (fun f => match file_path (fp_shape (snd (fst f))) with Some _ => true | None => false end)
      (observed_facts footprint) /\
  forall k e a, (k, e, a) ∈ observed_facts footprint ->
    footprint !! k = Some e /\ observable_kind (fp_kind e) = true /\
    (file_path (fp_shape e) = Some a \/ (file_path (fp_shape e) = None /\ fp_kind e <> Region /\ a = fp_shape e)).
Proof.
  split.
  - unfold file_facts, observed_facts. induction (observable footprint) as [|[k e] l IH]; [done|].
    cbn [filter_map observed_fact file_fact]. destruct (file_path (fp_shape e)) as [path|] eqn:Hf.
    + cbn [List.filter fst snd]. rewrite Hf. f_equal. exact IH.
    + case_bool_decide; cbn [List.filter fst snd mbind option_bind]; rewrite ?Hf; exact IH.
  - intros k e a. unfold observed_facts. rewrite elem_of_filter_map. intros ([k' e'] & Hin & Ho).
    unfold observable in Hin. rewrite elem_of_lfilter in Hin. destruct Hin as [Hin Hk].
    apply elem_of_lookup_imap_1 in Hin as (i & x & [= -> ->] & Hi). cbn in Hk. cbn [observed_fact] in Ho.
    destruct (file_path (fp_shape x)) eqn:Hf.
    + injection Ho as <- <- <-. split; [done|]. split; [done|]. by left.
    + case_bool_decide; [done|]. injection Ho as <- <- <-. split; [done|]. split; [done|]. by right.
Qed.

(** ** Witnesses *)

Definition demo_markers : list Marker :=
  [mkMarker Owned "/etc/x" "ab"; mkMarker Region "/etc/y" MISSING].

Lemma markers_round_trip_witness : parse_markers (markers_text demo_markers) = demo_markers.
Proof. apply markers_round_trip. repeat constructor. Defined.

Lemma manifest_round_trip_witness :
  parse_manifest (manifest_text [("/etc/y", "blk")]) = [("/etc/y", "blk")].
Proof. apply manifest_round_trip. repeat constructor. Defined.

Lemma marker_path_cut_at_space_witness :
  parse_markers (markers_text [mkMarker Modified ("/srv/my" +:+ String space "file") "ab"]) =
  [mkMarker Modified "/srv/my" ("file" +:+ String space "ab")].
Proof. apply marker_path_cut_at_space; reflexivity. Defined.
