(* ===== verification/Resolve.v ===== *)
(** * Resolution

    [engine/src/resolve.rs], with the resolved primitives of [hook-proto/src/body.rs] and
    the engine's host of [engine/src/host.rs]: a body's references become the values the
    engine holds. What is shown is when resolution succeeds and what it gives, that the
    secrecy of a resolved value is the secrecy of the references it came from, that a
    body the closure analysis passes needs nothing only the controller holds, and that
    instantiating a pattern undoes binding it. *)

From Stdlib Require Import Ascii.
From stdpp Require Import base strings pretty numbers option sets gmap list.
From S2P Require Import Prelude Model Interference Secrets.

(** ** Resolved bodies *)

Record Resolved := mkResolved { rv_text : string; rv_secret : bool }.

Definition plain (text : string) : Resolved := mkResolved text false.

Inductive RPrim :=
| RRun (cmd : Resolved) (env : list (string * Resolved)) (stdin : option Resolved)
| RWrite (shape : string) (content : Resolved)
| RRemove (shape : string)
| RAppend (shape : string) (line : Resolved)
| RRegionSet (shape : string) (anchor : option string) (content : Resolved)
| RRegionClear (shape : string) (anchor : option string)
| RStage (name : string) (content : Resolved) (mode : N)
| RHook (name : string) (args : list (string * Resolved))
| RInstall (name : string)
| RRelease (name : string)
| RCall (prim : string) (cmd : Resolved).

Definition carries_secret (p : RPrim) : bool :=
  match p with
  | RRun cmd env stdin =>
      rv_secret cmd || existsb (fun e => rv_secret (snd e)) env
      || match stdin with Some v => rv_secret v | None => false end
  | RWrite _ content | RRegionSet _ _ content | RStage _ content _ => rv_secret content
  | RAppend _ line => rv_secret line
  | RHook _ args => existsb (fun e => rv_secret (snd e)) args
  | RCall _ cmd => rv_secret cmd
  | RRemove _ | RRegionClear _ _ | RInstall _ | RRelease _ => false
  end.

(** ** Hosts and environments *)

(** [engine::host::Host] *)
Record EHost := mkEHost {
  eh_record : HostRecord;
  eh_address : string;
  eh_scheduler : option string;
  eh_rescind_root : option string;
  eh_facts : gmap string string;
}.

Definition host_field (h : EHost) (field : string) : option string :=
  if field == "name" then Some (hr_name (eh_record h))
  else if field == "os" then Some (hr_os (eh_record h))
  else if field == "address" then Some (eh_address h)
  else eh_facts h !! field.

Record Env := mkEnv {
  env_params : gmap string string;
  env_outputs : gmap string string;
  env_controller : gmap string string;
  env_facts : gmap string string;
  env_secrets : gmap string string;
}.

Record Unbound := mkUnbound { ub_name : string }.

Definition ok_or {A} (name : string) (v : option A) : Result A Unbound :=
  match v with
  | Some x => Ok x
  | None => Err (mkUnbound name)
  end.

(** [Option::or_else] *)
Definition or_else {A} (a b : option A) : option A :=
  match a with
  | Some x => Some x
  | None => b
  end.

(** What a reference names, before [ok_or_else]. *)
Definition ref_value (r : Ref) (host : EHost) (env : Env) : option Resolved :=
  match r with
  | RParam n => plain <$> env_params env !! n
  | RHost f => plain <$> host_field host f
  | ROutput step name secret => (fun t => mkResolved t secret) <$> env_outputs env !! (step +:+ "." +:+ name)
  | RController n => plain <$> env_controller env !! n
  | RFact n => plain <$> env_facts env !! n
  | RSecret n => (fun t => mkResolved t true) <$> env_secrets env !! n
  end.

Definition resolve_ref (r : Ref) (host : EHost) (env : Env) : Result Resolved Unbound :=
  ok_or (ref_label r) (ref_value r host env).

Definition by_label (label : string) (host : EHost) (env : Env) : option string :=
  match strip_prefix "host." label with
  | Some f => host_field host f
  | None =>
      or_else (env_controller env !! label)
        (or_else (env_outputs env !! label)
          (or_else (env_params env !! label) (env_facts env !! label)))
  end.

(** One turn of the loop per [{label}]; each shortens [rest]. *)
Fixpoint instantiate_loop (fuel : nat) (out rest : string) (host : EHost) (env : Env) : Result string Unbound :=
  match fuel with
  | O => Ok out
  | S fuel' =>
      match split_at_char lbrace rest with
      | None => Ok (out +:+ rest)
      | Some (lit, after) =>
          match split_at_char rbrace after with
          | None => Ok ((out +:+ lit) +:+ String lbrace after)
          | Some (label, rest') =>
              let? v := ok_or label (by_label label host env) in
              instantiate_loop fuel' ((out +:+ lit) +:+ v) rest' host env
          end
      end
  end.

Definition instantiate (shape : string) (host : EHost) (env : Env) : Result string Unbound :=
  if negb (contains_char lbrace shape) then Ok shape
  else instantiate_loop (S (String.length shape)) EmptyString shape host env.

(** Every instance of a shape begins with what stands before its first hole. *)
Lemma instantiate_loop_begins fuel : forall out rest host env s,
  instantiate_loop fuel out rest host env = Ok s -> exists r, s = out +:+ r.
Proof.
  induction fuel as [|fuel IH]; intros out rest host env s; cbn [instantiate_loop].
  { intros [= <-]. exists EmptyString. by rewrite app_nil_s. }
  destruct (split_at_char lbrace rest) as [[lit after]|]; [|intros [= <-]; by exists rest].
  destruct (split_at_char rbrace after) as [[label rest']|].
  2: { intros [= <-]. rewrite app_assoc_s. by eexists. }
  destruct (ok_or label _) as [v|u]; [|done]. cbn [rbind]. intros Hl. apply IH in Hl as [r ->]. rewrite !app_assoc_s. by eexists.
Qed.

Lemma take_until_split c s : 
  match split_at_char c s with Some (a, _) => take_until c s = a | None => take_until c s = s end.
Proof.
  induction s as [|d s IH]; [done|]. cbn [split_at_char take_until]. rewrite (bool_decide_ext (c = d) (d = c)) by done.
  case_bool_decide; [done|]. destruct (split_at_char c s) as [[a b]|]; by rewrite IH.
Qed.

Lemma instantiate_begins shape host env s :
  instantiate shape host env = Ok s -> exists r, s = take_until lbrace shape +:+ r.
Proof.
  unfold instantiate. pose proof (take_until_split lbrace shape) as Ht. destruct (contains_char lbrace shape) eqn:Hc; cbn [negb].
  - cbn [instantiate_loop]. destruct (split_at_char lbrace shape) as [[lit after]|] eqn:Hs.
    2: { apply split_at_char_None in Hs. congruence. }
    rewrite Ht. destruct (split_at_char rbrace after) as [[label rest']|].
    2: { intros [= <-]. by eexists. }
    destruct (ok_or label _) as [v|u]; [|done]. cbn [rbind]. intros Hl. apply instantiate_loop_begins in Hl as [r ->].
    change (EmptyString +:+ lit) with lit. rewrite app_assoc_s. by eexists.
  - intros [= <-]. destruct (split_at_char lbrace shape) as [[a b]|] eqn:Hs.
    + apply split_at_char_Some in Hs as [-> _]. rewrite contains_char_app in Hc. apply orb_false_iff in Hc as [_ Hc]. discriminate.
    + rewrite Ht. exists EmptyString. by rewrite app_nil_s.
Qed.

Definition instantiate_entry (host : EHost) (env : Env) (e : FootprintEntry) : Result FootprintEntry Unbound :=
  let? shape := instantiate (fp_shape e) host env in
  Ok (mkEntry (fp_kind e) shape (fp_instance e) (fp_anchor e)).

Definition concrete_op (o : Op) (host : EHost) (env : Env) : Result Op Unbound :=
  let? footprint := collect_results (instantiate_entry host env) (op_footprint o) in
  let? undo :=
    match op_undo o with
    | Computed body undo_pre =>
        let? pre := collect_results (fun s => instantiate s host env) undo_pre in Ok (Computed body pre)
    | Compensate body undo_pre =>
        let? pre := collect_results (fun s => instantiate s host env) undo_pre in Ok (Compensate body pre)
    | u => Ok u
    end in
  Ok {| op_id := op_id o; op_footprint := footprint; op_pre := op_pre o; op_do := op_do o; op_undo := undo;
        op_post := op_post o; op_undo_locus := op_undo_locus o; op_refusal := op_refusal o;
        op_drift := op_drift o; op_reach := op_reach o; op_outputs := op_outputs o;
        op_exclusivity := op_exclusivity o; op_locus := op_locus o; op_suspend := op_suspend o;
        op_reestablish := op_reestablish o; op_handoff_done := op_handoff_done o;
        op_undo_idempotent := op_undo_idempotent o |}.

(** One part of the loop of [resolve_template]. *)
Definition resolve_part (host : EHost) (env : Env) (acc : Result Resolved Unbound) (p : Part)
    : Result Resolved Unbound :=
  let? a := acc in
  match p with
  | PLit s => Ok (mkResolved (rv_text a +:+ s) (rv_secret a))
  | PRef r =>
      let? v := resolve_ref r host env in
      Ok (mkResolved (rv_text a +:+ rv_text v) (rv_secret a || rv_secret v))
  end.

Definition resolve_template (t : Template) (host : EHost) (env : Env) : Result Resolved Unbound :=
  foldl (resolve_part host env) (Ok (mkResolved EmptyString false)) t.

Definition resolve_value (v : Value) (host : EHost) (env : Env) : Result Resolved Unbound :=
  match v with
  | VLit s => Ok (plain s)
  | VRef r => resolve_ref r host env
  | VTemplate t => resolve_template t host env
  end.

Definition resolve_pair (host : EHost) (env : Env) (name : string) (v : Value) : Result (string * Resolved) Unbound :=
  let? r := resolve_value v host env in Ok (name, r).

Definition resolve_prim (p : Prim) (host : EHost) (env : Env) : Result RPrim Unbound :=
  match p with
  | PRun r =>
      let? cmd := resolve_template (run_cmd r) host env in
      let? vars := collect_results (fun e => resolve_pair host env (ev_name e) (ev_value e)) (run_env r) in
      let? stdin := match run_stdin r with
                    | Some v => let? x := resolve_value v host env in Ok (Some x)
                    | None => Ok None
                    end in
      Ok (RRun cmd vars stdin)
  | PWrite w =>
      let? shape := instantiate (fr_shape (write_fact w)) host env in
      let? content := resolve_value (write_content w) host env in
      Ok (RWrite shape content)
  | PRemove r =>
      let? shape := instantiate (fr_shape (remove_fact r)) host env in Ok (RRemove shape)
  | PAppend a =>
      let? shape := instantiate (fr_shape (append_fact a)) host env in
      let? line := resolve_value (append_line a) host env in
      Ok (RAppend shape line)
  | PRegionSet r =>
      let? shape := instantiate (fr_shape (rs_fact r)) host env in
      let? content := resolve_value (rs_content r) host env in
      Ok (RRegionSet shape (fr_anchor (rs_fact r)) content)
  | PRegionClear r =>
      let? shape := instantiate (fr_shape (rc_fact r)) host env in
      Ok (RRegionClear shape (fr_anchor (rc_fact r)))
  | PStage s =>
      let? content := resolve_value (stage_content s) host env in
      Ok (RStage (stage_name s) content (stage_mode s))
  | PHook h =>
      let? args := collect_results (fun a => resolve_pair host env (kw_name a) (kw_value a)) (hook_args h) in
      Ok (RHook (hook_name h) args)
  | PInstall i => Ok (RInstall (install_name i))
  | PRelease r => Ok (RRelease (release_name r))
  | PCall c =>
      let? cmd := resolve_template (call_run c) host env in
      Ok (RCall (call_prim c) cmd)
  end.

Definition resolve_body (body : Body) (host : EHost) (env : Env) : Result (list RPrim) Unbound :=
  collect_results (fun p => resolve_prim p host env) body.

(** ** Instantiation *)

(** What a shape with its labels replaced is, label by label. A brace that is never
    closed is text. *)
Inductive instantiated (look : string -> option string) : string -> string -> Prop :=
| inst_done s : contains_char lbrace s = false -> instantiated look s s
| inst_open lit after :
    contains_char lbrace lit = false -> contains_char rbrace after = false ->
    instantiated look (lit +:+ String lbrace after) (lit +:+ String lbrace after)
| inst_label lit label rest v out :
    contains_char lbrace lit = false -> contains_char rbrace label = false ->
    look label = Some v -> instantiated look rest out ->
    instantiated look (lit +:+ String lbrace (label +:+ String rbrace rest)) (lit +:+ v +:+ out).

(** The first label of a shape that names nothing. *)
Inductive first_unbound (look : string -> option string) : string -> string -> Prop :=
| fu_here lit label rest :
    contains_char lbrace lit = false -> contains_char rbrace label = false -> look label = None ->
    first_unbound look (lit +:+ String lbrace (label +:+ String rbrace rest)) label
| fu_later lit label rest v n :
    contains_char lbrace lit = false -> contains_char rbrace label = false -> look label = Some v ->
    first_unbound look rest n ->
    first_unbound look (lit +:+ String lbrace (label +:+ String rbrace rest)) n.

Definition label_value (host : EHost) (env : Env) (label : string) : option string := by_label label host env.

(** Enough fuel for every shape: one more than its length. *)
Lemma instantiate_loop_spec fuel out rest host env :
  String.length rest < fuel ->
  match instantiate_loop fuel out rest host env with
  | Ok s => exists o, s = out +:+ o /\ instantiated (label_value host env) rest o
  | Err u => first_unbound (label_value host env) rest (ub_name u)
  end.
Proof.
  revert out rest. induction fuel as [|fuel IH]; intros out rest Hf; [lia|]. cbn [instantiate_loop].
  destruct (split_at_char lbrace rest) as [[lit after]|] eqn:Ho.
  2:{ apply split_at_char_None in Ho. exists rest. split; [done|by constructor]. }
  apply split_at_char_Some in Ho as [-> Hlit].
  destruct (split_at_char rbrace after) as [[label rest']|] eqn:Hc.
  2:{ apply split_at_char_None in Hc. eexists. split; [by rewrite app_assoc_s|by constructor]. }
  apply split_at_char_Some in Hc as [-> Hlabel]. unfold ok_or.
  destruct (by_label label host env) as [v|] eqn:Hv; simpl.
  - specialize (IH ((out +:+ lit) +:+ v) rest'). rewrite !length_app_s in Hf. simpl in Hf.
    rewrite length_app_s in Hf. simpl in Hf. specialize (IH ltac:(lia)).
    destruct (instantiate_loop _ _ _ _ _) as [s|u].
    + destruct IH as (o & -> & Ho). exists (lit +:+ v +:+ o). rewrite !app_assoc_s. split; [done|by constructor].
    + by apply (fu_later _ _ _ _ v).
  - by constructor.
Qed.

Lemma instantiate_cases shape host env :
  match instantiate shape host env with
  | Ok s => instantiated (label_value host env) shape s
  | Err u => first_unbound (label_value host env) shape (ub_name u)
  end.
Proof.
  unfold instantiate. destruct (contains_char lbrace shape) eqn:Hb; [|by constructor].
  assert (H := instantiate_loop_spec (S (String.length shape)) EmptyString shape host env ltac:(lia)).
  cbn [negb]. destruct (instantiate_loop _ _ _ _ _); [|done]. by destruct H as (o & -> & Ho).
Qed.

(** A shape opens its first label in one place. *)
Lemma cut_unique c a b a' b' :
  contains_char c a = false -> contains_char c a' = false ->
  a +:+ String c b = a' +:+ String c b' -> a = a' /\ b = b'.
Proof.
  intros Ha Ha' H. assert (Hs := split_at_char_app c a b Ha). rewrite H, split_at_char_app in Hs by done.
  by injection Hs as -> ->.
Qed.

Lemma contains_char_mid c a b : contains_char c (a +:+ String c b) = true.
Proof. rewrite contains_char_app, contains_char_cons, bool_decide_eq_true_2 by done. by rewrite orb_true_r. Qed.

Lemma instantiated_label_inv look lit label rest s :
  contains_char lbrace lit = false -> contains_char rbrace label = false ->
  instantiated look (lit +:+ String lbrace (label +:+ String rbrace rest)) s ->
  exists v out, look label = Some v /\ instantiated look rest out /\ s = lit +:+ v +:+ out.
Proof.
  intros Hl Hb H. remember (lit +:+ String lbrace (label +:+ String rbrace rest)) as x eqn:Hx.
  destruct H as [s H|l a H1 H2|l lb r v out H1 H2 H3 H4].
  - by rewrite Hx, contains_char_mid in H.
  - apply cut_unique in Hx as [_ ->]; [|done..]. by rewrite contains_char_mid in H2.
  - apply cut_unique in Hx as [-> Hx]; [|done..]. apply cut_unique in Hx as [-> ->]; [|done..]. eauto.
Qed.

Lemma instantiated_unique look shape s s' : instantiated look shape s -> instantiated look shape s' -> s = s'.
Proof.
  intros H. revert s'. induction H as [s H|lit after H1 H2|lit label rest v out H1 H2 H3 _ IH]; intros s' H'.
  - remember s as x eqn:Hx. destruct H'; subst; [done| |]; by rewrite contains_char_mid in H.
  - remember (lit +:+ String lbrace after) as x eqn:Hx.
    destruct H' as [s0 H0|l a K1 K2|l lb r v out K1 K2 K3 K4]; subst; [done|done|].
    apply cut_unique in Hx as [_ <-]; [|done..]. by rewrite contains_char_mid in H2.
  - apply instantiated_label_inv in H' as (v' & out' & Hv & Ho & ->); [|done..].
    rewrite H3 in Hv. injection Hv as <-. by rewrite (IH out').
Qed.

Lemma first_unbound_not_instantiated look shape n s : first_unbound look shape n -> ~ instantiated look shape s.
Proof.
  intros H. revert s. induction H as [lit label rest H1 H2 H3|lit label rest v n H1 H2 H3 _ IH]; intros s Hi.
  - apply instantiated_label_inv in Hi as (v' & out' & Hv & _ & _); [congruence|done..].
  - apply instantiated_label_inv in Hi as (v' & out' & _ & Ho & _); [by apply IH in Ho|done..].
Qed.

(** The labels of a shape, in order. *)
Fixpoint shape_labels_loop (fuel : nat) (s : string) : list string :=
  match fuel with
  | O => []
  | S fuel' =>
      match split_at_char lbrace s with
      | None => []
      | Some (_, after) =>
          match split_at_char rbrace after with
          | None => []
          | Some (label, rest) => label :: shape_labels_loop fuel' rest
          end
      end
  end.

Definition shape_labels (s : string) : list string := shape_labels_loop (S (String.length s)) s.

(** One run of the binding loop: the names it does not meet keep their values, and any
    reading of the labels that agrees with what it bound gives the matched text back. *)
Lemma bind_loop_instantiates fuel pat rest vars vars' :
  bind_shape_loop fuel pat rest vars = Some vars' -> NoDup (shape_labels_loop fuel pat) ->
  (forall n, n ∉ shape_labels_loop fuel pat -> vars' !! n = vars !! n) /\
  forall look, (forall n v, n ∈ shape_labels_loop fuel pat -> vars' !! n = Some v -> look n = Some v) ->
    instantiated look pat rest.
Proof.
  revert pat rest vars. induction fuel as [|fuel IH]; intros pat rest vars; [done|].
  cbn [bind_shape_loop shape_labels_loop].
  destruct (split_at_char lbrace pat) as [[lit after]|] eqn:Ho.
  2:{ apply split_at_char_None in Ho. case_bool_decide; [|done]. intros [= <-] _. subst.
      split; [done|]. intros look _. by constructor. }
  apply split_at_char_Some in Ho as [-> Hlit].
  destruct (strip_prefix lit rest) as [rest1|] eqn:Hr; [|done]. apply strip_prefix_Some in Hr as ->. cbn [mbind option_bind].
  destruct (split_at_char rbrace after) as [[name pat']|] eqn:Hc; [|done].
  apply split_at_char_Some in Hc as [-> Hname]. cbn [mbind option_bind].
  set (next := match split_at_char lbrace pat' with Some (l, _) => l | None => pat' end).
  destruct (if next == EmptyString then _ else _) as [[taken rest']|] eqn:Ht; [|done]. cbn [mbind option_bind].
  assert (Hrest : rest1 = taken +:+ rest').
  { revert Ht. case_bool_decide.
    - case_bool_decide; [|done]. intros [= <- <-]. by rewrite app_nil_s.
    - apply split_at_str_Some. }
  clear Ht. case_bool_decide; [done|]. intros Hb [Hnin Hnd]%NoDup_cons. destruct (IH _ _ _ Hb Hnd) as [Hkeep Hinst].
  split.
  - intros n [Hne Hn]%not_elem_of_cons. rewrite Hkeep by done. by rewrite lookup_insert_ne.
  - intros look Hlook. rewrite Hrest. apply inst_label; [done|done| |].
    + apply Hlook; [left|]. rewrite Hkeep by done. by rewrite lookup_insert_eq.
    + apply Hinst. intros n v Hn. apply Hlook. by right.
Qed.

(** The fuel of [bind_shape] is enough: more changes nothing. *)
Lemma bind_shape_fuel_enough fuel fuel' pat rest vars :
  String.length pat < fuel -> String.length pat < fuel' ->
  bind_shape_loop fuel pat rest vars = bind_shape_loop fuel' pat rest vars.
Proof.
  revert fuel' pat rest vars. induction fuel as [|fuel IH]; intros [|fuel'] pat rest vars; try lia.
  intros H1 H2. cbn [bind_shape_loop]. destruct (split_at_char lbrace pat) as [[lit after]|] eqn:Ho; [|done].
  apply split_at_char_Some in Ho as [-> _]. destruct (strip_prefix lit rest) as [rest1|]; [|done].
  cbn [mbind option_bind]. destruct (split_at_char rbrace after) as [[name pat']|] eqn:Hc; [|done].
  apply split_at_char_Some in Hc as [-> _]. cbn [mbind option_bind].
  destruct (if _ == EmptyString then _ else _) as [[taken rest']|]; [|done]. cbn [mbind option_bind].
  case_bool_decide; [done|]. rewrite !length_app_s in H1, H2. cbn [String.length] in H1, H2.
  rewrite !length_app_s in H1, H2. cbn [String.length] in H1, H2. apply IH; lia.
Qed.

(** ** Values and bodies *)

(** The references resolution looks at: a call's arguments are for the analysis only. *)
Definition resolved_refs (p : Prim) : list Ref :=
  match p with
  | PCall c => template_refs (call_run c)
  | _ => prim_refs p
  end.

Definition bound (host : EHost) (env : Env) (r : Ref) : bool :=
  match ref_value r host env with Some _ => true | None => false end.

Lemma resolve_ref_ok r host env v : resolve_ref r host env = Ok v <-> ref_value r host env = Some v.
Proof. unfold resolve_ref, ok_or. destruct (ref_value r host env); naive_solver. Qed.

Lemma ref_value_secret r host env v : ref_value r host env = Some v -> rv_secret v = ref_is_secret r.
Proof.
  destruct r as [n|n|f|s n b|n|n]; simpl; intros H; apply fmap_Some in H as (t & _ & ->); try done. by destruct b.
Qed.

(** The loop of [resolve_template], from any accumulator. *)
Lemma resolve_parts_spec host env t a :
  match foldl (resolve_part host env) (Ok a) t with
  | Ok r => forallb (bound host env) (template_refs t) = true /\
            rv_secret r = rv_secret a || existsb ref_is_secret (template_refs t)
  | Err u => exists r, r ∈ template_refs t /\ bound host env r = false /\ ub_name u = ref_label r
  end.
Proof.
  assert (Herr : forall t u, foldl (resolve_part host env) (Err u) t = Err u).
  { intros t' u. by induction t'. }
  revert a. induction t as [|[s|r] t IH]; intros a; cbn [foldl].
  - simpl. by rewrite orb_false_r.
  - unfold resolve_part at 2. cbn [rbind]. apply (IH (mkResolved (rv_text a +:+ s) (rv_secret a))).
  - unfold resolve_part at 2. cbn [rbind]. unfold resolve_ref, ok_or.
    change (template_refs (PRef r :: t)) with (r :: template_refs t).
    destruct (ref_value r host env) as [v|] eqn:Hv; cbn [rbind].
    + specialize (IH (mkResolved (rv_text a +:+ rv_text v) (rv_secret a || rv_secret v))).
      destruct (foldl _ _ _) as [x|u].
      * destruct IH as [Hb Hs]. cbn [forallb existsb]. unfold bound at 1. rewrite Hv. split; [done|].
        rewrite Hs. cbn [rv_secret]. rewrite (ref_value_secret _ _ _ _ Hv). by rewrite orb_assoc.
      * destruct IH as (x & Hx & Hb). exists x. split; [by right|done].
    + rewrite Herr. exists r. split; [by left|]. unfold bound. by rewrite Hv.
Qed.

Lemma resolve_value_spec v host env :
  match resolve_value v host env with
  | Ok r => forallb (bound host env) (value_refs v) = true /\ rv_secret r = value_is_secret v
  | Err u => exists r, r ∈ value_refs v /\ bound host env r = false /\ ub_name u = ref_label r
  end.
Proof.
  unfold value_is_secret. destruct v as [s|r|t]; cbn [resolve_value value_refs].
  - done.
  - unfold resolve_ref, ok_or. destruct (ref_value r host env) as [v|] eqn:Hv.
    + cbn [forallb existsb]. unfold bound. rewrite Hv, orb_false_r. split; [done|]. by apply ref_value_secret in Hv.
    + exists r. unfold bound. rewrite Hv. split; [by left|done].
  - apply (resolve_parts_spec host env t (mkResolved EmptyString false)).
Qed.

(** What fails, by its name: a reference that is not bound or a label of a shape. *)
Definition culprit (host : EHost) (env : Env) (p : Prim) (name : string) : Prop :=
  (exists r, r ∈ resolved_refs p /\ bound host env r = false /\ name = ref_label r) \/
  (exists f, f ∈ prim_facts p /\ first_unbound (label_value host env) (fr_shape f) name).

Lemma resolve_pairs_spec {A} (nm : A -> string) (val : A -> Value) host env l :
  match collect_results (fun e => resolve_pair host env (nm e) (val e)) l with
  | Ok r => forallb (bound host env) (flat_map (fun e => value_refs (val e)) l) = true /\
            existsb (fun e => rv_secret (snd e)) r = existsb ref_is_secret (flat_map (fun e => value_refs (val e)) l)
  | Err u => exists r, r ∈ flat_map (fun e => value_refs (val e)) l /\ bound host env r = false /\ ub_name u = ref_label r
  end.
Proof.
  induction l as [|x l IH]; [done|]. cbn [collect_results flat_map]. unfold resolve_pair at 1.
  assert (Hx := resolve_value_spec (val x) host env). destruct (resolve_value (val x) host env) as [v|u]; cbn [rbind].
  - destruct (collect_results _ l) as [r|u]; cbn [rbind].
    + destruct Hx as [Hx Hs], IH as [IH Hi]. rewrite forallb_app, existsb_app, Hx, IH. split; [done|].
      cbn [existsb snd]. by rewrite Hs, Hi.
    + destruct IH as (r & Hr & Hb). exists r. split; [|done]. apply elem_of_app. by right.
  - destruct Hx as (r & Hr & Hb). exists r. split; [|done]. apply elem_of_app. by left.
Qed.

(** The shape a primitive addresses, then the one value it carries. *)
Ltac shape_case sh :=
  match goal with Hi : forall s, match instantiate s ?host ?env with _ => _ end |- _ =>
    let E := fresh "E" in
    specialize (Hi sh); destruct (instantiate sh host env) eqn:E; cbn [rbind]; [|set_solver]
  end.

Ltac shape_done :=
  match goal with E : instantiate _ _ _ = Ok _ |- _ =>
    (split; [done|]); (split; [|done]); intros f ->%list_elem_of_singleton; by rewrite E
  end.

Ltac value_case v :=
  match goal with Hv : forall v, match resolve_value v ?host ?env with _ => _ end |- _ =>
    specialize (Hv v); destruct (resolve_value v host env); cbn [rbind]; [|naive_solver];
    destruct Hv as [? ?]; shape_done
  end.

(** One primitive: it resolves exactly when everything it names is bound, it is secret
    exactly when a reference in it is, and an error names a culprit. *)
Lemma resolve_prim_spec p host env :
  match resolve_prim p host env with
  | Ok rp => forallb (bound host env) (resolved_refs p) = true /\
             (forall f, f ∈ prim_facts p -> is_ok (instantiate (fr_shape f) host env) = true) /\
             carries_secret rp = existsb ref_is_secret (resolved_refs p)
  | Err u => culprit host env p (ub_name u)
  end.
Proof.
  assert (Hv := fun v => resolve_value_spec v host env). unfold value_is_secret in Hv.
  assert (Hi := fun s => instantiate_cases s host env).
  assert (Ht := fun t => Hv (VTemplate t)). cbn [resolve_value value_refs] in Ht.
  unfold culprit. destruct p as [r|w|r|a|r|r|s|h|i|r|c]; cbn [resolve_prim resolved_refs prim_refs prim_facts].
  - specialize (Ht (run_cmd r)). destruct (resolve_template _ _ _) as [cmd|u]; cbn [rbind].
    2:{ left. destruct Ht as (x & Hx & Hb). exists x. split; [|done]. apply elem_of_app. by left. }
    assert (He := resolve_pairs_spec ev_name ev_value host env (run_env r)).
    destruct (collect_results _ (run_env r)) as [vars|u]; cbn [rbind].
    2:{ left. destruct He as (x & Hx & Hb). exists x. split; [|done]. rewrite !elem_of_app. auto. }
    destruct Ht as [Ht1 Ht2], He as [He1 He2]. destruct (run_stdin r) as [v|].
    + specialize (Hv v). destruct (resolve_value v host env) as [x|u]; cbn [rbind].
      * destruct Hv as [Hv1 Hv2]. cbn [carries_secret]. rewrite !forallb_app, !existsb_app, Ht1, He1, Hv1, Ht2, He2, Hv2.
        split; [done|]. split; [set_solver|]. by rewrite orb_assoc.
      * left. destruct Hv as (y & Hy & Hb). exists y. split; [|done]. rewrite !elem_of_app. auto.
    + cbn [rbind carries_secret]. rewrite !app_nil_r, !orb_false_r, !forallb_app, !existsb_app, Ht1, He1, Ht2, He2.
      split; [done|]. split; [set_solver|done].
  - shape_case (fr_shape (write_fact w)). value_case (write_content w).
  - shape_case (fr_shape (remove_fact r)). shape_done.
  - shape_case (fr_shape (append_fact a)). value_case (append_line a).
  - shape_case (fr_shape (rs_fact r)). value_case (rs_content r).
  - shape_case (fr_shape (rc_fact r)). shape_done.
  - specialize (Hv (stage_content s)). destruct (resolve_value _ _ _) as [x|u]; cbn [rbind]; [|naive_solver].
    destruct Hv as [Hv1 Hv2]. split; [done|]. split; [set_solver|done].
  - assert (He := resolve_pairs_spec kw_name kw_value host env (hook_args h)).
    destruct (collect_results _ (hook_args h)) as [args|u]; cbn [rbind]; [|naive_solver].
    destruct He as [He1 He2]. split; [done|]. split; [set_solver|done].
  - cbn [rbind]. split; [done|]. split; [set_solver|done].
  - cbn [rbind]. split; [done|]. split; [set_solver|done].
  - specialize (Ht (call_run c)). destruct (resolve_template _ _ _) as [cmd|u]; cbn [rbind]; [|naive_solver].
    destruct Ht as [Ht1 Ht2]. split; [done|]. split; [set_solver|done].
Qed.

(** *** Environments that agree *)

Lemma resolve_value_agree v host env env' :
  (forall r, r ∈ value_refs v -> ref_value r host env = ref_value r host env') ->
  resolve_value v host env = resolve_value v host env'.
Proof.
  destruct v as [s|r|t]; cbn [resolve_value value_refs]; intros H; [done| |].
  - unfold resolve_ref. rewrite H; [done|by left].
  - unfold resolve_template. generalize (Ok (E := Unbound) (mkResolved EmptyString false)).
    induction t as [|[s|r] t IH]; intros acc; [done|by apply IH|]. cbn [foldl].
    change (template_refs (PRef r :: t)) with (r :: template_refs t) in H.
    rewrite IH by (intros x Hx; apply H; by right). f_equal.
    unfold resolve_part. destruct acc; [|done]. cbn [rbind]. unfold resolve_ref. by rewrite H by (by left).
Qed.

Lemma resolve_pair_agree nm v host env env' :
  (forall r, r ∈ value_refs v -> ref_value r host env = ref_value r host env') ->
  resolve_pair host env nm v = resolve_pair host env' nm v.
Proof. intros H. unfold resolve_pair. by rewrite (resolve_value_agree v host env env'). Qed.

Lemma resolve_prim_agree p host env env' :
  (forall r, r ∈ resolved_refs p -> ref_value r host env = ref_value r host env') ->
  (forall f, f ∈ prim_facts p -> instantiate (fr_shape f) host env = instantiate (fr_shape f) host env') ->
  resolve_prim p host env = resolve_prim p host env'.
Proof.
  assert (Hv := fun v => resolve_value_agree v host env env').
  assert (Ht := fun t => Hv (VTemplate t)). cbn [resolve_value value_refs] in Ht.
  destruct p as [r|w|r|a|r|r|s|h|i|r|c]; cbn [resolve_prim resolved_refs prim_refs prim_facts]; intros H Hf;
    try rewrite Hf by set_solver; try done; try (by rewrite Hv); try (by rewrite Ht).
  - rewrite Ht by set_solver. rewrite (collect_results_ext _ (fun e => resolve_pair host env' (ev_name e) (ev_value e))).
    + destruct (run_stdin r); [|done]. by rewrite Hv by set_solver.
    + intros e He. apply resolve_pair_agree. intros x Hx. apply H. membership. eauto.
  - by rewrite (collect_results_ext _ (fun a => resolve_pair host env' (kw_name a) (kw_value a)))
      by (intros a Ha; apply resolve_pair_agree; intros x Hx; apply H; membership; eauto).
Qed.

Lemma instantiate_unbound_shape s host env : runtime_bound s = false -> instantiate s host env = Ok s.
Proof. unfold runtime_bound, instantiate. by intros ->. Qed.

(** A target-local reference reads the host, a parameter or a fact. *)
Lemma target_local_agree r host env env' :
  ref_target_local r = true -> env_params env = env_params env' -> env_facts env = env_facts env' ->
  ref_value r host env = ref_value r host env'.
Proof. destruct r; simpl; congruence. Qed.

(** A reference that is no secret reads everything but the secrets. *)
Lemma nonsecret_agree r host env env' :
  ref_is_secret r = false -> env_params env = env_params env' -> env_facts env = env_facts env' ->
  env_outputs env = env_outputs env' -> env_controller env = env_controller env' ->
  ref_value r host env = ref_value r host env'.
Proof. destruct r as [| | |? ? []| |]; simpl; congruence. Qed.

(** What the shell is given to run. *)
Definition command_of (p : RPrim) : option Resolved :=
  match p with
  | RRun cmd _ _ | RCall _ cmd => Some cmd
  | _ => None
  end.

(** The template a primitive's command comes from. *)
Definition command_template (p : Prim) : option Template :=
  match p with
  | PRun r => Some (run_cmd r)
  | PCall c => Some (call_run c)
  | _ => None
  end.

Lemma command_of_resolved p rp host env :
  resolve_prim p host env = Ok rp ->
  match command_template p with
  | Some t => exists cmd, command_of rp = Some cmd /\ resolve_template t host env = Ok cmd
  | None => command_of rp = None
  end.
Proof.
  destruct p; cbn [resolve_prim command_template]; intros H; result_inv; eauto.
Qed.

Lemma run_string_refs body p t r :
  in_run_string body = None -> p ∈ body -> command_template p = Some t -> r ∈ template_refs t ->
  ref_is_secret r = false.
Proof.
  intros Hs Hp Ht Hr. apply list_elem_of_lookup_1 in Hp as [i Hi]. destruct (ref_is_secret r) eqn:E; [|done].
  assert (Hf := proj1 (search_None (fun pos => pos == "cmd") body) Hs (mkFound i "cmd" r)).
  discriminate Hf. exists p, (VTemplate t). cbn [found_index found_position found_ref]. split; [done|].
  split; [|done]. destruct p; try done; injection Ht as <-; by left.
Qed.

(** ** Properties *)

(** Instantiating a shape replaces every label by the value it names, once, from the
    left, and leaves the rest of the text alone; it fails exactly when some label names
    nothing, and the error names the first such label. *)
Theorem instantiate_spec shape host env :
  (forall s, instantiate shape host env = Ok s <-> instantiated (label_value host env) shape s) /\
  (forall u, instantiate shape host env = Err u <-> first_unbound (label_value host env) shape (ub_name u)).
Proof.
  assert (H := instantiate_cases shape host env). destruct (instantiate shape host env) as [s|u].
  - split.
    + intros s'. split; [by intros [= <-]|]. intros H'. f_equal. by eapply instantiated_unique.
    + intros u. split; [done|]. intros H'. exfalso. by eapply first_unbound_not_instantiated.
  - split.
    + intros s'. split; [done|]. intros H'. exfalso. by eapply first_unbound_not_instantiated.
    + intros [n]. destruct u as [m]. cbn [ub_name] in *. split; [by intros [= <-]|]. intros H'. do 2 f_equal.
      clear -H H'. revert n H'. induction H as [lit label rest H1 H2 H3|lit label rest v m H1 H2 H3 _ IH]; intros n H'.
      * remember (lit +:+ _) as x eqn:Hx. destruct H' as [l lb r K1 K2 K3|l lb r v n K1 K2 K3 K4];
          apply cut_unique in Hx as [_ Hx]; try done; apply cut_unique in Hx as [-> ->]; done || congruence.
      * remember (lit +:+ _) as x eqn:Hx. destruct H' as [l lb r K1 K2 K3|l lb r w n K1 K2 K3 K4];
          apply cut_unique in Hx as [_ Hx]; try done; apply cut_unique in Hx as [-> ->]; try done; [congruence|auto].
Qed.

(** Instantiating undoes binding: when a probe's pattern with distinct labels matches a
    concrete shape, the pattern instantiated with the bindings is that shape. *)
Theorem instantiate_undoes_bind pattern shape vars host env :
  bind_shape pattern shape = Some vars ->
  NoDup (shape_labels pattern) ->
  Forall (fun n => strip_prefix "host." n = None) (shape_labels pattern) ->
  (forall n v, vars !! n = Some v -> env_controller env !! n = Some v) ->
  instantiate pattern host env = Ok shape.
Proof.
  unfold bind_shape, shape_labels. intros Hb Hnd Hh Henv.
  destruct (bind_loop_instantiates _ _ _ _ _ Hb Hnd) as [_ Hi].
  assert (Hs : instantiated (label_value host env) pattern shape).
  { apply Hi. intros n v Hn Hv. rewrite Forall_forall in Hh. unfold label_value, by_label.
    rewrite (Hh n Hn). by rewrite (Henv n v Hv). }
  assert (H := instantiate_cases pattern host env). destruct (instantiate pattern host env) as [s|u].
  - f_equal. by eapply instantiated_unique.
  - exfalso. by eapply first_unbound_not_instantiated.
Qed.

(** Resolution of a body: it succeeds exactly when every reference it reads is bound
    and every shape it addresses instantiates; a primitive then carries a secret exactly
    when a reference it reads is one; and an error names a reference or a label of the
    first primitive that fails. *)
Theorem resolve_body_spec body host env :
  match resolve_body body host env with
  | Ok rps =>
      Forall2 (fun p rp => carries_secret rp = existsb ref_is_secret (resolved_refs p)) body rps /\
      forall p, p ∈ body -> forallb (bound host env) (resolved_refs p) = true /\
        forall f, f ∈ prim_facts p -> is_ok (instantiate (fr_shape f) host env) = true
  | Err u =>
      exists pre p post, body = pre ++ p :: post /\ culprit host env p (ub_name u) /\
        is_ok (resolve_body pre host env) = true
  end.
Proof.
  unfold resolve_body. induction body as [|p body IH]; [set_solver|]. cbn [collect_results].
  assert (Hp := resolve_prim_spec p host env). destruct (resolve_prim p host env) as [rp|u] eqn:Ep; cbn [rbind].
  - destruct (collect_results _ body) as [rps|u]; cbn [rbind].
    + destruct Hp as (H1 & H2 & H3), IH as [H4 H5]. split; [by constructor|]. set_solver.
    + destruct IH as (pre & q & post & -> & Hq & Hpre). exists (p :: pre), q, post.
      split; [done|]. split; [done|]. cbn [collect_results]. rewrite Ep. cbn [rbind].
      by destruct (collect_results _ pre).
  - exists [], p, body. done.
Qed.

(** A closed body needs nothing only the controller holds: a body that the closure
    analysis passes and that holds no secret resolves to the same primitives, or fails
    the same way, whatever the controller's values, the outputs of other steps and the
    secrets are. *)
Theorem closed_body_resolves_alone body host env env' :
  unclosed_body body = [] -> anywhere body = None ->
  env_params env = env_params env' -> env_facts env = env_facts env' ->
  resolve_body body host env = resolve_body body host env'.
Proof.
  intros Hc Hs Hp Hf. apply collect_results_ext. intros p Hin.
  destruct (proj1 (unclosed_body_nil body) Hc p Hin) as (_ & Hfacts & Hrefs).
  apply resolve_prim_agree.
  - intros r Hr. apply target_local_agree; [|done..].
    assert (Hr' : r ∈ prim_refs p) by (destruct p; try done; simpl in *; apply elem_of_app; by left).
    destruct (Hrefs r Hr') as [Hl|Hx]; [done|]. exfalso.
    apply prim_refs_positions in Hr' as (pos & v & Hpos & Hv).
    apply list_elem_of_lookup_1 in Hin as [i Hi].
    assert (Hk := proj1 (search_None (fun _ => true) body) Hs (mkFound i pos r)).
    discriminate Hk. by exists p, v.
  - intros f Hf'. by rewrite !instantiate_unbound_shape by auto.
Qed.

(** C31. Command strings hold no secret: in a body where no secret stands in a run string,
    every command resolution gives is marked public, and it is the same command whatever
    the secrets are. *)
Theorem commands_reveal_no_secret body host env env' rps :
  in_run_string body = None ->
  env_params env = env_params env' -> env_facts env = env_facts env' ->
  env_outputs env = env_outputs env' -> env_controller env = env_controller env' ->
  resolve_body body host env = Ok rps ->
  Forall (fun rp => forall cmd, command_of rp = Some cmd -> rv_secret cmd = false) rps /\
  forall rps', resolve_body body host env' = Ok rps' -> map command_of rps = map command_of rps'.
Proof.
  intros Hs Hp Hf Ho Hc Hr. unfold resolve_body in *. apply collect_results_ok in Hr.
  assert (Hcmd : forall p t, p ∈ body -> command_template p = Some t ->
                   resolve_template t host env = resolve_template t host env').
  { intros p t Hin Ht. apply (resolve_value_agree (VTemplate t)). intros r Hr'.
    apply nonsecret_agree; [|done..]. by eapply run_string_refs. }
  split.
  - apply Forall_lookup. intros i rp Hi cmd Hcmd'. destruct (Forall2_lookup_r _ _ _ _ _ Hr Hi) as (p & Hpi & Hres).
    apply list_elem_of_lookup_2 in Hpi. apply command_of_resolved in Hres.
    destruct (command_template p) as [t|] eqn:Ht; [|congruence]. destruct Hres as (c & Hc' & Hres).
    rewrite Hc' in Hcmd'. injection Hcmd' as ->.
    assert (Hsp := resolve_value_spec (VTemplate t) host env). cbn [resolve_value] in Hsp. rewrite Hres in Hsp.
    destruct Hsp as [_ ->]. apply existsb_false. intros r Hr'. by eapply run_string_refs.
  - intros rps' Hr'. apply collect_results_ok in Hr'. clear Hs. revert rps' Hr'.
    induction Hr as [|p rp body rps Hp1 _ IH]; intros rps' Hr'; inversion Hr' as [|? rp' ? rps'' Hp2 Hr'']; subst; [done|].
    cbn [map]. f_equal; [|apply IH; [set_solver|done]].
    apply command_of_resolved in Hp1, Hp2. destruct (command_template p) as [t|] eqn:Ht; [|congruence].
    destruct Hp1 as (c1 & -> & Hc1), Hp2 as (c2 & -> & Hc2). rewrite (Hcmd p t) in Hc1 by (done || by left). congruence.
Qed.

(** A label that stands twice in a pattern takes what the last one matched: the pattern
    matches a shape that no value of the label gives. *)
Theorem repeated_label_matches_unequal :
  bind_shape "a:{g}:{g}" "a:1:2" = Some {["g" := "2"]}.
Proof. vm_compute. reflexivity. Qed.

(** ** Witnesses *)

Definition demo_ehost : EHost :=
  mkEHost (mkHostRecord "web1" "debian" ["ssh"] true true None) "10.0.0.1" None None {["role" := "web"]}.

Definition demo_env (token : string) : Env :=
  mkEnv {["port" := "80"]} ∅ {["g" := "g1"]} ∅ {["token" := token]}.

Lemma instantiate_undoes_bind_witness :
  instantiate "guest:state:{g}" demo_ehost (demo_env "t") = Ok "guest:state:g1".
Proof.
  apply (instantiate_undoes_bind "guest:state:{g}" "guest:state:g1" {["g" := "g1"]}).
  - vm_compute. reflexivity.
  - apply (bool_decide_eq_true_1 _). vm_compute. reflexivity.
  - vm_compute. repeat constructor.
  - intros n v H. exact H.
Defined.

(** Restart on the parameter's port, then log in with the token on standard input. *)
Definition demo_resolve_body : list Prim :=
  [PRun (mkRun [PLit "serve "; PRef (RParam "port")] [] (Some (VRef (RSecret "token"))))].

Definition demo_closed_body : list Prim :=
  [run [PLit "serve "; PRef (RParam "port")]; write (fact_ref "file:/etc/x") (VRef (RHost "role"))].

Lemma closed_body_resolves_alone_witness :
  resolve_body demo_closed_body demo_ehost (demo_env "one") =
  resolve_body demo_closed_body demo_ehost (mkEnv {["port" := "80"]} ∅ ∅ ∅ ∅).
Proof. apply closed_body_resolves_alone; reflexivity. Defined.

Lemma commands_reveal_no_secret_witness :
  Forall (fun rp => forall cmd, command_of rp = Some cmd -> rv_secret cmd = false)
    [RRun (plain "serve 80") [] (Some (mkResolved "one" true))] /\
  forall rps', resolve_body demo_resolve_body demo_ehost (demo_env "two") = Ok rps' ->
    map command_of [RRun (plain "serve 80") [] (Some (mkResolved "one" true))] = map command_of rps'.
Proof.
  apply (commands_reveal_no_secret demo_resolve_body demo_ehost (demo_env "one") (demo_env "two"));
    vm_compute; reflexivity.
Defined.
