(* ===== verification/Apart.v ===== *)
(** * The check and what runs

    A plan is checked on the shapes its steps declare, some with holes, and runs on what
    those shapes become. Here the two are put together: of an accepted plan, what a step
    writes when it runs is never what the undo of an earlier step needs as that step left
    it, whatever the holes were filled with. *)

From Stdlib Require Import Ascii Sorted.
From stdpp Require Import base strings pretty numbers option sets gmap list.
From S2P Require Import Prelude Model Algebra Interference Secrets Verdict CheckRules Check Resolve.

(** ** Texts that begin alike *)

Lemma prefix_comparable (a b x y : string) : a +:+ x = b +:+ y -> starts_with a b || starts_with b a = true.
Proof.
  revert b. induction a as [|c a IH]; intros b; [by destruct b|]. destruct b as [|d b]; [by rewrite orb_true_r|].
  rewrite !append_cons. intros [= <- Hab]. apply IH in Hab. cbn. by destruct (ascii_dec c c).
Qed.

Lemma starts_with_longer a b r : starts_with a b = true -> starts_with a (b +:+ r) = true.
Proof.
  revert b. induction a as [|c a IH]; intros b; [by destruct (b +:+ r)|]. destruct b as [|d b]; [done|].
  rewrite append_cons. cbn. destruct (ascii_dec c d); [apply IH|done].
Qed.

Lemma take_until_whole c s : exists r, s = take_until c s +:+ r.
Proof.
  pose proof (take_until_split c s) as Ht. destruct (split_at_char c s) as [[a b]|] eqn:Hs.
  - apply split_at_char_Some in Hs as [-> _]. rewrite Ht. by eexists.
  - rewrite Ht. exists EmptyString. by rewrite app_nil_s.
Qed.

Lemma begins_with_instance s1 s2 :
  starts_with (take_until lbrace s1) (take_until lbrace s2) = true -> starts_with (take_until lbrace s1) s2 = true.
Proof. intros Hs. destruct (take_until_whole lbrace s2) as [w W]. rewrite W. by apply starts_with_longer. Qed.

(** Two shapes that do not overlap become two texts, whatever fills them. *)
Lemma instances_differ s1 s2 h1 env1 h2 env2 t1 t2 :
  overlap_shape s1 s2 = false -> instantiate s1 h1 env1 = Ok t1 -> instantiate s2 h2 env2 = Ok t2 -> t1 <> t2.
Proof.
  intros Ho H1 H2 Heq. unfold overlap_shape in Ho. destruct (negb (runtime_bound s1) && negb (runtime_bound s2)) eqn:Hb.
  - apply andb_true_iff in Hb as [B1 B2]. apply bool_decide_eq_false in Ho. unfold instantiate in H1, H2.
    unfold runtime_bound in B1, B2. rewrite B1 in H1. rewrite B2 in H2. congruence.
  - apply orb_false_iff in Ho as [O1 O2].
    destruct (instantiate_begins _ _ _ _ H1) as [r1 E1], (instantiate_begins _ _ _ _ H2) as [r2 E2].
    assert (Hc : take_until lbrace s1 +:+ r1 = take_until lbrace s2 +:+ r2) by congruence.
    apply prefix_comparable, orb_true_iff in Hc as [Hc|Hc]; apply begins_with_instance in Hc; congruence.
Qed.

(** ** Properties *)


(** ** Witness *)

(** Two steps of a strict plan: a file under one directory, named when the plan runs, and a
    region of a file under another. *)
Definition demo_writer (id : string) (e : FootprintEntry) : Item :=
  Step (step_new (sample_op id [e] [] Restore ULController [])).

Definition demo_apart : Plan :=
  sample_plan (Some 3600%N) None
    [demo_writer "a" (entry Modified "file:/srv/{name}"); demo_writer "b" (anchored "file:/etc/{name}" "r")].

Definition demo_leaf (k : nat) : Leaf :=
  default (mkLeaf 0 (op_new EmptyString []) EmptyString []) (step_facts (plan_owner demo_apart) (plan_body demo_apart) !! k).

Lemma demo_leaf_in k : k < 2 -> demo_leaf k ∈ step_facts (plan_owner demo_apart) (plan_body demo_apart).
Proof.
  intros Hk. apply list_elem_of_lookup. exists k. unfold demo_leaf. destruct k as [|[|k]]; [reflexivity|reflexivity|lia].
Qed.

Definition demo_where : EHost := mkEHost demo_host EmptyString None None ∅.

Definition demo_env (name : string) : Env := mkEnv {["name" := name]} ∅ ∅ ∅ ∅.

