(* ===== verification/StoreFiles.v ===== *)
(** * The store's directory

    [engine/src/store.rs]: the schema a store carries, creating, opening and migrating
    one. A directory is a map from file names to contents, whether it and its directory of
    instances are there, whether another process holds its lock, who owns it where that is
    not this account, and what becomes of the calls still to be made of the system: each
    goes through or fails, and a write that fails may have put part of its bytes in the
    file. A crash is a call from which on nothing happens: the code returns at the first
    call that fails, so what a crash leaves is what the failure of the next call leaves, but
    for the lock, which the system takes back. Reading does not fail. Instance files, the
    journal and the ledger are files like any other here. *)

From Stdlib Require Import Ascii.
From stdpp Require Import base strings pretty numbers option sets gmap list.
From S2P Require Import Prelude Model Interference Ledger Monad.

(** What becomes of a call: it fails with the system's words, having written [part] bytes. *)
Inductive Fate := Goes | Fails (why : string) (part : nat).

Record Dir := mkDir {
  d_is_dir : bool;
  d_instances : bool;
  d_files : gmap string string;
  d_locked : bool;
  d_foreign : option (N * N);
  d_fates : list Fate;
}.

Definition eta_dir (d : Dir) : Dir := mkDir (d_is_dir d) (d_instances d) (d_files d) (d_locked d) (d_foreign d) (d_fates d).

Definition set_files v d := ltac:(field_update eta_dir d_files v d).
Definition set_locked v d := ltac:(field_update eta_dir d_locked v d).
Definition set_fates v d := ltac:(field_update eta_dir d_fates v d).

(** A call of the system; where no fate is left every call goes through. *)
Definition sys (effect : Dir -> Dir) (partly : nat -> Dir -> Dir) : Dir -> Dir * Result unit StoreError := fun d =>
  match d_fates d with
  | [] => (effect d, Ok tt)
  | Goes :: r => (effect (set_fates r d), Ok tt)
  | Fails why part :: r => (partly part (set_fates r d), Err (Io why))
  end.

(** One that does all of its work or none of it. *)
Definition sys_whole (effect : Dir -> Dir) : Dir -> Dir * Result unit StoreError := sys effect (fun _ d => d).

Definition put (name bytes : string) (d : Dir) : Dir := set_files (<[name := bytes]> (d_files d)) d.

Definition rename (from to : string) (d : Dir) : Dir :=
  match d_files d !! from with
  | Some b => set_files (<[to := b]> (delete from (d_files d))) d
  | None => d
  end.

(** [Path::with_extension] of a file's name *)
Fixpoint before_last_dot (s : string) : option string :=
  match s with
  | EmptyString => None
  | String c r =>
      match before_last_dot r with
      | Some a => Some (String c a)
      | None => if c == chr 46 then Some EmptyString else None
      end
  end.

Definition with_extension (name ext : string) : string :=
  concats [match before_last_dot name with Some (String c a) => String c a | _ => name end; "."; ext].

Definition tmp_of (name : string) : string := with_extension name "rescind-tmp".

(** The temporary file is created empty, written and synced, and takes the file's place. *)
Definition write_atomic (name bytes : string) : Dir -> Dir * Result unit StoreError :=
  do! sys_whole (put (tmp_of name) EmptyString) in
  do! sys (put (tmp_of name) bytes) (fun part => put (tmp_of name) (String.substring 0 part bytes)) in
  do! sys_whole (fun d => d) in
  sys_whole (rename (tmp_of name) name).

Definition schema_of (d : Dir) : Result N SchemaError :=
  match d_files d !! "schema" with
  | None => Err SchemaMissing
  | Some text =>
      match parse_u32 (trim text) with
      | Some v => Ok v
      | None => Err (SchemaUnreadable (trim text))
      end
  end.

(** [open_lock] creates the lock file; [lock_exclusive] takes the lock unless it is held. *)
Definition open_lock : Dir -> Dir * Result unit StoreError :=
  sys_whole (fun d => match d_files d !! "lock" with Some _ => d | None => put "lock" EmptyString d end).

Definition lock_exclusive : Dir -> Dir * Result bool StoreError := fun d =>
  match sys_whole (fun d => d) d with
  | (d1, Err e) => (d1, Err e)
  | (d1, Ok _) => if d_locked d1 then (d1, Ok false) else (set_locked true d1, Ok true)
  end.

(** Dropping the lock file releases the lock. *)
Definition unlock (d : Dir) : Dir := set_locked false d.

(** [fs::create_dir_all(root.join("instances"))] *)
Definition create_instances : Dir -> Dir * Result unit StoreError :=
  sys_whole (fun d => mkDir true true (d_files d) (d_locked d) (d_foreign d) (d_fates d)).

(** The lock is held to the end of what follows: it is dropped with the store where one is
    opened, or at once. *)
Definition keeping_lock {A} (m : Dir -> Dir * Result A StoreError) : Dir -> Dir * Result A StoreError := fun d =>
  match m d with
  | (d', Ok x) => (d', Ok x)
  | (d', Err e) => (unlock d', Err e)
  end.

Definition dropping_lock {A} (m : Dir -> Dir * Result A StoreError) : Dir -> Dir * Result A StoreError := fun d =>
  let '(d', r) := m d in (unlock d', r).

Record Migration := mkMigration { mg_from : N; mg_to : N; mg_steps : list string; mg_dry_run : bool }.

Section StoreFiles.
Context (root : string).
(** [write_json] of the record of a migration: its canonical JSON. *)
Context (migrated_json : N -> N -> string -> string).

(** The lock, or the refusal that names the store. *)
Definition take_lock : Dir -> Dir * Result unit StoreError :=
  do! open_lock in
  let! got := lock_exclusive in
  if got then mret tt else mthrow (Locked root).

(** The name of the store's controller, written where there is none. *)
Definition controller_of (new_controller_id : string) : Dir -> Dir * Result string StoreError := fun d =>
  match d_files d !! "controller" with
  | Some s =>
      if negb (trim s == EmptyString) then (d, Ok (trim s))
      else (do! write_atomic "controller" (new_controller_id +:+ newline) in mret new_controller_id) d
  | None => (do! write_atomic "controller" (new_controller_id +:+ newline) in mret new_controller_id) d
  end.

(** An open store is known by its controller. *)
Definition store_open (new_controller_id : string) : Dir -> Dir * Result string StoreError := fun d =>
  match schema_of d with
  | Err e => (d, Err (Schema e))
  | Ok v =>
      if (v <? SCHEMA)%N then (d, Err (Schema (SchemaOlder v)))
      else if negb (v =? SCHEMA)%N then (d, Err (Schema (SchemaUnknown v)))
      else (do! take_lock in keeping_lock (do! create_instances in controller_of new_controller_id)) d
  end.

Definition schema_text : string := show SCHEMA +:+ newline.

Definition store_create (new_controller_id : string) : Dir -> Dir * Result string StoreError :=
  do! create_instances in
  fun d => match schema_of d with
           | Ok v => (d, Err (Corrupt (concats [root; " is already a store (schema "; show v; ")"])))
           | Err SchemaMissing => (do! write_atomic "schema" schema_text in store_open new_controller_id) d
           | Err e => (d, Err (Schema e))
           end.

Definition migration_steps (from : N) (by_ : string) : list string :=
  (if (from <? 2)%N
   then ["applied steps record their repeat variables from here on; records written before carry none, and read unchanged"]
   else [])
  ++ (if (from <? 3)%N
      then ["a step in flight records what its facts read before do from here on; a record written before kept nothing, and its step in flight is undone at boot as before";
            "the store names its controller at its next open, and stamps it into the              instance directories it creates from here on; directories created before              carry no stamp and are read as this controller's"]
      else [])
  ++ ["write schema " +:+ show SCHEMA;
      concats ["record Migrated{from: "; show from; ", to: "; show SCHEMA; ", by: "; by_; "} for the next start"]].

(** What a migration that is not a dry run does: the record first, the schema last. *)
Definition migrate_writes (from : N) (by_ : string) : Dir -> Dir * Result unit StoreError :=
  do! take_lock in
  dropping_lock
    (do! create_instances in
     do! write_atomic "migrated.json" (migrated_json from SCHEMA by_) in
     write_atomic "schema" schema_text).

Definition migrate (dry_run : bool) (by_ : string) (d : Dir) : Dir * Result Migration StoreError :=
  if negb (d_is_dir d) then (d, Err (Io (root +:+ " is not a directory")))
  else
    match d_foreign d with
    | Some (owner, me) => (d, Err (NotOwned root owner me))
    | None =>
        match (match schema_of d with
               | Ok v => Ok v
               | Err SchemaMissing => Ok 0%N
               | Err e => Err (Schema e)
               end) with
        | Err e => (d, Err e)
        | Ok from =>
            if (SCHEMA <? from)%N then (d, Err (Schema (SchemaUnknown from)))
            else if (from =? SCHEMA)%N
            then (d, Ok (mkMigration from SCHEMA
                           [concats ["schema "; show SCHEMA; " already; nothing to do"]] dry_run))
            else
              let m := mkMigration from SCHEMA (migration_steps from by_) dry_run in
              if dry_run then (d, Ok m) else (do! migrate_writes from by_ in mret m) d
        end
    end.
End StoreFiles.

(** ** What is kept *)

(** Every file but those named, and all else but the directory of instances and the fates. *)
Definition kept (names : list string) (d d' : Dir) : Prop :=
  (forall name, name ∉ names -> d_files d' !! name = d_files d !! name)
  /\ (d_is_dir d = true -> d_is_dir d' = true) /\ d_foreign d' = d_foreign d.

#[export] Instance kept_preorder names : PreOrder (kept names).
Proof.
  split; [intros d; by repeat split|]. intros a b c (F1 & D1 & O1) (F2 & D2 & O2). unfold kept. rewrite O2. split_and!; [|by auto|done].
  intros name Hn. by rewrite F2, F1.
Qed.

Lemma kept_mono names names' d d' : names ⊆ names' -> kept names d d' -> kept names' d d'.
Proof. intros H (F & D & O). split_and!; [|done..]. intros name Hn. apply F. set_solver. Qed.

(** Every call goes through from here on. *)
Definition all_go (d : Dir) : Prop := Forall (fun f => f = Goes) (d_fates d).

(** A call keeps what its effects keep, and goes through where every call does. *)
Lemma sys_spec effect partly d :
  exists d0, d_files d0 = d_files d /\ d_is_dir d0 = d_is_dir d /\ d_instances d0 = d_instances d /\ d_locked d0 = d_locked d
    /\ d_foreign d0 = d_foreign d /\ (all_go d -> all_go d0)
    /\ ((sys effect partly d = (effect d0, Ok tt))
        \/ (exists part why, sys effect partly d = (partly part d0, Err (Io why)) /\ ~ all_go d)).
Proof.
  unfold sys, all_go. destruct (d_fates d) as [|[|why part] r] eqn:Hf.
  - exists d. rewrite Hf. split_and!; try done. by left.
  - exists (set_fates r d). split_and!; try done; [by inversion 1|by left].
  - exists (set_fates r d). split_and!; try done; [by inversion 1|]. right. exists part, why. split; [done|]. by inversion 1.
Qed.

Lemma same_kept names d d0 : d_files d0 = d_files d -> d_is_dir d0 = d_is_dir d -> d_foreign d0 = d_foreign d -> kept names d d0.
Proof. intros HF HD HO. unfold kept. rewrite HF, HD, HO. by split_and!. Qed.

Lemma kept_put names name bytes d : name ∈ names -> kept names d (put name bytes d).
Proof. intros Hin. split_and!; [|done..]. intros n Hn. cbn. by rewrite lookup_insert_ne by set_solver. Qed.

(** A write is all or nothing, whatever becomes of its calls; what it may leave is the
    temporary file. *)
Lemma write_atomic_spec name bytes d : tmp_of name <> name ->
  let '(d', r) := write_atomic name bytes d in
  kept [name; tmp_of name] d d' /\ d_locked d' = d_locked d /\ d_instances d' = d_instances d /\ (all_go d -> r = Ok tt /\ all_go d')
  /\ d_files d' !! name = (if r then Some bytes else d_files d !! name).
Proof.
  intros Ht. unfold write_atomic, sys_whole, mthen.
  destruct (sys_spec (put (tmp_of name) EmptyString) (fun _ d => d) d) as (d0 & F0 & D0 & I0 & L0 & O0 & G0 & [-> |(p0 & y0 & -> & N0)]).
  2: { rewrite L0, F0, I0. split_and!; try done; [by apply same_kept]. }
  set (d1 := put (tmp_of name) EmptyString d0).
  assert (K1 : forall b, kept [name; tmp_of name] d (put (tmp_of name) b d0)).
  { intros b. etrans; [by apply (same_kept _ d d0)|]. apply kept_put. set_solver. }
  destruct (sys_spec (put (tmp_of name) bytes) (fun part => put (tmp_of name) (String.substring 0 part bytes)) d1)
    as (d2 & F2 & D2 & I2 & L2 & O2 & G2 & [-> |(p2 & y2 & -> & N2)]).
  2: { split_and!; try done; [|by rewrite <- L0|by rewrite <- I0|by intros Ha; apply G0, N2 in Ha|].
       - etrans; [apply (K1 EmptyString)|]. etrans; [by apply (same_kept _ d1 d2)|]. apply kept_put. set_solver.
       - cbn. by rewrite lookup_insert_ne, F2; cbn; rewrite ?lookup_insert_ne, ?F0 by done. }
  set (d3 := put (tmp_of name) bytes d2).
  assert (K3 : kept [name; tmp_of name] d d3).
  { etrans; [apply (K1 EmptyString)|]. etrans; [by apply (same_kept _ d1 d2)|]. apply kept_put. set_solver. }
  assert (H3 : d_files d3 !! name = d_files d !! name) by (cbn; rewrite lookup_insert_ne, F2 by done; cbn; by rewrite lookup_insert_ne, F0).
  assert (L3 : d_locked d3 = d_locked d) by (cbn; by rewrite L2). assert (I3 : d_instances d3 = d_instances d) by (cbn; by rewrite I2).
  assert (A3 : all_go d -> all_go d3) by (intros Ha; exact (G2 (G0 Ha))).
  destruct (sys_spec (fun d => d) (fun _ d => d) d3) as (d4 & F4 & D4 & I4 & L4 & O4 & G4 & [-> |(p4 & y4 & -> & N4)]).
  2: { rewrite L4, I4, F4. split_and!; try done; [|by intros Ha%A3%N4]. etrans; [exact K3|]. by apply same_kept. }
  destruct (sys_spec (rename (tmp_of name) name) (fun _ d => d) d4) as (d5 & F5 & D5 & I5 & L5 & O5 & G5 & [-> |(p5 & y5 & -> & N5)]).
  2: { rewrite L5, L4, I5, I4, F5, F4. split_and!; try done; [|by intros Ha%A3%G4%N5]. etrans; [exact K3|]. apply same_kept; congruence. }
  unfold rename. rewrite F5, F4. cbn [d_files set_files put d3]. rewrite lookup_insert_eq. cbn. rewrite L5, L4, I5, I4.
  split_and!; try done; [|by intros Ha%A3%G4%G5|by rewrite lookup_insert_eq].
  etrans; [exact K3|]. split_and!; cbn; [|by rewrite D5, D4|by rewrite O5, O4].
  intros n Hn. rewrite lookup_insert_ne, lookup_delete_ne by set_solver. done.
Qed.

Lemma take_lock_spec root d :
  let '(d', r) := take_lock root d in
  kept ["lock"] d d' /\ (all_go d -> all_go d')
  /\ match r with
     | Ok _ => d_locked d = false /\ d_locked d' = true
     | Err e => d_locked d' = d_locked d /\ (all_go d -> d_locked d = true /\ e = Locked root)
     end.
Proof.
  unfold take_lock, open_lock, lock_exclusive, sys_whole, mthen.
  set (eff := fun d => match d_files d !! "lock" with Some _ => d | None => put "lock" EmptyString d end).
  destruct (sys_spec eff (fun _ d => d) d) as (d0 & F0 & D0 & I0 & L0 & O0 & G0 & [-> |(p0 & y0 & -> & N0)]).
  2: { split_and!; try done. by apply same_kept. }
  assert (K1 : kept ["lock"] d (eff d0)).
  { etrans; [by apply (same_kept _ d d0)|]. unfold eff. destruct (d_files d0 !! "lock"); [done|]. apply kept_put. set_solver. }
  assert (A1 : all_go d -> all_go (eff d0)) by (intros Ha%G0; unfold eff; by destruct (d_files d0 !! "lock")).
  assert (L1 : d_locked (eff d0) = d_locked d) by (rewrite <- L0; unfold eff; by destruct (d_files d0 !! "lock")).
  destruct (sys_spec (fun d => d) (fun _ d => d) (eff d0)) as (d2 & F2 & D2 & I2 & L2 & O2 & G2 & [-> |(p2 & y2 & -> & N2)]).
  2: { split_and!; try done; [|by auto|congruence|by intros Ha%A1%N2]. etrans; [exact K1|]. by apply same_kept. }
  assert (K2 : kept ["lock"] d d2) by (etrans; [exact K1|]; by apply same_kept).
  rewrite L2, L1. destruct (d_locked d) eqn:Hl; cbn; split_and!; try done; try (by auto); congruence.
Qed.

Lemma create_instances_spec d :
  let '(d', r) := create_instances d in
  kept [] d d' /\ d_locked d' = d_locked d /\ (all_go d -> r = Ok tt /\ all_go d').
Proof.
  unfold create_instances, sys_whole. set (eff := fun d => mkDir true true _ _ _ _).
  destruct (sys_spec eff (fun _ d => d) d) as (d0 & F0 & D0 & I0 & L0 & O0 & G0 & [-> |(p0 & y0 & -> & N0)]).
  - split_and!; try done; [|by auto]. etrans; [by apply (same_kept _ d d0)|]. by split_and!.
  - split_and!; try done. by apply same_kept.
Qed.

(** ** Migrating *)

(** The schema a migration starts from, or nothing it can migrate. *)
Definition migratable (d : Dir) : Prop :=
  d_is_dir d = true /\ d_foreign d = None /\ d_locked d = false /\
  (schema_of d = Err SchemaMissing \/ exists v, schema_of d = Ok v /\ (v <= SCHEMA)%N).

(** The files a migration may write, two of them temporary. *)
Definition migration_files : list string := ["schema"; "migrated.json"; "lock"; "schema.rescind-tmp"; "migrated.rescind-tmp"].

Lemma schema_of_text d : d_files d !! "schema" = Some schema_text -> schema_of d = Ok SCHEMA.
Proof. unfold schema_of. intros ->. vm_compute. reflexivity. Qed.

Lemma schema_of_files d d' : d_files d !! "schema" = d_files d' !! "schema" -> schema_of d = schema_of d'.
Proof. unfold schema_of. by intros ->. Qed.

(** Before the schema is written: it is the old one, and the record is the old one or, once
    it is written, the new one, whole. *)
Record migrating (record : string) (written : bool) (d d' : Dir) : Prop := mkMigrating {
  mi_kept : kept migration_files d d';
  mi_schema : d_files d' !! "schema" = d_files d !! "schema";
  mi_record : d_files d' !! "migrated.json" = if written then Some record else d_files d !! "migrated.json";
  mi_go : all_go d -> all_go d';
}.

(** What a migration's writes come to. *)
Definition migrated_or_not (record : string) (d d' : Dir) (r : Result unit StoreError) : Prop :=
  kept migration_files d d' /\ d_locked d' = false
  /\ (if r then schema_of d' = Ok SCHEMA /\ d_files d' !! "migrated.json" = Some record
      else schema_of d' = schema_of d /\ (d_files d' !! "migrated.json" = d_files d !! "migrated.json" \/ d_files d' !! "migrated.json" = Some record))
  /\ (all_go d -> r = Ok tt).

Lemma not_migrated record written d d' e : migrating record written d d' -> d_locked d' = false -> ~ all_go d ->
  migrated_or_not record d d' (Err e).
Proof.
  intros [K S R _] Hl Hno. split; [done|]. split; [done|]. split; [|by intros]. split; [by apply schema_of_files|].
  rewrite R. destruct written; [by right|by left].
Qed.

Lemma migrating_more record written d d1 d2 names : migrating record written d d1 -> kept names d1 d2 -> names ⊆ migration_files ->
  "schema" ∉ names -> "migrated.json" ∉ names -> (all_go d1 -> all_go d2) -> migrating record written d d2.
Proof.
  intros [K S R G] K2 Hn Hs Hr Hg. pose proof K2 as (F & _ & _). split; [|by rewrite F|by rewrite F|by auto].
  etrans; [exact K|]. by eapply kept_mono.
Qed.

Lemma migrate_writes_spec root json from by_ d : d_locked d = false ->
  let '(d', r) := migrate_writes root json from by_ d in migrated_or_not (json from SCHEMA by_) d d' r.
Proof.
  intros Hl. set (record := json from SCHEMA by_). assert (M0 : migrating record false d d) by by split.
  unfold migrate_writes, mthen at 1. pose proof (take_lock_spec root d) as H1. destruct (take_lock root d) as [d1 [[]|e]].
  2: { destruct H1 as (K & A & L & G). assert (Hno : ~ all_go d) by (intros Ha; destruct (G Ha); congruence).
       eapply not_migrated; [|congruence|done]. eapply migrating_more; [exact M0|exact K|set_solver..|done]. }
  destruct H1 as (K1 & A1 & _ & L1). assert (M1 : migrating record false d d1) by (eapply migrating_more; [exact M0|exact K1|set_solver..|done]).
  unfold dropping_lock, mthen at 1. pose proof (create_instances_spec d1) as H2.
  destruct (create_instances d1) as [d2 [[]|e]]; destruct H2 as (K2 & _ & A2).
  2: { assert (Hno : ~ all_go d) by (intros Ha; by destruct (A2 (A1 Ha))). eapply not_migrated; [|done|done].
       eapply migrating_more; [exact M1|exact K2|set_solver..|]. intros Ha. by destruct (A2 Ha). }
  assert (M2 : migrating record false d d2) by (eapply migrating_more; [exact M1|exact K2|set_solver..|]; by intros Ha; apply A2).
  unfold mthen. pose proof (write_atomic_spec "migrated.json" record d2 ltac:(by vm_compute)) as H3. fold record.
  change (tmp_of "migrated.json") with "migrated.rescind-tmp" in H3.
  destruct (write_atomic "migrated.json" record d2) as [d3 [[]|e]]; destruct H3 as (K3 & _ & _ & A3 & R3).
  2: { assert (Hno : ~ all_go d) by (intros Ha; by destruct (A3 (mi_go _ _ _ _ M2 Ha))). eapply (not_migrated _ false); [|done|done].
       destruct M2 as [K S R _]. pose proof K3 as (F3 & _ & _). split; [|rewrite <- S; apply F3; set_solver|by rewrite <- R|by intros].
       etrans; [exact K|]. eapply kept_mono; [|exact K3]. set_solver. }
  pose proof (write_atomic_spec "schema" schema_text d3 ltac:(by vm_compute)) as H4. change (tmp_of "schema") with "schema.rescind-tmp" in H4.
  assert (K4' : kept migration_files d d3) by (etrans; [apply (mi_kept _ _ _ _ M2)|]; eapply kept_mono; [|exact K3]; set_solver).
  assert (S3 : d_files d3 !! "schema" = d_files d !! "schema") by (rewrite <- (mi_schema _ _ _ _ M2); apply K3; set_solver).
  destruct (write_atomic "schema" schema_text d3) as [d4 [[]|e]]; destruct H4 as (K4 & _ & _ & A4 & S4).
  - split; [etrans; [exact K4'|]; eapply kept_mono; [|exact K4]; set_solver|]. split; [done|]. split; [|done]. split; [by apply schema_of_text|].
    rewrite <- R3. apply K4. set_solver.
  - assert (Hno : ~ all_go d) by (intros Ha; by destruct (A4 (proj2 (A3 (mi_go _ _ _ _ M2 Ha))))). eapply (not_migrated _ true); [|done|done].
    split; [etrans; [exact K4'|]; eapply kept_mono; [|exact K4]; set_solver|by rewrite <- S3|rewrite <- R3; apply K4; set_solver|by intros].
Qed.

Lemma migrate_spec root json by_ d : migratable d ->
  let '(d', r) := migrate root json false by_ d in
  kept migration_files d d' /\ (if r then schema_of d' = Ok SCHEMA else schema_of d' = schema_of d)
  /\ (d_files d' !! "migrated.json" = d_files d !! "migrated.json"
      \/ exists from, d_files d' !! "migrated.json" = Some (json from SCHEMA by_))
  /\ (all_go d -> is_ok r = true) /\ migratable d'.
Proof.
  intros (Hd & Hf & Hl & Hs). unfold migrate. rewrite Hd, Hf. cbn [negb].
  assert (Hfrom : exists from, (match schema_of d with
                                | Ok v => Ok v
                                | Err SchemaMissing => Ok 0%N
                                | Err e => Err (Schema e)
                                end) = Ok from /\ (from <= SCHEMA)%N /\ (from = SCHEMA -> schema_of d = Ok SCHEMA)).
  { destruct Hs as [->|(v & -> & Hv)]; [by exists 0%N|]. exists v. split; [done|]. split; [done|]. by intros ->. }
  destruct Hfrom as (from & -> & Hle & Heq).
  rewrite (proj2 (N.ltb_ge SCHEMA from)) by done. destruct (N.eqb_spec from SCHEMA) as [E|E].
  - split_and!; [done|by apply Heq|by left|done|]. by split_and!.
  - pose proof (migrate_writes_spec root json from by_ d Hl) as Hw. unfold mthen, mret. destruct (migrate_writes _ _ _ _ _) as [d' [[]|e]];
      destruct Hw as (K & Hl' & Hr & Hg); pose proof K as (_ & KD & KF).
    + destruct Hr as [Hsch Hrec]. split_and!; try done; [right; by exists from|]. split_and!; [by auto|congruence|done|]. right. by exists SCHEMA.
    + destruct Hr as [Hsch Hrec]. split_and!; try done.
      * destruct Hrec; [by left|right; by exists from].
      * intros Ha. by specialize (Hg Ha).
      * split_and!; [by auto|congruence|done|]. by rewrite Hsch.
Qed.

(** ** Opening *)

Lemma controller_of_spec id d : trim (id +:+ newline) = id -> id <> EmptyString ->
  let '(d', r) := controller_of id d in
  kept ["controller"; "controller.rescind-tmp"] d d' /\ d_locked d' = d_locked d /\ (all_go d -> is_ok r = true /\ all_go d')
  /\ match r with
     | Ok c => c <> EmptyString /\ exists s, d_files d' !! "controller" = Some s /\ trim s = c
     | Err _ => True
     end.
Proof.
  intros Ht Hne.
  assert (Hw : let '(d', r) := (do! write_atomic "controller" (id +:+ newline) in mret id) d in
    kept ["controller"; "controller.rescind-tmp"] d d' /\ d_locked d' = d_locked d /\ (all_go d -> is_ok r = true /\ all_go d')
    /\ match r with Ok c => c <> EmptyString /\ exists s, d_files d' !! "controller" = Some s /\ trim s = c | Err _ => True end).
  { unfold mthen, mret. pose proof (write_atomic_spec "controller" (id +:+ newline) d ltac:(by vm_compute)) as H.
    change (tmp_of "controller") with "controller.rescind-tmp" in H.
    destruct (write_atomic "controller" (id +:+ newline) d) as [d' [[]|e]]; destruct H as (K & L & I & A & F); split_and!; try done.
    - intros Ha. by destruct (A Ha).
    - by exists (id +:+ newline).
    - intros Ha. by destruct (A Ha). }
  unfold controller_of. destruct (d_files d !! "controller") as [s|] eqn:Hc; [|exact Hw].
  case_bool_decide as He; [exact Hw|]. cbn. split_and!; try done. by exists s.
Qed.

(** An open store, opened again before and after it is dropped. *)
Lemma reopened root d c : schema_of d = Ok SCHEMA -> d_locked d = true ->
  (exists s, d_files d !! "controller" = Some s /\ trim s = c) -> c <> EmptyString ->
  forall id, snd (store_open root id (set_fates [] d)) = Err (Locked root)
             /\ snd (store_open root id (set_fates [] (unlock d))) = Ok c.
Proof.
  intros Hs Hl (s & Hc & <-) Hce id.
  assert (Hlock : forall b, d_locked (put "lock" EmptyString (set_fates [] b)) = d_locked b) by done.
  unfold store_open. change (schema_of (set_fates [] d)) with (schema_of d). change (schema_of (set_fates [] (unlock d))) with (schema_of d).
  rewrite Hs, N.ltb_irrefl, N.eqb_refl. cbn [negb].
  unfold take_lock, open_lock, lock_exclusive, create_instances, keeping_lock, sys_whole, sys, mthen, mret, mthrow.
  cbn [d_fates set_fates d_files unlock set_locked]. destruct (d_files d !! "lock") as [t|];
    cbn [d_fates d_files d_locked set_fates set_files set_locked unlock put]; rewrite Hl; (split; [done|]); unfold controller_of;
    cbn [d_files]; rewrite ?lookup_insert_ne, Hc by done; by rewrite bool_decide_eq_false_2.
Qed.

(** Opening a store: it is refused where the schema is not this build's or another process
    holds the lock, and else only where a call of the system fails; it touches nothing but the
    lock, the directory of instances and the controller's file, a temporary one beside it;
    after it a second open is refused until the store is dropped, and then finds the same
    controller. A refusal leaves the lock as it was. *)
Theorem open_spec root id d (Hid : trim (id +:+ newline) = id) (Hne : id <> EmptyString) :
  let '(d', r) := store_open root id d in
  (is_ok r = true -> schema_of d = Ok SCHEMA /\ d_locked d = false)
  /\ (all_go d -> schema_of d = Ok SCHEMA -> d_locked d = false -> is_ok r = true)
  /\ kept ["lock"; "controller"; "controller.rescind-tmp"] d d'
  /\ match r with
     | Ok c => d_locked d' = true
               /\ forall id', snd (store_open root id' (set_fates [] d')) = Err (Locked root)
                              /\ snd (store_open root id' (set_fates [] (unlock d'))) = Ok c
     | Err _ => d_locked d' = d_locked d
     end.
Proof.
  unfold store_open at 1. destruct (schema_of d) as [v|e] eqn:Hs; [|by split_and!].
  destruct (N.ltb_spec v SCHEMA); [split_and!; try done; intros _ [= ->]; lia|].
  destruct (N.eqb_spec v SCHEMA) as [->|Hv]; cbn [negb]; [|split_and!; try done; intros _ [= ->]; lia].
  unfold mthen at 1. pose proof (take_lock_spec root d) as H1. destruct (take_lock root d) as [d1 [[]|e]].
  2: { destruct H1 as (K & A & L & G). split_and!; try done; [|eapply kept_mono; [|exact K]; set_solver].
       intros Ha _ Hl. destruct (G Ha). congruence. }
  destruct H1 as (K1 & A1 & L0 & L1). unfold keeping_lock, mthen. pose proof (create_instances_spec d1) as H2.
  destruct (create_instances d1) as [d2 [[]|e]]; destruct H2 as (K2 & L2 & A2).
  2: { split_and!; try done; [intros Ha; by destruct (A2 (A1 Ha))|].
       etrans; [eapply kept_mono; [|exact K1]; set_solver|eapply (kept_mono []); [set_solver|exact K2]]. }
  pose proof (controller_of_spec id d2 Hid Hne) as H3. destruct (controller_of id d2) as [d3 [c|e]]; destruct H3 as (K3 & L3 & A3 & C3).
  2: { split_and!; try done; [intros Ha; by destruct (A3 (proj2 (A2 (A1 Ha))))|].
       etrans; [eapply kept_mono; [|exact K1]; set_solver|]. etrans; [eapply (kept_mono []); [set_solver|exact K2]|].
       eapply kept_mono; [|exact K3]. set_solver. }
  assert (K : kept ["lock"; "controller"; "controller.rescind-tmp"] d d3).
  { etrans; [eapply kept_mono; [|exact K1]; set_solver|]. etrans; [eapply (kept_mono []); [set_solver|exact K2]|].
    eapply kept_mono; [|exact K3]. set_solver. }
  split_and!; try done; [congruence|]. apply reopened; [|congruence|tauto..].
  rewrite <- Hs. apply schema_of_files, K. set_solver.
Qed.

(** ** Properties *)

(** C39. A migration can be stopped anywhere: from a store of this account that no process holds
    and whose schema is this build's or older, or missing, and whatever call of the system
    fails, a write in the middle of its bytes included, the instances, the journal, the
    ledger and every other file are as they were but for the lock file and the two temporary
    files of the writes; the schema is the old one or, exactly when the migration answered
    [Ok], this build's; the record of the migration is the old one, or the new one whole; and
    the lock is free again. Where no call fails the migration is done; so after one that was
    stopped another brings the schema to this build's, keeps the same files, and leaves a
    store that opens. A dry run changes nothing. *)
Theorem migration_is_crash_safe root json by_ d (Hd : migratable d) :
  fst (migrate root json true by_ d) = d /\
  let '(d', r) := migrate root json false by_ d in
  (forall name, name ∉ migration_files -> d_files d' !! name = d_files d !! name) /\
  (if r then schema_of d' = Ok SCHEMA else schema_of d' = schema_of d) /\
  (d_files d' !! "migrated.json" = d_files d !! "migrated.json"
   \/ exists from, d_files d' !! "migrated.json" = Some (json from SCHEMA by_)) /\
  (all_go d -> is_ok r = true) /\ d_locked d' = false /\
  forall by2 id, trim (id +:+ newline) = id -> id <> EmptyString ->
    let '(d2, r2) := migrate root json false by2 (set_fates [] d') in
    is_ok r2 = true /\ schema_of d2 = Ok SCHEMA /\
    (forall name, name ∉ migration_files -> d_files d2 !! name = d_files d !! name) /\
    is_ok (snd (store_open root id (set_fates [] d2))) = true.
Proof.
  split.
  - unfold migrate. destruct Hd as (-> & -> & _ & _). cbn [negb].
    destruct (match schema_of d with Ok v => _ | Err e => _ end) as [from|e]; [|done].
    destruct (SCHEMA <? from)%N; [done|]. by destruct (from =? SCHEMA)%N.
  - pose proof (migrate_spec root json by_ d Hd) as H. destruct (migrate root json false by_ d) as [d' r].
    destruct H as ((K & _) & Hs & Hr & Hg & Hm). split_and!; [done..|by destruct Hm as (_ & _ & ? & _)|].
    intros by2 id Hid Hne. assert (Hm2 : migratable (set_fates [] d')) by exact Hm.
    pose proof (migrate_spec root json by2 _ Hm2) as H2. destruct (migrate root json false by2 _) as [d2 r2].
    destruct H2 as ((K2 & _) & Hs2 & _ & Hg2 & (_ & _ & Hl2 & _)). specialize (Hg2 (Forall_nil_2 _)). destruct r2 as [m|e]; [|done].
    split_and!; [done|done|by intros name Hn; rewrite (K2 name Hn), <- (K name Hn)|].
    pose proof (open_spec root id (set_fates [] d2) Hid Hne) as Ho. destruct (store_open root id (set_fates [] d2)) as [d3 r3].
    destruct Ho as (_ & Ho & _). by apply Ho; [constructor| |].
Qed.

(** Creating a store where one is, is refused, and no file of it changes; creating one
    elsewhere opens it. *)
Theorem create_spec root id d (Hid : trim (id +:+ newline) = id) (Hne : id <> EmptyString) :
  (forall v, schema_of d = Ok v -> is_ok (snd (store_create root id d)) = false /\ d_files (fst (store_create root id d)) = d_files d) /\
  (schema_of d = Err SchemaMissing -> d_locked d = false -> all_go d -> is_ok (snd (store_create root id d)) = true).
Proof.
  assert (He : store_create root id d = match create_instances d with
    | (d1, Err e) => (d1, Err e)
    | (d1, Ok _) => match schema_of d1 with
                    | Ok v => (d1, Err (Corrupt (concats [root; " is already a store (schema "; show v; ")"])))
                    | Err SchemaMissing => (do! write_atomic "schema" schema_text in store_open root id) d1
                    | Err e => (d1, Err (Schema e))
                    end
    end) by (unfold store_create, mthen; by destruct (create_instances d) as [? []]).
  rewrite He. clear He. pose proof (create_instances_spec d) as H. destruct (create_instances d) as [d1 [[]|e]];
    destruct H as (K & L & A); pose proof K as (F & _ & _).
  - assert (Hf : d_files d1 = d_files d) by (apply map_eq; intros i; apply F; set_solver).
    assert (Hs : schema_of d1 = schema_of d) by (apply schema_of_files; by rewrite Hf). cbv beta. rewrite Hs. split.
    + intros v Hv. rewrite Hv. by split.
    + intros Hv Hl Ha. rewrite Hv. unfold mthen. pose proof (write_atomic_spec "schema" schema_text d1 ltac:(by vm_compute)) as Hw.
      destruct (write_atomic "schema" schema_text d1) as [d2 [[]|e]]; destruct Hw as (_ & L2 & _ & A2 & S2);
        destruct (A2 (proj2 (A Ha))) as [Hok Ha2]; [|done].
      pose proof (open_spec root id d2 Hid Hne) as Ho. destruct (store_open root id d2) as [d3 r3]. destruct Ho as (_ & Ho & _).
      apply Ho; [done|by apply schema_of_text|congruence].
  - split.
    + intros v Hv. split; [done|]. apply map_eq. intros i. apply F. set_solver.
    + intros _ _ Ha. by destruct (A Ha).
Qed.

(** ** Witnesses *)

(** A schema 1 store, and a file system that fills up in the middle of the record. *)
Definition demo_dir (fates : list Fate) : Dir :=
  mkDir true true {["schema" := "1" +:+ newline; "journal.ndjson" := "{}"]} false None fates.

Definition full_disk : list Fate := [Goes; Goes; Goes; Goes; Fails "no space left on device" 2].

Lemma open_spec_witness :
  let d := mkDir true true {["schema" := "3" +:+ newline]} false None [] in
  let '(d', r) := store_open "/var/rescind" "ab01" d in
  r = Ok "ab01" /\ d_locked d' = true /\ snd (store_open "/var/rescind" "cd02" (set_fates [] d')) = Err (Locked "/var/rescind").
Proof.
  intros d. split; [by vm_compute|]. split; [by vm_compute|].
  exact (proj1 (proj2 (proj2 (proj2 (proj2 (open_spec "/var/rescind" "ab01" d eq_refl ltac:(discriminate))))) "cd02")).
Defined.

Definition demo_migrated_json (from to : N) (by_ : string) : string := concats [show from; " "; show to; " "; by_].

Lemma migration_is_crash_safe_witness :
  let m := migrate "/var/rescind" demo_migrated_json false "ann" (demo_dir full_disk) in
  let m2 := migrate "/var/rescind" demo_migrated_json false "ann" (set_fates [] (fst m)) in
  snd m = Err (Io "no space left on device") /\ d_files (fst m) !! "migrated.rescind-tmp" = Some "1 "
  /\ schema_of (fst m) = Ok 1%N /\ d_files (fst m) !! "journal.ndjson" = Some "{}"
  /\ is_ok (snd m2) = true /\ is_ok (snd (store_open "/var/rescind" "ab01" (set_fates [] (fst m2)))) = true.
Proof.
  assert (Hm : migratable (demo_dir full_disk)).
  { split_and!; [done..|]. right. exists 1%N. split; [by vm_compute|]. by vm_compute. }
  assert (Hv : let m := migrate "/var/rescind" demo_migrated_json false "ann" (demo_dir full_disk) in
               snd m = Err (Io "no space left on device") /\ d_files (fst m) !! "migrated.rescind-tmp" = Some "1 ") by by vm_compute.
  pose proof (migration_is_crash_safe "/var/rescind" demo_migrated_json "ann" (demo_dir full_disk) Hm) as [_ H].
  destruct (migrate "/var/rescind" demo_migrated_json false "ann" (demo_dir full_disk)) as [d' r]. destruct Hv as [Hr Ht]. cbn [fst snd] in *. subst r.
  destruct H as (Hk & Hs & _ & _ & _ & Hagain). specialize (Hagain "ann" "ab01" eq_refl ltac:(discriminate)).
  destruct (migrate "/var/rescind" demo_migrated_json false "ann" (set_fates [] d')) as [d2 r2].
  destruct Hagain as (H1 & _ & _ & H2). cbn [fst snd]. split; [done|]. split; [done|]. split; [exact Hs|]. split; [|by split].
  rewrite Hk; [by vm_compute|]. by apply (bool_decide_unpack _); vm_compute.
Defined.
