(* ===== verification/Quote.v ===== *)
(** * Quoting for the target's shell ([render/src/quote.rs])

    A value baked into an artifact is quoted for the family that reads it. The reader of
    each family is written down too: how a POSIX shell, PowerShell and Python read one
    quoted word. A quoted value is read back as itself and the reader stops where the
    quoting stopped, so no value can end its own quotes. *)

From Stdlib Require Import Ascii.
From stdpp Require Import base strings pretty numbers option sets gmap list.
From S2P Require Import Prelude Journal Utf8.

(** ** Characters *)

(** [s.chars()], each character as its bytes; a [str] is UTF-8 ([Utf8.utf8_valid]). *)
Fixpoint chars_from (pend : option Pending) (s : string) : list string :=
  match s with
  | EmptyString => []
  | String c r =>
      match pend with
      | None =>
          match lead c with
          | LeadMulti second more => chars_from (Some (mkPending (String c EmptyString) second more)) r
          | _ => String c EmptyString :: chars_from None r
          end
      | Some p =>
          match pn_more p with
          | S (S more) =>
              chars_from (Some (mkPending (pn_bytes p +:+ String c EmptyString) continuation (S more))) r
          | _ => (pn_bytes p +:+ String c EmptyString) :: chars_from None r
          end
      end
  end.

Definition chars (s : string) : list string := chars_from None s.

Definition low_bits (k : N) (c : ascii) : N := (N_of_ascii c mod 2 ^ k)%N.

(** [c as u32] *)
Definition char_code (c : string) : N :=
  match c with
  | String a EmptyString => N_of_ascii a
  | String a (String b EmptyString) => (low_bits 5 a * 64 + low_bits 6 b)%N
  | String a (String b (String d EmptyString)) => (low_bits 4 a * 4096 + low_bits 6 b * 64 + low_bits 6 d)%N
  | String a (String b (String d (String e _))) =>
      (low_bits 3 a * 262144 + low_bits 6 b * 4096 + low_bits 6 d * 64 + low_bits 6 e)%N
  | EmptyString => 0
  end.

(** [char::is_control]: the Unicode category Cc. *)
Definition is_control (c : string) : bool :=
  let n := char_code c in (n <? 32)%N || ((127 <=? n)%N && (n <? 160)%N).

(** ** The source *)

Inductive Family := FamPosix | FamPowershell | FamPython.

Definition family_name (f : Family) : string :=
  match f with
  | FamPosix => "sh"
  | FamPowershell => "powershell"
  | FamPython => "python"
  end.

Record Unquotable := mkUnquotable { uq_family : Family; uq_value : string; uq_found : string }.

Definition char_of (n : N) : string := String (chr n) EmptyString.

Definition readable (c : string) : bool :=
  negb (is_control c) || existsb (fun k => c == k) [char_of 9; char_of 10; char_of 13].

Definition refuse (family : Family) (s : string) (bad : string -> bool) : Result unit Unquotable :=
  match List.find bad (chars s) with
  | Some found => Err (mkUnquotable family s found)
  | None => Ok tt
  end.

Definition squote : ascii := chr 39.
Definition backslash : ascii := chr 92.
Definition quote_text : string := String squote EmptyString.

(** [s.replace('\'', with)] *)
Fixpoint replace_quote (with_ s : string) : string :=
  match s with
  | EmptyString => EmptyString
  | String c r => if c == squote then with_ +:+ replace_quote with_ r else String c (replace_quote with_ r)
  end.

(** The four characters of the POSIX escape: quote, backslash, quote, quote. *)
Definition posix_escape : string := String squote (String backslash (String squote quote_text)).

Definition posix (s : string) : Result string Unquotable :=
  let? _ := refuse FamPosix s (fun c => negb (readable c)) in
  Ok (concats [quote_text; replace_quote posix_escape s; quote_text]).

Definition powershell (s : string) : Result string Unquotable :=
  let? _ := refuse FamPowershell s (fun c => negb (readable c)) in
  Ok (concats [quote_text; replace_quote (quote_text +:+ quote_text) s; quote_text]).

(** [\xNN] with the two digits of [{:02x}]; a control character's code has no third. *)
Definition hex_escape (n : N) : string :=
  String backslash (String (chr 120) (String (hex_digit (n / 16)) (String (hex_digit (n mod 16)) EmptyString))).

Definition python_char (c : string) : string :=
  if c == char_of 92 then String backslash (char_of 92)
  else if c == char_of 39 then String backslash (char_of 39)
  else if c == char_of 10 then String backslash (char_of 110)
  else if c == char_of 9 then String backslash (char_of 116)
  else if c == char_of 13 then String backslash (char_of 114)
  else if is_control c then hex_escape (char_code c)
  else c.

Definition python (s : string) : Result string Unquotable :=
  let? _ := refuse FamPython s (fun c => c == char_of 0) in
  Ok (concats [quote_text; concats (map python_char (chars s)); quote_text]).

Definition quote (family : Family) (s : string) : Result string Unquotable :=
  match family with
  | FamPosix => posix s
  | FamPowershell => powershell s
  | FamPython => python s
  end.

(** ** How each family reads a quoted word *)

(** What ends an unquoted word of the POSIX shell: blanks, newline and the operators. *)
Definition sh_meta (c : ascii) : bool :=
  existsb (fun n => N_of_ascii c =? n)%N [32; 9; 10; 59; 38; 124; 60; 62; 40; 41]%N.

(** What the shell may expand or treat as quoting, outside quotes: not read here. *)
Definition sh_active (c : ascii) : bool :=
  existsb (fun n => N_of_ascii c =? n)%N [36; 96; 34; 42; 63; 91; 93; 35; 126; 61; 37; 33; 123; 125]%N.

(** A word, from inside single quotes or from outside, and what follows it. *)
Fixpoint sh_word (quoted : bool) (s : string) : option (string * string) :=
  match s with
  | EmptyString => if quoted then None else Some (EmptyString, EmptyString)
  | String c r =>
      if quoted then
        if c == squote then sh_word false r
        else '(w, rest) ← sh_word true r; Some (String c w, rest)
      else if c == squote then sh_word true r
      else if c == backslash then
        match r with
        | EmptyString => None
        | String d r' => if d == nl then sh_word false r' else '(w, rest) ← sh_word false r'; Some (String d w, rest)
        end
      else if sh_meta c then Some (EmptyString, s)
      else if sh_active c then None
      else '(w, rest) ← sh_word false r; Some (String c w, rest)
  end.

(** PowerShell's single-quote characters: U+0027, and U+2018 to U+201B. *)
Definition ps_quote (s : string) : option string :=
  match s with
  | String a r =>
      if a == squote then Some r
      else match r with
           | String b (String d r') =>
               if (a == chr 226) && (b == chr 128) && in_range 152 155 d then Some r' else None
           | _ => None
           end
  | EmptyString => None
  end.

(** The inside of a verbatim string: two quote characters are one, one ends it. A turn
    takes at least one byte, so the length is fuel enough. *)
Fixpoint ps_inside (fuel : nat) (s : string) : option (string * string) :=
  match fuel with
  | O => None
  | S fuel' =>
      match ps_quote s with
      | Some r =>
          match ps_quote r with
          | Some r' => '(w, rest) ← ps_inside fuel' r'; Some (String squote w, rest)
          | None => Some (EmptyString, r)
          end
      | None =>
          match s with
          | EmptyString => None
          | String c r => '(w, rest) ← ps_inside fuel' r; Some (String c w, rest)
          end
      end
  end.

Definition ps_word (s : string) : option (string * string) :=
  r ← ps_quote s; ps_inside (S (String.length s)) r.

(** UTF-8 of a code below U+0100. *)
Definition utf8_encode (n : N) : string :=
  if (n <? 128)%N then char_of n
  else String (chr (192 + n / 64)) (char_of (128 + n mod 64)).

(** The inside of a Python string literal in single quotes, with the escapes the quoting
    writes; a raw line end is not a literal. *)
Fixpoint py_inside (s : string) : option (string * string) :=
  match s with
  | EmptyString => None
  | String c r =>
      if c == squote then Some (EmptyString, r)
      else if (c == nl) || (c == cr) then None
      else if c == backslash then
        match r with
        | String e r' =>
            if (e == backslash) || (e == squote) then '(w, rest) ← py_inside r'; Some (String e w, rest)
            else if e == chr 110 then '(w, rest) ← py_inside r'; Some (String nl w, rest)
            else if e == chr 116 then '(w, rest) ← py_inside r'; Some (String (chr 9) w, rest)
            else if e == chr 114 then '(w, rest) ← py_inside r'; Some (String cr w, rest)
            else if e == chr 120 then
              match r' with
              | String h (String l r'') =>
                  hi ← to_digit16 h; lo ← to_digit16 l;
                  '(w, rest) ← py_inside r'';
                  Some (utf8_encode (hi * 16 + lo) +:+ w, rest)
              | _ => None
              end
            else None
        | EmptyString => None
        end
      else '(w, rest) ← py_inside r; Some (String c w, rest)
  end.

Definition py_literal (s : string) : option (string * string) :=
  match s with
  | String c r => if c == squote then py_inside r else None
  | EmptyString => None
  end.

(** What a family's reader takes as the first word of a text, and what it leaves. *)
Definition reads (f : Family) (s : string) : option (string * string) :=
  match f with
  | FamPosix => sh_word false s
  | FamPowershell => ps_word s
  | FamPython => py_literal s
  end.

(** What may follow a quoted word without being part of it. *)
Definition boundary (f : Family) (rest : string) : bool :=
  match f with
  | FamPosix => match rest with String c _ => sh_meta c | EmptyString => true end
  | FamPowershell => negb (match ps_quote rest with Some _ => true | None => false end)
  | FamPython => true
  end.

(** A text with none of PowerShell's four further quote characters. *)
Fixpoint no_curly (s : string) : bool :=
  match s with
  | EmptyString => true
  | String c r =>
      (c == squote) || negb (match ps_quote s with Some _ => true | None => false end)
  end && match s with String _ r => no_curly r | EmptyString => true end.

(** ** Lemmas *)

Lemma refuse_ok f s bad u : refuse f s bad = Ok u -> forall c, c ∈ chars s -> bad c = false.
Proof.
  unfold refuse. destruct (List.find bad (chars s)) as [c|] eqn:Hf; [done|]. intros _ c Hc.
  apply (List.find_none _ _ Hf). by apply list_elem_of_In.
Qed.

Lemma sh_word_quoted s rest : sh_word true (replace_quote posix_escape s +:+ String squote rest) =
  '(w, r) ← sh_word false rest; Some (s +:+ w, r).
Proof.
  induction s as [|c s IH]; cbn [replace_quote].
  - rewrite nil_app_s. cbn [sh_word]. rewrite bool_decide_eq_true_2 by done.
    by destruct (sh_word false rest) as [[w r]|].
  - case_bool_decide as Hc.
    + subst c. unfold posix_escape, quote_text. rewrite !append_cons, nil_app_s.
      cbn [sh_word]. rewrite !bool_decide_eq_true_2 by done. rewrite (bool_decide_eq_false_2 (backslash = squote)) by done.
      rewrite (bool_decide_eq_false_2 (squote = nl)), bool_decide_eq_true_2 by done.
      fold quote_text. fold posix_escape. rewrite IH.
      by destruct (sh_word false rest) as [[w r]|].
    + rewrite append_cons. cbn [sh_word]. rewrite bool_decide_eq_false_2 by done. rewrite IH.
      by destruct (sh_word false rest) as [[w r]|].
Qed.

Lemma sh_word_boundary rest : boundary FamPosix rest = true -> sh_word false rest = Some (EmptyString, rest).
Proof.
  destruct rest as [|c r]; [done|]. cbn [boundary sh_word]. intros Hm.
  rewrite !bool_decide_eq_false_2; [by rewrite Hm| |]; intros ->; vm_compute in Hm; done.
Qed.

Lemma posix_reads s q rest :
  posix s = Ok q -> boundary FamPosix rest = true -> reads FamPosix (q +:+ rest) = Some (s, rest).
Proof.
  intros H Hb. apply rbind_ok in H as (u & _ & H). injection H as <-. rewrite !concat_empty_cons.
  change (concats []) with EmptyString. unfold quote_text. rewrite app_nil_s, !app_assoc_s, !append_cons, !nil_app_s.
  cbn [reads sh_word]. rewrite !bool_decide_eq_true_2 by done. rewrite sh_word_quoted, sh_word_boundary by done.
  simpl. by rewrite app_nil_s.
Qed.

Lemma ps_quote_length s r : ps_quote s = Some r -> String.length r < String.length s.
Proof.
  destruct s as [|a [|b [|d s]]]; cbn [ps_quote]; [done|..];
    repeat case_bool_decide; cbn [andb]; try (destruct (in_range _ _ _)); try done; intros [= <-]; cbn; lia.
Qed.

Lemma ps_quote_squote r : ps_quote (String squote r) = Some r.
Proof. cbn [ps_quote]. by rewrite bool_decide_eq_true_2. Qed.

Lemma no_curly_cons c s : no_curly (String c s) = true ->
  (c = squote \/ ps_quote (String c s) = None) /\ no_curly s = true.
Proof.
  cbn [no_curly]. intros [Hc Hs]%andb_true_iff. split; [|by destruct s].
  case_bool_decide as Hq; [by left|right]. destruct (ps_quote _); [done|done].
Qed.

(** No quote character starts inside a text without one, whatever follows. *)
Lemma ps_quote_replaced c s rest : no_curly (String c s) = true -> c <> squote ->
  ps_quote (String c (replace_quote (quote_text +:+ quote_text) s +:+ String squote rest)) = None.
Proof.
  intros H Hc. apply no_curly_cons in H as [[?|H] _]; [done|]. revert H. cbn [ps_quote].
  rewrite bool_decide_eq_false_2 by done. change (quote_text +:+ quote_text) with (String squote quote_text).
  destruct s as [|b s]; cbn [replace_quote].
  - intros _. rewrite nil_app_s. by destruct rest as [|d r]; [|rewrite andb_false_r].
  - destruct (bool_decide_reflect (b = squote)) as [Hb|Hb]; [subst b; intros _; unfold quote_text; rewrite !append_cons, nil_app_s|].
    + change (squote == chr 128) with false. by rewrite andb_false_r.
    + rewrite append_cons. destruct s as [|d s]; cbn [replace_quote].
      * intros _. rewrite nil_app_s. change (in_range 152 155 squote) with false. by rewrite andb_false_r.
      * destruct (bool_decide_reflect (d = squote)) as [Hd|Hd]; [subst d; intros _; unfold quote_text|]; rewrite !append_cons; [|by destruct (_ && _ && _)].
        change (in_range 152 155 squote) with false. by rewrite andb_false_r.
Qed.

Lemma ps_inside_quoted s rest fuel :
  no_curly s = true -> boundary FamPowershell rest = true ->
  String.length (replace_quote (quote_text +:+ quote_text) s) < fuel ->
  ps_inside fuel (replace_quote (quote_text +:+ quote_text) s +:+ String squote rest) = Some (s, rest).
Proof.
  intros Hs Hb. revert fuel. induction s as [|c s IH]; intros [|fuel] Hf; cbn [replace_quote] in *; [lia| |lia|].
  - rewrite nil_app_s. cbn [ps_inside]. rewrite ps_quote_squote. cbn [boundary] in Hb. by destruct (ps_quote rest).
  - assert (Hc := Hs). apply no_curly_cons in Hc as [_ Hs']. case_bool_decide as Hq.
    + subst c. rewrite app_assoc_s. change ((quote_text +:+ quote_text) +:+ ?x) with (String squote (String squote x)).
      rewrite length_app_s in Hf. change (String.length (quote_text +:+ quote_text)) with 2 in Hf.
      cbn [ps_inside]. rewrite !ps_quote_squote. by rewrite IH by (done || lia).
    + cbn [String.length] in Hf. rewrite append_cons. cbn [ps_inside]. rewrite ps_quote_replaced by done.
      by rewrite IH by (done || lia).
Qed.

Lemma powershell_reads s q rest :
  powershell s = Ok q -> no_curly s = true -> boundary FamPowershell rest = true ->
  reads FamPowershell (q +:+ rest) = Some (s, rest).
Proof.
  intros H Hs Hb. apply rbind_ok in H as (u & _ & H). injection H as <-. rewrite !concat_empty_cons.
  change (concats []) with EmptyString. rewrite app_nil_s, !app_assoc_s.
  change (quote_text +:+ ?x) with (String squote x). cbn [reads]. unfold ps_word. rewrite ps_quote_squote.
  cbn [mbind option_bind]. apply ps_inside_quoted; [done..|].
  cbn [String.length]. rewrite length_app_s. lia.
Qed.

(** *** Python *)

Fixpoint all_bytes (P : ascii -> bool) (s : string) : bool :=
  match s with
  | EmptyString => true
  | String c r => P c && all_bytes P r
  end.

(** The bytes after the first of a sequence, so far. *)
Definition tail_ok (second : ascii -> bool) (tail : string) : bool :=
  match tail with
  | EmptyString => true
  | String b t => second b && all_bytes continuation t
  end.

(** A character of a UTF-8 text. *)
Definition good_char (c : string) : Prop :=
  match c with
  | EmptyString => False
  | String a tail =>
      match lead a with
      | LeadAscii => tail = EmptyString
      | LeadBad => False
      | LeadMulti second more => tail_ok second tail = true /\ String.length tail = more
      end
  end.

Definition good_pending (p : Pending) : Prop :=
  exists a tail second more,
    pn_bytes p = String a tail /\ lead a = LeadMulti second more /\ tail_ok second tail = true /\
    pn_next p = (if tail == EmptyString then second else continuation) /\
    pn_more p + String.length tail = more /\ pn_more p <> 0.

Lemma all_bytes_app P a b : all_bytes P (a +:+ b) = all_bytes P a && all_bytes P b.
Proof. induction a as [|c a IH]; [done|]. rewrite append_cons. cbn [all_bytes]. by rewrite IH, andb_assoc. Qed.

Lemma tail_ok_snoc second tail c :
  tail_ok second tail = true -> (if tail == EmptyString then second else continuation) c = true ->
  tail_ok second (tail +:+ String c EmptyString) = true.
Proof.
  destruct tail as [|b t]; cbn [tail_ok].
  - rewrite bool_decide_eq_true_2 by done. rewrite nil_app_s. cbn [tail_ok all_bytes]. by intros _ ->.
  - rewrite bool_decide_eq_false_2 by done. intros [Hb Ht]%andb_true_iff Hc. rewrite append_cons. cbn [tail_ok].
    rewrite Hb, all_bytes_app, Ht. cbn [all_bytes]. by rewrite Hc.
Qed.

Lemma lead_more a second more : lead a = LeadMulti second more -> more <> 0.
Proof.
  unfold lead. repeat match goal with |- context [in_range ?x ?y ?z] => destruct (in_range x y z) end; by intros [= <- <-].
Qed.

Lemma chars_valid_from s pend :
  valid_from pend s = true -> match pend with Some p => good_pending p | None => True end ->
  concats (chars_from pend s) = pending_bytes pend +:+ s /\ Forall good_char (chars_from pend s).
Proof.
  revert pend. induction s as [|c s IH]; intros [p|]; cbn [valid_from chars_from].
  - done.
  - intros _ _. by split; [|constructor].
  - intros Hv (a & tail & second & more & Hb & Hl & Ht & Hn & Hm & H0). rewrite Hn in Hv.
    destruct ((if tail == _ then second else continuation) c) eqn:Hc; [|done].
    assert (Ht' := tail_ok_snoc _ _ _ Ht Hc). destruct (pn_more p) as [|[|k]] eqn:Hk; [done| |].
    + destruct (IH None Hv I) as [E1 E2]. rewrite concat_empty_cons, E1. split; [cbn [pending_bytes]; by str_norm|].
      constructor; [|done]. rewrite Hb, append_cons. unfold good_char. rewrite Hl. split; [done|].
      rewrite length_app_s. cbn [String.length]. lia.
    + edestruct IH as [E1 E2]; [exact Hv| |rewrite E1; split; [cbn [pending_bytes pn_bytes]; by str_norm|done]].
      exists a, (tail +:+ String c EmptyString), second, more. cbn [pn_bytes pn_next pn_more].
      rewrite Hb, append_cons, length_app_s. cbn [String.length].
      rewrite bool_decide_eq_false_2 by (by destruct tail). repeat split; [done..|lia|done].
  - destruct (lead c) as [| |second more] eqn:Hl; intros Hv _; [| done |].
    + destruct (IH None Hv I) as [E1 E2]. rewrite concat_empty_cons, E1. split; [cbn [pending_bytes]; by str_norm|].
      constructor; [|done]. unfold good_char. by rewrite Hl.
    + edestruct IH as [E1 E2]; [exact Hv| |rewrite E1; split; [cbn [pending_bytes pn_bytes]; by str_norm|done]].
      exists c, EmptyString, second, more. cbn [pn_bytes pn_next pn_more String.length tail_ok].
      repeat split; [done..|lia|]. by eapply lead_more.
Qed.

Lemma chars_spec s : utf8_valid s = true -> concats (chars s) = s /\ Forall good_char (chars s).
Proof. intros H. destruct (chars_valid_from s None H I) as [E F]. by split. Qed.

Definition high (c : ascii) : bool := (128 <=? N_of_ascii c)%N.

Lemma high_plain c n : high c = true -> (n < 128)%N -> c <> chr n.
Proof.
  intros Hc Hn ->. unfold high, chr in Hc. rewrite N_ascii_embedding in Hc by lia. apply N.leb_le in Hc. lia.
Qed.

Lemma py_pass c rest : all_bytes high c = true ->
  py_inside (c +:+ rest) = '(w, r) ← py_inside rest; Some (c +:+ w, r).
Proof.
  induction c as [|a c IH]; cbn [all_bytes].
  - intros _. rewrite nil_app_s. by destruct (py_inside rest) as [[w r]|].
  - intros [Ha Hc]%andb_true_iff. rewrite append_cons. cbn [py_inside].
    rewrite !bool_decide_eq_false_2 by (by apply high_plain). cbn [orb]. rewrite IH by done.
    by destruct (py_inside rest) as [[w r]|].
Qed.

Lemma py_ascii a rest : lead a = LeadAscii ->
  py_inside (python_char (String a EmptyString) +:+ rest) = '(w, r) ← py_inside rest; Some (String a w, r).
Proof. by destruct a as [[] [] [] [] [] [] [] []]; intros Hl; try discriminate Hl. Qed.

Lemma lead_high a second more : lead a = LeadMulti second more -> high a = true.
Proof.
  unfold lead, high. destruct (in_range 0 127 a) eqn:H; [done|]. intros _. unfold in_range in H.
  apply N.leb_le. apply andb_false_iff in H as [H|H]; apply N.leb_gt in H; lia.
Qed.

Lemma continuation_high l : all_bytes continuation l = true -> all_bytes high l = true.
Proof.
  induction l as [|c l IH]; [done|]. cbn [all_bytes]. intros [Hc Hl]%andb_true_iff. rewrite IH by done.
  unfold continuation, in_range, high in *. by apply andb_true_iff in Hc as [-> _].
Qed.

Definition bytes : list ascii := map (fun n => chr (N.of_nat n)) (seq 0 256).

Lemma elem_of_bytes c : c ∈ bytes.
Proof.
  apply list_elem_of_In, List.in_map_iff. exists (N.to_nat (N_of_ascii c)). rewrite N2Nat.id. split.
  - apply ascii_N_embedding.
  - apply List.in_seq. assert (H := N_ascii_bounded c). lia.
Qed.

(** A fact of two bytes, checked for every pair of them. *)
Lemma every_pair (P : ascii -> ascii -> bool) :
  forallb (fun a => forallb (P a) bytes) bytes = true -> forall a b, P a b = true.
Proof.
  intros H a b. assert (Ha := proj1 (forallb_elem _ _) H a (elem_of_bytes a)).
  exact (proj1 (forallb_elem _ _) Ha b (elem_of_bytes b)).
Qed.

(** What the first two bytes of a character say of the whole: its second byte is a
    continuation, a character of two bytes is a control character or is written as it is,
    and a longer one is no control character. *)
Definition pair_check (a b : ascii) : bool :=
  match lead a with
  | LeadMulti second more =>
      negb (second b) ||
      (continuation b &&
       match more with
       | 1 =>
           let c := String a (String b EmptyString) in
           if is_control c then
             (python_char c == hex_escape (char_code c))
             && (match to_digit16 (hex_digit (char_code c / 16)), to_digit16 (hex_digit (char_code c mod 16)) with
                 | Some hi, Some lo => utf8_encode (hi * 16 + lo) == c
                 | _, _ => false
                 end)
           else true
       | 2 => (160 <=? low_bits 4 a * 4096 + low_bits 6 b * 64)%N
       | _ => (160 <=? low_bits 3 a * 262144 + low_bits 6 b * 4096)%N
       end)
  | _ => true
  end.

Lemma pair_checked a b : pair_check a b = true.
Proof. apply every_pair. vm_compute. reflexivity. Qed.

Lemma python_char_plain c : 1 < String.length c -> is_control c = false -> python_char c = c.
Proof.
  intros Hl Hc. unfold python_char. rewrite !bool_decide_eq_false_2 by (intros ->; cbn in Hl; lia). by rewrite Hc.
Qed.

Lemma py_multi a tail second more rest :
  lead a = LeadMulti second more -> tail_ok second tail = true -> String.length tail = more ->
  py_inside (python_char (String a tail) +:+ rest) = '(w, r) ← py_inside rest; Some (String a tail +:+ w, r).
Proof.
  intros Hl Ht Hm. assert (Hmore := lead_more _ _ _ Hl). destruct tail as [|b t]; [cbn in Hm; lia|].
  cbn [tail_ok] in Ht. apply andb_true_iff in Ht as [Hb Ht]. assert (Hp := pair_checked a b).
  unfold pair_check in Hp. rewrite Hl, Hb in Hp. cbn [negb orb] in Hp. apply andb_true_iff in Hp as [Hcb Hp].
  assert (Hhigh : all_bytes high (String a (String b t)) = true).
  { cbn [all_bytes]. rewrite (lead_high _ _ _ Hl), (continuation_high t Ht).
    assert (H1 := continuation_high (String b EmptyString)). cbn [all_bytes] in H1. rewrite Hcb in H1.
    by rewrite (proj1 (andb_prop _ _ (H1 eq_refl))). }
  destruct (is_control (String a (String b t))) eqn:Hctl.
  2:{ rewrite python_char_plain by (cbn; first [lia|done]). by apply py_pass. }
  destruct t as [|d t]; cbn [String.length] in Hm; subst more.
  - rewrite Hctl in Hp. apply andb_true_iff in Hp as [He Hd]. apply bool_decide_eq_true in He. rewrite He.
    unfold hex_escape. rewrite !append_cons, nil_app_s.
    destruct (to_digit16 (hex_digit (_ / 16))) as [hi|] eqn:Hhi; [|done].
    destruct (to_digit16 (hex_digit (_ mod 16))) as [lo|] eqn:Hlo; [|done]. apply bool_decide_eq_true in Hd.
    cbn [py_inside]. change (backslash == squote) with false. change (backslash == nl) with false.
    change (backslash == cr) with false. change (backslash == backslash) with true. cbn [orb].
    rewrite Hhi, Hlo. cbn [mbind option_bind]. by rewrite Hd.
  - exfalso. unfold is_control in Hctl. revert Hctl Hp. destruct t as [|e t]; cbn [String.length char_code];
      rewrite N.leb_le; intros [Hx|Hx]%orb_true_iff Hp; revert Hx;
      rewrite ?andb_true_iff, ?N.ltb_lt; lia.
Qed.

Lemma py_char c rest : good_char c ->
  py_inside (python_char c +:+ rest) = '(w, r) ← py_inside rest; Some (c +:+ w, r).
Proof.
  destruct c as [|a tail]; [done|]. unfold good_char. destruct (lead a) as [| |second more] eqn:Hl; [|done|].
  - intros ->. by rewrite py_ascii.
  - intros [Ht Hm]. by eapply py_multi.
Qed.

Lemma py_chars cs rest : Forall good_char cs ->
  py_inside (concats (map python_char cs) +:+ rest) = '(w, r) ← py_inside rest; Some (concats cs +:+ w, r).
Proof.
  induction 1 as [|c cs Hc _ IH]; cbn [map].
  - change (concats []) with EmptyString. rewrite nil_app_s. by destruct (py_inside rest) as [[w r]|].
  - rewrite !concat_empty_cons, app_assoc_s, py_char, IH by done.
    destruct (py_inside rest) as [[w r]|]; [|done]. cbn [mbind option_bind]. by rewrite app_assoc_s.
Qed.

Lemma python_reads s q rest :
  python s = Ok q -> utf8_valid s = true -> reads FamPython (q +:+ rest) = Some (s, rest).
Proof.
  intros H Hs. apply rbind_ok in H as (u & _ & H). injection H as <-. rewrite !concat_empty_cons.
  change (concats []) with EmptyString. rewrite app_nil_s, !app_assoc_s.
  change (quote_text +:+ ?x) with (String squote x). cbn [reads py_literal].
  destruct (chars_spec s Hs) as [Hcat Hgood].
  change (squote == squote) with true. cbn iota. rewrite py_chars, Hcat by done.
  change (quote_text +:+ rest) with (String squote rest). cbn [py_inside].
  change (squote == squote) with true. cbn [mbind option_bind]. by rewrite app_nil_s.
Qed.

(** ** Properties *)

(** What the families ask of a value beyond what [quote] checks: Python's literal is
    written character by character, so the value is UTF-8 (as every [&str] is), and
    PowerShell's value has none of its further quote characters. *)
Definition safe_for (f : Family) (s : string) : Prop :=
  match f with
  | FamPosix => True
  | FamPowershell => no_curly s = true
  | FamPython => utf8_valid s = true
  end.

Lemma quote_reads f s q rest :
  quote f s = Ok q -> safe_for f s -> boundary f rest = true -> reads f (q +:+ rest) = Some (s, rest).
Proof.
  destruct f; cbn [quote safe_for]; intros Hq Hs Hb.
  - by apply posix_reads.
  - by apply powershell_reads.
  - by apply python_reads.
Qed.

(** A value [quote] accepts is one word of its family: its reader gives the value back and
    stops at the end of the quotes, so nothing in the value is read as anything else. *)
Theorem quoted_is_one_word f s q rest :
  quote f s = Ok q -> safe_for f s -> boundary f rest = true -> reads f (q +:+ rest) = Some (s, rest).
Proof. apply quote_reads. Qed.

Definition demo_value : string := "it's $(id); x".

Lemma quoted_is_one_word_witness :
  exists q, reads FamPosix (q +:+ " && y") = Some (demo_value, " && y").
Proof.
  eexists. apply (quoted_is_one_word FamPosix demo_value); [vm_compute; reflexivity|exact I|reflexivity].
Defined.

(** [quote] refuses exactly the values with a character its family cannot carry. *)
Theorem quote_refuses f s :
  is_ok (quote f s) = true <->
  forall c, c ∈ chars s -> match f with FamPython => c <> char_of 0 | _ => readable c = true end.
Proof.
  assert (Hr : forall fam (g : string -> Result string Unquotable) bad q,
            (forall v, g v = let? _ := refuse fam v bad in Ok (q v)) ->
            is_ok (g s) = true <-> forall c, c ∈ chars s -> bad c = false).
  { intros fam g bad q Hg. rewrite Hg. unfold refuse. destruct (List.find bad (chars s)) as [c|] eqn:Hf; cbn [rbind is_ok].
    - apply List.find_some in Hf as [Hin Hbad]. split; [done|]. intros H. rewrite H in Hbad; [done|].
      by apply list_elem_of_In.
    - split; [|done]. intros _ c Hc. apply (List.find_none _ _ Hf). by apply list_elem_of_In. }
  destruct f; cbn [quote].
  - rewrite (Hr FamPosix posix _ _ (fun v => eq_refl)). by setoid_rewrite negb_false_iff.
  - rewrite (Hr FamPowershell powershell _ _ (fun v => eq_refl)). by setoid_rewrite negb_false_iff.
  - rewrite (Hr FamPython python _ _ (fun v => eq_refl)). by setoid_rewrite bool_decide_eq_false.
Qed.

(** U+2019, a letter to [quote] and a quote to PowerShell: the value [’; Stop-Computer #]
    leaves its quotes, and what follows it is read as code. *)
Definition curly : string := String (chr 226) (String (chr 128) (String (chr 153) EmptyString)).

Lemma powershell_curly_escapes :
  exists q, quote FamPowershell (curly +:+ "; Stop-Computer #") = Ok q /\
            reads FamPowershell q = Some (EmptyString, "; Stop-Computer #'").
Proof. eexists. split; [reflexivity|vm_compute; reflexivity]. Qed.
