(* ===== verification/Render.v ===== *)
(** * The backstop artifact

    [render/src/actions.rs] and [render/src/lib.rs]: a covered step's undo as the actions
    the artifact takes, every value resolved from the bindings and quoted for the host's
    shell, and the artifact over them. The text of the three templates and Rust's [{:?}]
    of a string are parameters. *)

From Stdlib Require Import Ascii.
From stdpp Require Import base strings pretty numbers option sets gmap list.
From S2P Require Import Prelude Model Algebra Backstop Region Ordered Quote.

Record Bindings := mkBindings { bd_params : gmap string string; bd_host_fields : gmap string string }.

Record FileFact := mkFileFact { ff_kind : Kind; ff_path : string; ff_anchor : option string; ff_k : nat }.

Inductive Action :=
| ActRemove (path : string)
| ActStripRegion (path anchor : string) (k : nat)
| ActRestoreSnapshot (path : string) (k : nat)
| ActRun (command : string)
| ActWrite (path content : string)
| ActAppend (path line : string)
| ActRegionSet (path anchor content : string)
| ActRegionClear (path anchor : string).

(** [actions::Step] *)
Record ArtifactStep := mkArtifactStep {
  at_n : N;
  at_id : string;
  at_drift : Drift;
  at_files : list FileFact;
  at_actions : list Action;
}.

Inductive RenderError :=
| NoBackstop
| NotTarget
| UnknownHost (h : string)
| Unsupported (os : string) (language : ArtifactLanguage)
| UnquotableAt (step : N) (inner : Unquotable)
| NotBakeable (step : N) (what : string)
| UnboundAt (step : N) (name : string)
| Unobservable (step : N) (shape : string).

(** ** Actions *)

Definition static_file (shape : string) : option string :=
  match file_path shape with
  | Some path => if contains_char lbrace path then None else Some path
  | None => None
  end.

Definition artifact_kind (k : Kind) : bool := match k with Owned | Region | Modified => true | _ => false end.

(** [actions::file_fact] *)
Definition artifact_file_fact (k : nat) (e : FootprintEntry) : option FileFact :=
  if negb (artifact_kind (fp_kind e)) then None
  else match static_file (fp_shape e) with
       | Some path => Some (mkFileFact (fp_kind e) path (fp_anchor e) k)
       | None => None
       end.

Definition ok_or_unbound {A} (step : N) (name : string) (v : option A) : Result A RenderError :=
  match v with
  | Some x => Ok x
  | None => Err (UnboundAt step name)
  end.

(** [actions::resolve] *)
Definition bake_ref (step : N) (r : Ref) (host : HostRecord) (b : Bindings) : Result string RenderError :=
  match r with
  | RParam n => ok_or_unbound step n (bd_params b !! n)
  | RHost f =>
      if f == "name" then Ok (hr_name host)
      else if f == "os" then Ok (hr_os host)
      else ok_or_unbound step ("host." +:+ f) (bd_host_fields b !! f)
  | RFact _ | ROutput _ _ _ | RController _ | RSecret _ =>
      Err (NotBakeable step ("reference " +:+ ref_label r))
  end.

Definition text_of (step : N) (v : Value) (host : HostRecord) (b : Bindings) : Result string RenderError :=
  match v with
  | VLit s => Ok s
  | VRef r => bake_ref step r host b
  | VTemplate parts =>
      let? texts := collect_results
        (fun p => match p with PLit s => Ok s | PRef r => bake_ref step r host b end) parts in
      Ok (concats texts)
  end.

Definition shell_family (s : Shell) : Family :=
  match s with
  | ShellPosix => FamPosix
  | ShellPowershell => FamPowershell
  end.

Definition quoted (step : N) (f : Family) (s : string) : Result string RenderError :=
  match quote f s with
  | Ok q => Ok q
  | Err e => Err (UnquotableAt step e)
  end.

(** The loop of [run_text] over the parts of a command. *)
Fixpoint run_text (step : N) (cmd : list Part) (shell : Shell) (host : HostRecord) (b : Bindings)
    : Result string RenderError :=
  match cmd with
  | [] => Ok EmptyString
  | PLit s :: r => let? rest := run_text step r shell host b in Ok (s +:+ rest)
  | PRef x :: r =>
      let? v := bake_ref step x host b in
      let? q := quoted step (shell_family shell) v in
      let? rest := run_text step r shell host b in
      Ok (q +:+ rest)
  end.

Definition static_path (step : N) (f : FactRef) : Result string RenderError :=
  match static_file (fr_shape f) with
  | Some p => Ok p
  | None => Err (Unobservable step (fr_shape f))
  end.

Definition anchor_of (step : N) (f : FactRef) : Result string RenderError :=
  match fr_anchor f with
  | Some a => Ok a
  | None => Err (NotBakeable step (concats ["region primitive on "; fr_shape f; " without an anchor"]))
  end.

(** A primitive of a computed or compensating undo. *)
Definition prim_action (n : N) (p : Prim) (shell : Shell) (host : HostRecord) (b : Bindings)
    : Result Action RenderError :=
  match p with
  | PRun r =>
      if negb (match run_env r with [] => true | _ => false end)
         || match run_stdin r with Some _ => true | None => false end
      then Err (NotBakeable n "run with env: or stdin: (the preamble is engine work)")
      else let? c := run_text n (run_cmd r) shell host b in Ok (ActRun c)
  | PCall c =>
      if existsb (fun a => ca_class a == ControllerArg) (call_args c)
      then Err (NotBakeable n (concats ["call "; call_prim c; " with a controller-class argument"]))
      else let? t := run_text n (call_run c) shell host b in Ok (ActRun t)
  | PWrite w =>
      let? path := static_path n (write_fact w) in
      let? content := text_of n (write_content w) host b in
      Ok (ActWrite path content)
  | PRemove r => let? path := static_path n (remove_fact r) in Ok (ActRemove path)
  | PAppend a =>
      let? path := static_path n (append_fact a) in
      let? line := text_of n (append_line a) host b in
      Ok (ActAppend path line)
  | PRegionSet r =>
      let? path := static_path n (rs_fact r) in
      let? anchor := anchor_of n (rs_fact r) in
      let? content := text_of n (rs_content r) host b in
      Ok (ActRegionSet path anchor content)
  | PRegionClear r =>
      let? path := static_path n (rc_fact r) in
      let? anchor := anchor_of n (rc_fact r) in
      Ok (ActRegionClear path anchor)
  | PStage _ | PHook _ | PInstall _ | PRelease _ =>
      Err (NotBakeable n (prim_name p +:+ " is a controller primitive"))
  end.

(** What a [:restore] does with one file fact. *)
Definition restore_action (n : N) (f : FileFact) : Result Action RenderError :=
  match ff_kind f with
  | Owned => Ok (ActRemove (ff_path f))
  | Region =>
      match ff_anchor f with
      | Some a => Ok (ActStripRegion (ff_path f) a (ff_k f))
      | None => Err (NotBakeable n (concats ["region "; ff_path f; " without an anchor"]))
      end
  | _ => Ok (ActRestoreSnapshot (ff_path f) (ff_k f))
  end.

Definition artifact_files (fp : list FootprintEntry) : list FileFact :=
  filter_map (fun p => artifact_file_fact (fst p) (snd p)) (imap (fun k e => (k, e)) fp).

Definition unobservable_entry (files : list FileFact) (e : FootprintEntry) : bool :=
  artifact_kind (fp_kind e) && negb (existsb (fun f => Some (ff_path f) == file_path (fp_shape e)) files).

Definition restore_actions (n : N) (fp : list FootprintEntry) (files : list FileFact)
    : Result (list Action) RenderError :=
  match List.find (unobservable_entry files) fp with
  | Some e => Err (Unobservable n (fp_shape e))
  | None =>
      let? v := collect_results (restore_action n) files in
      match List.find (fun e => fp_kind e == Held) fp with
      | Some e => Err (NotBakeable n (concats ["held "; fp_shape e; " (release is controller work)"]))
      | None => Ok v
      end
  end.

Definition step_actions (n : N) (o : Op) (shell : Shell) (host : HostRecord) (b : Bindings)
    : Result ArtifactStep RenderError :=
  let drift := match effective_drift o with Some d => d | None => Clobber end in
  let files := artifact_files (op_footprint o) in
  let? actions :=
    match op_undo o with
    | NoUndo => Ok []
    | Restore => restore_actions n (op_footprint o) files
    | Computed body _ | Compensate body _ => collect_results (fun p => prim_action n p shell host b) body
    end in
  Ok (mkArtifactStep n (op_id o) drift files actions).

(** ** The artifact *)

(** [render::Instance] *)
Record ArtifactInstance := mkArtifactInstance { ai_id : string; ai_rescind_root : option string }.

Definition default_root (s : Shell) : string :=
  match s with
  | ShellPosix => "/var/db/rescind"
  | ShellPowershell => "C:\ProgramData\rescind"
  end.

Definition root (i : ArtifactInstance) (s : Shell) : string :=
  match ai_rescind_root i with
  | Some r => r
  | None => default_root s
  end.

Record Artifact := mkArtifact { ar_language : ArtifactLanguage; ar_file_name : string; ar_text : string }.

(** [render::Context] *)
Record ArtifactContext := mkArtifactContext {
  cx_plan : Plan;
  cx_host : HostRecord;
  cx_shell : Shell;
  cx_language : ArtifactLanguage;
  cx_instance : ArtifactInstance;
  cx_root : string;
  cx_deadline : bool;
  cx_heartbeat_s : option N;
  cx_steps : list ArtifactStep;
}.

Definition artifact_name (l : ArtifactLanguage) : string :=
  match l with
  | Sh => "artifact.sh"
  | Powershell => "artifact.ps1"
  | Python => "artifact.py"
  end.

Definition has_deadline (t : Trigger) : bool :=
  match t with After _ | UnlessConfirmed _ => true | UnlessHeartbeat _ _ => false end.

Definition heartbeat_of (t : Trigger) : option N :=
  match t with UnlessHeartbeat deadline _ => Some deadline | _ => None end.

(** The covered step [n] of the plan; [find] never misses one ([covered_is_op]). *)
Definition covered_op (items : list Item) (n : N) : option Op :=
  it ← snd <$> List.find (fun x => (fst x =? n)%N) (numbered items); op_of it.

Section Render.
(** [template::{sh,powershell,python}::render] *)
Context (template : ArtifactLanguage -> ArtifactContext -> Result string RenderError).

Definition render (site : Site) (plan : Plan) (host : string) (instance : ArtifactInstance) (bindings : Bindings)
    : Result Artifact RenderError :=
  match plan_backstop plan, coverage plan with
  | Some b, Some cov =>
      match covered cov with
      | [] => Err NotTarget
      | _ =>
          match List.find (fun r => hr_name r == host) (site_hosts site) with
          | None => Err (UnknownHost host)
          | Some h =>
              let shell := shell_of (hr_os h) in
              let language := language_of h in
              if negb (supported (hr_os h) language) then Err (Unsupported (hr_os h) language)
              else
                let? steps := collect_results
                  (fun n => match covered_op (plan_body plan) n with
                            | Some o => step_actions n o shell h bindings
                            | None => Err (NotBakeable n EmptyString)
                            end) (rev (covered cov)) in
                let? text := template language
                  {| cx_plan := plan; cx_host := h; cx_shell := shell; cx_language := language;
                     cx_instance := instance; cx_root := root instance shell;
                     cx_deadline := existsb has_deadline (bs_triggers b);
                     cx_heartbeat_s := find_map heartbeat_of (bs_triggers b);
                     cx_steps := steps |} in
                Ok (mkArtifact language (artifact_name language) text)
          end
      end
  | _, _ => Err NoBackstop
  end.
End Render.

Section Display.
Context (debug_str : string -> string).

(** [{:04X}] *)
Definition upper_hex_digit (n : N) : ascii := if (n <? 10)%N then chr (48 + n) else chr (55 + n).

Fixpoint upper_hex (fuel : nat) (n : N) : string :=
  match fuel with
  | O => EmptyString
  | S fuel' => (if (n <? 16)%N then EmptyString else upper_hex fuel' (n / 16)) +:+ String (upper_hex_digit (n mod 16)) EmptyString
  end.

Definition pad4 (s : string) : string := concats (repeat "0" (4 - String.length s)) +:+ s.

Definition display_unquotable (u : Unquotable) : string :=
  concats ["value "; debug_str (uq_value u); " cannot be safely quoted for "; family_name (uq_family u);
           ": contains U+"; pad4 (upper_hex 8 (char_code (uq_found u)))].

Definition display_render_error (e : RenderError) : string :=
  match e with
  | NoBackstop => "the plan has no backstop"
  | NotTarget => "the backstop covers no step: no :target undo"
  | UnknownHost h => concats ["host "; h; " is not in the site"]
  | Unsupported os language => concats ["E0403: no "; language_name language; " template for os "; os]
  | UnquotableAt step inner => concats ["E0109 at step "; show step; ": "; display_unquotable inner]
  | NotBakeable step what => concats ["step "; show step; ": not bakeable into an artifact: "; what]
  | UnboundAt step name => concats ["step "; show step; ": "; name; " is not bound"]
  | Unobservable step shape =>
      concats ["step "; show step; ": "; shape; " is not a static file: shape an artifact can observe"]
  end.
End Display.

(** ** Lemmas *)

Lemma numbered_find items n it :
  (n, it) ∈ numbered items -> List.find (fun x => (fst x =? n)%N) (numbered items) = Some (n, it).
Proof.
  intros Hin. destruct (List.find _ (numbered items)) as [[m it']|] eqn:Hf.
  - apply List.find_some in Hf as [Hin' Hm]. simpl in Hm. apply N.eqb_eq in Hm as ->.
    apply list_elem_of_In in Hin'. apply numbered_elem in Hin as [_ H1], Hin' as [_ H2]. congruence.
  - assert (Hx := List.find_none _ _ Hf (n, it) (proj1 (list_elem_of_In _ _) Hin)). simpl in Hx.
    by rewrite N.eqb_refl in Hx.
Qed.

Lemma covered_is_op items n :
  n ∈ target_undo_steps items -> exists o, covered_op items n = Some o /\ op_undo_locus o = ULTarget.
Proof.
  rewrite target_undo_steps_elem. intros (it & o & Hin & Ho & Hl). exists o. split; [|done].
  unfold covered_op. by rewrite (numbered_find _ _ _ Hin).
Qed.

Lemma static_file_spec shape path :
  static_file shape = Some path <-> shape = "file:" +:+ path /\ contains_char lbrace path = false.
Proof.
  unfold static_file, file_path. split.
  - destruct (strip_prefix "file:" shape) as [p|] eqn:Hp; [|done]. apply strip_prefix_Some in Hp as ->.
    destruct (contains_char lbrace p) eqn:Hb; [done|]. by intros [= ->].
  - intros [-> Hb]. change (strip_prefix "file:" ("file:" +:+ path)) with (Some path). cbv beta iota. by rewrite Hb.
Qed.

(** The paths an action names. *)
Definition action_path (a : Action) : option string :=
  match a with
  | ActRemove p | ActStripRegion p _ _ | ActRestoreSnapshot p _ | ActWrite p _ | ActAppend p _
  | ActRegionSet p _ _ | ActRegionClear p _ => Some p
  | ActRun _ => None
  end.

(** The facts an undo acts on: its footprint under [:restore], else its body's. *)
Definition undo_shapes (o : Op) : list string :=
  match op_undo o with
  | Restore => map fp_shape (op_footprint o)
  | Computed body _ | Compensate body _ =>
      flat_map (fun p => match p with
                         | PWrite w => [fr_shape (write_fact w)]
                         | PRemove r => [fr_shape (remove_fact r)]
                         | PAppend a => [fr_shape (append_fact a)]
                         | PRegionSet r => [fr_shape (rs_fact r)]
                         | PRegionClear r => [fr_shape (rc_fact r)]
                         | _ => []
                         end) body
  | NoUndo => []
  end.

Lemma artifact_files_elem fp f :
  f ∈ artifact_files fp <->
  exists e, fp !! ff_k f = Some e /\ artifact_kind (fp_kind e) = true /\ fp_kind e = ff_kind f /\
            fp_anchor e = ff_anchor f /\ static_file (fp_shape e) = Some (ff_path f).
Proof.
  unfold artifact_files. rewrite elem_of_filter_map. split.
  - intros ([k e] & Hin & H). apply elem_of_lookup_imap in Hin as (i & e' & Heq & Hl). injection Heq as -> ->.
    unfold artifact_file_fact in H. cbn [fst snd] in H.
    destruct (artifact_kind (fp_kind e')) eqn:Hk; [|done]. cbn [negb] in H.
    destruct (static_file (fp_shape e')) eqn:Hs; [|done]. injection H as <-. eauto 6.
  - intros (e & Hl & Hk & H1 & H2 & Hs). exists (ff_k f, e). split.
    + apply elem_of_lookup_imap. eauto.
    + unfold artifact_file_fact. cbn [fst snd]. rewrite Hk, Hs. cbn [negb]. rewrite H1, H2. by destruct f.
Qed.

Lemma static_path_ok n f p : static_path n f = Ok p -> static_file (fr_shape f) = Some p.
Proof. unfold static_path. by destruct (static_file _) as [q|]; [intros [= ->]|]. Qed.

Lemma prim_action_path n p shell host b a path :
  prim_action n p shell host b = Ok a -> action_path a = Some path ->
  exists shape, static_file shape = Some path /\
    match p with
    | PWrite w => shape = fr_shape (write_fact w)
    | PRemove r => shape = fr_shape (remove_fact r)
    | PAppend a => shape = fr_shape (append_fact a)
    | PRegionSet r => shape = fr_shape (rs_fact r)
    | PRegionClear r => shape = fr_shape (rc_fact r)
    | _ => False
    end.
Proof.
  destruct p; cbn [prim_action]; intros H Hp;
    try (destruct (_ || _); [done|]); try (destruct (existsb _ _); [done|]); try done;
    repeat match type of H with
           | rbind _ _ = Ok _ => let x := fresh "x" in let Hx := fresh "Hx" in apply rbind_ok in H as (x & Hx & H)
           end; injection H as <-; cbn [action_path] in Hp; try done; injection Hp as <-;
    match goal with Hx : static_path _ _ = Ok _ |- _ => apply static_path_ok in Hx; eauto end.
Qed.

Lemma restore_action_path n f a path :
  restore_action n f = Ok a -> action_path a = Some path -> path = ff_path f.
Proof.
  unfold restore_action. destruct (ff_kind f), (ff_anchor f); intros [= <-] [= <-]; done.
Qed.

Lemma body_actions_paths n body shell host b acts a path :
  collect_results (fun p => prim_action n p shell host b) body = Ok acts -> a ∈ acts -> action_path a = Some path ->
  contains_char lbrace path = false /\
  "file:" +:+ path ∈ flat_map (fun p => match p with
                         | PWrite w => [fr_shape (write_fact w)]
                         | PRemove r => [fr_shape (remove_fact r)]
                         | PAppend a => [fr_shape (append_fact a)]
                         | PRegionSet r => [fr_shape (rs_fact r)]
                         | PRegionClear r => [fr_shape (rc_fact r)]
                         | _ => []
                         end) body.
Proof.
  intros Hv Hin Hp. apply collect_results_ok in Hv. apply list_elem_of_lookup in Hin as [i Hi].
  destruct (Forall2_lookup_r _ _ _ _ _ Hv Hi) as (p & Hl & Hr).
  destruct (prim_action_path _ _ _ _ _ _ _ Hr Hp) as (shape & Hs & Hm).
  apply static_file_spec in Hs as [-> Hb]. split; [done|]. apply elem_of_flat_map. exists p.
  split; [by apply list_elem_of_lookup_2 in Hl|]. destruct p; try done; rewrite <- Hm; set_solver.
Qed.

(** ** Properties *)

(** The text an artifact runs is the command's own literals and, for each value that goes
    into it, a quoting of that value: read at its place it is one word, the value. *)
Theorem run_text_quotes_every_value n cmd shell host b t :
  run_text n cmd shell host b = Ok t ->
  exists pieces, t = concats pieces /\
    Forall2 (fun part piece =>
      match part with
      | PLit s => piece = s
      | PRef r => exists v, bake_ref n r host b = Ok v /\
          forall rest, safe_for (shell_family shell) v -> boundary (shell_family shell) rest = true ->
                       reads (shell_family shell) (piece +:+ rest) = Some (v, rest)
      end) cmd pieces.
Proof.
  revert t. induction cmd as [|[s|r] cmd IH]; intros t; cbn [run_text].
  - intros [= <-]. by exists [].
  - intros (u & Hu & [= <-])%rbind_ok. destruct (IH u Hu) as (ps & -> & Hf). exists (s :: ps).
    by rewrite concat_empty_cons; split; [|constructor].
  - intros (v & Hv & H)%rbind_ok. apply rbind_ok in H as (q & Hq & H). apply rbind_ok in H as (u & Hu & [= <-]).
    destruct (IH u Hu) as (ps & -> & Hf). exists (q :: ps). rewrite concat_empty_cons. split; [done|].
    constructor; [|done]. exists v. split; [done|]. intros rest Hs Hb. unfold quoted in Hq.
    destruct (quote (shell_family shell) v) as [q'|] eqn:Hqu; [|done]. injection Hq as ->.
    by apply (quote_reads _ v).
Qed.

Definition demo_render_host : HostRecord := mkHostRecord "web1" "freebsd" ["ssh"] true true None.
Definition demo_bindings : Bindings := mkBindings {[ "user" := "o'hara; rm -rf /" ]} ∅.

Lemma run_text_quotes_every_value_witness :
  exists t pieces, run_text 1 [PLit "pw userdel "; PRef (RParam "user")] ShellPosix demo_render_host demo_bindings = Ok t /\
    t = concats pieces /\ length pieces = 2.
Proof.
  destruct (run_text_quotes_every_value 1 [PLit "pw userdel "; PRef (RParam "user")] ShellPosix demo_render_host
              demo_bindings _ eq_refl) as (ps & Ht & Hf).
  exists (concats ps), ps. split; [rewrite <- Ht; reflexivity|]. split; [reflexivity|].
  by apply Forall2_length in Hf.
Defined.

(** An artifact touches no file but those the undo names, and only by a path with no
    runtime value in it. *)
Theorem artifact_touches_only_its_facts n o shell host b s a path :
  step_actions n o shell host b = Ok s -> a ∈ at_actions s -> action_path a = Some path ->
  contains_char lbrace path = false /\ "file:" +:+ path ∈ undo_shapes o.
Proof.
  unfold step_actions. intros (acts & Ha & [= <-])%rbind_ok Hin Hp. cbn [at_actions] in Hin.
  unfold undo_shapes. destruct (op_undo o) as [|body pre|body pre|].
  - unfold restore_actions in Ha. destruct (List.find _ _); [done|].
    apply rbind_ok in Ha as (v & Hv & Ha). destruct (List.find _ _); [done|]. injection Ha as <-.
    apply collect_results_ok in Hv. apply list_elem_of_lookup in Hin as [i Hi].
    destruct (Forall2_lookup_r _ _ _ _ _ Hv Hi) as (f & Hf & Hr).
    rewrite (restore_action_path _ _ _ _ Hr Hp). apply list_elem_of_lookup_2, artifact_files_elem in Hf.
    destruct Hf as (e & He & _ & _ & _ & Hs). apply static_file_spec in Hs as [Hs Hb]. split; [done|].
    rewrite <- Hs, elem_of_map. exists e. split; [done|]. by apply list_elem_of_lookup_2 in He.
  - by eapply body_actions_paths.
  - by eapply body_actions_paths.
  - injection Ha as <-. by apply elem_of_nil in Hin.
Qed.

Definition demo_restore_op : Op := op_new "conf" [entry Owned "file:/etc/x"].

Lemma artifact_touches_only_its_facts_witness :
  contains_char lbrace "/etc/x" = false /\ "file:" +:+ "/etc/x" ∈ undo_shapes demo_restore_op.
Proof.
  eapply (artifact_touches_only_its_facts 1 demo_restore_op ShellPosix demo_render_host demo_bindings _ (ActRemove "/etc/x"));
    [reflexivity|by left|reflexivity].
Defined.

(** [render] gives an artifact exactly when the plan has a backstop that covers a step, the
    host is in the site with a template for its os, and every covered undo can be carried
    out by an artifact; the artifact then undoes the covered steps, last first, under the
    triggers the plan declares. *)
Theorem render_spec template site plan host inst b a :
  render template site plan host inst b = Ok a <->
  exists bs h steps text,
    plan_backstop plan = Some bs /\ target_undo_steps (plan_body plan) <> [] /\
    List.find (fun r => hr_name r == host) (site_hosts site) = Some h /\
    supported (hr_os h) (language_of h) = true /\
    Forall2 (fun n s => exists o, covered_op (plan_body plan) n = Some o /\ op_undo_locus o = ULTarget /\
                                  step_actions n o (shell_of (hr_os h)) h b = Ok s)
      (rev (target_undo_steps (plan_body plan))) steps /\
    template (language_of h)
      (mkArtifactContext plan h (shell_of (hr_os h)) (language_of h) inst (root inst (shell_of (hr_os h)))
         (existsb has_deadline (bs_triggers bs)) (find_map heartbeat_of (bs_triggers bs)) steps) = Ok text /\
    a = mkArtifact (language_of h) (artifact_name (language_of h)) text.
Proof.
  unfold render, coverage. destruct (plan_backstop plan) as [bs|]; [|split; [done|by intros (? & ? & ? & ? & ? & _)]].
  cbn [covered]. destruct (target_undo_steps (plan_body plan)) as [|n0 cov] eqn:Hcov.
  { split; [done|]. by intros (? & ? & ? & ? & _ & ? & _). }
  rewrite <- Hcov. assert (Hne : target_undo_steps (plan_body plan) <> []) by (by rewrite Hcov).
  destruct (List.find _ (site_hosts site)) as [h|]; [|split; [done|by intros (? & ? & ? & ? & _ & _ & ? & _)]].
  assert (Hop : forall n, n ∈ rev (target_undo_steps (plan_body plan)) ->
            exists o, covered_op (plan_body plan) n = Some o /\ op_undo_locus o = ULTarget).
  { intros n Hn%list_elem_of_In%in_rev%list_elem_of_In. by apply covered_is_op. }
  destruct (supported (hr_os h) (language_of h)) eqn:Hs; cbn [negb];
    [|split; [done|intros (? & h' & ? & ? & _ & _ & [= <-] & Hx & _); congruence]].
  rewrite rbind_ok. split.
  - intros (steps & Hf%collect_results_ok & H). apply rbind_ok in H as (text & Ht & [= <-]).
    exists bs, h, steps, text. repeat split; try done.
    apply Forall2_same_length_lookup in Hf as [Hlen Hf]. apply Forall2_same_length_lookup. split; [done|].
    intros i n s Hn Hsi. specialize (Hf i n s Hn Hsi). cbn beta in Hf. apply list_elem_of_lookup_2 in Hn.
    destruct (Hop n Hn) as (o & Ho & Hl). rewrite Ho in Hf. eauto.
  - intros (bs' & h' & steps & text & [= <-] & _ & [= <-] & _ & Hf & Ht & ->). exists steps. split.
    + apply collect_results_ok. eapply Forall2_impl; [exact Hf|]. by intros n s (o & -> & _ & H).
    + apply rbind_ok. by exists text.
Qed.
