(* ===== verification/Executor.v ===== *)
(** * What the engine acts through

    [engine/src/executor.rs], [scheduler.rs], [notify.rs], [clock.rs] and the traits of
    [gates.rs] and [secrets.rs], with the records of [hook-proto/src/record.rs]: each trait
    is a class. A method takes the state of the world outside the engine and gives it
    back, so two handles may act on the same host and anything may change between two
    calls. *)

From Stdlib Require Import Ascii.
From stdpp Require Import base strings pretty numbers option sets gmap list.
From S2P Require Import Prelude Model Journal Resolve.

(** ** Executors *)

Inductive LocusKind := LkLocal | LkSsh | LkHook (t : string).

Definition transport (l : LocusKind) : string :=
  match l with
  | LkLocal => "local"
  | LkSsh => "ssh"
  | LkHook t => t
  end.

Record ExecCaps := mkExecCaps { caps_filesystem : bool; caps_stdin_preamble : bool }.

(** [hook_proto::Output] *)
Record RunOutput := mkRunOutput { ro_stdout : string; ro_outputs : gmap string string }.

Definition output_default : RunOutput := mkRunOutput EmptyString ∅.

Record ProbeRun := mkProbeRun { pr_name : string; pr_body : list RPrim }.

Record Observation := mkObservation { ob_text : string; ob_tri : option Tri }.

Definition observation_yes (text : string) : Observation := mkObservation text (Some Yes).
Definition observation_no (text : string) : Observation := mkObservation text (Some No).
Definition observation_unknown (text : string) : Observation := mkObservation text (Some Unknown).

Definition as_tri (o : Observation) : Tri :=
  match ob_tri o with
  | Some t => t
  | None => Unknown
  end.

Record BootstrapState := mkBootstrapState {
  bt_rescind_root : bool;
  bt_group : bool;
  bt_instances_dir : bool;
  bt_lock : bool;
  bt_modes_ok : bool;
}.

Definition ready (b : BootstrapState) : bool :=
  bt_rescind_root b && bt_group b && bt_instances_dir b && bt_lock b && bt_modes_ok b.

Record InstanceDirState := mkInstanceDirState {
  ds_instance : string;
  ds_armed : bool;
  ds_fired : bool;
  ds_modes_ok : bool;
}.

Inductive ExecError :=
| ExFailed (s : string)
| ExSilent
| ExUnreachable (s : string)
| ExUnsupported (s : string)
| ExIo (s : string).

Definition display_exec_error (e : ExecError) : string :=
  match e with
  | ExFailed s => "failed: " +:+ s
  | ExSilent => "silent: no output where output was promised"
  | ExUnreachable s => "unreachable: " +:+ s
  | ExUnsupported s => "unsupported: " +:+ s
  | ExIo s => "i/o: " +:+ s
  end.

Notation Exec A := (Result A ExecError) (only parsing).

(** [trait Executor]. [W] is the world, [X] what [Box<dyn Executor>] points to.
    [ex_unlock] is the drop of a [HostLockGuard]. *)
Class Executor (W X : Type) := {
  ex_locus : X -> W -> LocusKind;
  ex_capabilities : X -> W -> ExecCaps;
  ex_run : X -> EHost -> string -> list RPrim -> W -> W * Exec RunOutput;
  ex_observe : X -> EHost -> ProbeRun -> W -> W * Exec Observation;
  ex_read_fact : X -> EHost -> string -> W -> W * Exec (option string);
  ex_bootstrap_state : X -> EHost -> W -> W * Exec BootstrapState;
  ex_clock_now : X -> EHost -> W -> W * Exec (option Instant);
  ex_instance_dir_create : X -> EHost -> string -> W -> W * Exec unit;
  ex_instance_dir_remove : X -> EHost -> string -> W -> W * Exec unit;
  ex_instance_dir_list : X -> EHost -> W -> W * Exec (list InstanceDirState);
  ex_put_file : X -> EHost -> string -> string -> string -> N -> W -> W * Exec unit;
  ex_replace_file : X -> EHost -> string -> string -> string -> W -> W * Exec unit;
  ex_get_file : X -> EHost -> string -> string -> W -> W * Exec string;
  ex_remove_file : X -> EHost -> string -> string -> W -> W * Exec unit;
  ex_host_lock : X -> EHost -> W -> W * Exec unit;
  ex_unlock : X -> EHost -> W -> W;
}.

(** ** Schedulers *)

Record Job := mkJob {
  jb_instance : string;
  jb_artifact : string;
  jb_language : ArtifactLanguage;
  jb_os : string;
}.

Definition job_command (j : Job) : string :=
  match jb_language j with
  | Sh => "/bin/sh " +:+ jb_artifact j
  | Python => "uv run --offline --script " +:+ jb_artifact j
  | Powershell => "powershell -NoProfile -File " +:+ jb_artifact j
  end.

Inductive Presence := Present | Absent | PresenceUnknown.

Definition presence_name (p : Presence) : string :=
  match p with
  | Present => "present"
  | Absent => "absent"
  | PresenceUnknown => "unknown"
  end.

Class Scheduler (W X D : Type) := {
  sc_scheduler_name : D -> W -> string;
  sc_install : D -> X -> EHost -> Job -> W -> W * Exec unit;
  sc_arm : D -> X -> EHost -> Job -> Instant -> W -> W * Exec unit;
  sc_rearm : D -> X -> EHost -> Job -> Instant -> W -> W * Exec unit;
  sc_disarm : D -> X -> EHost -> Job -> W -> W * Exec unit;
  sc_present : D -> X -> EHost -> Job -> W -> W * Exec Presence;
}.

(** ** Approval, secrets and notification *)

Record ProofRequest := mkProofRequest {
  pq_instance : string;
  pq_digest : Hash;
  pq_scope : Scope;
  pq_context : string;
  pq_authenticator : string;
  pq_proof : string;
}.

Record Verified := mkVerified { vf_verified : bool; vf_reason : string }.

Class Approval (W A : Type) := {
  ap_authenticators : A -> W -> W * Exec (list Authenticator);
  ap_challenge : A -> ProofRequest -> W -> W * Exec string;
  ap_verify : A -> ProofRequest -> W -> W * Exec Verified;
  ap_approves_everything : A -> W -> bool;
}.

(** [secrets from:] *)
Class Source (W S : Type) := {
  so_resolve : S -> string -> W -> W * Exec string;
}.

(** [secrets deliver_to:] *)
Class Acceptor (W C : Type) := {
  ac_name : C -> W -> string;
  ac_deliver : C -> string -> string -> string -> Instant -> option Instant -> W -> W * Exec bool;
  ac_take : C -> string -> W -> W * option (string * string);
  ac_drop_for : C -> string -> W -> W * list string;
  ac_expire : C -> Instant -> W -> W * list (string * string);
  ac_drop_all : C -> W -> W * list (string * string);
}.

Inductive Level := LevelWaiting | LevelBlocked.

Definition level_word (l : Level) : string :=
  match l with
  | LevelWaiting => "waiting"
  | LevelBlocked => "blocked"
  end.

Class Notify (W O : Type) := {
  nt_deliver : O -> Level -> string -> string -> W -> W * Exec unit;
}.
