(* ===== verification/Instance.v ===== *)
(** * The instance record

    The persisted half of [engine/src/lifecycle.rs]: one instance as the store keeps it,
    its errors, what it reports, and how it begins. What serde makes of a value is a
    parameter. *)

From Stdlib Require Import Ascii.
From stdpp Require Import base strings pretty numbers option sets gmap list.
From S2P Require Import Prelude Model Algebra Intent States Ledger Verdict Prose Journal EngineJournal.
From S2P Require Import Footprint Ordered Monad Executor.

(** ** serde

    JSON texts and their hashes ([serde_json], [core::request::hash_json]). *)
Class Serde := {
  vars_to_string : gmap string string -> string;
  vars_from_str : string -> option (gmap string string);
  (** [hash_json(&to_value(params))], or none where it has no canonical form *)
  hash_params : gmap string string -> option Hash;
  hash_gate : option PlanGate -> option Hash;
  hash_plan : Plan -> option Hash;
  (** [hash_json] of the host records and the static probes' texts *)
  hash_contract : list (string * HostRecord) -> list (string * string) -> option Hash;
}.

Class SerdeLaws `{Serde} := {
  vars_round_trip v : vars_from_str (vars_to_string v) = Some v;
  (** an object's text opens with a brace *)
  vars_opens v : exists t, vars_to_string v = String lbrace t;
}.

(** ** Steps and their keys *)

Definition parse_state (s : string) : option State := List.find (fun st => state_name st == s) ALL_STATES.

Record AppliedStep := mkApplied {
  as_step : N;
  as_iteration : N;
  as_vars : gmap string string;
}.

#[export] Instance AppliedStep_eq_dec : EqDecision AppliedStep.
Proof. solve_decision. Defined.

Definition is_digit (c : ascii) : bool := (48 <=? N_of_ascii c)%N && (N_of_ascii c <=? 57)%N.

(** [key.find(|c| !c.is_ascii_digit())], and the key cut there. *)
Fixpoint split_digits (s : string) : string * string :=
  match s with
  | EmptyString => (EmptyString, EmptyString)
  | String c r =>
      if is_digit c then let '(d, t) := split_digits r in (String c d, t)
      else (EmptyString, s)
  end.

Section Keys.
Context `{Serde}.

Definition step_key (step : N) (vars : gmap string string) : string :=
  if vars == ∅ then show step else show step +:+ vars_to_string vars.

Definition applied_key (a : AppliedStep) : string := step_key (as_step a) (as_vars a).

Definition parse_step_key (key : string) : option (N * gmap string string) :=
  let '(digits, rest) := split_digits key in
  step ← parse_u32 digits;
  if rest == EmptyString then Some (step, ∅)
  else (fun v => (step, v)) <$> vars_from_str rest.
End Keys.

Record Wait := mkWait {
  w_step : N;
  w_reason : string;
  w_since : Instant;
  w_bound : option Instant;
  w_guard : option string;
}.

Record DeferredAt := mkDeferredAt {
  df_step : N;
  df_handoff : string;
  df_iteration : N;
  df_vars : gmap string string;
}.

Record Staged := mkStaged { sg_host : string; sg_step : N; sg_name : string }.

#[export] Instance Staged_eq_dec : EqDecision Staged.
Proof. solve_decision. Defined.

(** [gates::Proof] *)
Record AcceptedProof := mkProof {
  pf_scope : Scope;
  pf_authenticator : string;
  pf_submitter : string;
  pf_at : Instant;
}.

(** [backstop::BackstopState] *)
Record BackstopState := mkBackstopState {
  bk_host : string;
  bk_artifact : string;
  bk_scheduler : string;
  bk_installed : bool;
  bk_armed : bool;
  bk_deadline : option Instant;
  bk_heartbeat_s : option N;
  bk_interval_s : option N;
  bk_last_heartbeat : option Instant;
  bk_confirmed : bool;
  bk_fired : bool;
}.

(** [ir::PlanIr] *)
Record PlanIr := mkPlanIr {
  ir_version : N;
  ir_requester : string;
  ir_site : Site;
  ir_plan : Plan;
}.

(** ** The record *)

Record InstanceRecord := mkInstanceRecord {
  i_id : string;
  i_ir : PlanIr;
  i_params : gmap string string;
  i_state : State;
  i_permanent : bool;
  i_rehearsal : bool;
  i_requested_at : option Instant;
  i_approved_at : option Instant;
  i_deadline : option Instant;
  i_approval_deadline : option Instant;
  i_applied : list AppliedStep;
  i_choices : gmap string bool;
  i_outputs : gmap string string;
  i_snapshots : gmap string string;
  i_waiting : option Wait;
  i_held_at : option N;
  i_deferred : option DeferredAt;
  i_stuck : list N;
  i_drift_held : list N;
  i_markers : gmap string (list Marker);
  i_dirs : list string;
  i_staged : list Staged;
  i_force_drift : bool;
  i_backstop : option BackstopState;
  i_nonce : string;
  i_host_contract : string;
  i_proofs : list AcceptedProof;
  i_secret_undelivered : bool;
  i_attempting : option AppliedStep;
  i_attempting_pre : Watched;
  i_acks : list N;
  i_forced : list string;
  i_ledger_ids : list string;
  i_refusal : option string;
  i_closed_reason : option string;
}.

Definition eta_record (r : InstanceRecord) : InstanceRecord :=
  mkInstanceRecord (i_id r) (i_ir r) (i_params r) (i_state r) (i_permanent r) (i_rehearsal r)
    (i_requested_at r) (i_approved_at r) (i_deadline r) (i_approval_deadline r) (i_applied r) (i_choices r)
    (i_outputs r) (i_snapshots r) (i_waiting r) (i_held_at r) (i_deferred r) (i_stuck r) (i_drift_held r)
    (i_markers r) (i_dirs r) (i_staged r) (i_force_drift r) (i_backstop r) (i_nonce r) (i_host_contract r)
    (i_proofs r) (i_secret_undelivered r) (i_attempting r) (i_attempting_pre r) (i_acks r) (i_forced r)
    (i_ledger_ids r) (i_refusal r) (i_closed_reason r).

Definition set_state v r := ltac:(field_update eta_record i_state v r).
Definition set_permanent v r := ltac:(field_update eta_record i_permanent v r).
Definition set_requested_at v r := ltac:(field_update eta_record i_requested_at v r).
Definition set_approved_at v r := ltac:(field_update eta_record i_approved_at v r).
Definition set_deadline v r := ltac:(field_update eta_record i_deadline v r).
Definition set_approval_deadline v r := ltac:(field_update eta_record i_approval_deadline v r).
Definition set_applied v r := ltac:(field_update eta_record i_applied v r).
Definition set_choices v r := ltac:(field_update eta_record i_choices v r).
Definition set_outputs v r := ltac:(field_update eta_record i_outputs v r).
Definition set_snapshots v r := ltac:(field_update eta_record i_snapshots v r).
Definition set_waiting v r := ltac:(field_update eta_record i_waiting v r).
Definition set_held_at v r := ltac:(field_update eta_record i_held_at v r).
Definition set_deferred v r := ltac:(field_update eta_record i_deferred v r).
Definition set_stuck v r := ltac:(field_update eta_record i_stuck v r).
Definition set_drift_held v r := ltac:(field_update eta_record i_drift_held v r).
Definition set_markers v r := ltac:(field_update eta_record i_markers v r).
Definition set_dirs v r := ltac:(field_update eta_record i_dirs v r).
Definition set_staged v r := ltac:(field_update eta_record i_staged v r).
Definition set_force_drift v r := ltac:(field_update eta_record i_force_drift v r).
Definition set_backstop v r := ltac:(field_update eta_record i_backstop v r).
Definition set_host_contract v r := ltac:(field_update eta_record i_host_contract v r).
Definition set_proofs v r := ltac:(field_update eta_record i_proofs v r).
Definition set_secret_undelivered v r := ltac:(field_update eta_record i_secret_undelivered v r).
Definition set_attempting v r := ltac:(field_update eta_record i_attempting v r).
Definition set_attempting_pre v r := ltac:(field_update eta_record i_attempting_pre v r).
Definition set_acks v r := ltac:(field_update eta_record i_acks v r).
Definition set_forced v r := ltac:(field_update eta_record i_forced v r).
Definition set_ledger_ids v r := ltac:(field_update eta_record i_ledger_ids v r).
Definition set_refusal v r := ltac:(field_update eta_record i_refusal v r).
Definition set_closed_reason v r := ltac:(field_update eta_record i_closed_reason v r).

(** ** Reading a record *)

Definition i_plan (r : InstanceRecord) : Plan := ir_plan (i_ir r).

Definition i_intent (r : InstanceRecord) : Intent := if i_permanent r then Permanent else Temporary.

Definition same_application (step iteration : N) (vars : gmap string string) (a : AppliedStep) : bool :=
  (as_step a =? step)%N && (as_iteration a =? iteration)%N && (as_vars a == vars).

Definition is_applied (r : InstanceRecord) (step iteration : N) (vars : gmap string string) : bool :=
  existsb (same_application step iteration vars) (i_applied r).

(** [numbered(..).into_iter().find(|(n, _)| *n == step)] *)
Definition item_at (p : Plan) (step : N) : option Item :=
  snd <$> List.find (fun x => (fst x =? step)%N) (numbered (plan_body p)).

Definition op_at (r : InstanceRecord) (step : N) : option Op := it ← item_at (i_plan r) step; op_of it.

Definition step_at (r : InstanceRecord) (step : N) : option StepI := it ← item_at (i_plan r) step; step_of it.

Definition is_hold (x : Refusal) : bool := match x with Hold _ => true | _ => false end.

Definition i_ctx (r : InstanceRecord) : Ctx := {|
  ctx_intent := i_intent r;
  ctx_mode := plan_mode (i_plan r);
  ctx_earlier_hold :=
    existsb (fun a => match op_at r (as_step a) with Some o => is_hold (op_refusal o) | None => false end)
      (i_applied r);
  ctx_on_lapse :=
    match (w ← i_waiting r; step_at r (w_step w)) with
    | Some s => step_on_lapse s
    | None => LapseRevert
    end;
|}.

Definition i_about (r : InstanceRecord) : About :=
  mkAbout (plan_id (i_plan r)) (i_id r) (plan_owner (i_plan r)).

(** [applied_steps]: a set; membership is all that is asked of it. *)
Definition applied_steps (r : InstanceRecord) : gset N := list_to_set (map as_step (i_applied r)).

(** ** Outcomes and errors *)

(** [lifecycle::Outcome] *)
Record Report := mkReport {
  ot_id : string;
  ot_state : State;
  ot_exit : N;
  ot_line : string;
}.

Inductive EngineError :=
| ErrRefused (v : Verdict)
| ErrLedger (c : LedgerCode) (m : string)
| ErrNotAdmitted (c : RCode) (m : string)
| ErrNoSuchInstance (id : string)
| ErrWrongState (state : State) (verb : string)
| ErrJournal (e : JournalError)
| ErrStore (e : StoreError)
| ErrRuntime (s : string)
| ErrInternal (s : string).

Definition display_journal_error (e : JournalError) : string :=
  match e with
  | JeStore x => "journal store: " +:+ display_store_error x
  | JeSinkRefused entry refusals =>
      concats (["R0304: entry "; show (en_seq entry); " not acknowledged by"]
               ++ map (fun p => concats [" "; fst p; " ("; snd p; ")"]) refusals)
  | JeSign s => "journal signing: " +:+ s
  end.

Definition display_error (e : EngineError) : string :=
  match e with
  | ErrRefused v => "refused: " +:+ prose v
  | ErrLedger c m => concats [ledger_code_debug c; ": "; m]
  | ErrNotAdmitted c m => concats [rcode_name c; ": "; m]
  | ErrNoSuchInstance id => "no such instance: " +:+ id
  | ErrWrongState st verb => concats [verb; " has no meaning in state "; state_name st]
  | ErrJournal x => display_journal_error x
  | ErrStore x => display_store_error x
  | ErrRuntime s => s
  | ErrInternal s => "internal: " +:+ s
  end.

Definition SNAPSHOT_CAP : N := 1048576.

Definition exit_of (state : State) (refused secret_undelivered : bool) : N :=
  match state with
  | SHeld => 3
  | SStuck => 4
  | SDeferred => 5
  | SPending | SWaiting => 6
  | SDriftHeld => 8
  | SClosed => if refused then 1 else 0
  | _ => if secret_undelivered then 7 else 0
  end.

Definition is_some {A} (x : option A) : bool := match x with Some _ => true | None => false end.

Definition unwrap_or {A} (x : option A) (d : A) : A := match x with Some y => y | None => d end.

(** [{:?}] of a [Vec<u32>] *)
Definition debug_steps (l : list N) : string := concats ["["; join ", " (map show l); "]"].

Definition to_lower (c : ascii) : ascii :=
  if (65 <=? N_of_ascii c)%N && (N_of_ascii c <=? 90)%N then chr (N_of_ascii c + 32) else c.

(** [str::to_lowercase], on ASCII. *)
Fixpoint to_lowercase (s : string) : string :=
  match s with
  | EmptyString => EmptyString
  | String c r => String (to_lower c) (to_lowercase r)
  end.

Definition outcome_line (r : InstanceRecord) : string :=
  match i_state r with
  | SClosed => concats [i_id r; ": closed ("; unwrap_or (i_closed_reason r) "no reason recorded"; ")"]
  | SWaiting =>
      concats [i_id r; ": waiting at step "; show (unwrap_or (w_step <$> i_waiting r) 0%N); " (";
               unwrap_or (w_reason <$> i_waiting r) EmptyString; ")"]
  | SPending => i_id r +:+ ": pending approval"
  | SHeld => concats [i_id r; ": held at step "; show (unwrap_or (i_held_at r) 0%N)]
  | SDeferred => concats [i_id r; ": deferred at step "; show (unwrap_or (df_step <$> i_deferred r) 0%N)]
  | SStuck => concats [i_id r; ": stuck at steps "; debug_steps (i_stuck r)]
  | SDriftHeld => concats [i_id r; ": R0202: drift-held at steps "; debug_steps (i_drift_held r)]
  | SApplied =>
      if i_rehearsal r then i_id r +:+ ": applied (rehearsal: no reservation)"
      else if i_secret_undelivered r then i_id r +:+ ": applied; secret undelivered"
      else i_id r +:+ ": applied"
  | SCommitted =>
      if i_secret_undelivered r then i_id r +:+ ": applied; secret undelivered" else i_id r +:+ ": committed"
  | s => concats [i_id r; ": "; to_lowercase (state_name s)]
  end.

Definition outcome (r : InstanceRecord) : Report :=
  mkReport (i_id r) (i_state r) (exit_of (i_state r) (is_some (i_refusal r)) (i_secret_undelivered r))
    (outcome_line r).

(** ** A record as an instance begins *)

Record ApplyOptions := mkApplyOptions {
  ao_rehearsal : bool;
  ao_acks : list N;
  ao_forced : list string;
  ao_mode : option Mode;
  ao_by : string;
}.

Section Blank.
Context `{Serde}.

(** [&ph[..8]] *)
Definition instance_id (ir : PlanIr) (params : gmap string string) (rehearsal : bool) : string :=
  let ph := match hash_params params with Some h => to_hex h | None => "00000000" end in
  let id := concats [plan_id (ir_plan ir); "."; plan_owner (ir_plan ir); "."; String.substring 0 8 ph] in
  if rehearsal then id +:+ ".rehearsal" else id.

(** The request nonce, 32 bytes of the platform's randomness, is an argument. *)
Definition blank_record (nonce : string) (ir : PlanIr) (params : gmap string string) (opts : ApplyOptions)
    : InstanceRecord := {|
  i_id := instance_id ir params (ao_rehearsal opts);
  i_ir := ir;
  i_params := params;
  i_state := SUnchecked;
  i_permanent := infer_intent (ir_plan ir) == Some Permanent;
  i_rehearsal := ao_rehearsal opts;
  i_requested_at := None;
  i_approved_at := None;
  i_deadline := None;
  i_approval_deadline := None;
  i_applied := [];
  i_choices := ∅;
  i_outputs := ∅;
  i_snapshots := ∅;
  i_waiting := None;
  i_held_at := None;
  i_deferred := None;
  i_stuck := [];
  i_drift_held := [];
  i_markers := ∅;
  i_dirs := [];
  i_staged := [];
  i_force_drift := false;
  i_backstop := None;
  i_nonce := to_hex_bytes nonce;
  i_host_contract := EmptyString;
  i_proofs := [];
  i_secret_undelivered := false;
  i_attempting := None;
  i_attempting_pre := [];
  i_acks := ao_acks opts;
  i_forced := ao_forced opts;
  i_ledger_ids := [];
  i_refusal := None;
  i_closed_reason := None;
|}.
End Blank.
