(* ===== verification/Json.v ===== *)
(** * JSON values and their canonical form

    [serde_json::Value] as the crate documents it, the readers of it the source uses, and
    [core/src/json/canonical.rs]: a value of integers only is printed in the form of
    docs/TESTING.md, and [canonical_is_injective] is what makes a hash of that form stand
    for the value. *)

From Stdlib Require Import Ascii.
From stdpp Require Import base strings pretty numbers option list.
From S2P Require Import Prelude Ordered Journal Instance.

(** ** Values *)

(** [serde_json::Number]: a [u64], a negative [i64] by its magnitude, or a float by its
    text. *)
Inductive JNumber := JPos (n : N) | JNeg (n : N) | JFloat (text : string).

#[export] Instance JNumber_eq_dec : EqDecision JNumber.
Proof. solve_decision. Defined.

Inductive Json :=
| JsNull
| JsBool (b : bool)
| JsNum (n : JNumber)
| JsStr (s : string)
| JsArr (items : list Json)
| JsObj (entries : list (string * Json)).

Section Induction.
Variable P : Json -> Prop.
Hypotheses (Hnull : P JsNull) (Hbool : forall b, P (JsBool b)) (Hnum : forall n, P (JsNum n)) (Hstr : forall s, P (JsStr s)).
Hypothesis Harr : forall items, Forall P items -> P (JsArr items).
Hypothesis Hobj : forall entries, Forall (fun e => P (snd e)) entries -> P (JsObj entries).

Fixpoint json_induction (v : Json) : P v :=
  match v with
  | JsNull => Hnull
  | JsBool b => Hbool b
  | JsNum n => Hnum n
  | JsStr s => Hstr s
  | JsArr items =>
      Harr items ((fix go l : Forall P l := match l with
                                            | [] => Forall_nil_2 _
                                            | x :: r => Forall_cons_2 _ _ _ (json_induction x) (go r)
                                            end) items)
  | JsObj entries =>
      Hobj entries ((fix go l : Forall (fun e => P (snd e)) l :=
                       match l with
                       | [] => Forall_nil_2 _
                       | (k, x) :: r => Forall_cons_2 (fun e => P (snd e)) (k, x) r (json_induction x) (go r)
                       end) entries)
  end.
End Induction.

(** [Value::get] of a key. *)
Definition js_get (k : string) (v : Json) : option Json := match v with JsObj m => bm_get k m | _ => None end.
Definition js_str (v : Json) : option string := match v with JsStr s => Some s | _ => None end.
Definition js_u64 (v : Json) : option N := match v with JsNum (JPos n) => Some n | _ => None end.
Definition js_bool (v : Json) : option bool := match v with JsBool b => Some b | _ => None end.
Definition js_array (v : Json) : option (list Json) := match v with JsArr l => Some l | _ => None end.
Definition js_object (v : Json) : option (BMap Json) := match v with JsObj m => Some m | _ => None end.

Definition get_str (k : string) (v : Json) : option string := x ← js_get k v; js_str x.
Definition get_u64 (k : string) (v : Json) : option N := x ← js_get k v; js_u64 x.
Definition get_bool (k : string) (v : Json) : option bool := x ← js_get k v; js_bool x.

(** [v[k] = x], on an object or [null]; the crate panics on anything else, and the source
    never does it there. *)
Definition js_set (k : string) (x : Json) (v : Json) : Json :=
  match v with
  | JsObj m => JsObj (bm_insert k x m)
  | JsNull => JsObj [(k, x)]
  | _ => v
  end.

(** [json!({ .. })] *)
Definition js_object_of (l : list (string * Json)) : Json := JsObj (bm_of_list l).

Definition js_opt {A} (f : A -> Json) (x : option A) : Json := match x with Some y => f y | None => JsNull end.
Definition js_num (n : N) : Json := JsNum (JPos n).

(** ** Canonical form *)

Inductive CanonicalError := NonInteger (path : string) | Serialize (what : string).

Definition display_canonical_error (e : CanonicalError) : string :=
  match e with
  | NonInteger path => concats ["canonical JSON admits integers only; "; path; " is not one"]
  | Serialize e => "canonical JSON: " +:+ e
  end.

Definition is_integer (n : JNumber) : bool := match n with JFloat _ => false | _ => true end.

(** [check_integers]: the first number that is none, by its path. *)
Fixpoint check_integers (path : string) (v : Json) : Result unit CanonicalError :=
  match v with
  | JsNum n => if is_integer n then Ok tt else Err (NonInteger path)
  | JsArr items =>
      (fix go i l := match l with
                     | [] => Ok tt
                     | x :: r => rbind (check_integers (concats [path; "["; show_nat i; "]"]) x) (fun _ => go (S i) r)
                     end) 0 items
  | JsObj entries =>
      (fix go l := match l with
                   | [] => Ok tt
                   | (k, x) :: r => rbind (check_integers (concats [path; "."; k]) x) (fun _ => go r)
                   end) entries
  | _ => Ok tt
  end.

Definition escape_char (c : ascii) : string :=
  let n := N_of_ascii c in
  if (n =? 34)%N then "\" +:+ dquote
  else if (n =? 92)%N then "\\"
  else if (n =? 10)%N then "\n"
  else if (n =? 13)%N then "\r"
  else if (n =? 9)%N then "\t"
  else if (n =? 8)%N then "\b"
  else if (n =? 12)%N then "\f"
  else if (n <? 32)%N then "\u00" +:+ String (hex_digit (n / 16)) (String (hex_digit (n mod 16)) EmptyString)
  else String c EmptyString.

Fixpoint escape_text (s : string) : string :=
  match s with
  | EmptyString => EmptyString
  | String c r => escape_char c +:+ escape_text r
  end.

Definition quoted_text (s : string) : string := dquote +:+ (escape_text s +:+ dquote).

Definition number_text (n : JNumber) : string :=
  match n with
  | JPos n => show n
  | JNeg n => "-" +:+ show n
  | JFloat t => t
  end.

Fixpoint spaces (n : nat) : string := match n with O => EmptyString | S n => String space (String space (spaces n)) end.

(** A line end and the indentation of the next line. *)
Definition pad (depth : nat) : string := newline +:+ spaces depth.

(** What each element of a container is, after the first. *)
Definition after_comma (depth : nat) (text : string) : string := "," +:+ (pad depth +:+ text).

(** The form docs/TESTING.md gives, but for the last line end. *)
Fixpoint pretty_value (depth : nat) (v : Json) : string :=
  match v with
  | JsNull => "null"
  | JsBool b => if b then "true" else "false"
  | JsNum n => number_text n
  | JsStr s => quoted_text s
  | JsArr [] => "[]"
  | JsArr (x :: xs) =>
      "[" +:+ (pad (S depth) +:+ (pretty_value (S depth) x
        +:+ (concats (map (fun y => after_comma (S depth) (pretty_value (S depth) y)) xs) +:+ (pad depth +:+ "]"))))
  | JsObj [] => "{}"
  | JsObj (e :: es) =>
      "{" +:+ (pad (S depth) +:+ ((quoted_text (fst e) +:+ (": " +:+ pretty_value (S depth) (snd e)))
        +:+ (concats (map (fun e => after_comma (S depth) (quoted_text (fst e) +:+ (": " +:+ pretty_value (S depth) (snd e)))) es)
             +:+ (pad depth +:+ "}"))))
  end.

Section Encode.
(** [serde_json::to_vec_pretty] *)
Variable to_vec_pretty : Json -> Result string string.

Definition encode (v : Json) : Result string CanonicalError :=
  let? _ := check_integers "$" v in
  match to_vec_pretty v with
  | Ok text => Ok (text +:+ newline)
  | Err e => Err (Serialize e)
  end.

Variable sha256 : string -> Hash.

(** [request::hash_json] *)
Definition hash_json (v : Json) : Result Hash CanonicalError := rmap sha256 (encode v).
End Encode.

(** ** The canonical form stands for the value *)

(** [check_integers] passes exactly the values without a float. *)
Fixpoint integral (v : Json) : bool :=
  match v with
  | JsNum n => is_integer n
  | JsArr items => forallb integral items
  | JsObj entries => forallb (fun e => integral (snd e)) entries
  | _ => true
  end.

Lemma check_integers_spec v : forall path, is_ok (check_integers path v) = integral v.
Proof.
  induction v as [|b|n|s|items IH|entries IH] using json_induction; intros path; try done; cbn [check_integers integral].
  - by destruct (is_integer n).
  - generalize 0. induction IH as [|x l Hx _ IHl]; intros i; [done|]. cbn [forallb]. rewrite <- (Hx (concats [path; "["; show_nat i; "]"])).
    destruct (check_integers _ x); [|done]. apply IHl.
  - induction IH as [|[k x] l Hx _ IHl]; [done|]. cbn [forallb snd] in *. rewrite <- (Hx (concats [path; "."; k])).
    destruct (check_integers _ x); [|done]. apply IHl.
Qed.

(** *** Digits *)

Fixpoint all_digits (s : string) : bool := match s with EmptyString => true | String c r => is_digit c && all_digits r end.

Definition starts_digit (s : string) : bool := match s with String c _ => is_digit c | EmptyString => false end.

Lemma pretty_digit n : (n < 10)%N -> is_digit (pretty_N_char n) = true.
Proof. intros Hn. assert (n ∈ [0;1;2;3;4;5;6;7;8;9]%N) as H by (rewrite !elem_of_cons; lia). by repeat (apply elem_of_cons in H as [->|H]; [done|]); apply not_elem_of_nil in H. Qed.

Lemma pretty_go_digits n : forall s, all_digits s = true -> all_digits (pretty_N_go n s) = true.
Proof.
  induction n as [n IH] using (well_founded_induction N.lt_wf_0). intros s Hs.
  destruct (decide (n = 0)%N) as [->|Hn]; [by rewrite pretty_N_go_0|].
  rewrite pretty_N_go_step by lia. apply IH; [apply N.div_lt; lia|]. cbn [all_digits]. rewrite Hs, pretty_digit; [done|]. apply N.mod_lt. lia.
Qed.

Lemma pretty_go_nonempty n : forall s, s <> EmptyString -> pretty_N_go n s <> EmptyString.
Proof.
  induction n as [n IH] using (well_founded_induction N.lt_wf_0). intros s Hs.
  destruct (decide (n = 0)%N) as [->|Hn]; [by rewrite pretty_N_go_0|]. rewrite pretty_N_go_step by lia.
  apply IH; [apply N.div_lt; lia|done].
Qed.

Lemma show_digits n : all_digits (show n) = true /\ show n <> EmptyString.
Proof.
  unfold show, pretty, pretty_N. case_decide as Hn; [done|]. split; [by apply pretty_go_digits|].
  rewrite pretty_N_go_step by lia. by apply pretty_go_nonempty.
Qed.

Lemma digits_prefix a b r r' : all_digits a = true -> all_digits b = true -> starts_digit r = false -> starts_digit r' = false ->
  a +:+ r = b +:+ r' -> a = b /\ r = r'.
Proof.
  revert b. induction a as [|c a IH]; intros [|d b] Ha Hb Hr Hr'; rewrite ?nil_app_s, ?append_cons; cbn [all_digits] in *; [done| | |].
  - intros ->. cbn in Hr. by rewrite Hr in Hb.
  - intros <-. cbn in Hr'. by rewrite Hr' in Ha.
  - apply andb_true_iff in Ha as [_ Ha], Hb as [_ Hb]. intros [= <- H]. apply IH in H as [-> ->]; done.
Qed.

Lemma show_prefix n m r r' : starts_digit r = false -> starts_digit r' = false -> show n +:+ r = show m +:+ r' -> n = m /\ r = r'.
Proof.
  intros Hr Hr' H. apply digits_prefix in H as [H ->]; [|by apply show_digits|by apply show_digits|done|done].
  split; [by apply (inj pretty)|done].
Qed.

(** *** Strings *)

Definition from_hex_digit (c : ascii) : N := let n := N_of_ascii c in (if n <? 58 then n - 48 else n - 87)%N.

(** The first character of an escaped text, and the rest. *)
Definition unescape_char (s : string) : option (ascii * string) :=
  match s with
  | EmptyString => None
  | String c r =>
      let n := N_of_ascii c in
      if (n =? 34)%N then None
      else if (n =? 92)%N then
        match r with
        | EmptyString => None
        | String d r =>
            let m := N_of_ascii d in
            if (m =? 117)%N then
              match r with
              | String _ (String _ (String h (String l r))) => Some (chr (16 * from_hex_digit h + from_hex_digit l)%N, r)
              | _ => None
              end
            else Some (chr (if m =? 110 then 10 else if m =? 114 then 13 else if m =? 116 then 9 else if m =? 98 then 8
                            else if m =? 102 then 12 else m)%N, r)
        end
      else Some (c, r)
  end.

Lemma unescape_escaped c r : unescape_char (escape_char c +:+ r) = Some (c, r).
Proof. destruct c as [[] [] [] [] [] [] [] []]; reflexivity. Qed.

Lemma quoted_cons c s r : escape_text (String c s) +:+ (dquote +:+ r) = escape_char c +:+ (escape_text s +:+ (dquote +:+ r)).
Proof. cbn [escape_text]. by rewrite app_assoc_s. Qed.

Lemma quoted_prefix s s' r r' : quoted_text s +:+ r = quoted_text s' +:+ r' -> s = s' /\ r = r'.
Proof.
  unfold quoted_text. rewrite !app_assoc_s. intros H. apply (inj (String.append dquote)) in H. rewrite ?app_assoc_s in H. revert s' H.
  induction s as [|c s IH]; intros [|c' s'] H; rewrite ?quoted_cons in H; cbn [escape_text] in H; rewrite ?nil_app_s in H.
  - by apply (inj (String.append dquote)) in H.
  - apply (f_equal unescape_char) in H. by rewrite unescape_escaped in H.
  - apply (f_equal unescape_char) in H. by rewrite unescape_escaped in H.
  - apply (f_equal unescape_char) in H. rewrite !unescape_escaped in H. injection H as <- H. by apply IH in H as [-> ->].
Qed.

(** *** Values *)

Definition tag_of (v : Json) : N :=
  match v with JsNull => 0 | JsBool _ => 1 | JsNum (JNeg _) => 2 | JsNum _ => 3 | JsStr _ => 4 | JsArr _ => 5 | JsObj _ => 6 end%N.

(** What the first character of a value's text is the first of. *)
Definition tag_of_char (c : ascii) : N :=
  if is_digit c then 3
  else match N_of_ascii c with 110 => 0 | 116 | 102 => 1 | 45 => 2 | 34 => 4 | 91 => 5 | _ => 6 end%N.

Definition tag_of_text (s : string) : option N := match s with String c _ => Some (tag_of_char c) | EmptyString => None end.

Lemma tag_digits s r : all_digits s = true -> s <> EmptyString -> tag_of_text (s +:+ r) = Some 3%N.
Proof. destruct s as [|c s]; [done|]. cbn [all_digits]. intros [Hc _]%andb_true_iff _. rewrite append_cons. cbn. unfold tag_of_char. by rewrite Hc. Qed.

Lemma pretty_tag d v r : integral v = true -> tag_of_text (pretty_value d v +:+ r) = Some (tag_of v).
Proof.
  destruct v as [|[]|[n|n|t]|s|[|x xs]|[|e es]]; intros Hv; try done. cbn [pretty_value number_text tag_of].
  destruct (show_digits n) as [H1 H2]. by apply tag_digits.
Qed.

(** An element of a container is delimited by what follows it. *)
Definition delimits {A} (P : A -> Prop) (f : A -> string) (x : A) : Prop :=
  forall y r r', P y -> starts_digit r = false -> starts_digit r' = false -> f x +:+ r = f y +:+ r' -> x = y /\ r = r'.

(** The elements after the first of a container, up to where it closes. *)
Definition rest_text {A} (f : A -> string) d e (xs : list A) (r : string) : string :=
  concats (map (fun x => after_comma d (f x)) xs) +:+ (pad e +:+ r).

Lemma rest_delimits {A} (f : A -> string) d e xs r : starts_digit (rest_text f d e xs r) = false.
Proof. unfold rest_text. destruct xs; cbn [map]; rewrite ?concat_empty_cons; done. Qed.

Lemma rest_prefix {A} (P : A -> Prop) (f : A -> string) d e xs : Forall (delimits P f) xs ->
  forall ys r r', Forall P ys -> rest_text f d e xs r = rest_text f d e ys r' -> xs = ys /\ r = r'.
Proof.
  induction 1 as [|x xs Hx _ IH]; intros [|y ys] r r' HP H; unfold rest_text in H; cbn [map] in H; rewrite ?concat_empty_cons in H; try done.
  - by apply (inj (String.append (pad e))) in H.
  - apply Forall_cons in HP as [Hy HP]. unfold after_comma in H at 1 3. rewrite !app_assoc_s in H.
    apply (inj (String.append ",")), (inj (String.append (pad d))) in H.
    apply Hx in H as [-> H]; [|done|apply rest_delimits|apply rest_delimits]. by apply IH in H as [-> ->].
Qed.

Lemma items_prefix {A} (P : A -> Prop) (f : A -> string) d e x xs y ys r r' : Forall (delimits P f) (x :: xs) -> Forall P (y :: ys) ->
  f x +:+ rest_text f d e xs r = f y +:+ rest_text f d e ys r' -> x :: xs = y :: ys /\ r = r'.
Proof.
  intros [Hx Hxs]%Forall_cons [Hy Hys]%Forall_cons H. apply Hx in H as [-> H]; [|done|apply rest_delimits|apply rest_delimits].
  by apply (rest_prefix P) in H as [-> ->].
Qed.

Definition entry_text d (e : string * Json) : string := quoted_text (fst e) +:+ (": " +:+ pretty_value d (snd e)).

Lemma entry_delimits d e : delimits (fun v => integral v = true) (pretty_value d) (snd e) ->
  delimits (fun e => integral (snd e) = true) (entry_text d) e.
Proof.
  intros Hx [k' x'] r r' Hx' Hr Hr' H. destruct e as [k x]. unfold entry_text in H. cbn [fst snd] in *.
  rewrite !app_assoc_s in H. apply quoted_prefix in H as [-> H]. apply (inj (String.append ": ")) in H. by apply Hx in H as [-> ->].
Qed.

Lemma arr_text d x xs r :
  pretty_value d (JsArr (x :: xs)) +:+ r = "[" +:+ (pad (S d) +:+ (pretty_value (S d) x +:+ rest_text (pretty_value (S d)) (S d) d xs ("]" +:+ r))).
Proof. unfold rest_text. cbn [pretty_value]. by rewrite !app_assoc_s. Qed.

Lemma obj_text d e es r :
  pretty_value d (JsObj (e :: es)) +:+ r = "{" +:+ (pad (S d) +:+ (entry_text (S d) e +:+ rest_text (entry_text (S d)) (S d) d es ("}" +:+ r))).
Proof. unfold rest_text, entry_text. cbn [pretty_value]. by rewrite !app_assoc_s. Qed.

Lemma forallb_Forall_eq {A} (f : A -> bool) l : forallb f l = true <-> Forall (fun x => f x = true) l.
Proof. induction l as [|x l IH]; [done|]. cbn. by rewrite andb_true_iff, Forall_cons, IH. Qed.

Lemma Forall_mp {A} (P Q : A -> Prop) l : Forall (fun x => P x -> Q x) l -> Forall P l -> Forall Q l.
Proof. intros H HP. induction H as [|x l Hx _ IH]; [done|]. apply Forall_cons in HP as [H1 H2]. by constructor; auto. Qed.

Lemma pretty_prefix v : integral v = true -> forall d, delimits (fun v => integral v = true) (pretty_value d) v.
Proof.
  induction v as [|b|n|s|items IH|entries IH] using json_induction; intros Hv d v' r r' Hv' Hr Hr' H;
    pose proof (f_equal tag_of_text H) as Ht; rewrite !pretty_tag in Ht by done; injection Ht as Ht;
    destruct v' as [|b'|[]|s'|ys|es']; try (destruct n); try done.
  - split; [done|]. by apply (inj (String.append "null")) in H.
  - destruct b, b'; try done; (split; [done|]); [by apply (inj (String.append "true")) in H|by apply (inj (String.append "false")) in H].
  - apply show_prefix in H as [-> ->]; done.
  - cbn [pretty_value number_text] in H. rewrite !app_assoc_s in H. apply (inj (String.append "-")) in H. apply show_prefix in H as [-> ->]; done.
  - by apply quoted_prefix in H as [-> ->].
  - destruct items as [|x xs], ys as [|y ys]; [|done|done|].
    { split; [done|]. by apply (inj (String.append "[]")) in H. }
    cbn [integral] in Hv, Hv'. apply forallb_Forall_eq in Hv, Hv'. rewrite !arr_text in H.
    apply (inj (String.append "[")), (inj (String.append (pad (S d)))) in H.
    apply (items_prefix (fun v => integral v = true)) in H as [-> H]; [|eapply Forall_impl; [by apply (Forall_mp _ _ _ IH Hv)|done]|done].
    by apply (inj (String.append "]")) in H.
  - destruct entries as [|x xs], es' as [|y ys]; [|done|done|].
    { split; [done|]. by apply (inj (String.append "{}")) in H. }
    cbn [integral] in Hv, Hv'. apply forallb_Forall_eq in Hv, Hv'. rewrite !obj_text in H.
    apply (inj (String.append "{")), (inj (String.append (pad (S d)))) in H.
    apply (items_prefix (fun e => integral (snd e) = true)) in H as [-> H];
      [|eapply Forall_impl; [by apply (Forall_mp _ _ _ IH Hv)|intros e He; by apply entry_delimits]|done].
    by apply (inj (String.append "}")) in H.
Qed.

Definition pretty_of_spec (to_vec_pretty : Json -> Result string string) : Prop := forall v, to_vec_pretty v = Ok (pretty_value 0 v).

(** Two values with the same canonical form are the same value, so what a hash of that
    form stands for is the value: texts are closed by their own escapes, numbers by what
    follows them, and no float is let through. *)
Theorem canonical_is_injective (to_vec_pretty : Json -> Result string string) (v v' : Json) (text : string)
    (Hpretty : pretty_of_spec to_vec_pretty)
    (Hv : encode to_vec_pretty v = Ok text) (Hv' : encode to_vec_pretty v' = Ok text) :
  v = v'.
Proof.
  assert (Hi : forall v, encode to_vec_pretty v = Ok text -> integral v = true /\ pretty_value 0 v +:+ newline = text).
  { intros x. unfold encode. rewrite (Hpretty x). pose proof (check_integers_spec x "$") as Hc.
    destruct (check_integers "$" x); [|done]. cbn in *. by intros [= <-]. }
  apply Hi in Hv as [Hv Ht], Hv' as [Hv' Ht']. rewrite <- Ht' in Ht. by apply pretty_prefix in Ht as [-> _].
Qed.

Lemma canonical_is_injective_witness :
  let v := JsObj [("a", JsArr [JsNum (JPos 1); JsNull]); ("b", JsStr ("x" +:+ dquote))] in
  encode (fun v => Ok (pretty_value 0 v)) v
  = Ok (concats ["{"; newline; "  "; dquote; "a"; dquote; ": ["; newline; "    1,"; newline; "    null"; newline; "  ],"; newline; "  ";
                 dquote; "b"; dquote; ": "; dquote; "x\"; dquote; dquote; newline; "}"; newline])
  /\ v = v.
Proof.
  intros v. split; [reflexivity|].
  eapply (canonical_is_injective (fun v => Ok (pretty_value 0 v)) v v); [by intros ?|reflexivity|reflexivity].
Defined.
