(* ===== verification/Engine.v ===== *)
(** * The engine: its state and the monad its methods run in

    [struct Engine] of [engine/src/lifecycle.rs]. A method runs on the engine and the
    record it was given; an error keeps what was done before it, as [?] does. Everything
    outside the engine is an [Outside]: the traits of [Executor.v], the clock, the disk,
    the journal's sinks and keys, the randomness, the renderer's templates. *)

From Stdlib Require Import Ascii.
From stdpp Require Import base strings pretty numbers option sets gmap list.
From S2P Require Import Prelude Model States Ledger Journal EngineJournal Resolve Footprint Ordered Utf8 Render.
From S2P Require Import Monad Executor Instance.

(** What the engine's bindings, its disk and its clock are. *)
Class Outside := {
  world : Type;
  executor : Type;
  scheduler : Type;
  approval : Type;
  source : Type;
  acceptor : Type;
  notifier : Type;
  sink : Type;
  executor_ops :: Executor world executor;
  scheduler_ops :: Scheduler world executor scheduler;
  approval_ops :: Approval world approval;
  source_ops :: Source world source;
  acceptor_ops :: Acceptor world acceptor;
  notify_ops :: Notify world notifier;
  serde_ops :: Serde;
  (** [Clock::now] *)
  clock_now : world -> world * Instant;
  (** [std::time::Instant::now], in nanoseconds, and [thread::sleep], in seconds *)
  stopwatch : world -> world * N;
  sleep : N -> world -> world;
  (** A write to the store, and a read of it: whether the disk did it. *)
  disk_write : world -> world * Result unit StoreError;
  disk_read : world -> world * Result unit StoreError;
  (** What the journal's appends come to. *)
  disk_append : world -> list Entry -> Entry -> AppendOutcome;
  sha256 : string -> Hash;
  sink_name : sink -> string;
  deliver : sink -> Entry -> sink * option string;
  (** [gates::nonce] *)
  draw_nonce : world -> world * string;
  (** The renderer's templates, and Rust's [{:?}] of a string. *)
  artifact_template : ArtifactLanguage -> ArtifactContext -> Result string RenderError;
  debug_str : string -> string;
}.

(** ** The state *)

(** The store directory, its files read. *)
Record StoreDir := mkStoreDir {
  st_instances : BMap InstanceRecord;
  st_chain : list Entry;
  st_ledger : LedgerRecord;
  st_meta : gmap string (gmap string string);
  st_controller : string;
}.

Record Transition := mkTransition {
  tr_id : string;
  tr_from : State;
  tr_event : Event;
  tr_outcome : States.Outcome;
}.

(** Why a body is run on a host. *)
Inductive Purpose :=
| ForDo (at_ : AppliedStep)
| ForUndo (at_ : AppliedStep)
| ForReestablish (at_ : AppliedStep).

(** One call of [Executor::run], and the store as it was on disk at that moment. The
    source keeps no such list; it is what an observer of the host and the disk sees. *)
Record Act := mkAct {
  act_purpose : Purpose;
  act_host : string;
  act_instance : string;
  act_body : list RPrim;
  act_store : StoreDir;
}.

Record Engine `{Outside} := mkEngine {
  g_world : world;
  g_store : StoreDir;
  g_journal : EJournal (S := sink);
  g_executors : list executor;
  g_schedulers : list scheduler;
  g_approval : option approval;
  g_acceptors : list acceptor;
  g_source : option source;
  g_notify : option notifier;
  g_hosts : BMap EHost;
  g_controller : EHost;
  g_ledger : Ledger;
  g_skew_tolerance : Duration;
  g_settling : bool;
  g_trace : list Transition;
  g_acts : list Act;
}.

Section Engine.
Context `{Outside}.

Definition eta_engine (g : Engine) : Engine :=
  mkEngine _ (g_world g) (g_store g) (g_journal g) (g_executors g) (g_schedulers g) (g_approval g) (g_acceptors g)
    (g_source g) (g_notify g) (g_hosts g) (g_controller g) (g_ledger g) (g_skew_tolerance g) (g_settling g)
    (g_trace g) (g_acts g).

Definition set_world v g := ltac:(field_update eta_engine g_world v g).
Definition set_store v g := ltac:(field_update eta_engine g_store v g).
Definition set_journal v g := ltac:(field_update eta_engine g_journal v g).
Definition set_ledger v g := ltac:(field_update eta_engine g_ledger v g).
Definition set_settling_flag v g := ltac:(field_update eta_engine g_settling v g).
Definition set_trace v g := ltac:(field_update eta_engine g_trace v g).
Definition set_acts v g := ltac:(field_update eta_engine g_acts v g).

Definition set_instances (v : BMap InstanceRecord) (s : StoreDir) : StoreDir :=
  mkStoreDir v (st_chain s) (st_ledger s) (st_meta s) (st_controller s).
Definition set_chain (v : list Entry) (s : StoreDir) : StoreDir :=
  mkStoreDir (st_instances s) v (st_ledger s) (st_meta s) (st_controller s).
Definition set_ledger_file (v : LedgerRecord) (s : StoreDir) : StoreDir :=
  mkStoreDir (st_instances s) (st_chain s) v (st_meta s) (st_controller s).
Definition set_meta (v : gmap string (gmap string string)) (s : StoreDir) : StoreDir :=
  mkStoreDir (st_instances s) (st_chain s) (st_ledger s) v (st_controller s).

(** ** The monad *)

(** A method of the engine that may fail with an [E]. *)
Definition ME (E A : Type) : Type := Engine -> Engine * Result A E.

(** A method that also holds a record it may change. *)
Definition M (E A : Type) : Type := Engine * InstanceRecord -> (Engine * InstanceRecord) * Result A E.

End Engine.

(** ** Primitives *)

Section Primitives.
Context `{Outside}.

(** A call to the world. *)
Definition outside {E A} (f : world -> world * A) : ME E A := fun g =>
  let '(w, x) := f (g_world g) in (set_world w g, Ok x).

Definition ask {E A} (f : Engine -> A) : ME E A := fun g => (g, Ok (f g)).

Definition change {E} (f : Engine -> Engine) : ME E unit := fun g => (f g, Ok tt).

(** A method that only reads its record. *)
Definition with_rec {E A} (m : InstanceRecord -> ME E A) : M E A := fun '(g, r) =>
  let '(g', x) := m r g in ((g', r), x).

Definition on_engine {E A} (m : ME E A) : M E A := with_rec (fun _ => m).

(** [let mut rec = ..] and the methods run on it. *)
Definition with_record {E A} (r : InstanceRecord) (m : M E A) : ME E (A * InstanceRecord) := fun g =>
  let '((g', r'), x) := m (g, r) in
  (g', match x with Ok y => Ok (y, r') | Err e => Err e end).

Definition get_rec {E} : M E InstanceRecord := with_rec mret.

Definition update {E} (f : InstanceRecord -> InstanceRecord) : M E unit := fun '(g, r) => ((g, f r), Ok tt).

(** ** The store, the journal and the state machine *)

Definition now {E} : ME E Instant := outside clock_now.

(** [Store::write_instance]: a write that fails leaves what was there. *)
Definition write_instance (r : InstanceRecord) : ME StoreError unit :=
  let! res := outside disk_write in
  match res with
  | Ok _ => change (fun g =>
      set_store (set_instances (bm_insert (i_id r) r (st_instances (g_store g))) (g_store g)) g)
  | Err e => mthrow e
  end.

Definition read_instance (id : string) : ME StoreError (option InstanceRecord) :=
  let! res := outside disk_read in
  match res with
  | Ok _ => ask (fun g => bm_get id (st_instances (g_store g)))
  | Err e => mthrow e
  end.

Definition persist_of (r : InstanceRecord) : ME EngineError unit := map_err ErrStore (write_instance r).

Definition persist : M EngineError unit := with_rec persist_of.

Definition load (id : string) : ME EngineError InstanceRecord :=
  let! r := map_err ErrStore (read_instance id) in
  match r with
  | Some x => mret x
  | None => mthrow (ErrNoSuchInstance id)
  end.

(** [Store::instance_ids] and a read of each. *)
Definition instances : ME EngineError (list InstanceRecord) :=
  let! listed := outside disk_read in
  do! map_err ErrStore (lift listed) in
  let! ids := ask (fun g => sort_strings (map fst (st_instances (g_store g)))) in
  fold_each (fun v id => let! r := map_err ErrStore (read_instance id) in
                         mret match r with Some x => v ++ [x] | None => v end) [] ids.

(** [Journal::record] *)
Definition journal_record (at_ : Instant) (about : About) (ev : JEvent) : ME EngineError Entry := fun g =>
  let '(j, chain, res) := record sha256 sink_name deliver (disk_append (g_world g)) (g_journal g)
                            (st_chain (g_store g)) at_ about ev [] in
  (set_journal j (set_store (set_chain chain (g_store g)) g),
   match res with Ok e => Ok e | Err x => Err (ErrJournal x) end).

Definition log_for (r : InstanceRecord) (ev : JEvent) : ME EngineError unit :=
  let! at_ := now in
  do! journal_record at_ (i_about r) ev in
  mret tt.

Definition log (ev : JEvent) : M EngineError unit := with_rec (fun r => log_for r ev).

Definition nobody : About := mkAbout EmptyString EmptyString EmptyString.

Definition journal_site_event (ev : JEvent) : ME EngineError Entry :=
  let! at_ := now in journal_record at_ nobody ev.

Definition write_meta (name : string) (v : gmap string string) : ME EngineError unit :=
  let! res := outside disk_write in
  match res with
  | Ok _ => change (fun g => set_store (set_meta (<[name := v]> (st_meta (g_store g))) (g_store g)) g)
  | Err e => mthrow (ErrStore e)
  end.

Definition read_meta (name : string) : ME EngineError (gmap string string) :=
  let! res := outside disk_read in
  match res with
  | Ok _ => ask (fun g => match st_meta (g_store g) !! name with Some v => v | None => ∅ end)
  | Err e => mthrow (ErrStore e)
  end.

Definition write_ledger : ME EngineError unit :=
  let! res := outside disk_write in
  match res with
  | Ok _ => change (fun g => set_store (set_ledger_file (from_ledger (g_ledger g)) (g_store g)) g)
  | Err e => mthrow (ErrStore e)
  end.

Definition bool_text (b : bool) : string := if b then "true" else "false".

Definition set_settling (on : bool) : ME EngineError unit :=
  do! change (set_settling_flag on) in
  write_meta "settle" {[ "settling" := bool_text on ]}.

Inductive Moved := DidMove | DidStay.

Definition intent_debug (i : Intent.Intent) : string :=
  match i with
  | Intent.Temporary => "Temporary"
  | Intent.Permanent => "Permanent"
  end.

(** Feed one event to the machine; refuse per its verdict; persist. *)
Definition step (ev : Event) : M EngineError Moved :=
  let! r := get_rec in
  let outcome := transition (i_ctx r) (i_state r) ev in
  do! (if outcome == NotApplicable then mret tt
       else on_engine (change (fun g => set_trace (g_trace g ++ [mkTransition (i_id r) (i_state r) ev outcome]) g))) in
  match outcome with
  | To s => do! update (set_state s) in do! persist in mret DidMove
  | Stay => mret DidStay
  | Refuse code =>
      mthrow (ErrNotAdmitted code
        (concats [event_name ev; " in "; state_name (i_state r); " ("; intent_debug (i_intent r); " plan)"]))
  | NotApplicable => mthrow (ErrWrongState (i_state r) (event_name ev))
  end.

Definition release : M EngineError unit :=
  let! r := get_rec in
  do! update (set_ledger_ids []) in
  do! on_engine (change (fun g => set_ledger (foldl Ledger.release (g_ledger g) (i_ledger_ids r)) g)) in
  on_engine write_ledger.
End Primitives.
