(* ===== verification/Hosts.v ===== *)
(** * The engine's hosts

    The part of [engine/src/lifecycle.rs] that reaches a host: which executor serves it,
    reading a fact and running a probe, the instance directory, snapshots before [do] and
    markers after it, staged files. *)

From Stdlib Require Import Ascii.
From stdpp Require Import base strings pretty numbers option sets gmap list.
From S2P Require Import Prelude Model Algebra Interference States Ledger Journal EngineJournal Region.
From S2P Require Import Resolve Footprint Ordered Utf8.
From S2P Require Import CheckRules Monad Executor Instance Engine.

Section Hosts.
Context `{Outside}.

(** ** Hosts and executors *)

Definition eh_name (h : EHost) : string := hr_name (eh_record h).

Definition host_of (g : Engine) (name : string) : option EHost :=
  if name == "controller" then Some (g_controller g) else bm_get name (g_hosts g).

(** The error is a bound host's output, or that there is no record. *)
Definition step_host (g : Engine) (r : InstanceRecord) (o : Op) : Result EHost string :=
  let named name := match host_of g name with
                    | Some h => Ok h
                    | None => Err ("no host record for " +:+ name)
                    end in
  match op_locus o with
  | LController => Ok (g_controller g)
  | LTarget => named (plan_owner (i_plan r))
  | LHost (Static h) => named h
  | LHost (Bound b) => Err b
  end.

Definition position {A} (f : A -> bool) (l : list A) : option nat := fst <$> list_find f l.

Definition executor_index (g : Engine) (h : EHost) : option nat :=
  let wanted := if eh_name h == "controller" then CONTROLLER_REACH else hr_reach (eh_record h) in
  find_map (fun t => position (fun x => transport (ex_locus x (g_world g)) == t) (g_executors g)) wanted.

Definition executor_for (g : Engine) (h : EHost) : option executor :=
  i ← executor_index g h; g_executors g !! i.

Definition caps_of (g : Engine) (h : EHost) : ExecCaps :=
  match executor_for g h with
  | Some x => ex_capabilities x (g_world g)
  | None => mkExecCaps false false
  end.

Definition owner_host (r : InstanceRecord) : ME EngineError EHost := fun g =>
  (g, match host_of g (plan_owner (i_plan r)) with
      | Some h => Ok h
      | None => Err (ErrInternal ("no host record for owner " +:+ plan_owner (i_plan r)))
      end).

Definition env_for (r : InstanceRecord) (vars : gmap string string) : Env :=
  mkEnv (i_params r) (i_outputs r) vars ∅ ∅.

(** [.map_err(|e| format!(..))] of an executor's error. *)
Definition exec {A} (why : string -> string) (f : world -> world * Result A ExecError) : ME string A :=
  let! res := outside f in
  match res with
  | Ok x => mret x
  | Err e => mthrow (why (display_exec_error e))
  end.

Definition display_unbound (u : Unbound) : string := "nothing binds " +:+ ub_name u.

(** ** Probes *)

Definition names_probe (name : string) (d : ProbeDecl) : bool :=
  (pd_name d == name) || existsb (fun f => f == name) (pd_produces d).

Definition probe_run (r : InstanceRecord) (h : EHost) (name : string) : ME string (EHost * ProbeRun) := fun g =>
  (g, match List.find (names_probe name) (plan_probes (i_plan r)) with
      | Some d =>
          let on := match pd_locus d with LController => g_controller g | _ => h end in
          match resolve_body (pd_body d) on (env_for r ∅) with
          | Ok body => Ok (on, mkProbeRun (pd_name d) body)
          | Err u => Err (display_unbound u)
          end
      | None => Ok (h, mkProbeRun name [])
      end).

Definition observe_raw (r : InstanceRecord) (h : EHost) (probe : string) : ME string Observation :=
  let! p := probe_run r h probe in
  let '(on, run) := p in
  let! x := ask (fun g => executor_for g on) in
  match x with
  | None => mthrow ("no executor reaches " +:+ eh_name on)
  | Some x => exec (fun e => concats ["observing "; probe; " on "; eh_name on; ": "; e]) (ex_observe x on run)
  end.

Definition observe (r : InstanceRecord) (h : EHost) (probe : string) : ME string Tri :=
  let! o := observe_raw r h probe in mret (as_tri o).

Definition observe_text (r : InstanceRecord) (h : EHost) (probe : string) : ME string string :=
  let! o := observe_raw r h probe in mret (ob_text o).

(** ** Facts *)

(** The first probe whose [reads] pattern the shape matches, and what it binds. *)
Definition reader_of (r : InstanceRecord) (shape : string) : option (ProbeDecl * gmap string string) :=
  find_map (fun d => pat ← pd_reads d; vars ← bind_shape pat shape; Some (d, vars)) (plan_probes (i_plan r)).

Definition reading_probe (r : InstanceRecord) (h : EHost) (shape : string) : ME string (option ProbeRun) := fun g =>
  (g, match file_path shape with
      | Some _ => Ok None
      | None =>
          match (fun x => ex_locus x (g_world g)) <$> executor_for g h with
          | Some LkLocal | Some LkSsh =>
              match reader_of r shape with
              | None => Ok None
              | Some (d, vars) =>
                  match resolve_body (pd_body d) h (env_for r vars) with
                  | Ok body => Ok (Some (mkProbeRun (pd_name d) body))
                  | Err u => Err (concats ["R0205: "; shape; " on "; eh_name h; ": its probe "; pd_name d; ": ";
                                           display_unbound u])
                  end
              end
          | _ => Ok None
          end
      end).

Definition fact_bytes (r : InstanceRecord) (h : EHost) (shape : string) : ME string (option string) :=
  let! reader := reading_probe r h shape in
  let! x := ask (fun g => executor_for g h) in
  match x with
  | None => mthrow (concats ["R0205: no executor reaches "; eh_name h; " to read "; shape])
  | Some x =>
      match reader with
      | None =>
          exec (fun e => concats ["R0205: "; shape; " on "; eh_name h; " could not be read: "; e])
            (ex_read_fact x h shape)
      | Some run =>
          let! o := exec (fun e => concats ["R0205: "; shape; " on "; eh_name h; " could not be read by its probe ";
                                            pr_name run; ": "; e]) (ex_observe x h run) in
          match as_tri o with
          | Yes => mret (Some (ob_text o))
          | No => mret None
          | Unknown => mthrow (concats ["R0205: "; shape; " on "; eh_name h; ": its probe "; pr_name run;
                                        " could not tell ("; trim (ob_text o); ")"])
          end
      end
  end.

Definition digest (bytes : option string) : string := digest_of (fun b => to_hex (sha256 b)) bytes.

(** ** Instance directories *)

(** [foreign_controller]: the controller that stamped a directory, when it is not ours. *)
Definition foreign_controller {E} (x : executor) (h : EHost) (instance ours : string) : ME E (option string) :=
  let! res := outside (ex_get_file x h instance "controller") in
  mret match res with
       | Ok bytes =>
           text ← from_utf8 bytes;
           let id := trim text in
           if (id == EmptyString) || (id == ours) then None else Some id
       | Err _ => None
       end.

Definition live_elsewhere (id : string) (d : InstanceDirState) : bool :=
  negb ((ds_instance d == id) || negb (ds_armed d) || ds_fired d).

Definition not_bootstrapped (h : EHost) (st : BootstrapState) : string :=
  concats ["R0407: "; eh_name h; " is not bootstrapped (rescind_root "; bool_text (bt_rescind_root st); ", group ";
           bool_text (bt_group st); ", instances "; bool_text (bt_instances_dir st); ", lock ";
           bool_text (bt_lock st); ", modes "; bool_text (bt_modes_ok st); "); run `rescind bootstrap "; eh_name h; "`"].

Definition foreign_live (h : EHost) (instance other : string) : string :=
  concats ["R0409: "; eh_name h; " holds instance "; instance; " of controller "; other;
           ", armed and not fired; rescind is single-controller per host. Its backstop is live: read it, then ";
           "`rescind reclaim "; eh_name h; " "; instance; " --force --reason ...` if it is spent"].

(** What of [ensure_instance_dir] acts on the host; its error is [Ok(Err(..))]. *)
Definition make_instance_dir (x : executor) (h : EHost) (id controller : string) : ME string unit :=
  let! st := exec (fun e => concats ["R0407: "; eh_name h; ": "; e]) (ex_bootstrap_state x h) in
  if negb (ready st) then mthrow (not_bootstrapped h st)
  else
    let! dirs := exec (fun e => concats ["the instance directories on "; eh_name h; ": "; e])
                   (ex_instance_dir_list x h) in
    do! for_each (fun d =>
          if negb (live_elsewhere id d) then mret tt
          else
            let! other := foreign_controller x h (ds_instance d) controller in
            match other with
            | Some o => mthrow (foreign_live h (ds_instance d) o)
            | None => mret tt
            end) dirs in
    do! exec (fun e => concats ["instance directory on "; eh_name h; ": "; e]) (ex_instance_dir_create x h id) in
    exec (fun e => concats ["the controller stamp on "; eh_name h; ": "; e])
      (ex_put_file x h id "controller" controller 416).

(** [Result<Result<A, String>, EngineError>]: a refusal of the step is a value. *)
Definition refusable {E A} (m : ME string A) : M E (Result A string) := on_engine (attempt m).

Definition ensure_instance_dir (h : EHost) : M EngineError (Result unit string) :=
  let! r := get_rec in
  let! caps := on_engine (ask (fun g => caps_of g h)) in
  if i_rehearsal r || negb (caps_filesystem caps) || existsb (fun d => d == eh_name h) (i_dirs r) then mret (Ok tt)
  else
    let! x := on_engine (ask (fun g => executor_for g h)) in
    let! controller := on_engine (ask (fun g => st_controller (g_store g))) in
    match x with
    | None => mret (Ok tt)
    | Some x =>
        let! made := refusable (make_instance_dir x h (i_id r) controller) in
        match made with
        | Err why => mret (Err why)
        | Ok _ =>
            do! update (fun r => set_dirs (i_dirs r ++ [eh_name h]) r) in
            do! persist in
            mret (Ok tt)
        end
    end.

(** ** Facts around a step *)

(** Whether a step runs on this host. *)
Definition on_host (g : Engine) (r : InstanceRecord) (h : EHost) (o : Op) : bool :=
  match step_host g r o with
  | Ok h' => eh_name h' == eh_name h
  | Err _ => false
  end.

Definition observed_shapes (o : Op) : list string :=
  map (fun '(_, e, _) => fp_shape e) (observed_facts (op_footprint o)).

(** The facts an application holds on a host. *)
Definition facts_of (g : Engine) (r : InstanceRecord) (h : EHost) (a : AppliedStep) : list string :=
  match op_at r (as_step a) with
  | Some o =>
      if on_host g r h o then
        match concrete_op o h (env_for r (as_vars a)) with
        | Ok o' => observed_shapes o'
        | Err _ => []
        end
      else []
  | None => []
  end.

(** The shapes of the other steps, then those of the applications of a repeat. *)
Definition shapes_to_watch (g : Engine) (r : InstanceRecord) (h : EHost) (at_ : AppliedStep) : list string :=
  flat_map (fun '(m, it) =>
      if (m =? as_step at_)%N then []
      else match op_of it with
           | Some o => if on_host g r h o
                       then List.filter (fun s => negb (contains_char lbrace s)) (observed_shapes o) else []
           | None => []
           end) (numbered (plan_body (i_plan r)))
  ++ flat_map (fun a =>
      if (as_vars a != ∅) && negb ((as_step a =? as_step at_)%N && (as_vars a == as_vars at_))
      then facts_of g r h a else []) (i_applied r).

Definition watched (r : InstanceRecord) (h : EHost) (at_ : AppliedStep) : ME string Watched :=
  if i_rehearsal r then mret []
  else
    let! shapes := ask (fun g => shapes_to_watch g r h at_) in
    let! own := ask (fun g => facts_of g r h at_) in
    let! x := ask (fun g => executor_for g h) in
    match x with
    | None => mret []
    | Some _ =>
        fold_each (fun w shape =>
          if existsb (fun s => s == shape) own || bm_contains shape w then mret w
          else let! b := fact_bytes r h shape in mret (bm_insert shape (digest b) w)) [] shapes
    end.

(** One fact of [snapshot]: its digest to the map, its bytes to the record. *)
Definition snapshot_fact (at_ : AppliedStep) (h : EHost) (pre : Watched) (f : nat * FootprintEntry * string)
    : M EngineError (Result Watched string) :=
  let '(k, e, _) := f in
  let! r := get_rec in
  let! read := refusable (fact_bytes r h (fp_shape e)) in
  match read with
  | Err why => mret (Err why)
  | Ok bytes =>
      let pre := bm_insert (fp_shape e) (digest bytes) pre in
      match fp_kind e, bytes with
      | Modified, Some b | Region, Some b =>
          if (SNAPSHOT_CAP <? N.of_nat (String.length b))%N then
            mthrow (ErrRuntime (concats ["R0204: "; fp_shape e; " on "; eh_name h; " is ";
              show_nat (String.length b); " bytes, above the "; show SNAPSHOT_CAP; "-byte snapshot cap"]))
          else
            let! x := on_engine (ask (fun g => executor_for g h)) in
            do! (match x with
                 | Some x =>
                     if existsb (fun d => d == eh_name h) (i_dirs r) then
                       let! _ := on_engine (outside (ex_replace_file x h (i_id r)
                                   (concats ["snapshots/"; show (as_step at_); "/"; show_nat k]) b)) in mret tt
                     else mret tt
                 | None => mret tt
                 end) in
            do! update (fun r => set_snapshots
                  (<[concats [applied_key at_; "/"; show_nat k] := from_utf8_lossy b]> (i_snapshots r)) r) in
            mret (Ok pre)
      | _, _ => mret (Ok pre)
      end
  end.

Fixpoint snapshot_facts (at_ : AppliedStep) (h : EHost) (pre : Watched) (fs : list (nat * FootprintEntry * string))
    : M EngineError (Result Watched string) :=
  match fs with
  | [] => mret (Ok pre)
  | f :: rest =>
      let! res := snapshot_fact at_ h pre f in
      match res with
      | Err why => mret (Err why)
      | Ok pre => snapshot_facts at_ h pre rest
      end
  end.

Definition snapshot (at_ : AppliedStep) (o : Op) (h : EHost) : M EngineError (Result Watched string) :=
  let! x := on_engine (ask (fun g => executor_for g h)) in
  match x with
  | None => do! persist in mret (Ok [])
  | Some _ =>
      let! taken := snapshot_facts at_ h [] (observed_facts (op_footprint o)) in
      match taken with
      | Err why => mret (Err why)
      | Ok pre => do! update (set_attempting_pre pre) in do! persist in mret (Ok pre)
      end
  end.

(** Every region this instance holds on a host. The source sorts the steps first; the
    last sort of the result loses that order. *)
Definition regions_on (g : Engine) (r : InstanceRecord) (h : EHost) : list (string * string) :=
  let steps := map (fun a => (as_step a, as_vars a)) (i_applied r)
               ++ filter_map (fun k => parse_step_key k) (map fst (map_to_list (i_markers r))) in
  let found := flat_map (fun '(n, vars) =>
    match op_at r n with
    | Some o =>
        if on_host g r h o then
          match concrete_op o h (env_for r vars) with
          | Ok o' => filter_map (fun e =>
              if fp_kind e == Region
              then path ← file_path (fp_shape e); anchor ← fp_anchor e; Some (path, anchor)
              else None) (op_footprint o')
          | Err _ => []
          end
        else []
    | None => []
    end) steps in
  dedup (sort_pairs found).

Definition marker_of (h : EHost) (r : InstanceRecord) (f : nat * FootprintEntry * string)
    : ME string Marker :=
  let '(_, e, addr) := f in
  let! b := fact_bytes r h (fp_shape e) in
  mret (mkMarker (fp_kind e) addr (digest b)).

(** The markers that go to the host: those of the file facts. *)
Definition host_markers (o : Op) (markers : list Marker) : list Marker :=
  filter_map (fun '(_, e, p) => List.find (fun m => (mk_path m == p) && (mk_kind m == fp_kind e)) markers)
    (file_facts (op_footprint o)).

Definition write_markers (h : EHost) (at_ : AppliedStep) (o : Op) : M EngineError (Result unit string) :=
  let! r := get_rec in
  let has_dir := existsb (fun d => d == eh_name h) (i_dirs r) in
  let! x := on_engine (ask (fun g => executor_for g h)) in
  let! read := match x with
               | Some _ => refusable (fold_each (fun v f => let! m := marker_of h r f in mret (v ++ [m])) []
                                        (observed_facts (op_footprint o)))
               | None => mret (Ok [])
               end in
  match read with
  | Err why => mret (Err why)
  | Ok markers =>
      let! x := on_engine (ask (fun g => executor_for g h)) in
      do! (match x with
           | Some x =>
               if has_dir then
                 on_engine (map_err ErrInternal (exec (fun e => concats ["markers on "; eh_name h; ": "; e])
                   (ex_put_file x h (i_id r) ("markers/" +:+ show (as_step at_)) (markers_text (host_markers o markers)) 416)))
               else mret tt
           | None => mret tt
           end) in
      do! update (fun r => set_markers (<[applied_key at_ := markers]> (i_markers r)) r) in
      let! r := get_rec in
      let! regions := on_engine (ask (fun g => regions_on g r h)) in
      let! x := on_engine (ask (fun g => executor_for g h)) in
      do! (match x with
           | Some x =>
               if has_dir then
                 on_engine (map_err ErrInternal (exec (fun e => concats ["manifest on "; eh_name h; ": "; e])
                   (ex_replace_file x h (i_id r) "manifest" (manifest_text regions))))
               else mret tt
           | None => mret tt
           end) in
      do! persist in
      mret (Ok tt)
  end.

(** Whether another active instance holds a region on a file of this host. *)
Definition foreign_region (g : Engine) (r : InstanceRecord) (h : EHost) (shape : string) : bool :=
  existsb (fun i => negb (existsb (fun l => l == inst_id i) (i_ledger_ids r)) && (inst_host i == eh_name h)
                    && existsb (fun f => (fact_shape f == shape) && is_some (fact_anchor f)) (inst_umbra i))
    (holdings (g_ledger g)).

(** ** Staged files *)

Definition remove_staged_file (reason : string) (s : Staged) : M EngineError unit :=
  let! r := get_rec in
  let! x := on_engine (ask (fun g => h ← host_of g (sg_host s); x ← executor_for g h; Some (h, x))) in
  do! (match x with
       | Some (h, x) => let! _ := on_engine (outside (ex_remove_file x h (i_id r) (sg_name s))) in mret tt
       | None => mret tt
       end) in
  log (JStagedRemoved (sg_step s) reason).

Definition remove_staged (step : option N) (reason : string) : M EngineError unit :=
  let! r := get_rec in
  let mine := List.filter (fun s => match step with Some n => (sg_step s =? n)%N | None => true end) (i_staged r) in
  match mine with
  | [] => mret tt
  | _ =>
      do! for_each (remove_staged_file reason) mine in
      do! update (fun r => set_staged (List.filter (fun s => negb (existsb (fun m => m == s) mine)) (i_staged r)) r) in
      persist
  end.
End Hosts.

(** The body a [:restore] undo runs. *)
Definition restore_prim (key : string) (snapshots : gmap string string) (p : nat * FootprintEntry)
    : Result (list RPrim) string :=
  let '(k, e) := p in
  match fp_kind e with
  | Owned => Ok [RRemove (fp_shape e)]
  | Region => Ok [RRegionClear (fp_shape e) (fp_anchor e)]
  | Modified =>
      match snapshots !! concats [key; "/"; show_nat k] with
      | Some s => Ok [RWrite (fp_shape e) (plain s)]
      | None =>
          if starts_with "file:" (fp_shape e) then Ok [RRemove (fp_shape e)]
          else Err (concats ["restore of "; fp_shape e; " has no snapshot and is not a file"])
      end
  | Held => Ok [RRelease (fp_shape e)]
  | Derived | AppendOnly => Ok []
  end.

Definition restore_body (key : string) (footprint : list FootprintEntry) (snapshots : gmap string string)
    : Result (list RPrim) string :=
  let? parts := collect_results (restore_prim key snapshots) (imap (fun k e => (k, e)) footprint) in
  Ok (concat parts).
