(* ===== verification/EngineBackstop.v ===== *)
(** * Backstops and secrets at run time ([engine/src/backstop.rs], [secrets.rs])

    Rendering the artifact into the instance directory, installing and arming its
    scheduler entry, rearming on renewal, disarming, the heartbeat pass, reading what a
    fired artifact left, and reconciling the directories found on the hosts. A refusal of
    the step that wanted the backstop is a value, an engine error is not. Then the secrets
    an instance was given or made. *)

From Stdlib Require Import Ascii.
From stdpp Require Import base strings pretty numbers option sets gmap list.
From S2P Require Import Prelude Model Algebra Backstop States Ledger Journal EngineJournal Region Resolve Footprint Ordered Render Monad Executor Instance Engine Hosts.

Definition DEFAULT_SKEW_TOLERANCE : Duration := 120%N.

Record Schedule := mkSchedule {
  sd_deadline : option Instant;
  sd_heartbeat_s : option N;
  sd_interval_s : option N;
}.

Definition schedule_trigger (now : Instant) (wane : option Instant) (s : Schedule) (t : Trigger) : Schedule :=
  match t with
  | After d => mkSchedule (Some (match wane with Some w => w | None => instant_plus now d end)) (sd_heartbeat_s s) (sd_interval_s s)
  | UnlessConfirmed d => mkSchedule (Some (instant_plus now d)) (sd_heartbeat_s s) (sd_interval_s s)
  | UnlessHeartbeat deadline interval =>
      mkSchedule (sd_deadline s) (Some deadline)
        (Some (match interval with Some i => i | None => (deadline / 3)%N end))
  end.

Definition schedule (triggers : list Trigger) (now : Instant) (wane : option Instant) : Schedule :=
  foldl (schedule_trigger now wane) (mkSchedule None None None) triggers.

(** [a.unix_s.abs_diff(b.unix_s)] *)
Definition skew (a b : Instant) : N := ((a - b) + (b - a))%N.

Inductive Disarm := DisarmConfirmed | DisarmAll.

Definition epoch_text (i : Instant) : string := show i +:+ newline.

Definition is_heartbeat (t : Trigger) : bool := match t with UnlessHeartbeat _ _ => true | _ => false end.

Definition plan_triggers (p : Plan) : list Trigger :=
  match plan_backstop p with Some b => bs_triggers b | None => [] end.

Definition covered_steps (p : Plan) : list N := match coverage p with Some c => covered c | None => [] end.

Definition installed (r : InstanceRecord) : bool :=
  match i_backstop r with Some b => bk_installed b | None => false end.

Definition armed (r : InstanceRecord) : bool :=
  match i_backstop r with Some b => bk_armed b | None => false end.

Definition update_backstop (f : BackstopState -> BackstopState) (r : InstanceRecord) : InstanceRecord :=
  set_backstop (f <$> i_backstop r) r.

Definition eta_backstop (b : BackstopState) : BackstopState :=
  mkBackstopState (bk_host b) (bk_artifact b) (bk_scheduler b) (bk_installed b) (bk_armed b) (bk_deadline b)
    (bk_heartbeat_s b) (bk_interval_s b) (bk_last_heartbeat b) (bk_confirmed b) (bk_fired b).

Definition set_installed v b := ltac:(field_update eta_backstop bk_installed v b).
Definition set_armed v b := ltac:(field_update eta_backstop bk_armed v b).
Definition set_bk_deadline v b := ltac:(field_update eta_backstop bk_deadline v b).
Definition set_heartbeat_s v b := ltac:(field_update eta_backstop bk_heartbeat_s v b).
Definition set_interval_s v b := ltac:(field_update eta_backstop bk_interval_s v b).
Definition set_last_heartbeat v b := ltac:(field_update eta_backstop bk_last_heartbeat v b).
Definition set_confirmed v b := ltac:(field_update eta_backstop bk_confirmed v b).
Definition set_fired v b := ltac:(field_update eta_backstop bk_fired v b).

Section Backstop.
Context `{Outside}.

Definition scheduler_named (g : Engine) (name : string) : option scheduler :=
  List.find (fun d => sc_scheduler_name d (g_world g) == name) (g_schedulers g).

(** The host of the covered steps, which must share one. *)
Fixpoint common_host (g : Engine) (r : InstanceRecord) (found : option EHost) (ns : list N)
    : Result (option EHost) string :=
  match ns with
  | [] => Ok found
  | n :: rest =>
      match op_at r n with
      | None => common_host g r found rest
      | Some o =>
          let? h := step_host g r o in
          match found with
          | None => common_host g r (Some h) rest
          | Some f =>
              if eh_name f != eh_name h then
                Err (concats ["the backstop covers steps on "; eh_name f; " and on "; eh_name h;
                              ": one artifact undoes one host's steps"])
              else common_host g r found rest
          end
      end
  end.

Definition backstop_host (g : Engine) (r : InstanceRecord) : Result (option EHost) string :=
  match coverage (i_plan r) with
  | None => Ok None
  | Some cov => common_host g r None (covered cov)
  end.

Definition render_artifact (r : InstanceRecord) (h : EHost) : Result (string * string) string :=
  match render artifact_template (ir_site (i_ir r)) (i_plan r) (eh_name h)
          (mkArtifactInstance (i_id r) (eh_rescind_root h))
          (mkBindings (i_params r) (<["address" := eh_address h]> (eh_facts h))) with
  | Ok a => Ok (ar_file_name a, ar_text a)
  | Err e => Err (concats ["the backstop artifact for "; eh_name h; ": "; display_render_error debug_str e])
  end.

Definition artifact_path (h : EHost) (instance file : string) : string :=
  let shell := shell_of (hr_os (eh_record h)) in
  let sep := if shell == ShellPowershell then "\" else "/" in
  concats [root (mkArtifactInstance instance (eh_rescind_root h)) shell; sep; "instances"; sep; instance; sep; file].

Definition job_of (r : InstanceRecord) (h : EHost) (st : BackstopState) : Job :=
  mkJob (i_id r) (artifact_path h (i_id r) (bk_artifact st)) (language_of (eh_record h)) (hr_os (eh_record h)).

Definition job_for (h : EHost) (instance : string) : Job :=
  let language := language_of (eh_record h) in
  mkJob instance (artifact_path h instance (artifact_name language)) language (hr_os (eh_record h)).

(** ** Installing *)

(** What of [backstop_install] acts on the host, once the directory is there. *)
Definition install_on (x : executor) (h : EHost) (id sched_name file_name text : string) (job : Job)
    : ME string unit :=
  let! cleared := outside (ex_remove_file x h id "fired") in
  do! (match cleared with
       | Err e =>
           let why := display_exec_error e in
           if negb (contains_str "No such file" why) && negb (contains_str "not found" why)
           then mthrow (concats ["clearing a previous firing on "; eh_name h; ": "; why])
           else mret tt
       | Ok _ => mret tt
       end) in
  do! exec (fun e => concats ["the backstop artifact on "; eh_name h; ": "; e]) (ex_put_file x h id file_name text 488) in
  let! sched := ask (fun g => scheduler_named g sched_name) in
  match sched with
  | None => mthrow (concats ["R0401: no scheduler binding named "; sched_name; " for "; eh_name h])
  | Some d =>
      do! exec (fun e => concats ["R0401: the scheduler entry on "; eh_name h; ": "; e]) (sc_install d x h job) in
      let! p := exec (fun e => concats ["R0401: "; sched_name; " on "; eh_name h; ": "; e]) (sc_present d x h job) in
      match p with
      | Absent => mthrow (concats ["R0401: "; sched_name; " on "; eh_name h; " reports no entry after installing it"])
      | _ => mret tt
      end
  end.

Definition new_backstop (h : EHost) (artifact sched_name : string) : BackstopState :=
  mkBackstopState (eh_name h) artifact sched_name false false None None None None false false.

Definition backstop_install : M EngineError (Result unit string) :=
  let! r := get_rec in
  if i_rehearsal r || installed r then mret (Ok tt)
  else
    let! found := on_engine (ask (fun g => backstop_host g r)) in
    match found with
    | Ok None => mret (Ok tt)
    | Err why => mret (Err why)
    | Ok (Some h) =>
        let! dir := ensure_instance_dir h in
        match dir with
        | Err why => mret (Err why)
        | Ok _ =>
            match render_artifact r h, eh_scheduler h with
            | Err why, _ => mret (Err why)
            | Ok _, None =>
                mret (Err (concats ["R0401: "; eh_name h; " declares no scheduler, and the plan's backstop is on it"]))
            | Ok (file_name, text), Some sched_name =>
                let st := new_backstop h file_name sched_name in
                let! x := on_engine (ask (fun g => executor_for g h)) in
                match x with
                | None => mret (Err ("no transport reaches " +:+ eh_name h))
                | Some x =>
                    let! done_ := refusable (install_on x h (i_id r) sched_name file_name text (job_of r h st)) in
                    match done_ with
                    | Err why => mret (Err why)
                    | Ok _ =>
                        do! update (set_backstop (Some (set_installed true st))) in
                        do! persist in
                        mret (Ok tt)
                    end
                end
            end
        end
    end.

(** ** Arming *)

Definition modes_of (h : EHost) (id : string) (dirs : list InstanceDirState) : Result unit string :=
  match List.find (fun d => ds_instance d == id) dirs with
  | Some d =>
      if ds_modes_ok d then Ok tt
      else Err (concats ["R0406: the instance directory of "; id; " on "; eh_name h;
                         " has the wrong modes; arming refused"])
  | None => Ok tt
  end.

Definition skew_of (h : EHost) (now tolerance : N) (target : option Instant) : Result unit string :=
  match target with
  | Some t =>
      let d := skew now t in
      if (tolerance <? d)%N then
        Err (concats ["R0403: "; eh_name h; " is "; show d; "s from the controller's clock, beyond the ";
                      show tolerance; "s tolerance; arming refused"])
      else Ok tt
  | None => Ok tt
  end.

(** What of [backstop_arm] acts on the host. *)
Definition arm_on (x : executor) (h : EHost) (id sched_name : string) (tolerance : Duration) (now : Instant)
    (s : Schedule) (job : Job) : ME string unit :=
  let! dirs := exec (fun e => concats ["the instance directories on "; eh_name h; ": "; e]) (ex_instance_dir_list x h) in
  do! lift (modes_of h id dirs) in
  let! target := exec (fun e => concats ["R0403: the clock probe on "; eh_name h; ": "; e]) (ex_clock_now x h) in
  do! lift (skew_of h now tolerance target) in
  do! (match sd_deadline s with
       | Some d => exec (fun e => concats ["the deadline on "; eh_name h; ": "; e])
                     (ex_replace_file x h id "deadline" (epoch_text d))
       | None => mret tt
       end) in
  do! (match sd_heartbeat_s s with
       | Some _ => exec (fun e => concats ["the heartbeat on "; eh_name h; ": "; e])
                     (ex_replace_file x h id "heartbeat" (epoch_text now))
       | None => mret tt
       end) in
  let! sched := ask (fun g => scheduler_named g sched_name) in
  match sched with
  | None => mthrow (concats ["R0401: no scheduler binding named "; sched_name; " for "; eh_name h])
  | Some d => exec (fun e => concats ["R0401: arming on "; eh_name h; ": "; e])
                (sc_arm d x h job (match sd_deadline s with Some d => d | None => now end))
  end.

Definition arm_state (s : Schedule) (now : Instant) (b : BackstopState) : BackstopState :=
  set_last_heartbeat (match sd_heartbeat_s s with Some _ => Some now | None => None end)
    (set_interval_s (sd_interval_s s) (set_heartbeat_s (sd_heartbeat_s s)
      (set_bk_deadline (sd_deadline s) (set_armed true b)))).

Definition backstop_arm : M EngineError (Result unit string) :=
  let! r := get_rec in
  if i_rehearsal r then mret (Ok tt)
  else match i_backstop r with
  | None => mret (Ok tt)
  | Some st =>
      if bk_armed st || negb (bk_installed st) then mret (Ok tt)
      else
        let! host := on_engine (ask (fun g => host_of g (bk_host st))) in
        match host with
        | None => mret (Err (bk_host st +:+ " is not a host of the site"))
        | Some h =>
            let! at_ := on_engine now in
            let s := schedule (plan_triggers (i_plan r)) at_ (i_deadline r) in
            let! tolerance := on_engine (ask g_skew_tolerance) in
            let! x := on_engine (ask (fun g => executor_for g h)) in
            match x with
            | None => mret (Err ("no transport reaches " +:+ eh_name h))
            | Some x =>
                let! done_ := refusable (arm_on x h (i_id r) (bk_scheduler st) tolerance at_ s (job_of r h st)) in
                match done_ with
                | Err why => mret (Err why)
                | Ok _ =>
                    do! update (update_backstop (arm_state s at_)) in
                    do! persist in
                    mret (Ok tt)
                end
            end
        end
  end.

(** ** Rearming and disarming *)

(** What of [backstop_rearm] acts on the host. *)
Definition rearm_on (x : executor) (h : EHost) (id sched_name : string) (deadline : Instant) (job : Job) : ME string unit :=
  do! exec (fun e => concats ["R0404: the deadline on "; eh_name h; ": "; e])
        (ex_replace_file x h id "deadline" (epoch_text deadline)) in
  let! sched := ask (fun g => scheduler_named g sched_name) in
  match sched with
  | None => mthrow ("R0404: no scheduler binding named " +:+ sched_name)
  | Some d => exec (fun e => concats ["R0404: rearming on "; eh_name h; ": "; e]) (sc_rearm d x h job deadline)
  end.

Definition backstop_rearm (deadline : Instant) : M EngineError (Result unit string) :=
  let! r := get_rec in
  match i_backstop r with
  | None => mret (Ok tt)
  | Some st =>
      if negb (bk_armed st) || i_rehearsal r then mret (Ok tt)
      else
        let! host := on_engine (ask (fun g => host_of g (bk_host st))) in
        match host with
        | None => mret (Err (concats ["R0404: "; bk_host st; " is not a host of the site"]))
        | Some h =>
            let! x := on_engine (ask (fun g => executor_for g h)) in
            match x with
            | None => mret (Err ("R0404: no transport reaches " +:+ eh_name h))
            | Some x =>
                let! done_ := refusable (rearm_on x h (i_id r) (bk_scheduler st) deadline (job_of r h st)) in
                match done_ with
                | Err why => mret (Err why)
                | Ok _ =>
                    do! update (update_backstop (set_bk_deadline (Some deadline))) in
                    do! persist in
                    mret (Ok tt)
                end
            end
        end
  end.

(** What of [backstop_disarm] acts on the host. *)
Definition disarm_on (x : executor) (h : EHost) (id : string) (st : BackstopState) (whole : bool) (job : Job)
    : ME string unit :=
  do! exec (fun e => concats ["the deadline on "; eh_name h; ": "; e]) (ex_remove_file x h id "deadline") in
  if whole then
    let! sched := ask (fun g => scheduler_named g (bk_scheduler st)) in
    match sched with
    | None => mthrow ("no scheduler binding named " +:+ bk_scheduler st)
    | Some d =>
        do! exec (fun e => concats ["disarming on "; eh_name h; ": "; e]) (sc_disarm d x h job) in
        exec (fun e => concats ["the artifact on "; eh_name h; ": "; e]) (ex_remove_file x h id (bk_artifact st))
    end
  else mret tt.

Definition disarm_state (whole : bool) (b : BackstopState) : BackstopState :=
  let b := set_confirmed true b in
  if whole then set_installed false (set_armed false b) else b.

Definition backstop_disarm (which : Disarm) : M EngineError (Result unit string) :=
  let! r := get_rec in
  match i_backstop r with
  | None => mret (Ok tt)
  | Some st =>
      if i_rehearsal r || negb (bk_installed st) then mret (Ok tt)
      else
        let has_heartbeat := existsb is_heartbeat (plan_triggers (i_plan r)) in
        let whole := match which with DisarmAll => true | DisarmConfirmed => false end || negb has_heartbeat in
        let! host := on_engine (ask (fun g => host_of g (bk_host st))) in
        match host with
        | None => mret (Err (bk_host st +:+ " is not a host of the site"))
        | Some h =>
            let! x := on_engine (ask (fun g => executor_for g h)) in
            match x with
            | None => mret (Err ("no transport reaches " +:+ eh_name h))
            | Some x =>
                let! done_ := refusable (disarm_on x h (i_id r) st whole (job_of r h st)) in
                match done_ with
                | Err why => mret (Err why)
                | Ok _ =>
                    do! update (update_backstop (disarm_state whole)) in
                    do! persist in
                    mret (Ok tt)
                end
            end
        end
  end.

(** ** A fired artifact *)

(** [ex.get_file(..).is_ok()] *)
Definition file_there {E} (x : executor) (h : EHost) (id rel : string) : ME E bool :=
  let! res := outside (ex_get_file x h id rel) in mret (is_ok res).

Definition fired_state (b : BackstopState) : BackstopState := set_armed false (set_fired true b).

Definition backstop_fired_after_abandon : M EngineError bool :=
  let! r := get_rec in
  match i_backstop r with
  | None => mret false
  | Some st =>
      if negb (bk_installed st) || negb (bk_armed st) || bk_fired st then mret false
      else
        let! hx := on_engine (ask (fun g => h ← host_of g (bk_host st); x ← executor_for g h; Some (h, x))) in
        match hx with
        | None => mret false
        | Some (h, x) =>
            let! fired := on_engine (file_there x h (i_id r) "fired") in
            if negb fired then mret false
            else
              do! log (JBackstopFiredAfterAbandon (eh_name h) (covered_steps (i_plan r))) in
              do! update (update_backstop fired_state) in
              do! persist in
              mret true
        end
  end.

(** The covered, applied steps whose marker the artifact removed. *)
Definition undone_steps (x : executor) (h : EHost) (r : InstanceRecord) : ME EngineError (list N) :=
  fold_each (fun v n =>
    if bool_decide (n ∈ applied_steps r) then
      let! there := file_there x h (i_id r) ("markers/" +:+ show n) in
      mret (if there then v else v ++ [n])
    else mret v) [] (covered_steps (i_plan r)).

Definition backstop_read_fired : M EngineError bool :=
  let! r := get_rec in
  match i_backstop r with
  | None => mret false
  | Some st =>
      if negb (bk_installed st) || bk_fired st || i_rehearsal r then mret false
      else
        let! hx := on_engine (ask (fun g => h ← host_of g (bk_host st); x ← executor_for g h; Some (h, x))) in
        match hx with
        | None => mret false
        | Some (h, x) =>
            let! fired := on_engine (file_there x h (i_id r) "fired") in
            if negb fired then mret false
            else
              let! undone := on_engine (undone_steps x h r) in
              let! drift := on_engine (file_there x h (i_id r) "drift") in
              let! clobbered := on_engine (file_there x h (i_id r) "clobbered") in
              let first := match undone with n :: _ => n | [] => 0%N end in
              let facts := ["the artifact on " +:+ eh_name h] in
              do! for_each (fun n => log (JBackstopFired n)) undone in
              do! (if clobbered then log (JDriftClobbered first facts) else mret tt) in
              do! (if drift then log (JDriftHeld first facts) else mret tt) in
              do! update (fun r => set_applied
                    (List.filter (fun a => negb (existsb (fun n => (n =? as_step a)%N) undone)) (i_applied r)) r) in
              do! update (update_backstop fired_state) in
              do! persist in
              mret true
        end
  end.

(** ** The heartbeat pass *)

Definition heartbeat_due (now : Instant) (st : BackstopState) : bool :=
  match bk_interval_s st with
  | None => false
  | Some interval =>
      bk_armed st && negb (bk_fired st)
      && match bk_last_heartbeat st with
         | Some last => (u64_add last interval <=? now)%N
         | None => true
         end
  end.

Definition heartbeat_of_instance (now : Instant) (r : InstanceRecord) : ME EngineError (list string) :=
  match i_backstop r with
  | None => mret []
  | Some st =>
      if negb (heartbeat_due now st) then mret []
      else
        let! hx := ask (fun g => h ← host_of g (bk_host st); x ← executor_for g h; Some (h, x)) in
        match hx with
        | None => mret []
        | Some (h, x) =>
            let! res := outside (ex_replace_file x h (i_id r) "heartbeat" (epoch_text now)) in
            if is_ok res then
              do! persist_of (update_backstop (set_last_heartbeat (Some now)) r) in
              mret [i_id r]
            else mret []
        end
  end.

Definition heartbeat : ME EngineError (list string) :=
  let! at_ := now in
  let! rs := instances in
  fold_each (fun v r => let! w := heartbeat_of_instance at_ r in mret (v ++ w)) [] rs.

(** ** Reconciliation *)

Definition known_ids (rs : list InstanceRecord) : list string :=
  map i_id (List.filter (fun r => negb (terminal (i_state r))) rs).

Record Reconciled := mkReconciled {
  rl_orphaned : list (string * string);
  rl_reclaimed : list (string * string);
  rl_foreign : list (string * string);
}.

(** One directory of [reconcile]'s inner loop. *)
Definition reconcile_dir (known : list string) (x : executor) (h : EHost) (ours : string) (acc : Reconciled)
    (d : InstanceDirState) : ME EngineError Reconciled :=
  let here := (eh_name h, ds_instance d) in
  if existsb (fun k => k == ds_instance d) known then mret acc
  else
    let! other := foreign_controller x h (ds_instance d) ours in
    match other with
    | Some c =>
        do! journal_site_event (JInstanceDirForeign (eh_name h) (ds_instance d) c) in
        mret (mkReconciled (rl_orphaned acc) (rl_reclaimed acc) (rl_foreign acc ++ [here]))
    | None =>
        if ds_armed d && negb (ds_fired d) then
          do! journal_site_event (JInstanceDirOrphaned (eh_name h) (ds_instance d) true) in
          mret (mkReconciled (rl_orphaned acc ++ [here]) (rl_reclaimed acc) (rl_foreign acc))
        else
          let! x' := ask (fun g => executor_for g h) in
          match x' with
          | None => mret acc
          | Some x' =>
              let! removed := outside (ex_instance_dir_remove x' h (ds_instance d)) in
              if is_ok removed then
                do! journal_site_event (JReclaimed (eh_name h) (ds_instance d) false "boot reconciliation") in
                mret (mkReconciled (rl_orphaned acc) (rl_reclaimed acc ++ [here]) (rl_foreign acc))
              else mret acc
          end
    end.

Definition reconcile_host (known : list string) (acc : Reconciled) (h : EHost) : ME EngineError Reconciled :=
  let! x := ask (fun g => executor_for g h) in
  match x with
  | None => mret acc
  | Some x =>
      let! caps := ask (fun g => ex_capabilities x (g_world g)) in
      if negb (caps_filesystem caps) then mret acc
      else
        let! dirs := outside (ex_instance_dir_list x h) in
        let! ours := ask (fun g => st_controller (g_store g)) in
        match dirs with
        | Err _ => mret acc
        | Ok dirs => fold_each (reconcile_dir known x h ours) acc dirs
        end
  end.

Definition reconcile : ME EngineError Reconciled :=
  let! rs := instances in
  let! hosts := ask (fun g => map snd (g_hosts g)) in
  fold_each (reconcile_host (known_ids rs)) (mkReconciled [] [] []) hosts.

(** One directory of [orphans]: the armed ones, and another controller's. *)
Definition orphan_dir (known : list string) (x : executor) (h : EHost) (ours : string)
    (acc : list (string * string) * list (string * string)) (d : InstanceDirState)
    : ME EngineError (list (string * string) * list (string * string)) :=
  let here := (eh_name h, ds_instance d) in
  if existsb (fun k => k == ds_instance d) known then mret acc
  else
    let! other := foreign_controller x h (ds_instance d) ours in
    mret match other with
         | Some _ => (fst acc, snd acc ++ [here])
         | None => if ds_armed d && negb (ds_fired d) then (fst acc ++ [here], snd acc) else acc
         end.

Definition orphans : ME EngineError (list (string * string) * list (string * string)) :=
  let! rs := instances in
  let! hosts := ask (fun g => map snd (g_hosts g)) in
  let! ours := ask (fun g => st_controller (g_store g)) in
  fold_each (fun acc h =>
    let! x := ask (fun g => executor_for g h) in
    match x with
    | None => mret acc
    | Some x =>
        let! dirs := outside (ex_instance_dir_list x h) in
        match dirs with
        | Err _ => mret acc
        | Ok dirs => fold_each (orphan_dir (known_ids rs) x h ours) acc dirs
        end
    end) ([], []) hosts.

(** ** Reclaiming *)

Definition entry_presence (h : EHost) (instance : string) : ME EngineError Presence :=
  match eh_scheduler h with
  | None => mret Absent
  | Some name =>
      let! xd := ask (fun g => x ← executor_for g h; d ← scheduler_named g name; Some (x, d)) in
      match xd with
      | None => mret PresenceUnknown
      | Some (x, d) =>
          let! res := outside (sc_present d x h (job_for h instance)) in
          mret match res with Ok p => p | Err _ => PresenceUnknown end
      end
  end.

Definition reclaim_dir (x : executor) (h : EHost) (host_name instance : string) (force : bool) (reason : string)
    : ME EngineError string :=
  do! map_err ErrRuntime (exec (fun e => concats ["reclaiming "; instance; " on "; host_name; ": "; e])
        (ex_instance_dir_remove x h instance)) in
  do! journal_site_event (JReclaimed host_name instance force reason) in
  mret (concats ["reclaimed "; instance; " on "; host_name]).

Definition reclaim (host_name instance : string) (force : bool) (reason : string) : ME EngineError string :=
  let! host := ask (fun g => host_of g host_name) in
  match host with
  | None => mthrow (ErrRuntime (host_name +:+ " is not a host of the site"))
  | Some h =>
      let! x := ask (fun g => executor_for g h) in
      match x with
      | None => mthrow (ErrRuntime ("no transport reaches " +:+ host_name))
      | Some x =>
          let! dirs := map_err ErrRuntime (exec (fun e => concats ["the instance directories on "; host_name; ": "; e])
                         (ex_instance_dir_list x h)) in
          match List.find (fun d => ds_instance d == instance) dirs with
          | None => mthrow (ErrRuntime (concats [host_name; " has no instance directory "; instance]))
          | Some d =>
              do! (if ds_armed d && negb (ds_fired d) then
                     let! present := entry_presence h instance in
                     if negb force then
                       mthrow (ErrRuntime (concats ["R0405: the artifact of "; instance; " on "; host_name;
                         " is armed and its scheduler entry is "; presence_name present;
                         "; reclaim it with --force --reason once the artifact has been read"]))
                     else if trim reason == EmptyString then
                       mthrow (ErrRuntime "R0405: --force needs a --reason")
                     else mret tt
                   else mret tt) in
              let! x' := ask (fun g => executor_for g h) in
              match x' with
              | None => mthrow (ErrRuntime ("no transport reaches " +:+ host_name))
              | Some x' => reclaim_dir x' h host_name instance force reason
              end
          end
      end
  end.
End Backstop.

(** ** Secrets at run time ([engine/src/secrets.rs])

    A secret output is offered to the acceptors in order and its copy dropped as soon as
    one takes it; what an acceptor still holds is dropped when the instance ends, at its
    bound, and at boot. [load_secrets] of [lifecycle.rs] is the other direction. *)

Section Secrets.
Context `{Outside}.

(** The bound a [hold(until: :wane)] resolves to. *)
Definition hold_bound (r : InstanceRecord) : ME string (option Instant) :=
  if negb (i_permanent r) then mret (i_deadline r)
  else match site_max_wait (ir_site (i_ir r)) with
       | Some w => let! at_ := now in mret (Some (instant_plus at_ w))
       | None => mthrow "R0104: hold(until: :wane) on a permanent plan, and the site declares no max_wait"
       end.

(** The loop over the acceptors: the first that takes it, by name. *)
Definition offer (label value : string) (at_ : Instant) (until : option Instant) (c : acceptor)
    : M EngineError (option string) :=
  let! r := get_rec in
  let! name := on_engine (ask (fun g => ac_name c (g_world g))) in
  let! res := on_engine (outside (ac_deliver c (i_id r) label value at_ until)) in
  match res with
  | Ok true => mret (Some name)
  | Ok false => mret None
  | Err e =>
      do! log (JSecretDropped label (concats ["R0302: "; name; ": "; display_exec_error e])) in
      mret None
  end.

Definition deliver_secret (label value : string) : M EngineError bool :=
  let! r := get_rec in
  let! bound := on_engine (attempt (hold_bound r)) in
  match bound with
  | Err why =>
      do! log (JSecretDropped label why) in
      do! update (set_secret_undelivered true) in
      mret false
  | Ok until =>
      let! at_ := on_engine now in
      let! cs := on_engine (ask g_acceptors) in
      let! taken := first_some (offer label value at_ until) cs in
      match taken with
      | Some a => do! log (JSecretRevealed label a) in mret true
      | None =>
          do! log (JSecretUndelivered label) in
          do! update (set_secret_undelivered true) in
          do! persist in
          mret false
      end
  end.

(** [rescind reveal] *)
Definition take_from (r : InstanceRecord) (id : string) (c : acceptor) : ME EngineError (option (string * string)) :=
  let! name := ask (fun g => ac_name c (g_world g)) in
  let! held := outside (ac_take c id) in
  match held with
  | Some (label, value) =>
      do! log_for r (JSecretRevealed label (name +:+ " (revealed)")) in
      mret (Some (label, value))
  | None => mret None
  end.

Definition reveal (id : string) : ME EngineError (option (string * string)) :=
  let! r := load id in
  let! cs := ask g_acceptors in
  first_some (take_from r id) cs.

Definition drop_secrets (reason : string) : M EngineError unit :=
  let! r := get_rec in
  let! cs := on_engine (ask g_acceptors) in
  let! dropped := on_engine (fold_each (fun v c => let! l := outside (ac_drop_for c (i_id r)) in mret (v ++ l)) [] cs) in
  for_each (fun label => log (JSecretDropped label reason)) dropped.

(** [if let Ok(rec) = self.load(..)]: journaled where the instance is still known. *)
Definition log_if_known (instance : string) (ev : JEvent) : ME EngineError unit :=
  let! r := attempt (load instance) in
  match r with
  | Ok r => log_for r ev
  | Err _ => mret tt
  end.

Definition expire_secrets : ME EngineError (list string) :=
  let! at_ := now in
  let! cs := ask g_acceptors in
  let! gone := fold_each (fun v c => let! l := outside (ac_expire c at_) in mret (v ++ l)) [] cs in
  fold_each (fun said il =>
    let '(instance, label) := il in
    do! log_if_known instance (JSecretDropped label "the hold's bound passed") in
    mret (said ++ [concats [instance; ": "; label; " dropped at its bound"]])) [] gone.

Definition drop_secrets_at_boot : ME EngineError N :=
  let! cs := ask g_acceptors in
  let! gone := fold_each (fun v c => let! l := outside (ac_drop_all c) in mret (v ++ l)) [] cs in
  do! for_each (fun '(instance, label) => log_if_known instance (JSecretDropped label "daemon_restart")) gone in
  mret (N.of_nat (length gone)).

(** ** Loading *)

Definition secret_name (x : Ref) : option string := match x with RSecret n => Some n | _ => None end.

(** The references in the order they are met, each once. *)
Definition wanted_secrets (body : list Prim) : list string :=
  nub (flat_map (fun p => filter_map secret_name (prim_refs p)) body).

Definition set_secrets (m : gmap string string) (env : Env) : Env :=
  mkEnv (env_params env) (env_outputs env) (env_controller env) (env_facts env) m.

Definition load_secrets (env : Env) (body : list Prim) : ME string Env :=
  match wanted_secrets body with
  | [] => mret env
  | wanted =>
      let! src := ask g_source in
      match src with
      | None =>
          mthrow (concats ["the plan names secret("; join "), secret(" wanted;
                           ") and the site declares no `secrets from:` binding"])
      | Some s =>
          fold_each (fun env name =>
            let! res := outside (so_resolve s name) in
            match res with
            | Ok v => mret (set_secrets (<[name := v]> (env_secrets env)) env)
            | Err e => mthrow (concats ["secret("; name; "): "; display_exec_error e])
            end) env wanted
      end
  end.
End Secrets.
