(* ===== verification/Revert.v ===== *)
(** * Undoing ([engine/src/lifecycle.rs])

    The undo of one step under its drift policy, the revert of an instance last in first
    out, and the refusals that lead to it. The loop of [revert] takes fuel; one more than
    the number of applied steps is enough ([revert_fuel_enough]). *)

From Stdlib Require Import Ascii.
From stdpp Require Import base strings pretty numbers option sets gmap list relations.
From S2P Require Import Prelude Model Algebra States Ledger Journal EngineJournal Region Resolve Footprint Ordered Utf8.
From S2P Require Import Monad Executor Instance Engine Hosts EngineBackstop.

(** How a step's walk ended. *)
Inductive Flow := Continue | Stop.

(** [UndoReport] *)
Record UndoReport := mkUndoReport { ur_clobbered : list string; ur_held : list string }.

Definition undo_report_default : UndoReport := mkUndoReport [] [].

(** [recant --force=drift] *)
Definition forced_decision (force : bool) (d : Decision) : Decision :=
  if force then
    match d with
    | DDefer => DClobber
    | DDeferForeign => DRestoreWhole
    | other => other
    end
  else d.

Section Revert.
Context `{Outside}.

(** [Executor::run], noted among the acts. *)
Definition run_on (why : Purpose) (x : executor) (h : EHost) (id : string) (body : list RPrim)
    : ME ExecError RunOutput :=
  do! change (fun g => set_acts (g_acts g ++ [mkAct why (eh_name h) id body (g_store g)]) g) in
  let! res := outside (ex_run x h id body) in
  lift res.

Definition file_steps (fs : list (nat * FootprintEntry * string)) : list FootprintEntry :=
  map (fun '(_, e, _) => e) fs.

(** The decision for one fact, as it is now: what the report and the whole restores become. *)
Definition judge_fact (r : InstanceRecord) (h : EHost) (policy : Drift) (markers : list Marker)
    (foreign : string -> bool) (acc : UndoReport * list nat) (f : nat * FootprintEntry * string)
    : ME string (UndoReport * list nat) :=
  let '(k, e, p) := f in
  let '(report, whole) := acc in
  let! bytes := fact_bytes r h (fp_shape e) in
  let current := digest bytes in
  let recorded := mk_digest <$> List.find (fun m => mk_path m == p) markers in
  let changed := match recorded with Some d => d != current | None => false end in
  let region_intact :=
    if fp_kind e == Region
    then Some (intact (match bytes with Some b => from_utf8_lossy b | None => EmptyString end)
                 (match fp_anchor e with Some a => a | None => EmptyString end))
    else None in
  let foreign_here := (fp_kind e == Region) && foreign (fp_shape e) in
  mret match forced_decision (i_force_drift r) (decide_fact (fp_kind e) policy changed region_intact foreign_here) with
       | DUndo => (report, whole)
       | DClobber => (mkUndoReport (ur_clobbered report ++ [fp_shape e]) (ur_held report), whole)
       | DRestoreWhole => (mkUndoReport (ur_clobbered report ++ [fp_shape e]) (ur_held report), whole ++ [k])
       | DDefer | DDeferForeign => (mkUndoReport (ur_clobbered report) (ur_held report ++ [fp_shape e]), whole)
       end.

(** A damaged region restored whole: its strip becomes the snapshot written back. *)
Definition restore_whole (key : string) (footprint : list FootprintEntry) (snapshots : gmap string string)
    (body : list RPrim) (k : nat) : Result (list RPrim) string :=
  match footprint !! k with
  | None => Err EmptyString
  | Some e =>
      match snapshots !! concats [key; "/"; show_nat k] with
      | None => Err (concats ["no snapshot for "; fp_shape e; " to restore whole"])
      | Some s =>
          Ok (map (fun p => match p with
                            | RRegionClear shape _ =>
                                if shape == fp_shape e then RWrite (fp_shape e) (plain s) else p
                            | _ => p
                            end) body)
      end
  end.

Fixpoint restore_wholes (key : string) (footprint : list FootprintEntry) (snapshots : gmap string string)
    (body : list RPrim) (whole : list nat) : Result (list RPrim) string :=
  match whole with
  | [] => Ok body
  | k :: rest =>
      let? body := restore_whole key footprint snapshots body k in
      restore_wholes key footprint snapshots body rest
  end.

(** The body an undo runs, before the whole restores. *)
Definition undo_body (key : string) (o : Op) (snapshots : gmap string string) (h : EHost) (env : Env)
    : Result (list RPrim) string :=
  match op_undo o with
  | NoUndo => Ok []
  | Restore => restore_body key (op_footprint o) snapshots
  | Computed body _ | Compensate body _ =>
      match resolve_body body h env with
      | Ok b => Ok b
      | Err u => Err (display_unbound u)
      end
  end.

(** [undo_step] from the host lock on: every fact judged, then the body run. *)
Definition undo_under_lock (r : InstanceRecord) (at_ : AppliedStep) (o : Op) (h : EHost) (env : Env)
    (x : executor) : ME string UndoReport :=
  let facts := observed_facts (op_footprint o) in
  let policy := match effective_drift o with Some d => d | None => Clobber end in
  let markers := match i_markers r !! applied_key at_ with Some m => m | None => [] end in
  let! foreign := ask (fun g => foreign_region g r h) in
  let! judged := fold_each (judge_fact r h policy markers foreign) (undo_report_default, []) facts in
  let '(report, whole) := judged in
  match ur_held report with
  | _ :: _ => mret report
  | [] =>
      let! body := lift (undo_body (applied_key at_) o (i_snapshots r) h env) in
      let! body := lift (restore_wholes (applied_key at_) (op_footprint o) (i_snapshots r) body whole) in
      do! (match body with
           | [] => mret tt
           | _ => let! _ := map_err display_exec_error (run_on (ForUndo at_) x h (i_id r) body) in mret tt
           end) in
      do! (if existsb (fun d => d == eh_name h) (i_dirs r)
           then let! _ := outside (ex_remove_file x h (i_id r) ("markers/" +:+ show (as_step at_))) in mret tt
           else mret tt) in
      mret report
  end.

(** The guard is dropped when the function returns, whatever it returns. *)
Definition under_host_lock {A} (x : executor) (h : EHost) (m : ME string A) : ME string A :=
  do! exec (fun e => concats ["host lock on "; eh_name h; ": "; e]) (ex_host_lock x h) in
  let! res := attempt m in
  do! outside (fun w => (ex_unlock x h w, tt)) in
  lift res.

Definition undo_step (r : InstanceRecord) (at_ : AppliedStep) (o : Op) : ME string UndoReport :=
  if i_rehearsal r || match op_undo o with NoUndo => true | _ => false end then mret undo_report_default
  else
    let! h := (fun g => (g, step_host g r o)) in
    let env := env_for r (as_vars at_) in
    match concrete_op o h env with
    | Err u => mthrow (concats ["step "; show (as_step at_); ": "; display_unbound u])
    | Ok o =>
        let! x := ask (fun g => executor_for g h) in
        match x with
        | None => mthrow ("no executor reaches " +:+ eh_name h)
        | Some x =>
            if existsb (fun e => fp_kind e == Region) (op_footprint o)
            then under_host_lock x h (undo_under_lock r at_ o h env x)
            else undo_under_lock r at_ o h env x
        end
    end.

(** ** Reverting an instance *)

(** [backstop_disarm], the instance directories, then the record. *)
Definition remove_dir (id name : string) : ME EngineError unit :=
  let! hx := ask (fun g => h ← host_of g name; x ← executor_for g h; Some (h, x)) in
  match hx with
  | Some (h, x) => let! _ := outside (ex_instance_dir_remove x h id) in mret tt
  | None => mret tt
  end.

Definition remove_dirs : M EngineError unit :=
  let! disarmed := backstop_disarm DisarmAll in
  do! (match disarmed with Err why => log (JRefused why) | Ok _ => mret tt end) in
  let! r := get_rec in
  do! on_engine (for_each (remove_dir (i_id r)) (i_dirs r)) in
  do! update (set_dirs []) in
  persist.

(** [v.dedup()] of the applied steps, last first. *)
Definition steps_back (r : InstanceRecord) : list N := dedup (map as_step (rev (i_applied r))).

Definition pop {A} (l : list A) : list A := removelast l.

(** One turn of [revert]'s loop: whether it goes on. *)
Definition revert_turn (a : AppliedStep) : M EngineError bool :=
  let! r := get_rec in
  match op_at r (as_step a) with
  | None =>
      do! update (fun r => set_applied (pop (i_applied r)) r) in
      do! persist in
      mret true
  | Some o =>
      let! undone := on_engine (attempt (undo_step r a o)) in
      match undone with
      | Ok (mkUndoReport _ (f :: held)) =>
          do! update (set_drift_held [as_step a]) in
          do! log (JDriftHeld (as_step a) (f :: held)) in
          do! step EvDriftOnDefer in
          mret false
      | Ok (mkUndoReport clobbered []) =>
          do! (match clobbered with [] => mret tt | _ => log (JDriftClobbered (as_step a) clobbered) end) in
          do! update (fun r => set_markers (delete (applied_key a) (i_markers r)) r) in
          do! update (fun r => set_applied (pop (i_applied r)) r) in
          do! persist in
          mret true
      | Err why =>
          do! update (fun r => set_stuck (steps_back r) r) in
          let! r := get_rec in
          do! log (JStepFailed (as_step a) ("undo: " +:+ why)) in
          do! step EvUndoFailed in
          do! log (JStuck (i_stuck r)) in
          mret false
      end
  end.

(** The loop: whether every applied step was undone; out of fuel is no answer. *)
Fixpoint revert_loop (fuel : nat) : M EngineError (option bool) :=
  match fuel with
  | O => mret None
  | S fuel' =>
      let! r := get_rec in
      match last (i_applied r) with
      | None => mret (Some true)
      | Some a =>
          let! on := revert_turn a in
          if on then revert_loop fuel' else mret (Some false)
      end
  end.

(** What follows a clean undo. *)
Definition close_reverted : M EngineError unit :=
  do! step EvUndoClean in
  do! log JReverted in
  let! r := get_rec in
  let reason := match i_refusal r with Some x => "reverted after refusal: " +:+ x | None => "reverted" end in
  do! update (set_closed_reason (Some reason)) in
  do! log (JClosed reason) in
  do! drop_secrets reason in
  do! release in
  do! remove_dirs in
  persist.

Definition revert : M EngineError unit :=
  let! r := get_rec in
  do! log (JReverting (steps_back r)) in
  do! update (set_stuck []) in
  let! all := revert_loop (S (length (i_applied r))) in
  match all with
  | Some true => close_reverted
  | _ => mret tt
  end.

(** ** Refusing and deferring *)

Definition refuse_applied (n : N) : M EngineError Flow :=
  do! step EvRefuse in
  let! r := get_rec in
  if i_state r == SHeld then
    do! update (set_held_at (Some n)) in
    do! persist in
    do! log (JHeld n) in
    mret Stop
  else
    do! revert in
    mret Stop.

(** A refusal at step [n] before its [do] ran. *)
Definition refuse (n : N) (reason : string) : M EngineError Flow :=
  let why := concats ["step "; show n; ": "; reason] in
  do! update (set_refusal (Some why)) in
  do! log (JRefused why) in
  refuse_applied n.

Definition defer (n iteration : N) (vars : gmap string string) (o : Op) (why : string) : M EngineError Flow :=
  let handoff := match op_handoff_done o with Some h => h | None => "handoff-done " +:+ show n end in
  do! update (set_deferred (Some (mkDeferredAt n handoff iteration vars))) in
  do! step EvDeferAtStep in
  do! log (JDeferred n (concats [handoff; " ("; why; ")"])) in
  mret Stop.

(** ** A step that failed *)

(** Whether every fact of [pre] reads now as it did then; the first that does not ends it. *)
Fixpoint all_untouched (r : InstanceRecord) (h : EHost) (pre : Watched) : ME EngineError bool :=
  match pre with
  | [] => mret true
  | (shape, was) :: rest =>
      let! b := attempt (fact_bytes r h shape) in
      match b with
      | Ok bytes => if digest bytes == was then all_untouched r h rest else mret false
      | Err _ => mret false
      end
  end.

Definition untouched (r : InstanceRecord) (o : Op) (pre : Watched) : ME EngineError bool :=
  let! h := ask (fun g => step_host g r o) in
  match h with
  | Err _ => mret false
  | Ok h => all_untouched r h pre
  end.

Definition left_as_found : string := "its do left every fact of its footprint as it found them".

Definition undo_failed (at_ : AppliedStep) (o : Op) (pre : Watched) : M EngineError unit :=
  do! update (fun r => set_attempting_pre [] (set_attempting None r)) in
  let! r := get_rec in
  let! same := match pre with [] => mret false | _ => on_engine (untouched r o pre) end in
  if same then
    do! log (JUndoSkipped (as_step at_) left_as_found) in
    persist
  else
    let! undone := on_engine (attempt (undo_step r at_ o)) in
    do! (match undone with
         | Err why =>
             do! update (fun r => set_applied (i_applied r ++ [at_]) r) in
             log (JStepFailed (as_step at_) ("undo: " +:+ why))
         | Ok _ => mret tt
         end) in
    persist.

Definition fail_after_do (at_ : AppliedStep) (o : Op) (pre : Watched) (why : string) : M EngineError Flow :=
  do! log (JStepFailed (as_step at_) why) in
  do! update (set_refusal (Some (concats ["step "; show (as_step at_); ": "; why]))) in
  do! undo_failed at_ o pre in
  refuse_applied (as_step at_).
End Revert.
