(* ===== verification/Walk.v ===== *)
(** * Gates and the walk ([engine/src/gates.rs], [lifecycle.rs])

    The host contract frozen at the request and re-derived before the instance acts, the
    digest every proof binds to, and whether a gate is satisfied now. The verbs that take
    a proof are in [Verbs.v], after the walk they continue. Then the walk itself. *)

From Stdlib Require Import Ascii.
From stdpp Require Import base strings pretty numbers option sets gmap list.
From S2P Require Import Prelude Model Algebra Intent States Ledger Canon Journal EngineJournal Request Gates Resolve Ordered Monad Executor Instance Engine Hosts.
From S2P Require Import EngineBackstop Revert Interference Explain Backstop Region Footprint.

#[export] Instance Scope_eq_dec : EqDecision Scope.
Proof. solve_decision. Defined.

(** [gates::unhex]: each pair of characters through [u8::from_str_radix], which also takes a
    leading plus sign. *)
Definition from_radix16 (a b : ascii) : option N :=
  if a == chr 43 then to_digit16 b
  else hi ← to_digit16 a; lo ← to_digit16 b; Some (hi * 16 + lo)%N.

Fixpoint unhex (s : string) : option string :=
  match s with
  | EmptyString => Some EmptyString
  | String a (String b r) => n ← from_radix16 a b; t ← unhex r; Some (String (chr n) t)
  | String _ EmptyString => None
  end.

(** [Some(b) if b.len() == 32] *)
Definition unhex_hash (s : string) : option Hash := b ← unhex s; hash_of_bytes b.

Definition or_zero (h : option Hash) : Hash := match h with Some x => x | None => HASH_ZERO end.

(** [HostContract] *)
Record HostContract := mkHostContract {
  hc_hosts : BMap HostRecord;
  hc_statics : BMap string;
}.

Definition R0301 : string := "R0301: the host contract changed since the request; every proof falls with it".

Section Gates.
Context `{Outside}.

Definition contract_hash (c : HostContract) : Hash := or_zero (hash_contract (hc_hosts c) (hc_statics c)).

Definition touched_hosts (g : Engine) (r : InstanceRecord) : list string :=
  dedup (sort_strings (plan_owner (i_plan r) ::
    filter_map (fun '(n, _) =>
      match op_at r n with
      | Some o => match step_host g r o with Ok h => Some (eh_name h) | Err _ => None end
      | None => None
      end) (numbered (plan_body (i_plan r))))).

Definition contract_hosts (g : Engine) (r : InstanceRecord) : BMap HostRecord :=
  foldl (fun m name => match host_of g name with
                       | Some h => bm_insert name (eh_record h) m
                       | None => m
                       end) [] (touched_hosts g r).

Definition static_probes (p : Plan) : list string := map pd_name (List.filter pd_static (plan_probes p)).

Definition host_contract (r : InstanceRecord) : ME EngineError HostContract :=
  let! hosts := ask (fun g => contract_hosts g r) in
  if i_rehearsal r then mret (mkHostContract hosts [])
  else
    let! owner := attempt (owner_host r) in
    match owner with
    | Err _ => mret (mkHostContract hosts [])
    | Ok owner =>
        let! statics := fold_each (fun m probe =>
          let! o := attempt (observe_raw r owner probe) in
          mret (bm_insert probe (match o with Ok o => ob_text o | Err e => "unmeasured: " +:+ e end) m))
          [] (static_probes (i_plan r)) in
        mret (mkHostContract hosts statics)
    end.

Definition contract_changed (r : InstanceRecord) : ME EngineError (option (Hash * Hash)) :=
  match unhex_hash (i_host_contract r) with
  | None => mret None
  | Some expected =>
      let! c := host_contract r in
      let observed := contract_hash c in
      mret (if observed == expected then None else Some (expected, observed))
  end.

(** The first step not yet applied; the first of all when there is none. *)
Definition next_step (r : InstanceRecord) : N :=
  match List.find (fun n => negb (existsb (fun a => (as_step a =? n)%N) (i_applied r)))
          (map fst (numbered (plan_body (i_plan r)))) with
  | Some n => n
  | None => 1%N
  end.

Definition refuse_on_contract_change : M EngineError bool :=
  let! r := get_rec in
  if i_rehearsal r || (i_host_contract r == EmptyString) then mret false
  else if i_state r == SWaiting then mret false
  else
    let! changed := on_engine (contract_changed r) in
    match changed with
    | None => mret false
    | Some (expected, observed) =>
        do! log (JHostContractChanged expected observed) in
        do! update (set_proofs []) in
        if i_state r == SApplying then
          do! refuse (next_step r) R0301 in
          do! persist in
          mret true
        else
          do! update (set_refusal (Some R0301)) in
          do! step EvHostContractChanged in
          do! log (JRefused R0301) in
          let! r := get_rec in
          do! (if i_state r == SClosed then
                 do! update (set_closed_reason (i_refusal r)) in
                 do! log (JClosed (unwrap_or (i_refusal r) EmptyString)) in
                 release
               else mret tt) in
          do! persist in
          mret true
    end.

(** [Engine::digest_of] *)
Definition request_of (r : InstanceRecord) : Request := {|
  rq_nonce := or_zero (unhex_hash (i_nonce r));
  rq_plan_id := plan_id (i_plan r);
  rq_instance := i_id r;
  rq_owner_host := plan_owner (i_plan r);
  rq_params_hash := or_zero (hash_params (i_params r));
  rq_host_contract_hash := or_zero (unhex_hash (i_host_contract r));
  rq_wane := effective_wane (i_plan r);
  rq_requested_at := unwrap_or (i_requested_at r) 0%N;
  rq_gate_hash := or_zero (hash_gate (plan_gate (i_plan r)));
  rq_plan_content_hash := or_zero (hash_plan (i_plan r));
|}.

Definition scope_digest (r : InstanceRecord) (scope : Scope) : Hash :=
  scoped_digest sha256 (request_digest sha256 (request_of r)) scope.

Definition authenticators : ME EngineError (list Authenticator) :=
  let! a := ask g_approval in
  match a with
  | Some a =>
      let! res := outside (ap_authenticators a) in
      mret match res with Ok l => l | Err _ => [] end
  | None => mret []
  end.

Definition proofs_for (r : InstanceRecord) (scope : Scope) : list string :=
  map pf_authenticator (List.filter (fun p => pf_scope p == scope) (i_proofs r)).

Definition elapsed_since (r : InstanceRecord) : ME EngineError Duration :=
  let! at_ := now in mret (u64_saturating_sub at_ (unwrap_or (i_requested_at r) 0%N)).

Definition opens_all : ME EngineError bool :=
  ask (fun g => match g_approval g with Some a => ap_approves_everything a (g_world g) | None => false end).

Definition gate_satisfied (r : InstanceRecord) (scope : Scope) (gate : GateExpr) : ME EngineError bool :=
  let! auths := authenticators in
  let! elapsed := elapsed_since r in
  let! everything := opens_all in
  mret (if everything then true else satisfied auths gate (proofs_for r scope) elapsed).
End Gates.

(** ** The walk ([engine/src/lifecycle.rs])

    A plan is walked from its start every time, skipping what is applied: guards and
    waits, the write-ahead entry, one step's [do] and what follows it, and the containers
    around the leaves. *)

Section Walk.
Context `{Outside}.

(** ** Waits and guards *)

Definition mark_applied (at_ : AppliedStep) : M EngineError unit :=
  do! update (fun r => set_attempting_pre [] (set_attempting None (set_applied (i_applied r ++ [at_]) r))) in
  persist.

Definition wait (n : N) (reason : string) (guard : option string) (bound : option Duration) : M EngineError Flow :=
  let! at_ := on_engine now in
  do! update (set_waiting (Some (mkWait n reason at_ (instant_plus at_ <$> bound) guard))) in
  do! step EvWaitAtStep in
  do! log (JWaiting n reason) in
  mret Stop.

Definition forces (name : string) (f : ForceName) : bool :=
  match f with
  | FGuard x => x == name
  | FUnknown => true
  | FDrift => false
  end.

(** [None]: the guard passed. *)
Definition guard_blocks_with_bound (n : N) (g : Guard) (force : list ForceName) (bound : option Duration)
    : M EngineError (option Flow) :=
  let! r := get_rec in
  let! owner := on_engine (owner_host r) in
  let! tri := refusable (observe r owner (guard_name g)) in
  match tri with
  | Err e => let! f := refuse n e in mret (Some f)
  | Ok Yes => mret None
  | Ok No => let! f := refuse n (concats ["guard "; guard_name g; " is no"]) in mret (Some f)
  | Ok Unknown =>
      let forced := negb (guard_force_never g) && (plan_mode (i_plan r) == Manual)
                    && (existsb (fun f => f == guard_name g) (i_forced r) || existsb (forces (guard_name g)) force) in
      if forced then mret None
      else let! f := wait n ("unknown guard " +:+ guard_name g) (Some (guard_name g)) bound in mret (Some f)
  end.

Definition site_bound (r : InstanceRecord) : option Duration := site_max_wait (ir_site (i_ir r)).

Definition guard_blocks (n : N) (g : Guard) (force : list ForceName) : M EngineError (option Flow) :=
  let! r := get_rec in guard_blocks_with_bound n g force (site_bound r).

(** [for g in guards { if let Some(flow) = .. { return } }] *)
Definition guards_block (n : N) (gs : list Guard) (force : list ForceName) : M EngineError (option Flow) :=
  first_some (fun g => guard_blocks n g force) gs.

(** [window.or(max_wait)] *)
Definition bound_of (window : option Duration) (r : InstanceRecord) : option Duration :=
  match window with Some w => Some w | None => site_bound r end.

(** ** One step *)

(** After a step's [do]: mark it applied, then its post guards. *)
Definition after_step (at_ : AppliedStep) (o : Op) : M EngineError Flow :=
  do! mark_applied at_ in
  let! r := get_rec in
  if i_rehearsal r then mret Continue
  else
    let! blocked := guards_block (as_step at_) (op_post o) [] in
    match blocked with
    | Some f => mret f
    | None => do! remove_staged (Some (as_step at_)) "step done" in mret Continue
    end.

Definition missing_outputs (o : Op) (out : RunOutput) : list string :=
  map out_name (List.filter (fun x => negb (is_some (ro_outputs out !! out_name x))) (op_outputs o)).

(** A [Stage] primitive of the body, as the record keeps it. *)
Definition staged_of (h : EHost) (n : N) (p : Prim) : option Staged :=
  match p with PStage s => Some (mkStaged (eh_name h) n (stage_name s)) | _ => None end.

(** The declared outputs: what goes to the record, and the secrets. *)
Definition keep_outputs (alias : string) (outs : list Output) (got : gmap string string) (m : gmap string string)
    : gmap string string :=
  foldl (fun m x => match got !! out_name x with
                    | Some v => if out_secret x then m else <[concats [alias; "."; out_name x] := v]> m
                    | None => m
                    end) m outs.

Definition secret_outputs (alias : string) (outs : list Output) (got : gmap string string) : list (string * string) :=
  filter_map (fun x => if out_secret x
                       then (fun v => (concats [alias; "."; out_name x], v)) <$> got !! out_name x
                       else None) outs.

(** A step that failed once its [do] had run, with the journal entry that says how. *)
Definition step_failed (at_ : AppliedStep) (o : Op) (pre : Watched) (ev : JEvent) (why : string) : M EngineError Flow :=
  do! log ev in
  do! update (set_refusal (Some (concats ["step "; show (as_step at_); ": "; why]))) in
  do! undo_failed at_ o pre in
  refuse_applied (as_step at_).

(** The facts and markers after a [do] that succeeded: nothing outside the footprint
    changed, and the step's own facts are recorded. *)
Definition settle_step (s : StepI) (h : EHost) (at_ : AppliedStep) (o : Op) (pre before : Watched) (out : RunOutput)
    : M EngineError Flow :=
  let n := as_step at_ in
  let! r := get_rec in
  let! after := refusable (watched r h at_) in
  match after with
  | Err why => fail_after_do at_ o pre why
  | Ok after =>
      match changed_facts before after with
      | (_ :: _) as changed =>
          step_failed at_ o pre (JFootprintViolation n changed)
            ("R0201: footprint violation: " +:+ join ", " changed)
      | [] =>
          let! marked := write_markers h at_ o in
          match marked with
          | Err why => fail_after_do at_ o pre why
          | Ok _ =>
              let alias := match step_alias s with Some a => a | None => op_id o end in
              do! update (fun r => set_staged (i_staged r ++ filter_map (staged_of h n) (op_do o)) r) in
              do! update (fun r => set_outputs (keep_outputs alias (op_outputs o) (ro_outputs out) (i_outputs r)) r) in
              do! log (JStepDone n) in
              do! for_each (fun lv => let! _ := deliver_secret (fst lv) (snd lv) in mret tt)
                    (secret_outputs alias (op_outputs o) (ro_outputs out)) in
              after_step at_ o
          end
      end
  end.

(** [do] on the host, and what its result means. *)
Definition run_do (s : StepI) (h : EHost) (at_ : AppliedStep) (o : Op) (pre before : Watched) (body : list RPrim)
    : M EngineError Flow :=
  let n := as_step at_ in
  let! r := get_rec in
  let! x := on_engine (ask (fun g => executor_for g h)) in
  match x with
  | None => mthrow (ErrInternal "executor vanished")
  | Some x =>
      let! result := on_engine (attempt (run_on (ForDo at_) x h (i_id r) body)) in
      match result with
      | Err e =>
          let why := display_exec_error e in
          step_failed at_ o pre (JStepFailed n why) why
      | Ok out =>
          match missing_outputs o out with
          | (_ :: _) as missing =>
              let why := "silent: no output for " +:+ join ", " missing in
              step_failed at_ o pre (JStepFailed n why) why
          | [] => settle_step s h at_ o pre before out
          end
      end
  end.

(** From the write-ahead on: the entry, the record, the directory, the snapshots, [do]. *)
Definition attempt_step (n iteration : N) (s : StepI) (vars : gmap string string) (h : EHost) : M EngineError Flow :=
  let o := step_op s in
  let at_ := mkApplied n iteration vars in
  do! log (JApplying n (undo_line o)) in
  do! update (set_attempting (Some at_)) in
  do! persist in
  let! r := get_rec in
  if i_rehearsal r then do! log (JStepDone n) in after_step at_ o
  else
    let! dir := ensure_instance_dir h in
    match dir with
    | Err why => refuse n why
    | Ok _ =>
        let! r := get_rec in
        let env := env_for r vars in
        match concrete_op o h env with
        | Err u => refuse n (concats ["step "; show n; ": "; display_unbound u])
        | Ok o =>
            let! taken := snapshot at_ o h in
            let! taken := match taken with
                          | Ok pre =>
                              let! r := get_rec in
                              let! before := refusable (watched r h at_) in
                              mret match before with Ok b => Ok (pre, b) | Err why => Err why end
                          | Err why => mret (Err why)
                          end in
            match taken with
            | Err why =>
                do! update (fun r => set_attempting_pre [] (set_attempting None r)) in
                refuse n why
            | Ok (pre, before) =>
                let! loaded := refusable (load_secrets env (op_do o)) in
                match loaded with
                | Err why => refuse n why
                | Ok env =>
                    match resolve_body (op_do o) h env with
                    | Err u => refuse n (concats ["step "; show n; ": "; display_unbound u])
                    | Ok body => run_do s h at_ o pre before body
                    end
                end
            end
        end
    end.

(** The cost of a knell, as it is put to the person who acknowledges it. *)
Definition cost_text (r : InstanceRecord) (c : Cost) : ME EngineError (Result string string) :=
  match c with
  | CostProbe p =>
      if i_rehearsal r then mret (Ok p)
      else
        let! owner := owner_host r in
        let! text := attempt (observe_text r owner p) in
        mret match text with
             | Ok t => Ok (concats [p; ": "; trim t])
             | Err e => Err e
             end
  | NoCost _ => mret (Ok "none")
  end.

Definition unmeasured_cost (n : N) (e : string) : string :=
  concats ["the cost of step "; show n; ", a point of no return, could not be measured ("; e;
           "); a knell is not acknowledged blind"].

(** What stands between a knell and its [do]: its guard, and an acknowledgement. *)
Definition knell_blocks (n : N) (s : StepI) : M EngineError (option Flow) :=
  match op_refusal (step_op s) with
  | RKnell guard cost ack =>
      let! blocked := match guard with Some g => guard_blocks n g (step_force s) | None => mret None end in
      match blocked, ack with
      | Some f, _ => mret (Some f)
      | None, NoAck _ => mret None
      | None, AckGate _ =>
          let! r := get_rec in
          let! text := on_engine (cost_text r cost) in
          match text with
          | Err e => let! f := refuse n (unmeasured_cost n e) in mret (Some f)
          | Ok text =>
              if existsb (fun k => (k =? n)%N) (i_acks r) then
                do! log (JKnellAcknowledged n text (ir_requester (i_ir r))) in
                mret None
              else
                do! log (JAckRequested n text) in
                let! f := wait n "ack" None (bound_of (step_window s) r) in
                mret (Some f)
          end
      end
  | _ => mret None
  end.

(** A step gate: satisfied, or the instance waits. *)
Definition gate_blocks (n : N) (s : StepI) : M EngineError (option Flow) :=
  let! r := get_rec in
  match step_gate s with
  | None => mret None
  | Some g =>
      if i_rehearsal r then mret None
      else
        let! open := on_engine (gate_satisfied r (ScopeStep n) g) in
        if open then mret None
        else
          do! log (JStepGateRequested n (scope_digest r (ScopeStep n))) in
          let! f := wait n "gate" None (bound_of (step_window s) r) in
          mret (Some f)
  end.

Definition no_filesystem (h : EHost) : string :=
  concats ["R0408: a :target undo on "; eh_name h; ", whose executor reports no filesystem"].

(** Where the step acts, or how it was refused or deferred. *)
Definition place_step (n iteration : N) (o : Op) (vars : gmap string string) : M EngineError (EHost + Flow) :=
  let! r := get_rec in
  let! host := on_engine (ask (fun g => step_host g r o)) in
  match host with
  | Err from => let! f := defer n iteration vars o from in mret (inr f)
  | Ok h =>
      let! x := on_engine (ask (fun g => executor_for g h)) in
      if negb (i_rehearsal r) && negb (eh_name h == "controller") && negb (is_some x) then
        let! f := defer n iteration vars o ("no transport reaches " +:+ eh_name h) in mret (inr f)
      else
        let! caps := on_engine (ask (fun g => caps_of g h)) in
        if (op_undo_locus o == ULTarget) && negb (caps_filesystem caps) && negb (i_rehearsal r) then
          let! f := refuse n (no_filesystem h) in mret (inr f)
        else mret (inl h)
  end.

Definition run_step (n iteration : N) (s : StepI) (knell : bool) (vars : gmap string string) : M EngineError Flow :=
  let! placed := place_step n iteration (step_op s) vars in
  match placed with
  | inr f => mret f
  | inl h =>
      let! gated := gate_blocks n s in
      match gated with
      | Some f => mret f
      | None =>
          let! blocked := guards_block n (op_pre (step_op s)) (step_force s) in
          match blocked with
          | Some f => mret f
          | None =>
              let! blocked := if knell then knell_blocks n s else mret None in
              match blocked with
              | Some f => mret f
              | None => attempt_step n iteration s vars h
              end
          end
      end
  end.

(** ** One leaf *)

Definition backstop_or_refuse (n : N) (m : M EngineError (Result unit string)) : M EngineError (option Flow) :=
  let! res := m in
  match res with
  | Err why => let! f := refuse n why in mret (Some f)
  | Ok _ => mret None
  end.

Definition backstop_before_leaf (n : N) : M EngineError (option Flow) :=
  let! r := get_rec in
  match coverage (i_plan r) with
  | None => mret None
  | Some cov =>
      match covered cov with
      | [] => mret None
      | _ =>
          let! refused := match installed_before cov with
                          | Some first => if (first <=? n)%N then backstop_or_refuse n backstop_install else mret None
                          | None => mret None
                          end in
          match refused with
          | Some f => mret (Some f)
          | None => if (armed_before_step cov <=? n)%N then backstop_or_refuse n backstop_arm else mret None
          end
      end
  end.

Definition backstop_after_walk : M EngineError Flow :=
  let! r := get_rec in
  match coverage (i_plan r) with
  | None => mret Continue
  | Some cov =>
      match covered cov with
      | [] => mret Continue
      | _ =>
          if armed r then mret Continue
          else
            let n := armed_before_step cov in
            let! refused := backstop_or_refuse n backstop_install in
            match refused with
            | Some f => mret f
            | None =>
                let! refused := backstop_or_refuse n backstop_arm in
                mret match refused with Some f => f | None => Continue end
            end
      end
  end.

Definition commit_item : string := "commit() item".

Definition run_leaf (n iteration : N) (it : Item) (vars : gmap string string) : M EngineError Flow :=
  let at_ := mkApplied n iteration vars in
  let! early := backstop_before_leaf n in
  match early with
  | Some f => mret f
  | None =>
      match it with
      | Step s => run_step n iteration s false vars
      | Knell s => run_step n iteration s true vars
      | Confirm =>
          do! step EvConfirm in
          let! disarmed := backstop_disarm DisarmConfirmed in
          match disarmed with
          | Err why => refuse n why
          | Ok _ => do! log JConfirmed in do! mark_applied at_ in mret Continue
          end
      | Commit =>
          do! step EvCommitItem in
          let! r := get_rec in
          do! log (JCommitted (ir_requester (i_ir r)) commit_item) in
          do! release in
          do! remove_dirs in
          do! persist in
          mret Stop
      | Observe probe alias =>
          let! r := get_rec in
          let! owner := on_engine (owner_host r) in
          let! text := refusable (observe_text r owner probe) in
          match text with
          | Ok t =>
              do! update (fun r => set_outputs (<[alias := t]> (i_outputs r)) r) in
              do! mark_applied at_ in
              mret Continue
          | Err e => refuse n e
          end
      | Preflight guards =>
          let! blocked := guards_block n guards [] in
          match blocked with
          | Some f => mret f
          | None => do! mark_applied at_ in mret Continue
          end
      | Assert guard window _ =>
          let! r := get_rec in
          let! blocked := guard_blocks_with_bound n guard [] (bound_of window r) in
          match blocked with
          | Some f => mret f
          | None => do! mark_applied at_ in mret Continue
          end
      | Slot name => mthrow (ErrInternal (concats ["slot "; name; " reached the engine unfilled"]))
      | Par _ | Repeat _ _ _ | When _ _ _ _ _ => mthrow (ErrInternal "a container reached run_leaf")
      end
  end.

(** ** The containers *)

(** [leaf_count] of [lifecycle.rs] *)
Definition count_leaves (items : list Item) : N := N.of_nat (length (numbered items)).

(** [text.split(c)] *)
Fixpoint split_on (c : ascii) (s : string) : list string :=
  match s with
  | EmptyString => [EmptyString]
  | String d r =>
      match split_on c r with
      | [] => []
      | t :: ts => if d == c then EmptyString :: t :: ts else String d t :: ts
      end
  end.

Definition list_items (text : string) : list string :=
  List.filter (fun s => negb (s == EmptyString)) (map trim (split_on (chr 44) text)).

Definition list_value (r : InstanceRecord) (list_expr : string) (vars : gmap string string)
    : ME EngineError (list string) :=
  match or_else (vars !! list_expr) (or_else (i_params r !! list_expr) (i_outputs r !! list_expr)) with
  | Some text => mret (list_items text)
  | None =>
      let! owner := owner_host r in
      let! text := map_err (fun e => ErrInternal (concats ["repeat over "; list_expr; ": "; e]))
                     (observe_text r owner list_expr) in
      mret (list_items text)
  end.

Definition repeat_values (form : RepeatForm) (vars : gmap string string) : M EngineError (list string) :=
  match form with
  | Count n => mret (map show_nat (seq 0 (N.to_nat n)))
  | Over list_expr _ _ => let! r := get_rec in on_engine (list_value r list_expr vars)
  end.

Definition choice_key (leaf : N) : string := "w" +:+ show leaf.

(** The arm of a [when]: the one chosen before, or the guard's answer, persisted; a guard
    that cannot be observed refuses. *)
Definition choose_arm (g : Guard) (leaf : N) : M EngineError (bool + Flow) :=
  let! r := get_rec in
  match i_choices r !! choice_key leaf with
  | Some c => mret (inl c)
  | None =>
      let! owner := on_engine (owner_host r) in
      let! tri := refusable (observe r owner (guard_name g)) in
      match tri with
      | Err e => let! f := refuse leaf (concats ["when guard "; guard_name g; ": "; e]) in mret (inr f)
      | Ok t =>
          let c := match t with Yes => true | No => false | Unknown => guard_value g == Yes end in
          do! update (fun r => set_choices (<[choice_key leaf := c]> (i_choices r)) r) in
          do! persist in
          mret (inl c)
      end
  end.

(** The loop over a list of items; [f] walks one from a leaf number to the next. *)
Definition walk_seq (f : Item -> N -> M EngineError (Flow * N)) : list Item -> N -> M EngineError (Flow * N) :=
  fix go (items : list Item) (leaf : N) :=
    match items with
    | [] => mret (Continue, leaf)
    | it :: rest =>
        let! p := f it leaf in
        match fst p with
        | Stop => mret (Stop, snd p)
        | Continue => go rest (snd p)
        end
    end.

(** The iterations of a repeat. *)
Fixpoint walk_values (body : N -> gmap string string -> M EngineError (Flow * N)) (var : string)
    (vars : gmap string string) (i : N) (values : list string) : M EngineError Flow :=
  match values with
  | [] => mret Continue
  | v :: rest =>
      let! p := body i (<[var := v]> vars) in
      match fst p with
      | Stop => mret Stop
      | Continue => walk_values body var vars (i + 1)%N rest
      end
  end.

(** A leaf that is applied is skipped. *)
Definition walk_leaf (n iteration : N) (it : Item) (vars : gmap string string) : M EngineError Flow :=
  let! r := get_rec in
  if is_applied r n iteration vars then mret Continue else run_leaf n iteration it vars.

Fixpoint walk_item (it : Item) (iteration : N) (vars : gmap string string) (leaf : N) : M EngineError (Flow * N) :=
  match it with
  | Par children => walk_seq (fun c => walk_item c iteration vars) children leaf
  | Repeat form var body =>
      let! values := repeat_values form vars in
      let! flow := walk_values (fun i inner => walk_seq (fun c => walk_item c i inner) body leaf) var vars 0 values in
      mret (flow, (leaf + count_leaves body)%N)
  | When guard _ _ then_ else_ =>
      let! chosen := choose_arm guard leaf in
      match chosen with
      | inr f => mret (f, leaf)
      | inl true =>
          let! p := walk_seq (fun c => walk_item c iteration vars) then_ leaf in
          mret (fst p, (snd p + count_leaves else_)%N)
      | inl false => walk_seq (fun c => walk_item c iteration vars) else_ (leaf + count_leaves then_)%N
      end
  | _ => let! flow := walk_leaf leaf iteration it vars in mret (flow, (leaf + 1)%N)
  end.

Definition walk_items (items : list Item) (iteration : N) (vars : gmap string string) (leaf : N)
    : M EngineError (Flow * N) := walk_seq (fun c => walk_item c iteration vars) items leaf.

Definition is_continue (f : Flow) : bool := match f with Continue => true | Stop => false end.

(** [if Continue && rec.state == Applying] *)
Definition still_applying (f : Flow) : M EngineError bool :=
  let! r := get_rec in mret (is_continue f && (i_state r == SApplying)).

Definition walk : M EngineError unit :=
  let! r := get_rec in
  if i_state r != SApplying then mret tt
  else
    let! refused := refuse_on_contract_change in
    if refused then mret tt
    else
      let! p := walk_items (plan_body (i_plan r)) 0 ∅ 1 in
      let! on := still_applying (fst p) in
      let! flow := if on then backstop_after_walk else mret (fst p) in
      let! on := still_applying flow in
      if on then do! step EvAllStepsDone in log JApplied
      else mret tt.
End Walk.
