(* ===== verification/Verbs.v ===== *)
(** * The verbs ([engine/src/lifecycle.rs], [engine/src/gates.rs])

    Applying a plan, the operator's verbs on an instance, and the proofs and
    acknowledgements that open its gates. A verb loads the record, works on it and reports
    the state it reached. *)

From Stdlib Require Import Ascii.
From stdpp Require Import base strings pretty numbers option sets gmap list.
From S2P Require Import Prelude Model Algebra Interference Intent States Ledger Gates Verdict Check Journal EngineJournal.
From S2P Require Import Resolve Footprint Ordered.
From S2P Require Import Monad Executor Instance Engine Hosts EngineBackstop Revert Walk.

(** [umbras]: what each host's steps write or may write, by host. *)
Definition umbra_add (m : BMap (list Fact)) (l : Leaf) : BMap (list Fact) :=
  bm_insert (l_host l)
    (match bm_get (l_host l) m with Some fs => fs | None => [] end ++ writes (l_op l) ++ maywrite (l_op l)) m.

Definition umbras (p : Plan) : BMap (list Fact) := foldl umbra_add [] (step_facts (plan_owner p) (plan_body p)).

Definition set_plan_mode (m : Mode) (p : Plan) : Plan := {|
  plan_id := plan_id p; plan_owner := plan_owner p; plan_gate := plan_gate p; plan_wane := plan_wane p;
  plan_renew_within := plan_renew_within p; plan_backstop := plan_backstop p;
  plan_fires_by_construction := plan_fires_by_construction p; plan_strictness := plan_strictness p; plan_mode := m;
  plan_exclusivity := plan_exclusivity p; plan_require_journal := plan_require_journal p; plan_body := plan_body p;
  plan_probes := plan_probes p;
|}.

Definition with_mode (opts : ApplyOptions) (ir : PlanIr) : PlanIr :=
  match ao_mode opts with
  | Some m => mkPlanIr (ir_version ir) (ir_requester ir) (ir_site ir) (set_plan_mode m (ir_plan ir))
  | None => ir
  end.

(** Every host's umbra requested of the ledger, in order; the ids of the reservations. *)
Fixpoint reserve (l : Ledger) (id : string) (exclusivity : option string) (rehearsal : bool)
    (us : BMap (list Fact)) : Result (Ledger * list string) (LedgerCode * string) :=
  match us with
  | [] => Ok (l, [])
  | (host, umbra) :: rest =>
      let lid := concats [id; "@"; host] in
      let? l' := Ledger.request l (mkInstance lid host umbra exclusivity rehearsal) in
      let? out := reserve l' id exclusivity rehearsal rest in
      Ok (fst out, if rehearsal then snd out else lid :: snd out)
  end.

Section Verbs.
Context `{Outside}.

(** ** Applying *)

Definition approve : M EngineError unit :=
  let! refused := refuse_on_contract_change in
  if refused then mret tt
  else
    let! at_ := on_engine now in
    do! update (set_approved_at (Some at_)) in
    do! update (fun r => if i_permanent r then r
                         else set_deadline ((fun w => instant_plus at_ w) <$> effective_wane (i_plan r)) r) in
    do! step EvApprove in
    let! r := get_rec in
    log (JApproved (i_rehearsal r)).

(** From [Checked]: the reservations, the frozen contract, the plan gate. *)
Definition request_instance (at_ : Instant) : M EngineError bool :=
  let! r := get_rec in
  let! l := on_engine (ask g_ledger) in
  match reserve l (i_id r) (plan_exclusivity (i_plan r)) (i_rehearsal r) (umbras (i_plan r)) with
  | Err (c, m) => mthrow (ErrLedger c m)
  | Ok (l', ids) =>
      do! update (fun r => set_ledger_ids (i_ledger_ids r ++ ids) r) in
      do! on_engine (change (set_ledger l')) in
      do! on_engine write_ledger in
      do! update (set_requested_at (Some at_)) in
      let! r := get_rec in
      do! (if i_rehearsal r then mret tt
           else let! c := on_engine (host_contract r) in
                update (set_host_contract (to_hex (contract_hash c)))) in
      do! step EvRequest in
      do! log JRequested in
      let! r := get_rec in
      match plan_gate (i_plan r) with
      | None => mret true
      | Some g =>
          if i_rehearsal r then mret true
          else on_engine (gate_satisfied r ScopePlan (pg_expr g))
      end
  end.

(** The window of the plan's gate, or the site's bound. *)
Definition approval_window (r : InstanceRecord) : option Duration :=
  match (g ← plan_gate (i_plan r); pg_window g) with
  | Some w => Some w
  | None => site_bound r
  end.

Definition report : M EngineError Report := let! r := get_rec in mret (outcome r).

Definition apply_record (at_ : Instant) : M EngineError Report :=
  do! step EvCheck in
  do! log JChecked in
  let! open := request_instance at_ in
  if open then
    do! approve in
    do! persist in
    do! walk in
    report
  else
    do! update (fun r => set_approval_deadline ((fun w => instant_plus at_ w) <$> approval_window r) r) in
    do! persist in
    report.

(** The verdict's status decides; an id held by a live instance is R0101. *)
Definition apply (ir : PlanIr) (params : gmap string string) (opts : ApplyOptions) : ME EngineError Report :=
  let ir := with_mode opts ir in
  let verdict := check (ir_site ir) (ir_requester ir) (ir_plan ir) in
  if v_status verdict != StatusOk then mthrow (ErrRefused verdict)
  else
    let id := instance_id ir params (ao_rehearsal opts) in
    let! at_ := now in
    let! nonce := outside draw_nonce in
    let r := blank_record nonce ir params opts in
    do! (if ao_rehearsal opts then mret tt
         else
           let! existing := map_err ErrStore (read_instance id) in
           match existing with
           | Some x =>
               if terminal (i_state x) then mret tt
               else mthrow (ErrLedger R0101 (concats ["instance "; id; " is already "; state_name (i_state x)]))
           | None => mret tt
           end) in
    let! out := with_record r (apply_record at_) in
    mret (fst out).

(** ** Verbs on an instance *)

(** [let mut rec = self.load(id)?; ..; Ok(self.outcome(&rec))] *)
Definition verb (id : string) (m : M EngineError unit) : ME EngineError Report :=
  let! r := load id in
  let! out := with_record r (do! m in report) in
  mret (fst out).

Definition advance (id : string) : ME EngineError Report := verb id walk.

Definition forces_drift (f : ForceName) : bool := match f with FDrift => true | _ => false end.

Definition forced_guards (force : list ForceName) : list string :=
  filter_map (fun f => match f with FGuard g => Some g | _ => None end) force.

Definition recant_record (force : list ForceName) : M EngineError unit :=
  let! r := get_rec in
  do! (if (i_state r == SDriftHeld) && existsb forces_drift force then
         do! step EvForceDrift in
         update (fun r => set_drift_held [] (set_force_drift true r))
       else do! step EvRecant in mret tt) in
  do! update (fun r => set_forced (i_forced r ++ forced_guards force) r) in
  do! log JRecant in
  revert.

Definition recant (id : string) (force : list ForceName) : ME EngineError Report := verb id (recant_record force).

Definition renew_record (wane : Duration) : M EngineError unit :=
  do! step EvRenew in
  let! r := get_rec in
  match i_deadline r, plan_renew_within (i_plan r) with
  | None, _ => mthrow (ErrInternal "a temporary plan with no deadline")
  | Some _, None => mthrow (ErrNotAdmitted R0102 "the plan declares no renew_within")
  | Some deadline, Some within =>
      let! at_ := on_engine now in
      match States.renew at_ deadline within wane with
      | Ok d =>
          let! rearmed := backstop_rearm d in
          match rearmed with
          | Err why => do! log (JRefused why) in mthrow (ErrRuntime why)
          | Ok _ =>
              do! update (set_deadline (Some d)) in
              do! log JRenewed in
              persist
          end
      | Err RenewExpired =>
          mthrow (ErrNotAdmitted R0102 "the plan has expired; an expired plan is never renewed")
      | Err (OutsideWindow until) => mthrow (ErrNotAdmitted R0102 ("renewal opens at " +:+ show until))
      end
  end.

Definition renew (id : string) (wane : Duration) : ME EngineError Report := verb id (renew_record wane).

Definition confirm_record : M EngineError unit :=
  do! step EvConfirm in
  let! disarmed := backstop_disarm DisarmConfirmed in
  match disarmed with
  | Err why => mthrow (ErrRuntime why)
  | Ok _ => do! log JConfirmed in persist
  end.

Definition confirm (id : string) : ME EngineError Report := verb id confirm_record.

Definition commit_record (by_ reason : string) : M EngineError unit :=
  do! step EvCommitVerb in
  do! log (JCommitted by_ reason) in
  do! release in
  do! remove_dirs in
  persist.

Definition commit (id by_ reason : string) : ME EngineError Report := verb id (commit_record by_ reason).

Definition resume_record (by_ : string) : M EngineError unit :=
  let! r := get_rec in
  let n := unwrap_or (i_held_at r) 0%N in
  do! step EvResume in
  do! update (set_held_at None) in
  do! log (JResumed n by_) in
  walk.

Definition resume (id by_ : string) : ME EngineError Report := verb id (resume_record by_).

Definition handoff_done_record (n : N) (by_ : string) : M EngineError unit :=
  let! r := get_rec in
  match i_deferred r with
  | Some d =>
      if (df_step d =? n)%N then
        do! step EvHandoffDone in
        do! update (fun r => set_applied (i_applied r ++ [mkApplied n (df_iteration d) (df_vars d)]) (set_deferred None r)) in
        do! log (JHandoffDone n by_) in
        do! persist in
        walk
      else mthrow (ErrWrongState (i_state r) ("handoff-done " +:+ show n))
  | None => mthrow (ErrWrongState (i_state r) ("handoff-done " +:+ show n))
  end.

Definition handoff_done (id : string) (n : N) (by_ : string) : ME EngineError Report :=
  verb id (handoff_done_record n by_).

Definition abandon_record (by_ reason : string) : M EngineError unit :=
  do! step EvAbandon in
  let! r := get_rec in
  let not_reverted := map as_step (i_applied r) in
  let! left_armed := if installed r then
                       let! disarmed := backstop_disarm DisarmAll in
                       mret match disarmed with Err why => [why] | Ok _ => [] end
                     else mret [] in
  do! log (JAbandoned not_reverted left_armed by_ reason) in
  let why := concats ["abandoned by "; by_; ": "; reason] in
  do! update (set_closed_reason (Some why)) in
  do! drop_secrets "abandoned" in
  do! log (JClosed why) in
  do! release in
  persist.

Definition abandon (id by_ reason : string) : ME EngineError Report := verb id (abandon_record by_ reason).

Definition cancel_record : M EngineError unit :=
  do! step EvCancel in
  do! log JCancelled in
  do! drop_secrets "cancelled" in
  do! update (set_closed_reason (Some "cancelled")) in
  do! log (JClosed "cancelled") in
  do! release in
  persist.

Definition cancel (id : string) : ME EngineError Report := verb id cancel_record.

(** ** Proofs and acknowledgements ([gates.rs]) *)

Definition no_approval : string := "the site declares no approval binding".

Definition binding_failed (e : string) : EngineError := ErrRuntime ("R0302: the approval binding: " +:+ e).

Definition challenge (id : string) (scope : Scope) (context : string) : ME EngineError string :=
  let! r := load id in
  let q := mkProofRequest (i_id r) (scope_digest r scope) scope context EmptyString EmptyString in
  let! a := ask g_approval in
  match a with
  | Some a => map_err binding_failed (exec (fun e => e) (ap_challenge a q))
  | None => mthrow (ErrRuntime no_approval)
  end.

Definition scope_gate_name (scope : Scope) : string :=
  match scope with
  | ScopePlan => "plan"
  | ScopeStep n => "step " +:+ show n
  | ScopeAck n => "ack " +:+ show n
  end.

(** A proof may be the one that opens a gate. *)
Definition after_proof (scope : Scope) : M EngineError unit :=
  let! r := get_rec in
  match scope with
  | ScopePlan =>
      if i_state r == SPending then
        match plan_gate (i_plan r) with
        | Some g =>
            let! open := on_engine (gate_satisfied r ScopePlan (pg_expr g)) in
            if open then do! approve in do! persist in walk else mret tt
        | None => mret tt
        end
      else mret tt
  | ScopeStep n =>
      if i_state r == SWaiting then
        match (s ← step_at r n; step_gate s) with
        | Some g =>
            let! open := on_engine (gate_satisfied r (ScopeStep n) g) in
            if open then
              do! step EvWaitSatisfied in
              do! update (set_waiting None) in
              do! log (JStepGateSatisfied n) in
              do! persist in
              walk
            else mret tt
        | None => mret tt
        end
      else mret tt
  | ScopeAck _ => mret tt
  end.

Definition not_accepted (what authenticator reason : string) : EngineError :=
  ErrRuntime (concats ["the "; what; " from "; authenticator; " was not accepted: "; reason]).

Definition same_proof (scope : Scope) (authenticator : string) (p : AcceptedProof) : bool :=
  (pf_scope p == scope) && (pf_authenticator p == authenticator).

(** What the binding says of a proof; [None] is a site with no binding. *)
Definition verify_proof (q : ProofRequest) : ME EngineError (option Verified) :=
  let! a := ask g_approval in
  match a with
  | Some a => let! v := map_err binding_failed (exec (fun e => e) (ap_verify a q)) in mret (Some v)
  | None => mret None
  end.

Definition approve_proof_record (scope : Scope) (authenticator proof submitter : string) : M EngineError unit :=
  let! refused := refuse_on_contract_change in
  if refused then mret tt
  else
    let! r := get_rec in
    let q := mkProofRequest (i_id r) (scope_digest r scope) scope EmptyString authenticator proof in
    let! verdict := on_engine (verify_proof q) in
    match verdict with
    | None => mthrow (ErrRuntime no_approval)
    | Some v =>
        if negb (vf_verified v) then
          do! log (JDenied (scope_gate_name scope) (vf_reason v)) in
          mthrow (not_accepted "proof" authenticator (vf_reason v))
        else
          let! at_ := on_engine now in
          do! update (fun r => if existsb (same_proof scope authenticator) (i_proofs r) then r
                               else set_proofs (i_proofs r ++ [mkProof scope authenticator submitter at_]) r) in
          do! log (JProofAccepted scope authenticator submitter) in
          do! persist in
          after_proof scope
    end.

Definition approve_proof (id : string) (scope : Scope) (authenticator proof submitter : string) : ME EngineError Report :=
  verb id (approve_proof_record scope authenticator proof submitter).

(** The gate a knell's acknowledgement must open. *)
Definition ack_gate (r : InstanceRecord) (n : N) : option GateExpr :=
  s ← step_at r n;
  match op_refusal (step_op s) with
  | RKnell _ _ (AckGate g) => Some g
  | _ => None
  end.

Definition ack_cost (r : InstanceRecord) (n : N) : string :=
  match (fun s => op_refusal (step_op s)) <$> step_at r n with
  | Some (RKnell _ (CostProbe p) _) => p
  | _ => "none"
  end.

Definition keep_proof (scope : Scope) (authenticator submitter : string) : M EngineError unit :=
  let! at_ := on_engine now in
  update (fun r => set_proofs (i_proofs r ++ [mkProof scope authenticator submitter at_]) r).

(** The proof of an acknowledgement: verified and enough ([true]), or verified, recorded
    and not yet enough ([false]). *)
Definition ack_opens (n : N) (g : GateExpr) (reason proof authenticator submitter : string) : M EngineError bool :=
  let! r := get_rec in
  let q := mkProofRequest (i_id r) (scope_digest r (ScopeAck n)) (ScopeAck n) reason authenticator proof in
  let! verdict := on_engine (verify_proof q) in
  let v := match verdict with Some v => v | None => mkVerified false no_approval end in
  if negb (vf_verified v) then
    do! log (JDenied ("ack " +:+ show n) (vf_reason v)) in
    mthrow (not_accepted "acknowledgement" authenticator (vf_reason v))
  else
    let proofs := proofs_for r (ScopeAck n) ++ [authenticator] in
    let! auths := on_engine authenticators in
    let! elapsed := on_engine (elapsed_since r) in
    let! everything := on_engine opens_all in
    if everything || satisfied auths g proofs elapsed then mret true
    else
      do! keep_proof (ScopeAck n) authenticator submitter in
      do! log (JProofAccepted (ScopeAck n) authenticator submitter) in
      do! persist in
      mret false.

Definition ack_record (n : N) (reason proof authenticator submitter : string) : M EngineError unit :=
  if trim reason == EmptyString then mthrow (ErrRuntime "an acknowledgement needs a reason")
  else
    let! r := get_rec in
    let! opened := match ack_gate r n with
                   | Some g => ack_opens n g reason proof authenticator submitter
                   | None => mret true
                   end in
    if negb opened then mret tt
    else
      do! update (fun r => if existsb (fun k => (k =? n)%N) (i_acks r) then r else set_acks (i_acks r ++ [n]) r) in
      do! keep_proof (ScopeAck n) authenticator submitter in
      do! log (JKnellAcknowledged n (ack_cost r n) (concats [authenticator; ": "; reason])) in
      do! persist in
      let! r := get_rec in
      if (i_state r == SWaiting) && ((fun w => (w_step w, w_reason w)) <$> i_waiting r == Some (n, "ack")) then
        do! step EvWaitSatisfied in
        do! update (set_waiting None) in
        do! persist in
        walk
      else mret tt.

Definition ack (id : string) (n : N) (reason proof authenticator submitter : string) : ME EngineError Report :=
  verb id (ack_record n reason proof authenticator submitter).
End Verbs.
