(* ===== verification/Reap.v ===== *)
(** * The reap pass and boot recovery ([engine/src/lifecycle.rs])

    What the passing of time does to the instances, and what a restarted engine does with
    what it finds: an instance left applying is demoted and reverted, the step in flight
    with it. *)

From Stdlib Require Import Ascii.
From stdpp Require Import base strings pretty numbers option sets gmap list.
From S2P Require Import Prelude Model Algebra Intent States Ledger Journal EngineJournal Resolve Footprint Ordered.
From S2P Require Import Monad Executor Instance Engine Hosts EngineBackstop Revert Walk Verbs.

Record ReapReport := mkReapReport {
  rp_actions : list string;
  rp_notify : list (string * State);
  rp_settling : bool;
}.

(** What the pass says of one instance. *)
Record Reaped := mkReaped { rd_actions : list string; rd_notify : list (string * State) }.

Definition reaped_nothing : Reaped := mkReaped [] [].

(** [report.actions.push(format!("{}: ..", rec.id))] *)
Definition did (r : InstanceRecord) (what : string) : Reaped := mkReaped [concats [i_id r; ": "; what]] [].

Definition also (x y : Reaped) : Reaped :=
  mkReaped (rd_actions x ++ rd_actions y) (rd_notify x ++ rd_notify y).

Section Reap.
Context `{Outside}.

Definition window_lapsed : string := "approval window lapsed".

(** What closes an instance that no one approved in time. *)
Definition close_unapproved : M EngineError unit :=
  do! step EvCancel in
  do! update (set_closed_reason (Some window_lapsed)) in
  do! log (JClosed window_lapsed) in
  do! release in
  persist.

(** [Pending]: the gate may have opened with time; else the approval window. *)
Definition reap_pending (at_ : Instant) : M EngineError Reaped :=
  let! r := get_rec in
  let! open := match plan_gate (i_plan r) with
               | Some g => on_engine (gate_satisfied r ScopePlan (pg_expr g))
               | None => mret false
               end in
  if open then
    do! approve in
    do! persist in
    do! walk in
    mret (did r "the plan gate opened")
  else
    match i_approval_deadline r with
    | Some d =>
        if expired at_ d then
          do! step EvApprovalWindowLapses in
          do! log JApprovalExpired in
          do! close_unapproved in
          mret (did r window_lapsed)
        else mret reaped_nothing
    | None => mret reaped_nothing
    end.

(** The states only a person ends are said again at every pass. *)
Definition unbounded (r : InstanceRecord) : bool :=
  match i_state r with
  | SDriftHeld | SStuck => true
  | SHeld | SDeferred => i_permanent r
  | _ => false
  end.

Definition notify_unbounded : M EngineError Reaped :=
  let! r := get_rec in
  if unbounded r then
    let! n := on_engine (ask g_notify) in
    do! (match n with
         | Some n =>
             let! _ := on_engine (outside (nt_deliver n LevelBlocked (i_id r)
               (concats [state_name (i_state r); " since "; show (unwrap_or (i_requested_at r) 0%N);
                         ": only an operator ends this"]))) in mret tt
         | None => mret tt
         end) in
    mret (mkReaped [] [(i_id r, i_state r)])
  else mret reaped_nothing.

(** Wane: whether it ended the pass for this instance. *)
Definition reap_wane (at_ : Instant) : M EngineError bool :=
  let! r := get_rec in
  match i_deadline r with
  | Some d =>
      if expired at_ d then
        match transition (i_ctx r) (i_state r) EvWaneElapses with
        | To SExpired =>
            do! step EvWaneElapses in
            do! log JExpired in
            do! update (set_refusal None) in
            do! revert in
            mret true
        | Stay => do! step EvWaneElapses in mret false
        | _ => mret false
        end
      else mret false
  | None => mret false
  end.

Definition no_wait (at_ : Instant) : Wait := mkWait 0 EmptyString at_ None None.

(** [Waiting]: the wait's bound, or the guard it waits on. *)
Definition reap_waiting (at_ : Instant) : M EngineError Reaped :=
  let! r := get_rec in
  let w := match i_waiting r with Some w => w | None => no_wait at_ end in
  if match w_bound w with Some b => expired at_ b | None => false end then
    do! log (JWaitLapsed (w_step w) (w_reason w)) in
    do! step EvBoundLapses in
    do! update (set_waiting None) in
    let! r := get_rec in
    do! (if i_state r == SHeld then
           do! update (set_held_at (Some (w_step w))) in
           do! log (JHeld (w_step w)) in
           persist
         else
           do! update (set_refusal (Some (concats ["step "; show (w_step w); ": wait lapsed ("; w_reason w; ")"]))) in
           revert) in
    mret (did r (concats ["wait at step "; show (w_step w); " lapsed"]))
  else
    match w_guard w with
    | None => mret reaped_nothing
    | Some g =>
        let! owner := on_engine (owner_host r) in
        let! tri := refusable (observe r owner g) in
        match tri with
        | Ok Yes =>
            do! step EvWaitSatisfied in
            do! update (set_waiting None) in
            do! log (JStepGateSatisfied (w_step w)) in
            do! persist in
            do! walk in
            mret (did r (concats ["guard "; g; " now yes"]))
        | Ok No =>
            do! step EvWaitSatisfied in
            do! update (set_waiting None) in
            let! _ := refuse (w_step w) (concats ["guard "; g; " is no"]) in
            mret (did r (concats ["guard "; g; " now no"]))
        | _ => mret reaped_nothing
        end
    end.

(** [Deferred]: the handoff's probe. The verb loads the record anew; this copy is dropped. *)
Definition reap_deferred : M EngineError Reaped :=
  let! r := get_rec in
  match (d ← i_deferred r; o ← op_at r (df_step d); probe ← op_handoff_done o; Some (d, probe)) with
  | None => mret reaped_nothing
  | Some (d, probe) =>
      let! owner := on_engine (owner_host r) in
      let! tri := refusable (observe r owner probe) in
      match tri with
      | Ok Yes =>
          let! _ := on_engine (handoff_done (i_id r) (df_step d) "probe") in
          mret (did r (concats ["handoff done by probe "; probe]))
      | _ => mret reaped_nothing
      end
  end.

(** What is left of the pass once the wane has been observed. *)
Definition reap_state (at_ : Instant) : M EngineError Reaped :=
  let! r := get_rec in
  match i_state r with
  | SReverting | SExpired => do! revert in mret (did r "undo continued")
  | SWaiting => reap_waiting at_
  | SStuck => do! step EvRetry in do! revert in mret (did r "retried the undo")
  | SDeferred => reap_deferred
  | _ => mret reaped_nothing
  end.

(** The pass over one instance. *)
Definition reap_record (at_ : Instant) (settling : bool) : M EngineError Reaped :=
  let! r := get_rec in
  if terminal (i_state r) then
    let! fired := backstop_fired_after_abandon in
    mret (if fired then did r "the backstop fired after abandon" else reaped_nothing)
  else if i_state r == SPending then reap_pending at_
  else if i_state r == SApprovalExpired then
    do! close_unapproved in
    mret (did r "reaped after the approval window")
  else
    let! fired := backstop_read_fired in
    let said := if fired then did r "the backstop fired on its target" else reaped_nothing in
    let! told := notify_unbounded in
    let said := also said told in
    if settling then mret said
    else
      let! waned := reap_wane at_ in
      if waned then mret (also said (did r "wane elapsed"))
      else let! x := reap_state at_ in mret (also said x).

Definition reap : ME EngineError ReapReport :=
  let! settling := ask g_settling in
  let! at_ := now in
  let! dropped := expire_secrets in
  let! rs := instances in
  let! said := fold_each (fun acc r =>
    let! out := with_record r (reap_record at_ settling) in
    mret (also acc (fst out))) (mkReaped dropped []) rs in
  mret (mkReapReport (rd_actions said) (rd_notify said) settling).

(** ** Boot recovery *)

Record BootReport := mkBootReport {
  bo_demoted : list string;
  bo_reestablished : list (string * N);
  bo_lost : list (string * N);
  bo_reobserved : list (string * string);
  bo_migrated : option (N * N);
  bo_orphaned : list (string * string);
  bo_foreign : list (string * string);
  bo_reclaimed : list (string * string);
  bo_secrets_dropped : N;
  bo_interrupted : list (string * N);
}.

(** What boot says of one instance. *)
Record Recovered := mkRecovered {
  ry_demoted : list string;
  ry_reestablished : list (string * N);
  ry_lost : list (string * N);
  ry_reobserved : list (string * string);
  ry_interrupted : list (string * N);
}.

Definition recovered_nothing : Recovered := mkRecovered [] [] [] [] [].

Definition recovered_and (x y : Recovered) : Recovered :=
  mkRecovered (ry_demoted x ++ ry_demoted y) (ry_reestablished x ++ ry_reestablished y) (ry_lost x ++ ry_lost y)
    (ry_reobserved x ++ ry_reobserved y) (ry_interrupted x ++ ry_interrupted y).

Definition died_inside : string :=
  "the engine died inside its do, which left every fact of its footprint as it found them".

Definition restarted : string := "the engine restarted while applying".

(** Whether the interrupted step's [do] is shown never to have taken. *)
Definition never_took (r : InstanceRecord) (a : AppliedStep) (pre : Watched) : ME EngineError bool :=
  let! o := ask (fun g =>
    o ← op_at r (as_step a);
    match step_host g r o with
    | Ok h => match concrete_op o h (env_for r (as_vars a)) with Ok o' => Some o' | Err _ => None end
    | Err _ => None
    end) in
  match o, pre with
  | Some o, _ :: _ => untouched r o pre
  | _, _ => mret false
  end.

(** The step in flight joins the applied ones, unless its [do] never took; the steps to
    report as interrupted. *)
Definition recover_attempt : M EngineError (list (string * N)) :=
  let! r := get_rec in
  match i_attempting r with
  | None => mret []
  | Some a =>
      let pre := i_attempting_pre r in
      do! update (fun r => set_attempting_pre [] (set_attempting None r)) in
      let! r := get_rec in
      if is_applied r (as_step a) (as_iteration a) (as_vars a) then mret []
      else
        let! never := on_engine (never_took r a pre) in
        if never then do! log (JUndoSkipped (as_step a) died_inside) in mret []
        else
          do! update (fun r => set_applied (i_applied r ++ [a]) r) in
          mret [(i_id r, as_step a)]
  end.

(** An instance found applying. *)
Definition demote : M EngineError Recovered :=
  let! interrupted := recover_attempt in
  do! update (set_refusal (Some restarted)) in
  do! step EvRefuse in
  let! r := get_rec in
  do! (if i_state r == SHeld then
         do! update (fun r => set_held_at (as_step <$> last (i_applied r)) r) in
         let! r := get_rec in
         do! log (JHeld (unwrap_or (i_held_at r) 0%N)) in
         persist
       else revert) in
  mret (mkRecovered [i_id r] [] [] [] interrupted).

Definition run_body (r : InstanceRecord) (a : AppliedStep) (o : Op) (body : list Prim) : ME string unit :=
  let! h := (fun g => (g, step_host g r o)) in
  match resolve_body body h (env_for r (as_vars a)) with
  | Err u => mthrow (display_unbound u)
  | Ok rb =>
      let! x := ask (fun g => executor_for g h) in
      match x with
      | None => mthrow ("no executor reaches " +:+ eh_name h)
      | Some x =>
          let! _ := map_err display_exec_error (run_on (ForReestablish a) x h (i_id r) rb) in
          mret tt
      end
  end.

Definition holds_resource (o : Op) : bool := existsb (fun e => fp_kind e == Held) (op_footprint o).

(** One applied step's held resources, reestablished or recorded lost. *)
Definition reestablish_step (acc : Recovered) (a : AppliedStep) : M EngineError Recovered :=
  let! r := get_rec in
  match op_at r (as_step a) with
  | None => mret acc
  | Some o =>
      if negb (holds_resource o) then mret acc
      else
        let! ran := match op_reestablish o with
                    | Some body => refusable (run_body r a o body)
                    | None => mret (Err EmptyString)
                    end in
        if is_ok ran then
          do! (if i_state r == SSuspended then let! _ := step EvReestablish in mret tt else mret tt) in
          do! log JReestablished in
          mret (recovered_and acc (mkRecovered [] [(i_id r, as_step a)] [] [] []))
        else
          do! (if transition (i_ctx r) (i_state r) EvSuspend == To SSuspended
               then do! step EvSuspend in log JSuspended
               else mret tt) in
          mret (recovered_and acc (mkRecovered [] [] [(i_id r, as_step a)] [] []))
  end.

Definition owned_or_region (e : FootprintEntry) : bool := match fp_kind e with Owned | Region => true | _ => false end.

(** One applied step's owned facts, observed again; what they answer is not used. *)
Definition reobserve_step (r : InstanceRecord) (acc : Recovered) (a : AppliedStep) : ME EngineError Recovered :=
  let! oh := ask (fun g =>
    o ← op_at r (as_step a);
    match step_host g r o with Ok h => Some (o, h) | Err _ => None end) in
  match oh with
  | None => mret acc
  | Some (o, h) =>
      fold_each (fun acc e =>
        let! x := ask (fun g => executor_for g h) in
        do! (match x with
             | Some x => let! _ := outside (ex_observe x h (mkProbeRun (fp_shape e) [])) in mret tt
             | None => mret tt
             end) in
        mret (recovered_and acc (mkRecovered [] [] [] [(i_id r, fp_shape e)] []))) acc
        (List.filter owned_or_region (op_footprint o))
  end.

(** Boot, for one instance. *)
Definition boot_record : M EngineError Recovered :=
  let! r := get_rec in
  if i_state r == SApplying then demote
  else if terminal (i_state r) then mret recovered_nothing
  else
    do! remove_staged None "boot recovery" in
    let! acc := fold_each reestablish_step recovered_nothing (i_applied r) in
    let! r := get_rec in
    on_engine (fold_each (reobserve_step r) acc (i_applied r)).

(** The migration the store was opened after, journaled once. *)
Definition journal_migration : ME EngineError (option (N * N)) :=
  let! m := read_meta "migrated" in
  match m !! "from", m !! "to", m !! "by" with
  | Some from, Some to, Some by_ =>
      let f := unwrap_or (parse_u32 from) 0%N in
      let t := unwrap_or (parse_u32 to) SCHEMA in
      do! journal_site_event (JMigrated f t by_) in
      do! write_meta "migrated" ∅ in
      mret (Some (f, t))
  | _, _, _ => mret None
  end.

Definition boot : ME EngineError BootReport :=
  do! set_settling true in
  let! migrated := journal_migration in
  let! rs := instances in
  let! said := fold_each (fun acc r =>
    let! out := with_record r boot_record in mret (recovered_and acc (fst out))) recovered_nothing rs in
  let! dropped := drop_secrets_at_boot in
  let! rl := reconcile in
  do! set_settling false in
  mret (mkBootReport (ry_demoted said) (ry_reestablished said) (ry_lost said) (ry_reobserved said) migrated
          (rl_orphaned rl) (rl_foreign rl) (rl_reclaimed rl) dropped (ry_interrupted said)).
End Reap.
