(* ===== verification/Fakes.v ===== *)
(** * The in-memory bindings

    [FakeExecutor], [FakeScheduler], [FakeApproval], [FakeAcceptor] and [FakeClock] of
    [engine/src/{executor,scheduler,gates,secrets,clock}.rs], as one world: with them the
    engine runs, and the theorems on it are shown to hold of something. The disk always
    works, the journal has memory sinks, and what the source takes from libraries (SHA-256,
    serde, randomness, the templates) is replaced by functions that can be evaluated. *)

From Stdlib Require Import Ascii.
From stdpp Require Import base strings pretty numbers option sets gmap list.
From S2P Require Import Prelude Model Algebra States Ledger Canon Journal EngineJournal Resolve Footprint Ordered Utf8 Render.
From S2P Require Import Monad Executor Instance Engine Hosts.

(** ** The executor *)

Inductive Scripted :=
| ScOk (o : RunOutput)
| ScFail (e : string)
| ScOkHaving (o : RunOutput) (left : list (string * string))
| ScFailHaving (e : string) (left : list (string * string))
| ScSilent
| ScUnreachable.

Record FakeCall := mkFakeCall { fc_host : string; fc_instance : string; fc_body : list RPrim }.

Record FakeExecutor := mkFakeExecutor {
  fe_locus : LocusKind;
  fe_caps : ExecCaps;
  fe_script : list Scripted;
  fe_observations : gmap string Observation;
  fe_calls : list FakeCall;
  fe_events : list string;
  fe_acts : list (string * string);
  fe_observed : list (string * string);
  fe_probe_bodies : list (string * list RPrim);
  fe_facts : gmap string string;
  fe_failing_reads : gmap string N;
  fe_dirs : list (string * string);
  fe_files : gmap (string * string * string) string;
  fe_bootstrap : BootstrapState;
  fe_clock : option Instant;
  fe_dir_modes_ok : bool;
}.

Definition eta_fake (f : FakeExecutor) : FakeExecutor :=
  mkFakeExecutor (fe_locus f) (fe_caps f) (fe_script f) (fe_observations f) (fe_calls f) (fe_events f) (fe_acts f)
    (fe_observed f) (fe_probe_bodies f) (fe_facts f) (fe_failing_reads f) (fe_dirs f) (fe_files f) (fe_bootstrap f)
    (fe_clock f) (fe_dir_modes_ok f).

Definition set_script v f := ltac:(field_update eta_fake fe_script v f).
Definition set_observations v f := ltac:(field_update eta_fake fe_observations v f).
Definition set_calls v f := ltac:(field_update eta_fake fe_calls v f).
Definition set_events v f := ltac:(field_update eta_fake fe_events v f).
Definition set_fake_acts v f := ltac:(field_update eta_fake fe_acts v f).
Definition set_observed v f := ltac:(field_update eta_fake fe_observed v f).
Definition set_probe_bodies v f := ltac:(field_update eta_fake fe_probe_bodies v f).
Definition set_facts v f := ltac:(field_update eta_fake fe_facts v f).
Definition set_failing_reads v f := ltac:(field_update eta_fake fe_failing_reads v f).
Definition set_fake_dirs v f := ltac:(field_update eta_fake fe_dirs v f).
Definition set_files v f := ltac:(field_update eta_fake fe_files v f).
Definition set_clock v f := ltac:(field_update eta_fake fe_clock v f).

(** [FakeExecutor::new] *)
Definition fake_executor_new (locus : LocusKind) : FakeExecutor :=
  mkFakeExecutor locus (mkExecCaps true true) [] ∅ [] [] [] [] [] ∅ ∅ [] ∅ (mkBootstrapState true true true true true)
    None true.

Definition note (what : string) (f : FakeExecutor) : FakeExecutor := set_events (fe_events f ++ [what]) f.

Definition fake_act (instance what : string) (f : FakeExecutor) : FakeExecutor :=
  set_fake_acts (fe_acts f ++ [(instance, what)]) f.

Definition insert_fact (shape bytes : string) (f : FakeExecutor) : FakeExecutor :=
  set_facts (<[shape := bytes]> (fe_facts f)) f.

Definition fact_or_empty (shape : string) (f : FakeExecutor) : string := unwrap_or (fe_facts f !! shape) EmptyString.

Definition fake_region_begin (a : string) : string := concats ["# rescind-region "; a; " begin"; newline].
Definition fake_region_end (a : string) : string := concats ["# rescind-region "; a; " end"; newline].

(** [text[..s]] and [text[e + end.len()..]], where both lines are found. *)
Definition fake_strip (a text : string) : string :=
  match split_at_str (fake_region_begin a) text, split_at_str (fake_region_end a) text with
  | Some (before, _), Some (_, after) =>
      before +:+ unwrap_or (strip_prefix (fake_region_end a) after) EmptyString
  | _, _ => text
  end.

(** A successful body acts on the fake's file facts. *)
Definition fake_prim (f : FakeExecutor) (p : RPrim) : FakeExecutor :=
  match p with
  | RWrite shape content => insert_fact shape (rv_text content) f
  | RRemove shape => set_facts (delete shape (fe_facts f)) f
  | RAppend shape line => insert_fact shape (concats [fact_or_empty shape f; rv_text line; newline]) f
  | RRegionSet shape anchor content =>
      let a := unwrap_or anchor EmptyString in
      insert_fact shape (concats [fact_or_empty shape f; fake_region_begin a; rv_text content; newline; fake_region_end a]) f
  | RRegionClear shape anchor =>
      let a := unwrap_or anchor EmptyString in
      match fe_facts f !! shape with
      | Some bytes =>
          let text := from_utf8_lossy bytes in
          match split_at_str (fake_region_begin a) text, split_at_str (fake_region_end a) text with
          | Some _, Some _ => insert_fact shape (fake_strip a text) f
          | _, _ => f
          end
      | None => f
      end
  | _ => f
  end.

Definition left_by (o : option Scripted) : list (string * string) :=
  match o with
  | Some (ScOkHaving _ l) | Some (ScFailHaving _ l) => l
  | _ => []
  end.

Definition succeeds (o : option Scripted) : bool :=
  match o with
  | None | Some (ScOk _) | Some (ScOkHaving _ _) => true
  | _ => false
  end.

Definition fake_outcome (h : EHost) (o : option Scripted) : Exec RunOutput :=
  match o with
  | None => Ok output_default
  | Some (ScOk o) | Some (ScOkHaving o _) => Ok o
  | Some (ScFail e) | Some (ScFailHaving e _) => Err (ExFailed e)
  | Some ScSilent => Err ExSilent
  | Some ScUnreachable => Err (ExUnreachable (eh_address h))
  end.

Definition fake_run (h : EHost) (instance : string) (body : list RPrim) (f : FakeExecutor) : FakeExecutor * Exec RunOutput :=
  let f := fake_act instance "run" (note "run" f) in
  let f := set_calls (fe_calls f ++ [mkFakeCall (eh_name h) instance body]) f in
  let outcome := head (fe_script f) in
  let f := set_script (tail (fe_script f)) f in
  let f := foldl (fun f l => insert_fact (fst l) (snd l) f) f (left_by outcome) in
  let f := if succeeds outcome then foldl fake_prim f body else f in
  (f, fake_outcome h outcome).

Definition fake_observe (h : EHost) (p : ProbeRun) (f : FakeExecutor) : FakeExecutor * Exec Observation :=
  let f := set_observed (fe_observed f ++ [(eh_name h, pr_name p)]) f in
  let f := set_probe_bodies (fe_probe_bodies f ++ [(pr_name p, pr_body p)]) f in
  (f, match fe_observations f !! pr_name p with
      | Some o => Ok o
      | None => Err (ExUnsupported ("no such probe: " +:+ pr_name p))
      end).

Definition fake_read_fact (shape : string) (f : FakeExecutor) : FakeExecutor * Exec (option string) :=
  let f := note ("read " +:+ shape) f in
  match fe_failing_reads f !! shape with
  | Some n =>
      if (n =? 0)%N then (f, Err (ExUnreachable ("the connection dropped reading " +:+ shape)))
      else (set_failing_reads (<[shape := (n - 1)%N]> (fe_failing_reads f)) f, Ok (fe_facts f !! shape))
  | None => (f, Ok (fe_facts f !! shape))
  end.

Definition pair_insert (x : string * string) (l : list (string * string)) : list (string * string) :=
  if existsb (fun y => y == x) l then l else insert_pair x l.

Definition fake_dir_create (h : EHost) (instance : string) (f : FakeExecutor) : FakeExecutor * Exec unit :=
  (set_fake_dirs (pair_insert (eh_name h, instance) (fe_dirs f)) f, Ok tt).

Definition fake_dir_remove (h : EHost) (instance : string) (f : FakeExecutor) : FakeExecutor * Exec unit :=
  let f := set_fake_dirs (List.filter (fun y => y != (eh_name h, instance)) (fe_dirs f)) f in
  (set_files (filter (fun kv => fst (fst kv) <> (eh_name h, instance)) (fe_files f)) f, Ok tt).

Definition fake_dir_state (f : FakeExecutor) (d : string * string) : InstanceDirState :=
  let '(h, i) := d in
  let has rel := is_some (fe_files f !! (h, i, rel)) in
  let fired := has "fired" in
  let artifact := existsb has ["artifact.sh"; "artifact.ps1"; "artifact.py"] in
  mkInstanceDirState i (artifact && negb fired) fired (fe_dir_modes_ok f).

Definition fake_dir_list (h : EHost) (f : FakeExecutor) : FakeExecutor * Exec (list InstanceDirState) :=
  (f, Ok (map (fake_dir_state f) (List.filter (fun d => fst d == eh_name h) (fe_dirs f)))).

Definition fake_put (what : string) (h : EHost) (instance rel bytes : string) (f : FakeExecutor) : FakeExecutor * Exec unit :=
  let said := concats [what; " "; rel] in
  let f := fake_act instance said (note said f) in
  (set_files (<[(eh_name h, instance, rel) := bytes]> (fe_files f)) f, Ok tt).

Definition fake_get (h : EHost) (instance rel : string) (f : FakeExecutor) : FakeExecutor * Exec string :=
  (f, match fe_files f !! (eh_name h, instance, rel) with
      | Some b => Ok b
      | None => Err (ExIo ("no such file: " +:+ rel))
      end).

Definition fake_remove (h : EHost) (instance rel : string) (f : FakeExecutor) : FakeExecutor * Exec unit :=
  let said := "remove " +:+ rel in
  let f := fake_act instance said (note said f) in
  (set_files (delete (eh_name h, instance, rel) (fe_files f)) f, Ok tt).

(** ** The scheduler *)

Record FakeScheduler := mkFakeScheduler {
  fs_ops : list string;
  fs_fails : list string;
  fs_presence : option Presence;
  fs_entries : list (string * string);
}.

Definition fake_scheduler_new : FakeScheduler := mkFakeScheduler [] [] None [].

Definition entries_after (op : string) (key : string * string) (entries : list (string * string)) : list (string * string) :=
  if op == "install" then (if existsb (fun e => e == key) entries then entries else entries ++ [key])
  else if op == "disarm" then List.filter (fun e => e != key) entries
  else entries.

Definition fake_note (op : string) (h : EHost) (j : Job) (s : FakeScheduler) : FakeScheduler * Exec unit :=
  let ops := fs_ops s ++ [concats [op; " "; eh_name h; " "; jb_instance j]] in
  if existsb (fun x => x == op) (fs_fails s)
  then (mkFakeScheduler ops (fs_fails s) (fs_presence s) (fs_entries s), Err (ExFailed (op +:+ " refused by the fake")))
  else (mkFakeScheduler ops (fs_fails s) (fs_presence s) (entries_after op (eh_name h, jb_instance j) (fs_entries s)), Ok tt).

Definition fake_present (h : EHost) (j : Job) (s : FakeScheduler) : FakeScheduler * Exec Presence :=
  match fake_note "present" h j s with
  | (s, Err e) => (s, Err e)
  | (s, Ok _) =>
      (s, Ok match fs_presence s with
             | Some p => p
             | None => if existsb (fun e => e == (eh_name h, jb_instance j)) (fs_entries s) then Present else Absent
             end)
  end.

(** ** The approval binding *)

Record FakeApproval := mkFakeApproval {
  fa_auths : list Authenticator;
  fa_broken : bool;
  fa_refuse : gmap string string;
  fa_calls : list string;
}.

Definition scope_debug (s : Scope) : string :=
  match s with
  | ScopePlan => "Plan"
  | ScopeStep n => concats ["Step("; show n; ")"]
  | ScopeAck n => concats ["Ack("; show n; ")"]
  end.

(** [hex(&r.digest.0[..4])] *)
Definition short_digest (h : Hash) : string := String.substring 0 8 (to_hex h).

Definition broken_binding : ExecError := ExFailed "the fake binding is broken".

Definition fake_challenge (q : ProofRequest) (a : FakeApproval) : FakeApproval * Exec string :=
  if fa_broken a then (a, Err broken_binding)
  else (mkFakeApproval (fa_auths a) (fa_broken a) (fa_refuse a)
          (fa_calls a ++ [concats ["challenge "; scope_debug (pq_scope q); " "; short_digest (pq_digest q)]]),
        Ok (concats ["approve "; pq_instance q; " ["; short_digest (pq_digest q); "]"])).

Definition fake_verify (q : ProofRequest) (a : FakeApproval) : FakeApproval * Exec Verified :=
  if fa_broken a then (a, Err broken_binding)
  else
    let a := mkFakeApproval (fa_auths a) (fa_broken a) (fa_refuse a)
               (fa_calls a ++ [concats ["verify "; scope_debug (pq_scope q); " "; pq_authenticator q; " ";
                                        short_digest (pq_digest q)]]) in
    (a, Ok match fa_refuse a !! pq_authenticator q with
           | Some why => mkVerified false why
           | None => mkVerified true EmptyString
           end).

(** ** The acceptor *)

Record FakeAcceptor := mkFakeAcceptor {
  fk_label : string;
  fk_accepts : bool;
  fk_kept : BMap (string * string * option Instant);
  fk_offers : list string;
  fk_fails : bool;
}.

Definition set_kept (v : BMap (string * string * option Instant)) (a : FakeAcceptor) : FakeAcceptor :=
  mkFakeAcceptor (fk_label a) (fk_accepts a) v (fk_offers a) (fk_fails a).

Definition bm_remove {A} (k : string) (m : BMap A) : BMap A := List.filter (fun e => fst e != k) m.

Definition fake_deliver (instance label value : string) (until : option Instant) (a : FakeAcceptor) : FakeAcceptor * Exec bool :=
  let a := mkFakeAcceptor (fk_label a) (fk_accepts a) (fk_kept a) (fk_offers a ++ [concats [instance; " "; label]]) (fk_fails a) in
  if fk_fails a then (a, Err (ExFailed "the acceptor broke"))
  else if negb (fk_accepts a) then (a, Ok false)
  else (set_kept (bm_insert instance (label, value, until) (fk_kept a)) a, Ok true).

Definition fake_take (instance : string) (a : FakeAcceptor) : FakeAcceptor * option (string * string) :=
  (set_kept (bm_remove instance (fk_kept a)) a, fst <$> bm_get instance (fk_kept a)).

Definition fake_drop_for (instance : string) (a : FakeAcceptor) : FakeAcceptor * list string :=
  (set_kept (bm_remove instance (fk_kept a)) a,
   match bm_get instance (fk_kept a) with Some (l, _, _) => [l] | None => [] end).

Definition past (now : Instant) (e : string * (string * string * option Instant)) : bool :=
  match snd (snd e) with Some u => (u <=? now)%N | None => false end.

Definition kept_label (e : string * (string * string * option Instant)) : string * string := (fst e, fst (fst (snd e))).

Definition fake_expire (now : Instant) (a : FakeAcceptor) : FakeAcceptor * list (string * string) :=
  (set_kept (List.filter (fun e => negb (past now e)) (fk_kept a)) a, map kept_label (List.filter (past now) (fk_kept a))).

Definition fake_drop_all (a : FakeAcceptor) : FakeAcceptor * list (string * string) :=
  (set_kept [] a, map kept_label (fk_kept a)).

(** ** The world *)

(** The handles the engine holds are positions in these lists. *)
Record FakeWorld := mkFakeWorld {
  fw_now : Instant;
  fw_executors : list FakeExecutor;
  fw_schedulers : list FakeScheduler;
  fw_approval : FakeApproval;
  fw_acceptors : list FakeAcceptor;
}.

Definition lost_executor : FakeExecutor := fake_executor_new LkLocal.

(** [self.with(|f| ..)] *)
Definition with_executor {A} (x : nat) (m : FakeExecutor -> FakeExecutor * A) (w : FakeWorld) : FakeWorld * A :=
  let '(f, r) := m (unwrap_or (fw_executors w !! x) lost_executor) in
  (mkFakeWorld (fw_now w) (<[x := f]> (fw_executors w)) (fw_schedulers w) (fw_approval w) (fw_acceptors w), r).

Definition with_scheduler {A} (d : nat) (m : FakeScheduler -> FakeScheduler * A) (w : FakeWorld) : FakeWorld * A :=
  let '(s, r) := m (unwrap_or (fw_schedulers w !! d) fake_scheduler_new) in
  (mkFakeWorld (fw_now w) (fw_executors w) (<[d := s]> (fw_schedulers w)) (fw_approval w) (fw_acceptors w), r).

Definition with_approval {A} (m : FakeApproval -> FakeApproval * A) (w : FakeWorld) : FakeWorld * A :=
  let '(a, r) := m (fw_approval w) in
  (mkFakeWorld (fw_now w) (fw_executors w) (fw_schedulers w) a (fw_acceptors w), r).

Definition lost_acceptor : FakeAcceptor := mkFakeAcceptor EmptyString false [] [] false.

Definition with_acceptor {A} (c : nat) (m : FakeAcceptor -> FakeAcceptor * A) (w : FakeWorld) : FakeWorld * A :=
  let '(a, r) := m (unwrap_or (fw_acceptors w !! c) lost_acceptor) in
  (mkFakeWorld (fw_now w) (fw_executors w) (fw_schedulers w) (fw_approval w) (<[c := a]> (fw_acceptors w)), r).

#[export] Instance fake_executor_ops : Executor FakeWorld nat := {|
  ex_locus x w := fe_locus (unwrap_or (fw_executors w !! x) lost_executor);
  ex_capabilities x w := fe_caps (unwrap_or (fw_executors w !! x) lost_executor);
  ex_run x h i b := with_executor x (fake_run h i b);
  ex_observe x h p := with_executor x (fake_observe h p);
  ex_read_fact x _ shape := with_executor x (fake_read_fact shape);
  ex_bootstrap_state x _ := with_executor x (fun f => (f, Ok (fe_bootstrap f)));
  ex_clock_now x _ := with_executor x (fun f => (f, Ok (fe_clock f)));
  ex_instance_dir_create x h i := with_executor x (fake_dir_create h i);
  ex_instance_dir_remove x h i := with_executor x (fake_dir_remove h i);
  ex_instance_dir_list x h := with_executor x (fake_dir_list h);
  ex_put_file x h i rel b _ := with_executor x (fake_put "put" h i rel b);
  ex_replace_file x h i rel b := with_executor x (fake_put "replace" h i rel b);
  ex_get_file x h i rel := with_executor x (fake_get h i rel);
  ex_remove_file x h i rel := with_executor x (fake_remove h i rel);
  ex_host_lock x _ := with_executor x (fun f => (note "lock" f, Ok tt));
  ex_unlock x _ w := fst (with_executor x (fun f => (note "unlock" f, tt)) w);
|}.

#[export] Instance fake_scheduler_ops : Scheduler FakeWorld nat nat := {|
  sc_scheduler_name _ _ := "cron";
  sc_install d _ h j := with_scheduler d (fake_note "install" h j);
  sc_arm d _ h j _ := with_scheduler d (fake_note "arm" h j);
  sc_rearm d _ h j _ := with_scheduler d (fake_note "rearm" h j);
  sc_disarm d _ h j := with_scheduler d (fake_note "disarm" h j);
  sc_present d _ h j := with_scheduler d (fake_present h j);
|}.

#[export] Instance fake_approval_ops : Approval FakeWorld unit := {|
  ap_authenticators _ := with_approval (fun a => (a, Ok (fa_auths a)));
  ap_challenge _ q := with_approval (fake_challenge q);
  ap_verify _ q := with_approval (fake_verify q);
  ap_approves_everything _ _ := false;
|}.

#[export] Instance fake_acceptor_ops : Acceptor FakeWorld nat := {|
  ac_name c w := fk_label (unwrap_or (fw_acceptors w !! c) lost_acceptor);
  ac_deliver c i l v _ until := with_acceptor c (fake_deliver i l v until);
  ac_take c i := with_acceptor c (fake_take i);
  ac_drop_for c i := with_acceptor c (fake_drop_for i);
  ac_expire c now := with_acceptor c (fake_expire now);
  ac_drop_all c := with_acceptor c fake_drop_all;
|}.

(** The fakes have no source of secrets and no notifier: these answer nothing. *)
#[export] Instance silent_source : Source FakeWorld unit := {| so_resolve _ _ := mthrow ExSilent |}.
#[export] Instance silent_notifier : Notify FakeWorld unit := {| nt_deliver _ _ _ _ := mthrow ExSilent |}.

(** ** What libraries give the source *)

(** A text for any variables, which opens with a brace and reads back. *)
Definition demo_vars_to_string (v : gmap string string) : string := String lbrace (show (Npos (encode v))).

Fixpoint demo_digits (acc : N) (s : string) : option N :=
  match s with
  | EmptyString => Some acc
  | String c r => if is_digit c then demo_digits (acc * 10 + (N_of_ascii c - 48)) r else None
  end.

Definition demo_vars_from_str (s : string) : option (gmap string string) :=
  match s with
  | String _ r => n ← demo_digits 0 r; match n with Npos p => decode p | N0 => None end
  | EmptyString => None
  end.

(** A sum of the text, in the place of SHA-256. *)
Fixpoint demo_sum (acc : N) (s : string) : N :=
  match s with
  | EmptyString => acc
  | String c r => demo_sum ((acc * 31 + N_of_ascii c) mod 2 ^ 64)%N r
  end.

Definition demo_sha256 (s : string) : Hash :=
  unwrap_or (hash_of_bytes (to_be_bytes (demo_sum 7 s) +:+ zeros 24)) HASH_ZERO.

Definition demo_vars_hash (v : gmap string string) : Hash := demo_sha256 (demo_vars_to_string v).

Definition demo_contract_text (hosts : list (string * HostRecord)) (statics : list (string * string)) : string :=
  concats (map fst hosts ++ map fst statics ++ map snd statics).

#[export] Instance demo_serde : Serde := {|
  vars_to_string := demo_vars_to_string;
  vars_from_str := demo_vars_from_str;
  hash_params v := Some (demo_vars_hash v);
  hash_gate _ := Some HASH_ZERO;
  hash_plan p := Some (demo_sha256 (plan_id p));
  hash_contract hosts statics := Some (demo_sha256 (demo_contract_text hosts statics));
|}.

#[export] Instance fake_outside : Outside := {|
  world := FakeWorld;
  executor := nat;
  scheduler := nat;
  approval := unit;
  source := unit;
  acceptor := nat;
  notifier := unit;
  sink := MemorySink;
  clock_now w := (w, fw_now w);
  stopwatch w := (w, fw_now w * 1000000000)%N;
  sleep n w := mkFakeWorld (fw_now w + n) (fw_executors w) (fw_schedulers w) (fw_approval w) (fw_acceptors w);
  disk_write w := (w, Ok tt);
  disk_read w := (w, Ok tt);
  disk_append _ _ _ := Written;
  sha256 := demo_sha256;
  sink_name := ms_name;
  deliver := memory_deliver;
  draw_nonce w := (w, zeros 32);
  artifact_template l c := Ok "artifact";
  debug_str s := s;
|}.

(** ** A small site *)

Definition demo_controller : EHost := mkEHost (mkHostRecord "controller" "freebsd" ["local"] true true None) "localhost" None None ∅.

Definition demo_engine_host : EHost :=
  mkEHost (mkHostRecord "web1" "freebsd" ["ssh"] true true None) "10.0.0.1" (Some "cron") None ∅.

Definition demo_engine_site : Site := mkSite [eh_record demo_engine_host] ["ssh"] [] (Some 3600%N) ["web1"] [] None.

(** A store with no instances, two executors, a scheduler and a memory sink. *)
Definition demo_fakes (now : Instant) : FakeWorld :=
  mkFakeWorld now [fake_executor_new LkLocal; fake_executor_new LkSsh] [fake_scheduler_new] (mkFakeApproval [] false ∅ []) [].

Definition demo_engine : Engine :=
  mkEngine _ (demo_fakes 1000) (mkStoreDir [] [] (mkLedgerRecord []) ∅ "ctl-1") (open_journal [] [mkMemorySink "mem" [] None] None)
    [0; 1] [0] None [] None None [("web1", demo_engine_host)] demo_controller ledger_new 120 false [] [].

(** Two files written, each put back by [:restore]. *)
Definition demo_write (id path text : string) : Item :=
  Step (mkStep (sample_op id [entry Modified ("file:" +:+ path)]
                  [PWrite (mkWrite (mkFactRef ("file:" +:+ path) None) (VLit text))] Restore ULController [])
          Forward None None LapseRevert [] None []).

Definition demo_two_files : PlanIr :=
  mkPlanIr 1 "carol" demo_engine_site
    (sample_plan (Some 3600%N) None [demo_write "a" "/etc/a" "A"; demo_write "b" "/etc/b" "B"]).

Definition demo_options : ApplyOptions := mkApplyOptions false [] [] None "carol".
