(* ===== verification/EngineLogic.v ===== *)
(** * Reasoning about the engine's methods

    [keeps R m]: whatever [m] answers, it moves the state along [R]. A preorder is kept
    by every combinator of the monad, so what a method keeps follows from what its calls
    keep. Two such relations carry the theorems on the engine: [still], of the methods
    that write no record and run nothing on a host, and [quiet], of those that work on a
    record and leave its state, its steps and its plan as they were. *)

From Stdlib Require Import Ascii.
From stdpp Require Import base strings pretty numbers option sets gmap list relations.
From S2P Require Import Prelude Model Algebra States Ledger Journal EngineJournal Region Resolve Footprint Ordered.
From S2P Require Import Monad Executor Instance Engine Hosts EngineBackstop Revert Walk Verbs Reap.

(** ** Methods that write no record *)

Section Still.
Context `{Outside}.

(** No record is written, nothing runs on a host, the journal only grows. *)
Record still (g g' : Engine) : Prop := mkStill {
  still_instances : st_instances (g_store g') = st_instances (g_store g);
  still_acts : g_acts g' = g_acts g;
  still_chain : st_chain (g_store g) `prefix_of` st_chain (g_store g');
}.

#[export] Instance still_preorder : PreOrder still.
Proof.
  split; [done|]. intros g1 g2 g3 [H1 H2 H3] [K1 K2 K3].
  split; [congruence|congruence|by etrans].
Qed.

Lemma still_outside {E A} (f : world -> world * A) : keeps still (outside (E := E) f).
Proof. intros g. unfold outside. by destruct (f (g_world g)). Qed.

Lemma still_ask {E A} (f : Engine -> A) : keeps still (ask (E := E) f).
Proof. intros g. done. Qed.

Lemma still_change {E} (f : Engine -> Engine) : (forall g, still g (f g)) -> keeps still (change (E := E) f).
Proof. intros Hf g. apply Hf. Qed.

Lemma still_read {E A} (f : Engine -> Result A E) : keeps still (fun g => (g, f g)).
Proof. intros g. done. Qed.
End Still.

#[export] Hint Resolve still_outside still_ask still_change still_read : keeps.
#[export] Hint Extern 1 (still _ _) => (split; done) : keeps.

Section StillCalls.
Context `{Outside}.

Lemma append_grows o chain e chain' res : append_journal o chain e = (chain', res) -> chain `prefix_of` chain'.
Proof. destruct o; intros [= <- _]; first [done|by apply prefix_app_r]. Qed.

Lemma record_grows disk j chain at_ about ev labels j' chain' res :
  record sha256 sink_name deliver disk j chain at_ about ev labels = (j', chain', res) -> chain `prefix_of` chain'.
Proof.
  unfold record. destruct (next _ _ _ _ _ _) as [e|x]; [|by intros [= <- <- _]].
  destruct (append_journal (disk chain e) chain e) as [chain1 [[]|x]] eqn:H1; apply append_grows in H1;
    [|by intros [= <- <- _]].
  destruct (deliver_all _ _ _ e) as [j1 refusals]. case_bool_decide; [by intros [= <- <- _]|].
  destruct (next _ _ _ _ _ _) as [r|x]; [|by intros [= <- <- _]].
  destruct (append_journal (disk chain1 r) chain1 r) as [chain2 [[]|x]] eqn:H2; apply append_grows in H2.
  - destruct (deliver_all _ _ _ r) as [j2 ?]. intros [= <- <- _]. by etrans.
  - intros [= <- <- _]. by etrans.
Qed.

Lemma next_ok (j : EJournal (S := sink)) at_ about ev labels e :
  next sha256 j at_ about ev labels = Ok e -> en_event e = ev /\ en_instance e = ab_instance about.
Proof.
  unfold next. set (e0 := journal_append _ _ _ _ _ _ _ _).
  assert (H0 : en_event e0 = ev /\ en_instance e0 = ab_instance about).
  { unfold e0, journal_append. by destruct (last _). }
  destruct (ej_signer j) as [sign|]; [|by intros [= <-]]. destruct (sign e0); [|done]. by intros [= <-].
Qed.

Lemma record_ok (j : EJournal (S := sink)) disk chain at_ about ev j' chain' e :
  record sha256 sink_name deliver disk j chain at_ about ev [] = (j', chain', Ok e) ->
  e ∈ chain' /\ en_event e = ev /\ en_instance e = ab_instance about.
Proof.
  unfold record. destruct (next _ _ _ _ _ _) as [e1|x] eqn:Hn; [|done]. apply next_ok in Hn as [Hev Hin].
  destruct (disk chain e1); cbn [append_journal]; [|done|done].
  destruct (deliver_all _ _ _ e1) as [j1 refusals]. case_bool_decide.
  - intros [= <- <- <-]. split; [set_solver|done].
  - destruct (next _ _ _ _ _ _) as [e2|x]; [|done]. destruct (disk _ e2); cbn [append_journal]; [|done|done].
    by destruct (deliver_all _ _ _ e2).
Qed.

Lemma still_journal_record at_ about ev : keeps still (journal_record at_ about ev).
Proof.
  intros g. unfold journal_record. destruct (record _ _ _ _ _ _ _ _ _ _) as [[j chain] res] eqn:Hr.
  apply record_grows in Hr. by split.
Qed.
#[local] Hint Resolve still_journal_record : keeps.

Lemma still_now {E} : keeps still (now (E := E)).
Proof. unfold now. keeps. Qed.
#[local] Hint Resolve still_now : keeps.

Lemma still_log_for r ev : keeps still (log_for r ev).
Proof. unfold log_for. keeps. Qed.

Lemma still_journal_site_event ev : keeps still (journal_site_event ev).
Proof. unfold journal_site_event. keeps. Qed.

Lemma still_read_instance id : keeps still (read_instance id).
Proof. unfold read_instance. keeps. Qed.
#[local] Hint Resolve still_read_instance still_log_for still_journal_site_event : keeps.

Lemma still_load id : keeps still (load id).
Proof. unfold load. keeps. Qed.

Lemma still_instances_ : keeps still instances.
Proof. unfold instances. keeps. Qed.

Lemma still_write_meta name v : keeps still (write_meta name v).
Proof. unfold write_meta. keeps. Qed.

Lemma still_read_meta name : keeps still (read_meta name).
Proof. unfold read_meta. keeps. Qed.

Lemma still_write_ledger : keeps still write_ledger.
Proof. unfold write_ledger. keeps. Qed.

Lemma still_set_settling on : keeps still (set_settling on).
Proof. pose proof still_write_meta. unfold set_settling. keeps. Qed.
End StillCalls.

#[export] Hint Resolve still_journal_record still_now still_log_for still_journal_site_event still_read_instance
  still_load still_instances_ still_write_meta still_read_meta still_write_ledger still_set_settling : keeps.

(** Hosts, the backstop, secrets and gates: no call of theirs on the engine alone writes a
    record or runs a body. *)
Section StillHosts.
Context `{Outside}.

Lemma still_owner_host r : keeps still (owner_host r).
Proof. apply still_read. Qed.

Lemma still_exec {A} why (f : world -> world * Result A ExecError) : keeps still (exec why f).
Proof. unfold exec. keeps. Qed.

Lemma still_probe_run r h name : keeps still (probe_run r h name).
Proof. apply still_read. Qed.

Lemma still_reading_probe r h shape : keeps still (reading_probe r h shape).
Proof. apply still_read. Qed.
#[local] Hint Resolve still_exec still_probe_run still_reading_probe : keeps.

Lemma still_observe_raw r h p : keeps still (observe_raw r h p).
Proof. unfold observe_raw. keeps. Qed.
#[local] Hint Resolve still_observe_raw : keeps.

Lemma still_observe r h p : keeps still (observe r h p).
Proof. unfold observe. keeps. Qed.

Lemma still_observe_text r h p : keeps still (observe_text r h p).
Proof. unfold observe_text. keeps. Qed.

Lemma still_fact_bytes r h shape : keeps still (fact_bytes r h shape).
Proof. unfold fact_bytes. keeps. Qed.
#[local] Hint Resolve still_fact_bytes : keeps.

Lemma still_foreign_controller {E} x h i ours : keeps still (foreign_controller (E := E) x h i ours).
Proof. unfold foreign_controller. keeps. Qed.
#[local] Hint Resolve still_foreign_controller : keeps.

Lemma still_make_instance_dir x h id c : keeps still (make_instance_dir x h id c).
Proof. unfold make_instance_dir. keeps. Qed.

Lemma still_watched r h at_ : keeps still (watched r h at_).
Proof. unfold watched. keeps. Qed.

Lemma still_marker_of h r f : keeps still (marker_of h r f).
Proof. unfold marker_of. keeps. Qed.

Lemma still_install_on x h id s f t j : keeps still (install_on x h id s f t j).
Proof. unfold install_on. keeps. Qed.

Lemma still_arm_on x h id s tol n sd j : keeps still (arm_on x h id s tol n sd j).
Proof. unfold arm_on. keeps. Qed.

Lemma still_rearm_on x h id s d j : keeps still (rearm_on x h id s d j).
Proof. unfold rearm_on. keeps. Qed.

Lemma still_disarm_on x h id st w j : keeps still (disarm_on x h id st w j).
Proof. unfold disarm_on. keeps. Qed.

Lemma still_file_there {E} x h id rel : keeps still (file_there (E := E) x h id rel).
Proof. unfold file_there. keeps. Qed.
#[local] Hint Resolve still_file_there : keeps.

Lemma still_undone_steps x h r : keeps still (undone_steps x h r).
Proof. unfold undone_steps. keeps. Qed.

Lemma still_reconcile : keeps still reconcile.
Proof. unfold reconcile, reconcile_host, reconcile_dir. keeps. Qed.

Lemma still_orphans : keeps still orphans.
Proof. unfold orphans, orphan_dir. keeps. Qed.

Lemma still_entry_presence h i : keeps still (entry_presence h i).
Proof. unfold entry_presence. keeps. Qed.
#[local] Hint Resolve still_entry_presence : keeps.

Lemma still_reclaim n i f r : keeps still (reclaim n i f r).
Proof. unfold reclaim, reclaim_dir. keeps. Qed.

Lemma still_hold_bound r : keeps still (hold_bound r).
Proof. unfold hold_bound. keeps. Qed.

Lemma still_log_if_known i ev : keeps still (log_if_known i ev).
Proof. unfold log_if_known. keeps. Qed.
#[local] Hint Resolve still_log_if_known : keeps.

Lemma still_reveal id : keeps still (reveal id).
Proof. unfold reveal, take_from. keeps. Qed.

Lemma still_expire_secrets : keeps still expire_secrets.
Proof. unfold expire_secrets. keeps. Qed.

Lemma still_drop_secrets_at_boot : keeps still drop_secrets_at_boot.
Proof. unfold drop_secrets_at_boot. keeps. Qed.

Lemma still_load_secrets env body : keeps still (load_secrets env body).
Proof. unfold load_secrets. keeps. Qed.

Lemma still_all_untouched r h pre : keeps still (all_untouched r h pre).
Proof. induction pre as [|[shape was] pre IH]; cbn [all_untouched]; keeps. Qed.
#[local] Hint Resolve still_all_untouched : keeps.

Lemma still_untouched r o pre : keeps still (untouched r o pre).
Proof. unfold untouched. keeps. Qed.
#[local] Hint Resolve still_untouched : keeps.

Lemma still_judge_fact r h p ms fr acc f : keeps still (judge_fact r h p ms fr acc f).
Proof. unfold judge_fact. keeps. Qed.

Lemma still_remove_dir id name : keeps still (remove_dir id name).
Proof. unfold remove_dir. keeps. Qed.

Lemma still_host_contract r : keeps still (host_contract r).
Proof. pose proof still_owner_host. unfold host_contract. keeps. Qed.
#[local] Hint Resolve still_host_contract : keeps.

Lemma still_contract_changed r : keeps still (contract_changed r).
Proof. unfold contract_changed. keeps. Qed.

Lemma still_authenticators : keeps still authenticators.
Proof. unfold authenticators. keeps. Qed.

Lemma still_elapsed_since r : keeps still (elapsed_since r).
Proof. unfold elapsed_since. keeps. Qed.

Lemma still_opens_all : keeps still opens_all.
Proof. unfold opens_all. keeps. Qed.
#[local] Hint Resolve still_authenticators still_elapsed_since still_opens_all : keeps.

Lemma still_gate_satisfied r s g : keeps still (gate_satisfied r s g).
Proof. unfold gate_satisfied. keeps. Qed.

Lemma still_verify_proof q : keeps still (verify_proof q).
Proof. unfold verify_proof. keeps. Qed.

Lemma still_challenge id s c : keeps still (challenge id s c).
Proof. unfold challenge. keeps. Qed.

Lemma still_never_took r a pre : keeps still (never_took r a pre).
Proof. unfold never_took. keeps. Qed.

Lemma still_reobserve_step r acc a : keeps still (reobserve_step r acc a).
Proof. unfold reobserve_step. keeps. Qed.

Lemma still_journal_migration : keeps still journal_migration.
Proof. unfold journal_migration. keeps. Qed.
End StillHosts.

#[export] Hint Resolve still_owner_host still_exec still_probe_run still_reading_probe still_observe_raw still_observe
  still_observe_text still_fact_bytes still_foreign_controller still_make_instance_dir still_watched still_marker_of
  still_install_on still_arm_on still_rearm_on still_disarm_on still_file_there still_undone_steps still_reconcile
  still_orphans still_entry_presence still_reclaim still_hold_bound still_log_if_known still_reveal
  still_expire_secrets still_drop_secrets_at_boot still_load_secrets still_untouched still_judge_fact
  still_remove_dir still_host_contract still_contract_changed still_authenticators still_elapsed_since
  still_opens_all still_gate_satisfied still_verify_proof still_challenge still_never_took still_reobserve_step
  still_journal_migration : keeps.

(** ** Methods that leave the instance as it was *)

Section Quiet.
Context `{Outside}.

Notation pair := (Engine * InstanceRecord)%type.

(** What of a record says which instance it is, and how far it has come. *)
Definition core (r : InstanceRecord) :=
  (i_id r, i_ir r, i_params r, i_permanent r, i_rehearsal r, i_state r, i_applied r, i_attempting r, i_deferred r).

Definition stored (g : Engine) (id : string) : option InstanceRecord := bm_get id (st_instances (g_store g)).

(** Every record is filed under its id. *)
Record filed (g : Engine) : Prop := mkFiled {
  filed_id id r : stored g id = Some r -> i_id r = id;
  filed_sorted : bm_sorted (st_instances (g_store g));
}.

Lemma filed_same (g g' : Engine) : st_instances (g_store g') = st_instances (g_store g) -> filed g -> filed g'.
Proof. intros Hi [F1 F2]. split; unfold stored; rewrite Hi; [apply F1|done]. Qed.

Lemma filed_insert (g g' : Engine) r :
  st_instances (g_store g') = bm_insert (i_id r) r (st_instances (g_store g)) -> filed g -> filed g'.
Proof.
  intros Hi [F1 F2]. split; unfold stored; rewrite Hi; [|by apply bm_insert_sorted].
  intros id x. destruct (decide (i_id r = id)) as [<-|Hn].
  - rewrite bm_get_insert. by intros [= <-].
  - rewrite bm_get_insert_ne by done. apply F1.
Qed.

(** Nothing runs on a host and the journal only grows; the record keeps its core, and what
    is stored of it is what was there or has that core. No other record is written. *)
Record quiet (s s' : pair) : Prop := mkQuiet {
  quiet_core : core (snd s') = core (snd s);
  quiet_acts : g_acts (fst s') = g_acts (fst s);
  quiet_chain : st_chain (g_store (fst s)) `prefix_of` st_chain (g_store (fst s'));
  quiet_filed : filed (fst s) -> filed (fst s');
  quiet_others id : id <> i_id (snd s) -> stored (fst s') id = stored (fst s) id;
  quiet_stored : stored (fst s') (i_id (snd s)) = stored (fst s) (i_id (snd s))
                 \/ core <$> stored (fst s') (i_id (snd s)) = Some (core (snd s));
}.

Lemma core_id r r' : core r' = core r -> i_id r' = i_id r.
Proof. by intros [=]. Qed.

#[export] Instance quiet_preorder : PreOrder quiet.
Proof.
  split; [by split; [..|left]|].
  intros [g1 r1] [g2 r2] [g3 r3] [C1 A1 P1 W1 O1 S1] [C2 A2 P2 W2 O2 S2]. simpl in *.
  pose proof (core_id _ _ C1) as Hid. rewrite Hid in *. split; simpl.
  - congruence.
  - congruence.
  - by etrans.
  - auto.
  - intros id Hn. rewrite O2 by done. by apply O1.
  - destruct S2 as [->| ->]; [done|]. right. by rewrite C1.
Qed.

Lemma quiet_with_rec {E A} (m : InstanceRecord -> ME E A) : (forall r, keeps still (m r)) -> keeps quiet (with_rec m).
Proof.
  intros Hm [g r]. specialize (Hm r g) as [Hi Ha Hc]. unfold with_rec. destruct (m r g) as [g' x].
  split; simpl in *; try done; [by apply filed_same|..]; unfold stored; rewrite Hi; auto.
Qed.

Lemma quiet_on_engine {E A} (m : ME E A) : keeps still m -> keeps quiet (on_engine m).
Proof. intros Hm. by apply quiet_with_rec. Qed.

Lemma quiet_get_rec {E} : keeps quiet (get_rec (E := E)).
Proof. apply quiet_with_rec. intros r. apply keeps_ret. typeclasses eauto. Qed.

Lemma quiet_update {E} f : (forall r, core (f r) = core r) -> keeps quiet (update (E := E) f).
Proof. intros Hf [g r]. split; simpl; auto. Qed.

Lemma write_instance_spec r g g' res :
  write_instance r g = (g', res) ->
  g_acts g' = g_acts g /\ st_chain (g_store g') = st_chain (g_store g)
  /\ st_instances (g_store g')
     = if is_ok res then bm_insert (i_id r) r (st_instances (g_store g)) else st_instances (g_store g).
Proof.
  unfold write_instance, mthen, outside, change. destruct (disk_write (g_world g)) as [w [[]|e]]; by intros [= <- <-].
Qed.

Lemma persist_spec g r s' res :
  persist (g, r) = (s', res) ->
  snd s' = r /\ g_acts (fst s') = g_acts g /\ st_chain (g_store (fst s')) = st_chain (g_store g)
  /\ st_instances (g_store (fst s'))
     = if is_ok res then bm_insert (i_id r) r (st_instances (g_store g)) else st_instances (g_store g).
Proof.
  unfold persist, with_rec, persist_of, map_err. destruct (write_instance r g) as [g' x] eqn:Hw.
  apply write_instance_spec in Hw. intros [= <- <-]. split; [done|]. by destruct x.
Qed.

Lemma quiet_persist : keeps quiet persist.
Proof.
  intros [g r]. destruct (persist (g, r)) as [[g' r'] res] eqn:Hp. apply persist_spec in Hp as (Hr & Ha & Hc & Hi).
  cbn [fst snd] in *. subst r'. unfold stored in *. destruct (is_ok res).
  - split; cbn [fst snd]; [done|done|by rewrite Hc|by eapply filed_insert| |]; unfold stored; rewrite Hi.
    + intros id Hn. by apply bm_get_insert_ne.
    + right. by rewrite bm_get_insert.
  - split; cbn [fst snd]; [done|done|by rewrite Hc|by apply filed_same| |]; unfold stored; rewrite Hi; auto.
Qed.

Lemma quiet_log ev : keeps quiet (log ev).
Proof. apply quiet_with_rec. eauto with keeps. Qed.
(** [step], its outcome known. *)
Definition traced (r : InstanceRecord) (ev : Event) (g : Engine) : Engine :=
  let o := transition (i_ctx r) (i_state r) ev in
  if o == NotApplicable then g
  else set_trace (g_trace g ++ [mkTransition (i_id r) (i_state r) ev o]) g.

Lemma still_traced r ev g : still g (traced r ev g).
Proof. unfold traced. cbv zeta. case_bool_decide; by split. Qed.

Lemma step_eq ev g r :
  step ev (g, r) =
  match transition (i_ctx r) (i_state r) ev with
  | To s => (do! persist in mret DidMove) (traced r ev g, set_state s r)
  | Stay => ((traced r ev g, r), Ok DidStay)
  | Refuse code =>
      ((traced r ev g, r), Err (ErrNotAdmitted code
        (concats [event_name ev; " in "; state_name (i_state r); " ("; intent_debug (i_intent r); " plan)"])))
  | NotApplicable => ((traced r ev g, r), Err (ErrWrongState (i_state r) (event_name ev)))
  end.
Proof. unfold step, traced. unfold mthen at 1. cbn [get_rec with_rec mret]. by destruct (transition _ _ _). Qed.

End Quiet.

#[export] Hint Resolve quiet_with_rec quiet_on_engine quiet_get_rec quiet_persist quiet_log : keeps.
#[export] Hint Extern 1 (keeps quiet (update _)) => (apply quiet_update; intros ?; repeat case_match; done) : keeps.

Lemma quiet_refusable `{Outside} {E A} (m : ME string A) : keeps still m -> keeps quiet (refusable (E := E) m).
Proof. intros Hm. apply quiet_on_engine. by apply keeps_attempt. Qed.

Ltac keeps_call ::=
  lazymatch goal with
  | |- keeps quiet (on_engine _) => apply quiet_on_engine
  | |- keeps quiet (with_rec _) => apply quiet_with_rec
  | |- keeps quiet (refusable _) => apply quiet_refusable
  end.

Section QuietCalls.
Context `{Outside}.

Lemma quiet_release : keeps quiet release.
Proof. unfold release. keeps. Qed.

Lemma quiet_ensure_instance_dir h : keeps quiet (ensure_instance_dir h).
Proof. unfold ensure_instance_dir. keeps. Qed.
#[local] Hint Resolve quiet_ensure_instance_dir : keeps.

Lemma quiet_snapshot_fact at_ h pre f : keeps quiet (snapshot_fact at_ h pre f).
Proof. unfold snapshot_fact. keeps. Qed.

Lemma quiet_snapshot_facts at_ h fs : forall pre, keeps quiet (snapshot_facts at_ h pre fs).
Proof. pose proof quiet_snapshot_fact. induction fs; intros pre; cbn [snapshot_facts]; keeps. Qed.
#[local] Hint Resolve quiet_snapshot_facts : keeps.

Lemma quiet_snapshot at_ o h : keeps quiet (snapshot at_ o h).
Proof. unfold snapshot. keeps. Qed.

Lemma quiet_write_markers h at_ o : keeps quiet (write_markers h at_ o).
Proof. unfold write_markers. keeps. Qed.

Lemma quiet_remove_staged_file why s : keeps quiet (remove_staged_file why s).
Proof. unfold remove_staged_file. keeps. Qed.
#[local] Hint Resolve quiet_remove_staged_file : keeps.

Lemma quiet_remove_staged n why : keeps quiet (remove_staged n why).
Proof. unfold remove_staged. keeps. Qed.

Lemma quiet_backstop_install : keeps quiet backstop_install.
Proof. unfold backstop_install. keeps. Qed.

Lemma quiet_backstop_arm : keeps quiet backstop_arm.
Proof. unfold backstop_arm. keeps. Qed.

Lemma quiet_backstop_rearm d : keeps quiet (backstop_rearm d).
Proof. unfold backstop_rearm. keeps. Qed.

Lemma quiet_backstop_disarm d : keeps quiet (backstop_disarm d).
Proof. unfold backstop_disarm. keeps. Qed.
#[local] Hint Resolve quiet_backstop_disarm : keeps.

Lemma quiet_backstop_fired_after_abandon : keeps quiet backstop_fired_after_abandon.
Proof. unfold backstop_fired_after_abandon. keeps. Qed.

Lemma quiet_offer l v t u c : keeps quiet (offer l v t u c).
Proof. unfold offer. keeps. Qed.
#[local] Hint Resolve quiet_offer : keeps.

Lemma quiet_deliver_secret l v : keeps quiet (deliver_secret l v).
Proof. unfold deliver_secret. keeps. Qed.

Lemma quiet_drop_secrets why : keeps quiet (drop_secrets why).
Proof. unfold drop_secrets. keeps. Qed.

Lemma quiet_remove_dirs : keeps quiet remove_dirs.
Proof. unfold remove_dirs. keeps. Qed.

Lemma quiet_notify_unbounded : keeps quiet notify_unbounded.
Proof. unfold notify_unbounded. keeps. Qed.

Lemma quiet_keep_proof s a u : keeps quiet (keep_proof s a u).
Proof. unfold keep_proof. keeps. Qed.
#[local] Hint Resolve quiet_keep_proof : keeps.

Lemma quiet_ack_opens n g reason proof a u : keeps quiet (ack_opens n g reason proof a u).
Proof. unfold ack_opens. keeps. Qed.
End QuietCalls.

#[export] Hint Resolve quiet_release quiet_ensure_instance_dir quiet_snapshot quiet_write_markers
  quiet_remove_staged quiet_backstop_install quiet_backstop_arm quiet_backstop_rearm quiet_backstop_disarm
  quiet_backstop_fired_after_abandon quiet_deliver_secret quiet_drop_secrets quiet_remove_dirs quiet_notify_unbounded
  quiet_keep_proof quiet_ack_opens : keeps.

(** ** The containers of the walk *)

Section Containers.
Context `{Outside} (R : relation (Engine * InstanceRecord)) `{!PreOrder R}.

Lemma keeps_walk_seq (f : Item -> N -> M EngineError (Flow * N)) items :
  Forall (fun it => forall n, keeps R (f it n)) items -> forall n, keeps R (walk_seq f items n).
Proof.
  induction 1 as [|it rest Hit _ IH]; intros n; cbn [walk_seq]; [by apply keeps_ret|].
  apply keeps_then; [done|apply Hit|]. intros [[] leaf]; [apply IH|by apply keeps_ret].
Qed.

Lemma keeps_walk_values (body : N -> gmap string string -> M EngineError (Flow * N)) var vars values :
  (forall i inner, keeps R (body i inner)) -> forall i, keeps R (walk_values body var vars i values).
Proof.
  intros Hb. induction values as [|v rest IH]; intros i; cbn [walk_values]; [by apply keeps_ret|].
  apply keeps_then; [done|apply Hb|]. intros [[] leaf]; [apply IH|by apply keeps_ret].
Qed.

(** What every leaf, every list and every choice keep, the walk of an item keeps. *)
Lemma keeps_walk_item it :
  (forall n i it vars, keeps R (walk_leaf n i it vars)) -> (forall form vars, keeps R (repeat_values form vars)) ->
  (forall g n, keeps R (choose_arm g n)) -> forall i vars n, keeps R (walk_item it i vars n).
Proof.
  intros Hleaf Hrep Harm.
  assert (Hl : forall i vars n it, keeps R (let! flow := walk_leaf n i it vars in mret (flow, (n + 1)%N))).
  { intros. apply keeps_then; [done|apply Hleaf|]. intros. by apply keeps_ret. }
  induction it using item_ind; intros i vars n; try apply Hl; cbn [walk_item].
  - apply keeps_walk_seq. eapply Forall_impl; [eassumption|]. intros c Hc m. apply Hc.
  - apply keeps_then; [done|apply Hrep|]. intros values. apply keeps_then; [done| |intros; by apply keeps_ret].
    apply keeps_walk_values. intros j inner. apply keeps_walk_seq.
    eapply Forall_impl; [eassumption|]. intros c Hc m. apply Hc.
  - apply keeps_then; [done|apply Harm|]. intros [[]|flow]; [|apply keeps_walk_seq|by apply keeps_ret].
    + apply keeps_then; [done| |intros; by apply keeps_ret]. apply keeps_walk_seq.
      eapply Forall_impl; [eassumption|]. intros c Hc m. apply Hc.
    + eapply Forall_impl; [eassumption|]. intros c Hc m. apply Hc.
Qed.

Lemma keeps_walk_items items :
  (forall n i it vars, keeps R (walk_leaf n i it vars)) -> (forall form vars, keeps R (repeat_values form vars)) ->
  (forall g n, keeps R (choose_arm g n)) -> forall i vars n, keeps R (walk_items items i vars n).
Proof.
  intros Hleaf Hrep Harm i vars n. apply keeps_walk_seq. apply Forall_forall. intros it _ m.
  by apply keeps_walk_item.
Qed.
End Containers.
