(* ===== verification/Upkeep.v ===== *)
(** * Opening an engine and looking after its hosts

    [Engine::open] and the setters of [engine/src/lifecycle.rs], [bootstrap] and [doctor],
    and [doctor --canary] of [engine/src/backstop.rs], which installs a throwaway artifact
    and waits for it to fire. *)

From Stdlib Require Import Ascii.
From stdpp Require Import base strings pretty numbers option sets gmap list.
From S2P Require Import Prelude Model Backstop States Ledger Journal EngineJournal Resolve Footprint Ordered Render.
From S2P Require Import Monad Executor Instance Engine Hosts EngineBackstop EngineLogic Fakes.

(** ** What a target lacks *)

Definition command_when (missing : bool) (command : string) : list string := if missing then [command] else [].

Definition bootstrap_commands (os root : string) (st : BootstrapState) : list string :=
  if os == "windows" then
    command_when (negb (bt_group st)) "New-LocalGroup -Name rescind"
    ++ (if negb (bt_rescind_root st) || negb (bt_instances_dir st) || negb (bt_lock st) || negb (bt_modes_ok st) then
          [concats ["New-Item -ItemType Directory -Force "; root; "\instances"];
           concats ["New-Item -ItemType File -Force "; root; "\lock"];
           concats ["icacls "; root; "\instances /grant rescind:(OI)(CI)M; icacls "; root; "\lock /grant rescind:M"]]
        else [])
  else
    command_when (negb (bt_group st))
      (if (os == "freebsd") || (os == "dragonfly") then "pw groupadd rescind" else "groupadd rescind")
    ++ command_when (negb (bt_rescind_root st)) ("install -d -o root -m 0755 " +:+ root)
    ++ command_when (negb (bt_instances_dir st) || negb (bt_modes_ok st))
         (concats ["install -d -o root -g rescind -m 2770 "; root; "/instances"])
    ++ command_when (negb (bt_lock st) || negb (bt_modes_ok st))
         (concats ["install -o root -g rescind -m 0664 /dev/null "; root; "/lock"]).

(** [controller_host]; [os] is [std::env::consts::OS]. *)
Definition controller_host (os : string) : EHost :=
  let os := if (os == "macos") || (os == "windows") || (os == "freebsd") then os else "linux" in
  mkEHost (mkHostRecord "controller" os ["local"] true true None) "127.0.0.1" None None ∅.

Record HostDoctor := mkHostDoctor {
  hd_name : string;
  hd_executor : option string;
  hd_bootstrap : option BootstrapState;
  hd_scheduler : option string;
  hd_scheduler_bound : bool;
}.

Record DoctorReport := mkDoctorReport {
  dc_hosts : list HostDoctor;
  dc_orphans : list (string * string);
  dc_foreign : list (string * string);
  dc_sinks : list string;
  dc_signed : bool;
  dc_settling : bool;
  dc_instances : nat;
}.

Definition healthy_host (h : HostDoctor) : bool :=
  is_some (hd_executor h) && match hd_bootstrap h with Some b => ready b | None => false end.

Definition healthy (d : DoctorReport) : bool := negb (dc_settling d) && forallb healthy_host (dc_hosts d).

(** ** A canary *)

Record Canary := mkCanary {
  cy_host : string;
  cy_scheduler : string;
  cy_fired : bool;
  cy_after_s : option N;
  cy_note : string;
}.

Definition with_note (note : string) (c : Canary) : Canary :=
  mkCanary (cy_host c) (cy_scheduler c) (cy_fired c) (cy_after_s c) note.

Definition canary_text (inst : string) : string :=
  concats
    ["#!/bin/sh"; newline;
     "# rescind canary: proves this host's scheduler runs what rescind installs."; newline;
     "[ -e '"; inst; "/fired' ] && exit 0"; newline;
     "now=$(date +%s)"; newline;
     "d=$(cat '"; inst; "/deadline' 2>/dev/null || echo 0)"; newline;
     "[ "; dquote; "$now"; dquote; " -ge "; dquote; "$d"; dquote; " ] || exit 0"; newline;
     ": > '"; inst; "/fired'"; newline;
     "exit 0"; newline].

(** [note.split_whitespace().next()], or the empty text. *)
Fixpoint first_run (s : string) : string :=
  match s with
  | EmptyString => EmptyString
  | String c r => if is_space c then EmptyString else String c (first_run r)
  end.

Definition first_word (s : string) : string := first_run (trim_start s).

Definition canary_prefix : string := "rescind-canary-".

(** The id [canary_clean] reads out of the note. *)
Definition noted_id (c : Canary) : string :=
  let w := first_word (cy_note c) in if starts_with canary_prefix w then w else EmptyString.

Definition SECOND : N := 1000000000.

Section Upkeep.
Context `{Outside}.

(** ** Opening *)

Definition keyed (hosts : list EHost) : BMap EHost := bm_of_list (map (fun h => (eh_name h, h)) hosts).

(** [Store::read_ledger] *)
Definition read_ledger (s : StoreDir) (w : world) : world * Result Ledger EngineError :=
  match disk_read w with
  | (w, Err e) => (w, Err (ErrStore e))
  | (w, Ok _) => (w, match to_ledger (st_ledger s) with Ok l => Ok l | Err e => Err (ErrStore e) end)
  end.

Definition was_settling (s : StoreDir) (w : world) : world * bool :=
  match disk_read w with
  | (w, Err _) => (w, false)
  | (w, Ok _) => (w, (m ← st_meta s !! "settle"; m !! "settling") == Some "true")
  end.

Definition open_engine (os : string) (w : world) (s : StoreDir) (j : EJournal (S := sink)) (xs : list executor)
    (hosts : list EHost) : world * Result Engine EngineError :=
  let '(w, l) := read_ledger s w in
  match l with
  | Err e => (w, Err e)
  | Ok l =>
      let '(w, settling) := was_settling s w in
      (w, Ok (mkEngine _ w s j xs [] None [] None None (keyed hosts) (controller_host os) l DEFAULT_SKEW_TOLERANCE
                settling [] []))
  end.

Definition set_hosts (hosts : list EHost) (g : Engine) : Engine :=
  mkEngine _ (g_world g) (g_store g) (g_journal g) (g_executors g) (g_schedulers g) (g_approval g) (g_acceptors g)
    (g_source g) (g_notify g) (keyed hosts) (g_controller g) (g_ledger g) (g_skew_tolerance g) (g_settling g)
    (g_trace g) (g_acts g).

(** [Engine::status] *)
Definition status (id : string) : ME EngineError (option InstanceRecord) := map_err ErrStore (read_instance id).

(** Each host is filed under its own name, and the controller under its. *)
Record well_keyed (g : Engine) : Prop := mkWellKeyed {
  wk_hosts : forall name h, bm_get name (g_hosts g) = Some h -> eh_name h = name;
  wk_controller : eh_name (g_controller g) = "controller";
}.

(** ** Bootstrap and doctor *)

Definition bootstrap (host : string) : ME EngineError (BootstrapState * list string) :=
  let! h := ask (fun g => host_of g host) in
  match h with
  | None => mthrow (ErrNoSuchInstance ("no host record for " +:+ host))
  | Some h =>
      let! x := ask (fun g => executor_for g h) in
      match x with
      | None => mthrow (ErrInternal ("no executor reaches " +:+ host))
      | Some x =>
          let! st := map_err ErrInternal (exec (fun e => concats [host; ": "; e]) (ex_bootstrap_state x h)) in
          let os := hr_os (eh_record h) in
          mret (st, bootstrap_commands os (unwrap_or (eh_rescind_root h) (default_root (shell_of os))) st)
      end
  end.

Definition doctor_host (h : EHost) : ME EngineError HostDoctor :=
  let! x := ask (fun g => executor_for g h) in
  let! reached := ask (fun g => (fun x => transport (ex_locus x (g_world g))) <$> x) in
  let! state := match x with
                | Some x => let! res := outside (ex_bootstrap_state x h) in
                            mret match res with Ok b => Some b | Err _ => None end
                | None => mret None
                end in
  let! bound := ask (fun g => match eh_scheduler h with
                              | Some n => is_some (scheduler_named g n)
                              | None => false
                              end) in
  mret (mkHostDoctor (eh_name h) reached state (eh_scheduler h) bound).

Definition doctor_entry (v : list HostDoctor) (e : string * EHost) : ME EngineError (list HostDoctor) :=
  let! d := doctor_host (snd e) in
  mret (v ++ [mkHostDoctor (fst e) (hd_executor d) (hd_bootstrap d) (hd_scheduler d) (hd_scheduler_bound d)]).

(** [Store::instance_ids] *)
Definition instance_count : ME EngineError nat :=
  let! listed := outside disk_read in
  do! map_err ErrStore (lift listed) in
  ask (fun g => length (st_instances (g_store g))).

Definition doctor : ME EngineError DoctorReport :=
  let! entries := ask g_hosts in
  let! hosts := fold_each doctor_entry [] entries in
  let! found := orphans in
  let! n := instance_count in
  let! j := ask g_journal in
  let! settling := ask g_settling in
  mret (mkDoctorReport hosts (fst found) (snd found) (map sink_name (ej_sinks j)) (is_some (ej_signer j)) settling n).

(** ** [doctor --canary] *)

Definition canary_id {E} : ME E string :=
  let! n := outside draw_nonce in mret (canary_prefix +:+ to_hex_bytes (String.substring 0 6 n)).

Definition instances_dir (h : EHost) (id : string) : string :=
  concats [root (mkArtifactInstance id (eh_rescind_root h)) (shell_of (hr_os (eh_record h))); "/instances/"; id].

Definition no_transport (h : EHost) : string := "no transport reaches " +:+ eh_name h.

(** The directory, the artifact and the scheduler's entry. *)
Definition canary_install (h : EHost) (sched_name id : string) : ME string unit :=
  let inst := instances_dir h id in
  let! x := ask (fun g => executor_for g h) in
  match x with
  | None => mthrow (no_transport h)
  | Some x =>
      let! st := outside (ex_bootstrap_state x h) in
      do! (match st with
           | Ok b => if ready b then mret tt else mthrow (concats ["R0407: "; eh_name h; " is not bootstrapped"])
           | Err e => mthrow (concats [eh_name h; ": "; display_exec_error e])
           end) in
      do! exec (fun e => "the canary's directory: " +:+ e) (ex_instance_dir_create x h id) in
      let! _ := outside (ex_remove_file x h id "fired") in
      do! exec (fun e => "the canary's artifact: " +:+ e) (ex_put_file x h id "artifact.sh" (canary_text inst) 488) in
      let! d := ask (fun g => scheduler_named g sched_name) in
      match d with
      | None => mthrow ("R0401: no scheduler binding named " +:+ sched_name)
      | Some d =>
          exec (fun e => "R0401: the canary's entry: " +:+ e)
            (sc_install d x h (mkJob id (inst +:+ "/artifact.sh") Sh (hr_os (eh_record h))))
      end
  end.

(** Armed with a deadline already past. *)
Definition canary_arm (h : EHost) (id : string) : ME string unit :=
  let! at_ := now in
  let! x := ask (fun g => executor_for g h) in
  match x with
  | None => mthrow (no_transport h)
  | Some x => exec (fun e => "the canary's deadline: " +:+ e) (ex_replace_file x h id "deadline" (epoch_text at_))
  end.

Inductive Watch := Saw (after_s : N) | Lapsed | OutOfTurns.

(** The loop that waits for the marker. *)
Fixpoint canary_wait (turns : nat) (h : EHost) (id : string) (start bound : N) : ME string Watch :=
  match turns with
  | O => mret OutOfTurns
  | S turns =>
      let! t := outside stopwatch in
      if (bound <=? t - start)%N then mret Lapsed
      else
        do! outside (fun w => (sleep 2 w, tt)) in
        let! x := ask (fun g => executor_for g h) in
        match x with
        | None => mret Lapsed
        | Some x =>
            let! fired := file_there x h id "fired" in
            if fired then let! t := outside stopwatch in mret (Saw ((t - start) / SECOND)%N)
            else canary_wait turns h id start bound
        end
  end.

Definition did_not_fire (h : EHost) (sched_name id : string) (wait : Duration) : string :=
  concats [id; " did not fire within "; show wait; "s; "; sched_name; " on "; eh_name h; " runs nothing rescind installs"].

(** [canary_on]: what it leaves in the canary, and why nothing fired. *)
Definition canary_on (turns : nat) (h : EHost) (sched_name : string) (wait : Duration) (c : Canary) : ME EngineError Canary :=
  let! id := canary_id in
  if shell_of (hr_os (eh_record h)) == ShellPowershell then
    mret (with_note "a canary on Windows is Phase 3W's; no artifact is installed" c)
  else
    let! ready_ := attempt (do! canary_install h sched_name id in canary_arm h id) in
    match ready_ with
    | Err why => mret (with_note why c)
    | Ok _ =>
        let! start := outside stopwatch in
        let! seen := attempt (canary_wait turns h id start (wait * SECOND)%N) in
        match seen with
        | Ok (Saw s) => mret (mkCanary (cy_host c) (cy_scheduler c) true (Some s) (id +:+ " fired"))
        | Ok Lapsed => mret (with_note (did_not_fire h sched_name id wait) c)
        | Ok OutOfTurns => mthrow (ErrInternal "the canary was given too few turns")
        | Err why => mret (with_note why c)
        end
    end.

Definition canary_clean (h : EHost) (sched_name : string) (c : Canary) : ME EngineError unit :=
  let id := noted_id c in
  if id == EmptyString then mret tt
  else
    let! x := ask (fun g => executor_for g h) in
    match x with
    | None => mret tt
    | Some x =>
        let! d := ask (fun g => scheduler_named g sched_name) in
        do! (match d with
             | Some d => let! _ := outside (sc_disarm d x h (mkJob id EmptyString Sh (hr_os (eh_record h)))) in mret tt
             | None => mret tt
             end) in
        let! _ := outside (ex_instance_dir_remove x h id) in
        mret tt
    end.

Definition canary_of (turns : nat) (wait : Duration) (out : list Canary) (h : EHost) : ME EngineError (list Canary) :=
  match eh_scheduler h with
  | None => mret out
  | Some sched_name =>
      let! c := canary_on turns h sched_name wait (mkCanary (eh_name h) sched_name false None EmptyString) in
      do! canary_clean h sched_name c in
      mret (out ++ [c])
  end.

(** One turn for each second of the wait and one more: each turn but the last sleeps two. *)
Definition canary (wait : Duration) : ME EngineError (list Canary) :=
  let! hosts := ask (fun g => map snd (g_hosts g)) in
  fold_each (canary_of (S (N.to_nat wait)) wait) [] hosts.
End Upkeep.

(** ** What opening and looking after establish *)

Lemma command_when_nil b c : command_when b c = [] <-> b = false.
Proof. by destruct b. Qed.

(** Nothing is left to do exactly on a host that is ready, whatever its system. *)
Theorem bootstrap_commands_exact os root st : bootstrap_commands os root st = [] <-> ready st = true.
Proof.
  destruct st as [r g i l m]. unfold bootstrap_commands, ready. cbn [bt_rescind_root bt_group bt_instances_dir bt_lock bt_modes_ok].
  case_match; [destruct r, g, i, l, m; cbn; naive_solver|].
  rewrite !app_nil_iff, !command_when_nil. destruct r, g, i, l, m; cbn; naive_solver.
Qed.

Section Keyed.
Context `{Outside}.

Lemma keyed_get hosts name h : bm_get name (keyed hosts) = Some h -> eh_name h = name.
Proof.
  unfold keyed, bm_of_list.
  enough (Hg : forall m, (forall n x, bm_get n m = Some x -> eh_name x = n) ->
    forall n x, bm_get n (foldl (fun m e => bm_insert (fst e) (snd e) m) m (map (fun h => (eh_name h, h)) hosts)) = Some x -> eh_name x = n).
  { apply Hg. done. }
  induction hosts as [|x hosts IH]; intros m Hm; [done|]. cbn [map foldl]. apply IH. intros n y.
  cbn [fst snd]. destruct (decide (n = eh_name x)) as [->|Hn].
  - rewrite bm_get_insert. by intros [= <-].
  - rewrite bm_get_insert_ne by done. apply Hm.
Qed.

Lemma open_well_keyed os w s j xs hosts w' g : open_engine os w s j xs hosts = (w', Ok g) -> well_keyed g.
Proof.
  unfold open_engine. destruct (read_ledger s w) as [w1 [l|]]; [|done]. destruct (was_settling s w1) as [w2 b].
  intros [= _ <-]. split; cbn [g_hosts g_controller]; [apply keyed_get|done].
Qed.

Lemma set_hosts_well_keyed hosts g : well_keyed g -> well_keyed (set_hosts hosts g).
Proof. intros [_ Hc]. split; cbn; [apply keyed_get|done]. Qed.

(** A name finds one host, which bears it. *)
Lemma host_of_name g name h : well_keyed g -> host_of g name = Some h -> eh_name h = name.
Proof.
  intros [Hh Hc]. unfold host_of. case_bool_decide as Hn; [intros [= <-]; by rewrite Hc|apply Hh].
Qed.

(** ** What they leave alone *)

Lemma still_status id : keeps still (status id).
Proof. unfold status. keeps. Qed.

Lemma still_bootstrap host : keeps still (bootstrap host).
Proof. unfold bootstrap. keeps. Qed.

Lemma still_doctor_entry v e : keeps still (doctor_entry v e).
Proof. unfold doctor_entry, doctor_host. keeps. Qed.
#[local] Hint Resolve still_doctor_entry : keeps.

Lemma still_doctor : keeps still doctor.
Proof. unfold doctor, instance_count. keeps. Qed.

Lemma still_canary_install h s id : keeps still (canary_install h s id).
Proof. unfold canary_install. keeps. Qed.

Lemma still_canary_arm h id : keeps still (canary_arm h id).
Proof. unfold canary_arm. keeps. Qed.

Lemma still_canary_wait turns h id start bound : keeps still (canary_wait turns h id start bound).
Proof. induction turns as [|turns IH]; cbn [canary_wait]; keeps. Qed.

Lemma still_canary_clean h s c : keeps still (canary_clean h s c).
Proof. unfold canary_clean. keeps. Qed.

Lemma still_canary_id {E} : keeps still (canary_id (E := E)).
Proof. unfold canary_id. keeps. Qed.
#[local] Hint Resolve still_canary_install still_canary_arm still_canary_wait still_canary_clean still_canary_id : keeps.

Lemma still_canary_on turns h s wait c : keeps still (canary_on turns h s wait c).
Proof. unfold canary_on. keeps. Qed.
#[local] Hint Resolve still_canary_on : keeps.

Lemma still_canary wait : keeps still (canary wait).
Proof. unfold canary, canary_of. keeps. Qed.
End Keyed.

#[export] Hint Resolve still_status still_bootstrap still_doctor still_canary : keeps.

(** ** The canary comes to an end *)

(** What the standard library says of its clock: it does not run backwards, and a sleep
    does not end early. *)
Class Timely `{Outside} := {
  stopwatch_runs w : (snd (stopwatch w) <= snd (stopwatch (fst (stopwatch w))))%N;
  sleep_lasts n w : (snd (stopwatch w) + n * SECOND <= snd (stopwatch (sleep n w)))%N;
  reading_takes_time x h id rel w : (snd (stopwatch w) <= snd (stopwatch (fst (ex_get_file x h id rel w))))%N;
}.

Section Ends.
Context `{Timely}.

Definition reading (g : Engine) : N := snd (stopwatch (g_world g)).

(** A turn of the loop either sees, or gives up, or takes two seconds. *)
Lemma canary_wait_ends turns h id start bound g :
  (start <= reading g)%N -> (bound <= (reading g - start) + 2 * SECOND * N.of_nat turns)%N ->
  exists g' seen, canary_wait (S turns) h id start bound g = (g', Ok seen) /\ seen <> OutOfTurns.
Proof.
  revert g. induction turns as [|turns IH]; intros g Hle Hb; cbn [canary_wait]; unfold mthen at 1, outside at 1;
    pose proof (stopwatch_runs (g_world g)) as H1; unfold reading, SECOND in Hle, Hb; destruct (stopwatch (g_world g)) as [w t] eqn:Hw; cbn [fst snd] in *.
  { assert (Hl : (bound <=? t - start)%N = true) by (apply N.leb_le; lia). rewrite Hl. by eexists _, _. }
  destruct (bound <=? t - start)%N eqn:Hl; [by eexists _, _|]. apply N.leb_gt in Hl.
  unfold mthen at 1, outside at 1. unfold mthen at 1, ask at 1.
  cbn [set_world g_world eta_engine]. pose proof (sleep_lasts 2 w) as H2.
  match goal with |- context [executor_for ?gg h] => destruct (executor_for gg h) as [x|]; [|by eexists _, _] end.
  unfold mthen at 1, file_there at 1. unfold mthen at 1, outside at 1. cbn [set_world g_world eta_engine].
  pose proof (reading_takes_time x h id "fired" (sleep 2 w)) as H3.
  destruct (ex_get_file x h id "fired" (sleep 2 w)) as [w' res] eqn:Hg. cbn [fst snd] in *. unfold mret at 1.
  destruct (is_ok res).
  - unfold mthen, outside. cbn [set_world g_world eta_engine]. destruct (stopwatch w') as [w'' t'']. by eexists _, _.
  - apply IH; unfold reading, SECOND in *; cbn [set_world g_world eta_engine]; lia.
Qed.

Definition succeeds {E A} (m : ME E A) : Prop := forall g, exists g' x, m g = (g', Ok x).

Lemma succeeds_then {E A B} (m : ME E A) (k : A -> ME E B) : succeeds m -> (forall x, succeeds (k x)) -> succeeds (mthen m k).
Proof. intros Hm Hk g. unfold mthen. destruct (Hm g) as (g' & x & ->). apply Hk. Qed.

Lemma succeeds_ret {E A} (x : A) : succeeds (mret (S := Engine) (E := E) x).
Proof. intros g. by eexists _, _. Qed.

Lemma succeeds_ask {E A} (f : Engine -> A) : succeeds (ask (E := E) f).
Proof. intros g. by eexists _, _. Qed.

Lemma succeeds_outside {E A} (f : world -> world * A) : succeeds (outside (E := E) f).
Proof. intros g. unfold outside. destruct (f (g_world g)). by eexists _, _. Qed.

Lemma succeeds_attempt {E F A} (m : ME E A) : succeeds (attempt (F := F) m).
Proof. intros g. unfold attempt. destruct (m g) as [g' res]. by eexists _, _. Qed.

#[local] Hint Resolve succeeds_then succeeds_ret succeeds_ask succeeds_outside succeeds_attempt : core.

Lemma canary_on_succeeds h s wait c : succeeds (canary_on (S (N.to_nat wait)) h s wait c).
Proof.
  unfold canary_on. apply succeeds_then; [unfold canary_id; eauto|]. intros id. case_bool_decide; [apply succeeds_ret|].
  apply succeeds_then; [apply succeeds_attempt|]. intros [[]|why]; [|apply succeeds_ret].
  intros g. unfold mthen at 1, outside at 1. pose proof (stopwatch_runs (g_world g)) as Hr.
  destruct (stopwatch (g_world g)) as [w start] eqn:Hw. cbn [fst snd] in Hr. unfold mthen at 1, attempt at 1.
  edestruct (canary_wait_ends (N.to_nat wait) h id start (wait * SECOND)%N) as (g' & seen & -> & Hs);
    [exact Hr| |destruct seen; [by eexists _, _|by eexists _, _|done]].
  rewrite N2Nat.id. unfold SECOND. lia.
Qed.

Lemma canary_clean_succeeds h s c : succeeds (canary_clean h s c).
Proof.
  unfold canary_clean. case_bool_decide; [apply succeeds_ret|]. apply succeeds_then; [apply succeeds_ask|]. intros [x|]; [|apply succeeds_ret].
  apply succeeds_then; [apply succeeds_ask|]. intros [d|]; repeat (apply succeeds_then; [eauto|intros ?]); eauto.
Qed.

(** [doctor --canary] always comes back with its list: the turns its loop is given are
    enough, however long the wait, and nothing it meets on a host stops it. *)
Theorem canary_answers wait g : exists g' cs, canary wait g = (g', Ok cs).
Proof.
  revert g. apply succeeds_then; [apply succeeds_ask|]. intros hosts.
  enough (Hf : forall out, succeeds (fold_each (canary_of (S (N.to_nat wait)) wait) out hosts)) by apply Hf.
  induction hosts as [|h hosts IH]; intros out; [apply succeeds_ret|].
  cbn [fold_each]. apply succeeds_then; [|intros ?; apply IH].
  unfold canary_of. destruct (eh_scheduler h) as [s|]; [|apply succeeds_ret].
  apply succeeds_then; [apply canary_on_succeeds|]. intros c. apply succeeds_then; [apply canary_clean_succeeds|]. intros. apply succeeds_ret.
Qed.
End Ends.

#[export] Instance fake_timely : Timely.
Proof.
  split.
  - done.
  - intros n w. cbn. unfold SECOND. lia.
  - intros x h id rel w. cbn. unfold with_executor.
    by destruct (fake_get h id rel (unwrap_or (fw_executors w !! x) lost_executor)).
Qed.

Lemma canary_answers_witness : exists g' cs, canary 4 demo_engine = (g', Ok cs).
Proof. apply (canary_answers 4 demo_engine). Defined.

(** ** A canary that fails is not cleaned up *)

(** The site bound no scheduler of the host's name: the directory and the artifact were
    written by then, and [canary_clean] finds no id in the note. *)
Definition unbound_engine : Engine := set_hosts [mkEHost (eh_record demo_engine_host) "10.0.0.1" (Some "at") None ∅] demo_engine.

Example canary_leaves_its_directory :
  let '(g, out) := canary 4 unbound_engine in
  out = Ok [mkCanary "web1" "at" false None "R0401: no scheduler binding named at"]
  /\ map fe_dirs (fw_executors (g_world g)) = [[]; [("web1", "rescind-canary-000000000000")]].
Proof. vm_compute. split; reflexivity. Qed.
