(* ===== verification/Drill.v ===== *)
(** * Drills ([engine/src/lifecycle.rs])

    A drill applies a plan to a canary host, recants it, and attests that the facts of the
    plan's footprint came back. [drill_spares_other_hosts] is what stands before it: a plan
    with one step elsewhere is refused before anything is read or run.
    [restored_was_read_twice] is what an attestation says. *)

From Stdlib Require Import Ascii.
From stdpp Require Import base strings pretty numbers option sets gmap list relations.
From S2P Require Import Prelude Model Algebra Interference Intent States Ledger Journal EngineJournal Resolve Footprint Ordered.
From S2P Require Import Monad Executor Instance Engine Hosts Verbs EngineLogic Upkeep Fakes.

(** ** What is attested *)

Record DrilledFact := mkDrilledFact {
  dr_host : string;
  dr_shape : string;
  dr_before : option string;
  dr_after : option string;
  dr_unread : option string;
}.

(** [DrilledFact::restored] *)
Definition fact_restored (f : DrilledFact) : bool :=
  match dr_unread f with None => dr_before f == dr_after f | Some _ => false end.

Definition absent_or (x : option string) : string := unwrap_or x "absent".

(** [DrilledFact::line] *)
Definition fact_line (f : DrilledFact) : string :=
  match dr_unread f with
  | Some why => concats [dr_host f; " "; dr_shape f; " unread="; why]
  | None => concats [dr_host f; " "; dr_shape f; " before="; absent_or (dr_before f); " after="; absent_or (dr_after f)]
  end.

Record Attestation := mkAttestation {
  at_plan : string;
  at_instance : string;
  at_hosts : list string;
  at_facts : list DrilledFact;
  at_restored : bool;
  at_line : string;
  at_exit : N;
}.

(** The two reads of a drill and how it went. *)
Record Attested := mkAttested {
  ad_plan : string;
  ad_instance : string;
  ad_hosts : list EHost;
  ad_before : list DrilledFact;
  ad_after : list DrilledFact;
  ad_exit : N;
  ad_why : string;
}.

Definition same_fact (a b : DrilledFact) : bool := (dr_host a == dr_host b) && (dr_shape a == dr_shape b).

(** A fact of the first read with what the second says of it. *)
Definition pair_reads (after : list DrilledFact) (b : DrilledFact) : DrilledFact :=
  let a := List.find (fun a => same_fact a b) after in
  mkDrilledFact (dr_host b) (dr_shape b) (dr_before b) (f ← a; dr_before f)
    (match dr_unread b with Some why => Some why | None => f ← a; dr_unread f end).

Definition all_restored (exit : N) (why : string) (facts : list DrilledFact) : bool :=
  (exit =? 0)%N && negb (facts == []) && forallb fact_restored facts && (why == EmptyString).

#[export] Instance DrilledFact_eq_dec : EqDecision DrilledFact.
Proof. solve_decision. Defined.

Definition attest_line (plan names why : string) (restored : bool) (facts : list DrilledFact) : string :=
  if restored then concats [plan; " on "; names; ": drilled; "; show_nat (length facts); " fact(s) restored"]
  else if negb (why == EmptyString) then concats [plan; " on "; names; ": not attested; "; why]
  else match facts with
  | [] => concats [plan; " on "; names; ": not attested; the plan's footprint named no fact this engine could read"]
  | _ => concats [plan; " on "; names; ": not attested; ";
                  join "; " (map fact_line (List.filter (fun f => negb (fact_restored f)) facts))]
  end.

(** ** The hosts *)

(** [roles.split(',').any(|r| r.trim() == role)]; the fuel is the length. *)
Fixpoint split_char_loop (fuel : nat) (c : ascii) (s : string) : list string :=
  match fuel with
  | O => [s]
  | S fuel =>
      match split_at_char c s with
      | Some (a, b) => a :: split_char_loop fuel c b
      | None => [s]
      end
  end.

Definition split_char (c : ascii) (s : string) : list string := split_char_loop (String.length s) c s.

Definition host_roles (h : EHost) : string := unwrap_or (eh_facts h !! "roles") EmptyString.

Definition is_canary (h : EHost) : bool := existsb (fun r => trim r == "canary") (split_char (chr 44) (host_roles h)).

Definition add_host (hosts : list EHost) (h : EHost) : list EHost :=
  if existsb (fun x => eh_name x == eh_name h) hosts then hosts else hosts ++ [h].

Definition runtime_host (r : InstanceRecord) (b : string) : EngineError :=
  ErrRuntime (concats ["R0410: "; plan_id (i_plan r); " binds a step's host at runtime ("; b;
                       "); a drill names its canary before it runs"]).

Definition not_a_canary (h : EHost) : EngineError :=
  ErrRuntime (concats ["R0410: "; eh_name h; " is not a canary (roles: ";
                       (if host_roles h == EmptyString then "none" else host_roles h);
                       "); a drill applies a real plan to a real host, and only a host the inventory declares `canary` may be it"]).

Definition permanent_drill (r : InstanceRecord) : EngineError :=
  ErrRuntime (concats ["R0410: "; plan_id (i_plan r);
    " is a permanent plan; a drill has to undo what it did, and a permanent plan is not recanted"]).

Section Drill.
Context `{Outside}.

Fixpoint step_hosts (g : Engine) (r : InstanceRecord) (hosts : list EHost) (items : list (N * Item))
    : Result (list EHost) EngineError :=
  match items with
  | [] => Ok hosts
  | (_, it) :: rest =>
      match op_of it with
      | None => step_hosts g r hosts rest
      | Some o =>
          match step_host g r o with
          | Ok h => step_hosts g r (add_host hosts h) rest
          | Err b => Err (runtime_host r b)
          end
      end
  end.

Definition drill_hosts (g : Engine) (r : InstanceRecord) : Result (list EHost) EngineError :=
  let? hosts := step_hosts g r [] (numbered (plan_body (i_plan r))) in
  match List.find (fun h => negb (is_canary h)) hosts with
  | Some h => Err (not_a_canary h)
  | None => Ok hosts
  end.

(** ** The facts *)

Definition drill_fact (r : InstanceRecord) (h : EHost) (out : list DrilledFact) (shape : string)
    : ME EngineError (list DrilledFact) :=
  if contains_char lbrace shape || existsb (fun f => (dr_host f == eh_name h) && (dr_shape f == shape)) out
  then mret out
  else
    let! read := attempt (fact_bytes r h shape) in
    mret (out ++ [match read with
                  | Ok bytes => mkDrilledFact (eh_name h) shape ((fun b => digest (Some b)) <$> bytes) None None
                  | Err why => mkDrilledFact (eh_name h) shape None None (Some why)
                  end]).

Definition drill_item (r : InstanceRecord) (h : EHost) (out : list DrilledFact) (x : N * Item)
    : ME EngineError (list DrilledFact) :=
  match op_of (snd x) with
  | None => mret out
  | Some o =>
      let! here := ask (fun g => on_host g r h o) in
      if here then fold_each (drill_fact r h) out (observed_shapes o) else mret out
  end.

Definition drill_facts (r : InstanceRecord) (hosts : list EHost) : ME EngineError (list DrilledFact) :=
  fold_each (fun out h => fold_each (drill_item r h) out (numbered (plan_body (i_plan r)))) [] hosts.

(** ** The attestation *)

Definition attest (a : Attested) : ME EngineError Attestation :=
  let facts := map (pair_reads (ad_after a)) (ad_before a) in
  let restored := all_restored (ad_exit a) (ad_why a) facts in
  let names := map eh_name (ad_hosts a) in
  do! journal_site_event (JDrillAttested (ad_plan a) (join "," names) (ad_instance a) restored (map fact_line facts)) in
  mret (mkAttestation (ad_plan a) (ad_instance a) names facts restored
          (attest_line (ad_plan a) (join "," names) (ad_why a) restored facts)
          (if restored then 0 else N.max (ad_exit a) 1)%N).

(** Once the plan is applied: it is recanted, the facts read again, and attested. *)
Definition drill_recant (reading : InstanceRecord) (hosts : list EHost) (before : list DrilledFact) (id : string)
    : ME EngineError Attestation :=
  let! recanted := recant id [] in
  let! after := drill_facts reading hosts in
  let closed := ot_state recanted == SClosed in
  attest (mkAttested (plan_id (i_plan reading)) id hosts before after (if closed then 0 else 1)%N
            (if closed then EmptyString
             else concats ["the recant left it "; state_name (ot_state recanted); ": "; ot_line recanted])).

Definition drill (ir : PlanIr) (params : gmap string string) (opts : ApplyOptions) : ME EngineError Attestation :=
  let! nonce := outside draw_nonce in
  let reading := blank_record nonce ir params opts in
  if i_permanent reading then mthrow (permanent_drill reading)
  else
    let! found := ask (fun g => drill_hosts g reading) in
    let! hosts := lift found in
    let! before := drill_facts reading hosts in
    let! out := apply ir params opts in
    if ot_state out != SApplied then
      attest (mkAttested (plan_id (i_plan reading)) (ot_id out) hosts before [] 3
                (concats ["the plan did not apply ("; state_name (ot_state out); "): "; ot_line out]))
    else drill_recant reading hosts before (ot_id out).
End Drill.

(** ** What it keeps *)

Section Keeps.
Context `{Outside}.

Lemma still_drill_facts r hosts : keeps still (drill_facts r hosts).
Proof. unfold drill_facts, drill_item, drill_fact. keeps. Qed.

Lemma still_attest a : keeps still (attest a).
Proof. unfold attest. keeps. Qed.

(** A drill is an apply and a recant, and nothing else that writes a record or runs. *)
Lemma drill_keeps (R : relation Engine) `{!PreOrder R} ir params opts :
  (forall g g', still g g' -> R g g') -> (forall ir params opts, keeps R (apply ir params opts)) ->
  (forall id force, keeps R (recant id force)) -> keeps R (drill ir params opts).
Proof.
  intros Hs Ha Hr.
  assert (Hq : forall A (m : ME EngineError A), keeps still m -> keeps R m) by (intros A m; by apply keeps_mono).
  unfold drill. apply keeps_then; [done|by apply Hq, still_outside|]. intros nonce. cbv zeta.
  case_match; [by apply keeps_throw|]. apply keeps_then; [done|by apply Hq, still_ask|]. intros found.
  apply keeps_then; [done|by apply keeps_lift|]. intros hosts.
  apply keeps_then; [done|by apply Hq, still_drill_facts|]. intros before.
  apply keeps_then; [done|apply Ha|]. intros out. case_match; [apply Hq, still_attest|].
  unfold drill_recant. apply keeps_then; [done|apply Hr|]. intros back.
  apply keeps_then; [done|by apply Hq, still_drill_facts|]. intros after. apply Hq, still_attest.
Qed.
End Keeps.

(** ** What stands before a drill *)

Section Before.
Context `{Outside}.

Lemma step_hosts_grow g r items : forall hosts hosts', step_hosts g r hosts items = Ok hosts' -> hosts ⊆ hosts'.
Proof.
  induction items as [|[n it] items IH]; intros hosts hosts'; cbn [step_hosts]; [by intros [= <-]|].
  destruct (op_of it) as [o|]; [|apply IH]. destruct (step_host g r o) as [h|b]; [|done].
  intros Hs%IH. etrans; [|done]. unfold add_host. destruct (existsb _ _); set_solver.
Qed.

(** Each step of the plan has its host among those looked at. *)
Lemma step_hosts_cover g r items n it o : well_keyed g -> (n, it) ∈ items -> op_of it = Some o ->
  forall hosts hosts', step_hosts g r hosts items = Ok hosts' ->
  (forall h, h ∈ hosts -> exists name, host_of g name = Some h) ->
  exists h, step_host g r o = Ok h /\ h ∈ hosts'.
Proof.
  intros Hk Hin Ho. induction items as [|[m jt] items IH]; [by apply not_elem_of_nil in Hin|].
  intros hosts hosts' Hs Hh. cbn [step_hosts] in Hs.
  assert (Hname : forall o' h, step_host g r o' = Ok h -> exists name, host_of g name = Some h /\ eh_name h = name).
  { intros o' h. unfold step_host. destruct (op_locus o') as [| |[name|]]; cbn.
    - intros [= <-]. exists "controller". by rewrite (wk_controller g Hk).
    - destruct (host_of g _) eqn:E; [|done]. intros [= <-]. eexists. split; [done|]. by eapply host_of_name.
    - destruct (host_of g _) eqn:E; [|done]. intros [= <-]. eexists. split; [done|]. by eapply host_of_name.
    - done. }
  apply elem_of_cons in Hin as [[= <- <-]|Hin].
  - rewrite Ho in Hs. destruct (step_host g r o) as [h|b] eqn:Hsh; [|done]. exists h. split; [done|].
    apply step_hosts_grow in Hs. apply Hs. unfold add_host. destruct (existsb _ hosts) eqn:He; [|set_solver].
    apply existsb_exists in He as (x & Hx%list_elem_of_In & Hxn). apply bool_decide_eq_true in Hxn.
    destruct (Hname _ _ Hsh) as (name & Hn & Hnn). destruct (Hh x Hx) as (name' & Hn').
    apply (host_of_name g) in Hn' as Hx'; [|done]. rewrite Hx', Hnn in Hxn. subst name'. congruence.
  - destruct (op_of jt) as [o'|]; [|by apply (IH Hin _ _ Hs)]. destruct (step_host g r o') as [h|b] eqn:Hsh; [|done].
    apply (IH Hin _ _ Hs). intros x. unfold add_host. destruct (existsb _ hosts); [apply Hh|].
    intros [Hx| ->%list_elem_of_singleton]%elem_of_app; [by apply Hh|]. destruct (Hname _ _ Hsh) as (name & ? & _). by exists name.
Qed.

Lemma drill_hosts_are_canaries g r hosts n it o : well_keyed g ->
  drill_hosts g r = Ok hosts -> (n, it) ∈ numbered (plan_body (i_plan r)) -> op_of it = Some o ->
  exists h, step_host g r o = Ok h /\ is_canary h = true.
Proof.
  intros Hk Hd Hin Ho. unfold drill_hosts in Hd.
  destruct (step_hosts g r [] _) as [hs|] eqn:Hs; cbn in Hd; [|done].
  destruct (List.find _ hs) eqn:Hf; [done|].
  destruct (step_hosts_cover _ _ _ _ _ _ Hk Hin Ho _ _ Hs) as (h & Hh & Hi); [set_solver|]. exists h. split; [done|].
  apply list_elem_of_In in Hi. eapply List.find_none in Hf; [|exact Hi]. by destruct (is_canary h).
Qed.

(** What a drill reads the plan with. *)
Definition drill_reading (g : Engine) (ir : PlanIr) (params : gmap string string) (opts : ApplyOptions) : InstanceRecord :=
  blank_record (snd (draw_nonce (g_world g))) ir params opts.

(** C9. A drill keeps off every host that is not a canary: where one step of the plan, however
    deep in it, has another host, or one that only the run would tell, the drill is refused
    with the engine as it was, but for the nonce it drew: nothing is read, applied or
    journaled. *)
Theorem drill_spares_other_hosts g ir params opts n it o :
  well_keyed g ->
  (n, it) ∈ numbered (plan_body (ir_plan ir)) -> op_of it = Some o ->
  (forall h, step_host g (drill_reading g ir params opts) o = Ok h -> is_canary h = false) ->
  exists e, drill ir params opts g = (set_world (fst (draw_nonce (g_world g))) g, Err e).
Proof.
  intros Hk Hin Ho Hno. unfold drill, drill_reading in *. unfold mthen at 1, outside at 1.
  destruct (draw_nonce (g_world g)) as [w nonce] eqn:Hw. cbn [fst snd] in *.
  destruct (i_permanent _); [by eexists|]. unfold mthen at 1, ask at 1. unfold mthen at 1, lift at 1.
  set (g1 := set_world w g) in *. set (r := blank_record nonce ir params opts) in *.
  assert (Hk1 : well_keyed g1) by (destruct Hk; split; done).
  destruct (drill_hosts g1 r) as [hosts|e] eqn:Hd; [|by exists e].
  destruct (drill_hosts_are_canaries g1 r hosts n it o Hk1 Hd Hin Ho) as (h & Hh & Hc).
  rewrite (Hno h) in Hc; done.
Qed.

(** ** What an attestation says *)

Lemma pair_reads_restored after b :
  fact_restored (pair_reads after b) = true ->
  dr_unread b = None
  /\ dr_before b = (f ← List.find (fun a => same_fact a b) after; dr_before f)
  /\ (f ← List.find (fun a => same_fact a b) after; dr_unread f) = None.
Proof.
  unfold fact_restored, pair_reads. cbn. destruct (dr_unread b); [done|].
  destruct (_ ≫= dr_unread); [done|]. intros Hb%bool_decide_eq_true. done.
Qed.

Lemma all_restored_spec exit why facts : all_restored exit why facts = true ->
  exit = 0%N /\ facts <> [] /\ Forall (fun f => fact_restored f = true) facts.
Proof.
  unfold all_restored. rewrite !andb_true_iff, N.eqb_eq, negb_true_iff, bool_decide_eq_false. intros [[[-> H2] H3] _].
  split; [done|]. split; [done|]. apply Forall_forall. intros x Hx. rewrite forallb_forall in H3. by apply H3, list_elem_of_In.
Qed.

(** What an attestation holds is what the journal has of it. *)
Lemma attest_spec a g g' att : attest a g = (g', Ok att) ->
  at_instance att = ad_instance a
  /\ at_facts att = map (pair_reads (ad_after a)) (ad_before a)
  /\ at_restored att = all_restored (ad_exit a) (ad_why a) (at_facts att)
  /\ at_exit att = (if at_restored att then 0 else N.max (ad_exit a) 1)%N
  /\ exists e, e ∈ st_chain (g_store g') /\ en_event e = JDrillAttested (at_plan att) (join "," (at_hosts att))
                 (at_instance att) (at_restored att) (map fact_line (at_facts att)).
Proof.
  unfold attest. set (facts := map (pair_reads _) _). set (restored := all_restored _ _ facts). unfold mthen at 1.
  destruct (journal_site_event _ g) as [g1 [e|]] eqn:Hj; [|done]. intros [= <- <-]. cbn.
  repeat (split; [done|]). unfold journal_site_event, mthen, now, outside, journal_record in Hj.
  destruct (clock_now (g_world g)) as [w at_]. destruct (record _ _ _ _ _ _ _ _ _ _) as [[j chain] [e'|]] eqn:Hr; [|done].
  injection Hj as <- _. exists e'. by apply record_ok in Hr as (? & ? & _).
Qed.
End Before.

(** What a drill went through, from a state to another. *)
Record Drilled `{Outside} (reading : InstanceRecord) (hosts : list EHost) (g : Engine) (instance : string)
    (before after : list DrilledFact) : Prop := mkDrilled {
  dd_story : exists g1 g2 g3 g4 params opts out back,
    drill_facts reading hosts g = (g1, Ok before)
    /\ apply (i_ir reading) params opts g1 = (g2, Ok out) /\ ot_state out = SApplied /\ ot_id out = instance
    /\ recant instance [] g2 = (g3, Ok back) /\ ot_state back = SClosed
    /\ drill_facts reading hosts g3 = (g4, Ok after);
}.

(** An attestation that says restored: the plan was applied, and its recant closed it; every
    fact was read before the one and after the other, by an executor that could, and what
    was there is there again, digest for digest; and the journal says so. *)
Theorem restored_was_read_twice `{Outside} ir params opts g g' att :
  drill ir params opts g = (g', Ok att) -> at_restored att = true ->
  let w := fst (draw_nonce (g_world g)) in
  let reading := drill_reading g ir params opts in
  at_exit att = 0%N
  /\ (exists e, e ∈ st_chain (g_store g') /\ en_event e = JDrillAttested (at_plan att) (join "," (at_hosts att))
                  (at_instance att) true (map fact_line (at_facts att)))
  /\ exists hosts before after,
       drill_hosts (set_world w g) reading = Ok hosts
       /\ Drilled reading hosts (set_world w g) (at_instance att) before after
       /\ at_facts att = map (pair_reads after) before /\ before <> []
       /\ forall b, b ∈ before ->
            dr_unread b = None
            /\ (forall d, dr_before b = Some d -> exists a, a ∈ after /\ same_fact a b = true /\ dr_before a = Some d /\ dr_unread a = None)
            /\ (dr_before b = None -> forall a, List.find (fun a => same_fact a b) after = Some a -> dr_before a = None).
Proof.
  intros Hd Hr w reading. subst w reading. unfold drill, drill_reading in *. unfold mthen at 1, outside at 1 in Hd.
  destruct (draw_nonce (g_world g)) as [w nonce]. cbn [fst snd] in *. set (r := blank_record nonce ir params opts) in *.
  destruct (i_permanent r); [done|]. unfold mthen at 1, ask at 1 in Hd. unfold mthen at 1, lift at 1 in Hd.
  destruct (drill_hosts (set_world w g) r) as [hosts|e] eqn:Hh; [|done]. unfold mthen at 1 in Hd.
  destruct (drill_facts r hosts (set_world w g)) as [g1 [before|e]] eqn:Hb; [|done]. unfold mthen at 1 in Hd.
  destruct (apply ir params opts g1) as [g2 [out|e]] eqn:Ha; [|done].
  case_bool_decide as Hout; cbn [negb] in Hd.
  2: { apply attest_spec in Hd as (_ & _ & Hx & _). rewrite Hr in Hx. symmetry in Hx. by apply all_restored_spec in Hx as [? _]. }
  unfold drill_recant in Hd. unfold mthen at 1 in Hd. destruct (recant (ot_id out) [] g2) as [g3 [back|e]] eqn:Hrec; [|done].
  unfold mthen at 1 in Hd. destruct (drill_facts r hosts g3) as [g4 [after|e]] eqn:Haf; [|done]. cbv zeta in Hd.
  apply attest_spec in Hd as (Hid & Hf & Hx & Hexit & Hj). cbn in Hid, Hf, Hx. rewrite Hr in *. symmetry in Hx.
  apply all_restored_spec in Hx as (H0 & Hne & Hall). case_bool_decide as Hclosed; [|done].
  split; [done|]. split; [done|]. exists hosts, before, after. split; [done|].
  split; [split; rewrite Hid; by exists g1, g2, g3, g4, params, opts, out, back|].
  split; [done|]. split; [intros ->; by rewrite Hf in Hne|]. intros b Hbin.
  rewrite Hf, Forall_forall in Hall. specialize (Hall (pair_reads after b) (list_elem_of_fmap_2 _ _ _ Hbin)).
  apply pair_reads_restored in Hall as (H1 & H2 & H3). split; [done|]. split.
  - intros d Hd. rewrite Hd in H2. destruct (List.find _ after) as [a|] eqn:Hfd; [|done].
    apply List.find_some in Hfd as [Hin Hs]. exists a. by rewrite list_elem_of_In.
  - intros Hn a Hfa. rewrite Hn, Hfa in H2. done.
Qed.

(** ** Witnesses *)

Definition demo_canary_host : EHost :=
  mkEHost (eh_record demo_engine_host) "10.0.0.1" (Some "cron") None {["roles" := "web, canary"]}.

Definition demo_canary_engine : Engine := set_hosts [demo_canary_host] demo_engine.

Definition demo_drill := drill demo_two_files ∅ demo_options demo_canary_engine.

Lemma demo_drill_restores :
  match snd demo_drill with Ok att => at_restored att && (at_exit att =? 0)%N && (length (at_facts att) =? 2) | Err _ => false end = true.
Proof. vm_compute. reflexivity. Qed.

Lemma restored_was_read_twice_witness :
  exists att, snd demo_drill = Ok att /\ at_exit att = 0%N /\ at_facts att <> [].
Proof.
  pose proof demo_drill_restores as H. destruct demo_drill as [g' [att|e]] eqn:Hd; [|done]. exists att. cbn [snd] in H.
  apply andb_true_iff in H as [H _]. apply andb_true_iff in H as [H _].
  destruct (restored_was_read_twice _ _ _ _ _ _ Hd H) as (He & _ & hosts & before & after & _ & _ & Hf & Hne & _).
  split; [done|]. split; [done|]. rewrite Hf. by destruct before.
Defined.

Lemma demo_well_keyed : well_keyed demo_engine.
Proof.
  split; [|done]. intros name h. unfold demo_engine. cbn [g_hosts]. unfold bm_get. cbn.
  case_bool_decide as Hn; [|done]. intros [= <-]. exact Hn.
Qed.

Lemma drill_spares_other_hosts_witness :
  exists e, drill demo_two_files ∅ demo_options demo_engine
    = (set_world (fst (draw_nonce (g_world demo_engine))) demo_engine, Err e).
Proof.
  apply (drill_spares_other_hosts demo_engine demo_two_files ∅ demo_options 1 (demo_write "a" "/etc/a" "A")
           (sample_op "a" [entry Modified "file:/etc/a"] [PWrite (mkWrite (mkFactRef "file:/etc/a" None) (VLit "A"))] Restore ULController [])).
  - apply demo_well_keyed.
  - vm_compute. left.
  - reflexivity.
  - intros h. vm_compute. intros [= <-]. reflexivity.
Defined.
