(* ===== verification/Refine.v ===== *)
(** * The engine refines the state machine

    Whatever is called on the engine, and whatever the hosts, the disk, the clock and the
    bindings answer, what the store says of an instance only moves as [States.step] allows:
    a record begins Unchecked, where there was none or the one before it had ended, and
    goes from state to state along the machine of its intent and mode. *)

From Stdlib Require Import Ascii Sorted.
From stdpp Require Import base strings pretty numbers option sets gmap list relations.
From S2P Require Import Prelude Model Algebra Intent States Ledger Journal EngineJournal Resolve Footprint Ordered.
From S2P Require Import Monad Executor Instance Engine Hosts EngineBackstop Revert Walk Verbs Reap.
From S2P Require Import Verdict EngineLogic Upkeep Drill Fakes.

(** ** The specification *)

(** What the rest of the system may rely on of an instance. *)
Record Face := mkFace { fc_intent : Intent; fc_mode : Mode; fc_rehearsal : bool; fc_state : State }.

Definition face (r : InstanceRecord) : Face := mkFace (i_intent r) (plan_mode (i_plan r)) (i_rehearsal r) (i_state r).

(** One event of the machine: the intent and the mode stay what they are. *)
Inductive face_step (f : Face) : Face -> Prop :=
| face_moves s : States.step (fc_intent f) (fc_mode f) (fc_state f) s ->
    face_step f (mkFace (fc_intent f) (fc_mode f) (fc_rehearsal f) s).

(** The life of an instance's name in the store. A rehearsal may begin anew at any time. *)
Inductive life_step : option Face -> option Face -> Prop :=
| life_begins i m b : life_step None (Some (mkFace i m b SUnchecked))
| life_begins_again f i m b : terminal (fc_state f) = true \/ b = true ->
    life_step (Some f) (Some (mkFace i m b SUnchecked))
| life_moves f f' : face_step f f' -> life_step (Some f) (Some f').

(** ** Relations *)

Section Refine.
Context `{Outside}.

Notation pair := (Engine * InstanceRecord)%type.
Notation moves := (rtc face_step).
Notation life := (rtc life_step).

Lemma moves_life f f' : moves f f' -> life (Some f) (Some f').
Proof. induction 1; [done|]. by eapply rtc_l; [constructor|]. Qed.

(** A method that holds a record: the record moves; what is stored of it is a state it went
    through, or what was there; no other record is written. *)
Record drives (s s' : pair) : Prop := mkDrives {
  drives_id : i_id (snd s') = i_id (snd s);
  drives_face : moves (face (snd s)) (face (snd s'));
  drives_filed : filed (fst s) -> filed (fst s');
  drives_others id : id <> i_id (snd s) -> stored (fst s') id = stored (fst s) id;
  drives_stored :
    stored (fst s') (i_id (snd s)) = stored (fst s) (i_id (snd s))
    \/ exists r1, stored (fst s') (i_id (snd s)) = Some r1
                  /\ moves (face (snd s)) (face r1) /\ moves (face r1) (face (snd s'));
}.

#[export] Instance drives_preorder : PreOrder drives.
Proof.
  split; [intros s; split; [done|reflexivity|done|done|by left]|].
  intros [g1 r1] [g2 r2] [g3 r3] [I1 F1 W1 O1 S1] [I2 F2 W2 O2 S2]. cbn [fst snd] in *. rewrite I1 in *.
  split; cbn [fst snd]; [done|by etrans|auto| |].
  - intros id Hn. rewrite O2 by done. by apply O1.
  - destruct S2 as [->|(x & Hx & M1 & M2)].
    + destruct S1 as [->|(x & Hx & M1 & M2)]; [by left|]. right. exists x. split; [done|]. split; [done|by etrans].
    + right. exists x. split; [done|]. split; [by etrans|done].
Qed.

(** The record in hand is at or past the one stored. *)
Definition ahead (g : Engine) (r : InstanceRecord) : Prop :=
  exists r0, stored g (i_id r) = Some r0 /\ moves (face r0) (face r).

(** A method on a record that is ahead, whatever becomes of the record in hand. *)
Definition tends (s s' : pair) : Prop :=
  filed (fst s) -> ahead (fst s) (snd s) ->
  filed (fst s') /\ (forall id, id <> i_id (snd s) -> stored (fst s') id = stored (fst s) id)
  /\ life (face <$> stored (fst s) (i_id (snd s))) (face <$> stored (fst s') (i_id (snd s))).

(** A call on the engine. *)
Definition lives (g g' : Engine) : Prop :=
  filed g -> filed g' /\ forall id, life (face <$> stored g id) (face <$> stored g' id).

#[export] Instance lives_preorder : PreOrder lives.
Proof.
  split; [by intros g Hg|]. intros g1 g2 g3 H1 H2 Hg. destruct (H1 Hg) as [Hg2 L1]. destruct (H2 Hg2) as [Hg3 L2].
  split; [done|]. intros id. etrans; [apply L1|apply L2].
Qed.

Lemma drives_ahead s s' : drives s s' -> ahead (fst s) (snd s) -> ahead (fst s') (snd s').
Proof.
  intros [Hi Hf _ _ Hs] (r0 & H0 & Hm). rewrite <- Hi in *.
  unfold ahead. rewrite Hi in *. destruct Hs as [Hs|(r1 & Hs & M1 & M2)].
  - exists r0. rewrite Hs. split; [done|by etrans].
  - by exists r1.
Qed.

Lemma drives_tends s s' : drives s s' -> tends s s'.
Proof.
  intros [Hi Hf Hw Ho Hs] Hg (r0 & H0 & Hm). split; [auto|]. split; [done|].
  destruct Hs as [->|(r1 & -> & M1 & M2)]; [done|]. rewrite H0. apply moves_life. by etrans.
Qed.

Lemma tends_after {E A B} (m : M E A) (k : A -> M E B) :
  keeps drives m -> (forall x, keeps tends (k x)) -> keeps tends (mthen m k).
Proof.
  intros Hm Hk s. specialize (Hm s). unfold mthen. destruct (m s) as [s1 [x|e]]; [|by apply drives_tends].
  specialize (Hk x s1). intros Hg Ha. cbn [fst] in *.
  destruct (drives_tends _ _ Hm Hg Ha) as (Hg1 & O1 & L1).
  destruct (Hk Hg1 (drives_ahead _ _ Hm Ha)) as (Hg2 & O2 & L2). rewrite (drives_id _ _ Hm) in *.
  split; [done|]. split; [|by etrans]. intros id Hn. rewrite O2 by done. by apply O1.
Qed.

(** ** Methods on a record *)

Lemma core_face r r' : core r' = core r -> face r' = face r.
Proof. unfold core, face, i_intent, i_plan. by intros [= ? -> ? -> -> -> ? ? ?]. Qed.

Lemma quiet_drives s s' : quiet s s' -> drives s s'.
Proof.
  intros [C A P W O S]. pose proof (core_id _ _ C) as Hid. pose proof (core_face _ _ C) as Hf.
  split; [done|by rewrite Hf|done|done|]. destruct S as [S|S]; [by left|].
  apply fmap_Some in S as (r1 & -> & Hc). right. exists r1. split; [done|].
  rewrite Hf. by rewrite (core_face _ _ (eq_sym Hc)).
Qed.

Lemma keeps_drives_quiet {E A} (m : M E A) : keeps quiet m -> keeps drives m.
Proof. apply keeps_mono. apply quiet_drives. Qed.

(** What the engine itself writes no record by. *)
Definition same_records (g g' : Engine) : Prop := st_instances (g_store g') = st_instances (g_store g).

#[export] Instance same_records_preorder : PreOrder same_records.
Proof. split; [done|]. intros g1 g2 g3 H1 H2. by etrans. Qed.

Lemma keeps_still_same {E A} (m : ME E A) : keeps still m -> keeps same_records m.
Proof. apply keeps_mono. by intros g g' []. Qed.

Lemma drives_same g g' r : same_records g g' -> drives (g, r) (g', r).
Proof.
  intros Hs. split; cbn [fst snd]; [done|done|by apply filed_same| |]; unfold stored; rewrite Hs; auto.
Qed.

Lemma drives_on_engine {E A} (m : ME E A) : keeps same_records m -> keeps drives (on_engine m).
Proof.
  intros Hm [g r]. specialize (Hm g). unfold on_engine, with_rec. destruct (m g) as [g' x]. by apply drives_same.
Qed.

Lemma drives_update {E} f :
  (forall r, i_id (f r) = i_id r /\ face (f r) = face r) -> keeps drives (update (E := E) f).
Proof.
  intros Hf [g r]. destruct (Hf r) as [Hi Hfr]. split; cbn; [done|by rewrite Hfr|done|done|by left].
Qed.
End Refine.

#[export] Hint Resolve keeps_drives_quiet keeps_still_same : keeps.
#[export] Hint Extern 1 (keeps drives (update _)) => (apply drives_update; intros ?; repeat case_match; split; done) : keeps.

Ltac keeps_call ::=
  lazymatch goal with
  | |- keeps quiet (on_engine _) => apply quiet_on_engine
  | |- keeps quiet (with_rec _) => apply quiet_with_rec
  | |- keeps quiet (refusable _) => apply quiet_refusable
  | |- keeps drives (on_engine _) => apply drives_on_engine
  | |- keeps drives (refusable _) => apply keeps_drives_quiet, quiet_refusable
  end.

Section Drives.
Context `{Outside}.

Lemma face_set_state r ev s : transition (i_ctx r) (i_state r) ev = To s -> face_step (face r) (face (set_state s r)).
Proof. intros Ht. apply (face_moves (face r)). by apply (step_intro _ _ _ _ _ _ ev Ht). Qed.

Lemma drives_step ev : keeps drives (step ev).
Proof.
  intros [g r]. rewrite step_eq. destruct (transition _ _ _) as [s| |c|] eqn:Ht.
  2-4: apply drives_same, still_traced.
  etrans; [|apply (keeps_then drives persist (fun _ => mret DidMove)); eauto with keeps typeclass_instances].
  destruct (still_traced r ev g) as [Hi _ _].
  split; cbn [fst snd]; [done|by apply rtc_once, (face_set_state _ ev)|by apply filed_same| |]; unfold stored.
  - intros id _. by rewrite Hi.
  - left. by rewrite Hi.
Qed.
#[local] Hint Resolve drives_step : keeps.

Lemma same_run_on why x h id body : keeps same_records (run_on why x h id body).
Proof.
  unfold run_on. keeps. intros g. done.
Qed.
#[local] Hint Resolve same_run_on : keeps.

Lemma same_undo_under_lock r at_ o h env x : keeps same_records (undo_under_lock r at_ o h env x).
Proof. unfold undo_under_lock. keeps. Qed.
#[local] Hint Resolve same_undo_under_lock : keeps.

Lemma same_undo_step r at_ o : keeps same_records (undo_step r at_ o).
Proof. unfold undo_step, under_host_lock. keeps. Qed.
#[local] Hint Resolve same_undo_step : keeps.

Lemma drives_revert_turn a : keeps drives (revert_turn a).
Proof. unfold revert_turn. keeps. Qed.
#[local] Hint Resolve drives_revert_turn : keeps.

Lemma drives_revert_loop fuel : keeps drives (revert_loop fuel).
Proof. induction fuel; cbn [revert_loop]; keeps. Qed.
#[local] Hint Resolve drives_revert_loop : keeps.

Lemma drives_revert : keeps drives revert.
Proof. unfold revert, close_reverted. keeps. Qed.
#[local] Hint Resolve drives_revert : keeps.

Lemma drives_refuse_applied n : keeps drives (refuse_applied n).
Proof. unfold refuse_applied. keeps. Qed.
#[local] Hint Resolve drives_refuse_applied : keeps.

Lemma drives_refuse n why : keeps drives (refuse n why).
Proof. unfold refuse. keeps. Qed.

Lemma drives_undo_failed at_ o pre : keeps drives (undo_failed at_ o pre).
Proof. unfold undo_failed. keeps. Qed.
#[local] Hint Resolve drives_refuse drives_undo_failed : keeps.

Lemma drives_fail_after_do at_ o pre why : keeps drives (fail_after_do at_ o pre why).
Proof. unfold fail_after_do. keeps. Qed.

Lemma drives_defer n i vars o why : keeps drives (defer n i vars o why).
Proof. unfold defer. keeps. Qed.

Lemma drives_wait n why g b : keeps drives (wait n why g b).
Proof. unfold wait. keeps. Qed.

Lemma drives_mark_applied a : keeps drives (mark_applied a).
Proof. unfold mark_applied. keeps. Qed.
#[local] Hint Resolve drives_fail_after_do drives_defer drives_wait drives_mark_applied : keeps.

Lemma drives_guard_blocks_with_bound n g f b : keeps drives (guard_blocks_with_bound n g f b).
Proof. unfold guard_blocks_with_bound. keeps. Qed.
#[local] Hint Resolve drives_guard_blocks_with_bound : keeps.

Lemma drives_guard_blocks n g f : keeps drives (guard_blocks n g f).
Proof. unfold guard_blocks. keeps. Qed.
#[local] Hint Resolve drives_guard_blocks : keeps.

Lemma drives_guards_block n gs f : keeps drives (guards_block n gs f).
Proof. unfold guards_block. keeps. Qed.
#[local] Hint Resolve drives_guards_block : keeps.

Lemma drives_after_step a o : keeps drives (after_step a o).
Proof. unfold after_step. keeps. Qed.

Lemma drives_step_failed a o pre ev why : keeps drives (step_failed a o pre ev why).
Proof. unfold step_failed. keeps. Qed.
#[local] Hint Resolve drives_after_step drives_step_failed : keeps.

Lemma drives_settle_step s h a o pre before out : keeps drives (settle_step s h a o pre before out).
Proof. unfold settle_step. keeps. Qed.
#[local] Hint Resolve drives_settle_step : keeps.

Lemma drives_run_do s h a o pre before body : keeps drives (run_do s h a o pre before body).
Proof. unfold run_do. keeps. Qed.
#[local] Hint Resolve drives_run_do : keeps.

Lemma drives_attempt_step n i s vars h : keeps drives (attempt_step n i s vars h).
Proof. unfold attempt_step. keeps. Qed.

Lemma still_cost_text r c : keeps still (cost_text r c).
Proof. unfold cost_text. keeps. Qed.
#[local] Hint Resolve drives_attempt_step still_cost_text : keeps.

Lemma drives_knell_blocks n s : keeps drives (knell_blocks n s).
Proof. unfold knell_blocks. keeps. Qed.

Lemma drives_gate_blocks n s : keeps drives (gate_blocks n s).
Proof. unfold gate_blocks. keeps. Qed.

Lemma drives_place_step n i o vars : keeps drives (place_step n i o vars).
Proof. unfold place_step. keeps. Qed.
#[local] Hint Resolve drives_knell_blocks drives_gate_blocks drives_place_step : keeps.

Lemma drives_run_step n i s k vars : keeps drives (run_step n i s k vars).
Proof. unfold run_step. keeps. Qed.

Lemma drives_backstop_or_refuse n m : keeps drives m -> keeps drives (backstop_or_refuse n m).
Proof. intros Hm. unfold backstop_or_refuse. keeps. Qed.
#[local] Hint Resolve drives_run_step drives_backstop_or_refuse : keeps.

Lemma drives_backstop_before_leaf n : keeps drives (backstop_before_leaf n).
Proof. unfold backstop_before_leaf. keeps. Qed.

Lemma drives_backstop_after_walk : keeps drives backstop_after_walk.
Proof. unfold backstop_after_walk. keeps. Qed.
#[local] Hint Resolve drives_backstop_before_leaf drives_backstop_after_walk : keeps.

Lemma drives_run_leaf n i it vars : keeps drives (run_leaf n i it vars).
Proof. unfold run_leaf. keeps. Qed.

Lemma still_list_value r l vars : keeps still (list_value r l vars).
Proof. unfold list_value. keeps. Qed.
#[local] Hint Resolve drives_run_leaf still_list_value : keeps.

Lemma drives_walk_items items i vars n : keeps drives (walk_items items i vars n).
Proof.
  apply keeps_walk_items; [typeclasses eauto| | |].
  - intros m j it vs. unfold walk_leaf. keeps.
  - intros form vs. unfold repeat_values. keeps.
  - intros g m. unfold choose_arm. keeps.
Qed.

Lemma drives_refuse_on_contract_change : keeps drives refuse_on_contract_change.
Proof. unfold refuse_on_contract_change. keeps. Qed.
#[local] Hint Resolve drives_walk_items drives_refuse_on_contract_change : keeps.

Lemma drives_walk : keeps drives walk.
Proof. unfold walk, still_applying. keeps. Qed.
End Drives.

#[export] Hint Resolve drives_step drives_revert drives_refuse drives_walk drives_refuse_on_contract_change
  drives_undo_failed drives_refuse_applied same_run_on : keeps.

(** ** The verbs and the passes *)

Section Verbs.
Context `{Outside}.

Lemma drives_approve : keeps drives approve.
Proof. unfold approve. keeps. Qed.
#[local] Hint Resolve drives_approve : keeps.

Lemma drives_apply_record at_ : keeps drives (apply_record at_).
Proof. unfold apply_record, request_instance, report. keeps. Qed.

Lemma drives_recant_record force : keeps drives (recant_record force).
Proof. unfold recant_record. keeps. Qed.

Lemma drives_renew_record d : keeps drives (renew_record d).
Proof. unfold renew_record. keeps. Qed.

Lemma drives_confirm_record : keeps drives confirm_record.
Proof. unfold confirm_record. keeps. Qed.

Lemma drives_commit_record by_ why : keeps drives (commit_record by_ why).
Proof. unfold commit_record. keeps. Qed.

Lemma drives_resume_record by_ : keeps drives (resume_record by_).
Proof. unfold resume_record. keeps. Qed.

Lemma drives_handoff_done_record n by_ : keeps drives (handoff_done_record n by_).
Proof. unfold handoff_done_record. keeps. Qed.

Lemma drives_abandon_record by_ why : keeps drives (abandon_record by_ why).
Proof. unfold abandon_record. keeps. Qed.

Lemma drives_cancel_record : keeps drives cancel_record.
Proof. unfold cancel_record. keeps. Qed.

Lemma drives_after_proof s : keeps drives (after_proof s).
Proof. unfold after_proof. keeps. Qed.
#[local] Hint Resolve drives_after_proof : keeps.

Lemma drives_approve_proof_record s a p u : keeps drives (approve_proof_record s a p u).
Proof. unfold approve_proof_record. keeps. Qed.

Lemma drives_ack_record n why p a u : keeps drives (ack_record n why p a u).
Proof. unfold ack_record. keeps. Qed.

Lemma drives_close_unapproved : keeps drives close_unapproved.
Proof. unfold close_unapproved. keeps. Qed.
#[local] Hint Resolve drives_close_unapproved : keeps.

Lemma drives_reap_pending at_ : keeps drives (reap_pending at_).
Proof. unfold reap_pending. keeps. Qed.

Lemma drives_backstop_read_fired : keeps drives backstop_read_fired.
Proof. unfold backstop_read_fired. keeps. Qed.

Lemma drives_reap_wane at_ : keeps drives (reap_wane at_).
Proof. unfold reap_wane. keeps. Qed.

Lemma drives_reap_waiting at_ : keeps drives (reap_waiting at_).
Proof. unfold reap_waiting. keeps. Qed.

Lemma drives_demote : keeps drives demote.
Proof. unfold demote, recover_attempt. keeps. Qed.

Lemma same_run_body r a o body : keeps same_records (run_body r a o body).
Proof. unfold run_body. keeps. Qed.
#[local] Hint Resolve same_run_body drives_demote : keeps.

Lemma drives_reestablish_step acc a : keeps drives (reestablish_step acc a).
Proof. unfold reestablish_step, refusable. keeps. Qed.
#[local] Hint Resolve drives_reestablish_step : keeps.

Lemma drives_boot_record : keeps drives boot_record.
Proof. unfold boot_record. keeps. Qed.
End Verbs.

#[export] Hint Resolve drives_apply_record drives_recant_record drives_renew_record drives_confirm_record
  drives_commit_record drives_resume_record drives_handoff_done_record drives_abandon_record drives_cancel_record
  drives_approve_proof_record drives_ack_record drives_reap_pending drives_close_unapproved
  drives_backstop_read_fired drives_reap_wane drives_reap_waiting drives_boot_record : keeps.

(** ** Calls on the engine *)

Section Calls.
Context `{Outside}.

(** A call that concerns one instance. *)
Definition lives_at (id : string) (g g' : Engine) : Prop :=
  filed g ->
  filed g' /\ (forall id', id' <> id -> stored g' id' = stored g id')
  /\ rtc life_step (face <$> stored g id) (face <$> stored g' id).

#[export] Instance lives_at_preorder id : PreOrder (lives_at id).
Proof.
  split; [by intros g Hg|]. intros g1 g2 g3 H1 H2 Hg. destruct (H1 Hg) as (F1 & O1 & L1).
  destruct (H2 F1) as (F2 & O2 & L2). split; [done|]. split; [|by etrans].
  intros id' Hn. rewrite O2 by done. by apply O1.
Qed.

Lemma lives_at_lives id g g' : lives_at id g g' -> lives g g'.
Proof.
  intros Hl Hg. destruct (Hl Hg) as (Hg' & Ho & Hi). split; [done|]. intros id'.
  destruct (decide (id' = id)) as [->|Hn]; [done|]. by rewrite Ho.
Qed.

Lemma lives_at_same id g g' : same_records g g' -> lives_at id g g'.
Proof. intros Hs Hg. split; [by eapply filed_same|]. unfold stored. by rewrite Hs. Qed.

Lemma lives_same g g' : same_records g g' -> lives g g'.
Proof. intros Hs. by apply (lives_at_lives EmptyString), lives_at_same. Qed.

Lemma keeps_lives_still {E A} (m : ME E A) : keeps still m -> keeps lives m.
Proof. intros Hm g. apply lives_same. by destruct (Hm g). Qed.

Lemma with_record_tends {E A} r (m : M E A) g :
  keeps tends m -> stored g (i_id r) = Some r -> lives_at (i_id r) g (fst (with_record r m g)).
Proof.
  intros Hm Hr Hg. specialize (Hm (g, r) Hg). unfold with_record. destruct (m (g, r)) as [[g' r'] x]. cbn [fst snd] in *.
  apply Hm. by exists r.
Qed.

Lemma load_spec id g g' res :
  load id g = (g', res) -> same_records g g' /\ forall r, res = Ok r -> stored g id = Some r.
Proof.
  intros Hl. split. { pose proof (still_load id g) as [Hi _ _]. by rewrite Hl in Hi. }
  intros r ->. revert Hl. unfold load, read_instance, map_err, mthen, outside, ask.
  destruct (disk_read (g_world g)) as [w [[]|e]]; [|done]. cbn. unfold stored.
  destruct (bm_get id _) as [x|] eqn:Hx; [|done]. intros [= _ ->]. done.
Qed.

Lemma then_ret_fst {S E A B} (m : S -> S * Result A E) (f : A -> B) s :
  fst (mthen m (fun x => mret (f x)) s) = fst (m s).
Proof. unfold mthen. by destruct (m s) as [s1 [x|e]]. Qed.

Lemma verb_lives_at id m : keeps drives m -> keeps (lives_at id) (verb id m).
Proof.
  intros Hm g. unfold verb. unfold mthen at 1. destruct (load id g) as [g1 res] eqn:Hl.
  apply load_spec in Hl as [Hs Hr]. etrans; [by apply lives_at_same|]. destruct res as [r|e]; [|done].
  specialize (Hr r eq_refl). intros Hg1. rewrite then_ret_fst.
  assert (Hr1 : stored g1 id = Some r) by (unfold stored; by rewrite Hs).
  assert (i_id r = id) as <- by (by eapply filed_id).
  apply with_record_tends; [|done|done]. apply (keeps_mono drives); [apply drives_tends|]. unfold report. keeps.
Qed.

Lemma handoff_done_lives_at id n by_ : keeps (lives_at id) (handoff_done id n by_).
Proof. apply verb_lives_at. eauto with keeps. Qed.

(** ** Passes *)

Lemma keeps_tends_drives {E A} (m : M E A) : keeps drives m -> keeps tends m.
Proof. apply keeps_mono, drives_tends. Qed.

Lemma tends_get {E A} (k : InstanceRecord -> M E A) :
  (forall r g, tends (g, r) (fst (k r (g, r)))) -> keeps tends (mthen get_rec k).
Proof. intros Hk [g r]. unfold mthen, get_rec, with_rec, mret. apply Hk. Qed.

(** [tends_after] from a state known to hold the instance [id]. *)
Lemma tends_after_at {E A B} id (m : M E A) (k : A -> M E B) s :
  i_id (snd s) = id -> keeps drives m -> (forall x s1, i_id (snd s1) = id -> tends s1 (fst (k x s1))) ->
  tends s (fst (mthen m k s)).
Proof.
  intros Hid Hm Hk. specialize (Hm s). unfold mthen. destruct (m s) as [s1 [x|e]]; [|by apply drives_tends].
  cbn [fst] in Hm. pose proof (drives_id _ _ Hm) as Hid1. rewrite Hid in Hid1. specialize (Hk x s1 Hid1).
  intros Hg Ha. destruct (drives_tends _ _ Hm Hg Ha) as (Hg1 & O1 & L1).
  destruct (Hk Hg1 (drives_ahead _ _ Hm Ha)) as (Hg2 & O2 & L2). rewrite Hid, Hid1 in *.
  split; [done|]. split; [|by etrans]. intros id' Hn. rewrite O2 by done. by apply O1.
Qed.

Lemma tends_on_engine {E A} (m : ME E A) s : lives_at (i_id (snd s)) (fst s) (fst (m (fst s))) -> tends s (fst (on_engine m s)).
Proof.
  intros Hm Hg _. destruct s as [g r]. unfold on_engine, with_rec. cbn [fst snd] in *. destruct (m g) as [g' x].
  by apply Hm.
Qed.

Lemma tends_ret {E A} (x : A) s : tends s (fst (mret (E := E) x s)).
Proof. apply drives_tends. reflexivity. Qed.

Lemma tends_reap_deferred : keeps tends reap_deferred.
Proof.
  unfold reap_deferred. apply tends_get. intros r g.
  destruct (mbind _ _) as [[d probe]|]; [|apply tends_ret].
  apply (tends_after_at (i_id r)); [done|keeps|]. intros owner s1 Hs1.
  apply (tends_after_at (i_id r)); [done|keeps|]. intros tri s2 Hs2.
  destruct tri as [[]|]; try apply tends_ret. rewrite then_ret_fst. apply tends_on_engine.
  rewrite Hs2. apply handoff_done_lives_at.
Qed.

Lemma tends_reap_state at_ : keeps tends (reap_state at_).
Proof.
  unfold reap_state. apply tends_after; [keeps|]. intros r. destruct (i_state r); try apply tends_reap_deferred.
  all: apply keeps_tends_drives; keeps.
Qed.

Lemma tends_reap_record at_ settling : keeps tends (reap_record at_ settling).
Proof.
  unfold reap_record. apply tends_after; [keeps|]. intros r.
  destruct (terminal _); [apply keeps_tends_drives; keeps|].
  case_bool_decide; [apply keeps_tends_drives; keeps|]. case_bool_decide; [apply keeps_tends_drives; keeps|].
  apply tends_after; [keeps|]. intros fired. apply tends_after; [keeps|]. intros told.
  destruct settling; [apply keeps_tends_drives; keeps|].
  apply tends_after; [keeps|]. intros waned. destruct waned; [apply keeps_tends_drives; keeps|].
  intros s. rewrite then_ret_fst. apply tends_reap_state.
Qed.

(** [instances] reads each record once. *)
Lemma read_all_spec ids : forall v g g' rs,
  filed g ->
  fold_each (fun v id => let! r := map_err ErrStore (read_instance id) in
                         mret match r with Some x => v ++ [x] | None => v end) v ids g = (g', Ok rs) ->
  same_records g g' /\ exists w, rs = v ++ w /\ map i_id w `sublist_of` ids
                               /\ Forall (fun r => stored g (i_id r) = Some r) w.
Proof.
  induction ids as [|id ids IH]; intros v g g' rs Hg; cbn [fold_each].
  - intros [= <- <-]. split; [done|]. exists []. by rewrite app_nil_r.
  - unfold read_instance, map_err, mthen, outside, ask. destruct (disk_read (g_world g)) as [w [[]|e]]; [|done].
    cbn. intros Hf. apply IH in Hf as (Hs & u & -> & Hsub & Hst); [|by apply (filed_same g)].
    split; [done|]. unfold stored in *. cbn in *. destruct (bm_get id _) as [x|] eqn:Hx.
    + exists (x :: u). rewrite <- app_assoc. split; [done|].
      assert (i_id x = id) as <- by (by apply (filed_id g Hg)). split; [by constructor|]. by constructor.
    + exists u. split; [done|]. split; [by constructor|done].
Qed.

Lemma instances_spec g g' rs :
  filed g -> instances g = (g', Ok rs) ->
  same_records g g' /\ NoDup (map i_id rs) /\ Forall (fun r => stored g' (i_id r) = Some r) rs.
Proof.
  intros Hg. unfold instances. unfold mthen at 1, outside. destruct (disk_read (g_world g)) as [w [[]|e]]; [|done].
  unfold mthen, map_err at 1, lift, ask. cbn.
  intros Hf. assert (Hg1 : filed (set_world w g)) by (by apply (filed_same g)).
  apply (read_all_spec _ _ _ _ _ Hg1) in Hf as (Hs & u & -> & Hsub & Hst). unfold same_records in Hs.
  split; [done|]. split.
  - eapply sublist_NoDup; [|exact Hsub]. rewrite sort_strings_perm. apply bm_sorted_nodup, filed_sorted, Hg.
  - eapply Forall_impl; [exact Hst|]. intros r. unfold stored. by rewrite Hs.
Qed.

(** A pass over every record: each is worked on while the others stay as they were. [R] is
    what is shown of the engine, under the assumption that its store is filed. *)
Section Pass.
Context (R : relation Engine) `{!PreOrder R} (R_still : forall g g', still g g' -> R g g')
  (R_filed : forall g g', (filed g -> R g g') -> R g g').

Definition works {B} (body : B -> InstanceRecord -> ME EngineError B) : Prop :=
  forall acc r g, filed g -> stored g (i_id r) = Some r ->
  R g (fst (body acc r g)) /\ lives_at (i_id r) g (fst (body acc r g)).

Lemma pass_over {B} (body : B -> InstanceRecord -> ME EngineError B) rs : forall acc g,
  works body -> filed g -> NoDup (map i_id rs) -> Forall (fun r => stored g (i_id r) = Some r) rs ->
  R g (fst (fold_each body acc rs g)).
Proof.
  induction rs as [|r rs IH]; intros acc g Hb Hg Hnd Hst; cbn [fold_each]; [done|].
  apply NoDup_cons in Hnd as [Hnotin Hnd]. apply Forall_cons in Hst as [Hr Hst].
  destruct (Hb acc r g Hg Hr) as [HR Hl]. unfold mthen. destruct (body acc r g) as [g1 [x|e]]; cbn [fst] in *; [|done].
  etrans; [exact HR|]. destruct (Hl Hg) as (Hg1 & Ho & _). apply IH; [done|done|done|].
  apply Forall_forall. intros y Hy. rewrite Forall_forall in Hst. rewrite Ho; [by apply Hst|].
  intros Heq. apply Hnotin. rewrite <- Heq. apply elem_of_map. by exists y.
Qed.

Lemma pass_over_instances {B} (body : B -> InstanceRecord -> ME EngineError B) acc :
  works body -> keeps R (let! rs := instances in fold_each body acc rs).
Proof.
  intros Hb g. apply R_filed. intros Hg. pose proof (still_instances_ g) as Hstill.
  unfold mthen. destruct (instances g) as [g1 [rs|e]] eqn:Hi; cbn [fst] in Hstill; [|by apply R_still].
  apply instances_spec in Hi as (Hs & Hnd & Hst); [|done]. etrans; [by apply R_still|].
  apply pass_over; [done|by eapply filed_same|done|done].
Qed.
End Pass.

Lemma lives_filed g g' : (filed g -> lives g g') -> lives g g'.
Proof. intros Hl Hg. by apply Hl. Qed.

Lemma still_lives g g' : still g g' -> lives g g'.
Proof. intros []. by apply lives_same. Qed.

Lemma then_assoc {S E A B C} (m : S -> S * Result A E) (k : A -> S -> S * Result B E) (j : B -> S -> S * Result C E) s :
  mthen m (fun x => mthen (k x) j) s = mthen (mthen m k) j s.
Proof. unfold mthen. by destruct (m s) as [s1 [x|e]]. Qed.

Lemma pass_then {B C} (R : relation Engine) `{!PreOrder R} (body : B -> InstanceRecord -> ME EngineError B) acc
    (k : B -> ME EngineError C) :
  (forall g g', still g g' -> R g g') -> (forall g g', (filed g -> R g g') -> R g g') ->
  works R body -> (forall x, keeps R (k x)) ->
  keeps R (let! rs := instances in let! x := fold_each body acc rs in k x).
Proof.
  intros H1 H2 Hb Hk g. rewrite then_assoc. apply keeps_then; [typeclasses eauto| |done].
  by apply pass_over_instances.
Qed.

Lemma works_lives {B} (body : B -> InstanceRecord -> ME EngineError B) :
  (forall acc r g, filed g -> stored g (i_id r) = Some r -> lives_at (i_id r) g (fst (body acc r g))) -> works lives body.
Proof. intros Hb acc r g Hg Hr. split; [eapply lives_at_lives|]; by apply Hb. Qed.

Lemma lives_at_reap_body at_ settling acc r g :
  stored g (i_id r) = Some r ->
  lives_at (i_id r) g (fst ((let! out := with_record r (reap_record at_ settling) in mret (also acc (fst out))) g)).
Proof. intros Hr. rewrite then_ret_fst. apply with_record_tends; [apply tends_reap_record|done]. Qed.

Lemma lives_at_boot_body acc r g :
  stored g (i_id r) = Some r ->
  lives_at (i_id r) g (fst ((let! out := with_record r boot_record in mret (recovered_and acc (fst out))) g)).
Proof.
  intros Hr. rewrite then_ret_fst. apply with_record_tends; [|done]. apply keeps_tends_drives. eauto with keeps.
Qed.

Lemma lives_reap : keeps lives reap.
Proof.
  unfold reap. apply keeps_then; [typeclasses eauto|by apply keeps_lives_still, still_ask|]. intros settling.
  apply keeps_then; [typeclasses eauto|by apply keeps_lives_still, still_now|]. intros at_.
  apply keeps_then; [typeclasses eauto|by apply keeps_lives_still, still_expire_secrets|]. intros dropped.
  apply pass_then; [typeclasses eauto|apply still_lives|apply lives_filed| |intros; apply keeps_ret; typeclasses eauto].
  apply works_lives. intros acc r g _. apply lives_at_reap_body.
Qed.

Lemma lives_boot : keeps lives boot.
Proof.
  unfold boot. apply keeps_then; [typeclasses eauto|by apply keeps_lives_still, still_set_settling|]. intros _.
  apply keeps_then; [typeclasses eauto|by apply keeps_lives_still, still_journal_migration|]. intros migrated.
  apply pass_then; [typeclasses eauto|apply still_lives|apply lives_filed| |intros said; apply keeps_lives_still; keeps].
  apply works_lives. intros acc r g _. apply lives_at_boot_body.
Qed.

Lemma lives_at_persist_of r r' g :
  stored g (i_id r) = Some r -> i_id r' = i_id r -> face r' = face r ->
  lives_at (i_id r) g (fst (persist_of r' g)).
Proof.
  intros Hr Hid Hf Hg. destruct (persist (g, r')) as [[g' r1] res] eqn:Hp.
  assert (fst (persist_of r' g) = g') as ->.
  { revert Hp. unfold persist, with_rec. destruct (persist_of r' g). by intros [= -> _ _]. }
  apply persist_spec in Hp as (_ & _ & _ & Hi). cbn [fst snd] in *. destruct (is_ok res).
  - split; [by eapply filed_insert|]. rewrite <- Hid in *. unfold stored in *. rewrite Hi. split.
    + intros id Hn. by apply bm_get_insert_ne.
    + rewrite bm_get_insert. cbn. rewrite Hf. by rewrite Hr.
  - by apply lives_at_same.
Qed.

Lemma lives_at_heartbeat_of_instance at_ r g :
  stored g (i_id r) = Some r -> lives_at (i_id r) g (fst (heartbeat_of_instance at_ r g)).
Proof.
  intros Hr. unfold heartbeat_of_instance. destruct (i_backstop r) as [st|]; [|done].
  destruct (negb _); [done|]. unfold mthen at 1, ask. destruct (mbind _ _) as [[h x]|]; [|done].
  unfold mthen at 1, outside. destruct (ex_replace_file _ _ _ _ _ _) as [w res].
  etrans; [by apply (lives_at_same _ g (set_world w g))|]. destruct (is_ok res); [|done].
  rewrite then_ret_fst. by apply lives_at_persist_of.
Qed.

Lemma lives_heartbeat : keeps lives heartbeat.
Proof.
  unfold heartbeat. apply keeps_then; [typeclasses eauto|by apply keeps_lives_still, still_now|]. intros at_.
  apply pass_over_instances; [typeclasses eauto|apply still_lives|apply lives_filed|].
  apply works_lives. intros acc r g Hg Hr. rewrite then_ret_fst. by apply lives_at_heartbeat_of_instance.
Qed.

(** ** Applying *)

Lemma drives_begins g r s' :
  filed g -> drives (g, r) s' ->
  (forall x, stored g (i_id r) = Some x -> terminal (i_state x) = true \/ i_rehearsal r = true) ->
  i_state r = SUnchecked -> lives_at (i_id r) g (fst s').
Proof.
  intros Hg [Hi Hf Hw Ho Hs] Hfree Hu _. cbn [fst snd] in *. split; [auto|]. split; [done|].
  destruct Hs as [->|(r1 & -> & Hm & _)]; [done|]. cbn.
  etrans; [|by apply moves_life]. apply rtc_once.
  assert (face r = mkFace (i_intent r) (plan_mode (i_plan r)) (i_rehearsal r) SUnchecked) as -> by (unfold face; by rewrite Hu).
  destruct (stored g (i_id r)) as [x|]; constructor. by apply Hfree.
Qed.

(** What [apply] asks of the store before it begins. *)
Definition id_free (rehearsal : bool) (id : string) : ME EngineError unit :=
  if rehearsal then mret tt
  else
    let! existing := map_err ErrStore (read_instance id) in
    match existing with
    | Some x =>
        if terminal (i_state x) then mret tt
        else mthrow (ErrLedger R0101 (concats ["instance "; id; " is already "; state_name (i_state x)]))
    | None => mret tt
    end.

Lemma read_instance_spec id g g' x : read_instance id g = (g', Ok x) -> same_records g g' /\ x = stored g id.
Proof.
  unfold read_instance, mthen, outside, ask. destruct (disk_read (g_world g)) as [w [[]|e]]; [|done].
  by intros [= <- <-].
Qed.

Lemma id_free_spec rehearsal id g g' :
  id_free rehearsal id g = (g', Ok tt) ->
  same_records g g' /\ forall x, stored g id = Some x -> terminal (i_state x) = true \/ rehearsal = true.
Proof.
  unfold id_free. destruct rehearsal; [intros [= <-]; split; [done|auto]|].
  unfold mthen, map_err. destruct (read_instance id g) as [g1 [x|e]] eqn:Hr; [|by intros [=]].
  apply read_instance_spec in Hr as [Hs ->]. destruct (stored g id) as [x|].
  - destruct (terminal (i_state x)) eqn:Ht; intros [= <-]. split; [done|]. intros y [= <-]. by left.
  - by intros [= <-].
Qed.

Lemma still_id_free b id : keeps still (id_free b id).
Proof. unfold id_free. keeps. Qed.

Lemma lives_apply ir params opts : keeps lives (apply ir params opts).
Proof.
  unfold apply. cbv zeta. destruct (v_status _ != StatusOk); [apply keeps_throw; typeclasses eauto|].
  apply keeps_then; [typeclasses eauto|by apply keeps_lives_still, still_now|]. intros at_.
  apply keeps_then; [typeclasses eauto|by apply keeps_lives_still, still_outside|]. intros nonce.
  set (r := blank_record nonce (with_mode opts ir) params opts). intros g.
  change (lives g (fst ((do! id_free (i_rehearsal r) (i_id r) in
                         let! out := with_record r (apply_record at_) in mret (fst out)) g))).
  pose proof (still_id_free (i_rehearsal r) (i_id r) g) as [Hsame _ _].
  unfold mthen at 1. destruct (id_free (i_rehearsal r) (i_id r) g) as [g1 [[]|e]] eqn:Hf; [|by apply lives_same].
  apply id_free_spec in Hf as [_ Hfree]. cbn [fst] in Hsame. etrans; [by apply lives_same|].
  intros Hg1. rewrite then_ret_fst. revert Hg1. apply (lives_at_lives (i_id r)). intros Hg1.
  pose proof (drives_apply_record at_ (g1, r)) as Hd. unfold with_record.
  destruct (apply_record at_ (g1, r)) as [[g2 r2] x]. cbn [fst] in *.
  revert Hg1. intros Hg1. refine (drives_begins g1 r (g2, r2) Hg1 Hd _ eq_refl Hg1).
  intros x0 Hx. apply Hfree. unfold stored in *. by rewrite <- Hsame.
Qed.
End Calls.

(** ** Every call *)

(** What a client of the engine may ask of it. *)
Inductive Call :=
| CallApply (ir : PlanIr) (params : gmap string string) (opts : ApplyOptions)
| CallAdvance (id : string)
| CallRecant (id : string) (force : list ForceName)
| CallRenew (id : string) (wane : Duration)
| CallConfirm (id : string)
| CallCommit (id by_ reason : string)
| CallResume (id by_ : string)
| CallHandoffDone (id : string) (n : N) (by_ : string)
| CallAbandon (id by_ reason : string)
| CallCancel (id : string)
| CallChallenge (id : string) (scope : Scope) (context : string)
| CallApproveProof (id : string) (scope : Scope) (authenticator proof submitter : string)
| CallAck (id : string) (n : N) (reason proof authenticator submitter : string)
| CallReveal (id : string)
| CallHeartbeat
| CallReclaim (host instance : string) (force : bool) (reason : string)
| CallReap
| CallBoot
| CallStatus (id : string)
| CallInstances
| CallSite (ev : JEvent)
| CallBootstrap (host : string)
| CallDoctor
| CallCanary (wait : Duration)
| CallDrill (ir : PlanIr) (params : gmap string string) (opts : ApplyOptions).

Section Perform.
Context `{Outside}.

(** The engine after a call, whatever it answered. *)
Definition perform (c : Call) (g : Engine) : Engine :=
  match c with
  | CallApply ir params opts => fst (apply ir params opts g)
  | CallAdvance id => fst (advance id g)
  | CallRecant id force => fst (recant id force g)
  | CallRenew id wane => fst (renew id wane g)
  | CallConfirm id => fst (confirm id g)
  | CallCommit id by_ reason => fst (commit id by_ reason g)
  | CallResume id by_ => fst (resume id by_ g)
  | CallHandoffDone id n by_ => fst (handoff_done id n by_ g)
  | CallAbandon id by_ reason => fst (abandon id by_ reason g)
  | CallCancel id => fst (cancel id g)
  | CallChallenge id scope context => fst (challenge id scope context g)
  | CallApproveProof id scope a p u => fst (approve_proof id scope a p u g)
  | CallAck id n reason p a u => fst (ack id n reason p a u g)
  | CallReveal id => fst (reveal id g)
  | CallHeartbeat => fst (heartbeat g)
  | CallReclaim host instance force reason => fst (reclaim host instance force reason g)
  | CallReap => fst (reap g)
  | CallBoot => fst (boot g)
  | CallStatus id => fst (status id g)
  | CallInstances => fst (instances g)
  | CallSite ev => fst (journal_site_event ev g)
  | CallBootstrap host => fst (bootstrap host g)
  | CallDoctor => fst (doctor g)
  | CallCanary wait => fst (canary wait g)
  | CallDrill ir params opts => fst (drill ir params opts g)
  end.

Definition performs (cs : list Call) (g : Engine) : Engine := foldl (fun g c => perform c g) g cs.

Lemma verb_lives id m : keeps drives m -> keeps lives (verb id m).
Proof. intros Hm g. by eapply lives_at_lives, verb_lives_at. Qed.

Lemma lives_drill ir params opts : keeps lives (drill ir params opts).
Proof.
  apply drill_keeps; [typeclasses eauto|intros g g' []; by apply lives_same|apply lives_apply|].
  intros id force. apply verb_lives. eauto with keeps.
Qed.

Lemma perform_lives c g : lives g (perform c g).
Proof.
  destruct c; cbn [perform].
  all: first
    [ apply lives_apply | apply lives_heartbeat | apply lives_reap | apply lives_boot | apply lives_drill
    | solve [apply verb_lives; eauto with keeps] | apply keeps_lives_still; solve [eauto with keeps] ].
Qed.

Lemma performs_lives cs : forall g, lives g (performs cs g).
Proof.
  induction cs as [|c cs IH]; intros g; [done|]. cbn. etrans; [apply perform_lives|apply IH].
Qed.
End Perform.

(** ** Properties *)

(** C5. Whatever sequence of calls is made on the engine, and whatever the hosts, the disk
    and the bindings answer, the record stored under each name only moves as the state
    machine allows: it begins Unchecked where there was none or the last one had ended (or
    is a rehearsal), keeps its intent and mode, and every later state is reached from the
    earlier one by transitions of that intent and mode. Records stay filed under their
    own ids. *)
Theorem engine_refines_the_machine `{Outside} cs g :
  filed g ->
  filed (performs cs g)
  /\ forall id, rtc life_step (face <$> stored g id) (face <$> stored (performs cs g) id).
Proof. apply performs_lives. Qed.

Lemma life_reachable x y :
  rtc life_step x y ->
  (forall f, x = Some f -> States.reachable (fc_intent f) (fc_mode f) (fc_state f)) ->
  forall f, y = Some f -> States.reachable (fc_intent f) (fc_mode f) (fc_state f).
Proof.
  induction 1 as [|x y z Hs _ IH]; [done|]. intros Hx. apply IH. intros f ->. inversion Hs as [| |f0 f1 [s Hm]]; subst.
  - apply rtc_refl.
  - apply rtc_refl.
  - cbn. eapply rtc_r; [by apply (Hx f0)|done].
Qed.

(** C6. From an empty store every record the engine ever keeps is in a state its machine can
    reach: a temporary instance is never Committed, a permanent one never Applied,
    Suspended or Expired. *)
Theorem stored_states_are_reachable `{Outside} cs g id r :
  st_instances (g_store g) = [] -> stored (performs cs g) id = Some r ->
  States.reachable (i_intent r) (plan_mode (i_plan r)) (i_state r)
  /\ (i_permanent r = false -> i_state r <> SCommitted)
  /\ (i_permanent r = true -> i_state r <> SApplied /\ i_state r <> SSuspended /\ i_state r <> SExpired).
Proof.
  intros Hempty Hr.
  assert (Hg : filed g).
  { split; unfold stored, bm_sorted; rewrite Hempty; [done|constructor]. }
  destruct (performs_lives cs g Hg) as [_ Hl]. specialize (Hl id). unfold stored at 1 in Hl. rewrite Hempty, Hr in Hl.
  assert (Hreach : States.reachable (i_intent r) (plan_mode (i_plan r)) (i_state r)).
  { apply (life_reachable _ _ Hl) with (f := face r); [done|done]. }
  split; [done|]. apply reachable_not_foreign in Hreach. unfold i_intent in Hreach.
  split; intros Hp; rewrite Hp in Hreach; destruct (i_state r); naive_solver.
Qed.

(** ** Witnesses *)

Definition demo_id : string := "sample.web1.00000000".

Definition demo_calls : list Call := [CallApply demo_two_files ∅ demo_options; CallReap; CallRecant demo_id []].

Lemma demo_engine_filed : filed demo_engine.
Proof. split; [done|constructor]. Qed.

Lemma engine_refines_the_machine_witness :
  (fc_state <$> (face <$> stored (performs demo_calls demo_engine) demo_id) = Some SClosed)
  /\ rtc life_step (face <$> stored demo_engine demo_id) (face <$> stored (performs demo_calls demo_engine) demo_id).
Proof.
  split; [vm_compute; reflexivity|]. apply (engine_refines_the_machine demo_calls demo_engine demo_engine_filed).
Defined.

Lemma stored_states_are_reachable_witness :
  exists r, stored (performs demo_calls demo_engine) demo_id = Some r
            /\ States.reachable (i_intent r) (plan_mode (i_plan r)) (i_state r).
Proof.
  destruct (stored (performs demo_calls demo_engine) demo_id) as [r|] eqn:Hr; [|vm_compute in Hr; discriminate].
  exists r. split; [done|]. apply (stored_states_are_reachable demo_calls demo_engine demo_id r); [reflexivity|exact Hr].
Defined.
