(* ===== verification/WriteAhead.v ===== *)
(** * Nothing runs that the disk does not name

    Every body the engine runs on a host is judged against the store as it was on disk at
    that moment ([act_store]): the [do] of a step only runs once its Applying entry is in
    the journal and the stored record, in Applying, names the step in flight; an undo only
    runs for the step the stored record has in flight or applied last. So an engine that
    dies at any moment leaves on disk what has to be undone. *)

From Stdlib Require Import Ascii Sorted.
From stdpp Require Import base strings pretty numbers option sets gmap list relations.
From S2P Require Import Prelude Model Algebra Intent States Ledger Journal EngineJournal Resolve Footprint Ordered.
From S2P Require Import Explain Backstop Monad Executor Instance Engine Hosts EngineBackstop Revert Walk Verbs Reap.
From S2P Require Import Verdict EngineLogic Upkeep Drill Fakes Refine.

(** ** What an act is judged by *)

(** An op with some of its bindings put in, as often as one likes. *)
Inductive variant_of (o : Op) : Op -> Prop :=
| variant_refl : variant_of o o
| variant_bound o' o'' h env : variant_of o o' -> concrete_op o' h env = Ok o'' -> variant_of o o''.

Definition does (o : Op) (body : list RPrim) : Prop :=
  exists o' h env, variant_of o o' /\ resolve_body (op_do o') h env = Ok body.

Definition undoes (o : Op) (body : list RPrim) : Prop :=
  exists o' key snapshots h env whole b,
    variant_of o o' /\ undo_body key o' snapshots h env = Ok b
    /\ restore_wholes key (op_footprint o') snapshots b whole = Ok body.

Section WriteAhead.
Context `{Outside}.

Notation pair := (Engine * InstanceRecord)%type.

(** The journal has the write-ahead entry of a step, with the line that says its undo. *)
Definition announced (chain : list Entry) (id : string) (n : N) (o : Op) : Prop :=
  exists e, e ∈ chain /\ en_instance e = id /\ en_event e = JApplying n (undo_line o).

(** What the store on disk says of an act. *)
Definition act_sound (a : Act) : Prop :=
  exists r, bm_get (act_instance a) (st_instances (act_store a)) = Some r /\ i_id r = act_instance a /\
  match act_purpose a with
  | ForDo at_ =>
      i_rehearsal r = false /\ i_state r = SApplying /\ i_attempting r = Some at_
      /\ is_applied r (as_step at_) (as_iteration at_) (as_vars at_) = false
      /\ exists o, op_at r (as_step at_) = Some o
                   /\ announced (st_chain (act_store a)) (act_instance a) (as_step at_) o /\ does o (act_body a)
  | ForUndo at_ =>
      i_rehearsal r = false /\ (i_attempting r = Some at_ \/ last (i_applied r) = Some at_)
      /\ exists o, op_at r (as_step at_) = Some o /\ undoes o (act_body a)
  | ForReestablish at_ =>
      at_ ∈ i_applied r
      /\ exists o b h env, op_at r (as_step at_) = Some o /\ op_reestablish o = Some b
                           /\ resolve_body b h env = Ok (act_body a)
  end.

Definition sound (g : Engine) : Prop := Forall act_sound (g_acts g).

(** ** Triples

    [triple P m Q]: from a state of which [P] holds, [m] leaves every act sound, and where
    it answers a value, [Q] holds of it and of the state. *)
Definition triple {A} (P : pair -> Prop) (m : M EngineError A) (Q : A -> pair -> Prop) : Prop :=
  forall s, sound (fst s) -> P s ->
  sound (fst (fst (m s))) /\ forall x, snd (m s) = Ok x -> Q x (fst (m s)).

Lemma triple_ret {A} (P : pair -> Prop) (x : A) (Q : A -> pair -> Prop) : (forall s, P s -> Q x s) -> triple P (mret x) Q.
Proof. intros HQ s Hs HP. split; [done|]. intros y [= <-]. by apply HQ. Qed.

Lemma triple_throw {A} P e (Q : A -> pair -> Prop) : triple P (mthrow e) Q.
Proof. intros s Hs HP. by split. Qed.

Lemma triple_then {A B} P (m : M EngineError A) (k : A -> M EngineError B) Q R :
  triple P m Q -> (forall x, triple (Q x) (k x) R) -> triple P (mthen m k) R.
Proof.
  intros Hm Hk s Hs HP. destruct (Hm s Hs HP) as [Hs1 HQ]. unfold mthen.
  destruct (m s) as [s1 [x|e]]; cbn [fst snd] in *; [|by split]. apply (Hk x s1 Hs1). by apply HQ.
Qed.

Lemma triple_weaken {A} (P P' : pair -> Prop) (m : M EngineError A) (Q Q' : A -> pair -> Prop) :
  triple P m Q -> (forall s, P' s -> P s) -> (forall x s, Q x s -> Q' x s) -> triple P' m Q'.
Proof. intros Hm HP HQ s Hs Hs'. destruct (Hm s Hs (HP s Hs')) as [H1 H2]. split; [done|]. eauto. Qed.

Lemma triple_get {A} (P : pair -> Prop) (k : InstanceRecord -> M EngineError A) Q :
  (forall r, triple (fun s => P s /\ snd s = r) (k r) Q) -> triple P (mthen get_rec k) Q.
Proof. intros Hk [g r] Hs HP. unfold mthen, get_rec, with_rec, mret. apply (Hk r (g, r)); done. Qed.

Lemma triple_update (P : pair -> Prop) f (Q : unit -> pair -> Prop) :
  (forall g r, P (g, r) -> Q tt (g, f r)) -> triple P (update f) Q.
Proof. intros Hf [g r] Hs HP. split; [done|]. intros [] _. by apply Hf. Qed.

(** A statement that holds on as long as the instance is left as it was. *)
Definition steady (P : pair -> Prop) : Prop := forall s s', P s -> quiet s s' -> P s'.

Lemma quiet_sound s s' : quiet s s' -> sound (fst s) -> sound (fst s').
Proof. intros [_ Ha _ _ _ _]. unfold sound. by rewrite Ha. Qed.

Lemma triple_quiet {A} P (m : M EngineError A) : steady P -> keeps quiet m -> triple P m (fun _ => P).
Proof.
  intros HP Hm s Hs Hp. specialize (Hm s). split; [by eapply quiet_sound|]. intros x _. by eapply HP.
Qed.

Lemma steady_true : steady (fun _ => True).
Proof. by intros s s'. Qed.

(** ** The undo of a step *)

Lemma variant_trans o o' o'' : variant_of o o' -> variant_of o' o'' -> variant_of o o''.
Proof. intros H1. induction 1 as [|x y h env _ IH Hc]; [done|]. by eapply variant_bound. Qed.

(** The stored record has the step in flight or applied last, and its op is the one undone. *)
Definition named (g : Engine) (r : InstanceRecord) (at_ : AppliedStep) (o' : Op) : Prop :=
  exists r0 o, stored g (i_id r) = Some r0 /\ i_id r0 = i_id r /\ i_rehearsal r0 = i_rehearsal r
               /\ (i_attempting r0 = Some at_ \/ last (i_applied r0) = Some at_)
               /\ op_at r0 (as_step at_) = Some o /\ variant_of o o'.

Lemma named_same g g' r at_ o : same_records g g' -> named g r at_ o -> named g' r at_ o.
Proof. unfold same_records, named, stored. by intros ->. Qed.

Lemma named_variant g r at_ o o' : variant_of o o' -> named g r at_ o -> named g r at_ o'.
Proof. intros Hv (r0 & o0 & Hs & Hi & Hr & Ha & Ho & H0). exists r0, o0. eauto 10 using variant_trans. Qed.

(** The undo writes no record, and what it runs is sound where the step is named. *)
Definition undoing_of (r : InstanceRecord) (at_ : AppliedStep) (o : Op) (g g' : Engine) : Prop :=
  same_records g g' /\ (named g r at_ o -> sound g -> sound g').

#[export] Instance undoing_of_preorder r at_ o : PreOrder (undoing_of r at_ o).
Proof.
  split; [by intros g|]. intros g1 g2 g3 [S1 U1] [S2 U2]. split; [by etrans|].
  intros Hn Hs. apply U2; [by eapply named_same|by apply U1].
Qed.

Lemma keeps_undoing_still {E A} r at_ o (m : ME E A) : keeps still m -> keeps (undoing_of r at_ o) m.
Proof.
  intros Hm g. destruct (Hm g) as [Hi Ha _]. split; [done|]. intros _. unfold sound. by rewrite Ha.
Qed.

Lemma keeps_lift_then {S E A B} (R : relation S) `{!PreOrder R} (res : Result A E) (k : A -> S -> S * Result B E) :
  (forall x, res = Ok x -> keeps R (k x)) -> keeps R (mthen (lift res) k).
Proof. intros Hk s. unfold mthen, lift. destruct res as [x|e]; [by apply Hk|reflexivity]. Qed.

Lemma undoing_run_on r at_ o x h key snaps h' env whole b body :
  i_rehearsal r = false -> undo_body key o snaps h' env = Ok b ->
  restore_wholes key (op_footprint o) snaps b whole = Ok body ->
  keeps (undoing_of r at_ o) (run_on (ForUndo at_) x h (i_id r) body).
Proof.
  intros Hreh Hb Hw. unfold run_on. apply keeps_then; [typeclasses eauto| |intros; apply keeps_undoing_still; keeps].
  intros g. split; [done|]. cbn. intros (r0 & o0 & Hs & Hi & Hr & Ha & Ho & Hv) Hsound.
  apply Forall_app. split; [done|]. apply Forall_singleton. exists r0. cbn.
  split; [done|]. split; [done|]. split; [congruence|]. split; [done|].
  exists o0. split; [done|]. exists o, key, snaps, h', env, whole, b. done.
Qed.

Lemma undoing_under_lock r at_ o h env x :
  i_rehearsal r = false -> keeps (undoing_of r at_ o) (undo_under_lock r at_ o h env x).
Proof.
  intros Hreh. unfold undo_under_lock. cbv zeta.
  apply keeps_then; [typeclasses eauto|apply keeps_undoing_still; keeps|]. intros foreign.
  apply keeps_then; [typeclasses eauto|apply keeps_undoing_still; keeps|]. intros [report whole].
  destruct (ur_held report); [|apply keeps_undoing_still; keeps].
  apply keeps_lift_then; [typeclasses eauto|]. intros b Hb. apply keeps_lift_then; [typeclasses eauto|]. intros body Hw.
  apply keeps_then; [typeclasses eauto| |intros; apply keeps_undoing_still; keeps].
  destruct body as [|p body]; [apply keeps_undoing_still; keeps|].
  apply keeps_then; [typeclasses eauto| |intros; apply keeps_undoing_still; keeps].
  apply keeps_map_err. by eapply undoing_run_on.
Qed.

Lemma undoing_step r at_ o g : named g r at_ o -> sound g -> sound (fst (undo_step r at_ o g)).
Proof.
  intros Hn Hs. unfold undo_step. destruct (i_rehearsal r) eqn:Hreh; [done|]. cbn [orb].
  destruct (match op_undo o with NoUndo => true | _ => false end); [done|].
  unfold mthen at 1. destruct (step_host g r o) as [h|e]; [|done]. cbv zeta.
  destruct (concrete_op o h _) as [o'|u] eqn:Hc; [|done].
  assert (Hn' : named g r at_ o') by (eapply named_variant, Hn; eapply variant_bound; [apply variant_refl|done]).
  revert g Hn Hs Hn'. intros g _ Hs Hn'.
  match goal with |- sound (fst (?m g)) => assert (Hk : keeps (undoing_of r at_ o') m) end;
    [|by apply Hk].
  apply keeps_then; [typeclasses eauto|apply keeps_undoing_still; keeps|]. intros [x|]; [|apply keeps_undoing_still; keeps].
  destruct (existsb _ _); [|by apply undoing_under_lock].
  unfold under_host_lock. apply keeps_then; [typeclasses eauto|apply keeps_undoing_still; keeps|]. intros _.
  apply keeps_then; [typeclasses eauto| |intros; apply keeps_undoing_still; keeps].
  apply keeps_attempt. by apply undoing_under_lock.
Qed.

(** ** Events *)

(** What is stored of the record in hand is that record, up to what does not count. *)
Definition synced (s : pair) : Prop :=
  exists r0, stored (fst s) (i_id (snd s)) = Some r0 /\ core r0 = core (snd s).

Lemma steady_synced : steady synced.
Proof.
  intros [g r] [g' r'] (r0 & Hr & Hc) [C _ _ _ _ S]. unfold synced. cbn [fst snd] in *.
  rewrite (core_id _ _ C). destruct S as [->|S].
  - exists r0. split; [done|congruence].
  - apply fmap_Some in S as (r1 & -> & Hc1). exists r1. split; [done|congruence].
Qed.

Lemma sound_same (g g' : Engine) : g_acts g' = g_acts g -> sound g -> sound g'.
Proof. unfold sound. by intros ->. Qed.

Lemma step_to_spec ev g r st :
  transition (i_ctx r) (i_state r) ev = To st ->
  g_acts (fst (fst (step ev (g, r)))) = g_acts g
  /\ forall x, snd (step ev (g, r)) = Ok x ->
     snd (fst (step ev (g, r))) = set_state st r
     /\ stored (fst (fst (step ev (g, r)))) (i_id r) = Some (set_state st r).
Proof.
  intros Ht. rewrite step_eq, Ht. unfold mthen.
  destruct (persist (traced r ev g, set_state st r)) as [s' res] eqn:Hp.
  apply persist_spec in Hp as (Hr & Ha & _ & Hi). destruct (still_traced r ev g) as [_ Ht' _].
  destruct res as [[]|e]; cbn [fst snd is_ok mret] in *; (split; [congruence|]); [|done].
  intros _ _. split; [done|]. unfold stored. rewrite Hi. by rewrite bm_get_insert.
Qed.

Lemma step_stays_spec ev g r :
  (forall st, transition (i_ctx r) (i_state r) ev <> To st) ->
  snd (fst (step ev (g, r))) = r /\ still g (fst (fst (step ev (g, r))))
  /\ forall x, snd (step ev (g, r)) = Ok x -> transition (i_ctx r) (i_state r) ev = Stay.
Proof.
  intros Ht. rewrite step_eq. pose proof (still_traced r ev g).
  destruct (transition (i_ctx r) (i_state r) ev) as [st| |c|]; [by destruct (Ht st)|..]; done.
Qed.

Lemma step_acts ev s : g_acts (fst (fst (step ev s))) = g_acts (fst s).
Proof.
  destruct s as [g r]. destruct (transition (i_ctx r) (i_state r) ev) as [st| | |] eqn:Ht.
  1: by destruct (step_to_spec ev g r st Ht) as [-> _].
  all: destruct (step_stays_spec ev g r) as (_ & [_ Ha _] & _); [intros st; by rewrite Ht|exact Ha].
Qed.

Lemma triple_step_any ev P : triple P (step ev) (fun _ _ => True).
Proof. intros s Hs _. split; [|done]. eapply sound_same, Hs. apply step_acts. Qed.

(** An event that moves the machine leaves the record stored as it is. *)
Lemma triple_step_to ev :
  triple (fun s => transition (i_ctx (snd s)) (i_state (snd s)) ev <> Stay) (step ev) (fun _ => synced).
Proof.
  intros [g r] Hs Hn. cbn [fst snd] in *. split; [eapply sound_same, Hs; apply step_acts|]. intros x Hx.
  destruct (transition (i_ctx r) (i_state r) ev) as [st| | |] eqn:Ht; [|done|..].
  - destruct (step_to_spec ev g r st Ht) as [_ Hok]. destruct (Hok x Hx) as [Hr Hst].
    exists (set_state st r). by rewrite Hr.
  - destruct (step_stays_spec ev g r) as (_ & _ & Hst); [intros st; by rewrite Ht|]. specialize (Hst x Hx). congruence.
  - destruct (step_stays_spec ev g r) as (_ & _ & Hst); [intros st; by rewrite Ht|]. specialize (Hst x Hx). congruence.
Qed.

(** The events that never leave a state as it is. *)
Definition always_moves (ev : Event) : bool :=
  match ev with EvConfirm | EvRenew | EvWaneElapses => false | _ => true end.

Lemma always_moves_not_stay c st ev : always_moves ev = true -> transition c st ev <> Stay.
Proof.
  intros Hm. check_machine (fun (c : Ctx) (s : State) e o => negb (always_moves e) || negb (bool_decide (o = Stay))) c st ev.
  rewrite Hm in Hchk. cbn in Hchk. apply negb_true_iff, bool_decide_eq_false in Hchk. done.
Qed.

Lemma triple_step_moves ev P : always_moves ev = true -> triple P (step ev) (fun _ => synced).
Proof.
  intros Hm. eapply triple_weaken; [apply (triple_step_to ev)| |done].
  intros s _. by apply always_moves_not_stay.
Qed.

(** ** Reverting *)

Lemma triple_on_engine {A} P (m : ME EngineError A) (Q : A -> pair -> Prop) :
  (forall g r, sound g -> P (g, r) -> sound (fst (m g)) /\ forall x, snd (m g) = Ok x -> Q x (fst (m g), r)) ->
  triple P (on_engine m) Q.
Proof.
  intros Hm [g r] Hs HP. unfold on_engine, with_rec. specialize (Hm g r Hs HP).
  destruct (m g) as [g' x]. done.
Qed.

Lemma synced_same g g' r : same_records g g' -> synced (g, r) -> synced (g', r).
Proof. unfold same_records, synced, stored. cbn. by intros ->. Qed.

Lemma core_parts r r' :
  core r' = core r ->
  i_id r' = i_id r /\ i_ir r' = i_ir r /\ i_rehearsal r' = i_rehearsal r /\ i_state r' = i_state r
  /\ i_applied r' = i_applied r /\ i_attempting r' = i_attempting r.
Proof. unfold core. intros Hc. by split_and!; injection Hc. Qed.

Lemma op_at_ir r r' n : i_ir r' = i_ir r -> op_at r' n = op_at r n.
Proof. unfold op_at, i_plan. by intros ->. Qed.

Lemma synced_named g r a o :
  synced (g, r) -> last (i_applied r) = Some a \/ i_attempting r = Some a -> op_at r (as_step a) = Some o -> named g r a o.
Proof.
  intros (r0 & Hs & Hc) Hl Ho. cbn in *. destruct (core_parts _ _ Hc) as (H1 & H2 & H3 & H4 & H5 & H6).
  exists r0, o. rewrite H5, H6. split; [done|]. split; [done|]. split; [done|]. split; [tauto|].
  split; [by rewrite (op_at_ir r r0)|constructor].
Qed.

(** [undo_step] for a step that is named keeps the store and the soundness. *)
Lemma triple_undo_step P r a o :
  (forall s, P s -> synced s /\ snd s = r) -> last (i_applied r) = Some a -> op_at r (as_step a) = Some o ->
  triple P (on_engine (attempt (undo_step r a o))) (fun _ => synced).
Proof.
  intros HP Hl Ho. apply triple_on_engine. intros g r' Hs Hp. destruct (HP _ Hp) as [Hsy Hr]. cbn in Hr. subst r'.
  unfold attempt. pose proof (undoing_step r a o g) as Hu. pose proof (same_undo_step r a o g) as Hsame.
  destruct (undo_step r a o g) as [g' x]. cbn [fst snd] in *. split; [apply Hu; [|done]|].
  - apply synced_named; auto.
  - intros y _. by eapply synced_same.
Qed.

Lemma triple_log P ev : steady P -> triple P (log ev) (fun _ => P).
Proof. intros HP. by apply triple_quiet; [|apply quiet_log]. Qed.

Lemma triple_persist P : triple P persist (fun _ => synced).
Proof.
  intros [g r] Hs _. destruct (persist (g, r)) as [s' res] eqn:Hp. apply persist_spec in Hp as (Hr & Ha & _ & Hi).
  cbn [fst snd]. split; [by eapply sound_same|]. intros x ->. exists r. rewrite Hr. split; [|done].
  unfold stored. rewrite Hi. cbn [is_ok]. by rewrite bm_get_insert.
Qed.

Lemma triple_seq {A B} P (m : M EngineError A) (k : M EngineError B) Q R :
  triple P m (fun _ => Q) -> triple Q k R -> triple P (do! m in k) R.
Proof. intros Hm Hk. eapply triple_then; [exact Hm|]. done. Qed.

(** A method that runs nothing on a host. *)
Definition idle (s s' : pair) : Prop := g_acts (fst s') = g_acts (fst s).

#[export] Instance idle_preorder : PreOrder idle.
Proof. split; [done|]. intros s1 s2 s3 H1 H2. unfold idle in *. congruence. Qed.

Lemma idle_quiet {E A} (m : M E A) : keeps quiet m -> keeps idle m.
Proof. apply keeps_mono. by intros s s' []. Qed.

Lemma idle_step ev : keeps idle (step ev).
Proof. intros s. apply step_acts. Qed.

Lemma idle_update {E} f : keeps idle (update (E := E) f).
Proof. by intros [g r]. Qed.

Lemma triple_idle {A} P (m : M EngineError A) : keeps idle m -> triple P m (fun _ _ => True).
Proof. intros Hm s Hs _. split; [|done]. eapply sound_same, Hs. apply Hm. Qed.

(** Clearing the steps' bookkeeping, then writing the record. *)
Lemma triple_then_persist P f : triple P (do! update f in persist) (fun _ => synced).
Proof. eapply triple_seq; [|apply triple_persist]. apply (triple_update P f (fun _ _ => True)). done. Qed.
End WriteAhead.

#[export] Hint Resolve idle_quiet idle_step idle_update : keeps.

(** One quiet call, or an event, in a method whose record is synced. *)
Ltac quietly :=
  lazymatch goal with
  | |- triple _ (mthen (step _) _) _ => eapply triple_seq; [apply triple_step_moves; reflexivity|]
  | |- triple _ (mthen ?m _) _ =>
      eapply triple_then; [apply triple_quiet; [exact steady_synced|keeps]|intros ?]
  end.

Section Reverting.
Context `{Outside}.

Notation pair := (Engine * InstanceRecord)%type.

Lemma triple_revert_turn a :
  triple (fun s => synced s /\ last (i_applied (snd s)) = Some a) (revert_turn a) (fun _ => synced).
Proof.
  unfold revert_turn. apply triple_get. intros r. destruct (op_at r (as_step a)) as [o|] eqn:Ho.
  2: { eapply triple_then; [by apply (triple_update _ _ (fun _ _ => True))|]. intros ?.
       eapply triple_seq; [apply triple_persist|]. by apply triple_ret. }
  eapply triple_then with (Q := fun _ => synced).
  { intros [g r'] Hs [[Hsy Hl] Hr]. cbn in Hr, Hl. subst r'.
    by apply (triple_undo_step (fun s' => synced s' /\ snd s' = r) r a o). }
  intros [[clobbered [|f held]]|why].
  - eapply triple_then with (Q := fun _ => synced); [destruct clobbered; apply triple_quiet; solve [exact steady_synced|keeps]|].
    intros ?. quietly.
    eapply triple_then; [by apply (triple_update _ _ (fun _ _ => True))|]. intros ?.
    eapply triple_seq; [apply triple_persist|]. by apply triple_ret.
  - quietly. quietly. quietly. by apply triple_ret.
  - quietly. quietly. quietly. quietly. quietly. by apply triple_ret.
Qed.

Lemma triple_revert_loop fuel : triple synced (revert_loop fuel) (fun _ => synced).
Proof.
  induction fuel as [|fuel IH]; cbn [revert_loop]; [by apply triple_ret|].
  apply triple_get. intros r. destruct (last (i_applied r)) as [a|] eqn:Hl; [|apply triple_ret; tauto].
  eapply triple_then.
  - eapply triple_weaken; [apply (triple_revert_turn a)| |done]. intros [g r'] [Hs Hr]. cbn in Hr. by subst r'.
  - intros [|]; [exact IH|by apply triple_ret].
Qed.

Lemma triple_revert : triple synced revert (fun _ _ => True).
Proof.
  unfold revert. apply triple_get. intros r.
  eapply triple_weaken with (P := synced); [|by intros s []|done].
  quietly. quietly. eapply triple_then; [apply triple_revert_loop|]. intros all.
  apply triple_idle. unfold close_reverted. keeps.
Qed.

(** ** Refusing *)

Definition stops (f : Flow) : Prop := f = Stop.

Lemma triple_refuse_applied n P : triple P (refuse_applied n) (fun f _ => stops f).
Proof.
  unfold refuse_applied. eapply triple_seq; [apply triple_step_moves; reflexivity|].
  apply triple_get. intros r. case_bool_decide.
  - eapply triple_then; [apply triple_idle; keeps|]. intros ?. eapply triple_then; [apply triple_idle; keeps|]. intros ?.
    eapply triple_then; [apply triple_idle; keeps|]. intros ?. by apply triple_ret.
  - eapply triple_then; [|intros ?; by apply triple_ret].
    eapply triple_weaken; [apply triple_revert|by intros s []|]. intros x s Hx. exact Hx.
Qed.

Lemma triple_refuse n why P : triple P (refuse n why) (fun f _ => stops f).
Proof.
  unfold refuse. cbv zeta. eapply triple_then; [apply triple_idle; keeps|]. intros ?.
  eapply triple_then; [apply triple_idle; keeps|]. intros ?. apply triple_refuse_applied.
Qed.
End Reverting.

(** ** One step *)

Section Stepping.
Context `{Outside}.

Notation pair := (Engine * InstanceRecord)%type.

(** The instance is applying, and its plan has these leaves. *)
Definition walking (B : list Item) (s : pair) : Prop :=
  i_state (snd s) = SApplying /\ leaves (plan_body (i_plan (snd s))) = B.

Lemma steady_walking B : steady (walking B).
Proof.
  intros [g r] [g' r'] [Ha Hb] [C _ _ _ _ _]. cbn in *. destruct (core_parts _ _ C) as (_ & Hir & _ & Hst & _).
  unfold walking, i_plan in *. cbn. by rewrite Hst, Hir.
Qed.

(** A flow that goes on leaves the instance applying. *)
Definition goes (B : list Item) (f : Flow) (s : pair) : Prop := f = Continue -> walking B s.

(** Nothing in the way, or a flow that stops. *)
Definition clear (P : pair -> Prop) (f : option Flow) (s : pair) : Prop :=
  match f with None => P s | Some f => stops f end.

(** The step is in flight: the record in hand and the stored one say so, and the journal
    has its entry. *)
Definition in_flight (B : list Item) (at_ : AppliedStep) (o : Op) (s : pair) : Prop :=
  synced s /\ walking B s /\ i_attempting (snd s) = Some at_
  /\ is_applied (snd s) (as_step at_) (as_iteration at_) (as_vars at_) = false
  /\ op_at (snd s) (as_step at_) = Some o
  /\ announced (st_chain (g_store (fst s))) (i_id (snd s)) (as_step at_) o.

Lemma announced_grows chain chain' id n o : chain `prefix_of` chain' -> announced chain id n o -> announced chain' id n o.
Proof. intros [k ->] (e & He & Hi & Hev). exists e. set_solver. Qed.

Lemma is_applied_eq r r' n i v : i_applied r' = i_applied r -> is_applied r' n i v = is_applied r n i v.
Proof. unfold is_applied. by intros ->. Qed.

Lemma steady_in_flight B at_ o : steady (in_flight B at_ o).
Proof.
  intros s s' (H1 & H2 & H3 & H4 & H5 & H6) Q. pose proof (steady_synced s s' H1 Q) as H1'.
  pose proof (steady_walking B s s' H2 Q) as H2'. destruct Q as [C _ G _ _ _].
  destruct (core_parts _ _ C) as (Hid & Hir & _ & _ & Hap & Hat).
  split; [done|]. split; [done|]. split; [congruence|]. split; [by rewrite (is_applied_eq _ _ _ _ _ Hap)|].
  split; [by rewrite (op_at_ir _ _ _ Hir)|]. rewrite Hid. by eapply announced_grows.
Qed.

Lemma stops_goes B f s : stops f -> goes B f s.
Proof. by intros ->. Qed.

Lemma triple_refuse_some P P' n why : triple P (let! f := refuse n why in mret (Some f)) (clear P').
Proof. eapply triple_then; [apply triple_refuse|]. intros f. apply triple_ret. intros s Hf. exact Hf. Qed.

Lemma triple_wait P n why g b : triple P (wait n why g b) (fun f _ => stops f).
Proof.
  unfold wait. eapply triple_then; [apply triple_idle; keeps|]. intros ?.
  eapply triple_then; [apply triple_idle; keeps|]. intros ?.
  eapply triple_then; [apply triple_idle; keeps|]. intros ?.
  eapply triple_then; [apply triple_idle; keeps|]. intros ?. by apply triple_ret.
Qed.

Lemma triple_wait_some P P' n why g b : triple P (let! f := wait n why g b in mret (Some f)) (clear P').
Proof. eapply triple_then; [apply triple_wait|]. intros f. apply triple_ret. intros s Hf. exact Hf. Qed.

Lemma triple_defer P n i vars o why : triple P (defer n i vars o why) (fun f _ => stops f).
Proof.
  unfold defer. cbv zeta. eapply triple_then; [apply triple_idle; keeps|]. intros ?.
  eapply triple_then; [apply triple_idle; keeps|]. intros ?.
  eapply triple_then; [apply triple_idle; keeps|]. intros ?. by apply triple_ret.
Qed.

(** A quiet call, what is steady kept. *)
Lemma triple_steady {A C} P (m : M EngineError A) (k : A -> M EngineError C) Q :
  steady P -> keeps quiet m -> (forall x, triple P (k x) Q) -> triple P (mthen m k) Q.
Proof. intros HP Hm Hk. eapply triple_then; [by apply triple_quiet|exact Hk]. Qed.

Lemma triple_guard_blocks_with_bound P n g f b : steady P -> triple P (guard_blocks_with_bound n g f b) (clear P).
Proof.
  intros HP. unfold guard_blocks_with_bound. apply triple_steady; [done|keeps|]. intros r.
  apply triple_steady; [done|keeps|]. intros owner. apply triple_steady; [done|keeps|]. intros tri.
  destruct tri as [[]|e].
  - by apply triple_ret.
  - apply triple_refuse_some.
  - cbv zeta. destruct (_ && _); [by apply triple_ret|apply triple_wait_some].
  - apply triple_refuse_some.
Qed.

Lemma triple_guard_blocks P n g f : steady P -> triple P (guard_blocks n g f) (clear P).
Proof.
  intros HP. unfold guard_blocks. apply triple_steady; [done|keeps|]. intros r. by apply triple_guard_blocks_with_bound.
Qed.

Lemma triple_guards_block P n gs f : steady P -> triple P (guards_block n gs f) (clear P).
Proof.
  intros HP. unfold guards_block. induction gs as [|g gs IH]; cbn [first_some]; [by apply triple_ret|].
  eapply triple_then; [by apply triple_guard_blocks|]. intros [fl|]; [by apply triple_ret|exact IH].
Qed.

Lemma triple_mark_applied B a : triple (walking B) (mark_applied a) (fun _ => walking B).
Proof.
  unfold mark_applied. eapply triple_seq; [apply (triple_update _ _ (fun _ => walking B)); done|].
  apply triple_quiet; [apply steady_walking|keeps].
Qed.

Lemma triple_after_step B a o : triple (walking B) (after_step a o) (goes B).
Proof.
  unfold after_step. eapply triple_seq; [apply triple_mark_applied|]. apply triple_steady; [apply steady_walking|keeps|]. intros r.
  destruct (i_rehearsal r); [apply triple_ret; unfold goes; auto|].
  eapply triple_then; [apply triple_guards_block, steady_walking|]. intros [f|].
  - apply triple_ret. intros s Hf. by apply stops_goes.
  - apply triple_steady; [apply steady_walking|keeps|]. intros ?. apply triple_ret. unfold goes. auto.
Qed.

Lemma triple_undo_failed B a o o' pre : variant_of o o' -> triple (in_flight B a o) (undo_failed a o' pre) (fun _ _ => True).
Proof.
  intros Hv. unfold undo_failed.
  eapply triple_seq with (Q := fun s => named (fst s) (snd s) a o').
  { apply (triple_update _ _ (fun _ s => named (fst s) (snd s) a o')). intros g r (Hs & _ & Ha & _ & Ho & _). cbn in *.
    destruct (synced_named g r a o Hs (or_intror Ha) Ho) as (r0 & o0 & N1 & N2 & N3 & N4 & N5 & N6).
    exists r0, o0. split_and!; try done. by eapply variant_trans. }
  apply triple_get. intros r.
  eapply triple_then with (Q := fun _ s => named (fst s) r a o').
  { destruct pre as [|p pre]; [apply triple_ret; by intros [g r'] [Hn <-]|]. apply triple_on_engine.
    intros g r' Hs [Hn Hr]. cbn in Hn, Hr. subst r'. pose proof (still_untouched r o' (p :: pre) g) as [Hi Hacts _].
    split; [by eapply sound_same|]. intros x _. by eapply named_same. }
  intros same. destruct same; [apply triple_idle; keeps|].
  eapply triple_then with (Q := fun _ _ => True); [|intros x; apply triple_idle; keeps].
  apply triple_on_engine. intros g r' Hs Hn. cbn in Hn. split; [|done].
  pose proof (undoing_step r a o' g Hn Hs) as Hu. unfold attempt. by destruct (undo_step r a o' g).
Qed.

Lemma triple_step_failed B a o o' pre ev why :
  variant_of o o' -> triple (in_flight B a o) (step_failed a o' pre ev why) (goes B).
Proof.
  intros Hv. unfold step_failed. apply triple_steady; [apply steady_in_flight|keeps|]. intros ?. apply triple_steady; [apply steady_in_flight|keeps|]. intros ?.
  eapply triple_then; [by apply triple_undo_failed|]. intros ?.
  eapply triple_weaken with (P := fun _ => True); [apply triple_refuse_applied|done|]. intros f s. apply stops_goes.
Qed.

Lemma triple_fail_after_do B a o o' pre why :
  variant_of o o' -> triple (in_flight B a o) (fail_after_do a o' pre why) (goes B).
Proof. apply triple_step_failed. Qed.

(** ** From the write-ahead to the end of the step *)

Lemma triple_settle_step B s h a o o' pre before out :
  variant_of o o' -> triple (in_flight B a o) (settle_step s h a o' pre before out) (goes B).
Proof.
  intros Hv. unfold settle_step. cbv zeta. apply triple_steady; [apply steady_in_flight|keeps|]. intros r.
  apply triple_steady; [apply steady_in_flight|keeps|]. intros after. destruct after as [after|why]; [|by apply triple_fail_after_do].
  destruct (changed_facts before after); [|by apply triple_step_failed].
  apply triple_steady; [apply steady_in_flight|keeps|]. intros marked. destruct marked as [[]|why]; [|by apply triple_fail_after_do].
  do 4 (apply triple_steady; [apply steady_in_flight|keeps|]; intros ?).
  eapply triple_weaken; [apply triple_after_step| |done]. by intros st (_ & Hw & _).
Qed.

Lemma variant_do o o' : variant_of o o' -> op_do o' = op_do o.
Proof.
  induction 1 as [|o' o'' h env _ IH Hc]; [done|]. rewrite <- IH. revert Hc. unfold concrete_op.
  destruct (collect_results _ _) as [fp|u]; [|done]. cbn [rbind].
  destruct (match op_undo o' with Computed _ _ => _ | _ => _ end) as [u|u]; [|done]. by intros [= <-].
Qed.

(** The one place where a [do] runs. *)
Lemma triple_run_on_do B a o h x r body :
  does o body ->
  triple (fun s => in_flight B a o s /\ snd s = r /\ i_rehearsal r = false)
    (on_engine (attempt (run_on (ForDo a) x h (i_id r) body))) (fun _ => in_flight B a o).
Proof.
  intros Hd. apply triple_on_engine. intros g r' Hs (Hf & Hr & Hreh). cbn in Hr. subst r'.
  unfold attempt, run_on, mthen, change, outside, lift. cbn.
  destruct (ex_run x h (i_id r) body _) as [w res]. cbn.
  split; [|intros _ _; by destruct Hf as ((r0 & Hst & Hc) & Hw & Hrest); split; [by exists r0|]].
  apply Forall_app. split; [done|]. apply Forall_singleton.
  destruct Hf as ((r0 & Hst & Hc) & [Hsa _] & Hat & Hap & Ho & Han). cbn in *.
  destruct (core_parts _ _ Hc) as (Hid & Hir & Hre & Hsta & Happ & Hatt).
  exists r0. cbn. split; [done|]. split; [done|]. split; [congruence|]. split; [congruence|]. split; [congruence|].
  split; [by rewrite (is_applied_eq _ _ _ _ _ Happ)|]. exists o. split; [by rewrite (op_at_ir _ _ _ Hir)|]. done.
Qed.

Lemma triple_run_do B s h a o o' pre before body :
  variant_of o o' -> does o body ->
  triple (fun st => in_flight B a o st /\ i_rehearsal (snd st) = false) (run_do s h a o' pre before body) (goes B).
Proof.
  intros Hv Hd. unfold run_do. cbv zeta. apply triple_get. intros r.
  eapply triple_then with (Q := fun _ st => in_flight B a o st /\ snd st = r /\ i_rehearsal r = false).
  { apply triple_on_engine. intros g r' Hs [[Hf Hre] Hr]. cbn in Hr, Hre. by subst r'. }
  intros [x|]; [|apply triple_throw]. eapply triple_then; [by apply triple_run_on_do|].
  intros [out|e]; [|by apply triple_step_failed].
  destruct (missing_outputs o' out); [by apply triple_settle_step|by apply triple_step_failed].
Qed.

Lemma log_announces r ev g g' : log_for r ev g = (g', Ok tt) ->
  exists e, e ∈ st_chain (g_store g') /\ en_instance e = i_id r /\ en_event e = ev.
Proof.
  unfold log_for, mthen, now, outside, journal_record. destruct (clock_now (g_world g)) as [w at_]. cbn.
  destruct (record _ _ _ _ _ _ _ _ _ _) as [[j chain] res] eqn:Hr. destruct res as [e|x]; [|done].
  intros [= <-]. apply record_ok in Hr as (He & Hev & Hi). exists e. done.
Qed.

(** A step about to be attempted. *)
Definition ready_for (B : list Item) (a : AppliedStep) (o : Op) (s : pair) : Prop :=
  walking B s /\ is_applied (snd s) (as_step a) (as_iteration a) (as_vars a) = false /\ op_at (snd s) (as_step a) = Some o.

Lemma steady_ready_for B a o : steady (ready_for B a o).
Proof.
  intros s s' (H1 & H2 & H3) Q. split; [by eapply steady_walking|]. destruct Q as [C _ _ _ _ _].
  destruct (core_parts _ _ C) as (_ & Hir & _ & _ & Hap & _).
  split; [by rewrite (is_applied_eq _ _ _ _ _ Hap)|by rewrite (op_at_ir _ _ _ Hir)].
Qed.

(** The entry, the note of the step in flight, and the record on disk. *)
Lemma triple_write_ahead B a o :
  triple (ready_for B a o)
    (do! log (JApplying (as_step a) (undo_line o)) in do! update (set_attempting (Some a)) in persist)
    (fun _ => in_flight B a o).
Proof.
  eapply triple_seq with (Q := fun s => ready_for B a o s /\ announced (st_chain (g_store (fst s))) (i_id (snd s)) (as_step a) o).
  { intros s Hs Hr. pose proof (quiet_log (JApplying (as_step a) (undo_line o)) s) as Hq.
    split; [by eapply quiet_sound|]. intros x Hx. split; [by eapply steady_ready_for|].
    destruct s as [g r]. revert Hx. unfold log, with_rec. destruct (log_for r _ g) as [g' res] eqn:Hl. cbn.
    intros ->. destruct x. by apply log_announces in Hl. }
  eapply triple_seq with (Q := fun s => ready_for B a o s /\ i_attempting (snd s) = Some a
                                        /\ announced (st_chain (g_store (fst s))) (i_id (snd s)) (as_step a) o).
  { apply (triple_update _ _ (fun _ s => ready_for B a o s /\ i_attempting (snd s) = Some a
                                         /\ announced (st_chain (g_store (fst s))) (i_id (snd s)) (as_step a) o)).
    intros g r [Hr Ha]. done. }
  intros s Hs (Hr & Hat & Ha). pose proof (quiet_persist s) as Hq. pose proof (triple_persist (fun _ => True) s Hs I) as [Hs' Hsy].
  split; [done|]. intros x Hx. destruct (steady_ready_for B a o _ _ Hr Hq) as (R1 & R2 & R3).
  pose proof (quiet_core _ _ Hq) as C. destruct (core_parts _ _ C) as (Hid & _ & _ & _ & _ & Hat').
  split; [by eapply Hsy|]. split; [done|]. split; [congruence|]. split; [done|]. split; [done|].
  rewrite Hid. eapply announced_grows; [apply Hq|done].
Qed.

Lemma triple_three {A1 A2 A3 A4} P (m1 : M EngineError A1) (m2 : M EngineError A2) (m3 : M EngineError A3)
    (k : M EngineError A4) Q R :
  triple P (do! m1 in do! m2 in m3) (fun _ => Q) -> triple Q k R ->
  triple P (do! m1 in do! m2 in do! m3 in k) R.
Proof.
  intros Hm Hk s Hs HP. destruct (Hm s Hs HP) as [H1 H2]. revert H1 H2. unfold mthen.
  destruct (m1 s) as [s1 [x1|e]]; [|by intros; split]. destruct (m2 s1) as [s2 [x2|e]]; [|by intros; split].
  destruct (m3 s2) as [s3 [x3|e]]; cbn [fst snd]; [|by intros; split]. intros H1 H2. apply Hk; [done|]. by eapply H2.
Qed.

Lemma triple_refuse_goes P B n why : triple P (refuse n why) (goes B).
Proof.
  eapply triple_weaken with (P := fun _ => True); [apply triple_refuse|done|]. intros f s. apply stops_goes.
Qed.

(** A body resolved from the op's [do] does the op. *)
Lemma does_variant o o' h env body : variant_of o o' -> resolve_body (op_do o') h env = Ok body -> does o body.
Proof. intros Hv Hb. by exists o', h, env. Qed.

(** The instance is no rehearsal. *)
Definition flying (B : list Item) (a : AppliedStep) (o : Op) (s : pair) : Prop :=
  in_flight B a o s /\ i_rehearsal (snd s) = false.

Lemma steady_flying B a o : steady (flying B a o).
Proof.
  intros s s' [Hf Hr] Q. split; [by eapply steady_in_flight|]. destruct Q as [C _ _ _ _ _].
  destruct (core_parts _ _ C) as (_ & _ & Hre & _). congruence.
Qed.

Lemma triple_attempt_step B n i s vars h :
  triple (ready_for B (mkApplied n i vars) (step_op s)) (attempt_step n i s vars h) (goes B).
Proof.
  unfold attempt_step. cbv zeta. eapply triple_three; [apply (triple_write_ahead B (mkApplied n i vars))|].
  apply triple_get. intros r. destruct (i_rehearsal r) eqn:Hre.
  { eapply triple_weaken with (P := in_flight B (mkApplied n i vars) (step_op s)); [|by intros st []|done].
    apply triple_steady; [apply steady_in_flight|keeps|]. intros ?.
    eapply triple_weaken; [apply triple_after_step| |done]. by intros st (_ & Hw & _). }
  eapply triple_weaken with (P := flying B (mkApplied n i vars) (step_op s)); [|intros st [Hf <-]; by split|done].
  apply triple_steady; [apply steady_flying|keeps|]. intros [[]|why]; [|apply triple_refuse_goes].
  apply triple_steady; [apply steady_flying|keeps|]. intros r1. destruct (concrete_op (step_op s) h _) as [o'|u] eqn:Hc; [|apply triple_refuse_goes].
  assert (Hv : variant_of (step_op s) o') by (eapply variant_bound; [constructor|done]).
  apply triple_steady; [apply steady_flying|keeps|]. intros taken. apply triple_steady; [apply steady_flying|destruct taken; keeps|].
  intros [[pre before]|why].
  - apply triple_steady; [apply steady_flying|keeps|]. intros [env|why]; [|apply triple_refuse_goes].
    destruct (resolve_body (op_do o') h env) as [body|u] eqn:Hb; [|apply triple_refuse_goes].
    apply triple_run_do; [done|by eapply does_variant].
  - eapply triple_then; [apply (triple_idle (flying B _ _)); keeps|]. intros ?. apply triple_refuse_goes.
Qed.

(** ** Before the attempt *)

Lemma triple_gate_blocks P n s : steady P -> triple P (gate_blocks n s) (clear P).
Proof.
  intros HP. unfold gate_blocks. apply triple_steady; [done|keeps|]. intros r.
  destruct (step_gate s) as [g|]; [|by apply triple_ret]. destruct (i_rehearsal r); [by apply triple_ret|].
  apply triple_steady; [done|keeps|]. intros [|]; [by apply triple_ret|].
  apply triple_steady; [done|keeps|]. intros ?. apply triple_wait_some.
Qed.

Lemma triple_knell_blocks P n s : steady P -> triple P (knell_blocks n s) (clear P).
Proof.
  intros HP. unfold knell_blocks. destruct (op_refusal (step_op s)) as [| |guard cost ack]; try by apply triple_ret.
  eapply triple_then with (Q := clear P); [destruct guard; [by apply triple_guard_blocks|by apply triple_ret]|].
  intros [f|]; [destruct ack; by apply triple_ret|]. destruct ack as [g|why]; [|by apply triple_ret]. cbn [clear].
  apply triple_steady; [done|keeps|]. intros r. apply triple_steady; [done|pose proof still_cost_text; keeps|].
  intros [text|e]; [|apply triple_refuse_some].
  destruct (existsb _ _); (apply triple_steady; [done|keeps|]); intros ?; [by apply triple_ret|apply triple_wait_some].
Qed.

(** Where the step acts, or a flow that stops. *)
Definition placed (P : pair -> Prop) (p : EHost + Flow) (s : pair) : Prop :=
  match p with inl _ => P s | inr f => stops f end.

Lemma triple_defer_placed P P' n i vars o why : triple P (let! f := defer n i vars o why in mret (inr f)) (placed P').
Proof. eapply triple_then; [apply triple_defer|]. intros f. apply triple_ret. intros s Hf. exact Hf. Qed.

Lemma triple_place_step P n i o vars : steady P -> triple P (place_step n i o vars) (placed P).
Proof.
  intros HP. unfold place_step. apply triple_steady; [done|keeps|]. intros r. apply triple_steady; [done|keeps|].
  intros [h|from]; [|apply triple_defer_placed]. apply triple_steady; [done|keeps|]. intros x.
  destruct (_ && _); [apply triple_defer_placed|]. apply triple_steady; [done|keeps|]. intros caps.
  destruct (_ && _); [|by apply triple_ret].
  eapply triple_then; [apply triple_refuse|]. intros f. apply triple_ret. intros s Hf. exact Hf.
Qed.

Lemma triple_run_step B n i s knell vars :
  triple (ready_for B (mkApplied n i vars) (step_op s)) (run_step n i s knell vars) (goes B).
Proof.
  unfold run_step. set (P := ready_for B (mkApplied n i vars) (step_op s)).
  assert (HP : steady P) by apply steady_ready_for.
  eapply triple_then; [by apply triple_place_step|]. intros [h|f]; [|apply triple_ret; intros st; apply stops_goes].
  eapply triple_then; [by apply triple_gate_blocks|]. intros [f|]; [apply triple_ret; intros st; apply stops_goes|].
  eapply triple_then; [by apply triple_guards_block|]. intros [f|]; [apply triple_ret; intros st; apply stops_goes|].
  eapply triple_then with (Q := clear P); [destruct knell; [by apply triple_knell_blocks|by apply triple_ret]|].
  intros [f|]; [apply triple_ret; intros st; apply stops_goes|]. apply triple_attempt_step.
Qed.
End Stepping.

(** ** The walk *)

Lemma number_from_find ls n m :
  List.find (fun x => (fst x =? m)%N) (number_from n ls)
  = if (n <=? m)%N then (fun it => (m, it)) <$> ls !! N.to_nat (m - n) else None.
Proof.
  revert n. induction ls as [|it ls IH]; intros n; cbn [number_from List.find fst]; [by destruct (n <=? m)%N|].
  destruct (N.eqb_spec n m) as [->|Hn].
  - rewrite N.leb_refl. by replace (N.to_nat (m - m)) with 0 by lia.
  - rewrite IH. destruct (N.leb_spec (n + 1) m), (N.leb_spec n m); try lia; [|done].
    replace (N.to_nat (m - n)) with (S (N.to_nat (m - (n + 1)))) by lia. done.
Qed.

Lemma item_at_lookup p n :
  item_at p n = if (1 <=? n)%N then leaves (plan_body p) !! N.to_nat (n - 1) else None.
Proof.
  unfold item_at, numbered. rewrite number_from_find. destruct (1 <=? n)%N; [|done]. by destruct (_ !! _).
Qed.

Lemma count_leaves_length items : count_leaves items = N.of_nat (length (leaves items)).
Proof. unfold count_leaves, numbered. f_equal. generalize 1%N. induction (leaves items); intros n; [done|]. cbn. by rewrite IHl. Qed.

Section Walking.
Context `{Outside}.

Notation pair := (Engine * InstanceRecord)%type.

(** The leaves that begin at the number [n]. *)
Definition at_leaf (B : list Item) (n : N) (ls : list Item) : Prop :=
  (1 <= n)%N /\ ls `prefix_of` drop (N.to_nat (n - 1)) B.

Lemma at_leaf_app B n l1 l2 :
  at_leaf B n (l1 ++ l2) -> at_leaf B n l1 /\ at_leaf B (n + N.of_nat (length l1)) l2.
Proof.
  intros [Hn [k Hk]]. split; split; try lia.
  - exists (l2 ++ k). by rewrite app_assoc.
  - replace (N.to_nat (n + N.of_nat (length l1) - 1)) with (N.to_nat (n - 1) + length l1) by lia.
    rewrite <- drop_drop, Hk, <- app_assoc, drop_app_length. by exists k.
Qed.

Lemma at_leaf_item B n it p :
  leaves (plan_body p) = B -> at_leaf B n [it] -> item_at p n = Some it.
Proof.
  intros HB [Hn [k Hk]]. rewrite item_at_lookup, HB. destruct (N.leb_spec 1 n); [|lia].
  rewrite <- (Nat.add_0_r (N.to_nat (n - 1))), <- lookup_drop, Hk. done.
Qed.

(** A leaf about to be run. *)
Definition at_item (B : list Item) (n i : N) (vars : gmap string string) (it : Item) (s : pair) : Prop :=
  walking B s /\ is_applied (snd s) n i vars = false /\ item_at (i_plan (snd s)) n = Some it.

Lemma steady_at_item B n i vars it : steady (at_item B n i vars it).
Proof.
  intros s s' (H1 & H2 & H3) Q. split; [by eapply steady_walking|]. destruct Q as [C _ _ _ _ _].
  destruct (core_parts _ _ C) as (_ & Hir & _ & _ & Hap & _).
  split; [by rewrite (is_applied_eq _ _ _ _ _ Hap)|]. unfold i_plan in *. by rewrite Hir.
Qed.

Lemma at_item_walking B n i vars it s : at_item B n i vars it s -> walking B s.
Proof. by intros []. Qed.

Lemma at_item_ready B n i vars it st s :
  step_of it = Some st -> at_item B n i vars it s -> ready_for B (mkApplied n i vars) (step_op st) s.
Proof.
  intros Hst (H1 & H2 & H3). split; [done|]. split; [done|]. unfold op_at. cbn [as_step]. rewrite H3. cbn.
  unfold op_of. by rewrite Hst.
Qed.

Lemma triple_backstop_or_refuse P n m : steady P -> keeps quiet m -> triple P (backstop_or_refuse n m) (clear P).
Proof.
  intros HP Hm. unfold backstop_or_refuse. apply triple_steady; [done|done|].
  intros [[]|why]; [by apply triple_ret|apply triple_refuse_some].
Qed.

Lemma triple_backstop_before_leaf P n : steady P -> triple P (backstop_before_leaf n) (clear P).
Proof.
  intros HP. unfold backstop_before_leaf. apply triple_steady; [done|keeps|]. intros r.
  destruct (coverage (i_plan r)) as [cov|]; [|by apply triple_ret]. destruct (covered cov); [by apply triple_ret|].
  eapply triple_then with (Q := clear P).
  { destruct (installed_before cov); [|by apply triple_ret]. destruct (_ <=? _)%N; [|by apply triple_ret].
    apply triple_backstop_or_refuse; [done|keeps]. }
  intros [f|]; [by apply triple_ret|]. destruct (_ <=? _)%N; [|by apply triple_ret].
  apply triple_backstop_or_refuse; [done|keeps].
Qed.

Lemma triple_backstop_after_walk : triple (fun _ => True) backstop_after_walk (fun _ _ => True).
Proof.
  unfold backstop_after_walk. apply triple_steady; [apply steady_true|keeps|]. intros r.
  destruct (coverage (i_plan r)) as [cov|]; [|by apply triple_ret]. destruct (covered cov); [by apply triple_ret|].
  destruct (armed r); [by apply triple_ret|]. cbv zeta.
  eapply triple_then; [apply triple_backstop_or_refuse; [apply steady_true|keeps]|]. intros [f|]; [by apply triple_ret|].
  eapply triple_then; [apply triple_backstop_or_refuse; [apply steady_true|keeps]|]. intros [f|]; by apply triple_ret.
Qed.

Lemma triple_confirm B : triple (walking B) (step EvConfirm) (fun _ => walking B).
Proof.
  intros [g r] Hs [Hst HB]. split; [eapply sound_same, Hs; apply step_acts|]. intros x _. cbn in Hst.
  destruct (step_stays_spec EvConfirm g r) as (Hr & _ & _).
  { intros st. rewrite Hst. by destruct (i_ctx r) as [[] [] [] []]. }
  unfold walking. cbn [snd]. by rewrite Hr.
Qed.

Lemma triple_mark_and_go B P a : (forall s, P s -> walking B s) -> triple P (do! mark_applied a in mret Continue) (goes B).
Proof.
  intros HP. eapply triple_weaken with (P := walking B); [|done|done].
  eapply triple_seq; [apply triple_mark_applied|]. apply triple_ret. unfold goes. auto.
Qed.

Lemma triple_run_leaf B n i it vars : triple (at_item B n i vars it) (run_leaf n i it vars) (goes B).
Proof.
  unfold run_leaf. cbv zeta. set (P := at_item B n i vars it). assert (HP : steady P) by apply steady_at_item.
  assert (HW : forall s, P s -> walking B s) by apply at_item_walking.
  eapply triple_then; [by apply triple_backstop_before_leaf|].
  intros [f|]; [apply triple_ret; intros st; apply stops_goes|]. cbn [clear]. destruct it.
  - eapply triple_weaken; [apply triple_run_step| |done]. intros st. by apply at_item_ready.
  - eapply triple_weaken; [apply triple_run_step| |done]. intros st. by apply at_item_ready.
  - apply triple_throw.
  - apply triple_throw.
  - eapply triple_then with (Q := fun _ => walking B); [eapply triple_weaken; [apply triple_confirm|exact HW|done]|].
    intros ?. apply triple_steady; [apply steady_walking|keeps|]. intros [[]|why]; [|apply triple_refuse_goes].
    apply triple_steady; [apply steady_walking|keeps|]. intros ?. by apply triple_mark_and_go.
  - eapply triple_then; [apply triple_step_any|]. intros ?. do 5 (eapply triple_then; [apply triple_idle; keeps|]; intros ?).
    apply triple_ret. intros s _. by apply stops_goes.
  - eapply triple_then; [by apply triple_guards_block|]. intros [f|]; [apply triple_ret; intros st; apply stops_goes|].
    by apply triple_mark_and_go.
  - apply triple_steady; [done|keeps|]. intros r. apply triple_steady; [done|keeps|]. intros owner.
    apply triple_steady; [done|keeps|]. intros [t|e]; [|apply triple_refuse_goes].
    apply triple_steady; [done|keeps|]. intros ?. by apply triple_mark_and_go.
  - apply triple_steady; [done|keeps|]. intros r.
    eapply triple_then; [by apply triple_guard_blocks_with_bound|].
    intros [f|]; [apply triple_ret; intros st; apply stops_goes|]. by apply triple_mark_and_go.
  - apply triple_throw.
  - apply triple_throw.
Qed.

(** A walk that goes on has passed these leaves. *)
Definition passed (B : list Item) (n : N) (ls : list Item) (p : Flow * N) (s : pair) : Prop :=
  fst p = Continue -> walking B s /\ snd p = (n + N.of_nat (length ls))%N.

Lemma triple_pre {A} (P : pair -> Prop) (m : M EngineError A) Q (F : Prop) :
  (forall s, P s -> F) -> (F -> triple P m Q) -> triple P m Q.
Proof. intros HF Hm s Hs HP. by apply (Hm (HF s HP)). Qed.

Lemma triple_walk_leaf B n i it vars :
  at_leaf B n [it] -> triple (walking B) (walk_leaf n i it vars) (goes B).
Proof.
  intros Hat. unfold walk_leaf. apply triple_get. intros r. destruct (is_applied r n i vars) eqn:Hap.
  - apply triple_ret. intros s [Hw _] _. exact Hw.
  - eapply triple_weaken; [apply triple_run_leaf| |done]. intros [g r'] [[Hs Hl] Hr]. cbn in Hr. subst r'.
    split; [done|]. split; [done|]. by eapply at_leaf_item.
Qed.

Lemma triple_walk_seq B (f : Item -> N -> M EngineError (Flow * N)) items :
  Forall (fun it => forall n, at_leaf B n (item_leaves it) -> triple (walking B) (f it n) (passed B n (item_leaves it))) items ->
  forall n, at_leaf B n (leaves items) -> triple (walking B) (walk_seq f items n) (passed B n (leaves items)).
Proof.
  induction 1 as [|it rest Hit _ IH]; intros n Hat; cbn [walk_seq].
  - apply triple_ret. intros s Hw _. split; [done|]. cbn. lia.
  - apply at_leaf_app in Hat as [Hat1 Hat2]. eapply triple_then; [by apply Hit|].
    intros [[] leaf]; [|apply triple_ret; by intros s _ ?]. cbn [fst snd].
    apply triple_pre with (F := leaf = (n + N.of_nat (length (item_leaves it)))%N).
    { intros s Hp. by apply Hp. }
    intros ->. eapply triple_weaken; [apply (IH _ Hat2)|by intros s Hp; apply Hp|].
    intros p s Hp Hc. destruct (Hp Hc) as [Hw Hn]. split; [done|]. unfold leaves in *. cbn [flat_map].
    rewrite length_app. lia.
Qed.

Lemma triple_walk_values B (body : N -> gmap string string -> M EngineError (Flow * N)) var vars values :
  (forall i inner, triple (walking B) (body i inner) (fun p s => fst p = Continue -> walking B s)) ->
  forall i, triple (walking B) (walk_values body var vars i values) (goes B).
Proof.
  intros Hb. induction values as [|v rest IH]; intros i; cbn [walk_values]; [apply triple_ret; unfold goes; auto|].
  eapply triple_then; [apply Hb|]. intros [[] leaf]; [|apply triple_ret; intros s _; by apply stops_goes].
  eapply triple_weaken; [apply IH|by intros s Hp; apply Hp|done].
Qed.

Lemma triple_choose_arm B g leaf :
  triple (walking B) (choose_arm g leaf) (fun c s => match c with inl _ => walking B s | inr f => stops f end).
Proof.
  unfold choose_arm. apply triple_steady; [apply steady_walking|keeps|]. intros r.
  destruct (i_choices r !! choice_key leaf); [by apply triple_ret|].
  apply triple_steady; [apply steady_walking|keeps|]. intros owner. apply triple_steady; [apply steady_walking|keeps|].
  intros [t|e].
  - cbv zeta. do 2 (apply triple_steady; [apply steady_walking|keeps|]; intros ?). by apply triple_ret.
  - eapply triple_then; [apply triple_refuse|]. intros f. apply triple_ret. intros s Hf. exact Hf.
Qed.

Lemma triple_walk_item B it : forall i vars n,
  at_leaf B n (item_leaves it) -> triple (walking B) (walk_item it i vars n) (passed B n (item_leaves it)).
Proof.
  assert (Hl : forall i vars n it, at_leaf B n [it] ->
    triple (walking B) (let! flow := walk_leaf n i it vars in mret (flow, (n + 1)%N)) (passed B n [it])).
  { intros i vars n x Hat. eapply triple_then; [by apply triple_walk_leaf|]. intros f. apply triple_ret.
    intros s Hg Hc. split; [by apply Hg|done]. }
  assert (Hmap : forall cs i vars, Forall (fun it => forall i vars n, at_leaf B n (item_leaves it) ->
      triple (walking B) (walk_item it i vars n) (passed B n (item_leaves it))) cs ->
    forall n, at_leaf B n (leaves cs) -> triple (walking B) (walk_seq (fun c => walk_item c i vars) cs n) (passed B n (leaves cs))).
  { intros cs i vars Hcs. apply triple_walk_seq. eapply Forall_impl; [exact Hcs|]. intros c Hc n. apply Hc. }
  induction it using item_ind; intros i vars n; try (intros Hat; by apply Hl); cbn [walk_item item_leaves]; intros Hat.
  - by apply Hmap.
  - apply triple_steady; [apply steady_walking|unfold repeat_values; pose proof still_list_value; keeps|]. intros values.
    eapply triple_then; [apply triple_walk_values; intros j inner; eapply triple_weaken; [by apply Hmap|done|]|].
    + intros p s Hp Hc. by apply Hp.
    + intros fl. apply triple_ret. intros s Hg Hc. cbn in Hc. split; [by apply Hg|]. cbn.
      by rewrite count_leaves_length.
  - apply at_leaf_app in Hat as [Hat1 Hat2]. eapply triple_then; [apply triple_choose_arm|]. intros [[|]|f].
    + eapply triple_then; [by apply Hmap|]. intros p. apply triple_ret. intros s Hp Hc. cbn in Hc.
      destruct (Hp Hc) as [Hw Hn]. split; [done|]. cbn. rewrite Hn, count_leaves_length, length_app. unfold leaves. lia.
    + rewrite count_leaves_length. eapply triple_weaken; [by apply Hmap|done|].
      intros p s Hp Hc. destruct (Hp Hc) as [Hw Hn]. split; [done|]. rewrite Hn, length_app. unfold leaves. lia.
    + apply triple_ret. intros s Hf Hc. cbn in Hc. unfold stops in Hf. congruence.
Qed.

Lemma triple_walk_items items : triple (fun s => walking (leaves items) s) (walk_items items 0 ∅ 1) (fun _ _ => True).
Proof.
  eapply triple_weaken; [apply (triple_walk_seq (leaves items))| |].
  - apply Forall_forall. intros it _ n. apply triple_walk_item.
  - split; [lia|]. cbn. done.
  - done.
  - done.
Qed.

Lemma triple_refuse_on_contract_change P :
  steady P -> triple P refuse_on_contract_change (fun refused s => refused = false -> P s).
Proof.
  intros HP. unfold refuse_on_contract_change. apply triple_steady; [done|keeps|]. intros r.
  destruct (_ || _); [by apply triple_ret|]. case_bool_decide; [by apply triple_ret|].
  apply triple_steady; [done|keeps|]. intros [[expected observed]|]; [|by apply triple_ret].
  apply triple_steady; [done|keeps|]. intros ?. apply triple_steady; [done|keeps|]. intros ?. case_bool_decide.
  - eapply triple_then; [apply triple_refuse|]. intros ?. eapply triple_then; [apply triple_idle; keeps|]. intros ?.
    by apply triple_ret.
  - eapply triple_weaken with (P := fun _ => True) (Q := fun refused _ => refused = true); [|done|by intros ? s -> ?].
    do 6 (eapply triple_then; [apply triple_idle; keeps|]; intros ?). by apply triple_ret.
Qed.

Lemma triple_walk P : triple P walk (fun _ _ => True).
Proof.
  unfold walk. apply triple_get. intros r. case_bool_decide as Hst; [|by apply triple_ret].
  eapply triple_weaken with (P := walking (leaves (plan_body (i_plan r)))) (Q := fun _ _ => True); [| |done].
  2: { intros [g r'] [_ Hr]. cbn in Hr. by subst r'. }
  eapply triple_then; [apply triple_refuse_on_contract_change, steady_walking|]. intros [|]; [by apply triple_ret|].
  eapply triple_then with (Q := fun _ _ => True).
  { eapply triple_weaken; [apply triple_walk_items|by intros s Hw; apply Hw|done]. }
  intros p. unfold still_applying. eapply triple_then; [apply triple_idle; keeps|]. intros on.
  eapply triple_then with (Q := fun _ _ => True).
  { destruct on; [eapply triple_weaken; [apply triple_backstop_after_walk|done|done]|by apply triple_ret]. }
  intros flow. eapply triple_then; [apply triple_idle; keeps|]. intros [|]; [|by apply triple_ret].
  apply triple_idle. keeps.
Qed.
End Walking.

(** ** The verbs *)

Section Loosely.
Context `{Outside}.

Notation pair := (Engine * InstanceRecord)%type.

(** A method that leaves every act sound from whatever state it is called in. *)
Definition harmless {A} (m : M EngineError A) : Prop := forall P, triple P m (fun _ _ => True).

Lemma harmless_then {A B} (m : M EngineError A) (k : A -> M EngineError B) :
  harmless m -> (forall x, harmless (k x)) -> harmless (mthen m k).
Proof. intros Hm Hk P. eapply triple_then; [apply Hm|]. intros x. apply Hk. Qed.

Lemma harmless_idle {A} (m : M EngineError A) : keeps idle m -> harmless m.
Proof. intros Hm P. by apply triple_idle. Qed.

Lemma harmless_triple {A} (m : M EngineError A) Q : triple (fun _ => True) m Q -> harmless m.
Proof. intros Hm P. by eapply triple_weaken. Qed.

Lemma harmless_pre {A} (m : M EngineError A) Q : (forall P, triple P m Q) -> harmless m.
Proof. intros Hm. by apply (harmless_triple m Q). Qed.

Lemma harmless_walk : harmless walk.
Proof. intros P. apply triple_walk. Qed.

Lemma harmless_refuse n why : harmless (refuse n why).
Proof. apply (harmless_pre _ (fun f _ => stops f)). intros P. apply triple_refuse. Qed.

Lemma harmless_refuse_on_contract_change : harmless refuse_on_contract_change.
Proof. eapply harmless_triple, triple_refuse_on_contract_change, steady_true. Qed.
End Loosely.

#[export] Hint Resolve harmless_walk harmless_refuse harmless_refuse_on_contract_change : harmless.

(** The structure of a method that is harmless; what is left are its calls. *)
Ltac harmless :=
  repeat
    lazymatch goal with
    | |- forall _, _ => intros ?
    | |- harmless _ => solve [eauto with harmless] || (apply harmless_idle; solve [keeps]) ||
        lazymatch goal with
        | |- harmless (mthen _ _) => apply harmless_then
        | |- harmless (match ?x with _ => _ end) => destruct x eqn:?
        | |- harmless (let x := _ in _) => cbv zeta
        end
    end.

(** A call, and what it leaves is synced. *)
Ltac synced_by_step := eapply triple_then with (Q := fun _ => synced); [apply triple_step_moves; reflexivity|intros ?].

Section VerbTriples.
Context `{Outside}.

Notation pair := (Engine * InstanceRecord)%type.

Lemma harmless_approve : harmless approve.
Proof. unfold approve. harmless. Qed.
#[local] Hint Resolve harmless_approve : harmless.

Lemma harmless_apply_record at_ : harmless (apply_record at_).
Proof. unfold apply_record, request_instance, report. harmless. Qed.

Lemma harmless_resume_record by_ : harmless (resume_record by_).
Proof. unfold resume_record. harmless. Qed.

Lemma harmless_handoff_done_record n by_ : harmless (handoff_done_record n by_).
Proof. unfold handoff_done_record. harmless. Qed.

Lemma harmless_after_proof s : harmless (after_proof s).
Proof. unfold after_proof. harmless. Qed.
#[local] Hint Resolve harmless_after_proof : harmless.

Lemma harmless_approve_proof_record s a p u : harmless (approve_proof_record s a p u).
Proof. unfold approve_proof_record. harmless. Qed.

Lemma harmless_ack_record n why p a u : harmless (ack_record n why p a u).
Proof. unfold ack_record. harmless. Qed.

Lemma harmless_renew_record d : harmless (renew_record d).
Proof. unfold renew_record. harmless. Qed.

Lemma harmless_confirm_record : harmless confirm_record.
Proof. unfold confirm_record. harmless. Qed.

Lemma harmless_commit_record by_ why : harmless (commit_record by_ why).
Proof. unfold commit_record. harmless. Qed.

Lemma harmless_abandon_record by_ why : harmless (abandon_record by_ why).
Proof. unfold abandon_record. harmless. Qed.

Lemma harmless_cancel_record : harmless cancel_record.
Proof. unfold cancel_record. harmless. Qed.

(** The operator's recall moves the machine, so the revert starts from what is stored. *)
Lemma harmless_recant_record force : harmless (recant_record force).
Proof.
  intros P. unfold recant_record. apply triple_get. intros r.
  eapply triple_then with (Q := fun _ => synced).
  { destruct (_ && _); synced_by_step; [|by apply triple_ret].
    apply triple_quiet; [exact steady_synced|keeps]. }
  intros ?. quietly. quietly. apply triple_revert.
Qed.
End VerbTriples.

#[export] Hint Resolve harmless_approve harmless_apply_record harmless_recant_record harmless_renew_record
  harmless_confirm_record harmless_commit_record harmless_resume_record harmless_handoff_done_record
  harmless_abandon_record harmless_cancel_record harmless_approve_proof_record harmless_ack_record : harmless.

(** ** Calls on the engine *)

Section Safe.
Context `{Outside}.

Notation pair := (Engine * InstanceRecord)%type.

Definition safe (g g' : Engine) : Prop := filed g -> sound g -> filed g' /\ sound g'.

#[export] Instance safe_preorder : PreOrder safe.
Proof.
  split; [by intros g|]. intros g1 g2 g3 H1 H2 Hf Hs. destruct (H1 Hf Hs) as [Hf' Hs']. by apply H2.
Qed.

Lemma still_safe g g' : still g g' -> safe g g'.
Proof. intros [Hi Ha _] Hf Hs. split; [by eapply filed_same|by eapply sound_same]. Qed.

Lemma keeps_safe_still {E A} (m : ME E A) : keeps still m -> keeps safe m.
Proof. apply keeps_mono, still_safe. Qed.

Lemma safe_filed g g' : (filed g -> safe g g') -> safe g g'.
Proof. intros Hs Hf. by apply Hs. Qed.

Lemma lives_safe g g' : lives g g' -> (filed g -> sound g -> sound g') -> safe g g'.
Proof. intros Hl Hs Hf Hso. split; [by apply Hl|by apply Hs]. Qed.

Lemma stored_synced g r : stored g (i_id r) = Some r -> synced (g, r).
Proof. intros Hr. by exists r. Qed.

(** The record is filed, and stored as it is in hand. *)
Definition at_rest (s : pair) : Prop := filed (fst s) /\ synced s.

Lemma steady_at_rest : steady at_rest.
Proof. intros s s' [Hf Hs] Q. split; [by apply (quiet_filed _ _ Q)|by eapply steady_synced]. Qed.

Lemma at_rest_synced s : at_rest s -> synced s.
Proof. by intros []. Qed.

Lemma with_record_sound {A} (m : M EngineError A) r g Q :
  triple at_rest m Q -> filed g -> stored g (i_id r) = Some r -> sound g -> sound (fst (with_record r m g)).
Proof.
  intros Hm Hf Hr Hs. destruct (Hm (g, r) Hs) as [H1 _]; [split; [done|by apply stored_synced]|].
  unfold with_record. by destruct (m (g, r)) as [[g' r'] x].
Qed.

Lemma verb_safe id m : keeps drives m -> harmless m -> keeps safe (verb id m).
Proof.
  intros Hd Hm g. apply lives_safe; [by apply verb_lives|]. intros Hf Hs. unfold verb.
  unfold mthen at 1. pose proof (still_load id g) as Hst. destruct (load id g) as [g1 res] eqn:Hl.
  destruct (still_safe _ _ Hst Hf Hs) as [Hf1 Hs1]. cbn [fst] in *. apply load_spec in Hl as [Hsame Hr].
  destruct res as [r|e]; [|done]. specialize (Hr r eq_refl). rewrite then_ret_fst.
  assert (Hr1 : stored g1 id = Some r) by (unfold stored; by rewrite Hsame).
  apply (with_record_sound _ _ _ (fun _ _ => True)); [|done|by rewrite (filed_id _ Hf1 _ _ Hr1)|done].
  eapply triple_then; [apply Hm|]. intros ?. apply triple_idle. unfold report. keeps.
Qed.

Lemma safe_apply ir params opts : keeps safe (apply ir params opts).
Proof.
  intros g0. apply lives_safe; [apply lives_apply|]. intros _ Hs0.
  enough (Hk : keeps (fun g g' => sound g -> sound g') (apply ir params opts)) by by apply (Hk g0). clear g0 Hs0.
  assert (Hpre : PreOrder (fun g g' => sound g -> sound g')) by (split; [by intros g|intros g1 g2 g3; auto]).
  assert (Hst : forall E A (m : ME E A), keeps still m -> keeps (fun g g' => sound g -> sound g') m).
  { intros E A m Hm g. destruct (Hm g) as [_ Ha _]. unfold sound. by rewrite Ha. }
  unfold apply. cbv zeta. destruct (v_status _ != StatusOk); [by apply Hst, keeps_throw, still_preorder|].
  do 2 (apply keeps_then; [done|apply Hst; keeps|intros ?]).
  apply keeps_then; [done|apply Hst; keeps|]. intros ?. intros g. rewrite then_ret_fst. intros Hs.
  unfold with_record. match goal with |- context [apply_record x ?s] => pose proof (harmless_apply_record x (fun _ => True) s Hs I) as [H1 _]; destruct (apply_record x s) as [[g1 r1] y] end.
  exact H1.
Qed.

(** ** The reap pass *)

(** A method on a record at rest leaves it filed. *)
Lemma triple_rest {A} (m : M EngineError A) :
  triple at_rest m (fun _ => synced) -> keeps drives m -> triple at_rest m (fun _ => at_rest).
Proof.
  intros Hm Hd s Hs Hp. destruct (Hm s Hs Hp) as [H1 H2]. split; [done|]. intros x Hx.
  split; [by apply (drives_filed _ _ (Hd s)), Hp|by apply (H2 x)].
Qed.

Lemma triple_step_synced ev : triple synced (step ev) (fun _ => synced).
Proof.
  intros [g r] Hs Hsy. split; [eapply sound_same, Hs; apply step_acts|].
  intros x Hx. destruct (transition (i_ctx r) (i_state r) ev) as [st| | |] eqn:Ht.
  { destruct (step_to_spec ev g r st Ht) as [_ Hok]. destruct (Hok x Hx) as [Hr Hst]. exists (set_state st r). by rewrite Hr. }
  all: destruct (step_stays_spec ev g r) as (Hr & [Hi _ _] & _); [intros st; by rewrite Ht|].
  all: destruct Hsy as (r0 & H0 & Hc); exists r0; rewrite Hr; unfold stored in *; by rewrite Hi.
Qed.

Lemma triple_step_rests ev : triple at_rest (step ev) (fun _ => at_rest).
Proof.
  apply triple_rest; [|apply drives_step]. eapply triple_weaken; [apply triple_step_synced|apply at_rest_synced|done].
Qed.

Lemma triple_read_fired : triple at_rest backstop_read_fired (fun _ => at_rest).
Proof.
  unfold backstop_read_fired.
  apply triple_steady; [apply steady_at_rest|keeps|]. intros r. destruct (i_backstop r); [|by apply triple_ret].
  destruct (_ || _); [by apply triple_ret|]. apply triple_steady; [apply steady_at_rest|keeps|].
  intros [[h x]|]; [|by apply triple_ret]. apply triple_steady; [apply steady_at_rest|keeps|].
  intros fired. destruct (negb fired); [by apply triple_ret|]. cbv zeta.
  do 3 (apply triple_steady; [apply steady_at_rest|keeps|]; intros ?).
  apply triple_rest; [|keeps]. do 3 (eapply triple_then; [apply triple_idle; keeps|]; intros ?).
  do 2 (eapply triple_then; [apply triple_idle; keeps|]; intros ?).
  eapply triple_seq; [apply triple_persist|]. by apply triple_ret.
Qed.

Lemma triple_revert_then {A} (x : A) P : (forall s, P s -> synced s) -> triple P (do! revert in mret x) (fun y _ => y = x).
Proof.
  intros HP. eapply triple_then with (Q := fun _ _ => True); [|intros ?; by apply triple_ret].
  by eapply triple_weaken; [apply triple_revert|exact HP|].
Qed.

Lemma triple_reap_wane at_ : triple at_rest (reap_wane at_) (fun waned s => waned = false -> at_rest s).
Proof.
  unfold reap_wane. apply triple_steady; [apply steady_at_rest|keeps|]. intros r.
  assert (Hret : forall b, triple at_rest (mret b) (fun waned s => waned = false -> at_rest s))
    by (intros b; apply triple_ret; auto).
  destruct (i_deadline r); [|done]. destruct (expired _ _); [|done].
  destruct (transition (i_ctx r) (i_state r) EvWaneElapses) as [[]| | |]; try done.
  - do 3 (apply triple_seq with (Q := at_rest); [first [apply triple_step_rests|apply triple_quiet; [apply steady_at_rest|keeps]]|]).
    eapply triple_weaken; [apply (triple_revert_then true); apply at_rest_synced|done|]. by intros waned s ->.
  - eapply triple_seq; [apply triple_step_rests|done].
Qed.

(** One call of a method on a record at rest that leaves the instance as it was. *)
Ltac quietly_rest := apply triple_steady; [apply steady_at_rest|keeps|].

Lemma triple_loose {A} P (m : M EngineError A) : harmless m -> triple P m (fun _ _ => True).
Proof. intros Hm. apply Hm. Qed.

Lemma harmless_reap_pending at_ : harmless (reap_pending at_).
Proof. unfold reap_pending, close_unapproved. harmless. Qed.

Lemma triple_reap_waiting at_ : triple at_rest (reap_waiting at_) (fun _ _ => True).
Proof.
  unfold reap_waiting. apply triple_steady; [apply steady_at_rest|keeps|]. intros r. cbv zeta.
  destruct (match w_bound _ with Some b => _ | None => false end).
  - apply triple_steady; [apply steady_at_rest|keeps|]. intros ?.
    eapply triple_seq; [apply triple_step_rests|]. quietly_rest. intros ?. quietly_rest. intros r1.
    eapply triple_then with (Q := fun _ _ => True); [|intros ?; by apply triple_ret].
    destruct (_ == _); [apply triple_idle; keeps|]. quietly_rest. intros ?.
    eapply triple_weaken; [apply triple_revert|apply at_rest_synced|done].
  - apply triple_loose. harmless.
Qed.

Lemma triple_reap_deferred : triple at_rest reap_deferred (fun _ _ => True).
Proof.
  unfold reap_deferred. quietly_rest. intros r. destruct (mbind _ _) as [[d probe]|]; [|by apply triple_ret].
  quietly_rest. intros owner. quietly_rest. intros [[]|]; try by apply triple_ret.
  eapply triple_then with (Q := fun _ _ => True); [|intros ?; by apply triple_ret].
  apply triple_on_engine. intros g r' Hs [Hf _]. split; [|done].
  apply (verb_safe (i_id r) (handoff_done_record (df_step d) "probe")); eauto with keeps harmless.
Qed.

Lemma triple_reap_state at_ : triple at_rest (reap_state at_) (fun _ _ => True).
Proof.
  unfold reap_state. quietly_rest. intros r.
  destruct (i_state r); try (apply triple_ret; done); try apply triple_reap_waiting; try apply triple_reap_deferred.
  - eapply triple_weaken; [apply (triple_revert_then _ at_rest); apply at_rest_synced|done|done].
  - eapply triple_weaken; [apply (triple_revert_then _ at_rest); apply at_rest_synced|done|done].
  - eapply triple_seq; [apply triple_step_rests|].
    eapply triple_weaken; [apply (triple_revert_then _ at_rest); apply at_rest_synced|done|done].
Qed.

Lemma triple_reap_record at_ settling : triple at_rest (reap_record at_ settling) (fun _ _ => True).
Proof.
  unfold reap_record, close_unapproved. quietly_rest. intros r.
  destruct (terminal _); [apply triple_idle; keeps|]. case_bool_decide; [apply harmless_reap_pending|].
  case_bool_decide; [apply triple_idle; keeps|].
  eapply triple_then; [apply triple_read_fired|]. intros fired. cbv zeta. quietly_rest. intros told.
  destruct settling; [by apply triple_ret|]. eapply triple_then; [apply triple_reap_wane|].
  intros [|]; [by apply triple_ret|]. eapply triple_then with (Q := fun _ _ => True); [|intros ?; by apply triple_ret].
  eapply triple_weaken; [apply triple_reap_state|auto|done].
Qed.

(** ** Boot *)

Lemma harmless_demote : harmless demote.
Proof.
  intros P. unfold demote. eapply triple_then; [apply triple_idle; unfold recover_attempt; keeps|]. intros said.
  eapply triple_then; [apply triple_idle; keeps|]. intros ?. synced_by_step. apply triple_get. intros r.
  eapply triple_then with (Q := fun _ _ => True); [|intros ?; by apply triple_ret].
  case_bool_decide; [apply triple_idle; keeps|].
  eapply triple_weaken; [apply triple_revert|by intros s []|done].
Qed.

(** Boot works on the steps the stored record has applied. *)
Definition reviving (l : list AppliedStep) (s : pair) : Prop := synced s /\ i_applied (snd s) = l.

Lemma steady_reviving l : steady (reviving l).
Proof.
  intros s s' [Hs Ha] Q. split; [by eapply steady_synced|]. destruct (core_parts _ _ (quiet_core _ _ Q)) as (_ & _ & _ & _ & -> & _).
  done.
Qed.

Lemma step_applied ev s : i_applied (snd (fst (step ev s))) = i_applied (snd s).
Proof.
  destruct s as [g r]. rewrite step_eq. destruct (transition _ _ _); try done. unfold mthen.
  destruct (persist _) as [[g' r'] [[]|e]] eqn:Hp; apply persist_spec in Hp as (Hr & _); cbn in *; by rewrite Hr.
Qed.

Lemma triple_run_body r l a o body :
  a ∈ l -> op_at r (as_step a) = Some o -> op_reestablish o = Some body ->
  triple (fun s => reviving l s /\ snd s = r) (refusable (run_body r a o body)) (fun _ => reviving l).
Proof.
  intros Hin Ho Hb. unfold refusable. apply triple_on_engine. intros g r' Hs [[Hsy Hl] Hr]. cbn in Hr, Hl. subst r'.
  assert (Hsame : same_records g (fst (attempt (F := EngineError) (run_body r a o body) g))) by (apply keeps_attempt, same_run_body).
  split; [|intros _ _; split; [by eapply synced_same|done]]. unfold attempt, run_body.
  unfold mthen at 1. destruct (step_host g r o) as [h|e]; [|done].
  destruct (resolve_body body h _) as [rb|u] eqn:Hrb; [|done]. unfold mthen at 1, ask.
  destruct (executor_for g h) as [x|]; [|done]. unfold mthen at 1, map_err, run_on. unfold mthen at 1, change.
  unfold mthen, outside, lift. cbn. destruct (ex_run x h (i_id r) rb _) as [w res].
  assert (Hgoal : sound (set_world w (set_acts (g_acts g ++ [mkAct (ForReestablish a) (eh_name h) (i_id r) rb (g_store g)]) g))).
  { apply Forall_app. split; [done|]. apply Forall_singleton. destruct Hsy as (r0 & Hst & Hc). cbn in Hst, Hc.
    destruct (core_parts _ _ Hc) as (Hid & Hir & _ & _ & Hap & _). exists r0. cbn. split; [done|]. split; [done|].
    split; [by rewrite Hap, Hl|]. exists o, body, h, (env_for r (as_vars a)). by rewrite (op_at_ir _ _ _ Hir). }
  by destruct res.
Qed.

Lemma triple_step_reviving l ev : triple (reviving l) (step ev) (fun _ => reviving l).
Proof.
  intros s Hs [Hsy Hl]. destruct (triple_step_synced ev s Hs Hsy) as [H1 H2]. split; [done|]. intros x Hx.
  split; [by eapply H2|]. by rewrite step_applied.
Qed.

Lemma triple_reestablish_step l acc a : a ∈ l -> triple (reviving l) (reestablish_step acc a) (fun _ => reviving l).
Proof.
  intros Hin. unfold reestablish_step. apply triple_get. intros r.
  assert (Hret : triple (fun s => reviving l s /\ snd s = r) (mret acc) (fun _ => reviving l)) by (apply triple_ret; tauto).
  destruct (op_at r (as_step a)) as [o|] eqn:Ho; [|done]. destruct (negb _); [done|].
  eapply triple_then with (Q := fun _ => reviving l).
  { destruct (op_reestablish o) as [body|] eqn:Hb; [by apply triple_run_body|]. apply triple_ret. tauto. }
  intros ran. destruct (is_ok ran).
  - eapply triple_then with (Q := fun _ => reviving l).
    { destruct (_ == _); [|by apply triple_ret]. eapply triple_seq; [apply triple_step_reviving|by apply triple_ret]. }
    intros ?. apply triple_steady; [apply steady_reviving|keeps|]. intros ?. by apply triple_ret.
  - eapply triple_then with (Q := fun _ => reviving l); [|intros ?; by apply triple_ret].
    destruct (_ == _); [|by apply triple_ret]. eapply triple_seq; [apply triple_step_reviving|].
    apply triple_quiet; [apply steady_reviving|keeps].
Qed.

Lemma triple_fold_each {A B} P (body : B -> A -> M EngineError B) l : forall acc,
  (forall acc x, x ∈ l -> triple P (body acc x) (fun _ => P)) -> triple P (fold_each body acc l) (fun _ => P).
Proof.
  induction l as [|x l IH]; intros acc Hb; cbn [fold_each]; [by apply triple_ret|].
  eapply triple_then; [apply Hb; left|]. intros y. apply IH. intros. apply Hb. by right.
Qed.

Lemma triple_boot_record : triple at_rest boot_record (fun _ _ => True).
Proof.
  unfold boot_record. apply triple_get. intros r. case_bool_decide; [apply harmless_demote|].
  destruct (terminal _); [by apply triple_ret|].
  eapply triple_weaken with (P := reviving (i_applied r)) (Q := fun _ _ => True);
    [|by intros s [[_ Hs] <-]|done].
  apply triple_steady; [apply steady_reviving|keeps|]. intros ?.
  eapply triple_then; [apply triple_fold_each; intros; by apply triple_reestablish_step|]. intros acc.
  apply triple_idle, idle_quiet. keeps.
Qed.

(** ** Every call *)

Lemma safe_reap_body at_ settling :
  works safe (fun acc r => let! out := with_record r (reap_record at_ settling) in mret (also acc (fst out))).
Proof.
  intros acc r g Hg Hr. split; [|by apply lives_at_reap_body].
  apply lives_safe; [by eapply lives_at_lives, lives_at_reap_body|]. intros _ Hs. rewrite then_ret_fst.
  by eapply with_record_sound; [apply triple_reap_record|..].
Qed.

Lemma safe_boot_body :
  works safe (fun acc r => let! out := with_record r boot_record in mret (recovered_and acc (fst out))).
Proof.
  intros acc r g Hg Hr. split; [|by apply lives_at_boot_body].
  apply lives_safe; [by eapply lives_at_lives, lives_at_boot_body|]. intros _ Hs. rewrite then_ret_fst.
  by eapply with_record_sound; [apply triple_boot_record|..].
Qed.

Lemma safe_reap : keeps safe reap.
Proof.
  unfold reap. do 3 (apply keeps_then; [typeclasses eauto|by apply keeps_safe_still; keeps|intros ?]).
  apply pass_then; [typeclasses eauto|apply still_safe|apply safe_filed|apply safe_reap_body|].
  intros. apply keeps_ret. typeclasses eauto.
Qed.

Lemma safe_boot : keeps safe boot.
Proof.
  unfold boot. do 2 (apply keeps_then; [typeclasses eauto|by apply keeps_safe_still; keeps|intros ?]).
  apply pass_then; [typeclasses eauto|apply still_safe|apply safe_filed|apply safe_boot_body|].
  intros said. apply keeps_safe_still. keeps.
Qed.

Lemma heartbeat_acts at_ r g : g_acts (fst (heartbeat_of_instance at_ r g)) = g_acts g.
Proof.
  unfold heartbeat_of_instance. destruct (i_backstop r) as [st|]; [|done].
  destruct (negb _); [done|]. unfold mthen at 1, ask. destruct (mbind _ _) as [[h x]|]; [|done].
  unfold mthen at 1, outside. destruct (ex_replace_file _ _ _ _ _ _) as [w res].
  destruct (is_ok res); [|done]. rewrite then_ret_fst. unfold persist_of, map_err.
  destruct (write_instance _ _) as [g' x'] eqn:Hw. apply write_instance_spec in Hw as (Ha & _). exact Ha.
Qed.

Lemma safe_heartbeat : keeps safe heartbeat.
Proof.
  unfold heartbeat. apply keeps_then; [typeclasses eauto|by apply keeps_safe_still; keeps|]. intros at_.
  apply pass_over_instances; [typeclasses eauto|apply still_safe|apply safe_filed|].
  intros acc r g Hg Hr.
  assert (Hl : lives_at (i_id r) g (fst ((let! w := heartbeat_of_instance at_ r in mret (acc ++ w)) g)))
    by (rewrite then_ret_fst; by apply lives_at_heartbeat_of_instance).
  split; [|exact Hl]. apply lives_safe; [by eapply lives_at_lives|]. intros _. rewrite then_ret_fst.
  apply sound_same, heartbeat_acts.
Qed.

Lemma safe_drill ir params opts : keeps safe (drill ir params opts).
Proof.
  apply drill_keeps; [typeclasses eauto|by intros g g' ?; apply still_safe|apply safe_apply|].
  intros id force. apply verb_safe; eauto with keeps harmless.
Qed.

Lemma perform_safe c g : safe g (perform c g).
Proof.
  destruct c; cbn [perform].
  all: first
    [ apply safe_apply | apply safe_heartbeat | apply safe_reap | apply safe_boot | apply safe_drill
    | solve [apply verb_safe; eauto with keeps harmless] | apply keeps_safe_still; solve [eauto with keeps] ].
Qed.

Lemma performs_safe cs : forall g, safe g (performs cs g).
Proof. induction cs as [|c cs IH]; intros g; [done|]. cbn. etrans; [apply perform_safe|apply IH]. Qed.
End Safe.

(** ** Properties *)

Lemma act_in_sound `{Outside} cs g a : filed g -> g_acts g = [] -> a ∈ g_acts (performs cs g) -> act_sound a.
Proof.
  intros Hf Hempty Ha. destruct (performs_safe cs g Hf) as [_ Hs]; [unfold sound; by rewrite Hempty|].
  unfold sound in Hs. rewrite Forall_forall in Hs. by apply Hs.
Qed.

(** C3. Write-ahead: whatever is called on the engine and whatever the world answers, when
    the [do] of a step runs on a host, the journal on disk already holds the step's Applying
    entry with the line that undoes it, and the instance's record on disk is in Applying,
    is no rehearsal, names that very step as the one in flight and does not have it among
    the applied ones. What runs is the resolved [do] of the plan's own op. *)
Theorem every_do_is_written_ahead `{Outside} cs g a at_ :
  filed g -> g_acts g = [] -> a ∈ g_acts (performs cs g) -> act_purpose a = ForDo at_ ->
  exists r o e,
    bm_get (act_instance a) (st_instances (act_store a)) = Some r /\ i_id r = act_instance a
    /\ i_rehearsal r = false /\ i_state r = SApplying /\ i_attempting r = Some at_
    /\ is_applied r (as_step at_) (as_iteration at_) (as_vars at_) = false
    /\ op_at r (as_step at_) = Some o
    /\ e ∈ st_chain (act_store a) /\ en_instance e = act_instance a /\ en_event e = JApplying (as_step at_) (undo_line o)
    /\ does o (act_body a).
Proof.
  intros Hf Hempty Ha Hp. destruct (act_in_sound cs g a Hf Hempty Ha) as (r & Hr & Hid & Hs). rewrite Hp in Hs.
  destruct Hs as (H1 & H2 & H3 & H4 & o & Ho & (e & He & Hi & Hev) & Hd). exists r, o, e. split_and!; done.
Qed.

(** C4. An undo runs on a host only for a step that the instance's record on disk has in
    flight or applied last, never for a rehearsal, and what runs is the undo of the plan's
    own op for that step (with the whole restores its drift policy asked for): steps are
    undone last in first out, and the engine never undoes what the disk does not say was
    done. *)
Theorem every_undo_is_of_the_last_step `{Outside} cs g a at_ :
  filed g -> g_acts g = [] -> a ∈ g_acts (performs cs g) -> act_purpose a = ForUndo at_ ->
  exists r o,
    bm_get (act_instance a) (st_instances (act_store a)) = Some r /\ i_id r = act_instance a
    /\ i_rehearsal r = false /\ (i_attempting r = Some at_ \/ last (i_applied r) = Some at_)
    /\ op_at r (as_step at_) = Some o /\ undoes o (act_body a).
Proof.
  intros Hf Hempty Ha Hp. destruct (act_in_sound cs g a Hf Hempty Ha) as (r & Hr & Hid & Hs). rewrite Hp in Hs.
  destruct Hs as (H1 & H2 & o & Ho & Hu). exists r, o. done.
Qed.

(** ** Witnesses *)

Definition demo_acts : list Act := g_acts (performs demo_calls demo_engine).

Definition demo_act (n : nat) : Act := default (mkAct (ForDo (mkApplied 0 0 ∅)) EmptyString EmptyString [] (g_store demo_engine)) (demo_acts !! n).

Lemma every_do_is_written_ahead_witness :
  act_purpose (demo_act 0) = ForDo (mkApplied 1 0 ∅)
  /\ exists r, bm_get demo_id (st_instances (act_store (demo_act 0))) = Some r
               /\ i_state r = SApplying /\ i_attempting r = Some (mkApplied 1 0 ∅).
Proof.
  assert (Hp : act_purpose (demo_act 0) = ForDo (mkApplied 1 0 ∅)) by (vm_compute; reflexivity).
  assert (Hin : demo_act 0 ∈ g_acts (performs demo_calls demo_engine)).
  { apply (list_elem_of_lookup_2 _ 0). vm_compute. reflexivity. }
  assert (Hid : act_instance (demo_act 0) = demo_id) by (vm_compute; reflexivity).
  split; [exact Hp|].
  destruct (every_do_is_written_ahead demo_calls demo_engine (demo_act 0) _ demo_engine_filed eq_refl Hin Hp)
    as (r & o & e & Hr & _ & _ & Hs & Ha & _).
  rewrite Hid in Hr. exists r. split; [exact Hr|]. split; [exact Hs|exact Ha].
Defined.

Lemma every_undo_is_of_the_last_step_witness :
  act_purpose (demo_act 2) = ForUndo (mkApplied 2 0 ∅)
  /\ exists r o, bm_get demo_id (st_instances (act_store (demo_act 2))) = Some r /\ op_at r 2 = Some o /\ undoes o (act_body (demo_act 2)).
Proof.
  assert (Hp : act_purpose (demo_act 2) = ForUndo (mkApplied 2 0 ∅)) by (vm_compute; reflexivity).
  assert (Hin : demo_act 2 ∈ g_acts (performs demo_calls demo_engine)).
  { apply (list_elem_of_lookup_2 _ 2). vm_compute. reflexivity. }
  assert (Hid : act_instance (demo_act 2) = demo_id) by (vm_compute; reflexivity).
  split; [exact Hp|].
  destruct (every_undo_is_of_the_last_step demo_calls demo_engine (demo_act 2) _ demo_engine_filed eq_refl Hin Hp)
    as (r & o & Hr & _ & _ & _ & Ho & Hu).
  rewrite Hid in Hr. exists r, o. split; [exact Hr|]. split; [exact Ho|exact Hu].
Defined.
