(* ===== verification/Undoing.v ===== *)
(** * Undoing an instance: order, end and outcome

    The revert of an instance undoes its applied steps last in first out, one undo at most
    for each, and stops at the first that cannot be undone; the turns its loop is given are
    enough; and when it answers, the instance is closed with nothing left to undo, or waits
    for its operator at the step that stopped it. Boot adds the step in flight to the
    applied ones before it undoes them, and leaves no instance applying. *)

From Stdlib Require Import Ascii Sorted.
From stdpp Require Import base strings pretty numbers option sets gmap list relations.
From S2P Require Import Prelude Model Algebra Intent States Ledger Journal EngineJournal Resolve Footprint Ordered.
From S2P Require Import Monad Executor Instance Engine Hosts EngineBackstop Revert Walk Verbs Reap.
From S2P Require Import Verdict EngineLogic Fakes Refine WriteAhead.

Section Undoing.
Context `{Outside}.

Notation pair := (Engine * InstanceRecord)%type.

(** ** One undo *)

(** At most one body ran, and it was the undo of the step. *)
Definition ran (a : AppliedStep) (g g' : Engine) : Prop :=
  exists news, g_acts g' = g_acts g ++ news /\ map act_purpose news `sublist_of` [ForUndo a].

Lemma still_ran a g g' : still g g' -> ran a g g'.
Proof. intros [_ Ha _]. exists []. rewrite app_nil_r. split; [done|apply sublist_nil_l]. Qed.

Lemma keeps_ran_still {E A} a (m : ME E A) : keeps still m -> keeps (ran a) m.
Proof. apply keeps_mono, still_ran. Qed.

Lemma ran_before {E A B} a (m : ME E A) (k : A -> ME E B) :
  keeps still m -> (forall x, keeps (ran a) (k x)) -> keeps (ran a) (mthen m k).
Proof.
  intros Hm Hk g. specialize (Hm g). unfold mthen. destruct (m g) as [g1 [x|e]]; [|by apply still_ran].
  destruct (Hk x g1) as (news & Ha & Hn). destruct Hm as [_ H1 _]. exists news. cbn in H1. by rewrite Ha, H1.
Qed.

Lemma ran_after {E A B} a (m : ME E A) (k : A -> ME E B) :
  keeps (ran a) m -> (forall x, keeps still (k x)) -> keeps (ran a) (mthen m k).
Proof.
  intros Hm Hk g. specialize (Hm g). unfold mthen. destruct (m g) as [g1 [x|e]]; [|done].
  destruct Hm as (news & Ha & Hn). destruct (Hk x g1) as [_ H1 _]. exists news. cbn in Ha. by rewrite H1.
Qed.

Lemma ran_run_on a x h id body : keeps (ran a) (run_on (ForUndo a) x h id body).
Proof.
  unfold run_on. apply ran_after; [|intros; keeps]. intros g. by exists [mkAct (ForUndo a) (eh_name h) id body (g_store g)].
Qed.

Lemma ran_undo_under_lock a r o h env x : keeps (ran a) (undo_under_lock r a o h env x).
Proof.
  unfold undo_under_lock. cbv zeta. do 2 (apply ran_before; [keeps|intros ?]). destruct x1 as [report whole].
  destruct (ur_held report); [|apply keeps_ran_still; keeps].
  do 2 (apply ran_before; [keeps|intros ?]). apply ran_after; [|intros; keeps].
  destruct x2; [apply keeps_ran_still; keeps|]. apply ran_after; [|intros; keeps]. apply keeps_map_err, ran_run_on.
Qed.

Lemma ran_undo_step r a o : keeps (ran a) (undo_step r a o).
Proof.
  unfold undo_step. destruct (_ || _); [apply keeps_ran_still; keeps|]. apply ran_before; [keeps|]. intros h. cbv zeta.
  destruct (concrete_op _ _ _) as [o'|u]; [|apply keeps_ran_still; keeps]. apply ran_before; [keeps|].
  intros [x|]; [|apply keeps_ran_still; keeps]. destruct (existsb _ _); [|apply ran_undo_under_lock].
  unfold under_host_lock. apply ran_before; [keeps|]. intros _. apply ran_after; [|intros; keeps].
  apply keeps_attempt, ran_undo_under_lock.
Qed.

(** ** The loop *)

(** Steps were taken off the end of the applied ones, and what ran are undos, at most one
    for each of them in that order, and at most one more for the step that is then last. *)
Definition unwound (s s' : pair) : Prop :=
  exists undone news,
    i_applied (snd s) = i_applied (snd s') ++ undone
    /\ g_acts (fst s') = g_acts (fst s) ++ news
    /\ map act_purpose news `sublist_of` map ForUndo (take (S (length undone)) (rev (i_applied (snd s)))).

(** Nothing runs, and the applied steps stay what they are. *)
Definition aside (s s' : pair) : Prop :=
  g_acts (fst s') = g_acts (fst s) /\ i_applied (snd s') = i_applied (snd s).

#[export] Instance aside_preorder : PreOrder aside.
Proof. split; [done|]. intros s1 s2 s3 [] []. split; by etrans. Qed.

Lemma quiet_aside s s' : quiet s s' -> aside s s'.
Proof. intros [C A _ _ _ _]. destruct (core_parts _ _ C) as (_ & _ & _ & _ & Hap & _). done. Qed.

Lemma keeps_aside_quiet {E A} (m : M E A) : keeps quiet m -> keeps aside m.
Proof. apply keeps_mono, quiet_aside. Qed.

Lemma aside_step ev : keeps aside (step ev).
Proof. intros s. split; [apply step_acts|apply step_applied]. Qed.

Lemma unwound_aside s s1 s2 : unwound s s1 -> aside s1 s2 -> unwound s s2.
Proof. intros (u & n & H1 & H2 & H3) [A1 A2]. exists u, n. by rewrite A1, A2. Qed.

Lemma aside_unwound s s1 s2 : aside s s1 -> unwound s1 s2 -> unwound s s2.
Proof. intros [A1 A2] (u & n & H1 & H2 & H3). exists u, n. by rewrite <- A1, <- A2. Qed.

Lemma unwound_refl s : unwound s s.
Proof. exists [], []. rewrite !app_nil_r. split_and!; [done..|apply sublist_nil_l]. Qed.

(** What one turn does: the step stays, or it is taken off. *)
Definition turned (a : AppliedStep) (s s' : pair) : Prop :=
  (exists news, g_acts (fst s') = g_acts (fst s) ++ news /\ map act_purpose news `sublist_of` [ForUndo a])
  /\ (i_applied (snd s') = i_applied (snd s) \/ i_applied (snd s') = pop (i_applied (snd s))).

Lemma turned_aside a s s1 s2 : turned a s s1 -> aside s1 s2 -> turned a s s2.
Proof. intros [(n & H1 & H2) H3] [A1 A2]. unfold turned. rewrite A2. split; [|done]. exists n. by rewrite A1. Qed.

Lemma turned_then {A B} a s (m : M EngineError A) (k : A -> M EngineError B) :
  turned a s (fst (m s)) -> (forall x, keeps aside (k x)) -> turned a s (fst (mthen m k s)).
Proof.
  intros Hm Hk. unfold mthen. destruct (m s) as [s1 [x|e]]; [|done]. eapply turned_aside; [exact Hm|]. apply Hk.
Qed.

Lemma aside_turned a s s' : aside s s' -> turned a s s'.
Proof. intros [A1 A2]. split; [|by left]. exists []. rewrite app_nil_r. split; [done|apply sublist_nil_l]. Qed.

(** The calls that end a turn by taking the step off. *)
Lemma turned_pop {A} a s s1 (k : M EngineError A) :
  turned a s s1 -> i_applied (snd s1) = i_applied (snd s) -> keeps aside k ->
  turned a s (fst ((do! update (fun r => set_applied (pop (i_applied r)) r) in k) s1)).
Proof.
  intros [(n & H1 & H2) _] Hap Hk. destruct s1 as [g1 r1]. cbn [fst snd] in *.
  unfold mthen. cbn. eapply turned_aside; [|apply Hk]. split; [by exists n|]. right. cbn. by rewrite Hap.
Qed.
End Undoing.

#[export] Hint Resolve keeps_aside_quiet aside_step : keeps.

Section Turns.
Context `{Outside}.

Notation pair := (Engine * InstanceRecord)%type.

Lemma turned_revert_turn a s : turned a s (fst (revert_turn a s)).
Proof.
  unfold revert_turn. destruct s as [g r]. unfold mthen at 1. cbn [get_rec with_rec mret].
  destruct (op_at r (as_step a)) as [o|].
  2: { apply turned_pop; [by apply aside_turned|done|keeps]. }
  unfold mthen at 1. unfold on_engine, with_rec, attempt.
  pose proof (ran_undo_step r a o g) as Hran. destruct (undo_step r a o g) as [g1 undone]. cbn [fst] in Hran.
  assert (H1 : turned a (g, r) (g1, r)) by (split; [exact Hran|by left]).
  destruct undone as [[clobbered [|f held]]|why].
  - assert (Hq : keeps quiet (match clobbered with [] => mret tt | _ => log (JDriftClobbered (as_step a) clobbered) end))
      by (destruct clobbered; keeps).
    unfold mthen at 1. specialize (Hq (g1, r)). apply quiet_aside in Hq as Ha.
    destruct (_ (g1, r)) as [[g2 r2] [[]|e]]; [|by eapply turned_aside].
    unfold mthen at 1. cbn [update mret]. eapply turned_aside in H1; [|exact Ha]. destruct Ha as [_ Ha].
    apply turned_pop; [by eapply turned_aside|done|keeps].
  - eapply turned_aside; [exact H1|]. unshelve eapply (_ : keeps aside _). keeps.
  - eapply turned_aside; [exact H1|]. unshelve eapply (_ : keeps aside _). keeps.
Qed.

(** ** Partial correctness *)

(** [ends P m Q]: from a state of which [P] holds, what [m] answers satisfies [Q]. *)
Definition ends {A} (P : pair -> Prop) (m : M EngineError A) (Q : A -> pair -> Prop) : Prop :=
  forall s, P s -> forall x, snd (m s) = Ok x -> Q x (fst (m s)).

Lemma ends_ret {A} (P : pair -> Prop) (x : A) (Q : A -> pair -> Prop) : (forall s, P s -> Q x s) -> ends P (mret x) Q.
Proof. intros HQ s Hs y [= <-]. by apply HQ. Qed.

Lemma ends_then {A B} P (m : M EngineError A) (k : A -> M EngineError B) Q R :
  ends P m Q -> (forall x, ends (Q x) (k x) R) -> ends P (mthen m k) R.
Proof.
  intros Hm Hk s Hs y. specialize (Hm s Hs). unfold mthen. destruct (m s) as [s1 [x|e]]; [|done]. by apply Hk, Hm.
Qed.

Lemma ends_weaken {A} (P P' : pair -> Prop) (m : M EngineError A) (Q Q' : A -> pair -> Prop) :
  ends P m Q -> (forall s, P' s -> P s) -> (forall x s, Q x s -> Q' x s) -> ends P' m Q'.
Proof. intros Hm HP HQ s Hs x Hx. apply HQ, Hm; auto. Qed.

Lemma ends_pre {A} (P P' : pair -> Prop) (m : M EngineError A) (Q : A -> pair -> Prop) :
  ends P m Q -> (forall s, P' s -> P s) -> ends P' m Q.
Proof. intros Hm HP. by eapply ends_weaken. Qed.

Lemma ends_get {A} (P : pair -> Prop) (k : InstanceRecord -> M EngineError A) Q :
  (forall r, ends (fun s => P s /\ snd s = r) (k r) Q) -> ends P (mthen get_rec k) Q.
Proof. intros Hk [g r] Hs. unfold mthen, get_rec, with_rec, mret. by apply Hk. Qed.

Lemma ends_update {A} (P : pair -> Prop) f (k : M EngineError A) Q :
  ends (fun s => exists r, P (fst s, r) /\ snd s = f r) k Q -> ends P (do! update f in k) Q.
Proof. intros Hk [g r] Hs. unfold mthen. cbn. apply Hk. by exists r. Qed.

(** What a call keeps and the rest needs. *)
Lemma ends_keeps {A B} (P : pair -> Prop) (R : relation pair) (m : M EngineError A) (k : A -> M EngineError B) Q :
  keeps R m -> (forall s s', P s -> R s s' -> P s') -> (forall x, ends P (k x) Q) -> ends P (mthen m k) Q.
Proof. intros Hm HP Hk. eapply ends_then with (Q := fun _ => P); [|done]. intros s Hs x _. by eapply HP, Hm. Qed.

(** An event that leads to one state only. *)
Definition leads_to (ev : Event) : option State :=
  match ev with
  | EvUndoClean => Some SClosed
  | EvDriftOnDefer => Some SDriftHeld
  | EvUndoFailed => Some SStuck
  | _ => None
  end.

Lemma leads_to_spec c s ev st :
  leads_to ev = Some st -> match transition c s ev with To s' => s' = st | Stay => False | _ => True end.
Proof.
  intros Hl.
  check_machine (fun (c : Ctx) (s : State) e o =>
    match leads_to e with Some st => match o with To s' => s' == st | Stay => false | _ => true end | None => true end) c s ev.
  rewrite Hl in Hchk. destruct (transition c s ev); [by apply bool_decide_eq_true in Hchk|done..].
Qed.

Lemma step_leads ev st (Q : InstanceRecord -> Prop) :
  leads_to ev = Some st ->
  ends (fun s => Q (set_state st (snd s))) (step ev) (fun _ s => Q (snd s)).
Proof.
  intros Hl [g r] HQ x Hx. pose proof (leads_to_spec (i_ctx r) (i_state r) ev st Hl) as Ht.
  destruct (transition (i_ctx r) (i_state r) ev) as [s'| | |] eqn:Htr; [|done|..].
  - subst s'. destruct (step_to_spec ev g r st Htr) as [_ Hok]. destruct (Hok x Hx) as [-> _]. exact HQ.
  - destruct (step_stays_spec ev g r) as (_ & _ & Hst); [intros y; by rewrite Htr|]. specialize (Hst x Hx). congruence.
  - destruct (step_stays_spec ev g r) as (_ & _ & Hst); [intros y; by rewrite Htr|]. specialize (Hst x Hx). congruence.
Qed.

(** ** How the loop ends *)

(** The revert stands still at the step that is applied last: it is held for its drift, or
    its undo failed and every step not undone is listed. *)
Definition blocked (r : InstanceRecord) : Prop :=
  exists a, last (i_applied r) = Some a /\
  ((i_state r = SDriftHeld /\ i_drift_held r = [as_step a])
   \/ (i_state r = SStuck /\ i_stuck r = steps_back r)).

(** A call that leaves the record in hand as it is. *)
Definition hands_back (s s' : pair) : Prop := snd s' = snd s.

#[export] Instance hands_back_preorder : PreOrder hands_back.
Proof. split; [done|]. intros s1 s2 s3 H1 H2. by etrans. Qed.

Lemma keeps_with_rec_back {E A} (m : InstanceRecord -> ME E A) : keeps hands_back (with_rec m).
Proof. intros [g r]. unfold with_rec. by destruct (m r g). Qed.

Lemma persist_back : keeps hands_back persist.
Proof. apply keeps_with_rec_back. Qed.

Lemma log_back ev : keeps hands_back (log ev).
Proof. apply keeps_with_rec_back. Qed.

(** How a turn ends for a step that was applied last. *)
Definition turn_ends (l : list AppliedStep) (on : bool) (r : InstanceRecord) : Prop :=
  if on then i_applied r = pop l else i_applied r = l /\ blocked r.

Lemma ends_handing_back {A B} (P : InstanceRecord -> Prop) (m : M EngineError A) (k : A -> M EngineError B) Q :
  keeps hands_back m -> (forall x, ends (fun s => P (snd s)) (k x) Q) -> ends (fun s => P (snd s)) (mthen m k) Q.
Proof. intros Hm Hk. eapply ends_keeps; [exact Hm| |exact Hk]. by intros s s' Hp ->. Qed.

Lemma ends_pop l :
  ends (fun s => i_applied (snd s) = l)
    (do! update (fun r => set_applied (pop (i_applied r)) r) in do! persist in mret true)
    (fun on s => turn_ends l on (snd s)).
Proof.
  apply ends_update. apply ends_pre with (P := fun s => i_applied (snd s) = pop l).
  - apply ends_handing_back with (P := fun r => i_applied r = pop l); [apply persist_back|]. intros ?. by apply ends_ret.
  - intros s (r & Hr & ->). cbn in *. by rewrite Hr.
Qed.

Lemma ends_drift_held l a held :
  last l = Some a ->
  ends (fun s => i_applied (snd s) = l)
    (do! update (set_drift_held [as_step a]) in do! log (JDriftHeld (as_step a) held) in
     do! step EvDriftOnDefer in mret false)
    (fun on s => turn_ends l on (snd s)).
Proof.
  intros Hl. apply ends_update.
  apply ends_pre with (P := fun s => i_applied (snd s) = l /\ i_drift_held (snd s) = [as_step a]).
  2: { intros s (r & Hr & ->). done. }
  apply ends_handing_back with (P := fun r => i_applied r = l /\ i_drift_held r = [as_step a]); [apply log_back|].
  intros ?. eapply ends_then; [|intros ?; apply ends_ret; intros s Hs; exact Hs].
  eapply ends_pre; [apply (step_leads _ SDriftHeld (turn_ends l false)); done|].
  intros [g r] [H1 H2]. cbn in *. split; [done|]. exists a. cbn. rewrite H1. auto.
Qed.

Lemma ends_stuck l a why :
  last l = Some a ->
  ends (fun s => i_applied (snd s) = l)
    (do! update (fun r => set_stuck (steps_back r) r) in let! r := get_rec in
     do! log (JStepFailed (as_step a) ("undo: " +:+ why)) in do! step EvUndoFailed in do! log (JStuck (i_stuck r)) in mret false)
    (fun on s => turn_ends l on (snd s)).
Proof.
  intros Hl. apply ends_update. set (P := fun r => i_applied r = l /\ i_stuck r = steps_back r).
  apply ends_pre with (P := fun s => P (snd s)).
  2: { intros s (r & Hr & ->). done. }
  apply ends_handing_back; [apply keeps_with_rec_back|]. intros r1. apply ends_handing_back; [apply log_back|]. intros ?.
  eapply ends_then with (Q := fun _ s => turn_ends l false (snd s)).
  { eapply ends_pre; [apply (step_leads _ SStuck (turn_ends l false)); done|].
    intros [g r] [H1 H2]. cbn in *. split; [done|]. exists a. cbn. rewrite H1. split; [done|]. right.
    split; [done|]. rewrite H2. unfold steps_back. by rewrite H1. }
  intros ?. apply ends_handing_back with (P := turn_ends l false); [apply log_back|]. intros ?. by apply ends_ret.
Qed.

Lemma ends_revert_turn l a :
  last l = Some a -> ends (fun s => i_applied (snd s) = l) (revert_turn a) (fun on s => turn_ends l on (snd s)).
Proof.
  intros Hl. set (P := fun r => i_applied r = l). unfold revert_turn.
  apply ends_handing_back with (P := P); [apply keeps_with_rec_back|]. intros r.
  destruct (op_at r (as_step a)) as [o|]; [|by apply ends_pop].
  apply ends_handing_back; [apply keeps_with_rec_back|]. intros [[clobbered [|f held]]|why].
  - apply ends_handing_back; [destruct clobbered; [apply keeps_ret, hands_back_preorder|apply log_back]|]. intros ?.
    apply ends_update. eapply ends_pre; [apply (ends_pop l)|]. by intros s (r1 & Hr & ->).
  - by apply ends_drift_held.
  - by apply ends_stuck.
Qed.

(** ** The loop *)

Lemma unwound_turn a l s s1 s2 :
  i_applied (snd s) = l ++ [a] -> turned a s s1 -> i_applied (snd s1) = l -> unwound s1 s2 -> unwound s s2.
Proof.
  intros Hl [(n1 & A1 & S1) _] Hap (u & n2 & Hu & A2 & S2). exists (u ++ [a]), (n1 ++ n2).
  rewrite Hap in *. rewrite Hl, Hu, app_assoc. split; [done|]. split; [by rewrite A2, A1, app_assoc|].
  rewrite rev_app_distr, length_app, Nat.add_1_r, map_app. cbn. rewrite <- Hu.
  by apply (sublist_app (map act_purpose n1) [ForUndo a]).
Qed.

Lemma unwound_last a l s s1 :
  i_applied (snd s) = l ++ [a] -> turned a s s1 -> unwound s s1.
Proof.
  intros Hl [(n & A & S) Hap]. rewrite Hl in Hap. unfold pop in Hap. rewrite removelast_last in Hap.
  assert (Hu : exists u, l ++ [a] = i_applied (snd s1) ++ u) by (destruct Hap as [-> | ->]; [exists []|exists [a]]; rewrite ?app_nil_r; done).
  destruct Hu as [u Hu]. exists u, n. split; [congruence|]. split; [done|]. rewrite Hl, rev_app_distr. cbn [rev app take map].
  etrans; [exact S|]. apply sublist_skip, sublist_nil_l.
Qed.

Lemma last_app_inv {A} (l : list A) a : last l = Some a -> exists l', l = l' ++ [a].
Proof. intros Hl. by apply last_Some. Qed.

(** However the loop ends. *)
Lemma unwound_revert_loop fuel : forall s, unwound s (fst (revert_loop fuel s)).
Proof.
  induction fuel as [|fuel IH]; intros [g r]; cbn [revert_loop]; [apply unwound_refl|].
  unfold mthen at 1. cbn [get_rec with_rec mret]. destruct (last (i_applied r)) as [a|] eqn:Hl; [|apply unwound_refl].
  pose proof (turned_revert_turn a (g, r)) as Ht. pose proof (ends_revert_turn _ a Hl (g, r) eq_refl) as He.
  apply last_app_inv in Hl as [l Hl]. unfold mthen. destruct (revert_turn a (g, r)) as [s1 [on|e]]; cbn [fst snd] in *.
  - destruct on; [|by eapply unwound_last]. specialize (He true eq_refl). cbn in He. rewrite Hl in He. unfold pop in He.
    rewrite removelast_last in He. by eapply unwound_turn.
  - by eapply unwound_last.
Qed.

Lemma pop_length {A} (l : list A) : length (pop l) = Nat.pred (length l).
Proof.
  destruct (last l) as [a|] eqn:Hl; [|apply last_None in Hl; by subst]. apply last_app_inv in Hl as [l' ->].
  unfold pop. rewrite removelast_last, length_app. cbn. lia.
Qed.

(** How the loop answers: all undone, or blocked. A turn for each applied step, and one to
    see that none is left, are enough. *)
Definition loop_ends (all : option bool) (r : InstanceRecord) : Prop :=
  match all with
  | Some true => i_applied r = []
  | Some false => blocked r
  | None => False
  end.

Lemma ends_revert_loop fuel :
  ends (fun s => length (i_applied (snd s)) < fuel) (revert_loop fuel) (fun all s => loop_ends all (snd s)).
Proof.
  induction fuel as [|fuel IH]; [intros s Hs; lia|]. cbn [revert_loop]. apply ends_get. intros r.
  destruct (last (i_applied r)) as [a|] eqn:Hl.
  - eapply ends_then with (Q := fun on s => turn_ends (i_applied r) on (snd s) /\ length (i_applied r) < S fuel).
    + intros s [Hf Hr] on Hon. subst r. split; [|done]. by apply (ends_revert_turn _ a Hl s eq_refl).
    + intros [|]; [|apply ends_ret; by intros s [[_ ?] _]]. eapply ends_pre; [exact IH|]. intros s [Ht Hf]. cbn in Ht.
      rewrite Ht, pop_length. destruct (i_applied r); [done|]. cbn in *. lia.
  - apply ends_ret. intros s [_ <-]. by apply last_None.
Qed.

(** ** The revert *)

Lemma aside_close_reverted : keeps aside close_reverted.
Proof. unfold close_reverted. keeps. Qed.

Lemma unwound_revert s : unwound s (fst (revert s)).
Proof.
  unfold revert. destruct s as [g r]. unfold mthen at 1. cbn [get_rec with_rec mret]. rewrite then_assoc.
  assert (Hq : keeps quiet (do! log (JReverting (steps_back r)) in update (set_stuck []))) by keeps.
  specialize (Hq (g, r)). apply quiet_aside in Hq. unfold mthen at 1.
  destruct (mthen (log _) _ (g, r)) as [s1 [[]|e]]; [|eapply unwound_aside; [apply unwound_refl|exact Hq]].
  eapply aside_unwound; [exact Hq|]. pose proof (unwound_revert_loop (S (length (i_applied r))) s1) as Hl. unfold mthen.
  destruct (revert_loop _ s1) as [s2 [all|e]]; [|done]. eapply unwound_aside; [exact Hl|].
  destruct all as [[]|]; [apply aside_close_reverted|done|done].
Qed.

Lemma ends_close_reverted :
  ends (fun s => i_applied (snd s) = []) close_reverted (fun _ s => i_state (snd s) = SClosed /\ i_applied (snd s) = []).
Proof.
  unfold close_reverted. set (P := fun r => i_state r = SClosed /\ i_applied r = []).
  eapply ends_then with (Q := fun _ s => P (snd s)).
  - eapply ends_pre; [apply (step_leads _ SClosed P); done|]. by intros [g r].
  - intros ?. apply ends_handing_back; [apply log_back|]. intros ?.
    assert (Hrest : forall m : M EngineError unit, keeps quiet m -> ends (fun s => P (snd s)) m (fun _ s => P (snd s))).
    { intros m Hm s [H1 H2] x1 _. specialize (Hm s). destruct (core_parts _ _ (quiet_core _ _ Hm)) as (_ & _ & _ & Hs & Ha & _).
      unfold P. by rewrite Hs, Ha. }
    apply Hrest. keeps.
Qed.

Lemma ends_revert :
  ends (fun _ => True) revert (fun _ s => (i_state (snd s) = SClosed /\ i_applied (snd s) = []) \/ blocked (snd s)).
Proof.
  unfold revert. apply ends_get. intros r.
  eapply ends_then with (Q := fun _ s => length (i_applied (snd s)) < S (length (i_applied r))).
  { intros s [_ <-] x _. rewrite (log_back _ s). lia. }
  intros ?. apply ends_update.
  eapply ends_then with (Q := fun all s => loop_ends all (snd s)).
  { eapply ends_pre; [apply ends_revert_loop|]. by intros s (r1 & Hl & ->). }
  intros [[]|]; cbn [loop_ends].
  - eapply ends_weaken; [apply ends_close_reverted|done|auto].
  - apply ends_ret. auto.
  - apply ends_ret. by intros s [].
Qed.

Lemma revert_loop_fuel fuel : forall fuel' s,
  length (i_applied (snd s)) < fuel -> length (i_applied (snd s)) < fuel' -> revert_loop fuel s = revert_loop fuel' s.
Proof.
  induction fuel as [|fuel IH]; intros [|fuel'] [g r] Hf Hf'; try (cbn in *; lia). cbn [revert_loop].
  unfold mthen. cbn [get_rec with_rec mret fst snd] in *. destruct (last (i_applied r)) as [a|] eqn:Hl; [|done].
  pose proof (ends_revert_turn _ a Hl (g, r) eq_refl) as He.
  destruct (revert_turn a (g, r)) as [s1 [[|]|e]]; try done. specialize (He true eq_refl). cbn in He.
  assert (length (i_applied (snd s1)) < length (i_applied r)).
  { rewrite He, pop_length. destruct (i_applied r); [done|cbn; lia]. }
  apply IH; lia.
Qed.

(** ** Held for its drift *)

(** An undo that is held ran nothing. *)
Definition holds_off (m : ME string UndoReport) : Prop :=
  forall g g' rep, m g = (g', Ok rep) -> ur_held rep <> [] -> g_acts g' = g_acts g.

Lemma holds_off_ret rep : holds_off (mret rep).
Proof. by intros g g' x [= <- _]. Qed.

Lemma holds_off_throw e : holds_off (mthrow e).
Proof. by intros g g' x. Qed.

Lemma holds_off_then {A} (m : ME string A) (k : A -> ME string UndoReport) :
  keeps still m -> (forall x, holds_off (k x)) -> holds_off (mthen m k).
Proof.
  intros Hm Hk g g' rep. specialize (Hm g). unfold mthen. destruct (m g) as [g1 [x|e]]; [|done]. intros Hr Hn.
  rewrite (Hk x g1 g' rep Hr Hn). apply Hm.
Qed.

Lemma holds_off_after {A} (m : ME string A) rep : ur_held rep = [] -> holds_off (do! m in mret rep).
Proof. intros He g g' x. unfold mthen. destruct (m g) as [g1 [y|e]]; [|done]. by intros [= _ <-]. Qed.

Lemma holds_off_under_lock r a o h env x : holds_off (undo_under_lock r a o h env x).
Proof.
  unfold undo_under_lock. cbv zeta. apply holds_off_then; [keeps|]. intros foreign. apply holds_off_then; [keeps|].
  intros [report whole]. destruct (ur_held report) eqn:He; [|apply holds_off_ret].
  apply holds_off_then; [keeps|]. intros body. apply holds_off_then; [keeps|]. intros body'.
  assert (Hl : forall A (m : ME string A), holds_off (do! m in mret report)) by (intros; by apply holds_off_after).
  intros g g' rep. rewrite then_assoc. by apply Hl.
Qed.

Lemma holds_off_undo_step r a o : holds_off (undo_step r a o).
Proof.
  unfold undo_step. destruct (_ || _); [apply holds_off_ret|]. apply holds_off_then; [keeps|]. intros h. cbv zeta.
  destruct (concrete_op _ _ _) as [o'|u]; [|apply holds_off_throw]. apply holds_off_then; [keeps|].
  intros [x|]; [|apply holds_off_throw]. destruct (existsb _ _); [|apply holds_off_under_lock].
  unfold under_host_lock. apply holds_off_then; [keeps|]. intros _ g g' rep. unfold mthen, attempt.
  pose proof (holds_off_under_lock r a o' h (env_for r (as_vars a)) x g) as Hu.
  destruct (undo_under_lock r a o' h (env_for r (as_vars a)) x g) as [g1 [y|e]]; cbn; [|done].
  intros [= <- <-]. cbn. by apply Hu.
Qed.
End Turns.
