(* ===== verification/Recovery.v ===== *)
(** * Recovery at boot

    A restarted engine finds on disk the instances as they were: the step that was in
    flight is taken for applied, unless every fact of its footprint reads as it did before
    the [do], and an instance left applying is demoted and undone, so that none is applying
    when boot is done. At the end, two runs that go wrong. *)

From Stdlib Require Import Ascii Sorted.
From Stdlib Require Import Ascii.
From stdpp Require Import base strings pretty numbers option sets gmap list relations.
From S2P Require Import Prelude Model Algebra Intent States Ledger Journal EngineJournal Resolve Footprint Ordered Monad Executor Instance Engine Hosts EngineBackstop Revert.
From S2P Require Import Walk Verbs Reap Verdict EngineLogic Fakes Refine WriteAhead Undoing Check.

Section Recovery.
Context `{Outside}.

Notation pair := (Engine * InstanceRecord)%type.

(** ** Away from Applying *)

Definition not_applying (x : InstanceRecord) : Prop := i_state x <> SApplying.

(** Neither the record in hand nor the one stored is applying. *)
Definition calm (s : pair) : Prop :=
  not_applying (snd s) /\ forall x, stored (fst s) (i_id (snd s)) = Some x -> not_applying x.

(** A method that leads no instance back to Applying. *)
Definition calms (s s' : pair) : Prop := i_id (snd s') = i_id (snd s) /\ (calm s -> calm s').

#[export] Instance calms_preorder : PreOrder calms.
Proof. split; [done|]. intros s1 s2 s3 [I1 C1] [I2 C2]. split; [congruence|auto]. Qed.

Lemma quiet_calms s s' : quiet s s' -> calms s s'.
Proof.
  intros [C _ _ _ _ S]. destruct (core_parts _ _ C) as (Hid & _ & _ & Hst & _). split; [done|]. intros [H1 H2].
  unfold calm, not_applying. rewrite Hst, Hid. split; [done|]. intros x Hx. destruct S as [S|S]; [rewrite S in Hx; by apply H2|].
  rewrite Hx in S. cbn in S. apply (inj Some) in S. destruct (core_parts _ _ S) as (_ & _ & _ & -> & _). done.
Qed.

Lemma keeps_calms_quiet {E A} (m : M E A) : keeps quiet m -> keeps calms m.
Proof. apply keeps_mono, quiet_calms. Qed.

Lemma keeps_calms_on_engine {E A} (m : ME E A) : keeps same_records m -> keeps calms (on_engine m).
Proof.
  intros Hm [g r]. specialize (Hm g). unfold on_engine, with_rec. destruct (m g) as [g' x]. split; [done|].
  unfold calm, stored, same_records in *. cbn in *. by rewrite Hm.
Qed.

Lemma keeps_calms_update {E} f : (forall r, i_id (f r) = i_id r /\ i_state (f r) = i_state r) -> keeps calms (update (E := E) f).
Proof. intros Hf [g r]. destruct (Hf r) as [H1 H2]. split; [done|]. unfold calm, not_applying. cbn. by rewrite H1, H2. Qed.

(** The events that set an instance going again. *)
Definition resumes (ev : Event) : bool :=
  match ev with EvApprove | EvWaitSatisfied | EvHandoffDone | EvResume => true | _ => false end.

Lemma resumes_spec c s ev : resumes ev = false -> transition c s ev <> To SApplying.
Proof.
  intros Hr. check_machine (fun (c : Ctx) (s : State) e o => resumes e || negb (o == To SApplying)) c s ev.
  rewrite Hr in Hchk. cbn in Hchk. by apply negb_true_iff, bool_decide_eq_false in Hchk.
Qed.

Lemma persist_calm g r :
  not_applying r -> (forall x, stored g (i_id r) = Some x -> not_applying x) -> calm (fst (persist (g, r))).
Proof.
  intros Hr Hx. destruct (persist (g, r)) as [[g' r'] res] eqn:Hp. apply persist_spec in Hp as (Hr' & _ & _ & Hi).
  cbn [fst snd] in *. subst r'. split; [done|]. cbn [fst snd]. unfold stored in *. rewrite Hi.
  destruct (is_ok res); [|done]. rewrite bm_get_insert. by intros x [= <-].
Qed.

Lemma step_calms ev : resumes ev = false -> keeps calms (step ev).
Proof.
  intros Hr [g r]. split. { apply (drives_id _ _ (drives_step ev (g, r))). }
  intros [H1 H2]. cbn [fst snd] in *. rewrite step_eq. pose proof (still_traced r ev g) as [Hi _ _].
  assert (Hst : forall x, stored (traced r ev g) (i_id r) = Some x -> not_applying x) by (unfold stored; by rewrite Hi).
  pose proof (resumes_spec (i_ctx r) (i_state r) ev Hr) as Hn.
  destruct (transition (i_ctx r) (i_state r) ev) as [st| | |]; [|by split..]. unfold mthen.
  assert (Hc : calm (fst (persist (traced r ev g, set_state st r)))) by (apply persist_calm; [intros Hs; cbn in Hs; congruence|done]).
  destruct (persist _) as [s' [x|e]]; exact Hc.
Qed.
End Recovery.

#[export] Hint Resolve keeps_calms_quiet : keeps.
#[export] Hint Extern 1 (keeps calms (step _)) => (apply step_calms; reflexivity) : keeps.
#[export] Hint Extern 1 (keeps calms (update _)) => (apply keeps_calms_update; intros ?; repeat case_match; split; done) : keeps.
#[export] Hint Resolve same_undo_step same_run_body : keeps.

Ltac keeps_call ::=
  lazymatch goal with
  | |- keeps quiet (on_engine _) => apply quiet_on_engine
  | |- keeps quiet (with_rec _) => apply quiet_with_rec
  | |- keeps quiet (refusable _) => apply quiet_refusable
  | |- keeps calms (on_engine _) => apply keeps_calms_on_engine
  | |- keeps calms (refusable _) => unfold refusable
  end.

Section Boot.
Context `{Outside}.

Notation pair := (Engine * InstanceRecord)%type.

(** ** What becomes of an applying instance *)

(** The record in hand is the one stored. *)
Definition kept (s : pair) : Prop := stored (fst s) (i_id (snd s)) = Some (snd s).

(** The facts of [pre], read one after the other, each as it was then. *)
Inductive reads_again (r : InstanceRecord) (h : EHost) : Engine -> Watched -> Engine -> Prop :=
| reads_none g : reads_again r h g [] g
| reads_fact g g1 g2 shape was b rest :
    fact_bytes r h shape g = (g1, Ok b) -> digest b = was -> reads_again r h g1 rest g2 ->
    reads_again r h g ((shape, was) :: rest) g2.

(** Somewhere between two engines, with no body run before it, the fact was read. *)
Definition read_before (r0 : InstanceRecord) (h : EHost) (g0 : Engine) (shape : string) (b : option string) : Prop :=
  exists r2 g2 g3, core r2 = core r0 /\ g_acts g2 = g_acts g0 /\ fact_bytes r2 h shape g2 = (g3, Ok b).

(** Of the facts a step was recorded with, each of its footprint that can be observed reads
    now as it read then. *)
Definition as_recorded (r : InstanceRecord) (a : AppliedStep) (cleared : InstanceRecord) (h : EHost) : Prop :=
  forall g0 r0 g1 o1 h1,
    snapshot a o1 h1 (g0, r0) = ((g1, r), Ok (Ok (i_attempting_pre r))) ->
    forall k e p, (k, e, p) ∈ observed_facts (op_footprint o1) ->
      exists was now g2 g3, read_before r0 h1 g0 (fp_shape e) was
        /\ fact_bytes cleared h (fp_shape e) g2 = (g3, Ok now) /\ digest now = digest was.

(** Facts were recorded for the step in flight, and its [do] left each of them as it was. *)
Definition took_nothing (r : InstanceRecord) (a : AppliedStep) : Prop :=
  i_attempting_pre r <> [] /\
  exists h g g1, reads_again (set_attempting_pre [] (set_attempting None r)) h g (i_attempting_pre r) g1
                 /\ as_recorded r a (set_attempting_pre [] (set_attempting None r)) h.

(** The steps that are applied, and the one in flight after them, unless it is one of them
    already or took nothing. *)
Definition with_flight (before : InstanceRecord) (l : list AppliedStep) : Prop :=
  match i_attempting before with
  | None => l = i_applied before
  | Some a =>
      l = i_applied before ++ [a]
      \/ (l = i_applied before
          /\ (is_applied before (as_step a) (as_iteration a) (as_vars a) = true \/ took_nothing before a))
  end.

(** One of the steps asks that a refusal after it hold. *)
Definition asks_to_hold (r : InstanceRecord) (l : list AppliedStep) : Prop :=
  exists a o, a ∈ l /\ op_at r (as_step a) = Some o /\ is_hold (op_refusal o) = true.

(** An instance that was applying, as boot leaves it: refused, with no step in flight, and
    held where one of its steps asks for it. Else it is undone and closed, or stands at the
    step that is then last, whose undo could not be run or was held for drift. *)
Definition halted (before x : InstanceRecord) : Prop :=
  i_refusal x = Some restarted /\ i_attempting x = None /\
  exists l, with_flight before l /\
    ((asks_to_hold before l /\ i_state x = SHeld /\ i_applied x = l /\ i_held_at x = as_step <$> last l)
     \/ (~ asks_to_hold before l
         /\ ((i_state x = SClosed /\ i_applied x = [])
             \/ exists done a undone,
                  i_applied x = done ++ [a] /\ l = i_applied x ++ undone
                  /\ ((i_state x = SDriftHeld /\ i_drift_held x = [as_step a])
                      \/ (i_state x = SStuck /\ i_stuck x = dedup (map as_step (rev (i_applied x)))))))).

Lemma halted_not_applying before x : halted before x -> not_applying x.
Proof. intros (_ & _ & l & _ & [(_ & Hs & _)|[_ [[Hs _]|(d & a & u & _ & _ & [[Hs _]|[Hs _]])]]]) Ha; congruence. Qed.

Lemma kept_calm s : kept s -> not_applying (snd s) -> calm s.
Proof. unfold kept, calm. intros -> Hn. split; [done|]. by intros x [= <-]. Qed.

Lemma ends_and {A} (P : pair -> Prop) (m : M EngineError A) (Q R : A -> pair -> Prop) :
  ends P m Q -> ends P m R -> ends P m (fun x s => Q x s /\ R x s).
Proof. intros H1 H2 s Hs x Hx. split; auto. Qed.

Lemma ends_any {A} (m : M EngineError A) : ends (fun _ => True) m (fun _ _ => True).
Proof. by intros s _ x _. Qed.

Lemma ends_persist P : ends P persist (fun _ => kept).
Proof.
  intros [g r] _ x Hx. destruct (persist (g, r)) as [[g' r'] res] eqn:Hp. cbn [fst snd] in *. subst res.
  apply persist_spec in Hp as (Hr & _ & _ & Hi). cbn [fst snd is_ok] in *. subst r'. unfold kept, stored. cbn [fst snd].
  by rewrite Hi, bm_get_insert.
Qed.

Lemma ends_log_kept ev : ends kept (log ev) (fun _ => kept).
Proof.
  intros [g r] Hk x _. unfold log, with_rec. pose proof (still_log_for r ev g) as Hl.
  destruct (log_for r ev g) as [g' res]. destruct Hl as [Hi _ _]. unfold kept, stored in *. cbn [fst snd] in *. by rewrite Hi.
Qed.

Lemma ends_step_kept ev st : leads_to ev = Some st -> ends (fun _ => True) (step ev) (fun _ => kept).
Proof.
  intros Hl [g r] _ x Hx. pose proof (leads_to_spec (i_ctx r) (i_state r) ev st Hl) as Ht.
  destruct (transition (i_ctx r) (i_state r) ev) as [s'| | |] eqn:Htr; [|done|..].
  - destruct (step_to_spec ev g r s' Htr) as [_ Hok]. destruct (Hok x Hx) as [Hr Hs]. unfold kept. by rewrite Hr.
  - destruct (step_stays_spec ev g r) as (_ & _ & Hst); [intros y; by rewrite Htr|]. specialize (Hst x Hx). congruence.
  - destruct (step_stays_spec ev g r) as (_ & _ & Hst); [intros y; by rewrite Htr|]. specialize (Hst x Hx). congruence.
Qed.

(** A turn that stops has stored what it stopped at. *)
Definition stops_kept (on : bool) (s : pair) : Prop := on = false -> kept s.

Lemma ends_revert_turn_kept a : ends (fun _ => True) (revert_turn a) stops_kept.
Proof.
  assert (Hgo : ends (fun _ => True) (do! update (fun r => set_applied (pop (i_applied r)) r) in do! persist in mret true) stops_kept).
  { do 2 (eapply ends_then; [apply ends_any|]; intros ?). by apply ends_ret. }
  unfold revert_turn. apply ends_get. intros r. apply ends_pre with (P := fun _ => True); [|done].
  destruct (op_at r (as_step a)) as [o|]; [|exact Hgo]. eapply ends_then; [apply ends_any|].
  intros [[clobbered [|f held]]|why].
  - do 2 (eapply ends_then; [apply ends_any|]; intros ?). exact Hgo.
  - do 2 (eapply ends_then; [apply ends_any|]; intros ?). eapply ends_then; [by apply (ends_step_kept _ SDriftHeld)|].
    intros ?. apply ends_ret. by intros s Hs _.
  - eapply ends_then; [apply ends_any|]. intros ?. apply ends_get. intros r1.
    apply ends_pre with (P := fun _ => True); [|done]. eapply ends_then; [apply ends_any|]. intros ?.
    eapply ends_then; [by apply (ends_step_kept _ SStuck)|]. intros ?.
    eapply ends_then; [apply ends_log_kept|]. intros ?. apply ends_ret. by intros s Hs _.
Qed.

Lemma ends_revert_loop_kept fuel :
  ends (fun _ => True) (revert_loop fuel) (fun all s => all = Some false -> kept s).
Proof.
  induction fuel as [|fuel IH]; cbn [revert_loop]; [by apply ends_ret|]. apply ends_get. intros r.
  apply ends_pre with (P := fun _ => True); [|done]. destruct (last (i_applied r)) as [a|]; [|by apply ends_ret].
  eapply ends_then; [apply ends_revert_turn_kept|]. intros [|].
  - by eapply ends_pre.
  - apply ends_ret. intros s Hs _. by apply Hs.
Qed.

Lemma ends_close_reverted_kept : ends (fun _ => True) close_reverted (fun _ => kept).
Proof.
  unfold close_reverted. do 2 (eapply ends_then; [apply ends_any|]; intros ?). apply ends_get. intros r. cbv zeta.
  apply ends_pre with (P := fun _ => True); [|done]. do 5 (eapply ends_then; [apply ends_any|]; intros ?). apply ends_persist.
Qed.

(** A revert that answers has stored the record it leaves in hand. *)
Lemma ends_revert_kept : ends (fun _ => True) revert (fun _ => kept).
Proof.
  unfold revert. apply ends_get. intros r.
  eapply ends_then with (Q := fun _ s => length (i_applied (snd s)) < S (length (i_applied r))).
  { intros s [_ <-] x _. rewrite (log_back _ s). lia. }
  intros ?. apply ends_update.
  eapply ends_then with (Q := fun all s => loop_ends all (snd s) /\ (all = Some false -> kept s)).
  { eapply ends_pre with (P := fun s => length (i_applied (snd s)) < S (length (i_applied r))); [|by intros s (r1 & Hl & ->)].
    apply ends_and; [apply ends_revert_loop|]. eapply ends_pre; [apply ends_revert_loop_kept|done]. }
  intros [[]|].
  - eapply ends_pre; [apply ends_close_reverted_kept|done].
  - apply ends_ret. intros s [_ Hk]. by apply Hk.
  - apply ends_ret. by intros s [[] _].
Qed.

(** What a revert never touches. *)
Definition same_word (s s' : pair) : Prop :=
  i_refusal (snd s') = i_refusal (snd s) /\ i_attempting (snd s') = i_attempting (snd s).

#[export] Instance same_word_preorder : PreOrder same_word.
Proof. split; [done|]. intros s1 s2 s3 [] []. split; by etrans. Qed.

Lemma same_word_with_rec {E A} (m : InstanceRecord -> ME E A) : keeps same_word (with_rec m).
Proof. intros [g r]. unfold with_rec. by destruct (m r g). Qed.

Lemma same_word_update {E} f :
  (forall r, i_refusal (f r) = i_refusal r /\ i_attempting (f r) = i_attempting r) -> keeps same_word (update (E := E) f).
Proof. intros Hf [g r]. apply Hf. Qed.

Lemma same_word_step ev : keeps same_word (step ev).
Proof.
  intros [g r]. rewrite step_eq. destruct (transition _ _ _) as [st| | |]; [|done..]. unfold mthen, persist, with_rec.
  by destruct (persist_of _ _) as [g' [[]|e]].
Qed.
End Boot.

#[export] Hint Resolve same_word_step : keeps.
#[export] Hint Extern 1 (keeps same_word (with_rec _)) => (apply same_word_with_rec) : keeps.
#[export] Hint Extern 1 (keeps same_word (update _)) => (apply same_word_update; intros ?; repeat case_match; split; done) : keeps.

Section Halt.
Context `{Outside}.

Notation pair := (Engine * InstanceRecord)%type.

Lemma same_word_revert_turn a : keeps same_word (revert_turn a).
Proof. unfold revert_turn, log, persist, on_engine, get_rec. keeps. Qed.
#[local] Hint Resolve same_word_revert_turn : keeps.

Lemma same_word_revert_loop fuel : keeps same_word (revert_loop fuel).
Proof. induction fuel; cbn [revert_loop]; unfold get_rec; keeps. Qed.
#[local] Hint Resolve same_word_revert_loop : keeps.

Lemma same_word_revert : keeps same_word revert.
Proof.
  unfold revert, close_reverted, drop_secrets, release, remove_dirs, backstop_disarm, refusable, log, persist, on_engine, get_rec. keeps.
Qed.

Lemma calms_revert_turn a : keeps calms (revert_turn a).
Proof. unfold revert_turn. keeps. Qed.
#[local] Hint Resolve calms_revert_turn : keeps.

Lemma calms_revert_loop fuel : keeps calms (revert_loop fuel).
Proof. induction fuel; cbn [revert_loop]; keeps. Qed.
#[local] Hint Resolve calms_revert_loop : keeps.

Lemma calms_revert : keeps calms revert.
Proof. unfold revert, close_reverted. keeps. Qed.
#[local] Hint Resolve calms_revert : keeps.

Lemma calms_reestablish_step acc a : keeps calms (reestablish_step acc a).
Proof. unfold reestablish_step. keeps. Qed.
#[local] Hint Resolve calms_reestablish_step : keeps.

Lemma ends_calms {A} (m : M EngineError A) : keeps calms m -> ends calm m (fun _ => calm).
Proof. intros Hm s Hs x _. by apply Hm. Qed.

(** ** The step in flight *)

(** What boot makes of it. *)
Definition recovered (g : Engine) (r : InstanceRecord) (a : AppliedStep) (s' : pair) (said : list (string * N)) : Prop :=
  i_attempting (snd s') = None /\
  ((i_applied (snd s') = i_applied r ++ [a] /\ said = [(i_id r, as_step a)])
   \/ (i_applied (snd s') = i_applied r /\ said = []
       /\ (is_applied r (as_step a) (as_iteration a) (as_vars a) = true
           \/ (i_attempting_pre r <> []
               /\ exists o h g1, op_at r (as_step a) = Some o /\ step_host g r o = Ok h
                    /\ reads_again (set_attempting_pre [] (set_attempting None r)) h g (i_attempting_pre r) g1
                    /\ as_recorded r a (set_attempting_pre [] (set_attempting None r)) h
                    /\ exists e, e ∈ st_chain (g_store (fst s')) /\ en_instance e = i_id r
                                 /\ en_event e = JUndoSkipped (as_step a) died_inside)))).

Lemma all_untouched_reads r h pre : forall g g', all_untouched r h pre g = (g', Ok true) -> reads_again r h g pre g'.
Proof.
  induction pre as [|[shape was] pre IH]; intros g g'; cbn [all_untouched]; [intros [= <-]; constructor|].
  unfold mthen, attempt. destruct (fact_bytes r h shape g) as [g1 [b|e]] eqn:Hb; [|done].
  case_bool_decide as Hd; [|done]. intros Hu. econstructor; [exact Hb|exact Hd|]. by apply IH.
Qed.

Lemma reads_again_each r h g pre g' shape was :
  reads_again r h g pre g' -> (shape, was) ∈ pre -> exists g2 g3 b, fact_bytes r h shape g2 = (g3, Ok b) /\ digest b = was.
Proof.
  induction 1 as [|g g1 g2 shape' was' b rest Hb Hd _ IH]; intros Hin; [by apply elem_of_nil in Hin|].
  apply elem_of_cons in Hin as [[= -> ->]|Hin]; [by exists g, g1, b|by apply IH].
Qed.

(** What is recorded of the facts a loop of readings goes through: each was read. *)
Definition each_read (r0 : InstanceRecord) (h : EHost) (g0 : Engine) (pre : Watched) : Prop :=
  forall shape was, bm_get shape pre = Some was -> exists b, read_before r0 h g0 shape b /\ digest b = was.

(** What a loop of readings answers after the facts named: they were read, each of them. *)
Definition taken (r0 : InstanceRecord) (h0 : EHost) (g0 : Engine) (shapes : list string) (res : Result Watched string) : Prop :=
  match res with
  | Ok pre => each_read r0 h0 g0 pre /\ Forall (fun shape => is_Some (bm_get shape pre)) shapes
  | Err _ => True
  end.

(** No body ran, and the instance is the same. *)
Definition onward (r0 : InstanceRecord) (g0 : Engine) (s : pair) : Prop := core (snd s) = core r0 /\ g_acts (fst s) = g_acts g0.

Lemma quiet_onward {A} (m : M EngineError A) r0 g0 : keeps quiet m -> ends (onward r0 g0) m (fun _ => onward r0 g0).
Proof. intros Hm s [Hc Ha] x _. specialize (Hm s) as [Q1 Q2 _ _ _ _]. split; congruence. Qed.

Lemma taken_insert r0 h0 g0 pre shapes shape b :
  taken r0 h0 g0 shapes (Ok pre) -> read_before r0 h0 g0 shape b ->
  taken r0 h0 g0 (shape :: shapes) (Ok (bm_insert shape (digest b) pre)).
Proof.
  intros [Hr Hf] Hb. split.
  - intros shape' was Hg. destruct (decide (shape = shape')) as [<-|Hn].
    + rewrite bm_get_insert in Hg. injection Hg as <-. by exists b.
    + rewrite bm_get_insert_ne in Hg by done. by apply Hr.
  - constructor; [by rewrite bm_get_insert|]. eapply Forall_impl; [exact Hf|]. intros shape' Hs.
    destruct (decide (shape = shape')) as [<-|Hn]; [by rewrite bm_get_insert|by rewrite bm_get_insert_ne].
Qed.

Lemma snapshot_fact_reads r0 h0 g0 a pre shapes k e p :
  taken r0 h0 g0 shapes (Ok pre) ->
  ends (onward r0 g0) (snapshot_fact a h0 pre (k, e, p)) (fun res _ => taken r0 h0 g0 (fp_shape e :: shapes) res).
Proof.
  intros Hpre. unfold snapshot_fact. apply ends_get. intros r.
  eapply ends_then with (Q := fun (res : Result (option string) string) _ =>
    match res with Ok b => read_before r0 h0 g0 (fp_shape e) b | Err _ => True end).
  { intros [g x] [[Hc Ha] Hr] res Hx. cbn [fst snd] in *. subst x. unfold refusable, on_engine, attempt, with_rec in Hx.
    destruct (fact_bytes r h0 (fp_shape e) g) as [g3 [b|why]] eqn:Hb; cbn in Hx; injection Hx as <-; [|done]. by exists r, g, g3. }
  intros [b|why]; [|by apply ends_ret].
  assert (Hdone : ends (fun _ => read_before r0 h0 g0 (fp_shape e) b) (mret (Ok (bm_insert (fp_shape e) (digest b) pre)))
                    (fun res _ => taken r0 h0 g0 (fp_shape e :: shapes) res)).
  { apply ends_ret. intros _ Hb. by apply taken_insert. }
  assert (Hk : forall (A : Type) (m : M EngineError A) P, ends (fun _ => P) m (fun _ _ => P)) by (intros A m P s Hs x _; exact Hs).
  cbv zeta. destruct (fp_kind e), b as [b|]; try exact Hdone.
  all: destruct (SNAPSHOT_CAP <? _)%N; [intros s Hs x Hx; by cbn in Hx|].
  all: do 3 (eapply ends_then; [apply Hk|]; intros ?); exact Hdone.
Qed.

Lemma snapshot_facts_read r0 h0 g0 a fs : forall pre shapes,
  taken r0 h0 g0 shapes (Ok pre) ->
  ends (onward r0 g0) (snapshot_facts a h0 pre fs)
    (fun res _ => taken r0 h0 g0 (rev (map (fun f => fp_shape (snd (fst f))) fs) ++ shapes) res).
Proof.
  induction fs as [|[[k e] p] fs IH]; intros pre shapes Hpre; cbn [snapshot_facts]; [by apply ends_ret|].
  eapply ends_then with (Q := fun res s => onward r0 g0 s /\ taken r0 h0 g0 (fp_shape e :: shapes) res).
  { apply ends_and; [apply quiet_onward, quiet_snapshot_fact|by apply snapshot_fact_reads]. }
  intros [pre'|why]; [|by apply ends_ret].
  intros s [Ho Ht] x Hx. cbn [map rev fst snd]. rewrite <- app_assoc. by apply (IH pre' (fp_shape e :: shapes) Ht s Ho x).
Qed.

(** What the snapshot of a step records: each of its facts that can be observed, as it was
    read before any body ran. *)
Lemma snapshot_reads g0 r0 a o h0 s pre :
  snapshot a o h0 (g0, r0) = (s, Ok (Ok pre)) -> pre <> [] ->
  taken r0 h0 g0 (rev (map (fun f => fp_shape (snd (fst f))) (observed_facts (op_footprint o)))) (Ok pre).
Proof.
  unfold snapshot. unfold mthen at 1. cbn [on_engine with_rec ask]. destruct (executor_for g0 h0) as [x|].
  2: { unfold mthen. destruct (persist (g0, r0)) as [s1 [[]|e]]; [|done]. by intros [= _ <-]. }
  intros Hs _. unfold mthen at 1 in Hs.
  assert (H0 : taken r0 h0 g0 [] (Ok [])) by (split; [intros shape was Hn; discriminate Hn|constructor]).
  pose proof (snapshot_facts_read r0 h0 g0 a (observed_facts (op_footprint o)) [] [] H0 (g0, r0) (conj eq_refl eq_refl)) as Hf.
  destruct (snapshot_facts a h0 [] _ (g0, r0)) as [s1 [[pre1|why]|e]]; cbn [fst snd] in Hf; [|by cbn in Hs|done].
  unfold mthen in Hs. destruct s1 as [g1 r1]. cbn [update mret] in Hs.
  match type of Hs with context [persist ?z] => destruct (persist z) as [s2 [[]|e]] end; [|done].
  injection Hs as _ <-. specialize (Hf _ eq_refl). by rewrite app_nil_r in Hf.
Qed.

Lemma bm_get_member {A} k (v : A) m : bm_get k m = Some v -> (k, v) ∈ m.
Proof.
  unfold bm_get. intros Hf. destruct (List.find _ m) as [[k' v']|] eqn:Hx; [|done]. cbn in Hf. injection Hf as ->.
  apply List.find_some in Hx as [Hin Hk]. apply bool_decide_eq_true in Hk. cbn in Hk. subst k'. by apply list_elem_of_In.
Qed.

Lemma reads_as_recorded r a cleared h g g' :
  i_attempting_pre r <> [] -> reads_again cleared h g (i_attempting_pre r) g' -> as_recorded r a cleared h.
Proof.
  intros Hn Hr g0 r0 g1 o1 h1 Hs k e p Hin. apply snapshot_reads in Hs as [Hread Hall]; [|done].
  rewrite Forall_forall in Hall. destruct (Hall (fp_shape e)) as [was Hw].
  { apply list_elem_of_In, in_rev. rewrite rev_involutive. apply list_elem_of_In, elem_of_map. by exists (k, e, p). }
  destruct (Hread _ _ Hw) as (b & Hb & Hd). apply bm_get_member in Hw.
  destruct (reads_again_each _ _ _ _ _ _ _ Hr Hw) as (g2 & g3 & b' & Hb' & Hd'). exists b, b', g2, g3. split; [done|]. split; [done|congruence].
Qed.

Lemma concrete_op_host g r o o' h env : concrete_op o h env = Ok o' -> step_host g r o' = step_host g r o.
Proof.
  unfold concrete_op. destruct (collect_results _ _) as [fp|u]; [|done]. cbn [rbind].
  destruct (match op_undo o with Computed _ _ => _ | _ => _ end) as [u|u]; [|done]. by intros [= <-].
Qed.

Lemma never_took_true r a pre g g' :
  never_took r a pre g = (g', Ok true) ->
  pre <> [] /\ exists o h, op_at r (as_step a) = Some o /\ step_host g r o = Ok h /\ reads_again r h g pre g'.
Proof.
  unfold never_took. unfold mthen at 1, ask. destruct (op_at r (as_step a)) as [o|] eqn:Ho; cbn [mbind option_bind]; [|done].
  destruct (step_host g r o) as [h|e] eqn:Hh; [|done]. destruct (concrete_op o h _) as [o'|u] eqn:Hc; [|done].
  destruct pre as [|p pre]; [done|]. intros Hu. split; [done|]. exists o, h. split; [done|]. split; [done|].
  unfold untouched in Hu. unfold mthen at 1, ask in Hu. rewrite (concrete_op_host _ _ _ _ _ _ Hc), Hh in Hu.
  by apply all_untouched_reads.
Qed.

Lemma recover_attempt_recovers g r a s' said :
  i_attempting r = Some a -> recover_attempt (g, r) = (s', Ok said) -> recovered g r a s' said.
Proof.
  intros Ha. unfold recover_attempt, recovered. unfold mthen at 1. cbn [get_rec with_rec mret]. rewrite Ha. cbv zeta.
  unfold mthen at 1. cbn [update mret]. unfold mthen at 1. cbn [get_rec with_rec mret].
  set (r1 := set_attempting_pre [] (set_attempting None r)).
  change (is_applied r1 (as_step a) (as_iteration a) (as_vars a)) with (is_applied r (as_step a) (as_iteration a) (as_vars a)).
  destruct (is_applied r _ _ _) eqn:Hap; [by intros [= <- <-]; split; [|right; auto]|].
  unfold mthen at 1, on_engine, with_rec. destruct (never_took r1 a (i_attempting_pre r) g) as [g1 [never|e]] eqn:Hn; [|done].
  destruct never; [|by intros [= <- <-]; split; [|left]].
  apply never_took_true in Hn as (Hpre & o & h & Ho & Hh & Hu). unfold mthen at 1, log, with_rec.
  destruct (log_for r1 _ g1) as [g2 [[]|e]] eqn:Hl; [|done]. intros [= <- <-]. cbn [snd fst].
  split; [done|]. right. split; [done|]. split; [done|]. right. split; [done|]. exists o, h, g1.
  split; [done|]. split; [done|]. split; [done|]. split; [by eapply reads_as_recorded|]. by apply log_announces in Hl.
Qed.

Lemma recover_attempt_keeps :
  keeps (fun s s' : pair => i_state (snd s') = i_state (snd s) /\ i_plan (snd s') = i_plan (snd s)) recover_attempt.
Proof.
  set (R := fun s s' : pair => i_state (snd s') = i_state (snd s) /\ i_plan (snd s') = i_plan (snd s)).
  assert (Hpre : PreOrder R) by (split; [done|]; intros s1 s2 s3 [] []; split; congruence).
  assert (Hw : forall E A (m : InstanceRecord -> ME E A), keeps R (with_rec m)) by (intros E A m [g r]; unfold with_rec; by destruct (m r g)).
  assert (Hu : forall E f, (forall r, i_state (f r) = i_state r /\ i_plan (f r) = i_plan r) -> keeps R (update (E := E) f))
    by (intros E f Hf [g r]; apply Hf).
  unfold recover_attempt, log, on_engine, get_rec. keeps; apply Hu; done.
Qed.

(** A revert that answers, from a record that is refused and has no step in flight. *)
Lemma ends_revert_halted before l :
  ends (fun s => i_refusal (snd s) = Some restarted /\ i_attempting (snd s) = None /\ i_applied (snd s) = l
                 /\ with_flight before l /\ ~ asks_to_hold before l)
    revert (fun _ s => kept s /\ halted before (snd s)).
Proof.
  intros [g r] (Hw & Ha & Hl & Hf & Hh) [] Hx. pose proof (same_word_revert (g, r)) as [W1 W2].
  pose proof (unwound_revert (g, r)) as (undone & _ & Hu & _ & _). pose proof (ends_revert (g, r) I tt Hx) as He.
  split; [exact (ends_revert_kept (g, r) I tt Hx)|]. cbn [fst snd] in *. split; [congruence|]. split; [congruence|].
  exists l. split; [done|]. right. split; [done|]. destruct He as [Hc|(a & Hla & Hb)]; [by left|right].
  apply last_app_inv in Hla as [done_ Hd]. exists done_, a, undone. split; [done|]. split; [congruence|exact Hb].
Qed.

(** What the record is once the step in flight is settled. *)
Record settled (before r : InstanceRecord) : Prop := mkSettled {
  settled_flight : i_attempting r = None;
  settled_plan : i_plan r = i_plan before;
  settled_state : i_state r = i_state before;
  settled_applied : with_flight before (i_applied r);
}.

Lemma asks_to_hold_ctx before r :
  i_plan r = i_plan before -> ctx_earlier_hold (i_ctx r) = true <-> asks_to_hold before (i_applied r).
Proof.
  intros Hp. unfold asks_to_hold, op_at. cbn [i_ctx ctx_earlier_hold]. rewrite existsb_exists. unfold op_at. rewrite Hp. split.
  - intros (a & Hin & Hh). apply list_elem_of_In in Hin. destruct (_ ≫= op_of) as [o|] eqn:Ho; [|done]. by exists a, o.
  - intros (a & o & Hin & Ho & Hh). exists a. split; [by apply list_elem_of_In|]. by rewrite Ho.
Qed.

Lemma ends_recover_attempt r : ends (fun s => snd s = r) recover_attempt (fun _ s => settled r (snd s)).
Proof.
  intros [g r0] Hr said Hx. cbn [snd] in Hr. subst r0. pose proof (recover_attempt_keeps (g, r)) as [Hs Hp].
  destruct (recover_attempt (g, r)) as [[g' r'] res] eqn:Hrec. cbn [fst snd] in *. subst res.
  destruct (i_attempting r) as [a|] eqn:Ha.
  - apply recover_attempt_recovers with (a := a) in Hrec as [Hn Happ]; [|done]. cbn [snd] in *. split; [done..|].
    unfold with_flight. rewrite Ha. destruct Happ as [[-> _]|(-> & _ & Hf)]; [by left|right]. split; [done|].
    destruct Hf as [Hf|(Hpre & o & h & g1 & _ & _ & Hr & Hrec & _)]; [by left|right]. split; [done|]. by exists h, g, g1.
  - unfold recover_attempt in Hrec. unfold mthen in Hrec. cbn [get_rec with_rec mret] in Hrec. rewrite Ha in Hrec.
    injection Hrec as _ <- _. split; [done..|]. unfold with_flight. by rewrite Ha.
Qed.

(** An applying instance is demoted: refused, then held, or undone. *)
Lemma ends_demote r :
  i_state r = SApplying -> ends (fun s => snd s = r) demote (fun _ s => kept s /\ halted r (snd s)).
Proof.
  intros Hst. unfold demote. eapply ends_then; [apply ends_recover_attempt|]. intros said. apply ends_update.
  set (P x := settled r (set_state SApplying x) /\ i_refusal x = Some restarted).
  set (hold x := if i_state x == SHeld then asks_to_hold r (i_applied x) else ~ asks_to_hold r (i_applied x)).
  eapply ends_then with (Q := fun _ s => P (snd s) /\ hold (snd s)).
  { intros [g x] (x0 & Hx0 & Hx) y Hy. cbn [fst snd] in *. subst x. destruct Hx0 as [F1 F2 F3 F4]. rewrite Hst in F3.
    assert (Hc := asks_to_hold_ctx r x0 F2).
    assert (Ht : transition (i_ctx (set_refusal (Some restarted) x0)) (i_state (set_refusal (Some restarted) x0)) EvRefuse
                 = To (if ctx_earlier_hold (i_ctx x0) then SHeld else SReverting)).
    { change (i_state (set_refusal _ x0)) with (i_state x0). rewrite F3. change (ctx_earlier_hold (i_ctx x0)) with (ctx_earlier_hold (i_ctx (set_refusal (Some restarted) x0))).
      unfold transition. destruct (i_ctx (set_refusal (Some restarted) x0)) as [[] m [] l]; reflexivity. }
    destruct (step_to_spec _ g _ _ Ht) as [_ Hok]. destruct (Hok y Hy) as [-> _].
    split; [by repeat split|]. unfold hold. cbn [set_state i_state i_applied set_refusal].
    destruct (ctx_earlier_hold (i_ctx x0)); [by apply Hc|]. intros Ha. by apply Hc in Ha. }
  intros moved. apply ends_get. intros x. eapply ends_then with (Q := fun _ s => kept s /\ halted r (snd s)).
  2: { intros ?. by apply ends_ret. }
  case_bool_decide as Hs.
  - apply ends_update. eapply ends_pre with (P := fun s => halted r (snd s)).
    + apply ends_get. intros x1. eapply ends_pre with (P := fun s => halted r (snd s)); [|by intros s [Hh _]].
      apply ends_handing_back with (P := halted r); [apply log_back|]. intros ?. apply ends_and; [apply ends_persist|].
      intros s Hh y _. by rewrite (persist_back s).
    + intros s (x1 & [[[[F1 F2 F3 F4] Hr] Hh] He] & ->). cbn [snd] in *. subst x1. unfold hold in Hh.
      rewrite bool_decide_true in Hh by done. split; [done|]. split; [done|]. exists (i_applied x). split; [done|]. by left.
  - eapply ends_pre; [apply (ends_revert_halted r (i_applied x))|]. intros s [[[[F1 F2 F3 F4] Hr] Hh] He].
    subst x. unfold hold in Hh. rewrite bool_decide_false in Hh by done. done.
Qed.

(** One instance at boot. *)
Definition booted (r : InstanceRecord) (s : pair) : Prop := calm s /\ (i_state r = SApplying -> kept s /\ halted r (snd s)).

Lemma ends_boot_record r : ends (fun s => kept s /\ snd s = r) boot_record (fun _ => booted r).
Proof.
  unfold boot_record. apply ends_get. intros r0. case_bool_decide as Hs.
  - intros s [[Hk Hr] Hr0] x Hx. subst r0. rewrite Hr in Hs. destruct (ends_demote r Hs s Hr x Hx) as [Hk' Hh].
    split; [|done]. by eapply kept_calm, halted_not_applying.
  - apply ends_pre with (P := fun s => calm s /\ i_state r <> SApplying).
    2: { intros s [[Hk Hr] Hr0]. subst r0. split; [by apply kept_calm|congruence]. }
    assert (Hc : forall (A : Type) (m : M EngineError A), ends calm m (fun _ => calm) ->
                   ends (fun s => calm s /\ i_state r <> SApplying) m (fun _ => booted r)).
    { intros A m Hm s [H1 H2] x Hx. split; [by eapply Hm|done]. }
    destruct (terminal _); [apply Hc; by apply ends_ret|]. apply Hc, ends_calms. keeps.
Qed.

(** ** The pass *)

Definition boot_body (acc : Recovered) (r : InstanceRecord) : ME EngineError Recovered :=
  let! out := with_record r boot_record in mret (recovered_and acc (fst out)).

(** A record as boot leaves what it stores of it. *)
Definition rested (r x : InstanceRecord) : Prop := not_applying x /\ (i_state r = SApplying -> halted r x).

Definition rests (r : InstanceRecord) (g : Engine) : Prop :=
  (forall x, stored g (i_id r) = Some x -> rested r x)
  /\ (i_state r = SApplying -> exists x, stored g (i_id r) = Some x /\ halted r x).

Lemma boot_body_rests acc r g g' y :
  stored g (i_id r) = Some r -> boot_body acc r g = (g', Ok y) -> rests r g'.
Proof.
  intros Hr. unfold boot_body, with_record, mthen. pose proof (ends_boot_record r (g, r) (conj Hr eq_refl)) as He.
  pose proof (drives_id _ _ (drives_boot_record (g, r))) as Hid.
  destruct (boot_record (g, r)) as [[g1 r1] [z|e]]; cbn [fst snd] in *; [|done]. intros [= <- _].
  destruct (He z eq_refl) as [[_ Hc] Hh]. cbn [fst snd] in *. unfold rests. rewrite <- Hid. split.
  - intros x Hx. split; [by apply Hc|]. intros Hs. destruct (Hh Hs) as [Hk Hl]. unfold kept in Hk. cbn [fst snd] in Hk. congruence.
  - intros Hs. destruct (Hh Hs) as [Hk Hl]. by exists r1.
Qed.

Lemma rests_same r g g' : stored g' (i_id r) = stored g (i_id r) -> rests r g -> rests r g'.
Proof. unfold rests. by intros ->. Qed.

Lemma boot_pass_rests rs : forall acc g g' y,
  filed g -> NoDup (map i_id rs) -> Forall (fun r => stored g (i_id r) = Some r) rs ->
  fold_each boot_body acc rs g = (g', Ok y) ->
  (forall id, id ∉ map i_id rs -> stored g' id = stored g id) /\ Forall (fun r => rests r g') rs.
Proof.
  induction rs as [|r rs IH]; intros acc g g' y Hg Hnd Hst; cbn [fold_each].
  { intros [= <- _]. by split; [|constructor]. }
  cbn [map] in *. apply NoDup_cons in Hnd as [Hnotin Hnd]. apply Forall_cons in Hst as [Hr Hst]. unfold mthen at 1.
  pose proof (lives_at_boot_body acc r g Hr Hg) as Hl. destruct (boot_body acc r g) as [g1 [z|e]] eqn:Hb; [|done].
  change (fst ((let! out := with_record r boot_record in mret (recovered_and acc (fst out))) g)) with (fst (boot_body acc r g)) in Hl.
  rewrite Hb in Hl. cbn [fst] in Hl. destruct Hl as (Hg1 & Ho & _).
  assert (Hst1 : Forall (fun r => stored g1 (i_id r) = Some r) rs).
  { apply Forall_forall. intros x Hx. rewrite Forall_forall in Hst. rewrite Ho; [by apply Hst|].
    intros Heq. apply Hnotin. rewrite <- Heq. apply elem_of_map. by exists x. }
  intros Hf. destruct (IH z g1 g' y Hg1 Hnd Hst1 Hf) as [Hout Hin]. split.
  - intros id Hn. apply not_elem_of_cons in Hn as [Hn1 Hn2]. rewrite Hout by done. by apply Ho.
  - constructor; [|done]. eapply rests_same; [by apply Hout|]. by eapply boot_body_rests.
Qed.

(** Every record of the store is read. *)
Lemma read_all_complete ids : forall v g g' rs,
  fold_each (fun v id => let! r := map_err ErrStore (read_instance id) in
                         mret match r with Some x => v ++ [x] | None => v end) v ids g = (g', Ok rs) ->
  (forall x, x ∈ v -> x ∈ rs) /\ forall id x, id ∈ ids -> stored g id = Some x -> x ∈ rs.
Proof.
  induction ids as [|id ids IH]; intros v g g' rs; cbn [fold_each].
  - intros [= <- <-]. split; [done|]. intros id x Hin. by apply elem_of_nil in Hin.
  - unfold mthen at 1, map_err at 1. unfold mthen at 1. destruct (read_instance id g) as [g1 [found|e]] eqn:Hr; [|done].
    apply read_instance_spec in Hr as [Hs ->]. cbn [mret]. intros Hf. apply IH in Hf as [Hv Hids].
    assert (Hsame : forall id', stored g1 id' = stored g id') by (intros; unfold stored; by rewrite Hs).
    split.
    + intros x Hx. apply Hv. destruct (stored g id); [set_solver|done].
    + intros id' x Hin Hx. apply elem_of_cons in Hin as [->|Hin]; [apply Hv; rewrite Hx; set_solver|].
      apply (Hids id'); [done|]. by rewrite Hsame.
Qed.

Lemma bm_get_key {A} k (v : A) m : bm_get k m = Some v -> k ∈ map fst m.
Proof.
  unfold bm_get. intros Hf. destruct (List.find _ m) as [[k' v']|] eqn:Hx; [|done].
  apply List.find_some in Hx as [Hin Hk]. apply bool_decide_eq_true in Hk. cbn in Hk. subst k'.
  apply elem_of_map. exists (k, v'). split; [done|]. by apply list_elem_of_In.
Qed.

Lemma instances_complete g g' rs id x :
  instances g = (g', Ok rs) -> stored g id = Some x -> x ∈ rs.
Proof.
  unfold instances. unfold mthen at 1, outside. destruct (disk_read (g_world g)) as [w [[]|e]]; [|done].
  unfold mthen, map_err at 1, lift, ask. cbn. intros Hf Hx. apply read_all_complete in Hf as [_ Hids].
  apply (Hids id); [|exact Hx]. rewrite sort_strings_perm. unfold stored in Hx. by eapply bm_get_key.
Qed.

Lemma still_then {A B} (m : ME EngineError A) (k : A -> ME EngineError B) g g' y :
  keeps still m -> mthen m k g = (g', Ok y) -> exists x g1, still g g1 /\ m g = (g1, Ok x) /\ k x g1 = (g', Ok y).
Proof.
  intros Hm. specialize (Hm g). unfold mthen. destruct (m g) as [g1 [x|e]]; [|done]. intros Hk. by exists x, g1.
Qed.

Lemma boot_rests g g' rep :
  filed g -> boot g = (g', Ok rep) ->
  forall id, match stored g id with Some r => rests r g' | None => stored g' id = None end.
Proof.
  intros Hg. unfold boot. intros Hb id.
  apply still_then in Hb as (y1 & g1 & S1 & _ & Hb); [|keeps]. apply still_then in Hb as (y2 & g2 & S2 & _ & Hb); [|keeps].
  apply still_then in Hb as (rs & g3 & S3 & Hi & Hb); [|keeps].
  assert (Hs2 : forall i, stored g2 i = stored g i) by (intros i; destruct S1 as [S1 _ _], S2 as [S2 _ _]; unfold stored; congruence).
  assert (Hg2 : filed g2) by (destruct S1 as [S1 _ _], S2 as [S2 _ _]; eapply filed_same, filed_same, Hg; eassumption).
  pose proof (instances_spec _ _ _ Hg2 Hi) as (Hsame & Hnd & Hst).
  unfold mthen at 1 in Hb. change (fold_each _ recovered_nothing rs g3) with (fold_each boot_body recovered_nothing rs g3) in Hb.
  destruct (fold_each boot_body recovered_nothing rs g3) as [g4 [said|e]] eqn:Hf; [|done].
  apply boot_pass_rests in Hf as [Hout Hin]; [|by eapply filed_same|done|done].
  match type of Hb with ?m g4 = _ => assert (Hk : keeps still m) by keeps end.
  specialize (Hk g4). rewrite Hb in Hk. destruct Hk as [Hk _ _]. cbn [fst] in Hk.
  assert (Hs4 : forall i, stored g' i = stored g4 i) by (intros i; unfold stored; by rewrite Hk).
  assert (Hs3 : forall i, stored g3 i = stored g i) by (intros i; rewrite <- Hs2; unfold stored; by rewrite Hsame).
  rewrite <- Hs2. destruct (stored g2 id) as [r|] eqn:Hr.
  - pose proof (instances_complete _ _ _ _ _ Hi Hr) as Hx. eapply rests_same; [apply Hs4|].
    rewrite Forall_forall in Hin. by apply Hin.
  - rewrite Hs4, Hout, Hs3, <- Hs2; [done|]. intros Hm. apply elem_of_map in Hm as (x & He & Hx).
    rewrite Forall_forall in Hst. specialize (Hst x Hx). rewrite Hs3, <- Hs2, <- He in Hst. congruence.
Qed.

End Halt.

(** ** Properties *)

(** C14. However it ends, the revert of an instance takes steps off the end of its applied
    ones, and what it runs on hosts are undos: at most one for each step taken off, in the
    order last to first, and at most one more, for the step that is then last and stopped
    it. *)
Theorem undo_is_last_in_first_out `{Outside} g r g' r' res :
  revert (g, r) = ((g', r'), res) ->
  exists undone news,
    i_applied r = i_applied r' ++ undone
    /\ g_acts g' = g_acts g ++ news
    /\ map act_purpose news `sublist_of` map ForUndo (take (S (length undone)) (rev (i_applied r))).
Proof. intros Hr. pose proof (unwound_revert (g, r)) as Hu. by rewrite Hr in Hu. Qed.

(** C15. The turns the revert gives its loop are enough: with more turns than applied steps
    the loop never runs out of them, and more of them change nothing, whatever the hosts and
    the disk answer. *)
Theorem revert_fuel_enough `{Outside} fuel s :
  length (i_applied (snd s)) < fuel ->
  snd (revert_loop fuel s) <> Ok None /\ revert_loop fuel s = revert_loop (S (length (i_applied (snd s)))) s.
Proof.
  intros Hf. split; [|apply revert_loop_fuel; [done|lia]].
  intros Hn. exact (ends_revert_loop fuel s Hf None Hn).
Qed.


(** An undo that is held for drift ran nothing on any host and wrote no record: every
    fact of the step is judged before its undo begins. *)
Theorem drift_held_ran_nothing `{Outside} r a o g g' rep :
  undo_step r a o g = (g', Ok rep) -> ur_held rep <> [] ->
  g_acts g' = g_acts g /\ st_instances (g_store g') = st_instances (g_store g).
Proof.
  intros Hu Hn. split; [by apply (holds_off_undo_step r a o g g' rep)|].
  pose proof (same_undo_step r a o g) as Hs. by rewrite Hu in Hs.
Qed.



(** ** Witnesses *)

Definition demo_applied : Engine := perform (CallApply demo_two_files ∅ demo_options) demo_engine.

(** The record of the applied instance, recanted: its undo is about to begin. *)
Definition demo_record : InstanceRecord :=
  set_state SReverting (default (blank_record EmptyString demo_two_files ∅ demo_options) (stored demo_applied demo_id)).

Definition demo_last_step : AppliedStep := mkApplied 2 0 ∅.

Definition demo_last_op : Op := default (op_new "b" []) (op_at demo_record 2).

(** The file of the last step was edited on its host since. *)
Definition demo_edited : Engine :=
  set_world (mkFakeWorld 1000 (map (fun f => set_facts (<["file:/etc/b" := "edited"]> (fe_facts f)) f)
                                 (fw_executors (g_world demo_applied)))
               [fake_scheduler_new] (mkFakeApproval [] false ∅ []) []) demo_applied.

(** The engine died while the last step ran: what was on disk then, and the hosts as they
    became. *)
Definition demo_crashed : Engine := set_store (act_store (demo_act 1)) demo_applied.

Lemma undo_is_last_in_first_out_witness :
  exists news, map act_purpose news = [ForUndo demo_last_step; ForUndo (mkApplied 1 0 ∅)]
  /\ g_acts (fst (fst (revert (demo_applied, demo_record)))) = g_acts demo_applied ++ news
  /\ map act_purpose news `sublist_of` map ForUndo (rev (i_applied demo_record)).
Proof.
  destruct (undo_is_last_in_first_out demo_applied demo_record (fst (fst (revert (demo_applied, demo_record))))
    (snd (fst (revert (demo_applied, demo_record)))) (snd (revert (demo_applied, demo_record)))) as (undone & news & Hu & Ha & Hs).
  { destruct (revert (demo_applied, demo_record)) as [[g' r'] res]. reflexivity. }
  assert (Hnil : i_applied (snd (fst (revert (demo_applied, demo_record)))) = []) by (vm_compute; reflexivity).
  rewrite Hnil in Hu. cbn [app] in Hu. subst undone.
  assert (Hlen : S (length (i_applied demo_record)) = 3) by (vm_compute; reflexivity). rewrite Hlen in Hs.
  exists news. split; [|split; [exact Ha|]].
  - apply (f_equal (fun l => map act_purpose (drop (length (g_acts demo_applied)) l))) in Ha.
    rewrite drop_app_length in Ha. rewrite <- Ha. vm_compute. reflexivity.
  - rewrite take_ge in Hs; [exact Hs|]. vm_compute. repeat constructor.
Defined.

Lemma revert_fuel_enough_witness :
  length (i_applied demo_record) < 10 /\ snd (revert_loop 10 (demo_applied, demo_record)) = Ok (Some true)
  /\ revert_loop 10 (demo_applied, demo_record) = revert_loop 3 (demo_applied, demo_record).
Proof.
  assert (Hl : length (i_applied demo_record) = 2) by (vm_compute; reflexivity).
  assert (Hf : length (i_applied demo_record) < 10) by lia.
  split; [exact Hf|]. split; [vm_compute; reflexivity|].
  pose proof (proj2 (revert_fuel_enough 10 (demo_applied, demo_record) Hf)) as He. cbn [snd] in He. rewrite Hl in He. exact He.
Defined.


Lemma drift_held_ran_nothing_witness :
  exists g' rep, undo_step demo_record demo_last_step demo_last_op demo_edited = (g', Ok rep)
  /\ ur_held rep = ["file:/etc/b"] /\ g_acts g' = g_acts demo_edited.
Proof.
  destruct (undo_step demo_record demo_last_step demo_last_op demo_edited) as [g' res] eqn:Hu.
  assert (Hres : snd (undo_step demo_record demo_last_step demo_last_op demo_edited) = Ok (mkUndoReport [] ["file:/etc/b"]))
    by (vm_compute; reflexivity).
  rewrite Hu in Hres. cbn [snd] in Hres. subst res. exists g', (mkUndoReport [] ["file:/etc/b"]).
  split; [reflexivity|]. split; [reflexivity|].
  apply (drift_held_ran_nothing demo_record demo_last_step demo_last_op demo_edited g' _ Hu). discriminate.
Defined.


Lemma filed_single `{Outside} (g : Engine) :
  (match st_instances (g_store g) with [(k, r)] => bool_decide (i_id r = k) | _ => false end) = true -> filed g.
Proof.
  intros Hk. split; unfold stored, bm_sorted; destruct (st_instances (g_store g)) as [|[k r] []]; try discriminate.
  - intros id x. unfold bm_get. cbn. apply bool_decide_eq_true in Hk. case_bool_decide; [|done]. intros [= <-]. congruence.
  - repeat constructor.
Qed.

Lemma demo_crashed_filed : filed demo_crashed.
Proof. apply filed_single. vm_compute. reflexivity. Qed.


(** ** What the engine does and was not meant to

    Two runs of the modelled engine on the in-memory bindings: a plan refused by the ledger
    leaves its name taken for good, and boot runs the reestablish body of a rehearsal on a
    host. *)

(** Another plan that writes a file of the first. *)
Definition demo_rival : PlanIr :=
  mkPlanIr 1 "carol" demo_engine_site
    (mkPlan "other" "web1" None (Some 3600%N) None None false Strict Manual None None [demo_write "a" "/etc/a" "A"] []).

Definition demo_rival_id : string := "other.web1.00000000".

(** The rival was refused while the first plan's instance was applied; then that one is
    undone and closed. *)
Definition demo_after_refusal : Engine :=
  performs [CallApply demo_rival ∅ demo_options; CallRecant demo_id []; CallReap] demo_applied.

(** A plan the ledger refuses leaves a record in Checked behind: no verb ends it, no pass
    of time does, and the plan is refused under that name even when nothing stands in its
    way any more. *)
Example refused_apply_takes_its_name :
  snd (apply demo_rival ∅ demo_options demo_applied)
    = Err (ErrLedger R0203 "umbra overlaps sample.web1.00000000@web1")
  /\ (i_state <$> stored demo_after_refusal demo_id) = Some SClosed
  /\ (i_state <$> stored demo_after_refusal demo_rival_id) = Some SChecked
  /\ snd (apply demo_rival ∅ demo_options demo_after_refusal)
     = Err (ErrLedger R0101 "instance other.web1.00000000 is already Checked")
  /\ snd (cancel demo_rival_id demo_after_refusal) = Err (ErrWrongState SChecked "Cancel")
  /\ snd (recant demo_rival_id [] demo_after_refusal) = Err (ErrWrongState SChecked "Recant")
  /\ snd (abandon demo_rival_id "carol" "stale" demo_after_refusal) = Err (ErrWrongState SChecked "Abandon").
Proof. vm_compute. repeat split. Qed.

(** A step that holds a lock and takes it again after a restart. *)
Definition demo_locking : PlanIr :=
  mkPlanIr 1 "carol" demo_engine_site
    (sample_plan (Some 3600%N) None
       [Step (mkStep (mkOp "hold" [entry Held "held:lock"] [] [run_lit "lock"] (Computed [run_lit "unlock"] ["saved"]) []
                        ULController Revert None [] [] None LTarget (Some [run_lit "park"]) (Some [run_lit "lock"]) None true)
                Forward None None LapseRevert [] None [])]).

Definition demo_rehearsal : Engine :=
  perform (CallApply demo_locking ∅ (mkApplyOptions true [] [] None "carol")) demo_engine.

(** A rehearsal runs nothing until the engine restarts; then boot runs its reestablish body
    on the host. *)
Example boot_reestablishes_a_rehearsal :
  g_acts demo_rehearsal = []
  /\ map (fun a => (act_purpose a, act_instance a, act_host a)) (g_acts (fst (boot demo_rehearsal)))
     = [(ForReestablish (mkApplied 1 0 ∅), "sample.web1.00000000.rehearsal", "web1")].
Proof. vm_compute. repeat split. Qed.
