(* ===== verification/HookProto.v ===== *)
(** * The hook protocol's tables and frames

    [hook-proto/src]: the one enumeration of the protocol's ops, and one constructor per
    op. [constructors_match_rows] shows that each constructor sends exactly the fields its
    row declares. *)

From Stdlib Require Import Ascii.
From stdpp Require Import base strings pretty numbers option list gmap.
From S2P Require Import Prelude Ordered Model Journal Resolve Executor Json.

(** ** The table *)

Definition HOOK_PROTOCOL : N := 1.

Inductive Direction := ToHook | ToEngine.

#[export] Instance Direction_eq_dec : EqDecision Direction.
Proof. solve_decision. Defined.

Record Op := mkOp {
  op_kind : string;
  op_name : string;
  op_request : list string;
  op_required_reply : list string;
  op_optional_reply : list string;
  op_secret : option Direction;
  op_optional : bool;
}.

Definition KINDS : list string :=
  ["journal"; "inventory"; "execute"; "probe"; "approval"; "secrets"; "notify"; "scheduler"].

Definition OPS : list Op := [
  mkOp "journal" "append" ["entry"] [] [] None false;
  mkOp "inventory" "list" [] ["hosts"] [] None false;
  mkOp "execute" "run" ["host"; "instance"; "body"; "env"; "secrets"] ["output"] ["facts"] (Some ToHook) false;
  mkOp "execute" "read_fact" ["host"; "shape"] [] ["content"] None false;
  mkOp "execute" "bootstrap_state" ["host"] ["state"] [] None false;
  mkOp "execute" "clock" ["host"] ["epoch_s"] [] None true;
  mkOp "execute" "instance_dir_create" ["host"; "instance"] [] [] None false;
  mkOp "execute" "instance_dir_remove" ["host"; "instance"] [] [] None false;
  mkOp "execute" "instance_dir_list" ["host"] ["dirs"] [] None false;
  mkOp "execute" "put_file" ["host"; "instance"; "rel"; "content"; "mode"] [] [] None false;
  mkOp "execute" "replace_file" ["host"; "instance"; "rel"; "content"] [] [] None false;
  mkOp "execute" "get_file" ["host"; "instance"; "rel"] ["content"] [] None false;
  mkOp "execute" "remove_file" ["host"; "instance"; "rel"] [] [] None false;
  mkOp "execute" "host_lock" ["host"] [] [] None false;
  mkOp "probe" "observe" ["host"; "probe"] ["fact"] [] None false;
  mkOp "approval" "authenticators" [] ["authenticators"] [] None false;
  mkOp "approval" "challenge" ["instance"; "digest"; "scope"; "context"] ["challenge"] [] None false;
  mkOp "approval" "verify" ["instance"; "digest"; "scope"; "authenticator"; "proof"] ["verified"] ["reason"] None false;
  mkOp "secrets" "resolve" ["ref"] ["value"] [] (Some ToEngine) false;
  mkOp "secrets" "deliver" ["instance"; "label"; "value"] ["accepted"] ["receipt"] (Some ToHook) false;
  mkOp "notify" "deliver" ["level"; "subject"; "body"] [] [] None false;
  mkOp "scheduler" "install" ["host"; "artifact"; "deadline"] [] [] None false;
  mkOp "scheduler" "arm" ["host"; "artifact"; "deadline"] [] [] None false;
  mkOp "scheduler" "rearm" ["host"; "artifact"; "deadline"] [] [] None false;
  mkOp "scheduler" "disarm" ["host"; "artifact"; "deadline"] [] [] None false;
  mkOp "scheduler" "present" ["host"; "artifact"; "deadline"] ["present"] [] None false
].

(** [Op::find] *)
Definition op_find (kind op : string) : option Op := List.find (fun o => (op_kind o == kind) && (op_name o == op)) OPS.

Definition may_carry_secret (o : Op) : bool := match op_secret o with Some _ => true | None => false end.

(** ** Records *)

Record Registration := mkRegistration {
  rg_name : string;
  rg_kinds : list string;
  rg_protocol : N;
  rg_filesystem : bool;
  rg_stdin_preamble : bool;
}.

Record InventoryHost := mkInventoryHost {
  ih_name : string;
  ih_address : string;
  ih_os : string;
  ih_roles : list string;
  ih_reach : list string;
  ih_filesystem : bool;
  ih_stdin_preamble : option bool;
  ih_scheduler : option string;
  ih_rescind_root : option string;
  ih_artifact : option ArtifactLanguage;
  ih_facts : gmap string string;
}.

(** ** Bodies on the wire *)

Definition resolved_json (v : Resolved) : Json := js_object_of [("text", JsStr (rv_text v)); ("secret", JsBool (rv_secret v))].

Definition pairs_json (l : list (string * Resolved)) : Json := JsArr (map (fun e => JsArr [JsStr (fst e); resolved_json (snd e)]) l).

(** What serde writes for a primitive: its name in snake case over its fields. *)
Definition prim_json (p : RPrim) : Json :=
  match p with
  | RRun cmd env stdin =>
      js_object_of [("run", js_object_of [("cmd", resolved_json cmd); ("env", pairs_json env); ("stdin", js_opt resolved_json stdin)])]
  | RWrite shape content => js_object_of [("write", js_object_of [("shape", JsStr shape); ("content", resolved_json content)])]
  | RRemove shape => js_object_of [("remove", js_object_of [("shape", JsStr shape)])]
  | RAppend shape line => js_object_of [("append", js_object_of [("shape", JsStr shape); ("line", resolved_json line)])]
  | RRegionSet shape anchor content =>
      js_object_of [("region_set", js_object_of [("shape", JsStr shape); ("anchor", js_opt JsStr anchor); ("content", resolved_json content)])]
  | RRegionClear shape anchor => js_object_of [("region_clear", js_object_of [("shape", JsStr shape); ("anchor", js_opt JsStr anchor)])]
  | RStage name content mode =>
      js_object_of [("stage", js_object_of [("name", JsStr name); ("content", resolved_json content); ("mode", js_num mode)])]
  | RHook name args => js_object_of [("hook", js_object_of [("name", JsStr name); ("args", pairs_json args)])]
  | RInstall name => js_object_of [("install", js_object_of [("name", JsStr name)])]
  | RRelease name => js_object_of [("release", js_object_of [("name", JsStr name)])]
  | RCall prim cmd => js_object_of [("call", js_object_of [("prim", JsStr prim); ("cmd", resolved_json cmd)])]
  end.

(** ** Requests *)

Definition req (kind op : string) : Json := js_object_of [("kind", JsStr kind); ("op", JsStr op)].

Definition journal_append_request (entry_to_value : Entry -> Json) (e : Entry) : Json :=
  js_set "entry" (entry_to_value e) (req "journal" "append").

Definition inventory_list : Json := req "inventory" "list".

(** The primitives of a body that carry a secret, by their place. *)
Fixpoint secret_prims (i : nat) (body : list RPrim) (m : BMap Json) : BMap Json :=
  match body with
  | [] => m
  | p :: r => secret_prims (S i) r (if carries_secret p then bm_insert ("prim" +:+ show_nat i) (JsBool true) m else m)
  end.

Definition execute_run (host inst : string) (body : list RPrim) : Json :=
  let v := req "execute" "run" in
  let v := js_set "host" (JsStr host) v in
  let v := js_set "instance" (JsStr inst) v in
  let v := js_set "body" (JsArr (map prim_json body)) v in
  let v := js_set "env" (JsObj []) v in
  js_set "secrets" (JsObj (secret_prims 0 body [])) v.

Definition execute_op (op host : string) (inst : option string) : Json :=
  let v := js_set "host" (JsStr host) (req "execute" op) in
  match inst with
  | Some i => js_set "instance" (JsStr i) v
  | None => v
  end.

Definition execute_read_fact (host shape : string) : Json := js_set "shape" (JsStr shape) (execute_op "read_fact" host None).

Definition execute_put_file (host inst rel content : string) (mode : N) : Json :=
  let v := execute_op "put_file" host (Some inst) in
  let v := js_set "rel" (JsStr rel) v in
  let v := js_set "content" (JsStr content) v in
  js_set "mode" (js_num mode) v.

Definition execute_replace_file (host inst rel content : string) : Json :=
  let v := execute_op "replace_file" host (Some inst) in
  let v := js_set "rel" (JsStr rel) v in
  js_set "content" (JsStr content) v.

Definition execute_get_file (host inst rel : string) : Json := js_set "rel" (JsStr rel) (execute_op "get_file" host (Some inst)).

Definition execute_remove_file (host inst rel : string) : Json := js_set "rel" (JsStr rel) (execute_op "remove_file" host (Some inst)).

Definition probe_observe (host probe : string) : Json :=
  js_set "probe" (JsStr probe) (js_set "host" (JsStr host) (req "probe" "observe")).

Definition approval_authenticators : Json := req "approval" "authenticators".

Definition approval_challenge (inst digest : string) (scope context : Json) : Json :=
  let v := js_set "instance" (JsStr inst) (req "approval" "challenge") in
  let v := js_set "digest" (JsStr digest) v in
  let v := js_set "scope" scope v in
  js_set "context" context v.

Definition approval_verify (inst digest : string) (scope : Json) (authenticator proof : string) : Json :=
  let v := js_set "instance" (JsStr inst) (req "approval" "verify") in
  let v := js_set "digest" (JsStr digest) v in
  let v := js_set "scope" scope v in
  let v := js_set "authenticator" (JsStr authenticator) v in
  js_set "proof" (JsStr proof) v.

Definition secrets_resolve (reference : string) : Json := js_set "ref" (JsStr reference) (req "secrets" "resolve").

Definition secrets_deliver (inst label value : string) : Json :=
  let v := js_set "instance" (JsStr inst) (req "secrets" "deliver") in
  let v := js_set "label" (JsStr label) v in
  js_set "value" (JsStr value) v.

Definition notify_deliver (level subject body : string) : Json :=
  let v := js_set "level" (JsStr level) (req "notify" "deliver") in
  let v := js_set "subject" (JsStr subject) v in
  js_set "body" (JsStr body) v.

Definition scheduler_op (op host artifact : string) (deadline : option N) : Json :=
  let v := js_set "host" (JsStr host) (req "scheduler" op) in
  let v := js_set "artifact" (JsStr artifact) v in
  js_set "deadline" (js_opt js_num deadline) v.

(** ** Every message the engine sends *)

(** A message by the constructor that builds it. The constructors that take an op's name
    are called with these names only. *)
Inductive Message :=
| MAppend (entry : Json)
| MList
| MRun (host inst : string) (body : list RPrim)
| MReadFact (host shape : string)
| MHost (op : string) (Hop : op ∈ ["bootstrap_state"; "clock"; "instance_dir_list"; "host_lock"]) (host : string)
| MDir (op : string) (Hop : op ∈ ["instance_dir_create"; "instance_dir_remove"]) (host inst : string)
| MPut (host inst rel content : string) (mode : N)
| MReplace (host inst rel content : string)
| MGet (host inst rel : string)
| MRemove (host inst rel : string)
| MObserve (host probe : string)
| MAuthenticators
| MChallenge (inst digest : string) (scope : Scope) (context : string)
| MVerify (inst digest : string) (scope : Scope) (authenticator proof : string)
| MResolve (reference : string)
| MDeliver (inst label value : string)
| MNotify (level subject body : string)
| MSchedule (op : string) (Hop : op ∈ ["install"; "arm"; "rearm"; "disarm"; "present"]) (host artifact : string) (deadline : option N).

(** [hook::scope_json] *)
Definition scope_json (s : Scope) : Json :=
  match s with
  | ScopePlan => JsStr "plan"
  | ScopeStep n => js_object_of [("step", js_num n)]
  | ScopeAck n => js_object_of [("ack", js_num n)]
  end.

Definition request_of (m : Message) : Json :=
  match m with
  | MAppend e => js_set "entry" e (req "journal" "append")
  | MList => inventory_list
  | MRun host inst body => execute_run host inst body
  | MReadFact host shape => execute_read_fact host shape
  | MHost op _ host => execute_op op host None
  | MDir op _ host inst => execute_op op host (Some inst)
  | MPut host inst rel content mode => execute_put_file host inst rel content mode
  | MReplace host inst rel content => execute_replace_file host inst rel content
  | MGet host inst rel => execute_get_file host inst rel
  | MRemove host inst rel => execute_remove_file host inst rel
  | MObserve host probe => probe_observe host probe
  | MAuthenticators => approval_authenticators
  | MChallenge inst digest scope context => approval_challenge inst digest (scope_json scope) (JsStr context)
  | MVerify inst digest scope authenticator proof => approval_verify inst digest (scope_json scope) authenticator proof
  | MResolve reference => secrets_resolve reference
  | MDeliver inst label value => secrets_deliver inst label value
  | MNotify level subject body => notify_deliver level subject body
  | MSchedule op _ host artifact deadline => scheduler_op op host artifact deadline
  end.

Definition keys_of (v : Json) : list string := match v with JsObj m => map fst m | _ => [] end.

(** The row of a request, and whether its fields are the row's. *)
Definition row_of (v : Json) : option Op := k ← get_str "kind" v; o ← get_str "op" v; op_find k o.

Definition declared_fields (o : Op) (v : Json) : bool := sort_strings (keys_of v) == sort_strings ("kind" :: "op" :: op_request o).

Ltac op_cases :=
  repeat match goal with
  | H : _ ∈ [] |- _ => by apply not_elem_of_nil in H
  | H : _ ∈ _ :: _ |- _ => apply elem_of_cons in H as [->|H]
  end.

(** Every message the engine sends names an op the table has a row for, and carries
    exactly the fields of that row. *)
Theorem constructors_match_rows (m : Message) :
  exists o, row_of (request_of m) = Some o /\ o ∈ OPS /\ op_kind o ∈ KINDS /\ declared_fields o (request_of m) = true.
Proof.
  assert (H : match row_of (request_of m) with
              | Some o => bool_decide (op_kind o ∈ KINDS) && declared_fields o (request_of m)
              | None => false
              end = true) by (destruct m; cbn [request_of]; op_cases; reflexivity).
  destruct (row_of (request_of m)) as [o|] eqn:Ho; [|done]. exists o. apply andb_true_iff in H as [Hk%bool_decide_eq_true Hd].
  split_and!; [done| |done|done]. unfold row_of in Ho.
  apply bind_Some in Ho as (k & _ & Ho). apply bind_Some in Ho as (n & _ & Ho). by apply find_some in Ho as [Ho%list_elem_of_In _].
Qed.
