(* ===== verification/Hook.v ===== *)
(** * Hooks

    [engine/src/hook.rs]: one connection's requests and replies ([LineLink]), the guard
    that keeps a secret out of every message that may not carry one, the registry of the
    hooks that are there, and the adapters that present a hook as the engine's own traits.

    A link is used by many callers at once, and another thread delivers what the hook
    writes: it is a machine whose events are the critical sections of [call], [deliver]
    and [pump]. *)

From Stdlib Require Import Ascii.
From stdpp Require Import base strings pretty numbers option list sets gmap.
From S2P Require Import Prelude Monad Ordered Utf8 Model Journal Resolve Executor EngineJournal Json HookProto.

(** [DEFAULT_DEADLINE], in seconds *)
Definition DEFAULT_DEADLINE : N := 30.

Inductive HookError :=
| HkSilent
| HkRefused (r : string)
| HkContract (m : string)
| HkUnregistered (n : string)
| HkIo (e : string).

Definition display_hook_error (e : HookError) : string :=
  match e with
  | HkSilent => "hook silent: no answer within the deadline"
  | HkRefused r => "hook refused: " +:+ r
  | HkContract m => "R0303: hook contract violation: " +:+ m
  | HkUnregistered n => concats ["hook "; n; " is not registered"]
  | HkIo e => "hook i/o: " +:+ e
  end.

(** ** The guard *)

Definition permitted (request : Json) : bool :=
  let kind := default EmptyString (get_str "kind" request) in
  let op := default EmptyString (get_str "op" request) in
  match op_find kind op with
  | Some o => bool_decide (op_secret o = Some ToHook)
  | None => false
  end.

Definition DROPPED : string := "<secret dropped: R0305>".

(** An object with a [text] and [secret: true]. *)
Definition secret_text (m : BMap Json) : option string :=
  match bm_get "secret" m, bm_get "text" m with
  | Some (JsBool true), Some (JsStr t) => Some t
  | _, _ => None
  end.

Definition child (path k : string) : string := if path == EmptyString then k else concats [path; "."; k].

(** [scrub]: the value without its secrets, and where they were. *)
Fixpoint scrub (v : Json) (path : string) : Json * list string :=
  match v with
  | JsObj m =>
      match secret_text m with
      | Some _ => (JsObj (bm_insert "text" (JsStr DROPPED) m), [if path == EmptyString then "a value" else path])
      | None =>
          let rs := map (fun e => (fst e, scrub (snd e) (child path (fst e)))) m in
          (JsObj (map (fun r => (fst r, fst (snd r))) rs), List.concat (map (fun r => snd (snd r)) rs))
      end
  | JsArr a =>
      let '(a, out) :=
        (fix go i a := match a with
                       | [] => ([], [])
                       | x :: r =>
                           let '(y, out) := scrub x (concats [path; "["; show_nat i; "]"]) in
                           let '(r, outs) := go (S i) r in
                           (y :: r, out ++ outs)
                       end) 0 a in
      (JsArr a, out)
  | _ => (v, [])
  end.

Definition guard_secrets (request : Json) : Json * list string :=
  if permitted request then (request, []) else scrub request EmptyString.

(** The text of a secret that stands in a value, at any depth. *)
Inductive carries : Json -> string -> Prop :=
| CarriesIt m t : bm_get "secret" m = Some (JsBool true) -> bm_get "text" m = Some (JsStr t) -> carries (JsObj m) t
| CarriesField m k x t : (k, x) ∈ m -> carries x t -> carries (JsObj m) t
| CarriesItem a x t : x ∈ a -> carries x t -> carries (JsArr a) t.

(** The text of a secret that stands in another secret's object. *)
Inductive nested : Json -> string -> Prop :=
| NestedIn m outer k x t : bm_get "secret" m = Some (JsBool true) -> bm_get "text" m = Some (JsStr outer) ->
    (k, x) ∈ m -> carries x t -> nested (JsObj m) t
| NestedField m k x t : (k, x) ∈ m -> nested x t -> nested (JsObj m) t
| NestedItem a x t : x ∈ a -> nested x t -> nested (JsArr a) t.

(** The texts of the secrets that stand in no other. *)
Fixpoint outer_secrets (v : Json) : list string :=
  match v with
  | JsObj m =>
      match secret_text m with
      | Some t => [t]
      | None => List.concat (map (fun e => outer_secrets (snd e)) m)
      end
  | JsArr a => List.concat (map outer_secrets a)
  | _ => []
  end.

(** ** Replies *)

Definition reply_of (reply : Json) : Result Json HookError :=
  match get_bool "ok" reply with
  | Some true => Ok reply
  | Some false => Err (HkRefused (default "no reason given" (get_str "error" reply)))
  | None => Err (HkContract "reply carries no boolean `ok`")
  end.

Definition field (reply : Json) (name : string) : Result Json HookError :=
  match js_get name reply with
  | Some v => Ok v
  | None => Err (HkContract (concats ["reply lacks `"; name; "`"]))
  end.

(** ** A link *)

(** What went down the writer: a request, or bytes of [call_raw_write]. *)
Inductive Written := WLine (v : Json) | WRaw (bytes : string).

(** [ll_pending] is the map from ids to the channels of their callers, [ll_received] what
    was sent on a channel and not yet taken, and [ll_sunk] says that [close_writer] put a
    sink in the writer's place. *)
Record LineLink := mkLineLink {
  ll_name : string;
  ll_written : list Written;
  ll_sunk : bool;
  ll_pending : gmap N nat;
  ll_received : gmap nat Json;
  ll_next_id : N;
  ll_channels : nat;
}.

Definition line_link_new (name : string) : LineLink := mkLineLink name [] false ∅ ∅ 1 0.

Definition eta_link (l : LineLink) : LineLink :=
  mkLineLink (ll_name l) (ll_written l) (ll_sunk l) (ll_pending l) (ll_received l) (ll_next_id l) (ll_channels l).

Definition set_written v l := ltac:(field_update eta_link ll_written v l).
Definition set_sunk v l := ltac:(field_update eta_link ll_sunk v l).
Definition set_pending v l := ltac:(field_update eta_link ll_pending v l).
Definition set_received v l := ltac:(field_update eta_link ll_received v l).
Definition set_next_id v l := ltac:(field_update eta_link ll_next_id v l).
Definition set_channels v l := ltac:(field_update eta_link ll_channels v l).

Definition write_down (w : Written) (l : LineLink) : LineLink :=
  if ll_sunk l then l else set_written (ll_written l ++ [w]) l.

(** [LineLink::deliver] *)
Definition link_deliver (reply : Json) (l : LineLink) : LineLink :=
  match get_u64 "id" reply with
  | Some id =>
      match ll_pending l !! id with
      | Some c => set_received (<[c := reply]> (ll_received l)) (set_pending (delete id (ll_pending l)) l)
      | None => l
      end
  | None => l
  end.

Definition call_raw_write (bytes : string) (l : LineLink) : LineLink := write_down (WRaw bytes) l.

Definition close_writer (l : LineLink) : LineLink := set_sunk true l.

(** One turn of [pump], for a line of which [parsed] is the value. *)
Definition pump_line (parsed : option Json) (l : LineLink) : LineLink :=
  match parsed with
  | Some v => link_deliver v l
  | None => l
  end.

(** [pump], when the connection has ended. *)
Definition pump_end (l : LineLink) : LineLink := set_pending ∅ l.

(** [LineLink::call] up to the write: the request without what it may not carry, its id
    and the channel its caller waits on. *)
Definition call_begin (request : Json) (l : LineLink) : LineLink * (N * nat * Json) :=
  let '(request, dropped) := guard_secrets request in
  let id := ll_next_id l in
  let l := set_next_id (wrap64 (id + 1)) l in
  let request := js_set "id" (js_num id) request in
  let c := ll_channels l in
  let l := set_channels (S c) l in
  (set_pending (<[id := c]> (ll_pending l)) l, (id, c, request)).

(** The write, which [wrote] is the writer's answer to. *)
Definition call_write (id : N) (request : Json) (wrote : Result unit string) (l : LineLink) : LineLink * Result unit HookError :=
  match wrote with
  | Ok _ => (write_down (WLine request) l, Ok tt)
  | Err e => (set_pending (delete id (ll_pending l)) l, Err (HkIo e))
  end.

(** [recv_timeout] and what follows it; [None] while the caller waits. *)
Definition call_end (id : N) (c : nat) (timed_out : bool) (l : LineLink) : option (LineLink * Result Json HookError) :=
  match ll_received l !! c with
  | Some reply => Some (set_received (delete c (ll_received l)) l, reply_of reply)
  | None =>
      let disconnected := negb (existsb (fun e => (snd e =? c)%nat) (map_to_list (ll_pending l))) in
      if timed_out || disconnected then Some (set_pending (delete id (ll_pending l)) l, Err HkSilent)
      else None
  end.

(** ** The machine of a link *)

(** [LeWrite] and [LeWake] are steps of the caller that holds the channel. *)
Inductive LinkEvent :=
| LeCall (fields : BMap Json)
| LeWrite (c : nat) (wrote : Result unit string)
| LeLine (parsed : option Json)
| LeWake (c : nat) (timed_out : bool)
| LeRaw (bytes : string)
| LeClose
| LeEnd.

Inductive Phase := Writing | Waiting.

#[export] Instance Phase_eq_dec : EqDecision Phase.
Proof. solve_decision. Defined.

(** [lr_calls] are the calls made, by their channel, with the id and the line of each;
    [lr_phase] says where those stand that have not returned, and [lr_answers] what the
    others got. *)
Record LinkRun := mkLinkRun {
  lr_link : LineLink;
  lr_calls : gmap nat (N * Json);
  lr_phase : gmap nat Phase;
  lr_answers : gmap nat (Result Json HookError);
}.

Definition link_start (name : string) : LinkRun := mkLinkRun (line_link_new name) ∅ ∅ ∅.

Definition on_link (f : LineLink -> LineLink) (s : LinkRun) : LinkRun :=
  mkLinkRun (f (lr_link s)) (lr_calls s) (lr_phase s) (lr_answers s).

Definition answer_call (c : nat) (r : Result Json HookError) (s : LinkRun) : LinkRun :=
  mkLinkRun (lr_link s) (lr_calls s) (delete c (lr_phase s)) (<[c := r]> (lr_answers s)).

Definition link_step (s : LinkRun) (e : LinkEvent) : LinkRun :=
  let l := lr_link s in
  match e with
  | LeCall fields =>
      let '(l, (id, c, sent)) := call_begin (JsObj fields) l in
      mkLinkRun l (<[c := (id, sent)]> (lr_calls s)) (<[c := Writing]> (lr_phase s)) (lr_answers s)
  | LeWrite c wrote =>
      match lr_phase s !! c, lr_calls s !! c with
      | Some Writing, Some (id, sent) =>
          let '(l, r) := call_write id sent wrote l in
          match r with
          | Ok _ => mkLinkRun l (lr_calls s) (<[c := Waiting]> (lr_phase s)) (lr_answers s)
          | Err e => answer_call c (Err e) (on_link (fun _ => l) s)
          end
      | _, _ => s
      end
  | LeLine parsed => on_link (pump_line parsed) s
  | LeWake c timed_out =>
      match lr_phase s !! c, lr_calls s !! c with
      | Some Waiting, Some (id, _) =>
          match call_end id c timed_out l with
          | Some (l, r) => answer_call c r (on_link (fun _ => l) s)
          | None => s
          end
      | _, _ => s
      end
  | LeRaw bytes => on_link (call_raw_write bytes) s
  | LeClose => on_link close_writer s
  | LeEnd => on_link pump_end s
  end.

Definition link_run (name : string) (es : list LinkEvent) : LinkRun := foldl link_step (link_start name) es.

(** ** The guard drops every secret *)

Definition scrubs (v : Json) : Prop := forall path,
  outer_secrets (fst (scrub v path)) = map (fun _ => DROPPED) (snd (scrub v path)) /\
  length (snd (scrub v path)) = length (outer_secrets v) /\
  (outer_secrets v = [] -> fst (scrub v path) = v).

Lemma scrub_scalar v path : match v with JsObj _ | JsArr _ => False | _ => True end -> scrub v path = (v, []).
Proof. by destruct v. Qed.

(** Scrubbing keeps what a value is. *)
Lemma scrub_shape v path :
  match v with
  | JsObj _ => exists m, fst (scrub v path) = JsObj m
  | JsArr _ => exists a, fst (scrub v path) = JsArr a
  | _ => fst (scrub v path) = v
  end.
Proof.
  destruct v as [| | | |a|m]; try done; cbn [scrub].
  - match goal with |- context [match ?x with (_, _) => _ end] => destruct x end. by eexists.
  - destruct (secret_text m); by eexists.
Qed.

Lemma bm_get_scrubbed path m k :
  bm_get k (map (fun r => (fst r, fst (snd r))) (map (fun e => (fst e, scrub (snd e) (child path (fst e)))) m))
  = (fun x => fst (scrub x (child path k))) <$> bm_get k m.
Proof.
  rewrite map_map. cbn [fst snd]. unfold bm_get. induction m as [|[k' x] m IH]; [done|]. cbn [map List.find fst snd].
  case_bool_decide as Hk; [by subst k'|done].
Qed.

Lemma secret_text_scrubbed path m :
  secret_text (map (fun r => (fst r, fst (snd r))) (map (fun e => (fst e, scrub (snd e) (child path (fst e)))) m)) = secret_text m.
Proof.
  unfold secret_text. rewrite !bm_get_scrubbed.
  destruct (bm_get "secret" m) as [v|]; [|done]. cbn [fmap option_fmap option_map].
  pose proof (scrub_shape v (child path "secret")) as Hs.
  destruct v; try rewrite Hs; try destruct Hs as [? ->]; try done. destruct b; [|done].
  destruct (bm_get "text" m) as [w|]; [|done]. cbn [fmap option_fmap option_map].
  pose proof (scrub_shape w (child path "text")) as Hw. destruct w; try rewrite Hw; try destruct Hw as [? ->]; done.
Qed.

Definition scrub_items (path : string) : nat -> list Json -> list Json * list string :=
  fix go i a := match a with
                | [] => ([], [])
                | x :: r =>
                    let '(y, out) := scrub x (concats [path; "["; show_nat i; "]"]) in
                    let '(r, outs) := go (S i) r in
                    (y :: r, out ++ outs)
                end.

Lemma scrub_arr a path : scrub (JsArr a) path = (JsArr (fst (scrub_items path 0 a)), snd (scrub_items path 0 a)).
Proof. cbn [scrub]. fold (scrub_items path). by destruct (scrub_items path 0 a). Qed.

Lemma scrub_obj m path : secret_text m = None ->
  let rs := map (fun e => (fst e, scrub (snd e) (child path (fst e)))) m in
  scrub (JsObj m) path = (JsObj (map (fun r => (fst r, fst (snd r))) rs), List.concat (map (fun r => snd (snd r)) rs)).
Proof. intros H. cbn [scrub]. by rewrite H. Qed.

Lemma scrubs_items path a : Forall scrubs a -> forall i,
  List.concat (map outer_secrets (fst (scrub_items path i a))) = map (fun _ => DROPPED) (snd (scrub_items path i a)) /\
  length (snd (scrub_items path i a)) = length (List.concat (map outer_secrets a)) /\
  (List.concat (map outer_secrets a) = [] -> fst (scrub_items path i a) = a).
Proof.
  induction 1 as [|x a Hx _ IH]; intros i; [done|]. cbn [scrub_items].
  destruct (Hx (concats [path; "["; show_nat i; "]"])) as (H1 & H2 & H3). destruct (IH (S i)) as (I1 & I2 & I3).
  destruct (scrub x _) as [y out]. fold (scrub_items path). destruct (scrub_items path (S i) a) as [b outs]. cbn [fst snd map List.concat] in *.
  rewrite H1, I1, map_app, !length_app, H2, I2. split_and!; [done|done|]. intros [Hn1 Hn2]%app_eq_nil. by rewrite H3, I3.
Qed.

Lemma scrubs_entries path m : Forall (fun e => scrubs (snd e)) m ->
  let rs := map (fun e => (fst e, scrub (snd e) (child path (fst e)))) m in
  let m' := map (fun r => (fst r, fst (snd r))) rs in
  let out := List.concat (map (fun r => snd (snd r)) rs) in
  List.concat (map (fun e => outer_secrets (snd e)) m') = map (fun _ => DROPPED) out /\
  length out = length (List.concat (map (fun e => outer_secrets (snd e)) m)) /\
  (List.concat (map (fun e => outer_secrets (snd e)) m) = [] -> m' = m).
Proof.
  induction 1 as [|[k x] m Hx _ IH]; [done|]. destruct (Hx (child path k)) as (H1 & H2 & H3). destruct IH as (I1 & I2 & I3).
  cbn [map List.concat fst snd] in *. rewrite H1, I1, map_app, !length_app, H2, I2. split_and!; [done|done|].
  intros [Hn1 Hn2]%app_eq_nil. by rewrite H3, I3.
Qed.

Lemma scrub_spec v : scrubs v.
Proof.
  induction v as [|b|n|s|a IH|m IH] using json_induction; intros path; try done.
  - rewrite scrub_arr. cbn [fst snd outer_secrets]. destruct (scrubs_items path a IH 0) as (H1 & H2 & H3).
    split_and!; [done|done|]. intros H. by rewrite H3.
  - destruct (secret_text m) as [t|] eqn:Ht.
    + cbn [scrub]. rewrite Ht. cbn [fst snd outer_secrets]. rewrite Ht. split_and!; [|done|done].
      unfold secret_text in *. rewrite bm_get_insert, bm_get_insert_ne by done. by destruct (bm_get "secret" m) as [[|[]| | | |]|].
    + rewrite scrub_obj by done. destruct (scrubs_entries path m IH) as (H1 & H2 & H3). cbn [fst snd outer_secrets].
      rewrite secret_text_scrubbed, Ht. split_and!; [done|done|]. intros H. by rewrite H3.
Qed.

Lemma secret_text_spec m t : secret_text m = Some t <-> bm_get "secret" m = Some (JsBool true) /\ bm_get "text" m = Some (JsStr t).
Proof.
  unfold secret_text. split; [|by intros [-> ->]].
  destruct (bm_get "secret" m) as [[|[]| | | |]|]; try done. destruct (bm_get "text" m) as [[]|]; try done. by intros [= ->].
Qed.

Lemma bm_insert_elem {A} k (v : A) m e : e ∈ bm_insert k v m -> e = (k, v) \/ e ∈ m.
Proof.
  induction m as [|[k' x] m IH]; cbn [bm_insert]; [by intros ->%list_elem_of_singleton; left|].
  repeat case_match; rewrite !elem_of_cons; tauto.
Qed.

(** What carries no secret has none to replace. *)
Lemma outer_secrets_carried v t : t ∈ outer_secrets v -> carries v t.
Proof.
  induction v as [|b|n|s|a IH|m IH] using json_induction; cbn [outer_secrets]; try by intros ?%not_elem_of_nil.
  - rewrite list_elem_of_In, in_concat. intros (l & Hl & Ht). apply in_map_iff in Hl as (x & <- & Hx%list_elem_of_In).
    eapply CarriesItem; [exact Hx|]. apply (proj1 (Forall_forall _ _) IH x Hx). by apply list_elem_of_In.
  - destruct (secret_text m) as [u|] eqn:Hm.
    + intros ->%list_elem_of_singleton. apply secret_text_spec in Hm as []. by apply CarriesIt.
    + rewrite list_elem_of_In, in_concat. intros (l & Hl & Ht). apply in_map_iff in Hl as ([k x] & <- & Hx%list_elem_of_In).
      eapply CarriesField; [exact Hx|]. apply (proj1 (Forall_forall _ _) IH (k, x) Hx). by apply list_elem_of_In.
Qed.

Lemma scrub_items_elem path a y : forall i, y ∈ fst (scrub_items path i a) -> exists x p, x ∈ a /\ y = fst (scrub x p).
Proof.
  induction a as [|x a IH]; intros i; cbn [scrub_items]; [by intros ?%not_elem_of_nil|].
  destruct (scrub x _) as [z out] eqn:Hz. fold (scrub_items path). specialize (IH (S i)). destruct (scrub_items path (S i) a) as [b outs].
  cbn [fst]. rewrite elem_of_cons. intros [->|(w & p & Hw & ->)%IH].
  - exists x, (concats [path; "["; show_nat i; "]"]). split; [by left|by rewrite Hz].
  - exists w, p. split; [by right|done].
Qed.

(** What is left of the secrets: the word in their place, and those that stand in others. *)
Lemma scrub_leaves v : forall path t, carries (fst (scrub v path)) t -> t = DROPPED \/ nested v t.
Proof.
  induction v as [|b|n|s|a IH|m IH] using json_induction; intros path t; try by inversion 1.
  - rewrite scrub_arr. cbn [fst]. inversion 1 as [| |? y ? Hy Ht]; subst. apply scrub_items_elem in Hy as (x & p & Hx & ->).
    destruct (proj1 (Forall_forall _ _) IH x Hx p t Ht); [by left|right; by eapply NestedItem].
  - destruct (secret_text m) as [u|] eqn:Hm.
    + cbn [scrub]. rewrite Hm. cbn [fst]. inversion 1 as [? ? _ Htext|? k x ? Hx Ht|]; subst.
      * rewrite bm_get_insert in Htext. injection Htext as <-. by left.
      * apply bm_insert_elem in Hx as [[= -> ->]|Hx]; [by inversion Ht|]. apply secret_text_spec in Hm as [H1 H2]. right. by eapply NestedIn.
    + rewrite scrub_obj by done. cbn [fst]. pose proof (secret_text_scrubbed path m) as Hsame. rewrite Hm in Hsame.
      inversion 1 as [? ? H1 H2|? k x ? Hx Ht|]; subst.
      * by rewrite (proj2 (secret_text_spec _ t) (conj H1 H2)) in Hsame.
      * rewrite map_map in Hx. apply elem_of_map in Hx as ([k' y] & [= -> ->] & Hy). cbn [fst snd] in Ht.
        destruct (proj1 (Forall_forall _ _) IH (k', y) Hy _ t Ht); [by left|right; by eapply NestedField].
Qed.

(** A line that is a request some caller made, guarded and numbered. *)
Definition numbered_line (fields : BMap Json) (id : N) : Json := js_set "id" (js_num id) (fst (guard_secrets (JsObj fields))).

Lemma get_str_scrub k v path : k <> "text" -> get_str k (fst (scrub v path)) = get_str k v.
Proof.
  intros Hk. destruct v as [| | | |a|m]; try done.
  - by destruct (scrub_shape (JsArr a) path) as [a' ->].
  - destruct (secret_text m) as [t|] eqn:Ht.
    + cbn [scrub]. rewrite Ht. cbn [fst]. unfold get_str, js_get. by rewrite bm_get_insert_ne by done.
    + rewrite scrub_obj by done. unfold get_str, js_get. cbn [fst]. rewrite bm_get_scrubbed.
      destruct (bm_get k m) as [x|]; [|done]. cbn. pose proof (scrub_shape x (child path k)) as Hx.
      destruct x; try rewrite Hx; try destruct Hx as [? ->]; done.
Qed.

Lemma permitted_scrub v path : permitted (fst (scrub v path)) = permitted v.
Proof. unfold permitted. by rewrite !get_str_scrub. Qed.

(** Numbering a request changes neither what it may carry nor what it does. *)
Lemma get_str_number k n v : k <> "id" -> get_str k (js_set "id" (js_num n) v) = get_str k v.
Proof.
  intros Hk. destruct v as [| | | | |m]; try done; unfold get_str, js_get, js_set; [|by rewrite bm_get_insert_ne by done].
  unfold bm_get. cbn. by rewrite bool_decide_eq_false_2 by done.
Qed.

Lemma carries_number n m t : carries (js_set "id" (js_num n) (JsObj m)) t -> carries (JsObj m) t.
Proof.
  cbn [js_set]. inversion 1 as [? ? H1 H2|? k x ? Hx Ht|]; subst.
  - rewrite bm_get_insert_ne in H1, H2 by done. by apply CarriesIt.
  - apply bm_insert_elem in Hx as [[= -> ->]|Hx]; [by inversion Ht|]. by eapply CarriesField.
Qed.

Lemma permitted_number n v : permitted (js_set "id" (js_num n) v) = permitted v.
Proof. unfold permitted. by rewrite !get_str_number. Qed.

(** ** The machine of a link keeps callers apart *)

Definition sent_before (name : string) (es : list LinkEvent) (c : nat) (id : N) (reply : Json) : Prop :=
  get_u64 "id" reply = Some id /\
  exists es1 es2 sent, es = es1 ++ LeLine (Some reply) :: es2 /\ lr_calls (link_run name es1) !! c = Some (id, sent).

(** Some caller's line. *)
Definition guarded (es : list LinkEvent) (v : Json) : Prop := exists fields id, LeCall fields ∈ es /\ v = numbered_line fields id.

Lemma guarded_more es e v : guarded es v -> guarded (es ++ [e]) v.
Proof. intros (fields & id & Hin & ->). exists fields, id. split; [|done]. apply elem_of_app. by left. Qed.

Record link_inv (name : string) (es : list LinkEvent) (s : LinkRun) : Prop := mkLinkInv {
  li_lines : forall v, WLine v ∈ ll_written (lr_link s) -> guarded es v;
  li_next : ll_next_id (lr_link s) = wrap64 (1 + N.of_nat (ll_channels (lr_link s)));
  li_calls : forall c id sent, lr_calls s !! c = Some (id, sent) ->
    c < ll_channels (lr_link s) /\ id = wrap64 (1 + N.of_nat c) /\ get_u64 "id" sent = Some id /\ guarded es sent;
  li_pending : forall id c, ll_pending (lr_link s) !! id = Some c -> exists sent, lr_calls s !! c = Some (id, sent);
  li_received : forall c reply, ll_received (lr_link s) !! c = Some reply ->
    exists id sent, lr_calls s !! c = Some (id, sent) /\ sent_before name es c id reply;
  li_phase : forall c, is_Some (lr_phase s !! c) -> is_Some (lr_calls s !! c) /\ lr_answers s !! c = None;
  li_answers : forall c, is_Some (lr_answers s !! c) -> is_Some (lr_calls s !! c);
  li_ok : forall c reply, lr_answers s !! c = Some (Ok reply) ->
    get_bool "ok" reply = Some true /\ exists id sent, lr_calls s !! c = Some (id, sent) /\ sent_before name es c id reply;
  li_count : ll_channels (lr_link s) <= length es;
}.

Lemma sent_before_more name es e c id reply : sent_before name es c id reply -> sent_before name (es ++ [e]) c id reply.
Proof. intros (Hid & es1 & es2 & sent & -> & H). split; [done|]. exists es1, (es2 ++ [e]), sent. by rewrite <- app_assoc. Qed.

Lemma link_run_snoc name es e : link_run name (es ++ [e]) = link_step (link_run name es) e.
Proof. unfold link_run. by rewrite foldl_app. Qed.

Lemma reply_of_ok reply r : reply_of reply = Ok r -> r = reply /\ get_bool "ok" reply = Some true.
Proof. unfold reply_of. destruct (get_bool "ok" reply) as [[]|]; intros [=]; by subst. Qed.

Lemma begun_id n m : get_u64 "id" (js_set "id" (js_num n) (JsObj m)) = Some n.
Proof. unfold get_u64, js_get, js_set. by rewrite bm_get_insert. Qed.

Lemma guard_object m : exists m', fst (guard_secrets (JsObj m)) = JsObj m'.
Proof. unfold guard_secrets. destruct (permitted _); [by eexists|]. apply (scrub_shape (JsObj m)). Qed.

Lemma inv_more name es e s : link_inv name es s -> link_inv name (es ++ [e]) s.
Proof.
  intros [H1 H2 H3 H4 H5 H6 H7 H8 H9]. split; try done.
  - intros v Hv. by apply guarded_more, H1.
  - intros c id sent (? & ? & ? & ?)%H3. split_and!; try done. by apply guarded_more.
  - intros c reply (id & sent & Hc & Hb)%H5. exists id, sent. split; [done|by apply sent_before_more].
  - intros c reply (Hok & id & sent & Hc & Hb)%H8. split; [done|]. exists id, sent. split; [done|by apply sent_before_more].
  - rewrite length_app. cbn. lia.
Qed.

(** A step that leaves the calls alone may write guarded lines and forget channels. *)
Lemma inv_link name es s l' : link_inv name es s ->
  (forall v, WLine v ∈ ll_written l' -> guarded es v) ->
  ll_next_id l' = ll_next_id (lr_link s) -> ll_channels l' = ll_channels (lr_link s) ->
  ll_pending l' ⊆ ll_pending (lr_link s) ->
  (forall c reply, ll_received l' !! c = Some reply -> exists id sent, lr_calls s !! c = Some (id, sent) /\ sent_before name es c id reply) ->
  link_inv name es (on_link (fun _ => l') s).
Proof.
  intros [H1 H2 H3 H4 H5 H6 H7 H8 H9] Hw Hn Hc Hp Hr. split; try done; cbn; [congruence|by rewrite Hc| |by rewrite Hc].
  intros id c Hid. eapply H4, lookup_weaken; done.
Qed.

Lemma inv_answer name es s c r : link_inv name es s -> is_Some (lr_phase s !! c) ->
  (forall reply, r = Ok reply -> get_bool "ok" reply = Some true /\
    exists id sent, lr_calls s !! c = Some (id, sent) /\ sent_before name es c id reply) ->
  link_inv name es (answer_call c r s).
Proof.
  intros [H1 H2 H3 H4 H5 H6 H7 H8 H9] Hph Hr. split; try done; cbn.
  - intros c' [p Hp]. destruct (decide (c = c')) as [<-|Hn]; [by rewrite lookup_delete_eq in Hp|].
    rewrite lookup_delete_ne in Hp by done. rewrite lookup_insert_ne by done. by apply H6.
  - intros c'. destruct (decide (c = c')) as [<-|Hn]; [intros _; by apply H6|]. rewrite lookup_insert_ne by done. by apply H7.
  - intros c' reply. destruct (decide (c = c')) as [<-|Hn].
    + rewrite lookup_insert_eq. intros [= ->]. by apply Hr.
    + rewrite lookup_insert_ne by done. by apply H8.
Qed.

Lemma write_down_lines w l v : WLine v ∈ ll_written (write_down w l) -> WLine v ∈ ll_written l \/ w = WLine v.
Proof. unfold write_down. destruct (ll_sunk l); [by left|]. cbn. rewrite elem_of_app, list_elem_of_singleton. intros [?|[= ->]]; auto. Qed.

Lemma write_down_rest w l :
  ll_next_id (write_down w l) = ll_next_id l /\ ll_channels (write_down w l) = ll_channels l /\
  ll_pending (write_down w l) = ll_pending l /\ ll_received (write_down w l) = ll_received l.
Proof. unfold write_down. by destruct (ll_sunk l). Qed.

Lemma inv_write_down name es s w : link_inv name es s -> (forall v, w = WLine v -> guarded es v) ->
  link_inv name es (on_link (fun _ => write_down w (lr_link s)) s).
Proof.
  intros Hinv Hw. destruct (write_down_rest w (lr_link s)) as (E1 & E2 & E3 & E4). apply inv_link; rewrite ?E1, ?E2, ?E3, ?E4; try done.
  - intros v [Hv|Hv]%write_down_lines; [by apply (li_lines _ _ _ Hinv)|by apply Hw].
  - apply (li_received _ _ _ Hinv).
Qed.

Lemma on_link_same s : on_link (fun _ => lr_link s) s = s.
Proof. by destruct s. Qed.

Lemma inv_line name es parsed : link_inv name es (link_run name es) ->
  link_inv name (es ++ [LeLine parsed]) (link_step (link_run name es) (LeLine parsed)).
Proof.
  intros Hinv. pose proof (inv_more _ _ (LeLine parsed) _ Hinv) as Hmore. cbn [link_step].
  set (s := link_run name es) in *. change (on_link (pump_line parsed) s) with (on_link (fun _ => pump_line parsed (lr_link s)) s).
  destruct parsed as [reply|]; cbn [pump_line]; [|by rewrite on_link_same].
  unfold link_deliver. destruct (get_u64 "id" reply) as [id|] eqn:Hid; [|by rewrite on_link_same].
  destruct (ll_pending (lr_link s) !! id) as [c|] eqn:Hc; [|by rewrite on_link_same].
  apply inv_link; try done; cbn; [apply (li_lines _ _ _ Hmore)|apply delete_subseteq|].
  intros c' r. destruct (decide (c = c')) as [<-|Hn].
  - rewrite lookup_insert_eq. intros [= <-]. destruct (li_pending _ _ _ Hinv _ _ Hc) as [sent Hs]. exists id, sent.
    split; [done|]. split; [done|]. by exists es, [], sent.
  - rewrite lookup_insert_ne by done. apply (li_received _ _ _ Hmore).
Qed.

Lemma inv_wake name es c timed_out : link_inv name es (link_run name es) ->
  link_inv name (es ++ [LeWake c timed_out]) (link_step (link_run name es) (LeWake c timed_out)).
Proof.
  intros Hinv. apply (inv_more _ _ (LeWake c timed_out)) in Hinv as Hmore. cbn [link_step]. set (s := link_run name es) in *.
  destruct (lr_phase s !! c) as [[]|] eqn:Hp; try done. destruct (lr_calls s !! c) as [[id sent]|] eqn:Hc; [|done].
  unfold call_end. destruct (ll_received (lr_link s) !! c) as [reply|] eqn:Hr.
  - apply inv_answer; [|by cbn; rewrite Hp|].
    + apply inv_link; try done; cbn; [apply (li_lines _ _ _ Hmore)|]. intros c' r Hr'.
      apply (li_received _ _ _ Hmore). eapply lookup_weaken; [done|apply delete_subseteq].
    + intros r [-> Hok]%reply_of_ok. split; [done|]. cbn. by apply (li_received _ _ _ Hmore) in Hr.
  - match goal with |- context [if ?b then _ else _] => destruct b end; [|done]. apply inv_answer; [|by cbn; rewrite Hp|done].
    apply inv_link; try done; cbn; [apply (li_lines _ _ _ Hmore)|apply delete_subseteq|apply (li_received _ _ _ Hmore)].
Qed.

Lemma inv_write name es c wrote : link_inv name es (link_run name es) ->
  link_inv name (es ++ [LeWrite c wrote]) (link_step (link_run name es) (LeWrite c wrote)).
Proof.
  intros Hinv. apply (inv_more _ _ (LeWrite c wrote)) in Hinv as Hmore. cbn [link_step]. set (s := link_run name es) in *.
  destruct (lr_phase s !! c) as [[]|] eqn:Hp; try done. destruct (lr_calls s !! c) as [[id sent]|] eqn:Hc; [|done].
  destruct wrote as [[]|e]; cbn [call_write].
  - apply (inv_write_down _ _ _ (WLine sent)) in Hmore as Hw.
    2: { intros v [= <-]. by apply (li_calls _ _ _ Hmore) in Hc as (_ & _ & _ & ?). }
    destruct Hw as [H1 H2 H3 H4 H5 H6 H7 H8 H9]. split; try done. intros c'. cbn in *.
    destruct (decide (c = c')) as [<-|Hn]; [intros _; apply H6; by rewrite Hp|]. rewrite lookup_insert_ne by done. apply H6.
  - apply inv_answer; [|by cbn; rewrite Hp|done].
    apply inv_link; try done; cbn; [apply (li_lines _ _ _ Hmore)|apply delete_subseteq|apply (li_received _ _ _ Hmore)].
Qed.

Lemma inv_call name es fields : link_inv name es (link_run name es) ->
  link_inv name (es ++ [LeCall fields]) (link_step (link_run name es) (LeCall fields)).
Proof.
  intros Hinv. apply (inv_more _ _ (LeCall fields)) in Hinv as Hmore. cbn [link_step]. set (s := link_run name es) in *.
  unfold call_begin. destruct (guard_object fields) as [m Hm].
  assert (Hg : forall id, guarded (es ++ [LeCall fields]) (js_set "id" (js_num id) (JsObj m))).
  { intros id. exists fields, id. split; [apply elem_of_app; right; by left|]. unfold numbered_line. by rewrite Hm. }
  destruct (guard_secrets (JsObj fields)) as [g dropped]. cbn [fst] in Hm. subst g.
  pose proof (li_count _ _ _ Hinv) as Hl. destruct Hmore as [H1 H2 H3 H4 H5 H6 H7 H8 H9].
  set (c := ll_channels (lr_link s)) in *. set (id := ll_next_id (lr_link s)) in *.
  assert (Hfresh : lr_calls s !! c = None).
  { destruct (lr_calls s !! c) as [[i x]|] eqn:Hc; [|done]. apply H3 in Hc as [? _]. lia. }
  assert (Hold : forall c' p, lr_calls s !! c' = Some p -> <[c := (id, js_set "id" (js_num id) (JsObj m))]> (lr_calls s) !! c' = Some p).
  { intros c' p Hp. rewrite lookup_insert_ne; [done|]. by intros <-; rewrite Hfresh in Hp. }
  split; cbn -[js_set].
  - exact H1.
  - rewrite H2. unfold wrap64. rewrite N.Div0.add_mod_idemp_l. f_equal. lia.
  - intros c' i x. destruct (decide (c = c')) as [<-|Hn].
    + rewrite lookup_insert_eq. intros [= <- <-]. split_and!; [lia|done|apply begun_id|apply Hg].
    + rewrite lookup_insert_ne by done. intros (? & ? & ? & ?)%H3. split_and!; [lia|done..].
  - intros i c'. destruct (decide (id = i)) as [<-|Hn].
    + rewrite lookup_insert_eq. intros [= <-]. rewrite lookup_insert_eq. by eexists.
    + rewrite lookup_insert_ne by done. intros [x Hx]%H4. exists x. by apply Hold.
  - intros c' r (i & x & Hx & Hb)%H5. exists i, x. split; [by apply Hold|done].
  - intros c'. destruct (decide (c = c')) as [<-|Hn].
    + intros _. rewrite lookup_insert_eq. split; [by eexists|]. destruct (lr_answers s !! c) eqn:Ha; [|done].
      destruct (H7 c) as [? Hx]; [by rewrite Ha|]. by rewrite Hfresh in Hx.
    + rewrite !lookup_insert_ne by done. apply H6.
  - intros c' [p Hp]%H7. exists p. by apply Hold.
  - intros c' r (Hok & i & x & Hx & Hb)%H8. split; [done|]. exists i, x. split; [by apply Hold|done].
  - rewrite length_app. cbn. lia.
Qed.

Lemma link_run_inv name es : link_inv name es (link_run name es).
Proof.
  induction es as [|e es IH] using rev_ind.
  { split; cbn; intros; try match goal with H : is_Some _ |- _ => destruct H end; simplify_map_eq; try done.
    by match goal with H : _ ∈ [] |- _ => apply not_elem_of_nil in H end. }
  rewrite link_run_snoc. destruct e as [fields|c wrote|parsed|c timed_out|bytes| |];
    [by apply inv_call|by apply inv_write|by apply inv_line|by apply inv_wake|..]; cbn [link_step].
  - apply (inv_more _ _ (LeRaw bytes)) in IH. by apply (inv_write_down _ _ _ (WRaw bytes)) in IH.
  - apply (inv_more _ _ LeClose) in IH. apply (inv_link _ _ _ (close_writer (lr_link (link_run name es)))) in IH as H; try done;
      [apply (li_lines _ _ _ IH)|apply (li_received _ _ _ IH)].
  - apply (inv_more _ _ LeEnd) in IH. apply (inv_link _ _ _ (pump_end (lr_link (link_run name es)))) in IH as H; try done;
      [apply (li_lines _ _ _ IH)|apply map_empty_subseteq|apply (li_received _ _ _ IH)].
Qed.


(** C29. A caller that gets a reply gets the one with the number of its own request, which
    arrived after the request was numbered and says [ok: true]; and no other call had that
    number, as long as there were fewer than 2^64. *)
Theorem replies_reach_their_callers (name : string) (es : list LinkEvent) (c : nat) (reply : Json)
    (Hanswer : lr_answers (link_run name es) !! c = Some (Ok reply)) (Hfew : (N.of_nat (length es) < 2 ^ 64)%N) :
  exists id sent es1 es2,
    lr_calls (link_run name es) !! c = Some (id, sent) /\ get_u64 "id" sent = Some id /\
    get_u64 "id" reply = Some id /\ get_bool "ok" reply = Some true /\
    es = es1 ++ LeLine (Some reply) :: es2 /\ is_Some (lr_calls (link_run name es1) !! c) /\
    (forall c' sent', lr_calls (link_run name es) !! c' = Some (id, sent') -> c' = c).
Proof.
  pose proof (link_run_inv name es) as Hinv. destruct (li_ok _ _ _ Hinv _ _ Hanswer) as (Hok & id & sent & Hc & Hid & es1 & es2 & x & He & Hx).
  exists id, sent, es1, es2. destruct (li_calls _ _ _ Hinv _ _ _ Hc) as (Hlt & -> & Hs & _). split_and!; try done.
  intros c' s' (Hlt' & Heq & _)%(li_calls _ _ _ Hinv). pose proof (li_count _ _ _ Hinv). unfold wrap64 in Heq.
  rewrite !N.mod_small in Heq by lia. lia.
Qed.

(** A run with two callers whose replies come back in the other order. *)
Definition demo_events : list LinkEvent :=
  let reply id := JsObj [("id", js_num id); ("ok", JsBool true)] in
  [LeCall [("kind", JsStr "inventory"); ("op", JsStr "list")]; LeWrite 0 (Ok tt);
   LeCall [("body", JsObj [("secret", JsBool true); ("text", JsStr "pw")]); ("kind", JsStr "notify"); ("op", JsStr "deliver")];
   LeWrite 1 (Ok tt); LeLine (Some (reply 2%N)); LeLine (Some (reply 1%N)); LeWake 1 false; LeWake 0 true].


Lemma replies_reach_their_callers_witness :
  let reply := JsObj [("id", js_num 2); ("ok", JsBool true)] in
  lr_answers (link_run "h" demo_events) !! 1 = Some (Ok reply) /\
  exists id, get_u64 "id" reply = Some id /\ forall c' sent', lr_calls (link_run "h" demo_events) !! c' = Some (id, sent') -> c' = 1.
Proof.
  intros reply. assert (H : lr_answers (link_run "h" demo_events) !! 1 = Some (Ok reply)) by reflexivity. split; [exact H|].
  destruct (replies_reach_their_callers "h" demo_events 1 reply H eq_refl) as (id & sent & es1 & es2 & _ & _ & Hid & _ & _ & _ & Hone).
  by exists id.
Defined.

(** ** No message but the two has a place for a secret *)

(** The guard never changes a message the engine sends, as long as an entry it
    journals carries no secret: only the body of [execute.run] and the value of
    [secrets.deliver] can be one. *)
Theorem guard_is_idle (m : Message) (Hentry : forall e, m = MAppend e -> forall t, ~ carries e t) :
  guard_secrets (request_of m) = (request_of m, []).
Proof.
  assert (Hs : permitted (request_of m) = true \/ outer_secrets (request_of m) = []).
  { destruct m as [e| | | |op Hop| | | | | | | |i d [] x|i d [] a p| | | |op Hop h a []]; cbn [request_of]; try op_cases; auto.
    right. transitivity (outer_secrets e ++ []); [reflexivity|]. rewrite app_nil_r. destruct (outer_secrets e) as [|t l] eqn:Ho; [done|].
    exfalso. apply (Hentry e eq_refl t), outer_secrets_carried. rewrite Ho. by left. }
  unfold guard_secrets. destruct (permitted (request_of m)); [done|]. destruct Hs as [|Hs]; [done|].
  destruct (scrub_spec (request_of m) EmptyString) as (_ & Hl & Hsame). rewrite Hs in Hl. apply length_zero_iff_nil in Hl.
  rewrite (surjective_pairing (scrub _ _)). by rewrite Hl, Hsame.
Qed.

Lemma guard_is_idle_witness :
  guard_secrets (request_of (MAppend (JsObj [("secret", JsBool false); ("text", JsStr "pw")])))
  = (request_of (MAppend (JsObj [("secret", JsBool false); ("text", JsStr "pw")])), []).
Proof.
  apply guard_is_idle. intros e [= <-] t. inversion 1 as [? ? Hs|? k x ? Hx Ht|]; subst; [done|].
  repeat (apply elem_of_cons in Hx as [[= -> ->]|Hx]; [by inversion Ht|]). by apply not_elem_of_nil in Hx.
Defined.

(** A secret inside the object of another secret stays: [scrub] goes no further than the
    outer one. It is [nested], the case the theorem on the wire leaves out. *)
Example nested_secret_stays :
  let inner := JsObj [("secret", JsBool true); ("text", JsStr "pw")] in
  guard_secrets (JsObj [("body", JsObj [("inner", inner); ("secret", JsBool true); ("text", JsStr "x")]); ("kind", JsStr "notify")])
  = (JsObj [("body", JsObj [("inner", inner); ("secret", JsBool true); ("text", JsStr DROPPED)]); ("kind", JsStr "notify")], ["body"]).
Proof. reflexivity. Qed.
