(* ===== verification/HookAdapters.v ===== *)
(** * A hook as each of the engine's traits

    The rest of [engine/src/hook.rs]: the registry of the hooks that are there, the check of
    a registration, and the adapters ([HookExecutor], [HookScheduler], ...), which look their
    hook up by name at call time and present it as an instance of a class of [Executor].
    They are over any links ([HookLink]); [LineLink] is one ([Wire]). *)

From Stdlib Require Import Ascii.
From stdpp Require Import base strings pretty numbers option list sets gmap.
From S2P Require Import Prelude Monad Ordered Utf8 Model Journal Resolve Executor Json HookProto Hook.

(** ** Links and the registry *)

(** [trait HookLink]: a link answers with a reply that says [ok: true], or says why not. *)
Class HookLink (W L : Type) := {
  hl_call : L -> Json -> N -> W -> W * Result Json HookError;
  hl_ok : forall l request deadline w w' reply, hl_call l request deadline w = (w', Ok reply) -> get_bool "ok" reply = Some true;
}.

Record Registered (L : Type) := mkRegistered {
  rd_registration : Registration;
  rd_registrar : string;
  rd_connection : string;
  rd_link : L;
}.
Arguments mkRegistered {L} _ _ _ _.
Arguments rd_registration {L} _.
Arguments rd_registrar {L} _.
Arguments rd_connection {L} _.
Arguments rd_link {L} _.

Section Registry.
Context {L : Type}.

Definition register (r : Registered L) (hooks : BMap (Registered L)) : BMap (Registered L) :=
  bm_insert (rg_name (rd_registration r)) r hooks.

Definition deregister (name : string) (hooks : BMap (Registered L)) : BMap (Registered L) * option (string * string) :=
  (List.filter (fun e => fst e != name) hooks, (fun r => (rd_registrar r, rd_connection r)) <$> bm_get name hooks).

Definition names (hooks : BMap (Registered L)) : list string := map fst hooks.

Definition link (name : string) (hooks : BMap (Registered L)) : Result (L * Registration) HookError :=
  match bm_get name hooks with
  | Some r => Ok (rd_link r, rd_registration r)
  | None => Err (HkUnregistered name)
  end.

(** Every registered hook serving a kind. *)
Definition serving (kind : string) (hooks : BMap (Registered L)) : list string :=
  map (fun e => rg_name (rd_registration (snd e)))
    (List.filter (fun e => existsb (fun k => k == kind) (rg_kinds (rd_registration (snd e)))) hooks).
End Registry.

(** What [spawn_stdio_hook] makes of the first line a child wrote: its registration, or why
    it is none. [from_str] is serde's parser and [registration_of] its reader of the
    record. *)
Definition read_registration (from_str : string -> Result Json string) (registration_of : Json -> Result Registration string)
    (name line : string) : Result Registration HookError :=
  if trim line == EmptyString then
    Err (HkContract (concats [name; ": it wrote nothing before ending; the first line of a hook's stdout is its              register frame"]))
  else match from_str (trim_end line) with
  | Err e => Err (HkContract (concats [name; ": its first line is not a register frame: "; e]))
  | Ok frame =>
      match js_get "register" frame with
      | None => Err (HkContract (name +:+ ": its first frame must be a register"))
      | Some v =>
          match registration_of v with
          | Err e => Err (HkContract (concats [name; ": register: "; e]))
          | Ok reg =>
              if (rg_protocol reg =? HOOK_PROTOCOL)%N then
                if rg_name reg == name then Ok reg else Err (HkContract (concats [name; ": registers as "; rg_name reg]))
              else Err (HkContract (concats [name; ": hook protocol "; show (rg_protocol reg); " is not "; show HOOK_PROTOCOL; " (R0501)"]))
          end
      end
  end.

(** ** The adapters *)

Definition hook_exec_error (e : HookError) : ExecError :=
  match e with
  | HkSilent => ExSilent
  | HkRefused r => ExFailed r
  | HkContract m => ExFailed ("R0303: " +:+ m)
  | HkUnregistered n => ExUnreachable (concats ["hook "; n; " not registered"])
  | HkIo m => ExIo m
  end.

Record HookExecutor := mkHookExecutor { hx_name : string; hx_transport : string; hx_deadline : N }.
Record HookSink := mkHookSink { hs_name : string; hs_deadline : N }.
Record HookScheduler := mkHookScheduler { hd_name : string; hd_deadline : N }.
Record HookApproval := mkHookApproval { ha_name : string; ha_deadline : N }.
Record HookAcceptor := mkHookAcceptor { hc_name : string; hc_deadline : N }.
Record HookSource := mkHookSource { ho_name : string; ho_deadline : N }.
Record HookNotify := mkHookNotify { hn_name : string; hn_deadline : N }.

(** What the adapters use of serde: the readers of four records and the writer of an
    entry. *)
Class HookSerde := {
  bootstrap_of : Json -> Result BootstrapState string;
  dirs_of : Json -> Result (list InstanceDirState) string;
  authenticators_of : Json -> Result (list Authenticator) string;
  hosts_of : Json -> Result (list InventoryHost) string;
  entry_to_value : Entry -> Json;
}.

Section Adapters.
Context {W L : Type} `{!HookLink W L} `{!HookSerde}.
(** The registry the adapters share, wherever the world has it. *)
Context (hooks : W -> BMap (Registered L)).

(** The [call] of the adapters. *)
Definition adapter_call (name : string) (deadline : N) (request : Json) (w : W) : W * Exec Json :=
  match link name (hooks w) with
  | Err e => (w, Err (ExUnreachable (display_hook_error e)))
  | Ok (l, _) =>
      match hl_call l request deadline w with
      | (w, Ok reply) => (w, Ok reply)
      | (w, Err e) => (w, Err (hook_exec_error e))
      end
  end.

(** [field(&reply, name).map_err(|e| ExecError::Failed(e.to_string()))] *)
Definition need (reply : Json) (name : string) : Exec Json :=
  match field reply name with
  | Ok v => Ok v
  | Err e => Err (ExFailed (display_hook_error e))
  end.

Definition r0303 {A} (r : Result A string) : Exec A :=
  match r with
  | Ok x => Ok x
  | Err e => Err (ExFailed ("R0303: " +:+ e))
  end.

(** What a call's answer is read as. *)
Definition reading {A} (read : Json -> Exec A) (m : W * Exec Json) : W * Exec A :=
  let '(w, r) := m in (w, rbind r read).

Definition host_name (h : EHost) : string := hr_name (eh_record h).

Definition read_output (reply : Json) : Exec RunOutput :=
  let? out := need reply "output" in
  let stdout := default EmptyString (get_str "stdout" out) in
  let outputs :=
    match js_get "outputs" out ≫= js_object with
    | Some m => list_to_map (map (fun e => (fst e, default EmptyString (js_str (snd e)))) m)
    | None => ∅
    end in
  Ok (mkRunOutput stdout outputs).

Definition read_observation (reply : Json) : Exec Observation :=
  let? fact := need reply "fact" in
  let text := default EmptyString (get_str "text" fact) in
  let tri :=
    match get_str "tri" fact with
    | Some t => if t == "yes" then Some Yes else if t == "no" then Some No else if t == "unknown" then Some Unknown else None
    | None => None
    end in
  Ok (mkObservation text tri).

Definition read_state (reply : Json) : Exec BootstrapState := let? s := need reply "state" in r0303 (bootstrap_of s).

Definition read_dirs (reply : Json) : Exec (list InstanceDirState) := let? dirs := need reply "dirs" in r0303 (dirs_of dirs).

Definition read_content (reply : Json) : Exec string := let? c := need reply "content" in Ok (default EmptyString (js_str c)).

Definition hook_clock_now (x : HookExecutor) (host : EHost) (w : W) : W * Exec (option Instant) :=
  let '(w, r) := adapter_call (hx_name x) (hx_deadline x) (execute_op "clock" (host_name host) None) w in
  match r with
  | Err (ExFailed _) => (w, Ok None)
  | Err e => (w, Err e)
  | Ok reply =>
      match get_u64 "epoch_s" reply with
      | Some s => (w, Ok (Some s))
      | None => (w, Err (ExFailed "R0303: execute.clock without epoch_s"))
      end
  end.

(** [impl Executor for HookExecutor]. The lock of a host is held by the hook, so its guard's
    drop does nothing. *)
#[export] Instance hook_executor : Executor W HookExecutor := {|
  ex_locus x w := LkHook (hx_transport x);
  ex_capabilities x w :=
    match link (hx_name x) (hooks w) with
    | Ok (_, r) => mkExecCaps (rg_filesystem r) (rg_stdin_preamble r)
    | Err _ => mkExecCaps false false
    end;
  ex_run x host inst body w := reading read_output (adapter_call (hx_name x) (hx_deadline x) (execute_run (host_name host) inst body) w);
  ex_observe x host probe w :=
    reading read_observation (adapter_call (hx_name x) (hx_deadline x) (probe_observe (host_name host) (pr_name probe)) w);
  ex_read_fact x host shape w :=
    reading (fun reply => Ok (get_str "content" reply))
      (adapter_call (hx_name x) (hx_deadline x) (execute_read_fact (host_name host) shape) w);
  ex_bootstrap_state x host w :=
    reading read_state (adapter_call (hx_name x) (hx_deadline x) (execute_op "bootstrap_state" (host_name host) None) w);
  ex_clock_now := hook_clock_now;
  ex_instance_dir_create x host inst w :=
    reading (fun _ => Ok tt) (adapter_call (hx_name x) (hx_deadline x) (execute_op "instance_dir_create" (host_name host) (Some inst)) w);
  ex_instance_dir_remove x host inst w :=
    reading (fun _ => Ok tt) (adapter_call (hx_name x) (hx_deadline x) (execute_op "instance_dir_remove" (host_name host) (Some inst)) w);
  ex_instance_dir_list x host w :=
    reading read_dirs (adapter_call (hx_name x) (hx_deadline x) (execute_op "instance_dir_list" (host_name host) None) w);
  ex_put_file x host inst rel bytes mode w :=
    reading (fun _ => Ok tt)
      (adapter_call (hx_name x) (hx_deadline x) (execute_put_file (host_name host) inst rel (from_utf8_lossy bytes) mode) w);
  ex_replace_file x host inst rel bytes w :=
    reading (fun _ => Ok tt)
      (adapter_call (hx_name x) (hx_deadline x) (execute_replace_file (host_name host) inst rel (from_utf8_lossy bytes)) w);
  ex_get_file x host inst rel w :=
    reading read_content (adapter_call (hx_name x) (hx_deadline x) (execute_get_file (host_name host) inst rel) w);
  ex_remove_file x host inst rel w :=
    reading (fun _ => Ok tt) (adapter_call (hx_name x) (hx_deadline x) (execute_remove_file (host_name host) inst rel) w);
  ex_host_lock x host w := reading (fun _ => Ok tt) (adapter_call (hx_name x) (hx_deadline x) (execute_op "host_lock" (host_name host) None) w);
  ex_unlock x host w := w;
|}.

(** [impl Sink for HookSink] *)
Definition hook_sink_name (s : HookSink) : string := concats ["hook(:"; hs_name s; ")"].

Definition hook_sink_deliver (s : HookSink) (e : Entry) (w : W) : W * option string :=
  match link (hs_name s) (hooks w) with
  | Err x => (w, Some (display_hook_error x))
  | Ok (l, _) =>
      match hl_call l (journal_append_request entry_to_value e) (hs_deadline s) w with
      | (w, Ok _) => (w, None)
      | (w, Err x) => (w, Some (display_hook_error x))
      end
  end.

Definition into_host (h : InventoryHost) : EHost :=
  let facts := if negb (length (ih_roles h) =? 0)%nat then <["roles" := join "," (ih_roles h)]> (ih_facts h) else ih_facts h in
  mkEHost
    (mkHostRecord (ih_name h) (ih_os h) (ih_reach h) (ih_filesystem h) (default (ih_filesystem h) (ih_stdin_preamble h)) (ih_artifact h))
    (ih_address h) (ih_scheduler h) (ih_rescind_root h) facts.

Definition hook_inventory (name : string) (deadline : N) (w : W) : W * Result (list EHost) HookError :=
  match link name (hooks w) with
  | Err e => (w, Err e)
  | Ok (l, _) =>
      let '(w, r) := hl_call l inventory_list deadline w in
      (w, let? reply := r in
          let? hosts := field reply "hosts" in
          match hosts_of hosts with
          | Err e => Err (HkContract ("hosts: " +:+ e))
          | Ok records => Ok (map into_host records)
          end)
  end.

(** [HookScheduler::op] *)
Definition scheduler_call (d : HookScheduler) (op : string) (host : EHost) (job : Job) (deadline : option N) (w : W) : W * Exec unit :=
  reading (fun _ => Ok tt) (adapter_call (hd_name d) (hd_deadline d) (scheduler_op op (host_name host) (jb_artifact job) deadline) w).

Definition read_presence (reply : Json) : Exec Presence :=
  match js_get "present" reply with
  | Some (JsBool true) => Ok Present
  | Some (JsBool false) => Ok Absent
  | Some (JsStr s) => if s == "unknown" then Ok PresenceUnknown else Err (ExFailed "R0303: scheduler.present without a present field")
  | _ => Err (ExFailed "R0303: scheduler.present without a present field")
  end.

#[export] Instance hook_scheduler {X} : Scheduler W X HookScheduler := {|
  sc_scheduler_name d w := hd_name d;
  sc_install d x host job w := scheduler_call d "install" host job None w;
  sc_arm d x host job deadline w := scheduler_call d "arm" host job (Some deadline) w;
  sc_rearm d x host job deadline w := scheduler_call d "rearm" host job (Some deadline) w;
  sc_disarm d x host job w := scheduler_call d "disarm" host job None w;
  sc_present d x host job w :=
    reading read_presence (adapter_call (hd_name d) (hd_deadline d) (scheduler_op "present" (host_name host) (jb_artifact job) None) w);
|}.

Definition read_authenticators (reply : Json) : Exec (list Authenticator) :=
  let? v := need reply "authenticators" in r0303 (authenticators_of v).

Definition read_challenge (reply : Json) : Exec string :=
  match get_str "challenge" reply with
  | Some c => Ok c
  | None => Err (ExFailed "R0303: approval.challenge without a challenge")
  end.

Definition read_verdict (reply : Json) : Exec Verified :=
  match get_bool "verified" reply with
  | Some verified => Ok (mkVerified verified (default EmptyString (get_str "reason" reply)))
  | None => Err (ExFailed "R0303: approval.verify without a verified field")
  end.

#[export] Instance hook_approval : Approval W HookApproval := {|
  ap_authenticators a w := reading read_authenticators (adapter_call (ha_name a) (ha_deadline a) approval_authenticators w);
  ap_challenge a r w :=
    reading read_challenge
      (adapter_call (ha_name a) (ha_deadline a)
         (approval_challenge (pq_instance r) (to_hex (pq_digest r)) (scope_json (pq_scope r)) (JsStr (pq_context r))) w);
  ap_verify a r w :=
    reading read_verdict
      (adapter_call (ha_name a) (ha_deadline a)
         (approval_verify (pq_instance r) (to_hex (pq_digest r)) (scope_json (pq_scope r)) (pq_authenticator r) (pq_proof r)) w);
  ap_approves_everything a w := false;
|}.

Definition read_accepted (reply : Json) : Exec bool :=
  match get_bool "accepted" reply with
  | Some a => Ok a
  | None => Err (ExFailed "R0303: secrets.deliver without an accepted field")
  end.

(** [impl Acceptor for HookAcceptor], the rest of the trait by its defaults. *)
#[export] Instance hook_acceptor : Acceptor W HookAcceptor := {|
  ac_name c w := hc_name c;
  ac_deliver c inst label value now until w :=
    reading read_accepted (adapter_call (hc_name c) (hc_deadline c) (secrets_deliver inst label value) w);
  ac_take c inst w := (w, None);
  ac_drop_for c inst w := (w, []);
  ac_expire c now w := (w, []);
  ac_drop_all c w := (w, []);
|}.

Definition read_value (reply : Json) : Exec string :=
  match get_str "value" reply with
  | Some v => Ok v
  | None => Err (ExFailed "R0303: secrets.resolve without a value")
  end.

#[export] Instance hook_source : Source W HookSource := {|
  so_resolve o reference w := reading read_value (adapter_call (ho_name o) (ho_deadline o) (secrets_resolve reference) w);
|}.

#[export] Instance hook_notify : Notify W HookNotify := {|
  nt_deliver o level subject body w :=
    reading (fun _ => Ok tt) (adapter_call (hn_name o) (hn_deadline o) (notify_deliver (level_word level) subject body) w);
|}.
End Adapters.

(** ** What an adapter accepts *)

Section Demands.
Context {W L : Type} `{!HookLink W L} `{!HookSerde} (hooks : W -> BMap (Registered L)).

(** Every call an adapter makes, by the method of the class it serves. *)
Inductive HookCall :=
| HcRun (x : HookExecutor) (host : EHost) (inst : string) (body : list RPrim)
| HcObserve (x : HookExecutor) (host : EHost) (probe : ProbeRun)
| HcReadFact (x : HookExecutor) (host : EHost) (shape : string)
| HcBootstrapState (x : HookExecutor) (host : EHost)
| HcClock (x : HookExecutor) (host : EHost)
| HcDirCreate (x : HookExecutor) (host : EHost) (inst : string)
| HcDirRemove (x : HookExecutor) (host : EHost) (inst : string)
| HcDirList (x : HookExecutor) (host : EHost)
| HcPut (x : HookExecutor) (host : EHost) (inst rel bytes : string) (mode : N)
| HcReplace (x : HookExecutor) (host : EHost) (inst rel bytes : string)
| HcGet (x : HookExecutor) (host : EHost) (inst rel : string)
| HcRemove (x : HookExecutor) (host : EHost) (inst rel : string)
| HcLock (x : HookExecutor) (host : EHost)
| HcAppend (s : HookSink) (e : Entry)
| HcInventory (name : string) (deadline : N)
| HcInstall (d : HookScheduler) (host : EHost) (job : Job)
| HcArm (d : HookScheduler) (host : EHost) (job : Job) (at_ : Instant)
| HcRearm (d : HookScheduler) (host : EHost) (job : Job) (at_ : Instant)
| HcDisarm (d : HookScheduler) (host : EHost) (job : Job)
| HcPresent (d : HookScheduler) (host : EHost) (job : Job)
| HcAuthenticators (a : HookApproval)
| HcChallenge (a : HookApproval) (r : ProofRequest)
| HcVerify (a : HookApproval) (r : ProofRequest)
| HcDeliver (c : HookAcceptor) (inst label value : string) (now : Instant) (until : option Instant)
| HcResolve (o : HookSource) (reference : string)
| HcNotify (o : HookNotify) (level : Level) (subject body : string).

(** Which hook a call goes to, and how long it waits. *)
Definition called (c : HookCall) : string * N :=
  match c with
  | HcRun x _ _ _ | HcObserve x _ _ | HcReadFact x _ _ | HcBootstrapState x _ | HcClock x _ | HcDirCreate x _ _
  | HcDirRemove x _ _ | HcDirList x _ | HcPut x _ _ _ _ _ | HcReplace x _ _ _ _ | HcGet x _ _ _ | HcRemove x _ _ _
  | HcLock x _ => (hx_name x, hx_deadline x)
  | HcAppend s _ => (hs_name s, hs_deadline s)
  | HcInventory name deadline => (name, deadline)
  | HcInstall d _ _ | HcArm d _ _ _ | HcRearm d _ _ _ | HcDisarm d _ _ | HcPresent d _ _ => (hd_name d, hd_deadline d)
  | HcAuthenticators a | HcChallenge a _ | HcVerify a _ => (ha_name a, ha_deadline a)
  | HcDeliver c _ _ _ _ _ => (hc_name c, hc_deadline c)
  | HcResolve o _ => (ho_name o, ho_deadline o)
  | HcNotify o _ _ _ => (hn_name o, hn_deadline o)
  end.

(** The kind and the op of a call. *)
Definition called_op (c : HookCall) : string * string :=
  match c with
  | HcRun _ _ _ _ => ("execute", "run") | HcObserve _ _ _ => ("probe", "observe")
  | HcReadFact _ _ _ => ("execute", "read_fact") | HcBootstrapState _ _ => ("execute", "bootstrap_state")
  | HcClock _ _ => ("execute", "clock") | HcDirCreate _ _ _ => ("execute", "instance_dir_create")
  | HcDirRemove _ _ _ => ("execute", "instance_dir_remove") | HcDirList _ _ => ("execute", "instance_dir_list")
  | HcPut _ _ _ _ _ _ => ("execute", "put_file") | HcReplace _ _ _ _ _ => ("execute", "replace_file")
  | HcGet _ _ _ _ => ("execute", "get_file") | HcRemove _ _ _ _ => ("execute", "remove_file")
  | HcLock _ _ => ("execute", "host_lock") | HcAppend _ _ => ("journal", "append") | HcInventory _ _ => ("inventory", "list")
  | HcInstall _ _ _ => ("scheduler", "install") | HcArm _ _ _ _ => ("scheduler", "arm")
  | HcRearm _ _ _ _ => ("scheduler", "rearm") | HcDisarm _ _ _ => ("scheduler", "disarm")
  | HcPresent _ _ _ => ("scheduler", "present") | HcAuthenticators _ => ("approval", "authenticators")
  | HcChallenge _ _ => ("approval", "challenge") | HcVerify _ _ => ("approval", "verify")
  | HcDeliver _ _ _ _ _ _ => ("secrets", "deliver") | HcResolve _ _ => ("secrets", "resolve")
  | HcNotify _ _ _ _ => ("notify", "deliver")
  end.

Definition taken {A} (m : W * Exec A) : W * bool := (fst m, is_ok (snd m)).

(** The call, and whether the engine takes an answer from it. The clock's [Ok(None)] is
    not one. *)
Definition hook_use (c : HookCall) (w : W) : W * bool :=
  let _ := @hook_executor W L _ _ hooks in
  let _ := @hook_scheduler W L _ hooks unit in
  let _ := @hook_approval W L _ _ hooks in
  let _ := @hook_acceptor W L _ hooks in
  let _ := @hook_source W L _ hooks in
  let _ := @hook_notify W L _ hooks in
  match c with
  | HcRun x host inst body => taken (ex_run x host inst body w)
  | HcObserve x host probe => taken (ex_observe x host probe w)
  | HcReadFact x host shape => taken (ex_read_fact x host shape w)
  | HcBootstrapState x host => taken (ex_bootstrap_state x host w)
  | HcClock x host =>
      let '(w, r) := ex_clock_now x host w in (w, match r with Ok (Some _) => true | _ => false end)
  | HcDirCreate x host inst => taken (ex_instance_dir_create x host inst w)
  | HcDirRemove x host inst => taken (ex_instance_dir_remove x host inst w)
  | HcDirList x host => taken (ex_instance_dir_list x host w)
  | HcPut x host inst rel bytes mode => taken (ex_put_file x host inst rel bytes mode w)
  | HcReplace x host inst rel bytes => taken (ex_replace_file x host inst rel bytes w)
  | HcGet x host inst rel => taken (ex_get_file x host inst rel w)
  | HcRemove x host inst rel => taken (ex_remove_file x host inst rel w)
  | HcLock x host => taken (ex_host_lock x host w)
  | HcAppend s e => let '(w, r) := hook_sink_deliver hooks s e w in (w, match r with None => true | Some _ => false end)
  | HcInventory name deadline => let '(w, r) := hook_inventory hooks name deadline w in (w, is_ok r)
  | HcInstall d host job => taken (sc_install d tt host job w)
  | HcArm d host job at_ => taken (sc_arm d tt host job at_ w)
  | HcRearm d host job at_ => taken (sc_rearm d tt host job at_ w)
  | HcDisarm d host job => taken (sc_disarm d tt host job w)
  | HcPresent d host job => taken (sc_present d tt host job w)
  | HcAuthenticators a => taken (ap_authenticators a w)
  | HcChallenge a r => taken (ap_challenge a r w)
  | HcVerify a r => taken (ap_verify a r w)
  | HcDeliver a inst label value now until => taken (ac_deliver a inst label value now until w)
  | HcResolve o reference => taken (so_resolve o reference w)
  | HcNotify o level subject body => taken (nt_deliver o level subject body w)
  end.

(** A reply of a hook that is there, which says [ok: true] and has what the row of the
    op requires. *)
Definition demanded (c : HookCall) (w w' : W) : Prop :=
  exists l reg request reply o,
    link (fst (called c)) (hooks w) = Ok (l, reg) /\
    hl_call l request (snd (called c)) w = (w', Ok reply) /\
    row_of request = Some o /\ (op_kind o, op_name o) = called_op c /\
    get_bool "ok" reply = Some true /\ Forall (fun f => is_Some (js_get f reply)) (op_required_reply o).

Lemma adapter_call_ok name deadline request w w' reply : adapter_call hooks name deadline request w = (w', Ok reply) ->
  exists l reg, link name (hooks w) = Ok (l, reg) /\ hl_call l request deadline w = (w', Ok reply) /\ get_bool "ok" reply = Some true.
Proof.
  unfold adapter_call. destruct (link name (hooks w)) as [[l reg]|]; [|done].
  destruct (hl_call l request deadline w) as [w1 [r|e]] eqn:Hc; intros [= <- <-]. exists l, reg. split_and!; [done|done|]. by eapply hl_ok, Hc.
Qed.

Lemma taken_reading {A} c (read : Json -> Exec A) request o w w' :
  taken (reading read (adapter_call hooks (fst (called c)) (snd (called c)) request w)) = (w', true) ->
  row_of request = Some o -> (op_kind o, op_name o) = called_op c ->
  (forall reply, is_ok (read reply) = true -> Forall (fun f => is_Some (js_get f reply)) (op_required_reply o)) ->
  demanded c w w'.
Proof.
  unfold taken, reading. destruct (adapter_call _ _ _ _ w) as [w1 r] eqn:Hc. cbn [fst snd]. intros Ht Hrow Hop Hread.
  destruct r as [reply|e]; [|done]. injection Ht as <- Hok. apply adapter_call_ok in Hc as (l & reg & Hl & Hcall & Hokb).
  exists l, reg, request, reply, o. split_and!; try done. by apply Hread.
Qed.

Lemma need_there {A} f (read : Json -> Exec A) reply : is_ok (rbind (need reply f) read) = true -> is_Some (js_get f reply).
Proof. unfold need, field. by destruct (js_get f reply) as [v|]. Qed.

Lemma got_str f reply : is_Some (get_str f reply) -> is_Some (js_get f reply).
Proof. unfold get_str. intros [x Hx]. by destruct (js_get f reply). Qed.

Lemma got_bool f reply : is_Some (get_bool f reply) -> is_Some (js_get f reply).
Proof. unfold get_bool. intros [x Hx]. by destruct (js_get f reply). Qed.

Lemma clock_demands x host w w' t : hook_clock_now hooks x host w = (w', Ok (Some t)) -> demanded (HcClock x host) w w'.
Proof.
  unfold hook_clock_now. destruct (adapter_call _ _ _ _ w) as [w1 [reply|[]]] eqn:Hc; try done.
  destruct (get_u64 "epoch_s" reply) as [e|] eqn:He; [|done]. intros [= -> ->].
  apply adapter_call_ok in Hc as (l & reg & Hl & Hcall & Hok). eexists l, reg, _, reply, _.
  split_and!; [exact Hl|exact Hcall|reflexivity|reflexivity|done|]. constructor; [|constructor]. unfold get_u64 in He.
  by destruct (js_get "epoch_s" reply).
Qed.

Lemma append_demands s e w w' : hook_sink_deliver hooks s e w = (w', None) -> demanded (HcAppend s e) w w'.
Proof.
  unfold hook_sink_deliver. destruct (link (hs_name s) (hooks w)) as [[l reg]|] eqn:Hl; [|done].
  destruct (hl_call _ _ _ w) as [w1 [reply|]] eqn:Hc; [|done]. intros [= ->]. eexists l, reg, _, reply, _.
  split_and!; [exact Hl|exact Hc|reflexivity|reflexivity|by eapply hl_ok, Hc|constructor].
Qed.

Lemma inventory_demands name deadline w w' hosts : hook_inventory hooks name deadline w = (w', Ok hosts) ->
  demanded (HcInventory name deadline) w w'.
Proof.
  unfold hook_inventory. destruct (link name (hooks w)) as [[l reg]|] eqn:Hl; [|done].
  destruct (hl_call _ _ _ w) as [w1 [reply|]] eqn:Hc; [|done]. cbn [rbind]. intros [= -> Hr]. eexists l, reg, _, reply, _.
  split_and!; [exact Hl|exact Hc|reflexivity|reflexivity|by eapply hl_ok, Hc|]. constructor; [|constructor].
  unfold field in Hr. by destruct (js_get "hosts" reply).
Qed.

Lemma presence_demands reply : is_ok (read_presence reply) = true -> is_Some (js_get "present" reply).
Proof. unfold read_presence. by destruct (js_get "present" reply). Qed.

(** An adapter takes an answer only from a hook that is registered under its name,
    that says [ok: true] and gives every field the op requires: silence, a refusal, a
    broken line or a reply without a field is an error or, for the clock, no reading. *)
Theorem adapters_demand_their_fields (c : HookCall) (w w' : W) : hook_use c w = (w', true) -> demanded c w w'.
Proof.
  destruct c; cbn [hook_use]; intros Hu;
    try (eapply taken_reading; [exact Hu|reflexivity|reflexivity|]; cbn [op_required_reply];
         intros reply Hr; repeat constructor; by (eapply need_there; exact Hr)).
  - cbn [ex_clock_now hook_executor] in Hu. destruct (hook_clock_now _ _ _ w) as [w1 [[t|]|]] eqn:Hc; injection Hu as ->; [|done|done].
    by eapply clock_demands.
  - destruct (hook_sink_deliver _ _ _ w) as [w1 [r|]] eqn:Hc; injection Hu as ->; [done|]. by apply append_demands.
  - destruct (hook_inventory _ _ _ w) as [w1 [r|]] eqn:Hc; injection Hu as ->; [|done]. by eapply inventory_demands.
  - eapply taken_reading; [exact Hu|reflexivity|reflexivity|]. intros reply Hr. constructor; [by apply presence_demands|constructor].
  - eapply taken_reading; [exact Hu|reflexivity|reflexivity|]. intros reply Hr. constructor; [apply got_str|constructor].
    unfold read_challenge in Hr. by destruct (get_str "challenge" reply).
  - eapply taken_reading; [exact Hu|reflexivity|reflexivity|]. intros reply Hr. constructor; [apply got_bool|constructor].
    unfold read_verdict in Hr. by destruct (get_bool "verified" reply).
  - eapply taken_reading; [exact Hu|reflexivity|reflexivity|]. intros reply Hr. constructor; [apply got_bool|constructor].
    unfold read_accepted in Hr. by destruct (get_bool "accepted" reply).
  - eapply taken_reading; [exact Hu|reflexivity|reflexivity|]. intros reply Hr. constructor; [apply got_str|constructor].
    unfold read_value in Hr. by destruct (get_str "value" reply).
Qed.
End Demands.

(** ** The link of a connection is one *)

(** A link, and for each call to come whether its line is written and what arrives before
    its deadline. *)
Record Wire := mkWire { wr_link : LineLink; wr_future : list (Result unit string * list (option Json)) }.

(** [LineLink::call], where what happens meanwhile is given: after the last line that
    arrives in time the deadline passes. *)
Definition line_call (request : Json) (w : Wire) : Wire * Result Json HookError :=
  let '(wrote, arrived) := default (Ok tt, []) (head (wr_future w)) in
  let future := tail (wr_future w) in
  let '(l, (id, c, sent)) := call_begin request (wr_link w) in
  match call_write id sent wrote l with
  | (l, Err e) => (mkWire l future, Err e)
  | (l, Ok _) =>
      match call_end id c true (foldl (fun l p => pump_line p l) l arrived) with
      | Some (l, r) => (mkWire l future, r)
      | None => (mkWire l future, Err HkSilent)
      end
  end.

#[export] Instance wire_link : HookLink Wire unit.
Proof.
  refine {| hl_call := fun _ request _ w => line_call request w |}.
  intros _ request _ w w' reply. unfold line_call. destruct (default _ _) as [wrote arrived]. destruct (call_begin _ _) as [l [[id c] sent]].
  destruct (call_write _ _ _ _) as [l1 [[]|e]]; [|done]. unfold call_end.
  destruct (ll_received _ !! c) as [r|].
  - intros [= _ H]. apply reply_of_ok in H as [-> Hok]. done.
  - cbn [orb]. intros [= _ H].
Defined.

(** A caller whose deadline has passed returns. *)
Lemma woken_caller_returns id c l : is_Some (call_end id c true l).
Proof. unfold call_end. destruct (ll_received l !! c); by eexists. Qed.

#[export] Instance demo_serde : HookSerde := {|
  bootstrap_of _ := Err "missing field"; dirs_of _ := Ok []; authenticators_of _ := Ok [];
  hosts_of _ := Ok []; entry_to_value _ := JsNull;
|}.

Definition demo_hooks (w : Wire) : BMap (Registered unit) :=
  [("probe", mkRegistered (mkRegistration "probe" ["probe"] 1 false false) "ops" "pid 1" tt)].

Definition demo_wire : Wire :=
  mkWire (line_link_new "probe")
    [(Ok tt, [Some (JsObj [("fact", JsObj [("text", JsStr "3"); ("tri", JsStr "yes")]); ("id", js_num 1); ("ok", JsBool true)])])].

Definition demo_host : EHost := mkEHost (mkHostRecord "web1" "linux" [] true true None) EmptyString None None ∅.

Lemma adapters_demand_their_fields_witness :
  let c := HcObserve (mkHookExecutor "probe" "api" 30) demo_host (mkProbeRun "uptime" []) in
  let w' := fst (hook_use demo_hooks c demo_wire) in
  hook_use demo_hooks c demo_wire = (w', true) /\ demanded demo_hooks c demo_wire w'.
Proof.
  intros c w'. assert (H : hook_use demo_hooks c demo_wire = (w', true)) by reflexivity. split; [exact H|].
  exact (adapters_demand_their_fields demo_hooks c demo_wire w' H).
Defined.

(** A contract violation of [execute.clock] reads as a host without a clock: [clock_now]
    takes every [Failed] for a hook that does not serve the op. *)
Example broken_clock_is_no_clock :
  snd (hook_clock_now demo_hooks (mkHookExecutor "probe" "api" 30) demo_host
         (mkWire (line_link_new "probe") [(Ok tt, [Some (JsObj [("id", js_num 1); ("ok", JsStr "yes")])])])) = Ok None.
Proof. reflexivity. Qed.

(** A [content] that is no text is taken for an empty file. *)
Example content_of_a_number_is_empty : read_content (JsObj [("content", js_num 5); ("ok", JsBool true)]) = Ok EmptyString.
Proof. reflexivity. Qed.
