(* ===== verification/Control.v ===== *)
(** * The control channel and the daemon

    Three parts: where a secret waits for whoever asked, that is the mailbox between the
    control channel and [requester()] ([engine/src/secrets.rs]), and the two acceptors the
    daemon has of its own, [Requester] and [Hold] ([bindings/src/secrets.rs]), as functions
    of what each keeps; the frames and the verbs of [engine/src/control.rs]; the daemon as a
    machine of connections, verb threads and passes. *)

From Stdlib Require Import Ascii.
From stdpp Require Import base strings option list pretty numbers gmap sets relations.
From S2P Require Import Prelude Ordered Model Executor Fakes Algebra States Ledger Prose Journal EngineJournal Resolve Monad Instance Engine Hosts EngineBackstop Verbs.
From S2P Require Import Upkeep Drill Json HookProto EngineLogic Refine Hook HookAdapters.

(** [Attached]: whether a client is attached, and what was taken for each instance. *)
Record Mailbox := mkMailbox { mb_attached : bool; mb_pending : BMap (list (string * string)) }.

Definition mailbox_new : Mailbox := mkMailbox false [].

Definition attach (on : bool) (m : Mailbox) : Mailbox := mkMailbox on (mb_pending m).

(** [Mailbox::drain]: everything delivered for an instance, taken. *)
Definition drain (inst : string) (m : Mailbox) : Mailbox * list (string * string) :=
  (mkMailbox (mb_attached m) (bm_remove inst (mb_pending m)), default [] (bm_get inst (mb_pending m))).

(** ** [requester()] *)

Definition requester_deliver (inst label value : string) (m : Mailbox) : Mailbox * Exec bool :=
  if negb (mb_attached m) then (m, Ok false)
  else (mkMailbox (mb_attached m) (bm_insert inst (default [] (bm_get inst (mb_pending m)) ++ [(label, value)]) (mb_pending m)), Ok true).

Definition requester_drop_for (inst : string) (m : Mailbox) : Mailbox * list string :=
  (mkMailbox (mb_attached m) (bm_remove inst (mb_pending m)), map fst (default [] (bm_get inst (mb_pending m)))).

Definition requester_drop_all (m : Mailbox) : Mailbox * list (string * string) :=
  (mkMailbox (mb_attached m) [], flat_map (fun e => map (fun x => (fst e, fst x)) (snd e)) (mb_pending m)).

(** ** [hold(until: :wane | DURATION)] *)

Record Kept := mkKept { kp_label : string; kp_value : string; kp_until : option Instant }.

Record Hold := mkHold { ho_duration : option Duration; ho_kept : BMap Kept }.

Definition hold_new (d : option Duration) : Hold := mkHold d [].

(** The earlier of the two bounds. *)
Definition hold_until (d : option Duration) (now : Instant) (until : option Instant) : option Instant :=
  match instant_plus now <$> d, until with
  | Some a, Some b => Some (N.min a b)
  | a, None => a
  | None, b => b
  end.

Definition hold_deliver (inst label value : string) (now : Instant) (until : option Instant) (h : Hold) : Hold * Exec bool :=
  (mkHold (ho_duration h) (bm_insert inst (mkKept label value (hold_until (ho_duration h) now until)) (ho_kept h)), Ok true).

Definition hold_take (inst : string) (h : Hold) : Hold * option (string * string) :=
  (mkHold (ho_duration h) (bm_remove inst (ho_kept h)), (fun k => (kp_label k, kp_value k)) <$> bm_get inst (ho_kept h)).

Definition hold_drop_for (inst : string) (h : Hold) : Hold * list string :=
  (mkHold (ho_duration h) (bm_remove inst (ho_kept h)), match bm_get inst (ho_kept h) with Some k => [kp_label k] | None => [] end).

Definition over (now : Instant) (e : string * Kept) : bool :=
  match kp_until (snd e) with Some u => (u <=? now)%N | None => false end.

Definition hold_expire (now : Instant) (h : Hold) : Hold * list (string * string) :=
  (mkHold (ho_duration h) (List.filter (fun e => negb (over now e)) (ho_kept h)),
   map (fun e => (fst e, kp_label (snd e))) (List.filter (over now) (ho_kept h))).

Definition hold_drop_all (h : Hold) : Hold * list (string * string) :=
  (mkHold (ho_duration h) [], map (fun e => (fst e, kp_label (snd e))) (ho_kept h)).

(** ** What they promise *)

(** A value an acceptor takes can be had, and only once. *)
Lemma bm_get_remove {A} k (m : BMap A) : bm_get k (bm_remove k m) = None.
Proof.
  unfold bm_get, bm_remove. induction m as [|[k' v] m IH]; [done|]. cbn [List.filter fst].
  case_bool_decide as Hk; cbn [negb]; [done|]. cbn [List.find fst]. by rewrite bool_decide_eq_false_2.
Qed.

Lemma bm_get_dropped {A} (f : string * A -> bool) k v m : NoDup (map fst m) -> bm_get k m = Some v -> f (k, v) = false ->
  bm_get k (List.filter f m) = None.
Proof.
  intros Hnd Hk Hf. unfold bm_get in *. induction m as [|[k' v'] m IH]; [done|]. cbn [map fst] in Hnd. apply NoDup_cons in Hnd as [Hnew Hnd].
  cbn [List.find fst] in Hk. cbn [List.filter]. case_bool_decide as Heq.
  - subst k'. injection Hk as ->. rewrite Hf. destruct (List.find _ (List.filter f m)) as [e|] eqn:He; [|done].
    apply find_some in He as [He%filter_In Hk]. destruct He as [He _]. apply bool_decide_eq_true in Hk. subst k. destruct Hnew.
    apply (in_map fst) in He. by apply list_elem_of_In.
  - destruct (f (k', v')); [|by apply IH]. cbn [List.find fst]. rewrite bool_decide_eq_false_2 by done. by apply IH.
Qed.

(** A value held is given once, and not past the earlier of its two bounds: what
    [hold] takes is there to be revealed, a second reveal has nothing, and once the site's
    duration or the plan's wane has passed it is dropped. *)
Theorem held_is_given_once (h : Hold) (inst label value : string) (now t : Instant) (until : option Instant)
    (Hs : bm_sorted (ho_kept h)) :
  let h1 := fst (hold_deliver inst label value now until h) in
  snd (hold_take inst h1) = Some (label, value) /\
  snd (hold_take inst (fst (hold_take inst h1))) = None /\
  (forall d, ho_duration h = Some d -> (instant_plus now d <= t)%N -> snd (hold_take inst (fst (hold_expire t h1))) = None) /\
  (forall u, until = Some u -> (u <= t)%N -> snd (hold_take inst (fst (hold_expire t h1))) = None).
Proof.
  set (h1 := fst (hold_deliver inst label value now until h)).
  assert (Hin : bm_get inst (ho_kept h1) = Some (mkKept label value (hold_until (ho_duration h) now until))) by apply bm_get_insert.
  assert (Hgone : forall u, hold_until (ho_duration h) now until = Some u -> (u <= t)%N ->
                  snd (hold_take inst (fst (hold_expire t h1))) = None).
  { intros u Hu Ht. cbn [hold_take hold_expire fst snd ho_kept]. rewrite (bm_get_dropped _ _ _ _ (bm_sorted_nodup _ (bm_insert_sorted _ _ _ Hs)) Hin); [done|].
    unfold over. cbn. rewrite Hu. apply negb_false_iff. by apply N.leb_le. }
  split_and!.
  - cbn [hold_take snd]. by rewrite Hin.
  - cbn [hold_take fst snd ho_kept]. by rewrite bm_get_remove.
  - intros d Hd Ht. apply (Hgone (match until with Some b => N.min (instant_plus now d) b | None => instant_plus now d end)).
    + unfold hold_until. rewrite Hd. by destruct until.
    + destruct until; lia.
  - intros u -> Ht. apply (Hgone (match ho_duration h with Some d => N.min (instant_plus now d) u | None => u end)).
    + unfold hold_until. by destruct (ho_duration h).
    + destruct (ho_duration h); lia.
Qed.

Lemma held_is_given_once_witness :
  let h := mkHold (Some 60%N) [] in
  bm_sorted (ho_kept h) /\ snd (hold_take "i" (fst (hold_expire 160 (fst (hold_deliver "i" "pw" "s3cr3t" 100 (Some 500%N) h))))) = None.
Proof.
  intros h. assert (Hs : bm_sorted (ho_kept h)) by constructor. split; [exact Hs|].
  destruct (held_is_given_once h "i" "pw" "s3cr3t" 100 160 (Some 500%N) Hs) as (_ & _ & Hd & _). by apply (Hd 60%N).
Defined.

(** A second secret for an instance takes the first one's place: [hold] accepts both and
    has one. *)
Example hold_keeps_one :
  let h := fst (hold_deliver "i" "token" "two" 0 None (fst (hold_deliver "i" "pw" "one" 0 None (hold_new None)))) in
  snd (hold_take "i" h) = Some ("token", "two") /\ snd (hold_take "i" (fst (hold_take "i" h))) = None.
Proof. split; reflexivity. Qed.

(** What [requester()] takes while a client is attached is what the next drain of that
    instance gives, and nothing else of it stays. *)
Lemma taken_is_drained inst label value m : mb_attached m = true ->
  snd (drain inst (fst (requester_deliver inst label value m))) = default [] (bm_get inst (mb_pending m)) ++ [(label, value)] /\
  snd (drain inst (fst (drain inst (fst (requester_deliver inst label value m))))) = [].
Proof.
  intros Ha. unfold requester_deliver. rewrite Ha. cbn [negb fst snd drain mb_pending]. by rewrite bm_get_insert, bm_get_remove.
Qed.

(** ** The control channel

    [engine/src/control.rs]: who a peer is, what a frame says, and every verb. A verb locks
    the engine at most twice, for the scope check and for the act; between the two anything
    may happen (the daemon below puts the pieces on threads). *)

Definition CONTROL_PROTOCOL : N := 1.

(** ** Operators *)

Inductive UserSpec := UsName (n : string) | UsSocketOwner.

Definition user_spec_parse (s : string) : UserSpec := if s == "socket_owner" then UsSocketOwner else UsName s.

(** The connecting process, as the operating system reports it. *)
Record Peer := mkPeer { pe_user : option string; pe_owner : bool; pe_uid : option N }.

Definition user_matches (u : UserSpec) (p : Peer) : bool :=
  match u with
  | UsSocketOwner => pe_owner p
  | UsName n => pe_user p == Some n
  end.

Definition describe (p : Peer) : string :=
  match pe_user p, pe_uid p with
  | Some u, _ => u
  | None, Some id => "uid " +:+ show id
  | None, None => "an unnamed account"
  end.

Record Operator := mkOperator {
  op_name : string;
  op_user : UserSpec;
  op_operator_for : list string;
  op_admin : bool;
  op_subscribe : list string;
}.

Definition admits_plan (o : Operator) (plan : string) : bool := existsb (fun p => (p == "all") || (p == plan)) (op_operator_for o).

Record RegistrarDecl := mkRegistrarDecl { rr_name : string; rr_user : UserSpec; rr_may_register : list string }.

Record Operators := mkOperators {
  os_identities : list Operator;
  os_registrars : list RegistrarDecl;
  os_dry_run : bool;
}.

Record ControlError := mkControlError { ce_code : string; ce_message : string }.

Definition control_error {A} (code message : string) : Result A ControlError := Err (mkControlError code message).

Definition dry_run_operator : Operator := mkOperator "dry-run" UsSocketOwner ["all"] true [].

Definition colon (n : string) : string := ":" +:+ n.

(** The operator a peer is, given the identity its hello named, or none. *)
Definition identify (os : Operators) (peer : Peer) (requested : option string) : Result Operator ControlError :=
  if (length (os_identities os) =? 0)%nat && os_dry_run os then Ok dry_run_operator
  else
    let mine := List.filter (fun o => user_matches (op_user o) peer) (os_identities os) in
    let who := default (describe peer) (pe_user peer) in
    match requested with
    | Some name =>
        match List.find (fun o => op_name o == name) mine with
        | Some o => Ok o
        | None =>
            control_error "R0503"
              (concats [who; " is not declared as identity :"; name; "; group membership grants a connection, never an identity"])
        end
    | None =>
        match mine with
        | [one] => Ok one
        | [] => control_error "R0503" (who +:+ " maps to no declared operator; group membership grants a connection, never an identity")
        | many =>
            control_error "R0503"
              (concats [who; " maps to "; show_nat (length many); " identities ("; join ", " (map (fun o => colon (op_name o)) many);
                        "); the hello must name one"])
        end
    end.

(** The registrar that may register a hook from this peer, or R0505. *)
Definition registrar_for (os : Operators) (peer : Peer) (hook : string) : Result RegistrarDecl ControlError :=
  let who := default (describe peer) (pe_user peer) in
  let mine := List.filter (fun r => user_matches (rr_user r) peer) (os_registrars os) in
  if (length mine =? 0)%nat then control_error "R0505" (who +:+ " is not a declared registrar")
  else
    match List.find (fun r => existsb (fun n => n == hook) (rr_may_register r)) mine with
    | Some r => Ok r
    | None =>
        control_error "R0505"
          (concats ["registrar "; join ", " (map (fun r => colon (rr_name r)) mine); " may not register hook :"; hook; " (may_register: [";
                    join ", " (flat_map (fun r => map colon (rr_may_register r)) mine); "])"])
    end.

(** ** Frames *)

Record Hello := mkHello { he_proto : N; he_identity : option string }.

Record CRequest := mkCRequest { cq_id : N; cq_verb : string; cq_args : Json }.

Inductive Frame :=
| FrHello (h : Hello)
| FrRegister (r : Registration)
| FrRequest (q : CRequest)
| FrReply (v : Json).

(** What the channel uses of serde: its parser, the readers of the frames' and the
    arguments' types, and the writers of two reports. *)
Class ControlSerde `{Outside} := {
  from_str : string -> Result Json string;
  hello_of : Json -> Result Hello string;
  registration_of : Json -> Result Registration string;
  crequest_of : Json -> Result CRequest string;
  plan_ir_of : Json -> Result PlanIr string;
  params_of : Json -> Result (gmap string string) string;
  acks_of : Json -> Result (list N) string;
  forced_of : Json -> Result (list string) string;
  doctor_json : DoctorReport -> Json;
  canary_json : Canary -> Json;
}.

Definition in_protocol {A} (what : string) (r : Result A string) : Result A ControlError :=
  match r with
  | Ok x => Ok x
  | Err e => control_error "protocol" (what +:+ e)
  end.

Definition parse_frame `{ControlSerde} (line : string) : Result Frame ControlError :=
  let? v := in_protocol "not a JSON frame: " (from_str line) in
  match js_get "hello" v with
  | Some h => rmap FrHello (in_protocol "hello: " (hello_of h))
  | None =>
  match js_get "register" v with
  | Some r => rmap FrRegister (in_protocol "register: " (registration_of r))
  | None =>
  match js_get "verb" v with
  | Some _ => rmap FrRequest (in_protocol "request: " (crequest_of v))
  | None =>
      match js_get "ok" v, js_get "id" v with
      | Some _, Some _ => Ok (FrReply v)
      | _, _ => control_error "protocol" "a frame is a hello, a register, a request (id, verb, args) or a reply (id, ok)"
      end
  end end end.

Definition error_json (e : ControlError) : Json := js_object_of [("code", JsStr (ce_code e)); ("message", JsStr (ce_message e))].

Definition error_frame (id : option N) (e : ControlError) : Json :=
  let v := js_object_of [("ok", JsBool false); ("error", error_json e)] in
  match id with
  | Some id => js_set "id" (js_num id) v
  | None => v
  end.

Definition hello_ok_json (op : Operator) (dry_run : bool) : Json :=
  js_object_of [("hello", js_object_of [("ok", JsBool true); ("proto", js_num CONTROL_PROTOCOL); ("identity", JsStr (op_name op));
                                        ("admin", JsBool (op_admin op)); ("dry_run", JsBool dry_run)])].

(** ** What a verb answers *)

Definition engine_error (e : EngineError) : ControlError :=
  match e with
  | ErrRefused v => mkControlError "refused" (prose v)
  | ErrLedger R0101 m => mkControlError "R0101" m
  | ErrLedger R0203 m => mkControlError "R0203" m
  | ErrNotAdmitted R0102 m => mkControlError "R0102" m
  | ErrNotAdmitted R0103 m => mkControlError "R0103" m
  | ErrNoSuchInstance id => mkControlError "no_such_instance" id
  | ErrWrongState st verb => mkControlError "wrong_state" (concats [verb; " has no meaning in state "; state_name st])
  | other => mkControlError "engine" (display_error other)
  end.

Definition outcome_json (o : Report) : Json :=
  js_object_of [("id", JsStr (ot_id o)); ("state", JsStr (state_name (ot_state o))); ("exit", js_num (ot_exit o)); ("line", JsStr (ot_line o))].

Definition strings_json (l : list string) : Json := JsArr (map JsStr l).
Definition numbers_json (l : list N) : Json := JsArr (map js_num l).

Definition attestation_json (a : Attestation) : Json :=
  js_object_of
    [("plan", JsStr (at_plan a)); ("instance", JsStr (at_instance a)); ("hosts", strings_json (at_hosts a));
     ("restored", JsBool (at_restored a)); ("exit", js_num (at_exit a)); ("line", JsStr (at_line a));
     ("facts", strings_json (map fact_line (at_facts a)))].

Definition status_json (r : InstanceRecord) : Json :=
  js_object_of
    [("id", JsStr (i_id r)); ("plan", JsStr (plan_id (i_plan r))); ("owner", JsStr (plan_owner (i_plan r)));
     ("state", JsStr (state_name (i_state r)));
     ("exit", js_num (exit_of (i_state r) (is_some (i_refusal r)) (i_secret_undelivered r)));
     ("applied", numbers_json (map as_step (i_applied r))); ("deadline", js_opt js_num (i_deadline r));
     ("waiting", js_opt (fun w => js_object_of [("step", js_num (w_step w)); ("reason", JsStr (w_reason w))]) (i_waiting r));
     ("held_at", js_opt js_num (i_held_at r));
     ("deferred", js_opt (fun d => js_object_of [("step", js_num (df_step d)); ("handoff", JsStr (df_handoff d))]) (i_deferred r));
     ("stuck", numbers_json (i_stuck r)); ("drift_held", numbers_json (i_drift_held r)); ("rehearsal", JsBool (i_rehearsal r));
     ("closed_reason", js_opt JsStr (i_closed_reason r))].

Definition bootstrap_json (host : string) (state : BootstrapState) (commands : list string) : Json :=
  js_object_of
    [("host", JsStr host);
     ("state", js_object_of [("rescind_root", JsBool (bt_rescind_root state)); ("group", JsBool (bt_group state));
                             ("instances_dir", JsBool (bt_instances_dir state)); ("lock", JsBool (bt_lock state));
                             ("modes_ok", JsBool (bt_modes_ok state))]);
     ("ready", JsBool (ready state)); ("commands", strings_json commands)].

(** ** Arguments *)

Definition as_u32 (n : N) : N := (n mod 2 ^ 32)%N.

(** The scope a challenge or a proof is for. *)
Definition scope_of (args : Json) : Scope :=
  match get_u64 "ack" args with
  | Some n => ScopeAck (as_u32 n)
  | None =>
      match get_u64 "step" args with
      | Some n => ScopeStep (as_u32 n)
      | None => ScopePlan
      end
  end.

Definition arg_str (args : Json) (name : string) : Result string ControlError :=
  match get_str name args with
  | Some s => Ok s
  | None => control_error "protocol" (concats ["`"; name; "` (a string) is required"])
  end.

Definition need_u64 (args : Json) (name message : string) : Result N ControlError :=
  match get_u64 name args with
  | Some n => Ok n
  | None => control_error "protocol" message
  end.

(** An argument that may be left out, read by serde. *)
Definition optional {A} (args : Json) (name : string) (read : Json -> Result A string) (d : A) : Result A ControlError :=
  match js_get name args with
  | Some v => in_protocol (name +:+ ": ") (read v)
  | None => Ok d
  end.

Definition force_of (n : Json) : Result ForceName ControlError :=
  match js_str n with
  | Some f => Ok (if f == "drift" then FDrift else if f == "unknown" then FUnknown else FGuard f)
  | None => control_error "protocol" "`force` names are strings"
  end.

Definition forces_of (args : Json) : Result (list ForceName) ControlError :=
  match js_get "force" args with
  | None => Ok []
  | Some v =>
      match js_array v with
      | Some names => collect_results force_of names
      | None => control_error "protocol" "`force` is a list of names, not a single value"
      end
  end.

Definition mode_of (args : Json) : Result (option Mode) ControlError :=
  match get_str "mode" args with
  | Some m =>
      if m == "auto" then Ok (Some Auto) else if m == "manual" then Ok (Some Manual) else control_error "protocol" ("mode " +:+ m)
  | None => Ok None
  end.

(** ** Authority *)

Section Verbs.
Context `{ControlSerde}.

Notation Act := (ME ControlError Json) (only parsing).

Definition not_operator {A} (op : Operator) (plan : string) : Result A ControlError :=
  control_error "R0504" (concats ["identity :"; op_name op; " is not an operator for plan "; plan]).

(** The scope check, under one lock of the engine: the operator must admit the instance's
    plan. *)
Definition scoped (op : Operator) (inst : string) : ME ControlError string :=
  let! r := map_err engine_error (status inst) in
  match r with
  | None => mthrow (mkControlError "no_such_instance" inst)
  | Some r =>
      let plan := plan_id (i_plan r) in
      if negb (admits_plan op plan) then lift (not_operator op plan) else mret plan
  end.

Definition admin (op : Operator) (verb : string) : Result unit ControlError :=
  if op_admin op then Ok tt
  else control_error "R0506" (concats [verb; " is an admin verb and :"; op_name op; " is not declared admin"]).

(** ** The verbs *)

(** What a verb comes to once its arguments are read: the instance to check the scope of,
    and what it then does under its own lock of the engine. *)
Record Todo := mkTodo { td_scope : option string; td_act : ME ControlError Json }.

Definition answers {A} (read : A -> Json) (m : ME EngineError A) : Act := let! x := map_err engine_error m in mret (read x).

Definition ir_arg (op : Operator) (args : Json) : Result PlanIr ControlError :=
  match js_get "ir" args with
  | None => control_error "protocol" "`ir` is required"
  | Some v =>
      let? ir := in_protocol "ir: " (plan_ir_of v) in
      if negb (admits_plan op (plan_id (ir_plan ir))) then not_operator op (plan_id (ir_plan ir)) else Ok ir
  end.

Definition apply_todo (dry_run : bool) (op : Operator) (args : Json) : Result Todo ControlError :=
  let? ir := ir_arg op args in
  let? params := optional args "params" params_of ∅ in
  let? acks := optional args "acks" acks_of [] in
  let? forced := optional args "forced" forced_of [] in
  let? mode := mode_of args in
  let rehearsal := dry_run || default false (get_bool "rehearsal" args) in
  let opts := mkApplyOptions rehearsal acks forced mode (op_name op) in
  Ok (mkTodo None (answers outcome_json (apply ir params opts))).

Definition drill_todo (dry_run : bool) (op : Operator) (args : Json) : Result Todo ControlError :=
  let? ir := ir_arg op args in
  let? params := optional args "params" params_of ∅ in
  if dry_run then
    control_error "protocol"
      "a dry-run daemon cannot drill: a drill is an apply and a recant against                      a real canary, and a rehearsal of one proves nothing"
  else Ok (mkTodo None (answers attestation_json (drill ir params (mkApplyOptions false [] [] None (op_name op))))).

Definition status_act (op : Operator) (args : Json) : Act :=
  match get_str "instance" args with
  | Some id =>
      let! r := map_err engine_error (status id) in
      match r with
      | None => mthrow (mkControlError "no_such_instance" id)
      | Some r =>
          if negb (admits_plan op (plan_id (i_plan r))) then lift (not_operator op (plan_id (i_plan r))) else mret (status_json r)
      end
  | None =>
      let! rs := map_err engine_error instances in
      mret (JsArr (map status_json (List.filter (fun r => admits_plan op (plan_id (i_plan r))) rs)))
  end.

(** The verbs on one instance that answer with its outcome. *)
Definition instance_act (op : Operator) (verb id : string) (args : Json) : Act :=
  if verb == "recant" then
    let! force := lift (forces_of args) in answers outcome_json (recant id force)
  else if verb == "renew" then
    let! secs := lift (need_u64 args "wane_s" "`wane_s` is required") in answers outcome_json (renew id secs)
  else if verb == "confirm" then answers outcome_json (confirm id)
  else if verb == "commit" then
    let! reason := lift (arg_str args "reason") in answers outcome_json (commit id (op_name op) reason)
  else if verb == "resume" then answers outcome_json (resume id (op_name op))
  else if verb == "handoff_done" then
    let! step := lift (need_u64 args "step" "`step` is required") in
    answers outcome_json (handoff_done id (as_u32 step) (op_name op))
  else answers outcome_json (cancel id).

Definition abandon_todo (op : Operator) (args : Json) : Result Todo ControlError :=
  let? _ := admin op "abandon" in
  let? id := arg_str args "instance" in
  let? reason := arg_str args "reason" in
  if trim reason == EmptyString then control_error "protocol" "abandon needs a reason"
  else Ok (mkTodo (Some id) (answers outcome_json (abandon id (op_name op) reason))).

Definition bootstrap_todo (op : Operator) (args : Json) : Result Todo ControlError :=
  let? _ := admin op "bootstrap" in
  let? host := arg_str args "host" in
  Ok (mkTodo None (answers (fun x => bootstrap_json host (fst x) (snd x)) (bootstrap host))).

Definition challenge_json (text : string) : Json := js_object_of [("challenge", JsStr text)].

Definition approve_act (op : Operator) (id : string) (args : Json) : Act :=
  let auth := default (op_name op) (get_str "authenticator" args) in
  let proof := default EmptyString (get_str "proof" args) in
  answers outcome_json (approve_proof id (scope_of args) auth proof (op_name op)).

Definition ack_act (op : Operator) (id : string) (args : Json) : Act :=
  let! step := lift (need_u64 args "step" "ack needs a step") in
  let! reason := lift (arg_str args "reason") in
  let proof := default EmptyString (get_str "proof" args) in
  let! authenticator := lift (arg_str args "authenticator") in
  answers outcome_json (ack id (as_u32 step) reason proof authenticator (op_name op)).

Definition reveal_act (id : string) : Act :=
  let! held := map_err engine_error (reveal id) in
  match held with
  | Some (label, value) => mret (js_object_of [("label", JsStr label); ("value", JsStr value)])
  | None => mthrow (mkControlError "no_secret" ("no secret is held for " +:+ id))
  end.

Definition reclaim_todo (op : Operator) (args : Json) : Result Todo ControlError :=
  let? _ := admin op "reclaim" in
  let? host := arg_str args "host" in
  let? inst := arg_str args "instance" in
  let force := default false (get_bool "force" args) in
  let reason := default EmptyString (get_str "reason" args) in
  Ok (mkTodo None (answers (fun line => js_object_of [("reclaimed", JsStr line)]) (reclaim host inst force reason))).

Definition doctor_act (hooks : list string) (args : Json) : Act :=
  let canaries := default false (get_bool "canary" args) in
  let wait := default 180%N (get_u64 "canary_wait_s" args) in
  let! r := map_err engine_error doctor in
  let! cs := if canaries then map_err engine_error (canary wait) else mret [] in
  mret (js_object_of
    [("report", doctor_json r); ("healthy", JsBool (healthy r && forallb cy_fired cs)); ("hooks", strings_json hooks);
     ("canaries", JsArr (map canary_json cs))]).

Definition on_instance (args : Json) (act : string -> Act) : Result Todo ControlError :=
  let? id := arg_str args "instance" in Ok (mkTodo (Some id) (act id)).

(** [dispatch_inner], up to its first lock of the engine. *)
Definition prepare (dry_run : bool) (hooks : list string) (op : Operator) (verb : string) (args : Json) : Result Todo ControlError :=
  if verb == "apply" then apply_todo dry_run op args
  else if verb == "drill" then drill_todo dry_run op args
  else if verb == "status" then Ok (mkTodo None (status_act op args))
  else if existsb (fun v => v == verb) ["recant"; "renew"; "confirm"; "commit"; "resume"; "handoff_done"; "cancel"] then
    on_instance args (fun id => instance_act op verb id args)
  else if verb == "abandon" then abandon_todo op args
  else if verb == "bootstrap" then bootstrap_todo op args
  else if verb == "challenge" then
    on_instance args (fun id => answers challenge_json (challenge id (scope_of args) (default EmptyString (get_str "context" args))))
  else if verb == "approve" then on_instance args (fun id => approve_act op id args)
  else if verb == "ack" then on_instance args (fun id => ack_act op id args)
  else if verb == "reveal" then on_instance args reveal_act
  else if verb == "reclaim" then reclaim_todo op args
  else if verb == "doctor" then let? _ := admin op verb in Ok (mkTodo None (doctor_act hooks args))
  else if verb == "hooks" then Ok (mkTodo None (mret (strings_json hooks)))
  else control_error "protocol" ("unknown verb " +:+ verb).

(** The two locks of a verb, one after the other. *)
Definition check_scope (op : Operator) (t : Todo) : ME ControlError unit :=
  match td_scope t with
  | Some id => let! _ := scoped op id in mret tt
  | None => mret tt
  end.

Definition dispatch_inner (dry_run : bool) (hooks : list string) (op : Operator) (verb : string) (args : Json) : Act :=
  let! t := lift (prepare dry_run hooks op verb args) in
  do! check_scope op t in
  td_act t.

(** ** The mailbox *)

Definition secrets_json (taken : list (string * string)) : Json :=
  JsArr (map (fun e => js_object_of [("label", JsStr (fst e)); ("value", JsStr (snd e))]) taken).

(** The end of [dispatch]: what [requester()] took while the verb ran goes back in its
    reply. *)
Definition hand_over (out : Result Json ControlError) (m : Mailbox) : Mailbox * Result Json ControlError :=
  match out with
  | Err e => (m, Err e)
  | Ok v =>
      match get_str "instance" v with
      | None => (m, Ok v)
      | Some id =>
          let '(m, taken) := drain id m in
          (m, Ok (if negb (length taken =? 0)%nat then js_set "secrets" (secrets_json taken) v else v))
      end
  end.

Definition verb_reply (id : N) (out : Result Json ControlError) : Json :=
  match out with
  | Ok result => js_object_of [("id", js_num id); ("ok", JsBool true); ("result", result)]
  | Err e => error_frame (Some id) e
  end.
End Verbs.

(** ** The daemon

    [handle], [register] and [dispatch] of [engine/src/control.rs] as one machine: each
    connection has a loop that reads its frames, each verb runs on a thread of its own, and
    the engine, the hooks and the mailbox are shared. An event is one turn of a loop or one
    critical section of a thread. [every_call_has_authority] is what an operator relies
    on: whatever the interleaving, nothing is called on the engine that no operator of
    those connected may call. *)

(** ** The shared state *)

(** Where the world has the mailbox that [requester()] and the channel share. *)
Class Letterbox `{Outside} := {
  box : world -> Mailbox;
  set_box : Mailbox -> world -> world;
}.

Inductive Stage `{Outside} :=
| SgNew
| SgAttached
| SgScoped (t : Todo)
| SgActed (out : Result Json ControlError)
| SgDetached (out : Result Json ControlError)
| SgReplied (reply : Json).

Section Daemon.
Context `{ControlSerde} `{!Letterbox}.

(** A verb's thread. *)
Record Thread := mkThread {
  th_conn : nat;
  th_op : Operator;
  th_request : CRequest;
  th_stage : Stage;
}.

(** Where a connection's loop stands; [CsServing] has what it registered and its link. *)
Inductive ConnStage :=
| CsGreeting
| CsServing (op : Operator) (registered : list (string * string)) (link : option LineLink)
| CsGone.

Record Conn := mkConn { cn_peer : Peer; cn_stage : ConnStage }.

(** [dm_sent] is what was written, and to which connection. A hook's link is named by the
    connection it is on. *)
Record Dm := mkDm {
  dm_engine : Engine;
  dm_hooks : BMap (Registered nat);
  dm_subscribers : list (list string * nat);
  dm_conns : list Conn;
  dm_threads : list Thread;
  dm_sent : list (nat * Json);
}.

Definition eta_dm (d : Dm) : Dm :=
  mkDm (dm_engine d) (dm_hooks d) (dm_subscribers d) (dm_conns d) (dm_threads d) (dm_sent d).

Definition set_engine v d := ltac:(field_update eta_dm dm_engine v d).
Definition set_hooks v d := ltac:(field_update eta_dm dm_hooks v d).
Definition set_subscribers v d := ltac:(field_update eta_dm dm_subscribers v d).
Definition set_conns v d := ltac:(field_update eta_dm dm_conns v d).
Definition set_threads v d := ltac:(field_update eta_dm dm_threads v d).
Definition set_sent v d := ltac:(field_update eta_dm dm_sent v d).

Definition send (c : nat) (v : Json) (d : Dm) : Dm := set_sent (dm_sent d ++ [(c, v)]) d.

Definition serve_stage (c : nat) (s : ConnStage) (d : Dm) : Dm :=
  set_conns (alter (fun x => mkConn (cn_peer x) s) c (dm_conns d)) d.

(** [Daemon::journal_site] *)
Definition journal_site (ev : JEvent) (d : Dm) : Dm * Result unit EngineError :=
  let '(g, r) := journal_site_event ev (dm_engine d) in (set_engine g d, rmap (fun _ => tt) r).

Definition journal_and_forget (ev : JEvent) (d : Dm) : Dm := fst (journal_site ev d).

(** [Subscribers::add] *)
Definition subscribe (plans : list string) (c : nat) (d : Dm) : Dm :=
  if negb (length plans =? 0)%nat then set_subscribers (dm_subscribers d ++ [(plans, c)]) d else d.

(** [SubscriberSink::deliver]: the connections that are sent an entry. It never refuses. *)
Definition subscriber_deliver (entry_to_value : Entry -> Json) (subscribers : list (list string * nat)) (e : Entry)
    : list (nat * Json) * option string :=
  (map (fun s => (snd s, js_object_of [("event", entry_to_value e)]))
     (List.filter (fun s => existsb (fun p => (p == "all") || (p == en_plan e)) (fst s)) subscribers), None).

(** What a site declares and how the daemon was started. *)
Context (operators : Operators) (dry_run : bool).

(** ** A connection's loop *)

(** A turn of the first loop of [handle]. *)
Definition greet (c : nat) (peer : Peer) (frame : Result Frame ControlError) (d : Dm) : Dm :=
  match frame with
  | Err e => send c (error_frame None e) d
  | Ok (FrHello h) =>
      if negb (he_proto h =? CONTROL_PROTOCOL)%N then
        serve_stage c CsGone
          (send c (error_frame None (mkControlError "R0501" (concats ["control protocol "; show (he_proto h); " is not "; show CONTROL_PROTOCOL]))) d)
      else
        match identify operators peer (he_identity h) with
        | Ok op =>
            let d := journal_and_forget (JOperatorConnected (op_name op) (op_admin op)) d in
            let d := send c (hello_ok_json op dry_run) d in
            subscribe (op_subscribe op) c (serve_stage c (CsServing op [] None) d)
        | Err e => serve_stage c CsGone (send c (error_frame None e) d)
        end
  | Ok _ => serve_stage c CsGone (send c (error_frame None (mkControlError "protocol" "the first frame is the hello")) d)
  end.

Definition connection_of (op : Operator) (peer : Peer) : string := concats [op_name op; "@"; describe peer].

(** [register]: the registrar's name, and the connection's link made when there is none. *)
Definition register_hook (c : nat) (peer : Peer) (op : Operator) (r : Registration) (link : option LineLink) (d : Dm)
    : Dm * option LineLink * Result string ControlError :=
  if negb (rg_protocol r =? HOOK_PROTOCOL)%N then
    (d, link, control_error "R0501" (concats ["hook protocol "; show (rg_protocol r); " is not "; show HOOK_PROTOCOL]))
  else
    match registrar_for operators peer (rg_name r) with
    | Err e => (d, link, Err e)
    | Ok registrar =>
        let l := match link with Some l => l | None => line_link_new (rg_name r) end in
        let d := set_hooks (register (mkRegistered r (rr_name registrar) (connection_of op peer) c) (dm_hooks d)) d in
        let '(d, res) := journal_site (JHookRegistered (rg_name r) (rr_name registrar)
                                         (concats [connection_of op peer; " as :"; op_name op])) d in
        (d, Some l, match res with
                    | Ok _ => Ok (rr_name registrar)
                    | Err e => Err (mkControlError "journal" (display_error e))
                    end)
    end.

Definition register_reply (r : Registration) (res : Result string ControlError) : Json :=
  js_object_of
    [("register", match res with
                  | Ok _ => js_object_of [("ok", JsBool true); ("name", JsStr (rg_name r))]
                  | Err e => js_object_of [("ok", JsBool false); ("error", error_json e)]
                  end)].

(** A turn of the second loop. A request starts a thread. *)
Definition serve_frame (c : nat) (peer : Peer) (op : Operator) (registered : list (string * string)) (link : option LineLink)
    (frame : Result Frame ControlError) (d : Dm) : Dm :=
  match frame with
  | Err e => send c (error_frame None e) d
  | Ok (FrHello _) => send c (error_frame None (mkControlError "protocol" "hello was already said")) d
  | Ok (FrRegister r) =>
      let '(d, link, res) := register_hook c peer op r link d in
      let registered := match res with Ok registrar => registered ++ [(rg_name r, registrar)] | Err _ => registered end in
      send c (register_reply r res) (serve_stage c (CsServing op registered link) d)
  | Ok (FrRequest q) => set_threads (dm_threads d ++ [mkThread c op q SgNew]) d
  | Ok (FrReply v) =>
      match link with
      | Some l => serve_stage c (CsServing op registered (Some (link_deliver v l))) d
      | None => d
      end
  end.

Definition forget_hook (d : Dm) (x : string * string) : Dm :=
  journal_and_forget (JHookDeregistered (fst x) (snd x) "connection closed") (set_hooks (fst (deregister (fst x) (dm_hooks d))) d).

(** What follows the second loop. *)
Definition hang_up (c : nat) (op : Operator) (registered : list (string * string)) (d : Dm) : Dm :=
  serve_stage c CsGone (journal_and_forget (JOperatorDisconnected (op_name op)) (foldl forget_hook d registered)).

(** A line of a connection, or its end. *)
Definition conn_step (c : nat) (line : option string) (d : Dm) : Dm :=
  match dm_conns d !! c with
  | None => d
  | Some x =>
      match cn_stage x, line with
      | CsGone, _ => d
      | CsGreeting, None => serve_stage c CsGone d
      | CsGreeting, Some text => greet c (cn_peer x) (parse_frame (trim_end text)) d
      | CsServing op registered link, None => hang_up c op registered d
      | CsServing op registered link, Some text => serve_frame c (cn_peer x) op registered link (parse_frame (trim_end text)) d
      end
  end.

(** ** A verb's thread *)

Definition on_box {A} (f : Mailbox -> Mailbox * A) (g : Engine) : Engine * A :=
  let '(m, x) := f (box (g_world g)) in (set_world (set_box m (g_world g)) g, x).

Definition at_stage (i : nat) (s : Stage) (d : Dm) : Dm :=
  set_threads (alter (fun t => mkThread (th_conn t) (th_op t) (th_request t) s) i (dm_threads d)) d.

(** [dispatch] and the reply, a critical section at a time. *)
Definition thread_step (i : nat) (d : Dm) : Dm :=
  match dm_threads d !! i with
  | None => d
  | Some t =>
      let g := dm_engine d in
      match th_stage t with
      | SgNew => at_stage i SgAttached (set_engine (fst (on_box (fun m => (attach true m, tt)) g)) d)
      | SgAttached =>
          match prepare dry_run (names (dm_hooks d)) (th_op t) (cq_verb (th_request t)) (cq_args (th_request t)) with
          | Err e => at_stage i (SgActed (Err e)) d
          | Ok todo =>
              let '(g, r) := check_scope (th_op t) todo g in
              at_stage i (match r with Ok _ => SgScoped todo | Err e => SgActed (Err e) end) (set_engine g d)
          end
      | SgScoped todo => let '(g, out) := td_act todo g in at_stage i (SgActed out) (set_engine g d)
      | SgActed out => at_stage i (SgDetached out) (set_engine (fst (on_box (fun m => (attach false m, tt)) g)) d)
      | SgDetached out =>
          let '(g, out) := on_box (hand_over out) g in
          let reply := verb_reply (cq_id (th_request t)) out in
          at_stage i (SgReplied reply) (send (th_conn t) reply (set_engine g d))
      | SgReplied _ => d
      end
  end.

(** ** The machine *)

(** [EvPass] is what the daemon calls of itself, between the verbs. *)
Inductive DEvent :=
| EvConnect (peer : Peer)
| EvLine (c : nat) (line : option string)
| EvThread (i : nat)
| EvPass (c : Call).

Definition d_step (d : Dm) (e : DEvent) : Dm :=
  match e with
  | EvConnect peer => set_conns (dm_conns d ++ [mkConn peer CsGreeting]) d
  | EvLine c line => conn_step c line d
  | EvThread i => thread_step i d
  | EvPass c => set_engine (perform c (dm_engine d)) d
  end.

Definition d_start (g : Engine) : Dm := mkDm g [] [] [] [] [].

Definition d_run (g : Engine) (es : list DEvent) : Dm := foldl d_step (d_start g) es.
End Daemon.
