(* ===== verification/Authority.v ===== *)
(** * No call without authority

    What the daemon's machine ([Control]) does to the engine is a sequence of calls and of
    mailbox steps, and every call in it is one its operator may make. At the end, runs of the machine. *)

From Stdlib Require Import Ascii.
From stdpp Require Import base strings pretty numbers option list sets gmap relations.
From S2P Require Import Prelude Model Algebra States Ledger Journal EngineJournal Resolve Ordered Monad Executor Instance Engine Hosts EngineBackstop Verbs Upkeep Drill.
From S2P Require Import EngineLogic Refine Json HookProto Control Hook HookAdapters Fakes.

(** ** Who may call what *)

(** [seen] are the instances whose plan the operator was found to be for. *)
Definition may_call (op : Operator) (seen : string -> Prop) (c : Call) : Prop :=
  match c with
  | CallStatus _ | CallInstances => True
  | CallApply ir _ opts | CallDrill ir _ opts => admits_plan op (plan_id (ir_plan ir)) = true /\ ao_by opts = op_name op
  | CallRecant id _ | CallRenew id _ | CallConfirm id | CallCancel id | CallChallenge id _ _ | CallReveal id => seen id
  | CallCommit id by_ _ | CallResume id by_ | CallHandoffDone id _ by_ => seen id /\ by_ = op_name op
  | CallApproveProof id _ _ _ by_ | CallAck id _ _ _ _ by_ => seen id /\ by_ = op_name op
  | CallAbandon id by_ _ => seen id /\ by_ = op_name op /\ op_admin op = true
  | CallBootstrap _ | CallReclaim _ _ _ _ | CallDoctor | CallCanary _ => op_admin op = true
  | CallAdvance _ | CallHeartbeat | CallReap | CallBoot | CallSite _ => False
  end.

Section Does.
Context `{Outside}.

(** The engine moves by calls that are all [P]. *)
Definition by_calls (P : Call -> Prop) (g g' : Engine) : Prop := exists cs, g' = performs cs g /\ Forall P cs.

#[export] Instance by_calls_preorder P : PreOrder (by_calls P).
Proof.
  split; [by intros g; exists []|]. intros g1 g2 g3 (cs & -> & H1) (cs' & -> & H2). exists (cs ++ cs').
  split; [by unfold performs; rewrite foldl_app|by apply Forall_app].
Qed.

Lemma by_call (P : Call -> Prop) c {E A} (m : ME E A) : (forall g, fst (m g) = perform c g) -> P c -> keeps (by_calls P) m.
Proof. intros Hm Hc g. exists [c]. rewrite Hm. split; [done|]. by repeat constructor. Qed.

End Does.

Section Acts.
Context `{ControlSerde}.

Lemma answers_by P c {A} (read : A -> Json) (m : ME EngineError A) :
  (forall g, fst (m g) = perform c g) -> P c -> keeps (by_calls P) (answers read m).
Proof.
  intros Hm Hc. unfold answers. apply keeps_then; [typeclasses eauto|by apply keeps_map_err, (by_call _ c)|].
  intros x. apply keeps_ret. typeclasses eauto.
Qed.

Ltac by_calls_step :=
  first
    [ apply keeps_ret; typeclasses eauto
    | apply keeps_throw; typeclasses eauto
    | apply keeps_lift; typeclasses eauto
    | apply keeps_then; [typeclasses eauto| |intros ?]
    | apply keeps_map_err ].

(** What the act of a prepared verb calls. *)
Definition todo_calls (op : Operator) (t : Todo) : Prop := keeps (by_calls (may_call op (fun id => td_scope t = Some id))) (td_act t).

Lemma ir_arg_admits op args ir : ir_arg op args = Ok ir -> admits_plan op (plan_id (ir_plan ir)) = true.
Proof.
  unfold ir_arg. destruct (js_get "ir" args) as [v|]; [|done]. destruct (in_protocol _ _) as [x|]; [|done]. cbn [rbind].
  destruct (admits_plan op _) eqn:Ha; [|done]. by intros [= <-].
Qed.

Ltac by_act c := apply (answers_by _ c); [done|cbn [may_call td_scope]; auto].

Lemma apply_todo_calls dry op args t : apply_todo dry op args = Ok t -> todo_calls op t.
Proof.
  unfold apply_todo. intros Ht. result_inv. apply ir_arg_admits in Ha. unfold todo_calls. cbn [td_act].
  by_act (CallApply a a0 (mkApplyOptions (dry || default false (get_bool "rehearsal" args)) a1 a2 a3 (op_name op))).
Qed.

Lemma drill_todo_calls dry op args t : drill_todo dry op args = Ok t -> todo_calls op t.
Proof.
  unfold drill_todo. intros Ht. result_inv. destruct dry; [done|]. result_inv. apply ir_arg_admits in Ha. unfold todo_calls. cbn [td_act].
  by_act (CallDrill a a0 (mkApplyOptions false [] [] None (op_name op))).
Qed.

Lemma admin_ok op verb x : admin op verb = Ok x -> op_admin op = true.
Proof. unfold admin. by destruct (op_admin op). Qed.

Lemma status_calls op args : todo_calls op (mkTodo None (status_act op args)).
Proof.
  unfold todo_calls, status_act. cbn [td_act]. destruct (get_str "instance" args) as [id|]; (apply keeps_then; [typeclasses eauto| |intros r]).
  - apply keeps_map_err, (by_call _ (CallStatus id)); done.
  - destruct r as [r|]; [|by_calls_step]. destruct (negb _); by_calls_step.
  - apply keeps_map_err, (by_call _ CallInstances); done.
  - by_calls_step.
Qed.

Lemma instance_calls op verb id args : todo_calls op (mkTodo (Some id) (instance_act op verb id args)).
Proof.
  unfold todo_calls, instance_act. cbn [td_act].
  repeat match goal with |- keeps _ (if ?b then _ else _) => destruct b end;
    repeat first [by by_calls_step|match goal with |- keeps _ (answers _ _) => fail 1 | _ => by_calls_step end].
  - by_act (CallRecant id x).
  - by_act (CallRenew id x).
  - by_act (CallConfirm id).
  - by_act (CallCommit id (op_name op) x).
  - by_act (CallResume id (op_name op)).
  - by_act (CallHandoffDone id (as_u32 x) (op_name op)).
  - by_act (CallCancel id).
Qed.

Lemma ack_calls op id args : todo_calls op (mkTodo (Some id) (ack_act op id args)).
Proof.
  unfold todo_calls, ack_act. cbn [td_act]. apply keeps_then; [typeclasses eauto|by_calls_step|intros step].
  apply keeps_then; [typeclasses eauto|by_calls_step|intros reason]. apply keeps_then; [typeclasses eauto|by_calls_step|intros auth].
  by_act (CallAck id (as_u32 step) reason (default EmptyString (get_str "proof" args)) auth (op_name op)).
Qed.

Lemma reveal_calls op id : todo_calls op (mkTodo (Some id) (reveal_act id)).
Proof.
  unfold todo_calls, reveal_act. cbn [td_act]. apply keeps_then; [typeclasses eauto| |].
  - apply keeps_map_err, (by_call _ (CallReveal id)); done.
  - intros [[]|]; by_calls_step.
Qed.

Lemma doctor_calls op hooks args : op_admin op = true -> todo_calls op (mkTodo None (doctor_act hooks args)).
Proof.
  intros Ha. unfold todo_calls, doctor_act. cbn [td_act]. apply keeps_then; [typeclasses eauto| |intros r].
  { apply keeps_map_err, (by_call _ CallDoctor); done. }
  apply keeps_then; [typeclasses eauto| |intros cs; by_calls_step]. destruct (default false _); [|by_calls_step].
  by apply keeps_map_err, (by_call _ (CallCanary (default 180%N (get_u64 "canary_wait_s" args)))).
Qed.

(** Whatever a prepared verb calls, its operator may. *)
Lemma prepare_calls dry hooks op verb args t : prepare dry hooks op verb args = Ok t -> todo_calls op t.
Proof.
  unfold prepare, on_instance.
  repeat match goal with |- (if ?b then _ else _) = _ -> _ => destruct b eqn:? end; intros Ht.
  - by eapply apply_todo_calls.
  - by eapply drill_todo_calls.
  - result_inv. apply status_calls.
  - result_inv. apply instance_calls.
  - unfold abandon_todo in Ht. result_inv. apply admin_ok in Ha. case_bool_decide; [done|]. result_inv.
    unfold todo_calls. cbn [td_act]. by_act (CallAbandon a0 (op_name op) a1).
  - unfold bootstrap_todo in Ht. result_inv. apply admin_ok in Ha. unfold todo_calls. cbn [td_act]. by_act (CallBootstrap a0).
  - result_inv. unfold todo_calls. cbn [td_act]. by_act (CallChallenge a (scope_of args) (default EmptyString (get_str "context" args))).
  - result_inv. unfold todo_calls, approve_act. cbn [td_act].
    by_act (CallApproveProof a (scope_of args) (default (op_name op) (get_str "authenticator" args)) (default EmptyString (get_str "proof" args)) (op_name op)).
  - result_inv. apply ack_calls.
  - result_inv. apply reveal_calls.
  - unfold reclaim_todo in Ht. result_inv. apply admin_ok in Ha. unfold todo_calls. cbn [td_act].
    by_act (CallReclaim a0 a1 (default false (get_bool "force" args)) (default EmptyString (get_str "reason" args))).
  - result_inv. apply admin_ok in Ha. by apply doctor_calls.
  - result_inv. unfold todo_calls. cbn [td_act]. by_calls_step.
  - done.
Qed.
End Acts.

(** ** What the machine does to the engine *)

Section Machine.
Context `{ControlSerde} `{!Letterbox} (operators : Operators) (dry_run : bool).

(** A call in an operator's name, one of the daemon's own, or a hand on the mailbox. *)
Inductive Move :=
| MvCall (op : Operator) (c : Call)
| MvOwn (c : Call)
| MvBox (m : Mailbox).

Definition move (g : Engine) (mv : Move) : Engine :=
  match mv with
  | MvCall _ c | MvOwn c => perform c g
  | MvBox m => set_world (set_box m (g_world g)) g
  end.

Definition moves_of (ms : list Move) (g : Engine) : Engine := foldl move g ms.

(** Some connected peer is that operator. *)
Definition entitled (es : list DEvent) (op : Operator) : Prop :=
  exists peer requested, EvConnect peer ∈ es /\ identify operators peer requested = Ok op.

(** At some point of the run so far the store had the instance, of a plan the operator is
    for. *)
Definition found_before (g : Engine) (ms : list Move) (op : Operator) (id : string) : Prop :=
  exists ms' r, ms' `prefix_of` ms /\ stored (moves_of ms' g) id = Some r /\ admits_plan op (plan_id (i_plan r)) = true.

Inductive authorised (es : list DEvent) (g : Engine) : list Move -> Prop :=
| au_none : authorised es g []
| au_call ms op c : authorised es g ms -> entitled es op -> may_call op (found_before g ms op) c -> authorised es g (ms ++ [MvCall op c])
| au_own ms c : authorised es g ms -> EvPass c ∈ es \/ (exists ev, c = CallSite ev) -> authorised es g (ms ++ [MvOwn c])
| au_box ms m : authorised es g ms -> authorised es g (ms ++ [MvBox m]).

Lemma moves_of_app ms ms' g : moves_of (ms ++ ms') g = moves_of ms' (moves_of ms g).
Proof. apply foldl_app. Qed.

Lemma found_more g ms ms' op id : found_before g ms op id -> found_before g (ms ++ ms') op id.
Proof. intros (p & r & Hp & Hr). exists p, r. split; [by apply prefix_app_r|done]. Qed.

Lemma may_call_mono op (P Q : string -> Prop) c : (forall id, P id -> Q id) -> may_call op P c -> may_call op Q c.
Proof. intros HPQ. destruct c; cbn; naive_solver. Qed.

Lemma authorised_more es e g ms : authorised es g ms -> authorised (es ++ [e]) g ms.
Proof.
  induction 1 as [|ms op c _ IH (peer & req & Hc & Hi) Hm|ms c _ IH Hown|ms m _ IH]; constructor; try done.
  - exists peer, req. split; [|done]. apply elem_of_app. by left.
  - destruct Hown as [Hp|Hs]; [left; apply elem_of_app; by left|by right].
Qed.

Lemma authorised_calls es g ms op cs (seen : string -> Prop) : authorised es g ms -> entitled es op ->
  (forall id, seen id -> found_before g ms op id) -> Forall (may_call op seen) cs -> authorised es g (ms ++ map (MvCall op) cs).
Proof.
  intros Hms Hop Hseen. revert ms Hms Hseen. induction cs as [|c cs IH]; intros ms Hms Hseen Hcs; [by rewrite app_nil_r|].
  apply Forall_cons in Hcs as [Hc Hcs]. cbn [map]. rewrite cons_middle, app_assoc.
  apply IH; [|intros id Hid; by apply found_more, Hseen|done]. constructor; [done|done|]. by apply (may_call_mono op seen).
Qed.

Lemma moves_calls op cs g : moves_of (map (MvCall op) cs) g = performs cs g.
Proof. revert g. induction cs as [|c cs IH]; intros g; [done|]. cbn. by apply IH. Qed.

Lemma moves_own cs g : moves_of (map MvOwn cs) g = performs cs g.
Proof. revert g. induction cs as [|c cs IH]; intros g; [done|]. cbn. by apply IH. Qed.

Definition is_site (c : Call) : Prop := exists ev, c = CallSite ev.

Lemma authorised_sites es g ms cs : authorised es g ms -> Forall is_site cs -> authorised es g (ms ++ map MvOwn cs).
Proof.
  revert ms. induction cs as [|c cs IH]; intros ms Hms Hcs; [by rewrite app_nil_r|]. apply Forall_cons in Hcs as [Hc Hcs].
  cbn [map]. rewrite cons_middle, app_assoc. apply IH; [|done]. constructor; [done|by right].
Qed.

(** ** A connection's loop *)

(** The loop talks, journals and registers; it does not otherwise touch the engine. *)
Record chats (d d' : Dm) : Prop := mkChats {
  ch_engine : by_calls is_site (dm_engine d) (dm_engine d');
  ch_threads : dm_threads d' = dm_threads d;
  ch_conns : dm_conns d' = dm_conns d;
}.

#[export] Instance chats_preorder : PreOrder chats.
Proof. split; [by intros d; split|]. intros d1 d2 d3 [E1 T1 C1] [E2 T2 C2]. split; [by etrans|by rewrite T2|by rewrite C2]. Qed.

Lemma chats_send c v d : chats d (send c v d).
Proof. by split. Qed.

Lemma chats_hooks v d : chats d (set_hooks v d).
Proof. by split. Qed.

Lemma chats_subscribe plans c d : chats d (subscribe plans c d).
Proof. unfold subscribe. by case_match; split. Qed.

Lemma chats_journal ev d : chats d (fst (journal_site ev d)).
Proof.
  unfold journal_site. destruct (journal_site_event ev (dm_engine d)) as [g r] eqn:Hj. split; [|done|done]. cbn.
  exists [CallSite ev]. cbn. rewrite Hj. split; [done|]. constructor; [by eexists|constructor].
Qed.

Lemma chats_forget registered d : chats d (foldl forget_hook d registered).
Proof.
  revert d. induction registered as [|x l IH]; intros d; [done|]. cbn [foldl]. etrans; [|apply IH].
  unfold forget_hook, journal_and_forget. etrans; [apply chats_hooks|apply chats_journal].
Qed.

Lemma chats_register c peer op r link d : chats d (fst (fst (register_hook operators c peer op r link d))).
Proof.
  unfold register_hook. destruct (negb _); [done|]. destruct (registrar_for _ _ _) as [x|]; [|done].
  match goal with |- context [journal_site ?ev ?d1] => pose proof (chats_journal ev d1) as Hj; destruct (journal_site ev d1) as [d2 res] end.
  cbn [fst] in *. etrans; [|exact Hj]. apply chats_hooks.
Qed.

Definition stage_ok (es : list DEvent) (s : ConnStage) : Prop := match s with CsServing op _ _ => entitled es op | _ => True end.

Definition conns_ok (es : list DEvent) (d : Dm) : Prop :=
  Forall (fun x => EvConnect (cn_peer x) ∈ es /\ stage_ok es (cn_stage x)) (dm_conns d).

(** A turn of a loop: it talks, moves to a stage, talks, and may have started a thread. *)
Definition turns (es : list DEvent) (c : nat) (d d' : Dm) : Prop :=
  exists d1 d2, chats d d1 /\ chats d2 d' /\
    (d2 = d1 \/ (exists s, stage_ok es s /\ d2 = serve_stage c s d1)
     \/ exists op q, entitled es op /\ d2 = set_threads (dm_threads d1 ++ [mkThread c op q SgNew]) d1).

Lemma turns_chats es c d d' : chats d d' -> turns es c d d'.
Proof. intros Hc. exists d', d'. split; [done|]. split; [done|by left]. Qed.

Lemma turns_stage es c s d d1 d' : chats d d1 -> stage_ok es s -> chats (serve_stage c s d1) d' -> turns es c d d'.
Proof. intros Hd1 Hs Hd2. exists d1, (serve_stage c s d1). split; [done|]. split; [done|]. right. left. by exists s. Qed.

Lemma turns_to es c s d d1 : chats d d1 -> stage_ok es s -> turns es c d (serve_stage c s d1).
Proof. intros Hd Hs. by apply (turns_stage es c s d d1). Qed.

Lemma greet_turns es c peer frame d : EvConnect peer ∈ es -> turns es c d (greet operators dry_run c peer frame d).
Proof.
  intros Hp. unfold greet. destruct frame as [[h| | |]|e].
  2-4: by apply turns_to; [apply chats_send|].
  2: apply turns_chats, chats_send.
  destruct (negb _); [by apply turns_to; [apply chats_send|]|].
  destruct (identify operators peer (he_identity h)) as [op|e] eqn:Hi; [|by apply turns_to; [apply chats_send|]].
  eapply turns_stage; [etrans; [apply chats_journal|apply chats_send]| |apply chats_subscribe].
  exists peer, (he_identity h). done.
Qed.

Lemma serve_frame_turns es c peer op registered link frame d : entitled es op ->
  turns es c d (serve_frame operators c peer op registered link frame d).
Proof.
  intros Hop. unfold serve_frame. destruct frame as [[h|r|q|v]|e]; [apply turns_chats, chats_send| | | |apply turns_chats, chats_send].
  - pose proof (chats_register c peer op r link d) as Hr. destruct (register_hook _ _ _ _ _ _ _) as [[d1 l] res]. cbn [fst] in Hr.
    eapply turns_stage; [exact Hr| |apply chats_send]. done.
  - exists d, (set_threads (dm_threads d ++ [mkThread c op q SgNew]) d). split; [done|]. split; [done|]. right. right. by exists op, q.
  - destruct link as [l|]; [|by apply turns_chats]. by apply turns_to.
Qed.

Lemma conn_step_turns es c line d : conns_ok es d -> turns es c d (conn_step operators dry_run c line d).
Proof.
  intros Hc. unfold conn_step. destruct (dm_conns d !! c) as [x|] eqn:Hx; [|by apply turns_chats].
  unfold conns_ok in Hc. rewrite Forall_lookup in Hc. destruct (Hc c x Hx) as [Hp Hs].
  destruct (cn_stage x) as [|op registered link|], line as [text|]; try by apply turns_chats.
  - by apply greet_turns.
  - by apply turns_to.
  - by apply serve_frame_turns.
  - unfold hang_up. apply turns_to; [|done]. etrans; [apply chats_forget|apply chats_journal].
Qed.

(** ** A verb's thread *)

Definition thread_ok (es : list DEvent) (g : Engine) (ms : list Move) (t : Thread) : Prop :=
  entitled es (th_op t) /\
  forall todo, th_stage t = SgScoped todo ->
    todo_calls (th_op t) todo /\ forall id, td_scope todo = Some id -> found_before g ms (th_op t) id.

Record d_inv (es : list DEvent) (g : Engine) (ms : list Move) (d : Dm) : Prop := mkDInv {
  dv_engine : dm_engine d = moves_of ms g;
  dv_moves : authorised es g ms;
  dv_conns : conns_ok es d;
  dv_threads : Forall (thread_ok es g ms) (dm_threads d);
}.

Lemma thread_ok_more es g ms ms' t : thread_ok es g ms t -> thread_ok es g (ms ++ ms') t.
Proof. intros [Hop Ht]. split; [done|]. intros todo Hs. destruct (Ht todo Hs) as [Hc Hf]. split; [done|]. intros id Hid. by apply found_more, Hf. Qed.

Lemma entitled_more es e op : entitled es op -> entitled (es ++ [e]) op.
Proof. intros (peer & req & Hc & Hi). exists peer, req. split; [apply elem_of_app; by left|done]. Qed.

Lemma d_inv_more es e g ms d : d_inv es g ms d -> d_inv (es ++ [e]) g ms d.
Proof.
  intros [He Hm Hc Ht]. split; [done|by apply authorised_more| |].
  - eapply Forall_impl; [exact Hc|]. intros x [Hp Hs]. split; [apply elem_of_app; by left|].
    destruct (cn_stage x); try done. by apply entitled_more.
  - eapply Forall_impl; [exact Ht|]. intros t [Hop Hs]. split; [by apply entitled_more|done].
Qed.

(** A thread moves the engine and goes to a stage. *)
Lemma d_inv_thread es g ms ms' d g' i t s : d_inv es g ms d -> dm_threads d !! i = Some t -> g' = moves_of ms' (dm_engine d) ->
  authorised es g (ms ++ ms') -> thread_ok es g (ms ++ ms') (mkThread (th_conn t) (th_op t) (th_request t) s) ->
  d_inv es g (ms ++ ms') (at_stage i s (set_engine g' d)).
Proof.
  intros [He Hm Hc Ht] Hi -> Hau Hok. split; [|done|done|].
  - cbn. by rewrite He, moves_of_app.
  - cbn. apply Forall_alter; [eapply Forall_impl; [exact Ht|]; intros x; apply thread_ok_more|].
    intros x Hx _. rewrite Hi in Hx. by injection Hx as <-.
Qed.

Lemma d_inv_send es g ms d c v : d_inv es g ms d -> d_inv es g ms (send c v d).
Proof. by intros [He Hm Hc Ht]. Qed.

Lemma thread_ok_plain es g ms t s : thread_ok es g ms t -> (forall todo, s <> SgScoped todo) ->
  forall ms', thread_ok es g (ms ++ ms') (mkThread (th_conn t) (th_op t) (th_request t) s).
Proof. intros [Hop _] Hs ms'. split; [done|]. intros todo Heq. by destruct (Hs todo). Qed.

Lemma check_scope_spec op todo g g' r : check_scope op todo g = (g', r) ->
  exists cs, g' = performs cs g /\ Forall (may_call op (fun _ => False)) cs /\
    (is_ok r = true -> forall id, td_scope todo = Some id -> exists x, stored g' id = Some x /\ admits_plan op (plan_id (i_plan x)) = true).
Proof.
  unfold check_scope. destruct (td_scope todo) as [id|]; [|intros [= <- <-]; by exists []].
  unfold scoped. unfold mthen at 1 2. intros Hr. exists [CallStatus id]. cbn [performs foldl perform].
  unfold map_err in Hr. destruct (status id g) as [g1 [x|e]] eqn:Hst; [|injection Hr as <- <-; split_and!; [done|by repeat constructor|done]].
  assert (g' = g1 /\ (is_ok r = true -> exists y, x = Some y /\ admits_plan op (plan_id (i_plan y)) = true)) as [-> Hok].
  { destruct x as [y|]; [|by injection Hr as <- <-]. cbv zeta in Hr.
    destruct (admits_plan op (plan_id (i_plan y))) eqn:Ha; injection Hr as <- <-; split; [done|intros _; by exists y|done|done]. }
  split_and!; [done|by repeat constructor|]. intros Hr' i [= <-]. destruct (Hok Hr') as (y & -> & Ha). exists y. split; [|done].
  unfold status, map_err in Hst. destruct (read_instance id g) as [g2 [z|e]] eqn:Hread; [|done]. injection Hst as -> ->.
  apply read_instance_spec in Hread as [Hs Hz]. unfold stored. by rewrite Hs.
Qed.

Lemma on_box_moves {A} (f : Mailbox -> Mailbox * A) g : exists m, fst (on_box f g) = moves_of [MvBox m] g.
Proof. unfold on_box. destruct (f (box (g_world g))) as [m x]. by exists m. Qed.

Lemma thread_step_inv es g ms d i : d_inv es g ms d -> exists ms', d_inv es g (ms ++ ms') (thread_step dry_run i d).
Proof.
  intros Hinv. pose proof Hinv as [He Hm Hc Ht]. unfold thread_step.
  destruct (dm_threads d !! i) as [t|] eqn:Hi; [|exists []; by rewrite app_nil_r].
  assert (Hok : thread_ok es g ms t) by (rewrite Forall_lookup in Ht; by apply (Ht i)).
  destruct (th_stage t) as [| |todo|out|out|reply] eqn:Hs.
  - destruct (on_box_moves (fun m => (attach true m, tt)) (dm_engine d)) as [m Hb]. exists [MvBox m].
    eapply d_inv_thread; [done|done|done|by constructor|by apply (thread_ok_plain _ _ ms t)].
  - destruct (prepare _ _ _ _ _) as [todo|e] eqn:Hp.
    + destruct (check_scope (th_op t) todo (dm_engine d)) as [g' r] eqn:Hr. apply check_scope_spec in Hr as (cs & -> & Hcs & Hfound).
      exists (map (MvCall (th_op t)) cs). eapply d_inv_thread; [done|done|by rewrite moves_calls| |].
      * apply (authorised_calls _ _ _ _ _ (fun _ => False)); [done|apply Hok|done|done].
      * destruct r as [[]|e]; [|by apply (thread_ok_plain _ _ ms t)]. split; [apply Hok|]. cbn [th_op th_stage].
        intros x [= <-]. split; [by eapply prepare_calls|]. intros id Hid. destruct (Hfound eq_refl id Hid) as (y & Hy & Ha).
        exists (ms ++ map (MvCall (th_op t)) cs), y. split; [done|]. rewrite moves_of_app, <- He, moves_calls. done.
    + exists []. assert (Hsame : set_engine (dm_engine d) d = d) by (by destruct d). rewrite <- Hsame at 1.
      eapply d_inv_thread; [done|done|done|by rewrite app_nil_r|by apply (thread_ok_plain _ _ ms t)].
  - destruct Hok as [Hop Hscoped]. destruct (Hscoped todo Hs) as [Hcalls Hfound].
    destruct (Hcalls (dm_engine d)) as (cs & Hcs & Hall). destruct (td_act todo (dm_engine d)) as [g' out]. cbn [fst] in Hcs. subst g'.
    exists (map (MvCall (th_op t)) cs). eapply d_inv_thread; [done|done|by rewrite moves_calls| |].
    + eapply authorised_calls; [done|done| |exact Hall]. done.
    + by apply (thread_ok_plain _ _ ms t).
  - destruct (on_box_moves (fun m => (attach false m, tt)) (dm_engine d)) as [m Hb]. exists [MvBox m].
    eapply d_inv_thread; [done|done|done|by constructor|by apply (thread_ok_plain _ _ ms t)].
  - destruct (on_box_moves (hand_over out) (dm_engine d)) as [m Hb]. exists [MvBox m].
    destruct (on_box (hand_over out) (dm_engine d)) as [g' out'].
    eapply (d_inv_thread _ _ _ _ (send (th_conn t) _ d)); [by apply d_inv_send|done|done|by constructor|by apply (thread_ok_plain _ _ ms t)].
  - exists []. by rewrite app_nil_r.
Qed.

Lemma chats_inv es g ms d d' : d_inv es g ms d -> chats d d' -> exists ms', d_inv es g (ms ++ ms') d'.
Proof.
  intros [He Hm Hc Ht] [(cs & Hcs & Hsite) Hth Hco]. exists (map MvOwn cs). split.
  - by rewrite Hcs, He, moves_of_app, moves_own.
  - by apply authorised_sites.
  - unfold conns_ok. by rewrite Hco.
  - rewrite Hth. eapply Forall_impl; [exact Ht|]. intros t. apply thread_ok_more.
Qed.

Lemma conns_ok_stage es c s d : conns_ok es d -> stage_ok es s -> conns_ok es (serve_stage c s d).
Proof. intros Hc Hs. unfold conns_ok, serve_stage. cbn. apply Forall_alter; [done|]. intros x _ [Hp _]. done. Qed.

Lemma turns_inv es g ms c d d' : d_inv es g ms d -> turns es c d d' -> exists ms', d_inv es g (ms ++ ms') d'.
Proof.
  intros Hinv (d1 & d2 & Hd1 & Hd2' & Hmid). destruct (chats_inv _ _ _ _ _ Hinv Hd1) as [ms1 [He Hm Hc Ht]].
  assert (Hd2 : d_inv es g (ms ++ ms1) d2).
  { destruct Hmid as [->|[(s & Hs & ->)|(op & q & Hop & ->)]]; [done| |]; (split; [done|done| |]); try done.
    - by apply conns_ok_stage.
    - cbn. apply Forall_app. split; [done|]. repeat constructor; [done|done|done]. }
  destruct (chats_inv _ _ _ _ _ Hd2 Hd2') as [ms2 Hd']. exists (ms1 ++ ms2). by rewrite app_assoc.
Qed.

Lemma d_step_inv es g ms d e : d_inv es g ms d -> exists ms', d_inv (es ++ [e]) g (ms ++ ms') (d_step operators dry_run d e).
Proof.
  intros Hinv. apply (d_inv_more _ e) in Hinv. destruct e as [peer|c line|i|c]; cbn [d_step].
  - exists []. rewrite app_nil_r. destruct Hinv as [He Hm Hc Ht]. split; [done|done| |done]. unfold conns_ok. cbn. apply Forall_app.
    split; [done|]. repeat constructor. apply elem_of_app. right. by left.
  - eapply turns_inv; [done|]. apply conn_step_turns, Hinv.
  - by apply thread_step_inv.
  - exists [MvOwn c]. destruct Hinv as [He Hm Hc Ht]. split; [|constructor; [done|]|done|].
    + cbn. by rewrite He, moves_of_app.
    + left. apply elem_of_app. right. by left.
    + eapply Forall_impl; [exact Ht|]. intros t. apply thread_ok_more.
Qed.

Lemma d_run_inv g es : exists ms, d_inv es g ms (d_run operators dry_run g es).
Proof.
  induction es as [|e es [ms IH]] using rev_ind; [exists []; by split; [|constructor..]|].
  unfold d_run. rewrite foldl_app. destruct (d_step_inv _ _ _ _ e IH) as [ms' Hd]. by exists (ms ++ ms').
Qed.

(** C7. Whatever connects and sends whatever frames, and however the verbs' threads
    interleave, the engine is where a sequence of calls takes it in which each call is the
    daemon's own or is made in the name of an operator that a connected peer is: that
    operator is for the plan it applies or drills, is for the plan the instance was found
    to be of at an earlier point of the run, or is an admin where the verb is one; and
    where a call says by whom it is, it says that operator. *)
Theorem every_call_has_authority (g : Engine) (es : list DEvent) :
  exists ms, dm_engine (d_run operators dry_run g es) = moves_of ms g /\ authorised es g ms.
Proof. destruct (d_run_inv g es) as [ms [He Hm _ _]]. by exists ms. Qed.

(** The daemon's engine lives as the engine's own theorems say: its calls are calls. *)
Lemma moves_live ms g : lives g (moves_of ms g).
Proof.
  revert g. induction ms as [|mv ms IH]; intros g; [done|]. cbn [moves_of foldl]. etrans; [|apply IH].
  destruct mv; [apply perform_lives|apply perform_lives|by apply lives_same].
Qed.

(** What every instance in the daemon's store goes through, over any run of the
    daemon, is a path of the state machine. *)
Theorem daemon_refines_the_machine (g : Engine) (es : list DEvent) (Hg : filed g) (id : string) :
  filed (dm_engine (d_run operators dry_run g es)) /\
  rtc life_step (face <$> stored g id) (face <$> stored (dm_engine (d_run operators dry_run g es)) id).
Proof. destruct (d_run_inv g es) as [ms [-> _ _ _]]. destruct (moves_live ms g Hg) as [Hf Hl]. by split. Qed.
End Machine.

(** ** Runs of the control channel

    The daemon on the in-memory bindings, for the witnesses of [Authority], and what
    modelling the channel showed: a reply that never hands over what [requester()] took, a
    mailbox that any verb's end detaches, and step numbers that wrap. *)

(** ** The daemon on the in-memory bindings *)

Definition demo_request (id : N) (verb : string) (args : list (string * Json)) : Json :=
  js_object_of [("id", js_num id); ("verb", JsStr verb); ("args", js_object_of args)].

(** Four lines, by their texts. *)
Definition demo_from_str (s : string) : Result Json string :=
  if s == "hello" then Ok (js_object_of [("hello", js_object_of [("proto", js_num 1)])])
  else if s == "apply" then Ok (demo_request 1 "apply" [("ir", JsNull)])
  else if s == "recant" then Ok (demo_request 2 "recant" [("instance", JsStr demo_id)])
  else if s == "status" then Ok (demo_request 3 "status" [("instance", JsStr demo_id)])
  else Err "expected value at line 1 column 1".

#[export] Instance demo_control : ControlSerde := {|
  from_str := demo_from_str;
  hello_of v := match get_u64 "proto" v with Some n => Ok (mkHello n (get_str "identity" v)) | None => Err "missing field `proto`" end;
  registration_of _ := Err "missing field `name`";
  crequest_of v :=
    match get_u64 "id" v, get_str "verb" v with
    | Some id, Some verb => Ok (mkCRequest id verb (default JsNull (js_get "args" v)))
    | _, _ => Err "missing field"
    end;
  plan_ir_of _ := Ok demo_two_files;
  params_of _ := Ok ∅;
  acks_of _ := Ok [];
  forced_of _ := Ok [];
  doctor_json _ := JsNull;
  canary_json _ := JsNull;
|}.

(** No acceptor of this world is [requester()]. *)
#[export] Instance demo_letterbox : Letterbox := {| box _ := mailbox_new; set_box _ w := w |}.

Definition demo_operators : Operators :=
  mkOperators
    [mkOperator "carol" (UsName "carol") ["sample"] false []; mkOperator "dave" (UsName "dave") ["other"] false []]
    [] false.

Definition demo_peer (user : string) : Peer := mkPeer (Some user) false (Some 1001%N).

(** Carol applies; Dave, who is for another plan, tries to recant; Carol recants. *)
Definition demo_events (last_turns : nat) : list DEvent :=
  [EvConnect (demo_peer "carol"); EvConnect (demo_peer "dave"); EvLine 0 (Some "hello"); EvLine 1 (Some "hello"); EvLine 0 (Some "apply")]
  ++ replicate 5 (EvThread 0) ++ [EvLine 1 (Some "recant")] ++ replicate 5 (EvThread 1) ++ [EvLine 0 (Some "recant")]
  ++ replicate last_turns (EvThread 2).

Definition codes_sent (d : Dm) : list (nat * option string) :=
  map (fun x => (fst x, js_get "error" (snd x) ≫= get_str "code")) (dm_sent d).

Lemma demo_run_state : fc_state <$> (face <$> stored (dm_engine (d_run demo_operators false demo_engine (demo_events 5))) demo_id) = Some SClosed.
Proof. vm_compute. reflexivity. Qed.

(** Dave is answered R0504 and the plan stays applied. *)
Example dave_is_refused :
  codes_sent (d_run demo_operators false demo_engine (demo_events 0)) = [(0, None); (1, None); (0, None); (1, Some "R0504")] /\
  fc_state <$> (face <$> stored (dm_engine (d_run demo_operators false demo_engine (demo_events 0))) demo_id) = Some SApplied.
Proof. split; vm_compute; reflexivity. Qed.

Lemma daemon_refines_the_machine_witness :
  fc_state <$> (face <$> stored (dm_engine (d_run demo_operators false demo_engine (demo_events 5))) demo_id) = Some SClosed /\
  rtc life_step (face <$> stored demo_engine demo_id)
    (face <$> stored (dm_engine (d_run demo_operators false demo_engine (demo_events 5))) demo_id).
Proof.
  split; [exact demo_run_state|].
  apply (daemon_refines_the_machine demo_operators false demo_engine (demo_events 5) demo_engine_filed).
Defined.

(** ** What no reply hands over *)

Section HandsOver.
Context `{ControlSerde}.

(** An answer without an [instance]. *)
Definition nameless (v : Json) : Prop := get_str "instance" v = None.

Definition answers_nameless (m : ME ControlError Json) : Prop := forall g g' v, m g = (g', Ok v) -> nameless v.

Lemma nameless_then {A} (m : ME ControlError A) k : (forall x, answers_nameless (k x)) -> answers_nameless (let! x := m in k x).
Proof. intros Hk g g' v. unfold mthen. destruct (m g) as [g1 [x|e]]; [|done]. apply Hk. Qed.

Lemma nameless_ret v : nameless v -> answers_nameless (mret v).
Proof. by intros Hv g g' v' [= _ <-]. Qed.

Lemma nameless_throw e : answers_nameless (mthrow e).
Proof. done. Qed.

Lemma nameless_answers {A} (read : A -> Json) (m : ME EngineError A) : (forall x, nameless (read x)) -> answers_nameless (answers read m).
Proof. intros Hr. apply nameless_then. intros x. by apply nameless_ret. Qed.

Ltac nameless_step :=
  first
    [ apply nameless_throw
    | apply nameless_ret; reflexivity
    | apply nameless_answers; intros; reflexivity
    | apply nameless_then; intros ?
    | match goal with
      | |- answers_nameless (if ?b then _ else _) => destruct b
      | |- answers_nameless (match ?x with _ => _ end) => destruct x
      | |- answers_nameless (lift (not_operator _ _)) => done
      end ].

(** [outcome_json] names the instance [id], and [dispatch] looks for [instance]: whatever
    [requester()] took while a verb other than a drill ran stays in the mailbox, and the
    reply has no secrets. *)
Theorem no_reply_but_a_drills_hands_over dry hooks op verb args t g g' out m :
  prepare dry hooks op verb args = Ok t -> verb <> "drill" -> td_act t g = (g', out) -> hand_over out m = (m, out).
Proof.
  intros Hp Hverb Hact. enough (Hn : answers_nameless (td_act t)).
  { destruct out as [v|e]; [|done]. unfold hand_over. by rewrite (Hn _ _ _ Hact). }
  clear Hact. revert Hp. unfold prepare, on_instance.
  repeat match goal with |- (if ?b then _ else _) = _ -> _ => destruct b eqn:? end; intros Ht; try done;
    try (apply bool_decide_eq_true in Heqb0; by subst verb);
    unfold apply_todo, abandon_todo, bootstrap_todo, reclaim_todo in Ht; result_inv; try (case_bool_decide; [done|result_inv]); cbn [td_act];
    unfold status_act, instance_act, approve_act, ack_act, reveal_act, doctor_act; repeat nameless_step.
Qed.
End HandsOver.

(** ** Whose client is attached *)

Section Detaches.
Context `{ControlSerde} `{!Letterbox} (dry_run : bool).
Context (box_set : forall m w, box (set_box m w) = m).

(** A verb that ends detaches the client of every other: the mailbox has one [attached]
    for all connections, and a thread that has not acted yet finds it off. *)
Lemma a_verb_that_ends_detaches_all d i t out : dm_threads d !! i = Some t -> th_stage t = SgActed out ->
  mb_attached (box (g_world (dm_engine (thread_step dry_run i d)))) = false /\
  forall j, j <> i -> dm_threads (thread_step dry_run i d) !! j = dm_threads d !! j.
Proof.
  intros Hi Hs. unfold thread_step. rewrite Hi, Hs. cbn. rewrite box_set. split; [done|].
  intros j Hj. by rewrite list_lookup_alter_ne.
Qed.
End Detaches.

(** A step number past 32 bits is another step: [as u32] keeps the low half. *)
Example a_large_step_wraps :
  scope_of (js_object_of [("step", js_num (2 ^ 32 + 1))]) = ScopeStep 1 /\ scope_of (js_object_of [("ack", js_num (2 ^ 32))]) = ScopeAck 0.
Proof. split; reflexivity. Qed.
