(* ===== verification/Lexer.v ===== *)
(** * Kinds and tokens ([surface/src/syntax.rs], [lexer.rs])

    Every token the lexer produces and every node the parser builds, then the lexer. *)

From Stdlib Require Import Ascii.
From stdpp Require Import base strings list.
From S2P Require Import Prelude Utf8.

Inductive SyntaxKind :=
| WHITESPACE | NEWLINE | COMMENT | NAME | UPPER_NAME | ATOM | INT | FLOAT | DURATION | STRING | L_PAREN
| R_PAREN | L_BRACK | R_BRACK | L_BRACE | R_BRACE | PERCENT_BRACE | COMMA | COLON | PIPE | PIPE_GT | EQ
| EQ_EQ | BANG_EQ | LT | LE | GT | GE | PLUS | MINUS | STAR | SLASH | PERCENT | DOT | ERROR_TOKEN
| FILE | VERSION | IMPORT | BLOCK | DEF | HEADER | PATTERN | BODY | LINE | STEP | PIPELINE | KNELL
| SLOT | OBSERVE | ASSERT | REPEAT | WHEN | ELSE_ARM | CONTRIBUTION | ARGS | KW | CALL | REF | BINARY
| UNARY | PAREN | LIST | RECORD | RECORD_ENTRY | LITERAL | ERROR.

#[export] Instance SyntaxKind_eq_dec : EqDecision SyntaxKind.
Proof. solve_decision. Defined.

(** [SyntaxKind::is_trivia] *)
Definition is_trivia (k : SyntaxKind) : bool := match k with WHITESPACE | NEWLINE | COMMENT => true | _ => false end.

(** [SyntaxKind::describe]: the name a diagnostic uses for a token of this kind. *)
Definition describe (k : SyntaxKind) : string :=
  match k with
  | WHITESPACE => "whitespace"
  | NEWLINE => "end of line"
  | COMMENT => "a comment"
  | NAME => "a name"
  | UPPER_NAME => "an upper-case name"
  | ATOM => "an atom"
  | INT => "an integer"
  | FLOAT => "a number"
  | DURATION => "a duration"
  | STRING => "a string"
  | L_PAREN => "`(`"
  | R_PAREN => "`)`"
  | L_BRACK => "`[`"
  | R_BRACK => "`]`"
  | L_BRACE => "`{`"
  | R_BRACE => "`}`"
  | PERCENT_BRACE => "`%{`"
  | COMMA => "`,`"
  | COLON => "`:`"
  | PIPE => "`|`"
  | PIPE_GT => "`|>`"
  | EQ => "`=`"
  | EQ_EQ => "`==`"
  | BANG_EQ => "`!=`"
  | LT => "`<`"
  | LE => "`<=`"
  | GT => "`>`"
  | GE => "`>=`"
  | PLUS => "`+`"
  | MINUS => "`-`"
  | STAR => "`*`"
  | SLASH => "`/`"
  | PERCENT => "`%`"
  | DOT => "`.`"
  | ERROR_TOKEN => "an unknown character"
  | _ => "a node"
  end.

(** ** The lexer ([surface/src/lexer.rs])

    Tokens over the whole source, nothing dropped. The patterns are those the source gives
    the [logos] derive, read as it documents them: the longest match of all of them is the
    token (no two match the same text), and a character no pattern matches is an error
    token. A string is lexed by hand. [None] is the panic of [Lexer::bump] past the end of
    the source. *)

(** ** Texts *)

(** The first [n] bytes, and what follows them. *)
Fixpoint str_take (n : nat) (s : string) : string :=
  match n, s with
  | S n, String c s => String c (str_take n s)
  | _, _ => EmptyString
  end.

Fixpoint str_drop (n : nat) (s : string) : string :=
  match n, s with
  | S n, String _ s => str_drop n s
  | _, _ => s
  end.

Definition between (lo hi : N) (c : ascii) : bool := (lo <=? N_of_ascii c)%N && (N_of_ascii c <=? hi)%N.

Definition c_tab : ascii := "009".
Definition c_lf : ascii := "010".
Definition c_cr : ascii := "013".
Definition c_quote : ascii := "034".
Definition c_backslash : ascii := "092".

Definition lower (c : ascii) : bool := between 97 122 c.
Definition upper (c : ascii) : bool := between 65 90 c.
Definition digit (c : ascii) : bool := between 48 57 c.
Definition word_start (c : ascii) : bool := lower c || (c == "_"%char).
Definition word (c : ascii) : bool := word_start c || digit c.

(** How many of the first bytes satisfy [f]. *)
Fixpoint run_of (f : ascii -> bool) (s : string) : nat :=
  match s with
  | EmptyString => 0
  | String c s => if f c then S (run_of f s) else 0
  end.

Definition first_is (f : ascii -> bool) (s : string) : bool :=
  match s with String c _ => f c | EmptyString => false end.

(** [f+] *)
Definition some_of (f : ascii -> bool) (s : string) : option nat :=
  match run_of f s with O => None | n => Some n end.

(** ** The patterns *)

(** [[ \t]+] *)
Definition m_whitespace : string -> option nat := some_of (fun c => (c == " "%char) || (c == c_tab)).

(** [\r?\n] *)
Definition m_newline (s : string) : option nat :=
  match s with
  | String c r =>
      if c == c_lf then Some 1
      else if (c == c_cr) && first_is (fun d => d == c_lf) r then Some 2
      else None
  | EmptyString => None
  end.

(** [#[^\n]*] *)
Definition m_comment (s : string) : option nat :=
  match s with
  | String c r => if c == "#"%char then Some (S (run_of (fun d => d != c_lf) r)) else None
  | EmptyString => None
  end.

(** [[0-9]+] *)
Definition m_int : string -> option nat := some_of digit.

(** [[0-9]+(ms|s|m|h|d)] *)
Definition m_duration (s : string) : option nat :=
  n ← m_int s;
  let r := str_drop n s in
  if starts_with "ms" r then Some (n + 2)
  else if first_is (fun c => existsb (fun d => c == d) ["s"; "m"; "h"; "d"]%char) r then Some (n + 1)
  else None.

(** [[0-9]+\.[0-9]+] *)
Definition m_float (s : string) : option nat :=
  n ← m_int s;
  match str_drop n s with
  | String c r => if c == "."%char then k ← m_int r; Some (n + 1 + k) else None
  | EmptyString => None
  end.

(** [[a-z_][a-z0-9_]*\??] *)
Definition m_name (s : string) : option nat :=
  match s with
  | String c r =>
      if word_start c then
        let n := run_of word r in
        Some (S n + if first_is (fun d => d == "?"%char) (str_drop n r) then 1 else 0)
      else None
  | EmptyString => None
  end.

(** [[A-Z][A-Za-z0-9_]*] *)
Definition m_upper_name (s : string) : option nat :=
  match s with
  | String c r => if upper c then Some (S (run_of (fun d => word d || upper d) r)) else None
  | EmptyString => None
  end.

(** [:[a-z_][a-z0-9_?!]*] *)
Definition m_atom (s : string) : option nat :=
  match s with
  | String c (String d r) =>
      if (c == ":"%char) && word_start d
      then Some (2 + run_of (fun x => word x || (x == "?"%char) || (x == "!"%char)) r)
      else None
  | _ => None
  end.

(** The rest of a quoted atom: characters but quotes, backslashes and newlines, or escapes,
    and the closing quote. *)
Fixpoint quoted_rest (s : string) : option nat :=
  match s with
  | EmptyString => None
  | String c r =>
      if c == c_quote then Some 1
      else if c == c_lf then None
      else if c == c_backslash then
        match r with
        | String d r' => if d == c_lf then None else n ← quoted_rest r'; Some (2 + n)
        | EmptyString => None
        end
      else n ← quoted_rest r; Some (1 + n)
  end.

(** A colon and a quoted text. *)
Definition m_quoted_atom (s : string) : option nat :=
  match s with
  | String c (String d r) => if (c == ":"%char) && (d == c_quote) then n ← quoted_rest r; Some (2 + n) else None
  | _ => None
  end.

Definition m_token (t s : string) : option nat := if starts_with t s then Some (String.length t) else None.

(** Every pattern but the string's, which is one quote. *)
Definition patterns : list (SyntaxKind * (string -> option nat)) := [
  (WHITESPACE, m_whitespace); (NEWLINE, m_newline); (COMMENT, m_comment); (DURATION, m_duration);
  (FLOAT, m_float); (INT, m_int); (NAME, m_name); (UPPER_NAME, m_upper_name); (ATOM, m_atom); (ATOM, m_quoted_atom);
  (STRING, m_token (String c_quote EmptyString)); (PERCENT_BRACE, m_token "%{"); (L_PAREN, m_token "(");
  (R_PAREN, m_token ")"); (L_BRACK, m_token "["); (R_BRACK, m_token "]"); (L_BRACE, m_token "{");
  (R_BRACE, m_token "}"); (COMMA, m_token ","); (COLON, m_token ":"); (PIPE_GT, m_token "|>"); (PIPE, m_token "|");
  (EQ_EQ, m_token "=="); (BANG_EQ, m_token "!="); (LE, m_token "<="); (GE, m_token ">="); (EQ, m_token "=");
  (LT, m_token "<"); (GT, m_token ">"); (PLUS, m_token "+"); (MINUS, m_token "-"); (STAR, m_token "*");
  (SLASH, m_token "/"); (PERCENT, m_token "%"); (DOT, m_token ".")].

(** The longest match, the first of them on a tie. *)
Definition longer (s : string) (best : option (SyntaxKind * nat)) (p : SyntaxKind * (string -> option nat))
    : option (SyntaxKind * nat) :=
  match snd p s, best with
  | None, _ => best
  | Some n, Some (_, m) => if m <? n then Some (fst p, n) else best
  | Some n, None => Some (fst p, n)
  end.

Definition longest (s : string) : option (SyntaxKind * nat) := foldl (longer s) None patterns.

(** ** Strings *)

(** [lex_string]: how many bytes of the remainder belong to the string. [depth] counts the
    open braces of an interpolation; [skip] is set where the source moves on by two. *)
Fixpoint string_rest (s : string) (depth : nat) (skip : bool) : nat :=
  match s with
  | EmptyString => if skip then 1 else 0
  | String c r =>
      if skip then S (string_rest r depth false)
      else if (c == c_backslash) && (depth =? 0)%nat then S (string_rest r depth true)
      else if (c == c_quote) && (depth =? 0)%nat then 1
      else if (c == "#"%char) && (depth =? 0)%nat && first_is (fun d => d == "{"%char) r then S (string_rest r 1 true)
      else if (c == "{"%char) && (0 <? depth)%nat then S (string_rest r (S depth) false)
      else if (c == "}"%char) && (0 <? depth)%nat then S (string_rest r (Nat.pred depth) false)
      else if c == c_lf then 0
      else S (string_rest r depth false)
  end.

Definition lex_string (remainder : string) : nat := string_rest remainder 0 false.

(** ** Tokens *)

Record Token := mkToken { tok_kind : SyntaxKind; tok_text : string }.

(** How many bytes the first character of a text has: its continuation bytes follow it. *)
Definition char_width (s : string) : nat :=
  match s with
  | EmptyString => 0
  | String _ r => S (run_of (between 128 191) r)
  end.

(** The next token: its kind and how many bytes it has. *)
Definition next_token (s : string) : SyntaxKind * nat :=
  match longest s with
  | Some (STRING, n) => (STRING, n + lex_string (str_drop n s))
  | Some (k, n) => (k, n)
  | None => (ERROR_TOKEN, char_width s)
  end.

(** [lex]; a token for each turn, each at least one byte long. *)
Fixpoint lex_loop (fuel : nat) (s : string) : option (list Token) :=
  match s, fuel with
  | EmptyString, _ => Some []
  | _, O => None
  | _, S fuel =>
      let '(kind, n) := next_token s in
      if (String.length s <? n)%nat then None
      else rest ← lex_loop fuel (str_drop n s); Some (mkToken kind (str_take n s) :: rest)
  end.

Definition lex (src : string) : option (list Token) := lex_loop (String.length src) src.

Example lex_ex1 :
  (map tok_kind <$> lex "when up? == 30ms do # x") =
  Some [NAME; WHITESPACE; NAME; WHITESPACE; EQ_EQ; WHITESPACE; DURATION; WHITESPACE; NAME; WHITESPACE; COMMENT].
Proof. vm_compute. reflexivity. Qed.

(** ** What a token is *)

Lemma str_take_drop n s : str_take n s +:+ str_drop n s = s.
Proof.
  revert s. induction n as [|n IH]; intros [|c s]; try done. cbn [str_take str_drop]. by rewrite append_cons, IH.
Qed.

Lemma str_drop_length n s : String.length (str_drop n s) = String.length s - n.
Proof. revert s. induction n as [|n IH]; intros [|c s]; cbn; [done|done|done|apply IH]. Qed.

Lemma str_take_length n s : String.length (str_take n s) = n `min` String.length s.
Proof. revert s. induction n as [|n IH]; intros [|c s]; cbn; auto. Qed.

Lemma run_of_length f s : run_of f s <= String.length s.
Proof. induction s as [|c s IH]; cbn; [done|]. destruct (f c); lia. Qed.

(** A pattern matches one byte at least, and no more than there are. *)
Definition in_bounds (m : string -> option nat) : Prop := forall s n, m s = Some n -> 1 <= n <= String.length s.

Lemma some_of_bounds f : in_bounds (some_of f).
Proof. intros s n. unfold some_of. pose proof (run_of_length f s). destruct (run_of f s); [done|]. intros [= <-]. lia. Qed.

Lemma starts_with_split t s : starts_with t s = true -> exists r, s = t +:+ r.
Proof.
  unfold starts_with. revert s. induction t as [|c t IH]; intros s; [by exists s|]. destruct s as [|d s]; [done|].
  cbn [String.prefix]. destruct (ascii_dec c d) as [->|]; [|done]. intros [r ->]%IH. exists r. by rewrite append_cons.
Qed.

Lemma m_token_bounds t : t <> EmptyString -> in_bounds (m_token t).
Proof.
  intros Ht s n. unfold m_token. destruct (starts_with t s) eqn:Hs; [|done]. intros [= <-].
  apply starts_with_split in Hs as [r ->]. rewrite length_app_s. destruct t; [done|]. cbn. lia.
Qed.

Lemma first_is_length f s : first_is f s = true -> 1 <= String.length s.
Proof. destruct s; [done|]. cbn. lia. Qed.

Lemma m_int_bounds : in_bounds m_int.
Proof. apply some_of_bounds. Qed.

Lemma m_newline_bounds : in_bounds m_newline.
Proof.
  intros [|c s] n; [done|]. cbn. case_bool_decide; [intros [= <-]; lia|]. destruct (_ && first_is _ s) eqn:Hb; [|done].
  intros [= <-]. apply andb_true_iff in Hb as [_ Hb%first_is_length]. lia.
Qed.

Lemma m_comment_bounds : in_bounds m_comment.
Proof.
  intros [|c s] n; [done|]. cbn. case_bool_decide; [|done]. intros [= <-].
  pose proof (run_of_length (fun d => d != c_lf) s). lia.
Qed.

Lemma m_duration_bounds : in_bounds m_duration.
Proof.
  intros s n. unfold m_duration. destruct (m_int s) as [k|] eqn:Hk; [|done]. cbn. apply m_int_bounds in Hk.
  pose proof (str_drop_length k s) as Hl. destruct (starts_with "ms" (str_drop k s)) eqn:Hm.
  - intros [= <-]. apply starts_with_split in Hm as [r Hr]. rewrite Hr, length_app_s in Hl. cbn in Hl. lia.
  - destruct (first_is _ (str_drop k s)) eqn:Hf; [|done]. intros [= <-]. apply first_is_length in Hf. lia.
Qed.

Lemma m_float_bounds : in_bounds m_float.
Proof.
  intros s n. unfold m_float. destruct (m_int s) as [k|] eqn:Hk; [|done]. cbn. apply m_int_bounds in Hk.
  pose proof (str_drop_length k s) as Hl. destruct (str_drop k s) as [|c r]; [done|]. case_bool_decide; [|done].
  destruct (m_int r) as [j|] eqn:Hj; [|done]. intros [= <-]. apply m_int_bounds in Hj. cbn in Hl. lia.
Qed.

Lemma m_name_bounds : in_bounds m_name.
Proof.
  intros [|c s] n; [done|]. cbn. destruct (word_start c); [|done]. intros [= <-]. pose proof (run_of_length word s).
  destruct (first_is _ (str_drop _ s)) eqn:Hf; [|lia]. apply first_is_length in Hf. rewrite str_drop_length in Hf. lia.
Qed.

Lemma m_upper_name_bounds : in_bounds m_upper_name.
Proof.
  intros [|c s] n; [done|]. cbn. destruct (upper c); [|done]. intros [= <-].
  pose proof (run_of_length (fun d => word d || upper d) s). lia.
Qed.

Lemma m_atom_bounds : in_bounds m_atom.
Proof.
  intros [|c [|d s]] n; try done. cbn [m_atom]. destruct (_ && _); [|done]. intros [= <-].
  match goal with |- context [run_of ?f s] => pose proof (run_of_length f s) end. cbn. lia.
Qed.

Lemma quoted_rest_bounds s : forall n, quoted_rest s = Some n -> 1 <= n <= String.length s.
Proof.
  induction s as [s IH] using (induction_ltof1 _ String.length). unfold ltof in IH.
  intros n. destruct s as [|c s]; [done|]. cbn [quoted_rest String.length].
  case_bool_decide; [intros [= <-]; lia|]. case_bool_decide; [done|]. case_bool_decide.
  - destruct s as [|d s]; [done|]. case_bool_decide; [done|]. destruct (quoted_rest s) as [k|] eqn:Hk; [|done].
    intros [= <-]. apply IH in Hk; cbn; lia.
  - destruct (quoted_rest s) as [k|] eqn:Hk; [|done]. intros [= <-]. apply IH in Hk; cbn; lia.
Qed.

Lemma m_quoted_atom_bounds : in_bounds m_quoted_atom.
Proof.
  intros [|c [|d s]] n; try done. cbn [m_quoted_atom]. destruct (_ && _); [|done].
  destruct (quoted_rest s) as [k|] eqn:Hk; [|done]. intros [= <-]. apply quoted_rest_bounds in Hk. cbn. lia.
Qed.

Lemma patterns_bounds : Forall (fun p => in_bounds (snd p)) patterns.
Proof.
  unfold patterns. repeat apply Forall_cons_2; cbn [snd]; try (apply m_token_bounds; discriminate); [..|constructor].
  - apply some_of_bounds.
  - apply m_newline_bounds.
  - apply m_comment_bounds.
  - apply m_duration_bounds.
  - apply m_float_bounds.
  - apply m_int_bounds.
  - apply m_name_bounds.
  - apply m_upper_name_bounds.
  - apply m_atom_bounds.
  - apply m_quoted_atom_bounds.
Qed.

(** The longest match is a match of its kind. *)
Lemma longest_from s ps : forall best k n,
  foldl (longer s) best ps = Some (k, n) -> best = Some (k, n) \/ exists m, (k, m) ∈ ps /\ m s = Some n.
Proof.
  induction ps as [|[j m] ps IH]; intros best k n; [by left|]. cbn [foldl]. intros Hf.
  apply IH in Hf as [Hb|(m' & Hin & Hm)]; [|right; exists m'; by split; [right|]].
  unfold longer in Hb. cbn [fst snd] in Hb. destruct (m s) as [i|] eqn:Hm; [|by left].
  destruct best as [[kb b]|]; [destruct (b <? i)%nat; [|by left]|]; injection Hb as -> ->; right; exists m; by split; [left|].
Qed.

Lemma longest_match s k n : longest s = Some (k, n) -> exists m, (k, m) ∈ patterns /\ m s = Some n.
Proof. unfold longest. generalize patterns. intros ps Hf. apply longest_from in Hf as [Hf|Hf]; [discriminate Hf|exact Hf]. Qed.

Lemma longest_bounds s k n : longest s = Some (k, n) -> 1 <= n <= String.length s.
Proof.
  intros (m & Hin & Hm)%longest_match. pose proof patterns_bounds as Hb. rewrite Forall_forall in Hb.
  exact (Hb _ Hin s n Hm).
Qed.

(** ** The whole source *)

Lemma next_token_progress s : s <> EmptyString -> 1 <= snd (next_token s).
Proof.
  intros Hs. unfold next_token. destruct (longest s) as [[k n]|] eqn:Hl.
  - apply longest_bounds in Hl. destruct k; cbn; lia.
  - destruct s as [|c s]; [done|]. cbn. lia.
Qed.

(** A string runs past the end only by the byte after a last backslash. *)
Lemma string_rest_overrun s : forall depth skip,
  String.length s < string_rest s depth skip ->
  string_rest s depth skip = S (String.length s) /\ (s = EmptyString /\ skip = true \/ exists t, s = t +:+ String c_backslash EmptyString).
Proof.
  induction s as [|c s IH]; intros depth skip; cbn [string_rest String.length].
  { destruct skip; [auto|intros; lia]. }
  assert (Hstep : forall d k, String.length s < string_rest s d k -> (k = true -> s = EmptyString -> c = c_backslash) ->
    string_rest s d k = S (String.length s) /\ exists t, String c s = t +:+ String c_backslash EmptyString).
  { intros d k Hlt Hk. destruct (IH d k Hlt) as [He [[-> ->]|[t ->]]]; (split; [done|]).
    - exists EmptyString. by rewrite (Hk eq_refl eq_refl).
    - exists (String c t). by rewrite append_cons. }
  assert (Hgo : forall d k, S (String.length s) < S (string_rest s d k) -> (k = true -> s = EmptyString -> c = c_backslash) ->
    S (string_rest s d k) = S (S (String.length s)) /\ (String c s = EmptyString /\ skip = true \/ exists t, String c s = t +:+ String c_backslash EmptyString)).
  { intros d k Hlt Hk. destruct (Hstep d k) as [He Ht]; [lia|done|]. split; [lia|by right]. }
  destruct skip; [intros Hlt; by apply Hgo|].
  destruct ((c == c_backslash) && (depth =? 0)%nat) eqn:H1.
  { intros Hlt. apply Hgo; [done|]. intros _ _. apply andb_true_iff in H1 as [H1 _]. by apply bool_decide_eq_true in H1. }
  destruct ((c == c_quote) && _); [intros; lia|].
  destruct ((c == "#"%char) && (depth =? 0)%nat && first_is _ s) eqn:H3.
  { intros Hlt. apply Hgo; [done|]. intros _ ->. apply andb_true_iff in H3 as [_ H3]. done. }
  destruct ((c == "{"%char) && _); [intros Hlt; by apply Hgo|]. destruct ((c == "}"%char) && _); [intros Hlt; by apply Hgo|].
  destruct (c == c_lf); [intros; lia|]. intros Hlt. by apply Hgo.
Qed.

Lemma lex_loop_text fuel : forall s ts, lex_loop fuel s = Some ts -> concats (map tok_text ts) = s.
Proof.
  induction fuel as [|fuel IH]; intros s ts; (destruct s as [|c s]; [intros [= <-]; reflexivity|]); [discriminate|]. cbn [lex_loop].
  destruct (next_token (String c s)) as [k n]. destruct (_ <? _)%nat; [done|].
  destruct (lex_loop fuel (str_drop n (String c s))) as [r|] eqn:Hr; [|done]. intros [= <-]. apply IH in Hr. cbn [map tok_text].
  rewrite concat_empty_cons, Hr. apply str_take_drop.
Qed.

Lemma lex_loop_nonempty fuel : forall s ts, lex_loop fuel s = Some ts -> Forall (fun t => tok_text t <> EmptyString) ts.
Proof.
  induction fuel as [|fuel IH]; intros s ts; (destruct s as [|c s]; [intros [= <-]; constructor|]); [discriminate|]. cbn [lex_loop].
  pose proof (next_token_progress (String c s)) as Hp. destruct (next_token (String c s)) as [k n].
  destruct (_ <? _)%nat; [done|]. destruct (lex_loop fuel _) as [r|] eqn:Hr; [|done]. intros [= <-].
  constructor; [|by eapply IH]. cbn in Hp. destruct n; [specialize (Hp ltac:(done)); lia|done].
Qed.

#[local] Opaque longest.

Lemma next_token_cases s k n :
  next_token s = (k, n) ->
  (exists m, longest s = Some (STRING, m) /\ k = STRING /\ n = m + lex_string (str_drop m s))
  \/ (longest s = Some (k, n) /\ k <> STRING)
  \/ (longest s = None /\ k = ERROR_TOKEN /\ n = char_width s).
Proof.
  unfold next_token. destruct (longest s) as [[j m]|]; [|intros [= <- <-]; auto].
  destruct j; intros [= <- <-]; try (right; left; split; [reflexivity|discriminate]). left. by exists m.
Qed.

Lemma char_width_bounds s : char_width s <= String.length s.
Proof. destruct s as [|c r]; [done|]. cbn. pose proof (run_of_length (between 128 191) r). lia. Qed.

Lemma next_token_overrun s k n :
  next_token s = (k, n) -> String.length s < n -> exists t, s = t +:+ String c_backslash EmptyString.
Proof.
  intros [(m & Hl & _ & ->)|[[Hl _]|(_ & _ & ->)]]%next_token_cases Hlt.
  - apply longest_bounds in Hl. unfold lex_string in Hlt.
    destruct (string_rest_overrun (str_drop m s) 0 false) as [_ [[_ ?]|[t Ht]]]; [rewrite str_drop_length; lia|done|].
    exists (str_take m s +:+ t). rewrite <- (str_take_drop m s) at 1. by rewrite Ht, app_assoc_s.
  - apply longest_bounds in Hl. lia.
  - pose proof (char_width_bounds s). lia.
Qed.

Lemma lex_loop_none fuel : forall s,
  String.length s <= fuel -> lex_loop fuel s = None -> exists t, s = t +:+ String c_backslash EmptyString.
Proof.
  induction fuel as [|fuel IH]; intros s; (destruct s as [|c s]; [discriminate|]); intros Hf; [cbn in Hf; lia|]. cbn [lex_loop].
  pose proof (next_token_progress (String c s)) as Hp. destruct (next_token (String c s)) as [k n] eqn:Hn. cbn [snd] in Hp.
  specialize (Hp ltac:(done)). destruct (Nat.ltb_spec (String.length (String c s)) n) as [Hlt|Hge].
  - intros _. by apply (next_token_overrun _ k n Hn).
  - destruct (lex_loop fuel _) as [r|] eqn:Hr; [done|]. intros _. apply IH in Hr as [t Ht].
    + exists (str_take n (String c s) +:+ t). by rewrite <- (str_take_drop n (String c s)) at 1; rewrite Ht, app_assoc_s.
    + rewrite str_drop_length. cbn in *. lia.
Qed.

(** A comment runs to the end of its line. *)
Lemma run_of_stop f s : first_is (fun c => negb (f c)) (str_drop (run_of f s) s) = true \/ str_drop (run_of f s) s = EmptyString.
Proof. induction s as [|c s IH]; [by right|]. cbn [run_of]. destruct (f c) eqn:Hc; [exact IH|]. left. cbn. by rewrite Hc. Qed.

Lemma tokens_bound ts : Forall (fun t => tok_text t <> EmptyString) ts -> length ts <= String.length (concats (map tok_text ts)).
Proof.
  induction 1 as [|t ts Ht _ IH]; [done|]. cbn [map length]. rewrite concat_empty_cons, length_app_s.
  destruct (tok_text t); [done|cbn; lia].
Qed.

(** Every byte of the source is in exactly one token, in order. *)
Theorem lex_is_lossless src ts :
  lex src = Some ts -> concats (map tok_text ts) = src /\ Forall (fun t => tok_text t <> EmptyString) ts.
Proof. intros Hl. split; [by eapply lex_loop_text|by eapply lex_loop_nonempty]. Qed.

(** The lexer answers on every source that does not end in a backslash. *)
Theorem lex_answers src : lex src = None -> exists t, src = t +:+ String c_backslash EmptyString.
Proof. by apply lex_loop_none. Qed.

(** An open string that ends in a backslash ends the lexer too. *)
Example lex_panics_on_open_escape : lex (String c_quote (String c_backslash EmptyString)) = None.
Proof. vm_compute. reflexivity. Qed.
