(* ===== verification/Parser.v ===== *)
(** * The parser ([surface/src/parser.rs])

    Recursive descent over the tokens, with recovery at the statement. The tree goes to
    rowan's builder; what is modelled are the calls the parser makes of it: a node is
    started, a token added, a node finished. A checkpoint is a place among the calls, and
    [start_node_at] puts the start of a node there. A loop of the source takes a turn for
    each round and a recursion a level; [Starved] is the answer when they run out. *)

From Stdlib Require Import Ascii.
From stdpp Require Import base strings list.
From S2P Require Import Prelude Monad Utf8 Diagnostics Lexer.

Definition LANGUAGE_VERSION : N := 0.

Definition DEFS : list string := ["defprobe"; "defprim"; "defop"; "defplan"; "defrole"; "defprotocol"; "defimpl"].
Definition BLOCKS : list string := ["site"; "operators"; "hooks"; "par"; "preflight"].

(** A call of [GreenNodeBuilder]. *)
Inductive Build :=
| BStart (k : SyntaxKind)
| BToken (t : Token)
| BFinish.

Record Parser := mkParser {
  p_tokens : list Token;
  p_offsets : list nat;
  p_pos : nat;
  p_builder : list Build;
  p_diagnostics : list SpanDiagnostic;
  p_file : string;
  p_src : string;
  p_suppress : bool;
}.

Definition eta_parser (p : Parser) : Parser :=
  mkParser (p_tokens p) (p_offsets p) (p_pos p) (p_builder p) (p_diagnostics p) (p_file p) (p_src p) (p_suppress p).

Definition set_pos v p := ltac:(field_update eta_parser p_pos v p).
Definition set_builder v p := ltac:(field_update eta_parser p_builder v p).
Definition set_diagnostics v p := ltac:(field_update eta_parser p_diagnostics v p).
Definition set_suppress v p := ltac:(field_update eta_parser p_suppress v p).

(** Out of turns or levels. *)
Inductive Starved := starved.

Definition PM (A : Type) : Type := Parser -> Parser * Result A Starved.

Definition look {A} (f : Parser -> A) : PM A := fun p => (p, Ok (f p)).
Definition act_on (f : Parser -> Parser) : PM unit := fun p => (f p, Ok tt).

(** [while cond { body }] *)
Fixpoint while_ (fuel : nat) (cond : Parser -> bool) (body : PM unit) : PM unit :=
  match fuel with
  | O => mthrow starved
  | S n => fun p => if cond p then (do! body in while_ n cond body) p else mret tt p
  end.

(** ** The token stream *)

Definition trivia_token (t : Token) : bool := match tok_kind t with WHITESPACE | COMMENT => true | _ => false end.

Fixpoint trivia_run (ts : list Token) : nat :=
  match ts with
  | t :: r => if trivia_token t then S (trivia_run r) else 0
  | [] => 0
  end.

(** The first significant token from an index on. *)
Definition skip_trivia (p : Parser) (i : nat) : nat := i + trivia_run (drop i (p_tokens p)).

Definition peek_index (p : Parser) : nat := skip_trivia p (p_pos p).
Definition peek (p : Parser) : option Token := p_tokens p !! peek_index p.
Definition peek_kind (p : Parser) : option SyntaxKind := tok_kind <$> peek p.
Definition peek2 (p : Parser) : option Token := p_tokens p !! skip_trivia p (S (peek_index p)).

Definition at_ (k : SyntaxKind) (p : Parser) : bool := peek_kind p == Some k.
Definition is_name (text : string) (t : Token) : bool := (tok_kind t == NAME) && (tok_text t == text).
Definition at_name (text : string) (p : Parser) : bool :=
  match peek p with Some t => is_name text t | None => false end.
Definition at_eof (p : Parser) : bool := match peek p with None => true | Some _ => false end.
Definition at_any (ks : list SyntaxKind) (p : Parser) : bool :=
  match peek_kind p with Some k => existsb (fun x => k == x) ks | None => false end.

(** The tokens up to an index go to the builder. *)
Definition eat_trivia (p : Parser) : Parser :=
  let i := peek_index p in
  set_pos i (set_builder (p_builder p ++ map BToken (take (i - p_pos p) (drop (p_pos p) (p_tokens p)))) p).

Definition bump_ (p : Parser) : Parser :=
  let p := eat_trivia p in
  match p_tokens p !! p_pos p with
  | Some t =>
      let p := if tok_kind t == NEWLINE then set_suppress false p else p in
      set_pos (S (p_pos p)) (set_builder (p_builder p ++ [BToken t]) p)
  | None => p
  end.

Definition bump : PM unit := act_on bump_.

Definition start (k : SyntaxKind) : PM unit := act_on (fun p =>
  let p := eat_trivia p in set_builder (p_builder p ++ [BStart k]) p).

Definition checkpoint : PM nat := do! act_on eat_trivia in look (fun p => length (p_builder p)).

Definition start_at (cp : nat) (k : SyntaxKind) : PM unit := act_on (fun p =>
  set_builder (take cp (p_builder p) ++ [BStart k] ++ drop cp (p_builder p)) p).

Definition finish : PM unit := act_on (fun p => set_builder (p_builder p ++ [BFinish]) p).

(** ** Diagnostics *)

(** [before.matches('\n').count()] *)
Definition newlines (s : string) : nat := length (fst (split_lines s)).

(** [before.rsplit('\n').next()] *)
Definition last_line (s : string) : string := snd (split_lines s).

Definition span_at (p : Parser) (index : nat) : Span :=
  let offset := match p_offsets p !! index with Some o => o | None => String.length (p_src p) end in
  let before := str_take offset (p_src p) in
  mkSpan (p_file p) (wrap32 (wrap32 (N.of_nat (newlines before)) + 1))
    (wrap32 (wrap32 (N.of_nat (length (chars (last_line before)))) + 1)).

Definition ticked (s : string) : string := concats ["`"; s; "`"].

Definition found_text (p : Parser) : string :=
  match peek p with
  | None => "end of file"
  | Some t =>
      match tok_kind t with
      | NEWLINE => "end of line"
      | NAME | UPPER_NAME | ATOM | INT | FLOAT | DURATION | STRING | ERROR_TOKEN => ticked (tok_text t)
      | k => describe k
      end
  end.

Definition report (d : SpanDiagnostic) : PM unit := act_on (fun p => set_diagnostics (p_diagnostics p ++ [d]) p).

Definition expected_here (expected context : string) (p : Parser) : SpanDiagnostic :=
  mkSpanDiagnostic E0101 (Some (span_at p (peek_index p))) (Some expected) (Some (found_text p)) None
    ("parse error " +:+ context).

Definition node {A} (k : SyntaxKind) (m : PM A) : PM A :=
  do! start k in let! x := m in do! finish in mret x.

(** Something other than a newline comes next. *)
Definition on_line (p : Parser) : bool :=
  match peek p with Some t => tok_kind t != NEWLINE | None => false end.

(** The rest of the line, into an [ERROR] node. *)
Definition recover_line (fuel : nat) : PM unit := node ERROR (while_ fuel on_line bump).

(** E0101 at the next significant token. *)
Definition error (expected context : string) : PM unit := fun p =>
  if p_suppress p then mret tt p
  else
    (do! act_on (set_suppress true) in
     let! d := look (expected_here expected context) in
     do! report d in
     let! tokens := look p_tokens in
     recover_line (S (length tokens))) p.

(** A body ran into a top-level keyword. *)
Definition missing_end (context : string) : PM unit := fun p =>
  if p_suppress p then mret tt p
  else
    (let! d := look (expected_here "`end`" context) in
     do! report d in
     act_on (set_suppress true)) p.

Definition expect (k : SyntaxKind) (context : string) : PM bool :=
  let! here := look (at_ k) in
  if here then do! bump in mret true else do! error (describe k) context in mret false.

Definition expect_name (text context : string) : PM bool :=
  let! here := look (at_name text) in
  if here then do! bump in mret true else do! error (ticked text) context in mret false.

Definition expect_ (k : SyntaxKind) (context : string) : PM unit := let! _ := expect k context in mret tt.

Definition bump_if (cond : Parser -> bool) : PM unit :=
  let! here := look cond in if here then bump else mret tt.

Definition expect_newline (context : string) : PM unit :=
  let! eof := look at_eof in
  if eof then mret tt
  else
    let! here := look (at_ NEWLINE) in
    do! (if here then mret tt else error "end of line" context) in
    bump_if (at_ NEWLINE).

(** [if self.at_name("as") { self.bump(); self.expect(NAME, ..) }] *)
Definition as_name : PM unit :=
  let! here := look (at_name "as") in
  if here then do! bump in expect_ NAME "after `as`" else mret tt.

(** A node around what was built since a checkpoint and what [m] builds. *)
Definition wrap (cp : nat) (k : SyntaxKind) (m : PM unit) : PM unit := do! start_at cp k in do! m in finish.

(** ** Arguments and expressions

    [self] is the parser of the next level down: the places where the source calls itself
    on what is inside. [n] bounds the rounds of a loop. *)

Inductive Rule := RExpr | RArg | RNot | RUnary | RBody | RStmt.

Section Rules.
Variable self : Rule -> PM unit.
Variable n : nat.

(** [first (SEP next)*], from the first separator on. *)
Definition many (cond : Parser -> bool) (next : PM unit) : PM unit := while_ n cond (do! bump in next).

(** [arg (, arg)*] *)
Definition arg_list : PM unit := do! self RArg in many (at_ COMMA) (self RArg).

Definition args : PM unit := node ARGS arg_list.

Definition record_entry : PM unit :=
  node RECORD_ENTRY
    (let! key := look (at_any [NAME; UPPER_NAME; STRING]) in
     if key then
       do! bump in
       let! colon := expect COLON "after the record key" in
       if colon then self RArg else mret tt
     else error "a record key" "in a record").

(** A string token that was closed. *)
Definition closed_string (t : Token) : bool :=
  negb (String.length (tok_text t) <? 2)%nat && (str_drop (Nat.pred (String.length (tok_text t))) (tok_text t) == dquote).

(** A call when a parenthesis follows the reference at [cp]. *)
Definition call_after (cp : nat) : PM unit :=
  let! here := look (at_ L_PAREN) in
  if here then
    wrap cp CALL
      (do! bump in
       let! empty := look (at_ R_PAREN) in
       do! (if empty then mret tt else args) in
       expect_ R_PAREN "to close the call")
  else mret tt.

Definition reference : PM unit :=
  let! cp := checkpoint in
  do! node REF (do! bump in many (at_ DOT) (expect_ NAME "after `.`")) in
  call_after cp.

(** What stands between an opening token and its closing one. *)
Definition enclosed (close : SyntaxKind) (context : string) (inside : PM unit) : PM unit :=
  do! bump in
  let! empty := look (at_ close) in
  do! (if empty then mret tt else inside) in
  expect_ close context.

Definition postfix : PM unit :=
  let! t := look peek in
  match t with
  | None => error "an expression" "here"
  | Some t =>
      match tok_kind t with
      | STRING => if closed_string t then node LITERAL bump else error "a closing quote" "in a string"
      | INT | FLOAT | ATOM | DURATION => node LITERAL bump
      | NAME =>
          if (tok_text t == "true") || (tok_text t == "false") then node LITERAL bump else reference
      | UPPER_NAME => node REF bump
      | L_PAREN => node PAREN (do! bump in do! self RExpr in expect_ R_PAREN "to close the parenthesis")
      | L_BRACK => node LIST (enclosed R_BRACK "to close the list" arg_list)
      | PERCENT_BRACE =>
          node RECORD (enclosed R_BRACE "to close the record"
            (do! record_entry in many (at_ COMMA) record_entry))
      | _ => error "an expression" "here"
      end
  end.

Definition unary : PM unit :=
  let! here := look (at_ MINUS) in
  if here then node UNARY (do! bump in self RUnary) else postfix.

(** [next (OP next)*], each operator and its right side wrapped with all before it. *)
Definition left_assoc (ops : Parser -> bool) (next : PM unit) : PM unit :=
  let! cp := checkpoint in
  do! next in
  while_ n ops (wrap cp BINARY (do! bump in next)).

Definition mul : PM unit := left_assoc (at_any [STAR; SLASH; PERCENT]) unary.
Definition add : PM unit := left_assoc (at_any [PLUS; MINUS]) mul.

Definition cmp : PM unit :=
  let! cp := checkpoint in
  do! add in
  let! here := look (at_any [LT; LE; GT; GE; EQ_EQ; BANG_EQ]) in
  if here then wrap cp BINARY (do! bump in add) else mret tt.

Definition not_ : PM unit :=
  let! here := look (at_name "not") in
  if here then node UNARY (do! bump in self RNot) else cmp.

Definition and_ : PM unit := left_assoc (at_name "and") not_.
Definition or_ : PM unit := left_assoc (at_name "or") and_.
Definition expr : PM unit := or_.

(** A keyword argument or an expression. *)
Definition is_key (p : Parser) : bool :=
  at_any [NAME; UPPER_NAME; STRING] p && ((tok_kind <$> peek2 p) == Some COLON).

Definition arg : PM unit :=
  let! key := look is_key in
  if key then node KW (do! bump in do! bump in self RArg) else expr.

(** ** Statements *)

(** [call (, kw)* (as NAME)?] without its newline. *)
Definition step_ : PM unit := node STEP (do! postfix in do! many (at_ COMMA) arg in as_name).

Definition step_or_pipeline : PM unit :=
  let! cp := checkpoint in
  do! step_ in
  let! piped := look (at_ PIPE_GT) in
  do! (if piped then wrap cp PIPELINE (many (at_ PIPE_GT) step_) else mret tt) in
  expect_newline "after the step".

(** A body opened by [do] and closed by [end]. *)
Definition do_end (after_kw close : string) (otherwise : PM unit) : PM unit :=
  let! open := expect_name "do" after_kw in
  if open then
    do! expect_newline "after `do`" in
    do! self RBody in
    do! otherwise in
    let! _ := expect_name "end" close in
    expect_newline "after `end`"
  else mret tt.

Definition block : PM unit :=
  node BLOCK (do! bump in do_end "after the block keyword" "to close the block" (mret tt)).

(** A keyword line: [keyword (:)? args NEWLINE]. *)
Definition line : PM unit :=
  node LINE
    (do! bump in
     do! bump_if (at_ COLON) in
     let! more := look (fun p => negb (at_ NEWLINE p) && negb (at_eof p)) in
     do! (if more then args else mret tt) in
     expect_newline "after the line").

Definition repeat_header : PM unit :=
  let! comma := look (at_ COMMA) in
  if comma then bump
  else
    let! as_ := look (at_name "as") in
    if as_ then do! bump in expect_ NAME "after `as`" else arg.

Definition repeat_ : PM unit :=
  node REPEAT
    (do! bump in
     do! while_ n (fun p => negb (at_name "do" p) && negb (at_ NEWLINE p) && negb (at_eof p)) repeat_header in
     do_end "after the repeat header" "to close the repeat" (mret tt)).

Definition else_arm : PM unit :=
  let! here := look (at_name "else") in
  if here then node ELSE_ARM (do! bump in do! expect_newline "after `else`" in self RBody) else mret tt.

Definition when_ : PM unit :=
  node WHEN (do! bump in do! args in do_end "after the when guard" "to close the when" else_arm).

Definition member (text : string) (l : list string) : bool := existsb (fun x => text == x) l.

Definition slot : PM unit :=
  node SLOT (do! bump in do! expect_ ATOM "after `slot`" in expect_newline "after the slot name").

Definition observe : PM unit :=
  node OBSERVE
    (do! bump in
     do! expr in
     let! as_ := expect_name "as" "after the probe call" in
     do! (if as_ then expect_ NAME "after `as`" else mret tt) in
     expect_newline "after the observe").

Definition assert_ : PM unit := node ASSERT (do! bump in do! args in expect_newline "after the assertion").

Definition knell : PM unit := node KNELL (do! bump in step_or_pipeline).

Definition contribution : PM unit :=
  node CONTRIBUTION
    (do! bump in
     do! bump_if (at_ INT) in
     let! item := look (at_ NAME) in
     if item then self RStmt
     else do! error "an item" "after the slot name" in bump_if (at_ NEWLINE)).

Definition named_stmt (text : string) : PM unit :=
  if member text BLOCKS then block
  else if text == "knell" then knell
  else if text == "slot" then slot
  else if text == "observe" then observe
  else if text == "assert" then assert_
  else if text == "repeat" then repeat_
  else if text == "when" then when_
  else
    let! next := look peek2 in
    match tok_kind <$> next with
    | Some L_PAREN | Some DOT => step_or_pipeline
    | _ => line
    end.

Definition stmt : PM unit :=
  let! t := look peek in
  match t with
  | None => mret tt
  | Some t =>
      match tok_kind t with
      | ATOM => contribution
      | NAME => named_stmt (tok_text t)
      | _ => do! error "a statement" "in a body" in bump_if (at_ NEWLINE)
      end
  end.

(** A keyword that belongs at the top of the file. *)
Definition top_keyword (t : Token) : bool :=
  (tok_kind t == NAME)
  && (member (tok_text t) DEFS || (tok_text t == "import") || (tok_text t == "site")).

Definition at_top_keyword (p : Parser) : bool := match peek p with Some t => top_keyword t | None => false end.

Definition body_over (p : Parser) : bool := at_eof p || at_name "end" p || at_name "else" p.

(** A statement, and one token more where it consumed nothing. *)
Definition stmt_or_token : PM unit :=
  let! before := look p_pos in
  do! self RStmt in
  let! after := look p_pos in
  if (after =? before)%nat then node ERROR bump else mret tt.

(** The statements of a body; [missing_end] ends it before a top-level keyword. *)
Fixpoint body_loop (fuel : nat) : PM unit :=
  match fuel with
  | O => mthrow starved
  | S fuel =>
      let! over := look body_over in
      if over then mret tt
      else
        let! blank := look (at_ NEWLINE) in
        if blank then do! bump in body_loop fuel
        else
          let! top := look at_top_keyword in
          if top then missing_end "to close the block before this definition"
          else do! stmt_or_token in body_loop fuel
  end.

Definition body : PM unit := node BODY (do! body_loop n in act_on eat_trivia).
End Rules.

(** The levels. *)
Fixpoint rule (fuel : nat) (r : Rule) : PM unit :=
  match fuel with
  | O => mthrow starved
  | S n =>
      match r with
      | RExpr => expr (rule n) n
      | RArg => arg (rule n) n
      | RNot => not_ (rule n) n
      | RUnary => unary (rule n) n
      | RBody => body (rule n) n
      | RStmt => stmt (rule n) n
      end
  end.

(** ** The file *)

Section File.
Variable n : nat.

Definition import : PM unit :=
  node IMPORT
    (do! bump in
     let! path := expect STRING "after `import`" in
     do! (if path then as_name else mret tt) in
     expect_newline "after the import").

(** A clause pattern: an expression with an optional capture. *)
Definition pattern_ : PM unit :=
  node PATTERN
    (do! rule n RExpr in
     let! capture := look (at_ EQ) in
     if capture then do! bump in expect_ NAME "after `=` in a pattern" else mret tt).

(** The rest of a header after its name: a pattern first where the keyword has one. *)
Definition header_rest (patterned : bool) : PM unit :=
  let! more := look (at_ COMMA) in
  if more then
    do! bump in
    do! (if patterned then pattern_ else rule n RArg) in
    many n (at_ COMMA) (rule n RArg)
  else mret tt.

Definition def : PM unit :=
  let! t := look peek in
  let keyword := match t with Some t => tok_text t | None => EmptyString end in
  node DEF
    (do! bump in
     let! ok :=
       node HEADER
         (let! ok := expect ATOM "after the definition keyword" in
          do! (if ok then header_rest ((keyword == "defop") || (keyword == "defplan")) else mret tt) in
          mret ok) in
     if ok then do_end (rule n) "after the definition's header" "to close the definition" (mret tt) else mret tt).

Definition top : PM unit :=
  let! blank := look (at_ NEWLINE) in
  if blank then bump
  else
    let! t := look peek in
    do! (match t with
         | Some t =>
             if (tok_kind t == NAME) && member (tok_text t) DEFS then def
             else if is_name "site" t then block (rule n)
             else if is_name "import" t then import
             else error "a definition, `site`, or `import`" "at the top of the file"
         | None => error "a definition, `site`, or `import`" "at the top of the file"
         end) in
    bump_if (at_ NEWLINE).

Definition current_version : string := concats ["`rescind "; show LANGUAGE_VERSION; "`"].

Definition renamed (idx : nat) (p : Parser) : SpanDiagnostic :=
  mkSpanDiagnostic E0610 (Some (span_at p idx)) (Some current_version) (Some "`rue`") None
    (with_migration E0610 "the version line names `rue`, which is what this language was called before v0.4.0").

Definition newer (idx : nat) (v : N) (p : Parser) : SpanDiagnostic :=
  mkSpanDiagnostic E0105 (Some (span_at p idx)) (Some current_version) (Some (concats ["`rescind "; show v; "`"])) None
    (concats ["language version "; show v; " is newer than this compiler reads ("; show LANGUAGE_VERSION; ")"]).

Definition unversioned (p : Parser) : SpanDiagnostic :=
  mkSpanDiagnostic E0105 (Some (span_at p 0)) (Some (current_version +:+ " on the first line")) None None
    "language version marker missing".

(** The number after the keyword, and the end of its line. *)
Definition version_number (idx : nat) : PM unit :=
  let! t := look peek in
  match t with
  | Some (mkToken INT text) =>
      let v := match parse_u32 text with Some v => v | None => (2 ^ 32 - 1)%N end in
      do! (if (LANGUAGE_VERSION <? v)%N then let! d := look (newer idx v) in report d else mret tt) in
      do! bump in
      expect_newline "after the version marker"
  | _ => do! error "an integer" "after `rescind`" in bump_if (at_ NEWLINE)
  end.

Definition version : PM unit :=
  let! old_keyword := look (at_name "rue") in
  let! keyword := look (at_name "rescind") in
  if keyword || old_keyword then
    let! idx := look peek_index in
    do! (if old_keyword then let! d := look (renamed idx) in report d else mret tt) in
    node VERSION (do! bump in version_number idx)
  else let! d := look unversioned in report d.

(** [file_]; its node is started before the trivia. *)
Definition file_ : PM unit :=
  do! act_on (fun p => set_builder (p_builder p ++ [BStart FILE]) p) in
  do! version in
  do! while_ n (fun p => negb (at_eof p)) top in
  do! act_on eat_trivia in
  finish.
End File.

(** ** Entry points *)

Fixpoint offsets_from (o : nat) (ts : list Token) : list nat :=
  match ts with
  | [] => []
  | t :: r => o :: offsets_from (o + String.length (tok_text t)) r
  end.

Definition new_parser (tokens : list Token) (src file : string) : Parser :=
  mkParser tokens (offsets_from 0 tokens) 0 [] [] file src false.

(** [parse]: what went to the builder and the diagnostics; [None] where the lexer panics. *)
Definition parse (fuel : nat) (src file : string) : option (Parser * Result unit Starved) :=
  tokens ← lex src; Some (file_ fuel (new_parser tokens src file)).

(** [parse_expr]: whether the text is exactly one expression, before it is lowered. *)
Definition parse_expr (fuel : nat) (src : string) : option (Parser * Result bool Starved) :=
  tokens ← lex src;
  Some ((do! act_on (fun p => set_builder (p_builder p ++ [BStart ARGS]) p) in
         do! rule fuel RExpr in
         do! act_on eat_trivia in
         let! complete := look at_eof in
         do! finish in
         let! said := look p_diagnostics in
         mret (complete && match said with [] => true | _ => false end))
          (new_parser tokens src EmptyString)).
