(* ===== verification/Tree.v ===== *)
(** * The tree

    What rowan's [GreenNodeBuilder] makes of the calls of the parser, as its documentation
    says, and a tree with the place of each of its parts in the source, which is what
    [SyntaxNode] gives ([surface/src/lib.rs]). *)

From Stdlib Require Import Ascii.
From stdpp Require Import base strings list.
From S2P Require Import Prelude Monad Utf8 Diagnostics Lexer Parser.

(** ** The tree the calls build *)

Inductive Green :=
| GNode (k : SyntaxKind) (cs : list Green)
| GToken (t : Token).

(** What rowan documents of its builder: a token is a child of the node that is open; a
    node is started, gets its children and is finished. *)
Inductive builds : list Build -> list Green -> Prop :=
| builds_nil : builds [] []
| builds_token t l gs : builds l gs -> builds (BToken t :: l) (GToken t :: gs)
| builds_node k l l' cs gs : builds l cs -> builds l' gs -> builds (BStart k :: l ++ BFinish :: l') (GNode k cs :: gs).

(** The text of a tree. *)
Fixpoint green_text (g : Green) : string :=
  match g with
  | GToken t => tok_text t
  | GNode _ cs => concats (map green_text cs)
  end.

(** The tokens among the calls. *)
Definition tokens_of (l : list Build) : list Token := omap (fun b => match b with BToken t => Some t | _ => None end) l.

Lemma tokens_of_app l l' : tokens_of (l ++ l') = tokens_of l ++ tokens_of l'.
Proof. apply omap_app. Qed.

Lemma tokens_of_map ts : tokens_of (map BToken ts) = ts.
Proof. induction ts as [|t ts IH]; [done|]. cbn. by f_equal. Qed.

Lemma builds_app l l' gs gs' : builds l gs -> builds l' gs' -> builds (l ++ l') (gs ++ gs').
Proof.
  intros H H'. revert l' gs' H'. induction H as [|t l gs _ IH|k l1 l2 cs gs H1 _ _ IH]; intros l' gs' H'; [done|..].
  - cbn. constructor. by apply IH.
  - cbn. rewrite <- app_assoc. cbn. constructor; [done|by apply IH].
Qed.

Lemma builds_tokens ts : builds (map BToken ts) (map GToken ts).
Proof. induction ts; cbn; by constructor. Qed.

Lemma concats_cons a l : concats (a :: l) = a +:+ concats l.
Proof. apply concat_empty_cons. Qed.

Lemma concats_app l l' : concats (l ++ l') = concats l +:+ concats l'.
Proof. induction l as [|a l IH]; [by rewrite nil_app_s|]. cbn [app]. by rewrite !concats_cons, IH, app_assoc_s. Qed.

Lemma builds_text l gs : builds l gs -> concats (map green_text gs) = concats (map tok_text (tokens_of l)).
Proof.
  induction 1 as [|t l gs _ IH|k l l' cs gs _ IH1 _ IH2]; [done|..].
  - change (tokens_of (BToken t :: l)) with (t :: tokens_of l). rewrite !map_cons, !concats_cons. by f_equal.
  - change (BStart k :: l ++ BFinish :: l') with ([BStart k] ++ l ++ [BFinish] ++ l'). rewrite !tokens_of_app.
    change (tokens_of [BStart k]) with (@nil Token). change (tokens_of [BFinish]) with (@nil Token).
    cbn [app]. rewrite map_cons, concats_cons, map_app, concats_app, <- IH1, <- IH2. done.
Qed.


(** The builder's stack: the open nodes, innermost first, each with its children so far, the
    last one first. *)
Fixpoint build (l : list Build) (open : list (SyntaxKind * list Green)) (acc : list Green) : option (list Green) :=
  match l with
  | [] => match open with [] => Some (rev acc) | _ :: _ => None end
  | BToken t :: r => build r open (GToken t :: acc)
  | BStart k :: r => build r ((k, acc) :: open) []
  | BFinish :: r =>
      match open with
      | (k, outer) :: open' => build r open' (GNode k (rev acc) :: outer)
      | [] => None
      end
  end.

(** [builder.finish()]: one root. *)
Definition root_of (l : list Build) : option Green :=
  match build l [] [] with Some [g] => Some g | _ => None end.

Lemma builds_build l gs : builds l gs -> forall r open acc, build (l ++ r) open acc = build r open (rev gs ++ acc).
Proof.
  induction 1 as [|t l gs _ IH|k l l' cs gs _ IH1 _ IH2]; intros r open acc; [done|..].
  - cbn [app build]. rewrite IH. cbn [rev]. by rewrite <- app_assoc.
  - cbn [app build]. rewrite <- app_assoc, IH1. cbn [app build]. rewrite app_nil_r, rev_involutive, IH2.
    cbn [rev]. by rewrite <- app_assoc.
Qed.

Lemma builds_root l g : builds l [g] -> root_of l = Some g.
Proof. intros H. unfold root_of. rewrite <- (app_nil_r l), (builds_build _ _ H). done. Qed.

(** ** Places *)

Record TextRange := mkTextRange { tr_start : nat; tr_end : nat }.

Inductive Elem :=
| ENode (k : SyntaxKind) (range : TextRange) (cs : list Elem)
| EToken (t : Token) (range : TextRange).

Definition elem_end (e : Elem) : nat := match e with ENode _ r _ | EToken _ r => tr_end r end.

(** The tree from an offset on. *)
Fixpoint place (o : nat) (g : Green) : Elem :=
  match g with
  | GToken t => EToken t (mkTextRange o (o + String.length (tok_text t)))
  | GNode k cs =>
      let es := (fix go o cs := match cs with
                                | [] => []
                                | c :: r => let e := place o c in e :: go (elem_end e) r
                                end) o cs in
      ENode k (mkTextRange o (List.fold_left (fun _ e => elem_end e) es o)) es
  end.
