(* ===== verification/ParserLogic.v ===== *)
(** * Reasoning about the parser

    What every parser moves the state along ([onward]), what one that answers has built
    ([adds]), and that it answers, unless a body was left open ([well]). *)

From Stdlib Require Import Ascii.
From stdpp Require Import base strings list relations.
From S2P Require Import Prelude Monad Utf8 Diagnostics Lexer Parser Tree.

(** ** What a parser that answers has built *)

Definition same_source (p p' : Parser) : Prop :=
  p_tokens p' = p_tokens p /\ p_offsets p' = p_offsets p /\ p_src p' = p_src p /\ p_file p' = p_file p.

(** What was said stays said. *)
Definition said (p p' : Parser) : Prop := p_diagnostics p `prefix_of` p_diagnostics p'.

#[export] Instance said_preorder : PreOrder said.
Proof. split; [intros p; unfold said; done|intros p q r; unfold said; by etrans]. Qed.

Lemma said_same p p' : p_diagnostics p' = p_diagnostics p -> said p p'.
Proof. intros H. unfold said. by rewrite H. Qed.

(** The builder got whole nodes and tokens more, and the tokens are those passed over. *)
Record adds (p p' : Parser) : Prop := mkAdds {
  adds_source : same_source p p';
  adds_pos : p_pos p <= p_pos p';
  adds_said : said p p';
  adds_built : exists seg gs, p_builder p' = p_builder p ++ seg /\ builds seg gs
               /\ tokens_of seg = take (p_pos p' - p_pos p) (drop (p_pos p) (p_tokens p));
}.

Lemma take_drop_add {A} (l : list A) i j k :
  i <= j <= k -> take (j - i) (drop i l) ++ take (k - j) (drop j l) = take (k - i) (drop i l).
Proof.
  intros Hij. replace (k - i) with ((j - i) + (k - j)) by lia. rewrite <- (take_take_drop (drop i l) (j - i)).
  rewrite drop_drop. by replace (i + (j - i)) with j by lia.
Qed.

#[export] Instance adds_preorder : PreOrder adds.
Proof.
  split.
  - intros p. split; [done|done|done|]. exists [], []. rewrite app_nil_r, Nat.sub_diag. by repeat constructor.
  - intros p1 p2 p3 [(T1 & O1 & S1 & F1) P1 D1 (g1 & t1 & B1 & G1 & L1)]
      [(T2 & O2 & S2 & F2) P2 D2 (g2 & t2 & B2 & G2 & L2)].
    split; [by repeat split; etrans|lia|by etrans|]. exists (g1 ++ g2), (t1 ++ t2).
    split; [by rewrite B2, B1, app_assoc|]. split; [by apply builds_app|].
    rewrite tokens_of_app, L1, L2, T1. by apply take_drop_add.
Qed.

(** From [p0] on: what was built with an answer, and what was said without one. *)
Definition leads {A} (p0 p : Parser) (r : Result A Starved) : Prop :=
  match r with Ok _ => adds p0 p | Err _ => said p0 p end.

Definition yields {A} (m : PM A) : Prop := forall p, leads p (fst (m p)) (snd (m p)).

Create HintDb yields.

Lemma yields_ret {A} (x : A) : yields (mret x).
Proof. intros p. change (adds p p). done. Qed.

Lemma yields_throw {A} (e : Starved) : yields (mthrow (A := A) e).
Proof. intros p. change (said p p). done. Qed.

Lemma leads_trans {A} p0 p p' (r : Result A Starved) : adds p0 p -> leads p p' r -> leads p0 p' r.
Proof. intros Ha. destruct r; cbn; [by etrans|]. intros Hs. etrans; [apply Ha|done]. Qed.

Lemma yields_then {A B} (m : PM A) (k : A -> PM B) : yields m -> (forall x, yields (k x)) -> yields (mthen m k).
Proof.
  intros Hm Hk p. specialize (Hm p). unfold mthen. destruct (m p) as [q [x|e]]; [|done].
  eapply leads_trans; [exact Hm|apply Hk].
Qed.

Lemma yields_if {A} (b : Parser -> bool) (m m' : PM A) :
  yields m -> yields m' -> yields (fun p => if b p then m p else m' p).
Proof. intros Hm Hm' p. destruct (b p); [apply Hm|apply Hm']. Qed.

#[export] Hint Resolve yields_ret yields_throw : yields.

Lemma yields_look {A} (f : Parser -> A) : yields (look f).
Proof. intros p. change (adds p p). done. Qed.

Lemma yields_act_on f : (forall p, adds p (f p)) -> yields (act_on f).
Proof. intros Hf p. apply Hf. Qed.

Lemma yields_while n cond m : yields m -> yields (while_ n cond m).
Proof.
  intros Hm. induction n as [|n IH]; [apply yields_throw|]. cbn [while_]. apply yields_if.
  - by apply yields_then.
  - apply yields_ret.
Qed.

(** ** The builder's calls *)

Lemma adds_same p p' : same_source p p' -> said p p' -> p_pos p' = p_pos p -> p_builder p' = p_builder p -> adds p p'.
Proof.
  intros Hs Hd Hp Hb. split; [done|lia|done|]. exists [], []. rewrite Hp, Hb, app_nil_r, Nat.sub_diag. by repeat constructor.
Qed.

Lemma adds_eat_trivia p : adds p (eat_trivia p).
Proof.
  split; [done|cbn; unfold peek_index, skip_trivia; lia|by apply said_same|]. cbn. eexists _, _. split; [done|].
  split; [apply builds_tokens|]. by rewrite tokens_of_map.
Qed.

Lemma take_one {A} (l : list A) i x : l !! i = Some x -> take 1 (drop i l) = [x].
Proof. intros Hl. by rewrite (drop_S _ _ _ Hl). Qed.

Lemma adds_bump p : adds p (bump_ p).
Proof.
  unfold bump_. etrans; [apply adds_eat_trivia|]. set (q := eat_trivia p).
  destruct (p_tokens q !! p_pos q) as [t|] eqn:Ht; [|done].
  assert (Hq : forall b, adds q (set_pos (S (p_pos q)) (set_builder (p_builder q ++ [BToken t]) (set_suppress b q)))).
  { intros b. split; [done|cbn; lia|by apply said_same|]. exists [BToken t], [GToken t]. split; [done|]. split; [by repeat constructor|].
    change (tokens_of [BToken t]) with [t]. rewrite <- (take_one _ _ _ Ht). f_equal. cbn. lia. }
  cbv zeta. case_bool_decide; [apply (Hq false)|]. apply (Hq (p_suppress q)).
Qed.

Lemma yields_bump : yields bump.
Proof. apply yields_act_on, adds_bump. Qed.

Lemma yields_eat_trivia : yields (act_on eat_trivia).
Proof. apply yields_act_on, adds_eat_trivia. Qed.

Lemma yields_report d : yields (report d).
Proof. apply yields_act_on. intros p. apply adds_same; [done| |done|done]. by apply prefix_app_r. Qed.

Lemma yields_suppress b : yields (act_on (set_suppress b)).
Proof. apply yields_act_on. intros p. apply adds_same; [done|by apply said_same|done|done]. Qed.

(** Started, then filled with whole nodes, then finished. *)
Lemma adds_closed p q p' k :
  adds p q -> adds (set_builder (p_builder q ++ [BStart k]) q) p' -> adds p (set_builder (p_builder p' ++ [BFinish]) p').
Proof.
  intros [(T1 & O1 & S1 & F1) P1 D1 (g1 & t1 & B1 & G1 & L1)]
    [(T2 & O2 & S2 & F2) P2 D2 (g2 & t2 & B2 & G2 & L2)].
  cbn in *. split; [by repeat split; cbn; etrans|cbn; lia|by etrans|]. cbn.
  exists (g1 ++ BStart k :: g2 ++ [BFinish]), (t1 ++ [GNode k t2]).
  split; [rewrite B2, B1; by rewrite <- !app_assoc|].
  split; [apply builds_app; [done|]; constructor; [done|constructor]|].
  change (BStart k :: g2 ++ [BFinish]) with ([BStart k] ++ g2 ++ [BFinish]). rewrite !tokens_of_app, L1, L2.
  cbn. rewrite app_nil_r, T1. by apply take_drop_add.
Qed.

Lemma said_opened p q p' k : adds p q -> said (set_builder (p_builder q ++ [BStart k]) q) p' -> said p p'.
Proof. intros [_ _ D _] Hs. etrans; [exact D|exact Hs]. Qed.

Lemma yields_node {A} k (m : PM A) : yields m -> yields (node k m).
Proof.
  intros Hm p. unfold node, start, finish, act_on, mthen, mret. cbv zeta. set (q := eat_trivia p).
  specialize (Hm (set_builder (p_builder q ++ [BStart k]) q)). destruct (m _) as [p1 [y|e]].
  - eapply adds_closed; [apply adds_eat_trivia|exact Hm].
  - eapply said_opened; [apply adds_eat_trivia|exact Hm].
Qed.

(** From a checkpoint at [p0] on. *)
Definition carries {A} (p0 : Parser) (m : PM A) : Prop := forall p, adds p0 p -> leads p0 (fst (m p)) (snd (m p)).

Lemma carries_yields {A} p0 (m : PM A) : yields m -> carries p0 m.
Proof. intros Hm p Ha. eapply leads_trans; [exact Ha|apply Hm]. Qed.

Lemma carries_then {A B} p0 (m : PM A) (k : A -> PM B) :
  carries p0 m -> (forall x, carries p0 (k x)) -> carries p0 (mthen m k).
Proof.
  intros Hm Hk p Ha. specialize (Hm p Ha). unfold mthen. destruct (m p) as [p1 [x|e]]; [|done]. by apply Hk.
Qed.

Lemma carries_while p0 n cond m : carries p0 m -> carries p0 (while_ n cond m).
Proof.
  intros Hm. induction n as [|n IH]; [intros p [_ _ D _]; exact D|]. cbn [while_]. intros p Ha. destruct (cond p).
  - by apply (carries_then p0 m (fun _ => while_ n cond m) Hm (fun _ => IH)).
  - exact Ha.
Qed.

Lemma adds_wrapped p0 p q k :
  adds p0 p ->
  adds (set_builder (take (length (p_builder p0)) (p_builder p) ++ [BStart k] ++ drop (length (p_builder p0)) (p_builder p)) p) q ->
  adds p0 (set_builder (p_builder q ++ [BFinish]) q).
Proof.
  intros [(T1 & O1 & S1 & F1) P1 D1 (g1 & t1 & B1 & G1 & L1)]
    [(T2 & O2 & S2 & F2) P2 D2 (g2 & t2 & B2 & G2 & L2)].
  cbn in *. split; [by repeat split; cbn; etrans|cbn; lia|by etrans|]. cbn. rewrite B1, take_app_length, drop_app_length in B2.
  exists (BStart k :: (g1 ++ g2) ++ [BFinish]), [GNode k (t1 ++ t2)].
  split; [rewrite B2; cbn; by rewrite <- !app_assoc|]. split; [constructor; [by apply builds_app|constructor]|].
  change (BStart k :: (g1 ++ g2) ++ [BFinish]) with ([BStart k] ++ (g1 ++ g2) ++ [BFinish]).
  rewrite !tokens_of_app, L1, L2. cbn. rewrite app_nil_r, T1. by apply take_drop_add.
Qed.

Lemma carries_wrap p0 k m : yields m -> carries p0 (wrap (length (p_builder p0)) k m).
Proof.
  intros Hm p Ha. unfold wrap, start_at, finish, act_on, mthen. cbv zeta. set (b := take _ _ ++ _ ++ _).
  specialize (Hm (set_builder b p)). destruct (m _) as [p1 [[]|e]].
  - by apply (adds_wrapped p0 p p1 k).
  - destruct Ha as [_ _ D _]. change (said p0 p1). etrans; [exact D|exact Hm].
Qed.

Lemma yields_checkpoint {A} (k : nat -> PM A) :
  (forall p0, carries p0 (k (length (p_builder p0)))) -> yields (let! cp := checkpoint in k cp).
Proof.
  intros Hk p. eapply leads_trans; [apply (adds_eat_trivia p)|]. by apply (Hk (eat_trivia p) (eat_trivia p)).
Qed.

(** ** Every parser builds what it passes over *)

Ltac yields_step :=
  lazymatch goal with
  | |- forall _, _ => intros ?
  | |- yields (mthen _ _) => apply yields_then
  | |- yields (look _) => apply yields_look
  | |- yields (while_ _ _ _) => apply yields_while; []
  | |- yields (let x := _ in _) => cbv zeta
  | |- yields (match ?x with _ => _ end) => destruct x eqn:?
  | |- carries _ (mthen _ _) => apply carries_then
  | |- carries _ (while_ _ _ _) => apply carries_while
  | |- carries _ (wrap _ _ _) => apply carries_wrap
  | |- carries _ (match ?x with _ => _ end) => destruct x eqn:?
  | |- carries _ _ => apply carries_yields
  end.

(** Extended below with the parsers that take a parser. *)
Ltac yields_call := lazymatch goal with
  | |- yields (node _ _) => apply yields_node
  end.

Ltac yields := repeat (yields_step || yields_call || solve [eauto with yields typeclass_instances]).

#[export] Hint Resolve yields_bump yields_eat_trivia yields_report yields_suppress : yields.

Lemma yields_error a b : yields (error a b).
Proof. unfold error, recover_line. apply yields_if; yields. Qed.

Lemma yields_missing_end a : yields (missing_end a).
Proof. unfold missing_end. apply yields_if; yields. Qed.

#[export] Hint Resolve yields_error yields_missing_end : yields.

Lemma yields_expect k a : yields (expect k a).
Proof. unfold expect. yields. Qed.

Lemma yields_expect_name t a : yields (expect_name t a).
Proof. unfold expect_name. yields. Qed.

#[export] Hint Resolve yields_expect yields_expect_name : yields.

Lemma yields_expect_ k a : yields (expect_ k a).
Proof. unfold expect_. yields. Qed.

Lemma yields_bump_if f : yields (bump_if f).
Proof. unfold bump_if. yields. Qed.

#[export] Hint Resolve yields_expect_ yields_bump_if : yields.

Lemma yields_expect_newline a : yields (expect_newline a).
Proof. unfold expect_newline. yields. Qed.

Lemma yields_as_name : yields as_name.
Proof. unfold as_name. yields. Qed.

Lemma yields_left_assoc n ops next : yields next -> yields (left_assoc n ops next).
Proof. intros Hn. unfold left_assoc. apply yields_checkpoint. yields. Qed.

Lemma yields_many n cond next : yields next -> yields (many n cond next).
Proof. intros Hn. unfold many. yields. Qed.

Lemma yields_enclosed k a m : yields m -> yields (enclosed k a m).
Proof. intros Hm. unfold enclosed. yields. Qed.

#[export] Hint Resolve yields_expect_newline yields_as_name : yields.

Ltac yields_call ::= lazymatch goal with
  | |- yields (node _ _) => apply yields_node
  | |- yields (left_assoc _ _ _) => apply yields_left_assoc
  | |- yields (many _ _ _) => apply yields_many
  | |- yields (enclosed _ _ _) => apply yields_enclosed
  end.

Section Level.
Variable self : Rule -> PM unit.
Variable n : nat.
Hypothesis Hself : forall r, yields (self r).
#[local] Hint Resolve Hself : yields.

Lemma yields_args : yields (args self n).
Proof. unfold args, arg_list. yields. Qed.
#[local] Hint Resolve yields_args : yields.

Lemma yields_call_after p : carries p (call_after self n (length (p_builder p))).
Proof. unfold call_after. yields. Qed.
#[local] Hint Resolve yields_call_after : yields.

Lemma yields_reference : yields (reference self n).
Proof. unfold reference. apply yields_checkpoint. intros p. apply carries_then; [yields|]. intros _. apply yields_call_after. Qed.

Lemma yields_record_entry : yields (record_entry self).
Proof. unfold record_entry. yields. Qed.
#[local] Hint Resolve yields_reference yields_record_entry : yields.

Lemma yields_postfix : yields (postfix self n).
Proof. unfold postfix, arg_list. yields. Qed.
#[local] Hint Resolve yields_postfix : yields.

Lemma yields_unary : yields (unary self n).
Proof. unfold unary. yields. Qed.
#[local] Hint Resolve yields_unary : yields.

Lemma yields_cmp : yields (cmp self n).
Proof. unfold cmp. apply yields_checkpoint. unfold add, mul. yields. Qed.
#[local] Hint Resolve yields_cmp : yields.

Lemma yields_not : yields (not_ self n).
Proof. unfold not_. yields. Qed.
#[local] Hint Resolve yields_not : yields.

Lemma yields_expr : yields (expr self n).
Proof. unfold expr, or_, and_. yields. Qed.
#[local] Hint Resolve yields_expr : yields.

Lemma yields_arg : yields (arg self n).
Proof. unfold arg. yields. Qed.
#[local] Hint Resolve yields_arg : yields.

Lemma yields_step : yields (step_ self n).
Proof. unfold step_. yields. Qed.
#[local] Hint Resolve yields_step : yields.

Lemma yields_step_or_pipeline : yields (step_or_pipeline self n).
Proof. unfold step_or_pipeline. apply yields_checkpoint. yields. Qed.
#[local] Hint Resolve yields_step_or_pipeline : yields.

Lemma yields_do_end a b m : yields m -> yields (do_end self a b m).
Proof. intros Hm. unfold do_end. yields. Qed.
Ltac yields_call ::= lazymatch goal with
  | |- yields (node _ _) => apply yields_node
  | |- yields (left_assoc _ _ _) => apply yields_left_assoc
  | |- yields (many _ _ _) => apply yields_many
  | |- yields (enclosed _ _ _) => apply yields_enclosed
  | |- yields (do_end _ _ _ _) => apply yields_do_end
  end.

Lemma yields_block : yields (block self).
Proof. unfold block. yields. Qed.
#[local] Hint Resolve yields_block : yields.

Lemma yields_line : yields (line self n).
Proof. unfold line. yields. Qed.

Lemma yields_repeat : yields (repeat_ self n).
Proof. unfold repeat_, repeat_header. yields. Qed.

Lemma yields_when : yields (when_ self n).
Proof. unfold when_, else_arm. yields. Qed.
#[local] Hint Resolve yields_line yields_repeat yields_when : yields.

Lemma yields_named_stmt t : yields (named_stmt self n t).
Proof. unfold named_stmt, knell, slot, observe, assert_. yields. Qed.
#[local] Hint Resolve yields_named_stmt : yields.

Lemma yields_stmt : yields (stmt self n).
Proof. unfold stmt, contribution. yields. Qed.

Lemma yields_stmt_or_token : yields (stmt_or_token self).
Proof. unfold stmt_or_token. yields. Qed.
#[local] Hint Resolve yields_stmt_or_token : yields.

Lemma yields_body_loop m : yields (body_loop self m).
Proof. induction m as [|m IH]; cbn [body_loop]; yields. Qed.
#[local] Hint Resolve yields_body_loop : yields.

Lemma yields_body : yields (body self n).
Proof. unfold body. yields. Qed.
End Level.

Lemma yields_rule fuel : forall r, yields (rule fuel r).
Proof.
  induction fuel as [|n IH]; intros r; [apply yields_throw|]. destruct r; cbn [rule].
  - by apply yields_expr.
  - by apply yields_arg.
  - by apply yields_not.
  - by apply yields_unary.
  - by apply yields_body.
  - by apply yields_stmt.
Qed.

#[export] Hint Resolve yields_rule : yields.

Lemma yields_block_rule n : yields (block (rule n)).
Proof. apply yields_block, yields_rule. Qed.

Lemma yields_def n : yields (def n).
Proof. unfold def, header_rest, pattern_, do_end. yields. Qed.

Lemma yields_import : yields import.
Proof. unfold import. yields. Qed.
#[export] Hint Resolve yields_block_rule yields_def yields_import : yields.

Lemma yields_top n : yields (top n).
Proof. unfold top. yields. Qed.

Lemma yields_version : yields version.
Proof. unfold version, version_number. yields. Qed.
#[export] Hint Resolve yields_top yields_version : yields.

(** ** The file *)

Lemma while_ends n cond m p p' : while_ n cond m p = (p', Ok tt) -> cond p' = false.
Proof.
  revert p. induction n as [|n IH]; [done|]. intros p. cbn [while_]. destruct (cond p) eqn:Hc; [|by intros [= <-]].
  unfold mthen. destruct (m p) as [q [[]|]]; [apply IH|done].
Qed.

Lemma at_eof_all p : at_eof p = true -> length (p_tokens p) <= peek_index p.
Proof. unfold at_eof, peek. destruct (_ !! _) eqn:Hl; [done|]. intros _. by apply lookup_ge_None in Hl. Qed.

(** What [file_] answers from the start of the tokens. *)
Lemma file_builds n p p' :
  p_builder p = [] -> p_pos p = 0 -> file_ n p = (p', Ok tt) ->
  exists cs, builds (p_builder p') [GNode FILE cs] /\ tokens_of (p_builder p') = p_tokens p.
Proof.
  intros Hb Hp. unfold file_, act_on at 1 2, mthen. rewrite Hb. cbn [app].
  set (p0 := set_builder [BStart FILE] p). destruct (version p0) as [p1 [[]|]] eqn:Hv; [|done].
  destruct (while_ n _ (top n) p1) as [p2 [[]|]] eqn:Hw; [|done].
  intros Hf. apply (f_equal fst) in Hf. cbn [fst] in Hf. symmetry in Hf.
  assert (Ha : adds p0 (eat_trivia p2)).
  { pose proof (yields_version p0) as H1. rewrite Hv in H1. etrans; [exact H1|]. etrans; [|apply adds_eat_trivia].
    pose proof (yields_while n (fun p => negb (at_eof p)) _ (yields_top n) p1) as H2. rewrite Hw in H2. exact H2. }
  apply while_ends, negb_false_iff, at_eof_all in Hw.
  destruct Ha as [(Ht & _) _ _ (seg & gs & B & G & L)]. exists gs.
  assert (Hf' : p_builder p' = BStart FILE :: seg ++ [BFinish]).
  { rewrite Hf. change (p_builder (eat_trivia p2) ++ [BFinish] = [BStart FILE] ++ seg ++ [BFinish]).
    rewrite B. apply (eq_sym (app_assoc [BStart FILE] _ _)). }
  rewrite Hf'. split; [by apply (builds_node FILE seg [] gs []); [|constructor]|].
  change (BStart FILE :: seg ++ [BFinish]) with ([BStart FILE] ++ seg ++ [BFinish]).
  rewrite !tokens_of_app, L. change (p_pos p0) with (p_pos p). rewrite Hp, drop_0.
  change (tokens_of [BStart FILE]) with (@nil Token). change (tokens_of [BFinish]) with (@nil Token).
  rewrite app_nil_r. cbn [app]. change (p_tokens p0) with (p_tokens p) in *. apply take_ge.
  change (p_tokens (eat_trivia p2)) with (p_tokens p2) in Ht. rewrite <- Ht. cbn. lia.
Qed.

(** C32. Where [parse] answers, the tree is one [FILE] node and its text is the source, byte for
    byte: recovery loses nothing. *)
Theorem parse_is_lossless fuel src file p :
  parse fuel src file = Some (p, Ok tt) ->
  exists cs, builds (p_builder p) [GNode FILE cs] /\ green_text (GNode FILE cs) = src.
Proof.
  unfold parse. destruct (lex src) as [ts|] eqn:Hl; [|done]. cbn. intros [= He].
  apply file_builds in He as (cs & Hb & Ht); [|done..]. exists cs. split; [done|].
  apply builds_text in Hb. rewrite Ht in Hb. cbn [map] in Hb. rewrite concats_cons in Hb.
  change (concats []) with EmptyString in Hb. rewrite app_nil_s in Hb.
  etrans; [exact Hb|]. by apply lex_is_lossless.
Qed.

(** A source with a stray token and an open bracket. *)
Definition damaged : string := concats ["rescind 0"; newline; "?? site do"; newline; "hosts(a,, [b"; newline; "end"; newline].

Lemma damaged_parses : match parse 80 damaged "f" with Some (p, Ok tt) => p_diagnostics p <> [] | _ => False end.
Proof. vm_compute. discriminate. Qed.

Lemma parse_is_lossless_witness :
  match parse 80 damaged "f" with
  | Some (p, Ok tt) => p_diagnostics p <> [] /\ exists cs, builds (p_builder p) [GNode FILE cs] /\ green_text (GNode FILE cs) = damaged
  | _ => False
  end.
Proof.
  pose proof damaged_parses as H. destruct (parse 80 damaged "f") as [[p [[]|]]|] eqn:Hp; [|done..].
  split; [done|]. by apply (parse_is_lossless 80 damaged "f").
Defined.
