(* ===== verification/ParserEnds.v ===== *)
(** * The parser answers

    Whatever the source, the parser comes to an end, unless a body was still open when a
    top-level keyword came: the loops' bounds are the tokens that are left. What can happen
    after an open body is at the end: a source on which the parser never answers. *)

From Stdlib Require Import Ascii.
From stdpp Require Import base strings list.
From S2P Require Import Prelude Monad Utf8 Diagnostics Lexer Parser Tree ParserLogic.

(** ** What is left *)

(** The tokens left that are not trivia. *)
Definition rest (p : Parser) : nat := length (filter (fun t => trivia_token t = false) (drop (p_pos p) (p_tokens p))).

(** While a recovery quiets the line, nothing is left on it. *)
Definition calm (p : Parser) : Prop := p_suppress p = true -> on_line p = false.

(** A body ran into a top-level keyword. *)
Definition unclosed (p : Parser) : Prop :=
  Exists (fun d => sd_message d = "parse error to close the block before this definition") (p_diagnostics p).

Lemma unclosed_said p p' : said p p' -> unclosed p -> unclosed p'.
Proof. intros [l Hl] Hu. unfold unclosed. rewrite Hl. apply Exists_app. by left. Qed.

Lemma trivia_run_filter ts :
  filter (fun t => trivia_token t = false) (drop (trivia_run ts) ts) = filter (fun t => trivia_token t = false) ts.
Proof.
  induction ts as [|t ts IH]; [done|]. cbn [trivia_run]. destruct (trivia_token t) eqn:Ht; [|done].
  cbn [drop]. rewrite IH, filter_cons_False; [done|]. by rewrite Ht.
Qed.

Lemma trivia_run_stop ts t : ts !! trivia_run ts = Some t -> trivia_token t = false.
Proof.
  induction ts as [|u ts IH]; [done|]. cbn [trivia_run]. destruct (trivia_token u) eqn:Hu; [exact IH|]. by intros [= <-].
Qed.

Lemma peek_drop p : peek p = drop (p_pos p) (p_tokens p) !! trivia_run (drop (p_pos p) (p_tokens p)).
Proof. unfold peek, peek_index, skip_trivia. by rewrite lookup_drop. Qed.

Lemma rest_peek p : rest p = length (filter (fun t => trivia_token t = false) (drop (peek_index p) (p_tokens p))).
Proof. unfold rest, peek_index, skip_trivia. by rewrite <- drop_drop, trivia_run_filter. Qed.

Lemma peek_some p t : peek p = Some t -> rest p = S (rest (set_pos (S (peek_index p)) p)) /\ trivia_token t = false.
Proof.
  intros Hp. assert (Ht : trivia_token t = false) by (rewrite peek_drop in Hp; by eapply trivia_run_stop).
  split; [|done]. unfold peek in Hp. rewrite rest_peek, (drop_S _ _ _ Hp), filter_cons_True; done.
Qed.

Lemma peek_none p : peek p = None -> rest p = 0.
Proof. unfold peek. intros Hp. rewrite rest_peek, drop_ge; [done|]. by apply lookup_ge_None. Qed.

Lemma eat_trivia_peek p : peek (eat_trivia p) = peek p /\ peek_index (eat_trivia p) = peek_index p.
Proof.
  assert (Hi : peek_index (eat_trivia p) = peek_index p).
  { unfold peek_index, skip_trivia at 1. change (p_pos (eat_trivia p)) with (peek_index p).
    change (p_tokens (eat_trivia p)) with (p_tokens p).
    enough (trivia_run (drop (peek_index p) (p_tokens p)) = 0) as -> by (unfold peek_index; lia).
    destruct (drop (peek_index p) (p_tokens p)) as [|t ts] eqn:Hd; [done|].
    assert (Hp : peek p = Some t).
    { unfold peek. rewrite <- (Nat.add_0_r (peek_index p)), <- lookup_drop, Hd. done. }
    apply peek_some in Hp as [_ Ht]. cbn [trivia_run]. by rewrite Ht. }
  split; [|done]. unfold peek. by rewrite Hi.
Qed.

Lemma rest_eat_trivia p : rest (eat_trivia p) = rest p.
Proof. symmetry. apply rest_peek. Qed.

(** What a parser sees ahead: the builder and what was said do not matter. *)
Record view (p p' : Parser) : Prop := mkView {
  view_peek : peek p' = peek p;
  view_rest : rest p' = rest p;
  view_suppress : p_suppress p' = p_suppress p;
}.

Lemma view_eat_trivia p : view p (eat_trivia p).
Proof. split; [apply eat_trivia_peek|apply rest_eat_trivia|done]. Qed.

Lemma view_builder b p q : view p q -> view p (set_builder b q).
Proof. intros [H1 H2 H3]. by split. Qed.

Lemma view_refl p : view p p.
Proof. by split. Qed.

Lemma view_on_line p p' : view p p' -> on_line p' = on_line p.
Proof. intros [H _ _]. unfold on_line. by rewrite H. Qed.

Lemma view_calm p p' : view p p' -> calm p -> calm p'.
Proof. intros H. unfold calm. rewrite (view_on_line _ _ H), (view_suppress _ _ H). done. Qed.

Lemma on_line_rest p : on_line p = true -> 0 < rest p.
Proof. unfold on_line. destruct (peek p) as [t|] eqn:Hp; [|done]. apply peek_some in Hp as [-> _]. lia. Qed.

Lemma eof_rest p : at_eof p = false -> 0 < rest p.
Proof. unfold at_eof. destruct (peek p) as [t|] eqn:Hp; [|done]. apply peek_some in Hp as [-> _]. lia. Qed.

(** A token is consumed, and at a newline the quiet ends. *)
Lemma bump_rest p : rest (bump_ p) = pred (rest p).
Proof.
  unfold bump_. cbv zeta. change (p_tokens (eat_trivia p) !! p_pos (eat_trivia p)) with (peek p).
  destruct (peek p) as [t|] eqn:Hp.
  - apply peek_some in Hp as [-> _]. by case_bool_decide.
  - rewrite rest_eat_trivia. by rewrite (peek_none _ Hp).
Qed.

Lemma bump_suppress p :
  p_suppress (bump_ p) = match peek p with Some t => if tok_kind t == NEWLINE then false else p_suppress p | None => p_suppress p end.
Proof.
  unfold bump_. cbv zeta. change (p_tokens (eat_trivia p) !! p_pos (eat_trivia p)) with (peek p).
  destruct (peek p) as [t|]; [|done]. by case_bool_decide.
Qed.

Lemma bump_calm p : calm p -> calm (bump_ p).
Proof.
  intros Hc Hs. rewrite bump_suppress in Hs. destruct (peek p) as [t|] eqn:Hp.
  - case_bool_decide as Hn; [done|]. specialize (Hc Hs). unfold on_line in Hc. rewrite Hp in Hc.
    apply negb_false_iff, bool_decide_eq_true in Hc. done.
  - assert (Hr : rest (bump_ p) = 0) by by rewrite bump_rest, (peek_none _ Hp).
    destruct (on_line (bump_ p)) eqn:Ho; [|done]. apply on_line_rest in Ho. lia.
Qed.

(** What may keep a parser from answering: something that was said. *)
Class Escape := mkEscape {
  escape : Parser -> Prop;
  escape_said : forall p p', said p p' -> escape p -> escape p';
}.

Definition by_unclosed : Escape := {| escape := unclosed; escape_said := unclosed_said |}.

(** An escape that lets a body be left open. *)
Class Opens (U : Escape) := opens : forall p, unclosed p -> escape p.

#[export] Instance opens_by_unclosed : Opens by_unclosed := fun _ H => H.

(** Nothing. *)
Definition by_nothing : Escape := {| escape := fun _ => False; escape_said := fun _ _ _ H => H |}.

(** Whatever it answers, what was said stays said. *)
Lemma keeps_yields {A} (m : PM A) : yields m -> keeps said m.
Proof. intros Hm p. specialize (Hm p). unfold leads in Hm. destruct (snd (m p)); [apply Hm|exact Hm]. Qed.

Lemma keeps_while n c (m : PM unit) : keeps said m -> keeps said (while_ n c m).
Proof.
  intros Hm. induction n as [|n IH]; [apply keeps_throw; typeclasses eauto|]. intros p. cbn [while_]. destruct (c p); [|done].
  by apply keeps_then; [typeclasses eauto| |].
Qed.

Lemma keeps_wrap cp k m : keeps said m -> keeps said (wrap cp k m).
Proof.
  intros Hm. unfold wrap. apply keeps_then; [typeclasses eauto|intros p; by apply said_same|]. intros _.
  apply keeps_then; [typeclasses eauto|done|]. intros _ p. by apply said_same.
Qed.

Ltac tells := repeat
  lazymatch goal with
  | |- forall _, _ => intros ?
  | |- keeps said _ =>
      first [apply keeps_yields; solve [yields]
            |lazymatch goal with
             | |- keeps _ (wrap _ _ _) => apply keeps_wrap
             | |- keeps _ (while_ _ _ _) => apply keeps_while
             | |- keeps _ (mthen _ _) => apply keeps_then; [typeclasses eauto| |]
             | |- keeps _ (match ?x with _ => _ end) => destruct x
             end]
  end.

(** ** Triples

    From a calm state where [P] holds, [m] answers in a calm state where [Q] holds, or a
    body was left open. *)
Definition runs {U : Escape} {A} (P : Parser -> Prop) (m : PM A) (Q : A -> Parser -> Prop) : Prop :=
  forall p, calm p -> P p -> escape (fst (m p)) \/ exists x, snd (m p) = Ok x /\ calm (fst (m p)) /\ Q x (fst (m p)).

(** At most [s] tokens are left. *)
Definition le s (p : Parser) : Prop := rest p <= s.

(** At most [a] when something is on the line, else at most [b]. *)
Definition cap a b (p : Parser) : Prop := if on_line p then rest p <= a else rest p <= b.

(** Something is on the line, and at most [s] tokens are left. *)
Definition on s (p : Parser) : Prop := on_line p = true /\ rest p <= s.

Lemma runs_ret {U : Escape} {A} (P : Parser -> Prop) (x : A) (Q : A -> Parser -> Prop) : (forall p, P p -> Q x p) -> runs P (mret x) Q.
Proof. intros H p Hc Hp. right. exists x. auto. Qed.

Lemma runs_weaken {U : Escape} {A} (P P' : Parser -> Prop) (m : PM A) (Q Q' : A -> Parser -> Prop) :
  runs P' m Q' -> (forall p, P p -> P' p) -> (forall x p, Q' x p -> Q x p) -> runs P m Q.
Proof. intros Hm HP HQ p Hc Hp. destruct (Hm p Hc (HP p Hp)) as [|(x & ? & ? & ?)]; [by left|]. right. eauto. Qed.

Lemma runs_then {U : Escape} {A B} (P : Parser -> Prop) (m : PM A) (k : A -> PM B) Q R :
  runs P m Q -> (forall x, runs (Q x) (k x) R) -> (forall x, keeps said (k x)) -> runs P (mthen m k) R.
Proof.
  intros Hm Hk Hy p Hc Hp. specialize (Hm p Hc Hp). unfold mthen. destruct (m p) as [q [x|e]]; cbn [fst snd] in *.
  - destruct Hm as [Hu|(y & [= <-] & Hq & HQ)]; [|by apply Hk]. left. eapply escape_said; [apply Hy|exact Hu].
  - destruct Hm as [Hu|(y & ? & _)]; [by left|done].
Qed.

Lemma runs_look {U : Escape} {A B} (P : Parser -> Prop) (f : Parser -> A) (k : A -> PM B) R :
  (forall x, runs (fun p => P p /\ f p = x) (k x) R) -> runs P (let! x := look f in k x) R.
Proof. intros Hk p Hc Hp. by apply (Hk (f p) p). Qed.

(** Another look at what is known. *)
Lemma runs_pre {U : Escape} {A} (P P' : Parser -> Prop) (m : PM A) Q : runs P' m Q -> (forall p, P p -> P' p) -> runs P m Q.
Proof. intros Hm HP. by eapply runs_weaken. Qed.

Lemma runs_fact {U : Escape} {A} (P : Parser -> Prop) (F : Prop) (m : PM A) Q : (F -> runs P m Q) -> (forall p, P p -> F) -> runs P m Q.
Proof. intros Hm HF p Hc Hp. apply (Hm (HF p Hp) p Hc Hp). Qed.

Lemma runs_bump {U : Escape} s : runs (le s) bump (fun _ => le (pred s)).
Proof.
  intros p Hc Hp. right. exists tt. split; [done|]. split; [by apply bump_calm|].
  unfold le in *. cbn. rewrite bump_rest. lia.
Qed.

(** Properties of what is ahead. *)
Definition ahead (P : Parser -> Prop) : Prop := forall p p', view p p' -> P p -> P p'.

Lemma ahead_le s : ahead (le s).
Proof. intros p p' Hv. unfold le. by rewrite (view_rest _ _ Hv). Qed.

Lemma ahead_cap a b : ahead (cap a b).
Proof. intros p p' Hv. unfold cap. by rewrite (view_on_line _ _ Hv), (view_rest _ _ Hv). Qed.

Lemma ahead_on s : ahead (on s).
Proof. intros p p' Hv. unfold on. by rewrite (view_on_line _ _ Hv), (view_rest _ _ Hv). Qed.

Create HintDb runs.
#[export] Hint Resolve ahead_le ahead_cap ahead_on : runs.

Lemma runs_node {U : Escape} {A} k (m : PM A) P Q : ahead P -> (forall x, ahead (Q x)) -> runs P m Q -> runs P (node k m) Q.
Proof.
  intros HP HQ Hm p Hc Hp. unfold node, start, finish, act_on, mthen, mret. cbv zeta.
  set (q := set_builder _ _). assert (Hv : view p q) by apply view_builder, view_eat_trivia.
  specialize (Hm q (view_calm _ _ Hv Hc) (HP _ _ Hv Hp)). destruct (m q) as [p1 [x|e]]; cbn [fst snd] in *; [|exact Hm].
  destruct Hm as [Hu|(y & [= <-] & Hq & Hx)]; [left; by eapply escape_said; [apply said_same|exact Hu]|right]. exists x. split; [done|].
  split; [by eapply view_calm; [apply view_builder, view_refl|]|by eapply HQ; [apply view_builder, view_refl|]].
Qed.

Lemma runs_wrap {U : Escape} cp k (m : PM unit) P Q : ahead P -> ahead (Q tt) -> runs P m Q -> runs P (wrap cp k m) Q.
Proof.
  intros HP HQ Hm p Hc Hp. unfold wrap, start_at, finish, act_on, mthen. set (q := set_builder _ _).
  assert (Hv : view p q) by apply view_builder, view_refl.
  specialize (Hm q (view_calm _ _ Hv Hc) (HP _ _ Hv Hp)). destruct (m q) as [p1 [[]|e]]; cbn [fst snd] in *; [|exact Hm].
  destruct Hm as [Hu|([] & _ & Hq & Hx)]; [left; by eapply escape_said; [apply said_same|exact Hu]|right]. exists tt. split; [done|].
  split; [by eapply view_calm; [apply view_builder, view_refl|]|by eapply HQ; [apply view_builder, view_refl|]].
Qed.

Lemma runs_checkpoint {U : Escape} {A} (k : nat -> PM A) P Q : ahead P -> (forall cp, runs P (k cp) Q) -> runs P (let! cp := checkpoint in k cp) Q.
Proof.
  intros HP Hk p Hc Hp. pose proof (view_eat_trivia p) as Hv.
  apply (Hk (length (p_builder (eat_trivia p))) (eat_trivia p)); [by eapply view_calm|by eapply HP].
Qed.

Lemma runs_eat_trivia {U : Escape} s : runs (le s) (act_on eat_trivia) (fun _ => le s).
Proof.
  intros p Hc Hp. right. exists tt. pose proof (view_eat_trivia p) as Hv.
  split; [done|]. split; [by eapply view_calm|by eapply ahead_le].
Qed.

Lemma runs_report {U : Escape} d s : runs (le s) (report d) (fun _ => le s).
Proof. intros p Hc Hp. right. by exists tt. Qed.

(** ** Conditions

    A condition that [sees] holds only before a token, one that is [on] the line only
    before a token other than a newline. *)
Definition sees (c : Parser -> bool) : Prop := forall p, c p = true -> at_eof p = false.
Definition online (c : Parser -> bool) : Prop := forall p, c p = true -> on_line p = true.

Lemma online_sees c : online c -> sees c.
Proof. intros H p Hc. apply H in Hc. unfold on_line in Hc. unfold at_eof. by destruct (peek p). Qed.

Lemma sees_at k : sees (at_ k).
Proof. intros p. unfold at_, peek_kind, at_eof. destruct (peek p); [done|]. intros H. by apply bool_decide_eq_true in H. Qed.

Lemma online_at k : k <> NEWLINE -> online (at_ k).
Proof.
  intros Hk p. unfold at_, peek_kind, on_line. destruct (peek p); intros H; apply bool_decide_eq_true in H; [|done].
  injection H as ->. by apply negb_true_iff, bool_decide_eq_false.
Qed.

Lemma online_at_any ks : Forall (fun k => k <> NEWLINE) ks -> online (at_any ks).
Proof.
  intros Hk p. unfold at_any, peek_kind, on_line. destruct (peek p); [|done]. cbn. intros (k & Hin & H)%existsb_exists.
  apply bool_decide_eq_true in H as <-. rewrite Forall_forall in Hk.
  apply negb_true_iff, bool_decide_eq_false, Hk, list_elem_of_In, Hin.
Qed.

Lemma online_at_name t : online (at_name t).
Proof.
  intros p. unfold at_name, is_name, on_line. destruct (peek p) as [u|]; [|done]. intros [H _]%andb_true_iff.
  apply bool_decide_eq_true in H. apply negb_true_iff, bool_decide_eq_false. by rewrite H.
Qed.

Lemma online_is_key : online is_key.
Proof.
  intros p [H _]%andb_true_iff. revert H. apply online_at_any. by repeat constructor.
Qed.

Lemma online_top_keyword : online at_top_keyword.
Proof.
  intros p. unfold at_top_keyword, top_keyword, on_line. destruct (peek p) as [u|]; [|done]. intros [H _]%andb_true_iff.
  apply bool_decide_eq_true in H. apply negb_true_iff, bool_decide_eq_false. by rewrite H.
Qed.

#[export] Hint Resolve sees_at online_at_name online_is_key online_top_keyword : runs.
#[export] Hint Extern 1 (online (at_ _)) => apply online_at; discriminate : runs.
#[export] Hint Extern 1 (online (at_any _)) => apply online_at_any; repeat constructor; discriminate : runs.
#[export] Hint Extern 2 (sees _) => apply online_sees : runs.

(** A branch on what comes next: where a token does, there is one. *)
Lemma runs_sees {U : Escape} {A} s c (m m' : PM A) Q :
  sees c -> (0 < s -> runs (le s) m Q) -> runs (le s) m' Q -> runs (le s) (let! b := look c in if b then m else m') Q.
Proof.
  intros Hc Hm Hm'. apply runs_look. intros [].
  - apply (runs_fact _ (0 < s)).
    + intros Hs. eapply runs_pre; [by apply Hm|]. by intros p [H _].
    + intros p [H Hp]. apply Hc, eof_rest in Hp. unfold le in H. lia.
  - eapply runs_pre; [exact Hm'|]. by intros p [H _].
Qed.

Lemma runs_online {U : Escape} {A} a b c (m m' : PM A) Q :
  online c -> (0 < a -> runs (le a) m Q) -> runs (cap a b) m' Q -> runs (cap a b) (let! b := look c in if b then m else m') Q.
Proof.
  intros Hc Hm Hm'. apply runs_look. intros [].
  - apply (runs_fact _ (0 < a)).
    + intros Ha. eapply runs_pre; [by apply Hm|]. intros p [H Hp]. unfold cap in H. by rewrite (Hc _ Hp) in H.
    + intros p [H Hp]. unfold cap in H. rewrite (Hc _ Hp) in H. apply Hc, on_line_rest in Hp. lia.
  - eapply runs_pre; [exact Hm'|]. by intros p [H _].
Qed.

(** A loop whose every round consumes something. *)
Lemma runs_while_when {U : Escape} n : forall s c m,
  s < n -> sees c -> keeps said m ->
  (forall s', 0 < s' <= s -> runs (fun p => c p = true /\ le s' p) m (fun _ => le (pred s'))) ->
  runs (le s) (while_ n c m) (fun _ => le s).
Proof.
  induction n as [|n IH]; [lia|]. intros s c m Hs Hc Hy Hm p Hcalm Hp. cbn [while_]. destruct (c p) eqn:Hcp.
  - assert (H0 : 0 < s) by (apply Hc, eof_rest in Hcp; unfold le in Hp; lia).
    refine (runs_then (fun p => c p = true /\ le s p) m (fun _ => while_ n c m) (fun _ => le (pred s)) (fun _ => le s)
              _ _ _ p Hcalm (conj Hcp Hp)).
    + apply Hm. lia.
    + intros _. eapply runs_weaken; [apply (IH (pred s)); [lia|done|done|]|done|].
      * intros s' Hs'. apply Hm. lia.
      * intros ? q. unfold le. lia.
    + intros _. by apply keeps_while.
  - right. by exists tt.
Qed.

Lemma runs_while {U : Escape} n s c m :
  s < n -> sees c -> keeps said m -> (forall s', 0 < s' <= s -> runs (le s') m (fun _ => le (pred s'))) ->
  runs (le s) (while_ n c m) (fun _ => le s).
Proof. intros Hs Hc Hk Hm. apply runs_while_when; [done..|]. intros s' Hs'. eapply runs_pre; [by apply Hm|]. by intros p [_ H]. Qed.

(** The same where a round starts on the line. *)
Lemma runs_while_online {U : Escape} n s c m :
  s < n -> online c -> keeps said m -> (forall s', 0 < s' <= s -> runs (on s') m (fun _ => le (pred s'))) ->
  runs (le s) (while_ n c m) (fun _ => le s).
Proof.
  intros Hs Hc Hk Hm. apply runs_while_when; [done|by apply online_sees|done|]. intros s' Hs'.
  eapply runs_pre; [by apply Hm|]. intros p [H1 H2]. split; [by apply Hc|done].
Qed.

Lemma le_cap s p : le s p -> cap s s p.
Proof. unfold cap, le. by destruct (on_line p). Qed.

Lemma le_mono s s' p : s <= s' -> le s p -> le s' p.
Proof. unfold le. lia. Qed.

Lemma on_cap s p : on s p -> cap s (pred s) p.
Proof. intros [H1 H2]. unfold cap. by rewrite H1. Qed.

Lemma on_le s p : on s p -> le s p.
Proof. by intros [_ H]. Qed.

(** The rest of the line is consumed, whatever quiets it. *)
Lemma line_loop n : forall p, rest p < n -> exists q, while_ n on_line bump p = (q, Ok tt) /\ on_line q = false
  /\ rest q <= rest p /\ (on_line p = true -> rest q < rest p) /\ said p q.
Proof.
  induction n as [|n IH]; [lia|]. intros p Hp. cbn [while_]. destruct (on_line p) eqn:Ho.
  - pose proof (on_line_rest _ Ho) as H0. destruct (IH (bump_ p)) as (q & He & Hq & Hr & _ & Hs); [rewrite bump_rest; lia|].
    exists q. unfold mthen, bump, act_on. rewrite bump_rest in Hr. split; [exact He|]. repeat split; [done|lia|lia|].
    etrans; [apply (adds_said _ _ (adds_bump p))|exact Hs].
  - exists p. repeat split; [done|lia|discriminate|reflexivity].
Qed.

Lemma rest_tokens p : rest p <= length (p_tokens p).
Proof. unfold rest. etrans; [apply length_filter|]. rewrite length_drop. lia. Qed.

Lemma runs_error {U : Escape} a b x y : a <= S b -> runs (cap a b) (error x y) (fun _ => le b).
Proof.
  intros Hab p Hc Hp. right. exists tt. unfold error. destruct (p_suppress p) eqn:Hs.
  - split; [done|]. split; [done|]. specialize (Hc Hs). unfold cap in Hp. by rewrite Hc in Hp.
  - set (p2 := set_diagnostics (p_diagnostics p ++ [expected_here x y (set_suppress true p)]) (set_suppress true p)).
    set (q := set_builder (p_builder (eat_trivia p2) ++ [BStart ERROR]) (eat_trivia p2)).
    assert (Hv : view p2 q) by apply view_builder, view_eat_trivia.
    assert (Ho : on_line q = on_line p) by apply (view_on_line _ _ Hv).
    assert (Hr : rest q = rest p) by apply (view_rest _ _ Hv).
    destruct (line_loop (S (length (p_tokens p))) q) as (q' & He & Hq & Hle & Hlt & _).
    { rewrite Hr. pose proof (rest_tokens p). lia. }
    assert (Hm : (do! act_on (set_suppress true) in let! d := look (expected_here x y) in do! report d in
       let! tokens := look p_tokens in recover_line (S (length tokens))) p = (set_builder (p_builder q' ++ [BFinish]) q', Ok tt)).
    { change (mthen (while_ (S (length (p_tokens p))) on_line bump) (fun x => mthen finish (fun _ => mret x)) q
        = (set_builder (p_builder q' ++ [BFinish]) q', Ok tt)). unfold mthen at 1. by rewrite He. }
    rewrite Hm. cbn [fst snd]. split; [done|]. set (q2 := set_builder _ q').
    assert (Hv2 : view q' q2) by apply view_builder, view_refl.
    split; [intros _; by rewrite (view_on_line _ _ Hv2)|]. unfold le. rewrite (view_rest _ _ Hv2).
    unfold cap in Hp. rewrite Ho in Hlt. destruct (on_line p); [specialize (Hlt eq_refl)|]; lia.
Qed.

Lemma runs_le {U : Escape} {A} (m : PM A) s : (forall a b, a <= s -> b <= s -> a <= S b -> runs (cap a b) m (fun _ => le b)) -> runs (le s) m (fun _ => le s).
Proof. intros Hm. eapply runs_pre; [apply (Hm s s); lia|apply le_cap]. Qed.

Lemma runs_error_le {U : Escape} s x y : runs (le s) (error x y) (fun _ => le s).
Proof. apply runs_le. intros a b _ _. apply runs_error. Qed.

(** Where it answers yes, a token was consumed. *)
Lemma runs_expect {U : Escape} s k x : runs (le s) (expect k x) (fun ok => le (if ok then pred s else s)).
Proof.
  unfold expect. apply runs_sees; [auto with runs| |].
  - intros _. eapply runs_then; [apply runs_bump| |intros; tells]. intros ?. by apply runs_ret.
  - eapply runs_then; [apply runs_error_le| |intros; tells]. intros ?. by apply runs_ret.
Qed.

Lemma runs_expect_name {U : Escape} s t x : runs (le s) (expect_name t x) (fun ok => le (if ok then pred s else s)).
Proof.
  unfold expect_name. apply runs_sees; [auto with runs| |].
  - intros _. eapply runs_then; [apply runs_bump| |intros; tells]. intros ?. by apply runs_ret.
  - eapply runs_then; [apply runs_error_le| |intros; tells]. intros ?. by apply runs_ret.
Qed.

Lemma runs_to {U : Escape} {A} s s' s2 (m : PM A) : runs (le s) m (fun _ => le s') -> s' <= s2 -> runs (le s) m (fun _ => le s2).
Proof. intros Hm Hs. eapply runs_weaken; [exact Hm|done|]. intros ? ?. by apply le_mono. Qed.

Lemma runs_ret_to {U : Escape} {A} s s2 (x : A) : s <= s2 -> runs (le s) (mret x) (fun _ => le s2).
Proof. intros Hs. apply runs_ret. intros p. by apply le_mono. Qed.

(** One after the other, where the last may leave fewer than is asked. *)
Lemma runs_seq {U : Escape} {A B} s (Q : A -> nat) s2 (m : PM A) (k : A -> PM B) :
  runs (le s) m (fun x => le (Q x)) -> (forall x, keeps said (k x)) -> (forall x, runs (le (Q x)) (k x) (fun _ => le s2)) ->
  runs (le s) (mthen m k) (fun _ => le s2).
Proof. intros Hm Hy Hk. by eapply runs_then. Qed.

Lemma runs_keep {U : Escape} {A B} s s2 (m : PM A) (k : A -> PM B) :
  runs (le s) m (fun _ => le s) -> (forall x, keeps said (k x)) -> (forall x, runs (le s) (k x) (fun _ => le s2)) ->
  runs (le s) (mthen m k) (fun _ => le s2).
Proof. apply (runs_seq s (fun _ => s)). Qed.

Lemma runs_forget {U : Escape} {A B} P (f : Parser -> A) (k : A -> PM B) Q :
  (forall x, runs P (k x) Q) -> runs P (let! x := look f in k x) Q.
Proof. intros Hk. apply runs_look. intros x. eapply runs_pre; [apply Hk|]. by intros p [H _]. Qed.

Lemma runs_node_le {U : Escape} {A} k (m : PM A) s s2 : runs (le s) m (fun _ => le s2) -> runs (le s) (node k m) (fun _ => le s2).
Proof. intros Hm. apply runs_node; auto with runs. Qed.

Lemma runs_wrap_le {U : Escape} cp k (m : PM unit) s s2 : runs (le s) m (fun _ => le s2) -> runs (le s) (wrap cp k m) (fun _ => le s2).
Proof. intros Hm. apply runs_wrap; auto with runs. Qed.

#[export] Hint Resolve runs_bump runs_error_le runs_expect runs_expect_name runs_eat_trivia runs_report : runs.

Lemma runs_many {U : Escape} n s c m :
  s < n -> sees c -> yields m -> (forall s', s' < s -> runs (le s') m (fun _ => le s')) ->
  runs (le s) (many n c m) (fun _ => le s).
Proof.
  intros Hs Hc Hy Hm. unfold many. apply runs_while; [done|done|tells|]. intros s' Hs'.
  apply (runs_seq s' (fun _ => pred s')); [apply runs_bump|intros _; by apply keeps_yields|]. intros _. apply Hm. lia.
Qed.

(** The structure of a parser; what is left are its calls and the counts. *)
Ltac runs_call := solve [eauto with runs | eauto with runs lia].

Ltac runs_step :=
  lazymatch goal with
  | |- forall _, _ => intros ?
  | |- runs (le (match ?b with _ => _ end)) _ _ => destruct b
  | |- runs (le _) (mret _) _ => apply runs_ret_to; lia
  | |- runs (le _) (node _ _) _ => apply runs_node_le
  | |- runs (le _) (wrap _ _ _) _ => apply runs_wrap_le
  | |- runs (le _) (let! _ := checkpoint in _) _ => apply runs_checkpoint; [apply ahead_le|]
  | |- runs (le _) (mthen (look _) _) _ => first [apply runs_sees; [solve [auto with runs]| |] | apply runs_forget]
  | |- runs (le _) (match ?x with _ => _ end) _ => destruct x
  | |- runs (le _) (mthen _ _) _ =>
      first [eapply (runs_seq _ (fun _ => _)); [runs_call|solve [intros; tells]|]
            |eapply runs_seq; [runs_call|solve [intros; tells]|]
            |eapply runs_keep; [|solve [intros; tells]|]]
  | |- runs (le _) (many _ _ _) _ =>
      eapply runs_to; [apply runs_many; [lia|solve [auto with runs]|solve [yields]|]|lia]
  | |- runs (le _) _ _ => eapply runs_to; [runs_call|lia]
  end.

Ltac runs := cbv beta; repeat runs_step.

Lemma runs_expect_ {U : Escape} s k x : runs (le s) (expect_ k x) (fun _ => le s).
Proof. unfold expect_. runs. Qed.

Lemma runs_bump_if {U : Escape} s c : sees c -> runs (le s) (bump_if c) (fun _ => le s).
Proof. intros Hc. unfold bump_if. runs. Qed.
#[export] Hint Resolve runs_expect_ runs_bump_if : runs.

Lemma runs_expect_newline {U : Escape} s x : runs (le s) (expect_newline x) (fun _ => le s).
Proof. unfold expect_newline. runs. Qed.

Lemma runs_as_name {U : Escape} s : runs (le s) as_name (fun _ => le s).
Proof. unfold as_name. runs. Qed.
#[export] Hint Resolve runs_expect_newline runs_as_name : runs.

Lemma runs_enclosed {U : Escape} s k x m :
  0 < s -> (forall s', s' < s -> runs (le s') m (fun _ => le s')) -> yields m ->
  runs (le s) (enclosed k x m) (fun _ => le (pred s)).
Proof. intros Hs Hm Hy. unfold enclosed. runs. Qed.

(** ** A level *)

Section Level.
Context {U : Escape}.
Variable self : Rule -> PM unit.
Variables n k : nat.
Hypothesis Hkn : k < n.
Hypothesis Hyields : forall r, yields (self r).
Hypothesis Hexpr : forall r s, r <> RBody -> r <> RStmt -> s < k -> runs (le s) (self r) (fun _ => le s).
Hypothesis Hbody : forall s, S s < k -> runs (le s) (self RBody) (fun _ => le s).
Hypothesis Hstmt : forall s, s < k -> runs (on s) (self RStmt) (fun _ => le (pred s)).
#[local] Hint Resolve Hyields yields_args yields_call_after yields_reference yields_record_entry yields_postfix yields_unary
  yields_cmp yields_not yields_expr yields_arg yields_step yields_step_or_pipeline yields_block yields_line yields_repeat
  yields_when yields_named_stmt yields_stmt yields_stmt_or_token yields_body yields_body_loop yields_do_end : yields.
#[local] Hint Extern 1 (runs _ (self _) _) => apply Hexpr; [discriminate|discriminate|lia] : runs.

(** The parsers of an expression: what they need on the line, and what they leave. *)
Definition chain {A} (m : PM A) : Prop :=
  forall a b, a <= k -> b <= k -> a <= S b -> runs (cap a b) m (fun _ => le b).

Lemma runs_chain {A} (m : PM A) s : s <= k -> chain m -> runs (le s) m (fun _ => le s).
Proof. intros Hs Hm. apply runs_le. intros a b Ha Hb. apply Hm; by etrans. Qed.

Lemma runs_args s : s < k -> runs (le s) (args self n) (fun _ => le s).
Proof. intros Hs. unfold args, arg_list. runs. Qed.
#[local] Hint Extern 1 (runs _ (args self n) _) => apply runs_args; lia : runs.

Lemma keeps_call_after cp : keeps said (call_after self n cp).
Proof. unfold call_after. tells. Qed.

Lemma runs_call_after s cp : s <= k -> runs (le s) (call_after self n cp) (fun _ => le s).
Proof. intros Hs. unfold call_after. runs. Qed.
#[local] Hint Extern 1 (runs _ (call_after self n _) _) => apply runs_call_after; lia : runs.

Lemma runs_reference s : 0 < s -> s <= k -> runs (le s) (reference self n) (fun _ => le (pred s)).
Proof.
  intros H0 Hs. unfold reference. apply runs_checkpoint; [apply ahead_le|]. intros cp.
  apply (runs_seq s (fun _ => pred s)); [|intros; apply keeps_call_after|]; runs.
Qed.

Lemma runs_record_entry s : s <= k -> runs (le s) (record_entry self) (fun _ => le s).
Proof. intros Hs. unfold record_entry. runs. Qed.
#[local] Hint Extern 1 (runs _ (reference self n) _) => apply runs_reference; lia : runs.
#[local] Hint Extern 1 (runs _ (record_entry self) _) => apply runs_record_entry; lia : runs.

Lemma runs_peeked {A} a b t (m : PM A) Q :
  tok_kind t <> NEWLINE -> (0 < a -> runs (le a) m Q) -> runs (fun p => cap a b p /\ peek p = Some t) m Q.
Proof.
  intros Ht Hm.
  assert (Hon : forall p, peek p = Some t -> on_line p = true).
  { intros p Hp. unfold on_line. rewrite Hp. by apply negb_true_iff, bool_decide_eq_false. }
  apply (runs_fact _ (0 < a)).
  - intros Ha. eapply runs_pre; [by apply Hm|]. intros p [H Hp]. unfold cap in H. by rewrite (Hon _ Hp) in H.
  - intros p [H Hp]. apply Hon in Hp. unfold cap in H. rewrite Hp in H. apply on_line_rest in Hp. lia.
Qed.

Lemma runs_arg_list s : s < k -> runs (le s) (arg_list self n) (fun _ => le s).
Proof. intros Hs. unfold arg_list. runs. Qed.

Lemma chain_postfix : chain (postfix self n).
Proof.
  intros a b Ha Hb Hab. unfold postfix. apply runs_look. intros [t|].
  2: { eapply runs_pre; [by apply runs_error|by intros p [H _]]. }
  destruct (tok_kind t) eqn:Hk; try (lazymatch goal with |- context [closed_string t] => destruct (closed_string t) end);
    try (eapply runs_pre; [by apply runs_error|by intros p [H _]]).
  all: apply runs_peeked; [by rewrite Hk|intros H0; runs].
  - eapply runs_to; [apply runs_enclosed; [lia|intros s' Hs'|unfold arg_list; yields]|lia]. apply runs_arg_list. lia.
  - eapply runs_to; [apply runs_enclosed; [lia|intros s' Hs'|yields]|lia]. runs.
Qed.

Lemma chain_left_assoc ops next : online ops -> yields next -> chain next -> chain (left_assoc n ops next).
Proof.
  intros Ho Hy Hn a b Ha Hb Hab. unfold left_assoc. apply runs_checkpoint; [apply ahead_cap|]. intros cp.
  eapply runs_then; [by apply Hn| |intros; tells]. intros ?. apply runs_while; [lia|by apply online_sees|tells|].
  intros s' Hs'. apply runs_wrap_le. apply (runs_seq s' (fun _ => pred s')); [apply runs_bump|intros; tells|].
  intros ?. apply runs_chain; [lia|done].
Qed.

Lemma chain_unary : chain (unary self n).
Proof. intros a b Ha Hb Hab. unfold unary. apply runs_online; [auto with runs|intros; runs|by apply chain_postfix]. Qed.

Lemma yields_add : yields (add self n).
Proof. unfold add, mul. yields. Qed.
#[local] Hint Resolve yields_add : yields.

Lemma chain_add : chain (add self n).
Proof. do 2 (apply chain_left_assoc; [auto with runs|unfold mul; yields|]). apply chain_unary. Qed.
#[local] Hint Extern 1 (runs (le _) (add self n) _) => apply runs_chain; [lia|exact chain_add] : runs.

Lemma chain_cmp : chain (cmp self n).
Proof.
  intros a b Ha Hb Hab. unfold cmp. apply runs_checkpoint; [apply ahead_cap|]. intros cp.
  eapply runs_then; [by apply chain_add| |intros; tells]. intros ?. runs.
Qed.

Lemma chain_not : chain (not_ self n).
Proof. intros a b Ha Hb Hab. unfold not_. apply runs_online; [auto with runs|intros; runs|by apply chain_cmp]. Qed.

Lemma chain_expr : chain (expr self n).
Proof. do 2 (apply chain_left_assoc; [auto with runs|unfold and_; yields|]). apply chain_not. Qed.

Lemma chain_arg : chain (arg self n).
Proof. intros a b Ha Hb Hab. unfold arg. apply runs_online; [auto with runs|intros; runs|by apply chain_expr]. Qed.

#[local] Hint Extern 1 (runs (le _) (postfix self n) _) => apply runs_chain; [lia|exact chain_postfix] : runs.
#[local] Hint Extern 1 (runs (le _) (expr self n) _) => apply runs_chain; [lia|exact chain_expr] : runs.
#[local] Hint Extern 1 (runs (le _) (arg self n) _) => apply runs_chain; [lia|exact chain_arg] : runs.

(** ** Statements *)

Lemma chain_step : chain (step_ self n).
Proof.
  intros a b Ha Hb Hab. unfold step_. apply runs_node; [apply ahead_cap|intros ?; apply ahead_le|].
  eapply runs_then; [by apply chain_postfix| |intros; tells]. intros ?. runs.
Qed.
#[local] Hint Extern 1 (runs (le _) (step_ self n) _) => apply runs_chain; [lia|exact chain_step] : runs.

Lemma chain_step_or_pipeline : chain (step_or_pipeline self n).
Proof.
  intros a b Ha Hb Hab. unfold step_or_pipeline. apply runs_checkpoint; [apply ahead_cap|]. intros cp.
  eapply runs_then; [by apply chain_step| |intros; tells]. intros ?. runs.
Qed.
#[local] Hint Extern 1 (runs (le _) (step_or_pipeline self n) _) => apply runs_chain; [lia|exact chain_step_or_pipeline] : runs.

(** A branch on a word that was expected: where it came, there was a token. *)
Lemma runs_expecting {A} s t x (m m' : PM A) Q :
  (0 < s -> runs (le (pred s)) m Q) -> runs (le s) m' Q -> keeps said m -> keeps said m' ->
  runs (le s) (let! ok := expect_name t x in if ok then m else m') Q.
Proof.
  intros Hm Hm' Hs Hs'. apply (runs_then _ _ _ (fun ok p => if (ok : bool) then 0 < s /\ le (pred s) p else le s p)).
  - unfold expect_name. apply runs_sees; [auto with runs| |].
    + intros H0. eapply runs_then; [apply runs_bump| |intros; tells]. intros ?. by apply runs_ret.
    + eapply runs_then; [apply runs_error_le| |intros; tells]. intros ?. by apply runs_ret.
  - intros []; [|done]. apply (runs_fact _ (0 < s)); [|by intros p [H _]].
    intros H0. eapply runs_pre; [by apply Hm|]. by intros p [_ H].
  - by intros [].
Qed.

Lemma runs_do_end s a b m :
  s < k -> yields m -> (forall s', s' < s -> runs (le s') m (fun _ => le s')) -> runs (le s) (do_end self a b m) (fun _ => le s).
Proof.
  intros Hs Hy Hm. unfold do_end. apply runs_expecting; [intros H0|runs|tells|tells].
  apply runs_keep; [apply runs_expect_newline|tells|intros _].
  apply runs_keep; [apply Hbody; lia|tells|intros _].
  apply runs_keep; [apply Hm; lia|tells|intros _]. runs.
Qed.

Lemma runs_do_end_only s a b : s < k -> runs (le s) (do_end self a b (mret tt)) (fun _ => le s).
Proof. intros Hs. apply runs_do_end; [done|yields|]. intros s' _. by apply runs_ret. Qed.
#[local] Hint Extern 1 (runs (le _) (do_end self _ _ (mret tt)) _) => apply runs_do_end_only; lia : runs.

(** The statements consume their first token. *)
Lemma runs_block s : 0 < s -> s <= k -> runs (le s) (block self) (fun _ => le (pred s)).
Proof. intros H0 Hs. unfold block. runs. Qed.

Lemma runs_line s : 0 < s -> s <= k -> runs (le s) (line self n) (fun _ => le (pred s)).
Proof. intros H0 Hs. unfold line. runs. Qed.

Lemma runs_else_arm s : S s < k -> runs (le s) (else_arm self) (fun _ => le s).
Proof. intros Hs. unfold else_arm. runs. Qed.

Lemma yields_else_arm : yields (else_arm self).
Proof. unfold else_arm. yields. Qed.
#[local] Hint Resolve yields_else_arm : yields.

Lemma runs_do_else s a b : s < k -> runs (le s) (do_end self a b (else_arm self)) (fun _ => le s).
Proof. intros Hs. apply runs_do_end; [done|yields|]. intros s' Hs'. apply runs_else_arm. lia. Qed.
#[local] Hint Extern 1 (runs (le _) (do_end self _ _ (else_arm self)) _) => apply runs_do_else; lia : runs.

Lemma runs_when s : 0 < s -> s <= k -> runs (le s) (when_ self n) (fun _ => le (pred s)).
Proof. intros H0 Hs. unfold when_. runs. Qed.

Lemma runs_slot s : 0 < s -> runs (le s) slot (fun _ => le (pred s)).
Proof. intros H0. unfold slot. runs. Qed.

Lemma runs_observe s : 0 < s -> s <= k -> runs (le s) (observe self n) (fun _ => le (pred s)).
Proof. intros H0 Hs. unfold observe. runs. Qed.

Lemma runs_assert s : 0 < s -> s <= k -> runs (le s) (assert_ self n) (fun _ => le (pred s)).
Proof. intros H0 Hs. unfold assert_. runs. Qed.

Lemma runs_knell s : 0 < s -> s <= k -> runs (le s) (knell self n) (fun _ => le (pred s)).
Proof. intros H0 Hs. unfold knell. runs. Qed.

(** The header of a repeat: on its line something is always consumed. *)
Lemma runs_repeat_header s : 0 < s -> s <= k -> runs (on s) (repeat_header self n) (fun _ => le (pred s)).
Proof.
  intros H0 Hs. eapply runs_pre; [|apply on_cap]. unfold repeat_header.
  apply runs_online; [auto with runs|intros; runs|]. apply runs_online; [auto with runs|intros; runs|].
  apply chain_arg; lia.
Qed.

Definition in_header (p : Parser) : bool := negb (at_name "do" p) && negb (at_ NEWLINE p) && negb (at_eof p).

Lemma online_in_header : online in_header.
Proof.
  intros p [[_ H1]%andb_true_iff H2]%andb_true_iff. apply negb_true_iff in H1, H2.
  unfold at_, peek_kind, at_eof, on_line in *. destruct (peek p) as [t|]; [|done]. cbn in *.
  apply negb_true_iff, bool_decide_eq_false. intros Hk. rewrite Hk in H1. by apply bool_decide_eq_false in H1.
Qed.

Lemma yields_repeat_header : yields (repeat_header self n).
Proof. unfold repeat_header. yields. Qed.
#[local] Hint Resolve yields_repeat_header : yields.

Lemma runs_repeat s : 0 < s -> s <= k -> runs (le s) (repeat_ self n) (fun _ => le (pred s)).
Proof.
  intros H0 Hs. unfold repeat_. apply runs_node_le. apply (runs_seq s (fun _ => pred s)); [apply runs_bump|tells|].
  intros ?. apply runs_keep; [|tells|intros ?; runs].
  apply runs_while_online; [lia|apply online_in_header|tells|]. intros s' Hs'. apply runs_repeat_header; lia.
Qed.

#[local] Hint Extern 1 (runs (le _) (block self) _) => apply runs_block; lia : runs.
#[local] Hint Extern 1 (runs (le _) (line self n) _) => apply runs_line; lia : runs.
#[local] Hint Extern 1 (runs (le _) (when_ self n) _) => apply runs_when; lia : runs.
#[local] Hint Extern 1 (runs (le _) slot _) => apply runs_slot; lia : runs.
#[local] Hint Extern 1 (runs (le _) (observe self n) _) => apply runs_observe; lia : runs.
#[local] Hint Extern 1 (runs (le _) (assert_ self n) _) => apply runs_assert; lia : runs.
#[local] Hint Extern 1 (runs (le _) (knell self n) _) => apply runs_knell; lia : runs.
#[local] Hint Extern 1 (runs (le _) (repeat_ self n) _) => apply runs_repeat; lia : runs.

Lemma runs_on_chain {A} s (m : PM A) : 0 < s -> s <= k -> chain m -> runs (on s) m (fun _ => le (pred s)).
Proof. intros H0 Hs Hm. eapply runs_pre; [apply (Hm s (pred s)); lia|apply on_cap]. Qed.

Lemma on_positive {A} s (m : PM A) Q : (0 < s -> runs (on s) m Q) -> runs (on s) m Q.
Proof. intros Hm. apply (runs_fact _ (0 < s)); [done|]. intros p [H1 H2]. apply on_line_rest in H1. lia. Qed.

Lemma runs_named_stmt s t : s <= k -> runs (on s) (named_stmt self n t) (fun _ => le (pred s)).
Proof.
  intros Hs. apply on_positive. intros H0. unfold named_stmt.
  repeat match goal with
  | |- runs _ (if ?b then _ else _) _ => destruct b; [apply (runs_pre _ (le s)); [runs|apply on_le]|]
  end.
  apply runs_forget. intros next.
  assert (Hl : runs (on s) (line self n) (fun _ => le (pred s)))
    by (apply (runs_pre _ (le s)); [runs|apply on_le]).
  pose proof (runs_on_chain s _ H0 Hs chain_step_or_pipeline) as Hp. by destruct (tok_kind <$> next) as [[]|].
Qed.

Lemma runs_contribution s : 0 < s -> s <= k -> runs (le s) (contribution self) (fun _ => le (pred s)).
Proof.
  intros H0 Hs. unfold contribution. apply runs_node_le. apply (runs_seq s (fun _ => pred s)); [apply runs_bump|tells|].
  intros ?. apply runs_keep; [apply runs_bump_if; auto with runs|tells|]. intros ?.
  apply runs_look. intros [].
  - eapply runs_weaken; [apply (Hstmt (pred s)); lia| |].
    + intros p [H1 H2]. split; [|done]. revert H2. by apply online_at.
    + intros ? p. apply le_mono. lia.
  - apply (runs_pre _ (le (pred s))); [runs|]. by intros p [H _].
Qed.

Lemma runs_on_error s x y c : 0 < s -> sees c -> runs (on s) (do! error x y in bump_if c) (fun _ => le (pred s)).
Proof.
  intros H0 Hc. eapply runs_then; [|intros ?; by apply runs_bump_if|intros; tells].
  eapply runs_pre; [apply (runs_error s (pred s)); lia|apply on_cap].
Qed.

Lemma runs_stmt s : s <= k -> runs (on s) (stmt self n) (fun _ => le (pred s)).
Proof.
  intros Hs. apply on_positive. intros H0. unfold stmt. apply runs_look. intros [t|].
  2: { intros p _ [[Ho _] Hp]. unfold on_line in Ho. by rewrite Hp in Ho. }
  apply (runs_pre _ (on s)); [|by intros p [H _]].
  assert (He : runs (on s) (do! error "a statement" "in a body" in bump_if (at_ NEWLINE)) (fun _ => le (pred s)))
    by (apply runs_on_error; auto with runs).
  destruct (tok_kind t); try exact He; clear He.
  - by apply runs_named_stmt.
  - eapply runs_pre; [by apply runs_contribution|apply on_le].
Qed.

Lemma runs_stmt_or_token s : s < k -> runs (on s) (stmt_or_token self) (fun _ => le (pred s)).
Proof.
  intros Hs. unfold stmt_or_token. apply runs_forget. intros before.
  eapply runs_then; [by apply Hstmt| |intros; tells]. intros ?. runs.
Qed.

Context {O : Opens U}.

(** A body comes to its end, or to a top-level keyword that leaves it unclosed. *)
Lemma runs_body_loop m : forall s, s < m -> s < k -> runs (le s) (body_loop self m) (fun _ => le s).
Proof.
  induction m as [|m IH]; [lia|]. intros s Hm Hs. cbn [body_loop]. apply runs_look. intros [].
  { apply runs_ret. by intros p [H _]. }
  apply (runs_pre _ (fun p => le s p /\ body_over p = false)); [|done].
  apply runs_look. intros [].
  - eapply runs_pre; [|intros p [[H _] Hb]; exact (conj H Hb)].
    apply (runs_fact _ (0 < s)); [intros H0|intros p [H Hb]; apply sees_at, eof_rest in Hb; unfold le in H; lia].
    apply (runs_pre _ (le s)); [|by intros p [H _]].
    apply (runs_seq s (fun _ => pred s)); [apply runs_bump|tells|]. intros ?.
    eapply runs_to; [apply IH; lia|lia].
  - apply runs_look. intros [].
    + intros p Hc [_ Ht]. left. apply opens. unfold missing_end.
      destruct (p_suppress p) eqn:Hq; [apply Hc in Hq; apply online_top_keyword in Ht; congruence|].
      apply Exists_app. right. by constructor.
    + apply (runs_pre _ (on s)).
      * apply on_positive. intros H0. eapply runs_then; [by apply runs_stmt_or_token| |intros; tells].
        intros ?. eapply runs_to; [apply IH; lia|lia].
      * intros p [[[H Hb] Hn] _]. split; [|done]. unfold body_over, at_, peek_kind, at_eof, on_line in *.
        destruct (peek p) as [t|]; [|done]. apply negb_true_iff, bool_decide_eq_false. intros Hk.
        cbn in Hn. rewrite Hk in Hn. by apply bool_decide_eq_false in Hn.
Qed.

Lemma runs_body s : s < k -> runs (le s) (body self n) (fun _ => le s).
Proof.
  intros Hs. unfold body. apply runs_node_le. apply runs_keep; [apply runs_body_loop; lia|tells|intros ?; runs].
Qed.
End Level.

(** ** All levels *)

(** What the next level up needs of the parsers below. *)
Record level {U : Escape} (k : nat) (self : Rule -> PM unit) : Prop := mkLevel {
  level_expr : forall r s, r <> RBody -> r <> RStmt -> s < k -> runs (le s) (self r) (fun _ => le s);
  level_body : Opens U -> forall s, S s < k -> runs (le s) (self RBody) (fun _ => le s);
  level_stmt : Opens U -> forall s, s < k -> runs (on s) (self RStmt) (fun _ => le (pred s));
}.

Lemma rule_level {U : Escape} n : level (pred n) (rule n).
Proof.
  induction n as [|n IH]; [split; intros; lia|]. destruct n as [|m]; [split; cbn; intros; lia|].
  destruct IH as [He Hb Hs]. assert (Hk : pred (S m) < S m) by (cbn; lia).
  pose proof (yields_rule (S m)) as Hy. split.
  - intros r s Hr1 Hr2 Hlt. cbn in Hlt. apply (runs_chain (pred (S m))); [cbn; lia|].
    destruct r; cbn [rule]; [apply (chain_expr _ _ _ Hk)|apply (chain_arg _ _ _ Hk)|apply (chain_not _ _ _ Hk)|
      apply (chain_unary _ _ _ Hk)|done|done]; done.
  - intros O s Hlt. cbn in Hlt. apply (runs_body _ _ _ Hk Hy (Hs O)). cbn. lia.
  - intros O s Hlt. cbn in Hlt. apply (runs_stmt _ _ _ Hk Hy He (Hb O) (Hs O)). cbn. lia.
Qed.

(** ** The file *)

Section File.
Variable n : nat.
Hypothesis Hn : 0 < n.
Context {U : Escape}.

Lemma runs_rule r s : r <> RBody -> r <> RStmt -> s < pred n -> runs (le s) (rule n r) (fun _ => le s).
Proof. apply rule_level. Qed.
#[local] Hint Extern 1 (runs _ (rule n _) _) => apply runs_rule; [discriminate|discriminate|lia] : runs.

Lemma runs_header_rest s b : s <= pred n -> runs (le s) (header_rest n b) (fun _ => le s).
Proof. intros Hs. unfold header_rest, pattern_. runs. Qed.
#[local] Hint Extern 1 (runs _ (header_rest n _) _) => apply runs_header_rest; lia : runs.

Lemma yields_header_rest b : yields (header_rest n b).
Proof. unfold header_rest, pattern_. yields. Qed.

Context {O : Opens U}.

Lemma runs_rule_do_end s a b : s < pred n -> runs (le s) (do_end (rule n) a b (mret tt)) (fun _ => le s).
Proof.
  intros Hs. apply (runs_do_end_only (rule n) n (pred n)); [lia|apply yields_rule|by apply rule_level|done].
Qed.
#[local] Hint Extern 1 (runs _ (do_end (rule n) _ _ (mret tt)) _) => apply runs_rule_do_end; lia : runs.

Lemma yields_rule_do_end a b : yields (do_end (rule n) a b (mret tt)).
Proof. apply yields_do_end; [apply yields_rule|apply yields_ret]. Qed.
#[local] Hint Resolve yields_header_rest yields_rule_do_end : yields.

Lemma runs_def s : 0 < s -> s <= pred n -> runs (le s) (def n) (fun _ => le (pred s)).
Proof.
  intros H0 Hs. unfold def. apply runs_forget. intros t. cbv zeta. apply runs_node_le.
  apply (runs_seq s (fun _ => pred s)); [apply runs_bump|tells|]. intros ?. runs.
Qed.

Lemma runs_import s : 0 < s -> runs (le s) import (fun _ => le (pred s)).
Proof. intros H0. unfold import. runs. Qed.

Lemma runs_rule_block s : 0 < s -> s <= pred n -> runs (le s) (block (rule n)) (fun _ => le (pred s)).
Proof. apply (runs_block (rule n) n (pred n)); [lia|apply yields_rule|by apply rule_level]. Qed.

#[local] Hint Extern 1 (runs (le _) (def n) _) => apply runs_def; lia : runs.
#[local] Hint Extern 1 (runs (le _) import _) => apply runs_import; lia : runs.
#[local] Hint Extern 1 (runs (le _) (block (rule n)) _) => apply runs_rule_block; lia : runs.

(** A round at the top of the file consumes something. *)
Lemma runs_top s : 0 < s -> s <= pred n -> runs (fun p => negb (at_eof p) = true /\ le s p) (top n) (fun _ => le (pred s)).
Proof.
  intros H0 Hs. unfold top. apply runs_look. intros [].
  { apply (runs_pre _ (le s)); [runs|]. by intros p [[_ H] _]. }
  apply (runs_pre _ (on s)).
  2: { intros p [[H1 H2] H3]. split; [|done]. apply negb_true_iff in H1. unfold at_eof, at_, peek_kind, on_line in *.
       destruct (peek p) as [t|]; [|done]. apply negb_true_iff, bool_decide_eq_false. intros Hk. cbn in H3.
       rewrite Hk in H3. by apply bool_decide_eq_false in H3. }
  apply runs_forget. intros t.
  assert (He : runs (on s) (error "a definition, `site`, or `import`" "at the top of the file") (fun _ => le (pred s)))
    by (eapply runs_pre; [apply (runs_error s (pred s)); lia|apply on_cap]).
  apply (runs_then _ _ _ (fun _ => le (pred s))); [|intros ?; runs|tells].
  destruct t as [t|]; [|exact He].
  repeat match goal with
  | |- runs _ (if ?b then _ else _) _ => destruct b; [apply (runs_pre _ (le s)); [runs|apply on_le]|]
  end. exact He.
Qed.

Lemma runs_version s : runs (le s) version (fun _ => le s).
Proof. unfold version, version_number. runs. Qed.

Lemma runs_opened {A} k s (m : PM A) Q : runs (le s) m Q -> runs (le s) (do! act_on (fun p => set_builder (p_builder p ++ [BStart k]) p) in m) Q.
Proof.
  intros Hm p Hc Hp. pose proof (view_builder (p_builder p ++ [BStart k]) _ _ (view_refl p)) as Hv.
  apply (Hm (set_builder (p_builder p ++ [BStart k]) p)); [by eapply view_calm|by eapply ahead_le].
Qed.

Lemma keeps_finish : keeps said finish.
Proof. intros p. by apply said_same. Qed.

Lemma runs_finish s : runs (le s) finish (fun _ _ => True).
Proof. intros p Hc Hp. right. exists tt. split; [done|]. split; [|done]. exact Hc. Qed.

Lemma runs_file s : s <= pred n -> runs (le s) (file_ n) (fun _ _ => True).
Proof.
  intros Hs. unfold file_. apply runs_opened. eapply runs_then; [apply runs_version| |intros ?].
  2: { apply keeps_then; [typeclasses eauto|tells|intros ?]. apply keeps_then; [typeclasses eauto|tells|intros ?].
       apply keeps_finish. }
  intros ?. eapply runs_then; [apply runs_while_when; [|intros p H; by apply negb_true_iff in H|tells|]| |intros ?].
  - lia.
  - intros s' Hs'. apply runs_top; lia.
  - intros ?. eapply runs_then; [apply runs_eat_trivia|intros ?; apply runs_finish|intros ?; apply keeps_finish].
  - apply keeps_then; [typeclasses eauto|tells|intros ?; apply keeps_finish].
Qed.
End File.

(** C33. More fuel than the source has bytes is enough: the parser answers, or a body was left
    open before a top-level keyword; and the lexer answers, unless the source ends in a
    backslash. *)
Theorem parse_answers fuel src file :
  String.length src < fuel ->
  match parse fuel src file with
  | Some (p, r) => r = Ok tt \/ unclosed p
  | None => exists t, src = t +:+ String c_backslash EmptyString
  end.
Proof.
  intros Hf. unfold parse. destruct (lex src) as [ts|] eqn:Hl; [|by apply lex_answers].
  change (let '(p, r) := file_ fuel (new_parser ts src file) in r = Ok tt \/ unclosed p).
  assert (Hr : le (String.length src) (new_parser ts src file)).
  { unfold le. etrans; [apply rest_tokens|]. apply lex_is_lossless in Hl as [<- Hl]. by apply tokens_bound. }
  assert (Hn : 0 < fuel) by lia. assert (Hs : String.length src <= pred fuel) by lia.
  assert (Hc : calm (new_parser ts src file)) by done.
  pose proof (runs_file (U := by_unclosed) fuel Hn _ Hs _ Hc Hr) as Ha. destruct (file_ fuel (new_parser ts src file)) as [p r].
  destruct Ha as [Hu|([] & He & _)]; cbn in *; [by right|by left].
Qed.

Lemma parse_answers_witness :
  String.length damaged < 80 /\ match parse 80 damaged "f" with
  | Some (p, r) => r = Ok tt \/ unclosed p
  | None => exists t, damaged = t +:+ String c_backslash EmptyString
  end.
Proof. split; [vm_compute; lia|]. apply parse_answers. vm_compute. lia. Defined.

(** The same of the text of an interpolation: an expression has no body to leave open. *)
Lemma parse_expr_answers fuel src :
  S (String.length src) < fuel ->
  match parse_expr fuel src with
  | Some (p, r) => exists b, r = Ok b
  | None => exists t, src = t +:+ String c_backslash EmptyString
  end.
Proof.
  intros Hf. unfold parse_expr. destruct (lex src) as [ts|] eqn:Hl; [|by apply lex_answers]. cbn [mbind option_bind].
  set (m := mthen _ _). assert (Hm : runs (U := by_nothing) (le (String.length src)) m (fun _ _ => True)).
  { apply runs_opened. eapply runs_then; [apply runs_rule; [done|done|lia]| |intros ?; tells; by apply keeps_finish]; intros ?.
    eapply runs_then; [apply runs_eat_trivia| |intros ?; tells; by apply keeps_finish]; intros ?.
    apply runs_look. intros b. eapply runs_then; [apply (runs_pre _ (le (String.length src))); [apply runs_finish|by intros p [H _]]| |intros ?; tells; by apply keeps_finish].
    intros ?. apply runs_look. intros said_. by apply runs_ret. }
  destruct (Hm (new_parser ts src EmptyString)) as [[]|(b & Hb & _)]; [done| |].
  - unfold le. etrans; [apply rest_tokens|]. apply lex_is_lossless in Hl as [<- Hl]. by apply tokens_bound.
  - change (let '(p, r) := m (new_parser ts src EmptyString) in exists b, r = Ok b).
    destruct (m (new_parser ts src EmptyString)) as [p r]. by exists b.
Qed.

(** ** A source on which the parser never answers

    The open body before [defop] quiets the line, [5] is an error that is not said and
    consumes nothing, and the loop at the top of the file comes back to where it was. *)

Definition stalling : string := concats ["rescind 0"; newline; "site do"; newline; "defop 5"].

(** The state after a number of turns of the loop at the top of the file. *)
Definition after_turns (turns : nat) : Parser :=
  match lex stalling with
  | Some ts =>
      let p := fst (version (set_builder [BStart FILE] (new_parser ts stalling EmptyString))) in
      Nat.iter turns (fun p => fst (top 8 p)) p
  | None => new_parser [] EmptyString EmptyString
  end.

Lemma turns_start : exists ts, lex stalling = Some ts
  /\ version (set_builder [BStart FILE] (new_parser ts stalling EmptyString)) = (after_turns 0, Ok tt).
Proof. exists (match lex stalling with Some ts => ts | None => [] end). split; vm_compute; reflexivity. Qed.

Lemma first_turn m : top (5 + m) (after_turns 0) = (after_turns 1, Ok tt).
Proof. lazy. reflexivity. Qed.

Lemma second_turn m : top (5 + m) (after_turns 1) = (after_turns 2, Ok tt).
Proof. lazy. reflexivity. Qed.

Lemma no_turn m : top (5 + m) (after_turns 2) = (after_turns 2, Ok tt).
Proof. lazy. reflexivity. Qed.

Lemma while_stays c m p : c p = true -> m p = (p, Ok tt) -> forall n, while_ n c m p = (p, Err starved).
Proof. intros Hc Hm n. induction n as [|n IH]; [done|]. cbn [while_]. rewrite Hc. unfold mthen. by rewrite Hm. Qed.

Lemma while_turn c m p q n : c p = true -> m p = (q, Ok tt) -> while_ (S n) c m p = while_ n c m q.
Proof. intros Hc Hm. cbn [while_]. rewrite Hc. unfold mthen. by rewrite Hm. Qed.

Lemma file_stalls m ts :
  version (set_builder [BStart FILE] (new_parser ts stalling EmptyString)) = (after_turns 0, Ok tt) ->
  file_ (5 + m) (new_parser ts stalling EmptyString) = (after_turns 2, Err starved).
Proof.
  intros Hv. unfold file_, act_on at 1, mthen. change (p_builder (new_parser ts stalling EmptyString) ++ [BStart FILE]) with [BStart FILE].
  rewrite Hv. change (5 + m) with (S (S (3 + m))) at 1.
  rewrite (while_turn _ _ _ (after_turns 1)); [|vm_compute; reflexivity|apply first_turn].
  rewrite (while_turn _ _ _ (after_turns 2)); [|vm_compute; reflexivity|apply second_turn].
  rewrite while_stays; [done|vm_compute; reflexivity|apply no_turn].
Qed.

(** No fuel is enough for a source of three lines: the parser stands before its last token
    for ever. *)
Theorem parse_can_stall fuel : exists p, parse fuel stalling EmptyString = Some (p, Err starved).
Proof.
  destruct (decide (fuel < 5)) as [Hf|Hf].
  - do 5 (destruct fuel as [|fuel]; [eexists; vm_compute; reflexivity|]). lia.
  - replace fuel with (5 + (fuel - 5)) by lia. destruct turns_start as (ts & Hl & Hv). exists (after_turns 2).
    unfold parse. rewrite Hl. change (Some (file_ (5 + (fuel - 5)) (new_parser ts stalling EmptyString))
      = Some (after_turns 2, Err starved)). f_equal. by apply file_stalls.
Qed.
