(* ===== verification/Fmt.v ===== *)
(** * The formatter ([surface/src/fmt.rs], [surface/src/lib.rs])

    The canonical layout of a text that parsed clean. What is shown: apart from spaces, tabs
    and line ends it is the text that was read, every character in its place. *)

From Stdlib Require Import Ascii.
From stdpp Require Import base strings list.
From S2P Require Import Prelude Monad Utf8 Diagnostics Lexer Parser Tree ParserLogic.

(** A token of a line: its kind and text, the kind of its node, and whether it is a unary
    minus. *)
Record Laid := mkLaid {
  l_kind : SyntaxKind;
  l_text : string;
  l_parent : option SyntaxKind;
  l_unary : bool;
}.

Record FmtState := mkFmtState {
  f_out : string;
  f_line : list Laid;
  f_depth : nat;
  f_comment : option string;
}.

(** Whether one space separates two adjacent tokens on a line. *)
Definition space_between (prev : SyntaxKind) (prev_parent : option SyntaxKind) (next : SyntaxKind)
    (next_parent : option SyntaxKind) : bool :=
  let after_prev :=
    match prev with
    | L_PAREN | L_BRACK | L_BRACE | PERCENT_BRACE | DOT => false
    | MINUS => negb (prev_parent == Some UNARY)
    | _ => true
    end in
  match next with
  | COMMA | R_PAREN | R_BRACK | R_BRACE | DOT => false
  | COLON => false
  | L_PAREN => if next_parent == Some CALL then false else after_prev
  | _ => after_prev
  end.

Definition indent (depth : nat) : string := concats (replicate depth "  ").

(** The tokens of a line with the spaces between them. *)
Fixpoint lay_line (prev : option (SyntaxKind * option SyntaxKind)) (line : list Laid) : string :=
  match line with
  | [] => EmptyString
  | t :: r =>
      let space :=
        match prev with
        | Some (pk, pp) => if space_between pk pp (l_kind t) (l_parent t) then " " else ""
        | None => ""
        end in
      space +:+ l_text t +:+ lay_line (Some (l_kind t, if l_unary t then Some UNARY else l_parent t)) r
  end.

Definition named_in (names : list string) (t : option Laid) : bool :=
  match t with
  | Some t => (l_kind t == NAME) && existsb (fun n => l_text t == n) names
  | None => false
  end.

(** The line goes out, and opens or closes a block. *)
Definition flush (s : FmtState) : FmtState :=
  let first := head (f_line s) in
  let closes := named_in ["end"; "else"] first in
  let opens := named_in ["do"] (last (f_line s)) in
  let indent_depth := if closes then f_depth s - 1 else f_depth s in
  let text :=
    match f_line s with
    | _ :: _ =>
        indent indent_depth +:+ lay_line None (f_line s)
        +:+ match f_comment s with Some c => "   " +:+ c | None => "" end
    | [] => match f_comment s with Some c => indent (f_depth s) +:+ c | None => "" end
    end in
  let depth := if closes && named_in ["end"] first then f_depth s - 1 else f_depth s in
  mkFmtState (f_out s +:+ text +:+ newline) [] (if opens then S depth else depth) None.

(** A token of the tree, with the kind of the node it stands in. *)
Definition format_token (s : FmtState) (t : Token * option SyntaxKind) : FmtState :=
  let '(tok, parent) := t in
  match tok_kind tok with
  | WHITESPACE => s
  | COMMENT => mkFmtState (f_out s) (f_line s) (f_depth s) (Some (tok_text tok))
  | NEWLINE => flush s
  | k =>
      let unary_minus := (k == MINUS) && (parent == Some UNARY) in
      mkFmtState (f_out s) (f_line s ++ [mkLaid k (tok_text tok) parent unary_minus]) (f_depth s) (f_comment s)
  end.

(** [descendants_with_tokens], the tokens only. *)
Fixpoint leaf_tokens (parent : option SyntaxKind) (g : Green) : list (Token * option SyntaxKind) :=
  match g with
  | GToken t => [(t, parent)]
  | GNode k cs => flat_map (leaf_tokens (Some k)) cs
  end.

Definition fmt_start : FmtState := mkFmtState EmptyString [] 0 None.

Definition format_tree (root : Green) : string :=
  let s := foldl format_token fmt_start (leaf_tokens None root) in
  f_out (match f_line s, f_comment s with [], None => s | _, _ => flush s end).

(** [surface::format]: the text, or the diagnostics of a text that did not parse clean.
    [None] is a panic, of the lexer or of the builder. *)
Definition format (fuel : nat) (src file : string) : option (Result (Result string (list SpanDiagnostic)) Starved) :=
  '(p, r) ← parse fuel src file;
  match r with
  | Err e => Some (Err e)
  | Ok _ =>
      root ← root_of (p_builder p);
      Some (Ok (match p_diagnostics p with [] => Ok (format_tree root) | ds => Err ds end))
  end.

(** ** What is written *)

(** A text without spaces, tabs and line ends. *)
Definition blank_char (c : ascii) : bool := (c == " "%char) || (c == c_tab) || (c == c_lf) || (c == c_cr).

Fixpoint ink (s : string) : string :=
  match s with
  | EmptyString => EmptyString
  | String c r => if blank_char c then ink r else String c (ink r)
  end.

Lemma ink_app a b : ink (a +:+ b) = ink a +:+ ink b.
Proof.
  induction a as [|c a IH]; [done|]. rewrite append_cons. cbn [ink]. destruct (blank_char c); [done|].
  by rewrite append_cons, IH.
Qed.

Lemma ink_indent n : ink (indent n) = EmptyString.
Proof. unfold indent. induction n as [|n IH]; [done|]. cbn [replicate]. by rewrite concat_empty_cons, ink_app, IH. Qed.

Definition laid_ink (line : list Laid) : string := concats (map (fun t => ink (l_text t)) line).

Lemma lay_line_ink line : forall prev, ink (lay_line prev line) = laid_ink line.
Proof.
  induction line as [|t line IH]; intros prev; [done|]. cbn [lay_line]. rewrite !ink_app, IH.
  unfold laid_ink. cbn [map]. rewrite concat_empty_cons. destruct prev as [[pk pp]|]; [|done].
  by destruct (space_between _ _ _ _).
Qed.

Definition comment_ink (c : option string) : string := match c with Some c => ink c | None => EmptyString end.

(** What was read so far. *)
Definition held (s : FmtState) : string := ink (f_out s) +:+ laid_ink (f_line s) +:+ comment_ink (f_comment s).

Lemma flush_ink s : ink (f_out (flush s)) = held s.
Proof.
  unfold flush, held. cbn [f_out]. rewrite !ink_app. f_equal. change (ink newline) with EmptyString. rewrite app_nil_s.
  destruct (f_line s) as [|t line] eqn:Hl.
  - destruct (f_comment s); [|done]. by rewrite ink_app, ink_indent.
  - rewrite !ink_app, ink_indent, lay_line_ink. destruct (f_comment s); [|done]. by rewrite ink_app.
Qed.

Lemma flush_held s : held (flush s) = held s.
Proof.
  rewrite <- (flush_ink s). change (held (flush s)) with (ink (f_out (flush s)) +:+ EmptyString). by rewrite app_nil_s.
Qed.

(** ** What the lexer says of blanks and comments *)

(** A comment runs to the end of its line, and the tokens of white space are blank. *)
Fixpoint well_spaced (ts : list Token) : Prop :=
  match ts with
  | [] => True
  | t :: r =>
      match tok_kind t with
      | COMMENT => match r with u :: _ => tok_kind u = NEWLINE | [] => True end
      | WHITESPACE | NEWLINE => ink (tok_text t) = EmptyString
      | _ => True
      end /\ well_spaced r
  end.

Lemma take_run_blank f s : (forall c, f c = true -> blank_char c = true) -> ink (str_take (run_of f s) s) = EmptyString.
Proof.
  intros Hf. induction s as [|c s IH]; [done|]. cbn [run_of]. destruct (f c) eqn:Hc; [|done].
  cbn [str_take ink]. by rewrite (Hf _ Hc).
Qed.

(** What the pattern of a kind says of its match. *)
Lemma pattern_of k m : (k, m) ∈ patterns -> match k with
  | WHITESPACE => m = m_whitespace | NEWLINE => m = m_newline | COMMENT => m = m_comment | _ => True end.
Proof.
  unfold patterns. intros Hin. repeat (apply elem_of_cons in Hin as [Hin|Hin]; [injection Hin as -> ->; done|]). by apply not_elem_of_nil in Hin.
Qed.

Lemma next_token_kind s k n : next_token s = (k, n) -> match k with
  | WHITESPACE => m_whitespace s = Some n | NEWLINE => m_newline s = Some n | COMMENT => m_comment s = Some n | _ => True end.
Proof.
  intros [(m & _ & -> & _)|[[Hl _]|(_ & -> & _)]]%next_token_cases; [done| |done].
  apply longest_match in Hl as (m & Hin%pattern_of & Hm). by destruct k; subst.
Qed.

Lemma newline_ink s n : m_newline s = Some n -> ink (str_take n s) = EmptyString.
Proof.
  destruct s as [|c r]; [done|]. cbn [m_newline]. case_bool_decide as Hc; [intros [= <-]; by subst|].
  destruct ((c == c_cr) && first_is (fun d => d == c_lf) r) eqn:Hcr; [|done]. intros [= <-].
  apply andb_true_iff in Hcr as [H1 H2]. apply bool_decide_eq_true in H1 as ->.
  destruct r as [|d r]; [done|]. cbn in H2. apply bool_decide_eq_true in H2 as ->. done.
Qed.

Lemma whitespace_ink s n : m_whitespace s = Some n -> ink (str_take n s) = EmptyString.
Proof.
  unfold m_whitespace, some_of. intros H. set (f := fun c => _) in H.
  assert (Hn : n = run_of f s) by (destruct (run_of f s); by inversion H). subst n. apply take_run_blank.
  intros c [Hc|Hc]%orb_true_iff; apply bool_decide_eq_true in Hc as ->; done.
Qed.

(** After a comment comes a line feed, or nothing. *)
Lemma comment_stops s n : m_comment s = Some n -> str_drop n s = EmptyString \/ exists r, str_drop n s = String c_lf r.
Proof.
  destruct s as [|c r]; [done|]. cbn [m_comment]. case_bool_decide; [|done]. intros [= <-]. cbn [str_drop].
  destruct (run_of_stop (fun d => d != c_lf) r) as [Hs|Hs]; [right|by left].
  destruct (str_drop _ r) as [|d r']; [done|]. exists r'. cbn in Hs. rewrite negb_involutive in Hs.
  by apply bool_decide_eq_true in Hs as ->.
Qed.

Lemma next_token_lf r : next_token (String c_lf r) = (NEWLINE, 1).
Proof. destruct r; lazy; reflexivity. Qed.

Lemma lex_loop_spaced fuel : forall s ts, lex_loop fuel s = Some ts -> well_spaced ts.
Proof.
  induction fuel as [|fuel IH]; intros s ts; (destruct s as [|c s]; [intros [= <-]; done|]); [discriminate|]. cbn [lex_loop].
  destruct (next_token (String c s)) as [k n] eqn:Hn. destruct (_ <? _)%nat; [done|].
  destruct (lex_loop fuel (str_drop n (String c s))) as [r|] eqn:Hr; [|done]. intros [= <-]. cbn [well_spaced tok_kind tok_text].
  split; [|by eapply IH]. apply next_token_kind in Hn. destruct k; try done.
  - by apply whitespace_ink.
  - by apply newline_ink.
  - destruct r as [|u r]; [done|]. apply comment_stops in Hn as [Hd|[r' Hd]]; rewrite Hd in Hr.
    + by destruct fuel.
    + destruct fuel; [done|]. cbn [lex_loop] in Hr. rewrite next_token_lf in Hr. destruct (_ <? _)%nat; [done|].
      destruct (lex_loop fuel _); [|done]. by injection Hr as <- _.
Qed.

(** ** The whole text *)

Definition tokens_ink (ts : list Token) : string := concats (map (fun t => ink (tok_text t)) ts).

Lemma laid_ink_snoc line t : laid_ink (line ++ [t]) = laid_ink line +:+ ink (l_text t).
Proof.
  unfold laid_ink. induction line as [|u line IH]; [done|].
  cbn [app map]. by rewrite !concat_empty_cons, IH, app_assoc_s.
Qed.

(** A comment that waits for its line end has it next. *)
Definition comment_next (s : FmtState) (ts : list (Token * option SyntaxKind)) : Prop :=
  match f_comment s, ts with
  | Some _, t :: _ => tok_kind (fst t) = NEWLINE
  | _, _ => True
  end.

Lemma no_comment s ts t : comment_next s (t :: ts) -> tok_kind (fst t) <> NEWLINE -> f_comment s = None.
Proof. unfold comment_next. by destruct (f_comment s). Qed.

Lemma held_comment s c : f_comment s = None -> held (mkFmtState (f_out s) (f_line s) (f_depth s) (Some c)) = held s +:+ ink c.
Proof. intros Hn. unfold held. cbn [f_out f_line f_comment comment_ink]. rewrite Hn. cbn [comment_ink]. by str_norm. Qed.

Lemma held_laid s t :
  f_comment s = None -> held (mkFmtState (f_out s) (f_line s ++ [t]) (f_depth s) (f_comment s)) = held s +:+ ink (l_text t).
Proof.
  intros Hn. unfold held. cbn [f_out f_line f_comment]. rewrite Hn, laid_ink_snoc. cbn [comment_ink]. by str_norm.
Qed.

Lemma format_token_held s t ts :
  comment_next s (t :: ts) -> well_spaced (map fst (t :: ts)) ->
  held (format_token s t) = held s +:+ ink (tok_text (fst t)) /\ comment_next (format_token s t) ts.
Proof.
  intros Hc [Ht _]. destruct t as [tok parent]. cbn [fst map] in *. pose proof (no_comment _ _ _ Hc) as Hn. cbn [fst] in Hn.
  unfold format_token. destruct (tok_kind tok) eqn:Hk;
    try (specialize (Hn ltac:(discriminate)); split; [by rewrite held_laid|unfold comment_next; by rewrite Hn]).
  - specialize (Hn ltac:(discriminate)). split; [by rewrite Ht, app_nil_s|unfold comment_next; by rewrite Hn].
  - rewrite Ht, app_nil_s. split; [apply flush_held|done].
  - specialize (Hn ltac:(discriminate)). split; [by apply held_comment|]. unfold comment_next. cbn [f_comment].
    by destruct ts as [|[u pu] ts].
Qed.

Lemma format_tokens_held ts : forall s,
  comment_next s ts -> well_spaced (map fst ts) ->
  held (foldl format_token s ts) = held s +:+ tokens_ink (map fst ts).
Proof.
  induction ts as [|t ts IH]; intros s Hc Hw; [by rewrite app_nil_s|]. cbn [foldl].
  destruct (format_token_held s t ts Hc Hw) as [Hh Hc']. destruct Hw as [_ Hw].
  rewrite (IH _ Hc' Hw), Hh. unfold tokens_ink. cbn [map]. by rewrite concat_empty_cons, app_assoc_s.
Qed.

Lemma concats_ink ts : ink (concats (map tok_text ts)) = tokens_ink ts.
Proof. induction ts as [|t ts IH]; [done|]. cbn [map]. rewrite !concat_empty_cons, ink_app, IH. unfold tokens_ink. cbn [map]. by rewrite concat_empty_cons. Qed.

Lemma format_tree_ink root :
  well_spaced (map fst (leaf_tokens None root)) ->
  ink (format_tree root) = tokens_ink (map fst (leaf_tokens None root)).
Proof.
  intros Hw. unfold format_tree. pose proof (format_tokens_held (leaf_tokens None root) fmt_start I Hw) as Hh.
  set (s := foldl _ _ _) in *. change (held fmt_start) with EmptyString in Hh. rewrite nil_app_s in Hh. rewrite <- Hh.
  destruct (f_line s) eqn:Hl; [|apply flush_ink]. destruct (f_comment s) eqn:Hc; [apply flush_ink|].
  unfold held. rewrite Hl, Hc. cbn. by rewrite app_nil_s.
Qed.

Lemma builds_leaves l gs : builds l gs -> forall k, map fst (flat_map (leaf_tokens k) gs) = tokens_of l.
Proof.
  induction 1 as [|t l gs _ IH|j l l' cs gs _ IH1 _ IH2]; intros k; [done|..].
  - change (tokens_of (BToken t :: l)) with (t :: tokens_of l). cbn [flat_map leaf_tokens app map fst]. by rewrite IH.
  - change (BStart j :: l ++ BFinish :: l') with ([BStart j] ++ l ++ [BFinish] ++ l'). rewrite !tokens_of_app.
    change (tokens_of [BStart j]) with (@nil Token). change (tokens_of [BFinish]) with (@nil Token).
    cbn [flat_map leaf_tokens app]. by rewrite map_app, IH1, IH2.
Qed.

(** C34. What is formatted is the text that was read: apart from spaces, tabs and line ends every
    character is there, in its place. *)
Theorem format_keeps_the_text fuel src file out :
  format fuel src file = Some (Ok (Ok out)) -> ink out = ink src.
Proof.
  unfold format, parse. destruct (lex src) as [ts|] eqn:Hl; [|done].
  change ((match file_ fuel (new_parser ts src file) with
           | (p, r) => match r with
                       | Err e => Some (Err e)
                       | Ok _ => root ← root_of (p_builder p);
                           Some (Ok (match p_diagnostics p with [] => Ok (format_tree root) | ds => Err ds end))
                       end
           end) = Some (Ok (Ok out)) -> ink out = ink src).
  destruct (file_ fuel _) as [p [[]|]] eqn:Hf; [|done]. apply file_builds in Hf as (cs & Hb & Ht); [|done..].
  rewrite (builds_root _ _ Hb). cbn [mbind option_bind]. destruct (p_diagnostics p); [|done]. intros [= <-].
  assert (Hleaf : map fst (leaf_tokens None (GNode FILE cs)) = ts).
  { pose proof (builds_leaves _ _ Hb None) as H. cbn [flat_map] in H. by rewrite app_nil_r, Ht in H. }
  rewrite format_tree_ink; rewrite Hleaf; [|by eapply lex_loop_spaced].
  apply lex_is_lossless in Hl as [Hl _]. by rewrite <- Hl, concats_ink.
Qed.

Definition unformatted : string := concats ["rescind  0"; newline; "site   do # here"; newline; "hosts  ( a ,b )"; newline; "  end"; newline].

Example format_ex :
  format 80 unformatted "f" =
  Some (Ok (Ok (concats ["rescind 0"; newline; "site do   # here"; newline; "  hosts(a, b)"; newline; "end"; newline]))).
Proof. vm_compute. reflexivity. Qed.

Lemma format_keeps_the_text_witness :
  ink (concats ["rescind 0"; newline; "site do   # here"; newline; "  hosts(a, b)"; newline; "end"; newline]) = ink unformatted.
Proof. apply (format_keeps_the_text 80 unformatted "f"). vm_compute. reflexivity. Defined.
