(* ===== verification/Ast.v ===== *)
(** * The tree as data ([surface/src/ast.rs])

    Lowering from the tree to plain structures. It never fails: what did not parse lowers to
    what did. The functions call each other on the children of a node, so [fuel] is a number
    of levels; [lower] gives as many as the tree has, and more change nothing. *)

From Stdlib Require Import Ascii.
From stdpp Require Import base strings list.
From S2P Require Import Prelude Lexer Parser Tree.

(** ** The structures *)

Inductive Lit :=
| LitInt (n : N)
| LitFloat (text : string)
| LitStr (raw : string)
| LitAtom (name : string)
| LitDuration (seconds : N)
| LitBool (b : bool).

Inductive Expr :=
| XLit (range : TextRange) (lit : Lit)
| XRef (range : TextRange) (path : list string)
| XCall (range : TextRange) (path : list string) (args : list Arg)
| XBinary (range : TextRange) (op : string) (lhs rhs : Expr)
| XUnary (range : TextRange) (op : string) (expr : Expr)
| XParen (range : TextRange) (expr : Expr)
| XList (range : TextRange) (items : list Arg)
| XRecord (range : TextRange) (entries : list Kw)
| XError (range : TextRange)
with Arg :=
| AKw (k : Kw)
| AExpr (e : Expr)
with Kw :=
| mkKw (range : TextRange) (name : string) (value : Arg).

Definition kw_range (k : Kw) : TextRange := let '(mkKw r _ _) := k in r.
Definition kw_name (k : Kw) : string := let '(mkKw _ n _) := k in n.
Definition kw_value (k : Kw) : Arg := let '(mkKw _ _ v) := k in v.

(** Induction on expressions, arguments included. *)
Section ExprInduction.
Variables (P : Expr -> Prop) (Q : Arg -> Prop).
Hypothesis Hlit : forall r l, P (XLit r l).
Hypothesis Href : forall r p, P (XRef r p).
Hypothesis Hcall : forall r p l, Forall Q l -> P (XCall r p l).
Hypothesis Hbinary : forall r o x y, P x -> P y -> P (XBinary r o x y).
Hypothesis Hunary : forall r o x, P x -> P (XUnary r o x).
Hypothesis Hparen : forall r x, P x -> P (XParen r x).
Hypothesis Hlist : forall r l, Forall Q l -> P (XList r l).
Hypothesis Hrecord : forall r l, Forall (fun k => Q (kw_value k)) l -> P (XRecord r l).
Hypothesis Herror : forall r, P (XError r).
Hypothesis Hkw : forall r n v, Q v -> Q (AKw (mkKw r n v)).
Hypothesis Hexpr : forall e, P e -> Q (AExpr e).

Fixpoint expr_induction (e : Expr) : P e :=
  let args := fix args (l : list Arg) : Forall Q l :=
    match l with [] => Forall_nil_2 Q | a :: r => Forall_cons_2 Q a r (arg_induction a) (args r) end in
  match e with
  | XLit r l => Hlit r l
  | XRef r p => Href r p
  | XCall r p l => Hcall r p l (args l)
  | XBinary r o x y => Hbinary r o x y (expr_induction x) (expr_induction y)
  | XUnary r o x => Hunary r o x (expr_induction x)
  | XParen r x => Hparen r x (expr_induction x)
  | XList r l => Hlist r l (args l)
  | XRecord r l =>
      Hrecord r l ((fix kws (l : list Kw) : Forall (fun k => Q (kw_value k)) l :=
        match l with
        | [] => Forall_nil_2 _
        | mkKw r n v :: t => Forall_cons_2 _ (mkKw r n v) t (arg_induction v) (kws t)
        end) l)
  | XError r => Herror r
  end
with arg_induction (a : Arg) : Q a :=
  match a with
  | AKw (mkKw r n v) => Hkw r n v (arg_induction v)
  | AExpr e => Hexpr e (expr_induction e)
  end.
End ExprInduction.

Definition expr_range (e : Expr) : TextRange :=
  match e with
  | XLit r _ | XRef r _ | XCall r _ _ | XBinary r _ _ _ | XUnary r _ _ | XParen r _ | XList r _ | XRecord r _ | XError r => r
  end.

Definition arg_range (a : Arg) : TextRange := match a with AKw k => kw_range k | AExpr e => expr_range e end.

Record Line := mkLine { line_range : TextRange; line_keyword : string; line_args : list Arg }.

Record Step := mkStep { step_range : TextRange; step_call : Expr; step_kws : list Kw; step_alias : option string }.

Record Import := mkImport { import_range : TextRange; import_path : string; import_alias : option string }.

Record Pattern := mkPattern { pat_range : TextRange; pat_expr : Expr; pat_capture : option string }.

Inductive Stmt :=
| SLine (l : Line)
| SBlock (b : Block)
| SDef (d : Def)
| SImport (i : Import)
| SStep (s : Step)
| SPipeline (steps : list Step)
| SKnell (s : Step)
| SSlot (range : TextRange) (name : string)
| SObserve (range : TextRange) (call : Expr) (alias : option string)
| SAssert (range : TextRange) (args : list Arg)
| SRepeat (range : TextRange) (args : list Arg) (var : option string) (body : list Stmt)
| SWhen (range : TextRange) (args : list Arg) (then_ : list Stmt) (else_ : option (list Stmt))
| SContribution (range : TextRange) (slot : string) (priority : option N) (item : Stmt)
with Block :=
| mkBlock (range : TextRange) (keyword : string) (body : list Stmt)
with Def :=
| mkDef (range : TextRange) (keyword name : string) (name_range : TextRange) (pattern : option Pattern) (params : list Kw)
    (body : list Stmt).

Definition block_range (b : Block) : TextRange := let '(mkBlock r _ _) := b in r.
Definition block_keyword (b : Block) : string := let '(mkBlock _ k _) := b in k.
Definition block_body (b : Block) : list Stmt := let '(mkBlock _ _ b) := b in b.

Definition def_range (d : Def) : TextRange := let '(mkDef r _ _ _ _ _ _) := d in r.
Definition def_keyword (d : Def) : string := let '(mkDef _ k _ _ _ _ _) := d in k.
Definition def_name (d : Def) : string := let '(mkDef _ _ n _ _ _ _) := d in n.
Definition def_name_range (d : Def) : TextRange := let '(mkDef _ _ _ r _ _ _) := d in r.
Definition def_pattern (d : Def) : option Pattern := let '(mkDef _ _ _ _ p _ _) := d in p.
Definition def_params (d : Def) : list Kw := let '(mkDef _ _ _ _ _ ps _) := d in ps.
Definition def_body (d : Def) : list Stmt := let '(mkDef _ _ _ _ _ _ b) := d in b.

Inductive Top :=
| TSite (b : Block)
| TImport (i : Import)
| TDef (d : Def).

Record File := mkFile { file_version : option N; file_tops : list Top }.

(** ** Nodes *)

Definition elem_range (e : Elem) : TextRange := match e with ENode _ r _ | EToken _ r => r end.

(** [n.kind()] of a node; the functions below are given nodes only. *)
Definition node_kind (e : Elem) : SyntaxKind := match e with ENode k _ _ => k | EToken t _ => tok_kind t end.

Definition is_node (e : Elem) : bool := match e with ENode _ _ _ => true | EToken _ _ => false end.

(** [n.children()] *)
Definition children (n : Elem) : list Elem :=
  match n with ENode _ _ cs => List.filter is_node cs | EToken _ _ => [] end.

(** The tokens of a node that are not trivia, with their places. *)
Definition placed_tokens (n : Elem) : list (Token * TextRange) :=
  match n with
  | ENode _ _ cs => omap (fun e => match e with EToken t r => if is_trivia (tok_kind t) then None else Some (t, r) | _ => None end) cs
  | EToken _ _ => []
  end.

Definition tokens (n : Elem) : list Token := map fst (placed_tokens n).

Definition has_kind (k : SyntaxKind) (t : Token) : bool := tok_kind t == k.

Definition names (n : Elem) : list string := map tok_text (List.filter (has_kind NAME) (tokens n)).

Definition child (n : Elem) (k : SyntaxKind) : option Elem := List.find (fun c => node_kind c == k) (children n).

Definition is_expr_kind (k : SyntaxKind) : bool :=
  match k with LITERAL | REF | CALL | BINARY | UNARY | PAREN | LIST | RECORD | ERROR => true | _ => false end.

Definition is_expr (n : Elem) : bool := is_expr_kind (node_kind n).

(** The token after the first one that satisfies [f]. *)
Fixpoint token_after (f : Token -> bool) (ts : list Token) : option Token :=
  match ts with
  | t :: r => if f t then head r else token_after f r
  | [] => None
  end.

Definition first_text (n : Elem) : string := match tokens n with t :: _ => tok_text t | [] => EmptyString end.

(** The text after [as]. *)
Definition after_as (n : Elem) : option string := tok_text <$> token_after (is_name "as") (tokens n).

(** ** Texts *)

Fixpoint trim_colons (s : string) : string :=
  match s with
  | String c r => if c == ":"%char then trim_colons r else s
  | EmptyString => EmptyString
  end.

Definition ends_with_quote (s : string) : bool := str_drop (Nat.pred (String.length s)) s == dquote.

Definition atom_text (text : string) : string :=
  let s := trim_colons text in
  if starts_with dquote s && ends_with_quote s && (2 <=? String.length s)%nat
  then str_take (String.length s - 2) (str_drop 1 s)
  else s.

(** The escapes of a string; a backslash at the end stands for itself. *)
Fixpoint unescape (s : string) : string :=
  match s with
  | EmptyString => EmptyString
  | String c r =>
      if c == c_backslash then
        match r with
        | String d r' =>
            String (if d == "n"%char then c_lf else if d == "t"%char then c_tab else d) (unescape r')
        | EmptyString => String c_backslash EmptyString
        end
      else String c (unescape r)
  end.

Definition unquote (raw : string) : string :=
  let inner := if starts_with dquote raw then str_drop 1 raw else raw in
  let inner := if ends_with_quote inner then str_take (Nat.pred (String.length inner)) inner else inner in
  unescape inner.

(** [text.parse::<u64>()] of a text without a sign. *)
Fixpoint digits_from (acc : N) (s : string) : option N :=
  match s with
  | EmptyString => Some acc
  | String c r => if digit c then digits_from (acc * 10 + (N_of_ascii c - 48)) r else None
  end.

Definition parse_u64 (s : string) : option N :=
  match s with
  | EmptyString => None
  | _ => n ← digits_from 0 s; if (n <? 2 ^ 64)%N then Some n else None
  end.

(** [30m] as seconds. *)
Definition duration_seconds (text : string) : N :=
  let k := run_of digit text in
  let n := match parse_u64 (str_take k text) with Some n => n | None => 0%N end in
  let unit_ := str_drop k text in
  if unit_ == "ms" then (n / 1000)%N
  else if unit_ == "s" then n
  else if unit_ == "m" then wrap64 (n * 60)
  else if unit_ == "h" then wrap64 (n * 3600)
  else if unit_ == "d" then wrap64 (n * 86400)
  else n.

(** ** Lowering *)

Definition literal (n : Elem) : Lit :=
  match tokens n with
  | t :: _ =>
      match tok_kind t with
      | INT => LitInt (match parse_u64 (tok_text t) with Some n => n | None => 2 ^ 64 - 1 end)%N
      | FLOAT => LitFloat (tok_text t)
      | STRING => LitStr (tok_text t)
      | ATOM => LitAtom (atom_text (tok_text t))
      | DURATION => LitDuration (duration_seconds (tok_text t))
      | NAME => LitBool (tok_text t == "true")
      | _ => LitStr EmptyString
      end
  | [] => LitStr EmptyString
  end.

Definition is_path_token (t : Token) : bool := match tok_kind t with NAME | UPPER_NAME => true | _ => false end.

(** A keyword or an expression among the children. *)
Definition arg_of (expr : Elem -> Expr) (kw : Elem -> Kw) (c : Elem) : option Arg :=
  if node_kind c == KW then Some (AKw (kw c)) else if is_expr c then Some (AExpr (expr c)) else None.

Definition first_expr (expr : Elem -> Expr) (n : Elem) : Expr :=
  match List.find is_expr (children n) with Some c => expr c | None => XError (elem_range n) end.

Definition default_to {A B} (d : B) (f : A -> B) (x : option A) : B := match x with Some x => f x | None => d end.

(** An expression; [args] is a node [ARGS]. *)
Fixpoint expr (fuel : nat) (n : Elem) : Expr :=
  let range := elem_range n in
  match fuel with
  | O => XError range
  | S fuel =>
      match node_kind n with
      | LITERAL => XLit range (literal n)
      | REF => XRef range (map tok_text (List.filter is_path_token (tokens n)))
      | CALL => XCall range (default_to [] names (child n REF)) (default_to [] (args fuel) (child n ARGS))
      | BINARY =>
          let operands := map (expr fuel) (List.filter is_expr (children n)) in
          XBinary range (first_text n) (default_to (XError range) id (operands !! 0)) (default_to (XError range) id (operands !! 1))
      | UNARY => XUnary range (first_text n) (first_expr (expr fuel) n)
      | PAREN => XParen range (first_expr (expr fuel) n)
      | LIST => XList range (omap (arg_of (expr fuel) (kw fuel)) (children n))
      | RECORD => XRecord range (map (kw fuel) (List.filter (fun c => node_kind c == RECORD_ENTRY) (children n)))
      | _ => XError range
      end
  end
with args (fuel : nat) (n : Elem) : list Arg :=
  match fuel with
  | O => []
  | S fuel => omap (arg_of (expr fuel) (kw fuel)) (children n)
  end
with kw (fuel : nat) (n : Elem) : Kw :=
  let none := AExpr (XError (elem_range n)) in
  match fuel with
  | O => mkKw (elem_range n) (first_text n) none
  | S fuel =>
      mkKw (elem_range n) (first_text n)
        (default_to none id (head (omap (arg_of (expr fuel) (kw fuel)) (children n))))
  end.

Definition import (n : Elem) : Import :=
  mkImport (elem_range n)
    (default_to EmptyString (fun t => unquote (tok_text t)) (List.find (has_kind STRING) (tokens n)))
    (match token_after (is_name "as") (tokens n) with
     | Some t => if has_kind NAME t then Some (tok_text t) else None
     | None => None
     end).

Section Levels.
Variable fuel : nat.

Definition pattern_of (n : Elem) : Pattern :=
  mkPattern (elem_range n) (first_expr (expr fuel) n) (tok_text <$> token_after (has_kind EQ) (tokens n)).

Definition line (n : Elem) : Line :=
  mkLine (elem_range n) (first_text n) (default_to [] (args fuel) (child n ARGS)).

Definition step (n : Elem) : Step :=
  mkStep (elem_range n) (first_expr (expr fuel) n)
    (map (kw fuel) (List.filter (fun c => node_kind c == KW) (children n))) (after_as n).

(** What a header declares after its name. *)
Definition param (c : Elem) : option Kw :=
  if node_kind c == KW then Some (kw fuel c)
  else if is_expr c then Some (mkKw (elem_range c) EmptyString (AExpr (expr fuel c)))
  else None.

Definition name_of (header : option Elem) : option (Token * TextRange) :=
  h ← header; List.find (fun t => has_kind ATOM (fst t)) (placed_tokens h).

(** A definition, its body given. *)
Definition def_with (body : Elem -> list Stmt) (n : Elem) : Def :=
  let header := child n HEADER in
  let '(name, name_range) :=
    match name_of header with Some (t, r) => (atom_text (tok_text t), r) | None => (EmptyString, elem_range n) end in
  let inside := default_to [] children header in
  mkDef (elem_range n) (default_to EmptyString id (head (names n))) name name_range
    (pattern_of <$> last (List.filter (fun c => node_kind c == PATTERN) inside))
    (omap param inside)
    (default_to [] body (child n BODY)).

Definition block_with (body : Elem -> list Stmt) (n : Elem) : Block :=
  mkBlock (elem_range n) (default_to EmptyString id (head (names n))) (default_to [] body (child n BODY)).
End Levels.

Fixpoint stmt (fuel : nat) (n : Elem) : option Stmt :=
  match fuel with
  | O => None
  | S fuel =>
      let range := elem_range n in
      match node_kind n with
      | LINE => Some (SLine (line fuel n))
      | BLOCK => Some (SBlock (block_with (body fuel) n))
      | DEF => Some (SDef (def_with fuel (body fuel) n))
      | IMPORT => Some (SImport (import n))
      | STEP => Some (SStep (step fuel n))
      | PIPELINE => Some (SPipeline (map (step fuel) (List.filter (fun c => node_kind c == STEP) (children n))))
      | KNELL => s ← child n STEP; Some (SKnell (step fuel s))
      | SLOT => Some (SSlot range (default_to EmptyString (fun t => atom_text (tok_text t)) (List.find (has_kind ATOM) (tokens n))))
      | OBSERVE => Some (SObserve range (first_expr (expr fuel) n) (after_as n))
      | ASSERT => Some (SAssert range (default_to [] (args fuel) (child n ARGS)))
      | REPEAT =>
          Some (SRepeat range (omap (arg_of (expr fuel) (kw fuel)) (children n)) (after_as n)
                  (default_to [] (body fuel) (child n BODY)))
      | WHEN =>
          Some (SWhen range (default_to [] (args fuel) (child n ARGS))
                  (default_to [] (body fuel) (head (List.filter (fun c => node_kind c == BODY) (children n))))
                  (e ← child n ELSE_ARM; b ← child e BODY; Some (body fuel b)))
      | CONTRIBUTION =>
          item ← head (omap (stmt fuel) (children n));
          Some (SContribution range
                  (default_to EmptyString (fun t => atom_text (tok_text t)) (List.find (has_kind ATOM) (tokens n)))
                  (t ← List.find (has_kind INT) (tokens n); parse_u32 (tok_text t)) item)
      | _ => None
      end
  end
with body (fuel : nat) (n : Elem) : list Stmt :=
  match fuel with
  | O => []
  | S fuel => omap (stmt fuel) (children n)
  end.

Definition block (fuel : nat) : Elem -> Block := block_with (body fuel).
Definition def (fuel : nat) : Elem -> Def := def_with fuel (body fuel).

Definition top_of (fuel : nat) (c : Elem) : option Top :=
  match node_kind c with
  | BLOCK => Some (TSite (block fuel c))
  | IMPORT => Some (TImport (import c))
  | DEF => Some (TDef (def fuel c))
  | _ => None
  end.

Definition lower_with (fuel : nat) (root : Elem) : File :=
  let versions := List.filter (fun c => node_kind c == VERSION) (children root) in
  mkFile (v ← last versions; t ← List.find (has_kind INT) (tokens v); parse_u32 (tok_text t))
    (omap (top_of fuel) (children root)).

(** The levels of a tree. *)
Fixpoint height (e : Elem) : nat :=
  match e with
  | EToken _ _ => 0
  | ENode _ _ cs => S (foldr (fun c h => height c `max` h) 0 cs)
  end.

Definition lower (root : Elem) : File := lower_with (height root) root.
Definition lower_expr (n : Elem) : Expr := expr (height n) n.

(** ** Levels enough *)

Lemma child_height k r cs c : c ∈ cs -> height c < height (ENode k r cs).
Proof.
  intros Hin. cbn [height]. induction Hin as [c cs|c d cs _ IH]; cbn [foldr]; lia.
Qed.

Lemma children_height n c : c ∈ children n -> is_node c = true /\ height c < height n.
Proof.
  destruct n as [k r cs|t r]; [|by intros ?%elem_of_nil]. cbn [children]. intros Hin%list_elem_of_In%filter_In.
  destruct Hin as [Hin%list_elem_of_In Hc]. split; [done|by apply child_height].
Qed.

Lemma child_children n k c : child n k = Some c -> c ∈ children n.
Proof. unfold child. intros H. apply List.find_some in H as [H _]. by apply list_elem_of_In. Qed.

Lemma omap_ext_in {A B} (f g : A -> option B) (l : list A) : (forall x, x ∈ l -> f x = g x) -> omap f l = omap g l.
Proof.
  induction l as [|x l IH]; intros H; [done|]. cbn. rewrite (H x) by by left. rewrite IH by (intros; apply H; by right). done.
Qed.

(** Two functions that agree on the nodes below a height. *)
Definition agree {A} (h : nat) (f g : Elem -> A) : Prop := forall c, is_node c = true -> height c < h -> f c = g c.

Section Agree.
Context {A : Type} (n : Elem) (h : nat) (f g : Elem -> A).
Hypothesis Hn : height n <= h.
Hypothesis Hfg : agree h f g.

Lemma agree_children c : c ∈ children n -> f c = g c.
Proof. intros [H1 H2]%children_height. apply Hfg; [done|lia]. Qed.

Lemma agree_filter p : map f (List.filter p (children n)) = map g (List.filter p (children n)).
Proof. apply map_ext_in. intros c [Hc%list_elem_of_In _]%filter_In. by apply agree_children. Qed.

Lemma agree_child k d : default_to d f (child n k) = default_to d g (child n k).
Proof. destruct (child n k) as [c|] eqn:Hc; [|done]. apply child_children, agree_children in Hc. cbn. by rewrite Hc. Qed.

Lemma agree_head_filter p d : default_to d f (head (List.filter p (children n))) = default_to d g (head (List.filter p (children n))).
Proof.
  destruct (List.filter p (children n)) as [|c l] eqn:Hl; [done|]. cbn. apply agree_children.
  apply list_elem_of_In, (filter_In p). rewrite Hl. by left.
Qed.
End Agree.

Lemma agree_omap {A} n h (f g : Elem -> option A) : height n <= h -> agree h f g -> omap f (children n) = omap g (children n).
Proof. intros Hn Hfg. apply omap_ext_in. intros c. by apply (agree_children n h). Qed.

Lemma agree_mono {A} h h' (f g : Elem -> A) : h' <= h -> agree h f g -> agree h' f g.
Proof. intros Hh H c Hc Hl. apply H; [done|lia]. Qed.

Lemma agree_arg_of h e e' k k' : agree h e e' -> agree h k k' -> agree h (arg_of e k) (arg_of e' k').
Proof. intros He Hk c Hn Hc. unfold arg_of. by rewrite He, Hk. Qed.

Lemma agree_first_expr n h e e' : height n <= h -> agree h e e' -> first_expr e n = first_expr e' n.
Proof.
  intros Hn He. unfold first_expr. destruct (List.find is_expr (children n)) as [c|] eqn:Hc; [|done].
  apply List.find_some in Hc as [Hc%list_elem_of_In _]. by apply (agree_children n h).
Qed.

Lemma expr_levels f : forall g, (forall n, is_node n = true -> height n <= f -> height n <= g ->
  expr f n = expr g n /\ args f n = args g n /\ kw f n = kw g n).
Proof.
  induction f as [|f IH]; intros g n Hn Hf Hg; [destruct n; [cbn in Hf; lia|done]|].
  destruct g as [|g]; [destruct n; [cbn in Hg; lia|done]|].
  assert (He : agree (height n) (expr f) (expr g)) by (intros c Hc Hl; apply (IH g c); [done|lia|lia]).
  assert (Ha : agree (height n) (args f) (args g)) by (intros c Hc Hl; apply (IH g c); [done|lia|lia]).
  assert (Hk : agree (height n) (kw f) (kw g)) by (intros c Hc Hl; apply (IH g c); [done|lia|lia]).
  pose proof (agree_omap n (height n) _ _ (le_n _) (agree_arg_of _ _ _ _ _ He Hk)) as Hargs.
  split; [|split; cbn [args kw]; by rewrite Hargs].
  cbn [expr]. destruct (node_kind n); try done.
  - f_equal. by apply (agree_child n (height n)).
  - cbv zeta. by rewrite (agree_filter n (height n) (expr f) (expr g) (le_n _) He is_expr).
  - f_equal. by apply (agree_first_expr n (height n)).
  - f_equal. by apply (agree_first_expr n (height n)).
  - by f_equal.
  - f_equal. by apply (agree_filter n (height n)).
Qed.

(** Enough levels for every node below [h]. *)
Record levels (h f g : nat) : Prop := mkLevels {
  levels_expr : agree h (expr f) (expr g);
  levels_args : agree h (args f) (args g);
  levels_kw : agree h (kw f) (kw g);
}.

Lemma levels_enough h f g : h <= S f -> h <= S g -> levels h f g.
Proof. intros Hf Hg. split; intros c Hc Hl; apply (expr_levels f g c); (done || lia). Qed.

Section Above.
Variables h f g : nat.
Hypothesis Hl : levels h f g.

Lemma line_levels n : height n <= h -> line f n = line g n.
Proof. intros Hn. unfold line. f_equal. apply (agree_child n h); [done|apply Hl]. Qed.

Lemma step_levels n : height n <= h -> step f n = step g n.
Proof.
  intros Hn. unfold step. f_equal; [apply (agree_first_expr n h)|apply (agree_filter n h)]; (done || apply Hl).
Qed.

Lemma pattern_levels n : height n <= h -> pattern_of f n = pattern_of g n.
Proof. intros Hn. unfold pattern_of. f_equal. apply (agree_first_expr n h); (done || apply Hl). Qed.

Lemma param_levels : agree h (param f) (param g).
Proof. intros c Hc Hlt. unfold param. by rewrite (levels_kw _ _ _ Hl c Hc Hlt), (levels_expr _ _ _ Hl c Hc Hlt). Qed.

Lemma def_levels b b' n : height n <= h -> agree h b b' -> def_with f b n = def_with g b' n.
Proof.
  intros Hn Hb. unfold def_with. destruct (match name_of _ with Some (_, _) => _ | None => _ end) as [name range].
  f_equal; [| |by apply (agree_child n h)].
  - destruct (child n HEADER) as [d|] eqn:Hd; [|done]. apply child_children, children_height in Hd as [_ Hd]. cbn [default_to].
    destruct (last _) as [p|] eqn:Hp; [|done]. cbn. f_equal. apply pattern_levels.
    apply last_Some_elem_of, list_elem_of_In, filter_In in Hp as [Hp%list_elem_of_In _]. apply children_height in Hp. lia.
  - destruct (child n HEADER) as [d|] eqn:Hd; [|done]. apply child_children, children_height in Hd as [_ Hd]. cbn [default_to].
    apply (agree_omap d h); [lia|apply param_levels].
Qed.

Lemma block_levels b b' n : height n <= h -> agree h b b' -> block_with b n = block_with b' n.
Proof. intros Hn Hb. unfold block_with. f_equal. by apply (agree_child n h). Qed.
End Above.

Lemma stmt_levels f : forall g n, is_node n = true -> height n <= f -> height n <= g ->
  stmt f n = stmt g n /\ body f n = body g n.
Proof.
  induction f as [|f IH]; intros g n Hn Hf Hg; [destruct n; [cbn in Hf; lia|done]|].
  destruct g as [|g]; [destruct n; [cbn in Hg; lia|done]|].
  pose proof (levels_enough (height n) f g Hf Hg) as Hl.
  assert (Hs : agree (height n) (stmt f) (stmt g)) by (intros c Hc Hlt; apply (IH g c); [done|lia|lia]).
  assert (Hb : agree (height n) (body f) (body g)) by (intros c Hc Hlt; apply (IH g c); [done|lia|lia]).
  split; [|cbn [body]; by apply (agree_omap n (height n))]. cbn [stmt]. destruct (node_kind n); try done.
  - f_equal. f_equal. by apply (block_levels (height n)).
  - f_equal. f_equal. by apply (def_levels (height n)).
  - f_equal. f_equal. by apply (line_levels (height n)).
  - f_equal. f_equal. by apply (step_levels (height n)).
  - f_equal. f_equal. apply map_ext_in. intros c [Hc%list_elem_of_In _]%filter_In. apply children_height in Hc as [_ Hc].
    apply (step_levels (height n)); [done|lia].
  - destruct (child n STEP) as [c|] eqn:Hc; [|done]. apply child_children, children_height in Hc as [_ Hc]. cbn.
    f_equal. f_equal. apply (step_levels (height n)); [done|lia].
  - f_equal. f_equal. apply (agree_first_expr n (height n)); [done|apply Hl].
  - f_equal. f_equal. apply (agree_child n (height n)); [done|apply Hl].
  - f_equal. f_equal; [|by apply (agree_child n (height n))]. apply (agree_omap n (height n)); [done|].
    apply agree_arg_of; apply Hl.
  - f_equal. f_equal; [apply (agree_child n (height n)); [done|apply Hl]|by apply (agree_head_filter n (height n))|].
    destruct (child n ELSE_ARM) as [e|] eqn:He; [|done]. apply child_children, children_height in He as [_ He]. cbn.
    destruct (child e BODY) as [c|] eqn:Hc; [|done]. apply child_children, children_height in Hc as [Hc1 Hc]. cbn.
    f_equal. apply Hb; [done|lia].
  - by rewrite (agree_omap n (height n) (stmt f) (stmt g) (le_n _) Hs).
Qed.

(** The levels of the tree are enough: with more, the same file. *)
Lemma lower_levels_enough fuel root : height root <= fuel -> is_node root = true -> lower_with fuel root = lower root.
Proof.
  intros Hf Hr. unfold lower, lower_with. f_equal. apply (agree_omap root (height root)); [done|]. intros c Hc Hl.
  assert (Hb : agree (height root) (body fuel) (body (height root))) by (intros d Hd Hlt; apply stmt_levels; [done|lia|lia]).
  pose proof (levels_enough (height root) fuel (height root)) as Hlv. unfold top_of, block, def.
  rewrite (block_levels (height root) (body fuel) (body (height root)) c) by (done || lia).
  by rewrite (def_levels (height root) fuel (height root) (Hlv ltac:(lia) ltac:(lia)) (body fuel) (body (height root)) c) by (done || lia).
Qed.
