(* ===== verification/StaticValue.v ===== *)
(** * Static values ([surface/src/resolve/value.rs])

    What an expression means when it means anything without a host, and the parts of a
    string with interpolations. An [i64] is a [Z] that wraps as in a release build, an [f64]
    the binary64 of [SpecFloat]; what panics whatever the build is [Err Panic]. *)

From Stdlib Require Import Ascii ZArith SpecFloat.
From stdpp Require Import base strings list.
From S2P Require Import Prelude Monad Diagnostics Lexer Parser Tree ParserEnds Ast.

(** How a computation of the front end ends without an answer. *)
Inductive Stop := Panic | OutOfTurns.

(** ** Values *)

(** A part of a string: text, or an interpolated expression. *)
Inductive StrPart :=
| TextPart (s : string)
| ExprPart (e : Expr).

Inductive Val :=
| ValInt (n : Z)
| ValFloat (f : spec_float)
| ValStr (s : string)
| ValAtom (a : string)
| ValDuration (seconds : N)
| ValBool (b : bool)
| ValList (l : list Val)
| ValRecord (fields : list (string * Val))
| ValRef (path : list string)
| ValCall (path : list string) (args : list Arg)
| ValTemplate (parts : list StrPart)
| ValUnknown
| ValOpaque.

Inductive ValKind := KInt | KFloat | KStr | KAtom | KDuration | KBool | KList | KRecord | KFact.

#[export] Instance ValKind_eq_dec : EqDecision ValKind. Proof. solve_decision. Defined.

Definition kind_name (k : ValKind) : string :=
  match k with
  | KInt => "int" | KFloat => "float" | KStr => "str" | KAtom => "atom" | KDuration => "duration"
  | KBool => "bool" | KList => "list" | KRecord => "record" | KFact => "fact"
  end.

Definition val_kind (v : Val) : option ValKind :=
  match v with
  | ValInt _ => Some KInt
  | ValFloat _ => Some KFloat
  | ValStr _ | ValTemplate _ => Some KStr
  | ValAtom _ => Some KAtom
  | ValDuration _ => Some KDuration
  | ValBool _ => Some KBool
  | ValList _ => Some KList
  | ValRecord _ => Some KRecord
  | ValRef _ | ValCall _ _ | ValUnknown | ValOpaque => None
  end.

Definition as_atom (v : Val) : option string := match v with ValAtom a => Some a | _ => None end.

(** ** Machine numbers *)

Definition wrap_i64 (z : Z) : Z := ((z + 2 ^ 63) mod 2 ^ 64 - 2 ^ 63)%Z.

Definition i64_min : Z := (- 2 ^ 63)%Z.

(** The one quotient that does not fit. *)
Definition divide_overflows (a b : Z) : bool := (a =? i64_min)%Z && (b =? -1)%Z.

(** The digits of a decimal text without its point, and how many stand after the point. *)
Fixpoint decimal_from (acc : N) (after : option N) (s : string) : option (N * N) :=
  match s with
  | EmptyString => Some (acc, match after with Some k => k | None => 0 end)%N
  | String c r =>
      if digit c then decimal_from (acc * 10 + (N_of_ascii c - 48)) (N.succ <$> after) r
      else if (c == "."%char) && (after == None) then decimal_from acc (Some 0%N) r
      else None
  end.

(** [f.parse::<f64>()] of [digits.digits]: the quotient by a power of ten, rounded once. *)
Definition parse_f64 (s : string) : option spec_float :=
  '(m, k) ← decimal_from 0 None s;
  Some (match m with
        | N0 => S754_zero false
        | Npos m => SFdiv 53 1024 (S754_finite false m 0) (S754_finite false (Z.to_pos (10 ^ Z.of_N k)) 0)
        end).

(** ** Equality *)

Definition path_eqb (a b : list string) : bool := bool_decide (a = b).

#[export] Instance TextRange_eq_dec : EqDecision TextRange. Proof. solve_decision. Defined.
#[export] Instance Lit_eq_dec : EqDecision Lit. Proof. solve_decision. Defined.

Section All2.
Context {A : Type} (eqb : A -> A -> bool).
Fixpoint list_eqb (l l' : list A) : bool :=
  match l, l' with
  | [], [] => true
  | x :: r, x' :: r' => eqb x x' && list_eqb r r'
  | _, _ => false
  end.
End All2.

Fixpoint expr_eqb (a b : Expr) : bool :=
  match a, b with
  | XLit r l, XLit r' l' => (r == r') && (l == l')
  | XRef r p, XRef r' p' => (r == r') && path_eqb p p'
  | XCall r p l, XCall r' p' l' => (r == r') && path_eqb p p' && list_eqb arg_eqb l l'
  | XBinary r o x y, XBinary r' o' x' y' => (r == r') && (o == o') && expr_eqb x x' && expr_eqb y y'
  | XUnary r o x, XUnary r' o' x' => (r == r') && (o == o') && expr_eqb x x'
  | XParen r x, XParen r' x' => (r == r') && expr_eqb x x'
  | XList r l, XList r' l' => (r == r') && list_eqb arg_eqb l l'
  | XRecord r l, XRecord r' l' => (r == r') && list_eqb kw_eqb l l'
  | XError r, XError r' => r == r'
  | _, _ => false
  end
with arg_eqb (a b : Arg) : bool :=
  match a, b with
  | AKw k, AKw k' => kw_eqb k k'
  | AExpr e, AExpr e' => expr_eqb e e'
  | _, _ => false
  end
with kw_eqb (a b : Kw) : bool :=
  match a, b with mkKw r n v, mkKw r' n' v' => (r == r') && (n == n') && arg_eqb v v' end.

Definition part_eqb (a b : StrPart) : bool :=
  match a, b with
  | TextPart s, TextPart s' => s == s'
  | ExprPart e, ExprPart e' => expr_eqb e e'
  | _, _ => false
  end.

(** [==] on values. *)
Fixpoint val_eqb (a b : Val) : bool :=
  match a, b with
  | ValInt n, ValInt n' => (n =? n')%Z
  | ValFloat f, ValFloat f' => SFeqb f f'
  | ValStr s, ValStr s' => s == s'
  | ValAtom s, ValAtom s' => s == s'
  | ValDuration n, ValDuration n' => (n =? n')%N
  | ValBool x, ValBool x' => Bool.eqb x x'
  | ValList l, ValList l' => list_eqb val_eqb l l'
  | ValRecord l, ValRecord l' =>
      (fix go l l' := match l, l' with
                      | [], [] => true
                      | (k, v) :: r, (k', v') :: r' => (k == k') && val_eqb v v' && go r r'
                      | _, _ => false
                      end) l l'
  | ValRef p, ValRef p' => path_eqb p p'
  | ValCall p l, ValCall p' l' => path_eqb p p' && list_eqb arg_eqb l l'
  | ValTemplate l, ValTemplate l' => list_eqb part_eqb l l'
  | ValUnknown, ValUnknown => true
  | ValOpaque, ValOpaque => true
  | _, _ => false
  end.

(** ** Strings *)

(** The white space of Unicode outside of ASCII, as its bytes. *)
Definition bytes (l : list N) : string := String.string_of_list_ascii (map ascii_of_N l).

Definition wide_spaces : list string :=
  map bytes ([[194; 133]; [194; 160]; [225; 154; 128]; [226; 128; 168]; [226; 128; 169]; [226; 128; 175]; [226; 129; 159];
    [227; 128; 128]]%N ++ map (fun k => [226; 128; k]%N) [128; 129; 130; 131; 132; 133; 134; 135; 136; 137; 138]%N).

(** How many bytes the white space at the start of a text has. *)
Definition space_width (s : string) : option nat :=
  match s with
  | String c _ => if is_space c then Some 1 else String.length <$> List.find (fun w => starts_with w s) wide_spaces
  | EmptyString => None
  end.

Fixpoint wide_trim_start (fuel : nat) (s : string) : string :=
  match fuel, space_width s with
  | S fuel, Some n => wide_trim_start fuel (str_drop n s)
  | _, _ => s
  end.

Fixpoint wide_trim_end (s : string) : string :=
  match s with
  | EmptyString => EmptyString
  | String c r => if wide_trim_start (String.length s) s == EmptyString then EmptyString else String c (wide_trim_end r)
  end.

(** [s.trim()] *)
Definition wide_trim (s : string) : string := wide_trim_end (wide_trim_start (String.length s) s).

(** How many characters follow the opening of an interpolation, its closing brace
    included; all of them where it is not closed. *)
Fixpoint braces (depth : nat) (s : list string) : nat :=
  match depth, s with
  | O, _ | _, [] => 0
  | S d, c :: r => S (braces (if c == "{" then S depth else if c == "}" then d else depth) r)
  end.

(** [parse_expr] on the text of an interpolation: the lexer may panic, and the parser
    answers with fuel for more than the bytes it is given ([parse_text_answers]). *)
Definition parse_text (src : string) : Result (option Expr) Stop :=
  match parse_expr (2 + String.length src) src with
  | None => Err Panic
  | Some (_, Err _) => Err OutOfTurns
  | Some (_, Ok false) => Ok None
  | Some (p, Ok true) => Ok (root ← root_of (p_builder p); lower_expr <$> head (children (place 0 root)))
  end.

Definition push_text (text : string) (parts : list StrPart) : list StrPart :=
  if text == EmptyString then parts else parts ++ [TextPart text].

(** The loop of [string_parts]: [lit] is the text so far. The slice between the braces ends
    before it begins where nothing follows the opening. *)
Fixpoint parts_loop (fuel : nat) (s : list string) (lit : string) (parts : list StrPart) : Result (list StrPart) Stop :=
  match fuel with
  | O => Err OutOfTurns
  | S fuel =>
      match s with
      | [] =>
          Ok (if negb (lit == EmptyString) || (match parts with [] => true | _ => false end)
              then parts ++ [TextPart lit] else parts)
      | c :: r =>
          if (c == "#") && (head r == Some "{") then
            let rest := drop 1 r in
            match braces 1 rest with
            | O => Err Panic
            | S k =>
                let text := concats (take k rest) in
                match parse_text (wide_trim text) with
                | Err e => Err e
                | Ok parsed =>
                    let part := match parsed with Some e => ExprPart e | None => TextPart (concats ["#{"; text; "}"]) end in
                    parts_loop fuel (drop (S k) rest) EmptyString (push_text lit parts ++ [part])
                end
            end
          else parts_loop fuel r (lit +:+ c) parts
      end
  end.

Definition string_parts (raw : string) : Result (list StrPart) Stop :=
  let inner := chars (unquote raw) in parts_loop (S (length inner)) inner EmptyString [].

(** Whether no part is an expression. *)
Definition all_text (parts : list StrPart) : bool :=
  forallb (fun p => match p with TextPart _ => true | ExprPart _ => false end) parts.

Definition texts (parts : list StrPart) : string :=
  concats (map (fun p => match p with TextPart s => s | ExprPart _ => EmptyString end) parts).

(** ** Evaluation *)

Definition is_unknown (v : Val) : bool := match v with ValUnknown => true | _ => false end.

Definition has_kind (v : Val) : bool := match val_kind v with Some _ => true | None => false end.

Definition binary (op : string) (l r : Val) : Result Val Stop :=
  if is_unknown l || is_unknown r then Ok ValUnknown
  else if op == "==" then Ok (if has_kind l && has_kind r then ValBool (val_eqb l r) else ValOpaque)
  else if op == "!=" then Ok (if has_kind l && has_kind r then ValBool (negb (val_eqb l r)) else ValOpaque)
  else
    match l, r with
    | ValInt a, ValInt b =>
        if op == "+" then Ok (ValInt (wrap_i64 (a + b)))
        else if op == "-" then Ok (ValInt (wrap_i64 (a - b)))
        else if op == "*" then Ok (ValInt (wrap_i64 (a * b)))
        else if (op == "/") && negb (b =? 0)%Z then if divide_overflows a b then Err Panic else Ok (ValInt (Z.quot a b))
        else if (op == "%") && negb (b =? 0)%Z then if divide_overflows a b then Err Panic else Ok (ValInt (Z.rem a b))
        else if op == "<" then Ok (ValBool (a <? b)%Z)
        else if op == "<=" then Ok (ValBool (a <=? b)%Z)
        else if op == ">" then Ok (ValBool (b <? a)%Z)
        else if op == ">=" then Ok (ValBool (b <=? a)%Z)
        else Ok ValOpaque
    | ValDuration a, ValDuration b =>
        if op == "+" then Ok (ValDuration (wrap64 (a + b)))
        else if op == "-" then Ok (ValDuration (u64_saturating_sub a b))
        else if op == "<" then Ok (ValBool (a <? b)%N)
        else if op == "<=" then Ok (ValBool (a <=? b)%N)
        else if op == ">" then Ok (ValBool (b <? a)%N)
        else if op == ">=" then Ok (ValBool (b <=? a)%N)
        else Ok ValOpaque
    | ValBool a, ValBool b =>
        if op == "and" then Ok (ValBool (a && b)) else if op == "or" then Ok (ValBool (a || b)) else Ok ValOpaque
    | _, _ => Ok ValOpaque
    end.

Definition unary_value (op : string) (v : Val) : Val :=
  match v with
  | ValInt n => if op == "-" then ValInt (wrap_i64 (- n)) else ValOpaque
  | ValFloat f => if op == "-" then ValFloat (SFopp f) else ValOpaque
  | ValBool b => if op == "not" then ValBool (negb b) else ValOpaque
  | ValUnknown => ValUnknown
  | _ => ValOpaque
  end.

Definition eval_lit (l : Lit) : Result Val Stop :=
  match l with
  | LitInt n => Ok (ValInt (wrap_i64 (Z.of_N n)))
  | LitFloat f => Ok (ValFloat (match parse_f64 f with Some x => x | None => S754_zero false end))
  | LitStr raw =>
      match string_parts raw with
      | Err e => Err e
      | Ok parts => Ok (if all_text parts then ValStr (texts parts) else ValTemplate parts)
      end
  | LitAtom a => Ok (ValAtom a)
  | LitDuration s => Ok (ValDuration s)
  | LitBool b => Ok (ValBool b)
  end.

Definition bind_ok {A B} (m : Result A Stop) (k : A -> Result B Stop) : Result B Stop :=
  match m with Ok x => k x | Err e => Err e end.

Fixpoint eval (e : Expr) : Result Val Stop :=
  match e with
  | XLit _ l => eval_lit l
  | XRef _ path => Ok (ValRef path)
  | XCall _ path l => Ok (ValCall path l)
  | XParen _ x => eval x
  | XList _ items =>
      bind_ok ((fix go items := match items with
                                | [] => Ok []
                                | a :: r => bind_ok (eval_arg a) (fun v => bind_ok (go r) (fun vs => Ok (v :: vs)))
                                end) items) (fun l => Ok (ValList l))
  | XRecord _ entries =>
      bind_ok ((fix go entries := match entries with
                                  | [] => Ok []
                                  | mkKw _ n v :: r =>
                                      bind_ok (eval_arg v) (fun x => bind_ok (go r) (fun xs => Ok ((unquote n, x) :: xs)))
                                  end) entries) (fun l => Ok (ValRecord l))
  | XUnary _ op x => bind_ok (eval x) (fun v => Ok (unary_value op v))
  | XBinary _ op x y => bind_ok (eval x) (fun l => bind_ok (eval y) (fun r => binary op l r))
  | XError _ => Ok ValOpaque
  end
with eval_arg (a : Arg) : Result Val Stop :=
  match a with
  | AExpr e => eval e
  | AKw (mkKw _ n v) => bind_ok (eval_arg v) (fun x => Ok (ValRecord [(n, x)]))
  end.

(** ** Evaluation answers *)

(** What ends with a value or a panic, never for want of turns. *)
Definition answers {A} (m : Result A Stop) : Prop := m <> Err OutOfTurns.

Lemma answers_bind {A B} (m : Result A Stop) (k : A -> Result B Stop) :
  answers m -> (forall x, answers (k x)) -> answers (bind_ok m k).
Proof. unfold answers. destruct m as [x|[]]; cbn; auto; congruence. Qed.

Lemma answers_ok {A} (x : A) : answers (Ok x).
Proof. done. Qed.

Lemma answers_panic {A} : answers (A := A) (Err Panic).
Proof. done. Qed.

Lemma parse_text_answers src : answers (parse_text src).
Proof.
  unfold parse_text. pose proof (parse_expr_answers (2 + String.length src) src) as H.
  destruct (parse_expr _ src) as [[p r]|]; [|done]. destruct H as [[] ->]; [lia|done|done].
Qed.

Lemma parts_loop_answers fuel : forall s lit parts, length s < fuel -> answers (parts_loop fuel s lit parts).
Proof.
  induction fuel as [|fuel IH]; intros s lit parts Hf; [lia|]. cbn [parts_loop]. destruct s as [|c r]; [done|].
  cbn in Hf. destruct ((c == "#") && _); [|apply IH; lia]. cbv zeta.
  destruct (braces 1 (drop 1 r)) as [|k]; [done|]. pose proof (parse_text_answers (wide_trim (concats (take k (drop 1 r))))) as Hp.
  destruct (parse_text _) as [x|[]]; [|done|by destruct Hp]. apply IH. rewrite !length_drop. lia.
Qed.

Lemma string_parts_answers raw : answers (string_parts raw).
Proof. apply parts_loop_answers. lia. Qed.

Lemma eval_lit_answers l : answers (eval_lit l).
Proof.
  destruct l; try done. cbn [eval_lit]. pose proof (string_parts_answers raw) as H.
  by destruct (string_parts raw) as [|[]].
Qed.

Lemma binary_answers op l r : answers (binary op l r).
Proof. unfold binary. repeat first [apply answers_ok|apply answers_panic|case_match]. Qed.

(** A static value is computed in as many turns as it takes: no expression of the language,
    whatever its strings interpolate, keeps the evaluator from an answer. *)
Theorem eval_answers e : answers (eval e).
Proof.
  apply (expr_induction (fun e => answers (eval e)) (fun a => answers (eval_arg a))); try done.
  - intros r l. apply eval_lit_answers.
  - intros r o x y Hx Hy. cbn [eval]. apply answers_bind; [done|]. intros l. apply answers_bind; [done|]. intros v.
    apply binary_answers.
  - intros r o x Hx. cbn [eval]. by apply answers_bind.
  - intros r l Hl. cbn [eval]. apply answers_bind; [|done]. induction Hl as [|a l Ha _ IH]; [done|].
    apply answers_bind; [done|]. intros v. by apply answers_bind.
  - intros r l Hl. cbn [eval]. apply answers_bind; [|done]. induction Hl as [|[kr n v] l Ha _ IH]; [done|].
    apply answers_bind; [done|]. intros x. by apply answers_bind.
  - intros r n v Hv. cbn [eval_arg]. by apply answers_bind.
Qed.

(** ** What it means *)

Definition here : TextRange := mkTextRange 0 0.

Example eval_template : eval (XLit here (LitStr (concats [String c_quote EmptyString; "a#{x}"; String c_quote EmptyString])))
  = Ok (ValTemplate [TextPart "a"; ExprPart (XRef (mkTextRange 0 1) ["x"])]).
Proof. vm_compute. reflexivity. Qed.

(** An opening at the end of the string: the slice between the braces is malformed. *)
Example open_interpolation_panics :
  eval (XLit here (LitStr (concats [String c_quote EmptyString; "#{"; String c_quote EmptyString]))) = Err Panic.
Proof. vm_compute. reflexivity. Qed.

(** The one quotient that does not fit an [i64]. *)
Example quotient_panics : binary "/" (ValInt i64_min) (ValInt (-1)) = Err Panic.
Proof. vm_compute. reflexivity. Qed.
