(* ===== verification/Site.v ===== *)
(** * The site ([surface/src/resolve/site.rs])

    What the site block declares, what is refused about it, the inventory it names, and the
    site the checker is given. The file system and the [toml] crate are parameters. *)

From Stdlib Require Import Ascii.
From stdpp Require Import base strings list sets.
From S2P Require Import Prelude Monad Ordered Diagnostics Model Lexer Parser Tree ParserEnds Ast StaticValue.

(** A host's contract facts for clause dispatch. *)
Record Contract := mkContract {
  ct_name : string;
  ct_address : string;
  ct_os : string;
  ct_roles : list string;
  ct_reach : list string;
  ct_rescind_root : option string;
}.

(** What an inventory file yields. *)
Record Inventory := mkInventory {
  inv_hosts : list HostRecord;
  inv_contracts : list Contract;
  inv_authenticators : list Authenticator;
  inv_scheduled : list string;
}.

(** A [[[host]]] of an inventory file, its defaults filled in. *)
Record InvHost := mkInvHost {
  ih_name : string;
  ih_address : string;
  ih_os : string;
  ih_roles : list string;
  ih_reach : list string;
  ih_filesystem : bool;
  ih_scheduler : option string;
  ih_artifact : option string;
  ih_stdin_preamble : option bool;
  ih_rescind_root : option string;
}.

(** Of an authenticator's table only [human] is read: a boolean, or not one. *)
Record InventoryFile := mkInventoryFile { if_host : list InvHost; if_authenticators : list (string * option bool) }.

(** Whether the positional argument of a binding was a string, an atom, or absent. *)
Inductive ArgKind := ArgNone | ArgStr | ArgAtom | ArgOther.

#[export] Instance ArgKind_eq_dec : EqDecision ArgKind. Proof. solve_decision. Defined.

(** A binding call. *)
Record Binding := mkBinding {
  bd_range : TextRange;
  bd_kind : string;
  bd_arg : option string;
  bd_kws : list (string * string);
  bd_arg_kind : ArgKind;
  bd_slot : string;
}.

#[export] Instance Binding_eq_dec : EqDecision Binding. Proof. solve_decision. Defined.

Record Identity := mkIdentity {
  id_name : string;
  id_user : option string;
  id_operator_for : list string;
  id_admin : bool;
  id_subscribe : list string;
}.

(** [Identity::admits_plan] *)
Definition admits_plan (i : Identity) (plan : string) : bool :=
  existsb (fun p => (p == "all") || (p == plan)) (id_operator_for i).

Record Registrar := mkRegistrar {
  rg_name : string;
  rg_user : option string;
  rg_may_register : list string;
}.

Record SiteDecl := mkSiteDecl {
  d_inventory : option Binding;
  d_journal : list Binding;
  d_journal_sign : option Binding;
  d_approval : option Binding;
  d_secrets_from : option Binding;
  d_deliver_to : list Binding;
  d_execute : list Binding;
  d_scheduler : option Binding;
  d_notify : option Binding;
  d_max_wait : option Duration;
  d_skew_tolerance : option Duration;
  d_identities : list Identity;
  d_registrars : list Registrar;
}.

Definition eta_decl (d : SiteDecl) : SiteDecl :=
  mkSiteDecl (d_inventory d) (d_journal d) (d_journal_sign d) (d_approval d) (d_secrets_from d) (d_deliver_to d)
    (d_execute d) (d_scheduler d) (d_notify d) (d_max_wait d) (d_skew_tolerance d) (d_identities d) (d_registrars d).

Definition set_d_inventory v d := ltac:(field_update eta_decl d_inventory v d).
Definition set_d_journal v d := ltac:(field_update eta_decl d_journal v d).
Definition set_d_journal_sign v d := ltac:(field_update eta_decl d_journal_sign v d).
Definition set_d_approval v d := ltac:(field_update eta_decl d_approval v d).
Definition set_d_secrets_from v d := ltac:(field_update eta_decl d_secrets_from v d).
Definition set_d_deliver_to v d := ltac:(field_update eta_decl d_deliver_to v d).
Definition set_d_execute v d := ltac:(field_update eta_decl d_execute v d).
Definition set_d_scheduler v d := ltac:(field_update eta_decl d_scheduler v d).
Definition set_d_notify v d := ltac:(field_update eta_decl d_notify v d).
Definition set_d_max_wait v d := ltac:(field_update eta_decl d_max_wait v d).
Definition set_d_skew_tolerance v d := ltac:(field_update eta_decl d_skew_tolerance v d).
Definition set_d_identities v d := ltac:(field_update eta_decl d_identities v d).
Definition set_d_registrars v d := ltac:(field_update eta_decl d_registrars v d).

(** [SiteDecl::default()] *)
Definition no_decl : SiteDecl := mkSiteDecl None [] None None None [] [] None None None None [] [].

(** ** Reading the site block *)

Definition atom_or_str (e : Expr) : option string :=
  match e with
  | XLit _ (LitAtom a) => Some a
  | XLit _ (LitStr s) => Some (unquote s)
  | XRef _ path => Some (join "." path)
  | _ => None
  end.

Definition arg_kind_of (x : Expr) : ArgKind :=
  match x with
  | XLit _ (LitStr _) => ArgStr
  | XLit _ (LitAtom _) => ArgAtom
  | _ => ArgOther
  end.

(** One argument of a binding call: the last positional one counts. *)
Definition binding_arg (b : Binding) (a : Arg) : Binding :=
  match a with
  | AExpr x => mkBinding (bd_range b) (bd_kind b) (atom_or_str x) (bd_kws b) (arg_kind_of x) (bd_slot b)
  | AKw (mkKw _ n (AExpr x)) =>
      match atom_or_str x with
      | Some v => mkBinding (bd_range b) (bd_kind b) (bd_arg b) (bd_kws b ++ [(n, v)]) (bd_arg_kind b) (bd_slot b)
      | None => b
      end
  | AKw _ => b
  end.

Definition binding_of (e : Expr) (slot : string) : option Binding :=
  match e with
  | XCall range path args =>
      Some (foldl binding_arg (mkBinding range (join "." path) None [] ArgNone slot) args)
  | _ => None
  end.

Fixpoint bindings_of (slot : string) (a : Arg) : list Binding :=
  match a with
  | AExpr (XList _ items) => concat (map (bindings_of slot) items)
  | AExpr e => option_list (binding_of e slot)
  | AKw (mkKw _ _ v) => bindings_of slot v
  end.

(** The binding kinds a site line admits. *)
Definition admitted (slot : string) : list string :=
  if slot == "inventory" then ["rescind_toml"; "file"; "hook"]
  else if slot == "journal" then ["file"; "stdout"; "local"; "hook"; "key"]
  else if slot == "approval" then ["always"; "hook"]
  else if slot == "secrets_from" then ["file"; "hook"]
  else if slot == "deliver_to" then ["requester"; "hold"; "hook"]
  else if slot == "notify" then ["stdout"; "hook"]
  else if slot == "execute" then ["local"; "ssh"; "hook"]
  else if slot == "scheduler" then ["cron"; "task_scheduler"; "launchd"; "hook"]
  else [].

Definition kw_named (name : string) (a : Arg) : option Kw :=
  match a with AKw k => if kw_name k == name then Some k else None | AExpr _ => None end.

(** [site::kw] *)
Definition find_kw (args : list Arg) (name : string) : option Kw := find_map (kw_named name) args.

Definition kw_arg (args : list Arg) (name : string) : option Arg := kw_value <$> find_kw args name.

Definition duration_of (a : Arg) : option Duration :=
  match a with AExpr (XLit _ (LitDuration s)) => Some s | _ => None end.

Definition duration_arg (args : list Arg) : option Duration := find_map duration_of args.

Definition kw_atom_or_str (args : list Arg) (name : string) : option string :=
  match kw_arg args name with Some (AExpr e) => atom_or_str e | _ => None end.

Definition kw_bool (args : list Arg) (name : string) : option bool :=
  match kw_arg args name with Some (AExpr (XLit _ (LitBool b))) => Some b | _ => None end.

Definition kw_list (args : list Arg) (name : string) : list string :=
  match kw_arg args name with
  | Some (AExpr (XList _ items)) => filter_map (fun a => match a with AExpr e => atom_or_str e | _ => None end) items
  | Some (AExpr e) => option_list (atom_or_str e)
  | _ => []
  end.

(** The slot of a line of the block, by its keyword and the name of its first argument. *)
Definition slot_of (keyword : string) (first_kw : option string) : string :=
  if (keyword == "inventory") && (first_kw == Some "from") then "inventory"
  else if (keyword == "journal") && (first_kw == Some "to") then "journal"
  else if (keyword == "approval") && (first_kw == Some "via") then "approval"
  else if (keyword == "secrets") && (first_kw == Some "from") then "secrets_from"
  else if (keyword == "secrets") && (first_kw == Some "deliver_to") then "deliver_to"
  else if (keyword == "execute") && (first_kw == Some "via") then "execute"
  else if (keyword == "backstop") && (first_kw == Some "scheduler") then "scheduler"
  else if (keyword == "notify") && (first_kw == Some "via") then "notify"
  else EmptyString.

Definition line_slot (l : Line) : string :=
  slot_of (line_keyword l) (match line_args l with AKw k :: _ => Some (kw_name k) | _ => None end).

Definition is_key (b : Binding) : bool := bd_kind b == "key".

Definition declare_line (d : SiteDecl) (l : Line) : SiteDecl :=
  let slot := line_slot l in
  let bs := concat (map (bindings_of slot) (line_args l)) in
  if slot == "inventory" then set_d_inventory (head bs) d
  else if slot == "journal" then
    let d := set_d_journal (d_journal d ++ List.filter (fun b => negb (is_key b)) bs) d in
    set_d_journal_sign (head (List.filter is_key bs)) d
  else if slot == "approval" then set_d_approval (head bs) d
  else if slot == "secrets_from" then set_d_secrets_from (head bs) d
  else if slot == "deliver_to" then set_d_deliver_to bs d
  else if slot == "execute" then set_d_execute bs d
  else if slot == "scheduler" then set_d_scheduler (head bs) d
  else if slot == "notify" then set_d_notify (head bs) d
  else if line_keyword l == "max_wait" then set_d_max_wait (duration_arg (line_args l)) d
  else if line_keyword l == "skew_tolerance" then set_d_skew_tolerance (duration_arg (line_args l)) d
  else d.

(** The name a line of the operators or hooks block begins with. *)
Definition first_name (args : list Arg) : string :=
  match args with
  | AExpr e :: _ => match atom_or_str e with Some s => s | None => EmptyString end
  | _ => EmptyString
  end.

Definition declare_identity (d : SiteDecl) (l : Line) : SiteDecl :=
  if line_keyword l == "identity" then
    let a := line_args l in
    set_d_identities (d_identities d ++
         [mkIdentity (first_name a) (kw_atom_or_str a "user") (kw_list a "operator_for")
            (match kw_bool a "admin" with Some b => b | None => false end) (kw_list a "subscribe")]) d
  else d.

Definition declare_registrar (d : SiteDecl) (l : Line) : SiteDecl :=
  if line_keyword l == "registrar" then
    let a := line_args l in
    set_d_registrars (d_registrars d ++
         [mkRegistrar (first_name a) (kw_atom_or_str a "user") (kw_list a "may_register")]) d
  else d.

(** [lines]: the lines among the statements of a body. *)
Definition body_lines (body : list Stmt) : list Line := filter_map (fun s => match s with SLine l => Some l | _ => None end) body.

Definition declare_stmt (d : SiteDecl) (st : Stmt) : SiteDecl :=
  match st with
  | SLine l => declare_line d l
  | SBlock b =>
      if block_keyword b == "operators" then foldl declare_identity d (body_lines (block_body b))
      else if block_keyword b == "hooks" then foldl declare_registrar d (body_lines (block_body b))
      else d
  | _ => d
  end.

Definition declare (b : Block) : SiteDecl := foldl declare_stmt no_decl (block_body b).

(** ** What is refused *)

(** The contract of a binding's arguments, and how it is named. *)
Definition binding_contract (b : Binding) : bool * string :=
  if existsb (fun k => bd_kind b == k) ["file"; "rescind_toml"; "key"] then (bd_arg_kind b == ArgStr, "a path string")
  else if bd_kind b == "hook" then (bd_arg_kind b == ArgAtom, "the hook's atom")
  else if bd_kind b == "hold" then (existsb (fun kv => fst kv == "until") (bd_kws b), "until: :wane or a duration")
  else (bd_arg_kind b == ArgNone, "no argument").

Definition has_kw (b : Binding) (name : string) : bool := existsb (fun kv => fst kv == name) (bd_kws b).

Definition registered (d : SiteDecl) (name : string) : bool :=
  existsb (fun r => bool_decide (name ∈ rg_may_register r)) (d_registrars d).

(** Every binding of the block, in the order they are looked at. *)
Definition all_bindings (d : SiteDecl) : list Binding :=
  option_list (d_inventory d) ++ d_journal d ++ option_list (d_journal_sign d) ++ option_list (d_approval d)
  ++ option_list (d_secrets_from d) ++ d_deliver_to d ++ d_execute d ++ option_list (d_scheduler d) ++ option_list (d_notify d).

(** What is refused: where, under which code, and what is said. *)
Definition Refused : Type := TextRange * Code * string.

Definition refuse (range : TextRange) (code : Code) (message : string) : Refused := (range, code, message).

Definition validate_binding (d : SiteDecl) (b : Binding) : list Refused :=
  let kinds := admitted (bd_slot b) in
  if negb (bool_decide (bd_kind b ∈ kinds)) then
    [refuse (bd_range b) E0601 (concats [bd_kind b; "() is not a binding this line admits ("; join ", " kinds; ")"])]
  else
    let contract := binding_contract b in
    (if fst contract then [] else [refuse (bd_range b) E0602 (concats [bd_kind b; "() takes "; snd contract])])
    ++ (if (bd_slot b == "execute") && (bd_kind b == "hook") && negb (has_kw b "transport") then
          [refuse (bd_range b) E0602 "an execute hook names its transport: hook(:x, transport: :t)"]
        else [])
    ++ (if (bd_slot b == "execute") && (bd_kind b == "ssh") then
          concat (map (fun needed =>
            if has_kw b needed then []
            else [refuse (bd_range b) E0602
                    (concats ["ssh() names its "; needed; ": ssh(identity: "; dquote; "path"; dquote; ", known_hosts: "; dquote;
                              "path"; dquote; ", user: "; dquote; "name"; dquote;
                              "); the daemon reads nothing under ~/.ssh"])]) ["identity"; "known_hosts"])
        else [])
    ++ (if bd_kind b == "hook" then
          match bd_arg b with
          | Some name =>
              if registered d name then []
              else [refuse (bd_range b) E0605
                      (concats ["hook(:"; name; ") has no registrar that may register it (hooks do ... may_register: [...])"])]
          | None => []
          end
        else []).

Definition no_user (what name : string) (block : Block) : Refused :=
  refuse (block_range block) E0602
    (concats [what; " :"; name; " names no OS user (user: "; dquote; "name"; dquote; " or :socket_owner)"]).

Definition refusals (d : SiteDecl) (block : Block) : list Refused :=
  concat (map (validate_binding d) (all_bindings d))
  ++ (match d_journal d with
      | [] => [refuse (block_range block) E0603 "no journal declared (journal to: ...); nothing would record what ran"]
      | _ => []
      end)
  ++ (match d_identities d with
      | [] => [refuse (block_range block) E0604
                 "no operators block, or none declares an identity; nothing may request a plan"]
      | _ => []
      end)
  ++ concat (map (fun i => match id_user i with None => [no_user "identity" (id_name i) block] | Some _ => [] end)
       (d_identities d))
  ++ concat (map (fun r => match rg_user r with None => [no_user "registrar" (rg_name r) block] | Some _ => [] end)
       (d_registrars d)).

(** [validate], with [at_range] for the closure that makes a diagnostic at a place. *)
Definition validate (at_range : TextRange -> Result SpanDiagnostic Stop) (d : SiteDecl) (block : Block)
  : Result (list SpanDiagnostic) Stop :=
  collect_results (fun '(range, code, message) =>
    let? d := at_range range in
    Ok (mkSpanDiagnostic code (sd_span d) (sd_expected d) (sd_found d) (sd_nearest d) message)) (refusals d block).

(** ** The inventory *)

(** [Inventory::empty()] *)
Definition empty_inventory : Inventory := mkInventory [] [] [] [].

(** [Path::join]: an absolute path stands for itself. *)
Definition path_join (dir rel : string) : string :=
  if starts_with "/" rel then rel
  else if dir == EmptyString then rel
  else if String.get (String.length dir - 1) dir == Some "/"%char then dir +:+ rel
  else concats [dir; "/"; rel].

Section Inventory.
(** [std::fs::read_to_string] and [toml::from_str]: the text, or what is wrong. *)
Variable read_to_string : string -> Result string string.
Variable toml_from_str : string -> Result InventoryFile string.

Definition language_of (name : string) : option ArtifactLanguage :=
  if name == "sh" then Some Sh
  else if name == "powershell" then Some Powershell
  else if name == "python" then Some Python
  else None.

Definition host_record (p : string) (h : InvHost) : Result HostRecord string :=
  let? artifact := match ih_artifact h with
                   | None => Ok None
                   | Some a =>
                       match language_of a with
                       | Some l => Ok (Some l)
                       | None => Err (concats ["inventory "; p; ": host "; ih_name h; ": unknown artifact language "; a])
                       end
                   end in
  Ok (mkHostRecord (ih_name h) (ih_os h) (ih_reach h) (ih_filesystem h)
        (match ih_stdin_preamble h with Some b => b | None => ih_filesystem h end) artifact).

Definition contract_of (h : InvHost) : Contract :=
  mkContract (ih_name h) (ih_address h) (ih_os h) (ih_roles h) (ih_reach h) (ih_rescind_root h).

Definition authenticator_of (p : string) (a : string * option bool) : Result Authenticator string :=
  match snd a with
  | Some human => Ok (mkAuth (fst a) human)
  | None => Err (concats ["inventory "; p; ": authenticator "; fst a; " needs `human = true|false`"])
  end.

Definition read_toml (p : string) : Result Inventory string :=
  match read_to_string p with
  | Err e => Err (concats ["cannot read inventory "; p; ": "; e])
  | Ok text =>
      match toml_from_str text with
      | Err e => Err (concats ["inventory "; p; ": "; e])
      | Ok inv =>
          let? hosts := collect_results (host_record p) (if_host inv) in
          let? auths := collect_results (authenticator_of p) (if_authenticators inv) in
          Ok (mkInventory hosts (map contract_of (if_host inv)) auths
                (filter_map (fun h => match ih_scheduler h with Some _ => Some (ih_name h) | None => None end) (if_host inv)))
      end
  end.

(** Why an inventory could not be read: under which code, and what to say. *)
Definition InventoryRefusal : Type := Code * string.

Definition as_e0602 {A} (r : Result A string) : Result A InventoryRefusal :=
  match r with Ok x => Ok x | Err m => Err (E0602, m) end.

Definition read_inventory (dir : string) (b : Binding) (named : option string) : Result Inventory InventoryRefusal :=
  if bd_kind b == "hook" then
    match named with
    | None =>
        Err (E0607, concats ["`inventory from: hook("; match bd_arg b with Some a => a | None => EmptyString end;
               ")` has no hosts until the hook is asked, and checking needs a record now: name one with `rescind check --inventory FILE`"])
    | Some p => as_e0602 (read_toml p)
    end
  else
    match named with
    | Some p => as_e0602 (read_toml p)
    | None =>
        match bd_arg b with
        | None => Err (E0602, "inventory from: file() needs a path")
        | Some rel => as_e0602 (read_toml (path_join dir rel))
        end
    end.
End Inventory.

(** ** The derived site *)

Definition transport_of (b : Binding) : option string :=
  if bd_kind b == "ssh" then Some "ssh"
  else if bd_kind b == "local" then Some "local"
  else if bd_kind b == "hook" then snd <$> List.find (fun kv => fst kv == "transport") (bd_kws b)
  else None.

(** A binding as the site names it: a hook by its name. *)
Definition binding_label (b : Binding) : string :=
  if bd_kind b == "hook" then "hook:" +:+ match bd_arg b with Some a => a | None => EmptyString end else bd_kind b.

Definition derive (d : SiteDecl) (hosts : list HostRecord) (auths : list Authenticator) (scheduled : list string) : Site :=
  mkSite hosts
    (match d_execute d with [] => ["ssh"] | _ => filter_map transport_of (d_execute d) end)
    auths (d_max_wait d) scheduled (map binding_label (d_deliver_to d)) (binding_label <$> d_approval d).

(** ** What stands *)

(** A binding that the line it stands on admits, with the arguments its contract asks. *)
Record binding_stands (d : SiteDecl) (b : Binding) : Prop := mkBindingStands {
  bs_kind : bd_kind b ∈ admitted (bd_slot b);
  bs_path : bd_kind b ∈ ["file"; "rescind_toml"; "key"] -> bd_arg_kind b = ArgStr;
  bs_atom : bd_kind b = "hook" -> bd_arg_kind b = ArgAtom;
  bs_hold : bd_kind b = "hold" -> "until" ∈ map fst (bd_kws b);
  bs_bare : bd_kind b ∉ ["file"; "rescind_toml"; "key"; "hook"; "hold"] -> bd_arg_kind b = ArgNone;
  bs_transport : bd_slot b = "execute" -> bd_kind b = "hook" -> "transport" ∈ map fst (bd_kws b);
  bs_ssh : bd_slot b = "execute" -> bd_kind b = "ssh" -> "identity" ∈ map fst (bd_kws b) /\ "known_hosts" ∈ map fst (bd_kws b);
  bs_registered : forall name, bd_kind b = "hook" -> bd_arg b = Some name ->
    exists r, r ∈ d_registrars d /\ name ∈ rg_may_register r;
}.

(** A site block that may be used. *)
Record site_stands (d : SiteDecl) : Prop := mkSiteStands {
  ss_bindings : Forall (binding_stands d) (all_bindings d);
  ss_journal : d_journal d <> [];
  ss_identities : d_identities d <> [];
  ss_identity_users : Forall (fun i => id_user i <> None) (d_identities d);
  ss_registrar_users : Forall (fun r => rg_user r <> None) (d_registrars d);
}.

Lemma concat_map_nil {A B} (f : A -> list B) l : concat (map f l) = [] <-> Forall (fun x => f x = []) l.
Proof. induction l as [|x l IH]; cbn; [done|]. by rewrite app_nil_iff, IH, Forall_cons. Qed.

Lemma complain_nil {A} (c : bool) (x : A) : (if c then [] else [x]) = [] <-> c = true.
Proof. by destruct c. Qed.

Lemma has_kw_spec b name : has_kw b name = true <-> name ∈ map fst (bd_kws b).
Proof.
  unfold has_kw. rewrite existsb_exists, list_elem_of_In, in_map_iff.
  split; intros (kv & H1 & H2); exists kv; [by apply bool_decide_eq_true in H2|split; [done|by apply bool_decide_eq_true]].
Qed.

Lemma registered_spec d name : registered d name = true <-> exists r, r ∈ d_registrars d /\ name ∈ rg_may_register r.
Proof.
  unfold registered. rewrite existsb_exists.
  split; intros (r & H1 & H2); exists r; (split; [by apply list_elem_of_In|]); [by apply bool_decide_eq_true in H2|by apply bool_decide_eq_true].
Qed.

Lemma complain_unless {A} (c : bool) (x : A) (P : Prop) : (c = true <-> P) -> (if negb c then [x] else []) = [] <-> P.
Proof. intros <-. by destruct c. Qed.

Lemma complain_when {A} (c : bool) (l : list A) : (if c then l else []) = [] <-> (c = true -> l = []).
Proof. destruct c; naive_solver. Qed.

Lemma existsb_kind (k : string) l : existsb (fun x => k == x) l = true <-> k ∈ l.
Proof.
  rewrite existsb_exists, list_elem_of_In. split; [intros (x & H & <-%bool_decide_eq_true); done|].
  intros H. exists k. split; [done|by apply bool_decide_eq_true].
Qed.

Lemma binding_contract_spec b :
  fst (binding_contract b) = true <->
  (bd_kind b ∈ ["file"; "rescind_toml"; "key"] -> bd_arg_kind b = ArgStr) /\
  (bd_kind b = "hook" -> bd_arg_kind b = ArgAtom) /\
  (bd_kind b = "hold" -> "until" ∈ map fst (bd_kws b)) /\
  (bd_kind b ∉ ["file"; "rescind_toml"; "key"; "hook"; "hold"] -> bd_arg_kind b = ArgNone).
Proof.
  unfold binding_contract. destruct (existsb _ _) eqn:He.
  - apply existsb_kind in He. cbn [fst]. rewrite bool_decide_eq_true.
    split; [intros H|by intros (H & _); apply H]. rewrite !not_elem_of_cons.
    repeat split; try done; intros Hk; [rewrite Hk, !elem_of_cons, elem_of_nil in He; naive_solver..|].
    rewrite !elem_of_cons, elem_of_nil in He. tauto.
  - apply not_true_iff_false in He. rewrite existsb_kind in He. case_bool_decide as Hk; cbn [fst].
    { rewrite bool_decide_eq_true, Hk. split; [|tauto]. intros H.
      repeat split; try done; rewrite ?not_elem_of_cons, ?elem_of_cons, ?elem_of_nil; naive_solver. }
    case_bool_decide as Hh; cbn [fst].
    { change (existsb _ _) with (has_kw b "until"). rewrite has_kw_spec, Hh. split; [|tauto]. intros H.
      repeat split; try done; rewrite ?not_elem_of_cons, ?elem_of_cons, ?elem_of_nil; naive_solver. }
    rewrite bool_decide_eq_true. split; [by intros H; repeat split; intros|]. intros (_ & _ & _ & H). apply H.
    rewrite !not_elem_of_cons in *. tauto.
Qed.

Lemma validate_binding_spec d b : validate_binding d b = [] <-> binding_stands d b.
Proof.
  unfold validate_binding. cbv zeta. case_bool_decide as Hk; cbn [negb].
  2: { split; [done|]. intros H. by destruct (Hk (bs_kind _ _ H)). }
  rewrite !app_nil_iff, complain_nil, binding_contract_spec, !complain_when. cbn [map concat]. rewrite !app_nil_iff, !complain_nil, !has_kw_spec.
  rewrite !andb_true_iff, !bool_decide_eq_true, negb_true_iff, <- not_true_iff_false, has_kw_spec.
  assert (Hr : bd_kind b = "hook" ->
    match bd_arg b with Some name => if registered d name then [] else [refuse (bd_range b) E0605
       (concats ["hook(:"; name; ") has no registrar that may register it (hooks do ... may_register: [...])"])] | None => [] end = []
    <-> forall name, bd_arg b = Some name -> exists r, r ∈ d_registrars d /\ name ∈ rg_may_register r).
  { intros _. destruct (bd_arg b) as [name|]; [|done]. rewrite complain_nil, registered_spec. naive_solver. }
  split.
  - intros ((H1 & H2 & H3 & H4) & H5 & H6 & H7). constructor; try done.
    + intros He Hh. destruct (decide ("transport" ∈ map fst (bd_kws b))) as [|Hn]; [done|]. by specialize (H5 (conj (conj He Hh) Hn)).
    + intros He Hs. destruct (H6 (conj He Hs)) as (? & ? & _). done.
    + intros name Hh. specialize (H7 Hh). revert name. by apply Hr.
  - intros [_ H1 H2 H3 H4 H5 H6 H7]. split; [done|]. split; [|split].
    + intros [[He Hh] Hn]. by destruct (Hn (H5 He Hh)).
    + intros [He Hs]. by destruct (H6 He Hs).
    + intros Hh. apply (Hr Hh). intros name. by apply H7.
Qed.

Lemma refusals_spec d block : refusals d block = [] <-> site_stands d.
Proof.
  unfold refusals. rewrite !app_nil_iff, !concat_map_nil.
  assert (Hb : Forall (fun b => validate_binding d b = []) (all_bindings d) <-> Forall (binding_stands d) (all_bindings d)).
  { apply Forall_iff. intros b. apply validate_binding_spec. }
  rewrite Hb. split.
  - intros (H1 & H2 & H3 & H4 & H5). constructor; [done|by intros He; rewrite He in H2|by intros He; rewrite He in H3|..].
    + eapply Forall_impl; [exact H4|]. intros i. cbn. by destruct (id_user i).
    + eapply Forall_impl; [exact H5|]. intros r. cbn. by destruct (rg_user r).
  - intros [H1 H2 H3 H4 H5]. split; [done|]. split; [by destruct (d_journal d)|]. split; [by destruct (d_identities d)|]. split.
    + eapply Forall_impl; [exact H4|]. intros i. cbn. by destruct (id_user i).
    + eapply Forall_impl; [exact H5|]. intros r. cbn. by destruct (rg_user r).
Qed.

Lemma collect_results_nil {A B E} (f : A -> Result B E) l : collect_results f l = Ok [] <-> l = [].
Proof.
  split; [|by intros ->]. destruct l as [|x l]; [done|]. cbn. destruct (f x) as [y|e]; [|done].
  cbn. change (rbind (collect_results f l) (fun ys => Ok (y :: ys)) = Ok [] -> x :: l = []). by destruct (collect_results f l).
Qed.

(** A site block is not refused exactly where it stands: each binding is one its line
    admits, with the arguments its contract asks, each hook has a registrar, a journal and an
    identity are declared, and identities and registrars name an OS user. *)
Theorem validate_exact at_range d block : validate at_range d block = Ok [] <-> site_stands d.
Proof. unfold validate. by rewrite collect_results_nil, refusals_spec. Qed.

(** ** Every way to execute stays *)

Lemma binding_arg_slot args b : bd_slot (foldl binding_arg b args) = bd_slot b.
Proof.
  revert b. induction args as [|a args IH]; intros b; [done|]. cbn [foldl]. rewrite IH.
  destruct a as [[r n [k|x]]|x]; cbn [binding_arg]; [done| |done]. by destruct (atom_or_str x).
Qed.

Lemma bindings_of_slot slot a : Forall (fun b => bd_slot b = slot) (bindings_of slot a).
Proof.
  set (Q a := Forall (fun b => bd_slot b = slot) (bindings_of slot a)). revert a.
  apply (arg_induction (fun e => Q (AExpr e)) Q); unfold Q; cbn; try done.
  - intros r p l _. constructor; [|done]. by rewrite binding_arg_slot.
  - intros r l Hl. induction Hl as [|a l Ha _ IH]; [done|]. by apply Forall_app.
Qed.

Lemma line_bindings_slot slot args : Forall (fun b => bd_slot b = slot) (concat (map (bindings_of slot) args)).
Proof. induction args as [|a args IH]; cbn; [done|]. apply Forall_app. by split; [apply bindings_of_slot|]. Qed.

Definition executes (d : SiteDecl) : Prop := Forall (fun b => bd_slot b = "execute") (d_execute d).

Lemma declare_line_executes d l : executes d -> executes (declare_line d l).
Proof.
  unfold declare_line. cbv zeta. intros Hd. pose proof (line_bindings_slot (line_slot l) (line_args l)) as Hl.
  repeat (case_bool_decide as Hs; [first [exact Hd|eapply Forall_impl; [exact Hl|intros b Hb; by rewrite Hb]]|clear Hs]). done.
Qed.

Lemma declare_identity_executes d l : executes d -> executes (declare_identity d l).
Proof. unfold declare_identity. by case_bool_decide. Qed.

Lemma declare_registrar_executes d l : executes d -> executes (declare_registrar d l).
Proof. unfold declare_registrar. by case_bool_decide. Qed.

Lemma foldl_invariant {A B} (P : A -> Prop) (f : A -> B -> A) l : (forall a b, P a -> P (f a b)) -> forall a, P a -> P (foldl f a l).
Proof. intros Hf. induction l as [|b l IH]; intros a Ha; [done|]. apply IH. by apply Hf. Qed.

Lemma declare_executes block : executes (declare block).
Proof.
  unfold declare. apply foldl_invariant; [|by constructor]. intros d st Hd. destruct st as [l|b| | | | | | | | | | |]; try exact Hd.
  - by apply declare_line_executes.
  - cbn [declare_stmt]. case_bool_decide; [apply foldl_invariant; [apply declare_identity_executes|done]|].
    case_bool_decide; [apply foldl_invariant; [apply declare_registrar_executes|done]|done].
Qed.

Lemma transport_stands d b : bd_slot b = "execute" -> binding_stands d b -> is_Some (transport_of b).
Proof.
  intros Hs [Hk _ _ _ _ Ht _ _]. rewrite Hs in Hk. change (admitted "execute") with ["local"; "ssh"; "hook"] in Hk. unfold transport_of.
  case_bool_decide; [done|]. case_bool_decide; [done|]. case_bool_decide as Hh.
  - apply fmap_is_Some. specialize (Ht Hs Hh). apply list_elem_of_In, in_map_iff in Ht as (kv & Hf & Hin).
    destruct (List.find _ _) eqn:Hx; [done|]. eapply List.find_none in Hx; [|exact Hin]. cbn in Hx. by rewrite Hf in Hx.
  - revert Hk. rewrite !elem_of_cons, elem_of_nil. naive_solver.
Qed.

Lemma filter_map_mapM {A B} (f : A -> option B) l : Forall (fun x => is_Some (f x)) l -> mapM f l = Some (filter_map f l).
Proof. induction 1 as [|x l [y Hy] _ IH]; [done|]. cbn. by rewrite Hy, IH. Qed.

(** The derived site has a transport for each way to execute a valid block declares, in the
    order of the block, and [ssh] where it declares none. *)
Theorem derived_transports at_range block hosts auths scheduled :
  validate at_range (declare block) block = Ok [] ->
  let d := declare block in
  match d_execute d with
  | [] => site_transports (derive d hosts auths scheduled) = ["ssh"]
  | _ => mapM transport_of (d_execute d) = Some (site_transports (derive d hosts auths scheduled))
  end.
Proof.
  intros Hv%collect_results_nil%refusals_spec d. cbn [derive site_transports]. destruct (d_execute d) as [|b l] eqn:He; [done|].
  rewrite <- He. apply filter_map_mapM. apply Forall_forall. intros x Hx. apply (transport_stands d).
  - pose proof (declare_executes block) as Hx'. unfold executes in Hx'. rewrite Forall_forall in Hx'. by apply Hx'.
  - destruct Hv as [Hb _ _ _ _]. rewrite Forall_forall in Hb. apply Hb. unfold all_bindings. fold d. rewrite !elem_of_app. tauto.
Qed.

(** ** A second journal line forgets the signature

    The sinks of two [journal to:] lines add up; the key is that of the last line alone. *)

Definition call_arg (name : string) (args : list Arg) : Arg := AExpr (XCall here [name] args).
Definition journal_line (args : list Arg) : Stmt := SLine (mkLine here "journal" args).

Example journal_sign_is_forgotten :
  let signed := journal_line [AKw (mkKw here "to" (call_arg "local" []));
                              AKw (mkKw here "sign" (call_arg "key" [AExpr (XLit here (LitStr "k"))]))] in
  let second := journal_line [AKw (mkKw here "to" (call_arg "stdout" []))] in
  let d1 := declare (mkBlock here "site" [signed]) in
  let d2 := declare (mkBlock here "site" [signed; second]) in
  (bd_kind <$> d_journal_sign d1, map bd_kind (d_journal d1)) = (Some "key", ["local"])
  /\ (bd_kind <$> d_journal_sign d2, map bd_kind (d_journal d2)) = (None, ["local"; "stdout"]).
Proof. vm_compute. by split. Qed.
