(* ===== verification/Program.v ===== *)
(** * A program ([surface/src/resolve/mod.rs])

    A file and, transitively, its imports; the names a module sees; the site that governs it.
    The file system is a parameter. Shown: a program that loads has no import cycle, its
    modules are distinct and its indices in range, and loading ends where the readable files
    are finitely many; the search for the site ends in any loaded program. *)

From Stdlib Require Import Ascii.
From stdpp Require Import base strings list sets relations.
From S2P Require Import Prelude Monad Ordered Utf8 Secrets Diagnostics Model Lexer Parser Tree ParserEnds Ast StaticValue Site.

(** One loaded file. *)
Record Module_ := mkModule {
  m_path : string;
  m_src : string;
  m_file : File;
  m_imports : BMap nat;
  m_open : list nat;
}.

(** [Program]: its modules. *)
Notation Program := (list Module_) (only parsing).

(** ** Places *)

(** [str::is_char_boundary] *)
Definition is_boundary (o : nat) (s : string) : bool :=
  (o =? 0) || (o =? String.length s) || match String.get o s with Some c => negb (continuation c) | None => false end.

(** [&s[a..b]] *)
Definition slice (a b : nat) (s : string) : Result string Stop :=
  if (a <=? b) && (b <=? String.length s) && is_boundary a s && is_boundary b s
  then Ok (str_take (b - a) (str_drop a s)) else Err Panic.

Definition span_of (m : Module_) (range : TextRange) : Result Span Stop :=
  let? before := slice 0 (tr_start range `min` String.length (m_src m)) (m_src m) in
  Ok (mkSpan (m_path m) (u32_add (wrap32 (N.of_nat (newlines before))) 1)
        (u32_add (wrap32 (N.of_nat (length (chars (last_line before))))) 1)).

(** [resolve::diag] *)
Definition diag (code : Code) (span : option Span) (message : string) : SpanDiagnostic :=
  mkSpanDiagnostic code span None None None (with_migration code message).

(** ** Paths *)

(** [without_verbatim_prefix] *)
Definition without_verbatim_prefix (path : string) : string :=
  match strip_prefix "\\?\" path with Some plain => plain | None => path end.

(** The text before the last slash and the text after it. *)
Fixpoint split_last_slash (s : string) : option (string * string) :=
  match s with
  | EmptyString => None
  | String c r =>
      match split_last_slash r with
      | Some (b, a) => Some (String c b, a)
      | None => if c == "/"%char then Some (EmptyString, r) else None
      end
  end.

(** [Path::parent] of a canonical path, where there is one. *)
Definition parent (path : string) : string :=
  match split_last_slash path with
  | None => EmptyString
  | Some (b, a) => if a == EmptyString then EmptyString else if b == EmptyString then "/" else b
  end.

(** ** Loading *)

Record Loading := mkLoading { l_modules : Program; l_diags : list SpanDiagnostic }.

Definition eta_loading (l : Loading) : Loading := mkLoading (l_modules l) (l_diags l).
Definition set_l_modules v l := ltac:(field_update eta_loading l_modules v l).
Definition set_l_diags v l := ltac:(field_update eta_loading l_diags v l).

Definition LM (A : Type) : Type := Loading -> Loading * Result A Stop.

Definition push_diags (ds : list SpanDiagnostic) : LM unit := fun l => (set_l_diags (l_diags l ++ ds) l, Ok tt).

(** [self.modules.push(..)]: the index of the new module. *)
Definition push_module (m : Module_) : LM nat := fun l => (set_l_modules (l_modules l ++ [m]) l, Ok (length (l_modules l))).

(** [self.modules[index]] *)
Definition the_module (p : Program) (index : nat) : Result Module_ Stop :=
  match p !! index with Some m => Ok m | None => Err Panic end.

Definition add_import (imp : Import) (child : nat) (m : Module_) : Module_ :=
  match import_alias imp with
  | Some a => mkModule (m_path m) (m_src m) (m_file m) (bm_insert a child (m_imports m)) (m_open m)
  | None => mkModule (m_path m) (m_src m) (m_file m) (m_imports m) (m_open m ++ [child])
  end.

Definition record_import (index : nat) (imp : Import) (child : nat) : LM unit := fun l =>
  (set_l_modules (alter (add_import imp child) index (l_modules l)) l, Ok tt).

(** The part of a list from an element on. *)
Fixpoint from_elem (x : string) (l : list string) : list string :=
  match l with
  | [] => []
  | y :: r => if y == x then l else from_elem x r
  end.

Definition imports_of (f : File) : list Import := filter_map (fun t => match t with TImport i => Some i | _ => None end) (file_tops f).

Section Load.
(** [Path::canonicalize] and [std::fs::read_to_string]. *)
Variable canonicalize : string -> option string.
Variable read_to_string : string -> Result string string.
(** The turns the parser is given. *)
Variable turns : nat.

Definition display_path (path : string) : string :=
  without_verbatim_prefix (match canonicalize path with Some p => p | None => path end).

(** [crate::parse] and [ast::lower]. *)
Definition parse_file (src path : string) : Result (list SpanDiagnostic * File) Stop :=
  match Parser.parse turns src path with
  | None => Err Panic
  | Some (_, Err _) => Err OutOfTurns
  | Some (p, Ok _) =>
      match root_of (p_builder p) with
      | Some root => Ok (p_diagnostics p, lower (place 0 root))
      | None => Err Panic
      end
  end.

Definition cycle_message (stack : list string) (canonical : string) : string :=
  concats ["import cycle: "; join " imports " (from_elem canonical stack); " imports "; canonical].

Section Level.
Variable load_one : string -> list string -> option Span -> LM (option nat).

(** One import of the module at an index. *)
Definition load_import (dir : string) (stack : list string) (index : nat) (imp : Import) : LM unit := fun l =>
  (let! m := lift (the_module (l_modules l) index) in
   let! span := lift (span_of m (import_range imp)) in
   let! child := load_one (path_join dir (import_path imp)) stack (Some span) in
   match child with Some child => record_import index imp child | None => mret tt end) l.

(** A file that was not loaded yet. *)
Definition load_file (canonical src : string) (stack : list string) : LM (option nat) :=
  let! parsed := lift (parse_file src canonical) in
  do! push_diags (fst parsed) in
  let! index := push_module (mkModule canonical src (snd parsed) [] []) in
  do! for_each (load_import (parent canonical) (stack ++ [canonical]) index) (imports_of (snd parsed)) in
  mret (Some index).

Definition load_with (path : string) (stack : list string) (from : option Span) : LM (option nat) :=
  let canonical := display_path path in
  if bool_decide (canonical ∈ stack) then
    do! push_diags [diag E0104 from (cycle_message stack canonical)] in mret None
  else fun l =>
    match position_from (fun m => m_path m == canonical) 0 (l_modules l) with
    | Some i => (l, Ok (Some i))
    | None =>
        match read_to_string canonical with
        | Err e => (do! push_diags [diag E0104 from (concats ["cannot read "; canonical; ": "; e])] in mret None) l
        | Ok src => load_file canonical src stack l
        end
    end.
End Level.

(** [Program::load_one]: the index of the module of a file, where it could be loaded. *)
Fixpoint load_one (fuel : nat) : string -> list string -> option Span -> LM (option nat) :=
  match fuel with
  | O => fun _ _ _ => mthrow OutOfTurns
  | S fuel => load_with (load_one fuel)
  end.

(** [Program::load] *)
Definition load (fuel : nat) (root : string) : Result (Result Program (list SpanDiagnostic)) Stop :=
  let '(l, r) := load_one fuel root [] None (mkLoading [] []) in
  match r with
  | Err e => Err e
  | Ok _ => Ok (match l_diags l with [] => Ok (l_modules l) | ds => Err ds end)
  end.
End Load.

(** ** Names *)

(** [Program::defs]: the definitions of a keyword in a module, in file order. *)
Definition defs (p : Program) (module : nat) (keyword : string) : Result (list (nat * Def)) Stop :=
  let? m := the_module p module in
  Ok (filter_map (fun t => match t with TDef d => if def_keyword d == keyword then Some (module, d) else None | _ => None end)
        (file_tops (m_file m))).

Definition named (name : string) (ds : list (nat * Def)) : list (nat * Def) := List.filter (fun d => def_name (snd d) == name) ds.

(** The first of the modules that defines the name. *)
Fixpoint first_defining (p : Program) (keyword name : string) (ms : list nat) : Result (list (nat * Def)) Stop :=
  match ms with
  | [] => Ok []
  | m :: r =>
      let? ds := defs p m keyword in
      match named name ds with [] => first_defining p keyword name r | found => Ok found end
  end.

(** [Program::lookup]: the clauses of a possibly qualified name. *)
Definition lookup_name (p : Program) (module : nat) (keyword : string) (path : list string) : Result (list (nat * Def)) Stop :=
  match path with
  | [alias; name] =>
      let? m := the_module p module in
      match bm_get alias (m_imports m) with
      | Some child => rmap (named name) (defs p child keyword)
      | None => Ok []
      end
  | [name] =>
      let? local := defs p module keyword in
      match named name local with
      | [] => let? m := the_module p module in first_defining p keyword name (m_open m)
      | found => Ok found
      end
  | _ => Ok []
  end.

(** [Program::visible_names] *)
Definition visible_names (p : Program) (module : nat) (keyword : string) : Result (list string) Stop :=
  let? own := defs p module keyword in
  let? m := the_module p module in
  let? qualified := collect_results (fun i => rmap (map (fun d => concats [fst i; "."; def_name (snd d)])) (defs p (snd i) keyword))
                      (m_imports m) in
  let? opened := collect_results (fun i => rmap (map (fun d => def_name (snd d))) (defs p i keyword)) (m_open m) in
  Ok (dedup (sort_strings (map (fun d => def_name (snd d)) own ++ concat qualified ++ concat opened))).

(** ** The site *)

(** The children of a module: its imports by alias, then those without one. *)
Definition children_of (m : Module_) : list nat := map snd (m_imports m) ++ m_open m.

Definition own_site (m : Module_) : option Block := find_map (fun t => match t with TSite b => Some b | _ => None end) (file_tops (m_file m)).

Definition SiteAnswer : Type := Result (nat * Block) SpanDiagnostic.

(** What is found among the children decides. *)
Definition settle_site (m : Module_) (found : list (nat * Block)) : SiteAnswer :=
  match found with
  | [s] => Ok s
  | [] => Err (diag E0604 None (concats [m_path m; ": no site block, here or in an import"]))
  | _ => Err (diag E0103 None (concats [m_path m; ": two imported files declare a site and this one declares none"]))
  end.

(** [Program::site_of_visited], with the modules visited so far as its state. *)
Fixpoint site_of_visited (p : Program) (fuel module : nat) (visited : list nat) : list nat * Result SiteAnswer Stop :=
  match fuel with
  | O => (visited, Err OutOfTurns)
  | S fuel =>
      if bool_decide (module ∈ visited) then (visited, Ok (Err (diag E0104 None "import cycle")))
      else
        (let! m := lift (the_module p module) in
         match own_site m with
         | Some b => mret (Ok (module, b))
         | None =>
             let! found := fold_each (fun found child =>
               let! answer := site_of_visited p fuel child in
               mret (match answer with Ok s => found ++ [s] | Err _ => found end)) [] (children_of m) in
             mret (settle_site m found)
         end) (visited ++ [module])
  end.

(** [Program::site_of] *)
Definition site_of (p : Program) (module : nat) : Result SiteAnswer Stop :=
  snd (site_of_visited p (S (length p)) module []).

(** ** The bindings of a file's site *)

Record SiteBindings := mkSiteBindings { sb_dir : string; sb_decl : SiteDecl; sb_inventory : Inventory }.

Section SiteBindings.
Variable canonicalize : string -> option string.
Variable read_to_string : string -> Result string string.
Variable toml_from_str : string -> Result InventoryFile string.
Variables turns fuel : nat.

(** The diagnostics of a site block, without E0604 where the daemon only rehearses. *)
Definition site_diagnostics (p : Program) (module : nat) (block : Block) (decl : SiteDecl) (suspend_e0604 : bool)
  : Result (list SpanDiagnostic) Stop :=
  let? m := the_module p module in
  let? ds := validate (fun range => let? s := span_of m range in Ok (diag E0601 (Some s) EmptyString)) decl block in
  Ok (List.filter (fun d => negb (suspend_e0604 && bool_decide (sd_code d = E0604))) ds).

(** [site_bindings_opts] *)
Definition site_bindings_opts (path : string) (suspend_e0604 : bool) (inventory : option string)
  : Result (Result SiteBindings (list SpanDiagnostic)) Stop :=
  let? loaded := load canonicalize read_to_string turns fuel path in
  match loaded with
  | Err ds => Ok (Err ds)
  | Ok p =>
      let? site := site_of p 0 in
      match site with
      | Err d => Ok (Err [d])
      | Ok (site_module, block) =>
          let decl := declare block in
          let? ds := site_diagnostics p site_module block decl suspend_e0604 in
          match ds with
          | _ :: _ => Ok (Err ds)
          | [] =>
              let? m := the_module p site_module in
              let dir := parent (m_path m) in
              let done inv := Ok (Ok (mkSiteBindings dir decl inv)) in
              match d_inventory decl with
              | None => done empty_inventory
              | Some b =>
                  if (bd_kind b == "hook") && negb (bool_decide (is_Some inventory)) then done empty_inventory
                  else
                    match read_inventory read_to_string toml_from_str dir b inventory with
                    | Ok inv => done inv
                    | Err r =>
                        let? s := span_of m (bd_range b) in
                        Ok (Err [diag (fst r) (Some s) (snd r)])
                    end
              end
          end
      end
  end.

(** [site_bindings] *)
Definition site_bindings (path : string) : Result (Result SiteBindings (list SpanDiagnostic)) Stop :=
  site_bindings_opts path false None.
End SiteBindings.

(** ** A loaded program

    What [load] answers: modules of distinct files, imports that are modules and make no
    cycle, and a search for the site that comes to its end. *)

(** A module and one it imports. *)
Definition imports_module (p : list Module_) (child i : nat) : Prop :=
  exists m, p !! i = Some m /\ child ∈ children_of m.

Section Loading.
Variable canonicalize : string -> option string.
Variable read_to_string : string -> Result string string.
Variable turns : nat.

(** A module is a readable file under its displayed path, parsed. *)
Definition read_as (m : Module_) : Prop :=
  (exists path, m_path m = display_path canonicalize path) /\ read_to_string (m_path m) = Ok (m_src m)
  /\ exists ds, parse_file turns (m_src m) (m_path m) = Ok (ds, m_file m).

(** While the modules at [open] are being loaded, under the paths of [stack]: what is not
    open has only children that are not open, down to its last descendant. *)
Record well_loaded (open : list nat) (stack : list string) (p : list Module_) : Prop := mkWellLoaded {
  wl_paths : NoDup (map m_path p);
  wl_read : Forall read_as p;
  wl_open : forall i, i ∈ open -> exists m, p !! i = Some m /\ m_path m ∈ stack;
  wl_children : forall i c, imports_module p c i -> c < length p /\ c ∉ open;
  wl_acyclic : forall i, i < length p -> i ∉ open -> Acc (imports_module p) i;
}.

(** A file's load leaves what was loaded as it was, and answers a module that is not open. *)
Definition loads (open : list nat) (stack : list string) (m : LM (option nat)) : Prop :=
  forall l l' r, well_loaded open stack (l_modules l) -> m l = (l', Ok r) ->
    well_loaded open stack (l_modules l') /\ l_modules l `prefix_of` l_modules l'
    /\ forall c, r = Some c -> c < length (l_modules l') /\ c ∉ open.

Lemma imports_module_prefix p q c i : p `prefix_of` q -> i < length p -> imports_module q c i <-> imports_module p c i.
Proof. intros [k ->] Hi. unfold imports_module. by rewrite lookup_app_l. Qed.

(** Loading more changes nothing below a module that is settled. *)
Lemma settled_stays (P : nat -> Prop) p q i :
  (forall i, P i -> p !! i = q !! i) -> (forall i c, P i -> imports_module p c i -> P c) ->
  P i -> Acc (imports_module p) i -> Acc (imports_module q) i.
Proof.
  intros Hpq Hc Hi H. induction H as [i _ IH]. constructor. intros c (m & Hm & Hin). rewrite <- Hpq in Hm by done.
  assert (imports_module p c i) by by exists m. apply IH; [done|by eapply Hc].
Qed.

(** A module that is pushed is open. *)
Lemma well_loaded_push open stack p m :
  well_loaded open stack p -> m_path m ∉ map m_path p -> read_as m -> children_of m = [] ->
  well_loaded (open ++ [length p]) (stack ++ [m_path m]) (p ++ [m]).
Proof.
  intros [H1 H2 H3 H4 H5] Hn Hr Hm. assert (Hl : length (p ++ [m]) = S (length p)) by (rewrite length_app; cbn; lia).
  assert (Hold : forall i c, imports_module (p ++ [m]) c i -> imports_module p c i).
  { intros i c (x & Hx & Hin). apply lookup_app_Some in Hx as [Hx|[_ Hx]]; [by exists x|].
    apply list_lookup_singleton_Some in Hx as [_ <-]. rewrite Hm in Hin. by apply elem_of_nil in Hin. }
  split.
  - rewrite map_app. apply NoDup_app. split; [done|]. split; [|apply NoDup_singleton]. by intros x Hx ->%list_elem_of_singleton.
  - apply Forall_app. split; [done|by constructor].
  - intros i [Hi| ->%list_elem_of_singleton]%elem_of_app.
    + destruct (H3 i Hi) as (x & Hx & Hs). exists x. split; [by apply lookup_app_l_Some|]. apply elem_of_app. by left.
    + exists m. split; [by rewrite lookup_app_r, Nat.sub_diag|]. apply elem_of_app. right. by left.
  - intros i c Hc. apply Hold, H4 in Hc as [Hc Ho]. rewrite Hl. split; [lia|].
    intros [?| ->%list_elem_of_singleton]%elem_of_app; [done|lia].
  - intros i Hi Ho. rewrite not_elem_of_app in Ho. destruct Ho as [Ho Hn2]. rewrite list_elem_of_singleton in Hn2.
    assert (Hil : i < length p) by lia. apply (settled_stays (fun i => i < length p /\ i ∉ open) p).
    + intros j [Hj _]. by rewrite lookup_app_l.
    + intros j c _ Hc. by apply H4 in Hc.
    + by split.
    + by apply H5.
Qed.

Lemma bm_insert_values {A} k (v : A) m x : x ∈ map snd (bm_insert k v m) -> x = v \/ x ∈ map snd m.
Proof.
  induction m as [|[k' v'] m IH]; cbn [bm_insert map snd]; [set_solver|].
  case_bool_decide; [set_solver|]. destruct (str_le k k'); cbn [map snd]; set_solver.
Qed.

Lemma children_add_import imp c m x : x ∈ children_of (add_import imp c m) -> x = c \/ x ∈ children_of m.
Proof.
  unfold children_of, add_import. destruct (import_alias imp) as [a|]; cbn; rewrite !elem_of_app.
  - intros [H|H]; [apply bm_insert_values in H|]; tauto.
  - rewrite list_elem_of_singleton. tauto.
Qed.

Lemma add_import_path imp c m : m_path (add_import imp c m) = m_path m.
Proof. unfold add_import. by destruct (import_alias imp). Qed.

Lemma map_alter_same {A B} (f : A -> B) g i (l : list A) : (forall x, f (g x) = f x) -> map f (alter g i l) = map f l.
Proof.
  intros H. revert i. induction l as [|x l IH]; intros [|i]; try done; [cbn; by rewrite H|].
  change (f x :: map f (alter g i l) = f x :: map f l). by rewrite IH.
Qed.

(** An import is recorded of a module that is open. *)
Lemma well_loaded_import open stack p i c imp :
  well_loaded open stack p -> i ∈ open -> c < length p -> c ∉ open -> well_loaded open stack (alter (add_import imp c) i p).
Proof.
  intros [H1 H2 H3 H4 H5] Hi Hc Ho.
  assert (Hchild : forall j d, imports_module (alter (add_import imp c) i p) d j -> imports_module p d j \/ (j = i /\ d = c)).
  { intros j d (x & Hx & Hin). rewrite list_lookup_alter in Hx. case_decide as Hij; [|by left; exists x].
    apply fmap_Some in Hx as (y & Hy & ->). apply children_add_import in Hin as [->|Hin]; [by right|]. left. exists y. by rewrite <- Hij. }
  split.
  - rewrite map_alter_same; [done|]. intros x. apply add_import_path.
  - apply Forall_alter; [done|]. intros x _ Hx. unfold read_as, add_import in *. by destruct (import_alias imp).
  - intros j Hj. destruct (H3 j Hj) as (x & Hx & Hs). rewrite list_lookup_alter.
    case_decide as Hij; [|by exists x]. exists (add_import imp c x). by rewrite Hij, Hx, add_import_path.
  - intros j d [Hd|[-> ->]]%Hchild; rewrite length_alter; [by apply H4 in Hd|done].
  - intros j Hj Hjo. rewrite length_alter in Hj. apply (settled_stays (fun j => j ∉ open) p).
    + intros k Hk. rewrite list_lookup_alter. case_decide; [by subst|done].
    + intros k d _ Hd. by apply H4 in Hd as [_ ?].
    + done.
    + by apply H5.
Qed.

Lemma lookup_path p i j m n : NoDup (map m_path p) -> p !! i = Some m -> p !! j = Some n -> m_path m = m_path n -> i = j.
Proof.
  intros Hn Hi Hj Hp. apply (NoDup_lookup (map m_path p) i j (m_path m)); [done|by rewrite list_lookup_fmap, Hi|].
  by rewrite list_lookup_fmap, Hj, Hp.
Qed.

(** The last import of a module is loaded: it is settled. *)
Lemma well_loaded_close open stack p i m :
  well_loaded (open ++ [i]) (stack ++ [m_path m]) p -> p !! i = Some m -> i ∉ open -> well_loaded open stack p.
Proof.
  intros [H1 H2 H3 H4 H5] Hm Hi. split; [done|done| | |].
  - intros j Hj. destruct (H3 j) as (x & Hx & Hs); [by apply elem_of_app; left|]. exists x. split; [done|].
    apply elem_of_app in Hs as [Hs|Hs%list_elem_of_singleton]; [done|]. by rewrite (lookup_path p j i x m) in Hj.
  - intros j c [Hc Ho]%H4. split; [done|]. intros Hn. apply Ho, elem_of_app. by left.
  - intros j Hj Ho. destruct (decide (j = i)) as [->|Hji].
    + constructor. intros c [Hc Hn]%H4. by apply H5.
    + apply H5; [done|]. rewrite not_elem_of_app, list_elem_of_singleton. done.
Qed.

Lemma prefix_alter {A} (f : A -> A) (base p : list A) : base `prefix_of` p -> base `prefix_of` alter f (length base) p.
Proof. intros [k ->]. rewrite alter_app_r_alt by done. by eexists. Qed.

(** ** A load keeps it *)

(** While the imports of the module after [base] are loaded. *)
Record loading (base : list Module_) (open : list nat) (stack : list string) (path : string) (p : list Module_) : Prop := mkLoading_ {
  ld_well : well_loaded (open ++ [length base]) (stack ++ [path]) p;
  ld_base : base `prefix_of` p;
  ld_path : exists m, p !! length base = Some m /\ m_path m = path;
}.

Section Level.
Variable recur : string -> list string -> option Span -> LM (option nat).
Hypothesis Hrecur : forall open stack path from, loads open stack (recur path stack from).

Lemma load_import_keeps base open stack path dir imp l l' :
  loading base open stack path (l_modules l) ->
  load_import recur dir (stack ++ [path]) (length base) imp l = (l', Ok tt) -> loading base open stack path (l_modules l').
Proof.
  intros [Hw Hb (m & Hm & Hp)]. unfold load_import, lift, mthen, mret. unfold the_module at 1. rewrite Hm.
  destruct (span_of m (import_range imp)) as [span|]; [|done].
  destruct (recur _ _ _ l) as [l1 [r|]] eqn:Hl; [|done]. destruct (Hrecur _ _ _ _ _ _ _ Hw Hl) as (Hw1 & Hpre & Hr).
  assert (Hm1 : l_modules l1 !! length base = Some m) by by eapply prefix_lookup_Some.
  destruct r as [c|]; [|intros [= <-]; split; [done|by etrans|by exists m]].
  unfold record_import. intros [= <-]. destruct (Hr c eq_refl) as [Hc Ho]. split; cbn [l_modules set_l_modules].
  - apply well_loaded_import; [done| |done|done]. apply elem_of_app. right. by left.
  - apply prefix_alter. by etrans.
  - rewrite list_lookup_alter_eq, Hm1. eexists. split; [done|]. by rewrite add_import_path.
Qed.

Lemma load_imports_keep base open stack path dir imps : forall l l',
  loading base open stack path (l_modules l) ->
  for_each (load_import recur dir (stack ++ [path]) (length base)) imps l = (l', Ok tt) ->
  loading base open stack path (l_modules l').
Proof.
  induction imps as [|imp imps IH]; intros l l' Hl; [by intros [= <-]|]. cbn [for_each]. unfold mthen.
  destruct (load_import _ _ _ _ _ l) as [l1 [[]|]] eqn:H1; [|done]. apply IH. by eapply load_import_keeps.
Qed.

Lemma load_file_loads open stack canonical src :
  (exists path, canonical = display_path canonicalize path) -> read_to_string canonical = Ok src ->
  forall l l' r, well_loaded open stack (l_modules l) -> canonical ∉ map m_path (l_modules l) ->
  load_file turns recur canonical src stack l = (l', Ok r) ->
  well_loaded open stack (l_modules l') /\ l_modules l `prefix_of` l_modules l'
  /\ exists c, r = Some c /\ c < length (l_modules l') /\ c ∉ open.
Proof.
  intros Hpath Hsrc l l' r Hw Hn. unfold load_file, lift, push_diags, push_module, mthen, mret.
  destruct (parse_file turns src canonical) as [[ds f]|] eqn:Hparse; [|done]. cbn [fst snd l_modules set_l_diags set_l_modules].
  set (m := mkModule canonical src f [] []). lazymatch goal with |- context [for_each _ _ ?x] => set (l1 := x) end.
  assert (Hl1 : l_modules l1 = l_modules l ++ [m]) by done.
  destruct (for_each _ _ l1) as [l2 [[]|]] eqn:Hl; [|done]. intros [= <- <-].
  assert (Hlt : length (l_modules l) ∉ open).
  { intros Hin. destruct (wl_open _ _ _ Hw _ Hin) as (x & Hx%lookup_lt_Some & _). lia. }
  assert (Hstart : loading (l_modules l) open stack canonical (l_modules l1)).
  { rewrite Hl1. split.
    - apply (well_loaded_push open stack (l_modules l) m); try done. split; [done|]. split; [done|]. by exists ds.
    - by eexists.
    - exists m. split; [|done]. by rewrite lookup_app_r, Nat.sub_diag. }
  apply (load_imports_keep _ _ _ _ _ _ _ _ Hstart) in Hl as [H1 H2 (x & Hx & Hxp)]. rewrite <- Hxp in H1.
  split; [by eapply well_loaded_close|]. split; [done|]. eexists. split; [done|]. split; [by eapply lookup_lt_Some|done].
Qed.

Lemma load_with_loads open stack path from : loads open stack (load_with canonicalize read_to_string turns recur path stack from).
Proof.
  intros l l' r Hw. unfold load_with. set (canonical := display_path _ _). case_bool_decide as Hs.
  { intros [= <- <-]. done. }
  pose proof (position_from_spec (fun m => m_path m == canonical) (l_modules l) 0) as Hi.
  destruct (position_from _ 0 (l_modules l)) as [i|].
  - intros [= <- <-]. split; [done|]. split; [done|]. intros c [= <-]. destruct Hi as (_ & m & Hm & Hp%bool_decide_eq_true & _).
    rewrite Nat.sub_0_r in Hm. split; [by eapply lookup_lt_Some|]. intros Ho. destruct (wl_open _ _ _ Hw _ Ho) as (x & Hx & Hin).
    rewrite Hm in Hx. injection Hx as <-. by rewrite Hp in Hin.
  - destruct (read_to_string canonical) as [src|e] eqn:Hr; [|by intros [= <- <-]].
    intros Hl. apply (load_file_loads open) in Hl as (H1 & H2 & c & -> & Hc); [|by eexists|done|done|].
    { split; [done|]. split; [done|]. by intros c' [= <-]. }
    intros (m & Hp & Hin)%list_elem_of_In%in_map_iff. apply list_elem_of_In, Hi, bool_decide_eq_false in Hin. done.
Qed.
End Level.

Lemma load_one_loads fuel : forall open stack path from,
  loads open stack (load_one canonicalize read_to_string turns fuel path stack from).
Proof.
  induction fuel as [|fuel IH]; intros open stack path from; [by intros l l' r|]. by apply load_with_loads.
Qed.

Lemma well_loaded_nil : well_loaded [] [] [].
Proof.
  split.
  - constructor.
  - constructor.
  - by intros i Hi%elem_of_nil.
  - by intros i c (m & Hm & _).
  - intros i Hi. cbn in Hi. lia.
Qed.

Lemma load_well_loaded fuel root p :
  load canonicalize read_to_string turns fuel root = Ok (Ok p) -> well_loaded [] [] p.
Proof.
  unfold load. destruct (load_one _ _ _ _ _ _ _ _) as [l [r|]] eqn:Hl; [|done].
  destruct (load_one_loads _ [] [] _ _ (mkLoading [] []) _ _ well_loaded_nil Hl) as (Hw & _ & _).
  destruct (l_diags l); [|done]. by intros [= <-].
Qed.


(** The root is a module of a program that loads. *)
Lemma load_nonempty fuel root p :
  load canonicalize read_to_string turns fuel root = Ok (Ok p) -> 0 < length p.
Proof.
  unfold load. destruct fuel as [|fuel]; [done|]. cbn [load_one]. unfold load_with. cbv zeta.
  rewrite bool_decide_eq_false_2 by apply not_elem_of_nil. set (canonical := display_path _ _).
  change (position_from _ 0 (l_modules (mkLoading [] []))) with (@None nat). cbv iota beta.
  destruct (read_to_string canonical) as [src|e] eqn:Hr; [|done].
  destruct (load_file _ _ _ _ _ _) as [l [r|]] eqn:Hl; [|done]. destruct (l_diags l); [|done]. intros [= <-].
  apply (load_file_loads _ (load_one_loads fuel) []) in Hl as (_ & _ & c & _ & Hc & _);
    [lia|by eexists|done|apply well_loaded_nil|apply not_elem_of_nil].
Qed.

(** ** Loading comes to its end *)

Definition timely {A} (m : LM A) : Prop := forall l, snd (m l) <> Err OutOfTurns.

Lemma timely_then {A B} (m : LM A) (k : A -> LM B) : timely m -> (forall x, timely (k x)) -> timely (mthen m k).
Proof. intros Hm Hk l. unfold mthen. specialize (Hm l). destruct (m l) as [l' [x|e]]; [apply Hk|]. cbn in *. congruence. Qed.

Lemma timely_lift {A} (r : Result A Stop) : r <> Err OutOfTurns -> timely (lift r).
Proof. by intros H l. Qed.

Lemma timely_for_each {A} (f : A -> LM unit) l : (forall x, timely (f x)) -> timely (for_each f l).
Proof. intros Hf. induction l as [|x l IH]; [done|]. by apply timely_then. Qed.

Lemma span_of_timely m range : span_of m range <> Err OutOfTurns.
Proof. unfold span_of, slice. by destruct (_ && _). Qed.

Lemma load_import_timely recur dir stack index imp :
  (forall path from, timely (recur path stack from)) -> timely (load_import recur dir stack index imp).
Proof.
  intros Hr l. revert l. unfold load_import. intros l. apply timely_then; [apply timely_lift; unfold the_module; by destruct (_ !! _)|].
  intros m. apply timely_then; [apply timely_lift, span_of_timely|]. intros span. apply timely_then; [apply Hr|].
  by intros [c|].
Qed.

Section Ends.
(** The files that can be read, and a parser that answers on each of them. *)
Variable files : list string.
Hypothesis Hfiles : forall path src, read_to_string (display_path canonicalize path) = Ok src -> display_path canonicalize path ∈ files.
Hypothesis Hparses : forall path src, read_to_string path = Ok src -> parse_file turns src path <> Err OutOfTurns.

Lemma load_one_timely fuel : forall path stack from,
  NoDup stack -> stack ⊆ files -> length files < fuel + length stack ->
  timely (load_one canonicalize read_to_string turns fuel path stack from).
Proof.
  induction fuel as [|fuel IH]; intros path stack from Hn Hs Hf.
  { assert (length stack <= length files); [|lia]. by apply submseteq_length, NoDup_submseteq. }
  intros l. cbn [load_one]. unfold load_with. set (canonical := display_path _ _). case_bool_decide as Hin; [done|].
  destruct (position_from _ _ _); [done|]. destruct (read_to_string canonical) as [src|] eqn:Hr; [|done].
  revert l. change (timely (load_file turns (load_one canonicalize read_to_string turns fuel) canonical src stack)).
  unfold load_file. apply timely_then; [by apply timely_lift, Hparses|]. intros parsed.
  apply timely_then; [done|]. intros []. apply timely_then; [done|]. intros index.
  apply timely_then; [|done]. apply timely_for_each. intros imp. apply load_import_timely. intros path' from'. apply IH.
  - apply NoDup_app. split; [done|]. split; [by intros x Hx ->%list_elem_of_singleton|apply NoDup_singleton].
  - intros y [Hy|Hy%list_elem_of_singleton]%elem_of_app; [by apply Hs|]. rewrite Hy. by eapply Hfiles.
  - rewrite length_app. cbn. lia.
Qed.

(** More turns than there are readable files are enough: whatever the files import, a load
    comes to its end where the parser does. *)
Theorem load_answers fuel root :
  length files < fuel -> load canonicalize read_to_string turns fuel root <> Err OutOfTurns.
Proof.
  intros Hf. pose proof (load_one_timely fuel root [] None) as Ht. unfold load.
  specialize (Ht (NoDup_nil_2) (list_subseteq_nil _) ltac:(cbn; lia) (mkLoading [] [])).
  destruct (load_one _ _ _ _ _ _ _ _) as [l [r|e]]; cbn in *; congruence.
Qed.
End Ends.
End Loading.

(** ** The search for the site *)

Section SiteOf.
Variable p : list Module_.
Hypothesis Hchildren : forall i c, imports_module p c i -> c < length p.

(** A module without a site of its own, and one it imports. *)
Definition defers_to (i c : nat) : Prop := exists m, p !! i = Some m /\ own_site m = None /\ c ∈ children_of m.

(** The site block of a module that is reached through modules without one. *)
Definition governs (i : nat) (s : nat * Block) : Prop :=
  rtc defers_to i (fst s) /\ exists m, p !! fst s = Some m /\ own_site m = Some (snd s).

Definition seen (visited : list nat) : Prop := NoDup visited /\ Forall (fun i => i < length p) visited.

Lemma seen_bound visited : seen visited -> length visited <= length p.
Proof.
  intros [Hn Hv]. rewrite <- (length_seq (length p) 0). apply submseteq_length, NoDup_submseteq; [done|].
  intros i Hi. rewrite Forall_forall in Hv. apply elem_of_seq. split; [lia|]. by apply Hv.
Qed.

(** With turns for the modules not visited yet, the search answers. *)
Lemma site_of_visited_answers fuel : forall module visited,
  seen visited -> module < length p -> length p < fuel + length visited ->
  exists visited' a, site_of_visited p fuel module visited = (visited', Ok a) /\ seen visited' /\ visited `prefix_of` visited'
    /\ forall s, a = Ok s -> governs module s.
Proof.
  induction fuel as [|fuel IH]; intros module visited Hs Hm Hf; [apply seen_bound in Hs; lia|].
  cbn [site_of_visited]. case_bool_decide as Hin; [by eexists _, _|].
  destruct (lookup_lt_is_Some_2 _ _ Hm) as [m Hlook]. unfold mthen at 1, lift at 1, the_module at 1. rewrite Hlook.
  assert (Hs' : seen (visited ++ [module])).
  { destruct Hs as [Hn Hv]. split; [|by apply Forall_app; split; [|constructor]]. apply NoDup_app. split; [done|].
    split; [by intros x Hx ->%list_elem_of_singleton|apply NoDup_singleton]. }
  assert (Hp' : visited `prefix_of` visited ++ [module]) by by eexists.
  destruct (own_site m) as [b|] eqn:Hown.
  { eexists _, _. split; [done|]. split; [done|]. split; [done|]. intros s [= <-]. split; [done|by exists m]. }
  set (step := fun found child => _).
  assert (Hloop : forall cs found v, (forall c, c ∈ cs -> c ∈ children_of m) -> Forall (governs module) found -> seen v ->
    visited ++ [module] `prefix_of` v ->
    exists v' found', fold_each step found cs v = (v', Ok found') /\ seen v' /\ v `prefix_of` v' /\ Forall (governs module) found').
  { induction cs as [|c cs IHc]; intros found v Hcs Hfound Hv Hpv; [by eexists _, _|]. cbn [fold_each]. unfold mthen at 1, step at 1, mthen at 1.
    assert (Hc : imports_module p c module) by (exists m; split; [done|apply Hcs; by left]).
    destruct (IH c v Hv (Hchildren _ _ Hc)) as (v1 & a & -> & Hv1 & Hp1 & Ha).
    { apply prefix_length in Hpv. rewrite length_app in Hpv. cbn in Hpv. lia. }
    unfold mret at 1. destruct (IHc (match a with Ok s => found ++ [s] | Err _ => found end) v1) as (v2 & found2 & -> & Hv2 & Hp2 & Hf2).
    - intros d Hd. apply Hcs. by right.
    - destruct a as [s|]; [|done]. apply Forall_app. split; [done|]. constructor; [|done].
      destruct (Ha s eq_refl) as [Hr Hg]. split; [|done]. eapply rtc_l; [|exact Hr]. exists m.
      split; [done|]. split; [done|]. apply Hcs. by left.
    - done.
    - by etrans.
    - eexists _, _. split; [done|]. split; [done|]. split; [by etrans|done]. }
  destruct (Hloop (children_of m) [] (visited ++ [module])) as (v & found & Hfold & Hv & Hpv & Hg); [done..|].
  unfold mthen. rewrite Hfold. eexists _, _. split; [done|]. split; [done|]. split; [by etrans|].
  intros s. unfold settle_site. destruct found as [|s0 [|]]; [done| |done]. intros [= <-]. by inversion Hg.
Qed.
End SiteOf.

(** The site of a loaded program is looked for in as many turns as it has modules, without a
    panic; and a site that is found is one that governs: it is declared by the root, or by a
    module the root reaches through imports that declare none. *)
Theorem site_of_answers canonicalize read_to_string turns fuel root p :
  load canonicalize read_to_string turns fuel root = Ok (Ok p) ->
  exists a, site_of p 0 = Ok a /\ forall s, a = Ok s -> governs p 0 s.
Proof.
  intros Hl. apply load_nonempty in Hl as Hp. apply load_well_loaded in Hl as [_ _ _ H4 _].
  destruct (site_of_visited_answers p (fun i c H => proj1 (H4 i c H)) (S (length p)) 0 []) as (v & a & Ha & _ & _ & Hg).
  - split; constructor.
  - done.
  - cbn. lia.
  - exists a. split; [|done]. unfold site_of. by rewrite Ha.
Qed.

(** ** Files *)

Definition quoted_import (path alias : string) : string := concats ["import "; dquote; path; dquote; " as "; alias; newline].

Definition site_text : string := concats ["site do"; newline; "  journal to: local()"; newline; "end"; newline].

(** [root] imports [left] and [right]; [left] imports two files with a site, [right] one of
    its own. *)
Definition demo_read (path : string) : Result string string :=
  if path == "/p/root.scind" then
    Ok (concats ["rescind 0"; newline; quoted_import "left.scind" "l"; quoted_import "right.scind" "r"])
  else if path == "/p/left.scind" then
    Ok (concats ["rescind 0"; newline; quoted_import "one.scind" "a"; quoted_import "two.scind" "b"])
  else if (path == "/p/one.scind") || (path == "/p/two.scind") || (path == "/p/right.scind") then
    Ok (concats ["rescind 0"; newline; site_text])
  else Err "not found".

Definition demo_load (root : string) : Result (Result (list Module_) (list SpanDiagnostic)) Stop := load Some demo_read 200 10 root.

Definition demo_program : list Module_ := match demo_load "/p/root.scind" with Ok (Ok p) => p | _ => [] end.

Example demo_loads :
  map (fun m => (m_path m, m_imports m)) demo_program
  = [("/p/root.scind", [("l", 1); ("r", 4)]); ("/p/left.scind", [("a", 2); ("b", 3)]); ("/p/one.scind", []);
     ("/p/two.scind", []); ("/p/right.scind", [])].
Proof. vm_compute. reflexivity. Qed.

Lemma demo_loaded : load Some demo_read 200 10 "/p/root.scind" = Ok (Ok demo_program).
Proof. vm_compute. reflexivity. Qed.


(** Two sites among the imports of [left] are an ambiguity there (E0103), but to [root] they
    are no answer at all, so the site of [right] governs without a word. *)
Example ambiguous_import_is_skipped :
  (sd_code <$> match site_of demo_program 1 with Ok (Err d) => Some d | _ => None end,
   match site_of demo_program 0 with Ok (Ok (i, _)) => Some i | _ => None end)
  = (Some E0103, Some 4).
Proof. vm_compute. reflexivity. Qed.

Lemma site_of_answers_witness :
  load Some demo_read 200 10 "/p/root.scind" = Ok (Ok demo_program) /\ exists a, site_of demo_program 0 = Ok a.
Proof.
  split; [exact demo_loaded|]. destruct (site_of_answers _ _ _ _ _ _ demo_loaded) as (a & Ha & _). by exists a.
Defined.

Definition demo_files : list string := ["/p/root.scind"; "/p/left.scind"; "/p/one.scind"; "/p/two.scind"; "/p/right.scind"].

Lemma demo_read_file path src : demo_read path = Ok src -> path ∈ demo_files /\ parse_file 200 src path <> Err OutOfTurns.
Proof.
  unfold demo_read.
  repeat (case_bool_decide; cbn [orb]; [subst; intros [= <-]; split; [set_solver|vm_compute; congruence]|]). done.
Qed.

Lemma load_answers_witness : length demo_files < 10 /\ load Some demo_read 200 10 "/p/root.scind" <> Err OutOfTurns.
Proof.
  split; [cbn; lia|]. apply (load_answers Some demo_read 200 demo_files).
  - intros path src H. by apply demo_read_file in H as [H _].
  - intros path src H. by apply demo_read_file in H as [_ H].
  - cbn. lia.
Defined.
