(* ===== verification/ExpandOp.v ===== *)
(** * Expansion of an op ([surface/src/resolve/expand.rs])

    An op's template at a call: the clause for the host, the parameters the call binds, the
    bodies lowered to primitives with every reference classified by its origin, footprints to
    shapes, gates to their tree. The diagnostics raised so far are the state; a slice outside
    of a text panics. A gate that a parameter is bound to may name the parameter again, so
    [gate] has turns. *)

From Stdlib Require Import Ascii.
From stdpp Require Import base strings list sets.
From S2P Require Import Prelude Monad Ordered Diagnostics Model Tree Ast StaticValue Site Program.

(** ** How a name reaches a body *)

(** How a name bound at an op's call reaches the op's body. *)
Inductive Bound :=
| BLiteral (v : Val) (text : option Value)
| BController (n : string)
| BFact (n : string)
| BHost (f : string)
| BOutput (step name : string) (secret : bool)
| BParam (n : string)
| BName.

(** [Bound::as_ref] *)
Definition as_ref (b : Bound) : option Ref :=
  match b with
  | BController n => Some (RController n)
  | BFact n => Some (RFact n)
  | BHost f => Some (RHost f)
  | BOutput step name secret => Some (ROutput step name secret)
  | BParam n => Some (RParam n)
  | BLiteral _ _ | BName => None
  end.

(** What a body sees of the world around it. *)
Record Scope := mkScope {
  sc_loop_vars : list string;
  sc_aliases : BMap (list Output);
  sc_probes : BMap bool;
}.

Notation Bindings := (BMap Bound) (only parsing).

(** Whether an output of a step in scope is declared secret. *)
Definition output_secret (s : Scope) (alias name : string) : bool :=
  match bm_get alias (sc_aliases s) with
  | Some outs => existsb (fun o => (out_name o == name) && out_secret o) outs
  | None => false
  end.

(** A string's parts as a value. *)
Definition is_lit_part (p : Part) : bool := match p with PLit _ => true | PRef _ => false end.

Definition lit_text (p : Part) : string := match p with PLit s => s | PRef _ => EmptyString end.

Definition value_of_parts (parts : list Part) : Value :=
  if forallb is_lit_part parts then VLit (concats (map lit_text parts)) else VTemplate parts.

(** ** Arguments *)

Definition atom_of (a : Arg) : option string := match a with AExpr (XLit _ (LitAtom x)) => Some x | _ => None end.
Definition str_of (a : Arg) : option string := match a with AExpr (XLit _ (LitStr s)) => Some (unquote s) | _ => None end.
Definition int_of (a : Arg) : option N := match a with AExpr (XLit _ (LitInt n)) => Some n | _ => None end.

Definition first_atom (args : list Arg) : option string := find_map atom_of args.
Definition first_bool (args : list Arg) : option bool :=
  find_map (fun a => match a with AExpr (XLit _ (LitBool b)) => Some b | _ => None end) args.
Definition first_duration (args : list Arg) : option Duration := find_map duration_of args.

Definition kw_duration (args : list Arg) (name : string) : option Duration := a ← kw_arg args name; duration_of a.

Definition expr_kw_bool (args : list Arg) (name : string) : option bool :=
  a ← kw_arg args name; match a with AExpr (XLit _ (LitBool b)) => Some b | _ => None end.

Definition on_lapse (args : list Arg) : OnLapse :=
  if (a ← kw_arg args "on_lapse"; atom_of a) == Some "hold" then LapseHold else LapseRevert.

(** The first argument that is an expression. *)
Definition first_positional (args : list Arg) : option Expr := find_map (fun a => match a with AExpr e => Some e | AKw _ => None end) args.

Definition or_empty (o : option string) : string := match o with Some s => s | None => EmptyString end.

Definition guard_new (name : string) : Guard := mkGuard name Yes false.

(** The names a fact shape binds. *)
Fixpoint bound_names_from (open : option string) (s : string) : list string :=
  match s with
  | EmptyString => []
  | String c r =>
      match open with
      | None => bound_names_from (if c == "{"%char then Some EmptyString else None) r
      | Some name => if c == "}"%char then name :: bound_names_from None r else bound_names_from (Some (name +:+ String c EmptyString)) r
      end
  end.

Definition bound_names (shape : string) : list string := bound_names_from None shape.

Definition pat_text (e : Expr) : option string :=
  match e with
  | XLit _ (LitAtom a) => Some a
  | XLit _ (LitStr s) => Some (unquote s)
  | XLit _ (LitInt n) => Some (show n)
  | XRef _ path => if path == ["_"] then None else Some (join "." path)
  | _ => None
  end.

(** [%{name: "db-01"}] names the host a plan clause is for. *)
Definition pattern_host_name (d : Def) : option string :=
  p ← def_pattern d;
  match pat_expr p with
  | XRecord _ entries =>
      find_map (fun e => if Ast.kw_name e == "name"
                         then match Ast.kw_value e with AExpr (XLit _ (LitStr s)) => Some (unquote s) | _ => None end
                         else None) entries
  | _ => None
  end.

Definition static_locus_host (d : Def) : option string :=
  l ← List.find (fun l => line_keyword l == "locus") (body_lines (def_body d));
  match line_args l with
  | AExpr (XCall _ path args) :: _ =>
      if path == ["host"] then match args with AExpr (XLit _ (LitStr s)) :: _ => Some (unquote s) | _ => None end else None
  | _ => None
  end.

(** ** Diagnostics *)

Definition DM (A : Type) : Type := list SpanDiagnostic -> list SpanDiagnostic * Result A Stop.

Definition say (d : SpanDiagnostic) : DM unit := fun ds => (ds ++ [d], Ok tt).

(** [diags.len()] *)
Definition said_so_far : DM nat := fun ds => (ds, Ok (length ds)).

Definition with_nearest (n : option string) (d : SpanDiagnostic) : SpanDiagnostic :=
  mkSpanDiagnostic (sd_code d) (sd_span d) (sd_expected d) (sd_found d) n (sd_message d).

(** Where an op is called from. *)
Record CallSite := mkCallSite { cs_module : nat; cs_path : list string; cs_range : TextRange }.

(** Where a body stands: the definition's module, the definition, what the call bound, and
    what is in scope at the call. *)
Record OpCx := mkOpCx { ox_module : nat; ox_def : Def; ox_bindings : Bindings; ox_scope : Scope }.

Section Expand.
Variable program : list Module_.
Variable contracts : list Contract.
Variable turns : nat.

(** [Context::src] *)
Definition src (module : nat) (range : TextRange) : Result string Stop :=
  let? m := the_module program module in
  let s := m_src m in
  slice (tr_start range `min` String.length s) (tr_end range `min` String.length s) s.

(** [Context::err] *)
Definition err (module : nat) (range : TextRange) (code : Code) (message : string) : Result SpanDiagnostic Stop :=
  let? m := the_module program module in
  let? s := span_of m range in
  Ok (diag code (Some s) message).

Definition complain (module : nat) (range : TextRange) (code : Code) (message : string) : DM unit :=
  let! d := lift (err module range code message) in say d.

(** ** Clause dispatch *)

(** What a contract says of a key of a clause pattern. *)
Definition contract_fact (c : Contract) (key : string) : option (list string) :=
  if key == "name" then Some [ct_name c]
  else if key == "os" then Some [ct_os c]
  else if key == "address" then Some [ct_address c]
  else if key == "roles" then Some (ct_roles c)
  else if key == "reach" then Some (ct_reach c)
  else None.

Definition wanted_texts (a : Arg) : list string :=
  match a with
  | AExpr (XList _ items) => filter_map (fun a => match a with AExpr x => pat_text x | AKw _ => None end) items
  | AExpr x => option_list (pat_text x)
  | AKw _ => []
  end.

Definition is_list_arg (a : Arg) : bool := match a with AExpr (XList _ _) => true | _ => false end.

Definition entry_hits (key : string) (value : Arg) (actual : list string) : bool :=
  let wanted := wanted_texts value in
  if is_list_arg value && ((key == "roles") || (key == "reach"))
  then forallb (fun w => bool_decide (w ∈ actual)) wanted
  else existsb (fun w => bool_decide (w ∈ actual)) wanted.

(** [Context::matches] *)
Definition matches (module : nat) (pattern : option Pattern) (c : Contract) : DM bool :=
  match pattern with
  | None => mret true
  | Some p =>
      match pat_expr p with
      | XRecord _ entries =>
          fold_each (fun ok e =>
            let key := unquote (Ast.kw_name e) in
            match contract_fact c key with
            | None =>
                do! complain module (kw_range e) E0111
                      (concats ["clause pattern names `"; key;
                                "`, which is not a host-contract fact (name, os, address, roles, reach)"]) in
                mret false
            | Some actual => mret (ok && entry_hits key (Ast.kw_value e) actual)
            end) true entries
      | _ => mret true
      end
  end.

(** A definition that matches, with the contract it matched. *)
Definition Dispatched : Type := nat * Def * Contract.

(** The first clause that matches the host. *)
Definition first_match (ds : list (nat * Def)) (c : Contract) : DM (option Dispatched) :=
  first_some (fun d => let! ok := matches (fst d) (def_pattern (snd d)) c in
                       mret (if ok : bool then Some (fst d, snd d, c) else None)) ds.

(** The first clause that declares a static host and matches that host. *)
Definition first_static (ds : list (nat * Def)) : DM (option Dispatched) :=
  first_some (fun d =>
    match (h ← static_locus_host (snd d); List.find (fun x => ct_name x == h) contracts) with
    | None => mret None
    | Some hc => let! ok := matches (fst d) (def_pattern (snd d)) hc in
                 mret (if ok : bool then Some (fst d, snd d, hc) else None)
    end) ds.

(** [Context::dispatch] *)
Definition dispatch (ds : list (nat * Def)) (c : Contract) (what : string) (at_ : nat * TextRange) : DM (option Dispatched) :=
  let! before := said_so_far in
  let! found := first_match ds c in
  match found with
  | Some d => mret (Some d)
  | None =>
      let! after := said_so_far in
      if before <? after then mret None
      else
        let! static := first_static ds in
        match static with
        | Some d => mret (Some d)
        | None =>
            do! complain (fst at_) (snd at_) E0112
                  (concats ["no clause of "; what; " matches host "; ct_name c; " (os "; ct_os c; ")"]) in
            mret None
        end
  end.

Definition pattern_src (d : nat * Def) : Result string Stop :=
  match def_pattern (snd d) with Some p => src (fst d) (pat_range p) | None => Ok EmptyString end.

(** [Context::check_duplicates] *)
Fixpoint check_duplicates (clauses : list (nat * Def)) : DM unit :=
  match clauses with
  | [] => mret tt
  | d :: rest =>
      let! pat := lift (pattern_src d) in
      do! for_each (fun d2 =>
            let! pat2 := lift (pattern_src d2) in
            if (fst d == fst d2) && (pat == pat2) then
              complain (fst d2) (def_name_range (snd d2)) E0103
                (concats [def_name (snd d); " is defined twice with the same clause pattern"])
            else mret tt) rest in
      check_duplicates rest
  end.

(** ** Binding at a call *)

Definition bind_path (module : nat) (scope : Scope) (path : list string) (range : TextRange) : DM Bound :=
  match path with
  | [n] =>
      if bool_decide (n ∈ sc_loop_vars scope) then mret (BController n)
      else match bm_get n (sc_probes scope) with
           | Some true => mret (BController n)
           | Some false => mret (BFact n)
           | None => mret (BParam n)
           end
  | [a; name] =>
      if a == "host" then mret (BHost name)
      else if bm_contains a (sc_aliases scope) then mret (BOutput a name (output_secret scope a name))
      else
        let! m := lift (the_module program module) in
        if bm_contains a (m_imports m) then mret BName
        else
          do! complain module range E0110 (concats [a; "."; name; " is read before a step named "; a; " ran"]) in
          mret BName
  | _ => mret BName
  end.

(** [Context::bind], [Context::literal_value]: a string's interpolations are bound where the
    call is. *)
Fixpoint bind (fuel module : nat) (scope : Scope) (value : Arg) : DM Bound :=
  match fuel with
  | O => mthrow OutOfTurns
  | S fuel =>
      match value with
      | AExpr (XRef range path) => bind_path module scope path range
      | AExpr e => let! v := lift (eval e) in let! text := literal_value fuel module scope e in mret (BLiteral v (Some text))
      | AKw _ => mret BName
      end
  end
with literal_value (fuel module : nat) (scope : Scope) (e : Expr) : DM Value :=
  match fuel with
  | O => mthrow OutOfTurns
  | S fuel =>
      match e with
      | XLit _ (LitStr raw) =>
          let! parts := lift (string_parts raw) in
          let! template := fold_each (fun out p =>
            match p with
            | TextPart s => mret (out ++ [PLit s])
            | ExprPart x =>
                let! bound := bind fuel module scope (AExpr x) in
                match as_ref bound with
                | Some r => mret (out ++ [PRef r])
                | None => let! s := lift (src module (expr_range x)) in mret (out ++ [PLit s])
                end
            end) [] parts in
          mret (value_of_parts template)
      | _ => let! s := lift (src module (expr_range e)) in mret (VLit s)
      end
  end.

Definition render_arg (module : nat) (value : Arg) : Result string Stop :=
  match value with
  | AExpr (XLit _ (LitStr s)) => Ok (unquote s)
  | other => src module (arg_range other)
  end.

(** ** References *)

(** What the call bound a bare name to, when that is a literal. *)
Definition substituted (cx : OpCx) (e : Expr) : option Value :=
  match e with
  | XRef _ [n] => match bm_get n (ox_bindings cx) with Some (BLiteral _ (Some v)) => Some v | _ => None end
  | _ => None
  end.

(** [Context::classify] *)
Definition classify (cx : OpCx) (path : list string) : Ref :=
  match path with
  | [n] =>
      match bm_get n (ox_bindings cx) with
      | Some bound => match as_ref bound with Some r => r | None => RParam n end
      | None =>
          match bm_get n (sc_probes (ox_scope cx)) with
          | Some true => RController n
          | Some false => RFact n
          | None => if bool_decide (n ∈ sc_loop_vars (ox_scope cx)) then RController n else RParam n
          end
      end
  | [a; name] =>
      if a == "host" then RHost name
      else if bm_contains a (sc_aliases (ox_scope cx)) then ROutput a name (output_secret (ox_scope cx) a name)
      else RParam (join "." path)
  | _ => RParam (join "." path)
  end.

(** [Context::classify_expr] *)
Definition classify_expr (cx : OpCx) (e : Expr) : DM (option Ref) :=
  match e with
  | XRef _ path => mret (Some (classify cx path))
  | XCall range path args =>
      if path == ["secret"] then
        match args with
        | AExpr (XLit _ (LitAtom x)) :: _ => mret (Some (RSecret x))
        | _ => do! complain (ox_module cx) range E0101 "secret() takes the binding's atom" in mret None
        end
      else mret None
  | _ => mret None
  end.

Definition value_template (v : Value) : list Part :=
  match v with VLit s => [PLit s] | VRef r => [PRef r] | VTemplate parts => parts end.

(** [Context::interpolated] *)
Definition interpolated (cx : OpCx) (e : Expr) : DM (list Part) :=
  match substituted cx e with
  | Some v => mret (value_template v)
  | None =>
      let! r := classify_expr cx e in
      match r with
      | Some r => mret [PRef r]
      | None => let! s := lift (src (ox_module cx) (expr_range e)) in mret [PLit s]
      end
  end.

(** [Context::template] *)
Definition template (cx : OpCx) (raw : string) : DM (list Part) :=
  let! parts := lift (string_parts raw) in
  fold_each (fun out p =>
    match p with
    | TextPart s => mret (out ++ [PLit s])
    | ExprPart e => let! ps := interpolated cx e in mret (out ++ ps)
    end) [] parts.

(** [Context::value] *)
Definition value (cx : OpCx) (a : Arg) : DM Value :=
  match a with
  | AExpr (XLit _ (LitStr s)) => let! parts := template cx s in mret (value_of_parts parts)
  | AExpr e =>
      match substituted cx e with
      | Some v => mret v
      | None =>
          let! r := classify_expr cx e in
          match r with
          | Some r => mret (VRef r)
          | None => let! s := lift (src (ox_module cx) (expr_range e)) in mret (VLit s)
          end
      end
  | AKw k => let! s := lift (src (ox_module cx) (kw_range k)) in mret (VLit s)
  end.

(** [Context::value_val] *)
Definition value_val (cx : OpCx) (a : Arg) : Result Val Stop :=
  match a with
  | AExpr (XRef _ [n]) =>
      Ok (match bm_get n (ox_bindings cx) with
          | Some (BLiteral v _) => v
          | Some (BController n | BFact n | BParam n) => ValRef [n]
          | Some (BHost f) => ValRef ["host"; f]
          | _ => ValRef [n]
          end)
  | other => eval_arg other
  end.

(** ** Shapes *)

Definition braced (s : string) : string := concats ["{"; s; "}"].

Definition part_label (p : Part) : string := match p with PLit t => t | PRef r => braced (ref_label r) end.

Definition value_label (v : Value) : string := concats (map part_label (value_template v)).

(** The instance of a shape. *)
Definition instance_text (cx : OpCx) (inst : Expr) : DM string :=
  match inst with
  | XLit _ (LitStr s) => let! parts := template cx s in mret (concats (map part_label parts))
  | XRef _ p =>
      match substituted cx inst with
      | Some v => mret (value_label v)
      | None =>
          match p with
          | [n] => mret (braced (match (b ← bm_get n (ox_bindings cx); as_ref b) with Some r => ref_label r | None => n end))
          | _ => mret (braced (join "." p))
          end
      end
  | e => lift (src (ox_module cx) (expr_range e))
  end.

(** [Context::shape]: a shape and the anchor of its entry. *)
Definition shape (cx : OpCx) (a : Arg) (derived : bool) : DM (option (string * option string)) :=
  match a with
  | AExpr (XCall range path args) =>
      match first_positional args with
      | None => do! complain (ox_module cx) range E0101 "a fact shape names its instance" in mret None
      | Some inst =>
          let! text := instance_text cx inst in
          mret (Some (concats [join ":" path; ":"; text], a ← kw_arg args "anchor"; str_of a))
      end
  | AExpr (XRef _ path) =>
      match path with
      | [n] => mret (Some (if derived then "probe:" +:+ n else n, None))
      | _ => mret (Some (join ":" path, None))
      end
  | other =>
      do! complain (ox_module cx) (arg_range other) E0101 "a fact shape is file(...), a dotted name, or a dotted call" in
      mret None
  end.

(** [Context::fact_ref] *)
Definition fact_ref_of (cx : OpCx) (e : Expr) : DM (option FactRef) :=
  let! s := shape cx (AExpr e) false in mret ((fun p => mkFactRef (fst p) (snd p)) <$> s).

(** ** Gates *)

Definition no_range : TextRange := mkTextRange 0 0.

Definition default_n (d : N) (o : option N) : N := match o with Some n => n | None => d end.

(** The factors of [thresh]: an argument that is not one factor is lowered twice. *)
Definition thresh_factor (gate : Expr -> DM (option GateExpr)) (factors : list Factor) (a : Arg) : DM (list Factor) :=
  match a with
  | AKw _ => mret factors
  | AExpr x =>
      let! g := gate x in
      match g with
      | Some (Single f) => mret (factors ++ [f])
      | _ =>
          let! g := gate x in
          mret (match g with Some g => factors ++ [Group g 1] | None => factors end)
      end
  end.

Definition gate_call (gate : Expr -> DM (option GateExpr)) (module : nat) (range : TextRange) (path : list string) (args : list Arg)
  : DM (option GateExpr) :=
  let weight := wrap32 (default_n 1 (a ← kw_arg args "weight"; int_of a)) in
  let name := join "." path in
  if name == "auth" then
    mret (Some (Single (Auth (or_empty (find_map (fun a => match a with AExpr _ => atom_of a | AKw _ => None end) args)) weight)))
  else if name == "humans" then mret (Some (Single (Humans weight)))
  else if name == "wait" then mret (Some (Single (Wait (default_n 0 (find_map duration_of args)) weight)))
  else if name == "group" then
    let! inner := first_some (fun a => match a with AExpr x => gate x | AKw _ => mret None end) args in
    mret ((fun g => Single (Group g weight)) <$> inner)
  else if name == "thresh" then
    let n := wrap32 (default_n 1 (a ← head args; int_of a)) in
    let! factors := fold_each (thresh_factor gate) [] (drop 1 args) in
    mret (Some (Thresh n factors))
  else do! complain module range E0102 ("unknown gate factor " +:+ name) in mret None.

(** [Context::gate] *)
Fixpoint gate (fuel module : nat) (bindings : Bindings) (e : Expr) : DM (option GateExpr) :=
  match fuel with
  | O => mthrow OutOfTurns
  | S fuel =>
      match e with
      | XCall range path args => gate_call (gate fuel module bindings) module range path args
      | XRef _ [n] =>
          match bm_get n bindings with
          | Some (BLiteral (ValCall p a) _) => gate fuel module bindings (XCall no_range p a)
          | _ => mret None
          end
      | _ => mret None
      end
  end.

(** [Context::guards] *)
Definition guards (cx : OpCx) (args : list Arg) : DM (list Guard) :=
  fold_each (fun out a =>
    match a with
    | AExpr (XRef _ path | XCall _ path _) => mret (out ++ [guard_new (join "." path)])
    | AExpr e => let! s := lift (src (ox_module cx) (expr_range e)) in mret (out ++ [guard_new s])
    | AKw _ => mret out
    end) [] args.

Definition gate_ack (cx : OpCx) (e : Expr) : DM Ack :=
  let! g := gate turns (ox_module cx) (ox_bindings cx) e in
  mret (match g with Some g => AckGate g | None => NoAck EmptyString end).

Definition one_human : Ack := AckGate (Single (Humans 1)).

(** [Context::ack_of] *)
Definition ack_of (cx : OpCx) (v : Arg) (siblings : list Arg) : DM Ack :=
  let by_gate e := gate_ack cx e in
  let by_expr e :=
    match e with
    | XRef _ [n] =>
        match bm_get n (ox_bindings cx) with
        | Some (BLiteral (ValAtom a) _) =>
            if a == "none" then
              mret (NoAck (match bm_get "reason" (ox_bindings cx) with Some (BLiteral (ValStr s) _) => s | _ => EmptyString end))
            else mret one_human
        | Some (BLiteral (ValCall path args) _) => by_gate (XCall no_range path args)
        | Some _ => mret one_human
        | None => by_gate e
        end
    | _ => by_gate e
    end in
  match v with
  | AExpr (XLit _ (LitAtom a) as e) =>
      if a == "none" then mret (NoAck (or_empty (a ← kw_arg siblings "reason"; str_of a))) else by_expr e
  | AExpr e => by_expr e
  | AKw _ => mret (NoAck EmptyString)
  end.

Definition knell_guard (cx : OpCx) (args : list Arg) : DM (option Guard) :=
  match kw_arg args "guard" with
  | None => mret None
  | Some (AExpr (XRef _ path)) => mret (Some (guard_new (join "." path)))
  | Some other => let! s := lift (src (ox_module cx) (arg_range other)) in mret (Some (guard_new s))
  end.

Definition knell_cost (cx : OpCx) (args : list Arg) : DM Cost :=
  let missing :=
    do! complain (ox_module cx) (match args with a :: _ => arg_range a | [] => no_range end) E0204
          (concats ["knell "; def_name (ox_def cx); " needs cost: a probe or :none with a reason"]) in
    mret (NoCost EmptyString) in
  match kw_arg args "cost" with
  | Some (AExpr (XCall _ path _)) => mret (CostProbe (join "." path))
  | Some (AExpr (XLit _ (LitAtom a))) =>
      if a == "none" then mret (NoCost (or_empty (a ← kw_arg args "reason"; str_of a))) else missing
  | _ => missing
  end.

(** [Context::refusal] *)
Definition refusal (cx : OpCx) (args : list Arg) : DM Refusal :=
  match args with
  | AExpr (XLit _ (LitAtom a)) :: _ =>
      mret (if a == "hold" then Hold (a ← kw_arg args "via"; atom_of a) else Revert)
  | AExpr (XRef _ path) :: _ =>
      if path == ["knell"] then
        let! guard := knell_guard cx args in
        let! cost := knell_cost cx args in
        let! ack := match kw_arg args "ack" with None => mret one_human | Some v => ack_of cx v args end in
        mret (RKnell guard cost ack)
      else mret Revert
  | _ => mret Revert
  end.

(** ** Primitives *)

Definition PRIMS : list string :=
  ["run"; "write"; "remove"; "append"; "region_set"; "region_clear"; "stage"; "hook"; "install"; "release"].

Definition positional_args (args : list Arg) : list Expr := filter_map (fun a => match a with AExpr e => Some e | AKw _ => None end) args.

(** A primitive on a fact: nothing where it has no positional argument. *)
Definition with_fact (cx : OpCx) (args : list Arg) (k : FactRef -> DM (option Prim)) : DM (option Prim) :=
  match head (positional_args args) with
  | None => mret None
  | Some e =>
      let! f := fact_ref_of cx e in
      match f with None => mret None | Some f => k f end
  end.

(** A primitive on a fact and a value: nothing where the keyword is missing. *)
Definition with_content (cx : OpCx) (args : list Arg) (name : string) (k : FactRef -> Value -> Prim) : DM (option Prim) :=
  with_fact cx args (fun f =>
    match kw_arg args name with
    | None => mret None
    | Some a => let! v := value cx a in mret (Some (k f v))
    end).

Definition run_prim (cx : OpCx) (range : TextRange) (args : list Arg) : DM (option Prim) :=
  match head (positional_args args) with
  | Some (XLit _ (LitStr s)) =>
      let! cmd := template cx s in
      let! env := match kw_arg args "env" with
                  | Some (AExpr (XRecord _ entries)) =>
                      fold_each (fun env e => let! v := value cx (Ast.kw_value e) in
                                              mret (env ++ [mkEnvVar (unquote (Ast.kw_name e)) v])) [] entries
                  | _ => mret []
                  end in
      let! stdin := match kw_arg args "stdin" with
                    | Some v => let! x := value cx v in mret (Some x)
                    | None => mret None
                    end in
      mret (Some (PRun (mkRun cmd env stdin)))
  | _ => do! complain (ox_module cx) range E0101 "run takes a string" in mret None
  end.

Definition stage_prim (cx : OpCx) (args : list Arg) : DM (option Prim) :=
  let! name := match head (positional_args args) with
               | Some (XRef _ path) => mret (join "." path)
               | Some e => lift (src (ox_module cx) (expr_range e))
               | None => mret EmptyString
               end in
  let mode := wrap32 (default_n 384 (a ← kw_arg args "mode"; int_of a)) in
  match kw_arg args "content" with
  | None => mret None
  | Some a => let! v := value cx a in mret (Some (PStage (mkStage name v mode)))
  end.

Definition first_atom_name (args : list Arg) : string :=
  match head (positional_args args) with Some (XLit _ (LitAtom a)) => a | _ => EmptyString end.

Definition hook_prim (cx : OpCx) (args : list Arg) : DM (option Prim) :=
  let! kws := fold_each (fun kws x =>
    match x with
    | AKw k =>
        if Ast.kw_name k == "idempotent" then mret kws
        else let! v := value cx (Ast.kw_value k) in mret (kws ++ [mkKwArg (Ast.kw_name k) v])
    | AExpr _ => mret kws
    end) [] args in
  mret (Some (PHook (mkHook (first_atom_name args) kws))).

Definition arg_class (e : Kw) : string * ArgClass :=
  (unquote (Ast.kw_name e), if atom_of (Ast.kw_value e) == Some "controller" then ControllerArg else TargetLocal).

(** [Context::call_prim]: a declared primitive, its template with the call's arguments. *)
Definition call_prim (cx : OpCx) (d : Def) (args : list Arg) : DM (option Prim) :=
  match List.find (fun l => line_keyword l == "run") (body_lines (def_body d)) with
  | None => mret None
  | Some run_line =>
      match line_args run_line with
      | AExpr (XLit _ (LitStr raw)) :: _ =>
          let classes := match kw_arg (line_args run_line) "classes" with
                         | Some (AExpr (XRecord _ entries)) => bm_of_list (map arg_class entries)
                         | _ => []
                         end in
          let! values := fold_each (fun values a =>
            match a with
            | AKw k => let! v := value cx (Ast.kw_value k) in mret (bm_insert (Ast.kw_name k) v values)
            | AExpr _ => mret values
            end) [] args in
          let! parts := lift (string_parts raw) in
          let! template := fold_each (fun out p =>
            match p with
            | TextPart s => mret (out ++ [PLit s])
            | ExprPart e =>
                match (match e with XRef _ [n] => bm_get n values | _ => None end) with
                | Some v => mret (out ++ value_template v)
                | None => let! ps := interpolated cx e in mret (out ++ ps)
                end
            end) [] parts in
          let class_of name := match bm_get name classes with Some c => c | None => TargetLocal end in
          mret (Some (PCall (mkCall (def_name d) template
                 (map (fun nv => mkClassedArg (fst nv) (class_of (fst nv)) (snd nv)) values))))
      | _ => do! complain (ox_module cx) (def_range d) E0101 (concats ["defprim "; def_name d; " needs `run "; dquote; "..."; dquote; "`"]) in
             mret None
      end
  end.

(** [Context::prim] *)
Definition prim (cx : OpCx) (a : Arg) : DM (option Prim) :=
  match a with
  | AExpr (XCall range path args) =>
      let name := join "." path in
      if name == "run" then run_prim cx range args
      else if name == "write" then with_content cx args "content" write
      else if name == "remove" then with_fact cx args (fun f => mret (Some (remove f)))
      else if name == "append" then with_content cx args "line" (fun f v => PAppend (mkAppend f v))
      else if name == "region_set" then with_content cx args "content" (fun f v => PRegionSet (mkRegionSet f v))
      else if name == "region_clear" then with_fact cx args (fun f => mret (Some (PRegionClear (mkRegionClear f))))
      else if name == "stage" then stage_prim cx args
      else if name == "hook" then hook_prim cx args
      else if name == "install" then mret (Some (PInstall (mkInstall (first_atom_name args))))
      else if name == "release" then mret (Some (PRelease (mkRelease (first_atom_name args))))
      else
        let! found := lift (lookup_name program (ox_module cx) "defprim" path) in
        match found with
        | (_, d) :: _ => call_prim cx d args
        | [] =>
            let! d := lift (err (ox_module cx) range E0102 ("unknown primitive " +:+ name)) in
            let! declared := lift (visible_names program (ox_module cx) "defprim") in
            do! say (with_nearest (nearest name (PRIMS ++ declared)) d) in
            mret None
        end
  | _ =>
      do! complain (ox_module cx) (arg_range a) E0101 "a body is a primitive call or a list of them" in
      mret None
  end.

Definition add_prim (cx : OpCx) (body : list Prim) (a : Arg) : DM (list Prim) :=
  let! p := prim cx a in mret (match p with Some p => body ++ [p] | None => body end).

(** [Context::body_of] *)
Definition body_of (cx : OpCx) (args : list Arg) : DM Body :=
  fold_each (fun body a =>
    match a with
    | AExpr (XList _ items) => fold_each (add_prim cx) body items
    | other => add_prim cx body other
    end) [] args.

(** ** An op *)

Definition eta_op (o : Op) : Op :=
  mkOp (op_id o) (op_footprint o) (op_pre o) (op_do o) (op_undo o) (op_post o) (op_undo_locus o) (op_refusal o) (op_drift o)
    (op_reach o) (op_outputs o) (op_exclusivity o) (op_locus o) (op_suspend o) (op_reestablish o) (op_handoff_done o)
    (op_undo_idempotent o).

Definition set_op_footprint v o := ltac:(field_update eta_op op_footprint v o).
Definition set_op_pre v o := ltac:(field_update eta_op op_pre v o).
Definition set_op_do v o := ltac:(field_update eta_op op_do v o).
Definition set_op_undo v o := ltac:(field_update eta_op op_undo v o).
Definition set_op_post v o := ltac:(field_update eta_op op_post v o).
Definition set_op_undo_locus v o := ltac:(field_update eta_op op_undo_locus v o).
Definition set_op_refusal v o := ltac:(field_update eta_op op_refusal v o).
Definition set_op_drift v o := ltac:(field_update eta_op op_drift v o).
Definition set_op_reach v o := ltac:(field_update eta_op op_reach v o).
Definition set_op_outputs v o := ltac:(field_update eta_op op_outputs v o).
Definition set_op_exclusivity v o := ltac:(field_update eta_op op_exclusivity v o).
Definition set_op_locus v o := ltac:(field_update eta_op op_locus v o).
Definition set_op_suspend v o := ltac:(field_update eta_op op_suspend v o).
Definition set_op_reestablish v o := ltac:(field_update eta_op op_reestablish v o).
Definition set_op_handoff_done v o := ltac:(field_update eta_op op_handoff_done v o).
Definition set_op_undo_idempotent v o := ltac:(field_update eta_op op_undo_idempotent v o).

(** A value given at the call against the declared default: the kinds are the same. *)
Definition check_given (module : nat) (range : TextRange) (d : Def) (p : Kw) (given : Val) : DM unit :=
  match Ast.kw_value p with
  | AExpr (XLit _ _ as default) =>
      let! want := lift (eval default) in
      match val_kind want, val_kind given with
      | Some w, Some g =>
          if bool_decide (w = g) then mret tt
          else complain module range E0107
                 (concats ["op "; def_name d; ": "; Ast.kw_name p; " expects "; kind_name w; ", got "; kind_name g])
      | _, _ => mret tt
      end
  | _ => mret tt
  end.

(** What a body reads for a declared default. *)
Definition default_text (module : nat) (e : Expr) : Result (option Value) Stop :=
  match e with
  | XLit _ (LitStr raw) =>
      let? parts := string_parts raw in
      Ok (if all_text parts then Some (VLit (unquote raw)) else None)
  | XLit _ _ => let? s := src module (expr_range e) in Ok (Some (VLit s))
  | _ => Ok None
  end.

(** A declared parameter: its kind is checked where the call gives a value, its default is
    taken where the call gives none, and a parameter without one is needed. *)
Definition bind_param (module m : nat) (range : TextRange) (d : Def) (bindings : Bindings) (p : Kw) : DM Bindings :=
  let name := Ast.kw_name p in
  match bm_get name bindings with
  | Some (BLiteral given _) => do! check_given module range d p given in mret bindings
  | Some _ => mret bindings
  | None =>
      let fill e :=
        let! text := lift (default_text m e) in
        let! v := lift (eval e) in
        mret (bm_insert name (BLiteral v text) bindings) in
      match Ast.kw_value p with
      | AExpr (XRef r path) =>
          if path == [name] then
            do! complain module range E0102 (concats ["op "; def_name d; " needs its parameter "; name]) in mret bindings
          else fill (XRef r path)
      | AExpr e => fill e
      | AKw _ => mret bindings
      end
  end.

Definition footprint_kind (name : string) : option Kind :=
  if name == "owned" then Some Owned
  else if name == "region" then Some Region
  else if name == "modified" then Some Modified
  else if name == "derived" then Some Derived
  else if name == "append_only" then Some AppendOnly
  else if name == "held" then Some Held
  else None.

Definition footprint_arg (cx : OpCx) (o : Op) (a : Arg) : DM Op :=
  match a with
  | AExpr _ => mret o
  | AKw k =>
      match footprint_kind (Ast.kw_name k) with
      | None => do! complain (ox_module cx) (kw_range k) E0101 ("unknown footprint kind " +:+ Ast.kw_name k) in mret o
      | Some kind =>
          let! s := shape cx (Ast.kw_value k) (bool_decide (kind = Derived)) in
          mret (match s with
                | Some (shape, anchor) => set_op_footprint (op_footprint o ++ [mkEntry kind shape None anchor]) o
                | None => o
                end)
      end
  end.

Definition undo_line (cx : OpCx) (args : list Arg) : DM Undo :=
  match args with
  | AExpr (XLit _ (LitAtom a)) :: _ =>
      if a == "restore" then mret Restore else let! body := body_of cx args in mret (Computed body [])
  | AKw k :: _ =>
      if Ast.kw_name k == "compensate" then let! body := body_of cx [Ast.kw_value k] in mret (Compensate body [])
      else let! body := body_of cx args in mret (Computed body [])
  | _ => let! body := body_of cx args in mret (Computed body [])
  end.

Definition undo_pre_line (cx : OpCx) (u : Undo) (args : list Arg) : DM Undo :=
  let! pre := fold_each (fun out a =>
    let! s := shape cx a false in mret (match s with Some (shape, _) => out ++ [shape] | None => out end)) [] args in
  mret (match u with
        | Computed body _ => Computed body pre
        | Compensate body _ => Compensate body pre
        | _ => u
        end).

Definition undo_locus_of (args : list Arg) : UndoLocus :=
  if first_atom args == Some "target" then ULTarget
  else if first_atom args == Some "none" then NoLocus
  else ULController.

Definition drift_of (v : option Val) : option Drift :=
  let a := (v ← v; as_atom v) in
  if a == Some "clobber" then Some Clobber else if a == Some "defer" then Some Defer else None.

(** The outputs of a line: a name, and whether the [secret:] after it says so. *)
Definition output_arg (st : list Output * option Output) (a : Arg) : list Output * option Output :=
  match a with
  | AExpr (XRef _ path) => (fst st ++ option_list (snd st), Some (mkOutput (join "." path) false))
  | AKw k =>
      if Ast.kw_name k == "secret" then
        (fst st, (fun o => mkOutput (out_name o)
                     (match Ast.kw_value k with AExpr (XLit _ (LitBool true)) => true | _ => false end)) <$> snd st)
      else st
  | AExpr _ => st
  end.

Definition outputs_of (args : list Arg) : list Output := let st := foldl output_arg ([], None) args in fst st ++ option_list (snd st).

Definition locus_of (args : list Arg) : Locus :=
  match args with
  | AExpr (XLit _ (LitAtom a)) :: _ => if a == "controller" then LController else LTarget
  | AExpr (XCall _ path inner) :: _ =>
      if path == ["host"] then
        match inner with
        | AExpr (XLit _ (LitStr s)) :: _ => LHost (Static (unquote s))
        | AExpr (XRef _ p) :: _ => LHost (Model.Bound (join "." p))
        | _ => LTarget
        end
      else LTarget
  | _ => LTarget
  end.

Definition handoff_of (args : list Arg) : option string :=
  match args with AExpr (XCall _ path _ | XRef _ path) :: _ => Some (join "." path) | _ => None end.

Definition reach_of (args : list Arg) : list string :=
  filter_map (fun a => match a with AExpr (XCall _ path _) => Some (join "." path) | _ => None end) args.

(** One line of an op's body. *)
Definition op_line (cx : OpCx) (o : Op) (l : Line) : DM Op :=
  let k := line_keyword l in
  let args := line_args l in
  if k == "footprint" then fold_each (footprint_arg cx) o args
  else if k == "reach" then mret (set_op_reach (op_reach o ++ reach_of args) o)
  else if k == "pre" then let! g := guards cx args in mret (set_op_pre g o)
  else if k == "post" then let! g := guards cx args in mret (set_op_post g o)
  else if k == "do" then let! b := body_of cx args in mret (set_op_do b o)
  else if k == "undo" then let! u := undo_line cx args in mret (set_op_undo u o)
  else if k == "undo_pre" then let! u := undo_pre_line cx (op_undo o) args in mret (set_op_undo u o)
  else if k == "undo_locus" then mret (set_op_undo_locus (undo_locus_of args) o)
  else if k == "refusal" then let! r := refusal cx args in mret (set_op_refusal r o)
  else if k == "drift" then
    let! v := match args with a :: _ => let! v := lift (value_val cx a) in mret (Some v) | [] => mret None end in
    mret (set_op_drift (drift_of v) o)
  else if k == "outputs" then mret (set_op_outputs (op_outputs o ++ outputs_of args) o)
  else if k == "exclusivity" then mret (set_op_exclusivity (first_atom args) o)
  else if k == "locus" then mret (set_op_locus (locus_of args) o)
  else if k == "handoff_done" then mret (set_op_handoff_done (handoff_of args) o)
  else if k == "suspend" then let! b := body_of cx args in mret (set_op_suspend (Some b) o)
  else if k == "reestablish" then let! b := body_of cx args in mret (set_op_reestablish (Some b) o)
  else do! complain (ox_module cx) (line_range l) E0101 (concats ["`"; k; "` is not an op line"]) in mret o.

(** A call of [run] or [hook] is idempotent where it says so. *)
Definition idempotent_call (e : Expr) : bool :=
  match e with
  | XCall _ [n] args =>
      if (n == "run") || (n == "hook") then
        match kw_arg args "idempotent" with Some (AExpr (XLit _ (LitBool true))) => true | _ => false end
      else true
  | _ => true
  end.

Definition body_calls (args : list Arg) : list Expr :=
  concat (map (fun a => match a with
                        | AExpr (XList _ items) => positional_args items
                        | AExpr e => [e]
                        | AKw _ => []
                        end) args).

(** [idempotent] *)
Definition idempotent (d : Def) (body : list Stmt) (u : Undo) : bool :=
  match u with
  | NoUndo | Restore | Compensate _ _ => true
  | Computed _ _ =>
      match List.find (fun l => line_keyword l == "undo") (body_lines body) with
      | None => true
      | Some l => forallb idempotent_call (body_calls (line_args l)) && match def_body d with [] => false | _ => true end
      end
  end.

Definition has_undo_line (body : list Stmt) : bool := existsb (fun l => line_keyword l == "undo") (body_lines body).

(** The op of a definition, its lines in order. *)
Definition lower_op (cx : OpCx) : DM Op :=
  let d := ox_def cx in
  let! o := fold_each (op_line cx) (op_new (def_name d) []) (body_lines (def_body d)) in
  let o := if has_undo_line (def_body d) then o else set_op_undo NoUndo o in
  mret (set_op_undo_idempotent (idempotent d (def_body d) (op_undo o)) o).

(** [Context::expand_op] *)
Definition expand_op (call : CallSite) (bindings : Bindings) (owner : Contract) (scope : Scope) : DM (option Op) :=
  let name := join "." (cs_path call) in
  let! ds := lift (lookup_name program (cs_module call) "defop" (cs_path call)) in
  match ds with
  | [] =>
      let! d := lift (err (cs_module call) (cs_range call) E0102 ("unknown op " +:+ name)) in
      let! names := lift (visible_names program (cs_module call) "defop") in
      do! say (with_nearest (nearest name names) d) in
      mret None
  | _ =>
      do! check_duplicates ds in
      let! found := dispatch ds owner ("op " +:+ name) (cs_module call, cs_range call) in
      match found with
      | None => mret None
      | Some (m, d, _) =>
          let! bindings := fold_each (bind_param (cs_module call) m (cs_range call) d) bindings (def_params d) in
          let! o := lower_op (mkOpCx m d bindings scope) in
          mret (Some o)
      end
  end.
End Expand.
