(* ===== verification/Expand.v ===== *)
(** * Expansion of a plan ([surface/src/resolve/expand.rs], [surface/src/resolve/mod.rs])

    The items of a plan clause for one host, its options, its probes and its slots, into the
    checker's [Plan]; and [resolve], from a file to the plan's intermediate form. A protocol's
    [default] and an implementation's body are expanded where they are called, so expansion
    has turns: a protocol that calls itself takes all of them. *)

From Stdlib Require Import Ascii.
From stdpp Require Import base strings list sets.
From S2P Require Import Prelude Monad Ordered Diagnostics Model Canon Instance Tree Ast StaticValue Site Program ExpandOp.

(** ** State *)

(** The diagnostics raised so far and what is in scope. *)
Record Expansion := mkExpansion { xp_diags : list SpanDiagnostic; xp_scope : Scope }.

Definition XM (A : Type) : Type := Expansion -> Expansion * Result A Stop.

Definition in_scope {A} (f : Scope -> DM A) : XM A := fun x =>
  let '(ds, r) := f (xp_scope x) (xp_diags x) in (mkExpansion ds (xp_scope x), r).

Definition quietly {A} (m : DM A) : XM A := in_scope (fun _ => m).

Definition the_scope : XM Scope := fun x => (x, Ok (xp_scope x)).

Definition set_scope (s : Scope) : XM unit := fun x => (mkExpansion (xp_diags x) s, Ok tt).

Definition with_aliases (a : BMap (list Output)) (s : Scope) : Scope := mkScope (sc_loop_vars s) a (sc_probes s).
Definition with_loop_vars (l : list string) (s : Scope) : Scope := mkScope l (sc_aliases s) (sc_probes s).

(** [scope.aliases.insert(alias, outputs)] *)
Definition add_alias (alias : string) (outs : list Output) : XM unit :=
  let! s := the_scope in set_scope (with_aliases (bm_insert alias outs (sc_aliases s)) s).

Definition PLAN_OPTS : list string :=
  ["gate"; "wane"; "backstop"; "mode"; "strictness"; "exclusivity"; "fires_by_construction"; "require"].

Section Expand.
Variable program : list Module_.
Variable contracts : list Contract.
Variable turns : nat.

#[local] Notation complain := (complain program).
#[local] Notation src := (src program).

(** ** Guards *)

Definition is_unknown_atom (e : Expr) : bool := match e with XLit _ (LitAtom a) => a == "unknown" | _ => false end.

(** [Context::check_unknown_compare] *)
Fixpoint check_unknown_compare (module : nat) (e : Expr) : DM unit :=
  let each := fix each (l : list Arg) : DM unit :=
    match l with
    | [] => mret tt
    | AExpr x :: r => do! check_unknown_compare module x in each r
    | AKw _ :: r => each r
    end in
  match e with
  | XBinary range op lhs rhs =>
      do! (if ((op == "==") || (op == "!=")) && (is_unknown_atom lhs || is_unknown_atom rhs) then
             complain module range E0108 "comparison against :unknown; ask defined?() or unknown?() instead"
           else mret tt) in
      do! check_unknown_compare module lhs in
      check_unknown_compare module rhs
  | XUnary _ _ x | XParen _ x => check_unknown_compare module x
  | XCall _ _ args | XList _ args => each args
  | _ => mret tt
  end.

(** [Context::guard_of] *)
Definition guard_of (module : nat) (args : list Arg) (range : TextRange) : DM (option Guard) :=
  let force_never := match kw_arg args "force" with Some (AExpr (XRef _ path)) => path == ["never"] | _ => false end in
  match first_positional args with
  | None => do! complain module range E0101 "a guard is missing" in mret None
  | Some e =>
      do! check_unknown_compare module e in
      let! name := match e with
                   | XRef _ path | XCall _ path _ => mret (join "." path)
                   | other => lift (src module (expr_range other))
                   end in
      mret (Some (mkGuard name Yes force_never))
  end.

(** [Context::probe_name] *)
Definition probe_name (module : nat) (path : list string) (range : TextRange) : DM (option string) :=
  let! ds := lift (lookup_name program module "defprobe" path) in
  match ds with
  | [] =>
      let name := join "." path in
      let! d := lift (err program module range E0102 ("unknown probe " +:+ name)) in
      let! names := lift (visible_names program module "defprobe") in
      do! say (with_nearest (nearest name names) d) in
      mret None
  | (_, d) :: _ => mret (Some (def_name d))
  end.

(** ** A step *)

Definition force_names (a : Arg) : list ForceName :=
  match a with
  | AExpr (XList _ items) =>
      filter_map (fun it =>
        match it with
        | AExpr (XRef _ path) =>
            Some (if path == ["unknown"] then FUnknown else if path == ["drift"] then FDrift else FGuard (join "." path))
        | AExpr (XLit _ (LitAtom a)) => Some (FGuard a)
        | _ => None
        end) items
  | _ => []
  end.

(** A keyword of a step. *)
Definition step_kw (module : nat) (bindings : Bindings) (st : StepI) (k : Kw) : DM StepI :=
  let set g w l f := Model.mkStep (step_op st) (step_direction st) g w l f (Model.step_alias st) (step_args st) in
  let name := Ast.kw_name k in
  if name == "gate" then
    match Ast.kw_value k with
    | AExpr e => let! g := gate program turns module bindings e in mret (set g (step_window st) (step_on_lapse st) (step_force st))
    | AKw _ => mret st
    end
  else if name == "window" then mret (set (step_gate st) (duration_of (Ast.kw_value k)) (step_on_lapse st) (step_force st))
  else if name == "on_lapse" then
    mret (set (step_gate st) (step_window st)
            (if atom_of (Ast.kw_value k) == Some "hold" then LapseHold else LapseRevert) (step_force st))
  else if name == "force" then
    mret (set (step_gate st) (step_window st) (step_on_lapse st) (step_force st ++ force_names (Ast.kw_value k)))
  else mret st.

(** What the keyword arguments of a call bind, and how they read. *)
Definition bind_arg (module : nat) (scope : Scope) (st : Bindings * list string) (a : Arg) : DM (Bindings * list string) :=
  match a with
  | AExpr _ => mret st
  | AKw k =>
      let! bound := bind program turns module scope (Ast.kw_value k) in
      let! text := lift (render_arg program module (Ast.kw_value k)) in
      mret (bm_insert (Ast.kw_name k) bound (fst st), snd st ++ [concats [Ast.kw_name k; ": "; text]])
  end.

(** A step's op at its call, with the step's own keywords. *)
Definition expand_call (module : nat) (s : Ast.Step) (path : list string) (args : list Arg) (range : TextRange) (owner : Contract)
  (scope : Scope) : DM (option StepI) :=
  let! bound := fold_each (bind_arg module scope) ([], []) args in
  let! found := expand_op program contracts turns (mkCallSite module path range) (fst bound) owner scope in
  match found with
  | None => mret None
  | Some o =>
      let st := Model.mkStep o Forward None None LapseRevert [] (Ast.step_alias s) (snd bound) in
      let! st := fold_each (step_kw module (fst bound)) st (step_kws s) in
      mret (Some st)
  end.

(** [Context::expand_step_one] *)
Definition expand_step_one (module : nat) (s : Ast.Step) (owner : Contract) (knell : bool) : XM (option Item) :=
  match step_call s with
  | XCall range path args =>
      let bare := negb knell && match args with [] => true | _ => false end in
      if bare && (path == ["confirm"]) then mret (Some Confirm)
      else if bare && (path == ["commit"]) then mret (Some Commit)
      else
        let! found := in_scope (expand_call module s path args range owner) in
        match found with
        | None => mret None
        | Some st =>
            do! match Ast.step_alias s with
                | Some alias => add_alias alias (op_outputs (step_op st))
                | None => mret tt
                end in
            mret (Some (if knell then Knell st else Model.Step st))
        end
  | _ => do! quietly (complain module (step_range s) E0101 "a step is a call") in mret None
  end.

(** ** Items *)

(** The implementations of a protocol in a module: the role and the definition of each. *)
Definition impls_of (module : nat) (name : string) : Result (list (string * Def)) Stop :=
  rmap (fun ds => filter_map (fun d =>
          k ← List.find (fun k => Ast.kw_name k == "for") (def_params (snd d));
          role ← atom_of (Ast.kw_value k); Some (role, snd d)) (named name ds))
    (defs program module "defimpl").

(** A protocol with an inverse: the inverse is defined, and each role that implements the
    protocol implements it. *)
Definition check_inverse (module : nat) (proto : Def) (impls : list (string * Def)) : DM unit :=
  match (k ← List.find (fun k => Ast.kw_name k == "inverse") (def_params proto); atom_of (Ast.kw_value k)) with
  | None => mret tt
  | Some inv =>
      let! protos := lift (defs program module "defprotocol") in
      do! (if forallb (fun d => negb (def_name (snd d) == inv)) protos then
             complain module (def_name_range proto) E0102
               (concats ["protocol "; def_name proto; " names an inverse "; inv; " that is not defined"])
           else mret tt) in
      let! inverse_impls := lift (impls_of module inv) in
      for_each (fun rd =>
        if existsb (fun r => fst r == fst rd) inverse_impls then mret tt
        else complain module (def_name_range (snd rd)) E0103
               (concats ["defimpl :"; def_name proto; " for :"; fst rd; " has no paired inverse defimpl :"; inv; " for :"; fst rd]))
        impls
  end.

Definition preflight_guards (body : list Stmt) : list Guard :=
  filter_map (fun st =>
    match st with
    | SLine l => Some (guard_new (line_keyword l))
    | SStep s => match step_call s with XCall _ path _ => Some (guard_new (join "." path)) | _ => None end
    | _ => None
    end) body.

Definition over_form (module : nat) (args : list Arg) (over : Kw) (range : TextRange) : DM RepeatForm :=
  let! over_list :=
    match Ast.kw_value over with
    | AExpr (XRef _ path) => mret (join "." path)
    | AExpr (XList r items) =>
        let! texts := lift (collect_results (fun a => src module (arg_range a)) items) in
        do! (if bool_decide (length (dedup (sort_strings texts)) = length texts) then mret tt
             else complain module (kw_range over) E0113 "repeat over: a list with a repeated member is not set-valued") in
        lift (src module r)
    | AExpr e =>
        do! complain module (expr_range e) E0113 "repeat over: needs a set-valued fact or a list" in
        lift (src module (expr_range e))
    | AKw k => lift (src module (kw_range k))
    end in
  let! max :=
    match kw_arg args "max" with
    | Some (AExpr (XLit _ (LitInt n))) => mret (wrap32 n)
    | _ =>
        do! complain module range E0106 "repeat over: without max: is unbounded; give the literal cap the bounded form needs" in
        mret 0%N
    end in
  mret (Over over_list max true).

Definition repeat_form (module : nat) (args : list Arg) (range : TextRange) : DM RepeatForm :=
  match find_kw args "over" with
  | Some over => over_form module args over range
  | None =>
      match args with
      | AExpr (XLit _ (LitInt n)) :: _ => mret (Count (wrap32 n))
      | _ => do! complain module range E0106 "repeat needs a literal count or over: with max:" in mret (Count 0)
      end
  end.

(** The aliases both arms of a [when] bind have the same outputs. *)
Definition check_arms (module : nat) (range : TextRange) (before then_aliases else_aliases : BMap (list Output)) : DM unit :=
  for_each (fun a =>
    if bm_contains (fst a) before then mret tt
    else match bm_get (fst a) else_aliases with
         | Some other =>
             if bool_decide (other = snd a) then mret tt
             else complain module range E0114 (concats ["the when's arms bind "; fst a; " to outputs of different kinds"])
         | None => mret tt
         end) then_aliases.

(** What one arm of a [when] binds joins what the other does. *)
Definition join_aliases (then_aliases else_aliases : BMap (list Output)) : BMap (list Output) :=
  foldl (fun m a => if bm_contains (fst a) m then m else bm_insert (fst a) (snd a) m) else_aliases then_aliases.

Section Level.
Variable items : nat -> list Stmt -> Contract -> XM (list Item).
Variable step : nat -> Ast.Step -> Contract -> bool -> XM (list Item).

Definition expand_when (module : nat) (range : TextRange) (args : list Arg) (then_ : list Stmt) (else_ : option (list Stmt))
  (owner : Contract) (guard : Guard) : XM (list Item) :=
  let! before := the_scope in
  let! then_items := items module then_ owner in
  let! after := the_scope in
  do! set_scope (with_aliases (sc_aliases before) after) in
  let! else_items := match else_ with Some b => items module b owner | None => mret [] end in
  let! scope := the_scope in
  do! quietly (check_arms module range (sc_aliases before) (sc_aliases after) (sc_aliases scope)) in
  do! set_scope (with_aliases (join_aliases (sc_aliases after) (sc_aliases scope)) scope) in
  mret [When guard (kw_duration args "window") (on_lapse args) then_items else_items].

Definition expand_repeat (module : nat) (range : TextRange) (args : list Arg) (var : option string) (body : list Stmt)
  (owner : Contract) : XM (list Item) :=
  let name := match var with Some v => v | None => "i" end in
  let! form := quietly (repeat_form module args range) in
  let! scope := the_scope in
  do! set_scope (with_loop_vars (sc_loop_vars scope ++ [name]) scope) in
  let! inner := items module body owner in
  let! scope' := the_scope in
  do! set_scope (with_loop_vars (removelast (sc_loop_vars scope')) scope') in
  mret [Repeat form name inner].

(** One statement of a body. *)
Definition expand_stmt (module : nat) (owner : Contract) (st : Stmt) : XM (list Item) :=
  let misplaced range message := do! quietly (complain module range E0101 message) in mret [] in
  match st with
  | SLine l =>
      if bool_decide (line_keyword l ∈ PLAN_OPTS) then mret []
      else misplaced (line_range l) (concats ["`"; line_keyword l; "` is not an item; a step is a call, `"; line_keyword l; "()`"])
  | SStep s => step module s owner false
  | SPipeline steps => fold_each (fun out s => let! its := step module s owner false in mret (out ++ its)) [] steps
  | SKnell s => step module s owner true
  | SBlock b =>
      if block_keyword b == "par" then let! children := items module (block_body b) owner in mret [Par children]
      else if block_keyword b == "preflight" then mret [Preflight (preflight_guards (block_body b))]
      else misplaced (block_range b) (concats ["`"; block_keyword b; "` is not an item"])
  | SSlot _ name => mret [Slot name]
  | SObserve range call alias =>
      let! probe := match call with XCall _ path _ => quietly (probe_name module path range) | _ => mret None end in
      match probe, alias with
      | Some probe, Some alias => do! add_alias alias [] in mret [Observe probe alias]
      | _, _ => mret []
      end
  | SAssert range args =>
      let! guard := quietly (guard_of module args range) in
      mret (match guard with Some g => [Assert g (kw_duration args "window") (on_lapse args)] | None => [] end)
  | SRepeat range args var body => expand_repeat module range args var body owner
  | SWhen range args then_ else_ =>
      let! guard := quietly (guard_of module args range) in
      match guard with
      | Some g => expand_when module range args then_ else_ owner g
      | None => mret []
      end
  | SContribution range _ _ _ => misplaced range "a slot contribution belongs in a defrole"
  | SDef d => misplaced (def_range d) "a definition belongs at the top of the file"
  | SImport i => misplaced (import_range i) "an import belongs at the top of the file"
  end.

(** [Context::expand_protocol] *)
Definition expand_protocol (module : nat) (s : Ast.Step) (proto : Def) (owner : Contract) : XM (list Item) :=
  let! impls := lift (impls_of module (def_name proto)) in
  do! quietly (check_inverse module proto impls) in
  match List.find (fun rd => bool_decide (fst rd ∈ ct_roles owner)) impls with
  | Some (_, d) => items module (def_body d) owner
  | None =>
      match (l ← List.find (fun l => line_keyword l == "default") (body_lines (def_body proto)); head (line_args l)) with
      | Some (AExpr (XCall r path args)) => step module (Ast.mkStep (step_range s) (XCall r path args) (step_kws s) (Ast.step_alias s)) owner false
      | _ =>
          do! quietly (complain module (step_range s) E0112
                (concats ["no defimpl of "; def_name proto; " for the roles of "; ct_name owner; " ("; join ", " (ct_roles owner);
                          ") and no default"])) in
          mret []
      end
  end.

(** [Context::expand_step]: a call of a protocol, or of an op. *)
Definition expand_step_with (module : nat) (s : Ast.Step) (owner : Contract) (knell : bool) : XM (list Item) :=
  let one := let! it := expand_step_one module s owner knell in mret (option_list it) in
  match step_call s with
  | XCall _ path _ =>
      let! ops := lift (lookup_name program module "defop" path) in
      match ops with
      | [] =>
          let! protos := lift (lookup_name program module "defprotocol" path) in
          match protos with
          | (_, proto) :: _ => expand_protocol module s proto owner
          | [] => one
          end
      | _ => one
      end
  | _ => one
  end.
End Level.

(** [Context::expand_items] and [Context::expand_step]. *)
Fixpoint expand_items (fuel : nat) (module : nat) (body : list Stmt) (owner : Contract) : XM (list Item) :=
  match fuel with
  | O => mthrow OutOfTurns
  | S fuel =>
      fold_each (fun out st =>
        let! its := expand_stmt (expand_items fuel) (expand_step fuel) module owner st in mret (out ++ its)) [] body
  end
with expand_step (fuel : nat) (module : nat) (s : Ast.Step) (owner : Contract) (knell : bool) : XM (list Item) :=
  match fuel with
  | O => mthrow OutOfTurns
  | S fuel => expand_step_with (expand_items fuel) (expand_step fuel) module s owner knell
  end.

(** ** Probes *)

Definition names_controller (args : list Arg) : bool :=
  existsb (fun a => match a with AExpr (XLit _ (LitAtom x)) => x == "controller" | _ => false end) args.

Definition probe_controller (d : Def) : bool :=
  existsb (fun l => (line_keyword l == "locus") && names_controller (line_args l)) (body_lines (def_body d)).

Definition ref_names (args : list Arg) : list string :=
  filter_map (fun a => match a with AExpr (XRef _ path) => Some (join "." path) | _ => None end) args.

Definition produced (d : Def) : list string :=
  concat (map (fun l => if line_keyword l == "produces" then ref_names (line_args l) else []) (body_lines (def_body d))).

(** [entry(..).or_insert(..)] *)
Definition or_insert (m : BMap bool) (name : string) (v : bool) : BMap bool := if bm_contains name m then m else bm_insert name v m.

Definition scope_probe (m : BMap bool) (d : Def) : BMap bool :=
  let controller := probe_controller d in
  or_insert (foldl (fun m n => bm_insert n controller m) m (produced d)) (def_name d) controller.

(** The probes in scope of a plan: those of its module with what they produce, and those of
    the imports by their qualified names. *)
Definition plan_scope (module : nat) : Result Scope Stop :=
  let? own := defs program module "defprobe" in
  let? m := the_module program module in
  let? imported := collect_results (fun i => rmap (map (fun d => (concats [fst i; "."; def_name (snd d)], probe_controller (snd d))))
                                        (defs program (snd i) "defprobe")) (m_imports m) in
  let probes := foldl (fun m d => scope_probe m (snd d)) [] own in
  Ok (mkScope [] [] (foldl (fun m p => or_insert m (fst p) (snd p)) probes (concat imported))).

(** The definitions of probes a plan declares, each once; two under one name are refused. A
    definition is told from another by its place. *)
Definition collect_probe (found : list (nat * Def)) (d : nat * Def) : DM (list (nat * Def)) :=
  match List.find (fun e => def_name (snd e) == def_name (snd d)) found with
  | None => mret (found ++ [d])
  | Some (m0, d0) =>
      if (m0 == fst d) && (def_range d0 == def_range (snd d)) then mret found
      else
        let! first := lift (the_module program m0) in
        do! complain (fst d) (def_name_range (snd d)) E0103
              (concats ["probe "; def_name (snd d); " is also defined in "; m_path first;
                        "; the engine finds a probe by its name, so the two would be indistinguishable"]) in
        mret found
  end.

Definition probe_cx (d : nat * Def) (scope : Scope) : OpCx := mkOpCx (fst d) (snd d) [] scope.

(** The fact a probe reads. *)
Definition probe_reads (d : nat * Def) (scope : Scope) : DM (option string) :=
  fold_each (fun reads l =>
    match reads, line_args l with
    | None, [AExpr (XCall _ _ _) as a] =>
        let! s := shape program (probe_cx d scope) a false in
        mret (match s with Some (shape, _) => Some shape | None => None end)
    | Some _, _ => do! complain (fst d) (line_range l) E0101 "a probe reads one fact shape" in mret reads
    | None, _ => do! complain (fst d) (line_range l) E0101 "`reads` names one fact shape with its instance, as `guest.state(g)`" in mret reads
    end) None (List.filter (fun l => line_keyword l == "reads") (body_lines (def_body (snd d)))).

Definition probe_line (cx : OpCx) (p : ProbeDecl) (l : Line) : DM ProbeDecl :=
  let k := line_keyword l in
  let args := line_args l in
  if k == "run" then
    match args with
    | AExpr (XLit _ (LitStr s)) :: _ =>
        let! cmd := template program cx s in
        mret (mkProbe (pd_name p) (pd_locus p) (pd_body p ++ [PRun (mkRun cmd [] None)]) (pd_produces p) (pd_static p)
                (pd_equivalence p) (pd_reads p))
    | _ => mret p
    end
  else if k == "locus" then
    mret (if names_controller args
          then mkProbe (pd_name p) LController (pd_body p) (pd_produces p) (pd_static p) (pd_equivalence p) (pd_reads p) else p)
  else if k == "produces" then
    mret (mkProbe (pd_name p) (pd_locus p) (pd_body p) (pd_produces p ++ ref_names args) (pd_static p) (pd_equivalence p) (pd_reads p))
  else if k == "static" then
    mret (mkProbe (pd_name p) (pd_locus p) (pd_body p) (pd_produces p)
            (existsb (fun a => match a with AExpr (XLit _ (LitBool true)) => true | _ => false end) args)
            (pd_equivalence p) (pd_reads p))
  else if k == "equivalence" then
    mret (match args with
          | AExpr (XLit _ (LitAtom x)) :: _ =>
              mkProbe (pd_name p) (pd_locus p) (pd_body p) (pd_produces p) (pd_static p) x (pd_reads p)
          | _ => p
          end)
  else mret p.

Definition probe_decl (scope : Scope) (d : nat * Def) : DM ProbeDecl :=
  let! reads := probe_reads d scope in
  let scope := with_loop_vars (sc_loop_vars scope ++ match reads with Some s => bound_names s | None => [] end) scope in
  fold_each (probe_line (probe_cx d scope)) (mkProbe (def_name (snd d)) LTarget [] [] false "bytes" reads)
    (body_lines (def_body (snd d))).

(** [Context::probes_of] *)
Definition probes_of (module : nat) (scope : Scope) : DM (list ProbeDecl) :=
  let! m := lift (the_module program module) in
  let! all := lift (collect_results (fun i => defs program i "defprobe") (module :: children_of m)) in
  let! found := fold_each collect_probe [] (concat all) in
  fold_each (fun out d => let! p := probe_decl scope d in mret (out ++ [p])) [] found.

(** ** Slots *)

(** A contribution to a slot: its priority, its role, and what it puts there. *)
Definition Contribution_ : Type := N * string * Stmt.

Definition contribution_le (a b : Contribution_) : bool :=
  (fst (fst a) <? fst (fst b))%N || ((fst (fst a) =? fst (fst b))%N && str_le (snd (fst a)) (snd (fst b))).

Fixpoint insert_contribution (c : Contribution_) (l : list Contribution_) : list Contribution_ :=
  match l with
  | [] => [c]
  | x :: r => if contribution_le c x then c :: l else x :: insert_contribution c r
  end.

(** [contributions.sort_by(..)]: the sort is stable. *)
Definition sort_contributions (l : list Contribution_) : list Contribution_ := foldr insert_contribution [] l.

Definition contributions_of (name : string) (roles : list string) (ds : list (nat * Def)) : list Contribution_ :=
  concat (map (fun d =>
    if bool_decide (def_name (snd d) ∈ roles) then
      filter_map (fun st => match st with
                            | SContribution _ slot priority item =>
                                if slot == name then Some (default_n 100 priority, def_name (snd d), item) else None
                            | _ => None
                            end) (def_body (snd d))
    else []) ds).

Section Slots.
Variable items : nat -> list Stmt -> Contract -> XM (list Item).
Variables (module : nat) (owner : Contract).

Definition fill_slot (name : string) : XM (list Item) :=
  let! roles := lift (defs program module "defrole") in
  match sort_contributions (contributions_of name (ct_roles owner) roles) with
  | [] => mret [Slot name]
  | cs => fold_each (fun out c => let! its := items module [snd c] owner in mret (out ++ its)) [] cs
  end.

(** [Context::fill_slots], of one item. *)
Fixpoint fill_item (it : Item) : XM (list Item) :=
  let fill := fix fill (l : list Item) : XM (list Item) :=
    match l with
    | [] => mret []
    | x :: r => let! a := fill_item x in let! b := fill r in mret (a ++ b)
    end in
  match it with
  | Slot name => fill_slot name
  | Par children => let! cs := fill children in mret [Par cs]
  | Repeat form var body => let! b := fill body in mret [Repeat form var b]
  | When guard window lapse then_ else_ =>
      let! t := fill then_ in
      let! e := fill else_ in
      mret [When guard window lapse t e]
  | other => mret [other]
  end.

Definition fill_slots (l : list Item) : XM (list Item) :=
  fold_each (fun out it => let! its := fill_item it in mret (out ++ its)) [] l.
End Slots.

(** ** The plan *)

Definition eta_plan (p : Plan) : Plan :=
  mkPlan (plan_id p) (plan_owner p) (plan_gate p) (plan_wane p) (plan_renew_within p) (plan_backstop p)
    (plan_fires_by_construction p) (plan_strictness p) (plan_mode p) (plan_exclusivity p) (plan_require_journal p) (plan_body p)
    (plan_probes p).

Definition set_plan_gate v p := ltac:(field_update eta_plan plan_gate v p).
Definition set_plan_wane v p := ltac:(field_update eta_plan plan_wane v p).
Definition set_plan_renew_within v p := ltac:(field_update eta_plan plan_renew_within v p).
Definition set_plan_backstop v p := ltac:(field_update eta_plan plan_backstop v p).
Definition set_plan_fires v p := ltac:(field_update eta_plan plan_fires_by_construction v p).
Definition set_plan_strictness v p := ltac:(field_update eta_plan plan_strictness v p).
Definition set_mode v p := ltac:(field_update eta_plan plan_mode v p).
Definition set_plan_exclusivity v p := ltac:(field_update eta_plan plan_exclusivity v p).
Definition set_plan_require_journal v p := ltac:(field_update eta_plan plan_require_journal v p).
Definition set_plan_body v p := ltac:(field_update eta_plan plan_body v p).
Definition set_plan_probes v p := ltac:(field_update eta_plan plan_probes v p).

(** One entry of a backstop's triggers; [pending] is the heartbeat an [interval] is of. *)
Definition trigger_entry (st : list Trigger * option nat) (a : Arg) : list Trigger * option nat :=
  match a with
  | AKw (mkKw _ name (AExpr (XLit _ (LitDuration d)))) =>
      let '(triggers, pending) := st in
      if name == "after" then (triggers ++ [After d], pending)
      else if name == "unless_confirmed" then (triggers ++ [UnlessConfirmed d], pending)
      else if name == "unless_heartbeat" then (triggers ++ [UnlessHeartbeat d None], Some (length triggers))
      else if name == "interval" then
        (match pending with
         | Some i => alter (fun t => match t with UnlessHeartbeat dl _ => UnlessHeartbeat dl (Some d) | _ => t end) i triggers
         | None => triggers
         end, pending)
      else st
  | _ => st
  end.

Definition backstop_of (args : list Arg) : Backstop :=
  mkBackstop
    (match kw_arg args "trigger" with
     | Some (AExpr (XList _ items)) => fst (foldl trigger_entry ([], None) items)
     | _ => []
     end)
    (match kw_arg args "arm_before" with Some (AExpr (XLit _ (LitInt n))) => wrap32 n | _ => 1%N end).

(** A keyword line at the top of a plan's body. *)
Definition plan_option (module : nat) (p : Plan) (l : Line) : DM Plan :=
  let k := line_keyword l in
  let args := line_args l in
  if k == "gate" then
    match args with
    | AExpr e :: _ =>
        let! g := gate program turns module [] e in
        mret (match g with
              | Some g =>
                  set_plan_gate (Some (mkPlanGate g (kw_duration args "window")
                                         (match expr_kw_bool args "allow_zero_human" with Some b => b | None => false end))) p
              | None => p
              end)
    | _ => mret p
    end
  else if k == "wane" then
    do! match first_duration args with
        | None => complain module (line_range l) E0107 "wane expects a duration (4h, 30m)"
        | Some _ => mret tt
        end in
    mret (set_plan_renew_within (kw_duration args "renew_within") (set_plan_wane (first_duration args) p))
  else if k == "backstop" then mret (set_plan_backstop (Some (backstop_of args)) p)
  else if k == "mode" then
    mret (match first_atom args with Some a => set_mode (if a == "auto" then Auto else Manual) p | None => p end)
  else if k == "strictness" then
    mret (match first_atom args with Some a => set_plan_strictness (if a == "warn" then Warn else Strict) p | None => p end)
  else if k == "exclusivity" then mret (set_plan_exclusivity (first_atom args) p)
  else if k == "fires_by_construction" then
    mret (set_plan_fires (match first_bool args with Some b => b | None => false end) p)
  else if k == "require" then
    mret (match (a ← kw_arg args "journal"; atom_of a) with
          | Some a => set_plan_require_journal (Some (if a == "signed" then Signed else Chained)) p
          | None => p
          end)
  else mret p.

(** The items of a body, slots filled, from a scope. *)
Definition expand_body (fuel : nat) (module : nat) (body : list Stmt) (owner : Contract) (scope : Scope) : DM (list Item) := fun ds =>
  let '(x, r) := (let! items := expand_items fuel module body owner in
                  fill_slots (expand_items fuel) module owner items) (mkExpansion ds scope) in
  (xp_diags x, r).

(** [Context::expand_plan] *)
Definition expand_plan (fuel : nat) (clauses : list (nat * Def)) (owner : Contract) : DM (option Plan) :=
  do! ExpandOp.check_duplicates program clauses in
  match clauses with
  | [] => mthrow Panic
  | (m0, d0) :: _ =>
      let! found := dispatch program contracts clauses owner ("plan " +:+ def_name d0) (m0, def_name_range d0) in
      match found with
      | None => mret None
      | Some (module, d, _) =>
          let! scope := lift (plan_scope module) in
          let! plan := fold_each (plan_option module) (plan_new (def_name d) (ct_name owner) []) (body_lines (def_body d)) in
          let! probes := probes_of module scope in
          let! body := expand_body fuel module (def_body d) owner scope in
          mret (Some (set_plan_body body (set_plan_probes probes plan)))
      end
  end.
End Expand.

(** ** Resolution *)

(** What the caller selects. *)
Record Options := mkOptions {
  opt_suspend_e0604 : bool;
  opt_host : option string;
  opt_plan : option string;
  opt_requester : option string;
  opt_inventory : option string;
}.

Definition IR_VERSION : N := 6.

(** An answer: a value, or the diagnostics that refuse it. *)
Definition Answer (A : Type) : Type := Result (Result A (list SpanDiagnostic)) Stop.

Definition refused {A} (ds : list SpanDiagnostic) : Answer A := Ok (Err ds).

(** The plan of that name, or the only one. *)
Definition plan_named (p : list Module_) (plans : list (nat * Def)) (wanted : option string) : Result string (list SpanDiagnostic) :=
  match wanted, dedup (map (fun d => def_name (snd d)) plans) with
  | Some name, _ => Ok name
  | None, [one] => Ok one
  | None, [] =>
      Err [diag E0102 None (concats [match p with m :: _ => m_path m | [] => EmptyString end; ": no plan is defined"])]
  | None, many =>
      Err [diag E0102 None (concats ["the file defines several plans ("; join ", " many; "); name one with --plan"])]
  end.

(** The host of that name, or the one the plan's only clause names. *)
Definition host_named (clauses : list (nat * Def)) (wanted : option string) : Result string (list SpanDiagnostic) :=
  match wanted with
  | Some h => Ok h
  | None =>
      match filter_map (fun d => pattern_host_name (snd d)) clauses, clauses with
      | [h], [_] => Ok h
      | _, _ => Err [diag E0112 None "the plan's host is not fixed by its pattern; name one with --host"]
      end
  end.

Definition contract_named (contracts : list Contract) (host : string) : Result Contract (list SpanDiagnostic) :=
  match List.find (fun c => ct_name c == host) contracts with
  | Some c => Ok c
  | None =>
      Err [with_nearest (nearest host (map ct_name contracts)) (diag E0102 None (concats ["host "; host; " is not in the inventory"]))]
  end.

(** The clauses of the plan that is meant, and the contract of its host. *)
Definition choose (p : list Module_) (opts : Options) (contracts : list Contract) : Answer (list (nat * Def) * Contract) :=
  let? plans := defs p 0 "defplan" in
  Ok (let? name := plan_named p plans (opt_plan opts) in
      let? clauses :=
        match named name plans with
        | [] => Err [with_nearest (nearest name (dedup (map (fun d => def_name (snd d)) plans)))
                       (diag E0102 None ("no plan named " +:+ name))]
        | clauses => Ok clauses
        end in
      let? host := host_named clauses (opt_host opts) in
      let? contract := contract_named contracts host in
      Ok (clauses, contract)).

Section Resolve.
Variable canonicalize : string -> option string.
Variable read_to_string : string -> Result string string.
Variable toml_from_str : string -> Result InventoryFile string.
Variables turns fuel : nat.

(** The site a program is checked against, and its inventory. *)
Definition resolve_site (p : list Module_) (opts : Options) : Answer (SiteDecl * Inventory) :=
  let? site := site_of p 0 in
  match site with
  | Err d => refused [d]
  | Ok (site_module, block) =>
      let decl := declare block in
      let? ds := site_diagnostics p site_module block decl (opt_suspend_e0604 opts) in
      match ds with
      | _ :: _ => refused ds
      | [] =>
          let? m := the_module p site_module in
          match (match d_inventory decl with
                 | Some b => read_inventory read_to_string toml_from_str (parent (m_path m)) b (opt_inventory opts)
                 | None => Err (E0601, "no inventory declared")
                 end) with
          | Ok inv => Ok (Ok (decl, inv))
          | Err r => let? s := span_of m (block_range block) in refused [diag (fst r) (Some s) (snd r)]
          end
      end
  end.

Definition requester_of (opts : Options) (decl : SiteDecl) : string :=
  match opt_requester opts with
  | Some r => r
  | None => match d_identities decl with i :: _ => id_name i | [] => "requester" end
  end.

(** The plan of the chosen clauses, against a site. *)
Definition resolve_plan (p : list Module_) (opts : Options) (decl : SiteDecl) (inv : Inventory) : Answer PlanIr :=
  let? chosen := choose p opts (inv_contracts inv) in
  match chosen with
  | Err ds => refused ds
  | Ok (clauses, contract) =>
      let '(ds, r) := expand_plan p (inv_contracts inv) turns fuel clauses contract [] in
      let? plan := r in
      match ds, plan with
      | _ :: _, _ => refused ds
      | [], None => Err Panic
      | [], Some plan =>
          Ok (Ok (mkPlanIr IR_VERSION (requester_of opts decl)
                    (derive decl (inv_hosts inv) (inv_authenticators inv) (inv_scheduled inv)) plan))
      end
  end.

(** [resolve] *)
Definition resolve (path : string) (opts : Options) : Answer PlanIr :=
  let? loaded := load canonicalize read_to_string turns fuel path in
  match loaded with
  | Err ds => refused ds
  | Ok p =>
      let? site := resolve_site p opts in
      match site with
      | Err ds => refused ds
      | Ok (decl, inv) => resolve_plan p opts decl inv
      end
  end.
End Resolve.
