(* ===== verification/ExpandLogic.v ===== *)
(** * What expansion gives

    Every reference in the bodies of a step says where its value comes from: a name the call
    bound, or a name in scope at the call, of the origin the scope records. And in a whole plan
    an output is read under the secrecy that the step that produces it declares. *)

From Stdlib Require Import Ascii.
From stdpp Require Import base strings list sets.
From S2P Require Import Prelude Monad Ordered Diagnostics Model Tree Ast StaticValue Site Program ExpandOp Expand.

(** ** What a computation gives where it answers *)

Definition gives {S A} (P : A -> Prop) (m : S -> S * Result A Stop) : Prop := forall s s' x, m s = (s', Ok x) -> P x.

Create HintDb gives.

Lemma gives_ret {S A} (P : A -> Prop) (x : A) : P x -> gives (S := S) P (mret x).
Proof. by intros Hx s s' y [= _ <-]. Qed.

Lemma gives_throw {S A} (P : A -> Prop) e : gives (S := S) P (mthrow (A := A) e).
Proof. by intros s s' y. Qed.

Lemma gives_then {S A B} (P : A -> Prop) (Q : B -> Prop) (m : S -> S * Result A Stop) (k : A -> S -> S * Result B Stop) :
  gives P m -> (forall x, P x -> gives Q (k x)) -> gives Q (mthen m k).
Proof.
  intros Hm Hk s s' y. unfold mthen. destruct (m s) as [s1 [x|e]] eqn:Hx; [|done]. apply Hk. by eapply Hm.
Qed.

Lemma gives_any {S A} (m : S -> S * Result A Stop) : gives (fun _ => True) m.
Proof. done. Qed.

Lemma gives_skip {S A B} (Q : B -> Prop) (m : S -> S * Result A Stop) (k : A -> S -> S * Result B Stop) :
  (forall x, gives Q (k x)) -> gives Q (mthen m k).
Proof. intros Hk. eapply gives_then; [apply gives_any|auto]. Qed.

Lemma gives_weaken {S A} (P Q : A -> Prop) (m : S -> S * Result A Stop) : gives P m -> (forall x, P x -> Q x) -> gives Q m.
Proof. intros Hm HPQ s s' x Hx. eapply HPQ, Hm, Hx. Qed.

Lemma gives_fold_each {S A B} (P : B -> Prop) (f : B -> A -> S -> S * Result B Stop) l : forall acc,
  P acc -> (forall acc x, P acc -> gives P (f acc x)) -> gives P (fold_each f acc l).
Proof.
  induction l as [|x l IH]; intros acc Ha Hf; [by apply gives_ret|]. cbn [fold_each]. eapply gives_then; [by apply Hf|].
  intros acc' Ha'. by apply IH.
Qed.

Lemma gives_first_some {S A B} (P : B -> Prop) (f : A -> S -> S * Result (option B) Stop) l :
  (forall x, gives (fun o => forall y, o = Some y -> P y) (f x)) -> gives (fun o => forall y, o = Some y -> P y) (first_some f l).
Proof.
  intros Hf. induction l as [|x l IH]; cbn [first_some]; [by apply gives_ret|]. eapply gives_then; [apply Hf|].
  intros [y|] Hy; [by apply gives_ret|apply IH].
Qed.

(** ** References *)

Definition value_ok (ok : Ref -> Prop) (v : Value) : Prop := Forall ok (value_refs v).
Definition parts_ok (ok : Ref -> Prop) (ps : list Part) : Prop := Forall ok (template_refs ps).
Definition prim_ok (ok : Ref -> Prop) (p : Prim) : Prop := Forall ok (prim_refs p).
Definition body_ok (ok : Ref -> Prop) (b : list Prim) : Prop := Forall (prim_ok ok) b.

Definition undo_body (u : Undo) : list Prim := match u with Computed b _ | Compensate b _ => b | Restore | NoUndo => [] end.

(** The bodies of an op. *)
Definition op_bodies (o : Op) : list Prim :=
  op_do o ++ undo_body (op_undo o) ++ match op_suspend o with Some b => b | None => [] end
  ++ match op_reestablish o with Some b => b | None => [] end.

Definition op_ok (ok : Ref -> Prop) (o : Op) : Prop := body_ok ok (op_bodies o).

Definition opt_ok {A} (P : A -> Prop) (o : option A) : Prop := forall x, o = Some x -> P x.

Lemma template_refs_app l l' : template_refs (l ++ l') = template_refs l ++ template_refs l'.
Proof. induction l as [|[s|r] l IH]; cbn; [done|done|]. by f_equal. Qed.

Lemma parts_ok_app ok l l' : parts_ok ok (l ++ l') <-> parts_ok ok l /\ parts_ok ok l'.
Proof. unfold parts_ok. by rewrite template_refs_app, Forall_app. Qed.

Lemma parts_ok_lit ok s : parts_ok ok [PLit s].
Proof. constructor. Qed.

Lemma value_ok_lit ok s : value_ok ok (VLit s).
Proof. apply Forall_nil_2. Qed.

Lemma value_template_ok ok v : parts_ok ok (value_template v) <-> value_ok ok v.
Proof. by destruct v. Qed.

Lemma value_of_parts_ok ok ps : parts_ok ok ps -> value_ok ok (value_of_parts ps).
Proof. unfold value_of_parts. destruct (forallb _ _); [constructor|done]. Qed.

Section Ok.
Variable program : list Module_.
Variable turns : nat.
Variable ok : Ref -> Prop.

(** *** In a body *)

Section Body.
Variable cx : OpCx.
Hypothesis Hclassify : forall path, ok (classify cx path).
Hypothesis Hsecret : forall x, ok (RSecret x).
Hypothesis Hliteral : forall n v text, bm_get n (ox_bindings cx) = Some (BLiteral v (Some text)) -> value_ok ok text.

Lemma substituted_ok e v : substituted cx e = Some v -> value_ok ok v.
Proof.
  unfold substituted. destruct e as [| r [|n []] | | | | | | | ]; try done. destruct (bm_get n _) as [[v' [t|]| | | | | |]|] eqn:Hb; try done.
  intros [= <-]. by eapply Hliteral.
Qed.

Lemma classify_expr_gives e : gives (opt_ok ok) (classify_expr program cx e).
Proof.
  unfold classify_expr. destruct e as [|r path|r path args| | | | | |]; try by apply gives_ret.
  - apply gives_ret. by intros x [= <-].
  - case_bool_decide; [|by apply gives_ret].
    assert (Hc : gives (opt_ok ok) (do! complain program (ox_module cx) r E0101 "secret() takes the binding's atom" in mret None))
      by (apply gives_skip; intros ?; by apply gives_ret).
    destruct args as [|[|[? []| | | | | | | |]] ?]; try exact Hc. apply gives_ret. by intros y [= <-].
Qed.

Lemma interpolated_gives e : gives (parts_ok ok) (interpolated program cx e).
Proof.
  unfold interpolated. destruct (substituted cx e) as [v|] eqn:Hs.
  { apply gives_ret, value_template_ok. by eapply substituted_ok. }
  eapply gives_then; [apply classify_expr_gives|]. intros [r|] Hr.
  - apply gives_ret. constructor; [by apply Hr|constructor].
  - apply gives_skip. intros s. apply gives_ret. apply parts_ok_lit.
Qed.

Lemma template_gives raw : gives (parts_ok ok) (template program cx raw).
Proof.
  unfold template. apply gives_skip. intros parts. apply gives_fold_each; [constructor|]. intros out [s|e] Ho.
  - apply gives_ret, parts_ok_app. split; [done|apply parts_ok_lit].
  - eapply gives_then; [apply interpolated_gives|]. intros ps Hps. by apply gives_ret, parts_ok_app.
Qed.

Lemma value_gives a : gives (value_ok ok) (value program cx a).
Proof.
  assert (He : forall e, gives (value_ok ok) (match substituted cx e with Some v => mret v | None =>
      let! r := classify_expr program cx e in
      match r with Some r => mret (VRef r) | None => let! s := lift (src program (ox_module cx) (expr_range e)) in mret (VLit s) end end)).
  { intros e. destruct (substituted cx e) as [v|] eqn:Hs; [apply gives_ret; by eapply substituted_ok|].
    eapply gives_then; [apply classify_expr_gives|]. intros [r|] Hr; [|by apply gives_skip; intros s; apply gives_ret; constructor].
    apply gives_ret. by constructor; [apply Hr|]. }
  unfold value. destruct a as [k|[r []| | | | | | | |]]; try apply He.
  - apply gives_skip. intros s. apply gives_ret. constructor.
  - eapply gives_then; [apply template_gives|]. intros ps Hps. by apply gives_ret, value_of_parts_ok.
Qed.

#[local] Hint Resolve value_gives template_gives : gives.

Definition keeps_prim (m : DM (option Prim)) : Prop := gives (opt_ok (prim_ok ok)) m.

Lemma gives_none : keeps_prim (mret None).
Proof. by apply gives_ret. Qed.

Lemma gives_some p : prim_ok ok p -> keeps_prim (mret (Some p)).
Proof. intros Hp. apply gives_ret. by intros q [= <-]. Qed.

Lemma gives_no_refs p : prim_refs p = [] -> keeps_prim (mret (Some p)).
Proof. intros Hp. apply gives_some. unfold prim_ok. rewrite Hp. constructor. Qed.

Lemma with_fact_gives args k : (forall f, keeps_prim (k f)) -> keeps_prim (with_fact program cx args k).
Proof.
  intros Hk. unfold with_fact. destruct (head _); [|apply gives_none]. apply gives_skip. intros [f|]; [apply Hk|apply gives_none].
Qed.

Lemma with_content_gives args name k :
  (forall f v, prim_refs (k f v) = value_refs v) -> keeps_prim (with_content program cx args name k).
Proof.
  intros Hk. apply with_fact_gives. intros f. destruct (kw_arg args name); [|apply gives_none].
  eapply gives_then; [apply value_gives|]. intros v Hv. apply gives_some. unfold prim_ok. by rewrite Hk.
Qed.

Lemma run_prim_gives r args : keeps_prim (run_prim program cx r args).
Proof.
  unfold run_prim. assert (Hc : keeps_prim (do! complain program (ox_module cx) r E0101 "run takes a string" in mret None))
    by (apply gives_skip; intros ?; apply gives_none).
  destruct (head _) as [[? []| | | | | | | |]|]; try exact Hc. clear Hc.
  eapply gives_then; [apply template_gives|]. intros cmd Hcmd.
  apply (gives_then (fun env => Forall (fun e => value_ok ok (ev_value e)) env)).
  { assert (Hn : gives (S := list SpanDiagnostic) (fun env => Forall (fun e => value_ok ok (ev_value e)) env) (mret []))
      by (apply gives_ret; constructor).
    destruct (kw_arg args "env") as [[|[]]|]; try exact Hn. apply gives_fold_each; [constructor|]. intros env e He.
    eapply gives_then; [apply value_gives|]. intros v Hv. apply gives_ret, Forall_app. split; [done|]. by constructor. }
  intros env Henv. apply (gives_then (opt_ok (value_ok ok))).
  { destruct (kw_arg args "stdin"); [|by apply gives_ret]. eapply gives_then; [apply value_gives|]. intros v Hv.
    apply gives_ret. by intros w [= <-]. }
  intros stdin Hstdin. apply gives_some. unfold prim_ok. cbn [prim_refs run_cmd run_env run_stdin].
  rewrite !Forall_app. split; [done|]. split.
  - clear -Henv. induction Henv; cbn; [constructor|]. by apply Forall_app.
  - destruct stdin; [by apply Hstdin|constructor].
Qed.

Lemma stage_prim_gives args : keeps_prim (stage_prim program cx args).
Proof.
  unfold stage_prim. apply gives_skip. intros name. cbv zeta. destruct (kw_arg args "content"); [|apply gives_none].
  eapply gives_then; [apply value_gives|]. intros v Hv. by apply gives_some.
Qed.

Lemma hook_prim_gives args : keeps_prim (hook_prim program cx args).
Proof.
  unfold hook_prim. apply (gives_then (fun kws => Forall (fun a => value_ok ok (Model.kw_value a)) kws)).
  - apply gives_fold_each; [constructor|]. intros kws [k|e] Hk; [|by apply gives_ret]. case_bool_decide; [by apply gives_ret|].
    eapply gives_then; [apply value_gives|]. intros v Hv. apply gives_ret, Forall_app. split; [done|]. by constructor.
  - intros kws Hk. apply gives_some. unfold prim_ok. cbn [prim_refs hook_args].
    induction Hk; cbn; [constructor|]. by apply Forall_app.
Qed.

Definition values_ok (values : BMap Value) : Prop := Forall (fun nv => value_ok ok (snd nv)) values.

Lemma bm_insert_Forall {A} (P : string * A -> Prop) k v (m : BMap A) : P (k, v) -> Forall P m -> Forall P (bm_insert k v m).
Proof.
  intros Hv. induction 1 as [|[k' v'] m Hk Hm IH]; cbn [bm_insert]; [by constructor|].
  case_bool_decide; [by constructor|]. destruct (str_le k k'); by repeat constructor.
Qed.

Lemma bm_get_In {A} k (m : BMap A) v : bm_get k m = Some v -> (k, v) ∈ m.
Proof.
  unfold bm_get. intros ([k' v'] & Hf & ->)%fmap_Some. apply List.find_some in Hf as [Hin Hk%bool_decide_eq_true].
  cbn in Hk. subst k'. by apply list_elem_of_In.
Qed.

Lemma call_prim_gives d args : keeps_prim (call_prim program cx d args).
Proof.
  unfold call_prim. destruct (List.find _ _) as [l|]; [|apply gives_none].
  assert (Hc : keeps_prim (do! complain program (ox_module cx) (def_range d) E0101
    (concats ["defprim "; def_name d; " needs `run "; dquote; "..."; dquote; "`"]) in mret None)) by (apply gives_skip; intros ?; apply gives_none).
  destruct (line_args l) as [|[|[? []| | | | | | | |]] ?]; try exact Hc. clear Hc. cbv zeta.
  apply (gives_then values_ok).
  { apply gives_fold_each; [constructor|]. intros values [k|e] Hv; [|by apply gives_ret].
    eapply gives_then; [apply value_gives|]. intros v Hok. by apply gives_ret, bm_insert_Forall. }
  intros values Hvalues. apply gives_skip. intros parts. apply (gives_then (parts_ok ok)).
  { apply gives_fold_each; [constructor|]. intros out [s|e] Ho.
    - apply gives_ret, parts_ok_app. split; [done|apply parts_ok_lit].
    - destruct (match e with XRef _ [n] => bm_get n values | _ => None end) as [v|] eqn:He.
      + apply gives_ret, parts_ok_app. split; [done|]. apply value_template_ok.
        destruct e as [|? [|n []]| | | | | | |]; try done. apply bm_get_In in He. unfold values_ok in Hvalues.
        rewrite Forall_forall in Hvalues. by apply (Hvalues (n, v)).
      + eapply gives_then; [apply interpolated_gives|]. intros ps Hps. by apply gives_ret, parts_ok_app. }
  intros tmpl Ht. apply gives_some. unfold prim_ok. cbn [prim_refs call_run call_args]. apply Forall_app. split; [done|].
  induction Hvalues as [|[n v] values Hv _ IH]; cbn; [constructor|]. by apply Forall_app.
Qed.

Lemma prim_gives a : keeps_prim (prim program cx a).
Proof.
  unfold prim. assert (Hc : keeps_prim (do! complain program (ox_module cx) (arg_range a) E0101 "a body is a primitive call or a list of them" in mret None))
    by (apply gives_skip; intros ?; apply gives_none).
  destruct a as [|[| |r path args| | | | | |]]; try exact Hc. clear Hc. cbv zeta.
  repeat match goal with |- keeps_prim (if ?b then _ else _) => destruct b end.
  - apply run_prim_gives.
  - by apply with_content_gives.
  - apply with_fact_gives. intros f. by apply gives_no_refs.
  - by apply with_content_gives.
  - by apply with_content_gives.
  - apply with_fact_gives. intros f. by apply gives_no_refs.
  - apply stage_prim_gives.
  - apply hook_prim_gives.
  - by apply gives_no_refs.
  - by apply gives_no_refs.
  - apply gives_skip. intros [|[m d] ?]; [|apply call_prim_gives]. apply gives_skip. intros e. apply gives_skip. intros ns.
    apply gives_skip. intros ?. apply gives_none.
Qed.

Lemma add_prim_gives body a : body_ok ok body -> gives (body_ok ok) (add_prim program cx body a).
Proof.
  intros Hb. unfold add_prim. eapply gives_then; [apply prim_gives|]. intros [p|] Hp; apply gives_ret; [|done].
  apply Forall_app. split; [done|]. constructor; [by apply Hp|constructor].
Qed.

Lemma body_of_gives args : gives (body_ok ok) (body_of program cx args).
Proof.
  unfold body_of. apply gives_fold_each; [constructor|]. intros body a Hb.
  destruct a as [k|[]]; try (by apply add_prim_gives). apply gives_fold_each; [done|]. intros b x Hx. by apply add_prim_gives.
Qed.

Lemma undo_line_gives args : gives (fun u => body_ok ok (undo_body u)) (undo_line program cx args).
Proof.
  assert (Hc : gives (fun u => body_ok ok (undo_body u)) (let! body := body_of program cx args in mret (Computed body [])))
    by (eapply gives_then; [apply body_of_gives|]; intros b Hb; by apply gives_ret).
  unfold undo_line. destruct args as [|[k|[r []| | | | | | | |]] rest]; try exact Hc.
  - case_bool_decide; [|exact Hc]. eapply gives_then; [apply body_of_gives|]. intros b Hb. by apply gives_ret.
  - case_bool_decide; [|exact Hc]. apply gives_ret. constructor.
Qed.

Lemma op_ok_bodies o : op_ok ok o <-> body_ok ok (op_do o) /\ body_ok ok (undo_body (op_undo o))
  /\ body_ok ok (default [] (op_suspend o)) /\ body_ok ok (default [] (op_reestablish o)).
Proof. unfold op_ok, op_bodies, body_ok. rewrite !Forall_app. by destruct (op_suspend o), (op_reestablish o). Qed.

Lemma op_line_gives o l : op_ok ok o -> gives (op_ok ok) (op_line program turns cx o l).
Proof.
  intros Ho. apply op_ok_bodies in Ho as (Hdo & Hundo & Hs & Hr).
  assert (Hk : forall o', op_do o' = op_do o -> op_undo o' = op_undo o -> op_suspend o' = op_suspend o ->
    op_reestablish o' = op_reestablish o -> op_ok ok o').
  { intros o' H1 H2 H3 H4. apply op_ok_bodies. by rewrite H1, H2, H3, H4. }
  unfold op_line. cbv zeta. case_bool_decide.
  { apply gives_fold_each; [by apply Hk|]. intros o' a Ho'. unfold footprint_arg. destruct a as [k|e]; [|by apply gives_ret].
    destruct (footprint_kind _); [|by apply gives_skip; intros ?; apply gives_ret]. apply gives_skip. intros [[]|]; by apply gives_ret. }
  repeat match goal with
  | |- gives _ (if ?b then _ else _) => destruct b
  | |- gives _ (mret _) => apply gives_ret; by apply Hk
  end.
  all: try (apply gives_skip; intros ?; apply gives_ret; by apply Hk).
  - eapply gives_then; [apply body_of_gives|]. intros b Hb. by apply gives_ret, op_ok_bodies.
  - eapply gives_then; [apply undo_line_gives|]. intros u Hu. by apply gives_ret, op_ok_bodies.
  - unfold undo_pre_line. apply (gives_then (fun u => body_ok ok (undo_body u))); [|intros u Hu; by apply gives_ret, op_ok_bodies].
    apply gives_skip. intros pre. apply gives_ret. by destruct (op_undo o).
  - eapply gives_then; [apply body_of_gives|]. intros b Hb. by apply gives_ret, op_ok_bodies.
  - eapply gives_then; [apply body_of_gives|]. intros b Hb. by apply gives_ret, op_ok_bodies.
Qed.

Lemma lower_op_gives : gives (op_ok ok) (lower_op program turns cx).
Proof.
  unfold lower_op. apply (gives_then (op_ok ok)).
  - apply gives_fold_each; [constructor|]. intros o l. apply op_line_gives.
  - intros o Ho. cbv zeta. apply gives_ret. apply op_ok_bodies in Ho as (H1 & H2 & H3 & H4). apply op_ok_bodies.
    destruct (has_undo_line _); cbn; repeat split; try done. constructor.
Qed.
End Body.
End Ok.

(** ** What a call binds *)

(** A reference of the origin the scope records. *)
Definition classified (s : Scope) (r : Ref) : Prop :=
  match r with
  | ROutput a n secret =>
      exists outs, bm_get a (sc_aliases s) = Some outs /\ secret = existsb (fun o => (out_name o == n) && out_secret o) outs
  | RController n => n ∈ sc_loop_vars s \/ bm_get n (sc_probes s) = Some true
  | RFact n => bm_get n (sc_probes s) = Some false
  | RParam _ | RHost _ | RSecret _ => True
  end.

Definition bound_ok (ok : Ref -> Prop) (b : Bound) : Prop :=
  opt_ok ok (as_ref b) /\ match b with BLiteral _ text => opt_ok (value_ok ok) text | _ => True end.

Definition bindings_ok (ok : Ref -> Prop) (bs : BMap Bound) : Prop := Forall (fun nb => bound_ok ok (snd nb)) bs.

Lemma bm_contains_get {A} k (m : BMap A) : bm_contains k m = true -> exists v, bm_get k m = Some v.
Proof.
  unfold bm_contains, bm_get. intros ([k' v] & Hin & Hk)%existsb_exists. destruct (List.find _ m) as [e|] eqn:Hf; [by eexists|].
  by rewrite (List.find_none _ _ Hf _ Hin) in Hk.
Qed.

Lemma output_classified s a n : bm_contains a (sc_aliases s) = true -> classified s (ROutput a n (output_secret s a n)).
Proof.
  intros [outs Ho]%bm_contains_get. exists outs. unfold output_secret. by rewrite Ho.
Qed.

Section Call.
Variable program : list Module_.
Variable contracts : list Contract.
Variables turns module : nat.
Variable scope : Scope.
#[local] Notation ok := (classified scope).

Lemma bound_ok_ref r b : as_ref b = Some r -> ok r -> bound_ok ok b.
Proof. intros Hb Hr. split; [|by destruct b]. rewrite Hb. by intros x [= <-]. Qed.

Lemma bound_ok_name : bound_ok ok BName.
Proof. by split. Qed.

Lemma bind_path_gives path range : gives (bound_ok ok) (bind_path program module scope path range).
Proof.
  unfold bind_path. destruct path as [|a [|n []]]; try (by apply gives_ret, bound_ok_name).
  - case_bool_decide; [by apply gives_ret; eapply bound_ok_ref; [done|left]|].
    destruct (bm_get a (sc_probes scope)) as [[]|] eqn:Hp; apply gives_ret; (eapply bound_ok_ref; [done|]); [by right|done|done].
  - case_bool_decide; [by apply gives_ret; eapply bound_ok_ref|]. destruct (bm_contains a (sc_aliases scope)) eqn:Ha.
    { apply gives_ret. eapply bound_ok_ref; [done|]. by apply output_classified. }
    apply gives_skip. intros m. destruct (bm_contains a (m_imports m)); [by apply gives_ret, bound_ok_name|].
    apply gives_skip. intros ?. by apply gives_ret, bound_ok_name.
Qed.

Lemma bind_gives fuel :
  (forall v, gives (bound_ok ok) (bind program fuel module scope v))
  /\ forall e, gives (value_ok ok) (literal_value program fuel module scope e).
Proof.
  induction fuel as [|fuel [IHb IHv]]; [split; intros; apply gives_throw|]. split.
  - intros v. cbn [bind]. destruct v as [k|e]; [by apply gives_ret, bound_ok_name|].
    assert (Hl : gives (bound_ok ok) (let! v := lift (eval e) in let! text := literal_value program fuel module scope e in mret (BLiteral v (Some text)))).
    { apply gives_skip. intros v. eapply gives_then; [apply IHv|]. intros text Ht. apply gives_ret. split; [done|]. by intros x [= <-]. }
    destruct e; try exact Hl. apply bind_path_gives.
  - intros e. cbn [literal_value].
    assert (Hl : gives (S := list SpanDiagnostic) (value_ok ok) (let! s := lift (src program module (expr_range e)) in mret (VLit s)))
      by (apply gives_skip; intros s; apply gives_ret, value_ok_lit).
    destruct e as [r []| | | | | | | |]; try exact Hl. apply gives_skip. intros parts.
    apply (gives_then (parts_ok ok)); [|intros t Ht; by apply gives_ret, value_of_parts_ok].
    apply gives_fold_each; [constructor|]. intros out [s|x] Ho.
    + apply gives_ret, parts_ok_app. split; [done|apply parts_ok_lit].
    + eapply gives_then; [apply IHb|]. intros b [Hb _]. destruct (as_ref b) as [y|].
      * apply gives_ret, parts_ok_app. split; [done|]. constructor; [by apply Hb|constructor].
      * apply gives_skip. intros s. apply gives_ret, parts_ok_app. split; [done|apply parts_ok_lit].
Qed.

Lemma bind_args_give args :
  gives (fun st => bindings_ok ok (fst st)) (fold_each (bind_arg program turns module scope) ([], []) args).
Proof.
  apply gives_fold_each; [constructor|]. intros st [k|e] Hst; [|by apply gives_ret]. cbn [bind_arg].
  eapply gives_then; [apply bind_gives|]. intros b Hb. apply gives_skip. intros text. apply gives_ret. by apply bm_insert_Forall.
Qed.

Lemma default_text_gives m e : gives (S := list SpanDiagnostic) (opt_ok (value_ok ok)) (lift (default_text program m e)).
Proof.
  intros s s' x [= _ Hx]. unfold default_text, rbind in Hx.
  assert (Hsrc : match src program m (expr_range e) with Ok s => Ok (Some (VLit s)) | Err f => Err f end = Ok x -> opt_ok (value_ok ok) x).
  { destruct (src _ _ _); [|done]. intros [= <-] y [= <-]. apply value_ok_lit. }
  destruct e as [r []| | | | | | | |]; try (by apply Hsrc); try by injection Hx as <-.
  destruct (string_parts raw); [|done]. injection Hx as <-. destruct (all_text _); [|done]. intros y [= <-]. apply value_ok_lit.
Qed.

Lemma bind_param_gives k m range d bs p : bindings_ok ok bs -> gives (bindings_ok ok) (bind_param program k m range d bs p).
Proof.
  intros Hbs. unfold bind_param. cbv zeta.
  assert (Hfill : forall e, gives (S := list SpanDiagnostic) (bindings_ok ok) (let! text := lift (default_text program m e) in let! v := lift (eval e) in
    mret (bm_insert (Ast.kw_name p) (BLiteral v text) bs))).
  { intros e. eapply gives_then; [apply default_text_gives|]. intros text Ht. apply gives_skip. intros v. apply gives_ret.
    by apply bm_insert_Forall. }
  destruct (bm_get _ bs) as [b|]; [destruct b; try by apply gives_ret|].
  - apply gives_skip. intros ?. by apply gives_ret.
  - destruct (Ast.kw_value p) as [kw|e]; [by apply gives_ret|]. destruct e; try apply Hfill.
    case_bool_decide; [|apply Hfill]. apply gives_skip. intros ?. by apply gives_ret.
Qed.

Lemma bindings_ok_get bs n b : bindings_ok ok bs -> bm_get n bs = Some b -> bound_ok ok b.
Proof. intros Hbs Hb%bm_get_In. unfold bindings_ok in Hbs. rewrite Forall_forall in Hbs. by apply (Hbs (n, b)). Qed.

Lemma classify_classified m d bs path : bindings_ok ok bs -> ok (classify (mkOpCx m d bs scope) path).
Proof.
  intros Hbs. unfold classify. cbn [ox_bindings ox_scope]. destruct path as [|a [|n []]]; try done.
  - destruct (bm_get a bs) as [b|] eqn:Hb.
    + apply bindings_ok_get in Hb as [Hr _]; [|done]. destruct (as_ref b); [by apply Hr|done].
    + destruct (bm_get a (sc_probes scope)) as [[]|] eqn:Hp; [by right|done|]. case_bool_decide; [by left|done].
  - case_bool_decide; [done|]. destruct (bm_contains a (sc_aliases scope)) eqn:Ha; [|done]. by apply output_classified.
Qed.

Lemma expand_op_gives call bs owner : bindings_ok ok bs -> gives (opt_ok (op_ok ok)) (expand_op program contracts turns call bs owner scope).
Proof.
  intros Hbs. unfold expand_op. cbv zeta. apply gives_skip. intros [|d0 ds].
  { apply gives_skip. intros d. apply gives_skip. intros ns. apply gives_skip. intros ?. by apply gives_ret. }
  apply gives_skip. intros ?. apply gives_skip. intros [[[m d] c]|]; [|by apply gives_ret].
  apply (gives_then (bindings_ok ok)); [by apply gives_fold_each; [done|]; intros; apply bind_param_gives|].
  intros bs' Hbs'. apply (gives_then (op_ok ok)); [|intros o Ho; apply gives_ret; by intros y [= <-]].
  apply lower_op_gives.
  - intros path. by apply classify_classified.
  - done.
  - intros n v text Hb. apply bindings_ok_get in Hb as [_ Ht]; [|done]. by apply Ht.
Qed.

(** Whatever a step calls, a reference in the bodies of its op has the origin that the scope
    of the call records: a controller value is a loop variable or the fact of a controller
    probe in scope, a fact that of a target probe in scope, and an output that of an alias in
    scope, secret exactly where the alias declares it so. *)
Theorem call_references_are_classified s path args range owner ds ds' st :
  expand_call program contracts turns module s path args range owner scope ds = (ds', Ok (Some st)) ->
  forall p r, p ∈ op_bodies (step_op st) -> r ∈ prim_refs p -> classified scope r.
Proof.
  intros He. assert (Hg : gives (opt_ok (fun st => op_ok ok (step_op st))) (expand_call program contracts turns module s path args range owner scope)).
  { unfold expand_call. eapply gives_then; [apply bind_args_give|]. intros [bs texts] Hbs. cbn [fst snd] in *.
    eapply gives_then; [by apply expand_op_gives|]. intros [o|] Ho; [|by apply gives_ret]. cbv zeta.
    apply (gives_then (fun st => op_ok ok (step_op st))); [|intros x Hx; apply gives_ret; by intros y [= <-]].
    apply gives_fold_each; [by apply Ho|]. intros x k Hx. unfold step_kw. cbv zeta.
    repeat case_bool_decide; try (by apply gives_ret). destruct (Ast.kw_value k); [by apply gives_ret|].
    apply gives_skip. intros g. by apply gives_ret. }
  intros p r Hp Hr. specialize (Hg _ _ _ He st eq_refl). unfold op_ok, body_ok, prim_ok in Hg.
  rewrite Forall_forall in Hg. specialize (Hg p Hp). rewrite Forall_forall in Hg. by apply Hg.
Qed.
End Call.

(** ** The steps of a plan *)

Fixpoint item_steps (it : Item) : list StepI :=
  match it with
  | Model.Step s | Knell s => [s]
  | Par cs | Repeat _ _ cs => concat (map item_steps cs)
  | When _ _ _ t e => concat (map item_steps t) ++ concat (map item_steps e)
  | _ => []
  end.

(** The names items bind, with the outputs declared under each. *)
Fixpoint item_binds (it : Item) : list (string * list Output) :=
  match it with
  | Model.Step s | Knell s => match Model.step_alias s with Some a => [(a, op_outputs (step_op s))] | None => [] end
  | Observe _ a => [(a, [])]
  | Par cs | Repeat _ _ cs => concat (map item_binds cs)
  | When _ _ _ t e => concat (map item_binds t) ++ concat (map item_binds e)
  | _ => []
  end.

Definition items_steps (l : list Item) : list StepI := concat (map item_steps l).
Definition items_binds (l : list Item) : list (string * list Output) := concat (map item_binds l).

Lemma items_steps_app l l' : items_steps (l ++ l') = items_steps l ++ items_steps l'.
Proof. unfold items_steps. by rewrite map_app, concat_app. Qed.

Lemma items_binds_app l l' : items_binds (l ++ l') = items_binds l ++ items_binds l'.
Proof. unfold items_binds. by rewrite map_app, concat_app. Qed.

(** Every output a step reads is bound by one of [G], and marked as it is declared there. *)
Definition marked (G : list (string * list Output)) (st : StepI) : Prop :=
  forall p r a n secret, p ∈ op_bodies (step_op st) -> r ∈ prim_refs p -> r = ROutput a n secret ->
    exists outs, (a, outs) ∈ G /\ secret = existsb (fun o => (out_name o == n) && out_secret o) outs.

Lemma marked_mono G G' st : G ⊆ G' -> marked G st -> marked G' st.
Proof. intros HG Hm p r a n s Hp Hr He. destruct (Hm p r a n s Hp Hr He) as (outs & Hin & ->). exists outs. split; [by apply HG|done]. Qed.

(** From a scope whose aliases are in [G], what [m] puts in scope it has emitted, and what it
    emits is marked. *)
Definition emits (m : XM (list Item)) : Prop := forall G x x' its,
  m x = (x', Ok its) -> sc_aliases (xp_scope x) ⊆ G ->
  sc_aliases (xp_scope x') ⊆ G ++ items_binds its /\ Forall (marked (G ++ items_binds its)) (items_steps its).

Lemma emits_ret its : items_steps its = [] -> emits (mret its).
Proof. intros Hs G x x' its' [= <- <-] HG. rewrite Hs. split; [set_solver|constructor]. Qed.

Lemma emits_throw e : emits (mthrow e).
Proof. by intros G x x' its. Qed.

(** What leaves the scope alone may come first. *)
Definition still {A} (m : XM A) : Prop := forall x x' y, m x = (x', Ok y) -> xp_scope x' = xp_scope x.

Lemma still_quietly {A} (m : DM A) : still (quietly m).
Proof. intros x x' y. unfold quietly, in_scope. destruct (m _) as [ds r]. by intros [= <- _]. Qed.

Lemma still_in_scope {A} (f : Scope -> DM A) : still (in_scope f).
Proof. intros x x' y. unfold in_scope. destruct (f _ _) as [ds r]. by intros [= <- _]. Qed.

Lemma still_lift {A} (r : Result A Stop) : still (lift r).
Proof. by intros x x' y [= <- _]. Qed.

Lemma still_ret {A} (y : A) : still (mret y).
Proof. by intros x x' z [= <- _]. Qed.
#[local] Hint Resolve still_quietly still_in_scope still_lift still_ret : gives.

Lemma emits_still {A} (m : XM A) (k : A -> XM (list Item)) : still m -> (forall y, emits (k y)) -> emits (mthen m k).
Proof.
  intros Hm Hk G x x' its. unfold mthen. destruct (m x) as [x1 [y|e]] eqn:Hx; [|done]. apply Hm in Hx. intros H HG.
  apply (Hk y G x1); [done|]. by rewrite Hx.
Qed.

(** What one emits is followed by what another does. *)
Lemma emits_seq {A} (f : A -> XM (list Item)) l : (forall x, emits (f x)) -> forall done_,
  (forall G x x' its, fold_each (fun out a => let! more := f a in mret (out ++ more)) done_ l x = (x', Ok its) ->
    sc_aliases (xp_scope x) ⊆ G ++ items_binds done_ -> Forall (marked (G ++ items_binds done_)) (items_steps done_) ->
    sc_aliases (xp_scope x') ⊆ G ++ items_binds its /\ Forall (marked (G ++ items_binds its)) (items_steps its)).
Proof.
  intros Hf. induction l as [|a l IH]; intros done_ G x x' its; [by intros [= <- <-]|]. cbn [fold_each]. unfold mthen at 1 2.
  destruct (f a x) as [x1 [more|e]] eqn:Hx; [|done]. unfold mret at 1. intros H HG Hm.
  destruct (Hf a _ _ _ _ Hx HG) as [Hs1 Hm1]. apply (IH (done_ ++ more) G x1); [done|..].
  - by rewrite items_binds_app, app_assoc.
  - rewrite items_steps_app, items_binds_app, app_assoc. apply Forall_app. split; [|done].
    eapply Forall_impl; [exact Hm|]. intros st. apply marked_mono. set_solver.
Qed.

Lemma emits_fold {A} (f : A -> XM (list Item)) l :
  (forall x, emits (f x)) -> emits (fold_each (fun out a => let! more := f a in mret (out ++ more)) [] l).
Proof. intros Hf G x x' its H HG. eapply (emits_seq f l Hf []); [exact H|by rewrite app_nil_r|constructor]. Qed.

(** Items under a frame. *)
Lemma emits_frame (m : XM (list Item)) (frame : list Item -> list Item) :
  (forall its, items_steps (frame its) = items_steps its) -> (forall its, items_binds (frame its) = items_binds its) ->
  emits m -> emits (let! its := m in mret (frame its)).
Proof.
  intros H1 H2 Hm G x x' its. unfold mthen. destruct (m x) as [x1 [y|e]] eqn:Hx; [|done]. intros [= <- <-] HG.
  rewrite H1, H2. by apply (Hm G x).
Qed.

Lemma bm_insert_subset {A} k (v : A) m G : m ⊆ G -> bm_insert k v m ⊆ G ++ [(k, v)].
Proof.
  intros Hm. induction m as [|[k' v'] m IH]; cbn [bm_insert]; [set_solver|].
  assert (m ⊆ G) by set_solver. case_bool_decide; [set_solver|]. destruct (str_le k k'); set_solver.
Qed.

Section Plan.
Variable program : list Module_.
Variable contracts : list Contract.
Variable turns : nat.

Lemma expand_call_alias module s path args range owner scope ds ds' st :
  expand_call program contracts turns module s path args range owner scope ds = (ds', Ok (Some st)) ->
  Model.step_alias st = Ast.step_alias s.
Proof.
  intros He. assert (Hg : gives (opt_ok (fun st => Model.step_alias st = Ast.step_alias s))
    (expand_call program contracts turns module s path args range owner scope)); [|by apply (Hg _ _ _ He)].
  unfold expand_call. apply gives_skip. intros bs. apply gives_skip. intros [o|]; [|by apply gives_ret]. cbv zeta.
  apply (gives_then (fun st => Model.step_alias st = Ast.step_alias s)); [|intros x Hx; apply gives_ret; by intros y [= <-]].
  apply gives_fold_each; [done|]. intros x k Hx. unfold step_kw. cbv zeta.
  repeat case_bool_decide; try (by apply gives_ret). destruct (Ast.kw_value k); [by apply gives_ret|].
  apply gives_skip. intros g. by apply gives_ret.
Qed.

Lemma classified_marked scope G st : sc_aliases scope ⊆ G ->
  (forall p r, p ∈ op_bodies (step_op st) -> r ∈ prim_refs p -> classified scope r) -> marked G st.
Proof.
  intros HG Hc p r a n secret Hp Hr ->. destruct (Hc p _ Hp Hr) as (outs & Hin%bm_get_In & Hs). exists outs. split; [by apply HG|done].
Qed.

Lemma emits_step_one module s owner knell :
  emits (let! it := expand_step_one program contracts turns module s owner knell in mret (option_list it)).
Proof.
  intros G x x' its. unfold expand_step_one.
  assert (Hcomplain : forall y : Expansion, (let! it := do! quietly (ExpandOp.complain program module (step_range s) E0101 "a step is a call") in mret None in
    mret (option_list it)) x = (y, Ok its) -> sc_aliases (xp_scope x) ⊆ G ->
    sc_aliases (xp_scope y) ⊆ G ++ items_binds its /\ Forall (marked (G ++ items_binds its)) (items_steps its)).
  { unfold mthen. intros y. destruct (quietly _ x) as [x1 [[]|]] eqn:Hq; [|done]. apply still_quietly in Hq. intros [= <- <-] HG.
    rewrite Hq. split; [set_solver|constructor]. }
  destruct (step_call s) as [| |range path args| | | | | |]; try apply Hcomplain. clear Hcomplain. cbv zeta.
  destruct (_ && _); [intros [= <- <-] HG; split; [set_solver|constructor]|].
  destruct (_ && _); [intros [= <- <-] HG; split; [set_solver|constructor]|].
  unfold mthen at 1 2. destruct (in_scope _ x) as [x1 [o|]] eqn:Hc; [|done]. pose proof (still_in_scope _ _ _ _ Hc) as Hs.
  destruct o as [st|]; [|intros [= <- <-] HG; rewrite Hs; split; [set_solver|constructor]].
  unfold in_scope in Hc. destruct (expand_call _ _ _ _ _ _ _ _ _ _ _) as [ds r] eqn:He. injection Hc as <- ->.
  pose proof (call_references_are_classified _ _ _ _ _ _ _ _ _ _ _ _ _ He) as Hcl. apply expand_call_alias in He as Ha.
  assert (Hit : items_steps [if knell then Knell st else Model.Step st] = [st]) by by destruct knell.
  assert (Hib : items_binds [if knell then Knell st else Model.Step st]
    = match Ast.step_alias s with Some a => [(a, op_outputs (step_op st))] | None => [] end)
    by (rewrite <- Ha; destruct knell; unfold items_binds; cbn; by rewrite app_nil_r).
  intros H HG. destruct (Ast.step_alias s) as [alias|]; injection H as <- <-; cbn [option_list option_rect];
    rewrite Hit, Hib; cbn.
  - split; [by apply bm_insert_subset|]. constructor; [|done]. eapply classified_marked; [|exact Hcl]. set_solver.
  - rewrite app_nil_r. split; [done|]. constructor; [|done]. by eapply classified_marked.
Qed.

Section Level.
Variable items : nat -> list Stmt -> Contract -> XM (list Item).
Variable step : nat -> Ast.Step -> Contract -> bool -> XM (list Item).
Hypothesis Hitems : forall module body owner, emits (items module body owner).
Hypothesis Hstep : forall module s owner knell, emits (step module s owner knell).

Lemma emits_misplaced module range message :
  emits (do! quietly (ExpandOp.complain program module range E0101 message) in mret []).
Proof. apply emits_still; [apply still_quietly|]. intros ?. by apply emits_ret. Qed.

Lemma emits_repeat module range args var body owner : emits (expand_repeat program items module range args var body owner).
Proof.
  unfold expand_repeat. cbv zeta. apply emits_still; [apply still_quietly|]. intros form G x x' its. unfold mthen, the_scope, set_scope.
  destruct (items module body owner _) as [x1 [inner|]] eqn:Hx; [|done]. intros [= <- <-] HG.
  destruct (Hitems _ _ _ G _ _ _ Hx HG) as [H1 H2]. unfold items_binds, items_steps. cbn. rewrite !app_nil_r. done.
Qed.

Lemma join_aliases_subset then_ else_ G : then_ ⊆ G -> else_ ⊆ G -> join_aliases then_ else_ ⊆ G.
Proof.
  unfold join_aliases. revert else_. induction then_ as [|[a o] t IH]; intros e Ht He; [done|]. cbn [foldl].
  apply IH; [set_solver|]. cbn [fst snd]. destruct (bm_contains a e); [done|].
  pose proof (bm_insert_subset a o e G He). set_solver.
Qed.

Lemma emits_when module range args then_ else_ owner guard :
  emits (expand_when program items module range args then_ else_ owner guard).
Proof.
  unfold expand_when. intros G x x' its. unfold mthen, the_scope, set_scope.
  destruct (items module then_ owner x) as [x1 [t|]] eqn:Ht; [|done]. cbv beta iota zeta.
  set (x2 := mkExpansion _ (with_aliases (sc_aliases (xp_scope x)) _)).
  set (m := match else_ with Some b => _ | None => _ end). destruct (m x2) as [x3 [e|]] eqn:He; [|done].
  cbv beta iota. destruct (quietly _ x3) as [x4 [[]|]] eqn:Hq; [|done]. apply still_quietly in Hq. intros [= <- <-] HG.
  destruct (Hitems _ _ _ G _ _ _ Ht HG) as [Ht1 Ht2].
  assert (Hm : emits m) by (unfold m; destruct else_; [apply Hitems|by apply emits_ret]).
  destruct (Hm G x2 _ _ He HG) as [He1 He2].
  assert (Hb : items_binds [When guard (kw_duration args "window") (on_lapse args) t e] = items_binds t ++ items_binds e)
    by (unfold items_binds; cbn; by rewrite app_nil_r).
  assert (Hs : items_steps [When guard (kw_duration args "window") (on_lapse args) t e] = items_steps t ++ items_steps e)
    by (unfold items_steps; cbn; by rewrite app_nil_r).
  rewrite Hb, Hs. split.
  - cbn [xp_scope sc_aliases with_aliases]. apply join_aliases_subset; set_solver.
  - apply Forall_app. split; (eapply Forall_impl; [eassumption|]); intros st; apply marked_mono; set_solver.
Qed.

Lemma emits_stmt module owner st : emits (expand_stmt program items step module owner st).
Proof.
  destruct st as [l|b|d|i|s|steps|s|r name|r call alias|r args|r args var body|r args t e|r slot prio item]; cbn [expand_stmt]; cbv zeta.
  - case_bool_decide; [by apply emits_ret|apply emits_misplaced].
  - case_bool_decide.
    { apply (emits_frame _ (fun cs => [Par cs])); [..|apply Hitems]; intros its; unfold items_steps, items_binds; cbn; by rewrite app_nil_r. }
    case_bool_decide; [by apply emits_ret|apply emits_misplaced].
  - apply emits_misplaced.
  - apply emits_misplaced.
  - apply Hstep.
  - apply emits_fold. intros s. apply Hstep.
  - apply Hstep.
  - by apply emits_ret.
  - apply emits_still; [destruct call; first [apply still_quietly|apply still_ret]|]. intros [probe|]; [|by apply emits_ret].
    destruct alias as [alias|]; [|by apply emits_ret]. intros G x x' its [= <- <-] HG. cbn.
    split; [by apply bm_insert_subset|constructor].
  - apply emits_still; [apply still_quietly|]. intros [g|]; by apply emits_ret.
  - apply emits_repeat.
  - apply emits_still; [apply still_quietly|]. intros [g|]; [apply emits_when|by apply emits_ret].
  - apply emits_misplaced.
Qed.

Lemma emits_protocol module s proto owner : emits (expand_protocol program items step module s proto owner).
Proof.
  unfold expand_protocol. apply emits_still; [apply still_lift|]. intros impls. apply emits_still; [apply still_quietly|]. intros ?.
  destruct (List.find _ impls) as [[role d]|]; [apply Hitems|].
  assert (Hc : emits (do! quietly (ExpandOp.complain program module (step_range s) E0112
    (concats ["no defimpl of "; def_name proto; " for the roles of "; ct_name owner; " ("; join ", " (ct_roles owner); ") and no default"])) in mret []))
    by (apply emits_still; [apply still_quietly|]; intros ?; by apply emits_ret).
  destruct (mbind _ _) as [[|[]]|]; try exact Hc. apply Hstep.
Qed.

Lemma emits_step_with module s owner knell : emits (expand_step_with program contracts turns items step module s owner knell).
Proof.
  unfold expand_step_with. cbv zeta. pose proof (emits_step_one module s owner knell) as H1.
  destruct (step_call s); try exact H1. apply emits_still; [apply still_lift|]. intros [|? ?]; [|exact H1].
  apply emits_still; [apply still_lift|]. intros [|[m proto] ?]; [exact H1|apply emits_protocol].
Qed.
End Level.

Lemma expand_emits fuel :
  (forall module body owner, emits (expand_items program contracts turns fuel module body owner))
  /\ forall module s owner knell, emits (expand_step program contracts turns fuel module s owner knell).
Proof.
  induction fuel as [|fuel [IHi IHs]]; [split; intros; apply emits_throw|]. split; intros.
  - cbn [expand_items]. apply emits_fold. intros st. by apply emits_stmt.
  - cbn [expand_step]. by apply emits_step_with.
Qed.

(** *** Slots *)

(** What fills the slots of items that are marked: it keeps what they bind. *)
Definition fills (its : list Item) (m : XM (list Item)) : Prop := forall G x x' out,
  m x = (x', Ok out) -> sc_aliases (xp_scope x) ⊆ G -> Forall (marked G) (items_steps its) ->
  sc_aliases (xp_scope x') ⊆ G ++ items_binds out /\ Forall (marked (G ++ items_binds out)) (items_steps out)
  /\ items_binds its ⊆ items_binds out.

Lemma fills_emits its m : items_binds its = [] -> emits m -> fills its m.
Proof. intros Hb Hm G x x' out H HG _. destruct (Hm G x x' out H HG) as [H1 H2]. rewrite Hb. split; [done|]. split; [done|set_solver]. Qed.

Lemma fills_same its : fills its (mret its).
Proof.
  intros G x x' out [= <- <-] HG Hm. split; [set_solver|]. split; [|done]. eapply Forall_impl; [exact Hm|].
  intros st. apply marked_mono. set_solver.
Qed.

Lemma fills_app its its' (m m' : XM (list Item)) :
  fills its m -> fills its' m' -> fills (its ++ its') (let! a := m in let! b := m' in mret (a ++ b)).
Proof.
  intros Hm Hm' G x x' out. unfold mthen. destruct (m x) as [x1 [a|]] eqn:Ha; [|done].
  destruct (m' x1) as [x2 [b|]] eqn:Hb; [|done]. intros [= <- <-] HG. rewrite items_steps_app. intros [H1 H2]%Forall_app.
  destruct (Hm G _ _ _ Ha HG H1) as (A1 & A2 & A3).
  assert (H2' : Forall (marked (G ++ items_binds a)) (items_steps its'))
    by (eapply Forall_impl; [exact H2|]; intros st; apply marked_mono; set_solver).
  destruct (Hm' _ _ _ _ Hb A1 H2') as (B1 & B2 & B3). rewrite items_steps_app, !items_binds_app.
  split; [by rewrite app_assoc|]. split; [|set_solver]. rewrite app_assoc. apply Forall_app. split; [|done].
  eapply Forall_impl; [exact A2|]. intros st. apply marked_mono. set_solver.
Qed.

Lemma fills_frame its (m : XM (list Item)) (frame : list Item -> Item) :
  (forall l, items_steps [frame l] = items_steps l) -> (forall l, items_binds [frame l] = items_binds l) ->
  fills its m -> fills [frame its] (let! a := m in mret [frame a]).
Proof.
  intros H1 H2 Hm G x x' out. unfold mthen. destruct (m x) as [x1 [a|]] eqn:Ha; [|done]. intros [= <- <-].
  rewrite !H1, !H2. by apply Hm.
Qed.

Lemma one_when_steps g w l t e : items_steps [When g w l t e] = items_steps t ++ items_steps e.
Proof. unfold items_steps. cbn. by rewrite app_nil_r. Qed.

Lemma one_when_binds g w l t e : items_binds [When g w l t e] = items_binds t ++ items_binds e.
Proof. unfold items_binds. cbn. by rewrite app_nil_r. Qed.

Section Fill.
Variable items : nat -> list Stmt -> Contract -> XM (list Item).
Hypothesis Hitems : forall module body owner, emits (items module body owner).
Variables (module : nat) (owner : Contract).
#[local] Notation fill_item := (fill_item program items module owner).

Lemma emits_fill_slot name : emits (fill_slot program items module owner name).
Proof.
  unfold fill_slot. apply emits_still; [apply still_lift|]. intros roles. destruct (sort_contributions _); [by apply emits_ret|].
  apply (emits_fold (fun c => items module [snd c] owner)). intros x. apply Hitems.
Qed.

Lemma fill_list (fill : list Item -> XM (list Item)) l :
  (fill [] = mret []) -> (forall x r, fill (x :: r) = (let! a := fill_item x in let! b := fill r in mret (a ++ b))) ->
  Forall (fun it => fills [it] (fill_item it)) l -> fills l (fill l).
Proof.
  intros H0 H1. induction 1 as [|it l Hit _ IH]; [rewrite H0; apply fills_same|]. rewrite H1. by apply (fills_app [it] l).
Qed.

Lemma fill_item_fills it : fills [it] (fill_item it).
Proof.
  induction it as [s|s|cs IH|name| | |gs|pr al|g w ol|f v b IH|g w ol t e IHt IHe] using item_ind; cbn [Expand.fill_item];
    try apply fills_same.
  - apply (fills_frame cs _ Par); [intros l; unfold items_steps; cbn; by rewrite app_nil_r|intros l; unfold items_binds; cbn; by rewrite app_nil_r|].
    by apply (fill_list _ cs).
  - apply fills_emits; [done|apply emits_fill_slot].
  - apply (fills_frame b _ (Repeat f v)); [intros l; unfold items_steps; cbn; by rewrite app_nil_r|intros l; unfold items_binds; cbn; by rewrite app_nil_r|].
    by apply (fill_list _ b).
  - set (fill := fix fill (l : list Item) : XM (list Item) := _).
    assert (Ht : fills t (fill t)) by by apply fill_list. assert (He : fills e (fill e)) by by apply fill_list.
    pose proof (fills_app t e _ _ Ht He) as Hte. intros G x x' out. specialize (Hte G x). unfold mthen in *.
    destruct (fill t x) as [x1 [a|]]; [|done]. destruct (fill e x1) as [x2 [b|]]; [|done]. intros [= <- <-].
    rewrite one_when_steps, !one_when_binds. specialize (Hte x2 (a ++ b) eq_refl). rewrite !items_steps_app, !items_binds_app in Hte.
    by rewrite one_when_steps.
Qed.

Lemma fill_slots_fills l : fills l (fill_slots program items module owner l).
Proof.
  unfold fill_slots.
  enough (forall out G x x' res, fold_each (fun out it => let! its := fill_item it in mret (out ++ its)) out l x = (x', Ok res) ->
    sc_aliases (xp_scope x) ⊆ G ++ items_binds out -> Forall (marked (G ++ items_binds out)) (items_steps out) -> Forall (marked G) (items_steps l) ->
    sc_aliases (xp_scope x') ⊆ G ++ items_binds res /\ Forall (marked (G ++ items_binds res)) (items_steps res)
    /\ items_binds (out ++ l) ⊆ items_binds res) as H.
  { intros G x x' res Hx HG Hm. apply (H [] G x x' res Hx); [by rewrite app_nil_r|constructor|done]. }
  induction l as [|it l IH]; intros out G x x' res; [intros [= <- <-]; by rewrite app_nil_r|]. cbn [fold_each]. unfold mthen at 1 2.
  destruct (fill_item it x) as [x1 [its|]] eqn:Hx; [|done]. unfold mret at 1. intros H HG Hout Hl.
  change (items_steps (it :: l)) with (items_steps ([it] ++ l)) in Hl. rewrite items_steps_app in Hl. apply Forall_app in Hl as [Hit Hl].
  destruct (fill_item_fills it (G ++ items_binds out) _ _ _ Hx HG) as (A1 & A2 & A3).
  { eapply Forall_impl; [exact Hit|]. intros st. apply marked_mono. set_solver. }
  destruct (IH (out ++ its) G _ _ _ H) as (B1 & B2 & B3).
  - by rewrite items_binds_app, app_assoc.
  - rewrite items_steps_app, items_binds_app, app_assoc. apply Forall_app. split; [|done].
    eapply Forall_impl; [exact Hout|]. intros st. apply marked_mono. set_solver.
  - done.
  - split; [done|]. split; [done|]. change (it :: l) with ([it] ++ l). rewrite !items_binds_app in *.
    clear - A3 B3. set_solver.
Qed.
End Fill.
End Plan.

Section Whole.
Variable program : list Module_.
Variable contracts : list Contract.
Variable turns : nat.

Definition all_marked (its : list Item) : Prop := Forall (marked (items_binds its)) (items_steps its).

Lemma plan_scope_aliases module scope : plan_scope program module = Ok scope -> sc_aliases scope = [].
Proof.
  unfold plan_scope, rbind. destruct (defs _ _ _); [|done]. destruct (the_module _ _); [|done].
  destruct (collect_results _ _); [|done]. by intros [= <-].
Qed.

Lemma expand_body_marked fuel module body owner scope :
  sc_aliases scope = [] -> gives all_marked (expand_body program contracts turns fuel module body owner scope).
Proof.
  intros Hsc s s' its. unfold expand_body, mthen.
  destruct (expand_items _ _ _ _ _ _ _ _) as [x1 [i1|]] eqn:H1; [|done].
  destruct (fill_slots _ _ _ _ _ _) as [x2 [i2|]] eqn:H2; [|done]. intros [= _ <-].
  destruct (proj1 (expand_emits program contracts turns fuel) _ _ _ [] _ _ _ H1) as [A1 A2]; [cbn; by rewrite Hsc|].
  destruct (fill_slots_fills program _ (proj1 (expand_emits program contracts turns fuel)) _ _ _ _ _ _ _ H2 A1 A2) as (_ & B2 & B3).
  eapply Forall_impl; [exact B2|]. intros st. apply marked_mono. set_solver.
Qed.

Lemma expand_plan_marked fuel clauses owner :
  gives (opt_ok (fun plan => all_marked (plan_body plan))) (expand_plan program contracts turns fuel clauses owner).
Proof.
  unfold expand_plan. apply gives_skip. intros ?. destruct clauses as [|[m0 d0] cl]; [apply gives_throw|].
  apply gives_skip. intros [[[m d] ct]|]; [|by apply gives_ret].
  apply (gives_then (fun scope => sc_aliases scope = [])).
  { intros s s' scope [= _ Hs]. by eapply plan_scope_aliases. }
  intros scope Hscope. apply gives_skip. intros plan0. apply gives_skip. intros probes.
  eapply gives_then; [by apply expand_body_marked|]. intros its Hi. apply gives_ret. by intros y [= <-].
Qed.
End Whole.

(** ** The scope of every step

    What a text binds, in the order it stands: an alias is bound by the last step or
    observation above that has it; behind a [when], by the [else] arm or what was above, or
    else by the other arm. *)

Definition AliasEnv : Type := string -> option (list Output).

Definition bind_outs (a : string) (outs : list Output) (env : AliasEnv) : AliasEnv := fun b => if b == a then Some outs else env b.

(** The scope behind an item, and every step of it with the scope it stands in. *)
Fixpoint item_flow (it : Item) (env : AliasEnv) : AliasEnv * list (AliasEnv * StepI) :=
  let flow := fix flow (l : list Item) (env : AliasEnv) : AliasEnv * list (AliasEnv * StepI) :=
    match l with
    | [] => (env, [])
    | x :: r => let '(e1, s1) := item_flow x env in let '(e2, s2) := flow r e1 in (e2, s1 ++ s2)
    end in
  match it with
  | Model.Step s | Knell s => (match Model.step_alias s with Some a => bind_outs a (op_outputs (step_op s)) env | None => env end, [(env, s)])
  | Observe _ a => (bind_outs a [] env, [])
  | Par cs | Repeat _ _ cs => flow cs env
  | When _ _ _ t e =>
      let '(te, ts) := flow t env in
      let '(ee, es) := flow e env in
      ((fun b => match ee b with Some o => Some o | None => te b end), ts ++ es)
  | _ => (env, [])
  end.

Fixpoint flow (l : list Item) (env : AliasEnv) : AliasEnv * list (AliasEnv * StepI) :=
  match l with
  | [] => (env, [])
  | x :: r => let '(e1, s1) := item_flow x env in let '(e2, s2) := flow r e1 in (e2, s1 ++ s2)
  end.

Lemma flow_app l l' env :
  flow (l ++ l') env = (fst (flow l' (fst (flow l env))), snd (flow l env) ++ snd (flow l' (fst (flow l env)))).
Proof.
  revert env. induction l as [|x l IH]; intros env; cbn [app flow]; [apply surjective_pairing|].
  destruct (item_flow x env) as [e1 s1]. rewrite IH. destruct (flow l e1) as [e2 s2]. cbn [fst snd]. by rewrite <- app_assoc.
Qed.

Lemma flow_one it env : flow [it] env = item_flow it env.
Proof. cbn [flow]. destruct (item_flow it env). by rewrite app_nil_r. Qed.

(** Every output a step reads is that of the alias in scope, marked as it is declared there. *)
Definition exact (env : AliasEnv) (st : StepI) : Prop :=
  forall p a n secret, p ∈ op_bodies (step_op st) -> ROutput a n secret ∈ prim_refs p ->
    exists outs, env a = Some outs /\ secret = existsb (fun o => (out_name o == n) && out_secret o) outs.

Definition agrees (x : Expansion) (env : AliasEnv) : Prop := forall b, bm_get b (sc_aliases (xp_scope x)) = env b.

Definition all_exact (l : list (AliasEnv * StepI)) : Prop := Forall (fun es => exact (fst es) (snd es)) l.

(** What [m] emits from a scope is read in the scope it stands in, and leaves the one behind it. *)
Definition tracks (m : XM (list Item)) : Prop := forall x x' its env,
  m x = (x', Ok its) -> agrees x env -> agrees x' (fst (flow its env)) /\ all_exact (snd (flow its env)).

Lemma tracks_ret its : (forall env, flow its env = (env, [])) -> tracks (mret its).
Proof. intros Hs x x' its' env [= <- <-] HG. rewrite Hs. split; [done|constructor]. Qed.

Lemma tracks_throw e : tracks (mthrow e).
Proof. by intros x x' its env. Qed.

Lemma tracks_still {A} (m : XM A) (k : A -> XM (list Item)) : still m -> (forall y, tracks (k y)) -> tracks (mthen m k).
Proof.
  intros Hm Hk x x' its env. unfold mthen. destruct (m x) as [x1 [y|e]] eqn:Hx; [|done]. apply Hm in Hx. intros H HG.
  apply (Hk y x1); [done|]. unfold agrees. by rewrite Hx.
Qed.

Lemma tracks_seq {A} (f : A -> XM (list Item)) l : (forall x, tracks (f x)) -> forall done_ x x' its env,
  fold_each (fun out a => let! more := f a in mret (out ++ more)) done_ l x = (x', Ok its) ->
  agrees x (fst (flow done_ env)) -> all_exact (snd (flow done_ env)) ->
  agrees x' (fst (flow its env)) /\ all_exact (snd (flow its env)).
Proof.
  intros Hf. induction l as [|a l IH]; intros done_ x x' its env; [by intros [= <- <-]|]. cbn [fold_each]. unfold mthen at 1 2.
  destruct (f a x) as [x1 [more|e]] eqn:Hx; [|done]. unfold mret at 1. intros H HG Hm.
  destruct (Hf a _ _ _ _ Hx HG) as [Hs1 Hm1]. apply (IH (done_ ++ more) x1 x'); [done|..]; rewrite flow_app; [done|].
  by apply Forall_app.
Qed.

Lemma tracks_fold {A} (f : A -> XM (list Item)) l :
  (forall x, tracks (f x)) -> tracks (fold_each (fun out a => let! more := f a in mret (out ++ more)) [] l).
Proof. intros Hf x x' its env H HG. apply (tracks_seq f l Hf [] x x' its env H); [exact HG|constructor]. Qed.

Lemma tracks_frame (m : XM (list Item)) (frame : list Item -> list Item) :
  (forall its env, flow (frame its) env = flow its env) -> tracks m -> tracks (let! its := m in mret (frame its)).
Proof.
  intros Hf Hm x x' its env. unfold mthen. destruct (m x) as [x1 [y|e]] eqn:Hx; [|done]. intros [= <- <-] HG.
  rewrite Hf. by apply (Hm x).
Qed.

Lemma agrees_insert x env a outs ds lv pr : agrees x env ->
  agrees (mkExpansion ds (mkScope lv (bm_insert a outs (sc_aliases (xp_scope x))) pr)) (bind_outs a outs env).
Proof.
  intros HG b. cbn [xp_scope sc_aliases]. unfold bind_outs. case_bool_decide as Hb; [subst b; by rewrite bm_get_insert|]. rewrite bm_get_insert_ne by congruence.
  apply HG.
Qed.

Lemma join_aliases_get then_ else_ b :
  bm_get b (join_aliases then_ else_) = match bm_get b else_ with Some o => Some o | None => bm_get b then_ end.
Proof.
  unfold join_aliases. revert else_. induction then_ as [|[a o] t IH]; intros e; cbn [foldl fst snd]; [by destruct (bm_get b e)|].
  rewrite IH. destruct (bm_contains a e) eqn:Ha.
  - apply bm_contains_get in Ha as [v Hv]. destruct (bm_get b e) eqn:Hb; [done|]. unfold bm_get at 2. cbn [List.find fst].
    case_bool_decide as Hab; [subst; congruence|done].
  - destruct (decide (a = b)) as [->|Hab].
    + rewrite bm_get_insert. assert (bm_get b e = None) as ->.
      { destruct (bm_get b e) eqn:Hb; [|done]. apply bm_get_In in Hb. exfalso. apply not_true_iff_false in Ha. apply Ha, existsb_exists.
        eexists. split; [by apply list_elem_of_In|]. cbn. by rewrite bool_decide_eq_true_2. }
      unfold bm_get. cbn [List.find fst]. by rewrite bool_decide_eq_true_2.
    + rewrite bm_get_insert_ne by done. destruct (bm_get b e); [done|]. unfold bm_get. cbn [List.find fst].
      by rewrite bool_decide_eq_false_2.
Qed.

Section Flow.
Variable program : list Module_.
Variable contracts : list Contract.
Variable turns : nat.

Lemma tracks_step_one module s owner knell :
  tracks (let! it := expand_step_one program contracts turns module s owner knell in mret (option_list it)).
Proof.
  intros x x' its env. unfold expand_step_one.
  assert (Hcomplain : forall y : Expansion, (let! it := do! quietly (ExpandOp.complain program module (step_range s) E0101 "a step is a call") in mret None in
    mret (option_list it)) x = (y, Ok its) -> agrees x env -> agrees y (fst (flow its env)) /\ all_exact (snd (flow its env))).
  { unfold mthen. intros y. destruct (quietly _ x) as [x1 [[]|]] eqn:Hq; [|done]. apply still_quietly in Hq. intros [= <- <-] HG.
    split; [|constructor]. unfold agrees. by rewrite Hq. }
  destruct (step_call s) as [| |range path args| | | | | |]; try apply Hcomplain. clear Hcomplain. cbv zeta.
  destruct (_ && _); [intros [= <- <-] HG; split; [done|constructor]|].
  destruct (_ && _); [intros [= <- <-] HG; split; [done|constructor]|].
  unfold mthen at 1 2. destruct (in_scope _ x) as [x1 [o|]] eqn:Hc; [|done]. pose proof (still_in_scope _ _ _ _ Hc) as Hs.
  destruct o as [st|]; [|intros [= <- <-] HG; split; [unfold agrees; by rewrite Hs|constructor]].
  unfold in_scope in Hc. destruct (expand_call _ _ _ _ _ _ _ _ _ _ _) as [ds r] eqn:He. injection Hc as <- ->.
  pose proof (call_references_are_classified _ _ _ _ _ _ _ _ _ _ _ _ _ He) as Hcl. apply expand_call_alias in He as Ha.
  assert (Hx : agrees x env -> exact env st).
  { intros HG p a n secret Hp Hr. destruct (Hcl p _ Hp Hr) as (outs & Ho & Hm). exists outs. split; [by rewrite <- HG|done]. }
  assert (Hf : flow [if knell then Knell st else Model.Step st] env
    = (match Ast.step_alias s with Some a => bind_outs a (op_outputs (step_op st)) env | None => env end, [(env, st)]))
    by (rewrite flow_one, <- Ha; by destruct knell).
  intros H HG. destruct (Ast.step_alias s) as [alias|]; injection H as <- <-; cbn [option_list option_rect]; rewrite Hf; cbn [fst snd];
    (split; [|constructor; [by apply Hx|constructor]]); [by apply agrees_insert|done].
Qed.

Section Level.
Variable items : nat -> list Stmt -> Contract -> XM (list Item).
Variable step : nat -> Ast.Step -> Contract -> bool -> XM (list Item).
Hypothesis Hitems : forall module body owner, tracks (items module body owner).
Hypothesis Hstep : forall module s owner knell, tracks (step module s owner knell).

Lemma tracks_misplaced module range message :
  tracks (do! quietly (ExpandOp.complain program module range E0101 message) in mret []).
Proof. apply tracks_still; [apply still_quietly|]. intros ?. by apply tracks_ret. Qed.

Lemma flow_par cs env : flow [Par cs] env = flow cs env.
Proof. rewrite flow_one. reflexivity. Qed.

Lemma flow_repeat form name cs env : flow [Repeat form name cs] env = flow cs env.
Proof. rewrite flow_one. reflexivity. Qed.

Lemma flow_when g w l t e env :
  flow [When g w l t e] env
  = ((fun b => match fst (flow e env) b with Some o => Some o | None => fst (flow t env) b end), snd (flow t env) ++ snd (flow e env)).
Proof.
  rewrite flow_one. change (item_flow (When g w l t e) env)
    with (let '(te, ts) := flow t env in let '(ee, es) := flow e env in
          ((fun b => match ee b with Some o => Some o | None => te b end) : AliasEnv, ts ++ es)).
  by destruct (flow t env), (flow e env).
Qed.

Lemma tracks_repeat module range args var body owner : tracks (expand_repeat program items module range args var body owner).
Proof.
  unfold expand_repeat. cbv zeta. apply tracks_still; [apply still_quietly|]. intros form x x' its env. unfold mthen, the_scope, set_scope.
  destruct (items module body owner _) as [x1 [inner|]] eqn:Hx; [|done]. intros [= <- <-] HG. rewrite flow_repeat.
  exact (Hitems _ _ _ _ _ _ env Hx HG).
Qed.

Lemma tracks_when module range args then_ else_ owner guard :
  tracks (expand_when program items module range args then_ else_ owner guard).
Proof.
  unfold expand_when. intros x x' its env. unfold mthen, the_scope, set_scope.
  destruct (items module then_ owner x) as [x1 [t|]] eqn:Ht; [|done]. cbv beta iota zeta.
  set (x2 := mkExpansion _ (with_aliases (sc_aliases (xp_scope x)) _)).
  set (m := match else_ with Some b => _ | None => _ end). destruct (m x2) as [x3 [e|]] eqn:He; [|done].
  cbv beta iota. destruct (quietly _ x3) as [x4 [[]|]] eqn:Hq; [|done]. apply still_quietly in Hq. intros [= <- <-] HG.
  destruct (Hitems _ _ _ _ _ _ env Ht HG) as [Ht1 Ht2].
  assert (Hm : tracks m) by (unfold m; destruct else_; [apply Hitems|by apply tracks_ret]).
  destruct (Hm x2 _ _ env He HG) as [He1 He2]. rewrite flow_when. cbn [fst snd]. split; [|by apply Forall_app].
  intros b. cbn [xp_scope sc_aliases with_aliases]. by rewrite join_aliases_get, He1, Ht1.
Qed.

Lemma tracks_stmt module owner st : tracks (expand_stmt program items step module owner st).
Proof.
  destruct st as [l|b|d|i|s|steps|s|r name|r call alias|r args|r args var body|r args t e|r slot prio item]; cbn [expand_stmt]; cbv zeta.
  - case_bool_decide; [by apply tracks_ret|apply tracks_misplaced].
  - case_bool_decide; [apply (tracks_frame _ (fun cs => [Par cs])); [apply flow_par|apply Hitems]|].
    case_bool_decide; [by apply tracks_ret|apply tracks_misplaced].
  - apply tracks_misplaced.
  - apply tracks_misplaced.
  - apply Hstep.
  - apply tracks_fold. intros s. apply Hstep.
  - apply Hstep.
  - by apply tracks_ret.
  - apply tracks_still; [destruct call; first [apply still_quietly|apply still_ret]|]. intros [probe|]; [|by apply tracks_ret].
    destruct alias as [alias|]; [|by apply tracks_ret]. intros x x' its env [= <- <-] HG. split; [by apply agrees_insert|constructor].
  - apply tracks_still; [apply still_quietly|]. intros [g|]; by apply tracks_ret.
  - apply tracks_repeat.
  - apply tracks_still; [apply still_quietly|]. intros [g|]; [apply tracks_when|by apply tracks_ret].
  - apply tracks_misplaced.
Qed.

Lemma tracks_protocol module s proto owner : tracks (expand_protocol program items step module s proto owner).
Proof.
  unfold expand_protocol. apply tracks_still; [apply still_lift|]. intros impls. apply tracks_still; [apply still_quietly|]. intros ?.
  destruct (List.find _ impls) as [[role d]|]; [apply Hitems|].
  assert (Hc : forall message, tracks (do! quietly (ExpandOp.complain program module (step_range s) E0112 message) in mret []))
    by (intros message; apply tracks_still; [apply still_quietly|]; intros ?; by apply tracks_ret).
  destruct (mbind _ _) as [[|[]]|]; try apply Hc. apply Hstep.
Qed.

Lemma tracks_step_with module s owner knell : tracks (expand_step_with program contracts turns items step module s owner knell).
Proof.
  unfold expand_step_with. cbv zeta. pose proof (tracks_step_one module s owner knell) as H1.
  destruct (step_call s); try exact H1. apply tracks_still; [apply still_lift|]. intros [|? ?]; [|exact H1].
  apply tracks_still; [apply still_lift|]. intros [|[m proto] ?]; [exact H1|apply tracks_protocol].
Qed.
End Level.

Lemma expand_tracks fuel :
  (forall module body owner, tracks (expand_items program contracts turns fuel module body owner))
  /\ forall module s owner knell, tracks (expand_step program contracts turns fuel module s owner knell).
Proof.
  induction fuel as [|fuel [IHi IHs]]; [split; intros; apply tracks_throw|]. split; intros.
  - cbn [expand_items]. apply tracks_fold. intros st. by apply tracks_stmt.
  - cbn [expand_step]. by apply tracks_step_with.
Qed.
End Flow.

(** The items of a text with its slots filled: what stands in no slot stands as it was. *)
Definition plain_item (it : Item) : bool :=
  match it with Slot _ | Par _ | Repeat _ _ _ | When _ _ _ _ _ => false | _ => true end.

Inductive filled : list Item -> list Item -> Prop :=
| FilledNil : filled [] []
| FilledSlot name its l l' : filled l l' -> filled (Slot name :: l) (its ++ l')
| FilledPar cs cs' l l' : filled cs cs' -> filled l l' -> filled (Par cs :: l) (Par cs' :: l')
| FilledRepeat f v b b' l l' : filled b b' -> filled l l' -> filled (Repeat f v b :: l) (Repeat f v b' :: l')
| FilledWhen g w o t t' e e' l l' : filled t t' -> filled e e' -> filled l l' ->
    filled (When g w o t e :: l) (When g w o t' e' :: l')
| FilledItem it l l' : plain_item it = true -> filled l l' -> filled (it :: l) (it :: l').

Lemma filled_app l l' r r' : filled l l' -> filled r r' -> filled (l ++ r) (l' ++ r').
Proof. intros H Hr. induction H; cbn [app]; rewrite <- ?app_assoc; first [done|by constructor]. Qed.

Lemma filled_keeps it : plain_item it = true -> filled [it] [it].
Proof. intros H. apply FilledItem; [done|constructor]. Qed.

Section Filled.
Variable program : list Module_.
Variable items : nat -> list Stmt -> Contract -> XM (list Item).
Variables (module : nat) (owner : Contract).
#[local] Notation fill_item := (fill_item program items module owner).

Lemma fill_list_filled (fill : list Item -> XM (list Item)) l : fill [] = mret [] ->
  (forall x r, fill (x :: r) = (let! a := fill_item x in let! b := fill r in mret (a ++ b))) ->
  Forall (fun it => forall x x' out, fill_item it x = (x', Ok out) -> filled [it] out) l ->
  forall x x' out, fill l x = (x', Ok out) -> filled l out.
Proof.
  intros H0 H1. induction 1 as [|it l Hit _ IH]; intros x x' out; [rewrite H0; intros [= <- <-]; constructor|]. rewrite H1. unfold mthen.
  destruct (fill_item it x) as [x1 [a|]] eqn:Ha; [|done]. destruct (fill l x1) as [x2 [b|]] eqn:Hb; [|done]. intros [= <- <-].
  apply (filled_app [it]); [by eapply Hit|by eapply IH].
Qed.

Lemma fill_item_filled it : forall x x' out, fill_item it x = (x', Ok out) -> filled [it] out.
Proof.
  induction it as [s|s|cs IH|name| | |gs|pr al|g w ol|f v b IH|g w ol t e IHt IHe] using item_ind; intros x x' out; cbn [Expand.fill_item];
    try (intros [= <- <-]; by apply filled_keeps).
  - set (fill := fix fill (l : list Item) : XM (list Item) := _). unfold mthen. destruct (fill cs x) as [x1 [a|]] eqn:Ha; [|done].
    intros [= <- <-]. apply FilledPar; [|constructor]. by eapply (fill_list_filled fill cs).
  - intros _. rewrite <- (app_nil_r out). apply FilledSlot, FilledNil.
  - set (fill := fix fill (l : list Item) : XM (list Item) := _). unfold mthen. destruct (fill b x) as [x1 [a|]] eqn:Ha; [|done].
    intros [= <- <-]. apply FilledRepeat; [|constructor]. by eapply (fill_list_filled fill b).
  - set (fill := fix fill (l : list Item) : XM (list Item) := _). unfold mthen. destruct (fill t x) as [x1 [a|]] eqn:Ha; [|done].
    destruct (fill e x1) as [x2 [c|]] eqn:Hc; [|done]. intros [= <- <-].
    apply FilledWhen; [by eapply (fill_list_filled fill t)|by eapply (fill_list_filled fill e)|constructor].
Qed.

Lemma fill_slots_filled l x x' out : fill_slots program items module owner l x = (x', Ok out) -> filled l out.
Proof.
  unfold fill_slots.
  enough (H : forall done_ x, fold_each (fun out it => let! its := fill_item it in mret (out ++ its)) done_ l x = (x', Ok out) ->
            exists res, out = done_ ++ res /\ filled l res) by (intros (res & -> & Hres)%H; done).
  induction l as [|it l IH]; intros done_ x0; [intros [= <- <-]; exists []; split; [by rewrite app_nil_r|constructor]|].
  cbn [fold_each]. unfold mthen at 1 2. destruct (fill_item it x0) as [x1 [its|]] eqn:Hx; [|done]. unfold mret at 1.
  intros (res & -> & Hres)%IH. exists (its ++ res). split; [by rewrite app_assoc|]. apply (filled_app [it]); [|done].
  by eapply fill_item_filled.
Qed.
End Filled.

(** The plan's items come of items that are read in the scope they stand in. *)
Definition well_scoped (its : list Item) : Prop :=
  exists written, filled written its /\ all_exact (snd (flow written (fun _ => None))).

Lemma expand_body_scoped program contracts turns fuel module body owner scope :
  sc_aliases scope = [] -> gives well_scoped (expand_body program contracts turns fuel module body owner scope).
Proof.
  intros Hsc s s' its. unfold expand_body, mthen.
  destruct (expand_items _ _ _ _ _ _ _ _) as [x1 [i1|]] eqn:H1; [|done].
  destruct (fill_slots _ _ _ _ _ _) as [x2 [i2|]] eqn:H2; [|done]. intros [= _ <-]. exists i1.
  split; [by eapply fill_slots_filled|].
  apply (proj1 (expand_tracks program contracts turns fuel) _ _ _ _ _ _ (fun _ => None) H1). intros b. cbn. by rewrite Hsc.
Qed.

Lemma expand_plan_scoped program contracts turns fuel clauses owner :
  gives (opt_ok (fun plan => well_scoped (plan_body plan))) (expand_plan program contracts turns fuel clauses owner).
Proof.
  unfold expand_plan. apply gives_skip. intros ?. destruct clauses as [|[m0 d0] cl]; [apply gives_throw|].
  apply gives_skip. intros [[[m d] ct]|]; [|by apply gives_ret].
  apply (gives_then (fun scope => sc_aliases scope = [])).
  { intros s s' scope [= _ Hs]. by eapply plan_scope_aliases. }
  intros scope Hscope. apply gives_skip. intros plan0. apply gives_skip. intros probes.
  eapply gives_then; [by apply expand_body_scoped|]. intros its Hi. apply gives_ret. by intros y [= <-].
Qed.

