(* ===== verification/ExpandFindings.v ===== *)
(** * Texts, expanded

    Whole texts through [resolve]: the cases of [surface/tests/resolve.rs], and what the
    expansion shows that the documentation says otherwise. *)

From Stdlib Require Import Ascii.
From stdpp Require Import base strings list sets.
From S2P Require Import Prelude Monad Ordered Diagnostics Model Instance Tree Ast StaticValue Site Program ExpandOp Expand ExpandLogic.

(** A text with [']  for a double quote and [|] for a line end. *)
Fixpoint written (s : string) : string :=
  match s with
  | EmptyString => EmptyString
  | String c r =>
      (if c == "'"%char then dquote else if c == "|"%char then newline else String c EmptyString) +:+ written r
  end.

Definition demo_site_text : string :=
  "site do|  inventory from: file('inventory.toml')|  journal to: local()|  operators do|    identity :requester, user: 'ops', operator_for: :all, admin: true|  end|end|".

Definition demo_inventory : InventoryFile :=
  mkInventoryFile
    [mkInvHost "db-01" "10.0.0.1" "freebsd" ["db"] ["ssh"] true (Some "cron") None None None;
     mkInvHost "api-01" "10.0.0.2" "appliance" [] ["api"] false None None None None]
    [("oncall", Some true)].

Definition read_text (files : list (string * string)) (path : string) : Result string string :=
  if path == "/p/inventory.toml" then Ok EmptyString
  else match bm_get path files with
       | Some s => Ok (written (concats ["rescind 0|"; s]))
       | None => Err "not found"
       end.

Definition demo_options : Options := mkOptions false (Some "db-01") None None None.

Definition resolve_text (files : list (string * string)) : Answer PlanIr :=
  resolve Some (read_text files) (fun _ => Ok demo_inventory) 400 20 "/p/plan.scind" demo_options.

(** A plan file with the site and these definitions. *)
Definition plan_text (body : string) : list (string * string) := [("/p/plan.scind", demo_site_text +:+ body)].

Definition codes_of (r : Answer PlanIr) : list Code := match r with Ok (Err ds) => map sd_code ds | _ => [] end.

Definition body_of_answer (r : Answer PlanIr) : list Item := match r with Ok (Ok ir) => plan_body (ir_plan ir) | _ => [] end.

Definition posture : string := "defop :posture, _ do|  footprint owned: file('/etc/a')|  do: write(file('/etc/a'), content: 'x')|  undo: :restore|end|".

Definition head_text : string := "defplan :p, %{name: 'db-01'} do|  wane 1h|  ".

Definition dos (its : list Item) : list (string * list Prim * Undo) :=
  map (fun st => (op_id (step_op st), op_do (step_op st), op_undo (step_op st))) (items_steps its).

Definition expanded (defs_ items_ : string) : list (string * list Prim * Undo) :=
  dos (body_of_answer (resolve_text (plan_text (concats [defs_; head_text; items_; "|end|"])))).

Definition refused_by (defs_ items_ : string) : list Code :=
  codes_of (resolve_text (plan_text (concats [defs_; head_text; items_; "|end|"]))).

(** ** The resolver's tests *)

Definition a_file : FactRef := mkFactRef "file:/etc/a" None.

Example clean_file_resolves : expanded posture "posture()" = [("posture", [PWrite (mkWrite a_file (VLit "x"))], Restore)].
Proof. vm_compute. reflexivity. Qed.

Example unknown_name_is_refused :
  match resolve_text (plan_text (concats [posture; head_text; "postrue()|end|"])) with
  | Ok (Err [d]) => (sd_code d, sd_nearest d) = (E0102, Some "posture")
  | _ => False
  end.
Proof. vm_compute. reflexivity. Qed.

Example repeats_are_bounded :
  refused_by posture "repeat over: guests, as g do|    posture()|  end" = [E0106]
  /\ refused_by posture "repeat over: [:a, :b, :a], as g, max: 3 do|    posture()|  end" = [E0113].
Proof. vm_compute. by split. Qed.

Definition issue_text : string :=
  "defop :issue, _ do|  footprint modified: api.token|  do: hook(:issue)|  undo: hook(:revoke, idempotent: true)|  undo_pre api.token|  outputs pw, secret: true|  locus: :controller|end|defop :o, _ do|  footprint owned: file('/etc/a')|  do: write(file('/etc/a'), content: pw)|  undo: :restore|end|".

Example output_before_its_step : refused_by issue_text "o(pw: tok.pw)|  issue() as tok" = [E0110].
Proof. vm_compute. reflexivity. Qed.

(** ** A secret output, marked *)

Definition secret_files : list (string * string) :=
  plan_text (concats [issue_text; head_text; "issue() as tok|  o(pw: tok.pw)|end|"]).

Definition secret_program : list Module_ :=
  match load Some (read_text secret_files) 400 20 "/p/plan.scind" with Ok (Ok p) => p | _ => [] end.

Definition demo_contracts : list Contract := map contract_of (if_host demo_inventory).

Definition demo_owner : Contract := mkContract "db-01" "10.0.0.1" "freebsd" ["db"] ["ssh"] None.

Definition secret_clauses : list (nat * Def) := match defs secret_program 0 "defplan" with Ok l => l | Err _ => [] end.

Definition secret_plan : Plan :=
  match expand_plan secret_program demo_contracts 400 20 secret_clauses demo_owner [] with
  | (_, Ok (Some p)) => p
  | _ => plan_new EmptyString EmptyString []
  end.

Definition secret_step : StepI := List.nth 1 (items_steps (plan_body secret_plan)) (step_new (op_new EmptyString [])).

Definition secret_write : Prim := PWrite (mkWrite a_file (VRef (ROutput "tok" "pw" true))).

Lemma secret_plan_expands :
  expand_plan secret_program demo_contracts 400 20 secret_clauses demo_owner [] = ([], Ok (Some secret_plan)).
Proof. vm_compute. reflexivity. Qed.

Lemma secret_step_in : secret_step ∈ items_steps (plan_body secret_plan).
Proof. apply (list_elem_of_lookup_2 _ 1). vm_compute. reflexivity. Qed.

Lemma secret_write_in : secret_write ∈ op_bodies (step_op secret_step).
Proof. apply (list_elem_of_lookup_2 _ 0). vm_compute. reflexivity. Qed.


(** ** An alias bound again *)

Definition plain_text : string :=
  "defprobe :ready do|  run 'x'|  locus :controller|end|defop :plain, _ do|  footprint owned: file('/etc/b')|  do: write(file('/etc/b'), content: 'x')|  undo: :restore|  outputs pw|end|".

(** The references of a text's [do]s, and the codes it is refused with. *)
Definition reads_of (items_ : string) : list Code * list Ref :=
  (refused_by (issue_text +:+ plain_text) items_,
   concat (map (fun d => concat (map prim_refs (snd (fst d)))) (expanded (issue_text +:+ plain_text) items_))).

(** An alias from above a [when] that an arm binds again stays what it was for the steps
    behind: where the arm is taken, they read the arm's output, a secret, under the mark of
    the other, and nothing is said. *)
Example arm_rebinds_unmarked :
  reads_of "plain() as tok|  when ready do|    issue() as tok|  end|  o(pw: tok.pw)" = ([], [ROutput "tok" "pw" false]).
Proof. vm_compute. reflexivity. Qed.

(** The body of a [repeat] is read once: the second round reads what the first one bound
    below, a secret, under the mark of what stands above. *)
Example round_rebinds_unmarked :
  reads_of "plain() as tok|  repeat 2 do|    o(pw: tok.pw)|    issue() as tok|  end" = ([], [ROutput "tok" "pw" false]).
Proof. vm_compute. reflexivity. Qed.

Definition tok_scope : Scope := mkScope [] [("tok", [mkOutput "pw" true])] [].

Definition tok_call : Ast.Step :=
  Ast.mkStep here (XCall here ["o"] [AKw (mkKw here "pw" (AExpr (XRef here ["tok"; "pw"])))]) [] None.

Definition tok_step : StepI :=
  match expand_call secret_program demo_contracts 400 0 tok_call ["o"] [AKw (mkKw here "pw" (AExpr (XRef here ["tok"; "pw"])))]
          here demo_owner tok_scope [] with
  | (_, Ok (Some st)) => st
  | _ => step_new (op_new EmptyString [])
  end.

Lemma tok_call_expands :
  expand_call secret_program demo_contracts 400 0 tok_call ["o"] [AKw (mkKw here "pw" (AExpr (XRef here ["tok"; "pw"])))]
    here demo_owner tok_scope [] = ([], Ok (Some tok_step)).
Proof. vm_compute. reflexivity. Qed.

Lemma tok_write_in : secret_write ∈ op_bodies (step_op tok_step).
Proof. apply (list_elem_of_lookup_2 _ 0). vm_compute. reflexivity. Qed.

Lemma call_references_are_classified_witness : classified tok_scope (ROutput "tok" "pw" true).
Proof.
  apply (call_references_are_classified _ _ _ _ _ _ _ _ _ _ _ _ _ tok_call_expands _ _ tok_write_in). by left.
Defined.

(** ** Against the documentation

    An expression that is no reference, interpolated in a body: its place is its place in the
    string, and what is spliced in is what stands at that place of the file ([resci] of
    [rescind 0]). *)

Example interpolation_reads_the_file :
  expanded "defop :o, _ do|  footprint owned: file('/etc/a')|  do: write(file('/etc/a'), content: 'v#{1 + 2}')|  undo: :restore|end|" "o()"
  = [("o", [PWrite (mkWrite a_file (VLit "vresci"))], Restore)].
Proof. vm_compute. reflexivity. Qed.

(** A primitive that lacks what it writes is left out, and nothing is said. *)
Example incomplete_primitive_is_dropped :
  expanded "defop :o, _ do|  footprint owned: file('/etc/a')|  do: write(file('/etc/a'))|  undo: :restore|end|" "o()"
  = [("o", [], Restore)].
Proof. vm_compute. reflexivity. Qed.

(** An output of a sibling under [par] is read, and E0110 is not raised. *)
Example par_siblings_share_a_scope :
  refused_by issue_text "par do|    issue() as tok|    o(pw: tok.pw)|  end" = []
  /\ List.last (expanded issue_text "par do|    issue() as tok|    o(pw: tok.pw)|  end") (EmptyString, [], NoUndo)
     = ("o", [secret_write], Restore).
Proof. vm_compute. by split. Qed.

Definition fence_text : string :=
  "defop :fence, _ do|  footprint|  do: hook(:fence)|  undo_locus: :none|  refusal: knell, guard: off, cost: :none, reason: 'cost', ack: :none, reason: 'ack'|end|".

Definition items_of (defs_ items_ : string) : list Item :=
  body_of_answer (resolve_text (plan_text (concats [defs_; head_text; items_; "|end|"]))).

(** [knell] before a call of a protocol is forgotten. *)
Example knell_of_a_protocol_is_a_step :
  map (fun it => match it with Knell _ => true | _ => false end) (items_of fence_text "knell fence()") = [true]
  /\ map (fun it => match it with Knell _ => true | _ => false end)
       (items_of (concats [fence_text; "defprotocol :q do|  default fence()|end|"]) "knell q()") = [false].
Proof. vm_compute. by split. Qed.

(** The reason of an acknowledgement is never read: the first [reason:] is both the cost's and its. *)
Example ack_reason_is_the_cost_s :
  map (fun st => match op_refusal (step_op st) with RKnell _ (NoCost c) (NoAck a) => (c, a) | _ => (EmptyString, EmptyString) end)
    (items_steps (items_of fence_text "knell fence()")) = [("cost", "cost")].
Proof. vm_compute. reflexivity. Qed.

Definition probe_text : string :=
  "defprobe :ready do|  run 'x'|  produces state|end|defop :use, _ do|  footprint owned: file('/etc/a')|  do: write(file('/etc/a'), content: state)|  undo: :restore|end|".

Definition imported_text : list (string * string) :=
  [("/p/lib.scind", probe_text);
   ("/p/plan.scind", concats ["import 'lib.scind' as lib|"; demo_site_text; head_text; "lib.use()|end|"])].

(** A fact that a target probe produces is a fact in its own file, and a parameter of the
    request to the op of an import. *)
Example imported_fact_is_a_parameter :
  expanded probe_text "use()" = [("use", [PWrite (mkWrite a_file (VRef (RFact "state")))], Restore)]
  /\ dos (body_of_answer (resolve_text imported_text)) = [("use", [PWrite (mkWrite a_file (VRef (RParam "state")))], Restore)].
Proof. vm_compute. by split. Qed.

(** A threshold is cut to 32 bits: of 4294967297 one is left. *)
Example threshold_is_cut :
  match resolve_text (plan_text (concats [posture; head_text; "gate thresh(4294967297, auth(:oncall), auth(:oncall))|  posture()|end|"])) with
  | Ok (Ok ir) => pg_expr <$> plan_gate (ir_plan ir)
  | _ => None
  end = Some (Thresh 1 [Auth "oncall" 1; Auth "oncall" 1]).
Proof. vm_compute. reflexivity. Qed.

(** What an undo presumes is forgotten where it is written before the undo. *)
Example undo_pre_before_undo_is_dropped :
  expanded "defop :o, _ do|  footprint modified: a.b|  undo_pre a.b|  do: hook(:x)|  undo: hook(:y, idempotent: true)|end|" "o()"
  = [("o", [PHook (mkHook "x" [])], Computed [PHook (mkHook "y" [])] [])].
Proof. vm_compute. reflexivity. Qed.

(** ** Expansions without an end *)

Definition loop_program : list Module_ :=
  match load Some (read_text (plan_text (concats ["defprotocol :q do|  default q()|end|"; head_text; "q()|end|"]))) 400 20 "/p/plan.scind" with
  | Ok (Ok p) => p
  | _ => []
  end.

(** The call of the protocol in its own [default]. *)
Definition loop_call : Expr :=
  match lookup_name loop_program 0 "defprotocol" ["q"] with
  | Ok ((_, d) :: _) =>
      match body_lines (def_body d) with l :: _ => match line_args l with AExpr e :: _ => e | _ => XError here end | [] => XError here end
  | _ => XError here
  end.

Definition loop_step (r : TextRange) : Ast.Step := Ast.mkStep r loop_call [] None.

Definition loop_proto : Def :=
  match lookup_name loop_program 0 "defprotocol" ["q"] with
  | Ok ((_, d) :: _) => d
  | _ => mkDef here EmptyString EmptyString here None [] []
  end.

Definition loop_range : TextRange := expr_range loop_call.

Lemma loop_call_is : loop_call = XCall loop_range ["q"] [].
Proof. vm_compute. reflexivity. Qed.

Lemma loop_no_op : lookup_name loop_program 0 "defop" ["q"] = Ok [].
Proof. vm_compute. reflexivity. Qed.

Lemma loop_lookup : lookup_name loop_program 0 "defprotocol" ["q"] = Ok [(0, loop_proto)].
Proof. vm_compute. reflexivity. Qed.

Lemma loop_no_impl : impls_of loop_program 0 (def_name loop_proto) = Ok [].
Proof. vm_compute. reflexivity. Qed.

Lemma loop_no_inverse : check_inverse loop_program 0 loop_proto [] = mret tt.
Proof.
  unfold check_inverse. assert (H : List.find (fun k => Ast.kw_name k == "inverse") (def_params loop_proto) = None) by (vm_compute; reflexivity).
  by rewrite H.
Qed.

Lemma loop_default :
  (l ← List.find (fun l => line_keyword l == "default") (body_lines (def_body loop_proto)); head (line_args l))
  = Some (AExpr loop_call).
Proof. vm_compute. reflexivity. Qed.

Lemma loop_turn fuel r x :
  expand_step loop_program demo_contracts 400 (S fuel) 0 (loop_step r) demo_owner false x
  = expand_step loop_program demo_contracts 400 fuel 0 (loop_step r) demo_owner false x.
Proof.
  cbn [expand_step]. unfold expand_step_with. change (step_call (loop_step r)) with loop_call. rewrite loop_call_is.
  unfold mthen at 1, lift at 1. rewrite loop_no_op. unfold mthen at 1, lift at 1. rewrite loop_lookup.
  unfold expand_protocol. unfold mthen at 1, lift at 1. rewrite loop_no_impl, loop_no_inverse, loop_default. cbn [List.find].
  unfold mthen, quietly, in_scope, mret. rewrite loop_call_is. destruct x as [ds sc]. cbn [xp_diags xp_scope].
  by rewrite <- loop_call_is.
Qed.

(** A protocol whose [default] calls it is expanded for ever, whatever the turns. *)
Theorem protocol_default_never_ends fuel r x :
  snd (expand_step loop_program demo_contracts 400 fuel 0 (loop_step r) demo_owner false x) = Err OutOfTurns.
Proof. induction fuel as [|fuel IH]; [done|]. by rewrite loop_turn. Qed.

(** And so is a gate that names the parameter it is bound to: [fence(ack: group(ack))]. *)
Definition ack_bindings (r : TextRange) : list (string * ExpandOp.Bound) :=
  [("ack", BLiteral (ValCall ["group"] [AExpr (XRef r ["ack"])]) None)].

Theorem gate_never_ends fuel program module r ds :
  snd (gate program fuel module (ack_bindings r) (XRef r ["ack"]) ds) = Err OutOfTurns
  /\ snd (gate program fuel module (ack_bindings r) (XCall no_range ["group"] [AExpr (XRef r ["ack"])]) ds) = Err OutOfTurns.
Proof.
  induction fuel as [|fuel [IH1 IH2]]; [done|]. split; [exact IH2|]. cbn [gate]. unfold gate_call.
  change (join "." ["group"]) with "group". cbv zeta. change ("group" == "auth") with false. change ("group" == "humans") with false.
  change ("group" == "wait") with false. change ("group" == "group") with true. cbv iota. unfold mthen at 1. cbn [first_some].
  unfold mthen at 1. destruct (gate program fuel module (ack_bindings r) (XRef r ["ack"]) ds) as [ds' [g|e]]; [done|]. cbn in *. done.
Qed.
