(* ===== verification/LocalHost.v ===== *)
(** * The controller as a target ([bindings/src/local.rs])

    [LocalExecutor] is an executor whose host is the machine the engine runs on: a run is a
    child process, a file primitive is a read and a write of the file system. The operating
    system is a class, [Os], one operation for each call of the standard library the source
    makes; the executor over it is an instance of [Executor]. *)

From Stdlib Require Import Ascii.
From stdpp Require Import base strings pretty numbers option list gmap sorting.
From S2P Require Import Prelude Monad Ordered Utf8 Model Backstop Journal Region Resolve Render Executor.

(** ** The operating system *)

(** [io::Error]: whether its kind is [NotFound], and how it prints. *)
Record IoError := mkIoError { ie_not_found : bool; ie_text : string }.

Notation Io A := (Result A IoError) (only parsing).

(** What a child process ended with; [None] is the exit code of one that a signal ended. *)
Record Ended := mkEnded { en_code : option Z; en_stdout : string; en_stderr : string }.

Class Os (W : Type) := {
  os_read : string -> W -> W * Io string;
  (** [File::create], [write_all], [sync_all] *)
  os_create : string -> string -> W -> W * Io unit;
  os_rename : string -> string -> W -> W * Io unit;
  os_metadata : string -> W -> W * Io N;
  (** A file opened to append, created where it is missing, written to and synced. *)
  os_append : string -> string -> W -> W * Io unit;
  (** Standard output, written to and flushed. *)
  os_print : string -> W -> W * Io unit;
  os_set_mode : string -> N -> W -> W * Io unit;
  os_remove_file : string -> W -> W * Io unit;
  os_remove_dir_all : string -> W -> W * Io unit;
  os_create_dir_all : string -> W -> W * Io unit;
  os_read_dir : string -> W -> W * Io (list (Io string));
  os_is_dir : string -> W -> W * bool;
  os_is_file : string -> W -> W * bool;
  os_exists : string -> W -> W * bool;
  os_group_exists : string -> W -> W * bool;
  (** The seconds since the epoch, or how the error of a clock before it prints. *)
  os_clock : W -> W * Result N string;
  (** The shell, its arguments, the environment that is added and what stands on stdin. *)
  os_spawn : string -> list string -> list (string * string) -> option string -> W -> W * Result Ended string;
  os_open : string -> W -> W * Io unit;
  os_flock : string -> W -> W * Io unit;
  os_close : string -> W -> W;
}.

(** [r.ok()] *)
Definition result_ok {A E} (r : Result A E) : option A := match r with Ok x => Some x | Err _ => None end.

(** [local::io] *)
Definition io {A} (r : Io A) : Exec A := match r with Ok x => Ok x | Err e => Err (ExIo (ie_text e)) end.

(** ** Paths *)

Definition slash : ascii := chr 47.

(** [s.rsplit_once(c)] *)
Fixpoint rsplit_at_char (c : ascii) (s : string) : option (string * string) :=
  match s with
  | EmptyString => None
  | String d r =>
      match rsplit_at_char c r with
      | Some (a, b) => Some (String d a, b)
      | None => if c == d then Some (EmptyString, r) else None
      end
  end.

Fixpoint trim_slashes (s : string) : string :=
  match s with
  | EmptyString => EmptyString
  | String c r => let r := trim_slashes r in if (c == slash) && (r == EmptyString) then EmptyString else String c r
  end.

Definition ends_with_slash (s : string) : bool := last_char s == Some slash.

(** [Path::join]: an absolute path takes the place of what it is joined to. *)
Definition path_join (a b : string) : string :=
  if starts_with "/" b || (a == EmptyString) then b
  else if ends_with_slash a then a +:+ b
  else concats [a; "/"; b].

(** [Path::parent], but for the spelling of repeated separators. *)
Definition parent (p : string) : option string :=
  match rsplit_at_char slash (trim_slashes p) with
  | Some (a, _) => Some (if trim_slashes a == EmptyString then "/" else trim_slashes a)
  | None => if trim_slashes p == EmptyString then None else Some EmptyString
  end.

(** The last component, where it names a file. *)
Definition names_a_file (p : string) : bool :=
  let t := trim_slashes p in
  let name := match rsplit_at_char slash t with Some (_, n) => n | None => t end in
  negb (existsb (fun n => name == n) [EmptyString; "."; ".."]).

(** The temporary name: [with_extension] puts the extension the path has back in front of
    [.rescind-tmp], so it is the path with that behind it; a path that names no file stays. *)
Definition tmp_of (p : string) : string := if names_a_file p then trim_slashes p +:+ ".rescind-tmp" else p.

(** ** Replacing *)

Fixpoint split_str_loop (fuel : nat) (p s : string) : list string :=
  match fuel with
  | O => [s]
  | S fuel =>
      match split_at_str p s with
      | Some (a, b) => a :: split_str_loop fuel p (match strip_prefix p b with Some r => r | None => EmptyString end)
      | None => [s]
      end
  end.

(** [s.split(p)] for a pattern that is not empty; a turn takes its length off the text. *)
Definition split_str (p s : string) : list string := split_str_loop (S (String.length s)) p s.

(** [s.replace(p, with)] *)
Definition str_replace (p with_ s : string) : string := join with_ (split_str p s).

Definition scrubbed : string := "<secret>".

Definition scrub (text : string) (secrets : list string) : string :=
  foldl (fun t s => str_replace s scrubbed t) text secrets.

Definition secret_text (r : Resolved) : list string :=
  if rv_secret r && negb (rv_text r == EmptyString) then [rv_text r] else [].

Definition prim_secrets (p : RPrim) : list string :=
  match p with
  | RRun cmd env stdin =>
      secret_text cmd ++ flat_map (fun e => secret_text (snd e)) env
      ++ match stdin with Some s => secret_text s | None => [] end
  | RWrite _ content | RRegionSet _ _ content | RStage _ content _ => secret_text content
  | RAppend _ line => secret_text line
  | RHook _ args => flat_map (fun e => secret_text (snd e)) args
  | RCall _ cmd => secret_text cmd
  | RRemove _ | RRegionClear _ _ | RInstall _ | RRelease _ => []
  end.

Definition secrets_of (body : list RPrim) : list string := flat_map prim_secrets body.

(** ** Outputs *)

Definition OUTPUT_PREFIX : string := "rescind-output ".

Definition output_line (acc : string * gmap string string) (line : string) : string * gmap string string :=
  let '(rest, outputs) := acc in
  match strip_prefix OUTPUT_PREFIX line with
  | Some kv =>
      match split_at_char (chr 61) kv with
      | Some (k, v) => (rest, <[trim k := v]> outputs)
      | None => (rest, outputs)
      end
  | None => (concats [rest; line; newline], outputs)
  end.

Definition split_outputs (stdout : string) : string * gmap string string := foldl output_line (EmptyString, ∅) (lines stdout).

(** [stderr.trim().lines().last().unwrap_or("")] after its exit code *)
Definition exit_text (code : Z) (stderr : string) : string :=
  concats ["exit "; pretty code; ": "; default EmptyString (last (lines (trim stderr)))].

Definition tri_of_code (code : Z) : Tri := if (code =? 0)%Z then Yes else if (code =? 1)%Z then No else Unknown.

(** [local::path_of], and [ssh::path_of] before it is quoted *)
Definition path_of (shape : string) : Exec string :=
  match file_path shape with
  | Some p => Ok p
  | None => Err (ExUnsupported (shape +:+ " is not a file fact"))
  end.

(** The body a probe is answered by: its first run. *)
Definition probe_run (p : ProbeRun) : option (Resolved * list (string * Resolved) * option Resolved) :=
  find_map (fun x => match x with RRun cmd env stdin => Some (cmd, env, stdin) | _ => None end) (pr_body p).

Definition hook_prim (binding name : string) : ExecError :=
  ExUnsupported (concats ["hook(:"; name; ") is a hook executor's primitive, not "; binding; "()'s"]).

Definition package_prim (binding name : string) : ExecError :=
  ExUnsupported (concats [name; ": install and release are a hook's primitives, not "; binding; "()'s"]).

Definition no_run_body (binding : string) (p : ProbeRun) : ExecError :=
  ExUnsupported (concats ["probe "; pr_name p; " has no run body; "; binding; "() knows no probe by name"]).

(** ** The executor *)

Record LocalExecutor := mkLocalExecutor {
  lx_shell : string;
  lx_shell_args : list string;
  lx_default_root : string;
}.

(** [LocalExecutor::default] on unix *)
Definition local_default : LocalExecutor := mkLocalExecutor "/bin/sh" ["-c"] (default_root ShellPosix).

Section Local.
Context {W : Type} `{!Os W}.

(** What the host's own methods do: [W -> W * Exec A]. *)
Definition local_root (x : LocalExecutor) (h : EHost) : string := default (lx_default_root x) (eh_rescind_root h).

Definition local_dir (x : LocalExecutor) (h : EHost) (inst : string) : string :=
  path_join (path_join (local_root x h) "instances") inst.

Definition io_do {A} (m : W -> W * Io A) : W -> W * Exec A := fun w => let '(w, r) := m w in (w, io r).

Definition always {A} (m : W -> W * A) : W -> W * Exec A := fun w => let '(w, r) := m w in (w, Ok r).

(** An error whose kind is [NotFound] is as good as [d]. *)
Definition unless_missing {A} (d : A) (m : W -> W * Io A) : W -> W * Exec A :=
  fun w => let '(w, r) := m w in
           (w, match r with Err e => if ie_not_found e then Ok d else io r | Ok x => Ok x end).

Definition sh (x : LocalExecutor) (cmd : Resolved) (env : list (string * Resolved)) (stdin : option Resolved)
    (secrets : list string) : W -> W * Exec (Z * string * string) :=
  fun w =>
    let '(w, r) := os_spawn (lx_shell x) (lx_shell_args x ++ [rv_text cmd]) (map (fun e => (fst e, rv_text (snd e))) env)
                     (rv_text <$> stdin) w in
    (w, match r with
        | Ok e => Ok (default (-1)%Z (en_code e), scrub (from_utf8_lossy (en_stdout e)) secrets,
                      scrub (from_utf8_lossy (en_stderr e)) secrets)
        | Err e => Err (ExIo e)
        end).

Definition write_atomic (path bytes : string) : W -> W * Io unit :=
  let! mode := fun w => let '(w, m) := os_metadata path w in (w, Ok (result_ok m)) in
  do! os_create (tmp_of path) bytes in
  do! match mode with Some m => os_set_mode (tmp_of path) m | None => mret tt end in
  os_rename (tmp_of path) path.

Definition read_text (path : string) : W -> W * Exec string :=
  unless_missing EmptyString (fun w => let '(w, r) := os_read path w in (w, rmap from_utf8_lossy r)).

(** [mode_of] on unix *)
Definition mode_of (path : string) : W -> W * option N :=
  fun w => let '(w, m) := os_metadata path w in (w, (fun m => N.land m 4095) <$> result_ok m).

(** 0o2770 *)
Definition DIR_MODE : N := 1528.
(** 0o664 *)
Definition LOCK_MODE : N := 436.

Definition dir_modes_ok (path : string) : W -> W * bool :=
  fun w => let '(w, m) := mode_of path w in (w, match m with Some m => (m =? DIR_MODE)%N | None => false end).

(** One primitive of a body, after [out]. *)
Definition local_prim (x : LocalExecutor) (h : EHost) (inst : string) (secrets : list string) (out : RunOutput) (p : RPrim)
    : W -> W * Exec RunOutput :=
  let shell cmd env stdin :=
    let! (code, stdout, stderr) := sh x cmd env stdin secrets in
    if negb (code =? 0)%Z then mthrow (ExFailed (exit_text code stderr))
    else
      let '(rest, outputs) := split_outputs stdout in
      mret (mkRunOutput (ro_stdout out +:+ rest) (outputs ∪ ro_outputs out)) in
  match p with
  | RRun cmd env stdin => shell cmd env stdin
  | RCall _ cmd => shell cmd [] None
  | RWrite shape content =>
      let! path := lift (path_of shape) in
      do! io_do (write_atomic path (rv_text content)) in mret out
  | RRemove shape =>
      let! path := lift (path_of shape) in
      do! unless_missing tt (os_remove_file path) in mret out
  | RAppend shape line =>
      let! path := lift (path_of shape) in
      let! text := read_text path in
      let text := if negb (text == EmptyString) && negb (ends_with_nl text) then text +:+ newline else text in
      do! io_do (write_atomic path (concats [text; rv_text line; newline])) in mret out
  | RRegionSet shape anchor content =>
      let! path := lift (path_of shape) in
      let! text := read_text path in
      do! io_do (write_atomic path (region_set text (default EmptyString anchor) (rv_text content))) in mret out
  | RRegionClear shape anchor =>
      let! path := lift (path_of shape) in
      let a := default EmptyString anchor in
      let! text := read_text path in
      match strip text a with
      | Some t => do! io_do (write_atomic path t) in mret out
      | None => mthrow (ExFailed (concats ["region "; a; " of "; path; " has damaged markers"]))
      end
  | RStage name content mode =>
      let dir := local_dir x h inst in
      do! io_do (os_create_dir_all dir) in
      do! io_do (write_atomic (path_join dir name) (rv_text content)) in
      do! io_do (os_set_mode (path_join dir name) mode) in mret out
  | RHook name _ => mthrow (hook_prim "local" name)
  | RInstall name | RRelease name => mthrow (package_prim "local" name)
  end.

Definition local_run (x : LocalExecutor) (h : EHost) (inst : string) (body : list RPrim) : W -> W * Exec RunOutput :=
  fold_each (local_prim x h inst (secrets_of body)) output_default body.

Definition local_observe (x : LocalExecutor) (p : ProbeRun) : W -> W * Exec Observation :=
  match probe_run p with
  | None => mthrow (no_run_body "local" p)
  | Some (cmd, env, stdin) =>
      let! (code, stdout, _) := sh x cmd env stdin (secrets_of (pr_body p)) in
      mret (mkObservation (trim_end stdout) (Some (tri_of_code code)))
  end.

Definition local_read_fact (shape : string) : W -> W * Exec (option string) :=
  let! path := lift (path_of shape) in
  unless_missing None (fun w => let '(w, r) := os_read path w in (w, rmap Some r)).

Definition local_clock_now : W -> W * Exec (option Instant) :=
  fun w => let '(w, r) := os_clock w in (w, match r with Ok s => Ok (Some s) | Err e => Err (ExIo e) end).

Definition local_bootstrap_state (x : LocalExecutor) (h : EHost) : W -> W * Exec BootstrapState :=
  let root := local_root x h in
  let! group := always (os_group_exists "rescind") in
  let instances := path_join root "instances" in
  let lock := path_join root "lock" in
  let! mi := always (mode_of instances) in
  let! ml := always (fun w => if mi == Some DIR_MODE then mode_of lock w else (w, None)) in
  let! is_root := always (os_is_dir root) in
  let! is_instances := always (os_is_dir instances) in
  let! is_lock := always (os_is_file lock) in
  mret (mkBootstrapState is_root group is_instances is_lock ((mi == Some DIR_MODE) && (ml == Some LOCK_MODE))).

Definition local_dir_create (x : LocalExecutor) (h : EHost) (inst : string) : W -> W * Exec unit :=
  let dir := local_dir x h inst in
  do! io_do (os_create_dir_all (path_join dir "markers")) in
  do! io_do (os_create_dir_all (path_join dir "snapshots")) in
  io_do (os_set_mode dir DIR_MODE).

(** One entry of the directory of instances: its state, where it is a directory. *)
Definition local_entry (dir : string) (out : list InstanceDirState) (e : Io string) : W -> W * Exec (list InstanceDirState) :=
  let! name := lift (io e) in
  let p := path_join dir name in
  let! is_dir := always (os_is_dir p) in
  if negb is_dir then mret out
  else
    let! modes_ok := always (dir_modes_ok p) in
    let! fired := always (os_exists (path_join p "fired")) in
    let! artifact := first_some (fun f => let! there := always (os_exists (path_join p f)) in
                                           mret (if there then Some tt else None)) ["artifact.sh"; "artifact.ps1"; "artifact.py"] in
    let artifact := match artifact with Some _ => true | None => false end in
    mret (out ++ [mkInstanceDirState (from_utf8_lossy name) (artifact && negb fired) fired modes_ok]).

Fixpoint insert_dir (d : InstanceDirState) (l : list InstanceDirState) : list InstanceDirState :=
  match l with
  | [] => [d]
  | e :: l' => if str_le (ds_instance d) (ds_instance e) then d :: l else e :: insert_dir d l'
  end.

(** [v.sort_by(|a, b| a.instance.cmp(&b.instance))] *)
Definition sort_dirs (l : list InstanceDirState) : list InstanceDirState := foldr insert_dir [] l.

Definition local_dir_list (x : LocalExecutor) (h : EHost) : W -> W * Exec (list InstanceDirState) :=
  let dir := path_join (local_root x h) "instances" in
  let! entries := unless_missing [] (os_read_dir dir) in
  let! v := fold_each (local_entry dir) [] entries in
  mret (sort_dirs v).

Definition make_parent (p : string) : W -> W * Exec unit :=
  match parent p with Some d => io_do (os_create_dir_all d) | None => mret tt end.

Definition local_replace_file (x : LocalExecutor) (h : EHost) (inst rel bytes : string) : W -> W * Exec unit :=
  let p := path_join (local_dir x h inst) rel in
  do! make_parent p in io_do (write_atomic p bytes).

Definition local_put_file (x : LocalExecutor) (h : EHost) (inst rel bytes : string) (mode : N) : W -> W * Exec unit :=
  do! local_replace_file x h inst rel bytes in
  io_do (os_set_mode (path_join (local_dir x h inst) rel) mode).

Definition local_host_lock (x : LocalExecutor) (h : EHost) : W -> W * Exec unit :=
  let path := path_join (local_root x h) "lock" in
  do! (fun w => let '(w, r) := os_open path w in
                (w, match r with Ok _ => Ok tt | Err e => Err (ExIo (concats [path; ": "; ie_text e])) end)) in
  fun w => match os_flock path w with
           | (w, Ok _) => (w, Ok tt)
           | (w, Err e) => (os_close path w, io (Err e))
           end.

#[export] Instance local_executor : Executor W LocalExecutor := {|
  ex_locus _ _ := LkLocal;
  ex_capabilities _ _ := mkExecCaps true true;
  ex_run := local_run;
  ex_observe x _ p := local_observe x p;
  ex_read_fact _ _ shape := local_read_fact shape;
  ex_bootstrap_state := local_bootstrap_state;
  ex_clock_now _ _ := local_clock_now;
  ex_instance_dir_create := local_dir_create;
  ex_instance_dir_remove x h i := unless_missing tt (os_remove_dir_all (local_dir x h i));
  ex_instance_dir_list := local_dir_list;
  ex_put_file := local_put_file;
  ex_replace_file := local_replace_file;
  ex_get_file x h i rel := io_do (os_read (path_join (local_dir x h i) rel));
  ex_remove_file x h i rel := unless_missing tt (os_remove_file (path_join (local_dir x h i) rel));
  ex_host_lock := local_host_lock;
  ex_unlock x h := os_close (path_join (local_root x h) "lock");
|}.
End Local.

(** ** Substrings *)

Lemma starts_with_app p a : starts_with p (p +:+ a) = true.
Proof.
  induction p as [|c p IH]; [by destruct a|]. rewrite append_cons. unfold starts_with in *. cbn [String.prefix].
  destruct (ascii_dec c c); [done|congruence].
Qed.

Lemma starts_with_Some p s : starts_with p s = true -> exists r, s = p +:+ r.
Proof.
  revert s. induction p as [|c p IH]; intros s H; [by exists s|]. destruct s as [|d s]; [done|].
  unfold starts_with in *. cbn [String.prefix] in H. destruct (ascii_dec c d) as [<-|]; [|done].
  destruct (IH s H) as [r ->]. exists r. by rewrite append_cons.
Qed.

Lemma contains_str_iff p s : contains_str p s = true <-> exists a b, s = a +:+ p +:+ b.
Proof.
  split.
  - induction s as [|c s IH]; cbn [contains_str]; rewrite orb_true_iff; (intros [H|H]; [apply starts_with_Some in H as [r ->]; by exists EmptyString, r|]).
    + done.
    + destruct (IH H) as (a & b & ->). exists (String c a), b. by rewrite append_cons.
  - intros (a & b & ->). induction a as [|c a IH].
    + rewrite nil_app_s. destruct (p +:+ b) eqn:E; cbn [contains_str]; by rewrite <- E, starts_with_app.
    + rewrite append_cons. cbn [contains_str]. by rewrite IH, orb_true_r.
Qed.

(** [f] is a piece of [s]. *)
Definition piece_of (f s : string) : Prop := exists a b, s = a +:+ f +:+ b.

Lemma piece_trans a b c : piece_of a b -> piece_of b c -> piece_of a c.
Proof. intros (x & y & ->) (u & v & ->). exists (u +:+ x), (y +:+ v). by rewrite !app_assoc_s. Qed.

Lemma piece_refl s : piece_of s s.
Proof. exists EmptyString, EmptyString. by rewrite nil_app_s, app_nil_s. Qed.

Lemma piece_l a b : piece_of a (a +:+ b).
Proof. exists EmptyString, b. by rewrite nil_app_s. Qed.

Lemma piece_r a b : piece_of b (a +:+ b).
Proof. exists a, EmptyString. by rewrite app_nil_s. Qed.

Lemma absent_in_piece p f s : piece_of f s -> contains_str p s = false -> contains_str p f = false.
Proof.
  intros Hf Hs. apply not_true_iff_false. intros Hc. apply contains_str_iff in Hc.
  pose proof (piece_trans _ _ _ Hc Hf) as Hp. apply contains_str_iff in Hp. congruence.
Qed.

Lemma starts_with_sep c p x y : contains_char c p = false -> starts_with p (x +:+ String c y) = starts_with p x.
Proof.
  revert x. induction p as [|d p IH]; intros x Hp; [by destruct x|]. rewrite contains_char_cons in Hp.
  apply orb_false_iff in Hp as [Hd Hp]. apply bool_decide_eq_false in Hd. destruct x as [|e x].
  - rewrite nil_app_s. unfold starts_with. cbn [String.prefix]. destruct (ascii_dec d c); [congruence|done].
  - rewrite append_cons. unfold starts_with in *. cbn [String.prefix]. destruct (ascii_dec d e); [by apply IH|done].
Qed.

(** A text with a separator in it has what does not hold the separator on one side of it. *)
Lemma contains_sep c p x y : contains_char c p = false -> p <> EmptyString ->
  contains_str p (x +:+ String c y) = contains_str p x || contains_str p y.
Proof.
  intros Hc Hp. induction x as [|d x IH].
  - rewrite nil_app_s. pose proof (starts_with_sep c p EmptyString y Hc) as H. rewrite nil_app_s in H.
    cbn [contains_str]. rewrite H. by destruct p.
  - rewrite append_cons. cbn [contains_str]. rewrite IH, orb_assoc. f_equal.
    rewrite <- append_cons. by rewrite starts_with_sep.
Qed.

(** ** Scrubbing *)

Lemma split_at_str_first p s a b : split_at_str p s = Some (a, b) -> contains_str p a = false \/ p = EmptyString.
Proof.
  intros H. destruct (decide (p = EmptyString)) as [|Hp]; [by right|left]. revert a b H.
  induction s as [|d s IH]; intros a b; cbn [split_at_str].
  - destruct (starts_with p EmptyString) eqn:E; [|done]. intros [= <- <-]. by destruct p.
  - destruct (starts_with p (String d s)) eqn:E; [intros [= <- <-]; by destruct p|].
    destruct (split_at_str p s) as [[x y]|] eqn:Es; [|done]. intros [= <- <-]. cbn [contains_str].
    rewrite (IH x y eq_refl), orb_false_r. apply not_true_iff_false. intros Hs.
    apply starts_with_Some in Hs as [r Hr]. apply split_at_str_Some in Es. rewrite Es, <- append_cons, Hr, app_assoc_s in E.
    by rewrite starts_with_app in E.
Qed.

Lemma split_at_str_None p s : split_at_str p s = None -> contains_str p s = false.
Proof.
  induction s as [|d s IH]; cbn [split_at_str contains_str].
  - by destruct (starts_with p EmptyString).
  - destruct (starts_with p (String d s)); [done|]. destruct (split_at_str p s) as [[x y]|]; [done|]. auto.
Qed.

Lemma split_at_str_hit p s a b : split_at_str p s = Some (a, b) -> exists r, b = p +:+ r.
Proof.
  revert a. induction s as [|d s IH]; intros a; cbn [split_at_str].
  - destruct (starts_with p EmptyString) eqn:E; [|done]. intros [= <- <-]. by apply starts_with_Some.
  - destruct (starts_with p (String d s)) eqn:E; [intros [= <- <-]; by apply starts_with_Some|].
    destruct (split_at_str p s) as [[x y]|]; [|done]. intros [= <- <-]. by apply (IH x).
Qed.

Lemma strip_prefix_app p r : strip_prefix p (p +:+ r) = Some r.
Proof.
  induction p as [|c p IH]; [by destruct r|]. rewrite append_cons. cbn [strip_prefix]. by rewrite bool_decide_eq_true_2.
Qed.

(** The pieces of a split are pieces of the text, and none of them has the pattern. *)
Lemma split_str_pieces p s : p <> EmptyString ->
  Forall (fun f => piece_of f s /\ contains_str p f = false) (split_str p s).
Proof.
  intros Hp. unfold split_str. assert (Hn : String.length s < S (String.length s)) by lia. revert Hn.
  generalize (S (String.length s)) as n. intros n. revert s. induction n as [|n IH]; intros s Hn; [lia|].
  cbn [split_str_loop]. destruct (split_at_str p s) as [[a b]|] eqn:Hs.
  - pose proof (split_at_str_Some _ _ _ _ Hs) as ->. destruct (split_at_str_hit _ _ _ _ Hs) as [r ->].
    rewrite strip_prefix_app. constructor.
    + split; [apply piece_l|]. by destruct (split_at_str_first _ _ _ _ Hs).
    + assert (Hr : String.length r < n).
      { rewrite !length_app_s in Hn. destruct p; [done|]. cbn [String.length] in Hn. lia. }
      eapply Forall_impl; [exact (IH r Hr)|]. intros f [Hf Hc]. split; [|done].
      apply (piece_trans _ r); [done|]. eapply piece_trans; [apply (piece_r p)|apply piece_r].
  - constructor; [|constructor]. split; [apply piece_refl|by apply split_at_str_None].
Qed.

Lemma append_eq_append x y u v : x +:+ y = u +:+ v ->
  (exists k, u = x +:+ k /\ y = k +:+ v) \/ (exists k, x = u +:+ k /\ v = k +:+ y).
Proof.
  revert u. induction x as [|c x IH]; intros u; [rewrite nil_app_s; intros ->; left; by exists u|].
  destruct u as [|d u]; [rewrite nil_app_s; intros <-; right; by exists (String c x)|]. rewrite !append_cons. intros [= <- [(k & -> & ->)|(k & -> & ->)]%IH].
  - left. exists k. by rewrite append_cons.
  - right. exists k. by rewrite append_cons.
Qed.

(** Every way to cut a string in two. *)
Fixpoint cuts (s : string) : list (string * string) :=
  (EmptyString, s) :: match s with
                      | EmptyString => []
                      | String c r => map (fun uv => (String c (fst uv), snd uv)) (cuts r)
                      end.

Lemma elem_of_cuts s u v : (u, v) ∈ cuts s <-> s = u +:+ v.
Proof.
  revert u. induction s as [|c s IH]; intros u; cbn [cuts]; rewrite elem_of_cons.
  - split; [by intros [[= -> ->]|?%not_elem_of_nil]|]. destruct u as [|d u]; [|done]. rewrite nil_app_s. intros <-. by left.
  - rewrite elem_of_map. split.
    + intros [[= -> ->]|([u' v'] & [= -> ->] & Hin)]; [by rewrite nil_app_s|]. apply IH in Hin as ->. by rewrite append_cons.
    + destruct u as [|d u]; [rewrite nil_app_s; intros <-; by left|]. rewrite append_cons. intros [= -> Hs]. right.
      exists (u, v). split; [done|]. by apply IH.
Qed.

(** A secret that the mark cannot complete: it is there, it is no part of the mark nor the
    mark of it, and no end of the one is a beginning of the other. *)
Definition clear_of_mark (s : string) : bool :=
  negb (s == EmptyString) && negb (contains_str s scrubbed) && negb (contains_str scrubbed s)
  && forallb (fun ab => forallb (fun uv => ((fst uv == EmptyString) || negb (snd ab == fst uv)) && ((snd uv == EmptyString) || negb (fst ab == snd uv)))
                                (cuts s)) (cuts scrubbed).

Lemma clear_of_mark_spec s : clear_of_mark s = true ->
  s <> EmptyString /\ ~ piece_of s scrubbed /\ ~ piece_of scrubbed s
  /\ (forall u v a b, s = u +:+ v -> scrubbed = a +:+ b -> (u <> EmptyString -> b <> u) /\ (v <> EmptyString -> a <> v)).
Proof.
  unfold clear_of_mark. rewrite !andb_true_iff, !negb_true_iff. intros [[[He%bool_decide_eq_false Hin] Hof] Hedge]. split_and!; [done|..].
  - intros H%contains_str_iff. congruence.
  - intros H%contains_str_iff. congruence.
  - intros u v a b Hs%elem_of_cuts Hm%elem_of_cuts.
    pose proof (proj1 (forallb_forall _ _) Hedge _ (proj1 (list_elem_of_In _ _) Hm)) as H1.
    pose proof (proj1 (forallb_forall _ _) H1 _ (proj1 (list_elem_of_In _ _) Hs)) as [Hu Hv]%andb_true_iff. cbn [fst snd] in *.
    split; intros Hne ->.
    + by rewrite (bool_decide_eq_false_2 _ Hne), bool_decide_eq_true_2 in Hu.
    + by rewrite (bool_decide_eq_false_2 _ Hne), bool_decide_eq_true_2 in Hv.
Qed.

(** Where a piece of two strings put together stands. *)
Lemma piece_app s x y : piece_of s (x +:+ y) ->
  piece_of s x \/ piece_of s y \/ exists u v, s = u +:+ v /\ u <> EmptyString /\ v <> EmptyString /\ (exists a, x = a +:+ u) /\ (exists b, y = v +:+ b).
Proof.
  intros (a & b & H). apply append_eq_append in H as [(k & -> & ->)|(k & -> & Hk)].
  - right; left. by exists k, b.
  - symmetry in Hk. apply append_eq_append in Hk as [(k' & -> & ->)|(k' & -> & ->)].
    + destruct (decide (k = EmptyString)) as [->|Hk]; [right; left; exists EmptyString, b; by rewrite !nil_app_s|].
      destruct (decide (k' = EmptyString)) as [->|Hk']; [left; exists a, EmptyString; by rewrite !app_nil_s|].
      right; right. exists k, k'. split_and!; [done..|by exists a|by exists b].
    + left. by exists a, k'.
Qed.

(** What the mark stands between has the secret, or the text does not. *)
Lemma marked_piece s x y : clear_of_mark s = true -> piece_of s (x +:+ (scrubbed +:+ y)) -> piece_of s x \/ piece_of s y.
Proof.
  intros (Hne & Hin & Hof & Hedge)%clear_of_mark_spec [Hx|[H|(u & v & Hs & Hu & Hv & _ & b & Hb)]]%piece_app; [by left|..].
  - apply piece_app in H as [H|[H|(u & v & Hs & Hu & Hv & (a & Ha) & _)]]; [done|by right|]. exfalso.
    by apply (proj1 (Hedge u v a u Hs Ha)).
  - exfalso. apply append_eq_append in Hb as [(k & Hk & _)|(k & Hk & _)].
    + apply Hof. exists u, k. by rewrite Hs, Hk.
    + by apply (proj2 (Hedge u v v k Hs Hk)).
Qed.

Lemma join_absent s frags : clear_of_mark s = true ->
  Forall (fun f => contains_str s f = false) frags -> contains_str s (join scrubbed frags) = false.
Proof.
  intros Hs. pose proof (clear_of_mark_spec s Hs) as (Hn & _). induction 1 as [|f frags Hf Hrest IH]; [by destruct s|].
  destruct frags as [|g frags]; [done|].
  change (join scrubbed (f :: g :: frags)) with (f +:+ (scrubbed +:+ join scrubbed (g :: frags))).
  apply not_true_iff_false. intros [H|H]%contains_str_iff%marked_piece; try done; apply contains_str_iff in H; congruence.
Qed.

Lemma replace_keeps_absent s p t : clear_of_mark s = true -> p <> EmptyString ->
  contains_str s t = false -> contains_str s (str_replace p scrubbed t) = false.
Proof.
  intros Hs Hp Ht. apply join_absent; [done|]. eapply Forall_impl; [by apply split_str_pieces|].
  intros f [Hf _]. by apply (absent_in_piece _ f t).
Qed.

Lemma replace_removes s t : clear_of_mark s = true -> contains_str s (str_replace s scrubbed t) = false.
Proof.
  intros Hs. apply join_absent; [done|]. eapply Forall_impl; [apply split_str_pieces|by intros f []].
  by apply clear_of_mark_spec in Hs as (Hn & _).
Qed.

Lemma scrub_removes s secrets t : clear_of_mark s = true -> Forall (fun p => p <> EmptyString) secrets ->
  s ∈ secrets \/ contains_str s t = false -> contains_str s (scrub t secrets) = false.
Proof.
  intros Hs Hall. revert t. induction Hall as [|p secrets Hp Hall IH]; intros t Ht.
  - destruct Ht as [Ht|Ht]; [by apply not_elem_of_nil in Ht|done].
  - change (scrub t (p :: secrets)) with (scrub (str_replace p scrubbed t) secrets). apply IH.
    destruct Ht as [[->|Ht]%elem_of_cons|Ht]; [right; by apply replace_removes|by left|right; by apply replace_keeps_absent].
Qed.

Lemma secrets_of_full body : Forall (fun p => p <> EmptyString) (secrets_of body).
Proof.
  assert (Ht : forall r, Forall (fun p => p <> EmptyString) (secret_text r)).
  { intros r. unfold secret_text. destruct (rv_secret r); [|constructor]. cbn. case_bool_decide; repeat constructor; done. }
  unfold secrets_of. induction body as [|p body IH]; [constructor|]. cbn [flat_map]. apply Forall_app. split; [|done].
  assert (Hl : forall l : list (string * Resolved), Forall (fun p => p <> EmptyString) (flat_map (fun e => secret_text (snd e)) l)).
  { induction l; [constructor|]. cbn [flat_map]. by apply Forall_app. }
  destruct p; cbn [prim_secrets]; rewrite ?Forall_app; try done; try constructor; try done.
  split; [done|]. by destruct stdin.
Qed.

(** ** What a run reports *)

Lemma piece_cons c f s : piece_of f s -> piece_of f (String c s).
Proof. intros (a & b & ->). exists (String c a), b. by rewrite append_cons. Qed.

Lemma split_lines_prefix s : match split_lines s with
                             | (l :: ls, r) => (exists b, s = l +:+ b) /\ Forall (fun l => piece_of l s) ls /\ piece_of r s
                             | ([], r) => s = r
                             end.
Proof.
  induction s as [|c s IH]; [done|]. cbn [split_lines]. case_bool_decide as Hc.
  - destruct (split_lines s) as [[|l ls] r]; [subst r|destruct IH as ([b ->] & Hls & Hr)].
    + split_and!; [by exists (String c s)|constructor|apply piece_cons, piece_refl].
    + split_and!; [by eexists|constructor; [apply piece_cons, piece_l|]|by apply piece_cons].
      eapply Forall_impl; [exact Hls|]. intros ?. apply piece_cons.
  - destruct (split_lines s) as [[|l ls] r]; [by subst r|destruct IH as ([b ->] & Hls & Hr)].
    split_and!; [by exists b|eapply Forall_impl; [exact Hls|]; intros ?; apply piece_cons|by apply piece_cons].
Qed.

Lemma strip_cr_piece l : piece_of (strip_cr l) l.
Proof.
  cut (exists b, l = strip_cr l +:+ b); [intros [b Hb]; exists EmptyString, b; by rewrite nil_app_s|].
  induction l as [|c l IH]; [by exists EmptyString|]. destruct l as [|d l].
  - cbn. case_bool_decide; [by exists (String c EmptyString)|by exists EmptyString].
  - destruct IH as [b Hb]. exists b. change (strip_cr (String c (String d l))) with (String c (strip_cr (String d l))).
    by rewrite append_cons, <- Hb.
Qed.

Lemma lines_pieces t : Forall (fun l => piece_of l t) (lines t).
Proof.
  unfold lines. pose proof (split_lines_prefix t) as H. destruct (split_lines t) as [[|l ls] r].
  - subst r. cbn. case_bool_decide; repeat constructor. apply piece_refl.
  - destruct H as ([b ->] & Hls & Hr). apply Forall_app. split.
    + cbn. constructor; [eapply piece_trans; [apply strip_cr_piece|apply piece_l]|].
      apply Forall_map. eapply Forall_impl; [exact Hls|]. intros x Hx. eapply piece_trans; [apply strip_cr_piece|done].
    + case_bool_decide; repeat constructor. done.
Qed.

Lemma trim_piece s : piece_of (trim s) s.
Proof.
  unfold trim. apply (piece_trans _ (trim_start s)).
  - cut (exists b, trim_start s = trim_end (trim_start s) +:+ b); [intros [b Hb]; exists EmptyString, b; by rewrite nil_app_s|].
    generalize (trim_start s) as t. induction t as [|c t [b IH]]; [by exists EmptyString|]. cbn [trim_end].
    destruct (blank (String c t)); [by exists (String c t)|exists b]. by rewrite append_cons, <- IH.
  - induction s as [|c s IH]; [apply piece_refl|]. cbn [trim_start]. destruct (is_space c); [by apply piece_cons|apply piece_refl].
Qed.

Section Silent.
Context (s : string) (Hs : clear_of_mark s = true) (Hnl : contains_char nl s = false).

Definition free (t : string) : Prop := contains_str s t = false.

Definition free_outputs (m : gmap string string) : Prop := map_Forall (fun k v => free k /\ free v) m.

(** Whole lines, none with the secret. *)
Definition free_lines (t : string) : Prop := exists ls, t = unlines ls /\ Forall free ls.

Lemma free_lines_free t : free_lines t -> free t.
Proof.
  apply clear_of_mark_spec in Hs as (Hn & _). intros (ls & -> & Hls). unfold free.
  induction Hls as [|l ls Hl Hls IH]; [by destruct s|]. rewrite unlines_cons, app_assoc_s.
  change (newline +:+ unlines ls) with (String nl (unlines ls)). by rewrite contains_sep, Hl.
Qed.

Lemma output_line_free acc line : free line -> free_lines (fst acc) -> free_outputs (snd acc) ->
  free_lines (fst (output_line acc line)) /\ free_outputs (snd (output_line acc line)).
Proof.
  destruct acc as [rest outs]. cbn [fst snd]. intros Hl (ls & -> & Hls) Ho. unfold output_line.
  destruct (strip_prefix OUTPUT_PREFIX line) as [kv|] eqn:Hkv.
  - apply strip_prefix_Some in Hkv as ->.
    destruct (split_at_char (chr 61) kv) as [[k v]|] eqn:Hk; (split; [by exists ls|]); [|done].
    apply split_at_char_Some in Hk as [-> _]. cbn [snd]. apply map_Forall_insert_2; [|done].
    assert (Hp : piece_of (k +:+ String (chr 61) v) (OUTPUT_PREFIX +:+ (k +:+ String (chr 61) v))) by apply piece_r.
    split; (eapply absent_in_piece; [eapply piece_trans; [|exact Hp]|exact Hl]).
    + eapply piece_trans; [apply trim_piece|apply piece_l].
    + eapply piece_trans; [apply (piece_r (String (chr 61) EmptyString))|apply piece_r].
  - split; [|done]. cbn [fst]. exists (ls ++ [line]). split; [|apply Forall_app; split; [done|by constructor]].
    rewrite unlines_app, unlines_cons. change (unlines []) with EmptyString. by rewrite app_nil_s.
Qed.

Lemma split_outputs_free t : free t -> free_lines (fst (split_outputs t)) /\ free_outputs (snd (split_outputs t)).
Proof.
  intros Ht. unfold split_outputs.
  assert (Hls : Forall free (lines t)).
  { eapply Forall_impl; [apply lines_pieces|]. intros l Hl. by apply (absent_in_piece _ _ t). }
  assert (H0 : free_lines (fst (EmptyString, (∅ : gmap string string))) /\ free_outputs (snd (EmptyString, (∅ : gmap string string)))).
  { split; [by exists []|apply map_Forall_empty]. }
  revert H0. generalize (EmptyString, (∅ : gmap string string)) as acc.
  induction Hls as [|l ls Hl Hls IH]; intros acc [Hr Ho]; [done|]. cbn [foldl]. apply IH. by apply output_line_free.
Qed.

Definition reports_free (o : RunOutput) : Prop := free_lines (ro_stdout o) /\ free_outputs (ro_outputs o).

Context {W : Type} `{!Os W}.

Lemma sh_free x cmd env stdin secrets w w' code out err : s ∈ secrets -> Forall (fun p => p <> EmptyString) secrets ->
  sh x cmd env stdin secrets w = (w', Ok (code, out, err)) -> free out /\ free err.
Proof.
  intros Hin Hall. unfold sh. destruct (os_spawn _ _ _ _ w) as [w1 [e|e]]; [|done]. intros [= <- <- <- <-].
  split; apply scrub_removes; auto.
Qed.

Lemma local_prim_free x h inst secrets o p w w' o' : s ∈ secrets -> Forall (fun p => p <> EmptyString) secrets ->
  reports_free o -> local_prim x h inst secrets o p w = (w', Ok o') -> reports_free o'.
Proof.
  intros Hin Hall Ho.
  assert (Hshell : forall cmd env stdin, (let! (code, stdout, stderr) := sh x cmd env stdin secrets in
      if negb (code =? 0)%Z then mthrow (ExFailed (exit_text code stderr))
      else let '(rest, outputs) := split_outputs stdout in
           mret (mkRunOutput (ro_stdout o +:+ rest) (outputs ∪ ro_outputs o))) w = (w', Ok o') -> reports_free o').
  { intros cmd env stdin. unfold mthen. destruct (sh x cmd env stdin secrets w) as [w1 [[[code out] err]|e]] eqn:E; [|done].
    destruct (sh_free _ _ _ _ _ _ _ _ _ _ Hin Hall E) as [Hout _]. destruct (negb (code =? 0)%Z); [done|].
    pose proof (split_outputs_free out Hout) as [Hr Hm]. destruct (split_outputs out) as [rest outs]. intros [= <- <-].
    destruct Ho as [(ls & Hls & Hfree) Hmo], Hr as (ks & Hks & Hkfree). cbn [fst] in Hks. split; cbn.
    - exists (ls ++ ks). split; [by rewrite unlines_app, Hls, Hks|by apply Forall_app].
    - by apply map_Forall_union_2. }
  destruct p; cbn [local_prim]; [by apply Hshell|..|by apply Hshell]; unfold mthen, mret, mthrow, lift, io_do;
    intros H; repeat case_match; by simplify_eq.
Qed.

(** The text of an error is of its own where no command's output is in it. *)
Definition error_free (body : list RPrim) (e : ExecError) : Prop :=
  match e with
  | ExFailed t => (exists (code : Z) line, t = concats ["exit "; pretty code; ": "; line] /\ free line)
                  \/ exists shape anchor path, RRegionClear shape anchor ∈ body /\ file_path shape = Some path
                       /\ t = concats ["region "; default EmptyString anchor; " of "; path; " has damaged markers"]
  | ExIo _ | ExUnsupported _ => True
  | ExSilent | ExUnreachable _ => False
  end.

Lemma last_line_free t : free t -> free (default EmptyString (last (lines (trim t)))).
Proof.
  intros Ht. destruct (last (lines (trim t))) as [l|] eqn:E; cbn.
  - apply last_Some_elem_of in E. eapply absent_in_piece; [|exact Ht]. eapply piece_trans; [|apply trim_piece].
    exact (proj1 (Forall_forall _ _) (lines_pieces (trim t)) l E).
  - apply clear_of_mark_spec in Hs as (Hn & _). unfold free. by destruct s.
Qed.

Lemma unless_missing_error {A} (d : A) m (w w' : W) e : unless_missing d m w = (w', Err e) -> exists t, e = ExIo t.
Proof. unfold unless_missing, io. destruct (m w) as [w1 [a|e1]]; [done|]. destruct (ie_not_found e1); [done|]. intros [= <- <-]. by eexists. Qed.

Lemma local_prim_error x h inst body o p w w' e : s ∈ secrets_of body -> p ∈ body ->
  local_prim x h inst (secrets_of body) o p w = (w', Err e) -> error_free body e.
Proof.
  intros Hin Hp.
  assert (Hshell : forall cmd env stdin, (let! (code, stdout, stderr) := sh x cmd env stdin (secrets_of body) in
      if negb (code =? 0)%Z then mthrow (ExFailed (exit_text code stderr))
      else let '(rest, outputs) := split_outputs stdout in
           mret (mkRunOutput (ro_stdout o +:+ rest) (outputs ∪ ro_outputs o))) w = (w', Err e) -> error_free body e).
  { intros cmd env stdin. unfold mthen. destruct (sh x cmd env stdin (secrets_of body) w) as [w1 [[[code out] err]|e1]] eqn:E.
    - destruct (sh_free _ _ _ _ _ _ _ _ _ _ Hin (secrets_of_full body) E) as [_ Herr]. destruct (negb (code =? 0)%Z).
      + intros [= <- <-]. left. exists code, (default EmptyString (last (lines (trim err)))). split; [done|by apply last_line_free].
      + by destruct (split_outputs out).
    - intros [= <- <-]. revert E. unfold sh. destruct (os_spawn _ _ _ _ w) as [w2 [e2|e2]]; [done|]. by intros [= <- <-]. }
  destruct p; cbn [local_prim]; [by apply Hshell|..|by apply Hshell]; unfold mthen, mret, mthrow, lift, io_do, read_text, path_of, io;
    intros H; repeat case_match; simplify_eq; try exact I;
    try (match goal with Hm : unless_missing _ _ _ = _ |- _ => apply unless_missing_error in Hm as [? ->]; exact I end).
  right. by eexists _, _, _.
Qed.

Lemma local_run_free x h inst body w w' r : s ∈ secrets_of body -> local_run x h inst body w = (w', r) ->
  match r with Ok o => reports_free o | Err e => error_free body e end.
Proof.
  intros Hin. unfold local_run.
  assert (Hgen : forall l, Forall (fun p => p ∈ body) l -> forall acc w1, reports_free acc ->
            fold_each (local_prim x h inst (secrets_of body)) acc l w1 = (w', r) ->
            match r with Ok o => reports_free o | Err e => error_free body e end).
  { induction 1 as [|p l Hp Hl IH]; intros acc w1 Hacc; cbn [fold_each]; [by intros [= <- <-]|].
    unfold mthen at 1. destruct (local_prim _ _ _ _ acc p w1) as [w2 [o1|e]] eqn:E.
    - apply IH. eapply local_prim_free, E; [done|apply secrets_of_full|done].
    - intros [= <- <-]. by eapply local_prim_error. }
  apply Hgen; [by apply Forall_forall|]. split; [by exists []|apply map_Forall_empty].
Qed.
End Silent.


(** Two secrets that the mark completes: the text before or behind it is the rest of one. *)
Example the_mark_completes_a_secret :
  clear_of_mark "p<s" = false /\ scrub "pp<s" ["p<s"] = "p<secret>" /\ contains_str "p<s" (scrub "pp<s" ["p<s"]) = true
  /\ clear_of_mark "t>d" = false /\ contains_str "t>d" (scrub "t>dd" ["t>d"]) = true.
Proof. by vm_compute. Qed.

(** ** The file primitives *)

(** What is left of a file by a primitive on it; [None] where the primitive refuses the
    file as it is. *)
Definition prim_effect (p : RPrim) (old : option string) : option (option string) :=
  let text := from_utf8_lossy (default EmptyString old) in
  match p with
  | RWrite _ content => Some (Some (rv_text content))
  | RRemove _ => Some None
  | RAppend _ line =>
      Some (Some (concats [if negb (text == EmptyString) && negb (ends_with_nl text) then text +:+ newline else text;
                           rv_text line; newline]))
  | RRegionSet _ anchor content => Some (Some (region_set text (default EmptyString anchor) (rv_text content)))
  | RRegionClear _ anchor => Some <$> strip text (default EmptyString anchor)
  | _ => None
  end.

Definition prim_shape (p : RPrim) : option string :=
  match p with
  | RWrite s _ | RRemove s | RAppend s _ | RRegionSet s _ _ | RRegionClear s _ => Some s
  | _ => None
  end.

(** What the source relies on of the file system; [content] is the view of its files. *)
Record DiskLaws {W : Type} `{!Os W} (content : W -> string -> option string) : Prop := mkDiskLaws {
  dl_read p w : forall q, content (fst (os_read p w)) q = content w q;
  dl_read_ok p w b : snd (os_read p w) = Ok b -> content w p = Some b;
  dl_read_missing p w e : snd (os_read p w) = Err e -> ie_not_found e = true -> content w p = None;
  dl_create p b w : forall q, q <> p -> content (fst (os_create p b w)) q = content w q;
  dl_create_ok p b w : snd (os_create p b w) = Ok tt -> content (fst (os_create p b w)) p = Some b;
  dl_metadata p w : forall q, content (fst (os_metadata p w)) q = content w q;
  dl_set_mode p m w : forall q, content (fst (os_set_mode p m w)) q = content w q;
  dl_rename p q w : forall r, r <> p -> r <> q -> content (fst (os_rename p q w)) r = content w r;
  dl_rename_ok p q w : snd (os_rename p q w) = Ok tt -> content (fst (os_rename p q w)) q = content w p;
  dl_rename_err p q w e : snd (os_rename p q w) = Err e -> content (fst (os_rename p q w)) q = content w q;
  dl_remove p w : forall q, q <> p -> content (fst (os_remove_file p w)) q = content w q;
  dl_remove_ok p w : snd (os_remove_file p w) = Ok tt -> content (fst (os_remove_file p w)) p = None;
  dl_remove_err p w e : snd (os_remove_file p w) = Err e -> content (fst (os_remove_file p w)) p = content w p;
  dl_remove_missing p w e : snd (os_remove_file p w) = Err e -> ie_not_found e = true -> content w p = None;
}.

Lemma trim_slashes_rest p : exists r, p = trim_slashes p +:+ r /\ (r = EmptyString \/ exists r', r = String slash r').
Proof.
  induction p as [|c p (r & Hp & Hr)]; [by exists EmptyString; split; [|left]|]. cbn [trim_slashes].
  destruct ((c == slash) && (trim_slashes p == EmptyString)) eqn:E.
  - apply andb_true_iff in E as [->%bool_decide_eq_true _]. exists (String slash p). split; [done|]. right. by exists p.
  - exists r. by rewrite append_cons, <- Hp.
Qed.

Lemma tmp_differs p : names_a_file p = true -> tmp_of p <> p.
Proof.
  intros Hp. unfold tmp_of. rewrite Hp. destruct (trim_slashes_rest p) as (r & He & Hr). intros H. rewrite He in H at 2.
  apply app_inj_r in H. destruct Hr as [-> |[r' ->]]; discriminate.
Qed.

Section Files.
Context {W : Type} `{!Os W} (content : W -> string -> option string) (Hlaws : DiskLaws content).

(** [w'] has [path] with [x] in it, and every other file but the temporary one as in [w]. *)
Definition only (path : string) (w : W) (x : option string) (w' : W) : Prop :=
  content w' path = x /\ forall q, q <> path -> q <> tmp_of path -> content w' q = content w q.

Lemma write_atomic_all_or_nothing path bytes w : names_a_file path = true ->
  let '(w', r) := write_atomic path bytes w in
  only path w (match r with Ok _ => Some bytes | Err _ => content w path end) w'.
Proof using Hlaws.
  intros Hp%tmp_differs. unfold write_atomic, mthen.
  pose proof (dl_metadata _ Hlaws path w) as Hm. destruct (os_metadata path w) as [w1 mode]. cbn [fst] in Hm.
  pose proof (dl_create _ Hlaws (tmp_of path) bytes w1) as Hc. pose proof (dl_create_ok _ Hlaws (tmp_of path) bytes w1) as Hk.
  destruct (os_create (tmp_of path) bytes w1) as [w2 [[]|e]]; cbn [fst snd] in Hc, Hk.
  2: { split; [by rewrite Hc|]. intros q Hq Ht. by rewrite Hc. }
  specialize (Hk eq_refl).
  assert (Hmode : let '(w3, r) := (match result_ok mode with Some m => os_set_mode (tmp_of path) m | None => mret tt end) w2 in
                  forall q, content w3 q = content w2 q).
  { destruct mode as [m|]; [|done]. change (result_ok (Ok m)) with (Some m). cbn match. pose proof (dl_set_mode _ Hlaws (tmp_of path) m w2) as H.
    destruct (os_set_mode (tmp_of path) m w2). exact H. }
  destruct ((match result_ok mode with Some m => os_set_mode (tmp_of path) m | None => mret tt end) w2) as [w3 [u|e]].
  2: { split; [by rewrite Hmode, Hc|]. intros q Hq Ht. by rewrite Hmode, Hc. }
  pose proof (dl_rename _ Hlaws (tmp_of path) path w3) as Hr. pose proof (dl_rename_ok _ Hlaws (tmp_of path) path w3) as Ho.
  pose proof (dl_rename_err _ Hlaws (tmp_of path) path w3) as He.
  destruct (os_rename (tmp_of path) path w3) as [w4 [[]|e]]; cbn [fst snd] in Hr, Ho, He; split.
  - by rewrite Ho, Hmode.
  - intros q Hq Ht. by rewrite Hr, Hmode, Hc.
  - by rewrite (He e), Hmode, Hc.
  - intros q Hq Ht. by rewrite Hr, Hmode, Hc.
Qed.

Lemma read_text_reads path w : let '(w', r) := read_text path w in
  (forall q, content w' q = content w q) /\ forall t, r = Ok t -> t = from_utf8_lossy (default EmptyString (content w path)).
Proof using Hlaws.
  unfold read_text, unless_missing. pose proof (dl_read _ Hlaws path w) as Hr.
  pose proof (dl_read_ok _ Hlaws path w) as Hk. pose proof (dl_read_missing _ Hlaws path w) as He.
  destruct (os_read path w) as [w1 [b|e]]; cbn [fst snd rmap rbind] in *; (split; [done|]); intros t.
  - intros [= <-]. by rewrite (Hk b).
  - destruct (ie_not_found e) eqn:E; [|done]. intros [= <-]. by rewrite (He e).
Qed.

(** What a primitive on [path] comes to. *)
Definition does (path : string) (w : W) (new : option (option string)) (out : RunOutput) (res : W * Exec RunOutput) : Prop :=
  match res with
  | (w', Ok out') => out' = out /\ exists x, new = Some x /\ only path w x w'
  | (w', Err _) => only path w (content w path) w'
  end.

(** A write, after a reading of the same file. *)
Lemma write_does path bytes w w1 out : names_a_file path = true -> (forall q, content w1 q = content w q) ->
  does path w (Some (Some bytes)) out ((do! io_do (write_atomic path bytes) in mret out) w1).
Proof using Hlaws.
  intros Hp Hw. unfold mthen, io_do. pose proof (write_atomic_all_or_nothing path bytes w1 Hp) as H.
  destruct (write_atomic path bytes w1) as [w2 [[]|e]]; cbn [io]; destruct H as [H1 H2].
  - split; [done|]. exists (Some bytes). split; [done|]. split; [done|]. intros q Hq Ht. by rewrite H2.
  - split; [by rewrite H1|]. intros q Hq Ht. by rewrite H2.
Qed.

(** A reading, and what is done with the text. *)
Lemma read_does path w new out (k : string -> W -> W * Exec RunOutput) :
  (forall w1, (forall q, content w1 q = content w q) ->
     does path w new out (k (from_utf8_lossy (default EmptyString (content w path))) w1)) ->
  does path w new out ((let! text := read_text path in k text) w).
Proof using Hlaws.
  intros Hk. unfold mthen. pose proof (read_text_reads path w) as Hr.
  destruct (read_text path w) as [w1 [t|e]]; destruct Hr as [Hw Ht]; [rewrite (Ht t eq_refl); by apply Hk|].
  split; [done|]. by intros q _ _.
Qed.

Lemma remove_does path w out : does path w (Some None) out ((do! unless_missing tt (os_remove_file path) in mret out) w).
Proof using Hlaws.
  unfold mthen, unless_missing. pose proof (dl_remove _ Hlaws path w) as Hr. pose proof (dl_remove_ok _ Hlaws path w) as Hk.
  pose proof (dl_remove_err _ Hlaws path w) as He. pose proof (dl_remove_missing _ Hlaws path w) as Hm.
  destruct (os_remove_file path w) as [w1 [[]|e]]; cbn [fst snd] in *; [|destruct (ie_not_found e) eqn:E; cbn [io]].
  - split; [done|]. exists None. split; [done|]. split; [by apply Hk|]. intros q Hq _. by apply Hr.
  - split; [done|]. exists None. split; [done|]. split; [by rewrite (He e), (Hm e)|]. intros q Hq _. by apply Hr.
  - split; [by apply (He e)|]. intros q Hq _. by apply Hr.
Qed.
End Files.

(** C21. A file primitive on the controller does to its file what the primitive says, or, where
    it fails at any of its system calls, nothing; no other file changes but the temporary one
    beside it, and nothing is reported. *)
Theorem local_file_prims_exact {W : Type} `{!Os W} (content : W -> string -> option string) (x : LocalExecutor) (h : EHost)
    (inst : string) (secrets : list string) (out : RunOutput) (p : RPrim) (shape path : string) (w : W)
    (Hlaws : DiskLaws content) (Hshape : prim_shape p = Some shape) (Hpath : file_path shape = Some path)
    (Hfile : names_a_file path = true) :
  match local_prim x h inst secrets out p w with
  | (w', Ok out') => out' = out /\ exists new, prim_effect p (content w path) = Some new /\ only content path w new w'
  | (w', Err _) => only content path w (content w path) w'
  end.
Proof.
  change (does content path w (prim_effect p (content w path)) out (local_prim x h inst secrets out p w)).
  assert (Hp : lift (S := W) (path_of shape) = mret path) by (unfold path_of; by rewrite Hpath).
  destruct p as [|s content'|s|s line|s anchor content'|s anchor| | | | |]; simplify_eq/=; rewrite Hp.
  - by apply (write_does content Hlaws).
  - by apply (remove_does content Hlaws).
  - apply (read_does content Hlaws). intros w1 Hw. by apply (write_does content Hlaws).
  - apply (read_does content Hlaws). intros w1 Hw. by apply (write_does content Hlaws).
  - apply (read_does content Hlaws). intros w1 Hw. destruct (strip _ _) as [b|]; [by apply (write_does content Hlaws)|].
    split; [by apply Hw|]. intros q _ _. by apply Hw.
Qed.

(** ** A machine *)

(** Files with their contents, and what the next child ends with. *)
Record Machine := mkMachine { mc_files : gmap string string; mc_ended : Ended; mc_full : bool }.

Definition missing {A} : Io A := Err (mkIoError true "No such file or directory").

Definition no_space {A} : Io A := Err (mkIoError false "No space left on device").

Definition set_files (f : gmap string string) (m : Machine) : Machine := mkMachine f (mc_ended m) (mc_full m).

#[export] Instance machine_os : Os Machine := {|
  os_read p m := (m, match mc_files m !! p with Some b => Ok b | None => missing end);
  os_create p b m := if mc_full m then (set_files (<[p := EmptyString]> (mc_files m)) m, no_space)
                     else (set_files (<[p := b]> (mc_files m)) m, Ok tt);
  os_rename p q m := match mc_files m !! p with
                     | Some b => (set_files (<[q := b]> (delete p (mc_files m))) m, Ok tt)
                     | None => (m, missing)
                     end;
  os_metadata p m := (m, match mc_files m !! p with Some _ => Ok 384%N | None => missing end);
  os_append p b m := if mc_full m then (m, no_space)
                     else (set_files (<[p := default EmptyString (mc_files m !! p) +:+ b]> (mc_files m)) m, Ok tt);
  os_print _ m := (m, Ok tt);
  os_set_mode _ _ m := (m, Ok tt);
  os_remove_file p m := match mc_files m !! p with
                        | Some _ => (set_files (delete p (mc_files m)) m, Ok tt)
                        | None => (m, missing)
                        end;
  os_remove_dir_all _ m := (m, Ok tt);
  os_create_dir_all _ m := (m, Ok tt);
  os_read_dir _ m := (m, Ok []);
  os_is_dir _ m := (m, true);
  os_is_file _ m := (m, true);
  os_exists p m := (m, bool_decide (is_Some (mc_files m !! p)));
  os_group_exists _ m := (m, true);
  os_clock m := (m, Ok 0%N);
  os_spawn _ _ _ _ m := (m, Ok (mc_ended m));
  os_open _ m := (m, Ok tt);
  os_flock _ m := (m, Ok tt);
  os_close _ m := m;
|}.

Definition machine_content (m : Machine) (p : string) : option string := mc_files m !! p.

Lemma machine_laws : DiskLaws machine_content.
Proof.
  split; unfold machine_content; cbn; intros; repeat (case_match; simplify_eq/=; try done);
    rewrite ?lookup_insert_eq, ?lookup_insert_ne, ?lookup_delete_eq, ?lookup_delete_ne by done; done.
Qed.

Definition demo_machine (full : bool) : Machine :=
  mkMachine {["/etc/hosts" := "a" +:+ newline]}
    (mkEnded (Some 0%Z) (concats ["rescind-output pw=s3cr3t"; newline; "logged in with s3cr3t"; newline]) EmptyString) full.

Definition demo_local_host : EHost := mkEHost (mkHostRecord "api" "linux" [] true true None) EmptyString None None ∅.

Lemma local_file_prims_exact_witness :
  let p := RAppend "file:/etc/hosts" (plain "b") in
  Forall (fun full =>
    match local_prim local_default demo_local_host "i" [] output_default p (demo_machine full) with
    | (w', Ok out') => out' = output_default /\ exists new, prim_effect p (Some ("a" +:+ newline)) = Some new
                                               /\ only machine_content "/etc/hosts" (demo_machine full) new w'
    | (w', Err _) => only machine_content "/etc/hosts" (demo_machine full) (Some ("a" +:+ newline)) w'
    end) [false; true].
Proof.
  intros p. apply Forall_cons_2; [|apply Forall_cons_2; [|apply Forall_nil_2]].
  - exact (local_file_prims_exact machine_content local_default demo_local_host "i" [] output_default p "file:/etc/hosts" "/etc/hosts"
             (demo_machine false) machine_laws eq_refl eq_refl eq_refl).
  - exact (local_file_prims_exact machine_content local_default demo_local_host "i" [] output_default p "file:/etc/hosts" "/etc/hosts"
             (demo_machine true) machine_laws eq_refl eq_refl eq_refl).
Defined.


(** A secret that begins another: the shorter one is scrubbed first, and the rest of the
    longer one is printed. *)
Example longer_secret_leaves_its_end :
  scrub "password" (secrets_of [RRun (plain "login") [("A", mkResolved "pass" true); ("B", mkResolved "password" true)] None]) = "<secret>word".
Proof. reflexivity. Qed.

(** The name of a staged file takes the place of the instance's directory where it is
    absolute. *)
Example staged_name_leaves_the_directory : path_join (local_dir local_default demo_local_host "i") "/etc/passwd" = "/etc/passwd".
Proof. reflexivity. Qed.
