(* ===== verification/Template.v ===== *)
(** * The text of an artifact ([render/src/template])

    The three templates: a POSIX shell script, a PowerShell script and a Python script, each
    of the banner, the baked constants, the guard on the fired marker, the test of the
    trigger, the helpers, one block for each covered step and the fired marker. A literal is
    written with a tilde where the source has a quotation mark ([tq]); no literal of the
    source has a tilde, and a value is never passed through [tq]. Then what the functions of
    the shell script do to a file. *)

From Stdlib Require Import Ascii.
From stdpp Require Import base strings pretty numbers option list gmap.
From S2P Require Import Prelude Model Backstop Region Quote Render Footprint.

(** A literal with its quotation marks. *)
Fixpoint tq (s : string) : string :=
  match s with
  | EmptyString => EmptyString
  | String c r => String (if c == chr 126 then chr 34 else c) (tq r)
  end.

Definition text_lines (ls : list string) : string := unlines (map tq ls).

Definition banner (cx : ArtifactContext) : string :=
  concats ["rescind backstop artifact: plan "; plan_id (cx_plan cx); " on "; hr_name (cx_host cx); " (os "; hr_os (cx_host cx);
           "), instance "; ai_id (cx_instance cx); ", language "; language_name (cx_language cx);
           ". Rendered by rescind-render; do not edit."].

(** The steps' texts, one after the other: the first that cannot be rendered is the error. *)
Definition all_steps (step_text : ArtifactStep -> Result string RenderError) (cx : ArtifactContext) : Result string RenderError :=
  let? ts := collect_results step_text (cx_steps cx) in Ok (concats ts).

(** What is looked at of a fact before a step is undone: not a region, whose damage is
    [strip_region]'s to find. *)
Definition checked_files (s : ArtifactStep) : list FileFact := List.filter (fun f => negb (ff_kind f == Region)) (at_files s).

(** ** The POSIX shell *)

Definition sh_q (n : N) (s : string) : Result string RenderError := quoted n FamPosix s.

(** [<inst>/snapshots/<n>/<k>] *)
Definition snapshot_file (inst : string) (n : N) (k : nat) : string := concats [inst; "/snapshots/"; show n; "/"; show_nat k].

Definition sh_inst (cx : ArtifactContext) : string := concats [cx_root cx; "/instances/"; ai_id (cx_instance cx)].

Definition sh_fact (n : N) (drift : Drift) (f : FileFact) : Result string RenderError :=
  let? p := sh_q n (ff_path f) in
  Ok (concats [tq "  [ ~$(sha "; p; tq ")~ = ~$(recorded ~$M~ "; p;
               match drift with
               | Defer => tq ")~ ] || skip=1"
               | Clobber => tq ")~ ] || clobbered " +:+ show n
               end; newline]).

Definition sh_action (inst : string) (n : N) (drift : Drift) (a : Action) : Result string RenderError :=
  match a with
  | ActRemove path => let? p := sh_q n path in Ok (concats ["rm -f "; p; newline])
  | ActStripRegion path anchor k =>
      let? p := sh_q n path in
      let? snap := sh_q n (snapshot_file inst n k) in
      let fallback :=
        match drift with
        | Clobber => concats [tq "if [ -n ~${RESCIND_NOLOCK:-}~ ] || foreign_region "; p; "; then defer "; show n; "; else restore "; snap;
                              " "; p; "; clobbered "; show n; "; fi"]
        | Defer => "defer " +:+ show n
        end in
      let? a := sh_q n anchor in
      Ok (concats ["strip_region "; p; " "; a; " || { "; fallback; "; }"; newline])
  | ActRestoreSnapshot path k =>
      let? snap := sh_q n (snapshot_file inst n k) in
      let? p := sh_q n path in
      Ok (concats ["restore "; snap; " "; p; newline])
  | ActRun command => let? c := sh_q n command in Ok (concats ["sh -c "; c; newline])
  | ActWrite path content =>
      let? c := sh_q n content in
      let? p := sh_q n path in
      Ok (concats ["printf '%s' "; c; " > "; p; newline])
  | ActAppend path line =>
      let? l := sh_q n line in
      let? p := sh_q n path in
      Ok (concats ["printf '%s\n' "; l; " >> "; p; newline])
  | ActRegionSet path anchor content =>
      let? p := sh_q n path in
      let? a := sh_q n anchor in
      let? c := sh_q n content in
      Ok (concats ["region_set "; p; " "; a; " "; c; newline])
  | ActRegionClear path anchor =>
      let? p := sh_q n path in
      let? a := sh_q n anchor in
      Ok (concats ["strip_region "; p; " "; a; " || true"; newline])
  end.

(** An action behind what it is indented by. *)
Definition indented (by_ : string) (r : Result string RenderError) : Result string RenderError := rmap (String.append by_) r.

Definition sh_step (inst : string) (s : ArtifactStep) : Result string RenderError :=
  let n := at_n s in
  let? facts := collect_results (sh_fact n (at_drift s)) (checked_files s) in
  let? actions := collect_results (fun a => indented "    " (sh_action inst n (at_drift s) a)) (at_actions s) in
  Ok (concats ["# step "; show n; ": "; at_id s; newline; tq "M=~$INST/markers/"; show n; dquote; newline;
               text_lines ["if [ -f ~$M~ ]; then"; "  skip=0"]; concats facts;
               tq "  if [ ~$skip~ -eq 1 ]; then defer "; show n; "; else"; newline; concats actions;
               text_lines ["    rm -f ~$M~"; "  fi"; "fi"]]).

Definition SH_HELPERS : string := text_lines
  [
   "sha() {";
   "  [ -f ~$1~ ] || { echo missing; return; }";
   "  if command -v sha256 >/dev/null 2>&1; then sha256 -q ~$1~";
   "  elif command -v sha256sum >/dev/null 2>&1; then sha256sum ~$1~ | cut -d' ' -f1";
   "  else shasum -a 256 ~$1~ | cut -d' ' -f1; fi";
   "}";
   "recorded() { awk -v p=~$2~ '$2 == p { print $3 }' ~$1~; }";
   "foreign_region() {";
   "  for m in ~$ROOT~/instances/*/manifest; do";
   "    [ ~$m~ = ~$INST/manifest~ ] && continue";
   "    [ -f ~$m~ ] || continue";
   "    grep -q -F ~region $1 ~ ~$m~ && return 0";
   "  done";
   "  return 1";
   "}";
   "strip_region() {";
   "  [ -f ~$1~ ] || return 1";
   "  b=$(grep -c -F -x ~# rescind-region $2 begin~ ~$1~); e=$(grep -c -F -x ~# rescind-region $2 end~ ~$1~)";
   "  [ ~$b~ -eq 1 ] && [ ~$e~ -eq 1 ] || return 1";
   "  awk -v a=~$2~ '$0 == ~# rescind-region ~ a ~ begin~ { skip = 1; next } $0 == ~# rescind-region ~ a ~ end~ { skip = 0; next } !skip { print }' ~$1~ > ~$1.rescind-tmp~ && mv ~$1.rescind-tmp~ ~$1~";
   "}";
   "region_set() {";
   "  strip_region ~$1~ ~$2~ || true";
   "  { [ -f ~$1~ ] && cat ~$1~; printf '# rescind-region %s begin\n%s\n# rescind-region %s end\n' ~$2~ ~$3~ ~$2~; } > ~$1.rescind-tmp~ && mv ~$1.rescind-tmp~ ~$1~";
   "}";
   "restore() { cp ~$1~ ~$2.rescind-tmp~ && mv ~$2.rescind-tmp~ ~$2~; }";
   "defer() { echo ~$1~ >> ~$INST/drift~; }";
   "clobbered() { echo ~$1~ >> ~$INST/clobbered~; }"].

(** [sh::render] *)
Definition sh_render (cx : ArtifactContext) : Result string RenderError :=
  let inst := sh_inst cx in
  let? root := sh_q 0 (cx_root cx) in
  let? inst_word := sh_q 0 inst in
  let? steps := all_steps (sh_step inst) cx in
  Ok (concats [text_lines ["#!/bin/sh"]; "# "; banner cx; newline; text_lines ["set -u"]; "ROOT="; root; newline; "INST="; inst_word; newline;
               text_lines ["[ -e ~$INST/fired~ ] && exit 0"; "now=$(date +%s)"; "due=0"];
               (if cx_deadline cx then
                  text_lines ["if [ -f ~$INST/deadline~ ]; then d=$(cat ~$INST/deadline~); [ ~$now~ -ge ~$d~ ] && due=1; fi"]
                else EmptyString);
               match cx_heartbeat_s cx with
               | Some hb => concats [tq "if [ -f ~$INST/heartbeat~ ]; then h=$(cat ~$INST/heartbeat~); [ $((now - h)) -gt "; show hb;
                                     " ] && due=1; else due=1; fi"; newline]
               | None => EmptyString
               end;
               text_lines
                 ["[ ~$due~ -eq 1 ] || exit 0"; "if [ -z ~${RESCIND_LOCKED:-}~ ]; then";
                  "  if command -v lockf >/dev/null 2>&1; then RESCIND_LOCKED=1 exec lockf -k -t 300 ~$ROOT/lock~ sh ~$0~";
                  "  elif command -v flock >/dev/null 2>&1; then RESCIND_LOCKED=1 exec flock -w 300 ~$ROOT/lock~ sh ~$0~";
                  "  else RESCIND_NOLOCK=1; fi"; "fi"];
               SH_HELPERS; steps; text_lines [": > ~$INST/fired~"; "exit 0"]]).

(** ** PowerShell *)

Definition ps_q (n : N) (s : string) : Result string RenderError := quoted n FamPowershell s.

(** [(Join-Path $Inst 'snapshots\<n>\<k>')] *)
Definition ps_snapshot (n : N) (k : nat) : string := concats ["(Join-Path $Inst 'snapshots\"; show n; "\"; show_nat k; "')"].

Definition ps_fact (n : N) (drift : Drift) (f : FileFact) : Result string RenderError :=
  let? p := ps_q n (ff_path f) in
  Ok (concats ["  if ((Sha "; p; ") -ne (Recorded $M "; p;
               match drift with
               | Defer => ")) { $skip = $true }"
               | Clobber => concats [")) { Clobbered "; show n; " }"]
               end; newline]).

Definition ps_action (n : N) (drift : Drift) (a : Action) : Result string RenderError :=
  match a with
  | ActRemove path => let? p := ps_q n path in Ok (concats ["Remove-Item -Force -ErrorAction SilentlyContinue "; p; newline])
  | ActStripRegion path anchor k =>
      let? p := ps_q n path in
      let fallback :=
        match drift with
        | Clobber => concats ["if (ForeignRegion "; p; ") { Defer "; show n; " } else { Restore "; ps_snapshot n k; " "; p; "; Clobbered ";
                              show n; " }"]
        | Defer => "Defer " +:+ show n
        end in
      let? a := ps_q n anchor in
      Ok (concats ["if (-not (StripRegion "; p; " "; a; ")) { "; fallback; " }"; newline])
  | ActRestoreSnapshot path k => let? p := ps_q n path in Ok (concats ["Restore "; ps_snapshot n k; " "; p; newline])
  | ActRun command => let? c := ps_q n command in Ok (concats ["& powershell.exe -NoProfile -NonInteractive -Command "; c; newline])
  | ActWrite path content =>
      let? p := ps_q n path in
      let? c := ps_q n content in
      Ok (concats ["Set-Content -NoNewline -Path "; p; " -Value "; c; newline])
  | ActAppend path line =>
      let? p := ps_q n path in
      let? l := ps_q n line in
      Ok (concats ["Add-Content -Path "; p; " -Value "; l; newline])
  | ActRegionSet path anchor content =>
      let? p := ps_q n path in
      let? a := ps_q n anchor in
      let? c := ps_q n content in
      Ok (concats ["RegionSet "; p; " "; a; " "; c; newline])
  | ActRegionClear path anchor =>
      let? p := ps_q n path in
      let? a := ps_q n anchor in
      Ok (concats ["StripRegion "; p; " "; a; " | Out-Null"; newline])
  end.

Definition ps_step (s : ArtifactStep) : Result string RenderError :=
  let n := at_n s in
  let? facts := collect_results (ps_fact n (at_drift s)) (checked_files s) in
  let? actions := collect_results (fun a => indented "    " (ps_action n (at_drift s) a)) (at_actions s) in
  Ok (concats ["# step "; show n; ": "; at_id s; newline; "$M = Join-Path (Join-Path $Inst 'markers') '"; show n; "'"; newline;
               text_lines ["if (Test-Path $M) {"; "  $skip = $false"]; concats facts;
               "  if ($skip) { Defer "; show n; " } else {"; newline; concats actions;
               text_lines ["    Remove-Item -Force $M"; "  }"; "}"]]).

Definition PS_HELPERS : string := text_lines
  [
   "function Sha($p) { if (Test-Path $p) { (Get-FileHash -Algorithm SHA256 -Path $p).Hash.ToLower() } else { 'missing' } }";
   "function Recorded($m, $p) { foreach ($l in Get-Content $m) { $f = $l -split ' ', 3; if ($f.Count -eq 3 -and $f[1] -eq $p) { return $f[2] } }; return '' }";
   "function ForeignRegion($p) {";
   "  foreach ($d in Get-ChildItem -Path (Join-Path $Root 'instances') -Directory) {";
   "    $mf = Join-Path $d.FullName 'manifest'";
   "    if ($mf -eq (Join-Path $Inst 'manifest')) { continue }";
   "    if ((Test-Path $mf) -and (Select-String -Path $mf -SimpleMatch -Pattern ~region $p ~ -Quiet)) { return $true }";
   "  }";
   "  return $false";
   "}";
   "function StripRegion($p, $a) {";
   "  if (-not (Test-Path $p)) { return $false }";
   "  $lines = @(Get-Content $p)";
   "  $b = @($lines | Where-Object { $_ -eq ~# rescind-region $a begin~ }).Count";
   "  $e = @($lines | Where-Object { $_ -eq ~# rescind-region $a end~ }).Count";
   "  if ($b -ne 1 -or $e -ne 1) { return $false }";
   "  $out = @(); $skip = $false";
   "  foreach ($l in $lines) {";
   "    if ($l -eq ~# rescind-region $a begin~) { $skip = $true; continue }";
   "    if ($l -eq ~# rescind-region $a end~) { $skip = $false; continue }";
   "    if (-not $skip) { $out += $l }";
   "  }";
   "  Set-Content -Path $p -Value $out";
   "  return $true";
   "}";
   "function RegionSet($p, $a, $c) {";
   "  StripRegion $p $a | Out-Null";
   "  Add-Content -Path $p -Value @(~# rescind-region $a begin~, $c, ~# rescind-region $a end~)";
   "}";
   "function Restore($s, $p) { Copy-Item -Path $s -Destination $p -Force }";
   "function Defer($n) { Add-Content -Path (Join-Path $Inst 'drift') -Value $n }";
   "function Clobbered($n) { Add-Content -Path (Join-Path $Inst 'clobbered') -Value $n }"].

(** [powershell::render] *)
Definition powershell_render (cx : ArtifactContext) : Result string RenderError :=
  let? root := ps_q 0 (cx_root cx) in
  let? inst := ps_q 0 (ai_id (cx_instance cx)) in
  let? steps := all_steps ps_step cx in
  Ok (concats ["# "; banner cx; newline; text_lines ["Set-StrictMode -Version Latest"; "$ErrorActionPreference = 'Continue'"];
               "$Root = "; root; newline; "$Inst = Join-Path (Join-Path $Root 'instances') "; inst; newline;
               text_lines ["if (Test-Path (Join-Path $Inst 'fired')) { exit 0 }";
                           "$now = [int64][System.DateTimeOffset]::UtcNow.ToUnixTimeSeconds()"; "$due = $false"];
               (if cx_deadline cx then
                  text_lines ["$dl = Join-Path $Inst 'deadline'";
                              "if (Test-Path $dl) { if ($now -ge [int64](Get-Content $dl -Raw).Trim()) { $due = $true } }"]
                else EmptyString);
               match cx_heartbeat_s cx with
               | Some hb => concats [text_lines ["$hb = Join-Path $Inst 'heartbeat'"];
                                     "if (Test-Path $hb) { if (($now - [int64](Get-Content $hb -Raw).Trim()) -gt "; show hb;
                                     ") { $due = $true } } else { $due = $true }"; newline]
               | None => EmptyString
               end;
               text_lines
                 ["if (-not $due) { exit 0 }"; "$HostLock = $null";
                  "for ($i = 0; $i -lt 300 -and -not $HostLock; $i++) { try { $HostLock = [System.IO.File]::Open((Join-Path $Root 'lock'), 'OpenOrCreate', 'ReadWrite', 'None') } catch { Start-Sleep -Seconds 1 } }";
                  "if (-not $HostLock) { exit 1 }"];
               PS_HELPERS; steps;
               text_lines ["New-Item -ItemType File -Path (Join-Path $Inst 'fired') -Force | Out-Null"; "exit 0"]]).

(** ** Python *)

Definition py_q (n : N) (s : string) : Result string RenderError := quoted n FamPython s.

Definition py_fact (n : N) (drift : Drift) (f : FileFact) : Result string RenderError :=
  let? p := py_q n (ff_path f) in
  Ok (concats ["    if sha("; p; ") != recorded(m, "; p; "):"; newline;
               match drift with
               | Defer => "        skip = True"
               | Clobber => concats ["        clobbered("; show n; ")"]
               end; newline]).

Definition py_action (n : N) (drift : Drift) (a : Action) : Result string RenderError :=
  let snap k := concats ["p('snapshots', '"; show n; "', '"; show_nat k; "')"] in
  match a with
  | ActRemove path => let? p := py_q n path in Ok (concats ["remove("; p; ")"; newline])
  | ActStripRegion path anchor k =>
      let? p := py_q n path in
      let fallback :=
        match drift with
        | Clobber => concats ["if foreign_region("; p; "):"; newline; "                defer("; show n; ")"; newline; "            else:";
                              newline; "                restore("; snap k; ", "; p; ")"; newline; "                clobbered("; show n; ")"]
        | Defer => concats ["defer("; show n; ")"]
        end in
      let? a := py_q n anchor in
      Ok (concats ["if not strip_region("; p; ", "; a; "):"; newline; "            "; fallback; newline])
  | ActRestoreSnapshot path k => let? p := py_q n path in Ok (concats ["restore("; snap k; ", "; p; ")"; newline])
  | ActRun command => let? c := py_q n command in Ok (concats ["run("; c; ")"; newline])
  | ActWrite path content =>
      let? p := py_q n path in
      let? c := py_q n content in
      Ok (concats ["write("; p; ", "; c; ")"; newline])
  | ActAppend path line =>
      let? p := py_q n path in
      let? l := py_q n line in
      Ok (concats ["append("; p; ", "; l; ")"; newline])
  | ActRegionSet path anchor content =>
      let? p := py_q n path in
      let? a := py_q n anchor in
      let? c := py_q n content in
      Ok (concats ["region_set("; p; ", "; a; ", "; c; ")"; newline])
  | ActRegionClear path anchor =>
      let? p := py_q n path in
      let? a := py_q n anchor in
      Ok (concats ["strip_region("; p; ", "; a; ")"; newline])
  end.

Definition py_step (s : ArtifactStep) : Result string RenderError :=
  let n := at_n s in
  let? facts := collect_results (py_fact n (at_drift s)) (checked_files s) in
  let? actions := collect_results (fun a => indented "        " (py_action n (at_drift s) a)) (at_actions s) in
  Ok (concats ["# step "; show n; ": "; at_id s; newline; "m = p('markers', '"; show n; "')"; newline;
               text_lines ["if os.path.exists(m):"; "    skip = False"]; concats facts;
               "    if skip:"; newline; "        defer("; show n; ")"; newline; "    else:"; newline; concats actions;
               text_lines ["        os.remove(m)"; ""]]).

Definition PY_HELPERS : string := text_lines
  [
   "";
   "def p(" +:+ "*parts):";
   "    return os.path.join(INST, *parts)";
   "";
   "";
   "def read(path):";
   "    with open(path, encoding='utf-8') as f:";
   "        return f.read()";
   "";
   "";
   "def sha(path):";
   "    if not os.path.isfile(path):";
   "        return 'missing'";
   "    with open(path, 'rb') as f:";
   "        return hashlib.sha256(f.read()).hexdigest()";
   "";
   "";
   "def recorded(marker, path):";
   "    for line in read(marker).splitlines():";
   "        f = line.split(' ', 2)";
   "        if len(f) == 3 and f[1] == path:";
   "            return f[2]";
   "    return ''";
   "";
   "";
   "def take_host_lock():";
   "    # The host lock for the whole run (7.7): flock where there is fcntl,";
   "    # a byte lock on Windows; released when the process ends.";
   "    f = open(os.path.join(ROOT, 'lock'), 'a+')";
   "    try:";
   "        import fcntl";
   "        fcntl.flock(f, fcntl.LOCK_EX)";
   "    except ImportError:";
   "        import msvcrt";
   "        msvcrt.locking(f.fileno(), msvcrt.LK_LOCK, 1)";
   "    return f";
   "";
   "";
   "def foreign_region(path):";
   "    base = os.path.join(ROOT, 'instances')";
   "    for d in os.listdir(base):";
   "        mf = os.path.join(base, d, 'manifest')";
   "        if mf == p('manifest') or not os.path.isfile(mf):";
   "            continue";
   "        for line in read(mf).splitlines():";
   "            if line.startswith('region ' + path + ' '):";
   "                return True";
   "    return False";
   "";
   "";
   "def replace(path, text):";
   "    tmp = path + '.rescind-tmp'";
   "    with open(tmp, 'w', encoding='utf-8') as f:";
   "        f.write(text)";
   "    os.replace(tmp, path)";
   "";
   "";
   "def strip_region(path, anchor):";
   "    if not os.path.isfile(path):";
   "        return False";
   "    lines = read(path).split('\n')";
   "    begin = '# rescind-region ' + anchor + ' begin'";
   "    end = '# rescind-region ' + anchor + ' end'";
   "    if lines.count(begin) != 1 or lines.count(end) != 1:";
   "        return False";
   "    out = []";
   "    skip = False";
   "    for line in lines:";
   "        if line == begin:";
   "            skip = True";
   "            continue";
   "        if line == end:";
   "            skip = False";
   "            continue";
   "        if not skip:";
   "            out.append(line)";
   "    replace(path, '\n'.join(out))";
   "    return True";
   "";
   "";
   "def region_set(path, anchor, content):";
   "    strip_region(path, anchor)";
   "    text = read(path) if os.path.isfile(path) else ''";
   "    if text and not text.endswith('\n'):";
   "        text += '\n'";
   "    replace(path, text + '# rescind-region ' + anchor + ' begin\n' + content + '\n# rescind-region ' + anchor + ' end\n')";
   "";
   "";
   "def restore(snapshot, path):";
   "    shutil.copyfile(snapshot, path + '.rescind-tmp')";
   "    os.replace(path + '.rescind-tmp', path)";
   "";
   "";
   "def remove(path):";
   "    if os.path.isfile(path):";
   "        os.remove(path)";
   "";
   "";
   "def write(path, content):";
   "    replace(path, content)";
   "";
   "";
   "def append(path, line):";
   "    with open(path, 'a', encoding='utf-8') as f:";
   "        f.write(line + '\n')";
   "";
   "";
   "def run(command):";
   "    subprocess.run(RUN + [command], check=False)";
   "";
   "";
   "def defer(n):";
   "    append(p('drift'), str(n))";
   "";
   "";
   "def clobbered(n):";
   "    append(p('clobbered'), str(n))"].

(** [python::render] *)
Definition python_render (cx : ArtifactContext) : Result string RenderError :=
  let? root := py_q 0 (cx_root cx) in
  let? inst := py_q 0 (ai_id (cx_instance cx)) in
  let? steps := all_steps py_step cx in
  Ok (concats [text_lines ["#!/usr/bin/env -S uv run --script"; "# /// script"; "# requires-python = ~>=3.11~"; "# dependencies = []"; "# ///"];
               "# "; banner cx; newline;
               text_lines ["import hashlib"; "import os"; "import shutil"; "import subprocess"; "import sys"; "import time"; ""];
               "ROOT = "; root; newline; "INSTANCE = "; inst; newline;
               text_lines ["INST = os.path.join(ROOT, 'instances', INSTANCE)"];
               text_lines [match cx_shell cx with
                           | ShellPosix => "RUN = ['sh', '-c']"
                           | ShellPowershell => "RUN = ['powershell.exe', '-NoProfile', '-NonInteractive', '-Command']"
                           end; ""];
               PY_HELPERS;
               text_lines [""; "if os.path.exists(p('fired')):"; "    sys.exit(0)"; "now = int(time.time())"; "due = False"];
               (if cx_deadline cx then
                  text_lines ["if os.path.isfile(p('deadline')) and now >= int(read(p('deadline')).strip()):"; "    due = True"]
                else EmptyString);
               match cx_heartbeat_s cx with
               | Some hb => concats ["if not os.path.isfile(p('heartbeat')) or now - int(read(p('heartbeat')).strip()) > "; show hb; ":"; newline;
                                     text_lines ["    due = True"]]
               | None => EmptyString
               end;
               text_lines ["if not due:"; "    sys.exit(0)"; "HOST_LOCK = take_host_lock()"; ""];
               steps; text_lines ["open(p('fired'), 'w').close()"; "sys.exit(0)"]]).

(** The template of a language. *)
Definition template (l : ArtifactLanguage) : ArtifactContext -> Result string RenderError :=
  match l with
  | Sh => sh_render
  | Powershell => powershell_render
  | Python => python_render
  end.

(** ** What the shell functions do to a file ([render/src/template/sh.rs], [HELPERS])

    The functions a POSIX script carries, as functions of the text of the file they are given:
    [grep -c -F -x] counts whole lines, [awk] reads lines and fields, [printf] and [cat] write.
    A line ends at a newline and a carriage return is a character of it, unlike
    [str::lines]. An anchor and a path are given to [awk] with [-v], which reads the escapes
    of a string literal in them. Where the engine's own functions of
    [engine/src/region.rs] and [footprint.rs] do the same, and where they do not. *)

(** What POSIX leaves to the [awk] at hand: the value of an escape it does not list (or of a
    backslash at the end), and the number that a string stands for where it looks like one.
    A number begins with a blank, a sign, a digit, a period or a letter (of [inf], [nan]),
    and so with no slash. *)
Class Awk := {
  awk_other : option ascii -> string;
  awk_number : string -> option string;
  awk_number_slash : forall s, awk_number (String (chr 47) s) = None;
}.

(** The escapes POSIX lists for [awk]: of one character, and of up to three octal digits. *)
Definition awk_escape (c : ascii) : option ascii :=
  match N_of_ascii c with
  | 34 => Some (chr 34) | 47 => Some (chr 47) | 92 => Some backslash | 97 => Some (chr 7) | 98 => Some (chr 8)
  | 102 => Some (chr 12) | 110 => Some nl | 114 => Some cr | 116 => Some (chr 9) | 118 => Some (chr 11)
  | _ => None
  end%N.

Definition awk_octal (c : ascii) : option N :=
  let n := N_of_ascii c in if ((48 <=? n) && (n <=? 55))%N then Some (n - 48)%N else None.

(** The byte of an octal escape; that of zero is not defined. *)
Definition awk_byte `{Awk} (n : N) : string :=
  if (n =? 0)%N then awk_other (Some (chr 48)) else String (chr (n mod 256)) EmptyString.

(** The value of the variable that [-v v=s] sets. *)
Fixpoint awk_value `{Awk} (s : string) : string :=
  match s with
  | EmptyString => EmptyString
  | String c r =>
      if c == backslash then
        match r with
        | EmptyString => awk_other None
        | String d r1 =>
            match awk_escape d, awk_octal d with
            | Some e, _ => String e (awk_value r1)
            | None, None => awk_other (Some d) +:+ awk_value r1
            | None, Some a =>
                match r1 with
                | EmptyString => awk_byte a
                | String d2 r2 =>
                    match awk_octal d2 with
                    | None => awk_byte a +:+ awk_value r1
                    | Some b =>
                        match r2 with
                        | EmptyString => awk_byte (8 * a + b)
                        | String d3 r3 =>
                            match awk_octal d3 with
                            | None => awk_byte (8 * a + b) +:+ awk_value r2
                            | Some o => awk_byte (64 * a + 8 * b + o) +:+ awk_value r3
                            end
                        end
                    end
                end
            end
        end
      else String c (awk_value r)
  end.

(** [$2 == p]: two that look like numbers are compared as numbers, others as strings. *)
Definition awk_same `{Awk} (x y : string) : bool :=
  match awk_number x, awk_number y with
  | Some a, Some b => a == b
  | _, _ => x == y
  end.

Section ShHelpers.
Context {AWK : Awk}.

(** The lines [grep] and [awk] read. *)
Definition nl_lines (s : string) : list string :=
  let '(ls, r) := split_lines s in ls ++ (if r == EmptyString then [] else [r]).

Definition grep_count (m text : string) : nat := length (List.filter (fun l => l == m) (nl_lines text)).

(** [strip_region], of a file that is there: its new text, or its return of 1. *)
Definition sh_strip (text anchor : string) : option string :=
  if (grep_count (begin_marker anchor) text =? 1) && (grep_count (end_marker anchor) text =? 1) then
    let a := awk_value anchor in
    Some (fst (foldl (strip_line (begin_marker a) (end_marker a)) (EmptyString, false) (nl_lines text)))
  else None.

(** [strip_region], of a file or of none. *)
Definition sh_strip_file (file : option string) (anchor : string) : option string := text ← file; sh_strip text anchor.

(** [region_set]: what [strip_region] leaves, or the file as it is, and the region behind it. *)
Definition sh_region_set (file : option string) (anchor content : string) : string :=
  let text := match sh_strip_file file anchor with Some t => t | None => default EmptyString file end in
  concats [text; begin_marker anchor; newline; content; newline; end_marker anchor; newline].

(** [awk]'s fields: what stands between blanks. *)
Definition awk_blank (c : ascii) : bool := let n := N_of_ascii c in (n =? 32)%N || (n =? 9)%N.

Fixpoint fields_from (cur s : string) : list string :=
  match s with
  | EmptyString => if cur == EmptyString then [] else [cur]
  | String c r =>
      if awk_blank c then if cur == EmptyString then fields_from EmptyString r else cur :: fields_from EmptyString r
      else fields_from (cur +:+ String c EmptyString) r
  end.

Definition awk_fields (s : string) : list string := fields_from EmptyString s.

Definition recorded_line (p l : string) : option string :=
  match awk_fields l with
  | _ :: path :: rest => if awk_same path (awk_value p) then Some (default EmptyString (head rest)) else None
  | _ => None
  end.

(** [$(recorded "$M" p)]: the third field of every line that has the path for its second. *)
Definition sh_recorded (marker p : string) : string := join newline (filter_map (recorded_line p) (nl_lines marker)).

(** ** Beside the engine's functions *)

(** A string without a backslash is passed on as it is. *)
Lemma awk_value_plain s : contains_char backslash s = false -> awk_value s = s.
Proof.
  induction s as [|c s IH]; [done|]. rewrite contains_char_cons. intros [Hc Hs]%orb_false_iff. apply bool_decide_eq_false in Hc.
  cbn [awk_value]. by rewrite bool_decide_eq_false_2, IH by congruence.
Qed.

(** A path from the root is compared as a string. *)
Lemma awk_same_path s y : awk_same (String (chr 47) s) y = (String (chr 47) s == y).
Proof. unfold awk_same. by rewrite awk_number_slash. Qed.

Lemma split_lines_cons l t : contains_char nl l = false ->
  split_lines (l +:+ (newline +:+ t)) = (l :: fst (split_lines t), snd (split_lines t)).
Proof.
  induction l as [|c l IH].
  - intros _. change (EmptyString +:+ (newline +:+ t)) with (String nl t). cbn [split_lines]. rewrite bool_decide_eq_true_2 by done.
    by destruct (split_lines t).
  - rewrite contains_char_cons. intros [Hc Hl]%orb_false_iff. apply bool_decide_eq_false in Hc. rewrite append_cons. cbn [split_lines].
    rewrite bool_decide_eq_false_2 by congruence. by rewrite IH.
Qed.

Lemma nl_lines_unlines ls : Forall (fun l => contains_char nl l = false) ls -> nl_lines (unlines ls) = ls.
Proof.
  intros H. unfold nl_lines. cut (split_lines (unlines ls) = (ls, EmptyString)); [by intros ->; rewrite app_nil_r|].
  induction H as [|l ls Hl Hls IH]; [done|]. rewrite unlines_cons, app_assoc_s, split_lines_cons by done. by rewrite IH.
Qed.

Lemma strip_cr_plain l : contains_char cr l = false -> strip_cr l = l.
Proof.
  intros H. apply strip_cr_last. revert H. induction l as [|c l IH]; [done|]. rewrite contains_char_cons.
  intros [Hc Hl]%orb_false_iff. destruct l as [|d l]; [|by apply IH]. cbn. intros [= ->]. by rewrite bool_decide_eq_true_2 in Hc.
Qed.

Lemma split_lines_no_cr s : contains_char cr s = false ->
  Forall (fun l => contains_char cr l = false) (fst (split_lines s)).
Proof.
  induction s as [|c s IH]; [constructor|]. rewrite contains_char_cons. intros [Hc Hs]%orb_false_iff. specialize (IH Hs).
  cbn [split_lines]. destruct (bool_decide_reflect (c = nl)).
  - destruct (split_lines s) as [ls r]. by constructor.
  - destruct (split_lines s) as [[|l ls] r]; [constructor|]. cbn [fst] in *. inversion IH as [|? ? Hl Hls]; subst.
    constructor; [|done]. by rewrite contains_char_cons, Hc.
Qed.

Lemma nl_lines_are_lines s : contains_char cr s = false -> nl_lines s = lines s.
Proof.
  intros Hs%split_lines_no_cr. unfold nl_lines, lines. destruct (split_lines s) as [ls r]. cbn [fst] in Hs. f_equal.
  induction Hs as [|l ls Hl Hls IH]; [done|]. cbn [map]. by rewrite strip_cr_plain, <- IH.
Qed.

(** Without carriage returns, and without a backslash in the anchor, the script's strip is the
    engine's. *)
Lemma sh_strip_is_strip text anchor : contains_char cr text = false -> contains_char backslash anchor = false ->
  sh_strip text anchor = strip text anchor.
Proof.
  intros Ht Ha. unfold sh_strip, strip, grep_count, intact, count_lines. rewrite nl_lines_are_lines, awk_value_plain by done.
  destruct ((_ =? 1) && _); [cbn [negb]|done]. by destruct (foldl _ _ _).
Qed.

(** The script's region is the engine's where there is a whole last line to put it behind. *)
Lemma sh_region_set_is_set file anchor content :
  contains_char cr (default EmptyString file) = false -> contains_char backslash anchor = false ->
  (default EmptyString file = EmptyString \/ ends_with_nl (default EmptyString file) = true) ->
  sh_region_set file anchor content = region_set (default EmptyString file) anchor content.
Proof.
  intros Hcr Hbs Hend. unfold sh_region_set, region_set.
  assert (Hs : sh_strip_file file anchor = strip (default EmptyString file) anchor).
  { destruct file as [t|]; [by apply sh_strip_is_strip|reflexivity]. }
  rewrite Hs.
  assert (Ht : match strip (default EmptyString file) anchor with Some t => t | None => default EmptyString file end = EmptyString \/
               ends_with_nl (match strip (default EmptyString file) anchor with Some t => t | None => default EmptyString file end) = true).
  { destruct (strip _ _) as [t|] eqn:E; [|done]. revert E. unfold strip. destruct (negb _); [done|].
    destruct (foldl _ _ _) as [out sk] eqn:F. intros [= <-].
    assert (Hgen : forall ls acc, (fst acc = EmptyString \/ ends_with_nl (fst acc) = true) ->
              let r := fst (foldl (strip_line (begin_marker anchor) (end_marker anchor)) acc ls) in r = EmptyString \/ ends_with_nl r = true).
    { induction ls as [|l ls IH]; intros [o k] Ha; [done|]. cbn [foldl]. apply IH. unfold strip_line. repeat case_match; try done.
      right. cbn [fst]. rewrite <- app_assoc_s. apply ends_with_nl_snoc. }
    specialize (Hgen (lines (default EmptyString file)) (EmptyString, false)). rewrite F in Hgen. apply Hgen. by left. }
  destruct (strip _ _) as [t|]; cbn [default]; destruct Ht as [-> | ->]; rewrite ?bool_decide_eq_true_2 by done; cbn [negb andb];
    rewrite ?andb_false_r; rewrite !concat_empty_cons; change (concats []) with EmptyString; by str_norm.
Qed.

(** Behind a last line that has no newline, the begin line is the end of that line, and the
    region is not one. *)
Example region_set_joins_the_last_line :
  let text := sh_region_set (Some "last") "a" "x" in
  head (lines text) = Some "last# rescind-region a begin" /\ intact text "a" = false /\ intact (region_set "last" "a" "x") "a" = true.
Proof. vm_compute. by split_and!. Qed.

Lemma fields_word w cur s : w <> EmptyString -> contains_char space w = false -> contains_char (chr 9) w = false ->
  fields_from cur (w +:+ s) = fields_from (cur +:+ w) s.
Proof.
  intros _. revert cur. induction w as [|c w IH]; intros cur; [by rewrite nil_app_s, app_nil_s|].
  rewrite !contains_char_cons, !orb_false_iff. intros [Hs Hw] [Ht Hw']. rewrite append_cons. cbn [fields_from].
  assert (Hb : awk_blank c = false).
  { unfold awk_blank. apply bool_decide_eq_false in Hs, Ht. apply orb_false_iff. split; apply N.eqb_neq; intros H;
      [apply Hs|apply Ht]; unfold space, chr; by rewrite <- H, ascii_N_embedding. }
  rewrite Hb, IH by done. by rewrite app_assoc_s.
Qed.

(** An anchor with a backslash: the lines are counted with the anchor, and looked for with
    what [awk] makes of it. The region is whole, [strip_region] succeeds, and it stays. *)
Example backslashed_anchor_stays :
  let text := unlines ["one"; begin_marker "a\tb"; "mine"; end_marker "a\tb"] in
  sh_strip text "a\tb" = Some text /\ strip text "a\tb" = Some ("one" +:+ newline).
Proof. vm_compute. by split. Qed.

(** A path with a backslash: its line of the marker is not found. *)
Example backslashed_path_is_not_recorded :
  sh_recorded (unlines ["modified /a\tb 00"]) "/a\tb" = EmptyString /\ sh_recorded (unlines ["modified /ab 00"]) "/ab" = "00".
Proof.
  assert (Hone : forall path digest p, nl_lines (unlines ["modified /" +:+ path]) = ["modified /" +:+ path] ->
            awk_fields ("modified /" +:+ path) = ["modified"; String (chr 47) digest; "00"] ->
            sh_recorded (unlines ["modified /" +:+ path]) p = if String (chr 47) digest == awk_value p then "00" else EmptyString).
  { intros path digest p H1 H2. unfold sh_recorded. rewrite H1. cbn [filter_map]. unfold recorded_line. rewrite H2, awk_same_path.
    by destruct (_ == _). }
  rewrite (Hone "a\tb 00" "a\tb"), (Hone "ab 00" "ab") by reflexivity. vm_compute. by split.
Qed.
End ShHelpers.

(** An [awk] that leaves out the backslash of an escape it does not know, and to which no
    string of a marker looks like a number. *)
Definition plain_awk : Awk := {|
  awk_other := fun o => match o with Some c => String c EmptyString | None => String backslash EmptyString end;
  awk_number := fun _ => None;
  awk_number_slash := fun _ => eq_refl;
|}.
