(* ===== verification/ArtifactRun.v ===== *)
(** * What an artifact does on its target

    The script of [Template.sh_render] as a function of the host it wakes on: the fired guard,
    the test of the trigger, one block for each covered step, the fired marker. A shell
    command is an effect on the host's files, a parameter; the host's files, the markers and
    the snapshots of the instance's directory, and the two lists it keeps are the state.
    Beside it stands what the engine would do with the same step: the two agree, and where
    they do not is shown at the end. *)

From Stdlib Require Import Ascii ZArith.
From stdpp Require Import base strings pretty numbers option list gmap.
From S2P Require Import Prelude Utf8 Model Backstop Region Footprint Quote Resolve Render Executor Instance Hosts Revert LocalHost Template.

Notation Files := (gmap string string) (only parsing).

(** The host as the script finds it. [tg_locked]: one of the two lock tools is there. *)
Record Target := mkTarget {
  tg_files : Files;
  tg_markers : gmap N string;
  tg_snapshots : gmap (N * nat) string;
  tg_drift : list N;
  tg_clobbered : list N;
  tg_fired : bool;
  tg_deadline : option Z;
  tg_heartbeat : option Z;
  tg_locked : bool;
}.

Definition eta_target (t : Target) : Target :=
  mkTarget (tg_files t) (tg_markers t) (tg_snapshots t) (tg_drift t) (tg_clobbered t) (tg_fired t) (tg_deadline t) (tg_heartbeat t) (tg_locked t).

Definition set_files v t := ltac:(Monad.field_update eta_target tg_files v t).
Definition set_markers v t := ltac:(Monad.field_update eta_target tg_markers v t).
Definition set_drift v t := ltac:(Monad.field_update eta_target tg_drift v t).
Definition set_clobbered v t := ltac:(Monad.field_update eta_target tg_clobbered v t).
Definition set_fired v t := ltac:(Monad.field_update eta_target tg_fired v t).

Section Run.
Context {AWK : Awk} (sha256_hex : string -> string) (command : string -> Files -> Files) (foreign_region : string -> bool).

(** [echo "$1" >> "$INST/drift"] *)
Definition defer (n : N) (t : Target) : Target := set_drift (tg_drift t ++ [n]) t.
Definition clobbered (n : N) (t : Target) : Target := set_clobbered (tg_clobbered t ++ [n]) t.

(** [restore]: a snapshot that is not there is not copied. *)
Definition restore (n : N) (k : nat) (path : string) (t : Target) : Target :=
  match tg_snapshots t !! (n, k) with
  | Some b => set_files (<[path := b]> (tg_files t)) t
  | None => t
  end.

(** One action of a step. *)
Definition act (n : N) (drift : Drift) (t : Target) (a : Action) : Target :=
  match a with
  | ActRemove path => set_files (delete path (tg_files t)) t
  | ActStripRegion path anchor k =>
      match sh_strip_file (tg_files t !! path) anchor with
      | Some x => set_files (<[path := x]> (tg_files t)) t
      | None =>
          match drift with
          | Clobber => if negb (tg_locked t) || foreign_region path then defer n t else clobbered n (restore n k path t)
          | Defer => defer n t
          end
      end
  | ActRestoreSnapshot path k => restore n k path t
  | ActRun c => set_files (command c (tg_files t)) t
  | ActWrite path content => set_files (<[path := content]> (tg_files t)) t
  | ActAppend path line => set_files (<[path := concats [default EmptyString (tg_files t !! path); line; newline]]> (tg_files t)) t
  | ActRegionSet path anchor content => set_files (<[path := sh_region_set (tg_files t !! path) anchor content]> (tg_files t)) t
  | ActRegionClear path anchor =>
      match sh_strip_file (tg_files t !! path) anchor with
      | Some x => set_files (<[path := x]> (tg_files t)) t
      | None => t
      end
  end.

(** [[ "$(sha p)" = "$(recorded "$M" p)" ]], not so *)
Definition drifted (files : Files) (marker : string) (f : FileFact) : bool :=
  negb (digest_of sha256_hex (files !! ff_path f) == sh_recorded marker (ff_path f)).

(** The block of one step. *)
Definition run_step (t : Target) (s : ArtifactStep) : Target :=
  let n := at_n s in
  match tg_markers t !! n with
  | None => t
  | Some marker =>
      let changed := List.filter (drifted (tg_files t) marker) (checked_files s) in
      match at_drift s, changed with
      | Defer, _ :: _ => defer n t
      | Defer, [] => let t := foldl (act n Defer) t (at_actions s) in set_markers (delete n (tg_markers t)) t
      | Clobber, _ =>
          let t := foldl (fun t _ => clobbered n t) t changed in
          let t := foldl (act n Clobber) t (at_actions s) in
          set_markers (delete n (tg_markers t)) t
      end
  end.

(** Whether the trigger has come: the deadline's file is compared where it is there, a
    heartbeat's missing file is as good as one that stopped. *)
Definition due (cx : ArtifactContext) (now : Z) (t : Target) : bool :=
  (cx_deadline cx && match tg_deadline t with Some d => (d <=? now)%Z | None => false end)
  || match cx_heartbeat_s cx with
     | Some hb => match tg_heartbeat t with Some h => (Z.of_N hb <? now - h)%Z | None => true end
     | None => false
     end.

Definition run_artifact (cx : ArtifactContext) (now : Z) (t : Target) : Target :=
  if tg_fired t then t
  else if due cx now t then set_fired true (foldl run_step t (cx_steps cx))
  else t.

(** ** The engine's side *)

(** What the engine decides of a fact ([judge_fact]) that the script looks at too. *)
Definition engine_decides (policy : Drift) (markers : list Marker) (files : Files) (f : FileFact) : Decision :=
  let bytes := files !! ff_path f in
  let recorded := mk_digest <$> List.find (fun m => mk_path m == ff_path f) markers in
  decide_fact (ff_kind f) policy
    (match recorded with Some d => negb (d == digest_of sha256_hex bytes) | None => false end)
    (if ff_kind f == Region then Some (intact (from_utf8_lossy (default EmptyString bytes)) (default EmptyString (ff_anchor f))) else None)
    ((ff_kind f == Region) && foreign_region (ff_path f)).

Definition held_back (d : Decision) : bool := match d with DDefer | DDeferForeign => true | _ => false end.

(** The facts whose whole files the engine restores. *)
Definition wholes (policy : Drift) (markers : list Marker) (files : Files) (fs : list FileFact) : list nat :=
  map ff_k (List.filter (fun f => engine_decides policy markers files f == DRestoreWhole) fs).

(** A file primitive on the host ([prim_effect]). *)
Definition apply_prim (files : Files) (p : RPrim) : Files :=
  match prim_shape p ≫= file_path with
  | None => files
  | Some path =>
      match prim_effect p (files !! path) with
      | Some (Some b) => <[path := b]> files
      | Some None => delete path files
      | None => files
      end
  end.

(** ** Reading a marker *)

(** A field [awk] reads back. *)
Definition field_word (s : string) : bool := word s && negb (contains_char (chr 9) s) && negb (s == EmptyString).

Lemma field_word_spec s : field_word s = true ->
  contains_char space s = false /\ contains_char nl s = false /\ contains_char (chr 9) s = false /\ s <> EmptyString.
Proof.
  unfold field_word. rewrite !andb_true_iff, !negb_true_iff. intros [[[Hs Hn]%word_spec Ht] He%bool_decide_eq_false]. by split_and!.
Qed.

Lemma fields_three a b c : field_word a = true -> field_word b = true -> field_word c = true ->
  awk_fields (a +:+ String space (b +:+ String space c)) = [a; b; c].
Proof.
  intros (Ha & _ & Ha' & Hae)%field_word_spec (Hb & _ & Hb' & Hbe)%field_word_spec (Hc & _ & Hc' & Hce)%field_word_spec.
  unfold awk_fields. rewrite fields_word, nil_app_s by done. cbn [fields_from]. change (awk_blank space) with true. cbn match.
  rewrite bool_decide_eq_false_2 by done. rewrite fields_word, nil_app_s by done. cbn [fields_from]. change (awk_blank space) with true.
  cbn match. rewrite bool_decide_eq_false_2 by done. rewrite <- (app_nil_s c), fields_word, nil_app_s by done. cbn [fields_from].
  by rewrite app_nil_s, bool_decide_eq_false_2.
Qed.

Definition marker_body (m : Marker) : string := mk_path m +:+ String space (mk_digest m).

Lemma markers_text_lines ms : markers_text ms = unlines (map (fun m => kind_word (mk_kind m) +:+ String space (marker_body m)) ms).
Proof.
  unfold markers_text. assert (H : forall s, foldl (fun s m => s +:+ marker_line m) s ms
    = s +:+ unlines (map (fun m => kind_word (mk_kind m) +:+ String space (marker_body m)) ms)).
  { induction ms as [|m ms IH]; intros s; cbn [foldl map]; [by rewrite app_nil_s|]. rewrite IH, unlines_cons. unfold marker_line.
    rewrite concats_line. unfold marker_body. by rewrite !app_assoc_s. }
  by rewrite H, nil_app_s.
Qed.

(** A path from the root, without a backslash: [awk] compares it as it is. *)
Definition awk_path (p : string) : bool := starts_with "/" p && negb (contains_char backslash p).

Lemma awk_path_same p q : awk_path p = true -> awk_path q = true -> awk_same p (awk_value q) = (p == q).
Proof.
  unfold awk_path. intros [Hp _]%andb_true_iff [_ Hq%negb_true_iff]%andb_true_iff. rewrite awk_value_plain by done.
  apply starts_with_Some in Hp as [r ->]. apply awk_same_path.
Qed.

Definition good_marker (m : Marker) : bool := field_word (mk_path m) && field_word (mk_digest m) && awk_path (mk_path m).

(** What the script reads of a marker the engine wrote is the digest the engine reads. *)
Lemma recorded_is_found ms p : Forall (fun m => good_marker m = true) ms -> NoDup (map mk_path ms) -> awk_path p = true ->
  sh_recorded (markers_text ms) p = default EmptyString (mk_digest <$> List.find (fun m => mk_path m == p) ms).
Proof.
  intros Hms Hnd Hpath. unfold sh_recorded. rewrite markers_text_lines, nl_lines_unlines.
  - assert (Hf : filter_map (recorded_line p) (map (fun m => kind_word (mk_kind m) +:+ String space (marker_body m)) ms)
      = map mk_digest (List.filter (fun m => mk_path m == p) ms)).
    { clear Hnd. induction Hms as [|m ms [[Hp Hd]%andb_true_iff Hr]%andb_true_iff Hms IH]; [done|]. cbn [map filter_map List.filter]. rewrite IH.
      unfold recorded_line, marker_body. rewrite fields_three by (done || by destruct m as [[] ? ?]). rewrite awk_path_same by done. cbn.
      by case_bool_decide. }
    rewrite Hf. clear Hf Hms. induction ms as [|m ms IH]; [done|]. cbn [map List.filter List.find] in *. apply NoDup_cons in Hnd as [Hm Hnd].
    case_bool_decide as Hp; [|by apply IH]. rewrite (proj2 (filter_nil_iff _ _)); [done|]. intros m' Hm'. apply bool_decide_eq_false.
    intros Hp'. apply Hm. rewrite Hp, <- Hp'. by apply elem_of_map; exists m'.
  - apply Forall_map. eapply Forall_impl; [exact Hms|]. intros m [[(_ & Hp & _)%field_word_spec (_ & Hd & _)%field_word_spec]%andb_true_iff _]%andb_true_iff.
    unfold marker_body. rewrite contains_char_app, contains_char_cons, contains_char_app, contains_char_cons, Hp, Hd.
    by destruct (kind_word_clean (mk_kind m)) as [_ ->].
Qed.

(** ** One fact *)

(** The fact's shape, as the engine names it. *)
Definition shape_of (f : FileFact) : string := "file:" +:+ ff_path f.

(** What a restore finds of a fact so that both sides can go on: the snapshot of a modified
    file; of a region, a text whose markers are whole, or else the snapshot, the leave to
    clobber and no sibling's region. *)
Definition ready_fact (policy : Drift) (locked : bool) (snapshots : nat -> option string) (files : Files) (f : FileFact) : Prop :=
  match ff_kind f with
  | Owned => True
  | Region =>
      exists text anchor, files !! ff_path f = Some text /\ utf8_valid text = true /\ contains_char cr text = false /\ ff_anchor f = Some anchor /\
        contains_char backslash anchor = false /\
        (intact text anchor = true \/
         policy = Clobber /\ locked = true /\ foreign_region (ff_path f) = false /\ is_Some (snapshots (ff_k f)))
  | _ => is_Some (snapshots (ff_k f))
  end.

(** The engine's primitive for a fact, before and after [restore_wholes]. *)
Definition plain_prim (snapshots : nat -> option string) (f : FileFact) : RPrim :=
  match ff_kind f with
  | Owned => RRemove (shape_of f)
  | Region => RRegionClear (shape_of f) (ff_anchor f)
  | _ => RWrite (shape_of f) (plain (default EmptyString (snapshots (ff_k f))))
  end.

Definition whole_prim (snapshots : nat -> option string) (ks : list nat) (f : FileFact) : RPrim :=
  if (ff_kind f == Region) && bool_decide (ff_k f ∈ ks) then RWrite (shape_of f) (plain (default EmptyString (snapshots (ff_k f))))
  else plain_prim snapshots f.

Lemma shape_path f : file_path (shape_of f) = Some (ff_path f).
Proof. unfold file_path, shape_of. apply strip_prefix_app. Qed.

Lemma apply_prim_at files p f : prim_shape p = Some (shape_of f) ->
  apply_prim files p = match prim_effect p (files !! ff_path f) with
                       | Some (Some b) => <[ff_path f := b]> files
                       | Some None => delete (ff_path f) files
                       | None => files
                       end.
Proof. intros H. unfold apply_prim. rewrite H. cbn [mbind option_bind]. by rewrite shape_path. Qed.

Lemma region_decides policy markers files f text anchor : ff_kind f = Region -> files !! ff_path f = Some text -> utf8_valid text = true ->
  ff_anchor f = Some anchor ->
  engine_decides policy markers files f =
    if intact text anchor then DUndo
    else match policy with
         | Clobber => if negb (foreign_region (ff_path f)) then DRestoreWhole else DDeferForeign
         | Defer => DDefer
         end.
Proof.
  intros Hk Hf Hv Ha. unfold engine_decides. rewrite Hk, Hf, Ha. cbn [from_option]. unfold id. change (Region == Region) with true. rewrite lossy_valid by done.
  cbn [decide_fact andb]. by destruct (intact text anchor).
Qed.

Lemma strip_some_iff text anchor : is_Some (strip text anchor) <-> intact text anchor = true.
Proof.
  unfold strip. destruct (intact text anchor); cbn [negb]; [|by split; [intros []|]].
  destruct (foldl _ _ _). by split.
Qed.

(** The action of a fact and its primitive have one effect on the files, and nothing else
    that the later ones look at changes. *)
Lemma fact_effect n policy markers t f a snapshots :
  restore_action n f = Ok a -> artifact_kind (ff_kind f) = true ->
  (forall k, tg_snapshots t !! (n, k) = snapshots k) ->
  ready_fact policy (tg_locked t) snapshots (tg_files t) f ->
  let t' := act n policy t a in
  let whole := if engine_decides policy markers (tg_files t) f == DRestoreWhole then [ff_k f] else [] in
  tg_files t' = apply_prim (tg_files t) (whole_prim snapshots whole f)
  /\ tg_snapshots t' = tg_snapshots t /\ tg_locked t' = tg_locked t /\ tg_markers t' = tg_markers t
  /\ forall p, p <> ff_path f -> tg_files t' !! p = tg_files t !! p.
Proof.
  intros Ha Hk Hs Hready. unfold restore_action in Ha. unfold ready_fact in Hready. unfold whole_prim, plain_prim.
  destruct (ff_kind f) eqn:Hkind; try done; cbn [andb bool_decide decide_rel].
  - injection Ha as <-. rewrite (apply_prim_at _ _ f) by done. split_and!; try done. intros p Hp. cbn. by rewrite lookup_delete_ne.
  - destruct Hready as (text & anchor & Hf & Hv & Hcr & Hanchor & Hbs & Hor). rewrite Hanchor in Ha. injection Ha as <-. cbn [act].
    rewrite (region_decides policy markers _ f text anchor) by done.
    assert (Hs' : sh_strip_file (tg_files t !! ff_path f) anchor = strip text anchor) by (rewrite Hf; by apply sh_strip_is_strip).
    rewrite Hs'. destruct (intact text anchor) eqn:Hi.
    + destruct (proj2 (strip_some_iff text anchor) Hi) as [x Hx]. rewrite Hx, (bool_decide_eq_false_2 (DUndo = _)) by done.
      rewrite (bool_decide_eq_false_2 (ff_k f ∈ [])), andb_false_r by (by intros ?%not_elem_of_nil).
      rewrite (apply_prim_at _ _ f), Hanchor by done. cbn [prim_effect]. rewrite Hf. cbn [from_option]. unfold id. rewrite lossy_valid, Hx by done.
      split_and!; try done. intros p Hp. cbn. by rewrite lookup_insert_ne.
    + assert (Hx : strip text anchor = None).
      { destruct (strip text anchor) eqn:E; [|done]. by rewrite (proj1 (strip_some_iff text anchor)) in Hi by (by rewrite E). }
      destruct Hor as [|(-> & Hl & Hfor & [b Hb])]; [done|]. rewrite Hx, Hl, Hfor. cbn [negb orb].
      rewrite (bool_decide_eq_true_2 (DRestoreWhole = _)), (bool_decide_eq_true_2 (Region = Region)), (bool_decide_eq_true_2 (ff_k f ∈ [ff_k f])) by (done || by left).
      unfold restore. rewrite Hs, Hb. rewrite (apply_prim_at _ _ f) by done. cbn [prim_effect].
      split_and!; try done. intros p Hp. cbn. by rewrite lookup_insert_ne.
  - injection Ha as <-. destruct Hready as [b Hb]. cbn [act]. unfold restore. rewrite Hs, Hb. rewrite (apply_prim_at _ _ f) by done. cbn [prim_effect].
    split_and!; try done. intros p Hp. cbn. by rewrite lookup_insert_ne.
Qed.

Lemma decides_local policy markers files files' f : files' !! ff_path f = files !! ff_path f ->
  engine_decides policy markers files' f = engine_decides policy markers files f.
Proof. intros H. unfold engine_decides. by rewrite H. Qed.

Lemma ready_local policy locked snapshots files files' f : files' !! ff_path f = files !! ff_path f ->
  ready_fact policy locked snapshots files f -> ready_fact policy locked snapshots files' f.
Proof. unfold ready_fact. by intros ->. Qed.

(** The whole of a fact's own decision is the whole of the step's. *)
Lemma whole_prim_own snapshots ks ks' f : (ff_k f ∈ ks <-> ff_k f ∈ ks') -> whole_prim snapshots ks f = whole_prim snapshots ks' f.
Proof. intros H. unfold whole_prim. by rewrite (bool_decide_ext _ _ H). Qed.

(** All the facts of a step, one after the other. *)
Lemma facts_effect n policy markers snapshots W fs : forall t acts,
  collect_results (restore_action n) fs = Ok acts -> Forall (fun f => artifact_kind (ff_kind f) = true) fs -> NoDup (map ff_path fs) ->
  (forall k, tg_snapshots t !! (n, k) = snapshots k) ->
  Forall (ready_fact policy (tg_locked t) snapshots (tg_files t)) fs ->
  Forall (fun f => ff_k f ∈ W <-> engine_decides policy markers (tg_files t) f = DRestoreWhole) fs ->
  let t' := foldl (act n policy) t acts in
  tg_files t' = foldl apply_prim (tg_files t) (map (whole_prim snapshots W) fs) /\ tg_markers t' = tg_markers t.
Proof.
  induction fs as [|f fs IH]; intros t acts Hc Hk Hnd Hs Hr Hw; cbn [collect_results] in Hc; [by injection Hc as <-|].
  apply rbind_ok in Hc as (a & Ha & Hc). apply rbind_ok in Hc as (as_ & Has & [= <-]).
  apply Forall_cons in Hk as [Hk Hks], Hr as [Hr Hrs], Hw as [Hw Hws]. cbn [map] in Hnd. apply NoDup_cons in Hnd as [Hf Hnd].
  destruct (fact_effect n policy markers t f a snapshots Ha Hk Hs Hr) as (H1 & H2 & H3 & H4 & H5). cbn [foldl map].
  assert (Hsame : Forall (fun g => tg_files (act n policy t a) !! ff_path g = tg_files t !! ff_path g) fs).
  { apply Forall_forall. intros g Hg. apply H5. intros He. apply Hf. rewrite <- He. apply elem_of_map. by exists g. }
  destruct (IH (act n policy t a) as_ Has Hks Hnd) as [E1 E2].
  - intros k. by rewrite H2.
  - rewrite H3. eapply Forall_impl; [apply Forall_and; exact (conj Hsame Hrs)|]. intros g [Hg Hgr]. by eapply ready_local.
  - eapply Forall_impl; [apply Forall_and; exact (conj Hsame Hws)|]. intros g [Hg Hgw]. by rewrite (decides_local _ _ _ _ _ Hg).
  - split; [|by rewrite E2]. rewrite E1, H1, (whole_prim_own snapshots _ W); [done|]. rewrite Hw. case_bool_decide as Hd.
    + split; [done|]. intros _. by left.
    + split; [by intros ?%not_elem_of_nil|done].
Qed.

(** ** A whole restore *)

Section Footprint.
Context (key : string) (footprint : list FootprintEntry) (snapshots : gmap string string).

(** [snapshots["<key>/<k>"]] *)
Definition snapshot (k : nat) : option string := snapshots !! concats [key; "/"; show_nat k].

(** The entry behind a fact of the step. *)
Definition backed (f : FileFact) : Prop := exists e, footprint !! ff_k f = Some e /\ fp_shape e = shape_of f.

Lemma artifact_files_backed : Forall (fun f => backed f /\ artifact_kind (ff_kind f) = true) (artifact_files footprint).
Proof.
  apply Forall_forall. intros f. unfold artifact_files. rewrite elem_of_filter_map. intros ([k e] & Hin & Hf).
  apply elem_of_lookup_imap_1 in Hin as (i & x & [= -> ->] & Hi). unfold artifact_file_fact in Hf. cbn [fst snd] in Hf.
  destruct (artifact_kind (fp_kind x)) eqn:Hk; [cbn [negb] in Hf|done]. destruct (static_file (fp_shape x)) as [p|] eqn:Hp; [|done].
  injection Hf as <-. split; [|done]. exists x. split; [done|]. by apply static_file_spec in Hp as [-> _].
Qed.

(** The engine's body: one primitive for each file, none for what needs no undo. *)
Lemma body_of_files (l : list (nat * FootprintEntry)) :
  Forall (fun x => (artifact_kind (fp_kind (snd x)) = true -> is_Some (static_file (fp_shape (snd x)))) /\ fp_kind (snd x) <> Held
                   /\ (fp_kind (snd x) = Modified -> is_Some (snapshot (fst x)))) l ->
  exists parts, collect_results (restore_prim key snapshots) l = Ok parts
    /\ concat parts = map (plain_prim snapshot) (filter_map (fun p => artifact_file_fact (fst p) (snd p)) l).
Proof.
  induction 1 as [|[k e] l (Hf & Hh & Hm) _ (parts & Hp & Hc)]; [by exists []|]. cbn [fst snd] in *.
  assert (Hone : exists ps, restore_prim key snapshots (k, e) = Ok ps
    /\ ps = match artifact_file_fact k e with Some f => [plain_prim snapshot f] | None => [] end).
  { unfold restore_prim, artifact_file_fact, plain_prim. destruct (fp_kind e) eqn:Hk; try done; cbn [artifact_kind negb] in *.
    - destruct (Hf eq_refl) as [p Hp']. rewrite Hp'. apply static_file_spec in Hp' as [-> _]. by eexists.
    - destruct (Hf eq_refl) as [p Hp']. rewrite Hp'. apply static_file_spec in Hp' as [-> _]. by eexists.
    - destruct (Hf eq_refl) as [p Hp']. rewrite Hp'. apply static_file_spec in Hp' as [-> _].
      destruct (Hm eq_refl) as [b Hb]. unfold snapshot in Hb. rewrite Hb. eexists. split; [done|]. cbn [ff_kind ff_k]. unfold snapshot. by rewrite Hb.
    - by eexists.
    - by eexists. }
  destruct Hone as (ps & Hps & ->). eexists. split; [cbn [collect_results]; by rewrite Hps, Hp|].
  cbn [concat filter_map fst snd]. rewrite Hc. by destruct (artifact_file_fact k e).
Qed.

Lemma restore_wholes_are fs W : forall W0,
  Forall (fun f => backed f /\ artifact_kind (ff_kind f) = true) fs -> NoDup (map ff_path fs) ->
  Forall (fun k => exists f, f ∈ fs /\ ff_k f = k /\ ff_kind f = Region /\ is_Some (snapshot k)) W ->
  restore_wholes key footprint snapshots (map (whole_prim snapshot W0) fs) W = Ok (map (whole_prim snapshot (W0 ++ W)) fs).
Proof.
  induction W as [|k W IH]; intros W0 Hb Hnd Hw; cbn [restore_wholes]; [by rewrite app_nil_r|].
  apply Forall_cons in Hw as [(f & Hf & Hk & Hkind & [b Hsnap]) Hw].
  destruct (proj1 (Forall_forall _ _) Hb f Hf) as [(e & He & Hshape) _]. rewrite Hk in He.
  unfold restore_whole. rewrite He. unfold snapshot in Hsnap. rewrite Hsnap. cbn [rbind]. rewrite map_map.
  assert (Hstep : map (fun x => match whole_prim snapshot W0 x with
                                | RRegionClear shape _ => if shape == fp_shape e then RWrite (fp_shape e) (plain b) else whole_prim snapshot W0 x
                                | _ => whole_prim snapshot W0 x
                                end) fs = map (whole_prim snapshot (W0 ++ [k])) fs).
  { apply map_ext_in. intros g Hg%list_elem_of_In.
    assert (Hsame : shape_of g = fp_shape e <-> ff_k g = k).
    { rewrite Hshape. split.
      - intros Hp%app_inj_r. destruct (list_elem_of_lookup_1 _ _ Hf) as [i Hi], (list_elem_of_lookup_1 _ _ Hg) as [j Hj].
        assert (i = j) as <- by (eapply (NoDup_lookup _ _ _ (ff_path f) Hnd); rewrite list_lookup_fmap, ?Hi, ?Hj; cbn; congruence). congruence.
      - intros Hgk. destruct (proj1 (Forall_forall _ _) Hb g Hg) as [(e' & He' & Hs') _]. congruence. }
    unfold whole_prim. destruct (ff_kind g == Region) eqn:Hr; cbn [andb].
    - apply bool_decide_eq_true in Hr. destruct (bool_decide_reflect (ff_k g ∈ W0)) as [Hin|Hin].
      + rewrite bool_decide_eq_true_2; [done|]. apply elem_of_app. by left.
      + unfold plain_prim at 1 2. rewrite Hr. case_bool_decide as Hp.
        * apply Hsame in Hp. rewrite bool_decide_eq_true_2 by (apply elem_of_app; right; rewrite Hp; by left). unfold snapshot. rewrite Hp, Hsnap.
          rewrite <- (proj2 Hsame Hp). done.
        * rewrite bool_decide_eq_false_2; [unfold plain_prim; by rewrite Hr|].
          rewrite elem_of_app, list_elem_of_singleton. intros [?|?]; [done|]. by apply Hp, Hsame.
    - unfold plain_prim. apply bool_decide_eq_false in Hr. by destruct (ff_kind g). }
  rewrite Hstep, IH by done. by rewrite <- app_assoc.
Qed.
End Footprint.

(** What a rendered [:restore] step is. *)
Lemma restore_step n o shell host b s : step_actions n o shell host b = Ok s -> op_undo o = Restore ->
  at_n s = n /\ at_files s = artifact_files (op_footprint o) /\ collect_results (restore_action n) (at_files s) = Ok (at_actions s)
  /\ Forall (fun e => fp_kind e <> Held /\ (artifact_kind (fp_kind e) = true -> is_Some (static_file (fp_shape e)))) (op_footprint o).
Proof.
  intros H Hu. unfold step_actions in H. rewrite Hu in H. apply rbind_ok in H as (acts & H & [= <-]). cbn [at_n at_files at_actions].
  unfold restore_actions in H. destruct (List.find (unobservable_entry _) _) eqn:Hun; [done|]. apply rbind_ok in H as (v & Hv & H).
  destruct (List.find (fun e => fp_kind e == Held) _) eqn:Hh; [done|]. injection H as ->. split_and!; [done..|].
  apply Forall_forall. intros e He%list_elem_of_In. split.
  - apply (List.find_none _ _ Hh) in He. by apply bool_decide_eq_false in He.
  - intros Hk. apply (List.find_none _ _ Hun) in He. unfold unobservable_entry in He. rewrite Hk in He. cbn [andb] in He.
    apply negb_false_iff, existsb_elem in He as (f & Hf & Hp%bool_decide_eq_true). unfold artifact_files in Hf.
    apply elem_of_filter_map in Hf as ([k x] & _ & Hf). unfold artifact_file_fact in Hf. destruct (negb _); [done|].
    destruct (static_file _) as [p|] eqn:Hst; [|done]. injection Hf as <-. cbn [ff_path] in Hp. apply static_file_spec in Hst as [_ Hl].
    unfold static_file. rewrite <- Hp, Hl. by eexists.
Qed.

(** The script finds a fact changed where the engine does. *)
Lemma drifted_is_changed files ms policy f : Forall (fun m => good_marker m = true) ms -> NoDup (map mk_path ms) ->
  ff_path f ∈ map mk_path ms -> ff_kind f <> Region ->
  engine_decides policy ms files f = if drifted files (markers_text ms) f then match policy with Clobber => DClobber | Defer => DDefer end else DUndo.
Proof.
  intros Hms Hnd Hin Hk. unfold engine_decides, drifted. apply elem_of_map in Hin as (m & Hp & Hm).
  rewrite recorded_is_found; [|done..|]; cycle 1.
  { rewrite Hp. pose proof (proj1 (Forall_forall _ _) Hms m Hm) as Hg. by apply andb_true_iff in Hg as [_ Hg]. } destruct (List.find (fun m => mk_path m == ff_path f) ms) as [m'|] eqn:Hf.
  - cbn. rewrite (bool_decide_ext (mk_digest m' = _) (digest_of sha256_hex (files !! ff_path f) = mk_digest m')) by done.
    unfold decide_fact. destruct (ff_kind f); try done; destruct (bool_decide _); done.
  - exfalso. apply list_elem_of_In in Hm. apply (List.find_none _ _ Hf) in Hm. by apply bool_decide_eq_false in Hm.
Qed.

(** The lists the script keeps are of no account to its files. *)
Lemma noted_clobbers n (l : list FileFact) t :
  let t' := foldl (fun t _ => clobbered n t) t l in
  tg_files t' = tg_files t /\ tg_snapshots t' = tg_snapshots t /\ tg_locked t' = tg_locked t /\ tg_markers t' = tg_markers t.
Proof. revert t. induction l as [|f l IH]; intros t; [done|]. exact (IH (clobbered n t)). Qed.

Lemma ready_decides policy locked snaps files ms f : ready_fact policy locked snaps files f -> ff_kind f = Region ->
  held_back (engine_decides policy ms files f) = false.
Proof.
  intros Hr Hk. unfold ready_fact in Hr. rewrite Hk in Hr. destruct Hr as (text & anchor & Hf & Hv & _ & Ha & _ & Hor).
  rewrite (region_decides policy ms _ f text anchor) by done. destruct Hor as [-> |(-> & _ & -> & _)]; [done|]. by destruct (intact text anchor).
Qed.

(** Whether the engine holds a step back is whether the script skips it. *)
Lemma held_iff_changed policy locked snaps files ms fs : Forall (fun m => good_marker m = true) ms -> NoDup (map mk_path ms) ->
  Forall (fun f => ff_path f ∈ map mk_path ms) fs -> Forall (ready_fact policy locked snaps files) fs ->
  existsb held_back (map (engine_decides policy ms files) fs)
  = match policy with
    | Defer => negb (match List.filter (drifted files (markers_text ms)) (List.filter (fun f => negb (ff_kind f == Region)) fs) with [] => true | _ => false end)
    | Clobber => false
    end.
Proof.
  intros Hms Hnd. induction 1 as [|f fs Hf Hfs IH]; intros Hr; [by destruct policy|]. apply Forall_cons in Hr as [Hr Hrs]. specialize (IH Hrs).
  cbn [map existsb List.filter]. rewrite IH. destruct (bool_decide_reflect (ff_kind f = Region)) as [Hk|Hk]; cbn [negb].
  - by rewrite (ready_decides _ _ _ _ ms _ Hr Hk).
  - rewrite drifted_is_changed by done. cbn [List.filter]. destruct (drifted files (markers_text ms) f); by destruct policy.
Qed.

Section Step.
Context (n : N) (o : Op) (shell : Shell) (host : HostRecord) (b : Bindings) (s : ArtifactStep).
Context (Hstep : step_actions n o shell host b = Ok s) (Hundo : op_undo o = Restore) (Hpaths : NoDup (map ff_path (at_files s))).
Context (ms : list Marker) (Hms : Forall (fun m => good_marker m = true) ms) (Hnd : NoDup (map mk_path ms)).
Context (Hall : Forall (fun f => ff_path f ∈ map mk_path ms) (at_files s)).
Context (key : string) (snapshots : gmap string string).

Lemma step_backed : Forall (fun f => backed (op_footprint o) f /\ artifact_kind (ff_kind f) = true) (at_files s).
Proof using Hstep Hundo. destruct (restore_step n o shell host b s Hstep Hundo) as (_ & -> & _). apply artifact_files_backed. Qed.

Lemma step_body policy locked files : Forall (ready_fact policy locked (snapshot key snapshots) files) (at_files s) ->
  restore_body key (op_footprint o) snapshots = Ok (map (plain_prim (snapshot key snapshots)) (at_files s)).
Proof using Hstep Hundo.
  destruct (restore_step n o shell host b s Hstep Hundo) as (_ & Hfiles & _ & Hentries). rewrite Hfiles. intros Hready.
  destruct (body_of_files key snapshots (imap (fun k e => (k, e)) (op_footprint o))) as (parts & Hp & Hc).
  - apply Forall_forall. intros [k e] Hin. apply elem_of_lookup_imap_1 in Hin as (i & x & [= -> ->] & Hi). cbn [fst snd].
    assert (Hx : x ∈ op_footprint o) by (by eapply list_elem_of_lookup_2).
    destruct (proj1 (Forall_forall _ _) Hentries x Hx) as [Hh Hst]. split_and!; [done..|]. intros Hm.
    rewrite Hm in Hst. destruct (Hst eq_refl) as [p Hp].
    assert (Hf : mkFileFact Modified p (fp_anchor x) i ∈ artifact_files (op_footprint o)).
    { unfold artifact_files. apply elem_of_filter_map. exists (i, x). split.
      - apply (elem_of_lookup_imap_2 (fun k e => (k, e))). exact Hi.
      - unfold artifact_file_fact. cbn [fst snd]. by rewrite Hm, Hp. }
    exact (proj1 (Forall_forall _ _) Hready _ Hf).
  - unfold restore_body. rewrite Hp. cbn [rbind]. rewrite Hc. reflexivity.
Qed.

Lemma whole_iff policy files :
  Forall (fun f => ff_k f ∈ wholes policy ms files (at_files s) <-> engine_decides policy ms files f = DRestoreWhole) (at_files s).
Proof using Hstep Hundo Hpaths.
  pose proof step_backed as Hb. apply Forall_forall. intros f Hf. unfold wholes. rewrite elem_of_map. split.
  - intros (g & Hk & [Hg Hd%bool_decide_eq_true]%elem_of_lfilter). cut (f = g); [by intros ->|].
    destruct (proj1 (Forall_forall _ _) Hb f Hf) as [(e & He & Hs1) _], (proj1 (Forall_forall _ _) Hb g Hg) as [(e' & He' & Hs2) _].
    assert (Hp : ff_path f = ff_path g) by (apply (app_inj_r "file:"); change (shape_of f = shape_of g); congruence).
    destruct (list_elem_of_lookup_1 _ _ Hf) as [i Hi], (list_elem_of_lookup_1 _ _ Hg) as [j Hj].
    assert (i = j) as <- by (eapply (NoDup_lookup _ _ _ (ff_path f) Hpaths); rewrite list_lookup_fmap, ?Hi, ?Hj; cbn; congruence). congruence.
  - intros Hd. exists f. split; [done|]. apply elem_of_lfilter. split; [done|]. by rewrite bool_decide_eq_true_2.
Qed.

Lemma wholes_are_regions policy locked files : Forall (ready_fact policy locked (snapshot key snapshots) files) (at_files s) ->
  Forall (fun k => exists f, f ∈ at_files s /\ ff_k f = k /\ ff_kind f = Region /\ is_Some (snapshot key snapshots k))
    (wholes policy ms files (at_files s)).
Proof using AWK Hms Hnd Hall.
  intros Hready. apply Forall_forall. intros k. unfold wholes. rewrite elem_of_map.
  intros (f & -> & [Hf Hd%bool_decide_eq_true]%elem_of_lfilter). exists f.
  destruct (decide (ff_kind f = Region)) as [Hk|Hk].
  - split_and!; [done..|]. pose proof (proj1 (Forall_forall _ _) Hready f Hf) as Hr. unfold ready_fact in Hr. rewrite Hk in Hr.
    destruct Hr as (text & anchor & Hx & Hv & _ & Ha & _ & [Hi|(_ & _ & _ & Hsn)]); [|done].
    by rewrite (region_decides _ _ _ f text anchor), Hi in Hd.
  - rewrite drifted_is_changed in Hd by (done || exact (proj1 (Forall_forall _ _) Hall f Hf)). by destruct (drifted _ _ _), policy.
Qed.

(** The actions of the step, on a host that is [t] but for the lists. *)
Lemma step_undone t t1 : tg_files t1 = tg_files t -> tg_snapshots t1 = tg_snapshots t -> tg_locked t1 = tg_locked t ->
  (forall k, tg_snapshots t !! (n, k) = snapshot key snapshots k) ->
  Forall (ready_fact (at_drift s) (tg_locked t) (snapshot key snapshots) (tg_files t)) (at_files s) ->
  exists body body', restore_body key (op_footprint o) snapshots = Ok body
    /\ restore_wholes key (op_footprint o) snapshots body (wholes (at_drift s) ms (tg_files t) (at_files s)) = Ok body'
    /\ tg_files (foldl (act n (at_drift s)) t1 (at_actions s)) = foldl apply_prim (tg_files t) body'
    /\ tg_markers (foldl (act n (at_drift s)) t1 (at_actions s)) = tg_markers t1.
Proof using AWK Hstep Hundo Hpaths Hms Hnd Hall.
  intros H1 H2 H3 Hsnap Hready. set (W := wholes (at_drift s) ms (tg_files t) (at_files s)).
  destruct (restore_step n o shell host b s Hstep Hundo) as (_ & _ & Hacts & _). pose proof step_backed as Hb.
  exists (map (plain_prim (snapshot key snapshots)) (at_files s)), (map (whole_prim (snapshot key snapshots) W) (at_files s)).
  split; [by eapply step_body|]. split.
  - assert (H0 : map (plain_prim (snapshot key snapshots)) (at_files s) = map (whole_prim (snapshot key snapshots) []) (at_files s)).
    { apply map_ext. intros f. unfold whole_prim. by rewrite (bool_decide_eq_false_2 (ff_k f ∈ [])), andb_false_r by (by intros ?%not_elem_of_nil). }
    rewrite H0. apply (restore_wholes_are key (op_footprint o) snapshots (at_files s) W []); [done..|by eapply wholes_are_regions].
  - rewrite <- H1. apply (facts_effect n (at_drift s) ms); rewrite ?H1, ?H3; try done.
    + eapply Forall_impl; [exact Hb|]. by intros f [].
    + intros k. by rewrite H2.
    + apply whole_iff.
Qed.
End Step.

(** C18. A [:restore] step of an artifact comes out as the engine's own undo of it, on a target
    that is ready for it. Where the engine's decisions on the step's files hold the step back
    for drift, the script's block defers the step and changes nothing else: no file, no
    marker. Otherwise it leaves the files as the engine's restoring body leaves them,
    primitive for primitive, the broken regions that the engine restores whole restored whole,
    and takes the step's marker away. Ready means: the step's marker is there and has a line
    for each of its files, with paths from the root, one line a path, no blanks and no
    backslashes in them; the facts have different files; the snapshots in the directory are the
    engine's, and each file that was modified has one; and each region's file is there, is valid UTF-8 without carriage returns, the
    anchor has no backslash, and its two marker lines are whole, or else the policy is
    [:clobber], the lock is held, no sibling has a region there and its snapshot is there.
    What the two do where one of these fails is shown after this theorem. *)
Theorem artifact_does_as_the_engine (n : N) (o : Op) (shell : Shell) (host : HostRecord) (b : Bindings) (s : ArtifactStep)
    (key : string) (snapshots : gmap string string) (ms : list Marker) (t : Target)
    (Hstep : step_actions n o shell host b = Ok s) (Hundo : op_undo o = Restore)
    (Hmarker : tg_markers t !! n = Some (markers_text ms))
    (Hms : Forall (fun m => good_marker m = true) ms) (Hnd : NoDup (map mk_path ms))
    (Hall : Forall (fun f => ff_path f ∈ map mk_path ms) (at_files s)) (Hpaths : NoDup (map ff_path (at_files s)))
    (Hsnap : forall k, tg_snapshots t !! (n, k) = snapshot key snapshots k)
    (Hready : Forall (ready_fact (at_drift s) (tg_locked t) (snapshot key snapshots) (tg_files t)) (at_files s)) :
  if existsb held_back (map (engine_decides (at_drift s) ms (tg_files t)) (at_files s)) then run_step t s = defer n t
  else exists body body',
    restore_body key (op_footprint o) snapshots = Ok body
    /\ restore_wholes key (op_footprint o) snapshots body (wholes (at_drift s) ms (tg_files t) (at_files s)) = Ok body'
    /\ tg_files (run_step t s) = foldl apply_prim (tg_files t) body'
    /\ tg_markers (run_step t s) = delete n (tg_markers t).
Proof.
  destruct (restore_step n o shell host b s Hstep Hundo) as (Hn & _).
  rewrite (held_iff_changed _ (tg_locked t) (snapshot key snapshots)) by done.
  unfold run_step. rewrite Hn, Hmarker. fold (checked_files s).
  set (changed := List.filter (drifted (tg_files t) (markers_text ms)) (checked_files s)).
  pose proof (fun t1 => step_undone n o shell host b s Hstep Hundo Hpaths ms Hms Hnd Hall key snapshots t t1) as Hdone.
  destruct (at_drift s) eqn:Hdrift.
  - destruct (noted_clobbers n changed t) as (H1 & H2 & H3 & H4).
    destruct (Hdone _ H1 H2 H3 Hsnap Hready) as (body & body' & Hb & Hb' & Hf & Hm). exists body, body'. split_and!; [done..|]. cbn. by rewrite Hm, H4.
  - destruct changed as [|f changed]; [cbn match; cbn [negb]|done].
    destruct (Hdone t eq_refl eq_refl eq_refl Hsnap Hready) as (body & body' & Hb & Hb' & Hf & Hm). exists body, body'. split_and!; [done..|]. cbn. by rewrite Hm.
Qed.

(** An artifact acts once: what a later wake finds it leaves alone. *)
Theorem artifact_fires_once (cx : ArtifactContext) (now now' : Z) (t : Target) :
  let t' := run_artifact cx now t in
  (tg_fired t = false -> due cx now t = false -> t' = t) /\ (tg_fired t' = true -> run_artifact cx now' t' = t').
Proof.
  unfold run_artifact. destruct (tg_fired t) eqn:Hf; [by rewrite Hf|]. destruct (due cx now t) eqn:Hd; [by split|].
  split; [done|]. by rewrite Hf.
Qed.
End Run.

(** ** A host of three files *)

#[local] Existing Instance plain_awk.

Section Demo.
Definition demo_digest (s : string) : string := "d" +:+ s.

Definition demo_op (d : Drift) (fp : list FootprintEntry) : Op :=
  mkOp "edit" fp [] [] Restore [] ULController Revert (Some d) [] [] None LTarget None None None true.

Definition demo_host_record : HostRecord := mkHostRecord "web" "linux" [] true true None.

Definition demo_bindings : Render.Bindings := mkBindings ∅ ∅.

Definition demo_block (body : string) : string := unlines ["a"; begin_marker "r"; body; end_marker "r"].

Definition demo_entries : list FootprintEntry :=
  [entry Owned "file:/o"; entry Modified "file:/m"; anchored "file:/r" "r"].

Definition demo_markers : list Marker :=
  [mkMarker Owned "/o" "dmine"; mkMarker Modified "/m" "dset"; mkMarker Region "/r" "dx"].

Definition demo_snapshots : gmap string string := {["1/1" := "as it was"; "1/2" := "plain"]}.

Definition demo_target (m r : string) (markers : list Marker) (snaps : gmap (N * nat) string) : Target :=
  mkTarget {["/o" := "mine"; "/m" := m; "/r" := r]} {[1%N := markers_text markers]} snaps [] [] false None None true.

Definition demo_step (d : Drift) (fp : list FootprintEntry) : ArtifactStep :=
  match step_actions 1 (demo_op d fp) ShellPosix demo_host_record demo_bindings with
  | Ok s => s
  | Err _ => mkArtifactStep 1 EmptyString d [] []
  end.
End Demo.

Lemma demo_snapshot_here (m : gmap string string) k b j :
  (<[concats ["1"; "/"; show_nat k] := b]> m) !! concats ["1"; "/"; show_nat j] = if decide (j = k) then Some b else m !! concats ["1"; "/"; show_nat j].
Proof.
  destruct (decide (j = k)) as [->|Hj]; [by rewrite lookup_insert_eq|]. rewrite lookup_insert_ne; [done|].
  unfold concats. cbn. intros [= H]. rewrite !nil_app_s in H. by apply (inj (pretty (A := nat))) in H.
Qed.

Lemma demo_target_snapshots k :
  ({[(1%N, 1) := "as it was"; (1%N, 2) := "plain"]} : gmap (N * nat) string) !! (1%N, k) = snapshot "1" demo_snapshots k.
Proof.
  unfold snapshot, demo_snapshots. rewrite <- !insert_empty. change "1/1" with (concats ["1"; "/"; show_nat 1]). change "1/2" with (concats ["1"; "/"; show_nat 2]).
  rewrite !demo_snapshot_here, lookup_empty. destruct (decide (k = 1)) as [->|H1]; [done|]. destruct (decide (k = 2)) as [->|H2]; [done|].
  rewrite !lookup_insert_ne by congruence. apply lookup_empty.
Qed.

(** Under [:clobber] a modified file somebody changed and a region somebody broke come back,
    by the script as by the engine. *)
Lemma artifact_does_as_the_engine_witness :
  let t := demo_target "changed" "broken" demo_markers {[(1%N, 1) := "as it was"; (1%N, 2) := "plain"]} in
  let t' := run_step demo_digest (fun _ f => f) (fun _ => false) t (demo_step Clobber demo_entries) in
  (exists body body', restore_body "1" demo_entries demo_snapshots = Ok body
    /\ restore_wholes "1" demo_entries demo_snapshots body [2] = Ok body' /\ tg_files t' = foldl apply_prim (tg_files t) body')
  /\ map_to_list (tg_files t') = [("/m", "as it was"); ("/r", "plain")].
Proof.
  pose proof (artifact_does_as_the_engine demo_digest (fun _ f => f) (fun _ => false) 1 (demo_op Clobber demo_entries) ShellPosix
    demo_host_record demo_bindings (demo_step Clobber demo_entries) "1" demo_snapshots demo_markers
    (demo_target "changed" "broken" demo_markers {[(1%N, 1) := "as it was"; (1%N, 2) := "plain"]}) eq_refl eq_refl eq_refl) as H.
  destruct H as (body & body' & Hb & Hb' & Hf & _).
  - by repeat constructor.
  - apply (bool_decide_unpack _). by vm_compute.
  - apply (bool_decide_unpack _). by vm_compute.
  - apply (bool_decide_unpack _). by vm_compute.
  - apply demo_target_snapshots.
  - repeat constructor; cbn.
    + by eexists.
    + exists "broken", "r". split_and!; try done. right. by split_and!.
  - split; [|by vm_compute]. by exists body, body'.
Defined.

(** ** Where the two part *)

(** Under [:defer] a broken region does not hold its step: the script notes the drift, and
    does the other actions and takes the marker away all the same, so that the step counts
    as undone. The engine holds the step. *)
Example broken_region_holds_nothing :
  let t := demo_target "set" "broken" demo_markers ∅ in
  let t' := run_step demo_digest (fun _ f => f) (fun _ => false) t (demo_step Defer demo_entries) in
  existsb held_back (map (engine_decides demo_digest (fun _ => false) Defer demo_markers (tg_files t)) (at_files (demo_step Defer demo_entries))) = true
  /\ tg_drift t' = [1%N] /\ tg_files t' !! "/o" = None /\ tg_markers t' !! 1%N = None.
Proof. by vm_compute. Qed.

(** A modified file that was not there before the step has no snapshot: the engine's body
    removes it, the script's [restore] finds nothing to copy and leaves it, with no note. *)
Example unsnapshotted_file_stays :
  let t := demo_target "set" (demo_block "x") demo_markers ∅ in
  let t' := run_step demo_digest (fun _ f => f) (fun _ => false) t (demo_step Clobber demo_entries) in
  restore_body "1" demo_entries ∅ = Ok [RRemove "file:/o"; RRemove "file:/m"; RRegionClear "file:/r" (Some "r")]
  /\ tg_files t' !! "/m" = Some "set" /\ tg_markers t' !! 1%N = None /\ tg_drift t' = [].
Proof. by vm_compute. Qed.

(** Under [:clobber] a broken region beside another instance's makes the engine hold the
    whole step; the script defers that region, undoes the rest and takes the marker away. *)
Example sibling_region_holds_nothing :
  let t := demo_target "set" "broken" demo_markers {[(1%N, 1) := "as it was"; (1%N, 2) := "plain"]} in
  let t' := run_step demo_digest (fun _ f => f) (fun _ => true) t (demo_step Clobber demo_entries) in
  existsb held_back (map (engine_decides demo_digest (fun _ => true) Clobber demo_markers (tg_files t)) (at_files (demo_step Clobber demo_entries))) = true
  /\ tg_drift t' = [1%N] /\ tg_files t' !! "/o" = None /\ tg_files t' !! "/r" = Some "broken" /\ tg_markers t' !! 1%N = None.
Proof. by vm_compute. Qed.
