(* ===== verification/Ssh.v ===== *)
(** * A host over the OpenSSH client ([bindings/src/ssh.rs])

    [SshExecutor] makes one script of each request and has a remote [sh] read it from its
    standard input. The scripts are written here as the source writes them. Beside them is
    the reading of a POSIX shell for the forms they use (an octal escape of [printf %b], a
    command substitution, a quoted word) and the meaning of the file commands, with the shell
    functions the script carries ([Template.SH_HELPERS]) as [Template] has them. What runs the client is a class, [Transport]. *)

From Stdlib Require Import Ascii.
From stdpp Require Import base strings pretty numbers option list gmap.
From S2P Require Import Prelude Monad Utf8 Model Backstop Ast Journal Quote Region Resolve Render Template Executor LocalHost.

(** ** The seam *)

Record Exit := mkExit { xt_code : Z; xt_stdout : string; xt_stderr : string }.

(** [tr_release] is the drop of the guard that [hold] gives. *)
Class Transport (W T : Type) := {
  tr_exec : T -> EHost -> string -> W -> W * Exec Exit;
  tr_hold : T -> EHost -> string -> W -> W * Exec unit;
  tr_release : T -> EHost -> W -> W;
}.

(** [OpenSsh] *)
Record OpenSsh := mkOpenSsh { os_identity : string; os_known_hosts : string; os_user : string; os_connect_timeout : N }.

(** The arguments of [OpenSsh::command]. *)
Definition ssh_args (s : OpenSsh) (h : EHost) : list string :=
  ["-F"; "none"; "-o"; "IdentitiesOnly=yes"; "-i"; os_identity s; "-o"; "UserKnownHostsFile=" +:+ os_known_hosts s;
   "-o"; "GlobalKnownHostsFile=/dev/null"; "-o"; "StrictHostKeyChecking=yes"; "-o"; "BatchMode=yes"; "-o";
   "ConnectTimeout=" +:+ show (os_connect_timeout s); concats [os_user s; "@"; eh_address h]; "sh"].

(** What [OpenSsh::exec] makes of the client's end: 255 is its own failure. *)
Definition client_exit (h : EHost) (e : Ended) : Exec Exit :=
  let code := default (-1)%Z (en_code e) in
  if (code =? 255)%Z then Err (ExUnreachable (concats [eh_address h; ": "; trim (from_utf8_lossy (en_stderr e))]))
  else Ok (mkExit code (from_utf8_lossy (en_stdout e)) (from_utf8_lossy (en_stderr e))).

(** ** Scripts *)

Definition octal_digit (n : N) : ascii := chr (48 + n mod 8).

(** [\0{b:03o}] *)
Definition octal_byte (c : ascii) : string :=
  let n := N_of_ascii c in
  String (chr 92) (String (chr 48) (String (octal_digit (n / 64)) (String (octal_digit (n / 8)) (String (octal_digit n) EmptyString)))).

Fixpoint octal (s : string) : string :=
  match s with
  | EmptyString => EmptyString
  | String c r => octal_byte c +:+ octal r
  end.

(** [printf '%b' '...'] *)
Definition printf_of (s : string) : string := concats ["printf '%b' '"; octal s; "'"].

Definition decoded (s : string) : string := concats [dquote; "$("; printf_of s; ")"; dquote].

(** [{n:o}] *)
Fixpoint octal_number_loop (fuel : nat) (n : N) (acc : string) : string :=
  match fuel with
  | O => acc
  | S fuel =>
      let acc := String (octal_digit n) acc in
      if (n / 8 =? 0)%N then acc else octal_number_loop fuel (n / 8) acc
  end.

(** A [u32] has eleven octal digits. *)
Definition octal_number (n : N) : string := octal_number_loop 11 n EmptyString.

Definition MODE_FN : string :=
  concats ["rescind_mode() { stat -c %a "; dquote; "$1"; dquote; " 2>/dev/null || stat -f '%OMp%OLp' "; dquote; "$1"; dquote;
           " 2>/dev/null || echo 0; }"; newline].

Fixpoint trim_zeros (s : string) : string :=
  match s with String c r => if c == chr 48 then trim_zeros r else s | EmptyString => EmptyString end.

Definition octal_mode (s : string) : string :=
  let t := trim_zeros (trim s) in if t == EmptyString then "0" else t.

(** [s.split_whitespace()] *)
Fixpoint split_words (fuel : nat) (s : string) : list string :=
  match fuel with
  | O => []
  | S fuel =>
      match trim_start s with
      | EmptyString => []
      | t =>
          let fix word u := match u with
                            | String c r => if is_space c then (EmptyString, u) else let '(w, rest) := word r in (String c w, rest)
                            | EmptyString => (EmptyString, EmptyString)
                            end in
          let '(w, rest) := word t in w :: split_words fuel rest
      end
  end.

Definition split_whitespace (s : string) : list string := split_words (S (String.length s)) s.

(** [s.parse::<u64>()]: a plus sign may stand before the digits. *)
Definition parse_signed_u64 (s : string) : option N :=
  match s with
  | String c r => if c == chr 43 then parse_u64 r else parse_u64 s
  | EmptyString => None
  end.

Section Ssh.
(** [{:?}] of a text. *)
Context (debug_str : string -> string).

(** [ssh::q] *)
Definition q (s : string) : Exec string :=
  match posix s with
  | Ok w => Ok w
  | Err u => Err (ExUnsupported ("cannot quote for sh: " +:+ display_unquotable debug_str u))
  end.

Definition quoted_path (shape : string) : Exec string := let? p := path_of shape in q p.

Definition env_word (e : string * Resolved) : string := concats [fst e; "="; decoded (rv_text (snd e)); " "].

Definition run_line (cmd : Resolved) (env : list (string * Resolved)) (stdin : option Resolved) : string :=
  concats [match stdin with Some s => printf_of (rv_text s) +:+ " | " | None => EmptyString end;
           concats (map env_word env); "sh -c "; decoded (rv_text cmd)].

Definition root_of (h : EHost) : string := default (default_root (shell_of (hr_os (eh_record h)))) (eh_rescind_root h).

(** [prelude], without the [set -e] it begins with *)
Definition prelude_tail (h : EHost) (inst : option string) : string :=
  concats ["ROOT="; decoded (root_of h); newline;
           match inst with Some i => concats ["INST="; dquote; "$ROOT/instances/"; i; dquote; newline] | None => EmptyString end;
           SH_HELPERS].

Definition set_e : string := "set -e" +:+ newline.

Definition prelude (h : EHost) (inst : option string) : string := set_e +:+ prelude_tail h inst.

Definition lock_command (h : EHost) (lock : string) : Exec string :=
  let os := hr_os (eh_record h) in
  if (os == "freebsd") || (os == "dragonfly") then let? w := q lock in Ok (concats ["lockf -k -t 60 "; w; " sh -c 'echo ready; cat'"])
  else if os == "linux" then let? w := q lock in Ok (concats ["flock -w 60 "; w; " sh -c 'echo ready; cat'"])
  else Err (ExUnsupported (concats ["no host lock tool is known for os "; os; " (lockf on FreeBSD, flock on Linux)"])).

(** The file named by the quoted word [r] in the instance's directory. *)
Definition in_inst (r : string) : string := concats [dquote; "$INST"; dquote; "/"; r].

(** The line of a script for one primitive. *)
Definition script_line (p : RPrim) : Exec string :=
  match p with
  | RRun cmd env stdin => Ok (run_line cmd env stdin +:+ newline)
  | RCall _ cmd => Ok (run_line cmd [] None +:+ newline)
  | RWrite shape content =>
      let? p := quoted_path shape in
      Ok (concats [printf_of (rv_text content); " > "; p; ".rescind-tmp && mv "; p; ".rescind-tmp "; p; newline])
  | RRemove shape => let? p := quoted_path shape in Ok (concats ["rm -f "; p; newline])
  | RAppend shape line =>
      let? p := quoted_path shape in
      Ok (concats ["printf '%b\n' '"; octal (rv_text line); "' >> "; p; newline])
  | RRegionSet shape anchor content =>
      let? p := quoted_path shape in
      let? a := q (default EmptyString anchor) in
      Ok (concats ["region_set "; p; " "; a; " "; decoded (rv_text content); newline])
  | RRegionClear shape anchor =>
      let? p := quoted_path shape in
      let? a := q (default EmptyString anchor) in
      Ok (concats ["strip_region "; p; " "; a; newline])
  | RStage name content mode =>
      let? n := q name in
      Ok (concats ["mkdir -p "; dquote; "$INST"; dquote; " && "; printf_of (rv_text content); " > "; in_inst n; ".rescind-tmp && mv ";
                   in_inst n; ".rescind-tmp "; in_inst n; " && chmod "; octal_number mode; " "; in_inst n; newline])
  | RHook name _ => Err (hook_prim "ssh" name)
  | RInstall name | RRelease name => Err (package_prim "ssh" name)
  end.

Definition body_script (h : EHost) (inst : string) (body : list RPrim) : Exec string :=
  let? ls := collect_results script_line body in
  Ok (prelude h (Some inst) +:+ concats ls).

(** ** The executor *)

Context {W T : Type} `{!Transport W T}.

Definition exec_ok (t : T) (h : EHost) (script : string) : W -> W * Exec string :=
  let! x := tr_exec t h script in
  if negb (xt_code x =? 0)%Z then mthrow (ExFailed (exit_text (xt_code x) (xt_stderr x))) else mret (xt_stdout x).

Definition ssh_run (t : T) (h : EHost) (inst : string) (body : list RPrim) : W -> W * Exec RunOutput :=
  let! script := lift (body_script h inst body) in
  let! stdout := exec_ok t h script in
  let '(rest, outputs) := split_outputs stdout in
  mret (mkRunOutput rest outputs).

Definition ssh_observe (t : T) (h : EHost) (p : ProbeRun) : W -> W * Exec Observation :=
  match probe_run p with
  | None => mthrow (no_run_body "ssh" p)
  | Some (cmd, env, stdin) =>
      let! x := tr_exec t h (concats [prelude_tail h None; run_line cmd env stdin; newline]) in
      mret (mkObservation (trim_end (xt_stdout x)) (Some (tri_of_code (xt_code x))))
  end.

Definition ssh_read_fact (t : T) (h : EHost) (shape : string) : W -> W * Exec (option string) :=
  let! p := lift (quoted_path shape) in
  let! x := tr_exec t h (concats ["if [ -f "; p; " ]; then cat "; p; "; else exit 3; fi"; newline]) in
  if (xt_code x =? 0)%Z then mret (Some (xt_stdout x))
  else if (xt_code x =? 3)%Z then mret None
  else mthrow (ExFailed (concats ["exit "; pretty (xt_code x); ": "; trim (xt_stderr x)])).

Definition ssh_clock_now (t : T) (h : EHost) : W -> W * Exec (option Instant) :=
  let! out := exec_ok t h ("date +%s" +:+ newline) in
  match parse_signed_u64 (trim out) with
  | Some s => mret (Some s)
  | None => mthrow (ExFailed (concats [hr_name (eh_record h); ": the clock probe answered "; debug_str (trim out); ", not an epoch second"]))
  end.

Definition bootstrap_script (h : EHost) : string :=
  concats [prelude_tail h None;
    "r=0; [ -d "; dquote; "$ROOT"; dquote; " ] && r=1"; newline;
    "g=0; if getent group rescind >/dev/null 2>&1 || pw groupshow rescind >/dev/null 2>&1; then g=1; fi"; newline;
    "i=0; [ -d "; dquote; "$ROOT/instances"; dquote; " ] && i=1"; newline;
    "l=0; [ -f "; dquote; "$ROOT/lock"; dquote; " ] && l=1"; newline;
    MODE_FN;
    "mi=$(rescind_mode "; dquote; "$ROOT/instances"; dquote; ")"; newline;
    "ml=$(rescind_mode "; dquote; "$ROOT/lock"; dquote; ")"; newline;
    "echo "; dquote; "root=$r group=$g instances=$i lock=$l mi=$mi ml=$ml"; dquote; newline].

(** [field] of [bootstrap_state] *)
Definition state_field (out k : string) : string :=
  default "0" (find_map (strip_prefix (k +:+ "=")) (split_whitespace out)).

Definition read_bootstrap (out : string) : BootstrapState :=
  let on k := state_field out k == "1" in
  mkBootstrapState (on "root") (on "group") (on "instances") (on "lock")
    ((octal_mode (state_field out "mi") == "2770") && (octal_mode (state_field out "ml") == "664")).

Definition ssh_bootstrap_state (t : T) (h : EHost) : W -> W * Exec BootstrapState :=
  let! out := exec_ok t h (bootstrap_script h) in mret (read_bootstrap out).

Definition unit_ok (t : T) (h : EHost) (script : string) : W -> W * Exec unit := do! exec_ok t h script in mret tt.

Definition ssh_dir_create (t : T) (h : EHost) (inst : string) : W -> W * Exec unit :=
  unit_ok t h (concats [prelude h (Some inst); "mkdir -p "; dquote; "$INST/markers"; dquote; " "; dquote; "$INST/snapshots"; dquote;
                        " && chmod 2770 "; dquote; "$INST"; dquote; newline]).

Definition ssh_dir_remove (t : T) (h : EHost) (inst : string) : W -> W * Exec unit :=
  unit_ok t h (concats [prelude h (Some inst); "rm -rf "; dquote; "$INST"; dquote; newline]).

Definition list_script (h : EHost) : string :=
  concats [prelude h None; MODE_FN; "for d in "; dquote; "$ROOT"; dquote; "/instances/*/; do [ -d "; dquote; "$d"; dquote;
    " ] || continue; n=$(basename "; dquote; "$d"; dquote; "); a=0; f=0; [ -f "; dquote; "$d/fired"; dquote;
    " ] && f=1; for x in artifact.sh artifact.ps1 artifact.py; do [ -f "; dquote; "$d/$x"; dquote; " ] && [ "; dquote; "$f"; dquote;
    " -eq 0 ] && a=1; done; m=$(rescind_mode "; dquote; "$d"; dquote; "); echo "; dquote; "$n $a $f $m"; dquote; "; done"; newline].

(** One line of the listing; one with fewer than three words says nothing. *)
Definition read_dir_line (l : string) : option InstanceDirState :=
  match split_whitespace l with
  | n :: a :: f :: rest =>
      Some (mkInstanceDirState n (a == "1") (f == "1") (octal_mode (default "0" (head rest)) == "2770"))
  | _ => None
  end.

Definition ssh_dir_list (t : T) (h : EHost) : W -> W * Exec (list InstanceDirState) :=
  let! out := exec_ok t h (list_script h) in mret (filter_map read_dir_line (lines out)).

(** [put_file], and [replace_file] without the mode *)
Definition put_script (h : EHost) (inst r bytes : string) (mode : option N) : string :=
  concats [prelude h (Some inst); "mkdir -p "; dquote; "$(dirname "; in_inst r; ")"; dquote; " && "; printf_of (from_utf8_lossy bytes); " > ";
           in_inst r; ".rescind-tmp && ";
           match mode with
           | Some m => concats ["chmod "; octal_number m; " "; in_inst r; ".rescind-tmp && "]
           | None => EmptyString
           end;
           "mv "; in_inst r; ".rescind-tmp "; in_inst r; newline].

Definition ssh_put_file (t : T) (h : EHost) (inst rel bytes : string) (mode : option N) : W -> W * Exec unit :=
  let! r := lift (q rel) in unit_ok t h (put_script h inst r bytes mode).

Definition ssh_get_file (t : T) (h : EHost) (inst rel : string) : W -> W * Exec string :=
  let! r := lift (q rel) in exec_ok t h (concats [prelude h (Some inst); "cat "; in_inst r; newline]).

Definition ssh_remove_file (t : T) (h : EHost) (inst rel : string) : W -> W * Exec unit :=
  let! r := lift (q rel) in unit_ok t h (concats [prelude h (Some inst); "rm -f "; in_inst r; newline]).

Definition ssh_host_lock (t : T) (h : EHost) : W -> W * Exec unit :=
  let! script := lift (lock_command h (root_of h +:+ "/lock")) in
  tr_hold t h (script +:+ newline).

#[export] Instance ssh_executor : Executor W T := {|
  ex_locus _ _ := LkSsh;
  ex_capabilities _ _ := mkExecCaps true true;
  ex_run := ssh_run;
  ex_observe := ssh_observe;
  ex_read_fact := ssh_read_fact;
  ex_bootstrap_state := ssh_bootstrap_state;
  ex_clock_now := ssh_clock_now;
  ex_instance_dir_create := ssh_dir_create;
  ex_instance_dir_remove := ssh_dir_remove;
  ex_instance_dir_list := ssh_dir_list;
  ex_put_file t h i rel b m := ssh_put_file t h i rel b (Some m);
  ex_replace_file t h i rel b := ssh_put_file t h i rel b None;
  ex_get_file := ssh_get_file;
  ex_remove_file := ssh_remove_file;
  ex_host_lock := ssh_host_lock;
  ex_unlock := tr_release;
|}.
End Ssh.

(** ** How the remote shell reads a line *)

Definition octal_value (c : ascii) : option N :=
  let n := N_of_ascii c in if ((48 <=? n) && (n <=? 55))%N then Some (n - 48)%N else None.

(** [%b]'s reading of its operand, of the escapes used here. *)
Fixpoint printf_b (s : string) : option string :=
  match s with
  | EmptyString => Some EmptyString
  | String a r =>
      if a == chr 92 then
        match r with
        | String z (String x (String y (String w r'))) =>
            if z == chr 48 then
              h ← octal_value x; m ← octal_value y; l ← octal_value w; t ← printf_b r';
              Some (String (chr (h * 64 + m * 8 + l)) t)
            else None
        | _ => None
        end
      else t ← printf_b r; Some (String a t)
  end.

(** A command substitution loses the newlines at its end. *)
Fixpoint chomp (s : string) : string :=
  match s with
  | EmptyString => EmptyString
  | String c r => let r := chomp r in if (c == nl) && (r == EmptyString) then EmptyString else String c r
  end.

Definition NUL : ascii := chr 0.

Definition read_printf (s : string) : option (string * string) :=
  r ← strip_prefix "printf '%b' '" s;
  '(o, rest) ← split_at_char squote r;
  t ← printf_b o;
  Some (t, rest).

(** ["$(printf '%b' '...')"]; a NUL has no place in a variable or an argument. *)
Definition read_substitution (s : string) : option (string * string) :=
  r ← strip_prefix (dquote +:+ "$(") s;
  '(t, r) ← read_printf r;
  rest ← strip_prefix (")" +:+ dquote) r;
  if contains_char NUL t then None else Some (chomp t, rest).

Definition name_char (c : ascii) : bool :=
  let n := N_of_ascii c in
  ((65 <=? n) && (n <=? 90) || (97 <=? n) && (n <=? 122) || (48 <=? n) && (n <=? 57) || (n =? 95))%N.

(** A name the shell takes for a variable's. *)
Definition shell_name (s : string) : bool :=
  match s with
  | EmptyString => false
  | String c _ => negb ((48 <=? N_of_ascii c) && (N_of_ascii c <=? 57))%N && all_bytes name_char s
  end.

(** The assignments of a simple command and the text [sh -c] is given. *)
Fixpoint read_command (fuel : nat) (env : list (string * string)) (s : string) : option (list (string * string) * string) :=
  match fuel with
  | O => None
  | S fuel =>
      match strip_prefix "sh -c " s with
      | Some r => '(c, rest) ← read_substitution r; if rest == EmptyString then Some (env, c) else None
      | None =>
          '(k, r) ← split_at_char (chr 61) s;
          if shell_name k then
            '(v, r) ← read_substitution r;
            r ← strip_prefix " " r;
            read_command fuel (env ++ [(k, v)]) r
          else None
      end
  end.

(** What is on standard input, the environment that is added and the command. *)
Definition read_run_line (s : string) : option (option string * list (string * string) * string) :=
  match read_printf s with
  | Some (t, r) =>
      r ← strip_prefix " | " r;
      '(env, c) ← read_command (S (String.length r)) [] r;
      Some (Some t, env, c)
  | None => '(env, c) ← read_command (S (String.length s)) [] s; Some (None, env, c)
  end.

Lemma octal_no_quote s : contains_char squote (octal s) = false.
Proof.
  induction s as [|c s IH]; [done|]. cbn [octal]. rewrite contains_char_app, IH, orb_false_r.
  by destruct c as [[] [] [] [] [] [] [] []].
Qed.

Lemma octal_byte_read c s : printf_b (octal_byte c +:+ s) = t ← printf_b s; Some (String c t).
Proof. destruct c as [[] [] [] [] [] [] [] []]; unfold octal_byte; by rewrite !append_cons, nil_app_s. Qed.

(** Every byte comes back, the NUL and the newline too. *)
Lemma printf_octal s : printf_b (octal s) = Some s.
Proof. induction s as [|c s IH]; [done|]. cbn [octal]. by rewrite octal_byte_read, IH. Qed.

Lemma read_printf_of s rest : read_printf (printf_of s +:+ rest) = Some (s, rest).
Proof.
  unfold read_printf, printf_of. rewrite !concat_empty_cons. change (concats []) with EmptyString. rewrite app_nil_s, !app_assoc_s.
  rewrite strip_prefix_app. cbn [mbind option_bind]. change ("'" +:+ rest) with (String squote rest).
  rewrite split_at_char_app by apply octal_no_quote. cbn [mbind option_bind]. by rewrite printf_octal.
Qed.

Lemma read_substitution_of s rest : contains_char NUL s = false -> read_substitution (decoded s +:+ rest) = Some (chomp s, rest).
Proof.
  intros Hs. unfold read_substitution, decoded. rewrite !concat_empty_cons. change (concats []) with EmptyString.
  rewrite app_nil_s, !app_assoc_s. rewrite <- (app_assoc_s dquote "$("), strip_prefix_app. cbn [mbind option_bind].
  rewrite read_printf_of. cbn [mbind option_bind]. rewrite <- (app_assoc_s ")" dquote), strip_prefix_app. cbn [mbind option_bind].
  by rewrite Hs.
Qed.

Lemma all_bytes_no P c s : P c = false -> all_bytes P s = true -> contains_char c s = false.
Proof.
  intros Hc. induction s as [|d s IH]; [done|]. cbn [all_bytes]. intros [Hd Hs]%andb_true_iff. rewrite contains_char_cons, IH by done.
  rewrite orb_false_r. apply bool_decide_eq_false. intros <-. congruence.
Qed.

Lemma name_then_value k rest : shell_name k = true ->
  split_at_char (chr 61) (k +:+ String (chr 61) rest) = Some (k, rest)
  /\ strip_prefix "sh -c " (k +:+ String (chr 61) rest) = None
  /\ read_printf (k +:+ String (chr 61) rest) = None.
Proof.
  intros Hk. assert (Hall : all_bytes name_char k = true) by (by destruct k; [|apply andb_true_iff in Hk as [_ ?]]).
  split; [apply split_at_char_app; apply (all_bytes_no name_char); [reflexivity|exact Hall]|].
  assert (Hstrip : forall p r, shell_name k = true -> all_bytes name_char k = true -> contains_char (chr 61) p = false ->
    strip_prefix (p +:+ String space r) (k +:+ String (chr 61) rest) = None).
  { clear. intros p r _ Hall Hp. revert p Hp. induction k as [|c k IH]; intros p Hp.
    - destruct p as [|d p]; [done|]. rewrite nil_app_s, append_cons. cbn [strip_prefix]. rewrite contains_char_cons in Hp.
      apply orb_false_iff in Hp as [Hd _]. apply bool_decide_eq_false in Hd. by rewrite bool_decide_eq_false_2.
    - cbn [all_bytes] in Hall. apply andb_true_iff in Hall as [Hc Hk]. destruct p as [|d p].
      + rewrite nil_app_s, append_cons. cbn [strip_prefix]. rewrite bool_decide_eq_false_2; [done|]. by intros <-.
      + rewrite !append_cons. cbn [strip_prefix]. case_bool_decide; [|done]. apply IH; [done|].
        rewrite contains_char_cons in Hp. by apply orb_false_iff in Hp as [_ ?]. }
  split; [by apply (Hstrip "sh" "-c ")|]. unfold read_printf. change "printf '%b' '" with ("printf" +:+ String space "'%b' '"). by rewrite Hstrip.
Qed.

(** C20. A run's line is read back as what was asked for: what is piped in to the byte, and the
    environment and the command but for newlines at their ends. *)
Theorem ssh_values_arrive (cmd : Resolved) (env : list (string * Resolved)) (stdin : option Resolved)
    (Hnames : Forall (fun e => shell_name (fst e) = true) env)
    (Henv : Forall (fun e => contains_char NUL (rv_text (snd e)) = false) env)
    (Hcmd : contains_char NUL (rv_text cmd) = false) :
  read_run_line (run_line cmd env stdin)
  = Some (rv_text <$> stdin, map (fun e => (fst e, chomp (rv_text (snd e)))) env, chomp (rv_text cmd)).
Proof.
  assert (Hrest : forall fuel acc, length env < fuel ->
    read_command fuel acc (concats (map env_word env) +:+ ("sh -c " +:+ decoded (rv_text cmd)))
    = Some (acc ++ map (fun e => (fst e, chomp (rv_text (snd e)))) env, chomp (rv_text cmd))).
  { induction env as [|[k v] env IH]; intros [|fuel] acc Hf; cbn [length] in Hf; try lia; cbn [map].
    - change (concats []) with EmptyString. rewrite nil_app_s. cbn [read_command]. rewrite strip_prefix_app.
      rewrite <- (app_nil_s (decoded _)), read_substitution_of by done. cbn. by rewrite app_nil_r.
    - inversion Hnames as [|? ? Hk Hnames']; subst. inversion Henv as [|? ? Hv Henv']; subst. cbn [fst snd] in *.
      rewrite concat_empty_cons. unfold env_word at 1. cbn [fst snd]. rewrite !concat_empty_cons. change (concats []) with EmptyString.
      rewrite app_nil_s, !app_assoc_s. change ("=" +:+ ?x) with (String (chr 61) x).
      match goal with |- context [k +:+ String _ ?r] => destruct (name_then_value k r Hk) as (Hs & Hp & _) end.
      cbn [read_command]. rewrite Hp, Hs. cbn [mbind option_bind]. rewrite Hk, read_substitution_of by done. cbn [mbind option_bind].
      rewrite strip_prefix_app. cbn [mbind option_bind]. rewrite IH by (done || lia). by rewrite <- app_assoc. }
  assert (Hlen : length env < S (String.length (concats (map env_word env) +:+ ("sh -c " +:+ decoded (rv_text cmd))))).
  { clear. induction env as [|e env IH]; [cbn; lia|]. cbn [map length]. rewrite concat_empty_cons, app_assoc_s, length_app_s.
    assert (1 <= String.length (env_word e)); [|lia]. unfold env_word. rewrite !concat_empty_cons, !length_app_s. cbn. lia. }
  unfold run_line. rewrite !concat_empty_cons. change (concats []) with EmptyString. rewrite app_nil_s.
  unfold read_run_line. destruct stdin as [s|].
  - rewrite app_assoc_s, read_printf_of, strip_prefix_app. cbn [mbind option_bind]. by rewrite (Hrest _ [] Hlen).
  - rewrite nil_app_s. assert (Hp : read_printf (concats (map env_word env) +:+ ("sh -c " +:+ decoded (rv_text cmd))) = None).
    { destruct env as [|[k v] env]; [done|]. inversion Hnames as [|? ? Hk Hnames']; subst. cbn [map]. rewrite concat_empty_cons.
      unfold env_word at 1. cbn [fst snd] in *. rewrite concat_empty_cons, !app_assoc_s, concat_empty_cons, app_assoc_s.
      change ("=" +:+ ?x) with (String (chr 61) x). by apply name_then_value. }
    rewrite Hp. by rewrite (Hrest _ [] Hlen).
Qed.

(** ** What the file commands do *)

(** The files of the host, and whether the line's status is zero. *)
Notation Files := (gmap string string) (only parsing).

Definition ended {A} (r : string) (x : A) : option A := if r == newline then Some x else None.

(** [printf '%b' '...' > tmp && mv tmp path] *)
Definition remote_write (s : string) (f : Files) : option (Files * bool) :=
  '(t, r) ← read_printf s;
  r ← strip_prefix " > " r;
  '(tmp, r) ← sh_word false r;
  r ← strip_prefix " && mv " r;
  '(from, r) ← sh_word false r;
  r ← strip_prefix " " r;
  '(to, r) ← sh_word false r;
  ended r (let f := <[tmp := t]> f in
           match f !! from with
           | Some x => (<[to := x]> (delete from f), true)
           | None => (f, false)
           end).

(** [printf '%b\n' '...' >> path] *)
Definition remote_append (r : string) (f : Files) : option (Files * bool) :=
  '(o, r) ← split_at_char squote r;
  t ← printf_b o;
  r ← strip_prefix " >> " r;
  '(p, r) ← sh_word false r;
  ended r (<[p := concats [default EmptyString (f !! p); t; newline]]> f, true).

Definition remote_remove (r : string) (f : Files) : option (Files * bool) :=
  '(p, r) ← sh_word false r; ended r (delete p f, true).

Definition remote_region_set `{Awk} (r : string) (f : Files) : option (Files * bool) :=
  '(p, r) ← sh_word false r;
  r ← strip_prefix " " r;
  '(a, r) ← sh_word false r;
  r ← strip_prefix " " r;
  '(c, r) ← read_substitution r;
  ended r (<[p := sh_region_set (f !! p) a c]> f, true).

Definition remote_strip `{Awk} (r : string) (f : Files) : option (Files * bool) :=
  '(p, r) ← sh_word false r;
  r ← strip_prefix " " r;
  '(a, r) ← sh_word false r;
  ended r (match sh_strip_file (f !! p) a with Some t => (<[p := t]> f, true) | None => (f, false) end).

(** A line of one of the file primitives. *)
Definition remote_line `{Awk} (s : string) (f : Files) : option (Files * bool) :=
  match strip_prefix "rm -f " s, strip_prefix "region_set " s, strip_prefix "strip_region " s, strip_prefix "printf '%b\n' '" s with
  | Some r, _, _, _ => remote_remove r f
  | _, Some r, _, _ => remote_region_set r f
  | _, _, Some r, _ => remote_strip r f
  | _, _, _, Some r => remote_append r f
  | None, None, None, None => remote_write s f
  end.

(** A quoted word of which more characters follow. *)
Lemma quoted_word_more debug_str p w rest : q debug_str p = Ok w ->
  sh_word false (w +:+ rest) = '(t, r) ← sh_word false rest; Some (p +:+ t, r).
Proof.
  unfold q. destruct (posix p) as [w'|] eqn:H; [|done]. intros [= ->]. apply rbind_ok in H as (u & _ & H). injection H as <-.
  rewrite !concat_empty_cons. change (concats []) with EmptyString. rewrite app_nil_s, !app_assoc_s.
  change (quote_text +:+ ?x) with (String squote x). cbn [sh_word]. rewrite bool_decide_eq_true_2 by done.
  change (quote_text +:+ rest) with (String squote rest). by rewrite sh_word_quoted.
Qed.

Lemma quoted_word debug_str p w c rest : q debug_str p = Ok w -> sh_meta c = true -> sh_word false (w +:+ String c rest) = Some (p, String c rest).
Proof.
  intros Hw Hc. rewrite (quoted_word_more _ _ _ _ Hw), (sh_word_boundary (String c rest)) by done. cbn. by rewrite app_nil_s.
Qed.

Lemma quoted_word_last debug_str p w : q debug_str p = Ok w -> sh_word false (w +:+ newline) = Some (p, newline).
Proof. intros Hw. by apply (quoted_word _ _ _ nl EmptyString Hw). Qed.

(** What a file primitive finds: a text as the engine reads it, and for one that adds to the
    file a whole last line; and what it is given of a region: an anchor with no backslash, a
    content with no NUL and no newline at its end. *)
Definition tame (p : RPrim) (old : option string) : bool :=
  let text := default EmptyString old in
  utf8_valid text && negb (contains_char cr text)
  && match p with
     | RAppend _ _ => (text == EmptyString) || ends_with_nl text
     | RRegionSet _ anchor content =>
         ((text == EmptyString) || ends_with_nl text) && negb (contains_char NUL (rv_text content)) && (chomp (rv_text content) == rv_text content)
         && negb (contains_char backslash (default EmptyString anchor))
     | RRegionClear _ anchor => negb (contains_char backslash (default EmptyString anchor))
     | _ => true
     end.

(** What one line comes to, where [old] is what the file had. *)
Definition remote_does (path : string) (f : Files) (new : option (option string)) (res : option (Files * bool)) : Prop :=
  exists f' ok, res = Some (f', ok)
  /\ (forall o, o <> path -> o <> path +:+ ".rescind-tmp" -> f' !! o = f !! o)
  /\ match new with Some x => ok = true /\ f' !! path = x | None => ok = false /\ f' !! path = f !! path end.

Section RemoteLines.
Context {AWK : Awk} (debug_str : string -> string) (path w : string) (Hq : q debug_str path = Ok w) (f : Files).

Lemma write_line_does text :
  remote_does path f (Some (Some text))
    (remote_line (concats [printf_of text; " > "; w; ".rescind-tmp && mv "; w; ".rescind-tmp "; w; newline]) f).
Proof using Hq.
  assert (Htmp : forall rest, sh_word false (w +:+ (".rescind-tmp" +:+ String space rest)) = Some (path +:+ ".rescind-tmp", String space rest)).
  { intros rest. rewrite (quoted_word_more _ _ _ _ Hq). reflexivity. }
  assert (Hl : concats [printf_of text; " > "; w; ".rescind-tmp && mv "; w; ".rescind-tmp "; w; newline]
    = printf_of text +:+ (" > " +:+ (w +:+ (".rescind-tmp" +:+ (" && mv " +:+ (w +:+ (".rescind-tmp" +:+ (" " +:+ (w +:+ newline))))))))).
  { rewrite !concat_empty_cons. change (concats []) with EmptyString. change ".rescind-tmp && mv " with (".rescind-tmp" +:+ " && mv ").
    change ".rescind-tmp " with (".rescind-tmp" +:+ " "). by str_norm. }
  assert (Hw : remote_write (concats [printf_of text; " > "; w; ".rescind-tmp && mv "; w; ".rescind-tmp "; w; newline]) f
    = Some (<[path := text]> (delete (path +:+ ".rescind-tmp") (<[path +:+ ".rescind-tmp" := text]> f)), true)).
  { rewrite Hl. unfold remote_write. rewrite read_printf_of. cbn [mbind option_bind]. rewrite strip_prefix_app. cbn [mbind option_bind].
    change (" && mv " +:+ ?x) with (String space ("&& mv " +:+ x)). rewrite Htmp. cbn [mbind option_bind].
    change (String space ("&& mv " +:+ ?x)) with (" && mv " +:+ x). rewrite strip_prefix_app. cbn [mbind option_bind].
    change (" " +:+ (w +:+ newline)) with (String space (w +:+ newline)). rewrite Htmp. cbn [mbind option_bind].
    change (String space (w +:+ newline)) with (" " +:+ (w +:+ newline)). rewrite strip_prefix_app. cbn [mbind option_bind].
    rewrite (quoted_word_last _ _ _ Hq). cbn [mbind option_bind].
    unfold ended. rewrite bool_decide_eq_true_2 by done. cbv zeta. by rewrite lookup_insert_eq. }
  eexists _, true. split; [exact Hw|]. split.
  - intros o Ho Ht. by rewrite lookup_insert_ne, lookup_delete_ne, lookup_insert_ne by done.
  - split; [done|]. by rewrite lookup_insert_eq.
Qed.

Lemma remove_line_does : remote_does path f (Some None) (remote_line (concats ["rm -f "; w; newline]) f).
Proof using Hq.
  exists (delete path f), true. split; [|split; [intros o Ho _; by rewrite lookup_delete_ne|split; [done|by rewrite lookup_delete_eq]]].
  rewrite !concat_empty_cons. change (concats []) with EmptyString. rewrite app_nil_s. unfold remote_line. rewrite strip_prefix_app.
  unfold remote_remove. by rewrite (quoted_word_last _ _ _ Hq).
Qed.

Lemma append_line_does line :
  remote_does path f (Some (Some (concats [default EmptyString (f !! path); line; newline])))
    (remote_line (concats ["printf '%b\n' '"; octal line; "' >> "; w; newline]) f).
Proof using Hq.
  eexists (<[path := _]> f), true. split; [|split; [intros o Ho _; by rewrite lookup_insert_ne|split; [done|by rewrite lookup_insert_eq]]].
  rewrite !concat_empty_cons. change (concats []) with EmptyString. rewrite app_nil_s.
  change ("' >> " +:+ ?x) with (String squote (" >> " +:+ x)). unfold remote_line. rewrite strip_prefix_app.
  change (remote_append (octal line +:+ String squote (" >> " +:+ (w +:+ newline))) f
          = Some (<[path := concats [default EmptyString (f !! path); line; newline]]> f, true)).
  unfold remote_append. rewrite split_at_char_app by apply octal_no_quote. cbn [mbind option_bind]. rewrite printf_octal. cbn [mbind option_bind].
  rewrite strip_prefix_app. cbn [mbind option_bind]. by rewrite (quoted_word_last _ _ _ Hq).
Qed.

Context (anchor a : string) (Ha : q debug_str anchor = Ok a).

Lemma region_line_does content : contains_char NUL content = false ->
  remote_does path f (Some (Some (sh_region_set (f !! path) anchor (chomp content))))
    (remote_line (concats ["region_set "; w; " "; a; " "; decoded content; newline]) f).
Proof using Hq Ha.
  intros Hc. eexists (<[path := _]> f), true.
  split; [|split; [intros o Ho _; by rewrite lookup_insert_ne|split; [done|by rewrite lookup_insert_eq]]].
  rewrite !concat_empty_cons. change (concats []) with EmptyString. rewrite app_nil_s. unfold remote_line.
  change (remote_region_set (w +:+ (" " +:+ (a +:+ (" " +:+ (decoded content +:+ newline))))) f
          = Some (<[path := sh_region_set (f !! path) anchor (chomp content)]> f, true)).
  unfold remote_region_set. change (" " +:+ ?x) with (String space x). rewrite (quoted_word _ _ _ _ _ Hq) by done. cbn [mbind option_bind].
  change (strip_prefix " " (String space ?x)) with (strip_prefix " " (" " +:+ x)). rewrite strip_prefix_app. cbn [mbind option_bind].
  change (" " +:+ (decoded content +:+ newline)) with (String space (decoded content +:+ newline)).
  rewrite (quoted_word _ _ _ _ _ Ha) by done. cbn [mbind option_bind].
  change (strip_prefix " " (String space ?x)) with (strip_prefix " " (" " +:+ x)). rewrite strip_prefix_app. cbn [mbind option_bind].
  by rewrite read_substitution_of.
Qed.

Lemma strip_line_does :
  remote_does path f (Some <$> sh_strip_file (f !! path) anchor) (remote_line (concats ["strip_region "; w; " "; a; newline]) f).
Proof using Hq Ha.
  assert (Hr : remote_line (concats ["strip_region "; w; " "; a; newline]) f
    = Some (match sh_strip_file (f !! path) anchor with Some t => (<[path := t]> f, true) | None => (f, false) end)).
  { rewrite !concat_empty_cons. change (concats []) with EmptyString. rewrite app_nil_s. unfold remote_line.
    change (remote_strip (w +:+ (" " +:+ (a +:+ newline))) f
            = Some (match sh_strip_file (f !! path) anchor with Some t => (<[path := t]> f, true) | None => (f, false) end)).
    unfold remote_strip. change (" " +:+ ?x) with (String space x). rewrite (quoted_word _ _ _ _ _ Hq) by done. cbn [mbind option_bind].
    change (strip_prefix " " (String space ?x)) with (strip_prefix " " (" " +:+ x)). rewrite strip_prefix_app. cbn [mbind option_bind].
    by rewrite (quoted_word_last _ _ _ Ha). }
  rewrite Hr. destruct (sh_strip_file (f !! path) anchor) as [t|]; cbn.
  - exists (<[path := t]> f), true. split; [done|]. split; [intros o Ho _; by rewrite lookup_insert_ne|split; [done|by rewrite lookup_insert_eq]].
  - exists f, false. by split_and!.
Qed.
End RemoteLines.


Lemma ssh_values_arrive_witness :
  read_run_line (run_line (plain "echo hi") [("TOKEN", mkResolved (concats ["s3cr3t' $(x)"; newline]) true)] (Some (plain newline)))
  = Some (Some newline, [("TOKEN", "s3cr3t' $(x)")], "echo hi").
Proof.
  apply (ssh_values_arrive (plain "echo hi") [("TOKEN", mkResolved (concats ["s3cr3t' $(x)"; newline]) true)] (Some (plain newline)));
    repeat constructor.
Defined.

#[local] Existing Instance plain_awk.


(** ** Where the two executors part *)

(** A value with a newline at its end arrives without it: the environment, the command and
    the content of a region, but not what is piped in or written. *)
Example decoded_loses_last_newline :
  read_substitution (decoded ("-----END KEY-----" +:+ newline)) = Some ("-----END KEY-----", EmptyString)
  /\ read_printf (printf_of ("-----END KEY-----" +:+ newline)) = Some ("-----END KEY-----" +:+ newline, EmptyString).
Proof. split; reflexivity. Qed.

(** An appended line joins a last line without a newline, where the controller's own begins
    a line of its own. *)
Example ssh_append_joins_the_last_line :
  let f := {["/etc/hosts" := "one"]} : Files in
  script_line (fun s => s) (RAppend "file:/etc/hosts" (plain "two")) = Ok (concats ["printf '%b\n' '"; octal "two"; "' >> '/etc/hosts'"; newline])
  /\ remote_line (concats ["printf '%b\n' '"; octal "two"; "' >> '/etc/hosts'"; newline]) f
     = Some ({["/etc/hosts" := "onetwo" +:+ newline]}, true)
  /\ prim_effect (RAppend "file:/etc/hosts" (plain "two")) (f !! "/etc/hosts") = Some (Some (concats ["one"; newline; "two"; newline])).
Proof. vm_compute. by split_and!. Qed.
