(* ===== verification/Schedulers.v ===== *)
(** * The schedulers of the three families and the built-in bindings ([bindings/src])

    Of [cron.rs], [launchd.rs] and [task_scheduler.rs]: each binding makes commands of a job and has the executor of the host run them. The
    bindings are instances of [Scheduler] over any [Executor]. Beside the commands of
    [cron] stands what they do to a crontab: the words as a POSIX shell reads them, the
    range that [sed] deletes, the pattern [grep] looks for. Then the source, sinks, notifier
    and approval the daemon has of its own. *)

From Stdlib Require Import Ascii.
From stdpp Require Import base strings pretty numbers option list gmap.
From S2P Require Import Prelude Monad Model Backstop Quote Region Resolve Render Executor LocalHost Template Ssh Utf8 Journal.

Section Schedulers.
Context (debug_str : string -> string).
Context {W X : Type} `{!Executor W X}.

(** The body of one command. *)
Definition run_cmd (cmd : string) : RPrim := RRun (plain cmd) [] None.

(** [let _guard = ex.host_lock(host)?]: the lock is given back on every way out. *)
Definition locked {A} (x : X) (h : EHost) (m : W -> W * Exec A) : W -> W * Exec A :=
  do! ex_host_lock x h in
  fun w => let '(w, r) := m w in (ex_unlock x h w, r).

Definition run_unit (x : X) (h : EHost) (inst cmd : string) : W -> W * Exec unit :=
  do! ex_run x h inst [run_cmd cmd] in mret tt.

(** What [present] makes of a probe's answer. *)
Definition presence_of (t : Tri) : Presence :=
  match t with Yes => Present | No => Absent | Unknown => PresenceUnknown end.

Definition probe_presence (x : X) (h : EHost) (name cmd : string) : W -> W * Exec Presence :=
  let! o := ex_observe x h (mkProbeRun name [run_cmd cmd]) in mret (presence_of (as_tri o)).

(** ** cron *)

Definition SCHEDULE : string := "* * * * *".

(** [cron::begin], [cron::end] *)
Definition cron_begin (inst : string) : string := concats ["# rescind-region "; inst; " begin"].
Definition cron_end (inst : string) : string := concats ["# rescind-region "; inst; " end"].

(** The [sed] script of [cron::strip]. *)
Definition cron_range (inst : string) : string := concats ["/^"; cron_begin inst; "$/,/^"; cron_end inst; "$/d"].

Definition cron_strip (inst : string) : Exec string :=
  let? s := q debug_str (cron_range inst) in Ok ("crontab -l 2>/dev/null | sed -e " +:+ s).

Definition cron_line (j : Job) : string := concats [SCHEDULE; " "; job_command j].

Definition cron_install_cmd (j : Job) : Exec string :=
  let? s := cron_strip (jb_instance j) in
  let? b := q debug_str (cron_begin (jb_instance j)) in
  let? l := q debug_str (cron_line j) in
  let? e := q debug_str (cron_end (jb_instance j)) in
  Ok (concats ["{ "; s; "; printf '%s\n' "; b; " "; l; " "; e; "; } | crontab -"]).

Definition cron_disarm_cmd (inst : string) : Exec string :=
  let? s := cron_strip inst in Ok (s +:+ " | crontab -").

Definition cron_present_cmd (inst : string) : Exec string :=
  let? p := q debug_str (concats ["^"; cron_begin inst; "$"]) in Ok ("crontab -l 2>/dev/null | grep -q -e " +:+ p).

Definition cron_install (x : X) (h : EHost) (j : Job) : W -> W * Exec unit :=
  locked x h (let! cmd := lift (cron_install_cmd j) in run_unit x h (jb_instance j) cmd).

Definition cron_disarm (x : X) (h : EHost) (j : Job) : W -> W * Exec unit :=
  locked x h (let! cmd := lift (cron_disarm_cmd (jb_instance j)) in run_unit x h (jb_instance j) cmd).

Definition cron_present (x : X) (h : EHost) (j : Job) : W -> W * Exec Presence :=
  let! cmd := lift (cron_present_cmd (jb_instance j)) in probe_presence x h ("cron entry for " +:+ jb_instance j) cmd.

(** The unit struct. *)
Inductive Cron := CronBinding.

#[export] Instance cron_scheduler : Scheduler W X Cron := {|
  sc_scheduler_name _ _ := "cron";
  sc_install _ := cron_install;
  sc_arm _ _ _ _ _ := mret tt;
  sc_rearm _ _ _ _ _ := mret tt;
  sc_disarm _ := cron_disarm;
  sc_present _ := cron_present;
|}.

(** ** launchd *)

Definition label (inst : string) : string := "rescind." +:+ inst.

Definition plist (inst command : string) : string :=
  concats (map tq
   ["<?xml version=~1.0~ encoding=~UTF-8~?>"; newline; "<plist version=~1.0~>"; newline; "<dict>"; newline]
   ++ ["<key>Label</key><string>"; label inst; "</string>"; newline; "<key>ProgramArguments</key><array>"; newline]
   ++ map (fun w => concats ["    <string>"; w; "</string>"; newline]) (split_whitespace command)
   ++ ["</array>"; newline; "<key>StartInterval</key><integer>60</integer>"; newline; "</dict>"; newline; "</plist>"; newline]).

Definition plist_name (inst : string) : string := label inst +:+ ".plist".

(** 0o640 *)
Definition PLIST_MODE : N := 416.

Definition artifact_dir (artifact : string) : string :=
  match rsplit_at_char slash artifact with Some (d, _) => d | None => "." end.

Definition launchd_install (x : X) (h : EHost) (j : Job) : W -> W * Exec unit :=
  let rel := plist_name (jb_instance j) in
  do! ex_put_file x h (jb_instance j) rel (plist (jb_instance j) (job_command j)) PLIST_MODE in
  let! p := lift (q debug_str (concats [artifact_dir (jb_artifact j); "/"; rel])) in
  run_unit x h (jb_instance j) ("launchctl bootstrap system " +:+ p).

Definition launchd_disarm (x : X) (h : EHost) (j : Job) : W -> W * Exec unit :=
  do! run_unit x h (jb_instance j) ("launchctl bootout system/" +:+ label (jb_instance j)) in
  ex_remove_file x h (jb_instance j) (plist_name (jb_instance j)).

Definition launchd_present (x : X) (h : EHost) (j : Job) : W -> W * Exec Presence :=
  probe_presence x h ("launchd job for " +:+ jb_instance j) ("launchctl print system/" +:+ label (jb_instance j)).

Inductive Launchd := LaunchdBinding.

#[export] Instance launchd_scheduler : Scheduler W X Launchd := {|
  sc_scheduler_name _ _ := "launchd";
  sc_install _ := launchd_install;
  sc_arm _ _ _ _ _ := mret tt;
  sc_rearm _ _ _ _ _ := mret tt;
  sc_disarm _ := launchd_disarm;
  sc_present _ := launchd_present;
|}.

(** ** Task Scheduler *)

Definition task_name (inst : string) : string := "rescind-" +:+ inst.

(** [task_scheduler::q] *)
Definition task_q (s : string) : Exec string :=
  if contains_char (chr 34) s then Err (ExUnsupported ("a scheduled task argument with a double quote: " +:+ s))
  else Ok (concats [dquote; s; dquote]).

Definition task_create (j : Job) : Exec string :=
  let? n := task_q (task_name (jb_instance j)) in
  let? c := task_q (job_command j) in
  Ok (concats ["schtasks /Create /F /RU SYSTEM /SC MINUTE /MO 1 /TN "; n; " /TR "; c]).

Definition task_install (x : X) (h : EHost) (j : Job) : W -> W * Exec unit :=
  let! cmd := lift (task_create j) in run_unit x h (jb_instance j) cmd.

Definition task_disarm (x : X) (h : EHost) (j : Job) : W -> W * Exec unit :=
  let! n := lift (task_q (task_name (jb_instance j))) in
  run_unit x h (jb_instance j) ("schtasks /Delete /F /TN " +:+ n).

Definition task_present (x : X) (h : EHost) (j : Job) : W -> W * Exec Presence :=
  let! n := lift (task_q (task_name (jb_instance j))) in
  probe_presence x h ("scheduled task for " +:+ jb_instance j) ("schtasks /Query /TN " +:+ n).

Inductive TaskScheduler := TaskBinding.

#[export] Instance task_scheduler : Scheduler W X TaskScheduler := {|
  sc_scheduler_name _ _ := "task_scheduler";
  sc_install _ := task_install;
  sc_arm _ _ _ _ _ := mret tt;
  sc_rearm _ _ _ _ _ := mret tt;
  sc_disarm _ := task_disarm;
  sc_present _ := task_present;
|}.
End Schedulers.

(** ** What the commands of cron do *)

(** A basic regular expression of characters that stand for themselves and of dots. *)
Definition bre_char (c : ascii) : bool := negb (existsb (fun n => N_of_ascii c =? n)%N [10; 36; 42; 47; 91; 92; 93; 94]%N).

Definition dot : ascii := chr 46.

Fixpoint bre (re s : string) : bool :=
  match re, s with
  | EmptyString, EmptyString => true
  | String c re, String d s => ((c == dot) || (c == d)) && bre re s
  | _, _ => false
  end.

(** The lines a range [/b/,/e/d] leaves: from a line that matches [b] to the next that
    matches [e], or to the end. *)
Fixpoint sed_range (b e : string) (inside : bool) (ls : list string) : list string :=
  match ls with
  | [] => []
  | l :: r =>
      if inside then sed_range b e (negb (bre e l)) r
      else if bre b l then sed_range b e true r
      else l :: sed_range b e false r
  end.

(** [/^b$/,/^e$/d] *)
Definition read_range (script : string) : option (string * string) :=
  r ← strip_prefix "/^" script;
  '(b, r) ← split_at_char (chr 36) r;
  r ← strip_prefix "/,/^" r;
  '(e, r) ← split_at_char (chr 36) r;
  if (r == "/d") && all_bytes bre_char b && all_bytes bre_char e then Some (b, e) else None.

(** [^b$] *)
Definition read_anchored (p : string) : option string :=
  r ← strip_prefix "^" p;
  '(b, r) ← split_at_char (chr 36) r;
  if (r == EmptyString) && all_bytes bre_char b then Some b else None.

Definition cron_text (r : string) : option (list string) :=
  '(x, r) ← sh_word false r;
  r ← strip_prefix " " r;
  '(y, r) ← sh_word false r;
  r ← strip_prefix " " r;
  '(z, r) ← sh_word false r;
  if r == "; } | crontab -" then Some (nl_lines (unlines [x; y; z])) else None.

(** A command of [cron] on a crontab, as its lines, and whether its status is zero. *)
Definition on_crontab (cmd : string) (tab : list string) : option (list string * bool) :=
  match strip_prefix "{ crontab -l 2>/dev/null | sed -e " cmd, strip_prefix "crontab -l 2>/dev/null | sed -e " cmd,
        strip_prefix "crontab -l 2>/dev/null | grep -q -e " cmd with
  | Some r, _, _ =>
      '(script, r) ← sh_word false r;
      '(b, e) ← read_range script;
      r ← strip_prefix "; printf '%s\n' " r;
      ls ← cron_text r;
      Some (sed_range b e false tab ++ ls, true)
  | _, Some r, _ =>
      '(script, r) ← sh_word false r;
      '(b, e) ← read_range script;
      if r == " | crontab -" then Some (sed_range b e false tab, true) else None
  | _, _, Some r =>
      '(p, r) ← sh_word false r;
      b ← read_anchored p;
      if r == EmptyString then Some (tab, existsb (bre b) tab) else None
  | None, None, None => None
  end.

(** ** Lemmas *)

Lemma bre_self s : bre s s = true.
Proof. induction s as [|c s IH]; [done|]. cbn [bre]. by rewrite (bool_decide_eq_true_2 (c = c)), orb_true_r. Qed.

Lemma sed_range_clean b e ls : forallb (fun l => negb (bre b l)) ls = true -> sed_range b e false ls = ls.
Proof.
  induction ls as [|l ls IH]; [done|]. cbn [forallb sed_range]. intros [Hl Hls]%andb_true_iff. apply negb_true_iff in Hl.
  by rewrite Hl, IH.
Qed.

Section Cron.
Context (debug_str : string -> string) (inst : string) (Hinst : all_bytes bre_char inst = true).

Lemma fence_plain a b : all_bytes bre_char a = true -> all_bytes bre_char b = true -> all_bytes bre_char (concats [a; inst; b]) = true.
Proof using Hinst. intros Ha Hb. by rewrite !concat_empty_cons, app_nil_s, !all_bytes_app, Ha, Hb, Hinst. Qed.

Lemma plain_no_dollar s : all_bytes bre_char s = true -> contains_char (chr 36) s = false.
Proof. by apply all_bytes_no. Qed.

Lemma read_range_of : read_range (cron_range inst) = Some (cron_begin inst, cron_end inst).
Proof using Hinst.
  assert (Hb : all_bytes bre_char (cron_begin inst) = true) by by apply fence_plain.
  assert (He : all_bytes bre_char (cron_end inst) = true) by by apply fence_plain.
  unfold read_range, cron_range. rewrite !concat_empty_cons. change (concats []) with EmptyString. rewrite app_nil_s, strip_prefix_app.
  cbn [mbind option_bind]. change ("$/,/^" +:+ ?x) with (String (chr 36) ("/,/^" +:+ x)).
  rewrite split_at_char_app by by apply plain_no_dollar. cbn [mbind option_bind]. rewrite strip_prefix_app. cbn [mbind option_bind].
  change "$/d" with (String (chr 36) "/d"). rewrite split_at_char_app by by apply plain_no_dollar. cbn [mbind option_bind].
  by rewrite Hb, He.
Qed.

Lemma read_anchored_of : read_anchored (concats ["^"; cron_begin inst; "$"]) = Some (cron_begin inst).
Proof using Hinst.
  assert (Hb : all_bytes bre_char (cron_begin inst) = true) by by apply fence_plain.
  unfold read_anchored. rewrite !concat_empty_cons. change (concats []) with EmptyString. rewrite app_nil_s, strip_prefix_app.
  cbn [mbind option_bind]. change "$" with (String (chr 36) EmptyString). rewrite split_at_char_app by by apply plain_no_dollar.
  cbn [mbind option_bind]. by rewrite Hb.
Qed.
End Cron.

Section CronCommands.
Context (debug_str : string -> string) (j : Job) (Hinst : all_bytes bre_char (jb_instance j) = true).

(** What [install] adds. *)
Definition cron_entry : list string := [cron_begin (jb_instance j); cron_line j; cron_end (jb_instance j)].

(** What [cron::strip] leaves of a crontab. *)
Definition stripped (tab : list string) : list string := sed_range (cron_begin (jb_instance j)) (cron_end (jb_instance j)) false tab.

Lemma quoted_word_before p w c sep rest : q debug_str p = Ok w -> sh_meta c = true ->
  sh_word false (w +:+ (String c sep +:+ rest)) = Some (p, String c sep +:+ rest).
Proof. intros Hw Hc. rewrite append_cons. by apply (quoted_word debug_str). Qed.

Lemma quoted_word_end p w : q debug_str p = Ok w -> sh_word false w = Some (p, EmptyString).
Proof. intros Hw. rewrite <- (app_nil_s w), (quoted_word_more _ _ _ _ Hw). cbn. by rewrite app_nil_s. Qed.

Lemma entry_lines : contains_char nl (cron_line j) = false -> nl_lines (unlines cron_entry) = cron_entry.
Proof using Hinst.
  intros Hl. assert (Hn : contains_char nl (jb_instance j) = false) by by apply (all_bytes_no bre_char).
  assert (Hf : forall a b, contains_char nl a = false -> contains_char nl b = false -> contains_char nl (concats [a; jb_instance j; b]) = false).
  { intros a b Ha Hb. by rewrite !concat_empty_cons, app_nil_s, !contains_char_app, Ha, Hb, Hn. }
  apply nl_lines_unlines. apply Forall_cons; split; [by apply Hf|]. apply Forall_cons; split; [done|].
  apply Forall_cons; split; [by apply Hf|done].
Qed.

Lemma install_does cmd tab : contains_char nl (cron_line j) = false -> cron_install_cmd debug_str j = Ok cmd ->
  on_crontab cmd tab = Some (stripped tab ++ cron_entry, true).
Proof using Hinst.
  intros Hl H. unfold cron_install_cmd, cron_strip in H. apply rbind_ok in H as (s & Hs & H). apply rbind_ok in Hs as (r & Hr & [= <-]).
  apply rbind_ok in H as (b & Hb & H). apply rbind_ok in H as (l & Hl' & H). apply rbind_ok in H as (e & He & [= <-]).
  unfold on_crontab. rewrite !concat_empty_cons, !app_assoc_s. change (concats []) with EmptyString. rewrite app_nil_s.
  change ("{ " +:+ ("crontab -l 2>/dev/null | sed -e " +:+ ?x)) with ("{ crontab -l 2>/dev/null | sed -e " +:+ x).
  rewrite strip_prefix_app. cbn [mbind option_bind].
  rewrite (quoted_word_before _ _ _ _ _ Hr) by done. cbn [mbind option_bind]. rewrite read_range_of by done. cbn [mbind option_bind].
  rewrite strip_prefix_app. cbn [mbind option_bind]. unfold cron_text.
  rewrite (quoted_word_before _ _ _ _ _ Hb) by done. cbn [mbind option_bind]. rewrite strip_prefix_app. cbn [mbind option_bind].
  rewrite (quoted_word_before _ _ _ _ _ Hl') by done. cbn [mbind option_bind]. rewrite strip_prefix_app. cbn [mbind option_bind].
  rewrite <- (app_nil_s "; } | crontab -"), (quoted_word_before _ _ _ _ _ He) by done.
  cbn [mbind option_bind]. rewrite bool_decide_eq_true_2 by done. fold cron_entry. cbn [mbind option_bind]. by rewrite entry_lines.
Qed.

Lemma disarm_does cmd tab : cron_disarm_cmd debug_str (jb_instance j) = Ok cmd -> on_crontab cmd tab = Some (stripped tab, true).
Proof using Hinst.
  intros H. unfold cron_disarm_cmd, cron_strip in H. apply rbind_ok in H as (s & Hs & [= <-]). apply rbind_ok in Hs as (r & Hr & [= <-]).
  unfold on_crontab. rewrite !app_assoc_s.
  change (strip_prefix "{ crontab -l 2>/dev/null | sed -e " ("crontab -l 2>/dev/null | sed -e " +:+ ?x)) with (@None string).
  rewrite strip_prefix_app, <- (app_nil_s " | crontab -"), (quoted_word_before _ _ _ _ _ Hr) by done. cbn [mbind option_bind]. by rewrite read_range_of.
Qed.

Lemma present_does cmd tab : cron_present_cmd debug_str (jb_instance j) = Ok cmd ->
  on_crontab cmd tab = Some (tab, existsb (bre (cron_begin (jb_instance j))) tab).
Proof using Hinst.
  intros H. unfold cron_present_cmd in H. apply rbind_ok in H as (r & Hr & [= <-]). unfold on_crontab.
  change (strip_prefix "{ crontab -l 2>/dev/null | sed -e " ("crontab -l 2>/dev/null | grep -q -e " +:+ ?x)) with (@None string).
  change (strip_prefix "crontab -l 2>/dev/null | sed -e " ("crontab -l 2>/dev/null | grep -q -e " +:+ ?x)) with (@None string).
  rewrite strip_prefix_app, (quoted_word_end _ _ Hr). cbn [mbind option_bind]. by rewrite read_anchored_of.
Qed.
End CronCommands.

(** ** The promise of a scheduler *)

(** A host whose executor has the commands of [cron] do to its crontab what they do. *)
Record CrontabLaws {W X : Type} `{!Executor W X} (tab : W -> list string) : Prop := mkCrontabLaws {
  cl_run x h i cmd w o t b : snd (ex_run x h i [run_cmd cmd] w) = Ok o -> on_crontab cmd (tab w) = Some (t, b) ->
    tab (fst (ex_run x h i [run_cmd cmd] w)) = t;
  cl_observe x h name cmd w o t b : snd (ex_observe x h (mkProbeRun name [run_cmd cmd]) w) = Ok o -> on_crontab cmd (tab w) = Some (t, b) ->
    tab (fst (ex_observe x h (mkProbeRun name [run_cmd cmd]) w)) = t /\ as_tri o = if b then Yes else No;
  cl_lock x h w : tab (fst (ex_host_lock x h w)) = tab w;
  cl_unlock x h w : tab (ex_unlock x h w) = tab w;
}.

Section Promise.
Context {W X : Type} `{!Executor W X} (tab : W -> list string) (Hlaws : CrontabLaws tab).
Context (debug_str : string -> string) (x : X) (h : EHost) (j : Job).
Context (Hinst : all_bytes bre_char (jb_instance j) = true) (Hline : contains_char nl (cron_line j) = false).

Lemma locked_run (mk : Exec string) (f : list string -> list string) w w' :
  (forall cmd t, mk = Ok cmd -> on_crontab cmd t = Some (f t, true)) ->
  locked x h (let! cmd := lift mk in run_unit x h (jb_instance j) cmd) w = (w', Ok tt) -> tab w' = f (tab w).
Proof using Hlaws.
  intros Hmk. unfold locked, mthen, lift, run_unit, mthen, mret. pose proof (cl_lock _ Hlaws x h w) as Hlock.
  destruct (ex_host_lock x h w) as [w1 [[]|e]]; [|done]. cbn [fst] in Hlock. destruct mk as [cmd|e]; [|done].
  pose proof (cl_run _ Hlaws x h (jb_instance j) cmd w1) as Hrun.
  destruct (ex_run x h (jb_instance j) [run_cmd cmd] w1) as [w2 [o|e]]; [|done]. intros [= <-]. cbn [fst snd] in Hrun.
  rewrite (cl_unlock _ Hlaws), (Hrun o (f (tab w1)) true) by (done || by apply Hmk). by rewrite Hlock.
Qed.

Lemma install_edits w w' : cron_install debug_str x h j w = (w', Ok tt) -> tab w' = stripped j (tab w) ++ cron_entry j.
Proof using Hlaws Hinst Hline. apply (locked_run _ (fun t => stripped j t ++ cron_entry j)). intros cmd t. by apply install_does. Qed.

Lemma disarm_edits w w' : cron_disarm debug_str x h j w = (w', Ok tt) -> tab w' = stripped j (tab w).
Proof using Hlaws Hinst. apply (locked_run _ (stripped j)). intros cmd t. by apply disarm_does. Qed.

Lemma present_tells w w' p : cron_present debug_str x h j w = (w', Ok p) ->
  p = if existsb (bre (cron_begin (jb_instance j))) (tab w) then Present else Absent.
Proof using Hlaws Hinst.
  unfold cron_present, probe_presence, mthen, lift, mret. destruct (cron_present_cmd debug_str (jb_instance j)) as [cmd|e] eqn:Hc; [|done].
  pose proof (cl_observe _ Hlaws x h ("cron entry for " +:+ jb_instance j) cmd w) as Ho.
  destruct (ex_observe x h _ w) as [w1 [o|e]]; [|done]. intros [= <- <-]. cbn [fst snd] in Ho.
  destruct (Ho o _ _ eq_refl (present_does debug_str j Hinst cmd (tab w) Hc)) as [_ ->]. by destruct (existsb _ _).
Qed.
End Promise.

(** A line that is [s] but for the characters where [s] has a dot. *)
Definition dots_aside (s l : string) : Prop := Forall2 (fun c d => c = dot \/ c = d) (String.list_ascii_of_string s) (String.list_ascii_of_string l).

Lemma bre_spec s l : bre s l = true <-> dots_aside s l.
Proof.
  unfold dots_aside. revert l. induction s as [|c s IH]; intros [|d l]; cbn [bre String.list_ascii_of_string].
  - by split.
  - by split; [|inversion 1].
  - by split; [|inversion 1].
  - rewrite andb_true_iff, orb_true_iff, !bool_decide_eq_true, IH. split; [intros []; by constructor|]. by inversion 1.
Qed.

Lemma no_bre s ls : Forall (fun l => ~ dots_aside s l) ls -> forallb (fun l => negb (bre s l)) ls = true.
Proof.
  induction 1 as [|l ls Hl Hls IH]; [done|]. cbn [forallb]. rewrite IH, andb_true_r. apply negb_true_iff, not_true_iff_false.
  by rewrite bre_spec.
Qed.

Lemma sed_range_keeps b e pre ls : forallb (fun l => negb (bre b l)) pre = true -> sed_range b e false (pre ++ ls) = pre ++ sed_range b e false ls.
Proof.
  induction pre as [|l pre IH]; [done|]. cbn [forallb sed_range app]. intros [Hl%negb_true_iff Hls]%andb_true_iff. by rewrite Hl, IH.
Qed.

Lemma sed_range_drops b e mid ls : forallb (fun l => negb (bre e l)) mid = true -> sed_range b e true (mid ++ e :: ls) = sed_range b e false ls.
Proof.
  induction mid as [|l mid IH]; cbn [forallb sed_range app]; [by rewrite bre_self|].
  intros [Hl Hls]%andb_true_iff. rewrite Hl. by apply IH.
Qed.

(** An entry of the instance as it may stand in a crontab: none, or one between its fences,
    whatever its lines. *)
Inductive old_entry (inst : string) : list string -> Prop :=
| NoEntry : old_entry inst []
| AnEntry mid : Forall (fun l => ~ dots_aside (cron_end inst) l) mid -> old_entry inst (cron_begin inst :: mid ++ [cron_end inst]).

(** A crontab but for its one entry. *)
Lemma strip_takes_the_entry j pre old post : old_entry (jb_instance j) old ->
  Forall (fun l => ~ dots_aside (cron_begin (jb_instance j)) l) (pre ++ post) -> stripped j (pre ++ old ++ post) = pre ++ post.
Proof.
  intros Hold [Hpre%no_bre Hpost%no_bre]%Forall_app. unfold stripped. rewrite sed_range_keeps by done. f_equal.
  destruct Hold as [|mid Hmid%no_bre]; [by apply sed_range_clean|]. cbn [app sed_range]. rewrite bre_self, <- app_assoc. cbn [app].
  rewrite sed_range_drops by done. by apply sed_range_clean.
Qed.

Lemma end_is_no_line j : bre (cron_end (jb_instance j)) (cron_line j) = false.
Proof. done. Qed.

(** C25. What [cron] promises of a crontab that has at most one entry of the instance, closed by
    its end line, and no other line that reads as the instance's begin line when the dots of
    the id stand for any character: an [install] that answers takes the old entry out, puts
    the new one of three lines at the end and leaves every other line where it was, and
    [present] says it is there; the [disarm] that follows takes it out again, so that the
    other lines are what is left, and [present] says it is absent. (Of an entry that is not
    closed, and of an id that is another's but for a dot, the examples below.) *)
Theorem cron_keeps_its_promise {W X : Type} `{!Executor W X} (tab : W -> list string) (debug_str : string -> string)
    (x : X) (h : EHost) (j : Job) (w w1 w2 : W) (pre old post : list string)
    (Hlaws : CrontabLaws tab) (Hinst : all_bytes bre_char (jb_instance j) = true) (Hline : contains_char nl (cron_line j) = false)
    (Htab : tab w = pre ++ old ++ post) (Hold : old_entry (jb_instance j) old)
    (Hothers : Forall (fun l => ~ dots_aside (cron_begin (jb_instance j)) l) (pre ++ post))
    (Hinstall : cron_install debug_str x h j w = (w1, Ok tt)) (Hdisarm : cron_disarm debug_str x h j w1 = (w2, Ok tt)) :
  tab w1 = pre ++ post ++ [cron_begin (jb_instance j); cron_line j; cron_end (jb_instance j)]
  /\ (forall w' p, cron_present debug_str x h j w1 = (w', Ok p) -> p = Present)
  /\ tab w2 = pre ++ post
  /\ (forall w' p, cron_present debug_str x h j w2 = (w', Ok p) -> p = Absent).
Proof.
  apply (install_edits tab Hlaws) in Hinstall; [|done..]. apply (disarm_edits tab Hlaws) in Hdisarm; [|done].
  rewrite Htab, strip_takes_the_entry, <- app_assoc in Hinstall by done.
  assert (Hdone : tab w2 = pre ++ post).
  { rewrite Hdisarm, Hinstall. change (cron_entry j) with (cron_begin (jb_instance j) :: [cron_line j] ++ [cron_end (jb_instance j)]).
    rewrite (app_assoc pre), <- (app_nil_r (cron_begin _ :: _)), strip_takes_the_entry; rewrite ?app_nil_r; try done.
    constructor. constructor; [|done]. intros H%bre_spec. revert H. by rewrite end_is_no_line. }
  split_and!; [done| |done|].
  - intros w' p ->%(present_tells tab Hlaws); [|done]. rewrite Hinstall, !existsb_app. cbn [cron_entry existsb].
    by rewrite bre_self, !orb_true_r.
  - intros w' p ->%(present_tells tab Hlaws); [|done]. rewrite Hdone. apply no_bre in Hothers.
    destruct (existsb _ _) eqn:He; [|done]. apply existsb_exists in He as (l & Hl & Hm).
    apply (proj1 (forallb_forall _ _) Hothers) in Hl. by rewrite Hm in Hl.
Qed.

(** ** A host with a crontab *)

Definition cron_world_run (body : list RPrim) (t : list string) : list string * option bool :=
  match body with
  | [RRun c [] None] => match on_crontab (rv_text c) t with Some (t', b) => (t', Some b) | None => (t, None) end
  | _ => (t, None)
  end.

#[export] Instance cron_world : Executor (list string) unit := {|
  ex_locus _ _ := LkSsh;
  ex_capabilities _ _ := mkExecCaps true true;
  ex_run _ _ _ body t := match cron_world_run body t with
                         | (t', Some true) => (t', Ok output_default)
                         | (t', _) => (t', Err (ExFailed "exit 1: "))
                         end;
  ex_observe _ _ p t := match cron_world_run (pr_body p) t with
                        | (t', Some b) => (t', Ok (mkObservation EmptyString (Some (if b then Yes else No))))
                        | (t', None) => (t', Err ExSilent)
                        end;
  ex_read_fact _ _ _ := mret None;
  ex_bootstrap_state _ _ := mret (mkBootstrapState true true true true true);
  ex_clock_now _ _ := mret None;
  ex_instance_dir_create _ _ _ := mret tt;
  ex_instance_dir_remove _ _ _ := mret tt;
  ex_instance_dir_list _ _ := mret [];
  ex_put_file _ _ _ _ _ _ := mret tt;
  ex_replace_file _ _ _ _ _ := mret tt;
  ex_get_file _ _ _ _ := mret EmptyString;
  ex_remove_file _ _ _ _ := mret tt;
  ex_host_lock _ _ := mret tt;
  ex_unlock _ _ t := t;
|}.

Lemma cron_world_laws : CrontabLaws (fun t : list string => t).
Proof.
  split; [| |done|done]; cbn; intros x h i cmd w o t b Ho Hc; rewrite ?Hc in *; [by destruct b|]. simplify_eq/=. by destruct b.
Qed.

Definition demo_job (inst : string) : Job := mkJob inst (concats ["/var/db/rescind/instances/"; inst; "/artifact.sh"]) Sh "freebsd".

Definition demo_crontab : list string := ["0 5 * * * backup"; cron_begin "db.ann.11111111"; "* * * * * /bin/sh x"; cron_end "db.ann.11111111"].

Definition demo_cron_host : EHost := mkEHost (mkHostRecord "api" "freebsd" [] true true None) EmptyString None None ∅.

Lemma cron_keeps_its_promise_witness :
  let j := demo_job "web.ann.00000000" in
  let old := [cron_begin "web.ann.00000000"; "* * * * * /bin/sh old"; cron_end "web.ann.00000000"] in
  let w1 := demo_crontab ++ ["0 6 * * * report"] ++ cron_entry j in
  cron_install (fun s => s) tt demo_cron_host j (demo_crontab ++ old ++ ["0 6 * * * report"]) = (w1, Ok tt)
  /\ cron_disarm (fun s => s) tt demo_cron_host j w1 = (demo_crontab ++ ["0 6 * * * report"], Ok tt)
  /\ (forall w' p, cron_present (fun s => s) tt demo_cron_host j w1 = (w', Ok p) -> p = Present).
Proof.
  intros j old w1.
  assert (H1 : cron_install (fun s => s) tt demo_cron_host j (demo_crontab ++ old ++ ["0 6 * * * report"]) = (w1, Ok tt)) by by vm_compute.
  assert (H2 : cron_disarm (fun s => s) tt demo_cron_host j w1 = (demo_crontab ++ ["0 6 * * * report"], Ok tt)) by by vm_compute.
  assert (Hno : forall s ls, forallb (fun l => negb (bre s l)) ls = true -> Forall (fun l => ~ dots_aside s l) ls).
  { intros s ls H. apply Forall_forall. intros l Hl%list_elem_of_In. apply (proj1 (forallb_forall _ _) H) in Hl. rewrite <- bre_spec.
    by destruct (bre s l). }
  destruct (cron_keeps_its_promise (fun t => t) (fun s => s) tt demo_cron_host j _ _ _ demo_crontab old ["0 6 * * * report"] cron_world_laws
              eq_refl eq_refl eq_refl (AnEntry (jb_instance j) ["* * * * * /bin/sh old"] (Hno (cron_end (jb_instance j)) ["* * * * * /bin/sh old"] eq_refl))
              (Hno (cron_begin (jb_instance j)) (demo_crontab ++ ["0 6 * * * report"]) eq_refl) H1 H2) as (_ & H3 & _).
  split; [exact H1|split; [exact H2|exact H3]].
Defined.

(** ** What goes wrong *)

(** The range of [sed] has no end where the end line is gone: every line behind the begin
    line goes with it, what is not rescind's too. *)
Example open_entry_takes_the_rest :
  stripped (demo_job "web.ann.00000000") [cron_begin "web.ann.00000000"; "0 5 * * * backup"; "0 6 * * * report"] = [].
Proof. reflexivity. Qed.

(** An instance's id has dots, and a dot of the pattern is any character: the entry of another
    instance is taken for its own. *)
Example dot_takes_another_entry :
  stripped (demo_job "fix.web.1.00000000") (cron_entry (demo_job "fix.web-1.00000000")) = [].
Proof. reflexivity. Qed.

(** A path with a blank is two arguments of the property list, and a character of XML stands
    in it as it is. *)
Example plist_splits_a_path :
  contains_str (concats ["<string>/opt/a</string>"; newline; "    <string>b&c/artifact.sh</string>"])
    (plist "i" (job_command (mkJob "i" "/opt/a b&c/artifact.sh" Sh "macos"))) = true.
Proof. by vm_compute. Qed.

(** ** The built-in bindings of the daemon ([bindings/src/secrets.rs], [journal.rs], [notify.rs], [approval.rs])

    The source of secrets that reads a file, the two sinks of the journal, the notifier on
    standard output and the approval that opens every gate. What they ask of the system is
    [LocalHost.Os]; what serde and [toml] make of a value is a parameter. *)

(** 0o077, 0o7777 *)
Definition OTHERS : N := 63.
Definition MODE_BITS : N := 4095.

(** [{:04o}] *)
Definition octal4 (n : N) : string :=
  let s := octal_number n in concats (replicate (4 - String.length s) "0") +:+ s.

Section BuiltIns.
Context {W : Type} `{!Os W}.
(** [toml::from_str] of a table of texts, [serde_json::to_vec] of an entry. *)
Context (toml_table : string -> Result (gmap string string) string) (entry_to_vec : Entry -> Result string string).

(** ** file() *)

Record FileSource := mkFileSource { fs_path : string }.

Definition failed_at {A} (path : string) (e : string) : Exec A := Err (ExFailed (concats [path; ": "; e])).

Definition refuse_if_readable_by_others (s : FileSource) : W -> W * Exec unit :=
  fun w => let '(w, r) := os_metadata (fs_path s) w in
  (w, match r with
      | Err e => failed_at (fs_path s) (ie_text e)
      | Ok mode =>
          if negb (N.land mode OTHERS =? 0)%N then
            Err (ExFailed (concats [fs_path s; " is mode "; octal4 (N.land mode MODE_BITS);
                                    ": a secrets file readable by group or other is not a secret"]))
          else Ok tt
      end).

(** [std::fs::read_to_string] *)
Definition read_to_string (path : string) : W -> W * Result string string :=
  fun w => let '(w, r) := os_read path w in
  (w, match r with
      | Err e => Err (ie_text e)
      | Ok b => match from_utf8 b with Some t => Ok t | None => Err "stream did not contain valid UTF-8" end
      end).

Definition file_resolve (s : FileSource) (reference : string) : W -> W * Exec string :=
  do! refuse_if_readable_by_others s in
  fun w => let '(w, r) := read_to_string (fs_path s) w in
  (w, match r with
      | Err e => failed_at (fs_path s) e
      | Ok text =>
          match toml_table text with
          | Err e => failed_at (fs_path s) e
          | Ok table =>
              match table !! reference with
              | Some v => Ok v
              | None => Err (ExFailed (concats [fs_path s; " holds no secret named "; reference]))
              end
          end
      end).

#[export] Instance file_source : Source W FileSource := {| so_resolve := file_resolve |}.

(** ** The sinks *)

Definition line_of (e : Entry) : Result string string := let? line := entry_to_vec e in Ok (line +:+ newline).

Record FileSink := mkFileSink { fk_path : string }.

Definition file_sink_name (s : FileSink) : string := concats ["file("; fk_path s; ")"].

(** What a sink answers: [None] where it acknowledges. *)
Definition written_to (name : string) (write : string -> W -> W * Io unit) (e : Entry) : W -> W * option string :=
  fun w =>
    match line_of e with
    | Err x => (w, Some x)
    | Ok line => let '(w, r) := write line w in (w, match r with Ok _ => None | Err x => Some (concats [name; ": "; ie_text x]) end)
    end.

Definition file_deliver (s : FileSink) (e : Entry) : W -> W * option string := written_to (fk_path s) (os_append (fk_path s)) e.

Definition stdout_sink_name : string := "stdout()".

Definition stdout_deliver (e : Entry) : W -> W * option string := written_to "stdout" os_print e.

(** ** stdout() and always() *)

Inductive Stdout := StdoutBinding.

Definition notice (level : Level) (subject body : string) : string :=
  concats ["rescind "; level_word level; ": "; subject; ": "; body; newline].

#[export] Instance stdout_notify : Notify W Stdout := {|
  nt_deliver _ level subject body w := let '(w, r) := os_print (notice level subject body) w in (w, io r)
|}.

Inductive Always := AlwaysBinding.

#[export] Instance always_approval : Approval W Always := {|
  ap_authenticators _ := mret [];
  ap_challenge _ _ := mret "always(): no proof is asked for";
  ap_verify _ _ := mret (mkVerified true "always()");
  ap_approves_everything _ _ := true;
|}.
End BuiltIns.

(** ** Properties *)

(** A secret is read only from a file that its group and the others have no right on, and it is
    what the file holds under that name: a name it does not hold is refused, never blank. *)
Theorem file_source_is_private {W : Type} `{!Os W} (toml_table : string -> Result (gmap string string) string)
    (s : FileSource) (reference v : string) (w w' : W)
    (Hok : file_resolve toml_table s reference w = (w', Ok v)) :
  exists w1 mode text table, os_metadata (fs_path s) w = (w1, Ok mode) /\ N.land mode OTHERS = 0%N
  /\ os_read (fs_path s) w1 = (w', Ok text) /\ utf8_valid text = true /\ toml_table text = Ok table /\ table !! reference = Some v.
Proof.
  unfold file_resolve, mthen, refuse_if_readable_by_others in Hok. destruct (os_metadata (fs_path s) w) as [w1 [mode|e]] eqn:Hm; [|done].
  destruct (N.land mode OTHERS =? 0)%N eqn:Hbits; cbn [negb] in Hok; [|done]. unfold read_to_string in Hok.
  destruct (os_read (fs_path s) w1) as [w2 [b|e]] eqn:Hr; [|done]. destruct (from_utf8 b) as [text|] eqn:Hu; [|done].
  apply from_utf8_Some in Hu as Hb. destruct Hb as [-> _]. destruct (toml_table b) as [table|e] eqn:Ht; [|done].
  destruct (table !! reference) as [x|] eqn:Hx; [|done]. injection Hok as <- <-. exists w1, mode, b, table. split_and!; try done.
  - by apply N.eqb_eq.
  - unfold from_utf8 in Hu. by destruct (utf8_valid b).
Qed.

Section Sinks.
Context {W : Type} `{!Os W} (content : W -> string -> option string) (entry_to_vec : Entry -> Result string string).

(** An append that answers has put its bytes behind those that were there. *)
Definition AppendLaw : Prop := forall path bytes w w',
  os_append path bytes w = (w', Ok tt) -> content w' path = Some (default EmptyString (content w path) +:+ bytes).

Fixpoint deliver_each (s : FileSink) (es : list Entry) (w : W) : W * list (option string) :=
  match es with
  | [] => (w, [])
  | e :: r => let '(w, a) := file_deliver entry_to_vec s e w in let '(w, rest) := deliver_each s r w in (w, a :: rest)
  end.

(** What a file sink acknowledges is in the file: an entry to a line, in their order, behind
    what the file held. *)
Theorem file_sink_keeps_what_it_acknowledges (Hlaw : AppendLaw) (s : FileSink) (es : list Entry) (w w' : W) (answers : list (option string))
    (Hrun : deliver_each s es w = (w', answers)) (Hack : Forall (fun a => a = None) answers) :
  exists ls, collect_results (line_of entry_to_vec) es = Ok ls
  /\ default EmptyString (content w' (fk_path s)) = default EmptyString (content w (fk_path s)) +:+ concats ls.
Proof.
  revert w answers Hrun Hack. induction es as [|e es IH]; intros w answers Hrun Hack; cbn [deliver_each] in Hrun.
  - injection Hrun as <- <-. exists []. split; [done|]. change (concats []) with EmptyString. by rewrite app_nil_s.
  - destruct (file_deliver entry_to_vec s e w) as [w1 a] eqn:Hd. destruct (deliver_each s es w1) as [w2 rest] eqn:Hr.
    injection Hrun as -> <-. apply Forall_cons in Hack as [-> Hack]. destruct (IH _ _ Hr Hack) as (ls & Hls & Hc).
    unfold file_deliver, written_to in Hd. cbn [collect_results]. destruct (line_of entry_to_vec e) as [line|x]; [|done].
    destruct (os_append (fk_path s) line w) as [w3 [[]|x]] eqn:Ha; [|done]. injection Hd as ->. apply Hlaw in Ha.
    rewrite Hls. exists (line :: ls). split; [done|]. rewrite Hc, Ha. cbn [from_option]. unfold id. by rewrite concat_empty_cons, app_assoc_s.
Qed.
End Sinks.

(** ** On the machine *)

Definition demo_table (text : string) : Result (gmap string string) string :=
  if text == "db = s3cr3t" then Ok {["db" := "s3cr3t"]} else Err "expected an equals".

Definition demo_secrets : Machine := mkMachine {["/etc/secrets.toml" := "db = s3cr3t"]} (mkEnded None EmptyString EmptyString) false.

Lemma file_source_is_private_witness :
  exists w1 mode text table, file_resolve demo_table (mkFileSource "/etc/secrets.toml") "db" demo_secrets = (demo_secrets, Ok "s3cr3t")
  /\ os_metadata "/etc/secrets.toml" demo_secrets = (w1, Ok mode) /\ N.land mode OTHERS = 0%N
  /\ demo_table text = Ok table /\ table !! "db" = Some "s3cr3t".
Proof.
  assert (Hok : file_resolve demo_table (mkFileSource "/etc/secrets.toml") "db" demo_secrets = (demo_secrets, Ok "s3cr3t")) by by vm_compute.
  destruct (file_source_is_private demo_table (mkFileSource "/etc/secrets.toml") "db" "s3cr3t" demo_secrets demo_secrets Hok)
    as (w1 & mode & text & table & H1 & H2 & _ & _ & H3 & H4).
  exists w1, mode, text, table. by split_and!.
Defined.

Lemma machine_appends : AppendLaw machine_content.
Proof.
  intros path bytes w w'. unfold machine_content. cbn. destruct (mc_full w); [done|]. intros [= <-]. cbn. by rewrite lookup_insert_eq.
Qed.

Definition demo_to_vec (e : Entry) : Result string string := Ok (show (en_seq e)).

Lemma file_sink_keeps_what_it_acknowledges_witness :
  let s := mkFileSink "/var/log/j" in
  exists ls, collect_results (line_of demo_to_vec) [demo_first] = Ok ls
  /\ default EmptyString (machine_content (fst (deliver_each demo_to_vec s [demo_first] demo_secrets)) "/var/log/j") = concats ls.
Proof.
  destruct (file_sink_keeps_what_it_acknowledges machine_content demo_to_vec machine_appends (mkFileSink "/var/log/j") [demo_first] demo_secrets
    (fst (deliver_each demo_to_vec (mkFileSink "/var/log/j") [demo_first] demo_secrets)) [None]) as (ls & Hls & Hc).
  - by vm_compute.
  - by repeat constructor.
  - exists ls. split; [exact Hls|exact Hc].
Defined.
