(* ===== verification/DaemonSite.v ===== *)
(** * What the daemon makes of a site, and how it starts ([daemon/src/run.rs])

    The site block names bindings; the daemon turns each into the thing the engine calls: a
    sink, a signer, an executor, a scheduler, an approval, a source, an acceptor, a notifier.
    What a binding becomes is data here, one constructor for each type the source boxes. A
    site the resolver lets stand is one the daemon can bind ([standing_site_binds]). Then
    [run_until] up to the end of boot. *)

From Stdlib Require Import Ascii.
From stdpp Require Import base strings pretty numbers option list gmap sets relations.
From S2P Require Import Prelude Monad Ordered Model Lexer Parser Tree ParserEnds Ast StaticValue Site Program Journal Resolve HookProto HookAdapters Control States.
From S2P Require Import Ledger EngineJournal Executor Instance Engine Hosts Verbs Reap Upkeep EngineLogic Fakes Refine Json Hook Authority.

Inductive DaemonRefusal := RfUsage (s : string) | RfRefused (s : string).

Definition refused {A} (s : string) : Result A DaemonRefusal := Err (RfRefused s).

(** ** What a binding becomes *)

Inductive SinkB := SubscriberB | FileB (path : string) | StdoutB | HookSinkB (s : HookSink).
Inductive ApprovalB := AlwaysB | HookApprovalB (a : HookApproval).
Inductive AcceptorB := RequesterB | HoldB (h : Hold) | HookAcceptorB (a : HookAcceptor).
Inductive SourceB := FileSourceB (path : string) | HookSourceB (s : HookSource).
Inductive NotifyB := StdoutNotifyB | HookNotifyB (n : HookNotify).
Inductive SchedulerB := CronB | TaskSchedulerB | LaunchdB | HookSchedulerB (s : HookScheduler).
Inductive ExecutorB := LocalB | SshB (identity known_hosts user : string) | HookExecutorB (x : HookExecutor).

Definition arg_or_empty (b : Binding) : string := default EmptyString (bd_arg b).

(** [b.kws.iter().find(|(k, _)| k == name)] *)
Definition kw (b : Binding) (name : string) : option string := snd <$> List.find (fun e => fst e == name) (bd_kws b).

(** [val.trim_end_matches('s')] *)
Fixpoint trim_end_s (s : string) : string :=
  match s with
  | EmptyString => EmptyString
  | String c r => let r := trim_end_s r in if (c == chr 115) && (r == EmptyString) then EmptyString else String c r
  end.

(** [parse::<u64>()]: a plus sign may stand before the digits. *)
Definition parse_seconds (s : string) : option N :=
  match s with
  | String c r => if c == chr 43 then parse_u64 r else parse_u64 s
  | EmptyString => None
  end.

Section Bindings.
Context (decl : SiteDecl) (dir : string) (deadline : N) (dry_run : bool).
(** [Path::is_file] and [Signer::load]. *)
Context (is_file : string -> bool) {Sg : Type} (signer_load : string -> Result Sg string).

Definition sink_of (b : Binding) : Result (list SinkB) DaemonRefusal :=
  if bd_kind b == "local" then Ok []
  else if bd_kind b == "file" then Ok [FileB (Site.path_join dir (arg_or_empty b))]
  else if bd_kind b == "stdout" then Ok [StdoutB]
  else if bd_kind b == "hook" then Ok [HookSinkB (mkHookSink (arg_or_empty b) deadline)]
  else refused (concats ["journal to: "; bd_kind b; "() is not a sink"]).

Definition sinks_of : Result (list SinkB) DaemonRefusal :=
  let? v := collect_results sink_of (d_journal decl) in Ok (SubscriberB :: concat v).

Definition signer_of : Result (option Sg) DaemonRefusal :=
  match d_journal_sign decl with
  | Some b => match signer_load (Site.path_join dir (arg_or_empty b)) with Ok s => Ok (Some s) | Err e => refused e end
  | None => Ok None
  end.

Definition approval_of : Result (option ApprovalB) DaemonRefusal :=
  match d_approval decl with
  | None => Ok None
  | Some b =>
      if bd_kind b == "always" then
        if negb dry_run then refused "approval via: always() opens every gate without a proof; rescindd admits it only with --dry-run"
        else Ok (Some AlwaysB)
      else if bd_kind b == "hook" then Ok (Some (HookApprovalB (mkHookApproval (arg_or_empty b) deadline)))
      else refused (concats ["approval via: "; bd_kind b; "() is not an approval binding"])
  end.

(** The own bound of a [hold]: seconds, with or without their unit. *)
Definition hold_bound (b : Binding) : option Duration := v ← kw b "until"; parse_seconds (trim_end_s v).

Definition acceptor_of (b : Binding) : Result AcceptorB DaemonRefusal :=
  if bd_kind b == "requester" then Ok RequesterB
  else if bd_kind b == "hold" then Ok (HoldB (hold_new (hold_bound b)))
  else if bd_kind b == "hook" then Ok (HookAcceptorB (mkHookAcceptor (arg_or_empty b) deadline))
  else refused (concats ["secrets deliver_to: "; bd_kind b; "() is not an acceptor"]).

Definition acceptors_of : Result (list AcceptorB) DaemonRefusal := collect_results acceptor_of (d_deliver_to decl).

Definition source_of : Result (option SourceB) DaemonRefusal :=
  match d_secrets_from decl with
  | None => Ok None
  | Some b =>
      if bd_kind b == "file" then
        match bd_arg b with
        | Some rel => Ok (Some (FileSourceB (Site.path_join dir rel)))
        | None => refused "secrets from: file() needs a path"
        end
      else if bd_kind b == "hook" then Ok (Some (HookSourceB (mkHookSource (arg_or_empty b) deadline)))
      else refused (concats ["secrets from: "; bd_kind b; "() is not a secret source"])
  end.

Definition notify_of : Result (option NotifyB) DaemonRefusal :=
  match d_notify decl with
  | None => Ok None
  | Some b =>
      if bd_kind b == "stdout" then Ok (Some StdoutNotifyB)
      else if bd_kind b == "hook" then Ok (Some (HookNotifyB (mkHookNotify (arg_or_empty b) deadline)))
      else refused (concats ["notify via: "; bd_kind b; "() is not a notify binding"])
  end.

Definition schedulers_of : Result (list SchedulerB) DaemonRefusal :=
  if dry_run then Ok []
  else
    match d_scheduler decl with
    | None => Ok []
    | Some b =>
        if bd_kind b == "cron" then Ok [CronB]
        else if bd_kind b == "task_scheduler" then Ok [TaskSchedulerB]
        else if bd_kind b == "launchd" then Ok [LaunchdB]
        else if bd_kind b == "hook" then Ok [HookSchedulerB (mkHookScheduler (arg_or_empty b) deadline)]
        else refused (concats ["backstop scheduler: "; bd_kind b; "() is not a scheduler"])
    end.

Definition scheduler_name : string :=
  match d_scheduler decl with
  | Some b => if bd_kind b == "hook" then arg_or_empty b else bd_kind b
  | None => "cron"
  end.

Definition executor_of (b : Binding) : Result (list ExecutorB) DaemonRefusal :=
  if bd_kind b == "hook" then Ok [HookExecutorB (mkHookExecutor (arg_or_empty b) (default EmptyString (kw b "transport")) deadline)]
  else if bd_kind b == "ssh" then
    match kw b "identity" with
    | None => refused "ssh() names its identity"
    | Some i =>
        match kw b "known_hosts" with
        | None => refused "ssh() names its known_hosts"
        | Some k =>
            let identity := Site.path_join dir i in
            if negb (is_file identity) then refused (concats ["ssh() identity "; identity; " is not a file"])
            else Ok [SshB identity (Site.path_join dir k) (default "root" (kw b "user"))]
        end
    end
  else if bd_kind b == "local" then Ok []
  else refused (concats ["execute via: "; bd_kind b; "() is not an executor"]).

(** The controller's own executor is always there. *)
Definition executors_of : Result (list ExecutorB) DaemonRefusal :=
  if dry_run then Ok []
  else let? v := collect_results executor_of (d_execute decl) in Ok (LocalB :: concat v).

Definition operators_of : Operators :=
  mkOperators
    (map (fun i => mkOperator (id_name i) (user_spec_parse (default EmptyString (id_user i))) (id_operator_for i) (id_admin i) (id_subscribe i))
       (d_identities decl))
    (map (fun r => mkRegistrarDecl (Site.rg_name r) (user_spec_parse (default EmptyString (rg_user r))) (rg_may_register r)) (d_registrars decl))
    dry_run.

(** The hooks that are asked before the socket is served. *)
Definition is_hook (b : Binding) : bool := bd_kind b == "hook".

Definition boot_time_hooks : list (string * string) :=
  match d_inventory decl with Some b => if is_hook b then [("inventory from", arg_or_empty b)] else [] | None => [] end
  ++ map (fun b => ("journal to", arg_or_empty b)) (List.filter is_hook (d_journal decl)).

Definition hook_inventory_name (named_a_record : bool) : option string :=
  if named_a_record then None
  else b ← d_inventory decl; if is_hook b then Some (arg_or_empty b) else None.
End Bindings.

(** ** The hosts of the inventory *)

Definition host_of (sb : SiteBindings) (r : HostRecord) : EHost :=
  let c := List.find (fun c => ct_name c == hr_name r) (inv_contracts (sb_inventory sb)) in
  let facts := match c with
               | Some c => if negb (bool_decide (ct_roles c = [])) then {["roles" := join "," (ct_roles c)]} else ∅
               | None => ∅
               end in
  mkEHost r (match c with Some c => ct_address c | None => EmptyString end)
    (if bool_decide (hr_name r ∈ inv_scheduled (sb_inventory sb)) then Some (scheduler_name (sb_decl sb)) else None)
    (c ← c; ct_rescind_root c) facts.

Definition hosts_of (sb : SiteBindings) : list EHost := map (host_of sb) (inv_hosts (sb_inventory sb)).

(** ** The slot of a declared binding *)

(** A binding that stands on the line of its slot, its path read where it has one. *)
Definition in_slot (slot : string) (b : Binding) : Prop := bd_slot b = slot /\ (bd_arg_kind b = ArgStr -> is_Some (bd_arg b)).

Record slotted (d : SiteDecl) : Prop := mkSlotted {
  sl_journal : Forall (fun b => in_slot "journal" b /\ bd_kind b <> "key") (d_journal d);
  sl_approval : forall b, d_approval d = Some b -> in_slot "approval" b;
  sl_source : forall b, d_secrets_from d = Some b -> in_slot "secrets_from" b;
  sl_acceptors : Forall (in_slot "deliver_to") (d_deliver_to d);
  sl_execute : Forall (in_slot "execute") (d_execute d);
  sl_scheduler : forall b, d_scheduler d = Some b -> in_slot "scheduler" b;
  sl_notify : forall b, d_notify d = Some b -> in_slot "notify" b;
}.

Lemma binding_arg_read args b : (bd_arg_kind b = ArgStr -> is_Some (bd_arg b)) ->
  bd_arg_kind (foldl binding_arg b args) = ArgStr -> is_Some (bd_arg (foldl binding_arg b args)).
Proof.
  revert b. induction args as [|a args IH]; intros b Hb; [done|]. cbn [foldl]. apply IH.
  destruct a as [[r n [k|x]]|x]; cbn [binding_arg]; [done|by destruct (atom_or_str x)|].
  cbn [bd_arg_kind bd_arg]. unfold arg_kind_of, atom_or_str. destruct x; try done. by case_match.
Qed.

Lemma bindings_of_in_slot slot a : Forall (in_slot slot) (bindings_of slot a).
Proof.
  set (Q a := Forall (in_slot slot) (bindings_of slot a)). revert a.
  apply (arg_induction (fun e => Q (AExpr e)) Q); unfold Q; cbn; try done.
  - intros r p l _. constructor; [|done]. split; [by rewrite binding_arg_slot|by apply binding_arg_read].
  - intros r l Hl. induction Hl as [|a l Ha _ IH]; [done|]. by apply Forall_app.
Qed.

Lemma line_bindings_in_slot slot args : Forall (in_slot slot) (concat (map (bindings_of slot) args)).
Proof. induction args as [|a args IH]; cbn; [done|]. apply Forall_app. by split; [apply bindings_of_in_slot|]. Qed.

Lemma head_in_slot slot bs b : Forall (in_slot slot) bs -> head bs = Some b -> in_slot slot b.
Proof. intros H Hb. destruct bs; [done|]. injection Hb as ->. by inversion H. Qed.

Lemma declare_line_slotted d l : slotted d -> slotted (declare_line d l).
Proof.
  intros Hd. unfold declare_line. cbv zeta. pose proof (line_bindings_in_slot (line_slot l) (line_args l)) as Hl.
  destruct Hd as [H1 H2 H3 H4 H5 H6 H7].
  repeat (case_bool_decide as Hs; [rewrite ?Hs in Hl |- *; constructor; cbn; try done; try (intros b; by apply head_in_slot)|clear Hs]); try done.
  apply Forall_app. split; [done|]. apply Forall_forall. intros b [Hb Hk]%elem_of_lfilter.
  split; [eapply Forall_forall in Hl; [exact Hl|exact Hb]|]. intros He. unfold is_key in Hk. by rewrite He in Hk.
Qed.

Lemma declare_slotted block : slotted (declare block).
Proof.
  unfold declare. apply foldl_invariant; [|by constructor; try constructor]. intros d st Hd.
  destruct st as [l|b| | | | | | | | | | |]; try exact Hd; [by apply declare_line_slotted|]. cbn [declare_stmt].
  assert (Hi : forall d l, slotted d -> slotted (declare_identity d l)).
  { intros d' l [H1 H2 H3 H4 H5 H6 H7]. unfold declare_identity. case_bool_decide; [|done]. by constructor. }
  assert (Hr : forall d l, slotted d -> slotted (declare_registrar d l)).
  { intros d' l [H1 H2 H3 H4 H5 H6 H7]. unfold declare_registrar. case_bool_decide; [|done]. by constructor. }
  repeat case_bool_decide; try done; by apply foldl_invariant.
Qed.

(** ** A site that stands is bound *)

Lemma collect_results_total {A B E} (f : A -> Result B E) l : Forall (fun x => exists y, f x = Ok y) l -> exists ys, collect_results f l = Ok ys.
Proof. induction 1 as [|x l [y Hy] _ [ys Hys]]; [by exists []|]. exists (y :: ys). cbn. by rewrite Hy, Hys. Qed.

Lemma collect_results_fault {A B E} (f : A -> Result B E) l e : collect_results f l = Err e -> exists x, x ∈ l /\ f x = Err e.
Proof.
  induction l as [|x l IH]; [done|]. cbn. destruct (f x) as [y|e'] eqn:Hx; cbn [rbind].
  - destruct (collect_results f l); [done|]. intros [= ->]. destruct (IH eq_refl) as (z & Hz & He). exists z. split; [by right|done].
  - intros [= ->]. exists x. split; [by left|done].
Qed.

Lemma kw_declared b name : name ∈ map fst (bd_kws b) -> is_Some (kw b name).
Proof.
  intros Hn. unfold kw. apply fmap_is_Some. apply list_elem_of_In, in_map_iff in Hn as (kv & Hf & Hin).
  destruct (List.find _ _) eqn:Hx; [done|]. eapply List.find_none in Hx; [|exact Hin]. cbn in Hx. by rewrite Hf, bool_decide_eq_true_2 in Hx.
Qed.

(** The kinds of a line that stands, one by one. *)
Ltac kinds_of Hs Hk :=
  rewrite Hs in Hk; match type of Hk with _ ∈ ?k => let l := eval vm_compute in k in change k with l in Hk end;
  rewrite ?elem_of_cons, ?elem_of_nil in Hk; repeat match type of Hk with _ \/ _ => destruct Hk as [Hk|Hk] end; try done; rewrite ?Hk.

Section Stands.
Context (block : Block) (decl : SiteDecl) (Hdecl : decl = declare block) (Hstands : site_stands decl).
Context (dir : string) (deadline : N) (dry_run : bool) (is_file : string -> bool).

Lemma declared_stands b : b ∈ all_bindings decl -> binding_stands decl b.
Proof using Hstands. intros Hb. pose proof (ss_bindings _ Hstands) as H. by eapply Forall_forall in H. Qed.

Lemma sinks_bind : exists v, sinks_of decl dir deadline = Ok v.
Proof using Hstands Hdecl.
  destruct (declare_slotted block) as [Hj _ _ _ _ _ _]. rewrite <- Hdecl in Hj. unfold sinks_of.
  destruct (collect_results_total (sink_of dir deadline) (d_journal decl)) as [v ->]; [|by eexists].
  apply Forall_forall. intros b Hb. eapply Forall_forall in Hj as [[Hs _] Hkey]; [|exact Hb].
  destruct (declared_stands b) as [Hk _ _ _ _ _ _ _]; [clear -Hb; unfold all_bindings; set_solver|].
  unfold sink_of. kinds_of Hs Hk; first [by eexists|congruence].
Qed.

Lemma acceptors_bind : exists v, acceptors_of decl deadline = Ok v.
Proof using Hstands Hdecl.
  destruct (declare_slotted block) as [_ _ _ Ha _ _ _]. rewrite <- Hdecl in Ha. apply collect_results_total. apply Forall_forall.
  intros b Hb. eapply Forall_forall in Ha as [Hs _]; [|exact Hb].
  destruct (declared_stands b) as [Hk _ _ _ _ _ _ _]; [clear -Hb; unfold all_bindings; set_solver|]. unfold acceptor_of. kinds_of Hs Hk; by eexists.
Qed.

Lemma source_binds : exists v, source_of decl dir deadline = Ok v.
Proof using Hstands Hdecl.
  destruct (declare_slotted block) as [_ _ Ho _ _ _ _]. rewrite <- Hdecl in Ho. unfold source_of.
  destruct (d_secrets_from decl) as [b|] eqn:Hb; [|by eexists]. destruct (Ho b eq_refl) as [Hs Harg].
  destruct (declared_stands b) as [Hk Hpath _ _ _ _ _ _]; [unfold all_bindings; rewrite Hb; clear; set_solver|].
  kinds_of Hs Hk; [|by eexists]. destruct Harg as [a ->]; [apply Hpath; rewrite Hk; clear; set_solver|]. by eexists.
Qed.

Lemma notify_binds : exists v, notify_of decl deadline = Ok v.
Proof using Hstands Hdecl.
  destruct (declare_slotted block) as [_ _ _ _ _ _ Hn]. rewrite <- Hdecl in Hn. unfold notify_of.
  destruct (d_notify decl) as [b|] eqn:Hb; [|by eexists]. destruct (Hn b eq_refl) as [Hs _].
  destruct (declared_stands b) as [Hk _ _ _ _ _ _ _]; [unfold all_bindings; rewrite Hb; clear; set_solver|]. kinds_of Hs Hk; by eexists.
Qed.

Lemma schedulers_bind : exists v, schedulers_of decl deadline dry_run = Ok v.
Proof using Hstands Hdecl.
  destruct (declare_slotted block) as [_ _ _ _ _ Hc _]. rewrite <- Hdecl in Hc. unfold schedulers_of.
  destruct dry_run; [by eexists|]. destruct (d_scheduler decl) as [b|] eqn:Hb; [|by eexists]. destruct (Hc b eq_refl) as [Hs _].
  destruct (declared_stands b) as [Hk _ _ _ _ _ _ _]; [unfold all_bindings; rewrite Hb; clear; set_solver|]. kinds_of Hs Hk; by eexists.
Qed.

Lemma approval_binds : (exists e, approval_of decl deadline dry_run = Err e)
  <-> dry_run = false /\ exists b, d_approval decl = Some b /\ bd_kind b = "always".
Proof using Hstands Hdecl.
  destruct (declare_slotted block) as [_ Hv _ _ _ _ _]. rewrite <- Hdecl in Hv. unfold approval_of.
  destruct (d_approval decl) as [b|] eqn:Hb; [|split; [by intros []|by intros (_ & ? & ? & _)]]. destruct (Hv b eq_refl) as [Hs _].
  destruct (declared_stands b) as [Hk _ _ _ _ _ _ _]; [unfold all_bindings; rewrite Hb; clear; set_solver|].
  kinds_of Hs Hk; cbn.
  - destruct dry_run; cbn; (split; [intros [e He]|intros [? _]]); try done; [|by eexists]. split; [done|]. by exists b.
  - split; [by intros []|]. intros (_ & b' & [= <-] & Ha). congruence.
Qed.

Lemma executor_refused b : b ∈ d_execute decl ->
  (exists e, executor_of dir deadline is_file b = Err e)
  <-> bd_kind b = "ssh" /\ exists i, kw b "identity" = Some i /\ is_file (Site.path_join dir i) = false.
Proof using Hstands Hdecl.
  destruct (declare_slotted block) as [_ _ _ _ Hx _ _]. rewrite <- Hdecl in Hx. intros Hb. eapply Forall_forall in Hx as [Hs _]; [|exact Hb].
  destruct (declared_stands b) as [Hk _ _ _ _ _ Hssh _]; [clear -Hb; unfold all_bindings; set_solver|]. unfold executor_of.
  pose proof Hs as Hs'. kinds_of Hs Hk; cbn; try (split; [by intros []|by intros []]).
  destruct (Hssh Hs' Hk) as [Hi Hn]. destruct (kw_declared _ _ Hi) as [i Hi'], (kw_declared _ _ Hn) as [k Hn']. rewrite Hi', Hn'.
  destruct (is_file (Site.path_join dir i)) eqn:Hf; cbn; split.
  - by intros [].
  - intros (_ & i' & [= <-] & Hno). congruence.
  - intros _. split; [done|]. by exists i.
  - intros _. by eexists.
Qed.

Lemma executors_bind : (exists e, executors_of decl dir deadline dry_run is_file = Err e)
  <-> dry_run = false /\ exists b i, b ∈ d_execute decl /\ bd_kind b = "ssh" /\ kw b "identity" = Some i /\ is_file (Site.path_join dir i) = false.
Proof using Hstands Hdecl.
  unfold executors_of. destruct dry_run; [by split; [intros []|intros []]|]. split.
  - intros [e He]. split; [done|]. destruct (collect_results (executor_of dir deadline is_file) (d_execute decl)) as [v|e'] eqn:Hc; [done|].
    apply collect_results_fault in Hc as (b & Hb & Hx). destruct (proj1 (executor_refused b Hb)) as (Hk & i & Hi & Hf); [by eexists|]. by exists b, i.
  - intros (_ & b & i & Hb & Hk & Hi & Hf). destruct (collect_results (executor_of dir deadline is_file) (d_execute decl)) as [v|e] eqn:Hc; [|by exists e].
    exfalso. destruct (proj2 (executor_refused b Hb)) as [e He]; [split; [done|by exists i]|]. apply collect_results_ok in Hc.
    apply list_elem_of_lookup_1 in Hb as [n Hb]. destruct (Forall2_lookup_l _ _ _ _ _ Hc Hb) as (y & _ & Hy). congruence.
Qed.
End Stands.

(** C24. The daemon binds a site block the resolver lets stand: no sink, acceptor, source,
    notification or scheduler of it is of a kind the daemon does not know, or without what it
    needs. Of its other bindings the daemon refuses [always()] unless it only rehearses; where
    it does not rehearse, an [ssh()] whose identity is no file; and a signing key that cannot
    be loaded; and these it refuses always. *)
Theorem standing_site_binds {Sg : Type} (signer_load : string -> Result Sg string) (block : Block) (dir : string) (deadline : N)
    (dry_run : bool) (is_file : string -> bool) (Hstands : site_stands (declare block)) :
  let d := declare block in
  (exists v, sinks_of d dir deadline = Ok v) /\ (exists v, acceptors_of d deadline = Ok v)
  /\ (exists v, source_of d dir deadline = Ok v) /\ (exists v, notify_of d deadline = Ok v)
  /\ (exists v, schedulers_of d deadline dry_run = Ok v)
  /\ ((exists e, approval_of d deadline dry_run = Err e) <-> dry_run = false /\ exists b, d_approval d = Some b /\ bd_kind b = "always")
  /\ ((exists e, executors_of d dir deadline dry_run is_file = Err e)
      <-> dry_run = false
          /\ exists b i, b ∈ d_execute d /\ bd_kind b = "ssh" /\ kw b "identity" = Some i /\ is_file (Site.path_join dir i) = false)
  /\ ((exists e, signer_of d dir signer_load = Err e)
      <-> exists b e, d_journal_sign d = Some b /\ signer_load (Site.path_join dir (arg_or_empty b)) = Err e).
Proof.
  intros d. pose proof (eq_refl : d = declare block) as Hd.
  split_and!; [by eapply sinks_bind|by eapply acceptors_bind|by eapply source_binds|by eapply notify_binds|by eapply schedulers_bind
    |by eapply approval_binds|by eapply executors_bind|].
  unfold signer_of. destruct (d_journal_sign d) as [b|]; [|split; [by intros []|by intros (? & ? & ? & _)]].
  destruct (signer_load (Site.path_join dir (arg_or_empty b))) as [k|e] eqn:Hl; split.
  - by intros [].
  - intros (b' & e & [= <-] & He). congruence.
  - intros _. by exists b, e.
  - intros _. by eexists.
Qed.

(** ** A site *)

Definition demo_binding (first_kw name : string) (args : list Arg) : Arg := AKw (mkKw here first_kw (call_arg name args)).
Definition demo_text (s : string) : Arg := AExpr (XLit here (LitStr (concats [dquote; s; dquote]))).

Definition demo_site_block : Block :=
  mkBlock here "site"
    [SLine (mkLine here "journal" [demo_binding "to" "file" [demo_text "journal.ndjson"]]);
     SLine (mkLine here "approval" [demo_binding "via" "always" []]);
     SLine (mkLine here "secrets" [demo_binding "deliver_to" "hold" [AKw (mkKw here "until" (AExpr (XLit here (LitAtom "wane"))))]]);
     SLine (mkLine here "execute" [demo_binding "via" "ssh" [AKw (mkKw here "identity" (demo_text "id")); AKw (mkKw here "known_hosts" (demo_text "kh"))]]);
     SBlock (mkBlock here "operators" [SLine (mkLine here "identity" [AExpr (XLit here (LitAtom "ann")); AKw (mkKw here "user" (demo_text "ann"))])])].

Lemma standing_site_binds_witness :
  site_stands (declare demo_site_block)
  /\ (exists e, approval_of (declare demo_site_block) 30 false = Err e)
  /\ approval_of (declare demo_site_block) 30 true = Ok (Some AlwaysB)
  /\ executors_of (declare demo_site_block) "/etc/rescind" 30 false (fun p => p == "/etc/rescind/id") = Ok [LocalB; SshB "/etc/rescind/id" "/etc/rescind/kh" "root"].
Proof.
  assert (Hs : site_stands (declare demo_site_block)) by by apply (refusals_spec _ demo_site_block).
  destruct (standing_site_binds (fun _ => Ok tt) demo_site_block "/etc/rescind" 30 false (fun p => p == "/etc/rescind/id") Hs) as (_ & _ & _ & _ & _ & Ha & _).
  split_and!; [done| |done|done]. apply Ha. split; [done|]. by eexists.
Defined.

(** ** Two bounds of a hold *)

Definition demo_hold (until : Expr) : option Binding :=
  binding_of (XCall here ["hold"] [AKw (mkKw here "until" (AExpr until))]) "deliver_to".

(** A duration is no value a binding's keyword keeps: [hold(until: 10m)] is a [hold] without
    its bound, and refused for that. *)
Example hold_duration_is_refused :
  exists b, demo_hold (XLit here (LitDuration 600)) = Some b /\ bd_kws b = [] /\ fst (binding_contract b) = false.
Proof. eexists. by split_and!. Qed.

(** Written as a text it stands, and the daemon, which reads seconds, drops it without a word:
    the value is held as long as the plan lasts. *)
Example hold_text_is_no_bound :
  exists b, demo_hold (XLit here (LitStr (concats [dquote; "10m"; dquote]))) = Some b /\ fst (binding_contract b) = true
    /\ kw b "until" = Some "10m" /\ hold_bound b = None.
Proof. eexists. by split_and!. Qed.

(** ** Starting the daemon ([daemon/src/run.rs])

    [run_until] up to the moment the socket is served: the store, the bindings of the site,
    the engine, the hooks that are children, what must have registered by then, the
    inventory a hook lists, and boot. What a binding is at run time, a child process, the
    group and the clock are parameters; the threads that follow are the passes of [d_step]. *)

(** [s.sort_by_key] of a key that is a boolean: stable, [false] first. *)
Fixpoint insert_by {A} (key : A -> bool) (x : A) (l : list A) : list A :=
  match l with
  | [] => [x]
  | y :: r => if implb (key x) (key y) then x :: l else y :: insert_by key x r
  end.

Definition sort_by_key {A} (key : A -> bool) (l : list A) : list A := foldr (insert_by key) [] l.

Record Config := mkConfig {
  cf_site : string;
  cf_group : string;
  cf_dry_run : bool;
  cf_hook_deadline : N;
  cf_spawn : list string;
  cf_inventory : option string;
}.

Section Run.
Context `{ControlSerde} `{!Letterbox}.
(** What each binding is to the engine. *)
Context (mk_sink : SinkB -> sink) (mk_executor : ExecutorB -> executor) (mk_scheduler : SchedulerB -> scheduler).
Context (mk_approval : ApprovalB -> approval) (mk_acceptor : AcceptorB -> acceptor) (mk_source : SourceB -> source) (mk_notify : NotifyB -> notifier).
(** The file system, the group of the socket, the key, the operating system's name. *)
Context (is_file group_exists : string -> bool) (signer_load : string -> Result EngineJournal.Signer string) (os : string).
(** [schema_of], [Store::create], [Store::open] *)
Context (open_store : world -> world * Result StoreDir string).
(** A child: its registration, its pid and its link; the acknowledgement; the list of hosts. *)
Context (spawn_hook : string -> string -> world -> world * Result (Registration * N * nat) string).
Context (acknowledge : nat -> world -> world * Result unit string).
Context (list_hosts : string -> N -> world -> world * Result (list EHost) string).
(** The account the daemon runs as. *)
Context (account : option string) (uid : option N).
(** [Path::parent] *)
Context (parent : string -> option string).

(** Without a group the socket belongs to no one. *)
Definition check_group (group : string) : Result unit DaemonRefusal :=
  if group_exists group then Ok tt
  else refused (concats ["group "; group; " does not exist; the control socket belongs to group rescind (7.4), or name another with --group"]).

Definition or_refuse {A} (m : world -> world * Result A string) : world -> world * Result A DaemonRefusal :=
  map_err RfRefused m.

(** The engine with its bindings; the tolerance of the clock is set where the site has one. *)
Definition equip (g : Engine) (schedulers : list scheduler) (a : option approval) (n : option notifier) (s : option source)
    (acceptors : list acceptor) (skew : option Duration) : Engine :=
  mkEngine _ (g_world g) (g_store g) (g_journal g) (g_executors g) schedulers a acceptors s n (g_hosts g) (g_controller g) (g_ledger g)
    (default (g_skew_tolerance g) skew) (g_settling g) (g_trace g) (g_acts g).

(** The directory the sources of secrets are looked for in. *)
Definition site_dir (cfg : Config) : string := default "." (parent (cf_site cfg)).

(** The daemon before its first child. *)
Definition build (cfg : Config) (sb : SiteBindings) : world -> world * Result Dm DaemonRefusal :=
  let decl := sb_decl sb in
  let dir := sb_dir sb in
  let deadline := cf_hook_deadline cfg in
  do! lift (check_group (cf_group cfg)) in
  let! st := or_refuse open_store in
  let! sinks := lift (sinks_of decl dir deadline) in
  let! signer := lift (signer_of decl dir signer_load) in
  do! map_err (fun e => RfRefused (display_error (ErrStore e))) disk_read in
  let j := open_journal (st_chain st) (map mk_sink sinks) signer in
  let! xs := lift (executors_of decl dir deadline (cf_dry_run cfg) is_file) in
  let! g := map_err (fun e => RfRefused (display_error e)) (fun w => open_engine os w st j (map mk_executor xs) (hosts_of sb)) in
  let! schedulers := lift (schedulers_of decl deadline (cf_dry_run cfg)) in
  let! a := lift (approval_of decl deadline (cf_dry_run cfg)) in
  let! n := lift (notify_of decl deadline) in
  let! s := lift (source_of decl (site_dir cfg) deadline) in
  let! acceptors := lift (acceptors_of decl deadline) in
  fun w => (w, Ok (d_start (equip (set_world w g) (map mk_scheduler schedulers) (mk_approval <$> a) (mk_notify <$> n) (mk_source <$> s)
                              (map mk_acceptor acceptors) (d_skew_tolerance decl)))).

(** What the world outside answers the daemon. *)
Definition ask_world {A} (m : world -> world * A) : Dm -> Dm * Result A DaemonRefusal :=
  fun d => let '(w, r) := m (g_world (dm_engine d)) in (set_engine (set_world w (dm_engine d)) d, Ok r).

Definition no_such_spec (spec : string) : DaemonRefusal := RfUsage ("--spawn takes NAME=COMMAND, not " +:+ spec).

Definition display_control (e : ControlError) : string := concats [ce_code e; ": "; ce_message e].

Definition spawn_child (operators : Operators) (spec : string) : Dm -> Dm * Result unit DaemonRefusal :=
  match split_at_char (chr 61) spec with
  | None => mthrow (no_such_spec spec)
  | Some (name, command) =>
      let! spawned := ask_world (spawn_hook name command) in
      match spawned with
      | Err e => mthrow (RfRefused e)
      | Ok (reg, pid, link) =>
          match registrar_for operators (mkPeer account true uid) (rg_name reg) with
          | Err e => mthrow (RfRefused (concats [name; ": "; display_control e]))
          | Ok registrar =>
              let child := "child pid " +:+ show pid in
              do! (fun d => (set_hooks (register (mkRegistered reg (rr_name registrar) child link) (dm_hooks d)) d, Ok tt)) in
              let! acked := ask_world (acknowledge link) in
              match acked with
              | Err e => mthrow (RfRefused e)
              | Ok _ =>
                  fun d =>
                    match journal_site (JHookRegistered (rg_name reg) (rr_name registrar) (child +:+ " (stdio, socket owner)")) d with
                    | (d, Ok _) => (d, Ok tt)
                    | (d, Err e) =>
                        (set_hooks (fst (deregister (rg_name reg) (dm_hooks d))) d,
                         refused (concats [display_error e; ": registering "; rg_name reg; " could not be journaled, so it is not registered"]))
                    end
              end
          end
      end
  end.

(** Whether a child is not one the journal is delivered to. *)
Definition not_journal_hook (decl : SiteDecl) (spec : string) : bool :=
  negb (existsb (fun h => starts_with (h +:+ "=") spec) (map arg_or_empty (List.filter is_hook (d_journal decl)))).

Definition needed_before (slot name : string) : string :=
  concats ["the site's `"; slot; ": hook(:"; name; ")` is needed before the socket is served, and "; name;
           " has not registered. A hook serving the inventory or the journal must be a `--spawn` child: one that connects over the socket cannot have registered yet, because the daemon is not listening until after boot. Spawn it with `--spawn ";
           name; "=COMMAND`"; if slot == "inventory from" then ", or name a record with --inventory" else EmptyString].

Definition check_boot_hook (named_a_record : bool) (x : string * string) : Dm -> Dm * Result unit DaemonRefusal :=
  fun d =>
    let '(slot, name) := x in
    if (slot == "inventory from") && named_a_record then (d, Ok tt)
    else if existsb (fun n => n == name) (names (dm_hooks d)) then (d, Ok tt)
    else (d, refused (needed_before slot name)).

(** A call of the engine under its lock. *)
Definition on_engine_lock {A} (m : Engine -> Engine * Result A EngineError) : Dm -> Dm * Result A DaemonRefusal :=
  fun d => let '(g, r) := m (dm_engine d) in
           (set_engine g d, match r with Ok x => Ok x | Err e => refused (display_error e) end).

Definition ask_inventory (name : string) (deadline : N) : Dm -> Dm * Result unit DaemonRefusal :=
  let! answered := ask_world (list_hosts name deadline) in
  match answered with
  | Err e =>
      mthrow (RfRefused (concats ["the site takes its inventory from hook "; name; ", and asking it failed: "; e;
        ". A hook that lists the site's hosts must be a `--spawn` child, since nothing has registered over the socket before the daemon serves it; or name a record with --inventory"]))
  | Ok hosts =>
      do! on_engine_lock (journal_site_event (JInventoryListed name (map eh_name hosts))) in
      fun d => (set_engine (set_hosts hosts (dm_engine d)) d, Ok tt)
  end.

(** From the first child to the end of boot. *)
Definition bring_up (cfg : Config) (sb : SiteBindings) : Dm -> Dm * Result BootReport DaemonRefusal :=
  let decl := sb_decl sb in
  let named := bool_decide (is_Some (cf_inventory cfg)) in
  do! for_each (spawn_child (operators_of decl (cf_dry_run cfg))) (sort_by_key (not_journal_hook decl) (cf_spawn cfg)) in
  do! for_each (check_boot_hook named) (boot_time_hooks decl) in
  do! match hook_inventory_name decl named with
      | Some name => ask_inventory name (cf_hook_deadline cfg)
      | None => mret tt
      end in
  on_engine_lock boot.

(** [run_until], up to [control::serve]. *)
Definition run_until (cfg : Config) (sb : SiteBindings) (w : world) : option Dm * Result BootReport DaemonRefusal :=
  match build cfg sb w with
  | (_, Err e) => (None, Err e)
  | (_, Ok d) => let '(d, r) := bring_up cfg sb d in (Some d, r)
  end.
End Run.

(** ** The order of the children *)

Lemma insert_by_between {A} (key : A -> bool) x a b : Forall (fun y => key y = false) a -> Forall (fun y => key y = true) b ->
  insert_by key x (a ++ b) = if key x then a ++ x :: b else x :: a ++ b.
Proof.
  intros Ha Hb. induction Ha as [|y a Hy Ha IH]; cbn [app insert_by].
  - destruct Hb as [|y b Hy Hb]; cbn [insert_by]; [by destruct (key x)|]. rewrite Hy, implb_true_r. by destruct (key x).
  - rewrite Hy. destruct (key x); cbn [implb]; [by rewrite IH|done].
Qed.

(** What comes first is what the key says no of, each part in the order it was in. *)
Lemma sort_by_key_spec {A} (key : A -> bool) (l : list A) :
  sort_by_key key l = List.filter (fun x => negb (key x)) l ++ List.filter key l.
Proof.
  unfold sort_by_key. induction l as [|x l IH]; [done|]. cbn [foldr List.filter]. rewrite IH, insert_by_between.
  - by destruct (key x).
  - apply Forall_forall. intros y [_ Hy]%elem_of_lfilter. by apply negb_true_iff.
  - apply Forall_forall. by intros y [_ Hy]%elem_of_lfilter.
Qed.

(** ** What the start keeps *)

Section Kept.
Context `{ControlSerde} `{!Letterbox}.

Definition lives_on (d d' : Dm) : Prop := lives (dm_engine d) (dm_engine d').
Definition hooked (d d' : Dm) : Prop := dm_hooks d' = dm_hooks d.

#[export] Instance lives_on_preorder : PreOrder lives_on.
Proof. split; [by intros d|]. intros d1 d2 d3 K1 K2. unfold lives_on in *. by etrans. Qed.

#[export] Instance hooked_preorder : PreOrder hooked.
Proof. split; [by intros d|]. intros d1 d2 d3. unfold hooked. congruence. Qed.

Lemma ask_world_lives {A} (m : world -> world * A) : keeps lives_on (ask_world m).
Proof. intros d. unfold ask_world. destruct (m _) as [w r]. by apply lives_same. Qed.

Lemma ask_world_hooked {A} (m : world -> world * A) : keeps hooked (ask_world m).
Proof. intros d. unfold ask_world. by destruct (m _) as [w r]. Qed.

Lemma on_engine_lock_lives {A} (m : Engine -> Engine * Result A EngineError) : keeps lives m -> keeps lives_on (on_engine_lock m).
Proof. intros Hm d. unfold on_engine_lock. specialize (Hm (dm_engine d)). by destruct (m _) as [g r]. Qed.

Lemma on_engine_lock_hooked {A} (m : Engine -> Engine * Result A EngineError) : keeps hooked (on_engine_lock m).
Proof. intros d. unfold on_engine_lock. by destruct (m _) as [g r]. Qed.

Lemma site_event_lives ev : keeps lives (journal_site_event ev).
Proof. intros g. exact (perform_lives (CallSite ev) g). Qed.

Context (spawn_hook : string -> string -> world -> world * Result (Registration * N * nat) string).
Context (acknowledge : nat -> world -> world * Result unit string).
Context (list_hosts : string -> N -> world -> world * Result (list EHost) string).
Context (account : option string) (uid : option N).

Lemma spawn_child_lives os spec : keeps lives_on (spawn_child spawn_hook acknowledge account uid os spec).
Proof.
  unfold spawn_child. destruct (split_at_char (chr 61) spec) as [[name command]|]; [|apply keeps_throw; typeclasses eauto].
  apply keeps_then; [typeclasses eauto|apply ask_world_lives|]. intros [[[reg pid] link]|e]; [|apply keeps_throw; typeclasses eauto].
  destruct (registrar_for _ _ _) as [registrar|e]; [|apply keeps_throw; typeclasses eauto].
  apply keeps_then; [typeclasses eauto|by intros d; apply lives_same|]. intros _.
  apply keeps_then; [typeclasses eauto|apply ask_world_lives|]. intros [[]|e]; [|apply keeps_throw; typeclasses eauto].
  intros d. unfold journal_site. pose proof (site_event_lives (JHookRegistered (rg_name reg) (rr_name registrar)
    (("child pid " +:+ show pid) +:+ " (stdio, socket owner)")) (dm_engine d)) as Hl.
  destruct (journal_site_event _ (dm_engine d)) as [g [e|e]]; exact Hl.
Qed.

Lemma ask_inventory_lives name deadline : keeps lives_on (ask_inventory list_hosts name deadline).
Proof.
  unfold ask_inventory. apply keeps_then; [typeclasses eauto|apply ask_world_lives|]. intros [hosts|e]; [|apply keeps_throw; typeclasses eauto].
  apply keeps_then; [typeclasses eauto|apply on_engine_lock_lives, site_event_lives|]. intros _ d. by apply lives_same.
Qed.

Lemma ask_inventory_hooked name deadline : keeps hooked (ask_inventory list_hosts name deadline).
Proof.
  unfold ask_inventory. apply keeps_then; [typeclasses eauto|apply ask_world_hooked|]. intros [hosts|e]; [|apply keeps_throw; typeclasses eauto].
  apply keeps_then; [typeclasses eauto|apply on_engine_lock_hooked|]. by intros _ d.
Qed.

Lemma check_boot_hooks named l d d' : for_each (check_boot_hook named) l d = (d', Ok tt) ->
  d' = d /\ Forall (fun x => fst x = "inventory from" /\ named = true \/ snd x ∈ names (dm_hooks d)) l.
Proof.
  revert d. induction l as [|[slot name] l IH]; intros d; cbn [for_each]; [by intros [= <-]|]. unfold mthen, check_boot_hook at 1.
  destruct ((slot == "inventory from") && named) eqn:E1.
  - intros Hl%IH. destruct Hl as [-> Hl]. split; [done|]. constructor; [|done]. left. by apply andb_true_iff in E1 as [->%bool_decide_eq_true ->].
  - destruct (existsb (fun n => n == name) (names (dm_hooks d))) eqn:E2; [|done]. intros Hl%IH. destruct Hl as [-> Hl]. split; [done|].
    constructor; [|done]. right. apply existsb_elem in E2 as (n & Hn & ->%bool_decide_eq_true). done.
Qed.

Lemma bring_up_lives cfg sb : keeps lives_on (bring_up spawn_hook acknowledge list_hosts account uid cfg sb).
Proof.
  unfold bring_up. cbv zeta. apply keeps_then; [typeclasses eauto|apply keeps_for_each; [typeclasses eauto|intros; apply spawn_child_lives]|]. intros _.
  apply keeps_then; [typeclasses eauto|apply keeps_for_each; [typeclasses eauto|]|].
  - intros [slot name] d. unfold check_boot_hook. repeat case_match; by apply lives_same.
  - intros _. apply keeps_then; [typeclasses eauto|destruct (hook_inventory_name _ _); [apply ask_inventory_lives|apply keeps_ret; typeclasses eauto]|].
    intros _. apply on_engine_lock_lives. intros g. exact (perform_lives CallBoot g).
Qed.

Lemma bring_up_hooks cfg sb d d' report : bring_up spawn_hook acknowledge list_hosts account uid cfg sb d = (d', Ok report) ->
  Forall (fun x => fst x = "inventory from" /\ is_Some (cf_inventory cfg) \/ snd x ∈ names (dm_hooks d')) (boot_time_hooks (sb_decl sb)).
Proof.
  unfold bring_up, mthen. cbv zeta. destruct (for_each _ _ d) as [d1 [[]|e]]; [|done].
  destruct (for_each (check_boot_hook _) _ d1) as [d2 [[]|e]] eqn:Hc; [|done]. apply check_boot_hooks in Hc as [-> Hc].
  match goal with |- context [match ?m d1 with _ => _ end] => assert (Hask : keeps hooked m) end.
  { destruct (hook_inventory_name _ _); [apply ask_inventory_hooked|apply keeps_ret; typeclasses eauto]. }
  specialize (Hask d1). unfold hooked in Hask.
  match goal with |- context [match ?m d1 with _ => _ end] => destruct (m d1) as [d3 [[]|e]] end; [|done]. cbn [fst] in Hask.
  pose proof (on_engine_lock_hooked boot d3) as Hb. intros Hd. rewrite Hd in Hb. cbn [fst] in Hb. unfold hooked in Hb. rewrite Hb, Hask.
  eapply Forall_impl; [exact Hc|]. intros [slot name] [[Hs Hn]|Hn]; [left|by right]. split; [done|]. by apply bool_decide_eq_true in Hn.
Qed.
End Kept.

Section Start.
Context `{ControlSerde} `{!Letterbox}.
Context (mk_sink : SinkB -> sink) (mk_executor : ExecutorB -> executor) (mk_scheduler : SchedulerB -> scheduler).
Context (mk_approval : ApprovalB -> approval) (mk_acceptor : AcceptorB -> acceptor) (mk_source : SourceB -> source) (mk_notify : NotifyB -> notifier).
Context (is_file group_exists : string -> bool) (signer_load : string -> Result EngineJournal.Signer string) (os : string).
Context (open_store : world -> world * Result StoreDir string).
Context (spawn_hook : string -> string -> world -> world * Result (Registration * N * nat) string).
Context (acknowledge : nat -> world -> world * Result unit string).
Context (list_hosts : string -> N -> world -> world * Result (list EHost) string).
Context (account : option string) (uid : option N) (parent : string -> option string).

Local Notation build_here := (build mk_sink mk_executor mk_scheduler mk_approval mk_acceptor mk_source mk_notify is_file group_exists signer_load os
                                open_store parent).
Local Notation run_here := (run_until mk_sink mk_executor mk_scheduler mk_approval mk_acceptor mk_source mk_notify is_file group_exists signer_load os
                              open_store spawn_hook acknowledge list_hosts account uid parent).

Lemma then_ok {S E A B} (m : S -> S * Result A E) (k : A -> S -> S * Result B E) s s' y :
  mthen m k s = (s', Ok y) -> exists s1 x, m s = (s1, Ok x) /\ k x s1 = (s', Ok y).
Proof. unfold mthen. destruct (m s) as [s1 [x|e]]; [|done]. by exists s1, x. Qed.

Lemma build_spec cfg sb w w0 d0 : build_here cfg sb w = (w0, Ok d0) ->
  (exists w1 st, open_store w = (w1, Ok st) /\ g_store (dm_engine d0) = st)
  /\ (cf_dry_run cfg = true -> g_executors (dm_engine d0) = [] /\ g_schedulers (dm_engine d0) = [])
  /\ (cf_dry_run cfg = false -> forall b, d_approval (sb_decl sb) = Some b -> bd_kind b <> "always").
Proof.
  unfold build. cbv zeta. intros Hm. apply then_ok in Hm as (w1 & [] & Hw & Hm). apply then_ok in Hm as (w2 & st & Hst & Hm).
  apply then_ok in Hm as (w3 & sinks & _ & Hm). apply then_ok in Hm as (w4 & signer & _ & Hm). apply then_ok in Hm as (w5 & u & _ & Hm).
  apply then_ok in Hm as (w6 & xs & Hxs & Hm). apply then_ok in Hm as (w7 & g & Hg & Hm). apply then_ok in Hm as (w8 & sch & Hsch & Hm).
  apply then_ok in Hm as (w9 & a & Ha & Hm). apply then_ok in Hm as (w10 & n & _ & Hm). apply then_ok in Hm as (w11 & so & _ & Hm).
  apply then_ok in Hm as (w12 & ac & _ & [= <- <-]). cbn.
  assert (Hopen : g_store g = st /\ g_executors g = map mk_executor xs).
  { unfold map_err, open_engine in Hg. destruct (read_ledger st w6) as [wl [l|e]]; [|done]. destruct (was_settling st wl) as [ws b].
    by injection Hg as <- <-. }
  destruct Hopen as [Hstore Hex]. split_and!.
  - unfold lift in Hw. injection Hw as -> _. unfold or_refuse, map_err in Hst. destruct (open_store w1) as [ws [s|e]]; [|done].
    injection Hst as <- <-. by exists ws, s.
  - intros Hdry. rewrite Hex. unfold lift, executors_of in Hxs. rewrite Hdry in Hxs. injection Hxs as _ <-.
    unfold lift, schedulers_of in Hsch. rewrite Hdry in Hsch. by injection Hsch as _ <-.
  - intros Hlive b Hb Hk. unfold lift, approval_of in Ha. by rewrite Hb, Hk, Hlive in Ha.
Qed.

(** C23. A daemon that comes to serve its socket: a rehearsing one has no executor and no scheduler,
    one that is not rehearsing has no approval that opens every gate; each hook that the
    inventory or the journal is bound to has registered before the socket is there; and what
    the start does to the records of the store is a path of the state machine. *)
Theorem daemon_starts_as_bound (cfg : Config) (sb : SiteBindings) (w : world) (d : Dm) (report : BootReport)
    (Hrun : run_here cfg sb w = (Some d, Ok report)) :
  exists w0 d0 w1 st, build_here cfg sb w = (w0, Ok d0) /\ open_store w = (w1, Ok st) /\ g_store (dm_engine d0) = st
  /\ (cf_dry_run cfg = true -> g_executors (dm_engine d0) = [] /\ g_schedulers (dm_engine d0) = [])
  /\ (cf_dry_run cfg = false -> forall b, d_approval (sb_decl sb) = Some b -> bd_kind b <> "always")
  /\ (forall slot name, (slot, name) ∈ boot_time_hooks (sb_decl sb) ->
        slot = "inventory from" /\ is_Some (cf_inventory cfg) \/ name ∈ names (dm_hooks d))
  /\ (filed (dm_engine d0) -> filed (dm_engine d)
        /\ forall id, rtc life_step (face <$> bm_get id (st_instances st)) (face <$> stored (dm_engine d) id)).
Proof.
  unfold run_until in Hrun. destruct (build_here cfg sb w) as [w0 [d0|e]] eqn:Hb; [|done].
  destruct (bring_up _ _ _ _ _ cfg sb d0) as [d1 r] eqn:Hup. injection Hrun as -> ->. destruct (build_spec _ _ _ _ _ Hb) as ((w1 & st & Ho & Hst) & Hdry & Hlive).
  exists w0, d0, w1, st. split_and!; [done..| |].
  - intros slot name Hin. apply bring_up_hooks in Hup. eapply Forall_forall in Hup; [|exact Hin]. exact Hup.
  - intros Hf. pose proof (bring_up_lives spawn_hook acknowledge list_hosts account uid cfg sb d0) as Hl. rewrite Hup in Hl.
    destruct (Hl Hf) as [Hf' Hlife]. split; [done|]. intros id. specialize (Hlife id). unfold stored in Hlife at 1. by rewrite Hst in Hlife.
Qed.

(** The children the journal is bound to come first, each part in the order it was given. *)
Lemma journal_children_first (decl : SiteDecl) (specs : list string) :
  sort_by_key (not_journal_hook decl) specs
  = List.filter (fun s => existsb (fun h => starts_with (h +:+ "=") s) (map arg_or_empty (List.filter is_hook (d_journal decl)))) specs
    ++ List.filter (not_journal_hook decl) specs.
Proof. rewrite sort_by_key_spec. f_equal. apply List.filter_ext. intros s. unfold not_journal_hook. by rewrite negb_involutive. Qed.
End Start.

(** ** A start *)

Definition demo_daemon_block : Block :=
  mkBlock here "site"
    [SLine (mkLine here "journal" [demo_binding "to" "hook" [AExpr (XLit here (LitAtom "audit"))]]);
     SBlock (mkBlock here "operators" [SLine (mkLine here "identity" [AExpr (XLit here (LitAtom "ann")); AKw (mkKw here "user" (demo_text "ann"))])]);
     SBlock (mkBlock here "hooks" [SLine (mkLine here "registrar" [AExpr (XLit here (LitAtom "ops")); AKw (mkKw here "user" (AExpr (XLit here (LitAtom "socket_owner"))));
       AKw (mkKw here "may_register" (AExpr (XList here [AExpr (XLit here (LitAtom "audit")); AExpr (XLit here (LitAtom "mail"))])))])])].

Definition demo_bindings_of_site : SiteBindings := mkSiteBindings "/etc/rescind" (declare demo_daemon_block) empty_inventory.

Definition demo_config : Config := mkConfig "/etc/rescind/site.scind" "rescind" true 30 ["mail=./mail"; "audit=./audit"] None.

Local Notation demo_start := (run_until (H := fake_outside) (fun _ => mkMemorySink "hook(:audit)" [] None) (fun _ => 0) (fun _ => 0) (fun _ => tt) (fun _ => 0) (fun _ => tt) (fun _ => tt)
    (fun _ => true) (fun g => g == "rescind") (fun _ => Err "no key") "linux" (fun w => (w, Ok (g_store demo_engine)))
    (fun name _ w => (w, Ok (mkRegistration name ["journal"] 1 false false, 7%N, 3))) (fun _ w => (w, Ok tt)) (fun _ _ w => (w, Err "not asked"))
    (Some "root") (Some 0%N) (fun _ => Some "/etc/rescind") demo_config demo_bindings_of_site (demo_fakes 1000)).

Lemma demo_start_serves : match demo_start with (Some d, Ok _) => names (dm_hooks d) | _ => [] end = ["audit"; "mail"].
Proof. vm_compute. reflexivity. Qed.

Lemma demo_start_answers : exists d report, demo_start = (Some d, Ok report).
Proof. pose proof demo_start_serves as Hs. destruct demo_start as [[d|] [report|e]]; try discriminate Hs. by exists d, report. Qed.

Lemma demo_start_hooks : boot_time_hooks (sb_decl demo_bindings_of_site) = [("journal to", "audit")].
Proof. vm_compute. reflexivity. Qed.

Lemma daemon_starts_as_bound_witness : exists d report, demo_start = (Some d, Ok report) /\ "audit" ∈ names (dm_hooks d).
Proof.
  destruct demo_start_answers as (d & report & Hd). exists d, report. split; [exact Hd|].
  eapply daemon_starts_as_bound in Hd. destruct Hd as (w0 & d0 & w1 & st & _ & _ & _ & _ & _ & Hhooks & _).
  rewrite demo_start_hooks in Hhooks. destruct (Hhooks "journal to" "audit") as [[Hx _]|Hin]; [by left|discriminate Hx|exact Hin].
Defined.

(** The paths of a site are those of the file that declares it, all but one: the file the
    secrets come from is looked for beside the file the daemon was given, which may only
    import the site. *)
Example secrets_are_read_elsewhere :
  let block := mkBlock here "site" [SLine (mkLine here "journal" [demo_binding "to" "file" [demo_text "journal.ndjson"]]);
                                    SLine (mkLine here "secrets" [demo_binding "from" "file" [demo_text "secrets.toml"]])] in
  let sb := mkSiteBindings "/etc/b" (declare block) empty_inventory in
  sinks_of (sb_decl sb) (sb_dir sb) 30 = Ok [SubscriberB; FileB "/etc/b/journal.ndjson"]
  /\ source_of (sb_decl sb) (site_dir (fun _ => Some "/etc/a") (mkConfig "/etc/a/main.scind" "rescind" false 30 [] None)) 30
     = Ok (Some (FileSourceB "/etc/a/secrets.toml")).
Proof. by vm_compute. Qed.
