(* ===== verification/HookSdk.v ===== *)
(** * A hook on the SDK ([sdk/rust/src])

    The other end of the wire: the traits an embedder implements, the dispatch of a request
    to one of them, the replies the SDK builds, and the two serve loops. A handler is a method
    over the state its boxes share. [sdk_replies_are_admitted] is what the SDK promises of a
    reply; [sdk_hook_is_its_handlers] puts it behind the engine's own adapters. *)

From Stdlib Require Import Ascii.
From stdpp Require Import base strings pretty numbers option list sets gmap.
From S2P Require Import Prelude Monad Ordered Utf8 Model Journal Resolve Executor Json HookProto Hook HookAdapters.

(** ** Refusals and records *)

Inductive SdkRefusal := mkSdkRefusal (why : string).

Definition refusal_why (r : SdkRefusal) : string := match r with mkSdkRefusal w => w end.

(** [Refusal::unserved] *)
Definition refusal_unserved (kind op : string) : SdkRefusal :=
  mkSdkRefusal (concats ["this hook does not serve "; kind; "."; op]).

Definition Answer (A : Type) : Type := Result A SdkRefusal.

Record ChallengeRequest := mkChallengeRequest {
  cr_instance : string;
  cr_digest : string;
  cr_scope : Json;
  cr_context : Json;
}.

Record VerifyRequest := mkVerifyRequest {
  vr_instance : string;
  vr_digest : string;
  vr_scope : Json;
  vr_authenticator : string;
  vr_proof : string;
}.

Record SdkVerdict := mkSdkVerdict { sv_verified : bool; sv_reason : string }.

Record Delivery := mkDelivery { dl_accepted : bool; dl_receipt : string }.

Inductive SdkPresence := SpPresent | SpAbsent | SpUnknown.

(** [Presence::to_value] *)
Definition presence_to_value (p : SdkPresence) : Json :=
  match p with SpPresent => JsBool true | SpAbsent => JsBool false | SpUnknown => JsStr "unknown" end.

(** ** Values *)

Definition is_null (v : Json) : bool := match v with JsNull => true | _ => false end.
Definition is_true (v : option Json) : bool := match v with Some (JsBool true) => true | _ => false end.

Fixpoint pointer_tokens (s : string) : list string :=
  match s with
  | EmptyString => [EmptyString]
  | String c r =>
      if c == chr 47 then EmptyString :: pointer_tokens r
      else match pointer_tokens r with x :: l => String c x :: l | [] => [String c EmptyString] end
  end.

(** [Value::pointer], for the pointers the source uses: none has a tilde in it, and no token is
    a number, which would be a place of an array. *)
Definition js_pointer (p : string) (v : Json) : option Json :=
  match pointer_tokens p with
  | EmptyString :: tokens => foldl (fun v token => v ≫= js_get token) (Some v) tokens
  | _ => None
  end.

(** ** The traits *)

Section Traits.
Context (H : Type).

Record JournalTrait := mkJournalTrait { tj_append : Json -> H -> H * Answer unit }.
Record InventoryTrait := mkInventoryTrait { ti_list : H -> H * Answer (list InventoryHost) }.

Record ExecuteTrait := mkExecuteTrait {
  te_run : string -> string -> list RPrim -> H -> H * Answer RunOutput;
  te_read_fact : string -> string -> H -> H * Answer (option string);
  te_bootstrap_state : string -> H -> H * Answer BootstrapState;
  te_clock : string -> H -> H * Answer N;
  te_instance_dir_create : string -> string -> H -> H * Answer unit;
  te_instance_dir_remove : string -> string -> H -> H * Answer unit;
  te_instance_dir_list : string -> H -> H * Answer (list InstanceDirState);
  te_put_file : string -> string -> string -> string -> N -> H -> H * Answer unit;
  te_replace_file : string -> string -> string -> string -> H -> H * Answer unit;
  te_get_file : string -> string -> string -> H -> H * Answer string;
  te_remove_file : string -> string -> string -> H -> H * Answer unit;
  te_host_lock : string -> H -> H * Answer unit;
}.

Record ProbeTrait := mkProbeTrait { tp_observe : string -> string -> H -> H * Answer Observation }.

Record ApprovalTrait := mkApprovalTrait {
  ta_authenticators : H -> H * Answer (list Authenticator);
  ta_challenge : ChallengeRequest -> H -> H * Answer string;
  ta_verify : VerifyRequest -> H -> H * Answer SdkVerdict;
}.

Record SecretsTrait := mkSecretsTrait {
  ts_resolve : string -> H -> H * Answer string;
  ts_deliver : string -> string -> string -> H -> H * Answer Delivery;
}.

Record NotifyTrait := mkNotifyTrait { tn_deliver : string -> string -> string -> H -> H * Answer unit }.

Record SchedulerTrait := mkSchedulerTrait {
  td_install : string -> string -> H -> H * Answer unit;
  td_arm : string -> string -> option N -> H -> H * Answer unit;
  td_rearm : string -> string -> option N -> H -> H * Answer unit;
  td_disarm : string -> string -> H -> H * Answer unit;
  td_present : string -> string -> H -> H * Answer SdkPresence;
}.

(** The methods a trait has by default. *)
Definition unserved_default {A} (kind op : string) : H -> H * Answer A := mthrow (refusal_unserved kind op).

Definition execute_only (run : string -> string -> list RPrim -> H -> H * Answer RunOutput) : ExecuteTrait := {|
  te_run := run;
  te_read_fact _ _ := unserved_default "execute" "read_fact";
  te_bootstrap_state _ := unserved_default "execute" "bootstrap_state";
  te_clock _ := unserved_default "execute" "clock";
  te_instance_dir_create _ _ := unserved_default "execute" "instance_dir_create";
  te_instance_dir_remove _ _ := unserved_default "execute" "instance_dir_remove";
  te_instance_dir_list _ := unserved_default "execute" "instance_dir_list";
  te_put_file _ _ _ _ _ := unserved_default "execute" "put_file";
  te_replace_file _ _ _ _ := unserved_default "execute" "replace_file";
  te_get_file _ _ _ := unserved_default "execute" "get_file";
  te_remove_file _ _ _ := unserved_default "execute" "remove_file";
  te_host_lock _ := unserved_default "execute" "host_lock";
|}.

Definition secrets_default : SecretsTrait := {|
  ts_resolve _ := unserved_default "secrets" "resolve";
  ts_deliver _ _ _ := unserved_default "secrets" "deliver";
|}.

Record Hooks := mkHooks {
  hk_journal : option JournalTrait;
  hk_inventory : option InventoryTrait;
  hk_execute : option ExecuteTrait;
  hk_probe : option ProbeTrait;
  hk_approval : option ApprovalTrait;
  hk_secrets : option SecretsTrait;
  hk_notify : option NotifyTrait;
  hk_scheduler : option SchedulerTrait;
  hk_filesystem : bool;
  hk_stdin_preamble : bool;
}.

(** [Hooks::new] *)
Definition hooks_new : Hooks := mkHooks None None None None None None None None false false.
End Traits.

Arguments tj_append {H} _ _.
Arguments ti_list {H} _.
Arguments te_run {H} _ _ _ _.
Arguments te_read_fact {H} _ _ _.
Arguments te_bootstrap_state {H} _ _.
Arguments te_clock {H} _ _.
Arguments te_instance_dir_create {H} _ _ _.
Arguments te_instance_dir_remove {H} _ _ _.
Arguments te_instance_dir_list {H} _ _.
Arguments te_put_file {H} _ _ _ _ _ _.
Arguments te_replace_file {H} _ _ _ _ _.
Arguments te_get_file {H} _ _ _ _.
Arguments te_remove_file {H} _ _ _ _.
Arguments te_host_lock {H} _ _.
Arguments tp_observe {H} _ _ _.
Arguments ta_authenticators {H} _.
Arguments ta_challenge {H} _ _.
Arguments ta_verify {H} _ _.
Arguments ts_resolve {H} _ _.
Arguments ts_deliver {H} _ _ _ _.
Arguments tn_deliver {H} _ _ _ _.
Arguments td_install {H} _ _ _.
Arguments td_arm {H} _ _ _ _.
Arguments td_rearm {H} _ _ _ _.
Arguments td_disarm {H} _ _ _.
Arguments td_present {H} _ _ _.
Arguments hk_journal {H} _.
Arguments hk_inventory {H} _.
Arguments hk_execute {H} _.
Arguments hk_probe {H} _.
Arguments hk_approval {H} _.
Arguments hk_secrets {H} _.
Arguments hk_notify {H} _.
Arguments hk_scheduler {H} _.
Arguments hk_filesystem {H} _.
Arguments hk_stdin_preamble {H} _.

(** ** What serde writes for the records of an answer *)

Definition map_json (m : gmap string string) : Json := JsObj (bm_of_list (map (fun e => (fst e, JsStr (snd e))) (map_to_list m))).

Definition output_json (o : RunOutput) : Json :=
  js_object_of [("stdout", JsStr (ro_stdout o)); ("outputs", map_json (ro_outputs o))].

Definition tri_json (t : Tri) : Json := JsStr (match t with Yes => "yes" | No => "no" | Unknown => "unknown" end).

Definition observation_json (o : Observation) : Json :=
  js_object_of [("text", JsStr (ob_text o)); ("tri", js_opt tri_json (ob_tri o))].

Definition bootstrap_json (b : BootstrapState) : Json :=
  js_object_of [("rescind_root", JsBool (bt_rescind_root b)); ("group", JsBool (bt_group b)); ("instances_dir", JsBool (bt_instances_dir b));
                ("lock", JsBool (bt_lock b)); ("modes_ok", JsBool (bt_modes_ok b))].

Definition dir_json (d : InstanceDirState) : Json :=
  js_object_of [("instance", JsStr (ds_instance d)); ("armed", JsBool (ds_armed d)); ("fired", JsBool (ds_fired d));
                ("modes_ok", JsBool (ds_modes_ok d))].

Definition texts_json (l : list string) : Json := JsArr (map JsStr l).

Definition language_json (l : ArtifactLanguage) : Json := JsStr (language_name l).

Definition host_json (h : InventoryHost) : Json :=
  js_object_of [("name", JsStr (ih_name h)); ("address", JsStr (ih_address h)); ("os", JsStr (ih_os h)); ("roles", texts_json (ih_roles h));
                ("reach", texts_json (ih_reach h)); ("filesystem", JsBool (ih_filesystem h)); ("stdin_preamble", js_opt JsBool (ih_stdin_preamble h));
                ("scheduler", js_opt JsStr (ih_scheduler h)); ("rescind_root", js_opt JsStr (ih_rescind_root h));
                ("artifact", js_opt language_json (ih_artifact h)); ("facts", map_json (ih_facts h))].

Definition registration_json (r : Registration) : Json :=
  js_object_of [("name", JsStr (rg_name r)); ("kinds", texts_json (rg_kinds r)); ("protocol", js_num (rg_protocol r));
                ("filesystem", JsBool (rg_filesystem r)); ("stdin_preamble", JsBool (rg_stdin_preamble r))].

(** ** Frames *)

Definition refusal_frame (id : Json) (why : SdkRefusal) : Json :=
  js_object_of [("id", id); ("ok", JsBool false); ("error", JsStr (refusal_why why))].

(** The reply to an answer, with the op's fields merged in. *)
Definition ok_frame (id : Json) (fields : Json) : Json :=
  let v := js_object_of [("id", id); ("ok", JsBool true)] in
  match fields with
  | JsObj m => foldl (fun v e => js_set (fst e) (snd e) v) v m
  | _ => v
  end.

(** The debug assertion of [ok_frame]. *)
Definition carries_required (o : Op) (v : Json) : bool :=
  forallb (fun f => match js_get f v with Some _ => true | None => false end) (op_required_reply o).

(** ** Hooks *)

(** [serde_json::from_value] of a body. *)
Class SdkSerde := { body_of : Json -> Result (list RPrim) string }.

Section Hooks.
Context {H : Type} `{!SdkSerde}.
Implicit Types hooks : Hooks H.

Definition served {T} (kind : string) (h : option T) : list string := match h with Some _ => [kind] | None => [] end.

(** [Hooks::kinds] *)
Definition kinds hooks : list string :=
  served "journal" (hk_journal hooks) ++ served "inventory" (hk_inventory hooks) ++ served "execute" (hk_execute hooks)
  ++ served "probe" (hk_probe hooks) ++ served "approval" (hk_approval hooks) ++ served "secrets" (hk_secrets hooks)
  ++ served "notify" (hk_notify hooks) ++ served "scheduler" (hk_scheduler hooks).

Definition registration (name : string) hooks : Registration :=
  mkRegistration name (kinds hooks) HOOK_PROTOCOL (hk_filesystem hooks) (hk_stdin_preamble hooks).

Definition unserved (o : Op) : SdkRefusal := refusal_unserved (op_kind o) (op_name o).

(** [self.x.as_mut().ok_or_else(|| unserved(op))] *)
Definition handler {T} (o : Op) (h : option T) : H -> H * Answer T :=
  match h with Some t => mret t | None => mthrow (unserved o) end.

(** [from_value(.., "body")] *)
Definition read_body (r : Json) : Answer (list RPrim) :=
  match body_of (default (JsArr []) (js_get "body" r)) with
  | Ok body => Ok body
  | Err e => Err (mkSdkRefusal (concats ["cannot read `body`: "; e]))
  end.

Definition text_of (r : Json) (k : string) : string := default EmptyString (get_str k r).
Definition value_of (r : Json) (k : string) : Json := default JsNull (js_get k r).

(** [.map(|()| json!({}))] *)
Definition no_fields (m : H -> H * Answer unit) : H -> H * Answer Json := do! m in mret (JsObj []).

Definition authenticator_json (a : Authenticator) : Json := js_object_of [("id", JsStr (auth_id a)); ("human", JsBool (auth_human a))].

(** The ops of [execute]. *)
Definition dispatch_execute hooks (o : Op) (r : Json) : H -> H * Answer Json :=
  let s := text_of r in
  let! h := handler o (hk_execute hooks) in
  if op_name o == "run" then
    let! body := lift (read_body r) in
    let! out := te_run h (s "host") (s "instance") body in mret (js_object_of [("output", output_json out)])
  else if op_name o == "read_fact" then
    let! content := te_read_fact h (s "host") (s "shape") in
    mret (match content with None => JsObj [] | Some c => js_object_of [("content", JsStr c)] end)
  else if op_name o == "bootstrap_state" then
    let! st := te_bootstrap_state h (s "host") in mret (js_object_of [("state", bootstrap_json st)])
  else if op_name o == "clock" then
    let! t := te_clock h (s "host") in mret (js_object_of [("epoch_s", js_num t)])
  else if op_name o == "instance_dir_create" then no_fields (te_instance_dir_create h (s "host") (s "instance"))
  else if op_name o == "instance_dir_remove" then no_fields (te_instance_dir_remove h (s "host") (s "instance"))
  else if op_name o == "instance_dir_list" then
    let! dirs := te_instance_dir_list h (s "host") in mret (js_object_of [("dirs", JsArr (map dir_json dirs))])
  else if op_name o == "put_file" then
    let mode := wrap32 (default 0%N (get_u64 "mode" r)) in
    no_fields (te_put_file h (s "host") (s "instance") (s "rel") (s "content") mode)
  else if op_name o == "replace_file" then no_fields (te_replace_file h (s "host") (s "instance") (s "rel") (s "content"))
  else if op_name o == "get_file" then
    let! c := te_get_file h (s "host") (s "instance") (s "rel") in mret (js_object_of [("content", JsStr c)])
  else if op_name o == "remove_file" then no_fields (te_remove_file h (s "host") (s "instance") (s "rel"))
  else if op_name o == "host_lock" then no_fields (te_host_lock h (s "host"))
  else mthrow (mkSdkRefusal (concats [op_kind o; "."; op_name o; " is unhandled"])).

Definition dispatch_approval hooks (o : Op) (r : Json) : H -> H * Answer Json :=
  let s := text_of r in
  let! h := handler o (hk_approval hooks) in
  if op_name o == "authenticators" then
    let! auths := ta_authenticators h in mret (js_object_of [("authenticators", JsArr (map authenticator_json auths))])
  else if op_name o == "challenge" then
    let! c := ta_challenge h (mkChallengeRequest (s "instance") (s "digest") (value_of r "scope") (value_of r "context")) in
    mret (js_object_of [("challenge", JsStr c)])
  else if op_name o == "verify" then
    let! v := ta_verify h (mkVerifyRequest (s "instance") (s "digest") (value_of r "scope") (s "authenticator") (s "proof")) in
    mret (js_object_of [("verified", JsBool (sv_verified v)); ("reason", JsStr (sv_reason v))])
  else mthrow (mkSdkRefusal (concats [op_kind o; "."; op_name o; " is unhandled"])).

Definition dispatch_scheduler hooks (o : Op) (r : Json) : H -> H * Answer Json :=
  let deadline := get_u64 "deadline" r in
  let! h := handler o (hk_scheduler hooks) in
  let host := text_of r "host" in
  let artifact := text_of r "artifact" in
  if op_name o == "install" then no_fields (td_install h host artifact)
  else if op_name o == "arm" then no_fields (td_arm h host artifact deadline)
  else if op_name o == "rearm" then no_fields (td_rearm h host artifact deadline)
  else if op_name o == "disarm" then no_fields (td_disarm h host artifact)
  else if op_name o == "present" then
    let! p := td_present h host artifact in mret (js_object_of [("present", presence_to_value p)])
  else mthrow (mkSdkRefusal (concats ["scheduler."; op_name o; " is unhandled"])).

(** [Hooks::dispatch]. An op without a row does not come here; where the source names an op,
    the handler is looked up first. *)
Definition dispatch hooks (o : Op) (r : Json) : H -> H * Answer Json :=
  let names kind op := (op_kind o == kind) && (op_name o == op) in
  let s := text_of r in
  if names "journal" "append" then
    let! h := handler o (hk_journal hooks) in
    match js_get "entry" r with
    | Some entry => no_fields (tj_append h entry)
    | None => mthrow (mkSdkRefusal "journal.append without an entry")
    end
  else if names "inventory" "list" then
    let! h := handler o (hk_inventory hooks) in
    let! hosts := ti_list h in mret (js_object_of [("hosts", JsArr (map host_json hosts))])
  else if op_kind o == "execute" then dispatch_execute hooks o r
  else if names "probe" "observe" then
    let! h := handler o (hk_probe hooks) in
    let! fact := tp_observe h (s "host") (s "probe") in mret (js_object_of [("fact", observation_json fact)])
  else if op_kind o == "approval" then dispatch_approval hooks o r
  else if names "secrets" "resolve" then
    let! h := handler o (hk_secrets hooks) in
    let! v := ts_resolve h (s "ref") in mret (js_object_of [("value", JsStr v)])
  else if names "secrets" "deliver" then
    let! h := handler o (hk_secrets hooks) in
    let! d := ts_deliver h (s "instance") (s "label") (s "value") in
    mret (js_object_of [("accepted", JsBool (dl_accepted d)); ("receipt", JsStr (dl_receipt d))])
  else if names "notify" "deliver" then
    let! h := handler o (hk_notify hooks) in
    no_fields (tn_deliver h (s "level") (s "subject") (s "body"))
  else if op_kind o == "scheduler" then dispatch_scheduler hooks o r
  else mthrow (mkSdkRefusal (concats [op_kind o; "."; op_name o; " is unhandled"])).

(** [Hooks::answer] *)
Definition answer hooks (request : Json) : H -> H * Json :=
  fun w =>
    let id := value_of request "id" in
    let kind := text_of request "kind" in
    let op := text_of request "op" in
    match op_find kind op with
    | None => (w, refusal_frame id (mkSdkRefusal (concats [kind; "."; op; " is not an op of this protocol"])))
    | Some o =>
        match dispatch hooks o request w with
        | (w, Ok fields) => (w, ok_frame id fields)
        | (w, Err why) => (w, refusal_frame id why)
        end
    end.
End Hooks.

(** ** The serve loops *)

(** What reading a line gives: its text, [""] at the end; a line that is not UTF-8, or
    another error of the stream. *)
Inductive ReadError := RdInvalid (m : string) | RdIo (m : string).

Record ServeOptions := mkServeOptions {
  so_name : string;
  so_identity : option string;
  so_budget : option N;
}.

Definition serve_options (name : string) : ServeOptions := mkServeOptions name None None.

Section Serve.
Context {H : Type} `{!SdkSerde}.
(** serde_json's parser and printer; what the next write answers, after what was written; the
    time a handler took, in nanoseconds, by the states before and after it. *)
Context (from_str : string -> Result Json string) (to_string : Json -> string).
Context (refuses : list Json -> option ReadError) (took : H -> H -> N).

(** The reader: a result for each read to come, and the end of input after them. *)
Definition Input : Type := list (Result string ReadError).

Definition next_read (i : Input) : Result string ReadError * Input :=
  match i with [] => (Ok EmptyString, []) | r :: i => (r, i) end.

(** What [read_frame] makes of a line; [None] at the end of input, and a blank line is null. *)
Definition frame_of (line : string) : Result (option Json) ReadError :=
  if line == EmptyString then Ok None
  else if trim line == EmptyString then Ok (Some JsNull)
  else match from_str line with Ok v => Ok (Some v) | Err e => Err (RdInvalid e) end.

Definition read_frame (i : Input) : Result (option Json) ReadError * Input :=
  let '(r, i) := next_read i in (let? line := r in frame_of line, i).

(** [write_frame], a frame to a line. *)
Definition write_frame (v : Json) (out : list Json) : list Json * Result unit ReadError :=
  match refuses out with Some e => (out, Err e) | None => (out ++ [v], Ok tt) end.

Definition protocol_error (m : string) : ReadError := RdInvalid m.

Definition expect_frame (what : string) (i : Input) : Result Json ReadError * Input :=
  match read_frame i with
  | (Ok (Some v), i) => (if is_null v then Err (protocol_error ("the connection closed before " +:+ what)) else Ok v, i)
  | (Ok None, i) => (Err (protocol_error ("the connection closed before " +:+ what)), i)
  | (Err e, i) => (Err e, i)
  end.

Definition hello_frame (opts : ServeOptions) : Json :=
  let h := js_object_of [("id", js_num 0); ("verb", JsStr "hello"); ("proto", js_num 1)] in
  match so_identity opts with Some id => js_set "identity" (JsStr id) h | None => h end.

Definition handshake (hooks : Hooks H) (opts : ServeOptions) (hello : bool) (i : Input) (out : list Json) : Input * list Json * Result unit ReadError :=
  let said :=
    if hello then
      match write_frame (hello_frame opts) out with
      | (out, Err e) => (i, out, Err e)
      | (out, Ok _) =>
          match expect_frame "the daemon's hello reply" i with
          | (Err e, i) => (i, out, Err e)
          | (Ok reply, i) =>
              if is_true (js_pointer "/result/ok" reply) || is_true (js_get "ok" reply) then (i, out, Ok tt)
              else (i, out, Err (protocol_error ("the daemon refused the hello: " +:+ to_string reply)))
          end
      end
    else (i, out, Ok tt) in
  match said with
  | (i, out, Err e) => (i, out, Err e)
  | (i, out, Ok _) =>
      match write_frame (js_object_of [("register", registration_json (registration (so_name opts) hooks))]) out with
      | (out, Err e) => (i, out, Err e)
      | (out, Ok _) =>
          match expect_frame "the registration acknowledgement" i with
          | (Err e, i) => (i, out, Err e)
          | (Ok ack, i) =>
              if is_true (js_pointer "/register/ok" ack) then (i, out, Ok tt)
              else (i, out, Err (protocol_error ("registration was refused: " +:+ to_string ack)))
          end
      end
  end.

Definition as_millis (ns : N) : N := (ns / 1000000)%N.

Definition overrun (took budget : N) : SdkRefusal :=
  mkSdkRefusal (concats ["the handler took "; show (as_millis took); "ms, over its "; show (as_millis budget);
                         "ms budget; answering late is worse than answering no"]).

(** The reply of the loop: the answer, or where the handler overran its budget a refusal. *)
Definition timely_answer (hooks : Hooks H) (opts : ServeOptions) (frame : Json) (h : H) : H * Json :=
  let '(h', reply) := answer hooks frame h in
  (h', match so_budget opts with
       | Some budget =>
           if (budget <? took h h')%N && is_true (js_get "ok" reply) then refusal_frame (value_of frame "id") (overrun (took h h') budget)
           else reply
       | None => reply
       end).

(** A line the loop answers: a frame with a [kind] that is no event. *)
Definition is_request (frame : Json) : bool :=
  negb (is_null frame) && negb (bool_decide (is_Some (js_get "event" frame))) && bool_decide (is_Some (js_get "kind" frame)).

(** One turn of [pump] and the turns after it; [fuel] bounds the reads, and the end of the
    input is one. *)
Fixpoint pump_loop (hooks : Hooks H) (opts : ServeOptions) (fuel : nat) (i : Input) (h : H) (out : list Json) : H * list Json * option (Result unit ReadError) :=
  match fuel with
  | O => (h, out, None)
  | S fuel =>
      match read_frame i with
      | (Ok None, _) => (h, out, Some (Ok tt))
      | (Err (RdInvalid _), i) => pump_loop hooks opts fuel i h out
      | (Err e, _) => (h, out, Some (Err e))
      | (Ok (Some frame), i) =>
          if is_request frame then
            let '(h, reply) := timely_answer hooks opts frame h in
            match write_frame reply out with
            | (out, Err e) => (h, out, Some (Err e))
            | (out, Ok _) => pump_loop hooks opts fuel i h out
            end
          else pump_loop hooks opts fuel i h out
      end
  end.

Definition pump (hooks : Hooks H) (opts : ServeOptions) (i : Input) (h : H) (out : list Json) : H * list Json * option (Result unit ReadError) :=
  pump_loop hooks opts (S (length i)) i h out.

(** [serve_stdio] and [serve_socket], which differ in the [hello]. *)
Definition serve (hello : bool) (hooks : Hooks H) (opts : ServeOptions) (i : Input) (h : H) : H * list Json * option (Result unit ReadError) :=
  match handshake hooks opts hello i [] with
  | (_, out, Err e) => (h, out, Some (Err e))
  | (i, out, Ok _) => pump hooks opts i h out
  end.

Definition serve_stdio := serve false.
Definition serve_socket := serve true.
End Serve.

(** ** What a reply carries *)

(** The fields of an answer: those the row requires, and neither [id] nor [ok]. *)
Definition answer_fields (o : Op) (fields : Json) : bool :=
  match fields with
  | JsObj m => forallb (fun k => negb (k == "id") && negb (k == "ok")) (map fst m)
               && forallb (fun f => bool_decide (f ∈ map fst m)) (op_required_reply o)
  | _ => false
  end.

Lemma merged_get k (fields : BMap Json) m :
  js_get k (foldl (fun v e => js_set (fst e) (snd e) v) (JsObj m) fields)
  = bm_get k (foldl (fun v e => bm_insert (fst e) (snd e) v) m fields).
Proof. revert m. induction fields as [|e fields IH]; intros m; [done|]. cbn [foldl js_set]. apply IH. Qed.

Lemma merged_there {A} k (fields m : BMap A) : k ∈ map fst fields \/ is_Some (bm_get k m) ->
  is_Some (bm_get k (foldl (fun v e => bm_insert (fst e) (snd e) v) m fields)).
Proof.
  revert m. induction fields as [|[k' x] fields IH]; intros m Hk; [by destruct Hk as [?%elem_of_nil|]|]. cbn [foldl fst snd map] in *.
  apply IH. destruct (decide (k = k')) as [->|Hne]; [right; rewrite bm_get_insert; by eexists|].
  rewrite bm_get_insert_ne by done. destruct Hk as [Hk|Hk]; [|by right]. left. by apply elem_of_cons in Hk as [->|Hk].
Qed.

Lemma ok_frame_spec o id fields : answer_fields o fields = true ->
  js_get "id" (ok_frame id fields) = Some id /\ get_bool "ok" (ok_frame id fields) = Some true
  /\ Forall (fun f => is_Some (js_get f (ok_frame id fields))) (op_required_reply o).
Proof.
  destruct fields as [| | | | |m]; try done. intros [Hown Hreq]%andb_true_iff.
  assert (Hn : forall k, k = "id" \/ k = "ok" -> k ∉ map fst m).
  { intros k Hk Hin. rewrite forallb_forall in Hown. apply list_elem_of_In, Hown, andb_true_iff in Hin as [H1 H2].
    apply negb_true_iff, bool_decide_eq_false in H1, H2. naive_solver. }
  unfold ok_frame, get_bool. unfold js_object_of. rewrite !merged_get. split_and!.
  - rewrite merged_other by (apply Hn; by left). done.
  - rewrite merged_other by (apply Hn; by right). done.
  - apply Forall_forall. intros f Hf. rewrite merged_get. apply merged_there. left. rewrite forallb_forall in Hreq.
    by apply list_elem_of_In, Hreq, bool_decide_eq_true in Hf.
Qed.

Lemma refusal_frame_spec id why :
  js_get "id" (refusal_frame id why) = Some id /\ get_bool "ok" (refusal_frame id why) = Some false
  /\ get_str "error" (refusal_frame id why) = Some (refusal_why why).
Proof. done. Qed.

Section Replies.
Context {H : Type} `{!SdkSerde} (hooks : Hooks H).

Lemma handler_ok {T} o (h : option T) (w w' : H) t : handler o h w = (w', Ok t) -> w' = w /\ h = Some t.
Proof. unfold handler. destruct h; by intros [= <- <-]. Qed.

Lemma served_kind {T} kind (h : option T) t : h = Some t -> kind ∈ served kind h.
Proof. intros ->. by constructor. Qed.

(** Each way out of a method: its handler is there, and what the last call gave. *)
Ltac each_answer :=
  repeat match goal with
  | Hd : mthen _ _ ?w = (_, Ok _) |- _ =>
      unfold mthen at 1 in Hd; cbv beta in Hd;
      match type of Hd with (match ?m with _ => _ end) = _ => let E := fresh "E" in destruct m as [? [?|?]] eqn:E; [|done] end
  | Hd : no_fields _ _ = _ |- _ => unfold no_fields in Hd
  | Hd : match js_get ?k ?v with _ => _ end _ = _ |- _ => destruct (js_get k v); [|done]
  | Hd : mret _ _ = _ |- _ => unfold mret in Hd; injection Hd as <- <-
  | Hd : handler _ _ _ = (_, Ok _) |- _ => apply handler_ok in Hd as [-> Hd]
  end.

(** The comparison of two names that are there. *)
Ltac names_in Hd :=
  cbn [op_kind op_name] in Hd;
  repeat match type of Hd with
  | context [@bool_decide (?a = ?b) ?d] => let v := eval vm_compute in (@bool_decide (a = b) d) in change (@bool_decide (a = b) d) with v in Hd
  end;
  cbn [andb] in Hd; cbv iota in Hd.

Lemma dispatch_answers o r w w' fields : o ∈ OPS -> dispatch hooks o r w = (w', Ok fields) ->
  answer_fields o fields = true /\ op_kind o ∈ kinds hooks.
Proof.
  intros Ho Hd. unfold kinds. unfold OPS in Ho. op_cases; unfold dispatch, dispatch_execute, dispatch_approval, dispatch_scheduler in Hd; cbv zeta in Hd;
    names_in Hd; each_answer; rewrite ?elem_of_app.
  all: split; [first [reflexivity|by match goal with c : option string |- _ => destruct c end]|].
  all: repeat first [by eapply served_kind|left; by eapply served_kind|right].
Qed.

Lemma op_find_named k n o : op_find k n = Some o -> o ∈ OPS /\ k <> EmptyString /\ n <> EmptyString.
Proof.
  intros [Ho [Hk%bool_decide_eq_true Hn%bool_decide_eq_true]%andb_true_iff]%find_some. apply list_elem_of_In in Ho. subst k n. split; [done|].
  assert (Hall : Forall (fun o => op_kind o <> EmptyString /\ op_name o <> EmptyString) OPS) by (unfold OPS; by repeat constructor).
  by eapply Forall_forall in Hall.
Qed.

Definition replied (request reply : Json) : Prop :=
  value_of reply "id" = value_of request "id"
  /\ match get_bool "ok" reply with
     | Some true => exists o, row_of request = Some o /\ op_kind o ∈ kinds hooks
                              /\ Forall (fun f => is_Some (js_get f reply)) (op_required_reply o)
     | Some false => is_Some (get_str "error" reply)
     | None => False
     end.

Lemma refusal_replied request why : replied request (refusal_frame (value_of request "id") why).
Proof. destruct (refusal_frame_spec (value_of request "id") why) as (Hi & Hk & He). unfold replied. rewrite Hk, He. by split. Qed.

(** What an SDK hook writes for a request, whatever the handlers do: the id of the request,
    and a refusal with its reason, or an answer to an op of a kind the hook registered for
    that has each field the op requires. A refusal is all an op gets that the hook does not
    serve, or the protocol does not have. *)
Theorem sdk_replies_are_admitted (request : Json) (w : H) : replied request (snd (answer hooks request w)).
Proof.
  unfold answer. destruct (op_find (text_of request "kind") (text_of request "op")) as [o|] eqn:Ho; [|by apply refusal_replied].
  destruct (dispatch hooks o request w) as [w' [fields|why]] eqn:Hd; [|by apply refusal_replied]. cbn [snd].
  destruct (op_find_named _ _ _ Ho) as (Hin & Hkind & Hname). apply dispatch_answers in Hd as [Hf Hk]; [|done]. apply (ok_frame_spec o (value_of request "id")) in Hf as (Hi & Hb & Hr).
  split; [unfold value_of at 1; by rewrite Hi|]. rewrite Hb. exists o. split_and!; [|done|done].
  unfold row_of. unfold text_of in *. by destruct (get_str "kind" request), (get_str "op" request).
Qed.
End Replies.

(** ** Over the wire *)

(** What serde's readers make of what its writers wrote. *)
Class SdkSerdeLaws `{!HookSerde} `{!SdkSerde} : Prop := {
  body_read : forall body, body_of (JsArr (map prim_json body)) = Ok body;
  bootstrap_read : forall b, bootstrap_of (bootstrap_json b) = Ok b;
  dirs_read : forall ds, dirs_of (JsArr (map dir_json ds)) = Ok ds;
  authenticators_read : forall auths, authenticators_of (JsArr (map authenticator_json auths)) = Ok auths;
  hosts_read : forall hosts, hosts_of (JsArr (map host_json hosts)) = Ok hosts;
}.

(** [m] does to what [abs] sees of its state what [d] does, with the same result. *)
Definition simulates {W V A} (abs : W -> V) (m : W -> W * A) (d : V -> V * A) : Prop :=
  forall w, abs (fst (m w)) = fst (d (abs w)) /\ snd (m w) = snd (d (abs w)).

Section Simulations.
Context {W V X Y : Type} (abs : W -> V).

Record simulates_executor `{!Executor W X} `{!Executor V Y} (x : X) (y : Y) : Prop := {
  sim_locus : forall w, ex_locus x w = ex_locus y (abs w);
  sim_capabilities : forall w, ex_capabilities x w = ex_capabilities y (abs w);
  sim_run : forall host inst body, simulates abs (ex_run x host inst body) (ex_run y host inst body);
  sim_observe : forall host probe, simulates abs (ex_observe x host probe) (ex_observe y host probe);
  sim_read_fact : forall host shape, simulates abs (ex_read_fact x host shape) (ex_read_fact y host shape);
  sim_bootstrap_state : forall host, simulates abs (ex_bootstrap_state x host) (ex_bootstrap_state y host);
  sim_clock_now : forall host, simulates abs (ex_clock_now x host) (ex_clock_now y host);
  sim_dir_create : forall host inst, simulates abs (ex_instance_dir_create x host inst) (ex_instance_dir_create y host inst);
  sim_dir_remove : forall host inst, simulates abs (ex_instance_dir_remove x host inst) (ex_instance_dir_remove y host inst);
  sim_dir_list : forall host, simulates abs (ex_instance_dir_list x host) (ex_instance_dir_list y host);
  sim_put : forall host inst rel bytes mode, simulates abs (ex_put_file x host inst rel bytes mode) (ex_put_file y host inst rel bytes mode);
  sim_replace : forall host inst rel bytes, simulates abs (ex_replace_file x host inst rel bytes) (ex_replace_file y host inst rel bytes);
  sim_get : forall host inst rel, simulates abs (ex_get_file x host inst rel) (ex_get_file y host inst rel);
  sim_remove : forall host inst rel, simulates abs (ex_remove_file x host inst rel) (ex_remove_file y host inst rel);
  sim_lock : forall host, simulates abs (ex_host_lock x host) (ex_host_lock y host);
  sim_unlock : forall host w, abs (ex_unlock x host w) = ex_unlock y host (abs w);
}.

Record simulates_scheduler {Z} `{!Scheduler W Z X} `{!Scheduler V Z Y} (x : X) (y : Y) : Prop := {
  sim_name : forall w, sc_scheduler_name x w = sc_scheduler_name y (abs w);
  sim_install : forall z host job, simulates abs (sc_install x z host job) (sc_install y z host job);
  sim_arm : forall z host job at_, simulates abs (sc_arm x z host job at_) (sc_arm y z host job at_);
  sim_rearm : forall z host job at_, simulates abs (sc_rearm x z host job at_) (sc_rearm y z host job at_);
  sim_disarm : forall z host job, simulates abs (sc_disarm x z host job) (sc_disarm y z host job);
  sim_present : forall z host job, simulates abs (sc_present x z host job) (sc_present y z host job);
}.

Record simulates_approval `{!Approval W X} `{!Approval V Y} (x : X) (y : Y) : Prop := {
  sim_authenticators : simulates abs (ap_authenticators x) (ap_authenticators y);
  sim_challenge : forall r, simulates abs (ap_challenge x r) (ap_challenge y r);
  sim_verify : forall r, simulates abs (ap_verify x r) (ap_verify y r);
  sim_approves : forall w, ap_approves_everything x w = ap_approves_everything y (abs w);
}.
End Simulations.

Section Wire.
Context {H : Type} {Hhs : HookSerde} {Hss : SdkSerde} (hooks : Hooks H) (name transport : string) (deadline : N).

(** The engine's end of the connection and the state of the handlers. *)
Record SdkWorld := mkSdkWorld { sw_link : LineLink; sw_state : H }.

(** [LineLink::call] with the hook at the other end of it: the caller writes its line, a turn
    of [pump] answers it, the engine's [pump] delivers the reply before the deadline. *)
Definition sdk_call (request : Json) (w : SdkWorld) : SdkWorld * Result Json HookError :=
  let '(l, (id, c, sent)) := call_begin request (sw_link w) in
  let l := fst (call_write id sent (Ok tt) l) in
  let '(h, reply) := answer hooks sent (sw_state w) in
  match call_end id c false (pump_line (Some reply) l) with
  | Some (l, r) => (mkSdkWorld l h, r)
  | None => (mkSdkWorld l h, Err HkSilent)
  end.

#[export] Instance sdk_link : HookLink SdkWorld unit.
Proof using Hss hooks.
  refine {| hl_call := fun _ request _ w => sdk_call request w |}.
  intros _ request _ w w' reply. unfold sdk_call. destruct (call_begin _ _) as [l [[id c] sent]].
  destruct (answer _ _ _) as [h r]. destruct (call_end _ _ _ _) as [[l1 x]|] eqn:He; [|done]. intros [= _ ->].
  revert He. unfold call_end. destruct (ll_received _ !! c); [|by destruct (_ || _)]. intros [= _ Hr]. by apply reply_of_ok in Hr as [-> Hok].
Defined.

Definition sdk_registry (w : SdkWorld) : BMap (Registered unit) :=
  [(name, mkRegistered (registration name hooks) "ops" "pid 1" tt)].

(** ** The handlers, called without a wire *)

(** The call of a handler the hook may not have. *)
Definition asked {T A} (o : string * string) (h : option T) (call : T -> H -> H * Answer A) : H -> H * Answer A :=
  match h with None => mthrow (refusal_unserved (fst o) (snd o)) | Some t => call t end.

(** A refusal is all that goes wrong. *)
Definition directly {T A B} (o : string * string) (h : option T) (call : T -> H -> H * Answer A) (f : A -> B) : H -> H * Exec B :=
  fun w => let '(w, r) := asked o h call w in (w, match r with Ok x => Ok (f x) | Err why => Err (ExFailed (refusal_why why)) end).

#[export] Instance direct_executor : Executor H unit := {|
  ex_locus _ _ := LkHook transport;
  ex_capabilities _ _ := mkExecCaps (hk_filesystem hooks) (hk_stdin_preamble hooks);
  ex_run _ host inst body := directly ("execute", "run") (hk_execute hooks) (fun t => te_run t (host_name host) inst body) id;
  ex_observe _ host probe := directly ("probe", "observe") (hk_probe hooks) (fun t => tp_observe t (host_name host) (pr_name probe)) id;
  ex_read_fact _ host shape := directly ("execute", "read_fact") (hk_execute hooks) (fun t => te_read_fact t (host_name host) shape) id;
  ex_bootstrap_state _ host := directly ("execute", "bootstrap_state") (hk_execute hooks) (fun t => te_bootstrap_state t (host_name host)) id;
  ex_clock_now _ host w :=
    match directly ("execute", "clock") (hk_execute hooks) (fun t => te_clock t (host_name host)) Some w with
    | (w, Err _) => (w, Ok None)
    | (w, Ok t) => (w, Ok t)
    end;
  ex_instance_dir_create _ host inst :=
    directly ("execute", "instance_dir_create") (hk_execute hooks) (fun t => te_instance_dir_create t (host_name host) inst) id;
  ex_instance_dir_remove _ host inst :=
    directly ("execute", "instance_dir_remove") (hk_execute hooks) (fun t => te_instance_dir_remove t (host_name host) inst) id;
  ex_instance_dir_list _ host := directly ("execute", "instance_dir_list") (hk_execute hooks) (fun t => te_instance_dir_list t (host_name host)) id;
  ex_put_file _ host inst rel bytes mode :=
    directly ("execute", "put_file") (hk_execute hooks)
      (fun t => te_put_file t (host_name host) inst rel (from_utf8_lossy bytes) (wrap32 mode)) id;
  ex_replace_file _ host inst rel bytes :=
    directly ("execute", "replace_file") (hk_execute hooks) (fun t => te_replace_file t (host_name host) inst rel (from_utf8_lossy bytes)) id;
  ex_get_file _ host inst rel := directly ("execute", "get_file") (hk_execute hooks) (fun t => te_get_file t (host_name host) inst rel) id;
  ex_remove_file _ host inst rel := directly ("execute", "remove_file") (hk_execute hooks) (fun t => te_remove_file t (host_name host) inst rel) id;
  ex_host_lock _ host := directly ("execute", "host_lock") (hk_execute hooks) (fun t => te_host_lock t (host_name host)) id;
  ex_unlock _ _ w := w;
|}.

Definition presence_of_sdk (p : SdkPresence) : Presence :=
  match p with SpPresent => Present | SpAbsent => Absent | SpUnknown => PresenceUnknown end.

#[export] Instance direct_scheduler : Scheduler H unit unit := {|
  sc_scheduler_name _ _ := name;
  sc_install _ _ host job := directly ("scheduler", "install") (hk_scheduler hooks) (fun t => td_install t (host_name host) (jb_artifact job)) id;
  sc_arm _ _ host job at_ := directly ("scheduler", "arm") (hk_scheduler hooks) (fun t => td_arm t (host_name host) (jb_artifact job) (Some at_)) id;
  sc_rearm _ _ host job at_ :=
    directly ("scheduler", "rearm") (hk_scheduler hooks) (fun t => td_rearm t (host_name host) (jb_artifact job) (Some at_)) id;
  sc_disarm _ _ host job := directly ("scheduler", "disarm") (hk_scheduler hooks) (fun t => td_disarm t (host_name host) (jb_artifact job)) id;
  sc_present _ _ host job :=
    directly ("scheduler", "present") (hk_scheduler hooks) (fun t => td_present t (host_name host) (jb_artifact job)) presence_of_sdk;
|}.

#[export] Instance direct_approval : Approval H unit := {|
  ap_authenticators _ := directly ("approval", "authenticators") (hk_approval hooks) ta_authenticators id;
  ap_challenge _ r :=
    directly ("approval", "challenge") (hk_approval hooks)
      (fun t => ta_challenge t (mkChallengeRequest (pq_instance r) (to_hex (pq_digest r)) (scope_json (pq_scope r)) (JsStr (pq_context r)))) id;
  ap_verify _ r :=
    directly ("approval", "verify") (hk_approval hooks)
      (fun t => ta_verify t (mkVerifyRequest (pq_instance r) (to_hex (pq_digest r)) (scope_json (pq_scope r)) (pq_authenticator r) (pq_proof r)))
      (fun v => mkVerified (sv_verified v) (sv_reason v));
  ap_approves_everything _ _ := false;
|}.

(** ** A call crosses *)

Lemma bm_get_numbered n m : value_of (js_set "id" (js_num n) (JsObj m)) "id" = js_num n.
Proof. unfold value_of. cbn [js_set js_get]. by rewrite bm_get_insert. Qed.

(** A caller that waits on the id of a reply gets it. *)
Lemma delivered_call_ends reply id c late l : get_u64 "id" reply = Some id -> ll_pending l !! id = Some c ->
  exists l', call_end id c late (pump_line (Some reply) l) = Some (l', reply_of reply).
Proof.
  intros Hr Hp. unfold pump_line, link_deliver. rewrite Hr, Hp. unfold call_end. cbn [set_received ll_received set_pending].
  rewrite lookup_insert_eq. by eexists.
Qed.

(** The reply of the hook is the answer of the call. *)
Lemma sdk_call_answers (m : BMap Json) (w : SdkWorld) :
  let id := ll_next_id (sw_link w) in
  let '(h, reply) := answer hooks (js_set "id" (js_num id) (fst (guard_secrets (JsObj m)))) (sw_state w) in
  exists l, sdk_call (JsObj m) w = (mkSdkWorld l h, reply_of reply).
Proof.
  cbv zeta. unfold sdk_call, call_begin. destruct (guard_object m) as [m' Hm'].
  destruct (guard_secrets (JsObj m)) as [sent dropped]. cbn [fst] in *. subst sent.
  cbn [set_next_id ll_channels set_channels]. set (id := ll_next_id (sw_link w)). set (c := ll_channels _). cbv zeta.
  destruct (answer hooks _ _) as [h reply] eqn:Ha. cbn [call_write fst].
  pose proof (sdk_replies_are_admitted hooks (js_set "id" (js_num id) (JsObj m')) (sw_state w)) as [Hid _]. rewrite Ha in Hid. cbn [snd] in Hid.
  rewrite bm_get_numbered in Hid. assert (Hr : get_u64 "id" reply = Some id).
  { unfold get_u64. unfold value_of in Hid. destruct (js_get "id" reply); cbn in Hid |- *; by subst. }
  destruct (delivered_call_ends reply id c false (write_down (WLine (js_set "id" (js_num id) (JsObj m')))
    (set_pending (<[id := c]> (ll_pending (set_channels (S c) (set_next_id (wrap64 (id + 1)) (sw_link w)))))
       (set_channels (S c) (set_next_id (wrap64 (id + 1)) (sw_link w)))))) as [l Hl]; [done| |exists l; by rewrite Hl].
  unfold write_down. case_match; cbn [set_pending set_written ll_pending]; by rewrite lookup_insert_eq.
Qed.

(** A request the hook hands to a handler: its op has a row, and [dispatch] is the handler's
    call with the fields of its answer. *)
Definition handed {T A} (request : Json) (o : string * string) (h : option T) (call : T -> H -> H * Answer A) (fields : A -> Json) : Prop :=
  (exists m, request = JsObj m)
  /\ forall id, let sent := js_set "id" id (fst (guard_secrets request)) in
      text_of sent "kind" = fst o /\ text_of sent "op" = snd o /\ value_of sent "id" = id
      /\ exists row, op_find (fst o) (snd o) = Some row
                     /\ dispatch hooks row sent = (let! t := handler row h in let! x := call t in mret (fields x)).

Lemma handed_answer {T A} {request o h} {call : T -> H -> H * Answer A} {fields} : handed request o h call fields -> forall id w,
  answer hooks (js_set "id" id (fst (guard_secrets request))) w
  = let '(w, r) := asked o h call w in (w, match r with Ok x => ok_frame id (fields x) | Err why => refusal_frame id why end).
Proof.
  intros [_ Hh] id w. destruct (Hh id) as (Hk & Hn & Hid & row & Hrow & Hd). unfold answer. rewrite Hk, Hn, Hid, Hrow, Hd.
  assert (Hu : unserved row = refusal_unserved (fst o) (snd o)).
  { apply find_some in Hrow as [_ [H1%bool_decide_eq_true H2%bool_decide_eq_true]%andb_true_iff]. unfold unserved. by rewrite H1, H2. }
  unfold asked, mthen, handler, mret, mthrow. destruct h as [t|]; [|by rewrite Hu]. by destruct (call t w) as [w' [x|why]].
Qed.

(** What the engine gets from the wire for it. *)
Lemma handed_call {T A} {request o h} {call : T -> H -> H * Answer A} {fields} : handed request o h call fields ->
  (forall id x, get_bool "ok" (ok_frame id (fields x)) = Some true) ->
  forall w, let '(h', r) := asked o h call (sw_state w) in
  exists l id, sdk_call request w
    = (mkSdkWorld l h', match r with Ok x => Ok (ok_frame id (fields x)) | Err why => Err (HkRefused (refusal_why why)) end).
Proof.
  intros Hh Hok w. pose proof Hh as [[m ->] _]. pose proof (sdk_call_answers m w) as Hc. cbv zeta in Hc.
  rewrite (handed_answer Hh) in Hc. destruct (asked o h call (sw_state w)) as [h' [x|why]]; destruct Hc as [l Hc].
  - exists l, (js_num (ll_next_id (sw_link w))). rewrite Hc. unfold reply_of. by rewrite Hok.
  - exists l, JsNull. rewrite Hc. done.
Qed.

Lemma sdk_linked w : link name (sdk_registry w) = Ok (tt, registration name hooks).
Proof. unfold link, sdk_registry, bm_get. cbn [List.find fst]. by rewrite bool_decide_eq_true_2 by done. Qed.

Lemma handed_adapter_call {T A} {request o h} {call : T -> H -> H * Answer A} {fields} d : handed request o h call fields ->
  (forall id x, get_bool "ok" (ok_frame id (fields x)) = Some true) ->
  forall w, let '(h', r) := asked o h call (sw_state w) in
  exists l id, adapter_call sdk_registry name d request w
    = (mkSdkWorld l h', match r with Ok x => Ok (ok_frame id (fields x)) | Err why => Err (ExFailed (refusal_why why)) end).
Proof.
  intros Hh Hok w. pose proof (handed_call Hh Hok w) as Hc. destruct (asked o h call (sw_state w)) as [h' r].
  destruct Hc as (l & id & Hc). exists l, id. unfold adapter_call. rewrite sdk_linked. cbn [hl_call sdk_link]. rewrite Hc. by destruct r.
Qed.

(** A handed request whose answer is read back is the handler's call. *)
Lemma call_crosses {T A B} {request : Json} {o h} {call : T -> H -> H * Answer A} {fields} (read : Json -> Exec B) (f : A -> B) (d : N) :
  handed request o h call fields ->
  (forall id x, get_bool "ok" (ok_frame id (fields x)) = Some true /\ read (ok_frame id (fields x)) = Ok (f x)) ->
  simulates sw_state (fun w => reading read (adapter_call sdk_registry name d request w)) (directly o h call f).
Proof.
  intros Hh Hr w. pose proof (handed_adapter_call d Hh (fun id x => proj1 (Hr id x)) w) as Hc. unfold directly.
  destruct (asked o h call (sw_state w)) as [h' r]. destruct Hc as (l & id & ->). unfold reading. cbn [fst snd sw_state]. split; [done|].
  destruct r as [x|why]; cbn [rbind]; [apply Hr|done].
Qed.

(** ** The adapters *)

Lemma lookup_of_entries {A B} (f : A -> B) (l : BMap A) k :
  (list_to_map (map (fun e => (fst e, f (snd e))) l) : gmap string B) !! k = f <$> bm_get k l.
Proof.
  unfold bm_get. induction l as [|[k' x] l IH]; [done|]. cbn [map list_to_map foldr List.find fst snd].
  case_bool_decide as Hk; [subst k'; by rewrite lookup_insert_eq|]. by rewrite lookup_insert_ne by done.
Qed.

Lemma map_json_read (m : gmap string string) :
  (list_to_map (map (fun e => (fst e, default EmptyString (js_str (snd e)))) (default [] (js_object (map_json m)))) : gmap string string) = m.
Proof.
  apply map_eq. intros k. cbn [map_json js_object default id]. etransitivity; [exact (lookup_of_entries (fun v => default EmptyString (js_str v)) _ k)|]. cbn [id].
  set (l := map (fun e => (fst e, JsStr (snd e))) (map_to_list m)).
  assert (Hl : map fst l = map fst (map_to_list m)) by (unfold l; rewrite map_map; by apply map_ext).
  destruct (m !! k) as [v|] eqn:Hk.
  - rewrite (bm_of_list_in k (JsStr v)); [done| |].
    + rewrite Hl. apply NoDup_fst_map_to_list.
    + apply list_elem_of_In, (in_map (fun e => (fst e, JsStr (snd e))) _ (k, v)), list_elem_of_In. by apply elem_of_map_to_list.
  - rewrite bm_of_list_other; [done|]. rewrite Hl. intros (kv & -> & Hin)%list_elem_of_fmap. destruct kv as [k' v].
    apply elem_of_map_to_list in Hin. cbn in Hk. congruence.
Qed.

Context {Hlaws : SdkSerdeLaws}.

(** By computation: the request as it is sent, and the answer as it is read. *)
Ltac handed := split; [by eexists|intros ?; split_and!; [reflexivity|reflexivity|reflexivity|eexists; split; reflexivity]].
Ltac crosses fields := intros; refine (call_crosses (fields := fields) _ _ _ _ _); [handed|try by intros; split].

Lemma run_handed host inst body :
  handed (execute_run host inst body) ("execute", "run") (hk_execute hooks) (fun t => te_run t host inst body)
    (fun out => js_object_of [("output", output_json out)]).
Proof using Hlaws.
  split; [by eexists|]. intros id. split_and!; [reflexivity|reflexivity|reflexivity|]. eexists. split; [reflexivity|].
  assert (Hb : read_body (js_set "id" id (fst (guard_secrets (execute_run host inst body)))) = Ok body).
  { unfold read_body. change (js_get "body" _) with (Some (JsArr (map prim_json body))). cbn [default]. unfold Datatypes.id. by rewrite body_read. }
  cbv zeta. etransitivity.
  { instantiate (1 := let! t := handler _ _ in let! body := lift (read_body (js_set "id" id (fst (guard_secrets (execute_run host inst body))))) in
                      let! out := te_run t host inst body in mret (js_object_of [("output", output_json out)])). reflexivity. }
  rewrite Hb. reflexivity.
Qed.

Lemma executor_crosses d :
  let _ := @hook_executor _ _ sdk_link _ sdk_registry in
  simulates_executor sw_state (mkHookExecutor name transport d) tt.
Proof using Hlaws.
  intros ex. split.
  - done.
  - intros w. cbn [ex_capabilities ex hook_executor hx_name]. by rewrite sdk_linked.
  - intros. refine (call_crosses _ _ _ (run_handed _ _ _) _). intros id [stdout outputs]. split; [reflexivity|].
    unfold Datatypes.id. rewrite <- (map_json_read outputs) at 2. reflexivity.
  - crosses (fun fact => js_object_of [("fact", observation_json fact)]). intros id [text [[]|]]; by split.
  - crosses (fun c : option string => match c with None => JsObj [] | Some c => js_object_of [("content", JsStr c)] end).
    intros id [c|]; by split.
  - crosses (fun st => js_object_of [("state", bootstrap_json st)]). intros id st. split; [done|].
    unfold read_state, need, field. change (js_get "state" _) with (Some (bootstrap_json st)). cbn [rbind]. by rewrite bootstrap_read.
  - intros host w. assert (Hh : handed (execute_op "clock" (host_name host) None) ("execute", "clock") (hk_execute hooks)
        (fun t => te_clock t (host_name host)) (fun t => js_object_of [("epoch_s", js_num t)])) by handed.
    pose proof (handed_adapter_call d Hh (fun _ _ => eq_refl) w) as Hc. cbn [ex_clock_now ex hook_executor direct_executor]. unfold hook_clock_now, directly.
    destruct (asked _ _ _ (sw_state w)) as [h' r]. destruct Hc as (l & id & Hc). cbn [hx_name hx_deadline]. rewrite Hc. by destruct r.
  - crosses (fun _ : unit => JsObj []). by intros ? [].
  - crosses (fun _ : unit => JsObj []). by intros ? [].
  - crosses (fun dirs => js_object_of [("dirs", JsArr (map dir_json dirs))]). intros id ds. split; [done|].
    unfold read_dirs, need, field. change (js_get "dirs" _) with (Some (JsArr (map dir_json ds))). cbn [rbind]. by rewrite dirs_read.
  - crosses (fun _ : unit => JsObj []). by intros ? [].
  - crosses (fun _ : unit => JsObj []). by intros ? [].
  - crosses (fun c => js_object_of [("content", JsStr c)]).
  - crosses (fun _ : unit => JsObj []). by intros ? [].
  - crosses (fun _ : unit => JsObj []). by intros ? [].
  - done.
Qed.

Lemma scheduler_crosses d :
  let _ := @hook_scheduler _ _ sdk_link sdk_registry unit in
  simulates_scheduler (Z := unit) sw_state (mkHookScheduler name d) tt.
Proof.
  intros sc. split; [done| | | | |]; try (crosses (fun _ : unit => JsObj []); by intros ? []).
  crosses (fun p => js_object_of [("present", presence_to_value p)]). by intros ? [].
Qed.

Lemma scope_crosses inst digest scope context :
  handed (approval_challenge inst digest (scope_json scope) (JsStr context)) ("approval", "challenge") (hk_approval hooks)
    (fun t => ta_challenge t (mkChallengeRequest inst digest (scope_json scope) (JsStr context)))
    (fun c => js_object_of [("challenge", JsStr c)]).
Proof. destruct scope; handed. Qed.

Lemma verify_crosses inst digest scope authenticator proof :
  handed (approval_verify inst digest (scope_json scope) authenticator proof) ("approval", "verify") (hk_approval hooks)
    (fun t => ta_verify t (mkVerifyRequest inst digest (scope_json scope) authenticator proof))
    (fun v => js_object_of [("verified", JsBool (sv_verified v)); ("reason", JsStr (sv_reason v))]).
Proof. destruct scope; handed. Qed.

Lemma approval_crosses d :
  let _ := @hook_approval _ _ sdk_link _ sdk_registry in
  simulates_approval sw_state (mkHookApproval name d) tt.
Proof using Hlaws.
  intros ap. split; [| | |done].
  - crosses (fun auths => js_object_of [("authenticators", JsArr (map authenticator_json auths))]). intros id auths. split; [done|].
    unfold read_authenticators, need, field. change (js_get "authenticators" _) with (Some (JsArr (map authenticator_json auths))).
    cbn [rbind]. by rewrite authenticators_read.
  - intros r. refine (call_crosses _ _ _ (scope_crosses _ _ _ _) _). by intros id c.
  - intros r. refine (call_crosses _ _ _ (verify_crosses _ _ _ _ _) _). by intros id [[] reason].
Qed.

(** The engine's wrappers of a call that is no method of a class. *)
Definition append_directly (e : Entry) : H -> H * option string :=
  fun w => let '(w, r) := asked ("journal", "append") (hk_journal hooks) (fun t => tj_append t (fst (scrub (entry_to_value e) "entry"))) w in
           (w, match r with Ok _ => None | Err why => Some (display_hook_error (HkRefused (refusal_why why))) end).

Definition list_directly : H -> H * Result (list EHost) HookError :=
  fun w => let '(w, r) := asked ("inventory", "list") (hk_inventory hooks) ti_list w in
           (w, match r with Ok hosts => Ok (map into_host hosts) | Err why => Err (HkRefused (refusal_why why)) end).

Lemma append_crosses d e : simulates sw_state (hook_sink_deliver sdk_registry (mkHookSink name d) e) (append_directly e).
Proof.
  intros w. unfold hook_sink_deliver, append_directly. cbn [hs_name]. rewrite sdk_linked. cbn [hl_call sdk_link].
  assert (Hh : handed (journal_append_request entry_to_value e) ("journal", "append") (hk_journal hooks)
            (fun t => tj_append t (fst (scrub (entry_to_value e) "entry"))) (fun _ => JsObj [])) by handed.
  pose proof (handed_call Hh (fun _ _ => eq_refl) w) as Hc. destruct (asked _ _ _ (sw_state w)) as [h' r].
  destruct Hc as (l & id & ->). by destruct r.
Qed.

Lemma list_crosses d : simulates sw_state (hook_inventory sdk_registry name d) list_directly.
Proof using Hlaws.
  intros w. unfold hook_inventory, list_directly. rewrite sdk_linked. cbn [hl_call sdk_link].
  assert (Hh : handed inventory_list ("inventory", "list") (hk_inventory hooks) ti_list (fun hosts => js_object_of [("hosts", JsArr (map host_json hosts))]))
    by handed.
  pose proof (handed_call Hh (fun _ _ => eq_refl) w) as Hc. destruct (asked _ _ _ (sw_state w)) as [h' r].
  destruct Hc as (l & id & ->). destruct r as [hosts|]; [|done]. cbn [rbind fst snd sw_state]. split; [done|].
  change (field _ "hosts") with (Ok (E := HookError) (JsArr (map host_json hosts))). cbn [rbind]. by rewrite hosts_read.
Qed.

(** C30. A hook on the SDK, behind its connection and the engine's adapters, is to the engine what
    its handlers are: each call of an adapter is the one call of the handler's method with the
    arguments of the engine, and gives the engine its answer, read back as it was, or its
    refusal. What a write may not carry is the exception: a file crosses as text, the rights
    as 32 bits, an entry without secrets. *)
Theorem sdk_hook_is_its_handlers (d : N) :
  (let _ := @hook_executor _ _ sdk_link _ sdk_registry in simulates_executor sw_state (mkHookExecutor name transport d) tt)
  /\ (let _ := @hook_scheduler _ _ sdk_link sdk_registry unit in simulates_scheduler (Z := unit) sw_state (mkHookScheduler name d) tt)
  /\ (let _ := @hook_approval _ _ sdk_link _ sdk_registry in simulates_approval sw_state (mkHookApproval name d) tt)
  /\ (forall e, simulates sw_state (hook_sink_deliver sdk_registry (mkHookSink name d) e) (append_directly e))
  /\ simulates sw_state (hook_inventory sdk_registry name d) list_directly
  /\ (forall reference, simulates sw_state (@so_resolve _ _ (hook_source sdk_registry) (mkHookSource name d) reference)
                          (directly ("secrets", "resolve") (hk_secrets hooks) (fun t => ts_resolve t reference) id))
  /\ (forall inst label value now until,
        simulates sw_state (@ac_deliver _ _ (hook_acceptor sdk_registry) (mkHookAcceptor name d) inst label value now until)
          (directly ("secrets", "deliver") (hk_secrets hooks) (fun t => ts_deliver t inst label value) dl_accepted))
  /\ (forall level subject body, simulates sw_state (@nt_deliver _ _ (hook_notify sdk_registry) (mkHookNotify name d) level subject body)
                                  (directly ("notify", "deliver") (hk_notify hooks) (fun t => tn_deliver t (level_word level) subject body) id)).
Proof using Hlaws.
  split_and!; [apply executor_crosses|apply scheduler_crosses|apply approval_crosses|apply append_crosses|apply list_crosses| | |].
  - crosses (fun v => js_object_of [("value", JsStr v)]).
  - crosses (fun v => js_object_of [("accepted", JsBool (dl_accepted v)); ("receipt", JsStr (dl_receipt v))]).
  - crosses (fun _ : unit => JsObj []). by intros ? [].
Qed.
End Wire.

(** ** The loop answers *)

Section Loop.
Context {H : Type} `{!SdkSerde} (from_str : string -> Result Json string) (refuses : list Json -> option ReadError) (took : H -> H -> N).

(** The requests among the lines up to the end of input or a broken stream; what is no JSON,
    no request or not UTF-8 is passed over. *)
Fixpoint requests_of (i : Input) : list Json :=
  match i with
  | [] => []
  | r :: i =>
      match rbind r (frame_of from_str) with
      | Ok None | Err (RdIo _) => []
      | Err (RdInvalid _) => requests_of i
      | Ok (Some frame) => if is_request frame then frame :: requests_of i else requests_of i
      end
  end.

(** The loop ends because the stream broke. *)
Fixpoint breaks (i : Input) : option string :=
  match i with
  | [] => None
  | r :: i =>
      match rbind r (frame_of from_str) with
      | Ok None => None
      | Err (RdIo e) => Some e
      | _ => breaks i
      end
  end.

Lemma timely_replied (hooks : Hooks H) opts frame w : replied hooks frame (snd (timely_answer took hooks opts frame w)).
Proof.
  unfold timely_answer. pose proof (sdk_replies_are_admitted hooks frame w) as Hr. destruct (answer hooks frame w) as [w' reply].
  cbn [snd] in *. destruct (so_budget opts) as [b|]; [|done]. destruct (_ && _); [|done]. apply refusal_replied.
Qed.

(** The loop of a hook ends with its input, and before that it writes one reply to each
    request among the lines, in their order, whatever else arrives and however slow the
    handlers are: a line that is none of its business ends nothing and costs no reply. *)
Theorem loop_answers_each_request (hooks : Hooks H) (opts : ServeOptions) (i : Input) (w : H) (out : list Json)
    (Hwrites : forall o, refuses o = None) :
  exists w' replies, pump from_str refuses took hooks opts i w out
                     = (w', out ++ replies, Some (match breaks i with None => Ok tt | Some e => Err (RdIo e) end))
                     /\ Forall2 (replied hooks) (requests_of i) replies.
Proof.
  unfold pump. revert w out. induction i as [|r i IH]; intros w out; cbn [length pump_loop requests_of breaks].
  - exists w, []. cbn. by rewrite app_nil_r.
  - unfold read_frame. cbn [next_read]. change (let? line := r in frame_of from_str line) with (rbind r (frame_of from_str)).
    destruct (rbind r (frame_of from_str)) as [[frame|]|[e|e]].
    + destruct (is_request frame); [|apply IH].
      destruct (timely_answer took hooks opts frame w) as [w1 reply] eqn:Ht. unfold write_frame. rewrite Hwrites.
      destruct (IH w1 (out ++ [reply])) as (w' & replies & Hp & Hf). exists w', (reply :: replies).
      rewrite <- app_assoc in Hp. split; [exact Hp|]. constructor; [|done].
      pose proof (timely_replied hooks opts frame w) as Hr. by rewrite Ht in Hr.
    + exists w, []. by rewrite app_nil_r.
    + apply IH.
    + exists w, []. by rewrite app_nil_r.
Qed.
End Loop.

(** ** Readers that fit the writers

    What the laws ask of serde's readers can be had: these read what the writers write. *)

Module Readers.
Definition need_key {A} (f : Json -> option A) (k : string) (v : Json) : Result A string :=
  match js_get k v ≫= f with Some x => Ok x | None => Err (concats ["missing field `"; k; "`"]) end.

Definition opt_key {A} (f : Json -> option A) (k : string) (v : Json) : option A := js_get k v ≫= f.

Definition resolved_at (v : Json) : option Resolved := t ← get_str "text" v; s ← get_bool "secret" v; Some (mkResolved t s).

Definition pair_at (v : Json) : option (string * Resolved) :=
  match v with JsArr [JsStr k; x] => r ← resolved_at x; Some (k, r) | _ => None end.

Definition items_at {A} (f : Json -> option A) (v : Json) : option (list A) := l ← js_array v; mapM f l.

Definition prim_at (v : Json) : option RPrim :=
  match v with
  | JsObj [(tag, x)] =>
      let text k := get_str k x in
      let resolved k := js_get k x ≫= resolved_at in
      if tag == "run" then c ← resolved "cmd"; e ← js_get "env" x ≫= items_at pair_at; Some (RRun c e (opt_key resolved_at "stdin" x))
      else if tag == "write" then s ← text "shape"; c ← resolved "content"; Some (RWrite s c)
      else if tag == "remove" then s ← text "shape"; Some (RRemove s)
      else if tag == "append" then s ← text "shape"; l ← resolved "line"; Some (RAppend s l)
      else if tag == "region_set" then s ← text "shape"; c ← resolved "content"; Some (RRegionSet s (opt_key js_str "anchor" x) c)
      else if tag == "region_clear" then s ← text "shape"; Some (RRegionClear s (opt_key js_str "anchor" x))
      else if tag == "stage" then n ← text "name"; c ← resolved "content"; m ← get_u64 "mode" x; Some (RStage n c m)
      else if tag == "hook" then n ← text "name"; a ← js_get "args" x ≫= items_at pair_at; Some (RHook n a)
      else if tag == "install" then n ← text "name"; Some (RInstall n)
      else if tag == "release" then n ← text "name"; Some (RRelease n)
      else if tag == "call" then p ← text "prim"; c ← resolved "cmd"; Some (RCall p c)
      else None
  | _ => None
  end.

Definition bootstrap_at (v : Json) : option BootstrapState :=
  a ← get_bool "rescind_root" v; b ← get_bool "group" v; c ← get_bool "instances_dir" v; d ← get_bool "lock" v; e ← get_bool "modes_ok" v;
  Some (mkBootstrapState a b c d e).

Definition dir_at (v : Json) : option InstanceDirState :=
  i ← get_str "instance" v; a ← get_bool "armed" v; f ← get_bool "fired" v; m ← get_bool "modes_ok" v; Some (mkInstanceDirState i a f m).

Definition authenticator_at (v : Json) : option Authenticator := i ← get_str "id" v; h ← get_bool "human" v; Some (mkAuth i h).

Definition map_at (v : Json) : option (gmap string string) :=
  m ← js_object v; Some (list_to_map (map (fun e => (fst e, default EmptyString (js_str (snd e)))) m)).

Definition language_at (v : Json) : option ArtifactLanguage :=
  s ← js_str v;
  if s == "sh" then Some Sh else if s == "powershell" then Some Powershell else if s == "python" then Some Python else None.

Definition host_at (v : Json) : option InventoryHost :=
  n ← get_str "name" v; o ← get_str "os" v;
  Some (mkInventoryHost n (default EmptyString (get_str "address" v)) o (default [] (opt_key (items_at js_str) "roles" v))
          (default [] (opt_key (items_at js_str) "reach" v)) (default false (get_bool "filesystem" v)) (get_bool "stdin_preamble" v)
          (get_str "scheduler" v) (get_str "rescind_root" v) (opt_key language_at "artifact" v) (default ∅ (opt_key map_at "facts" v))).

Definition or_error {A} (what : string) (x : option A) : Result A string := match x with Some y => Ok y | None => Err what end.

#[export] Instance readers : HookSerde := {|
  bootstrap_of v := or_error "a bootstrap state" (bootstrap_at v);
  dirs_of v := or_error "directories" (items_at dir_at v);
  authenticators_of v := or_error "authenticators" (items_at authenticator_at v);
  hosts_of v := or_error "hosts" (items_at host_at v);
  entry_to_value e := js_object_of [("seq", js_num (en_seq e))];
|}.

#[export] Instance body_reader : SdkSerde := {| body_of v := or_error "a body" (items_at prim_at v) |}.

Lemma items_read {A} (f : Json -> option A) (g : A -> Json) l : (forall x, f (g x) = Some x) -> items_at f (JsArr (map g l)) = Some l.
Proof. intros Hf. unfold items_at. cbn. induction l as [|x l IH]; [done|]. cbn [map mapM]. rewrite Hf. cbn. by rewrite IH. Qed.

Lemma pair_read p : pair_at (JsArr [JsStr (fst p); resolved_json (snd p)]) = Some p.
Proof. by destruct p as [k [t s]]. Qed.

Lemma resolved_read r : resolved_at (resolved_json r) = Some r.
Proof. by destruct r. Qed.

Lemma pairs_read l : items_at pair_at (pairs_json l) = Some l.
Proof. apply items_read, pair_read. Qed.

Lemma run_read c e o : prim_at (prim_json (RRun c e o)) = Some (RRun c e o).
Proof. transitivity (e' ← items_at pair_at (pairs_json e); Some (RRun c e' o)); [by destruct c, o as [[]|]|by rewrite pairs_read]. Qed.

Lemma hook_read n a : prim_at (prim_json (RHook n a)) = Some (RHook n a).
Proof. transitivity (a' ← items_at pair_at (pairs_json a); Some (RHook n a')); [done|by rewrite pairs_read]. Qed.

Lemma prim_read p : prim_at (prim_json p) = Some p.
Proof.
  destruct p as [c e o|s c|s|s l|s a c|s a|n c m|n a|n|n|n c]; [apply run_read|..]; try apply hook_read;
    try destruct c; try destruct l; try destruct a as [a|]; done.
Qed.

Lemma map_read m : map_at (map_json m) = Some m.
Proof. rewrite <- (map_json_read m) at 2. reflexivity. Qed.

Lemma host_read h : host_at (host_json h) = Some h.
Proof.
  destruct h as [n a o roles reach fs pre sc root art facts].
  transitivity (Some (mkInventoryHost n a o (default [] (items_at js_str (texts_json roles))) (default [] (items_at js_str (texts_json reach)))
                        fs pre sc root art (default ∅ (map_at (map_json facts))))); [by destruct pre, sc, root, art as [[]|]|].
  unfold texts_json. by rewrite !(items_read js_str JsStr), map_read.
Qed.

Lemma readers_laws : @SdkSerdeLaws readers body_reader.
Proof.
  split; intros; cbn [body_of bootstrap_of dirs_of authenticators_of hosts_of readers body_reader]; unfold or_error.
  - by rewrite (items_read prim_at prim_json _ prim_read).
  - by destruct b.
  - by rewrite (items_read dir_at dir_json) by (by intros []).
  - by rewrite (items_read authenticator_at authenticator_json) by (by intros []).
  - by rewrite (items_read host_at host_json _ host_read).
Qed.
End Readers.

(** ** Witnesses *)

(** A hook that keeps a count: it reads one fact and counts its reads. *)
Definition counting_execute : ExecuteTrait N :=
  let t := execute_only N (fun _ _ _ => mthrow (mkSdkRefusal "no bodies")) in
  mkExecuteTrait N (te_run t) (fun _ shape n => ((n + 1)%N, Ok (if shape == "file:/etc/motd" then Some "hello" else None))) (te_bootstrap_state t)
    (te_clock t) (te_instance_dir_create t) (te_instance_dir_remove t) (te_instance_dir_list t) (te_put_file t) (te_replace_file t)
    (te_get_file t) (te_remove_file t) (te_host_lock t).

Definition counting_hooks : Hooks N := mkHooks N None None (Some counting_execute) None None None None None false false.

Lemma sdk_hook_is_its_handlers_witness :
  @SdkSerdeLaws Readers.readers Readers.body_reader
  /\ (let _ := @hook_executor _ _ (@sdk_link _ Readers.body_reader counting_hooks) Readers.readers (sdk_registry counting_hooks "count") in
      let _ := direct_executor counting_hooks "api" in
      simulates_executor sw_state (mkHookExecutor "count" "api" 30) tt).
Proof.
  split; [exact Readers.readers_laws|].
  exact (proj1 (@sdk_hook_is_its_handlers N Readers.readers Readers.body_reader counting_hooks "count" "api" Readers.readers_laws 30)).
Defined.

(** The call as it goes: one fact, read over the wire. *)
Example one_read_over_the_wire :
  let _ := Readers.readers in let _ := Readers.body_reader in
  let w := mkSdkWorld (line_link_new "count") 0%N in
  let m := @ex_read_fact _ _ (@hook_executor _ _ (sdk_link counting_hooks) _ (sdk_registry counting_hooks "count"))
             (mkHookExecutor "count" "api" 30) demo_host "file:/etc/motd" w in
  sw_state (fst m) = 1%N /\ snd m = Ok (Some "hello").
Proof. by vm_compute. Qed.

Lemma loop_answers_each_request_witness :
  let _ := Readers.body_reader in
  let parse s := if s == ("{" +:+ newline) then Err "EOF" else Ok (execute_read_fact "web1" s) in
  let i := [Ok "file:/etc/motd"; Ok ("{" +:+ newline); Err (RdInvalid "not UTF-8"); Ok newline; Ok "file:/etc/issue"] in
  (forall o : list Json, (fun _ => None : option ReadError) o = None)
  /\ length (requests_of parse i) = 2
  /\ exists w' replies, pump parse (fun _ => None) (fun _ _ => 0%N) counting_hooks (serve_options "count") i 0%N []
                        = (w', replies, Some (Ok tt)) /\ Forall2 (replied counting_hooks) (requests_of parse i) replies.
Proof.
  intros sr parse i. split; [done|]. split; [reflexivity|].
  exact (@loop_answers_each_request N Readers.body_reader parse (fun _ => None) (fun _ _ => 0%N) counting_hooks (serve_options "count") i 0%N [] (fun _ => eq_refl)).
Defined.
