(* ===== verification/Conform.v ===== *)
(** * The conformance suite and its reference hook ([engine/src/conform.rs], [sdk/rust/src/bin/conform_hook.rs])

    The daemon's side of docs/sdk-conformance.md as data, one [Case] for each request of the
    suite with the judge of its answer, and the hook the SDK is judged by. The suite is over
    any call of a hook; [reference_hook_conforms] drives it against the reference hook, and
    [sdk_hooks_never_breach] says what no hook on the SDK can be found guilty of. *)

From Stdlib Require Import Ascii.
From stdpp Require Import base strings pretty numbers option list sets gmap.
From S2P Require Import Prelude Monad Ordered Utf8 Model Journal Resolve Executor Json HookProto Hook HookAdapters HookSdk.

(** ** Outcomes *)

Record Outcome := mkConformOutcome {
  oc_op : string;
  oc_case : string;
  oc_passed : bool;
  oc_detail : string;
}.

Record Report := mkReport {
  rp_name : string;
  rp_registration : Registration;
  rp_outcomes : list Outcome;
}.

Definition report_failed (r : Report) : nat := length (List.filter (fun o => negb (oc_passed o)) (rp_outcomes r)).
Definition report_passed (r : Report) : nat := length (List.filter oc_passed (rp_outcomes r)).

Definition outcome_json (o : Outcome) : Json :=
  js_object_of [("op", JsStr (oc_op o)); ("case", JsStr (oc_case o)); ("passed", JsBool (oc_passed o)); ("detail", JsStr (oc_detail o))].

(** [Report::to_json] *)
Definition report_to_json (r : Report) : Json :=
  let g := rp_registration r in
  js_object_of
    [("name", JsStr (rp_name r));
     ("registration", js_object_of [("kinds", texts_json (rg_kinds g)); ("protocol", js_num (rg_protocol g));
                                    ("filesystem", JsBool (rg_filesystem g)); ("stdin_preamble", JsBool (rg_stdin_preamble g))]);
     ("passed", js_num (N.of_nat (report_passed r))); ("failed", js_num (N.of_nat (report_failed r)));
     ("cases", JsArr (map outcome_json (rp_outcomes r)))].

Definition registration_case (name : string) (r : Registration) : Outcome :=
  let why :=
    (if negb (rg_name r == name) then [concats ["registers as `"; rg_name r; "`, not `"; name; "`"]] else [])
    ++ (if negb (rg_protocol r =? HOOK_PROTOCOL)%N then [concats ["names protocol "; show (rg_protocol r); ", not "; show HOOK_PROTOCOL]] else [])
    ++ (if bool_decide (rg_kinds r = []) then ["registers for no kind at all"] else [])
    ++ map (fun k => concats ["`"; k; "` is not a kind of this protocol"]) (List.filter (fun k => negb (bool_decide (k ∈ KINDS))) (rg_kinds r)) in
  mkConformOutcome "registration" "the first line is a registration this protocol admits" (bool_decide (why = []))
    (if bool_decide (why = []) then "serves " +:+ join ", " (rg_kinds r) else join "; " why).

(** ** Cases *)

(** One request of the suite, and what it makes of the answer. *)
Record Case := mkCase {
  ca_case : string;
  ca_request : Json;
  ca_judge : Result Json HookError -> Result string string;
}.

Definition kind_of (request : Json) : string := text_of request "kind".
Definition op_of (request : Json) : string := text_of request "op".

(** The universal check. *)
Definition required_fields (kind op : string) (reply : Json) : Result unit string :=
  match op_find kind op with
  | None => Ok tt
  | Some row =>
      match List.filter (fun f => bool_decide (js_get f reply = None)) (op_required_reply row) with
      | [] => Ok tt
      | missing => Err (concats ["R0303: answered ok without `"; join "`, `" missing; "`, which "; kind; "."; op; " requires"])
      end
  end.

(** [reply[k]]: null where it is not there. *)
Definition index (reply : Json) (k : string) : Json := value_of reply k.

(** [PartialEq] of values *)
Fixpoint json_eqb (v w : Json) : bool :=
  match v, w with
  | JsNull, JsNull => true
  | JsBool a, JsBool b => a == b
  | JsNum a, JsNum b => a == b
  | JsStr a, JsStr b => a == b
  | JsArr l, JsArr k =>
      (fix go l k := match l, k with [], [] => true | x :: l, y :: k => json_eqb x y && go l k | _, _ => false end) l k
  | JsObj l, JsObj k =>
      (fix go l k := match l, k with
                     | [], [] => true
                     | (a, x) :: l, (b, y) :: k => (a == b) && json_eqb x y && go l k
                     | _, _ => false
                     end) l k
  | _, _ => false
  end.

Lemma json_eqb_eq v : forall w, json_eqb v w = true <-> v = w.
Proof.
  induction v as [|b|n|s|l IH|m IH] using json_induction; intros [|b'|n'|s'|k|k]; try done; cbn [json_eqb];
    try (rewrite bool_decide_eq_true; naive_solver).
  - transitivity (l = k); [|naive_solver]. revert k. induction IH as [|x l Hx _ IHl]; intros [|y k]; try done.
    rewrite andb_true_iff, Hx, IHl. naive_solver.
  - transitivity (m = k); [|naive_solver]. revert k. induction IH as [|[a x] m Hx _ IHm]; intros [|[b y] k]; try done.
    rewrite !andb_true_iff, bool_decide_eq_true, Hx, IHm. naive_solver.
Qed.

Section Suite.
Context `{!HookSerde}.
(** [Value::to_string], and [Debug] of two records and of the ids. *)
Context (to_string : Json -> string) (debug_state : BootstrapState -> string) (debug_dir : option InstanceDirState -> string) (debug_ids : list string -> string).
(** The deadline of a call, in milliseconds. *)
Context (deadline_ms : N).

(** [Driver::case] *)
Definition case (name : string) (request : Json) (judge : Json -> Result string string) : Case :=
  mkCase name request
    (fun answered =>
       match answered with
       | Ok reply => let? _ := required_fields (kind_of request) (op_of request) reply in judge reply
       | Err HkSilent =>
           Err (concats ["no reply within "; show deadline_ms;
                         "ms: the engine reads that as Silent and refuses the step with nothing to tell the operator"])
       | Err (HkRefused r) => Err ("refused: " +:+ r)
       | Err (HkContract m) => Err ("R0303: " +:+ m)
       | Err e => Err (display_hook_error e)
       end).

(** [Driver::provocation] *)
Definition provocation (name : string) (request : Json) (judge : Result Json HookError -> Result string string) : Case :=
  mkCase name request judge.

Definition acknowledged (_ : Json) : Result string string := Ok "acknowledged".

Definition want (reply : Json) (pointer : string) (expected : Json) : Result unit string :=
  let got := js_pointer pointer reply in
  match got with
  | Some v =>
      if json_eqb v expected then Ok tt else Err (concats [pointer; " is "; to_string v; ", not "; to_string expected])
  | None => Err (concats [pointer; " is absent, not "; to_string expected])
  end.

(** [.map_err(|e| format!("{e}. .."))] *)
Definition because {A} (r : Result A string) (why : string) : Result A string :=
  match r with Ok x => Ok x | Err e => Err (concats [e; ". "; why]) end.

Definition or_why {A B} (r : Result A string) (f : string -> string) (k : A -> Result B string) : Result B string :=
  match r with Ok x => k x | Err e => Err (f e) end.

Definition journal_cases : list Case := [
  case "an entry is acknowledged"
    (js_set "entry" (js_object_of [("seq", js_num 1); ("plan", JsStr "conform"); ("event", JsStr "Checked")]) (req "journal" "append"))
    acknowledged
].

Definition inventory_judge (reply : Json) : Result string string :=
  or_why (hosts_of (index reply "hosts")) (fun e => "hosts do not parse as Appendix C records: " +:+ e) (fun hosts =>
  match hosts with
  | [full; bare] =>
      if negb (ih_name full == "conform-full") || negb (ih_name bare == "conform-bare") then
        Err (concats ["hosts are `"; ih_name full; "` and `"; ih_name bare; "`, not `conform-full` and `conform-bare`"])
      else if negb (ih_rescind_root full == Some "/var/db/rescind") then
        Err "conform-full lost its rescind_root: a host with none can hold no instance directory"
      else if negb (ih_artifact full == Some Python) then Err "conform-full lost its artifact language"
      else if negb (ih_stdin_preamble full == Some false) then Err "conform-full's stdin_preamble is not the false it declared"
      else if negb (ih_scheduler full == Some "cron") then Err "conform-full lost its scheduler"
      else if negb (ih_roles full == ["a"; "b"]) then Err "conform-full lost its roles"
      else if bool_decide (is_Some (ih_rescind_root bare)) || bool_decide (is_Some (ih_artifact bare)) || ih_filesystem bare then
        Err "conform-bare invented a field it did not declare"
      else Ok "both hosts, every field carried"
  | _ => Err (concats [show_nat (length hosts); " hosts, not 2"])
  end).

Definition inventory_cases : list Case := [
  case "two hosts, and an omitted field takes its default rather than failing" inventory_list inventory_judge
].

Definition suite_body : list RPrim := [RRun (plain "conformance") [("PW", mkResolved "conformance-secret" true)] None].

Definition run_judge (reply : Json) : Result string string :=
  let? _ := want reply "/output/stdout" (JsStr ("ran 1 primitive" +:+ newline)) in
  let? _ := want reply "/output/outputs/echo" (JsStr "conformance") in
  let? _ := because (want reply "/output/outputs/secret" (JsStr "conformance-secret"))
    "execute.run carries a secret in both directions (7.5); an SDK that scrubs it on the way in, or cannot reach it, fails here" in
  Ok "the body, its secret and its outputs all crossed".

Definition absent_judge (reply : Json) : Result string string :=
  match js_get "content" reply with
  | None => Ok "absent, as it should be"
  | Some v => Err (concats ["answered content "; to_string v; ": an empty string is a file that exists and is empty, which is a different fact"])
  end.

Definition state_judge (reply : Json) : Result string string :=
  or_why (bootstrap_of (index reply "state")) (fun e => "state does not parse: " +:+ e) (fun st =>
  if ready st then Ok "ready" else Err (debug_state st +:+ " is not the all-true state the contract fixes")).

Definition dirs_judge (reply : Json) : Result string string :=
  or_why (dirs_of (index reply "dirs")) (fun e => "dirs do not parse: " +:+ e) (fun dirs =>
  match head dirs with
  | Some x =>
      if (ds_instance x == "conform-1") && ds_armed x && negb (ds_fired x) && ds_modes_ok x then Ok "one armed, unfired directory"
      else Err (debug_dir (Some x) +:+ " is not the contract's one entry")
  | None => Err (debug_dir None +:+ " is not the contract's one entry")
  end).

Definition clock_judge (answered : Result Json HookError) : Result string string :=
  match answered with
  | Ok reply =>
      match get_u64 "epoch_s" reply with
      | Some t => if (t =? 1700000000)%N then Ok "answered 1700000000" else Err (concats ["answered "; show t; ", not the contract's 1700000000"])
      | None => Err "answered ok without epoch_s (R0303)"
      end
  | Err (HkRefused _) => Ok "declined, so the engine records that no skew probe is possible here"
  | Err e => Err (display_hook_error e)
  end.

(** 0o640 *)
Definition MARKER_MODE : N := 416.

Definition acknowledged_ops : list (string * Json) := [
  ("instance_dir_create", execute_op "instance_dir_create" "conform-full" (Some "conform-1"));
  ("instance_dir_remove", execute_op "instance_dir_remove" "conform-full" (Some "conform-1"));
  ("put_file", execute_put_file "conform-full" "conform-1" "markers/1" "owned" MARKER_MODE);
  ("replace_file", execute_replace_file "conform-full" "conform-1" "deadline" ("1700000000" +:+ newline));
  ("remove_file", execute_remove_file "conform-full" "conform-1" "markers/1");
  ("host_lock", execute_op "host_lock" "conform-full" None)
].

Definition execute_cases : list Case := [
  case "a run reaches the handler with its secret intact, and the outputs come back" (execute_run "conform-full" "conform-1" suite_body) run_judge;
  case "a fact that is there comes back" (execute_read_fact "conform-full" "file:/conformance/present")
    (fun reply => let? _ := want reply "/content" (JsStr ("present" +:+ newline)) in Ok "content returned");
  case "a fact that is not there is an absent field, not an empty one" (execute_read_fact "conform-full" "file:/conformance/absent") absent_judge;
  case "the bootstrap state is the five flags of 7.7" (execute_op "bootstrap_state" "conform-full" None) state_judge;
  case "an instance directory listing" (execute_op "instance_dir_list" "conform-full" None) dirs_judge;
  case "a staged file is read back" (execute_get_file "conform-full" "conform-1" "deadline")
    (fun reply => let? _ := want reply "/content" (JsStr ("1700000000" +:+ newline)) in Ok "content returned")
] ++ map (fun o => case (fst o +:+ " is acknowledged") (snd o) acknowledged) acknowledged_ops ++ [
  provocation "the clock is answered, or declined -- both conform" (execute_op "clock" "conform-full" None) clock_judge
].

Definition observed (probe text tri : string) : Case :=
  case (concats ["`"; probe; "` observes "; tri]) (probe_observe "conform-full" probe)
    (fun reply => let? _ := want reply "/fact/text" (JsStr text) in let? _ := want reply "/fact/tri" (JsStr tri) in Ok tri).

Definition refused_judge (answered : Result Json HookError) : Result string string :=
  match answered with
  | Err (HkRefused r) => if negb (trim r == EmptyString) then Ok ("refused: " +:+ r) else Err "refused with an empty reason"
  | Ok _ => Err "answered ok where the contract asks for a refusal"
  | Err e => Err (display_hook_error e)
  end.

Definition missing_judge (answered : Result Json HookError) : Result string string :=
  match answered with
  | Ok reply =>
      match required_fields "probe" "observe" reply with
      | Err _ => Ok "caught: the engine would refuse the step with R0303"
      | Ok _ => Err "the hook answered the field; the provocation is not implemented"
      end
  | Err e => Err (display_hook_error e)
  end.

Definition no_ok_judge (answered : Result Json HookError) : Result string string :=
  match answered with
  | Err (HkContract m) => Ok ("caught: " +:+ m)
  | Ok _ => Err "the hook answered a boolean ok; the provocation is not implemented"
  | Err e => Err (display_hook_error e)
  end.

Definition silent_judge (answered : Result Json HookError) : Result string string :=
  match answered with
  | Err HkSilent => Ok "Silent, which the engine treats as a refusal of the step"
  | Ok _ => Err "the hook answered; the provocation is not implemented"
  | Err e => Err (display_hook_error e)
  end.

Definition probe_cases : list Case := [
  observed "conform-yes" "yes" "yes";
  observed "conform-no" "no" "no";
  observed "conform-unknown" EmptyString "unknown";
  provocation "a refusal names its reason and is not a silence" (probe_observe "conform-full" "conform-refuse") refused_judge;
  provocation "an ok without a field the op requires is caught as R0303" (probe_observe "conform-full" "conform-missing-field") missing_judge;
  provocation "a reply with no boolean ok is R0303" (probe_observe "conform-full" "conform-no-ok") no_ok_judge;
  provocation "no reply at all is Silent at the deadline" (probe_observe "conform-full" "conform-silent") silent_judge
].

Definition DIGEST : string := "00112233445566778899aabbccddeeff".
Definition OTHER : string := "ffeeddccbbaa99887766554433221100".

Definition authenticators_judge (reply : Json) : Result string string :=
  match js_array (index reply "authenticators") with
  | None => Err "authenticators is not an array"
  | Some auths =>
      let ids := filter_map (fun a => js_str (index a "id")) auths in
      if negb (ids == ["conform-human"; "conform-machine"]) then
        Err (debug_ids ids +:+ " is not the contract's pair")
      else
        let human n := index (default JsNull (auths !! n)) "human" in
        if negb (json_eqb (human 0) (JsBool true)) || negb (json_eqb (human 1) (JsBool false)) then
          Err "the human flags are not as the contract fixes them"
        else Ok "two authenticators, one human"
  end.

Definition challenge_judge (reply : Json) : Result string string :=
  let c := default EmptyString (js_str (index reply "challenge")) in
  if contains_str DIGEST c then Ok "names the digest"
  else Err (concats ["`"; c; "` does not name the digest it is for, so a person approving it cannot tell which request they are approving"]).

Definition suite_proof : string := DIGEST +:+ "/plan".

Definition verify_judge (expected : bool) (why said : string) (reply : Json) : Result string string :=
  let? _ := because (want reply "/verified" (JsBool expected)) why in Ok said.

Definition approval_cases : list Case := [
  case "the authenticators are published with their human flags" approval_authenticators authenticators_judge;
  case "the challenge names the request it is for"
    (approval_challenge "conform-1" DIGEST (JsStr "plan") (js_object_of [("plan", JsStr "conform")])) challenge_judge;
  case "the proof made for this request and scope verifies"
    (approval_verify "conform-1" DIGEST (JsStr "plan") "conform-human" suite_proof)
    (fun reply => let? _ := want reply "/verified" (JsBool true) in Ok "verified");
  case "the same proof does not verify for another scope"
    (approval_verify "conform-1" DIGEST (js_object_of [("step", js_num 1)]) "conform-human" suite_proof)
    (verify_judge false "A proof is bound to one scope (5.11): one made for the plan must not satisfy a step"
       "refused, as a replay across scopes must be");
  case "the same proof does not verify for another request"
    (approval_verify "conform-1" OTHER (JsStr "plan") "conform-human" suite_proof)
    (verify_judge false "A proof is bound to one digest (5.11): one made for another request must not satisfy this one"
       "refused, as a replay across requests must be")
].

Definition secrets_cases : list Case := [
  case "a reference resolves to its value" (secrets_resolve "conform")
    (fun reply => let? _ := want reply "/value" (JsStr "conformance-resolved-secret") in Ok "resolved");
  case "a delivery is accepted with a receipt to journal in place of the value"
    (secrets_deliver "conform-1" "conform" "conformance-delivered-secret")
    (fun reply => let? _ := want reply "/accepted" (JsBool true) in
                  let? _ := want reply "/receipt" (JsStr "receipt-conform") in Ok "accepted");
  case "declining a delivery is an answer, not a refusal"
    (secrets_deliver "conform-1" "unwanted" "conformance-delivered-secret")
    (fun reply =>
       let? _ := because (want reply "/accepted" (JsBool false))
         "The engine offers a declined secret to the next acceptor, so declining is `ok: true` with `accepted: false`" in
       Ok "declined")
].

Definition notify_cases : list Case := [
  case "a notification is acknowledged" (notify_deliver "waiting" "conform" "a plan is waiting") acknowledged
].

Definition presence_case (artifact : string) (expected : Json) (what : string) : Case :=
  case ("present reports " +:+ what) (scheduler_op "present" "conform-full" artifact None)
    (fun reply =>
       let? _ := because (want reply "/present" expected)
         "The engine never reads unknown as absence: answering `false` where you do not know makes it install again, which is destructive when wrong" in
       Ok what).

Definition scheduler_cases : list Case :=
  map (fun op => case (op +:+ " is acknowledged") (scheduler_op op "conform-full" "conform-present.sh" (Some 1700000000%N)) acknowledged)
    ["install"; "arm"; "rearm"; "disarm"]
  ++ [presence_case "conform-present.sh" (JsBool true) "present";
      presence_case "conform-absent.sh" (JsBool false) "absent";
      presence_case "conform-unheard-of.sh" (JsStr "unknown") "unknown"].

Definition unknown_op_judge (answered : Result Json HookError) : Result string string :=
  match answered with
  | Err (HkRefused _) => Ok "refused by name"
  | Err HkSilent =>
      Err "silence: the engine cannot tell `I do not serve that` from `I am gone`, and the operator gets a step that did not happen and no reason"
  | Ok _ => Err "answered ok to an op that does not exist"
  | Err e => Err (display_hook_error e)
  end.

Definition unknown_op_case : Case :=
  provocation "an op this protocol has no row for is refused, never met with silence"
    (js_object_of [("kind", JsStr "execute"); ("op", JsStr "reboot"); ("host", JsStr "conform-full")]) unknown_op_judge.

(** ** The suite *)

Definition cases_for (kind : string) (cs : list Case) (r : Registration) : list Case :=
  if existsb (fun s => s == kind) (rg_kinds r) then cs else [].

(** What [conform] asks of a hook, by the kinds it registered for. *)
Definition suite (r : Registration) : list Case :=
  cases_for "journal" journal_cases r ++ cases_for "inventory" inventory_cases r ++ cases_for "execute" execute_cases r
  ++ cases_for "probe" probe_cases r ++ cases_for "approval" approval_cases r ++ cases_for "secrets" secrets_cases r
  ++ cases_for "notify" notify_cases r ++ cases_for "scheduler" scheduler_cases r ++ [unknown_op_case].

Section Drive.
(** [LineLink::call] on the child's stdio. *)
Context {W : Type} (call : Json -> W -> W * Result Json HookError).

Definition judged (c : Case) (answered : Result Json HookError) : Outcome :=
  let op := concats [kind_of (ca_request c); "."; op_of (ca_request c)] in
  match ca_judge c answered with
  | Ok detail => mkConformOutcome op (ca_case c) true detail
  | Err why => mkConformOutcome op (ca_case c) false why
  end.

Definition drive (c : Case) : W -> W * Outcome :=
  fun w => let '(w, answered) := call (ca_request c) w in (w, judged c answered).

Fixpoint drive_all (cs : list Case) (w : W) : W * list Outcome :=
  match cs with
  | [] => (w, [])
  | c :: cs => let '(w, o) := drive c w in let '(w, os) := drive_all cs w in (w, o :: os)
  end.

(** [conform], for a child that has registered and was acknowledged. *)
Definition conform (name : string) (r : Registration) (w : W) : W * Report :=
  let first := registration_case name r in
  let '(w, os) := drive_all (suite r) w in (w, mkReport name r (first :: os)).
End Drive.
End Suite.

(** ** The reference hook *)

(** [struct World], which has no state; its methods are the contract's constants. *)
Definition World : Type := unit.

Definition world_answer {A} (x : A) : World -> World * Answer A := mret x.

Definition full_host : InventoryHost :=
  mkInventoryHost "conform-full" "198.51.100.7" "freebsd" ["a"; "b"] ["hook"] true (Some false) (Some "cron") (Some "/var/db/rescind")
    (Some Python) {["site" := "west"]}.

(** What serde's defaults make of a record with a name and an [os]. *)
Definition bare_host : InventoryHost := mkInventoryHost "conform-bare" EmptyString "linux" [] [] false None None None None ∅.

(** [World::run]; an empty body panics, and the contract sends none. *)
Definition world_run (host inst : string) (body : list RPrim) : World -> World * Answer RunOutput :=
  match body with
  | RRun cmd env _ :: _ =>
      match List.find (fun e => fst e == "PW") env with
      | Some (_, pw) =>
          world_answer (mkRunOutput (concats ["ran "; show_nat (length body); " primitive"; newline])
            (<["secret" := rv_text pw]> {["echo" := rv_text cmd]}))
      | None => mthrow (mkSdkRefusal "the contract's run carries PW")
      end
  | _ => mthrow (mkSdkRefusal "the contract's body is one run primitive")
  end.

(** What it answers to the suite's body. *)
Definition suite_output : RunOutput :=
  mkRunOutput ("ran 1 primitive" +:+ newline) (<["secret" := "conformance-secret"]> {["echo" := "conformance"]}).

Definition world_execute : ExecuteTrait World := {|
  te_run := world_run;
  te_read_fact _ shape := world_answer (if shape == "file:/conformance/present" then Some ("present" +:+ newline) else None);
  te_bootstrap_state _ := world_answer (mkBootstrapState true true true true true);
  te_clock _ := world_answer 1700000000%N;
  te_instance_dir_create _ _ := world_answer tt;
  te_instance_dir_remove _ _ := world_answer tt;
  te_instance_dir_list _ := world_answer [mkInstanceDirState "conform-1" true false true];
  te_put_file _ _ _ _ _ := world_answer tt;
  te_replace_file _ _ _ _ := world_answer tt;
  te_get_file _ _ _ := world_answer ("1700000000" +:+ newline);
  te_remove_file _ _ _ := world_answer tt;
  te_host_lock _ := world_answer tt;
|}.

Definition world_observe (host probe : string) : World -> World * Answer Observation :=
  if probe == "conform-yes" then world_answer (observation_yes "yes")
  else if probe == "conform-no" then world_answer (observation_no "no")
  else if probe == "conform-unknown" then world_answer (observation_unknown EmptyString)
  else if probe == "conform-refuse" then mthrow (mkSdkRefusal "refused as the conformance contract asks, with a reason to read")
  else mthrow (mkSdkRefusal ("no probe named " +:+ probe)).

Definition scope_text (scope : Json) : string :=
  if json_eqb scope (JsStr "plan") then "plan"
  else match get_u64 "step" scope with
       | Some n => "step/" +:+ show n
       | None => match get_u64 "ack" scope with Some n => "ack/" +:+ show n | None => "unknown" end
       end.

Definition world_verify (r : VerifyRequest) : World -> World * Answer SdkVerdict :=
  let expected := concats [vr_digest r; "/"; scope_text (vr_scope r)] in
  world_answer (if vr_proof r == expected then mkSdkVerdict true EmptyString
                else mkSdkVerdict false "the proof was made for another request or another scope").

Definition world_approval : ApprovalTrait World := {|
  ta_authenticators := world_answer [mkAuth "conform-human" true; mkAuth "conform-machine" false];
  ta_challenge r := world_answer (concats ["approve "; cr_digest r; " on "; cr_instance r; " ("; scope_text (cr_scope r); ")"]);
  ta_verify := world_verify;
|}.

Definition world_secrets : SecretsTrait World := {|
  ts_resolve _ := world_answer "conformance-resolved-secret";
  ts_deliver _ label _ := world_answer (mkDelivery (negb (label == "unwanted")) ("receipt-" +:+ label));
|}.

Definition world_present (host artifact : string) : World -> World * Answer SdkPresence :=
  world_answer (if artifact == "conform-present.sh" then SpPresent else if artifact == "conform-absent.sh" then SpAbsent else SpUnknown).

Definition world_scheduler : SchedulerTrait World := {|
  td_install _ _ := world_answer tt;
  td_arm _ _ _ := world_answer tt;
  td_rearm _ _ _ := world_answer tt;
  td_disarm _ _ := world_answer tt;
  td_present := world_present;
|}.

(** [hooks()] *)
Definition conform_hooks : Hooks World := {|
  hk_journal := Some (mkJournalTrait World (fun _ => world_answer tt));
  hk_inventory := Some (mkInventoryTrait World (world_answer [full_host; bare_host]));
  hk_execute := Some world_execute;
  hk_probe := Some (mkProbeTrait World world_observe);
  hk_approval := Some world_approval;
  hk_secrets := Some world_secrets;
  hk_notify := Some (mkNotifyTrait World (fun _ _ _ => world_answer tt));
  hk_scheduler := Some world_scheduler;
  hk_filesystem := true;
  hk_stdin_preamble := true;
|}.

(** The provocation a request asks for, if any. *)
Definition provocation_of (frame : Json) : option string :=
  if negb (bool_decide (get_str "kind" frame = Some "probe")) then None
  else p ← get_str "probe" frame;
       if bool_decide (p ∈ ["conform-missing-field"; "conform-no-ok"; "conform-silent"]) then Some p else None.

(** A turn of the loop of [main] for a frame with a kind: what it writes, if anything. *)
Definition conform_turn `{!SdkSerde} (frame : Json) : World -> World * option Json :=
  fun w =>
    let id := value_of frame "id" in
    match provocation_of frame with
    | Some p =>
        (w, if p == "conform-missing-field" then Some (js_object_of [("id", id); ("ok", JsBool true)])
            else if p == "conform-no-ok" then Some (js_object_of [("id", id)])
            else None)
    | None => let '(w, reply) := answer conform_hooks frame w in (w, Some reply)
    end.

(** ** Every hook on the SDK *)

Lemma kinds_known {H} (hooks : Hooks H) k : k ∈ kinds hooks -> k ∈ KINDS.
Proof.
  unfold kinds, served, KINDS. rewrite !elem_of_app. intros [Hk|[Hk|[Hk|[Hk|[Hk|[Hk|[Hk|Hk]]]]]]]; match type of Hk with context [match ?h with _ => _ end] => destruct h end;
    try (by apply elem_of_nil in Hk); apply list_elem_of_singleton in Hk as ->;
    repeat first [by left|right].
Qed.

(** What an SDK hook says of itself is admitted, where it serves something. *)
Lemma sdk_registration_passes {H} name (hooks : Hooks H) : kinds hooks <> [] -> oc_passed (registration_case name (registration name hooks)) = true.
Proof.
  intros Hk. unfold registration_case. cbn [oc_passed registration rg_name rg_protocol rg_kinds].
  rewrite (bool_decide_eq_true_2 (name = name)), (bool_decide_eq_false_2 (kinds hooks = [])) by done. cbn [negb N.eqb HOOK_PROTOCOL Pos.eqb app].
  apply bool_decide_eq_true. replace (List.filter _ _) with (@nil string); [done|]. symmetry.
  pose proof (kinds_known hooks) as Hall. induction (kinds hooks) as [|k l IH] in Hall |- *; [done|]. cbn [List.filter].
  rewrite bool_decide_eq_true_2 by (apply Hall; by left). cbn [negb]. apply IH. intros k' Hk'. apply Hall. by right.
Qed.

Lemma drive_all_length {W} (call : Json -> W -> W * Result Json HookError) cs w : length (snd (drive_all call cs w)) = length cs.
Proof.
  revert w. induction cs as [|c cs IH]; intros w; [done|]. cbn [drive_all]. unfold drive. destruct (call (ca_request c) w) as [w1 a].
  specialize (IH w1). destruct (drive_all call cs w1) as [w2 os]. cbn [snd length] in *. by f_equal.
Qed.

Lemma all_passed os : Forall (fun o => oc_passed o = true) os -> List.filter oc_passed os = os.
Proof. induction 1 as [|o os Ho _ IH]; [done|]. cbn [List.filter]. by rewrite Ho, IH. Qed.

Lemma none_failed os : Forall (fun o => oc_passed o = true) os -> List.filter (fun o => negb (oc_passed o)) os = [].
Proof. induction 1 as [|o os Ho _ IH]; [done|]. cbn [List.filter]. by rewrite Ho. Qed.

(** ** The suite against it *)

Section Reference.
Context {Hhs : HookSerde} {Hss : SdkSerde}.

(** [LineLink::call] with the reference hook at the other end; where it says nothing, the
    deadline passes. *)
Definition reference_call (request : Json) (w : SdkWorld (H := World)) : SdkWorld (H := World) * Result Json HookError :=
  let '(l, (id, c, sent)) := call_begin request (sw_link w) in
  let l := fst (call_write id sent (Ok tt) l) in
  let '(h, reply) := conform_turn sent (sw_state w) in
  let l := match reply with Some reply => pump_line (Some reply) l | None => l end in
  match call_end id c true l with
  | Some (l, r) => (mkSdkWorld l h, r)
  | None => (mkSdkWorld l h, Err HkSilent)
  end.

(** No channel to come has been written to. *)
Definition fresh_link (l : LineLink) : Prop := forall c, ll_channels l <= c -> ll_received l !! c = None.

Lemma begun_fresh m l l' id c sent : call_begin (JsObj m) l = (l', (id, c, sent)) ->
  c = ll_channels l /\ ll_channels l' = S c /\ ll_received l' = ll_received l /\ ll_pending l' !! id = Some c
  /\ exists m', fst (guard_secrets (JsObj m)) = JsObj m' /\ sent = js_set "id" (js_num id) (JsObj m').
Proof.
  destruct (guard_object m) as [m' Hm']. unfold call_begin. destruct (guard_secrets (JsObj m)) as [s dropped]. cbn [fst] in *. subst s.
  intros [= <- <- <- <-]. cbn [set_pending set_channels set_next_id ll_channels ll_received ll_pending]. rewrite lookup_insert_eq.
  split_and!; try done. by exists m'.
Qed.

Lemma turn_carries_id id m reply : snd (conform_turn (js_set "id" (js_num id) (JsObj m)) tt) = Some reply -> get_u64 "id" reply = Some id.
Proof.
  pose proof (bm_get_numbered id m) as Hid. unfold conform_turn. rewrite Hid. destruct (provocation_of _) as [p|].
  - cbn [snd]. repeat case_match; by intros [= <-].
  - pose proof (sdk_replies_are_admitted conform_hooks (js_set "id" (js_num id) (JsObj m)) tt) as [Hr Hb].
    destruct (answer conform_hooks _ tt) as [w r]. cbn [snd] in *. intros [= <-]. rewrite Hid in Hr. unfold value_of in Hr.
    unfold get_u64. destruct (js_get "id" r) as [v|]; cbn in Hr |- *; by subst.
Qed.

Lemma write_down_same x l : ll_channels (write_down x l) = ll_channels l /\ ll_received (write_down x l) = ll_received l
  /\ ll_pending (write_down x l) = ll_pending l.
Proof. unfold write_down. by case_match. Qed.

(** What the suite gets for a request. *)
Lemma reference_answers m w : fresh_link (sw_link w) ->
  exists id l, fresh_link l /\ reference_call (JsObj m) w
    = (mkSdkWorld l tt, match snd (conform_turn (js_set "id" (js_num id) (fst (guard_secrets (JsObj m)))) tt) with
                        | Some reply => reply_of reply
                        | None => Err HkSilent
                        end).
Proof.
  intros Hf. unfold reference_call. destruct (call_begin (JsObj m) (sw_link w)) as [l [[id c] sent]] eqn:Hb.
  apply begun_fresh in Hb as (Hc & Hch & Hrec & Hp & m' & -> & ->). exists id. cbn [call_write fst]. destruct (sw_state w).
  destruct (write_down_same (WLine (js_set "id" (js_num id) (JsObj m'))) l) as (Hwc & Hwr & Hwp).
  set (l1 := write_down _ l) in *. rewrite <- Hwp in Hp. rewrite <- Hwc in Hch. rewrite <- Hwr in Hrec.
  destruct (conform_turn (js_set "id" (js_num id) (JsObj m')) tt) as [[] [reply|]] eqn:Ht; cbn [snd].
  - pose proof (turn_carries_id id m' reply) as Hr. rewrite Ht in Hr. specialize (Hr eq_refl).
    unfold pump_line, link_deliver. rewrite Hr, Hp. unfold call_end. cbn [set_received ll_received set_pending]. rewrite lookup_insert_eq.
    eexists. split; [|reflexivity]. intros c' Hc'. cbn [set_received ll_received ll_channels set_pending] in *.
    rewrite lookup_delete_ne, lookup_insert_ne by lia. rewrite Hrec. apply Hf. lia.
  - unfold call_end. rewrite Hrec, Hf by lia. cbn [orb]. eexists. split; [|reflexivity]. intros c' Hc'.
    cbn [set_pending ll_received ll_channels] in *. rewrite Hrec. apply Hf. lia.
Qed.

Context {Hlaws : SdkSerdeLaws}.
Context (to_string : Json -> string) (debug_state : BootstrapState -> string) (debug_dir : option InstanceDirState -> string)
        (debug_ids : list string -> string) (deadline_ms : N).

(** A case the reference hook passes, whatever the id of the call. *)
Definition passes (c : Case) : Prop :=
  (exists m, ca_request c = JsObj m)
  /\ forall id, is_ok (ca_judge c (match snd (conform_turn (js_set "id" (js_num id) (fst (guard_secrets (ca_request c)))) tt) with
                                   | Some reply => reply_of reply
                                   | None => Err HkSilent
                                   end)) = true.

Lemma driven_passes cs w : Forall passes cs -> fresh_link (sw_link w) ->
  Forall (fun o => oc_passed o = true) (snd (drive_all reference_call cs w)).
Proof.
  intros Hcs. revert w. induction Hcs as [|c cs [[m Hm] Hc] _ IH]; intros w Hf; [by constructor|]. cbn [drive_all]. unfold drive. rewrite Hm.
  destruct (reference_answers m w Hf) as (id & l & Hl & ->). specialize (IH (mkSdkWorld l tt) Hl).
  destruct (drive_all reference_call cs (mkSdkWorld l tt)) as [w' os]. cbn [snd] in *. constructor; [|done].
  unfold judged. specialize (Hc id). rewrite Hm in Hc. by destruct (ca_judge c _).
Qed.

Lemma journal_passes : Forall passes (journal_cases deadline_ms).
Proof. repeat constructor; try by eexists. Qed.

Lemma notify_passes : Forall passes (notify_cases deadline_ms).
Proof. repeat constructor; try by eexists. Qed.

Lemma secrets_passes : Forall passes (secrets_cases to_string deadline_ms).
Proof. repeat constructor; try by eexists. Qed.

Lemma scheduler_passes : Forall passes (scheduler_cases to_string deadline_ms).
Proof. repeat constructor; try by eexists. Qed.

Lemma approval_passes : Forall passes (approval_cases to_string debug_ids deadline_ms).
Proof. repeat constructor; try by eexists. Qed.

Lemma probe_passes : Forall passes (probe_cases to_string deadline_ms).
Proof. repeat constructor; try by eexists. Qed.

Lemma unknown_op_passes : passes unknown_op_case.
Proof. repeat constructor; try by eexists. Qed.

(** A case by what the hook replies to it. *)
Lemma case_passes name request judge fields : (exists m, request = JsObj m) ->
  (forall id, snd (conform_turn (js_set "id" (js_num id) (fst (guard_secrets request))) tt) = Some (ok_frame (js_num id) fields)) ->
  (forall id, let reply := ok_frame (js_num id) fields in
     get_bool "ok" reply = Some true /\ required_fields (kind_of request) (op_of request) reply = Ok tt /\ is_ok (judge reply) = true) ->
  passes (case deadline_ms name request judge).
Proof.
  intros Hm Ht Hj. split; [done|]. intros id. cbn [ca_request ca_judge case]. rewrite Ht. destruct (Hj id) as (Hok & Hreq & Hjudge).
  unfold reply_of. rewrite Hok. cbv beta iota. by rewrite Hreq.
Qed.

Lemma inventory_passes : Forall passes (inventory_cases deadline_ms).
Proof using Hlaws.
  apply Forall_singleton. eapply case_passes with (fields := js_object_of [("hosts", JsArr (map host_json [full_host; bare_host]))]); [by eexists|done|].
  intros id reply. split_and!; [done|done|]. unfold inventory_judge.
  change (index reply "hosts") with (JsArr (map host_json [full_host; bare_host])). by rewrite hosts_read.
Qed.

Lemma execute_passes : Forall passes (execute_cases to_string debug_state debug_dir deadline_ms).
Proof using Hlaws.
  unfold execute_cases. repeat (apply Forall_app; split). all: repeat (apply Forall_cons; split); try apply Forall_nil.
  all: try (repeat constructor; by eexists).
  - eapply case_passes with (fields := js_object_of [("output", output_json suite_output)]); [by eexists| |by intros id; split_and!].
    intros id. unfold conform_turn. change (provocation_of _) with (@None string). cbv iota.
    by rewrite (handed_answer conform_hooks (run_handed conform_hooks "conform-full" "conform-1" suite_body)).
  - eapply case_passes with (fields := js_object_of [("state", bootstrap_json (mkBootstrapState true true true true true))]); [by eexists|done|].
    intros id reply. split_and!; [done|done|]. unfold state_judge.
    change (index reply "state") with (bootstrap_json (mkBootstrapState true true true true true)). by rewrite bootstrap_read.
  - eapply case_passes with (fields := js_object_of [("dirs", JsArr (map dir_json [mkInstanceDirState "conform-1" true false true]))]); [by eexists|done|].
    intros id reply. split_and!; [done|done|]. unfold dirs_judge.
    change (index reply "dirs") with (JsArr (map dir_json [mkInstanceDirState "conform-1" true false true])). by rewrite dirs_read.
Qed.

Lemma for_kind kind cs r : Forall passes cs -> Forall passes (cases_for kind cs r).
Proof. intros H. unfold cases_for. by destruct (existsb _ _). Qed.

(** The reference hook passes the suite, the registration and every case: each reply is what
    the contract fixes, a proof for one request or scope serves no other, what it does not
    know it does not guess, and the three breaches it commits on purpose are each found. *)
Theorem reference_hook_conforms (name : string) :
  let r := registration name conform_hooks in
  let report := snd (conform to_string debug_state debug_dir debug_ids deadline_ms reference_call name r (mkSdkWorld (line_link_new name) tt)) in
  report_failed report = 0 /\ report_passed report = 40.
Proof using Hlaws.
  intros r report.
  assert (Hall : Forall passes (suite to_string debug_state debug_dir debug_ids deadline_ms r)).
  { unfold suite.
    repeat (apply Forall_app_2; [apply for_kind; first [apply journal_passes|apply inventory_passes|apply execute_passes|apply probe_passes
      |apply approval_passes|apply secrets_passes|apply notify_passes|apply scheduler_passes]|]). apply Forall_singleton, unknown_op_passes. }
  pose proof (driven_passes _ (mkSdkWorld (line_link_new name) tt) Hall (fun c _ => lookup_empty c)) as Hp.
  pose proof (drive_all_length reference_call (suite to_string debug_state debug_dir debug_ids deadline_ms r) (mkSdkWorld (line_link_new name) tt)) as Hl.
  unfold report, conform, report_failed, report_passed. destruct (drive_all _ _ _) as [w os]. cbn [snd rp_outcomes] in *.
  pose proof (sdk_registration_passes name conform_hooks ltac:(done)) as Hr. fold r in Hr. cbn [List.filter]. rewrite Hr. cbn [negb].
  rewrite (all_passed os Hp). change (length (suite _ _ _ _ _ _)) with 39 in Hl.
  split; [by rewrite (none_failed os Hp)|cbn [length]; by rewrite Hl].
Qed.
End Reference.

(** ** What no hook on the SDK can be found guilty of *)

Section Lawful.
Context {H : Type} {Hhs : HookSerde} {Hss : SdkSerde} (hooks : Hooks H).
Context (to_string : Json -> string) (debug_state : BootstrapState -> string) (debug_dir : option InstanceDirState -> string)
        (debug_ids : list string -> string) (deadline_ms : N).

(** An answer the universal checks have nothing against: a refusal, or a reply with each field
    its op requires. *)
Definition lawful (request : Json) (answered : Result Json HookError) : Prop :=
  match answered with
  | Ok reply => required_fields (kind_of request) (op_of request) reply = Ok tt
  | Err (HkRefused _) => True
  | Err _ => False
  end.

Lemma sent_text k id m : k <> "id" -> k <> "text" ->
  text_of (js_set "id" (js_num id) (fst (guard_secrets (JsObj m)))) k = text_of (JsObj m) k.
Proof.
  intros Hid Ht. unfold text_of. destruct (guard_object m) as [m' Hm']. transitivity (default EmptyString (get_str k (fst (guard_secrets (JsObj m))))).
  - rewrite Hm'. unfold get_str. cbn [js_set js_get]. by rewrite bm_get_insert_ne.
  - unfold guard_secrets. destruct (permitted _); [done|]. by rewrite get_str_scrub.
Qed.

Lemma sdk_call_lawful m w : lawful (JsObj m) (snd (sdk_call hooks (JsObj m) w)).
Proof.
  pose proof (sdk_call_answers hooks m w) as Hc. cbv zeta in Hc. set (sent := js_set _ _ _) in Hc.
  pose proof (sdk_replies_are_admitted hooks sent (sw_state w)) as [_ Hr]. destruct (answer hooks sent (sw_state w)) as [h reply].
  destruct Hc as [l ->]. cbn [snd] in *. unfold reply_of, lawful, required_fields, kind_of, op_of.
  destruct (get_bool "ok" reply) as [[]|]; [|done|done]. destruct Hr as (o & Ho & _ & Hall).
  rewrite <- (sent_text "kind" (ll_next_id (sw_link w)) m), <- (sent_text "op" (ll_next_id (sw_link w)) m) by done. fold sent.
  unfold row_of in Ho. unfold text_of. destruct (get_str "kind" sent) as [k|]; [|done]. destruct (get_str "op" sent) as [n|]; [|done].
  cbn in Ho |- *. unfold Datatypes.id. rewrite Ho. replace (List.filter _ _) with (@nil string); [done|]. symmetry.
  induction Hall as [|f l' [v Hv] _ IH]; [done|]. cbn [List.filter]. rewrite Hv. done.
Qed.

Lemma cases_for_kind kind cs r c : Forall (fun c => kind_of (ca_request c) = kind) cs -> c ∈ cases_for kind cs r -> kind_of (ca_request c) ∈ rg_kinds r.
Proof.
  unfold cases_for. destruct (existsb _ _) eqn:He; [|by intros _ ?%elem_of_nil]. intros Hf Hc. eapply Forall_forall in Hf as ->; [|exact Hc].
  apply existsb_exists in He as (x & Hx%list_elem_of_In & <-%bool_decide_eq_true). done.
Qed.

(** No hook on the SDK can be found in breach of the protocol by the suite, whatever its
    handlers do: its registration is admitted, where it serves anything; it is asked of the
    kinds it serves and of nothing else but the op that does not exist; and no request of the
    suite, nor any other, meets silence or an answer that the universal checks refuse. *)
Theorem sdk_hooks_never_breach (name : string) (w : SdkWorld (H := H)) (Hserves : kinds hooks <> []) :
  let r := registration name hooks in
  oc_passed (registration_case name r) = true
  /\ (forall c, c ∈ suite to_string debug_state debug_dir debug_ids deadline_ms r -> c = unknown_op_case \/ kind_of (ca_request c) ∈ kinds hooks)
  /\ (forall m, lawful (JsObj m) (snd (sdk_call hooks (JsObj m) w)))
  /\ oc_passed (snd (drive (sdk_call hooks) unknown_op_case w)) = true.
Proof.
  intros r. split_and!; [by apply sdk_registration_passes| |intros m; apply sdk_call_lawful|].
  - intros c. unfold suite. rewrite !elem_of_app. change (kinds hooks) with (rg_kinds r). intros Hc.
    repeat (destruct Hc as [Hc|Hc]; [right; eapply cases_for_kind; [|exact Hc]; by repeat constructor|]).
    left. by apply list_elem_of_singleton in Hc.
  - assert (Hc : exists l why, sdk_call hooks (ca_request unknown_op_case) w = (mkSdkWorld l (sw_state w), Err (HkRefused why))).
    { pose proof (sdk_call_answers hooks (bm_of_list [("kind", JsStr "execute"); ("op", JsStr "reboot"); ("host", JsStr "conform-full")]) w) as Hc.
      cbv zeta in Hc. destruct Hc as [l Hc]. exists l. eexists. exact Hc. }
    destruct Hc as (l & why & Hc). unfold drive. by rewrite Hc.
Qed.
End Lawful.

(** ** Witnesses *)

Definition demo_text (v : Json) : string := pretty_value 0 v.

Lemma reference_hook_conforms_witness :
  let _ := Readers.readers in let _ := Readers.body_reader in
  SdkSerdeLaws
  /\ report_failed (snd (conform demo_text (fun _ => "state") (fun _ => "dir") (fun _ => "ids") 2000 reference_call "conform"
                          (registration "conform" conform_hooks) (mkSdkWorld (line_link_new "conform") tt))) = 0.
Proof.
  intros hs ss. split; [exact Readers.readers_laws|].
  exact (proj1 (@reference_hook_conforms hs ss Readers.readers_laws demo_text (fun _ => "state") (fun _ => "dir") (fun _ => "ids") 2000%N "conform")).
Defined.

Lemma sdk_hooks_never_breach_witness :
  let _ := Readers.readers in let _ := Readers.body_reader in
  kinds counting_hooks = ["execute"]
  /\ oc_passed (snd (drive (sdk_call counting_hooks) unknown_op_case (mkSdkWorld (line_link_new "count") 0%N))) = true.
Proof.
  intros hs ss. split; [reflexivity|].
  exact (proj2 (proj2 (proj2 (@sdk_hooks_never_breach N hs ss counting_hooks demo_text (fun _ => "state") (fun _ => "dir") (fun _ => "ids") 2000%N
    "count" (mkSdkWorld (line_link_new "count") 0%N) ltac:(discriminate))))).
Defined.

(** The ids are collected from the authenticators that have one, the flags from the first two
    of all: a list of more than two, with the flags of the two the contract names the wrong
    way round, passes. *)
Example nameless_authenticator_passes :
  let a id human := js_object_of [("id", JsStr id); ("human", JsBool human)] in
  let reply := JsObj [("authenticators", JsArr [JsObj [("human", JsBool true)]; a "conform-human" false; a "conform-machine" true])] in
  authenticators_judge (fun _ => EmptyString) reply = Ok "two authenticators, one human"
  /\ is_ok (@read_authenticators Readers.readers reply) = false.
Proof. by vm_compute. Qed.

(** Three of the fields the contract fixes are looked at by no one: a host without its address,
    its reach and its facts has every field carried. *)
Example unjudged_fields_pass :
  let poor := mkInventoryHost "conform-full" EmptyString "plan9" ["a"; "b"] [] false (Some false) (Some "cron") (Some "/var/db/rescind") (Some Python) ∅ in
  @inventory_judge Readers.readers (js_object_of [("hosts", JsArr (map host_json [poor; bare_host]))]) = Ok "both hosts, every field carried".
Proof. by vm_compute. Qed.
