(* ===== verification/Sign.v ===== *)
(** * Journal signing ([engine/src/sign.rs])

    An entry's canonical body is signed as an SSHSIG; the reader checks the chain and, with a
    key, each signature. The keys and the signatures are those of the [ssh-key] crate, and so
    parameters; what is checked of them, in which order, and the hexadecimal form between are
    the source's. *)

From Stdlib Require Import Ascii.
From stdpp Require Import base strings pretty numbers option list.
From S2P Require Import Prelude Utf8 Canon Journal.

(** ** Hexadecimal *)

(** [sign::hex] *)
Definition hex (bytes : string) : string := to_hex_bytes bytes.

(** [u8::from_str_radix(s, 16)] of a text of two bytes: a plus sign may stand first. *)
Definition u8_from_hex (c d : ascii) : option N :=
  match to_digit16 d with
  | None => None
  | Some y => if c == chr 43 then Some y else x ← to_digit16 c; Some (16 * x + y)%N
  end.

(** [None] where a slice would cut a character, which panics. *)
Fixpoint unhex_pairs (s : string) : option (Result string string) :=
  match s with
  | String c (String d r) =>
      if continuation c || match r with String e _ => continuation e | EmptyString => false end then None
      else match u8_from_hex c d with
           | None => Some (Err "invalid digit found in string")
           | Some b => rmap (String (chr b)) <$> unhex_pairs r
           end
  | _ => Some (Ok EmptyString)
  end.

Definition unhex (s : string) : option (Result string string) :=
  if negb (Nat.even (String.length s)) then Some (Err "odd-length hex") else unhex_pairs s.

(** ** Signing *)

(** What the source uses of [ssh-key]: reading a key file, a key's public half, its algorithm,
    signatures with their encoding, and their check. *)
Class SshKey (PrivateKey PublicKey SshSig : Type) := {
  read_openssh_file : string -> Result PrivateKey string;
  is_encrypted : PrivateKey -> bool;
  is_ed25519 : PrivateKey -> bool;
  algorithm_name : PrivateKey -> string;
  public_key : PrivateKey -> PublicKey;
  sshsig_sign : PrivateKey -> string -> string -> Result SshSig string;
  sshsig_encode : SshSig -> Result string string;
  sshsig_decode : string -> Result SshSig string;
  key_verify : PublicKey -> string -> string -> SshSig -> Result unit string;
}.

Section Signing.
Context {PrivateKey PublicKey SshSig : Type} `{!SshKey PrivateKey PublicKey SshSig}.

Record Signer := mkSigner { si_key : PrivateKey }.

(** [Signer::load] *)
Definition signer_load (path : string) : Result Signer string :=
  match read_openssh_file path with
  | Err e => Err (concats [path; ": "; e])
  | Ok key =>
      if is_encrypted key then Err (path +:+ ": the key is encrypted")
      else if negb (is_ed25519 key) then Err (concats [path; ": "; algorithm_name key; " is not Ed25519"])
      else Ok (mkSigner key)
  end.

(** [Signer::sign] *)
Definition signer_sign (s : Signer) (e : Entry) : Result Sig string :=
  let? sig := sshsig_sign (si_key s) JOURNAL_DOMAIN (body_bytes e) in
  let? bytes := sshsig_encode sig in
  Ok (mkSig JOURNAL_DOMAIN (hex bytes)).

Definition entry_error {A} (e : Entry) (m : string) : Result A string := Err (concats ["entry "; show (en_seq e); m]).

(** [verify_entry]; [None] is the panic of [unhex]. *)
Definition verify_entry (pk : PublicKey) (e : Entry) : option (Result unit string) :=
  match en_sig e with
  | None => Some (entry_error e " is unsigned")
  | Some sig =>
      if negb (sig_namespace sig == JOURNAL_DOMAIN) then
        Some (entry_error e (concats [": namespace "; sig_namespace sig; " is not "; JOURNAL_DOMAIN]))
      else
        match unhex (sig_bytes_hex sig) with
        | None => None
        | Some (Err m) => Some (entry_error e (": " +:+ m))
        | Some (Ok bytes) =>
            Some (match sshsig_decode bytes with
                  | Err m => entry_error e (": " +:+ m)
                  | Ok s =>
                      match key_verify pk JOURNAL_DOMAIN (body_bytes e) s with
                      | Ok _ => Ok tt
                      | Err m => entry_error e (": signature does not verify: " +:+ m)
                      end
                  end)
        end
  end.

Fixpoint verify_entries (pk : PublicKey) (entries : list Entry) : option (Result unit string) :=
  match entries with
  | [] => Some (Ok tt)
  | e :: rest =>
      match verify_entry pk e with
      | Some (Ok _) => verify_entries pk rest
      | r => r
      end
  end.

Definition verify_chain (sha256 : string -> Hash) (entries : list Entry) (key : option PublicKey) : option (Result unit string) :=
  match verify sha256 entries with
  | Err e => Some (Err (display_chain_error e))
  | Ok _ => match key with None => Some (Ok tt) | Some pk => verify_entries pk entries end
  end.
End Signing.

Arguments Signer : clear implicits.

(** [e.sig = Some(..)] *)
Definition set_sig (s : Sig) (e : Entry) : Entry :=
  mkEntryJ (en_seq e) (en_prev_hash e) (en_hash e) (en_at e) (en_plan e) (en_instance e) (en_host e) (en_event e) (en_secret_labels e) (Some s).

(** ** What a signature shows *)

Lemma hex_char_ascii n : (n < 16)%N -> continuation (hex_digit n) = false.
Proof.
  intros H. assert (Hf : Forall (fun n => continuation (hex_digit n) = false) (map N.of_nat (seq 0 16))) by (by repeat constructor).
  eapply Forall_forall in Hf; [exact Hf|]. apply list_elem_of_fmap. exists (N.to_nat n). split; [lia|]. apply elem_of_seq. lia.
Qed.

Lemma hex_digits_read x y : (x < 16)%N -> (y < 16)%N -> u8_from_hex (hex_digit x) (hex_digit y) = Some (16 * x + y)%N.
Proof.
  intros Hx Hy. unfold u8_from_hex. rewrite !to_digit16_hex by done.
  assert (Hp : hex_digit x <> chr 43).
  { intros He. pose proof (to_digit16_hex x Hx) as Hd. rewrite He in Hd. vm_compute in Hd. discriminate. }
  by rewrite bool_decide_eq_false_2.
Qed.

Lemma unhex_pairs_hex s : unhex_pairs (hex s) = Some (Ok s) /\ match hex s with String c _ => continuation c = false | EmptyString => True end.
Proof.
  induction s as [|c s [IH Hc]]; [done|]. unfold hex in *. cbn [to_hex_bytes]. cbv zeta. pose proof (N_ascii_bounded c) as Hb.
  assert (H1 : (N_of_ascii c / 16 < 16)%N) by (apply N.Div0.div_lt_upper_bound; lia).
  assert (H2 : (N_of_ascii c mod 16 < 16)%N) by (by apply N.mod_lt).
  split; [|by apply hex_char_ascii]. cbn [unhex_pairs]. rewrite hex_char_ascii by done.
  replace (match to_hex_bytes s with String e _ => continuation e | EmptyString => false end) with false by (by destruct (to_hex_bytes s)).
  cbn [orb]. rewrite hex_digits_read, IH by done. cbn. do 3 f_equal. unfold chr.
  rewrite <- (N.div_mod (N_of_ascii c) 16) by done. apply ascii_N_embedding.
Qed.

Lemma unhex_hex s : unhex (hex s) = Some (Ok s).
Proof.
  unfold unhex. replace (Nat.even (String.length (hex s))) with true; [apply unhex_pairs_hex|].
  unfold hex. rewrite to_hex_bytes_length. symmetry. apply Nat.even_spec. by eexists.
Qed.

(** What the crate documents of its signatures: a signature is read back, and what the key
    signed the public half verifies. *)
Class SshKeyLaws {PrivateKey PublicKey SshSig} `{!SshKey PrivateKey PublicKey SshSig} : Prop := {
  sshsig_read : forall s bytes, sshsig_encode s = Ok bytes -> sshsig_decode bytes = Ok s;
  signed_verifies : forall k ns m s, sshsig_sign k ns m = Ok s -> key_verify (public_key k) ns m s = Ok tt;
}.

Section Signed.
Context {PrivateKey PublicKey SshSig : Type} `{!SshKey PrivateKey PublicKey SshSig} (sha256 : string -> Hash).

Lemma signed_entry_verifies `{!SshKeyLaws} s e sig : signer_sign s e = Ok sig -> verify_entry (public_key (si_key s)) (set_sig sig e) = Some (Ok tt).
Proof.
  unfold signer_sign. destruct (sshsig_sign _ _ _) as [x|] eqn:Hs; [|done]. cbn [rbind].
  destruct (sshsig_encode x) as [bytes|] eqn:He; [|done]. intros [= <-]. unfold verify_entry. cbn [set_sig en_sig sig_namespace sig_bytes_hex].
  rewrite bool_decide_eq_true_2 by done. cbn [negb]. rewrite unhex_hex, (sshsig_read _ _ He).
  change (body_bytes (set_sig _ e)) with (body_bytes e). by rewrite (signed_verifies _ _ _ _ Hs).
Qed.

Lemma verify_from_unsigned prev chain chain' : Forall2 (fun e e' => exists s, e' = set_sig s e) chain chain' ->
  forall prev', en_seq <$> prev = en_seq <$> prev' -> en_hash <$> prev = en_hash <$> prev' ->
  verify_from sha256 prev chain = verify_from sha256 prev' chain'.
Proof.
  intros Hf. revert prev. induction Hf as [|e e' chain chain' [s ->] _ IH]; intros prev prev' Hs Hh; [done|]. cbn [verify_from].
  replace (link_check prev' (set_sig s e)) with (link_check prev e).
  - destruct (link_check prev e); [|done]. cbn [rbind set_sig en_prev_hash en_hash en_seq].
    change (hash_of sha256 (en_prev_hash e) (set_sig s e)) with (hash_of sha256 (en_prev_hash e) e).
    case_match; [done|]. by apply IH.
  - destruct prev as [p|], prev' as [p'|]; try done. injection Hs as Hs. injection Hh as Hh. unfold link_check.
    cbn [set_sig en_seq en_prev_hash]. by rewrite Hs, Hh.
Qed.

(** An entry whose signature the key verifies. *)
Definition authenticated (pk : PublicKey) (e : Entry) : Prop :=
  exists sig bytes s, en_sig e = Some sig /\ sig_namespace sig = JOURNAL_DOMAIN /\ unhex (sig_bytes_hex sig) = Some (Ok bytes)
                      /\ sshsig_decode bytes = Ok s /\ is_ok (key_verify pk JOURNAL_DOMAIN (body_bytes e) s) = true.

Lemma verify_entry_ok pk e : verify_entry pk e = Some (Ok tt) -> authenticated pk e.
Proof.
  unfold verify_entry, authenticated, entry_error. destruct (en_sig e) as [sig|]; [|done]. case_bool_decide as Hn; [|done]. cbn [negb].
  destruct (unhex _) as [[bytes|]|] eqn:Hu; try done. destruct (sshsig_decode bytes) as [s|] eqn:Hd; [|done].
  destruct (key_verify _ _ _ _) as [u|] eqn:Hv; [|done]. intros _. exists sig, bytes, s. by rewrite Hv.
Qed.

Lemma verify_entries_ok pk es : verify_entries pk es = Some (Ok tt) -> Forall (authenticated pk) es.
Proof.
  induction es as [|e es IH]; [by constructor|]. cbn [verify_entries]. destruct (verify_entry pk e) as [[[]|]|] eqn:He; try done.
  intros Hv. constructor; [by apply verify_entry_ok|by apply IH].
Qed.

(** C27. A chain signed entry by entry verifies as it did without signatures, and with the public
    half of the key. And where no message verifies but one the engine signed, a journal that
    verifies with the key says what the engine's entries say: none is made up, altered, or
    left without a signature; a journal without them is never let through by a key. *)
Theorem signed_journal_authenticates `{!SshKeyLaws} (s : Signer PrivateKey) (chain signed : list Entry)
    (Hsigned : Forall2 (fun e e' => exists sig, signer_sign s e = Ok sig /\ e' = set_sig sig e) chain signed) :
  (verify sha256 chain = Ok tt -> verify_chain sha256 signed (Some (public_key (si_key s))) = Some (Ok tt))
  /\ forall presented,
       (forall m x, is_ok (key_verify (public_key (si_key s)) JOURNAL_DOMAIN m x) = true -> m ∈ map body_bytes chain) ->
       Forall entry_wf chain -> Forall entry_wf presented ->
       verify_chain sha256 presented (Some (public_key (si_key s))) = Some (Ok tt) ->
       verify sha256 presented = Ok tt
       /\ Forall (fun e => is_Some (en_sig e) /\ exists f, f ∈ chain /\ same_entry e f) presented.
Proof.
  split.
  - intros Hv. unfold verify_chain, verify in *. rewrite <- (verify_from_unsigned None chain signed); [|by eapply Forall2_impl; [exact Hsigned|naive_solver]|done|done].
    rewrite Hv. clear Hv. induction Hsigned as [|e e' c c' (sig & Hs & ->) _ IH]; [done|]. cbn [verify_entries].
    by rewrite signed_entry_verifies.
  - intros presented Hforge Hwc Hwp. unfold verify_chain. destruct (verify sha256 presented) as [[]|]; [|done]. intros Hv%verify_entries_ok.
    split; [done|]. apply Forall_forall. intros e He. eapply Forall_forall in Hv as (sig & bytes & x & Hsig & _ & _ & _ & Hok); [|exact He].
    split; [by eexists|]. apply Hforge, list_elem_of_fmap in Hok as (f & Hb & Hf). exists f. split; [done|].
    eapply Forall_forall in Hwc; [|exact Hf]. eapply Forall_forall in Hwp; [|exact He]. by apply body_bytes_inj.
Qed.
End Signed.

(** ** Witnesses *)

(** A key that signs the messages it holds, a signature being its message. *)
#[export] Instance demo_ssh : SshKey (list string) (list string) string := {|
  read_openssh_file _ := Err "no such file";
  is_encrypted _ := false;
  is_ed25519 _ := true;
  algorithm_name _ := "ssh-ed25519";
  public_key k := k;
  sshsig_sign k ns m := if decide (m ∈ k) then Ok m else Err "not of this key";
  sshsig_encode s := Ok s;
  sshsig_decode b := Ok b;
  key_verify k ns m s := if decide (m ∈ k /\ s = m) then Ok tt else Err "no signature of this message";
|}.

#[export] Instance demo_ssh_laws : SshKeyLaws.
Proof.
  split; [by intros s bytes [= ->]|]. cbn. intros k ns m s Hs. case_decide; [|done]. injection Hs as <-. by rewrite decide_True.
Qed.

Definition demo_signer : Signer (list string) := mkSigner (map body_bytes demo_chain).

Definition demo_signed : list Entry := map (fun e => set_sig (mkSig JOURNAL_DOMAIN (hex (body_bytes e))) e) demo_chain.

Lemma signed_journal_authenticates_witness :
  Forall2 (fun e e' => exists sig, signer_sign demo_signer e = Ok sig /\ e' = set_sig sig e) demo_chain demo_signed
  /\ (forall m x, is_ok (key_verify (public_key (si_key demo_signer)) JOURNAL_DOMAIN m x) = true -> m ∈ map body_bytes demo_chain)
  /\ verify length_hash demo_chain = Ok tt
  /\ verify_chain length_hash demo_signed (Some (public_key (si_key demo_signer))) = Some (Ok tt).
Proof.
  assert (Hs : Forall2 (fun e e' => exists sig, signer_sign demo_signer e = Ok sig /\ e' = set_sig sig e) demo_chain demo_signed).
  { repeat constructor; eexists; split; vm_compute; reflexivity. }
  split; [exact Hs|]. split; [cbn; intros m x; case_decide as Hm; [by intros _; destruct Hm|done]|]. split; [by vm_compute|].
  apply (proj1 (signed_journal_authenticates length_hash demo_signer demo_chain demo_signed Hs)). by vm_compute.
Defined.

(** A signature's text may hold a character of two bytes across two pairs, and then the slice
    panics: the reader of a journal falls over instead of refusing the entry. *)
Example unhex_panics : unhex ("a" +:+ String (chr 195) (String (chr 169) "b")) = None.
Proof. reflexivity. Qed.

(** [from_str_radix] takes a plus sign, so two texts are one signature. *)
Example unhex_reads_a_plus : unhex "+f" = unhex "0f" /\ unhex "0f" = Some (Ok (String (chr 15) EmptyString)).
Proof. by split. Qed.
