(* ===== verification/Shim.v ===== *)
(** * The shim ([sdk/shim/src/main.rs])

    A hook that hands each request to a command: the command's reply goes back with the id of
    the request, silence stays silence, and what a command breaks is a refusal with its
    reason. The command is a run of the host's shell, and so a parameter. *)

From Stdlib Require Import Ascii.
From stdpp Require Import base strings pretty numbers option list.
From S2P Require Import Prelude Monad Ordered Journal Resolve Executor LocalHost Json HookProto Hook HookSdk.

(** How a run of the command ended: what kept it from running or being read, or its code, where
    no signal ended it, and what it wrote. *)
Inductive CommandEnd :=
| CannotRun (e : string)
| CannotRead (e : string)
| CannotWait (e : string)
| Ended (code : option N) (out : string).

Inductive ShimAnswer := ShReply (v : Json) | ShSilent | ShBroken (why : string).

Record ShimArgs := mkShimArgs {
  sa_name : string;
  sa_kinds : list string;
  sa_command : string;
  sa_filesystem : bool;
  sa_stdin_preamble : bool;
}.

(** The checks of [main]: [Some] is the usage error it exits with. *)
Definition shim_usage (args : ShimArgs) : option string :=
  if bool_decide (sa_kinds args = []) then Some ("rescind-hook: --kinds names at least one of: " +:+ join ", " KINDS)
  else match List.find (fun k => negb (bool_decide (k ∈ KINDS))) (sa_kinds args) with
       | Some bad => Some (concats ["rescind-hook: `"; bad; "` is not a kind of this protocol; the kinds are "; join ", " KINDS])
       | None => None
       end.

Definition shim_registration (args : ShimArgs) : Registration :=
  mkRegistration (sa_name args) (sa_kinds args) HOOK_PROTOCOL (sa_filesystem args) (sa_stdin_preamble args).

Section Shim.
Context {W : Type}.
(** A run of the command with a line on its stdin; serde_json's printer and parser. *)
Context (run_command : string -> string -> W -> W * CommandEnd) (to_vec : Json -> Result string string) (from_str : string -> Result Json string).

Definition success (code : option N) : bool := code == Some 0%N.

Definition wrote (command last : string) (what : string) : ShimAnswer := ShBroken (concats ["`"; command; "` wrote `"; last; "`, which is not "; what]).

(** What a command that ended wrote. *)
Definition read_reply (command : string) (code : option N) (out : string) : ShimAnswer :=
  let text := trim out in
  if text == EmptyString then
    if success code then ShSilent
    else ShBroken (concats ["`"; command; "` wrote no reply and exited "; match code with Some c => show c | None => "on a signal" end])
  else
    let last_ := default text (last (lines text)) in
    match from_str last_ with
    | Ok (JsObj m) => ShReply (JsObj m)
    | Ok _ => wrote command last_ "a JSON object"
    | Err e => wrote command last_ ("JSON: " +:+ e)
    end.

Definition hand_to_command (command : string) (request : Json) : W -> W * ShimAnswer :=
  fun w =>
    match to_vec request with
    | Err e => (w, ShBroken ("cannot encode the request: " +:+ e))
    | Ok line =>
        let '(w, e) := run_command command (line +:+ newline) w in
        (w, match e with
            | CannotRun e => ShBroken (concats ["cannot run `"; command; "`: "; e])
            | CannotRead e => ShBroken (concats ["cannot read what `"; command; "` wrote: "; e])
            | CannotWait e => ShBroken (concats ["`"; command; "` could not be waited for: "; e])
            | Ended code out => read_reply command code out
            end)
    end.

(** A turn of the loop for a frame with a kind: what it writes, if anything. *)
Definition shim_turn (command : string) (frame : Json) : W -> W * option Json :=
  fun w =>
    let id := value_of frame "id" in
    let '(w, a) := hand_to_command command frame w in
    (w, match a with
        | ShSilent => None
        | ShReply reply => Some (js_set "id" id reply)
        | ShBroken why => Some (refusal_frame id (mkSdkRefusal why))
        end).

(** What the shim writes for a request, whatever the command does. It is silent only for a
    command that ended well and wrote nothing; a reply has the id of the request, also where
    the command wrote another, and is otherwise the object on the command's last line as it
    is, or a refusal with a reason. *)
Theorem shim_relays_its_command (command : string) (frame : Json) (w : W) :
  match snd (shim_turn command frame w) with
  | None => exists line out, to_vec frame = Ok line /\ snd (run_command command (line +:+ newline) w) = Ended (Some 0%N) out /\ trim out = EmptyString
  | Some reply =>
      js_get "id" reply = Some (value_of frame "id")
      /\ (get_bool "ok" reply = Some false /\ is_Some (get_str "error" reply)
          \/ exists line code out m, to_vec frame = Ok line /\ snd (run_command command (line +:+ newline) w) = Ended code out
               /\ from_str (default (trim out) (last (lines (trim out)))) = Ok (JsObj m)
               /\ forall k, k <> "id" -> js_get k reply = bm_get k m)
  end.
Proof.
  unfold shim_turn, hand_to_command. destruct (to_vec frame) as [line|e]; [|cbn; split; [done|by left; split; [|eexists]]].
  destruct (run_command command (line +:+ newline) w) as [w' [e|e|e|code out]] eqn:Hrun; cbn [snd];
    try (split; [done|by left; split; [|eexists]]).
  unfold read_reply. case_bool_decide as Ht.
  - unfold success. case_bool_decide as Hc; cbn [snd]; [|split; [done|by left; split; [|eexists]]]. subst code. exists line, out. rewrite Hrun. done.
  - cbv zeta. destruct (from_str _) as [[| | | | |m]|e] eqn:Hf; cbn [snd]; try (split; [done|by left; split; [|eexists]]).
    split; [cbn [js_set js_get]; by rewrite bm_get_insert|]. right. exists line, code, out, m. rewrite Hrun. split_and!; [done|done|done|].
    intros k Hk. cbn [js_set js_get]. by rewrite bm_get_insert_ne.
Qed.
End Shim.

Example shim_says_what_broke :
  let run := fun (_ _ : string) (w : unit) => (w, Ended (Some 3%N) newline) in
  snd (shim_turn run (fun _ => Ok "{}") (fun _ => Err "EOF") "./fence.sh" (probe_observe "web1" "up") tt)
  = Some (js_object_of [("error", JsStr "`./fence.sh` wrote no reply and exited 3"); ("id", JsNull); ("ok", JsBool false)]).
Proof. by vm_compute. Qed.
