(* ===== verification/ControlClient.v ===== *)
(** * The client of the control channel ([Client] of [engine/src/control.rs])

    One connection from the other side: a reader of lines, a writer, and the events read past
    while a reply was waited for. [client_keeps_every_event] is what its comment promises a
    subscriber. *)

From Stdlib Require Import Ascii.
From stdpp Require Import base strings pretty numbers option list.
From S2P Require Import Prelude Monad Ordered Json HookProto HookSdk Control.

(** The daemon's answer to a hello. *)
Record HelloOk := mkHelloOk {
  ho_ok : bool;
  ho_proto : N;
  ho_identity : string;
  ho_admin : bool;
  ho_dry_run : bool;
}.

(** [cl_reader] is what each read to come gives, then the end of the connection;
    [cl_written] are the frames that went down the writer. *)
Record Client := mkClient {
  cl_reader : list (Result string string);
  cl_written : list Json;
  cl_next_id : N;
  cl_events : list Json;
}.

Definition is_event (v : Json) : bool := bool_decide (is_Some (js_get "event" v)).

Section Client.
(** serde_json's parser and printer, its reader of [HelloOk], and what the next write answers. *)
Context (from_str : string -> Result Json string) (to_string : Json -> string) (hello_ok_of : Json -> Result HelloOk string).
Context (refuses : list Json -> option string).

(** [Client::connect]: the lines the daemon will write. *)
Definition client_new (reader : list (Result string string)) : Client := mkClient reader [] 1 [].

Definition closed {A} : Result A ControlError := control_error "connection" "the daemon closed the connection".

(** One read of the stream, and its frame. *)
Definition next_line (reader : list (Result string string)) : list (Result string string) * Result Json ControlError :=
  match reader with
  | [] => ([], closed)
  | r :: reader =>
      (reader, match r with
               | Err e => control_error "connection" e
               | Ok line =>
                   if line == EmptyString then closed
                   else match from_str (trim_end line) with Ok v => Ok v | Err e => control_error "protocol" e end
               end)
  end.

(** [Client::read]: the next frame that is no event, and the events before it. *)
Fixpoint read_loop (reader : list (Result string string)) (events : list Json) : list (Result string string) * list Json * Result Json ControlError :=
  match reader with
  | [] => ([], events, closed)
  | r :: rest =>
      match snd (next_line (r :: rest)) with
      | Ok v => if is_event v then read_loop rest (events ++ [v]) else (rest, events, Ok v)
      | Err e => (rest, events, Err e)
      end
  end.

Definition client_read : Client -> Client * Result Json ControlError :=
  fun c => let '(reader, events, r) := read_loop (cl_reader c) (cl_events c) in
           (mkClient reader (cl_written c) (cl_next_id c) events, r).

(** [write_line] *)
Definition client_write (v : Json) : Client -> Client * Result unit ControlError :=
  fun c => match refuses (cl_written c) with
           | Some e => (c, control_error "connection" e)
           | None => (mkClient (cl_reader c) (cl_written c ++ [v]) (cl_next_id c) (cl_events c), Ok tt)
           end.

Definition error_of (v : Json) : ControlError :=
  match js_get "error" v with
  | Some e => mkControlError (default "error" (get_str "code" e)) (default EmptyString (get_str "message" e))
  | None => mkControlError "protocol" ("unexpected frame: " +:+ to_string v)
  end.

Definition client_hello (identity : option string) : Client -> Client * Result HelloOk ControlError :=
  do! client_write (js_object_of [("hello", js_object_of [("proto", js_num CONTROL_PROTOCOL); ("identity", js_opt JsStr identity)])]) in
  let! v := client_read in
  lift (match js_get "hello" v with
        | Some h => match hello_ok_of h with Ok x => Ok x | Err e => control_error "protocol" e end
        | None => Err (error_of v)
        end).

Definition client_register (r : Registration) : Client -> Client * Result unit ControlError :=
  do! client_write (js_object_of [("register", registration_json r)]) in
  let! v := client_read in
  lift (match js_get "register" v with
        | Some r => if is_true (js_get "ok" r) then Ok tt else Err (error_of r)
        | None => Err (error_of v)
        end).

(** [self.next_id += 1] *)
Definition take_id : Client -> Client * Result N ControlError :=
  fun c => (mkClient (cl_reader c) (cl_written c) (cl_next_id c + 1) (cl_events c), Ok (cl_next_id c)).

Definition client_call (verb : string) (args : Json) : Client -> Client * Result Json ControlError :=
  let! id := take_id in
  do! client_write (js_object_of [("id", js_num id); ("verb", JsStr verb); ("args", args)]) in
  let! v := client_read in
  lift (if is_true (js_get "ok" v) then Ok (default JsNull (js_get "result" v)) else Err (error_of v)).

Definition next_event : Client -> Client * option Json :=
  fun c => match cl_events c with
           | [] => (c, None)
           | e :: es => (mkClient (cl_reader c) (cl_written c) (cl_next_id c) es, Some e)
           end.

Definition pending_events (c : Client) : nat := length (cl_events c).

Definition next_frame : Client -> Client * Result Json ControlError :=
  fun c => match cl_events c with
           | e :: es => (mkClient (cl_reader c) (cl_written c) (cl_next_id c) es, Ok e)
           | [] => let '(reader, r) := next_line (cl_reader c) in (mkClient reader (cl_written c) (cl_next_id c) [], r)
           end.

Definition client_send (v : Json) : Client -> Client * Result unit ControlError := client_write v.

(** ** A subscriber *)

(** What a program does with a client. *)
Inductive ClientOp :=
| OpHello (identity : option string)
| OpRegister (r : Registration)
| OpCall (verb : string) (args : Json)
| OpEvent
| OpFrame
| OpSend (v : Json).

(** The operation, and the event it handed over. *)
Definition client_op (o : ClientOp) (c : Client) : Client * list Json :=
  match o with
  | OpHello identity => (fst (client_hello identity c), [])
  | OpRegister r => (fst (client_register r c), [])
  | OpCall verb args => (fst (client_call verb args c), [])
  | OpEvent => let '(c, e) := next_event c in (c, match e with Some e => [e] | None => [] end)
  | OpFrame =>
      let '(c', r) := next_frame c in
      (c', match cl_events c, r with e :: _, _ => [e] | [], Ok v => if is_event v then [v] else [] | [], Err _ => [] end)
  | OpSend v => (fst (client_send v c), [])
  end.

Definition client_ops (os : list ClientOp) (c : Client) : Client * list Json :=
  foldl (fun '(c, handed) o => let '(c, es) := client_op o c in (c, handed ++ es)) (c, []) os.

(** The events among the lines a client read. *)
Definition line_event (r : Result string string) : list Json :=
  match snd (next_line [r]) with Ok v => if is_event v then [v] else [] | Err _ => [] end.

Definition events_of (lines : list (Result string string)) : list Json := concat (map line_event lines).

(** From one client to a later: the lines [read] between. *)
Definition later (c c' : Client) (handed : list Json) : Prop :=
  exists read, cl_reader c = read ++ cl_reader c' /\ cl_events c ++ events_of read = handed ++ cl_events c'.

Lemma later_refl c : later c c [].
Proof. exists []. by rewrite app_nil_r. Qed.

Lemma later_trans a b c h1 h2 : later a b h1 -> later b c h2 -> later a c (h1 ++ h2).
Proof.
  intros (r1 & H1 & E1) (r2 & H2 & E2). exists (r1 ++ r2). split; [by rewrite <- app_assoc, <- H2|].
  unfold events_of in *. rewrite map_app, concat_app, app_assoc, E1, <- !app_assoc. by rewrite E2.
Qed.

Lemma read_loop_later reader events : 
  let '(rest, events', _) := read_loop reader events in
  exists read, reader = read ++ rest /\ events ++ events_of read = events'.
Proof.
  revert events. induction reader as [|r reader IH]; intros events; cbn [read_loop]; [exists []; split; [done|apply app_nil_r]|].
  destruct (snd (next_line (r :: reader))) as [v|e] eqn:Hr.
  - destruct (is_event v) eqn:He.
    + specialize (IH (events ++ [v])). destruct (read_loop reader (events ++ [v])) as [[rest es] x]. destruct IH as (read & -> & <-).
      exists (r :: read). split; [done|]. unfold events_of. cbn [map concat]. unfold line_event at 1. cbn [next_line snd] in *. rewrite Hr, He.
      by rewrite <- app_assoc.
    + exists [r]. split; [done|]. unfold events_of, line_event. cbn [map concat next_line snd] in *. rewrite Hr, He. cbn. by rewrite app_nil_r.
  - exists [r]. split; [done|]. unfold events_of, line_event. cbn [map concat next_line snd] in *. rewrite Hr. cbn. by rewrite app_nil_r.
Qed.

Lemma client_read_later c : later c (fst (client_read c)) [].
Proof.
  unfold client_read. pose proof (read_loop_later (cl_reader c) (cl_events c)) as Hr.
  destruct (read_loop _ _) as [[rest es] x]. exact Hr.
Qed.

Lemma client_write_later v c : later c (fst (client_write v c)) [].
Proof. unfold client_write. destruct (refuses _); [apply later_refl|]. exists []. split; [done|]. apply app_nil_r. Qed.

Lemma later_then {A B} (m : Client -> Client * Result A ControlError) (k : A -> Client -> Client * Result B ControlError) c :
  (forall c, later c (fst (m c)) []) -> (forall x c, later c (fst (k x c)) []) -> later c (fst (mthen m k c)) [].
Proof.
  intros Hm Hk. unfold mthen. specialize (Hm c). destruct (m c) as [c' [x|e]]; [|done]. cbn [fst] in *.
  apply (later_trans _ _ _ [] []  Hm). apply Hk.
Qed.

Lemma later_lift {A} (r : Result A ControlError) c : later c (fst (lift r c)) [].
Proof. apply later_refl. Qed.

Lemma next_event_later c : let '(c', e) := next_event c in later c c' (match e with Some e => [e] | None => [] end).
Proof.
  unfold next_event. destruct (cl_events c) as [|e es] eqn:He; [apply later_refl|]. exists []. split; [done|].
  unfold events_of. cbn. by rewrite He, app_nil_r.
Qed.

Lemma next_frame_later c :
  let '(c', r) := next_frame c in
  later c c' (match cl_events c, r with e :: _, _ => [e] | [], Ok v => if is_event v then [v] else [] | [], Err _ => [] end).
Proof.
  unfold next_frame. destruct (cl_events c) as [|e es] eqn:He.
  - destruct (cl_reader c) as [|r rest] eqn:Hr; [exists []; unfold events_of; cbn; by rewrite Hr, He|].
    exists [r]. rewrite Hr, He. split; [done|]. unfold events_of, line_event. cbn [map concat app cl_events next_line snd fst]. by rewrite app_nil_r.
  - exists []. split; [done|]. unfold events_of. cbn. by rewrite He, app_nil_r.
Qed.

Lemma client_op_later o c : let '(c', handed) := client_op o c in later c c' handed.
Proof.
  destruct o as [identity|r|verb args| | |v]; cbn [client_op].
  - apply later_then; [apply client_write_later|]. intros [] c1. apply later_then; [apply client_read_later|]. intros x. apply later_lift.
  - apply later_then; [apply client_write_later|]. intros [] c1. apply later_then; [apply client_read_later|]. intros x. apply later_lift.
  - apply later_then; [intros c1; exists []; unfold events_of; cbn; by rewrite app_nil_r|]. intros id c1.
    apply later_then; [apply client_write_later|]. intros [] c2. apply later_then; [apply client_read_later|]. intros x. apply later_lift.
  - pose proof (next_event_later c) as Hl. destruct (next_event c) as [c' [e|]]; exact Hl.
  - pose proof (next_frame_later c) as Hl. destruct (next_frame c) as [c' r]. exact Hl.
  - apply client_write_later.
Qed.

(** A client hands over every event it reads, once and in the order the daemon sent them,
    whatever else it does between: what a reply was waited for behind is kept, and comes
    first. What was handed over and what is still kept are the events among the lines read. *)
Theorem client_keeps_every_event (os : list ClientOp) (reader : list (Result string string)) :
  let '(c, handed) := client_ops os (client_new reader) in
  exists read, reader = read ++ cl_reader c /\ events_of read = handed ++ cl_events c.
Proof.
  assert (Hall : forall os c0 c h, later c0 c h -> let '(c', h') := foldl (fun '(c, handed) o => let '(c, es) := client_op o c in (c, handed ++ es)) (c, h) os in
    later c0 c' h').
  { clear os reader. intros os c0. induction os as [|o os IH]; intros c h Hl; [done|]. cbn [foldl].
    pose proof (client_op_later o c) as Ho. destruct (client_op o c) as [c1 es]. apply IH. by eapply later_trans. }
  specialize (Hall os (client_new reader) (client_new reader) [] (later_refl _)). unfold client_ops.
  destruct (foldl _ _ os) as [c h]. destruct Hall as (read & Hr & He). exists read. by split.
Qed.
End Client.

(** ** The hello of the SDK *)

Section SdkHello.
Context `{ControlSerde} {T : Type} `{!SdkSerde} (to_string : Json -> string) (refuses : list Json -> option ReadError) (took : T -> T -> N).

Lemma handshake_refused (hooks : Hooks T) (opts : ServeOptions) line i out v :
  refuses out = None -> trim line <> EmptyString -> from_str line = Ok v -> is_null v = false ->
  is_true (js_pointer "/result/ok" v) || is_true (js_get "ok" v) = false ->
  exists m, handshake from_str to_string refuses hooks opts true (Ok line :: i) out = (i, out ++ [hello_frame opts], Err m).
Proof.
  intros Hr Hb Hf Hn Ha. assert (Hl : frame_of from_str line = Ok (Some v)).
  { unfold frame_of. rewrite !bool_decide_eq_false_2 by (done || by intros ->). by rewrite Hf. }
  unfold handshake, write_frame. rewrite Hr. unfold expect_frame, read_frame. cbn [next_read].
  change (let? line := Ok line in frame_of from_str line) with (frame_of from_str line). rewrite Hl. cbn. rewrite Hn, Ha. eauto.
Qed.

(** The hello of [serve_socket] is a request to the daemon, which wants the frame of
    docs/control-protocol.md first: it answers an error and serves the connection no
    further. Nor does the SDK take the daemon's answer to a hello that is one. So no hook of
    this SDK registers over the socket. *)
Theorem sdk_hello_is_refused (operators : Operators) (dry_run : bool) (hooks : Hooks T) (opts : ServeOptions) :
  (forall c peer line d, from_str line = Ok (hello_frame opts) ->
     exists e, greet operators dry_run c peer (parse_frame line) d
               = match parse_frame line with Ok _ => serve_stage c CsGone (send c (error_frame None e) d) | Err _ => send c (error_frame None e) d end)
  /\ (forall line i out e, refuses out = None -> trim line <> EmptyString -> from_str line = Ok (error_frame None e) ->
       exists m, handshake from_str to_string refuses hooks opts true (Ok line :: i) out = (i, out ++ [hello_frame opts], Err m))
  /\ (forall line i out op, refuses out = None -> trim line <> EmptyString -> from_str line = Ok (hello_ok_json op dry_run) ->
       exists m, handshake from_str to_string refuses hooks opts true (Ok line :: i) out = (i, out ++ [hello_frame opts], Err m)).
Proof.
  split; [|split]; [|intros line i out e Hr Hb Hf; by apply (handshake_refused _ _ _ _ _ _ Hr Hb Hf)
                     |intros line i out op Hr Hb Hf; by apply (handshake_refused _ _ _ _ _ _ Hr Hb Hf)].
  intros c peer line d Hf. assert (exists r, parse_frame line = rmap FrRequest r) as [r ->].
  { unfold parse_frame. rewrite Hf. unfold hello_frame. destruct (so_identity opts); cbn; eauto. }
  destruct r as [q|e]; cbn; eauto.
Qed.
End SdkHello.
