(* ===== verification/VerdictJson.v ===== *)
(** * The verdict in JSON ([to_json] of [core/src/verdict.rs])

    What [rescind check --json] prints, in its canonical form. [verdict_text_is_the_verdict]
    says that nothing of a verdict is lost in it. *)

From Stdlib Require Import Ascii.
From stdpp Require Import base strings pretty numbers option list sets sorting.
From S2P Require Import Prelude Ordered Model Algebra Intent Backstop Diagnostics Verdict Prose CheckRules Check Json.

Definition VERDICT_VERSION : N := 1.

(** [dur], [txt], [opt_u32] *)
Definition dur (d : option Duration) : Json := js_opt js_num d.
Definition txt (t : option string) : Json := js_opt JsStr t.
Definition opt_u32 (n : option N) : Json := js_opt js_num n.

Definition js_strings (l : list string) : Json := JsArr (map JsStr l).
Definition js_nums (l : list N) : Json := JsArr (map js_num l).

Definition step_keyed (pairs : list (N * Json)) : Json := js_object_of (map (fun p => (show (fst p), snd p)) pairs).

(** An object of some keys, by their values. *)
Definition obj (ks : list string) (vs : list Json) : Json := js_object_of (zip ks vs).

Definition intent_json (i : option Intent) : Json :=
  match i with Some Temporary => JsStr "temporary" | Some Permanent => JsStr "permanent" | None => JsNull end.

Definition ponr_json (p : PointOfNoReturn) : Json :=
  obj ["step"; "guard"; "cost"; "ack"; "gate"] [js_num (pn_step p); txt (pn_guard p); JsStr (pn_cost p); JsStr (pn_ack p); txt (pn_gate p)].

Definition back_to_json (r : N * N) : Json := obj ["from"; "to"] [js_num (fst r); js_num (snd r)].

Definition gate_json (g : GateVerdict) : Json :=
  obj ["satisfiable"; "min_distinct_humans"; "zero_human_path"; "window_s"; "wait_alone_at_s"]
    [JsBool (gv_satisfiable g); js_opt (fun n => js_num (N.of_nat n)) (gv_min_distinct_humans g); JsBool (gv_zero_human_path g);
     dur (gv_window g); dur (gv_wait_alone_at g)].

Definition conditional_json (c : N * string) : Json := obj ["step"; "on"] [js_num (fst c); JsStr (snd c)].

Definition backstop_json (b : BackstopVerdict) : Json :=
  obj ["triggers"; "covers"; "locus"; "installed_before"; "armed_before"; "armed_after"; "late_arming_window"; "scheduler"; "granularity_s";
       "self_enforced"; "drift_policy"; "snapshots"; "conditional"]
    [js_strings (bv_triggers b); js_nums (bv_covers b); JsStr "target"; opt_u32 (bv_installed_before b); opt_u32 (bv_armed_before b);
     opt_u32 (bv_armed_after b); js_nums (bv_late_arming_window b); JsStr (bv_scheduler b); js_num (bv_granularity b); JsBool (bv_self_enforced b);
     step_keyed (map (fun p => (fst p, JsStr (snd p))) (bv_drift_policy b));
     obj ["location"; "cap_bytes"] [JsStr (bv_snapshot_location b); js_num (bv_snapshot_cap b)];
     JsArr (map conditional_json (bv_conditional b))].

Definition touched_json (h : HostTouched) : Json :=
  match h with
  | TouchedHost host directory => obj ["host"; "directory"] [JsStr host; JsStr directory]
  | Unresolved src => obj ["unresolved"] [JsStr src]
  end.

Definition dispatch_json (d : Dispatch) : Json := obj ["source"; "host_contract_hash"] [JsStr (ds_source d); JsStr (ds_host_contract_hash d)].

Definition conflict_json (m : MayConflict) : Json :=
  obj ["earlier"; "later"; "fact"; "refused"] [js_num (mc_earlier m); js_num (mc_later m); JsStr (mc_fact m); JsBool (mc_refused m)].

Definition diagnostic_json (d : Diagnostic) : Json :=
  obj ["code"; "step"; "message"] [JsStr (as_str (dg_code d)); opt_u32 (dg_step d); JsStr (dg_message d)].

Definition step_gate_json (g : StepGateVerdict) : Json :=
  obj ["expr"; "step_digest"; "window_s"; "wait_alone_at_s"] [JsStr (sg_expr g); JsBool true; dur (sg_window g); dur (sg_wait_alone_at g)].

Definition knell_json (k : KnellVerdict) : Json := obj ["guard"; "cost"; "ack"] [txt (kv_guard k); JsStr (kv_cost k); JsStr (kv_ack k)].

Definition step_json (s : StepVerdict) : Json :=
  obj ["n"; "op"; "locus"; "undo"; "undo_locus"; "refusal"; "drift"; "gate"; "knell"; "conditional"; "footprint"]
    [js_num (sv_n s); JsStr (sv_op s); JsStr (sv_locus s); txt (sv_undo s); JsStr (sv_undo_locus s); JsStr (sv_refusal s); txt (sv_drift s);
     js_opt step_gate_json (sv_gate s); js_opt knell_json (sv_knell s); txt (sv_conditional s); js_strings (sv_footprint s)].

(** [to_json] *)
Definition to_json (v : Verdict) : Json :=
  obj ["verdict_version"; "plan"; "host"; "status"; "intent"; "rehearsal"; "mode"; "commit_step"; "fires_by_construction"; "wane_s";
       "reversible_through"; "holds_at"; "point_of_no_return"; "reversible_back_to"; "gate"; "backstop"; "controller_only_undos";
       "held_indefinitely"; "induced_defer"; "hosts_touched"; "deferred"; "dispatch"; "may_conflicts"; "unresolved_bindings"; "diagnostics"; "steps"]
    [js_num VERDICT_VERSION; JsStr (v_plan v); JsStr (v_host v); JsStr (match v_status v with StatusOk => "ok" | StatusRefused => "refused" end);
     intent_json (v_intent v); JsBool (v_rehearsal v); JsStr (v_mode v); opt_u32 (v_commit_step v); JsBool (v_fires_by_construction v);
     dur (v_wane v); js_num (v_reversible_through v); js_nums (v_holds_at v); js_opt ponr_json (v_point_of_no_return v);
     js_opt back_to_json (v_reversible_back_to v); js_opt gate_json (v_gate v); js_opt backstop_json (v_backstop v);
     js_nums (v_controller_only_undos v); js_nums (v_held_indefinitely v); js_nums (v_induced_defer v);
     step_keyed (map (fun p => (fst p, JsArr (map touched_json (snd p)))) (v_hosts_touched v)); js_nums (v_deferred v); dispatch_json (v_dispatch v);
     JsArr (map conflict_json (v_may_conflicts v)); js_strings (v_unresolved_bindings v); JsArr (map diagnostic_json (v_diagnostics v));
     JsArr (map step_json (v_steps v))].

(** ** The parts of an object *)

Lemma zip_fst {A B} (ks : list A) (vs : list B) : length vs = length ks -> map fst (zip ks vs) = ks.
Proof. revert vs. induction ks as [|k ks IH]; intros [|v vs]; try done. cbn. intros [= H]. by rewrite IH. Qed.

Lemma obj_value ks vs k v : NoDup ks -> length vs = length ks -> (k, v) ∈ zip ks vs -> js_get k (obj ks vs) = Some v.
Proof. intros Hn Hl Hin. apply bm_of_list_in; [by rewrite zip_fst|done]. Qed.

Lemma obj_inj ks vs vs' : NoDup ks -> length vs = length ks -> length vs' = length ks -> obj ks vs = obj ks vs' -> vs = vs'.
Proof.
  intros Hn Hl Hl' He. apply list_eq. intros i. destruct (ks !! i) as [k|] eqn:Hk.
  - apply lookup_lt_Some in Hk as Hi. destruct (lookup_lt_is_Some_2 vs i) as [v Hv]; [lia|]. destruct (lookup_lt_is_Some_2 vs' i) as [v' Hv']; [lia|].
    assert (H1 : (k, v) ∈ zip ks vs) by (apply list_elem_of_lookup; exists i; by rewrite lookup_zip_with, Hk, Hv).
    assert (H2 : (k, v') ∈ zip ks vs') by (apply list_elem_of_lookup; exists i; by rewrite lookup_zip_with, Hk, Hv').
    apply obj_value in H1, H2; try done. rewrite He, H2 in H1. by rewrite Hv, Hv'.
  - apply lookup_ge_None in Hk. by rewrite !lookup_ge_None_2 by lia.
Qed.

(** The injections the parts have. *)
Lemma js_opt_inj {A} (f : A -> Json) x y : (forall a b, f a = f b -> a = b) -> (forall a, f a <> JsNull) -> js_opt f x = js_opt f y -> x = y.
Proof. intros Hf Hn. destruct x, y; cbn; intros H; [f_equal; by apply Hf|by apply Hn in H|by symmetry in H; apply Hn in H|done]. Qed.

Lemma js_arr_inj {A} (f : A -> Json) l k : (forall a b, f a = f b -> a = b) -> JsArr (map f l) = JsArr (map f k) -> l = k.
Proof. intros Hf [= H]. revert k H. induction l as [|x l IH]; intros [|y k]; try done. cbn. intros [= Hx Hl]. f_equal; [by apply Hf|by apply IH]. Qed.

Lemma dur_inj x y : dur x = dur y -> x = y.
Proof. apply js_opt_inj; [by intros a b [= ->]|done]. Qed.
Lemma txt_inj x y : txt x = txt y -> x = y.
Proof. apply js_opt_inj; [by intros a b [= ->]|done]. Qed.
Lemma opt_u32_inj x y : opt_u32 x = opt_u32 y -> x = y.
Proof. apply js_opt_inj; [by intros a b [= ->]|done]. Qed.
Lemma js_strings_inj x y : js_strings x = js_strings y -> x = y.
Proof. apply js_arr_inj. by intros a b [= ->]. Qed.
Lemma js_nums_inj x y : js_nums x = js_nums y -> x = y.
Proof. apply js_arr_inj. by intros a b [= ->]. Qed.

(** From two objects of the same keys to the equality of their parts, and from there to that
    of what the parts were made of. *)
Ltac obj_parts H :=
  apply obj_inj in H;
  [cbv [js_num] in H; injection H; clear H; intros
  |apply (bool_decide_eq_true_1 _); vm_compute; reflexivity|reflexivity|reflexivity];
  repeat match goal with
  | E : dur _ = dur _ |- _ => apply dur_inj in E
  | E : txt _ = txt _ |- _ => apply txt_inj in E
  | E : opt_u32 _ = opt_u32 _ |- _ => apply opt_u32_inj in E
  | E : js_strings _ = js_strings _ |- _ => apply js_strings_inj in E
  | E : js_nums _ = js_nums _ |- _ => apply js_nums_inj in E
  | E : map JsStr _ = map JsStr _ |- _ => apply (f_equal JsArr), js_strings_inj in E
  | E : map js_num _ = map js_num _ |- _ => apply (f_equal JsArr), js_nums_inj in E
  end.

Ltac record_inj := intros [] []; let H := fresh in intros H; obj_parts H; cbn in *; by subst.

Lemma ponr_json_inj a b : ponr_json a = ponr_json b -> a = b.
Proof. revert a b. record_inj. Qed.

Lemma back_to_json_inj a b : back_to_json a = back_to_json b -> a = b.
Proof. revert a b. record_inj. Qed.

Lemma gate_json_inj a b : gate_json a = gate_json b -> a = b.
Proof.
  revert a b. intros [] [] H. obj_parts H. cbn in *. subst. f_equal.
  match goal with E : js_opt _ _ = js_opt _ _ |- _ => apply js_opt_inj in E; [done| |done] end. intros a b [= E]. lia.
Qed.

Lemma conditional_json_inj a b : conditional_json a = conditional_json b -> a = b.
Proof. revert a b. record_inj. Qed.

Lemma touched_json_inj a b : touched_json a = touched_json b -> a = b.
Proof.
  destruct a, b; intros H; try (obj_parts H; by subst); apply (f_equal (js_get "host")) in H; by vm_compute in H.
Qed.

Lemma dispatch_json_inj a b : dispatch_json a = dispatch_json b -> a = b.
Proof. revert a b. record_inj. Qed.

Lemma conflict_json_inj a b : conflict_json a = conflict_json b -> a = b.
Proof. revert a b. record_inj. Qed.

Lemma diagnostic_json_inj a b : diagnostic_json a = diagnostic_json b -> a = b.
Proof. revert a b. intros [] [] H. obj_parts H. cbn in *. match goal with E : as_str _ = as_str _ |- _ => apply as_str_inj in E end. by subst. Qed.

Lemma step_gate_json_inj a b : step_gate_json a = step_gate_json b -> a = b.
Proof. revert a b. record_inj. Qed.

Lemma knell_json_inj a b : knell_json a = knell_json b -> a = b.
Proof. revert a b. record_inj. Qed.

Lemma step_json_inj a b : step_json a = step_json b -> a = b.
Proof.
  revert a b. intros [] [] H. obj_parts H. cbn in *. subst.
  repeat match goal with E : js_opt _ _ = js_opt _ _ |- _ => apply js_opt_inj in E; [|auto using step_gate_json_inj, knell_json_inj|done] end.
  by subst.
Qed.

(** ** Values under the numbers of steps *)

Notation ascending := (fun l => StronglySorted N.lt (map fst l)).

Lemma ascending_shows {A} (l : list (N * A)) : ascending l -> NoDup (map (fun p => show (fst p)) l).
Proof.
  intros H. rewrite <- (map_map fst show). apply NoDup_fmap; [intros a b; apply show_inj|].
  induction H as [|n r _ IH Hn]; [constructor|]. constructor; [|done]. intros Hin. rewrite Forall_forall in Hn. apply Hn in Hin. lia.
Qed.

Lemma step_keyed_value l n v : ascending l -> js_get (show n) (step_keyed l) = Some v <-> (n, v) ∈ l.
Proof.
  intros Hs. assert (Hi : forall w, (n, w) ∈ l -> js_get (show n) (step_keyed l) = Some w).
  { intros w Hin. apply bm_of_list_in; [rewrite map_map; by apply ascending_shows|]. apply elem_of_map. by exists (n, w). }
  split; [|apply Hi]. intros Hv. destruct (decide (n ∈ map fst l)) as [([m w] & -> & Hin)%elem_of_map|Hn].
  - pose proof (Hi _ Hin) as Hw. cbn in *. rewrite Hv in Hw. by injection Hw as ->.
  - unfold step_keyed, js_object_of in Hv. cbn in Hv. rewrite bm_of_list_other in Hv; [done|].
    rewrite map_map. intros ([m w] & He & Hin)%elem_of_map. cbn in He. apply show_inj in He as ->. apply Hn, elem_of_map. by exists (m, w).
Qed.

Lemma ascending_ext {A} (l k : list (N * A)) : ascending l -> ascending k -> (forall x, x ∈ l <-> x ∈ k) -> l = k.
Proof.
  revert k. induction l as [|x l IH]; intros k Hl Hk He.
  - destruct k as [|y k]; [done|]. specialize (He y). set_solver.
  - destruct k as [|y k]; [specialize (He x); set_solver|]. inversion Hl as [|? ? Hl' Hx]; inversion Hk as [|? ? Hk' Hy]; subst.
    rewrite Forall_forall in Hx, Hy.
    assert (Hlt : forall z, z ∈ l -> (fst x < fst z)%N) by (intros z Hz; apply Hx, elem_of_map; eauto).
    assert (Hkt : forall z, z ∈ k -> (fst y < fst z)%N) by (intros z Hz; apply Hy, elem_of_map; eauto).
    assert (x = y) as <-.
    { pose proof (proj1 (He x) ltac:(left)) as [->|H1]%elem_of_cons; [done|]. pose proof (proj2 (He y) ltac:(left)) as [->|H2]%elem_of_cons; [done|].
      apply Hkt in H1. apply Hlt in H2. lia. }
    f_equal. apply IH; [done..|]. intros z. specialize (He z). rewrite !elem_of_cons in He. split; intros Hz.
    + destruct (proj1 He (or_intror Hz)) as [->|]; [|done]. apply Hlt in Hz. lia.
    + destruct (proj2 He (or_intror Hz)) as [->|]; [|done]. apply Hkt in Hz. lia.
Qed.

Lemma step_keyed_inj l k : ascending l -> ascending k -> step_keyed l = step_keyed k -> l = k.
Proof. intros Hl Hk He. apply ascending_ext; [done..|]. intros [n v]. by rewrite <- !step_keyed_value, He. Qed.

Lemma keyed_by_inj {A} (f : A -> Json) (l k : list (N * A)) : (forall a b, f a = f b -> a = b) -> ascending l -> ascending k ->
  step_keyed (map (fun p => (fst p, f (snd p))) l) = step_keyed (map (fun p => (fst p, f (snd p))) k) -> l = k.
Proof.
  intros Hf Hl Hk He. apply step_keyed_inj in He; [|by rewrite map_map..]. clear Hl Hk. revert k He.
  induction l as [|[n x] l IH]; intros [|[m y] k]; try done. cbn. intros [= -> ->%Hf Hr]. f_equal. by apply IH.
Qed.

(** ** The whole of it *)

(** What [check] keys by step is ascending. *)
Definition keyed_ascending (v : Verdict) : Prop :=
  ascending (v_hosts_touched v) /\ forall b, v_backstop v = Some b -> ascending (bv_drift_policy b).

Lemma filter_map_ascending {A B} (f : N * A -> option (N * B)) (l : list (N * A)) :
  (forall x y, f x = Some y -> fst y = fst x) -> ascending l -> ascending (filter_map f l).
Proof.
  intros Hf. induction l as [|x l IH]; [constructor|]. inversion 1 as [|? ? Hs Hx]; subst. cbn.
  destruct (f x) as [y|] eqn:Hy; [|auto]. cbn. constructor; [auto|]. rewrite Forall_forall in *. rewrite (Hf _ _ Hy).
  intros m (z & -> & (w & Hw & Hz)%elem_of_filter_map)%elem_of_map. rewrite (Hf _ _ Hz). apply Hx, elem_of_map. eauto.
Qed.

Lemma step_ops_ascending p : ascending (step_ops p).
Proof.
  apply filter_map_ascending; [|apply numbered_sorted]. intros [n it] y H. destruct (op_of it); [|done]. by injection H as <-.
Qed.

Lemma check_ascending site requester p : keyed_ascending (check site requester p).
Proof.
  split; cbn.
  - unfold hosts_touched. rewrite map_map. erewrite map_ext; [apply step_ops_ascending|]. by intros [].
  - intros b. unfold backstop_verdict. destruct (plan_backstop p), (coverage p) as [c|]; try done. intros [= <-]. cbn.
    rewrite map_map. erewrite map_ext; [apply (filter_pairs_sorted _ _ (step_ops_ascending p))|]. by intros [].
Qed.

Lemma backstop_json_inj a b : ascending (bv_drift_policy a) -> ascending (bv_drift_policy b) -> backstop_json a = backstop_json b -> a = b.
Proof.
  destruct a, b. cbn. intros Ha Hb H. obj_parts H.
  repeat match goal with
  | E : bm_of_list _ = bm_of_list _ |- _ => apply (f_equal JsObj), (keyed_by_inj JsStr) in E; [|by intros ? ? [= ->]|done|done]
  | E : map conditional_json _ = _ |- _ => apply (f_equal JsArr), js_arr_inj in E; [|apply conditional_json_inj]
  end. by subst.
Qed.

Lemma intent_json_inj a b : intent_json a = intent_json b -> a = b.
Proof. by destruct a as [[]|], b as [[]|]. Qed.

Lemma status_inj a b : match a with StatusOk => "ok" | StatusRefused => "refused" end = match b with StatusOk => "ok" | StatusRefused => "refused" end -> a = b.
Proof. by destruct a, b. Qed.

Lemma opt_backstop_inj (a b : option BackstopVerdict) :
  (forall x, a = Some x -> ascending (bv_drift_policy x)) -> (forall x, b = Some x -> ascending (bv_drift_policy x)) ->
  js_opt backstop_json a = js_opt backstop_json b -> a = b.
Proof. intros Ha Hb. destruct a, b; try done. cbn. intros H%backstop_json_inj; [by subst|by apply Ha|by apply Hb]. Qed.

Lemma to_json_inj v v' : keyed_ascending v -> keyed_ascending v' -> to_json v = to_json v' -> v = v'.
Proof.
  destruct v, v'. intros [Hh Hb] [Hh' Hb'] H. cbn in Hh, Hb, Hh', Hb'. obj_parts H.
  repeat match goal with
  | E : bm_of_list _ = bm_of_list _ |- _ =>
      apply (f_equal JsObj), (keyed_by_inj (fun hs => JsArr (map touched_json hs))) in E;
        [|intros ? ?; apply js_arr_inj, touched_json_inj|done|done]
  | E : map _ _ = map _ _ |- _ =>
      apply (f_equal JsArr), js_arr_inj in E; [|by auto using step_json_inj, diagnostic_json_inj, conflict_json_inj]
  | E : js_opt backstop_json _ = _ |- _ => apply opt_backstop_inj in E; [|done|done]
  | E : js_opt _ _ = js_opt _ _ |- _ =>
      apply js_opt_inj in E; [|by auto using gate_json_inj, back_to_json_inj, ponr_json_inj|done]
  | E : intent_json _ = intent_json _ |- _ => apply intent_json_inj in E
  | E : match _ with StatusOk => _ | StatusRefused => _ end = _ |- _ => apply status_inj in E
  end.
  assert (v_dispatch = v_dispatch0) as -> by (destruct v_dispatch, v_dispatch0; cbn in *; by subst). by subst.
Qed.

(** ** What is printed *)

Lemma bm_of_list_elem {A} (l : list (string * A)) e : e ∈ bm_of_list l -> e ∈ l.
Proof.
  assert (Hi : forall k (v : A) m, e ∈ bm_insert k v m -> e = (k, v) \/ e ∈ m).
  { intros k v. induction m as [|[k' v'] m IH]; cbn [bm_insert]; [set_solver|]. case_bool_decide; [set_solver|]. destruct (str_le k k'); set_solver. }
  assert (Hf : forall m, e ∈ foldl (fun m x => bm_insert (fst x) (snd x) m) m l -> e ∈ m \/ e ∈ l).
  { induction l as [|[k v] l IH]; intros m; cbn [foldl]; [by left|]. intros [[->|]%Hi|]%IH; set_solver. }
  intros [Hn|]%Hf; [by apply elem_of_nil in Hn|done].
Qed.

Definition whole (v : Json) : Prop := integral v = true.

Lemma whole_object l : Forall (fun e => whole (snd e)) l -> whole (js_object_of l).
Proof.
  intros H. apply forallb_forall. intros e He%list_elem_of_In%bm_of_list_elem. rewrite Forall_forall in H. by apply H.
Qed.

Lemma whole_obj ks vs : Forall whole vs -> whole (obj ks vs).
Proof.
  intros H. apply whole_object. unfold obj. revert ks. induction H as [|v vs Hv _ IH]; intros [|k ks]; try apply Forall_nil_2.
  cbn [zip zip_with]. by apply Forall_cons_2; [|apply IH].
Qed.

Lemma whole_arr {A} (f : A -> Json) l : (forall x, whole (f x)) -> whole (JsArr (map f l)).
Proof. intros Hf. apply forallb_forall. intros v (x & <- & _)%in_map_iff. apply Hf. Qed.

Lemma whole_opt {A} (f : A -> Json) x : (forall x, whole (f x)) -> whole (js_opt f x).
Proof. intros Hf. by destruct x; [apply Hf|]. Qed.

Lemma whole_keyed {A} (f : A -> Json) (l : list (N * A)) : (forall x, whole (f x)) -> whole (step_keyed (map (fun p => (fst p, f (snd p))) l)).
Proof. intros Hf. apply whole_object. rewrite map_map. apply Forall_forall. intros e (x & -> & _)%elem_of_map. apply Hf. Qed.

Ltac whole :=
  intros; repeat first
  [ reflexivity
  | apply whole_obj; repeat apply Forall_cons_2; [..|apply Forall_nil_2]
  | apply (whole_keyed JsStr); intros | apply (whole_keyed (fun hs => JsArr (map touched_json hs))); intros
  | apply whole_arr; intros | apply whole_opt; intros ].

(** A verdict has no float, so it is always printed. *)
Lemma verdict_whole v : whole (to_json v).
Proof.
  assert (Ht : forall h, whole (touched_json h)) by (intros []; whole).
  whole. all: first [apply Ht|match goal with i : Intent |- _ => by destruct i end].
Qed.

Lemma Ok_eq {A E} (a b : A) : @Ok A E a = Ok b -> a = b.
Proof. by intros [= ->]. Qed.

(** C13. The canonical text of a plan's verdict, as [rescind check --json] prints it, always
    exists and is the verdict: two verdicts of one text agree in every field, so nothing an
    operator or a machine reads there stands for two judgements. The two maps keyed by step
    lose no entry, since [check] lists the steps in ascending order. *)
Theorem verdict_text_is_the_verdict (to_vec_pretty : Json -> Result string string) (Hpretty : pretty_of_spec to_vec_pretty)
    (site site' : Site) (requester requester' : string) (p p' : Plan) :
  exists text, encode to_vec_pretty (to_json (check site requester p)) = Ok text
    /\ (encode to_vec_pretty (to_json (check site' requester' p')) = Ok text -> check site' requester' p' = check site requester p).
Proof.
  assert (He : forall v, encode to_vec_pretty (to_json v) = Ok (pretty_value 0 (to_json v) +:+ newline)).
  { intros v. unfold encode. rewrite (Hpretty (to_json v)). pose proof (check_integers_spec (to_json v) "$") as Hc.
    rewrite verdict_whole in Hc. by destruct (check_integers "$" (to_json v)). }
  assert (Hj : forall v v' text, encode to_vec_pretty (to_json v) = Ok text -> encode to_vec_pretty (to_json v') = Ok text -> to_json v = to_json v').
  { intros v v' text. rewrite !He. intros H H'. rewrite <- H' in H. apply Ok_eq in H.
    by destruct (pretty_prefix _ (verdict_whole v) 0 _ newline newline (verdict_whole v') eq_refl eq_refl H). }
  exists (pretty_value 0 (to_json (check site requester p)) +:+ newline). split; [apply He|]. intros Ht.
  apply to_json_inj; [apply check_ascending..|]. exact (Hj _ _ _ Ht (He _)).
Qed.

Lemma verdict_text_is_the_verdict_witness :
  exists text, encode (fun v => Ok (pretty_value 0 v)) (to_json (check demo_site "carol" demo_plan)) = Ok text
    /\ (encode (fun v => Ok (pretty_value 0 v)) (to_json (check demo_site "dave" demo_plan)) = Ok text ->
        check demo_site "dave" demo_plan = check demo_site "carol" demo_plan).
Proof. apply (verdict_text_is_the_verdict (fun v => Ok (pretty_value 0 v))). by intros v. Defined.
